(* ===== verification/_CoqProject ===== *)
-Q . S2P
Prelude.v
Utf8.v
Types.v
Ulid.v
Scanner.v
Parser.v
Format.v
TodoFile.v
Edit.v
LineFixes.v
Universal.v
Chips.v
Notice.v
Query.v
Myers.v
Diff.v
Merge3.v
Hlc.v
TagText.v
TextHistory.v
Ops.v
Notes.v
DocState.v
DocRows.v
DocInvariant.v
DocConverge.v
DocErrors.v
DocFresh.v
DocLocal.v
DocCausal.v
DocView.v
FastId.v
Duplicates.v
UnifiedDiff.v
Mutation.v
MutationSpec.v
Reconcile.v
Lis.v
Sidecar.v
Layout.v
Tree.v
Park.v
ParkSpec.v
DocNewest.v
DocClaims.v
Replay.v
ReplayEnds.v
Frame.v
OpLog.v
Message.v
Sealed.v
EffWordlist.v
Pairing.v
Identity.v
Ceremony.v
Offers.v
Rotation.v
Control.v
Relay.v
Session.v
LiveSync.v
SyncBatch.v
SyncSafe.v
SyncLive.v
