(* ===== verification/Prelude.v ===== *)
(** * txtodo: a verification library

    txtodo keeps plain todo.txt files and their notes in step on several devices. The program is a Rust
    workspace; this library models its own logic and leaves to their authors the libraries it calls.

    ** How the program is put together

    [crates/txtodo-core] reads and writes todo.txt: a line parser (strict and lenient), a formatter and
    editor that keep every byte they do not change, a line and text diff, a three-way merge and the
    checks made on a line. [crates/txtodo-model] holds what devices exchange: stamps of a hybrid
    logical clock, ops, file paths, the workspace layout and the tree of [ref:] directories.
    [crates/txtodo-engine] holds the replicated document: each op is applied to a sequence of placements
    ordered by stamp; a client's command is turned into ops, an outside edit of the file is reconciled
    into ops, and a peer's ops that name a line not here yet wait. The daemon, the sync transport, the
    store and the front ends call these and do the input and output.

    [crates/txtodo-store] keeps each device's ops as one numbered run; [crates/txtodo-sync] frames,
    seals and signs what goes to a peer and holds the session both ends keep; the daemon's live sync
    pushes what the peer lacks and commits what it sends. [relay] keeps blobs it cannot read for
    devices that are away, and wakes them.

    A command runs: a client's mutation is planned as ops against the document ([Mutation]), stamped
    ([Hlc]), applied ([DocState]) and written ([TodoFile]). A peer's ops run: [Park] holds back what
    does not fit yet and applies the rest through [DocState]. An outside edit runs: the new file is
    parsed ([TodoFile]), ids are found or given ([FastId], [Reconcile], or [Sidecar] without tags), the difference ([Diff])
    becomes ops that replay to the file ([Replay]). Ops reach another device so: they are appended to
    the log ([OpLog]), a session's turn ([LiveSync.turn]) merges the runs the peer lacks ([Message.want])
    into a batch, signs, seals ([Sealed]) and frames it ([Frame]); the peer's turn checks it against its
    session ([Session]), appends what is new and acks it.

    ** Files, and the code they model (paths under [src/crates/])

    Shared
    - [Prelude]: bytes, slices and searches on them, stable sorting, [result], option and list lemmas,
      the hint databases and tactics of the library.
    - [Utf8]: Rust's [str], [String] and [char], which the code relies on.
    Core ([txtodo-core/src/])
    - [Types]: [types.rs], [quirks.rs], [error.rs]; [Ulid]: [ulid.rs].
    - [Scanner]: [scanner.rs], [urls.rs], [tokenize.rs], the views of [task.rs].
    - [Parser]: [parse.rs]; [Format]: [format.rs]; [TodoFile]: [file.rs]; [Edit]: [edit.rs].
    - [LineFixes]: [line_fixes.rs], [line_length.rs], [lint.rs], [strict_hint.rs].
    - [Universal]: [universal.rs]; [Chips]: [chips.rs]; [Notice]: [notice.rs]; [Query]: [query.rs],
      [breakdown.rs]: what every front end shows of lines and of changes to them.
    - [Myers], [Diff]: [diff.rs], and [textedit.rs] of the engine; [Merge3]: [merge3.rs].
    Model ([txtodo-model/src/])
    - [Hlc]: [hlc.rs], and the stamp floor of the daemon; [TagText]: [tag_text.rs]; [Ops]: [op.rs] and
      [ids.rs]; [Layout]: [layout.rs]; [Tree]: [tree.rs], and the daemon's [tree.rs].
    Engine ([txtodo-engine/src/])
    - [TextHistory]: [text_history.rs]; [Notes]: [notes_state.rs], a notes document over it.
    - [DocState]: [state.rs] and its parts [state_order.rs], [state_ghosts.rs], [state_rehome.rs],
      [state_erase.rs], [state_reinsert.rs], with [fields.rs] and [apply.rs]. The state is the record
      [DocState], a field per Rust field; each op is a definition of the same name prefixed [doc_],
      over a state-and-error monad that keeps the state reached when an op fails, as [&mut self] does.
    - [FastId]: [fastid.rs], [id_strip.rs]; [Mutation]: [mutation.rs] and its parts, with the daemon's
      [actor_apply.rs] and [replace.rs]; [Reconcile]: [reconcile.rs], with the daemon's re-anchoring of
      a held save; [Replay]: [reconcile_replay.rs]; [Park]: [sync_park.rs].
    - [Duplicates]: [duplicates.rs]; [UnifiedDiff]: [unified_diff.rs].
    - [Lis], [Sidecar]: [reconcile_sidecar.rs], [identity_assign.rs], [identity_fingerprint.rs],
      [identity_levenshtein.rs]: identity without tags, the mode a daemon starts with.
    Store ([txtodo-store/src/])
    - [OpLog]: [ops.rs], [heads.rs] and the reads of [commit.rs], as what the SQL means on the rows.
    Sync ([txtodo-sync/src/])
    - [Frame]: [frame.rs], [append_frame.rs], [lan_link.rs]'s reading, [link.rs]; [Message]: [message.rs],
      [want.rs]; [Sealed]: [sign.rs], [aead.rs], [sealed_ops.rs], with the daemon's [group_epoch.rs].
    - [Session]: [session.rs], [workspace_session.rs]. A method on [&mut self] is a function to the new
      session and its value; every error comes before a change, so it keeps the session.
    Live sync ([txtodo-daemon/src/])
    - [LiveSync]: [lan_session_live.rs], [lan_serve_merged.rs], [lan_apply.rs], [lan_session_ops.rs],
      [sync_commit_gate.rs], [lan_session_shared.rs], [lan_session_dispatch.rs], [lan_session_gate.rs].
      The state is [Conn]: the session, the push bookkeeping [Live], the workspaces carried, the stores.
    - [SyncSafe]: the system of two such ends and the link, as moves.
    Pairing
    - [EffWordlist]: [eff_wordlist.rs]; [Pairing]: [nonce_registry.rs], [transcript.rs], [sas.rs],
      [pairing_grant.rs], [pairing.rs] of [txtodo-sync/src/], a session as a record and its methods.
    - [Identity]: the identity database of [txtodo-store/src/] ([devices.rs], [identity_store.rs],
      [identity_store_own.rs]) and the daemon's records in it ([epoch_info.rs], [removal_why.rs],
      [prune_stale.rs], [device_identity.rs]).
    - [Ceremony]: [pairing_state.rs], [pairing_group_key.rs], [pairing_adopt.rs], [pairing_register.rs],
      [pairing_lan.rs] of the daemon: the pairing a daemon holds, and two daemons with their humans.
    Group keys and the control channel
    - [Rotation]: [rotation.rs] and the grants of [control.rs] of [txtodo-sync/src/], [device_remove.rs] and
      [group_rotation.rs] of the daemon: removing a device, granting a key, taking a grant.
    - [Offers]: [workspace_offer_registry.rs]; [Control]: [control.rs], and [own_vouch.rs],
      [control_session.rs], [control_flow.rs] of the daemon: a session's handlers, two sessions and their link.
    Relay ([relay/src/], beside [crates/])
    - [Relay]: [store.rs], [ratelimit.rs], [http.rs], [retention.rs], [bounds.rs]; a request's handler is a
      state machine whose steps are the stretches between its locks.
    Specifications and proofs, with no code of their own
    - [DocRows], [DocInvariant]: the document as one list of placements, and the invariant every op keeps;
      how often a task is shown is bounded by how often a file opened holds its id, a parameter.
    - [DocErrors]: failing ops, last writer wins, settled erasers, lenient batches, and the ops whose
      application, each accepted, makes a document ([attempts]).
    - [DocConverge], [DocCausal]: orders of arrival that end in the same document. Ops of one commit share
      a stamp, so the orders compared keep those in their order ([same_commits]).
    - [DocFresh], [DocLocal], [DocView]: the document as the plain list of lines its owner sees.
    - [MutationSpec]: a client's commands as edits of that list; [ParkSpec]: what parking delivers, commits
      as groups.
    - [DocNewest], [DocClaims]: entries in stamp order and what erasers claim, for [ReplayEnds]: that
      settling a reconcile ends.
    - [SyncBatch]: a served batch is the ops its runs name, and what a log makes of one; [SyncLive]: what
      a round of turns delivers.

    ** What the theorems show

    - Convergence. [ParkSpec.parking_converges]: new lines and blanks that build on each other,
      delivered in any order and in any batches that keep a commit's ops in order, all land, and the
      document is that of a causal order.
      It rests on [DocCausal.causal_orders_converge]. [TextHistory.arrival_order_converges] does the
      same for the text of one task, [Notes.notes_converge] for a notes document.
    - Sync. [SyncLive.sync_delivers]: what one device stores the other ends up storing, by rounds of the
      daemon's own loop with their batches, refusals, resends and acks; [SyncSafe.sync_keeps_stores_whole]:
      in any moves of two devices and their link every store stays a hole-free first part of what each
      device wrote. They rest on [Session.session_always_in_step] (the session's state machine),
      [OpLog.append_extends_runs] (the log as numbered runs), [Sealed.batch_crosses_the_wire] and
      [Frame.link_delivers_frames] (the wire).
    - Pairing. [Ceremony.pairing_ceremony]: two daemons end up in one group with one key, or with nothing
      changed, as long as the key stores and the joiner's identity database answer.
      [Pairing.key_needs_both_confirmations], [Pairing.no_one_in_the_middle],
      [Pairing.nonce_taken_once], [Pairing.pairing_hands_over_grant]: what a session promises.
    - Group keys. [Control.control_session_catches_up]: a control session brings a device that is behind,
      by fifteen epochs at most, to its peer's epoch with the same keys. [Rotation.epoch_keeps_its_key],
      [Rotation.removed_gets_no_key]: an epoch has its key, a removed device gets none, whatever writes to
      the key store and statements of the identity database fail.
      [Offers.declined_offers_stay_out]: what a registry of offers holds to.
    - Relay. [Relay.mailboxes_refine]: its tables are bounded mailboxes that only their own reader sees;
      [Relay.created_put_wakes]: a stored blob wakes its device, however handlers interleave;
      [Relay.rate_is_bounded]: the rate a group gets.
    - Refinement of the plain list. [DocLocal.local_run_refines], [MutationSpec.plan_batch_refines]: to
      its owner the replicated document is a list of lines, and commands are edits of that list.
    - Invariants. [DocInvariant.doc_reaches_wf], [TextHistory.history_in_step],
      [Hlc.hlc_run_increasing],
      [Notes.notes_stay_whole], and the queue's in [Park.parking_ends].
    - Bytes. [TodoFile.parse_file_to_bytes], [TodoFile.to_bytes_reparse], [Format.strict_parse_emit],
      [Diff.diff_text_apply], [Merge3.merge3_copies]: what is read is written, and no line is lost, the
      blank last line of a merge without a final newline aside. [Parser.parse_line_task_wf]: dates are those
      of the Gregorian calendar. [UnifiedDiff.unified_diff_patches], [UnifiedDiff.edit_script_minimal]: a
      dry run's diff, read as a patch that checks every header and hunk, gives the new file.
    - What front ends share. [Universal.due_dates_counted]: due dates are those of the calendar;
      [Universal.group_partitions]: a grouping is a partition in order; [Chips.chip_carets_safe],
      [Chips.complete_then_reopen]: chips keep text valid and reopening undoes completing;
      [Notice.changes_told_in_time]: a burst of changes is told once, with all of it, within its wait;
      [Query.query_reads_terms]: a query is the conjunction of its terms.
    - Conflicts. [Duplicates.duplicate_groups_exact]: the groups a user is shown are the equal lines.
    - Ends and bounds. [Myers.myers_replays], [Park.parking_ends] (which accounts for every op as waiting,
      skipped or applied), [ReplayEnds.even_run_evens], [DocErrors.leniently_accounts],
      [Tree.tree_depth_bounded], [Reconcile.reconcile_op_bound].
    - Identity without tags. [Sidecar.sidecar_identity], [Sidecar.sidecar_keeps_unedited],
      [Sidecar.sidecar_settles]: ids stay one to one, unedited lines keep theirs, and a file read
      twice gives no op the second time; [Lis.lis_longest]: what counts as moved is as little as can be.
    - Errors and safety. [DocErrors.failed_op_leaves_document], [Reconcile.reconcile_opens],
      [Layout.ref_dirs_safe], [Ops.FilePath_new_safe], [ReplayEnds.settle_renders].

    ** Conventions, bounds and fuel

    A [str] or [String] is a [list byte], a [char] an [N]; [usize] is [nat] ([Z] in [Myers], where the
    code computes on [isize]); an [f64] is a [spec_float] of the Standard Library; [u16], [u64] and [u128] are [N] with the checks the code makes; ids of
    tasks, devices and ops are [N]. Lengths of what is in memory are below [usize::MAX], so sums of them
    are not wrapped. A [HashMap] or [BTreeMap] is a [gmap], taken in key order where the code iterates
    a [BTreeMap]. A panic or an index out of range is [None] where it could happen.
    Fuel is used only where recursion is not structural, and a theorem says it is enough: the rounds of
    [Myers] (one more than both lengths), the re-homing loop (the code's own bound), lenient batches
    ([DocErrors.leniently_accounts], whatever the fuel), the rounds of a retry (one more than the
    ops waiting, [Park.parking_ends]), the tree sent to a client (its depth bound and one), the loops that
    even out blanks ([ReplayEnds.even_run_evens] for one run, [ReplayEnds.settle_renders] for a whole
    settling: bounds linear in the rows and the lines). The loop of
    [LiveSync.merge] adds an op a pass, so its fuel is the batch's cap. The rounds of
    [SyncLive.sync_delivers] are one more than the ops the other end is not known to hold.

    ** Parameters

    [Sealed.Primitives]: the cipher, the signature scheme, key derivation and the message codec, with
    their documented laws in the class [PrimitiveLaws]. [Pairing.PairingPrimitives]: the curve, the
    expansion of a secret and the grant's codec, with [PairingLaws]. [Control.ControlCodec]: the codec of
    control messages, with [ControlLaws]. In [LiveSync], [sends] (does a message fit its
    frame and the link take it) and [Disk] (does a file's run of ops land). In [Query] and [Universal],
    Unicode lowercasing; in [Sidecar.Identity], that too, the edit distance and the assignment solver, of which [IdentityLaws] says that its
    columns are a permutation. Each theorem over them has a witness that runs it with concrete ones.

    ** Not modelled

    Tracing and log lines, [serde] and [postcard] encodings, hashing with third-party crates, the
    daemon's file watching, sockets, RPC and processes, SQLite itself, the CRDT adapter, QUIC,
    discovery and the ciphers, the front ends and the relay's flags and sockets: input and output, or calls
    into other projects' code. Generated protobuf code is not modelled. Debug assertions are not modelled
    as panics; the invariants above state what the ones on data say. In the live sync the digests sent
    for comparison, the per-peer tables and the locks are left out.

    What is left, in the order it would be taken up: the folder carrier, the store's tables of files
    and mirrors, discovery's table of peers, the text of a pairing code. *)
From stdpp Require Export base decidable list option gmap strings countable sorting.
From Stdlib Require Export ZArith NArith Lia.
From Stdlib Require Export Strings.Byte.

#[global] Open Scope nat_scope.
#[global] Open Scope list_scope.

(** ** Bytes and byte strings *)

Abbreviation bytes := (list byte).

#[global] Instance byte_eq_dec : EqDecision byte := Byte.byte_eq_dec.

(** The value of a byte as a number, 0 to 255. *)
Definition bN (c : byte) : N := Byte.to_N c.

(** A string literal as the bytes Rust stores for it. *)
Definition str (s : string) : bytes := String.list_byte_of_string s.
Arguments str s%_string.

Definition in_range (lo hi : N) (c : byte) : bool := (lo <=? bN c)%N && (bN c <=? hi)%N.

(** [u8::is_ascii_digit], [is_ascii_uppercase], [is_ascii_lowercase], [is_ascii_whitespace]. *)
Definition is_ascii_digit (c : byte) : bool := in_range 48 57 c.
Definition is_ascii_uppercase (c : byte) : bool := in_range 65 90 c.
Definition is_ascii_lowercase (c : byte) : bool := in_range 97 122 c.
Definition is_ascii_alphanumeric (c : byte) : bool :=
  is_ascii_digit c || is_ascii_uppercase c || is_ascii_lowercase c.
Definition is_ascii_whitespace (c : byte) : bool :=
  bool_decide (c ∈ [x20; x09; x0a; x0c; x0d]).

(** The byte of a number below 256 ([x00] otherwise, never used there). *)
Definition byte_of_N (n : N) : byte := default x00 (Byte.of_N n).

Definition to_ascii_lowercase (c : byte) : byte :=
  if is_ascii_uppercase c then byte_of_N (bN c + 32) else c.
Definition to_ascii_uppercase (c : byte) : byte :=
  if is_ascii_lowercase c then byte_of_N (bN c - 32) else c.
Definition eq_ignore_ascii_case (s t : bytes) : bool :=
  bool_decide (map to_ascii_lowercase s = map to_ascii_lowercase t).

(** ** Slices and searches (the parts of [str] and [slice] the source uses) *)

(** [&s[a..b]]. *)
Definition slice {A} (a b : nat) (l : list A) : list A := take (b - a) (drop a l).

(** [iter().position(p)]. *)
Fixpoint position {A} (p : A → bool) (l : list A) : option nat :=
  match l with
  | [] => None
  | x :: l' => if p x then Some 0 else S <$> position p l'
  end.

(** [iter().rposition(p)]. *)
Fixpoint rposition {A} (p : A → bool) (l : list A) : option nat :=
  match l with
  | [] => None
  | x :: l' =>
      match rposition p l' with
      | Some i => Some (S i)
      | None => if p x then Some 0 else None
      end
  end.

(** [strip_prefix]: the rest after [p] when the text starts with it. *)
Fixpoint strip_prefix (p l : bytes) : option bytes :=
  match p, l with
  | [], _ => Some l
  | _, [] => None
  | c :: p', d :: l' => if bool_decide (c = d) then strip_prefix p' l' else None
  end.

Definition starts_with (p l : bytes) : bool := bool_decide (is_Some (strip_prefix p l)).

(** [strip_suffix]. *)
Definition strip_suffix (p l : bytes) : option bytes :=
  reverse <$> strip_prefix (reverse p) (reverse l).

Definition ends_with (p l : bytes) : bool := bool_decide (is_Some (strip_suffix p l)).

(** [split(pred)]: the pieces between separators, always at least one. *)
Fixpoint split_on {A} (p : A → bool) (l : list A) : list (list A) :=
  match l with
  | [] => [[]]
  | c :: l' =>
      if p c then [] :: split_on p l'
      else match split_on p l' with
           | w :: ws => (c :: w) :: ws
           | [] => [[c]]
           end
  end.

(** [join(sep)]. *)
Fixpoint join_with {A} (sep : list A) (ws : list (list A)) : list A :=
  match ws with
  | [] => []
  | [w] => w
  | w :: ws' => w ++ sep ++ join_with sep ws'
  end.

(** [contains(pat)] on text. *)
Fixpoint contains_sub (pat l : bytes) : bool :=
  starts_with pat l || match l with [] => false | _ :: l' => contains_sub pat l' end.

Definition contains_byte (c : byte) (l : bytes) : bool := existsb (λ d, bool_decide (d = c)) l.

(** Text in its order: byte by byte. *)
Fixpoint bytes_leb (a b : bytes) : bool :=
  match a, b with
  | [], _ => true
  | _ :: _, [] => false
  | x :: a', y :: b' => if (bN x =? bN y)%N then bytes_leb a' b' else (bN x <? bN y)%N
  end.

(** [v.insert(n, x)], [n] at most the length (a longer one panics; the callers' indices are in range). *)
Definition insert_at {A} (n : nat) (x : A) (l : list A) : list A := take n l ++ x :: drop n l.

(** [iter().max_by]: the last of the greatest elements. *)
Definition max_by {A} (le : A → A → bool) (l : list A) : option A :=
  foldl (λ acc x, match acc with
                  | None => Some x
                  | Some m => if le m x then Some x else Some m
                  end) None l.

(** [iter().min_by]: the first of the least elements. *)
Definition min_by {A} (le : A → A → bool) (l : list A) : option A :=
  foldl (λ acc x, match acc with
                  | None => Some x
                  | Some m => if le m x then Some m else Some x
                  end) None l.

(** A stable sort. *)
Fixpoint sort_insert {A} (le : A → A → bool) (x : A) (l : list A) : list A :=
  match l with
  | [] => [x]
  | y :: l' => if le x y then x :: l else y :: sort_insert le x l'
  end.
Definition stable_sort {A} (le : A → A → bool) (l : list A) : list A := foldr (sort_insert le) [] l.

(** How many leading elements a test accepts: a [while] loop over an index. *)
Fixpoint run_while {A} (test : A → bool) (l : list A) : nat :=
  match l with
  | x :: l' => if test x then S (run_while test l') else 0
  | [] => 0
  end.

(** ** Results: a value or an error *)

Inductive result (E A : Type) : Type :=
| Ok (a : A)
| Err (e : E).
Arguments Ok {E A} a.
Arguments Err {E A} e.

#[global] Instance result_ret E : MRet (result E) := λ A a, Ok a.
#[global] Instance result_bind E : MBind (result E) :=
  λ A B f r, match r with Ok a => f a | Err e => Err e end.
#[global] Instance result_fmap E : FMap (result E) :=
  λ A B f r, match r with Ok a => Ok (f a) | Err e => Err e end.

Definition ok_or {E A} (o : option A) (e : E) : result E A :=
  match o with Some a => Ok a | None => Err e end.
Definition result_ok {E A} (r : result E A) : option A :=
  match r with Ok a => Some a | Err _ => None end.
Definition map_err {E F A} (f : E → F) (r : result E A) : result F A :=
  match r with Ok a => Ok a | Err e => Err (f e) end.
Definition is_ok {E A} (r : result E A) : bool :=
  match r with Ok _ => true | Err _ => false end.

#[global] Instance result_eq_dec {E A} `{EqDecision E} `{EqDecision A} : EqDecision (result E A).
Proof. solve_decision. Defined.

(** ** Automation shared by the components *)

Create HintDb txtodo.

(** Destructs the matches and conditionals of the goal or of a hypothesis, keeping equations. *)
Ltac break_match_goal :=
  match goal with
  | |- context [match ?x with _ => _ end] => destruct x eqn:?
  end.
Ltac break_match_in H :=
  match type of H with
  | context [match ?x with _ => _ end] => destruct x eqn:?
  end.
Ltac break_matches H := repeat (break_match_in H; simplify_eq/=).

(** Turns boolean tests into propositions. *)
Ltac breflect :=
  repeat match goal with
  | H : bool_decide _ = true |- _ => apply bool_decide_eq_true_1 in H
  | H : bool_decide _ = false |- _ => apply bool_decide_eq_false_1 in H
  | H : _ && _ = true |- _ => apply andb_true_iff in H as [? ?]
  | H : _ || _ = false |- _ => apply orb_false_iff in H as [? ?]
  | H : negb _ = true |- _ => apply negb_true_iff in H
  | H : negb _ = false |- _ => apply negb_false_iff in H
  | H : (_ <=? _)%N = true |- _ => apply N.leb_le in H
  | H : (_ <=? _)%N = false |- _ => apply N.leb_gt in H
  | H : (_ <? _)%N = true |- _ => apply N.ltb_lt in H
  | H : (_ <? _)%N = false |- _ => apply N.ltb_ge in H
  | H : (_ =? _)%N = true |- _ => apply N.eqb_eq in H
  | H : (_ =? _)%N = false |- _ => apply N.eqb_neq in H
  | H : (_ <=? _)%Z = true |- _ => apply Z.leb_le in H
  | H : (_ <=? _)%Z = false |- _ => apply Z.leb_gt in H
  | H : (_ <? _)%Z = true |- _ => apply Z.ltb_lt in H
  | H : (_ <? _)%Z = false |- _ => apply Z.ltb_ge in H
  | H : (_ =? _)%Z = true |- _ => apply Z.eqb_eq in H
  | H : (_ =? _)%Z = false |- _ => apply Z.eqb_neq in H
  | H : (_ <=? _) = true |- _ => apply Nat.leb_le in H
  | H : (_ <=? _) = false |- _ => apply Nat.leb_gt in H
  | H : (_ <? _) = true |- _ => apply Nat.ltb_lt in H
  | H : (_ <? _) = false |- _ => apply Nat.ltb_ge in H
  | H : (_ =? _) = true |- _ => apply Nat.eqb_eq in H
  | H : (_ =? _) = false |- _ => apply Nat.eqb_neq in H
  end.

(** ** Lemmas on bytes *)

Lemma bN_inj c d : bN c = bN d → c = d.
Proof.
  intros H. pose proof (Byte.of_to_N c) as Hc. pose proof (Byte.of_to_N d) as Hd.
  unfold bN in H. rewrite H, Hd in Hc. congruence.
Qed.

(** Byte strings in their order. *)
Lemma bytes_leb_total a b : bytes_leb a b = true ∨ bytes_leb b a = true.
Proof.
  revert b. induction a as [|x a IH]; intros [|y b]; cbn; [by left|by left|by right|].
  destruct (bN x =? bN y)%N eqn:E; rewrite N.eqb_sym, E; [apply IH|]. apply N.eqb_neq in E. rewrite !N.ltb_lt. lia.
Qed.

Lemma bytes_leb_trans a b c : bytes_leb a b = true → bytes_leb b c = true → bytes_leb a c = true.
Proof.
  revert b c. induction a as [|x a IH]; intros [|y b] [|z c]; cbn; try done.
  destruct (bN x =? bN y)%N eqn:E1, (bN y =? bN z)%N eqn:E2; rewrite ?N.eqb_eq, ?N.eqb_neq in *.
  - replace (bN x =? bN z)%N with true by (symmetry; apply N.eqb_eq; congruence). apply IH.
  - replace (bN x =? bN z)%N with false by (symmetry; apply N.eqb_neq; congruence). intros _. by rewrite E1.
  - replace (bN x =? bN z)%N with false by (symmetry; apply N.eqb_neq; congruence). intros H _. by rewrite <- E2.
  - rewrite !N.ltb_lt. intros H1 H2. replace (bN x =? bN z)%N with false by (symmetry; apply N.eqb_neq; lia). apply N.ltb_lt. lia.
Qed.

Lemma bytes_leb_antisym a b : bytes_leb a b = true → bytes_leb b a = true → a = b.
Proof.
  revert b. induction a as [|x a IH]; intros [|y b]; cbn; try done. destruct (bN x =? bN y)%N eqn:E; rewrite N.eqb_sym, E.
  - intros H1 H2. apply N.eqb_eq in E. f_equal; [by apply bN_inj|by apply IH].
  - rewrite !N.ltb_lt. lia.
Qed.

Lemma bN_bound c : (bN c < 256)%N.
Proof. pose proof (Byte.to_N_bounded c). unfold bN. lia. Qed.

Lemma bN_of_N n : (n < 256)%N → bN (byte_of_N n) = n.
Proof.
  intros H. unfold byte_of_N, bN.
  destruct (Byte.of_N n) as [c|] eqn:E; simpl.
  - by apply Byte.to_of_N.
  - apply Byte.of_N_None_iff in E. lia.
Qed.

Lemma byte_of_bN c : byte_of_N (bN c) = c.
Proof. unfold byte_of_N, bN. by rewrite Byte.of_to_N. Qed.

Lemma in_range_spec lo hi c : in_range lo hi c = true ↔ (lo <= bN c <= hi)%N.
Proof. unfold in_range. rewrite andb_true_iff, !N.leb_le. lia. Qed.

(** Adding below a shift: [(a << k) | v] with [v] in the low [k] bits. *)
Lemma N_lor_shiftl_add a v k :
  (v < 2 ^ k)%N → N.lor (N.shiftl a k) v = (a * 2 ^ k + v)%N.
Proof.
  intros Hv. assert (N.land (N.shiftl a k) v = 0%N) as Hd.
  { apply N.bits_inj_0. intros i. rewrite N.land_spec.
    destruct (N.lt_ge_cases i k) as [?|?].
    - by rewrite N.shiftl_spec_low.
    - assert (N.testbit v i = false) as ->; [|by rewrite andb_false_r].
      destruct (N.eq_dec v 0) as [->|]; [apply N.bits_0|].
      apply N.bits_above_log2. apply N.log2_lt_pow2; [lia|].
      eapply N.lt_le_trans; [exact Hv|]. apply N.pow_le_mono_r; lia. }
  rewrite <- N.lxor_lor, <- N.add_nocarry_lxor by done. by rewrite N.shiftl_mul_pow2.
Qed.

#[global] Instance byte_countable : Countable byte := inj_countable' bN byte_of_N byte_of_bN.

(** ** Lemmas on slices *)

Section slices.
Context {A : Type}.
Implicit Types l : list A.

Lemma slice_app_split a b l : a ≤ b → take a l ++ slice a b l = take b l.
Proof.
  intros. unfold slice. rewrite <- (take_drop a (take b l)), take_take.
  rewrite Nat.min_l by lia. f_equal. rewrite firstn_skipn_comm.
  by replace (a + (b - a)) with b by lia.
Qed.

Lemma slice_drop_split a b l : a ≤ b → slice a b l ++ drop b l = drop a l.
Proof.
  intros. unfold slice. replace b with (a + (b - a)) at 2 by lia.
  rewrite <- drop_drop. apply take_drop.
Qed.

Lemma slice_length a b l : b ≤ length l → length (slice a b l) = b - a.
Proof. intros. unfold slice. rewrite length_take, length_drop. lia. Qed.

Lemma slice_full l : slice 0 (length l) l = l.
Proof. unfold slice. rewrite drop_0, Nat.sub_0_r. apply firstn_all. Qed.

Lemma insert_at_sublist n (x : A) l : sublist l (insert_at n x l).
Proof.
  unfold insert_at. rewrite <- (take_drop n l) at 1. apply sublist_app; [done|]. by apply sublist_cons.
Qed.

Lemma length_insert_at n (x : A) l : length (insert_at n x l) = S (length l).
Proof. unfold insert_at. rewrite length_app, length_take. simpl. rewrite length_drop. lia. Qed.

Lemma lookup_insert_at n (x : A) l i :
  n ≤ length l →
  insert_at n x l !! i = if i <? n then l !! i else if i =? n then Some x else l !! (i - 1).
Proof.
  intros Hn. unfold insert_at. destruct (Nat.ltb_spec i n).
  - rewrite lookup_app_l by (rewrite length_take; lia). by rewrite lookup_take_lt.
  - rewrite lookup_app_r by (rewrite length_take; lia). rewrite length_take, Nat.min_l by lia.
    destruct (Nat.eqb_spec i n) as [->|]; [by rewrite Nat.sub_diag|].
    replace (i - n) with (S (i - n - 1)) by lia. rewrite lookup_cons, lookup_drop. f_equal. lia.
Qed.

Lemma run_while_spec (test : A → bool) l :
  run_while test l ≤ length l ∧ (∀ i x, i < run_while test l → l !! i = Some x → test x = true)
  ∧ (∀ x, l !! run_while test l = Some x → test x = false).
Proof.
  induction l as [|y l (H1 & H2 & H3)]; simpl; [split_and!; [lia|intros; lia|done]|].
  destruct (test y) eqn:E; simpl.
  - split_and!; [lia| |done]. intros [|i] x Hi Hx; simpl in Hx; [by simplify_eq|]. apply (H2 i); [lia|done].
  - split_and!; [lia|intros; lia|]. intros x [= <-]. done.
Qed.

Lemma position_spec (p : A → bool) l i :
  position p l = Some i →
  ∃ l1 x l2, l = l1 ++ x :: l2 ∧ length l1 = i ∧ p x = true ∧ Forall (λ y, p y = false) l1.
Proof.
  revert i. induction l as [|y l IH]; intros i H; simplify_eq/=.
  destruct (p y) eqn:Hy; simplify_eq/=.
  - by exists [], y, l.
  - apply fmap_Some in H as (j & Hj & ->).
    destruct (IH _ Hj) as (l1 & x & l2 & -> & <- & Hx & Hall).
    exists (y :: l1), x, l2. repeat split; auto.
Qed.

Lemma position_None (p : A → bool) l :
  position p l = None ↔ Forall (λ y, p y = false) l.
Proof.
  induction l as [|y l IH]; simpl; [by split|].
  destruct (p y) eqn:Hy.
  - split; [done|]. inversion 1; congruence.
  - rewrite fmap_None, IH. split; [by constructor|by inversion 1].
Qed.

Lemma split_on_nonempty (p : A → bool) l : split_on p l ≠ [].
Proof. destruct l as [|c l]; simpl; [done|]. destruct (p c); [done|]. by destruct (split_on p l). Qed.

Lemma join_split_on (sep : A) (p : A → bool) l :
  (∀ x, p x = true → x = sep) → join_with [sep] (split_on p l) = l.
Proof.
  intros Hp. induction l as [|c l IH]; simpl; [done|].
  destruct (p c) eqn:Hc.
  - apply Hp in Hc as ->. simpl. destruct (split_on p l) eqn:E.
    + destruct l; simpl in E; [done|]. destruct (p _); [done|]. by destruct (split_on p l).
    + rewrite <- IH. done.
  - destruct (split_on p l) as [|w ws] eqn:E; simpl in *; [by rewrite <- IH|].
    destruct ws; simpl in *; by rewrite <- IH.
Qed.
End slices.

(** ** Sorting *)

Section sorting.
Context {A : Type} (le : A → A → bool).

Lemma stable_sort_perm l : stable_sort le l ≡ₚ l.
Proof.
  assert (∀ x l, sort_insert le x l ≡ₚ x :: l) as Hi.
  { intros x k. induction k as [|y k IH]; cbn; [done|]. destruct (le x y); [done|]. rewrite IH. constructor. }
  induction l as [|x l IH]; cbn; [done|]. by rewrite Hi, IH.
Qed.

Lemma stable_sort_elem l x : x ∈ stable_sort le l ↔ x ∈ l.
Proof. by rewrite stable_sort_perm. Qed.

Lemma stable_sort_sorted l :
  (∀ a b, le a b = true ∨ le b a = true) → (∀ a b c, le a b = true → le b c = true → le a c = true) →
  StronglySorted (λ a b, le a b = true) (stable_sort le l).
Proof.
  intros Htot Htr. induction l as [|x l IH]; [constructor|]. change (stable_sort le (x :: l)) with (sort_insert le x (stable_sort le l)).
  revert IH. generalize (stable_sort le l) as k. clear l.
  intros l. induction l as [|y l IHl]; intros Hs; cbn; [by repeat constructor|].
  apply StronglySorted_inv in Hs as [Hs Hy]. destruct (le x y) eqn:E.
  - constructor; [by constructor|]. constructor; [done|]. eapply Forall_impl; [exact Hy|]. intros z. by apply Htr.
  - constructor; [by apply IHl|]. assert (sort_insert le x l ≡ₚ x :: l) as ->.
    { clear. induction l as [|y l IH]; cbn; [done|]. destruct (le x y); [done|]. rewrite IH. constructor. }
    constructor; [|done]. destruct (Htot x y); [congruence|done].
Qed.

Lemma stable_sort_id l :
  StronglySorted (λ a b, le a b = true) l → stable_sort le l = l.
Proof.
  induction 1 as [|x l Hs IH Hx]; [done|]. change (stable_sort le (x :: l)) with (sort_insert le x (stable_sort le l)).
  rewrite IH. destruct l as [|y l]; [done|]. inversion Hx as [|?? Hxy ?]; subst. cbn. by rewrite Hxy.
Qed.
End sorting.

Lemma foldl_pick {A} (pick : A → A → A) l acc x :
  (∀ a b, pick a b = a ∨ pick a b = b) →
  foldl (λ acc x, match acc with None => Some x | Some m => Some (pick m x) end) acc l = Some x →
  x ∈ l ∨ acc = Some x.
Proof.
  intros Hpick. revert acc. induction l as [|y l IH]; intros acc H; cbn in H; [by right|].
  apply IH in H as [H|H]; [by left; right|]. destruct acc as [m|]; simplify_eq.
  - destruct (Hpick m y) as [->| ->]; [by right|by left; left].
  - by left; left.
Qed.

Lemma max_by_elem {A} le (l : list A) x : max_by le l = Some x → x ∈ l.
Proof.
  intros H. unfold max_by in H.
  destruct (foldl_pick (λ m y, if le m y then y else m) l None x) as [?|?]; try done.
  - intros a b. destruct (le a b); auto.
  - rewrite <- H. clear. generalize (@None A). induction l as [|y l IH]; intros acc; cbn; [done|].
    rewrite IH. f_equal. destruct acc as [m|]; [by destruct (le m y)|done].
Qed.

Lemma min_by_elem {A} le (l : list A) x : min_by le l = Some x → x ∈ l.
Proof.
  intros H. unfold min_by in H.
  destruct (foldl_pick (λ m y, if le m y then m else y) l None x) as [?|?]; try done.
  - intros a b. destruct (le a b); auto.
  - rewrite <- H. clear. generalize (@None A). induction l as [|y l IH]; intros acc; cbn; [done|].
    rewrite IH. f_equal. destruct acc as [m|]; [by destruct (le m y)|done].
Qed.

Lemma min_by_Some {A} le (l : list A) : l ≠ [] → is_Some (min_by le l).
Proof.
  destruct l as [|x l]; [done|]. intros _. unfold min_by. cbn [foldl]. revert x. induction l as [|y l IH]; intros x; [by eexists|].
  cbn [foldl]. destruct (le x y); apply IH.
Qed.

Lemma filter_map_comm {A B} (f : A → B) (p : B → bool) (l : list A) :
  map f (List.filter (λ x, p (f x)) l) = List.filter p (map f l).
Proof. induction l as [|x l IH]; simpl; [done|]. destruct (p (f x)); simpl; by rewrite IH. Qed.

Lemma filter_all {A} (p : A → bool) l : (∀ x, x ∈ l → p x = true) → List.filter p l = l.
Proof.
  induction l as [|x l IH]; intros H; simpl; [done|]. rewrite H by (by left).
  f_equal. apply IH. intros y Hy. apply H. by right.
Qed.

Lemma filter_none {A} (p : A → bool) l : (∀ x, x ∈ l → p x = false) → List.filter p l = [].
Proof.
  induction l as [|x l IH]; intros H; simpl; [done|]. rewrite H by (by left).
  apply IH. intros y Hy. apply H. by right.
Qed.

Lemma filter_perm {A} (p : A → bool) l l' : l ≡ₚ l' → List.filter p l ≡ₚ List.filter p l'.
Proof.
  induction 1 as [|x l l' _ IH|x y l|l1 l2 l3 _ IH1 _ IH2]; cbn; [reflexivity| | |by rewrite IH1].
  - destruct (p x); [by constructor|exact IH].
  - destruct (p x), (p y); first [reflexivity|apply perm_swap].
Qed.

Lemma StronglySorted_weaken {A} (R S : A → A → Prop) l : (∀ a b, R a b → S a b) → StronglySorted R l → StronglySorted S l.
Proof. intros H. induction 1 as [|x l _ IH Hx]; constructor; [done|]. eapply Forall_impl; [exact Hx|]. intros y. apply H. Qed.

Lemma split_on_app {A} (p : A → bool) l x r :
  p x = true → split_on p (l ++ x :: r) = split_on p l ++ split_on p r.
Proof.
  intros Hx. induction l as [|c l IH]; cbn; [by rewrite Hx|]. destruct (p c); [by rewrite IH|].
  rewrite IH. destruct (split_on p l) eqn:E; [|done]. by apply split_on_nonempty in E.
Qed.

Lemma split_on_none {A} (p : A → bool) l : Forall (λ x, p x = false) l → split_on p l = [l].
Proof. induction 1 as [|c l Hc _ IH]; cbn; [done|]. by rewrite Hc, IH. Qed.

Lemma strip_prefix_spec p l r : strip_prefix p l = Some r ↔ l = p ++ r.
Proof.
  revert l. induction p as [|c p IH]; intros l; simpl; [naive_solver|].
  destruct l as [|d l]; simpl; [naive_solver|].
  case_bool_decide; [subst; rewrite IH|]; naive_solver.
Qed.

Lemma starts_with_spec p l : starts_with p l = true ↔ ∃ r, l = p ++ r.
Proof.
  unfold starts_with. rewrite bool_decide_eq_true. unfold is_Some.
  by setoid_rewrite strip_prefix_spec.
Qed.

Lemma strip_suffix_spec p l r : strip_suffix p l = Some r ↔ l = r ++ p.
Proof.
  unfold strip_suffix. rewrite fmap_Some. setoid_rewrite strip_prefix_spec. split.
  - intros (x & H & ->). apply (f_equal reverse) in H.
    by rewrite reverse_involutive, reverse_app, reverse_involutive in H.
  - intros ->. exists (reverse r). by rewrite reverse_app, reverse_involutive.
Qed.

#[export] Hint Resolve bN_bound : txtodo.
