(* ===== verification/Utf8.v ===== *)
(** UTF-8, as Rust's [str], [String] and [char] define it: a [str] is a byte string for which
    [decode] succeeds, [chars] are its Unicode scalar values, and [String::push] appends
    [encode_char]. Standard-library behaviour that [file.rs], [diff.rs], [textedit.rs] and
    [line_length.rs] rely on. *)
From S2P Require Import Prelude.

(** A Rust [char]: a Unicode scalar value. *)
Abbreviation char := N.

Definition is_scalar (c : char) : bool :=
  (c <? 0xD800)%N || ((0xE000 <=? c)%N && (c <=? 0x10FFFF)%N).

(** A continuation byte [10xxxxxx]. *)
Definition is_cont (c : byte) : bool := in_range 0x80 0xBF c.

Definition encode_char (c : char) : bytes :=
  if (c <? 0x80)%N then [byte_of_N c]
  else if (c <? 0x800)%N then [byte_of_N (0xC0 + c / 64); byte_of_N (0x80 + c mod 64)]
  else if (c <? 0x10000)%N then
    [byte_of_N (0xE0 + c / 4096); byte_of_N (0x80 + c / 64 mod 64); byte_of_N (0x80 + c mod 64)]
  else
    [byte_of_N (0xF0 + c / 262144); byte_of_N (0x80 + c / 4096 mod 64);
     byte_of_N (0x80 + c / 64 mod 64); byte_of_N (0x80 + c mod 64)].

Definition encode (cs : list char) : bytes := flat_map encode_char cs.

(** [str::from_utf8]: the scalar values, or [None] when the bytes are not UTF-8. *)
Fixpoint decode (l : bytes) : option (list char) :=
  match l with
  | [] => Some []
  | b0 :: r0 =>
      if (bN b0 <? 0x80)%N then cons (bN b0) <$> decode r0
      else match r0 with
      | [] => None
      | b1 :: r1 =>
          if negb (is_cont b1) then None
          else if in_range 0xC0 0xDF b0 then
            let c := ((bN b0 - 0xC0) * 64 + (bN b1 - 0x80))%N in
            if (0x80 <=? c)%N then cons c <$> decode r1 else None
          else match r1 with
          | [] => None
          | b2 :: r2 =>
              if negb (is_cont b2) then None
              else if in_range 0xE0 0xEF b0 then
                let c := ((bN b0 - 0xE0) * 4096 + (bN b1 - 0x80) * 64 + (bN b2 - 0x80))%N in
                if (0x800 <=? c)%N && is_scalar c then cons c <$> decode r2 else None
              else match r2 with
              | [] => None
              | b3 :: r3 =>
                  if negb (is_cont b3) then None
                  else if in_range 0xF0 0xF7 b0 then
                    let c := ((bN b0 - 0xF0) * 262144 + (bN b1 - 0x80) * 4096
                              + (bN b2 - 0x80) * 64 + (bN b3 - 0x80))%N in
                    if (0x10000 <=? c)%N && (c <=? 0x10FFFF)%N
                    then cons c <$> decode r3 else None
                  else None
              end
          end
      end
  end.

(** A byte string that is a valid [str]. *)
Definition is_utf8 (l : bytes) : bool := bool_decide (is_Some (decode l)).

(** [s.chars()] of a valid [str] ([[]] for other bytes, which no [str] holds). *)
Definition chars (l : bytes) : list char := default [] (decode l).

(** [s.chars().count()]: Rust counts the bytes that are not continuation bytes. *)
Definition char_count (l : bytes) : nat := length (List.filter (λ c, negb (is_cont c)) l).

(** [s.is_char_boundary(i)]. *)
Definition is_char_boundary (l : bytes) (i : nat) : bool :=
  (i =? 0) || (i =? length l)
  || match l !! i with Some c => negb (is_cont c) | None => false end.

(** [char::is_whitespace]: Unicode's White_Space. *)
Definition char_is_whitespace (c : char) : bool :=
  ((9 <=? c) && (c <=? 13) || (c =? 0x20) || (c =? 0x85) || (c =? 0xA0) || (c =? 0x1680) || (0x2000 <=? c) && (c <=? 0x200A)
   || (c =? 0x2028) || (c =? 0x2029) || (c =? 0x202F) || (c =? 0x205F) || (c =? 0x3000))%N.

(** [str::trim]. *)
Definition drop_ws (cs : list char) : list char := drop (run_while char_is_whitespace cs) cs.
Definition str_trim (s : bytes) : bytes := encode (reverse (drop_ws (reverse (drop_ws (chars s))))).

(** [str::split_whitespace]. *)
Definition split_whitespace (s : bytes) : list bytes :=
  map encode (List.filter (λ w, negb (bool_decide (w = []))) (split_on char_is_whitespace (chars s))).

(** ** Lemmas *)

Lemma is_scalar_bound c : is_scalar c = true → (c <= 0x10FFFF)%N.
Proof. unfold is_scalar. rewrite orb_true_iff, andb_true_iff, N.ltb_lt, !N.leb_le. lia. Qed.

Lemma is_scalar_not_surrogate c : is_scalar c = true → (c < 0xD800 ∨ 0xE000 <= c)%N.
Proof. unfold is_scalar. rewrite orb_true_iff, andb_true_iff, N.ltb_lt, !N.leb_le. lia. Qed.

Lemma in_range_of_N lo hi n :
  (n < 256)%N → in_range lo hi (byte_of_N n) = ((lo <=? n) && (n <=? hi))%N.
Proof. intros. unfold in_range. by rewrite bN_of_N. Qed.

Ltac ntest :=
  repeat match goal with
  | |- context [(?a <? ?b)%N] => destruct (N.ltb_spec a b); try lia
  | |- context [(?a <=? ?b)%N] => destruct (N.leb_spec a b); try lia
  end.

(** Splits a scalar into the 6-bit groups its encoding holds. *)
Lemma N_divmod64 (c : N) : ∃ q r, (c = q * 64 + r ∧ r < 64 ∧ c / 64 = q ∧ c mod 64 = r)%N.
Proof.
  exists (c / 64)%N, (c mod 64)%N. pose proof (N.div_mod' c 64).
  pose proof (N.mod_lt c 64 ltac:(lia)). lia.
Qed.

Lemma decode_encode_char c l :
  is_scalar c = true → decode (encode_char c ++ l) = cons c <$> decode l.
Proof.
  intros Hs. pose proof (is_scalar_bound _ Hs) as Hb.
  pose proof (is_scalar_not_surrogate _ Hs) as Hn. unfold encode_char.
  replace (c / 4096)%N with (c / 64 / 64)%N by (rewrite N.Div0.div_div; done).
  replace (c / 262144)%N with (c / 64 / 64 / 64)%N by (rewrite !N.Div0.div_div; done).
  destruct (N_divmod64 c) as (q1 & r1 & E1 & L1 & D1 & M1). rewrite D1, M1.
  destruct (N_divmod64 q1) as (q2 & r2 & E2 & L2 & D2 & M2). rewrite D2, M2.
  destruct (N_divmod64 q2) as (q3 & r3 & E3 & L3 & D3 & M3). rewrite D3, M3.
  clear D1 M1 D2 M2 D3 M3.
  destruct (N.ltb_spec c 0x80); [|destruct (N.ltb_spec c 0x800);
    [|destruct (N.ltb_spec c 0x10000)]]; cbn [app decode];
    unfold is_cont; rewrite ?in_range_of_N, ?bN_of_N by lia; ntest; cbn [negb andb];
    [done|..].
  - replace ((0xC0 + q1 - 0xC0) * 64 + (0x80 + r1 - 0x80))%N with c by lia. done.
  - replace ((0xE0 + q2 - 0xE0) * 4096 + (0x80 + r2 - 0x80) * 64 + (0x80 + r1 - 0x80))%N
      with c by lia. by rewrite Hs.
  - replace ((0xF0 + q3 - 0xF0) * 262144 + (0x80 + r3 - 0x80) * 4096
             + (0x80 + r2 - 0x80) * 64 + (0x80 + r1 - 0x80))%N with c by lia. done.
Qed.

(** [encode_char] on a scalar given by its 6-bit groups. *)
Lemma divmod64_groups q r : (r < 64)%N → ((q * 64 + r) / 64 = q ∧ (q * 64 + r) mod 64 = r)%N.
Proof.
  intros. split.
  - symmetry. apply (N.div_unique _ 64 q r); lia.
  - symmetry. apply (N.mod_unique _ 64 q r); lia.
Qed.

Lemma encode_groups2 x y :
  (x < 32)%N → (y < 64)%N → (0x80 <= x * 64 + y)%N →
  encode_char (x * 64 + y) = [byte_of_N (0xC0 + x); byte_of_N (0x80 + y)].
Proof.
  intros Hx Hy Hc. unfold encode_char. destruct (divmod64_groups x y Hy) as [-> ->]. by ntest.
Qed.

Lemma encode_groups3 x y z :
  (x < 16)%N → (y < 64)%N → (z < 64)%N → (0x800 <= x * 4096 + y * 64 + z)%N →
  encode_char (x * 4096 + y * 64 + z)
  = [byte_of_N (0xE0 + x); byte_of_N (0x80 + y); byte_of_N (0x80 + z)].
Proof.
  intros Hx Hy Hz Hc. replace (x * 4096 + y * 64 + z)%N with ((x * 64 + y) * 64 + z)%N in * by lia.
  unfold encode_char. replace 4096%N with (64 * 64)%N by lia. rewrite <- !N.Div0.div_div.
  destruct (divmod64_groups (x * 64 + y) z Hz) as [-> ->].
  destruct (divmod64_groups x y Hy) as [-> ->]. by ntest.
Qed.

Lemma encode_groups4 w x y z :
  (w < 8)%N → (x < 64)%N → (y < 64)%N → (z < 64)%N →
  (0x10000 <= w * 262144 + x * 4096 + y * 64 + z)%N →
  encode_char (w * 262144 + x * 4096 + y * 64 + z)
  = [byte_of_N (0xF0 + w); byte_of_N (0x80 + x); byte_of_N (0x80 + y); byte_of_N (0x80 + z)].
Proof.
  intros Hw Hx Hy Hz Hc.
  replace (w * 262144 + x * 4096 + y * 64 + z)%N with (((w * 64 + x) * 64 + y) * 64 + z)%N in * by lia.
  unfold encode_char. replace 262144%N with (64 * 64 * 64)%N by lia.
  replace 4096%N with (64 * 64)%N by lia. rewrite <- !N.Div0.div_div.
  destruct (divmod64_groups ((w * 64 + x) * 64 + y) z Hz) as [-> ->].
  destruct (divmod64_groups (w * 64 + x) y Hy) as [-> ->].
  destruct (divmod64_groups w x Hx) as [-> ->]. by ntest.
Qed.

Lemma byte_of_offset k c : (k <= bN c)%N → byte_of_N (k + (bN c - k)) = c.
Proof. intros. rewrite <- (byte_of_bN c) at 2. f_equal. lia. Qed.

Lemma decode_step_intro l c r cs0 :
  l = encode_char c ++ r → is_scalar c = true → cons c <$> decode r = Some cs0 →
  ∃ c' cs' r', cs0 = c' :: cs' ∧ is_scalar c' = true ∧ l = encode_char c' ++ r'
               ∧ decode r' = Some cs'.
Proof. intros -> Hs (cs' & Hr & ->)%fmap_Some. eauto 8. Qed.

(** One decoding step, as a view: the first scalar and the rest. *)
Lemma decode_inv l cs :
  decode l = Some cs →
  (l = [] ∧ cs = []) ∨
  ∃ c cs' r, cs = c :: cs' ∧ is_scalar c = true ∧ l = encode_char c ++ r ∧ decode r = Some cs'.
Proof.
  destruct l as [|b0 r0]; cbn [decode]; intros H; [naive_solver|]. right.
  destruct (N.ltb_spec (bN b0) 0x80) as [L0|L0].
  { eapply decode_step_intro; [| |exact H].
    - unfold encode_char. rewrite byte_of_bN. by ntest.
    - unfold is_scalar. by ntest. }
  destruct r0 as [|b1 r1]; [done|].
  destruct (is_cont b1) eqn:C1; [|done]. apply in_range_spec in C1. cbn [negb] in H.
  destruct (in_range 0xC0 0xDF b0) eqn:R0.
  { apply in_range_spec in R0.
    destruct (N.leb_spec 0x80 ((bN b0 - 0xC0) * 64 + (bN b1 - 0x80))) as [Lc|]; [|done].
    eapply decode_step_intro; [| |exact H].
    - rewrite encode_groups2, !byte_of_offset by lia. done.
    - unfold is_scalar. by ntest. }
  destruct r1 as [|b2 r2]; [done|].
  destruct (is_cont b2) eqn:C2; [|done]. apply in_range_spec in C2. cbn [negb] in H.
  destruct (in_range 0xE0 0xEF b0) eqn:R1.
  { apply in_range_spec in R1.
    destruct (_ && _) eqn:Hc in H; [|done]. apply andb_true_iff in Hc as [Lc%N.leb_le Hs].
    eapply decode_step_intro; [|exact Hs|exact H].
    rewrite encode_groups3, !byte_of_offset by lia. done. }
  destruct r2 as [|b3 r3]; [done|].
  destruct (is_cont b3) eqn:C3; [|done]. apply in_range_spec in C3. cbn [negb] in H.
  destruct (in_range 0xF0 0xF7 b0) eqn:R2; [|done].
  apply in_range_spec in R2.
  destruct (_ && _) eqn:Hc in H; [|done]. apply andb_true_iff in Hc as [Lc%N.leb_le Uc%N.leb_le].
  eapply decode_step_intro; [| |exact H].
  - rewrite encode_groups4, !byte_of_offset by lia. done.
  - unfold is_scalar. by ntest.
Qed.

Lemma encode_char_nonempty c : encode_char c ≠ [].
Proof. unfold encode_char. by repeat case_match. Qed.

Lemma decode_sound l cs :
  decode l = Some cs → encode cs = l ∧ Forall (λ c, is_scalar c = true) cs.
Proof.
  revert l. induction cs as [|c cs IH]; intros l H;
    destruct (decode_inv _ _ H) as [[-> ?]|(c' & cs' & r & ? & Hs & -> & Hr)]; simplify_eq/=.
  - by split.
  - destruct (IH _ Hr) as [<- Hall]. split; [done|by constructor].
Qed.

Lemma decode_encode cs : Forall (λ c, is_scalar c = true) cs → decode (encode cs) = Some cs.
Proof. induction 1 as [|c cs Hc _ IH]; simpl; [done|]. by rewrite decode_encode_char, IH. Qed.

Lemma decode_encode_app cs l :
  Forall (λ c, is_scalar c = true) cs → decode (encode cs ++ l) = app cs <$> decode l.
Proof.
  induction 1 as [|c cs Hc _ IH]; simpl; [by destruct (decode l)|].
  rewrite <- app_assoc, decode_encode_char, IH by done. by destruct (decode l).
Qed.

Lemma encode_app cs1 cs2 : encode (cs1 ++ cs2) = encode cs1 ++ encode cs2.
Proof. apply flat_map_app. Qed.

Lemma chars_encode cs : Forall (λ c, is_scalar c = true) cs → chars (encode cs) = cs.
Proof. intros. unfold chars. by rewrite decode_encode. Qed.

Lemma encode_chars l : is_utf8 l = true → encode (chars l) = l.
Proof.
  unfold is_utf8, chars. intros [cs H]%bool_decide_eq_true. rewrite H. by apply decode_sound.
Qed.

Lemma chars_scalar l : Forall (λ c, is_scalar c = true) (chars l).
Proof. unfold chars. destruct (decode l) eqn:E; [|constructor]. by apply decode_sound in E as []. Qed.

Lemma is_utf8_encode cs : Forall (λ c, is_scalar c = true) cs → is_utf8 (encode cs) = true.
Proof. intros. unfold is_utf8. rewrite decode_encode by done. by apply bool_decide_eq_true. Qed.

Lemma is_utf8_app l1 l2 : is_utf8 l1 = true → is_utf8 l2 = true → is_utf8 (l1 ++ l2) = true.
Proof.
  unfold is_utf8. rewrite !bool_decide_eq_true. intros [c1 H1] [c2 H2].
  destruct (decode_sound _ _ H1) as [<- ?]. rewrite decode_encode_app, H2 by done. by eexists.
Qed.

(** A scalar's encoding is one lead byte and continuation bytes. *)
Lemma encode_char_shape c :
  is_scalar c = true →
  ∃ b t, encode_char c = b :: t ∧ is_cont b = false ∧ Forall (λ d, is_cont d = true) t.
Proof.
  intros Hs. pose proof (is_scalar_bound _ Hs).
  pose proof (N.mod_lt c 64). pose proof (N.mod_lt (c / 64) 64).
  pose proof (N.mod_lt (c / 4096) 64).
  assert (c < 0x800 → c / 64 < 32)%N by (intros; apply N.Div0.div_lt_upper_bound; lia).
  assert (c < 0x10000 → c / 4096 < 16)%N by (intros; apply N.Div0.div_lt_upper_bound; lia).
  assert (c / 262144 < 8)%N by (apply N.Div0.div_lt_upper_bound; lia).
  pose proof (N.le_0_l (c / 64)). pose proof (N.le_0_l (c / 4096)).
  pose proof (N.le_0_l (c / 262144)). pose proof (N.le_0_l (c mod 64)).
  pose proof (N.le_0_l (c / 64 mod 64)). pose proof (N.le_0_l (c / 4096 mod 64)).
  unfold encode_char. repeat case_match; breflect; do 2 eexists; (split; [done|]);
    unfold is_cont; rewrite ?in_range_of_N by lia;
    (split; [by ntest|]); repeat constructor; rewrite in_range_of_N by lia; by ntest.
Qed.

Lemma decode_cont_head c l : is_cont c = true → decode (c :: l) = None.
Proof.
  intros Hc. destruct (decode (c :: l)) as [cs|] eqn:E; [|done].
  destruct (decode_inv _ _ E) as [[? ?]|(c' & cs' & r & _ & Hs & Hl & _)]; [done|].
  destruct (encode_char_shape _ Hs) as (b & t & Hb & Hn & _). rewrite Hb in Hl. simplify_eq/=. congruence.
Qed.

(** A valid text splits into two valid texts before any byte that is not a continuation byte:
    every offset the scanners cut at is a char boundary. *)
Lemma decode_split l1 c l2 cs :
  decode (l1 ++ c :: l2) = Some cs → is_cont c = false →
  ∃ cs1 cs2, decode l1 = Some cs1 ∧ decode (c :: l2) = Some cs2 ∧ cs = cs1 ++ cs2.
Proof.
  intros H Hc. revert l1 H. induction cs as [|ch cs IH]; intros l1 H.
  { destruct (decode_inv _ _ H) as [[? _]|(? & ? & ? & ? & _)]; [by destruct l1|done]. }
  destruct l1 as [|d l1]; [by exists [], (ch :: cs)|].
  destruct (decode_inv _ _ H) as [[_ ?]|(c' & cs' & r & ? & Hs & Hl & Hr)]; [done|]. simplify_eq.
  destruct (encode_char_shape _ Hs) as (b & t & Hb & Hn & Ht).
  rewrite Hb in Hl. injection Hl as -> Hl.
  assert (∃ l1', l1 = t ++ l1' ∧ r = l1' ++ c :: l2) as (l1' & -> & ->).
  { clear -Hl Ht Hc. revert l1 Hl.
    induction Ht as [|e t He Ht IHt]; intros l1 Hl; simpl in Hl; [by exists l1|].
    destruct l1 as [|e' l1]; [injection Hl as -> _; congruence|]. injection Hl as -> Hl.
    destruct (IHt _ Hl) as (l1' & -> & ->). by exists l1'. }
  destruct (IH _ Hr) as (cs1 & cs2 & H1 & H2 & ->).
  exists (c' :: cs1), cs2. split_and!; [|done|done].
  change (b :: t ++ l1') with ((b :: t) ++ l1'). rewrite <- Hb, decode_encode_char by done.
  by rewrite H1.
Qed.

Lemma is_utf8_split l1 c l2 :
  is_utf8 (l1 ++ c :: l2) = true → is_cont c = false →
  is_utf8 l1 = true ∧ is_utf8 (c :: l2) = true.
Proof.
  unfold is_utf8. rewrite !bool_decide_eq_true. intros [cs H] Hc.
  destruct (decode_split _ _ _ _ H Hc) as (? & ? & -> & -> & _). eauto.
Qed.

Lemma char_count_app l1 l2 : char_count (l1 ++ l2) = char_count l1 + char_count l2.
Proof. unfold char_count. by rewrite List.filter_app, length_app. Qed.

Lemma char_count_encode cs :
  Forall (λ c, is_scalar c = true) cs → char_count (encode cs) = length cs.
Proof.
  induction 1 as [|c cs Hc _ IH]; [done|]. cbn [encode flat_map length].
  rewrite char_count_app. fold (encode cs). rewrite IH. clear IH.
  destruct (encode_char_shape _ Hc) as (b & t & -> & Hb & Ht).
  unfold char_count. cbn [List.filter]. rewrite Hb. cbn [negb length].
  replace (List.filter _ t) with (@nil byte); [done|].
  clear Hb. induction Ht as [|d t Hd _ IHt]; simpl; [done|]. by rewrite Hd.
Qed.

(** Counting the bytes that are not continuation bytes counts the chars. *)
Lemma char_count_chars l : is_utf8 l = true → char_count l = length (chars l).
Proof. intros H. rewrite <- (encode_chars l H) at 1. apply char_count_encode, chars_scalar. Qed.

Lemma ascii_not_cont c : (bN c < 0x80)%N → is_cont c = false.
Proof. intros. unfold is_cont, in_range. by ntest. Qed.

Lemma is_char_boundary_0 l : is_char_boundary l 0 = true.
Proof. done. Qed.

Lemma is_char_boundary_end l : is_char_boundary l (length l) = true.
Proof. unfold is_char_boundary. by rewrite Nat.eqb_refl, orb_true_r. Qed.

Lemma is_char_boundary_lookup l i c :
  l !! i = Some c → is_cont c = false → is_char_boundary l i = true.
Proof. intros H Hc. unfold is_char_boundary. by rewrite H, Hc, orb_true_r. Qed.

Lemma is_char_boundary_le l i : is_char_boundary l i = true → i ≤ length l.
Proof.
  unfold is_char_boundary. rewrite !orb_true_iff. intros [[H|H]|H]; breflect; [lia|lia|].
  destruct (l !! i) eqn:E; [|done]. apply lookup_lt_Some in E. lia.
Qed.

Lemma is_utf8_boundary_split l i :
  is_utf8 l = true → is_char_boundary l i = true →
  is_utf8 (take i l) = true ∧ is_utf8 (drop i l) = true.
Proof.
  intros Hu Hi. unfold is_char_boundary in Hi. apply orb_true_iff in Hi as [Hi|Hi].
  - apply orb_true_iff in Hi as [->%Nat.eqb_eq| ->%Nat.eqb_eq].
    + by rewrite take_0, drop_0.
    + by rewrite firstn_all, drop_all.
  - destruct (l !! i) as [c|] eqn:E; [|done]. apply negb_true_iff in Hi.
    rewrite <- (take_drop_middle _ _ _ E) in Hu.
    destruct (is_utf8_split _ _ _ Hu Hi) as [H1 H2]. split; [done|].
    by rewrite (drop_S _ _ _ E).
Qed.

(** Slicing at char boundaries yields text. *)
Lemma is_utf8_slice l a b :
  is_utf8 l = true → is_char_boundary l a = true → is_char_boundary l b = true → a ≤ b →
  is_utf8 (slice a b l) = true.
Proof.
  intros Hu Ha Hb Hab. pose proof (is_char_boundary_le _ _ Hb).
  destruct (is_utf8_boundary_split _ _ Hu Ha) as [_ Hd].
  unfold slice. apply (is_utf8_boundary_split (drop a l) (b - a)) in Hd as [? _]; [done|].
  unfold is_char_boundary in *. rewrite lookup_drop, length_drop.
  replace (a + (b - a)) with b by lia. rewrite !orb_true_iff, !Nat.eqb_eq in Hb.
  rewrite !orb_true_iff, !Nat.eqb_eq. destruct Hb as [[?|?]|?]; [|left; right; lia|by right].
  left; left; lia.
Qed.

(** After an ASCII byte of a text there is a boundary. *)
Lemma boundary_after_ascii l i c :
  is_utf8 l = true → l !! i = Some c → (bN c < 0x80)%N → is_char_boundary l (S i) = true.
Proof.
  intros Hu Hi Hc. unfold is_char_boundary.
  destruct (l !! S i) as [d|] eqn:Hd.
  - destruct (is_cont d) eqn:Ed; [|by rewrite orb_true_r]. exfalso.
    rewrite <- (take_drop_middle _ _ _ Hi) in Hu.
    destruct (is_utf8_split _ _ _ Hu (ascii_not_cont _ Hc)) as [_ H].
    rewrite (drop_S _ _ _ Hd) in H. unfold is_utf8 in H. apply bool_decide_eq_true in H.
    cbn [decode] in H. apply N.ltb_lt in Hc. rewrite Hc in H.
    fold decode in H. change (is_Some (cons (bN c) <$> decode (d :: drop (S (S i)) l))) in H.
    rewrite decode_cont_head in H by done. by destruct H.
  - apply lookup_ge_None in Hd. pose proof (lookup_lt_Some _ _ _ Hi).
    replace (S i =? length l) with true; [by rewrite orb_true_r|].
    symmetry. apply Nat.eqb_eq. lia.
Qed.

#[export] Hint Resolve chars_scalar is_utf8_app is_utf8_encode : txtodo.
