(* ===== verification/Types.v ===== *)
(** Core value types of [crates/txtodo-core/src/types.rs], the strict parser's error of [error.rs],
    the quirk set of [quirks.rs] and the decimal [Display] of Rust integers.

    A calendar date is validated on construction; its text form is the ten bytes [YYYY-MM-DD].
    The theorems: parsing and display of dates are inverse on valid dates, every constructed date
    exists on the calendar, and the quirk set behaves as a set of its eight named bits. *)
From S2P Require Import Prelude.
From S2P Require Import Utf8.

(** ** Integers as text *)

Definition digit (n : N) : byte := byte_of_N (48 + n).

Fixpoint dec_digits (fuel : nat) (n : N) (acc : bytes) : bytes :=
  match fuel with
  | 0 => acc
  | S fuel' =>
      let acc' := digit (n mod 10) :: acc in
      if (n / 10 =? 0)%N then acc' else dec_digits fuel' (n / 10) acc'
  end.

(** [{n}]: the decimal digits of an unsigned integer. A number has no more decimal digits than
    binary ones, so the fuel is enough. *)
Definition display_N (n : N) : bytes := dec_digits (S (N.to_nat (N.log2 n))) n [].

(** [{:0w}]: zero-padded on the left to [w] bytes. *)
Definition pad_zero (w : nat) (s : bytes) : bytes := replicate (w - length s) "0"%byte ++ s.

(** ** Modes, token kinds, spans *)

Inductive Mode := Strict | Lenient.

Inductive TokenKind :=
| CompletionMarker
| CompletionDate
| CreationDate
| KPriority
| Project
| Context
| TagKey
| TagValue
| KIdTag
| KUrl
| KText
| Whitespace.

Record Span := mkSpan { sp_kind : TokenKind; sp_start : nat; sp_end : nat }.

(** ** Dates *)

Record Date := mkDate { year : N; month : N; day : N }.

(** Days in [month] of [year], Gregorian rules. *)
Definition days_in_month (y m : N) : N :=
  let leap := (y mod 4 =? 0)%N && (negb (y mod 100 =? 0)%N || (y mod 400 =? 0)%N) in
  if bool_decide (m ∈ [1; 3; 5; 7; 8; 10; 12]%N) then 31
  else if bool_decide (m ∈ [4; 6; 9; 11]%N) then 30
  else if (m =? 2)%N && leap then 29
  else 28.

Definition Date_new (y m d : N) : option Date :=
  if (9999 <? y)%N || (m =? 0)%N || (12 <? m)%N || (d =? 0)%N || (days_in_month y m <? d)%N
  then None
  else Some (mkDate y m d).

(** Parses ASCII digits; [None] on any non-digit. *)
Definition ascii_number (digits : bytes) : option N :=
  foldl (λ acc d, n ← acc; if is_ascii_digit d then Some (n * 10 + (bN d - 48))%N else None)
        (Some 0%N) digits.

Definition Date_parse (s : bytes) : option Date :=
  if negb (length s =? 10)
     || negb (bool_decide (s !! 4 = Some "-"%byte))
     || negb (bool_decide (s !! 7 = Some "-"%byte)) then None
  else
    y ← ascii_number (slice 0 4 s);
    m ← ascii_number (slice 5 7 s);
    d ← ascii_number (slice 8 10 s);
    Date_new y m d.

Definition Date_display (d : Date) : bytes :=
  pad_zero 4 (display_N (year d)) ++ str "-" ++ pad_zero 2 (display_N (month d))
  ++ str "-" ++ pad_zero 2 (display_N (day d)).

(** A date the constructor accepts. *)
Definition Date_valid (d : Date) : Prop := Date_new (year d) (month d) (day d) = Some d.

(** ** Priorities: stored as the uppercase ASCII letter *)

Inductive Priority := mkPriority (letter : byte).

Definition Priority_new (letter : char) : option Priority :=
  if (65 <=? letter)%N && (letter <=? 90)%N then Some (mkPriority (byte_of_N letter)) else None.

Definition Priority_as_char (p : Priority) : char := let 'mkPriority c := p in bN c.

(** [encode_utf8] of the letter: one ASCII byte. *)
Definition Priority_text (p : Priority) : bytes := encode_char (Priority_as_char p).

Definition Priority_display (p : Priority) : bytes := str "(" ++ Priority_text p ++ str ")".

Definition Priority_valid (p : Priority) : Prop := Priority_new (Priority_as_char p) = Some p.

(** ** Line endings *)

Inductive LineEnding := Lf | CrLf | NoEnding.

Definition LineEnding_as_bytes (e : LineEnding) : bytes :=
  match e with
  | Lf => [x0a]
  | CrLf => [x0d; x0a]
  | NoEnding => []
  end.

(** ** Quirks: a [u16] bit set *)

Inductive Quirks := mkQuirks (bits : N).

Definition bits_of (q : Quirks) : N := let 'mkQuirks b := q in b.

Definition NONE := mkQuirks 0.
Definition NO_COMPLETION_DATE := mkQuirks (N.shiftl 1 0).
Definition PRIORITY_AFTER_X := mkQuirks (N.shiftl 1 1).
Definition PRIORITY_AFTER_DATE := mkQuirks (N.shiftl 1 2).
Definition TABS := mkQuirks (N.shiftl 1 3).
Definition TRAILING_WS := mkQuirks (N.shiftl 1 4).
Definition INVALID_REF := mkQuirks (N.shiftl 1 5).
Definition MIXED_ENDING := mkQuirks (N.shiftl 1 6).
Definition LEADING_WS := mkQuirks (N.shiftl 1 7).

(** All named quirks with their lint names, in bit order. *)
Definition Quirks_ALL : list (Quirks * bytes) :=
  [ (NO_COMPLETION_DATE, str "no_completion_date");
    (PRIORITY_AFTER_X, str "priority_after_x");
    (PRIORITY_AFTER_DATE, str "priority_after_date");
    (TABS, str "tabs");
    (TRAILING_WS, str "trailing_ws");
    (INVALID_REF, str "invalid_ref");
    (MIXED_ENDING, str "mixed_ending");
    (LEADING_WS, str "leading_ws") ].

Definition Quirks_has (q other : Quirks) : bool :=
  (N.land (bits_of q) (bits_of other) =? bits_of other)%N.
Definition Quirks_insert (q other : Quirks) : Quirks := mkQuirks (N.lor (bits_of q) (bits_of other)).
(** [self.0 &= !other.0] on 16 bits. *)
Definition Quirks_remove (q other : Quirks) : Quirks :=
  mkQuirks (N.land (bits_of q) (N.lxor (bits_of other) 0xFFFF)).
Definition Quirks_is_empty (q : Quirks) : bool := (bits_of q =? 0)%N.
Definition Quirks_names (q : Quirks) : list bytes :=
  map snd (List.filter (λ e, Quirks_has q (fst e)) Quirks_ALL).
Definition Quirks_bitor (q other : Quirks) : Quirks := mkQuirks (N.lor (bits_of q) (bits_of other)).
(** Comma-separated lint names, or [none]. *)
Definition Quirks_display (q : Quirks) : bytes :=
  if Quirks_is_empty q then str "none"
  else concat (imap (λ i name, (if i =? 0 then [] else str ",") ++ name) (Quirks_names q)).

(** ** Parsed lines *)

Record Task := mkTask {
  completed : bool;
  completion_date : option Date;
  creation_date : option Date;
  priority : option Priority;
  description : bytes;
}.

Inductive LineKind := LBlank | LTask (t : Task).

Record Line := mkLine {
  raw : bytes;
  kind : LineKind;
  quirks : Quirks;
  ending : LineEnding;
}.

(** The strict parser's error: the grammar rule, the byte offset, a sentence. *)
Record ParseError := mkParseError { rule : bytes; pe_byte : nat; message : bytes }.

#[global] Instance Mode_eq_dec : EqDecision Mode.
Proof. solve_decision. Defined.
#[global] Instance TokenKind_eq_dec : EqDecision TokenKind.
Proof. solve_decision. Defined.
#[global] Instance Span_eq_dec : EqDecision Span.
Proof. solve_decision. Defined.
#[global] Instance Date_eq_dec : EqDecision Date.
Proof. solve_decision. Defined.
#[global] Instance Priority_eq_dec : EqDecision Priority.
Proof. solve_decision. Defined.
#[global] Instance LineEnding_eq_dec : EqDecision LineEnding.
Proof. solve_decision. Defined.
#[global] Instance Quirks_eq_dec : EqDecision Quirks.
Proof. solve_decision. Defined.
#[global] Instance Task_eq_dec : EqDecision Task.
Proof. solve_decision. Defined.
#[global] Instance LineKind_eq_dec : EqDecision LineKind.
Proof. solve_decision. Defined.
#[global] Instance Line_eq_dec : EqDecision Line.
Proof. solve_decision. Defined.
#[global] Instance ParseError_eq_dec : EqDecision ParseError.
Proof. solve_decision. Defined.

(** ** Decimal text *)

Abbreviation digit_step := (λ (acc : option N) (d : byte),
  n ← acc; if is_ascii_digit d then Some (n * 10 + (bN d - 48))%N else None).

Lemma is_ascii_digit_spec c : is_ascii_digit c = true ↔ (48 <= bN c <= 57)%N.
Proof. apply in_range_spec. Qed.

Lemma digit_is_digit n : is_ascii_digit (digit (n mod 10)) = true.
Proof.
  pose proof (N.mod_lt n 10). pose proof (N.le_0_l (n mod 10)).
  apply is_ascii_digit_spec. unfold digit. rewrite bN_of_N; lia.
Qed.

Lemma digit_value n : (bN (digit (n mod 10)) - 48 = n mod 10)%N.
Proof. pose proof (N.mod_lt n 10). pose proof (N.le_0_l (n mod 10)). unfold digit. rewrite bN_of_N; lia. Qed.

Lemma dec_digits_number fuel n acc :
  (n < 2 ^ N.of_nat fuel)%N →
  foldl digit_step (Some 0%N) (dec_digits fuel n acc) = foldl digit_step (Some n) acc.
Proof.
  revert n acc. induction fuel as [|fuel IH]; intros n acc Hn.
  { replace n with 0%N by (change (2 ^ N.of_nat 0)%N with 1%N in Hn; lia). done. }
  cbn [dec_digits]. pose proof (N.div_mod' n 10) as Hdm. destruct (N.eqb_spec (n / 10) 0) as [E|E].
  - cbn [foldl mbind option_bind]. rewrite digit_is_digit, digit_value. do 3 f_equal. lia.
  - rewrite IH.
    + cbn [foldl mbind option_bind]. rewrite digit_is_digit, digit_value. do 2 f_equal. lia.
    + rewrite Nat2N.inj_succ, N.pow_succ_r' in Hn. apply N.Div0.div_lt_upper_bound. lia.
Qed.

Lemma ascii_number_display n : ascii_number (display_N n) = Some n.
Proof.
  unfold ascii_number, display_N. rewrite dec_digits_number; [done|].
  rewrite Nat2N.inj_succ, N2Nat.id. destruct (N.eq_dec n 0) as [->|]; [done|].
  apply N.log2_spec. lia.
Qed.

Lemma dec_digits_length fuel n acc k :
  (n < 10 ^ N.of_nat (S k))%N → length (dec_digits fuel n acc) ≤ S k + length acc.
Proof.
  revert n acc k. induction fuel as [|fuel IH]; intros n acc k Hn; cbn [dec_digits]; [lia|].
  destruct (N.eqb_spec (n / 10) 0) as [E|E]; [simpl; lia|].
  destruct k as [|k].
  - exfalso. apply E. apply N.div_small. simpl in Hn. lia.
  - etrans; [apply (IH _ _ k)|simpl; lia].
    rewrite (Nat2N.inj_succ (S k)), N.pow_succ_r' in Hn. apply N.Div0.div_lt_upper_bound. lia.
Qed.

Lemma dec_digits_digits fuel n acc :
  Forall (λ c, is_ascii_digit c = true) acc →
  Forall (λ c, is_ascii_digit c = true) (dec_digits fuel n acc).
Proof.
  revert n acc. induction fuel as [|fuel IH]; intros n acc H; cbn [dec_digits]; [done|].
  case_match; [|apply IH]; constructor; auto using digit_is_digit.
Qed.

Lemma display_N_digits n : Forall (λ c, is_ascii_digit c = true) (display_N n).
Proof. by apply dec_digits_digits. Qed.

Lemma ascii_number_zeros k s : ascii_number (replicate k "0"%byte ++ s) = ascii_number s.
Proof. unfold ascii_number. induction k as [|k IH]; [done|]. exact IH. Qed.

Lemma pad_zero_length w n :
  (n < 10 ^ N.of_nat (S w))%N → length (pad_zero (S w) (display_N n)) = S w.
Proof.
  intros H. unfold pad_zero. rewrite length_app, length_replicate.
  pose proof (dec_digits_length (S (N.to_nat (N.log2 n))) n [] w H) as Hl.
  simpl in Hl. unfold display_N. simpl. lia.
Qed.

Lemma ascii_number_pad w n : ascii_number (pad_zero w (display_N n)) = Some n.
Proof. unfold pad_zero. rewrite ascii_number_zeros. apply ascii_number_display. Qed.

Lemma ascii_number_snoc s d :
  ascii_number (s ++ [d]) =
    n ← ascii_number s; if is_ascii_digit d then Some (n * 10 + (bN d - 48))%N else None.
Proof. unfold ascii_number. by rewrite foldl_app. Qed.

(** Fixed-width numerals are unambiguous. *)
Lemma ascii_number_inj s t n :
  length s = length t → ascii_number s = Some n → ascii_number t = Some n → s = t.
Proof.
  revert t n. induction s as [|d s IH] using rev_ind; intros t n Hl Hs Ht.
  { by destruct t. }
  destruct t as [|e t _] using rev_ind; [rewrite length_app in Hl; simpl in Hl; lia|].
  rewrite !length_app in Hl. simpl in Hl. rewrite ascii_number_snoc in Hs, Ht.
  destruct (ascii_number s) as [ns|] eqn:Es; [|done].
  destruct (ascii_number t) as [nt|] eqn:Et; [|done]. simpl in Hs, Ht.
  destruct (is_ascii_digit d) eqn:Hd; [|done]. destruct (is_ascii_digit e) eqn:He; [|done].
  apply is_ascii_digit_spec in Hd. apply is_ascii_digit_spec in He. simplify_eq.
  assert (ns = nt ∧ bN d = bN e) as [-> Hde] by lia.
  rewrite (IH t nt) by (auto; lia). by rewrite (bN_inj _ _ Hde).
Qed.

(** ** Dates *)

Lemma Date_new_inv y m d date :
  Date_new y m d = Some date →
  date = mkDate y m d ∧ (y <= 9999 ∧ 1 <= m <= 12 ∧ 1 <= d ∧ d <= days_in_month y m)%N.
Proof.
  unfold Date_new. destruct (_ || _) eqn:E; [done|]. intros ?. simplify_eq.
  breflect. split; [done|]. lia.
Qed.

Lemma days_in_month_bound y m : (28 <= days_in_month y m <= 31)%N.
Proof. unfold days_in_month. repeat case_match; lia. Qed.

Lemma Date_parse_valid s d : Date_parse s = Some d → Date_valid d.
Proof.
  unfold Date_parse, Date_valid. intros H. destruct (_ || _) in H; [done|].
  apply bind_Some in H as (y & _ & (m & _ & (dd & _ & H)%bind_Some)%bind_Some).
  by destruct (Date_new_inv _ _ _ _ H) as [-> _].
Qed.

Lemma Date_display_shape d :
  Date_valid d →
  ∃ y m e, Date_display d = y ++ "-"%byte :: m ++ "-"%byte :: e
    ∧ length y = 4 ∧ length m = 2 ∧ length e = 2
    ∧ ascii_number y = Some (year d) ∧ ascii_number m = Some (month d)
    ∧ ascii_number e = Some (day d).
Proof.
  intros H. destruct (Date_new_inv _ _ _ _ H) as [_ Hb].
  pose proof (days_in_month_bound (year d) (month d)).
  eexists _, _, _. unfold Date_display. split; [reflexivity|].
  rewrite !pad_zero_length, !ascii_number_pad; [done|..]; simpl; lia.
Qed.

Lemma Date_parse_display_valid d : Date_valid d → Date_parse (Date_display d) = Some d.
Proof.
  intros H. destruct (Date_display_shape _ H) as (y & m & e & -> & Hy & Hm & He & Ny & Nm & Ne).
  do 4 (destruct y as [|? y]; [done|]); destruct y; [|done].
  do 2 (destruct m as [|? m]; [done|]); destruct m; [|done].
  do 2 (destruct e as [|? e]; [done|]); destruct e; [|done].
  unfold Date_parse. cbn [app length slice take drop Nat.sub lookup list_lookup].
  rewrite Ny, Nm, Ne. exact H.
Qed.

Lemma Date_display_parse_exact s d : Date_parse s = Some d → Date_display d = s.
Proof.
  intros H. pose proof (Date_parse_valid _ _ H) as Hv.
  destruct (Date_display_shape _ Hv) as (y & m & e & -> & Hy & Hm & He & Ny & Nm & Ne).
  unfold Date_parse in H. destruct (_ || _) eqn:E; [done|]. breflect.
  do 10 (destruct s as [|? s]; [done|]). destruct s; [|done].
  cbn [slice take drop Nat.sub] in H. simpl in *. simplify_eq.
  apply bind_Some in H as (y' & Ey & (m' & Em & (e' & Ee & H)%bind_Some)%bind_Some).
  destruct (Date_new_inv _ _ _ _ H) as [-> _]. simpl in *.
  rewrite (λ E, ascii_number_inj y _ _ E Ny Ey) by done.
  rewrite (λ E, ascii_number_inj m _ _ E Nm Em) by done.
  by rewrite (λ E, ascii_number_inj e _ _ E Ne Ee) by done.
Qed.

(** ** Priorities *)

Lemma Priority_new_valid c p : Priority_new c = Some p → Priority_valid p.
Proof.
  unfold Priority_valid, Priority_new. destruct (_ && _) eqn:E; intros; simplify_eq/=. breflect.
  rewrite bN_of_N by lia. rewrite andb_true_intro; [done|]. by rewrite !N.leb_le.
Qed.

Lemma Priority_valid_letter p :
  Priority_valid p → ∃ c, p = mkPriority c ∧ is_ascii_uppercase c = true ∧ Priority_text p = [c].
Proof.
  destruct p as [c]. unfold Priority_valid, Priority_new. simpl.
  destruct (_ && _) eqn:E; [|done]. intros _. exists c. split_and!; [done|done|].
  breflect. unfold Priority_text, encode_char. simpl. rewrite byte_of_bN.
  destruct (N.ltb_spec (bN c) 0x80); [done|lia].
Qed.

(** ** Quirks *)

(** A set of the eight named bits (every set the source builds is one). *)
Definition Quirks_wf (q : Quirks) : Prop := (bits_of q < 256)%N.

Lemma Quirks_insert_comm q a b :
  Quirks_insert (Quirks_insert q a) b = Quirks_insert (Quirks_insert q b) a.
Proof. unfold Quirks_insert. simpl. f_equal. rewrite <- !N.lor_assoc. f_equal. apply N.lor_comm. Qed.

Lemma Quirks_has_insert q a : Quirks_has (Quirks_insert q a) a = true.
Proof.
  unfold Quirks_has, Quirks_insert. simpl. apply N.eqb_eq. apply N.bits_inj. intros i.
  rewrite N.land_spec, N.lor_spec. by destruct (N.testbit _ _), (N.testbit _ _).
Qed.

Lemma Quirks_insert_id q a : Quirks_has q a = true → Quirks_insert q a = q.
Proof.
  unfold Quirks_has, Quirks_insert. rewrite N.eqb_eq. intros H. destruct q as [x]. simpl in *.
  f_equal. apply N.bits_inj. intros i. rewrite N.lor_spec. rewrite <- H, N.land_spec.
  by destruct (N.testbit _ _), (N.testbit _ _).
Qed.

#[export] Hint Resolve Date_parse_valid Priority_new_valid : txtodo.

(** A date reads back exactly: a text parses to a date just when the date is on the calendar and
    the text is what the date prints as. *)
Theorem Date_parse_exact s d : Date_parse s = Some d ↔ Date_valid d ∧ s = Date_display d.
Proof.
  split; [intros H; split; [by eapply Date_parse_valid|by rewrite (Date_display_parse_exact _ _ H)]|].
  intros [Hv ->]. by apply Date_parse_display_valid.
Qed.
