(* ===== verification/Ulid.v ===== *)
(** ULIDs of [crates/txtodo-core/src/ulid.rs]: 26 Crockford base32 characters for 128 bits.
    Parsing and display are inverse: every 128-bit value has exactly one text. *)
From S2P Require Import Prelude.

(** A 128-bit value. *)
Inductive Ulid := mkUlid (bits : N).

Definition ALPHABET : bytes := str "0123456789ABCDEFGHJKMNPQRSTVWXYZ".
Definition ULID_LEN : nat := 26.
Definition u128_mod : N := 2 ^ 128.

Definition from_u128 (bits : N) : Ulid := mkUlid bits.
Definition to_u128 (u : Ulid) : N := let 'mkUlid b := u in b.

(** Value of one Crockford character, or [None]. *)
Definition decode_char (c : byte) : option N :=
  N.of_nat <$> position (λ a, bool_decide (a = c)) ALPHABET.

(** [bits = (bits << 5) | v] on [u128]. *)
Definition Ulid_step (acc : option N) (c : byte) : option N :=
  bits ← acc;
  v ← decode_char c;
  Some (N.lor (N.shiftl bits 5 mod u128_mod) v).

Definition Ulid_parse (s : bytes) : option Ulid :=
  match s with
  | c :: _ =>
      if negb (length s =? ULID_LEN) || (bN "7"%byte <? bN c)%N then None
      else mkUlid <$> foldl Ulid_step (Some 0%N) s
  | [] => None
  end.

(** The display loop: fills the slots from the last, five bits each. *)
Fixpoint Ulid_slots (n : nat) (bits : N) (acc : bytes) : bytes :=
  match n with
  | 0 => acc
  | S n' =>
      let c := default "0"%byte (ALPHABET !! N.to_nat (N.land bits 31)) in
      Ulid_slots n' (N.shiftr bits 5) (c :: acc)
  end.

Definition Ulid_display (u : Ulid) : bytes := Ulid_slots ULID_LEN (to_u128 u) [].

Definition Ulid_wf (u : Ulid) : Prop := (to_u128 u < u128_mod)%N.

#[global] Instance Ulid_eq_dec : EqDecision Ulid.
Proof. solve_decision. Defined.
#[global] Instance Ulid_countable : Countable Ulid.
Proof. apply (inj_countable' to_u128 mkUlid). by intros []. Defined.

(** ** Lemmas *)

Lemma decode_char_alphabet i :
  (i < 32)%N → decode_char (default "0"%byte (ALPHABET !! N.to_nat i)) = Some i.
Proof.
  intros Hi.
  assert (Forall (λ i, decode_char (default "0"%byte (ALPHABET !! i)) = Some (N.of_nat i)) (seq 0 32))
    as Hall by (by vm_compute; repeat constructor).
  rewrite Forall_forall in Hall. rewrite Hall; [by rewrite N2Nat.id|].
  apply elem_of_seq. lia.
Qed.

Lemma decode_char_inv c v :
  decode_char c = Some v → (v < 32)%N ∧ ALPHABET !! N.to_nat v = Some c.
Proof.
  unfold decode_char. intros (i & Hi & ->)%fmap_Some.
  destruct (position_spec _ _ _ Hi) as (l1 & x & l2 & E & <- & Hx & _).
  apply bool_decide_eq_true in Hx as ->. rewrite Nat2N.id. split.
  - assert (length ALPHABET = 32) as Hl by done. rewrite E, length_app in Hl. simpl in Hl. lia.
  - rewrite E. by rewrite list_lookup_middle.
Qed.

Lemma land31 n : N.land n 31 = (n mod 32)%N.
Proof. change 31%N with (N.ones 5). by rewrite N.land_ones. Qed.

Lemma shiftr5 n : N.shiftr n 5 = (n / 32)%N.
Proof. by rewrite N.shiftr_div_pow2. Qed.

Lemma Ulid_step_add a c v :
  decode_char c = Some v → (a * 32 < u128_mod)%N → Ulid_step (Some a) c = Some (a * 32 + v)%N.
Proof.
  intros Hv Ha. unfold Ulid_step. cbn [mbind option_bind]. rewrite Hv.
  destruct (decode_char_inv _ _ Hv) as [Hlt _]. do 2 f_equal.
  rewrite N.mod_small by (rewrite N.shiftl_mul_pow2; exact Ha).
  cbn [mbind option_bind]. by rewrite N_lor_shiftl_add.
Qed.

Lemma Ulid_slots_number n bits a acc :
  ((a * 32 ^ N.of_nat n + bits) < u128_mod)%N → (bits < 32 ^ N.of_nat n)%N →
  foldl Ulid_step (Some a) (Ulid_slots n bits acc)
  = foldl Ulid_step (Some (a * 32 ^ N.of_nat n + bits)%N) acc.
Proof.
  revert bits a acc. induction n as [|n IH]; intros bits a acc Hu Hb; cbn [Ulid_slots].
  { change (32 ^ N.of_nat 0)%N with 1%N in *. do 2 f_equal. lia. }
  rewrite shiftr5, land31. rewrite Nat2N.inj_succ, N.pow_succ_r' in *.
  pose proof (N.div_mod' bits 32) as Hdm. pose proof (N.mod_lt bits 32 ltac:(lia)) as Hm.
  assert (bits / 32 < 32 ^ N.of_nat n)%N by (apply N.Div0.div_lt_upper_bound; lia).
  set (P := (32 ^ N.of_nat n)%N) in *. set (q := (bits / 32)%N) in *.
  set (r := (bits mod 32)%N) in *. clearbody P q r.
  assert (a * (32 * P) = 32 * (a * P))%N as Ha by lia. rewrite Ha in Hu.
  set (aP := (a * P)%N) in *. clearbody aP.
  rewrite IH by lia. cbn [foldl]. erewrite Ulid_step_add; [|by apply decode_char_alphabet|lia].
  do 2 f_equal. lia.
Qed.

Lemma Ulid_slots_snoc n bits acc : Ulid_slots n bits acc = Ulid_slots n bits [] ++ acc.
Proof.
  revert bits acc. induction n as [|n IH]; intros bits acc; cbn [Ulid_slots]; [done|].
  rewrite IH, (IH _ [_]), <- app_assoc. done.
Qed.

Lemma Ulid_slots_length n bits : length (Ulid_slots n bits []) = n.
Proof.
  revert bits. induction n as [|n IH]; intros bits; cbn [Ulid_slots]; [done|].
  rewrite Ulid_slots_snoc, length_app, IH. simpl. lia.
Qed.

Lemma Ulid_slots_S n bits :
  Ulid_slots (S n) bits []
  = Ulid_slots n (bits / 32) [] ++ [default "0"%byte (ALPHABET !! N.to_nat (bits mod 32))].
Proof. cbn [Ulid_slots]. by rewrite Ulid_slots_snoc, land31, shiftr5. Qed.

Lemma Ulid_slots_head n bits :
  ∃ l, Ulid_slots (S n) bits []
       = default "0"%byte (ALPHABET !! N.to_nat (bits / 32 ^ N.of_nat n mod 32)) :: l.
Proof.
  revert bits. induction n as [|n IH]; intros bits.
  - exists []. rewrite Ulid_slots_S. change (32 ^ N.of_nat 0)%N with 1%N. by rewrite N.div_1_r.
  - rewrite Ulid_slots_S. destruct (IH (bits / 32)%N) as [l ->]. eexists. cbn [app].
    by rewrite N.Div0.div_div, Nat2N.inj_succ, N.pow_succ_r'.
Qed.

Lemma Ulid_first_char v :
  (v < 32)%N →
  (bN "7"%byte <? bN (default "0"%byte (ALPHABET !! N.to_nat v)))%N = negb (v <? 8)%N.
Proof.
  intros Hv.
  assert (Forall (λ i, (bN "7"%byte <? bN (default "0"%byte (ALPHABET !! N.to_nat i)))%N
                       = negb (i <? 8)%N) (N.of_nat <$> seq 0 32))
    as Hall by (by vm_compute; repeat constructor).
  rewrite Forall_forall in Hall. apply Hall. apply list_elem_of_fmap.
  exists (N.to_nat v). rewrite N2Nat.id. split; [done|]. apply elem_of_seq. lia.
Qed.

Lemma u128_split : u128_mod = (32 ^ N.of_nat 25 * 8)%N.
Proof. by vm_compute. Qed.

Lemma u128_le_slots : (u128_mod <= 32 ^ N.of_nat ULID_LEN)%N.
Proof. by vm_compute. Qed.

Lemma Ulid_parse_display_wf u : Ulid_wf u → Ulid_parse (Ulid_display u) = Some u.
Proof.
  destruct u as [bits]. unfold Ulid_wf. cbn [to_u128]. intros Hw. unfold Ulid_display.
  pose proof (Ulid_slots_length ULID_LEN bits) as Hl.
  pose proof (Ulid_slots_number ULID_LEN bits 0 []) as Hn.
  destruct (Ulid_slots_head 25 bits) as [l Hh]. cbn [to_u128]. unfold Ulid_parse.
  change (S 25) with ULID_LEN in Hh. rewrite Hh in *. rewrite Hl. simpl negb. cbn [orb].
  assert (bits / 32 ^ N.of_nat 25 < 8)%N as H8 by (apply N.Div0.div_lt_upper_bound; rewrite <- u128_split; exact Hw).
  pose proof (N.le_0_l (bits / 32 ^ N.of_nat 25)).
  rewrite (N.mod_small (bits / 32 ^ N.of_nat 25) 32) in * by lia.
  rewrite Ulid_first_char by lia. apply N.ltb_lt in H8. rewrite H8. simpl negb.
  rewrite Hn; [by rewrite N.mul_0_l, N.add_0_l|by rewrite N.mul_0_l, N.add_0_l|].
  eapply N.lt_le_trans; [exact Hw|exact u128_le_slots].
Qed.

(** Parsing reads a base-32 number, digit by digit, without losing a bit. *)
Lemma Ulid_foldl_inv s a n :
  foldl Ulid_step (Some a) s = Some n → ((a + 1) * 32 ^ N.of_nat (length s) <= u128_mod)%N →
  ∃ t, (t < 32 ^ N.of_nat (length s))%N ∧ n = (a * 32 ^ N.of_nat (length s) + t)%N
       ∧ Ulid_slots (length s) t [] = s.
Proof.
  revert n. induction s as [|c s IH] using rev_ind; intros n H Ha.
  { exists 0%N. simpl in *. simplify_eq. split_and!; [done|lia|done]. }
  rewrite length_app in *. change (length [c]) with 1 in *. rewrite Nat.add_1_r in *.
  rewrite Nat2N.inj_succ, N.pow_succ_r' in *. rewrite foldl_app in H. cbn [foldl] in H.
  destruct (foldl Ulid_step (Some a) s) as [m|] eqn:Es; [|done].
  set (P := (32 ^ N.of_nat (length s))%N) in *.
  assert (a * (32 * P) = 32 * (a * P))%N as E32 by lia.
  assert ((a + 1) * (32 * P) = 32 * (a * P) + 32 * P)%N as E33 by lia. rewrite E33 in Ha.
  destruct (IH m eq_refl) as (t & Ht & -> & Hs); [lia|].
  destruct (decode_char c) as [v|] eqn:Hv; [|unfold Ulid_step in H; simpl in H; by rewrite Hv in H].
  destruct (decode_char_inv _ _ Hv) as [Hlt Hc].
  rewrite (Ulid_step_add _ _ v) in H by (done || lia). simplify_eq.
  exists (t * 32 + v)%N. split_and!; [lia|lia|].
  rewrite Ulid_slots_S.
  rewrite <- (N.div_unique (t * 32 + v) 32 t v), <- (N.mod_unique (t * 32 + v) 32 t v) by lia.
  by rewrite Hs, Hc.
Qed.

Lemma Ulid_parse_inv s u : Ulid_parse s = Some u → Ulid_wf u ∧ Ulid_display u = s.
Proof.
  unfold Ulid_parse. destruct s as [|c s]; [done|].
  destruct (_ || _) eqn:E; [done|]. breflect. intros (n & Hn & ->)%fmap_Some.
  cbn [foldl] in Hn.
  destruct (decode_char c) as [v|] eqn:Hv.
  2:{ unfold Ulid_step at 2 in Hn. simpl in Hn. rewrite Hv in Hn. simpl in Hn.
      exfalso. clear -Hn. by induction s; [|auto]. }
  destruct (decode_char_inv _ _ Hv) as [Hlt Hc].
  rewrite (Ulid_step_add 0 c v) in Hn by done. rewrite N.add_0_l in Hn.
  assert (v < 8)%N as H8.
  { pose proof (Ulid_first_char v Hlt) as Hf. rewrite Hc in Hf. cbn [from_option id] in Hf.
    destruct (N.ltb_spec v 8); [done|]. apply N.ltb_lt in Hf. lia. }
  assert (length s = 25) as Hs by (unfold ULID_LEN in *; simpl in *; lia).
  destruct (Ulid_foldl_inv _ _ _ Hn) as (t & Ht & -> & Hd).
  { rewrite Hs, u128_split, N.mul_comm. apply N.mul_le_mono_l. lia. }
  rewrite Hs in *. unfold Ulid_wf. cbn [to_u128].
  split.
  { rewrite u128_split. set (P := (32 ^ N.of_nat 25)%N) in *. clearbody P. nia. }
  unfold Ulid_display, ULID_LEN. cbn [to_u128].
  assert (∀ k t, (t < 32 ^ N.of_nat k)%N →
    Ulid_slots (S k) (v * 32 ^ N.of_nat k + t) [] = c :: Ulid_slots k t []) as Hk.
  { intros k. induction k as [|k IHk]; intros t' Ht'.
    - rewrite Ulid_slots_S. change (32 ^ N.of_nat 0)%N with 1%N in *.
      replace (v * 1 + t')%N with v by lia. rewrite N.mod_small by lia. by rewrite Hc.
    - rewrite (Ulid_slots_S (S k)), (Ulid_slots_S k t').
      rewrite Nat2N.inj_succ, N.pow_succ_r' in *. set (P := (32 ^ N.of_nat k)%N) in *.
      replace (v * (32 * P) + t')%N with ((v * P) * 32 + t')%N by lia.
      rewrite (N.add_comm (v * P * 32)), N.div_add, N.Div0.mod_add by lia.
      rewrite (N.add_comm (t' / 32)).
      rewrite IHk; [done|]. apply N.Div0.div_lt_upper_bound. lia. }
  rewrite (Hk 25) by done. by rewrite Hd.
Qed.

(** An id reads back exactly: a text parses to an id just when the id fits 128 bits and the text is
    the one its 26 characters spell, in the alphabet's own case. *)
Theorem Ulid_parse_exact s u : Ulid_parse s = Some u ↔ Ulid_wf u ∧ s = Ulid_display u.
Proof.
  split; [by intros [? <-]%Ulid_parse_inv|]. intros [Hw ->]. by apply Ulid_parse_display_wf.
Qed.
