(* ===== verification/Scanner.v ===== *)
(** The word scanner and classifier of a todo.txt line: [scanner.rs], [urls.rs], [tokenize.rs] and
    the description views of [task.rs] (all under [crates/txtodo-core/src]).

    A line is alternating runs of separators (space, tab) and words. The theorems show the runs
    tile the line, that the highlighter's spans tile it too, and that every offset either of them
    yields is a char boundary, so slicing at it never panics. *)
From S2P Require Import Prelude.
From S2P Require Import Utf8.
From S2P Require Import Types.
From S2P Require Import Ulid.

(** ** scanner.rs *)

Record Chunk := mkChunk { ch_start : nat; ch_end : nat; ch_is_ws : bool }.

(** True for the two separators the grammar knows. *)
Definition is_ws (c : byte) : bool := bool_decide (c = " "%byte) || bool_decide (c = x09).

(** The inner loop: how many bytes from here on are of the same kind. *)
Fixpoint run_len (ws : bool) (l : bytes) : nat :=
  match l with
  | c :: l' => if Bool.eqb (is_ws c) ws then S (run_len ws l') else 0
  | [] => 0
  end.

(** The iterator: [pos] is the offset of [rest]. A chunk is never empty, so the line's length is
    enough fuel. *)
Fixpoint chunks_from (fuel pos : nat) (rest : bytes) : list Chunk :=
  match fuel, rest with
  | S fuel', c :: _ =>
      let ws := is_ws c in
      let n := run_len ws rest in
      mkChunk pos (pos + n) ws :: chunks_from fuel' (pos + n) (drop n rest)
  | _, _ => []
  end.

Definition chunks (raw : bytes) : list Chunk := chunks_from (length raw) 0 raw.

(** [&raw[c.start..c.end]]. *)
Definition chunk_text (raw : bytes) (c : Chunk) : bytes := slice (ch_start c) (ch_end c) raw.

(** The words of a text in order: [chunks(d).filter(|c| !c.is_ws).map(|c| &d[c.start..c.end])]. *)
Definition word_chunks (d : bytes) : list Chunk := List.filter (λ c, negb (ch_is_ws c)) (chunks d).
Definition words_of (d : bytes) : list bytes := map (chunk_text d) (word_chunks d).

(** ** urls.rs *)

Definition DEFAULT_SCHEMES : list bytes :=
  [str "http"; str "https"; str "mailto"; str "ftp"; str "ssh"; str "file"; str "tel"; str "sms"].

Definition is_colon (c : byte) : bool := bool_decide (c = ":"%byte).

Definition is_url (word : bytes) (schemes : list bytes) : bool :=
  match position is_colon word with
  | None => false
  | Some colon =>
      let scheme := take colon word in
      let rest := drop colon word in
      (1 <? length rest) && existsb (λ s, eq_ignore_ascii_case s scheme) schemes
  end.

(** ** tokenize.rs *)

(** Where we are in the structured prefix before the description starts. *)
Record TokPrefix := mkTokPrefix {
  tp_done : bool; tp_seen_x : bool; tp_dates : nat; tp_seen_priority : bool
}.
Definition TokPrefix_default : TokPrefix := mkTokPrefix false false 0 false.

(** [(A)] to [(Z)] exactly. *)
Definition is_priority_word (word : bytes) : bool :=
  match word with
  | [a; p; z] =>
      bool_decide (a = "("%byte) && bool_decide (z = ")"%byte)
      && bool_decide (is_Some (Priority_new (bN p)))
  | _ => false
  end.

(** After [x]: first date is completion, second is creation. Otherwise the only date is creation. *)
Definition classify_date (p : TokPrefix) : option TokenKind * TokPrefix :=
  let max_dates := if tp_seen_x p then 2 else 1 in
  if max_dates <=? tp_dates p then (None, p)
  else
    let p' := mkTokPrefix (tp_done p) (tp_seen_x p) (S (tp_dates p)) (tp_seen_priority p) in
    let is_completion := tp_seen_x p' && (tp_dates p' =? 1) in
    (Some (if is_completion then CompletionDate else CreationDate), p').

Definition classify_prefix (word : bytes) (index : nat) (p : TokPrefix)
    : option TokenKind * TokPrefix :=
  if (index =? 0) && bool_decide (word = str "x") then
    (Some CompletionMarker, mkTokPrefix (tp_done p) true (tp_dates p) (tp_seen_priority p))
  else if bool_decide (is_Some (Date_parse word)) then classify_date p
  else if negb (tp_seen_priority p) && is_priority_word word then
    (Some KPriority, mkTokPrefix (tp_done p) (tp_seen_x p) (tp_dates p) true)
  else (None, p).

Inductive WordKind :=
| WUrl
| WIdTag
| WProject
| WContext
| WTag (colon : nat)
| WText.

(** Byte index of the colon in a [key:value] word with non-empty key and value. *)
Definition tag_split (word : bytes) : option nat :=
  colon ← position is_colon word;
  if (0 <? colon) && (colon + 1 <? length word) then Some colon else None.

(** URL first, then id, sigils, tags. *)
Definition classify_word (word : bytes) (schemes : list bytes) : WordKind :=
  if is_url word schemes then WUrl
  else if bool_decide (is_Some (strip_prefix (str "id:") word ≫= Ulid_parse)) then WIdTag
  else if (1 <? length word) && starts_with (str "+") word then WProject
  else if (1 <? length word) && starts_with (str "@") word then WContext
  else match tag_split word with Some colon => WTag colon | None => WText end.

(** The span(s) of one description word. *)
Definition push_word (word : bytes) (start : nat) (schemes : list bytes) : list Span :=
  let end_ := start + length word in
  match classify_word word schemes with
  | WUrl => [mkSpan KUrl start end_]
  | WIdTag => [mkSpan KIdTag start end_]
  | WProject => [mkSpan Project start end_]
  | WContext => [mkSpan Context start end_]
  | WText => [mkSpan KText start end_]
  | WTag colon =>
      [mkSpan TagKey start (start + colon + 1); mkSpan TagValue (start + colon + 1) end_]
  end.

(** Appends the span(s) for one chunk. *)
Definition push_chunk (raw : bytes) (schemes : list bytes) (c : Chunk) (index : nat)
    (p : TokPrefix) : list Span * TokPrefix :=
  if ch_is_ws c then ([mkSpan Whitespace (ch_start c) (ch_end c)], p)
  else
    let word := chunk_text raw c in
    if tp_done p then (push_word word (ch_start c) schemes, p)
    else
      match classify_prefix word index p with
      | (Some k, p') => ([mkSpan k (ch_start c) (ch_end c)], p')
      | (None, p') =>
          (push_word word (ch_start c) schemes,
           mkTokPrefix true (tp_seen_x p') (tp_dates p') (tp_seen_priority p'))
      end.

Fixpoint tokenize_chunks (raw : bytes) (schemes : list bytes) (index : nat) (p : TokPrefix)
    (cs : list Chunk) : list Span :=
  match cs with
  | [] => []
  | c :: cs' =>
      let '(spans, p') := push_chunk raw schemes c index p in
      spans ++ tokenize_chunks raw schemes (S index) p' cs'
  end.

Definition tokenize_with_schemes (raw : bytes) (schemes : list bytes) : list Span :=
  tokenize_chunks raw schemes 0 TokPrefix_default (chunks raw).

Definition tokenize (raw : bytes) : list Span := tokenize_with_schemes raw DEFAULT_SCHEMES.

(** ** task.rs: views of a description *)

Definition SLUG_MAX_LEN : nat := 64.

Definition is_valid_slug (s : bytes) : bool :=
  let head_ok :=
    match s with c :: _ => is_ascii_lowercase c || is_ascii_digit c | [] => false end in
  let tail_ok :=
    forallb (λ c, is_ascii_lowercase c || is_ascii_digit c
                  || bool_decide (c ∈ ["."%byte; "_"%byte; "-"%byte])) s in
  head_ok && tail_ok && (length s <=? SLUG_MAX_LEN)
  && negb (bool_decide (s = str ".")) && negb (bool_decide (s = str "..")).

Definition Task_words (t : Task) : list (WordKind * bytes) :=
  map (λ w, (classify_word w DEFAULT_SCHEMES, w)) (words_of (description t)).

Definition projects (t : Task) : list bytes :=
  omap (λ kw, match fst kw with WProject => Some (drop 1 (snd kw)) | _ => None end) (Task_words t).

Definition contexts (t : Task) : list bytes :=
  omap (λ kw, match fst kw with WContext => Some (drop 1 (snd kw)) | _ => None end) (Task_words t).

Definition tags (t : Task) : list (bytes * bytes) :=
  omap (λ kw, match fst kw with
              | WTag colon => Some (take colon (snd kw), drop (colon + 1) (snd kw))
              | WIdTag => Some (str "id", drop 3 (snd kw))
              | _ => None
              end) (Task_words t).

Definition tag (t : Task) (key : bytes) : option bytes :=
  snd <$> find (λ kv, bool_decide (fst kv = key)) (tags t).

Definition plain_words (t : Task) : list bytes :=
  omap (λ kw, match fst kw with WText => Some (snd kw) | _ => None end) (Task_words t).

Definition tag_with_schemes (t : Task) (key : bytes) (schemes : list bytes) : option bytes :=
  head (omap (λ w, match classify_word w schemes with
                   | WTag colon =>
                       if bool_decide (take colon w = key) then Some (drop (colon + 1) w) else None
                   | _ => None
                   end) (words_of (description t))).

Definition Task_id (t : Task) : option Ulid := tag t (str "id") ≫= Ulid_parse.

Definition ref_slug (t : Task) : option bytes :=
  s ← tag t (str "ref"); if is_valid_slug s then Some s else None.

#[global] Instance Chunk_eq_dec : EqDecision Chunk.
Proof. solve_decision. Defined.
#[global] Instance WordKind_eq_dec : EqDecision WordKind.
Proof. solve_decision. Defined.

(** ** The chunks of a line *)

(** [cs] is the chunking of [rest], which starts at offset [pos]: each chunk is a maximal non-empty
    run of one kind. *)
Fixpoint chunked (pos : nat) (rest : bytes) (cs : list Chunk) : Prop :=
  match cs with
  | [] => rest = []
  | c :: cs' =>
      ∃ w r, rest = w ++ r ∧ w ≠ [] ∧ ch_start c = pos ∧ ch_end c = pos + length w
        ∧ Forall (λ b, is_ws b = ch_is_ws c) w
        ∧ (∀ b, head r = Some b → is_ws b = negb (ch_is_ws c))
        ∧ chunked (pos + length w) r cs'
  end.

(** Spans of offsets laid end to end from [a] to [b], none empty. *)
Fixpoint tiles (a : nat) (l : list (nat * nat)) (b : nat) : Prop :=
  match l with
  | [] => a = b
  | (s, e) :: l' => s = a ∧ a < e ∧ tiles e l' b
  end.

Lemma is_ws_not_cont c : is_ws c = true → is_cont c = false.
Proof. unfold is_ws. rewrite orb_true_iff, !bool_decide_eq_true. by intros [-> | ->]. Qed.

Lemma run_len_spec ws l :
  ∃ w r, l = w ++ r ∧ run_len ws l = length w ∧ Forall (λ b, is_ws b = ws) w
         ∧ (∀ b, head r = Some b → is_ws b = negb ws).
Proof.
  induction l as [|c l (w & r & -> & Hn & Hall & Hr)]; simpl.
  { exists [], []. by repeat split. }
  destruct (is_ws c) eqn:Ec, ws; simpl.
  1, 4: exists (c :: w), r; rewrite Hn; repeat split; auto.
  all: exists [], (c :: w ++ r); repeat split; auto; simpl; intros; by simplify_eq.
Qed.

Lemma chunks_from_chunked fuel pos rest :
  length rest ≤ fuel → chunked pos rest (chunks_from fuel pos rest).
Proof.
  revert pos rest. induction fuel as [|fuel IH]; intros pos [|c rest] Hl; simpl in Hl; try done;
    [lia|].
  cbn [chunks_from]. destruct (run_len_spec (is_ws c) (c :: rest)) as (w & r & E & Hn & Hall & Hr).
  rewrite Hn. assert (w ≠ []) as Hw.
  { intros ->. simpl in Hn. by rewrite eqb_reflx in Hn. }
  exists w, r. split_and!; auto.
  rewrite E, drop_app_length. apply IH. apply (f_equal length) in E. simpl in E.
  rewrite length_app in E. destruct w; simpl in *; [done|lia].
Qed.

Lemma chunks_chunked raw : chunked 0 raw (chunks raw).
Proof. by apply chunks_from_chunked. Qed.

Lemma chunked_tiles pos rest cs :
  chunked pos rest cs →
  tiles pos ((λ c, (ch_start c, ch_end c)) <$> cs) (pos + length rest).
Proof.
  revert pos rest. induction cs as [|c cs IH]; intros pos rest; simpl.
  { intros ->. simpl. lia. }
  intros (w & r & -> & Hw & -> & -> & _ & _ & H). split_and!; [done|destruct w; simpl; [done|lia]|].
  rewrite length_app, Nat.add_assoc. by apply IH.
Qed.

Lemma tiles_app a l1 b l2 c : tiles a l1 b → tiles b l2 c → tiles a (l1 ++ l2) c.
Proof.
  revert a. induction l1 as [|[s e] l1 IH]; simpl; intros a H1 H2; [by subst|].
  destruct H1 as (-> & ? & ?). auto.
Qed.

Lemma tiles_le a l b : tiles a l b → a ≤ b.
Proof.
  revert a. induction l as [|[s e] l IH]; simpl; intros a H; [lia|].
  destruct H as (-> & ? & ?%IH). lia.
Qed.

Lemma tiles_lookup a l b i s e :
  tiles a l b → l !! i = Some (s, e) →
  a ≤ s ∧ s < e ∧ e ≤ b ∧ from_option fst b (l !! S i) = e.
Proof.
  revert a i. induction l as [|[s' e'] l IH]; intros a i H Hi; [done|].
  destruct H as (-> & Hlt & H). destruct i as [|i]; simpl in Hi; simplify_eq.
  - pose proof (tiles_le _ _ _ H). split_and!; [lia|lia|lia|]. simpl.
    destruct l as [|[s' e'] l]; simpl in *; naive_solver.
  - destruct (IH _ _ H Hi) as (? & ? & ? & ?). split_and!; [lia|lia|lia|done].
Qed.

(** What the tiles cut out of a text, put back together. *)
Lemma tiles_concat {A} (l : list A) a ts :
  tiles a ts (length l) → concat ((λ t, slice (fst t) (snd t) l) <$> ts) = drop a l.
Proof.
  revert a. induction ts as [|[s e] ts IH]; intros a; cbn [tiles].
  - intros ->. by rewrite drop_all.
  - intros (-> & Hlt & H). rewrite fmap_cons. cbn [concat fst snd]. rewrite (IH _ H).
    apply slice_drop_split. lia.
Qed.

Lemma chunked_lookup pos rest cs i c :
  chunked pos rest cs → cs !! i = Some c →
  pos ≤ ch_start c ∧ ch_start c < ch_end c ∧ ch_end c ≤ pos + length rest
  ∧ Forall (λ b, is_ws b = ch_is_ws c) (slice (ch_start c - pos) (ch_end c - pos) rest)
  ∧ (∀ c', cs !! S i = Some c' → ch_is_ws c' = negb (ch_is_ws c)).
Proof.
  revert pos rest i. induction cs as [|d cs IH]; intros pos rest i H Hi; [done|].
  destruct H as (w & r & -> & Hw & Hs & He & Hall & Hr & H).
  rewrite length_app. destruct i as [|i]; simpl in Hi.
  - injection Hi as ->. rewrite Hs, He. assert (length w ≠ 0) by (by destruct w).
    rewrite Nat.sub_diag, Nat.add_sub_swap, Nat.sub_diag by lia. unfold slice.
    rewrite drop_0, Nat.sub_0_r, Nat.add_0_l, take_app_length.
    split_and!; [lia|lia|lia|done|]. intros c' Hc'. simpl in Hc'.
    destruct cs as [|d' cs]; simpl in Hc'; simplify_eq.
    destruct H as (w' & r' & -> & Hw' & _ & _ & Hall' & _).
    destruct w' as [|b w']; [done|]. rewrite <- (Hr b) by done. by inversion Hall'.
  - destruct (IH _ _ _ H Hi) as (? & ? & ? & Hf & Hn). split_and!; [lia|lia|lia| |done].
    replace (slice (ch_start c - pos) (ch_end c - pos) (w ++ r))
      with (slice (ch_start c - (pos + length w)) (ch_end c - (pos + length w)) r); [done|].
    unfold slice. rewrite drop_app_ge by lia. f_equal; [lia|f_equal; lia].
Qed.

Lemma chunks_lookup raw i c :
  chunks raw !! i = Some c →
  ch_start c < ch_end c ∧ ch_end c ≤ length raw
  ∧ Forall (λ b, is_ws b = ch_is_ws c) (chunk_text raw c)
  ∧ (∀ c', chunks raw !! S i = Some c' → ch_is_ws c' = negb (ch_is_ws c)).
Proof.
  intros Hi. destruct (chunked_lookup _ _ _ _ _ (chunks_chunked raw) Hi) as (? & ? & ? & Hf & ?).
  rewrite !Nat.sub_0_r in Hf. by split_and!.
Qed.

Lemma chunks_nil raw : chunks raw = [] → raw = [].
Proof. intros H. pose proof (chunks_chunked raw) as Hc. by rewrite H in Hc. Qed.

(** The bytes of a chunk are all of its kind. *)
Lemma chunk_byte raw i c k :
  chunks raw !! i = Some c → ch_start c ≤ k < ch_end c →
  ∃ b, raw !! k = Some b ∧ is_ws b = ch_is_ws c.
Proof.
  intros Hi Hk. destruct (chunks_lookup _ _ _ Hi) as (Hlt & Hle & Hall & _).
  destruct (lookup_lt_is_Some_2 raw k) as [b Hb]; [lia|]. exists b. split; [done|].
  rewrite Forall_lookup in Hall. apply (Hall (k - ch_start c)). unfold chunk_text, slice.
  rewrite lookup_take_lt, lookup_drop by lia. by replace (ch_start c + (k - ch_start c)) with k by lia.
Qed.

Lemma chunks_tiles raw : tiles 0 ((λ c, (ch_start c, ch_end c)) <$> chunks raw) (length raw).
Proof. exact (chunked_tiles _ _ _ (chunks_chunked raw)). Qed.

(** A chunk ends where the next one starts, or at the end of the line. *)
Lemma chunk_next raw i c :
  chunks raw !! i = Some c → from_option ch_start (length raw) (chunks raw !! S i) = ch_end c.
Proof.
  intros Hi. destruct (tiles_lookup _ _ _ i (ch_start c) (ch_end c) (chunks_tiles raw))
    as (_ & _ & _ & Hs); [by rewrite list_lookup_fmap, Hi|].
  rewrite list_lookup_fmap in Hs. by destruct (chunks raw !! S i).
Qed.

Lemma chunk_first raw c : chunks raw !! 0 = Some c → ch_start c = 0.
Proof.
  intros Hi. pose proof (chunks_tiles raw) as Ht. destruct (chunks raw) as [|c0 cs]; [done|].
  simpl in *. simplify_eq. by destruct Ht as (-> & _).
Qed.

Lemma is_ws_ascii c : is_ws c = true → (bN c < 0x80)%N.
Proof. unfold is_ws. rewrite orb_true_iff, !bool_decide_eq_true. by intros [-> | ->]. Qed.

(** Every chunk starts and ends at a char boundary: the separators are ASCII. *)
Lemma chunk_start_boundary raw i c :
  is_utf8 raw = true → chunks raw !! i = Some c → is_char_boundary raw (ch_start c) = true.
Proof.
  intros Hu Hi. destruct (chunks_lookup _ _ _ Hi) as (Hlt & _).
  destruct (ch_is_ws c) eqn:Ec.
  { destruct (chunk_byte _ _ _ (ch_start c) Hi) as (b & Hb & Hw); [lia|]. rewrite Ec in Hw.
    eapply is_char_boundary_lookup; [done|]. by apply is_ws_not_cont. }
  destruct i as [|i]; [by rewrite (chunk_first _ _ Hi), is_char_boundary_0|].
  destruct (lookup_lt_is_Some_2 (chunks raw) i) as [c0 Hc0]; [apply lookup_lt_Some in Hi; lia|].
  destruct (chunks_lookup _ _ _ Hc0) as (Hlt0 & Hle0 & _ & Hnext).
  pose proof (Hnext _ Hi) as Hn. rewrite Ec in Hn. symmetry in Hn. apply negb_false_iff in Hn.
  pose proof (chunk_next _ _ _ Hc0) as Hs. rewrite Hi in Hs. simpl in Hs. rewrite Hs.
  destruct (ch_end c0) as [|e] eqn:Ee; [lia|].
  destruct (chunk_byte _ _ _ e Hc0) as (a & Ha & Hwa); [lia|]. rewrite Hn in Hwa.
  eapply boundary_after_ascii; [done|exact Ha|by apply is_ws_ascii].
Qed.

Lemma chunk_end_boundary raw i c :
  is_utf8 raw = true → chunks raw !! i = Some c → is_char_boundary raw (ch_end c) = true.
Proof.
  intros Hu Hi. rewrite <- (chunk_next _ _ _ Hi).
  destruct (chunks raw !! S i) as [c'|] eqn:Hi'; simpl; [by eapply chunk_start_boundary|].
  apply is_char_boundary_end.
Qed.

(** ** Tokens *)

Abbreviation span_ends := (λ s, (sp_start s, sp_end s)).

Lemma tag_split_bounds w colon :
  tag_split w = Some colon →
  0 < colon ∧ colon + 1 < length w ∧ w !! colon = Some ":"%byte.
Proof.
  unfold tag_split. intros (k & Hk & H)%bind_Some. destruct (_ && _) eqn:E; simplify_eq. breflect.
  destruct (position_spec _ _ _ Hk) as (l1 & x & l2 & -> & <- & Hx & _).
  split_and!; [done|done|]. rewrite list_lookup_middle by done. f_equal.
  by apply bool_decide_eq_true in Hx.
Qed.

Lemma classify_word_tag w schemes colon :
  classify_word w schemes = WTag colon → tag_split w = Some colon.
Proof. unfold classify_word. repeat case_match; congruence. Qed.

Lemma push_word_tiles w start schemes :
  w ≠ [] → tiles start (span_ends <$> push_word w start schemes) (start + length w).
Proof.
  intros Hw. assert (0 < length w) by (destruct w; simpl; [done|lia]).
  unfold push_word. destruct (classify_word w schemes) eqn:Ek; simpl; try (split_and!; lia).
  apply classify_word_tag, tag_split_bounds in Ek as (? & ? & _). split_and!; lia.
Qed.

Lemma push_chunk_tiles raw schemes c i k p :
  chunks raw !! k = Some c →
  tiles (ch_start c) (span_ends <$> fst (push_chunk raw schemes c i p)) (ch_end c).
Proof.
  intros Hk. destruct (chunks_lookup _ _ _ Hk) as (Hlt & Hle & _).
  assert (length (chunk_text raw c) = ch_end c - ch_start c) as Hlen by (by apply slice_length).
  assert (tiles (ch_start c) (span_ends <$> push_word (chunk_text raw c) (ch_start c) schemes)
            (ch_end c)) as Hw.
  { replace (ch_end c) with (ch_start c + length (chunk_text raw c)) by lia.
    apply push_word_tiles. intros E. rewrite E in Hlen. simpl in Hlen. lia. }
  unfold push_chunk. repeat case_match; simpl; auto.
Qed.

Lemma tokenize_chunks_tiles raw schemes cs i p k :
  cs = drop k (chunks raw) →
  tiles (from_option ch_start (length raw) (chunks raw !! k))
        (span_ends <$> tokenize_chunks raw schemes i p cs) (length raw).
Proof.
  revert i p k. induction cs as [|c cs IH]; intros i p k Hcs; simpl.
  { destruct (chunks raw !! k) eqn:E; [|done]. apply drop_S in E. congruence. }
  destruct (chunks raw !! k) as [c'|] eqn:E.
  2:{ apply lookup_ge_None in E. by rewrite drop_ge in Hcs. }
  rewrite (drop_S _ _ _ E) in Hcs. injection Hcs as <- Hcs. cbn [from_option].
  pose proof (push_chunk_tiles raw schemes c i k p E) as Hp.
  destruct (push_chunk raw schemes c i p) as [spans p'] eqn:Ep. rewrite fmap_app.
  eapply tiles_app; [exact Hp|]. rewrite <- (chunk_next _ _ _ E). by apply IH.
Qed.

(** The boundaries inside a word: only after the colon of a tag. *)
Lemma push_word_boundaries raw w start schemes :
  is_utf8 raw = true → slice start (start + length w) raw = w → start + length w ≤ length raw →
  is_char_boundary raw start = true → is_char_boundary raw (start + length w) = true →
  Forall (λ s, is_char_boundary raw (sp_start s) = true ∧ is_char_boundary raw (sp_end s) = true)
    (push_word w start schemes).
Proof.
  intros Hu Hw Hle Hs He. unfold push_word.
  destruct (classify_word w schemes) eqn:Ek; try (repeat constructor; done).
  apply classify_word_tag, tag_split_bounds in Ek as (H0 & H1 & Hc).
  assert (is_char_boundary raw (start + colon + 1) = true) as Hm.
  { rewrite Nat.add_1_r. eapply boundary_after_ascii; [done| |].
    - rewrite <- Hw in Hc. unfold slice in Hc. rewrite lookup_take_lt, lookup_drop in Hc by lia.
      exact Hc.
    - done. }
  repeat constructor; done.
Qed.

Lemma push_chunk_boundaries raw schemes c i k p :
  is_utf8 raw = true → chunks raw !! k = Some c →
  Forall (λ s, is_char_boundary raw (sp_start s) = true ∧ is_char_boundary raw (sp_end s) = true)
    (fst (push_chunk raw schemes c i p)).
Proof.
  intros Hu Hk. pose proof (chunk_start_boundary _ _ _ Hu Hk) as Hs.
  pose proof (chunk_end_boundary _ _ _ Hu Hk) as He.
  destruct (chunks_lookup _ _ _ Hk) as (Hlt & Hle & _).
  assert (length (chunk_text raw c) = ch_end c - ch_start c) as Hlen by (by apply slice_length).
  assert (ch_start c + length (chunk_text raw c) = ch_end c) as Hend by lia.
  assert (Forall (λ s, is_char_boundary raw (sp_start s) = true ∧ is_char_boundary raw (sp_end s) = true)
            (push_word (chunk_text raw c) (ch_start c) schemes)) as Hw.
  { apply push_word_boundaries; rewrite ?Hend; auto. }
  unfold push_chunk. repeat case_match; simpl; auto.
Qed.

Lemma tokenize_chunks_boundaries raw schemes cs i p k :
  is_utf8 raw = true → cs = drop k (chunks raw) →
  Forall (λ s, is_char_boundary raw (sp_start s) = true ∧ is_char_boundary raw (sp_end s) = true)
    (tokenize_chunks raw schemes i p cs).
Proof.
  intros Hu. revert i p k. induction cs as [|c cs IH]; intros i p k Hcs; simpl; [constructor|].
  destruct (chunks raw !! k) as [c'|] eqn:E.
  2:{ apply lookup_ge_None in E. by rewrite drop_ge in Hcs. }
  rewrite (drop_S _ _ _ E) in Hcs. injection Hcs as <- Hcs.
  pose proof (push_chunk_boundaries raw schemes c i k p Hu E) as Hp.
  destruct (push_chunk raw schemes c i p) as [spans p'] eqn:Ep.
  apply Forall_app. split; [exact Hp|]. eapply IH. exact Hcs.
Qed.

Lemma tokenize_tiles raw schemes :
  tiles 0 (span_ends <$> tokenize_with_schemes raw schemes) (length raw).
Proof.
  pose proof (tokenize_chunks_tiles raw schemes (chunks raw) 0 TokPrefix_default 0 eq_refl) as H.
  unfold tokenize_with_schemes. destruct (chunks raw !! 0) as [c|] eqn:E; simpl in H.
  - by rewrite (chunk_first _ _ E) in H.
  - destruct (chunks raw) eqn:Ec; [|done]. apply chunks_nil in Ec as ->. exact H.
Qed.

(** The highlighter's spans are contiguous, non-empty and cover every byte of the line, whatever
    the line and the scheme list. *)
Theorem tokenize_covers raw schemes :
  tiles 0 (span_ends <$> tokenize_with_schemes raw schemes) (length raw).
Proof. apply tokenize_tiles. Qed.

(** On a valid text every span starts and ends at a char boundary, so slicing at it is text. *)
Theorem tokenize_char_boundaries raw schemes :
  is_utf8 raw = true →
  Forall (λ s, is_utf8 (slice (sp_start s) (sp_end s) raw) = true) (tokenize_with_schemes raw schemes).
Proof.
  intros Hu. pose proof (tokenize_chunks_boundaries raw schemes (chunks raw) 0 TokPrefix_default 0 Hu
    eq_refl) as Hb. pose proof (tokenize_tiles raw schemes) as Ht.
  unfold tokenize_with_schemes in *.
  apply Forall_lookup. intros j s Hj. rewrite Forall_lookup in Hb. destruct (Hb _ _ Hj) as [Hs He].
  apply is_utf8_slice; [done..|].
  destruct (tiles_lookup _ _ _ j (sp_start s) (sp_end s) Ht) as (_ & ? & _); [|lia].
  by rewrite list_lookup_fmap, Hj.
Qed.

Definition sample_line : bytes := str "x 2026-09-11 (A) call +home due:2026-09-15".

Lemma tokenize_char_boundaries_witness :
  is_utf8 sample_line = true ∧
  Forall (λ s, is_utf8 (slice (sp_start s) (sp_end s) sample_line) = true)
    (tokenize_with_schemes sample_line DEFAULT_SCHEMES).
Proof. split; [by vm_compute|]. apply (tokenize_char_boundaries sample_line). by vm_compute. Defined.

Example tokenize_sample :
  sp_kind <$> tokenize sample_line
  = [CompletionMarker; Whitespace; CompletionDate; Whitespace; KPriority; Whitespace; KText;
     Whitespace; Project; Whitespace; TagKey; TagValue].
Proof. by vm_compute. Qed.
