(* ===== verification/Parser.v ===== *)
(** The recursive-descent parser of [crates/txtodo-core/src/parse.rs].

    The cursor and the quirks collected so far are the state of a small error-and-state monad; each
    method of [Parser] is one definition. The theorems: lenient parsing is total, both modes return
    the line's own bytes, the description is the tail of the line after the prefix, a strictly parsed line
    carries no leniency quirk, and dates are days of a calendar stated on its own ([calendar_day]). *)
From S2P Require Import Prelude.
From S2P Require Import Utf8.
From S2P Require Import Types.
From S2P Require Import Ulid.
From S2P Require Import Scanner.

(** Cursor over the scanner's chunks plus the quirks collected so far. *)
Record Parser := mkParser {
  p_raw : bytes;
  p_chunks : list Chunk;
  p_i : nat;
  p_mode : Mode;
  p_quirks : Quirks
}.

(** A parsing step: a value and the next cursor, or an error that ends the parse. *)
Definition M (A : Type) : Type := Parser → result ParseError (A * Parser).

#[global] Instance M_ret : MRet M := λ A a p, Ok (a, p).
#[global] Instance M_bind : MBind M := λ A B f m p,
  match m p with Ok (a, p') => f a p' | Err e => Err e end.

Definition p_get {A} (f : Parser → A) : M A := λ p, Ok (f p, p).
Definition p_advance : M unit := λ p,
  Ok (tt, mkParser (p_raw p) (p_chunks p) (S (p_i p)) (p_mode p) (p_quirks p)).
Definition p_insert (q : Quirks) : M unit := λ p,
  Ok (tt, mkParser (p_raw p) (p_chunks p) (p_i p) (p_mode p) (Quirks_insert (p_quirks p) q)).
Definition p_fail {A} (e : ParseError) : M A := λ _, Err e.

(** The current chunk as a word, or [None] at end / on whitespace. *)
Definition p_word (p : Parser) : option bytes :=
  c ← p_chunks p !! p_i p;
  if ch_is_ws c then None else Some (chunk_text (p_raw p) c).

(** Byte offset of the current chunk, or the line length at end. *)
Definition p_pos (p : Parser) : nat :=
  from_option ch_start (length (p_raw p)) (p_chunks p !! p_i p).

(** In lenient mode records [quirk] and continues; in strict mode fails with [rule] at [byte]. *)
Definition lenient_or_at (quirk : Quirks) (rule message : bytes) (byte : nat) : M unit := λ p,
  match p_mode p with
  | Lenient => p_insert quirk p
  | Strict => Err (mkParseError rule byte message)
  end.

Definition lenient_or (quirk : Quirks) (rule message : bytes) : M unit := λ p,
  lenient_or_at quirk rule message (p_pos p) p.

Definition msg_one_space := str "words are separated by exactly one space".
Definition msg_trailing := str "trailing whitespace".

(** Consumes the whitespace chunk after a prefix element. [true] when more words follow. *)
Definition separator : M bool := λ p,
  match p_chunks p !! p_i p with
  | None => Ok (false, p)
  | Some c =>
      (_ ← (if bool_decide (chunk_text (p_raw p) c = str " ") then mret tt
            else lenient_or TABS (str "SP") msg_one_space);
       _ ← p_advance;
       at_end ← p_get (λ p, p_i p =? length (p_chunks p));
       if at_end : bool then
         _ ← lenient_or_at TRAILING_WS (str "description") msg_trailing (ch_start c);
         mret false
       else mret true) p
  end.

(** Strict: [x] starts a completed line only when the grammar's [x SP date] is really there.
    Lenient: any leading [x] is the marker. *)
Definition starts_completed (p : Parser) : bool :=
  if negb (bool_decide (p_word p = Some (str "x"))) then false
  else if bool_decide (p_mode p = Lenient) then true
  else
    let sep :=
      match p_chunks p !! 1 with
      | Some c => ch_is_ws c && bool_decide (chunk_text (p_raw p) c = str " ")
      | None => false
      end in
    let date :=
      match p_chunks p !! 2 with
      | Some c => negb (ch_is_ws c) && bool_decide (is_Some (Date_parse (chunk_text (p_raw p) c)))
      | None => false
      end in
    sep && date.

(** [dddd-dd-dd] by shape, valid or not. *)
Definition has_date_shape (word : bytes) : bool :=
  (length word =? 10) && bool_decide (word !! 4 = Some "-"%byte)
  && bool_decide (word !! 7 = Some "-"%byte)
  && forallb (λ ic, (fst ic =? 4) || (fst ic =? 7) || is_ascii_digit (snd ic))
       (imap (λ i c, (i, c)) word).

(** Takes [(A)] and its separator if present: the task with its priority set, and whether it was. *)
Definition take_priority (t : Task) : M (Task * bool) := λ p,
  match p_word p with
  | Some word =>
      if is_priority_word word then
        (_ ← p_advance;
         _ ← separator;
         mret (mkTask (completed t) (completion_date t) (creation_date t)
                 (c ← word !! 1; Priority_new (bN c)) (description t), true)) p
      else Ok ((t, false), p)
  | None => Ok ((t, false), p)
  end.

(** Takes a date word if the current word is one. An impossible calendar date is a strict error and
    plain text in lenient mode. *)
Definition take_date : M (option Date) := λ p,
  match p_word p with
  | None => Ok (None, p)
  | Some word =>
      match Date_parse word with
      | Some d => (_ ← p_advance; mret (Some d)) p
      | None =>
          if bool_decide (p_mode p = Strict) && has_date_shape word
          then Err (mkParseError (str "date") (p_pos p) (str "not a calendar date"))
          else Ok (None, p)
      end
  end.

(** Optional date plus its separator, into the creation date. *)
Definition take_optional_date (t : Task) : M Task :=
  od ← take_date;
  match od with
  | Some d =>
      _ ← separator;
      mret (mkTask (completed t) (completion_date t) (Some d) (priority t) (description t))
  | None => mret t
  end.

(** After [x]: [SP date [SP date]], with lenient priority placements. *)
Definition completed_prefix (t : Task) : M Task :=
  more ← separator;
  if negb (more : bool) then
    _ ← lenient_or NO_COMPLETION_DATE (str "completed")
          (str "expected a space and the completion date after x");
    mret t
  else
    lenient ← p_get (λ p, bool_decide (p_mode p = Lenient));
    t ← (if lenient : bool then
           r ← take_priority t;
           _ ← (if (snd r : bool) then p_insert PRIORITY_AFTER_X else mret tt);
           mret (fst r)
         else mret t);
    od ← take_date;
    match od with
    | None =>
        _ ← lenient_or NO_COMPLETION_DATE (str "completed")
              (str "expected the completion date after x");
        mret t
    | Some d =>
        let t := mkTask (completed t) (Some d) (creation_date t) (priority t) (description t) in
        more ← separator;
        t ← (if more : bool then take_optional_date t else mret t);
        if (lenient : bool) && bool_decide (priority t = None) then
          r ← take_priority t;
          _ ← (if (snd r : bool) then p_insert PRIORITY_AFTER_DATE else mret tt);
          mret (fst r)
        else mret t
    end.

(** [[priority SP] [date SP]]. *)
Definition incomplete_prefix (t : Task) : M Task :=
  r ← take_priority t;
  take_optional_date (fst r).

(** The checks on the separators inside the description: [n] counts the chunks seen. *)
Fixpoint check_separators (start len n : nat) (rest : list Chunk) : M unit :=
  match rest with
  | [] => mret tt
  | c :: rest' =>
      _ ← p_advance;
      _ ← (if negb (ch_is_ws c) then mret tt
           else
             let leading := (n =? 0) && (start =? 0) in
             _ ← (if leading
                  then lenient_or_at LEADING_WS (str "description") (str "leading whitespace") 0
                  else mret tt);
             if leading && (1 <? len) then mret tt
             else
               single ← p_get (λ p, bool_decide (chunk_text (p_raw p) c = str " "));
               if n + 1 =? len then
                 lenient_or_at TRAILING_WS (str "description") msg_trailing (ch_start c)
               else if negb (single : bool) then
                 lenient_or_at TABS (str "SP") msg_one_space (ch_start c)
               else mret tt);
      check_separators start len (S n) rest'
  end.

(** Everything from the current chunk on, after checking separators inside it. *)
Definition p_description : M bytes := λ p,
  let start := p_pos p in
  let rest := drop (p_i p) (p_chunks p) in
  (_ ← check_separators start (length rest) 0 rest; mret (drop start (p_raw p))) p.

(** Whole task: prefix, then the verbatim remainder as description. *)
Definition p_task : M Task := λ p,
  let t := mkTask false None None None [] in
  (t ← (if starts_completed p then
          _ ← p_advance;
          completed_prefix (mkTask true None None None [])
        else incomplete_prefix t);
   d ← p_description;
   mret (mkTask (completed t) (completion_date t) (creation_date t) (priority t) d)) p.

Definition parse_line_with_schemes (raw : bytes) (mode : Mode) (schemes : list bytes)
    : result ParseError Line :=
  if bool_decide (raw = []) then Ok (mkLine raw LBlank NONE Lf)
  else
    match p_task (mkParser raw (chunks raw) 0 mode NONE) with
    | Err e => Err e
    | Ok (task, p) =>
        let invalid_ref :=
          match tag_with_schemes task (str "ref") schemes with
          | Some slug => negb (is_valid_slug slug)
          | None => false
          end in
        Ok (mkLine raw (LTask task)
              (if invalid_ref then Quirks_insert (p_quirks p) INVALID_REF else p_quirks p) Lf)
    end.

(** Parses one line with the default schemes. The returned ending is the default; the file knows
    the real one. *)
Definition parse_line (raw : bytes) (mode : Mode) : result ParseError Line :=
  parse_line_with_schemes raw mode DEFAULT_SCHEMES.

(** ** Samples *)

Example parse_sample :
  parse_line (str "x 2026-09-11 (A) task") Lenient
  = Ok (mkLine (str "x 2026-09-11 (A) task")
          (LTask (mkTask true (Date_new 2026 9 11) None (Priority_new 65) (str "task")))
          PRIORITY_AFTER_DATE Lf).
Proof. by vm_compute. Qed.

Example parse_sample_strict :
  parse_line (str "(A)  two") Strict
  = Err (mkParseError (str "SP") 3 (str "words are separated by exactly one space")).
Proof. by vm_compute. Qed.

Example parse_sample_blank_ws :
  parse_line (str "  ") Lenient
  = Ok (mkLine (str "  ") (LTask (mkTask false None None None (str "  ")))
          (Quirks_insert LEADING_WS TRAILING_WS) Lf).
Proof. by vm_compute. Qed.

(** ** Steps: what every parsing step keeps *)

(** From [p] to [p']: same line, same mode, the cursor never goes back, and strict mode records no
    quirk. *)
Record step_ok (p p' : Parser) : Prop := {
  step_raw : p_raw p' = p_raw p;
  step_chunks : p_chunks p' = p_chunks p;
  step_mode : p_mode p' = p_mode p;
  step_quirks : p_mode p = Strict → p_quirks p' = p_quirks p;
  step_i : p_i p ≤ p_i p'
}.

#[global] Instance step_ok_preorder : PreOrder step_ok.
Proof.
  split.
  - intros p. by split.
  - intros p q r [H1 H2 H3 H4 H5] [K1 K2 K3 K4 K5]. split; try congruence; [|lia].
    intros Hm. rewrite K4, H4; congruence.
Qed.

(** In mode [md], a step that only ever fails when the mode is strict. *)
Definition safe (md : Mode) {A} (m : M A) : Prop := ∀ p, p_mode p = md →
  match m p with Ok (_, p') => step_ok p p' | Err _ => md = Strict end.

Section safe.
Context (md : Mode).

Lemma safe_ret {A} (a : A) : safe md (mret a).
Proof. intros p _. by split. Qed.

Lemma safe_bind {A B} (m : M A) (f : A → M B) :
  safe md m → (∀ a, safe md (f a)) → safe md (m ≫= f).
Proof.
  intros Hm Hf p Hp. cbv [mbind M_bind]. specialize (Hm p Hp). destruct (m p) as [[a p']|]; [|done].
  specialize (Hf a p'). rewrite (step_mode _ _ Hm) in Hf. specialize (Hf Hp).
  destruct (f a p') as [[b p'']|]; [by etrans|done].
Qed.

Lemma safe_get {A} (f : Parser → A) : safe md (p_get f).
Proof. intros p _. by split. Qed.

Lemma safe_get_mode {B} (f : bool → M B) :
  safe md (f (bool_decide (md = Lenient))) →
  safe md (p_get (λ p, bool_decide (p_mode p = Lenient)) ≫= f).
Proof. intros H p Hp. cbv [mbind M_bind p_get]. rewrite Hp. exact (H p Hp). Qed.

Lemma safe_advance : safe md p_advance.
Proof. intros p _. split; simpl; auto; lia. Qed.

Lemma safe_if {A} (b : bool) (m1 m2 : M A) :
  safe md m1 → safe md m2 → safe md (if b then m1 else m2).
Proof. by destruct b. Qed.

Lemma safe_insert q : md = Lenient → safe md (p_insert q).
Proof. intros -> p Hp. by split; simpl; rewrite ?Hp. Qed.

Lemma safe_lenient_or_at q r m b : safe md (lenient_or_at q r m b).
Proof.
  intros p Hp. unfold lenient_or_at. destruct (p_mode p) eqn:E; [done|].
  by apply safe_insert; rewrite ?E.
Qed.

Lemma safe_lenient_or q r m : safe md (lenient_or q r m).
Proof. intros p. exact (safe_lenient_or_at q r m (p_pos p) p). Qed.

Lemma safe_run {A} (m : M A) p :
  p_mode p = md → safe md m → match m p with Ok (_, p') => step_ok p p' | Err _ => md = Strict end.
Proof. intros Hp H. exact (H p Hp). Qed.
End safe.

Create HintDb safe.
#[export] Hint Resolve safe_ret safe_get safe_advance safe_insert safe_lenient_or_at
  safe_lenient_or : safe.
Ltac safe_step :=
  first [ solve [auto with safe]
        | apply safe_get_mode | apply safe_bind; [|intros] | apply safe_if | case_match ].
Ltac safe := repeat safe_step.

(** A step whose branches are chosen by the cursor is run at that cursor. *)
Ltac safe_at_cursor :=
  match goal with |- match ?m ?p with _ => _ end => apply (safe_run _ m p); [done|]; safe end.

Section safe_parser.
Context (md : Mode).

Lemma safe_separator : safe md separator.
Proof.
  intros p Hp. unfold separator. destruct (p_chunks p !! p_i p) as [c|]; [|by split].
  safe_at_cursor.
Qed.

Lemma safe_take_priority t : safe md (take_priority t).
Proof.
  pose proof safe_separator. intros p Hp. unfold take_priority.
  destruct (p_word p) as [w|]; [|by split]. destruct (is_priority_word w); [|by split].
  safe_at_cursor.
Qed.

Lemma safe_take_date : safe md take_date.
Proof.
  intros p Hp. unfold take_date. destruct (p_word p) as [w|]; [|by split].
  destruct (Date_parse w) as [d|]; [safe_at_cursor|].
  destruct (bool_decide (p_mode p = Strict)) eqn:E; simpl; [|by split].
  breflect. destruct (has_date_shape w); [congruence|by split].
Qed.

Lemma safe_take_optional_date t : safe md (take_optional_date t).
Proof. pose proof safe_separator. pose proof safe_take_date. unfold take_optional_date. safe. Qed.

Lemma safe_incomplete_prefix t : safe md (incomplete_prefix t).
Proof.
  pose proof safe_take_priority. pose proof safe_take_optional_date.
  unfold incomplete_prefix. safe.
Qed.

Lemma safe_completed_prefix t : safe md (completed_prefix t).
Proof.
  pose proof safe_separator. pose proof safe_take_priority. pose proof safe_take_date.
  pose proof safe_take_optional_date.
  unfold completed_prefix. apply safe_bind; [done|intros more].
  apply safe_if; [safe|]. apply safe_get_mode. case_bool_decide; simpl; safe.
Qed.

Lemma safe_check_separators start len n rest : safe md (check_separators start len n rest).
Proof. revert n. induction rest; intros n; simpl; safe. Qed.

Lemma safe_description : safe md p_description.
Proof. pose proof safe_check_separators. intros p Hp. unfold p_description. safe_at_cursor. Qed.

Lemma safe_task : safe md p_task.
Proof.
  pose proof safe_description. pose proof safe_completed_prefix. pose proof safe_incomplete_prefix.
  intros p Hp. unfold p_task. safe_at_cursor.
Qed.
End safe_parser.

(** ** The cursor and the text behind it *)

(** Everything before the cursor. *)
Definition consumed (p : Parser) : bytes := take (p_pos p) (p_raw p).
(** No chunk is left. *)
Definition p_end (p : Parser) : bool := length (p_chunks p) <=? p_i p.
(** The cursor walks the chunks of its own line. *)
Definition on_chunks (p : Parser) : Prop := p_chunks p = chunks (p_raw p).

Lemma on_chunks_step p p' : step_ok p p' → on_chunks p → on_chunks p'.
Proof. intros H. unfold on_chunks. by rewrite (step_raw _ _ H), (step_chunks _ _ H). Qed.

Lemma p_pos_le p : on_chunks p → p_pos p ≤ length (p_raw p).
Proof.
  intros Ho. unfold p_pos. destruct (p_chunks p !! p_i p) as [c|] eqn:E; simpl; [|lia].
  rewrite Ho in E. destruct (chunks_lookup _ _ _ E) as (? & ? & _). lia.
Qed.

Lemma p_pos_end p : on_chunks p → p_pos p = length (p_raw p) ↔ p_end p = true.
Proof.
  intros Ho. unfold p_pos, p_end. rewrite Nat.leb_le.
  destruct (p_chunks p !! p_i p) as [c|] eqn:E; simpl.
  - pose proof (lookup_lt_Some _ _ _ E). rewrite Ho in E.
    destruct (chunks_lookup _ _ _ E) as (? & ? & _). lia.
  - by rewrite <- lookup_ge_None, E.
Qed.

Lemma drop_pos_nil p : on_chunks p → drop (p_pos p) (p_raw p) = [] ↔ p_end p = true.
Proof.
  intros Ho. pose proof (p_pos_le p Ho). rewrite <- (p_pos_end p Ho), <- length_zero_iff_nil, length_drop. lia.
Qed.

Lemma consumed_advance p c q :
  on_chunks p → p_chunks p !! p_i p = Some c →
  consumed (mkParser (p_raw p) (p_chunks p) (S (p_i p)) (p_mode p) q)
  = consumed p ++ chunk_text (p_raw p) c.
Proof.
  intros Ho Hc. unfold consumed, p_pos; simpl. rewrite Hc. simpl. rewrite Ho in *.
  rewrite (chunk_next _ _ _ Hc). destruct (chunks_lookup _ _ _ Hc) as (? & ? & _).
  unfold chunk_text. rewrite slice_app_split; [done|lia].
Qed.

Lemma p_word_chunk p w :
  p_word p = Some w → ∃ c, p_chunks p !! p_i p = Some c ∧ chunk_text (p_raw p) c = w.
Proof. unfold p_word. destruct (_ !! _) as [c|]; simpl; [|done]. case_match; naive_solver. Qed.

(** What follows a prefix element in a strict line: one space, or the end. *)
Definition sep_text (p : Parser) : bytes := if p_end p then [] else str " ".

Record strict_at (p : Parser) : Prop := { at_chunks : on_chunks p; at_strict : p_mode p = Strict }.

Lemma strict_at_step p p' : step_ok p p' → strict_at p → strict_at p'.
Proof.
  intros H [??]. split; [by eapply on_chunks_step|]. by rewrite (step_mode _ _ H).
Qed.

(** ** Inverting steps *)

Lemma bind_Ok {A B} (m : M A) (f : A → M B) p r :
  (m ≫= f) p = Ok r → ∃ a p', m p = Ok (a, p') ∧ f a p' = Ok r.
Proof. cbv [mbind M_bind]. destruct (m p) as [[a p']|]; [eauto|done]. Qed.

Lemma ret_Ok {A} (a b : A) p p' : (mret a : M A) p = Ok (b, p') → b = a ∧ p' = p.
Proof. intros H. by injection H as <- <-. Qed.

Lemma lenient_or_at_strict q r m b p x p' :
  p_mode p = Strict → lenient_or_at q r m b p = Ok (x, p') → False.
Proof. unfold lenient_or_at. by intros ->. Qed.

Lemma lenient_or_strict q r m p x p' :
  p_mode p = Strict → lenient_or q r m p = Ok (x, p') → False.
Proof. apply lenient_or_at_strict. Qed.

Ltac inv_bind H x p E := apply bind_Ok in H as (x & p & E & H).
Ltac inv_ret H := apply ret_Ok in H as [? ?]; subst.

Lemma strict_separator p b p' :
  strict_at p → separator p = Ok (b, p') →
  consumed p' = consumed p ++ sep_text p ∧ b = negb (p_end p) ∧ strict_at p'
  ∧ p_end p' = p_end p.
Proof.
  intros Hp H. pose proof (safe_separator Strict p (at_strict _ Hp)) as Hs. rewrite H in Hs.
  assert (strict_at p') as Hp' by (by eapply strict_at_step).
  unfold separator in H. unfold sep_text.
  destruct (p_chunks p !! p_i p) as [c|] eqn:Hc.
  - pose proof (lookup_lt_Some _ _ _ Hc) as Hlt. unfold p_end at 1 2 4.
    rewrite (proj2 (Nat.leb_gt _ _) Hlt).
    inv_bind H u p1 E1. case_bool_decide as Ht;
      [inv_ret E1|by apply lenient_or_strict in E1; [|apply Hp]].
    inv_bind H u p2 E2. injection E2 as <- <-. inv_bind H e p3 E3. injection E3 as El <-.
    destruct e.
    { inv_bind H u p4 E4. by apply lenient_or_at_strict in E4; [|apply Hp]. }
    inv_ret H. rewrite (consumed_advance _ _ _ (at_chunks _ Hp) Hc), Ht. split_and!; try done.
    unfold p_end; simpl. destruct (length (p_chunks p)) as [|n]; [lia|].
    apply Nat.eqb_neq in El. apply Nat.leb_gt. lia.
  - injection H as <- <-. apply lookup_ge_None in Hc. unfold p_end.
    rewrite (proj2 (Nat.leb_le _ _) Hc), app_nil_r. by split_and!.
Qed.

Lemma is_priority_word_inv w :
  is_priority_word w = true → ∃ c pr, w = [ "("%byte; c; ")"%byte ] ∧ w !! 1 = Some c
    ∧ Priority_new (bN c) = Some pr ∧ Priority_display pr = w.
Proof.
  unfold is_priority_word. destruct w as [|a [|c [|z [|]]]]; try done.
  rewrite !andb_true_iff, !bool_decide_eq_true. intros [[-> ->] [pr Hpr]].
  exists c, pr. split_and!; [done..|]. unfold Priority_new in Hpr.
  destruct (_ && _) eqn:E in Hpr; [|done]. injection Hpr as <-. breflect.
  unfold Priority_display, Priority_text, Priority_as_char. rewrite byte_of_bN.
  unfold encode_char. rewrite (proj2 (N.ltb_lt _ _)) by lia. by rewrite byte_of_bN.
Qed.

(** A priority and its separator, or nothing. *)
Definition priority_text (o : option Priority) (sep : bytes) : bytes :=
  match o with Some pr => Priority_display pr ++ sep | None => [] end.

Lemma strict_take_priority t p r p' :
  strict_at p → priority t = None → take_priority t p = Ok (r, p') →
  consumed p' = consumed p ++ priority_text (priority (fst r)) (sep_text p') ∧ strict_at p'
  ∧ (priority (fst r) = None → p' = p)
  ∧ fst r = mkTask (completed t) (completion_date t) (creation_date t) (priority (fst r))
              (description t).
Proof.
  intros Hp Ht H. unfold take_priority in H.
  destruct (p_word p) as [w|] eqn:Hw; [destruct (is_priority_word w) eqn:Hpw|].
  2, 3: injection H as <- <-; simpl; rewrite Ht, app_nil_r; split_and!; auto;
    destruct t; simpl in *; by subst.
  apply is_priority_word_inv in Hpw as (c & pr & -> & Hc & Hpr & Hd).
  apply p_word_chunk in Hw as (ck & Hck & Hct). rewrite Hc in H. cbn [mbind option_bind] in H.
  rewrite Hpr in H. inv_bind H u p1 E1. injection E1 as <- <-. inv_bind H b p2 E2. inv_ret H.
  apply strict_separator in E2 as (Hc2 & _ & Hp2 & He); [|by split; apply Hp].
  rewrite Hc2, (consumed_advance _ _ _ (at_chunks _ Hp) Hck), Hct.
  cbn [fst priority priority_text]. rewrite Hd. unfold sep_text. rewrite He, <- app_assoc.
  by split_and!.
Qed.

Definition date_text (o : option Date) (sep : bytes) : bytes :=
  match o with Some d => Date_display d ++ sep | None => [] end.

Lemma strict_take_date p o p' :
  strict_at p → take_date p = Ok (o, p') →
  consumed p' = consumed p ++ date_text o [] ∧ strict_at p'
  ∧ match o with Some _ => p_end p = false | None => p' = p end.
Proof.
  intros Hp H. unfold take_date in H. destruct (p_word p) as [w|] eqn:Hw;
    [|injection H as <- <-; rewrite app_nil_r; by split_and!].
  destruct (Date_parse w) as [d|] eqn:Hd.
  - apply p_word_chunk in Hw as (ck & Hck & Hct).
    inv_bind H u p1 E1. injection E1 as <- <-. inv_ret H.
    rewrite (consumed_advance _ _ _ (at_chunks _ Hp) Hck). simpl.
    rewrite app_nil_r, (Date_display_parse_exact _ _ Hd). split_and!; [done| |].
    + by split; apply Hp.
    + apply Nat.leb_gt. by eapply lookup_lt_Some.
  - destruct (_ && _) in H; [done|]. injection H as <- <-. rewrite app_nil_r. by split_and!.
Qed.

Lemma strict_take_optional_date t p t' p' :
  strict_at p → creation_date t = None → take_optional_date t p = Ok (t', p') →
  consumed p' = consumed p ++ date_text (creation_date t') (sep_text p') ∧ strict_at p'
  ∧ match creation_date t' with Some _ => p_end p = false | None => p' = p end
  ∧ t' = mkTask (completed t) (completion_date t) (creation_date t') (priority t) (description t).
Proof.
  intros Hp Ht H. unfold take_optional_date in H. inv_bind H o p1 E1.
  apply strict_take_date in E1 as (Hc1 & Hp1 & Hn); [|done]. destruct o as [d|].
  - inv_bind H b p2 E2. apply strict_separator in E2 as (Hc2 & _ & Hp2 & He); [|done].
    inv_ret H. rewrite Hc2, Hc1. simpl. unfold sep_text. by rewrite He, app_nil_r, <- app_assoc.
  - inv_ret H. rewrite Ht, app_nil_r. split_and!; [done..|]. destruct t; simpl in *.
    by subst.
Qed.

(** A sequence of prefix elements with one space between two of them: a separator after each, the
    last one only if more text follows. *)
Lemma strict_incomplete_prefix p t' p' :
  strict_at p → consumed p = [] → incomplete_prefix (mkTask false None None None []) p = Ok (t', p') →
  consumed p' =
    priority_text (priority t')
      (if bool_decide (is_Some (creation_date t')) then str " " else sep_text p')
    ++ date_text (creation_date t') (sep_text p')
  ∧ strict_at p' ∧ completed t' = false ∧ completion_date t' = None.
Proof.
  intros Hp H0 H. unfold incomplete_prefix in H. inv_bind H r p1 E1.
  apply strict_take_priority in E1 as (Hc1 & Hp1 & Hn1 & Hr); [|done..].
  apply strict_take_optional_date in H as (Hc2 & Hp2 & Hn2 & Ht'); [|done|by rewrite Hr].
  rewrite Hc2, Hc1, H0, Hr in *. simpl in *.
  assert (priority t' = priority (fst r)) as -> by (by rewrite Ht'; simpl; rewrite Hr).
  rewrite Ht'. simpl. split_and!; try done; [|by rewrite Hr..].
  destruct (creation_date t') as [d|] eqn:Hd.
  - case_bool_decide as Hs; [|by destruct Hs; eauto]. f_equal. unfold sep_text at 1.
    by rewrite Hn2.
  - case_bool_decide as Hs; [by destruct Hs|]. by rewrite Hn2.
Qed.

Lemma strict_completed_prefix p t' p' :
  strict_at p → consumed p = str "x" → completed_prefix (mkTask true None None None []) p = Ok (t', p') →
  ∃ d, completion_date t' = Some d ∧ completed t' = true ∧ priority t' = None ∧ strict_at p'
  ∧ consumed p' = str "x " ++ Date_display d
      ++ (if bool_decide (is_Some (creation_date t')) then str " " else sep_text p')
      ++ date_text (creation_date t') (sep_text p').
Proof.
  intros Hp H0 H. unfold completed_prefix in H. inv_bind H more p1 E1.
  apply strict_separator in E1 as (Hc1 & -> & Hp1 & He1); [|done].
  rewrite negb_involutive in H. destruct (p_end p) eqn:Ep.
  { inv_bind H u p2 E2. by apply lenient_or_strict in E2; [|apply Hp1]. }
  inv_bind H len p2 E2. injection E2 as Hlen <-. rewrite (at_strict _ Hp1) in Hlen.
  simpl in Hlen. subst len. inv_bind H t1 p2 Et. inv_ret Et. inv_bind H o p3 E3.
  apply strict_take_date in E3 as (Hc3 & Hp3 & Hn3); [|done]. destruct o as [d|];
    [|inv_bind H u p4 E4; by apply lenient_or_strict in E4; [|apply Hp3]].
  inv_bind H more p4 E4. apply strict_separator in E4 as (Hc4 & -> & Hp4 & He4); [|done].
  inv_bind H t2 p5 E5. simpl in H. inv_ret H.
  exists d. unfold sep_text in Hc1, Hc4. rewrite Ep in Hc1. destruct (p_end p3) eqn:Ep3; simpl in E5.
  - inv_ret E5. simpl. unfold sep_text. rewrite He4, Hc4, Hc3, Hc1, H0. split_and!; try done. simpl. by rewrite !app_nil_r.
  - apply strict_take_optional_date in E5 as (Hc5 & Hp5 & Hn5 & ->); [|done..]. simpl.
    split_and!; [done..|]. rewrite Hc5, Hc4, Hc3, Hc1, H0. simpl. rewrite app_nil_r.
    destruct (creation_date t2) as [d2|]; simpl; [|subst p5; unfold sep_text; rewrite He4];
      by rewrite <- ?app_assoc.
Qed.

Lemma check_separators_raw md start len n rest p r p' :
  p_mode p = md → check_separators start len n rest p = Ok (r, p') → step_ok p p'.
Proof.
  intros Hp H. pose proof (safe_check_separators md start len n rest p Hp) as Hs. by rewrite H in Hs.
Qed.

Lemma description_Ok p d p' :
  p_description p = Ok (d, p') → d = drop (p_pos p) (p_raw p) ∧ step_ok p p'.
Proof.
  unfold p_description. intros H. inv_bind H u p1 E. inv_ret H.
  split; [done|]. by eapply check_separators_raw.
Qed.

(** The cursor a parse starts with. *)
Definition p_init (raw : bytes) (mode : Mode) : Parser := mkParser raw (chunks raw) 0 mode NONE.

Lemma consumed_init raw mode : consumed (p_init raw mode) = [].
Proof.
  unfold consumed, p_pos, p_init; simpl. destruct (chunks raw !! 0) as [c|] eqn:E; simpl.
  - by rewrite (chunk_first _ _ E).
  - rewrite (chunks_nil raw) by (by destruct (chunks raw)). done.
Qed.

(** Every task is cut out of its line at the cursor the prefix parser stops at. *)
Lemma task_description raw mode t p' :
  p_task (p_init raw mode) = Ok (t, p') →
  ∃ p, step_ok (p_init raw mode) p ∧ step_ok p p' ∧ description t = drop (p_pos p) raw.
Proof.
  unfold p_task. intros H. inv_bind H t1 p E. inv_bind H d p2 E2. injection H as <- <-.
  apply description_Ok in E2 as [-> Hs2]. assert (step_ok (p_init raw mode) p) as Hs.
  { assert (∀ m : M Task, safe mode m → m (p_init raw mode) = Ok (t1, p) → step_ok (p_init raw mode) p) as Hrun.
    { intros m Hm Hr. pose proof (Hm (p_init raw mode) eq_refl) as Hs. by rewrite Hr in Hs. }
    pose proof (safe_completed_prefix mode). pose proof (safe_incomplete_prefix mode).
    eapply Hrun, E. safe. }
  exists p. by rewrite (step_raw _ _ Hs).
Qed.

(** ** Strict and lenient parsing agree on what strict accepts *)

Definition to_lenient (p : Parser) : Parser :=
  mkParser (p_raw p) (p_chunks p) (p_i p) Lenient (p_quirks p).

(** A step that succeeds in strict mode does the same in lenient mode. *)
Definition agree {A} (m : M A) : Prop := ∀ p a p',
  p_mode p = Strict → safe Strict m → m p = Ok (a, p') → m (to_lenient p) = Ok (a, to_lenient p').

Lemma agree_ret {A} (a : A) : agree (mret a).
Proof. intros p b p' _ _ H. by inv_ret H. Qed.

Lemma agree_bind {A B} (m : M A) (f : A → M B) :
  safe Strict m → (∀ a, safe Strict (f a)) → agree m → (∀ a, agree (f a)) → agree (m ≫= f).
Proof.
  intros Sm Sf Hm Hf p b p' Hp _ H. inv_bind H a p1 E. pose proof (Sm p Hp) as Hs.
  rewrite E in Hs. cbv [mbind M_bind]. rewrite (Hm _ _ _ Hp Sm E). apply Hf; [|done|done].
  by rewrite (step_mode _ _ Hs).
Qed.

Lemma agree_get {A} (f : Parser → A) : (∀ p, f (to_lenient p) = f p) → agree (p_get f).
Proof. intros Hf p a p' _ _ H. injection H as <- <-. by unfold p_get; rewrite Hf. Qed.

Lemma agree_advance : agree p_advance.
Proof. intros p a p' _ _ H. by injection H as <- <-. Qed.

Lemma agree_lenient_or_at q r m b : agree (lenient_or_at q r m b).
Proof. intros p a p' Hp _ H. by apply lenient_or_at_strict in H. Qed.

Lemma agree_lenient_or q r m : agree (lenient_or q r m).
Proof. intros p a p' Hp _ H. by apply lenient_or_strict in H. Qed.

Lemma agree_if {A} (b : bool) (m1 m2 : M A) : agree m1 → agree m2 → agree (if b then m1 else m2).
Proof. by destruct b. Qed.

Lemma agree_run {A} (m : M A) p a p' :
  p_mode p = Strict → safe Strict m → agree m → m p = Ok (a, p') →
  m (to_lenient p) = Ok (a, to_lenient p').
Proof. auto. Qed.

Create HintDb agree.
#[export] Hint Resolve agree_ret agree_get agree_advance agree_lenient_or_at agree_lenient_or : agree.
Ltac agree := repeat first
  [ solve [auto with agree] | apply agree_bind; [solve [safe]|intros; solve [safe]| |intros]
  | apply agree_if | case_match ].

Lemma agree_separator : agree separator.
Proof.
  intros p b p' Hp _ H. unfold separator in *. simpl in *.
  destruct (p_chunks p !! p_i p) as [c|]; [|by injection H as <- <-].
  eapply agree_run in H; [exact H|done|safe|agree].
Qed.

Lemma agree_take_priority t : agree (take_priority t).
Proof.
  pose proof agree_separator. pose proof (safe_separator Strict).
  intros p b p' Hp _ H'. unfold take_priority in *. change (p_word (to_lenient p)) with (p_word p).
  destruct (p_word p) as [w|]; [|by injection H' as <- <-].
  destruct (is_priority_word w); [|by injection H' as <- <-].
  eapply agree_run in H'; [exact H'|done|safe|agree].
Qed.

Lemma agree_take_date : agree take_date.
Proof.
  intros p b p' Hp _ H. unfold take_date in *. change (p_word (to_lenient p)) with (p_word p).
  destruct (p_word p) as [w|]; [|by injection H as <- <-].
  destruct (Date_parse w); [by injection H as <- <-|]. rewrite Hp in H. simpl in *.
  destruct (has_date_shape w); [done|by injection H as <- <-].
Qed.

Lemma agree_incomplete_prefix t : agree (incomplete_prefix t).
Proof.
  pose proof agree_separator. pose proof agree_take_priority. pose proof agree_take_date.
  pose proof (safe_separator Strict). pose proof (safe_take_priority Strict).
  pose proof (safe_take_date Strict). unfold incomplete_prefix, take_optional_date. agree.
Qed.

Lemma agree_check_separators start len n rest : agree (check_separators start len n rest).
Proof.
  pose proof (λ n rest, safe_check_separators Strict start len n rest).
  revert n. induction rest as [|c rest IH]; intros n; simpl; agree.
Qed.

Lemma agree_description : agree p_description.
Proof.
  pose proof agree_check_separators. pose proof (safe_check_separators Strict).
  intros p d p' Hp _ E. unfold p_description in *.
  eapply agree_run in E; [exact E|done|safe|agree].
Qed.

(** ** Whole lines *)

Lemma parse_line_inv raw0 mode schemes l :
  parse_line_with_schemes raw0 mode schemes = Ok l →
  (raw0 = [] ∧ l = mkLine raw0 LBlank NONE Lf)
  ∨ (raw0 ≠ [] ∧ ∃ t p, p_task (p_init raw0 mode) = Ok (t, p) ∧ raw l = raw0 ∧ kind l = LTask t
     ∧ ending l = Lf
     ∧ quirks l ∈ [p_quirks p; Quirks_insert (p_quirks p) INVALID_REF]).
Proof.
  unfold parse_line_with_schemes. case_bool_decide as E0; [intros [= <-]; auto|].
  fold (p_init raw0 mode). destruct (p_task _) as [[t p]|e] eqn:E; [|done].
  intros [= <-]. right. split; [done|]. exists t, p. split_and!; try done. simpl.
  case_match; set_solver.
Qed.

Lemma parse_line_lenient_ok (raw0 : bytes) (schemes : list bytes) :
  ∃ l, parse_line_with_schemes raw0 Lenient schemes = Ok l.
Proof.
  unfold parse_line_with_schemes. case_bool_decide; [by eexists|].
  fold (p_init raw0 Lenient). pose proof (safe_task Lenient (p_init raw0 Lenient) eq_refl) as Hs.
  destruct (p_task (p_init raw0 Lenient)) as [[t p]|e]; [by eexists|done].
Qed.

(** Lenient parsing accepts every line: no input makes it fail. *)
Theorem parse_line_lenient_total (raw0 : bytes) (schemes : list bytes) :
  ∃ l, parse_line_with_schemes raw0 Lenient schemes = Ok l.
Proof. apply parse_line_lenient_ok. Qed.

Lemma parse_line_tail (raw0 : bytes) (mode : Mode) (schemes : list bytes) (l : Line) :
  parse_line_with_schemes raw0 mode schemes = Ok l →
  raw l = raw0 ∧ (kind l = LBlank ↔ raw0 = [])
  ∧ ∀ t, kind l = LTask t →
      ∃ k, raw0 = take k raw0 ++ description t
           ∧ (is_utf8 raw0 = true → is_char_boundary raw0 k = true ∧ is_utf8 (description t) = true).
Proof.
  intros H. apply parse_line_inv in H as [[-> ->]|(Hne & t & p' & Ht & Hr & Hk & _)];
    [by split_and!|]. rewrite Hk. split_and!; [done..|]. intros t' [= <-].
  apply task_description in Ht as (p & Hs & _ & Hd). exists (p_pos p).
  rewrite Hd, take_drop. split; [done|]. intros Hu.
  pose proof (step_raw _ _ Hs) as Hraw. pose proof (step_chunks _ _ Hs) as Hch. simpl in *.
  assert (is_char_boundary raw0 (p_pos p) = true) as Hb.
  { unfold p_pos. rewrite Hraw, Hch. destruct (chunks raw0 !! p_i p) as [c|] eqn:E; simpl.
    - by eapply chunk_start_boundary.
    - apply is_char_boundary_end. }
  split; [done|]. by apply (is_utf8_boundary_split _ _ Hu Hb).
Qed.

(** Either parser returns the line's own bytes; only the empty line is blank; and a task's
    description is the tail of the line at a char boundary, so it is text again. *)
Theorem parse_line_verbatim (raw0 : bytes) (mode : Mode) (schemes : list bytes) (l : Line) :
  parse_line_with_schemes raw0 mode schemes = Ok l →
  raw l = raw0 ∧ (kind l = LBlank ↔ raw0 = [])
  ∧ ∀ t, kind l = LTask t →
      ∃ k, raw0 = take k raw0 ++ description t
           ∧ (is_utf8 raw0 = true → is_char_boundary raw0 k = true ∧ is_utf8 (description t) = true).
Proof. apply parse_line_tail. Qed.

Lemma parse_line_verbatim_witness :
  match parse_line (str "x 2026-09-11 (A) task") Lenient with
  | Ok l => raw l = str "x 2026-09-11 (A) task" | Err _ => False
  end.
Proof.
  destruct (parse_line (str "x 2026-09-11 (A) task") Lenient) as [l|e] eqn:E.
  - exact (proj1 (parse_line_verbatim _ _ _ _ E)).
  - vm_compute in E. discriminate E.
Defined.

(** A strictly parsed line carries no leniency quirk: the only quirk the strict parser leaves is
    an invalid [ref:] slug. *)
Theorem parse_line_strict_quirks (raw0 : bytes) (schemes : list bytes) (l : Line) :
  parse_line_with_schemes raw0 Strict schemes = Ok l → quirks l = NONE ∨ quirks l = INVALID_REF.
Proof.
  intros H. apply parse_line_inv in H as [[-> ->]|(Hne & t & p' & Ht & _ & _ & _ & Hq)]; [by left|].
  pose proof (safe_task Strict (p_init raw0 Strict) eq_refl) as Hs. rewrite Ht in Hs.
  rewrite (step_quirks _ _ Hs eq_refl) in Hq. simpl in Hq. set_solver.
Qed.

Lemma parse_line_strict_quirks_witness :
  match parse_line (str "(A) 2026-09-11 call ref:A") Strict with
  | Ok l => quirks l = NONE ∨ quirks l = INVALID_REF | Err _ => False
  end.
Proof.
  destruct (parse_line (str "(A) 2026-09-11 call ref:A") Strict) as [l|e] eqn:E.
  - exact (parse_line_strict_quirks _ _ _ E).
  - vm_compute in E. discriminate E.
Defined.

(** On a line that does not start with the word [x], whatever strict parsing accepts, lenient
    parsing reads as the same line: same task, same quirks. *)
Theorem parse_line_strict_lenient (raw0 : bytes) (schemes : list bytes) (l : Line) :
  starts_completed (p_init raw0 Lenient) = false →
  parse_line_with_schemes raw0 Strict schemes = Ok l →
  parse_line_with_schemes raw0 Lenient schemes = Ok l.
Proof.
  unfold parse_line_with_schemes. intros Hx H. case_bool_decide; [done|].
  fold (p_init raw0 Strict) in H. fold (p_init raw0 Lenient).
  destruct (p_task (p_init raw0 Strict)) as [[t p]|e] eqn:E; [|done].
  assert (p_task (p_init raw0 Lenient) = Ok (t, to_lenient p)) as ->; [|exact H].
  unfold p_task in *. rewrite Hx.
  assert (starts_completed (p_init raw0 Strict) = false) as Hx'.
  { unfold starts_completed in *. change (p_word (p_init raw0 Strict)) with (p_word (p_init raw0 Lenient)).
    simpl in Hx. destruct (negb _); [done|done]. }
  rewrite Hx' in E. eapply agree_run in E; [exact E|done|..].
  - pose proof (safe_description Strict). pose proof (safe_incomplete_prefix Strict). safe.
  - pose proof agree_description. pose proof agree_incomplete_prefix.
    pose proof (safe_description Strict). pose proof (safe_incomplete_prefix Strict). agree.
Qed.

Lemma parse_line_strict_lenient_witness :
  match parse_line (str "(A) 2026-09-11 call") Strict with
  | Ok l => parse_line (str "(A) 2026-09-11 call") Lenient = Ok l | Err _ => False
  end.
Proof.
  destruct (parse_line (str "(A) 2026-09-11 call") Strict) as [l|e] eqn:E.
  - apply (parse_line_strict_lenient _ DEFAULT_SCHEMES l); [vm_compute; reflexivity|exact E].
  - vm_compute in E. discriminate E.
Defined.

(** ** What parsed tasks hold *)

(** A postcondition on the value a step returns. *)
Definition post {A} (m : M A) (Q : A → Prop) : Prop := ∀ p a p', m p = Ok (a, p') → Q a.

Lemma post_ret {A} (a : A) (Q : A → Prop) : Q a → post (mret a) Q.
Proof. intros HQ p b p' H. by inv_ret H. Qed.

Lemma post_bind {A B} (m : M A) (f : A → M B) Q R :
  post m Q → (∀ a, Q a → post (f a) R) → post (m ≫= f) R.
Proof. intros Hm Hf p b p' H. inv_bind H a p1 E. eapply Hf; [by eapply Hm|done]. Qed.

Lemma post_true {A} (m : M A) : post m (λ _, True).
Proof. done. Qed.

Section post_prefix.
(** A property of tasks that no field the prefix parser sets can break. *)
Context (Q : Task → Prop).
Context (Q_priority : ∀ t pr, Q t → (∀ p, pr = Some p → Priority_valid p) →
  Q (mkTask (completed t) (completion_date t) (creation_date t) pr (description t))).
Context (Q_creation : ∀ t d, Q t → Date_valid d →
  Q (mkTask (completed t) (completion_date t) (Some d) (priority t) (description t))).
Context (Q_completion : ∀ t d, Q t → Date_valid d →
  Q (mkTask (completed t) (Some d) (creation_date t) (priority t) (description t))).

Lemma post_take_priority t : Q t → post (take_priority t) (λ r, Q (fst r)).
Proof.
  intros HQ p r p' H. unfold take_priority in H.
  destruct (p_word p) as [w|]; [|by injection H as <- <-].
  destruct (is_priority_word w); [|by injection H as <- <-].
  inv_bind H u p1 E1. inv_bind H b p2 E2. inv_ret H. apply Q_priority; [done|].
  intros pr (c & _ & Hc)%bind_Some. by eapply Priority_new_valid.
Qed.

Lemma post_take_date : post take_date (λ o, ∀ d, o = Some d → Date_valid d).
Proof.
  intros p o p' H. unfold take_date in H. destruct (p_word p) as [w|]; [|by injection H as <- <-].
  destruct (Date_parse w) as [d|] eqn:Hd.
  - inv_bind H u p1 E1. inv_ret H. intros d' [= <-]. by eapply Date_parse_valid.
  - destruct (_ && _); [done|by injection H as <- <-].
Qed.

Lemma post_take_optional_date t : Q t → post (take_optional_date t) Q.
Proof.
  intros HQ. eapply post_bind; [apply post_take_date|]. intros [d|] Hd; simpl in Hd.
  - eapply post_bind; [apply post_true|]. intros _ _. apply post_ret. auto.
  - by apply post_ret.
Qed.

Lemma post_incomplete_prefix t : Q t → post (incomplete_prefix t) Q.
Proof.
  intros HQ. eapply post_bind; [by apply post_take_priority|]. intros r Hr.
  by apply post_take_optional_date.
Qed.

Lemma post_completed_prefix t : Q t → post (completed_prefix t) Q.
Proof.
  intros HQ. eapply post_bind; [apply post_true|]. intros more _. destruct more; simpl.
  2: { eapply post_bind; [apply post_true|]. intros _ _. by apply post_ret. }
  assert (∀ q t, Q t → post (r ← take_priority t;
    _ ← (if (snd r : bool) then p_insert q else mret tt); mret (fst r)) Q) as Hpri.
  { intros q t0 Ht0. eapply post_bind; [by apply post_take_priority|]. intros r Hr.
    eapply post_bind; [apply post_true|]. intros _ _. by apply post_ret. }
  eapply post_bind; [apply post_true|]. intros len _.
  eapply (post_bind _ _ Q); [destruct len; [by apply Hpri|by apply post_ret]|].
  intros t1 Ht1. eapply post_bind; [apply post_take_date|]. intros [d|] Hd; simpl in Hd.
  2: { eapply post_bind; [apply post_true|]. intros _ _. by apply post_ret. }
  eapply post_bind; [apply post_true|]. intros more _.
  eapply (post_bind _ _ Q).
  { destruct more; [apply post_take_optional_date|apply post_ret]; auto. }
  intros t2 Ht2. destruct (len && bool_decide (priority t2 = None)); [by apply Hpri|by apply post_ret].
Qed.
End post_prefix.

(** The dates exist on the calendar and the priority is a capital letter. *)
Definition Task_wf (t : Task) : Prop :=
  (∀ d, completion_date t = Some d → Date_valid d) ∧ (∀ d, creation_date t = Some d → Date_valid d)
  ∧ (∀ pr, priority t = Some pr → Priority_valid pr).

(** A task is its prefix run on an empty task, completed or not, plus the description. *)
Lemma post_task raw0 mode t p :
  p_task (p_init raw0 mode) = Ok (t, p) →
  ∃ t1 p1 p2, (if starts_completed (p_init raw0 mode)
      then completed_prefix (mkTask true None None None [])
      else incomplete_prefix (mkTask false None None None [])) p1 = Ok (t1, p2)
    ∧ t = mkTask (completed t1) (completion_date t1) (creation_date t1) (priority t1) (description t).
Proof.
  unfold p_task. intros Ht. inv_bind Ht t1 p1 E1. inv_bind Ht d p2 E2. injection Ht as <- <-.
  destruct (starts_completed _).
  - inv_bind E1 u p0 E0. by exists t1, p0, p1.
  - by exists t1, (p_init raw0 mode), p1.
Qed.

Lemma post_parse_line (raw0 : bytes) (mode : Mode) (schemes : list bytes) (l : Line) (t : Task) :
  parse_line_with_schemes raw0 mode schemes = Ok l → kind l = LTask t → Task_wf t.
Proof.
  intros H Hk. apply parse_line_inv in H as [[-> ->]|(_ & t' & p' & Ht & _ & Hk' & _)]; [done|].
  assert (t' = t) as -> by congruence. apply post_task in Ht as (t1 & p1 & p2 & E & ->).
  enough (Task_wf t1) by done.
  eapply (λ m (Hm : post m Task_wf), Hm p1 t1 p2); [|exact E].
  assert (∀ c, Task_wf (mkTask c None None None [])) as H0 by by intros; split_and!.
  destruct (starts_completed _); [apply post_completed_prefix|apply post_incomplete_prefix]; try done.
  all: intros ?; unfold Task_wf; naive_solver.
Qed.

(** ** The calendar, written out *)

(** The days of the months of a common year. *)
Definition common_year : list N := [31; 28; 31; 30; 31; 30; 31; 31; 30; 31; 30; 31]%N.

(** Every fourth year, but for the centuries that 400 does not divide. *)
Definition leap_year (y : N) : Prop := (4 | y)%N ∧ ((100 | y)%N → (400 | y)%N).

(** A day of the Gregorian calendar in the years 0 to 9999. *)
Definition calendar_day (d : Date) : Prop :=
  (year d <= 9999 ∧ 1 <= month d ∧ 1 <= day d)%N
  ∧ ∃ len, common_year !! (N.to_nat (month d) - 1) = Some len
      ∧ ((day d <= len)%N ∨ month d = 2%N ∧ day d = 29%N ∧ leap_year (year d)).

Lemma leap_year_mod y :
  leap_year y ↔ (y mod 4 =? 0)%N && (negb (y mod 100 =? 0)%N || (y mod 400 =? 0)%N) = true.
Proof.
  unfold leap_year. rewrite andb_true_iff, orb_true_iff, negb_true_iff, N.eqb_neq, !N.eqb_eq, <- !N.Lcm0.mod_divide.
  destruct (decide ((y mod 100)%N = 0%N)); naive_solver.
Qed.

Lemma calendar_month d :
  (1 <= month d <= 12)%N →
  ∃ len, common_year !! (N.to_nat (month d) - 1) = Some len
    ∧ days_in_month (year d) (month d)
      = if (month d =? 2)%N && ((year d mod 4 =? 0)%N && (negb (year d mod 100 =? 0)%N || (year d mod 400 =? 0)%N)) then 29%N else len.
Proof.
  destruct d as [y m dd]. cbn [year month day]. intros Hm.
  assert (m ∈ [1; 2; 3; 4; 5; 6; 7; 8; 9; 10; 11; 12]%N) as Hin by (rewrite !elem_of_cons; lia).
  unfold days_in_month. generalize ((y mod 4 =? 0)%N && (negb (y mod 100 =? 0)%N || (y mod 400 =? 0)%N)). intros leap.
  repeat (apply elem_of_cons in Hin as [->|Hin]; [eexists; split; [reflexivity|]; destruct leap; reflexivity|]).
  by apply elem_of_nil in Hin.
Qed.

(** The constructor accepts exactly the days of the calendar. *)
Lemma Date_valid_calendar d : Date_valid d ↔ calendar_day d.
Proof.
  unfold Date_valid, calendar_day. split.
  - intros (_ & Hy & Hm & Hd & Hdm)%Date_new_inv. split; [lia|]. destruct (calendar_month d Hm) as (len & Hl & E). exists len. split; [done|].
    rewrite leap_year_mod. rewrite E in Hdm. destruct (_ && _) eqn:Ea; [|by left]. apply andb_true_iff in Ea as [Ea Hleap].
    apply N.eqb_eq in Ea. rewrite Ea in Hl. injection Hl as <-. destruct (decide (day d = 29%N)); [right; by split_and!|left; lia].
  - intros ((Hy & Hm1 & Hd1) & len & Hl & Hd). assert (month d <= 12)%N as Hm2.
    { apply lookup_lt_Some in Hl. cbn [common_year length] in Hl. lia. }
    destruct (calendar_month d) as (len' & Hl' & E); [lia|]. assert (len' = len) as -> by congruence. rewrite leap_year_mod in Hd.
    assert (day d <= days_in_month (year d) (month d))%N as Hdm.
    { rewrite E. destruct Hd as [Hd|(Hm & -> & Hlp)]; [|rewrite Hm, N.eqb_refl, Hlp; cbn [andb]; lia]. destruct (_ && _) eqn:Ea; [|done]. apply andb_true_iff in Ea as [Ea _].
      apply N.eqb_eq in Ea. rewrite Ea in Hl. injection Hl as <-. lia. }
    unfold Date_new. destruct ((9999 <? _)%N || _ || _ || _ || _) eqn:Eb; [exfalso; rewrite !orb_true_iff, !N.ltb_lt, !N.eqb_eq in Eb; lia|by destruct d].
Qed.

(** C40. Every task either parser yields is well typed: its dates are days of the Gregorian calendar in
    the years 0 to 9999, and its priority is one of the letters A to Z. Nor is the constructor of dates
    stricter than that: every such day is a date, and reads back from its [yyyy-mm-dd]. *)
Theorem parse_line_task_wf (raw0 : bytes) (mode : Mode) (schemes : list bytes) (l : Line) (t : Task) :
  parse_line_with_schemes raw0 mode schemes = Ok l → kind l = LTask t →
  (∀ d, completion_date t = Some d ∨ creation_date t = Some d → calendar_day d)
  ∧ (∀ pr, priority t = Some pr → ∃ c, pr = mkPriority c ∧ c ∈ str "ABCDEFGHIJKLMNOPQRSTUVWXYZ")
  ∧ (∀ d, calendar_day d → Date_parse (Date_display d) = Some d).
Proof.
  intros H Hk. destruct (post_parse_line _ _ _ _ _ H Hk) as (H1 & H2 & H3). split_and!.
  - intros d [Hd|Hd]; apply Date_valid_calendar; auto.
  - intros pr Hpr. destruct (Priority_valid_letter _ (H3 _ Hpr)) as (c & -> & Hc & _). exists c. split; [done|].
    apply (bool_decide_eq_true_1 _). by destruct c.
  - intros d Hd%Date_valid_calendar. by apply Date_parse_display_valid.
Qed.

Lemma parse_line_task_wf_witness :
  match parse_line (str "x 2028-02-29 (A) task") Lenient with
  | Ok (mkLine _ (LTask t) _ _) => ∀ d, completion_date t = Some d → calendar_day d
  | _ => False
  end.
Proof.
  destruct (parse_line (str "x 2028-02-29 (A) task") Lenient) as [[r [|t] q e]|] eqn:E.
  1, 3: vm_compute in E; discriminate E.
  intros d Hd. exact (proj1 (parse_line_task_wf _ _ _ _ t E eq_refl) d (or_introl Hd)).
Defined.

(** Lenient: a line whose first word is [x] is a completed task. *)
Lemma parse_lenient_x rest l :
  (∀ b, head rest = Some b → is_ws b = true) →
  parse_line ("x"%byte :: rest) Lenient = Ok l → ∃ t, kind l = LTask t ∧ completed t = true.
Proof.
  intros Hr H. apply parse_line_inv in H as [[? _]|(_ & t & p' & Ht & _ & Hk & _)]; [done|].
  exists t. split; [done|]. apply post_task in Ht as (t1 & p1 & p2 & E & ->). simpl.
  assert (starts_completed (p_init ("x"%byte :: rest) Lenient) = true) as Hx.
  { assert (chunks ("x"%byte :: rest) !! 0 = Some (mkChunk 0 1 false)) as Hc.
    { unfold chunks. cbn [length chunks_from].
      assert (run_len (is_ws "x"%byte) ("x"%byte :: rest) = 1) as ->; [|done].
      destruct rest as [|b rest]; [done|]. cbn. by rewrite (Hr b eq_refl). }
    unfold starts_completed, p_word, p_init. cbn [p_chunks p_i p_raw p_mode]. by rewrite Hc. }
  rewrite Hx in E. revert E.
  apply (post_completed_prefix (λ t, completed t = true)); auto.
Qed.
