(* ===== verification/Format.v ===== *)
(** The byte-preserving formatter of [crates/txtodo-core/src/format.rs].

    The theorem: what the strict parser accepts, the formatter writes back byte for byte. *)
From S2P Require Import Prelude.
From S2P Require Import Utf8.
From S2P Require Import Types.
From S2P Require Import Ulid.
From S2P Require Import Scanner.
From S2P Require Import Parser.

(** The structured prefix of a task, as the formatter emits it. *)
Record Prefix := mkPrefix {
  pre_completed : bool;
  pre_completion_date : option Date;
  pre_creation_date : option Date;
  pre_priority : option Priority;
}.

Definition Prefix_default : Prefix := mkPrefix false None None None.

Definition Prefix_of (t : Task) : Prefix :=
  mkPrefix (completed t) (completion_date t) (creation_date t) (priority t).

(** Appends [ YYYY-MM-DD], or [YYYY-MM-DD] on an empty prefix. *)
Definition push_date (out : bytes) (date : option Date) : bytes :=
  match date with
  | None => out
  | Some d => (if bool_decide (out = []) then out else out ++ str " ") ++ Date_display d
  end.

(** The strict prefix, ending with one space when non-empty and a description follows. A completed
    prefix never carries [(A)]. *)
Definition emit_prefix (p : Prefix) (has_description : bool) : bytes :=
  let out :=
    if pre_completed p then push_date (str "x") (pre_completion_date p)
    else match pre_priority p with
         | Some pri => str "(" ++ encode_char (Priority_as_char pri) ++ str ")"
         | None => []
         end in
  let out := push_date out (pre_creation_date p) in
  if negb (bool_decide (out = [])) && has_description then out ++ str " " else out.

(** Byte offset where the description starts in a leniently parsed line; its length when there is
    none. *)
Definition description_start (line : bytes) : nat :=
  match parse_line line Lenient with
  | Ok l =>
      match kind l with
      | LTask t => length line - length (description t)
      | LBlank => length line
      end
  | Err _ => length line
  end.

#[global] Instance Prefix_eq_dec : EqDecision Prefix.
Proof. solve_decision. Defined.

(** ** The description is where the parser says it is *)

(** Splitting a line at [description_start] gives the prefix bytes and the description. *)
Lemma description_start_split line l t :
  parse_line line Lenient = Ok l → kind l = LTask t →
  drop (description_start line) line = description t.
Proof.
  intros H Hk. unfold description_start. rewrite H, Hk.
  apply parse_line_inv in H as [[-> ->]|(_ & t' & p' & Ht & _ & Hk' & _)]; [done|].
  assert (t' = t) as -> by congruence.
  apply task_description in Ht as (p & Hs & _ & ->). rewrite length_drop.
  assert (p_pos p ≤ length line).
  { pose proof (step_raw _ _ Hs) as E. simpl in E. rewrite <- E. apply p_pos_le.
    by eapply on_chunks_step. }
  f_equal. lia.
Qed.

(** ** The strict prefix *)

Lemma Date_display_nonempty d : Date_display d ≠ [].
Proof.
  unfold Date_display. intros H. apply (f_equal length) in H.
  rewrite !length_app in H. simpl in H. lia.
Qed.

Lemma emit_incomplete c pr hd :
  emit_prefix (mkPrefix false None c pr) hd =
    priority_text pr (if bool_decide (is_Some c) then str " " else if hd then str " " else [])
    ++ date_text c (if hd then str " " else []).
Proof.
  unfold emit_prefix, Priority_display, Priority_text; simpl. destruct pr as [pr|], c as [d|]; simpl.
  1: destruct hd; simpl; by rewrite ?app_nil_r, <- ?app_assoc.
  1: destruct hd; simpl; by rewrite ?app_nil_r, <- ?app_assoc.
  2: by destruct hd.
  rewrite bool_decide_eq_false_2 by apply Date_display_nonempty.
  destruct hd; simpl; by rewrite ?app_nil_r.
Qed.

Lemma emit_completed d c hd :
  emit_prefix (mkPrefix true (Some d) c None) hd =
    str "x " ++ Date_display d ++ (if bool_decide (is_Some c) then str " " else if hd then str " " else [])
    ++ date_text c (if hd then str " " else []).
Proof.
  unfold emit_prefix; simpl. destruct c as [d'|], hd; simpl; by rewrite ?app_nil_r, <- ?app_assoc.
Qed.

Lemma p_task_strict line t p' :
  p_task (p_init line Strict) = Ok (t, p') →
  line = emit_prefix (Prefix_of t) (negb (bool_decide (description t = []))) ++ description t.
Proof.
  intros H. pose proof (safe_task Strict _ (eq_refl : p_mode (p_init line Strict) = Strict)) as Hs.
  unfold p_task in H. inv_bind H t1 p E. inv_bind H d p2 E2. injection H as <- <-.
  apply description_Ok in E2 as [-> Hs2].
  assert (strict_at (p_init line Strict)) as H0 by done.
  assert (strict_at p ∧ consumed p = emit_prefix (Prefix_of t1) (negb (p_end p))) as [Hp Hc].
  { unfold sep_text in *. destruct (starts_completed (p_init line Strict)) eqn:Ex.
    - inv_bind E u p1 E1. injection E1 as <- <-.
      unfold starts_completed in Ex. case_bool_decide as Hw; [|done].
      apply p_word_chunk in Hw as (c & Hc & Hct).
      apply strict_completed_prefix in E as (d & Hd & Hx & Hpr & Hp & ->); [|by split|].
      + split; [done|]. unfold Prefix_of. rewrite Hd, Hx, Hpr, emit_completed. unfold sep_text.
        by destruct (p_end p).
      + pose proof (consumed_advance _ c (p_quirks (p_init line Strict)) (at_chunks _ H0) Hc) as Hca.
        rewrite Hct, consumed_init in Hca. exact Hca.
    - apply strict_incomplete_prefix in E as (-> & Hp & Hx & Hd); [|done|apply consumed_init].
      split; [done|]. unfold Prefix_of. rewrite Hd, Hx, emit_incomplete. unfold sep_text.
      by destruct (p_end p). }
  assert (p_raw p = line) as Hr.
  { clear -E. assert (safe Strict (if starts_completed (p_init line Strict)
      then _ ← p_advance; completed_prefix (mkTask true None None None [])
      else incomplete_prefix (mkTask false None None None []))) as Hsafe.
    { pose proof (safe_completed_prefix Strict). pose proof (safe_incomplete_prefix Strict). safe. }
    specialize (Hsafe (p_init line Strict) eq_refl). cbv beta in E. rewrite E in Hsafe.
    by rewrite (step_raw _ _ Hsafe). }
  simpl. rewrite <- Hr at 1. rewrite <- (take_drop (p_pos p) (p_raw p)) at 1.
  fold (consumed p). rewrite Hc. unfold Prefix_of at 2; simpl. fold (Prefix_of t1). do 2 f_equal.
  destruct (p_end p) eqn:He.
  - rewrite (proj2 (drop_pos_nil p (at_chunks _ Hp)) He). done.
  - case_bool_decide as Hn; [|done]. apply drop_pos_nil in Hn; [congruence|apply Hp].
Qed.

(** C28. Strict round trip: every line the strict parser accepts as a task is what the formatter
    writes for that task, byte for byte. *)
Theorem strict_parse_emit (line : bytes) (schemes : list bytes) (l : Line) (t : Task) :
  parse_line_with_schemes line Strict schemes = Ok l → kind l = LTask t →
  emit_prefix (Prefix_of t) (negb (bool_decide (description t = []))) ++ description t = line.
Proof.
  intros H Hk. apply parse_line_inv in H as [[-> ->]|(_ & t' & p' & Ht & _ & Hk' & _)]; [done|].
  assert (t' = t) as -> by congruence. symmetry. by eapply p_task_strict.
Qed.

Lemma strict_parse_emit_witness :
  match parse_line (str "x 2026-09-11 2026-09-01 call @mum") Strict with
  | Ok (mkLine _ (LTask t) _ _) =>
      emit_prefix (Prefix_of t) (negb (bool_decide (description t = []))) ++ description t
      = str "x 2026-09-11 2026-09-01 call @mum"
  | _ => False
  end.
Proof.
  destruct (parse_line (str "x 2026-09-11 2026-09-01 call @mum") Strict) as [[r [|t] q e]|] eqn:E.
  1, 3: vm_compute in E; discriminate E.
  exact (strict_parse_emit _ _ _ t E eq_refl).
Defined.
