(* ===== verification/TodoFile.v ===== *)
(** The whole-file model of [crates/txtodo-core/src/file.rs]: owned lines plus the hygiene that must
    round-trip (byte order mark, line endings, trailing newline).

    The theorems: parsing then writing a file gives its exact bytes, whatever they are; a parsed file
    is well formed; and writing any edited file never glues two lines together. *)
From S2P Require Import Prelude.
From S2P Require Import Utf8.
From S2P Require Import Types.
From S2P Require Import Ulid.
From S2P Require Import Scanner.
From S2P Require Import Parser.

(** UTF-8 byte order mark. *)
Definition BOM : bytes := [xef; xbb; xbf].

Record OwnedLine := mkOwnedLine { ol_bytes : bytes; ol_ending : LineEnding; ol_quirks : Quirks }.

Definition OwnedLine_new (bs : bytes) (e : LineEnding) (q : Quirks) : OwnedLine := mkOwnedLine bs e q.

(** Records the lenient parser's quirks (none for an opaque, non-UTF-8 line). *)
Definition OwnedLine_from_bytes (bs : bytes) (e : LineEnding) : OwnedLine :=
  let q :=
    if is_utf8 bs then
      match parse_line bs Lenient with Ok l => quirks l | Err _ => NONE end
    else NONE in
  OwnedLine_new bs e q.

(** The line as text, or [None] when the bytes are not UTF-8 (an opaque line). *)
Definition OwnedLine_raw (l : OwnedLine) : option bytes :=
  if is_utf8 (ol_bytes l) then Some (ol_bytes l) else None.

Definition OwnedLine_parse (l : OwnedLine) : option Line :=
  r ← OwnedLine_raw l;
  line ← result_ok (parse_line r Lenient);
  Some (mkLine (raw line) (kind line) (ol_quirks l) (ol_ending l)).

Record File := mkFile {
  lines : list OwnedLine;
  bom : bool;
  f_ending : LineEnding;
  trailing_newline : bool
}.

Definition File_default : File := mkFile [] false Lf false.

#[global] Instance OwnedLine_eq_dec : EqDecision OwnedLine.
Proof. solve_decision. Defined.
#[global] Instance File_eq_dec : EqDecision File.
Proof. solve_decision. Defined.

Definition is_nl (c : byte) : bool := bool_decide (c = x0a).

(** The iterator: each call takes at least one byte, so the body's length is enough fuel. *)
Fixpoint split_lines_from (fuel : nat) (rest : bytes) : list (bytes * LineEnding) :=
  match fuel, rest with
  | 0, _ | _, [] => []
  | S fuel', _ :: _ =>
      match position is_nl rest with
      | None => [(rest, NoEnding)]
      | Some nl =>
          let line := take nl rest in
          let after := drop nl rest in
          let le :=
            match strip_suffix [x0d] line with
            | Some stripped => (stripped, CrLf)
            | None => (line, Lf)
            end in
          le :: split_lines_from fuel' (drop 1 after)
      end
  end.

Definition split_lines (body : bytes) : list (bytes * LineEnding) :=
  split_lines_from (length body) body.

(** Majority of [Lf] vs [CrLf]; ties and empty files are [Lf]. *)
Definition dominant_ending (ls : list OwnedLine) : LineEnding :=
  let crlf := length (List.filter (λ l, bool_decide (ol_ending l = CrLf)) ls) in
  let lf := length (List.filter (λ l, bool_decide (ol_ending l = Lf)) ls) in
  if lf <? crlf then CrLf else Lf.

Definition parse_file (bs : bytes) : File :=
  let has_bom := starts_with BOM bs in
  let body := if has_bom then drop (length BOM) bs else bs in
  let trailing := bool_decide (last body = Some x0a) in
  let ls := map (λ be, OwnedLine_from_bytes (fst be) (snd be)) (split_lines body) in
  let e := dominant_ending ls in
  let ls := map (λ l,
    if negb (bool_decide (ol_ending l = NoEnding)) && negb (bool_decide (ol_ending l = e))
    then mkOwnedLine (ol_bytes l) (ol_ending l) (Quirks_insert (ol_quirks l) MIXED_ENDING)
    else l) ls in
  mkFile ls has_bom e trailing.

(** The ending a line gets when it must have one. *)
Definition File_terminator (f : File) : LineEnding :=
  match f_ending f with NoEnding => Lf | dominant => dominant end.

(** The exact bytes: only the last line may be written without an ending. *)
Definition to_bytes (f : File) : bytes :=
  let last := length (lines f) - 1 in
  (if bom f then BOM else [])
  ++ concat (imap (λ i line,
       let e := match ol_ending line with
                | NoEnding => if i <? last then File_terminator f else NoEnding
                | own => own
                end in
       ol_bytes line ++ LineEnding_as_bytes e) (lines f)).

(** ** Cutting a body into lines *)

(** A line and its ending, as bytes. *)
Definition unsplit (be : bytes * LineEnding) : bytes := fst be ++ LineEnding_as_bytes (snd be).

(** What a cut is: no line holds a line feed; one that ends in a bare line feed does not end in a
    carriage return; only the last one may lack an ending, and then it is not empty. *)
Fixpoint cut_ok (ls : list (bytes * LineEnding)) : Prop :=
  match ls with
  | [] => True
  | (b, e) :: ls' =>
      (x0a ∉ b) ∧ (e = Lf → last b ≠ Some x0d) ∧ (e = NoEnding → ls' = [] ∧ b ≠ []) ∧ cut_ok ls'
  end.

Lemma is_nl_eq c : is_nl c = true → c = x0a.
Proof. apply bool_decide_eq_true_1. Qed.

Lemma no_nl_Forall l : Forall (λ c, is_nl c = false) l ↔ x0a ∉ l.
Proof.
  rewrite Forall_forall. unfold is_nl. setoid_rewrite bool_decide_eq_false. split; naive_solver.
Qed.

Lemma last_snoc_inv {A} (l : list A) x : last l = Some x → ∃ l', l = l' ++ [x].
Proof.
  destruct l as [|y l' _] using rev_ind; [done|]. rewrite last_snoc. intros [= ->]. by exists l'.
Qed.

Lemma split_lines_from_ok fuel body :
  length body ≤ fuel →
  cut_ok (split_lines_from fuel body) ∧ concat (map unsplit (split_lines_from fuel body)) = body.
Proof.
  revert body. induction fuel as [|fuel IH]; intros [|c body] Hl; simpl in Hl; [done|lia|done|].
  cbn [split_lines_from]. destruct (position is_nl (c :: body)) as [nl|] eqn:Hp.
  - apply position_spec in Hp as (l1 & x & l2 & E & <- & ->%is_nl_eq & Hall). rewrite E.
    apply no_nl_Forall in Hall. rewrite take_app_length, drop_app_length. cbn [drop].
    destruct (IH l2) as [IHok IHcat].
    { apply (f_equal length) in E. rewrite length_app in E. simpl in E. lia. }
    destruct (strip_suffix [x0d] l1) as [s|] eqn:Hs; cbn [cut_ok map concat];
      rewrite drop_0, IHcat; unfold unsplit; cbn [fst snd LineEnding_as_bytes].
    + apply strip_suffix_spec in Hs as ->. split_and!; try done; [set_solver|].
      by rewrite <- !app_assoc.
    + split_and!; try done; [|by rewrite <- app_assoc]. intros _ Hlast.
      apply last_snoc_inv in Hlast as [s ->].
      by rewrite (proj2 (strip_suffix_spec [x0d] (s ++ [x0d]) s)) in Hs.
  - apply position_None, no_nl_Forall in Hp. cbn. by rewrite !app_nil_r.
Qed.

Lemma split_lines_ok body : cut_ok (split_lines body) ∧ concat (map unsplit (split_lines body)) = body.
Proof. by apply split_lines_from_ok. Qed.

(** Cutting what was put together gives the pieces back: a cut is unique. *)
Lemma split_lines_from_unsplit fuel ls :
  cut_ok ls → length (concat (map unsplit ls)) ≤ fuel →
  split_lines_from fuel (concat (map unsplit ls)) = ls.
Proof.
  revert ls. induction fuel as [|fuel IH]; intros [|[b e] ls] Hcut Hl; [done| |done|];
    destruct Hcut as (Hnl & Hlf & Hno & Hok).
  { exfalso. cbn [map concat] in Hl. unfold unsplit at 1 in Hl. rewrite !length_app in Hl. destruct e; simpl in Hl; try lia.
    destruct (Hno eq_refl) as [_ Hb]. destruct b; simpl in *; [done|lia]. }
  assert (∀ p q, x0a ∉ p → length (p ++ x0a :: q) ≤ S fuel → q = concat (map unsplit ls) →
    split_lines_from (S fuel) (p ++ x0a :: q) =
      match strip_suffix [x0d] p with Some s => (s, CrLf) | None => (p, Lf) end :: ls) as Hstep.
  { intros p q Hp Hlen ->. rewrite length_app in Hlen. simpl in Hlen.
    assert (position is_nl (p ++ x0a :: concat (map unsplit ls)) = Some (length p)) as Hpos.
    { apply no_nl_Forall in Hp. clear -Hp. induction Hp as [|c p Hc Hp IHp]; [done|].
      simpl. by rewrite Hc, IHp. }
    destruct (p ++ x0a :: concat (map unsplit ls)) as [|c0 l0] eqn:E0; [by destruct p|].
    cbn [split_lines_from]. rewrite Hpos, <- E0, take_app_length, drop_app_length. cbn [drop].
    rewrite drop_0, IH; [|done|lia]. by destruct (strip_suffix _ _). }
  cbn [map concat] in *. destruct e.
  - change (unsplit (b, Lf)) with (b ++ [x0a]) in *. rewrite <- app_assoc in *. cbn [app] in *.
    rewrite (Hstep b _ Hnl Hl eq_refl).
    destruct (strip_suffix [x0d] b) as [s|] eqn:Hs; [|done].
    apply strip_suffix_spec in Hs as ->. by rewrite last_snoc in Hlf; destruct (Hlf eq_refl).
  - replace (unsplit (b, CrLf) ++ concat (map unsplit ls))
      with ((b ++ [x0d]) ++ x0a :: concat (map unsplit ls)) in *
      by (unfold unsplit; simpl; by rewrite <- !app_assoc).
    rewrite (Hstep (b ++ [x0d]) _); [|set_solver|done|done].
    by rewrite (proj2 (strip_suffix_spec [x0d] (b ++ [x0d]) b)).
  - destruct (Hno eq_refl) as [-> Hb]. unfold unsplit. cbn [map concat fst snd LineEnding_as_bytes].
    rewrite !app_nil_r. destruct b as [|c b]; [done|]. cbn [split_lines_from].
    by rewrite (proj2 (position_None _ _) (proj2 (no_nl_Forall _) Hnl)).
Qed.

Lemma split_lines_unsplit ls : cut_ok ls → split_lines (concat (map unsplit ls)) = ls.
Proof. intros H. by apply split_lines_from_unsplit. Qed.

(** ** Writing a file *)

(** The lines with the ending each is written with. *)
Definition written (f : File) : list (bytes * LineEnding) :=
  imap (λ i line, (ol_bytes line,
    match ol_ending line with
    | NoEnding => if i <? length (lines f) - 1 then File_terminator f else NoEnding
    | own => own
    end)) (lines f).

Lemma to_bytes_written f : to_bytes f = (if bom f then BOM else []) ++ concat (map unsplit (written f)).
Proof.
  unfold to_bytes, written. f_equal. f_equal.
  change (map unsplit) with (fmap (M:=list) unsplit). rewrite fmap_imap. by apply imap_ext.
Qed.

(** The body of a file: what follows the byte order mark. *)
Definition body_of (bs : bytes) : bytes := if starts_with BOM bs then drop (length BOM) bs else bs.

Lemma body_of_bom bs : (if starts_with BOM bs then BOM else []) ++ body_of bs = bs.
Proof.
  unfold body_of. destruct (starts_with BOM bs) eqn:E; [|done].
  apply starts_with_spec in E as [r ->]. by rewrite drop_app_length.
Qed.

Lemma parse_file_lines bs :
  map (λ l, (ol_bytes l, ol_ending l)) (lines (parse_file bs)) = split_lines (body_of bs).
Proof.
  unfold parse_file, body_of; simpl. rewrite map_map, map_map.
  rewrite <- (map_id (split_lines _)) at 2. apply map_ext. intros [b e]. simpl. by case_match.
Qed.

Lemma cut_ok_lookup ls i b e :
  cut_ok ls → ls !! i = Some (b, e) →
  (x0a ∉ b) ∧ (e = Lf → last b ≠ Some x0d) ∧ (e = NoEnding → S i = length ls ∧ b ≠ []).
Proof.
  revert i. induction ls as [|[b' e'] ls IH]; intros i Hok Hi; [done|].
  destruct Hok as (H1 & H2 & H3 & H4). destruct i as [|i]; simpl in *; simplify_eq.
  - split_and!; try done. intros He. by destruct (H3 He) as [-> ?].
  - destruct (IH _ H4 Hi) as (? & ? & H). split_and!; auto. intros He. destruct (H He). split; [lia|done].
Qed.

Lemma written_parse bs : written (parse_file bs) = split_lines (body_of bs).
Proof.
  pose proof (parse_file_lines bs) as Hl. destruct (split_lines_ok (body_of bs)) as [Hok _].
  rewrite <- Hl in *. set (f := parse_file bs) in *. clearbody f. unfold written.
  apply list_eq. intros i. rewrite list_lookup_imap.
  change (map ?g) with (fmap (M:=list) g) in *. rewrite list_lookup_fmap.
  destruct (lines f !! i) as [l|] eqn:Hi; simpl; [|done]. do 2 f_equal.
  destruct (ol_ending l) eqn:He; try done.
  assert (((λ l, (ol_bytes l, ol_ending l)) <$> lines f) !! i = Some (ol_bytes l, NoEnding)) as Hi'.
  { by rewrite list_lookup_fmap, Hi; simpl; rewrite He. }
  destruct (cut_ok_lookup _ _ _ _ Hok Hi') as (_ & _ & Hlast).
  destruct (Hlast eq_refl) as [Hlen _]. rewrite length_fmap in Hlen.
  by rewrite (proj2 (Nat.ltb_ge _ _)) by lia.
Qed.

(** C27. Reading a file and writing it back gives its exact bytes, whatever the bytes are: byte order
    mark, line endings, invalid UTF-8 and a missing final newline included. *)
Theorem parse_file_to_bytes (bs : bytes) : to_bytes (parse_file bs) = bs.
Proof.
  rewrite to_bytes_written, written_parse. destruct (split_lines_ok (body_of bs)) as [_ ->].
  apply body_of_bom.
Qed.

Lemma cut_last ls :
  cut_ok ls →
  bool_decide (last (concat (map unsplit ls)) = Some x0a)
  = match last ls with Some (_, e) => negb (bool_decide (e = NoEnding)) | None => false end.
Proof.
  intros Hok. destruct ls as [|[b e] ls _] using rev_ind; [done|].
  destruct (cut_ok_lookup _ (length ls) b e Hok) as (Hnl & _ & Hne); [by rewrite lookup_app_r, Nat.sub_diag|].
  rewrite map_app, concat_app, last_snoc. cbn [map concat]. rewrite app_nil_r.
  generalize (concat (map unsplit ls)). intros pre. unfold unsplit. cbn [fst snd].
  destruct e; cbn [LineEnding_as_bytes].
  - by rewrite (app_assoc pre b [x0a]), last_snoc.
  - change [x0d; x0a] with ([x0d] ++ [x0a]). by rewrite !app_assoc, last_snoc.
  - rewrite app_nil_r. destruct b as [|c b _] using rev_ind; [by destruct (Hne eq_refl)|].
    rewrite (app_assoc pre b [c]), last_snoc. apply bool_decide_eq_false. intros [= ->]. set_solver.
Qed.

(** A parsed file is well formed: no line holds a line feed, only the last line may lack an
    ending, the trailing-newline flag says whether it does not, and exactly the lines whose ending
    differs from the dominant one are marked as mixed on top of their own quirks. *)
Theorem parse_file_wf (bs : bytes) (i : nat) (l : OwnedLine) :
  lines (parse_file bs) !! i = Some l →
  (x0a ∉ ol_bytes l)
  ∧ (ol_ending l = NoEnding → S i = length (lines (parse_file bs)))
  ∧ (S i = length (lines (parse_file bs)) →
     trailing_newline (parse_file bs) = negb (bool_decide (ol_ending l = NoEnding)))
  ∧ ol_quirks l =
      if bool_decide (ol_ending l = NoEnding) || bool_decide (ol_ending l = f_ending (parse_file bs))
      then ol_quirks (OwnedLine_from_bytes (ol_bytes l) (ol_ending l))
      else Quirks_insert (ol_quirks (OwnedLine_from_bytes (ol_bytes l) (ol_ending l))) MIXED_ENDING.
Proof.
  intros Hi. destruct (split_lines_ok (body_of bs)) as [Hok Hcat].
  pose proof (parse_file_lines bs) as Hls.
  assert (split_lines (body_of bs) !! i = Some (ol_bytes l, ol_ending l)) as Hi'.
  { rewrite <- Hls. change (map ?g) with (fmap (M:=list) g). by rewrite list_lookup_fmap, Hi. }
  destruct (cut_ok_lookup _ _ _ _ Hok Hi') as (Hnl & _ & Hno).
  assert (length (split_lines (body_of bs)) = length (lines (parse_file bs))) as Hlen.
  { by rewrite <- Hls, length_map. }
  split_and!; [done|intros He; rewrite <- Hlen; by apply Hno| |].
  - intros Hlast. change (trailing_newline (parse_file bs))
      with (bool_decide (last (body_of bs) = Some x0a)).
    rewrite <- Hcat, cut_last by done. rewrite last_lookup, Hlen, <- Hlast. simpl. by rewrite Hi'.
  - change (lines (parse_file bs)) with (map (λ l,
      if negb (bool_decide (ol_ending l = NoEnding)) && negb (bool_decide (ol_ending l = f_ending (parse_file bs)))
      then mkOwnedLine (ol_bytes l) (ol_ending l) (Quirks_insert (ol_quirks l) MIXED_ENDING) else l)
      (map (λ be, OwnedLine_from_bytes (fst be) (snd be)) (split_lines (body_of bs)))) in Hi.
    generalize dependent (f_ending (parse_file bs)). intros e Hi.
    rewrite map_map in Hi. change (map ?g) with (fmap (M:=list) g) in Hi.
    rewrite list_lookup_fmap, Hi' in Hi. cbn [fmap option_fmap option_map fst snd] in Hi.
    cbn [ol_ending OwnedLine_from_bytes OwnedLine_new] in Hi. injection Hi as Hi.
    rewrite <- negb_orb in Hi. destruct (bool_decide _ || bool_decide _); simpl in Hi; by rewrite <- Hi at 1.
Qed.

Lemma parse_file_wf_witness :
  match lines (parse_file (str "a" ++ [x0a] ++ str "b" ++ [x0d; x0a] ++ str "c")) !! 1 with
  | Some l => x0a ∉ ol_bytes l
  | None => False
  end.
Proof.
  destruct (lines (parse_file (str "a" ++ [x0a] ++ str "b" ++ [x0d; x0a] ++ str "c")) !! 1) as [l|] eqn:E.
  - exact (proj1 (parse_file_wf _ _ _ E)).
  - vm_compute in E. discriminate E.
Defined.

(** A file whose lines can be told apart once written: no line holds a line feed, one that will be
    followed by a bare line feed does not end in a carriage return, a last line without an ending is
    not empty, and without a byte order mark the first line does not fake one. *)
Record File_ok (f : File) : Prop := {
  ok_cut : cut_ok (written f);
  ok_bom : bom f = false → starts_with BOM (to_bytes f) = false
}.

(** Writing never glues lines: whatever lines were inserted, removed or moved, reading the
    written bytes gives back every line's bytes in order, with the ending it was written with. *)
Theorem to_bytes_reparse (f : File) :
  File_ok f →
  map (λ l, (ol_bytes l, ol_ending l)) (lines (parse_file (to_bytes f))) = written f
  ∧ bom (parse_file (to_bytes f)) = bom f.
Proof.
  intros [Hcut Hbom]. rewrite parse_file_lines, to_bytes_written in *.
  assert (starts_with BOM ((if bom f then BOM else []) ++ concat (map unsplit (written f))) = bom f) as Hb.
  { destruct (bom f); [|by apply Hbom]. apply starts_with_spec. by eexists. }
  unfold body_of, parse_file; cbn [bom]. rewrite Hb. split; [|done].
  destruct (bom f); [rewrite drop_app_length|cbn [app]]; by apply split_lines_unsplit.
Qed.

(** A line that lost its place at the end is terminated: [a] without an ending, followed by [b]. *)
Lemma to_bytes_reparse_witness :
  let f := mkFile [mkOwnedLine (str "a") NoEnding NONE; mkOwnedLine (str "b") CrLf NONE] false CrLf false in
  map (λ l, (ol_bytes l, ol_ending l)) (lines (parse_file (to_bytes f)))
  = [(str "a", CrLf); (str "b", CrLf)].
Proof.
  intros f. refine (proj1 (to_bytes_reparse f _)). split; [|done].
  cbn. split_and!; try done; set_solver.
Defined.
