(* ===== verification/LineFixes.v ===== *)
(** What the daemon does to a line an app writes ([line_fixes.rs]), the length hint
    ([line_length.rs]), the lint report ([lint.rs]) and the strict-mode hint ([strict_hint.rs]), all of [crates/txtodo-core/src]. *)
From S2P Require Import Prelude.
From S2P Require Import Utf8.
From S2P Require Import Types.
From S2P Require Import Scanner.
From S2P Require Import Parser.
From S2P Require Import Format.
From S2P Require Import TodoFile.
From S2P Require Import Edit.

(** ** line_fixes.rs *)

(** The kind a line has, leniently parsed. *)
Definition lenient_kind (line : bytes) : option LineKind := kind <$> result_ok (parse_line line Lenient).

(** [is_completed] of line_fixes.rs. *)
Definition is_completed_text (line : bytes) : bool :=
  match lenient_kind line with Some (LTask t) => completed t | _ => false end.

(** The byte offset past an upper-case [(P) ] prefix. *)
Definition after_priority (line : bytes) : nat :=
  match line with
  | a :: p :: b :: c :: _ =>
      if bool_decide (a = "("%byte) && is_ascii_uppercase p && bool_decide (b = ")"%byte) && bool_decide (c = " "%byte)
      then 4 else 0
  | _ => 0
  end.

Definition stamp_created (line : bytes) (today : Date) : bytes :=
  let dated := match lenient_kind line with
               | Some (LTask t) => completed t || bool_decide (is_Some (creation_date t))
               | _ => false
               end in
  if dated then line
  else
    let a := after_priority line in
    take a line ++ Date_display today ++ str " " ++ drop a line.

Definition date_done (line : bytes) (today : Date) : bytes :=
  match strip_prefix (str "x ") line with
  | None => line
  | Some rest =>
      let dated := match lenient_kind line with
                   | Some (LTask t) => bool_decide (is_Some (completion_date t))
                   | _ => false
                   end in
      if dated then line
      else
        let open_line := OwnedLine_from_bytes rest Lf in
        default line (OwnedLine_raw (apply open_line (complete Edit_new today)))
  end.

(** Past one date and its space, when they are there: [out.get(at..at + 10)] is a whole date. *)
Definition skip_date (out : bytes) (at_ : nat) : nat :=
  if (at_ + 10 <=? length out) && is_char_boundary out at_ && is_char_boundary out (at_ + 10)
     && bool_decide (is_Some (Date_parse (slice at_ (at_ + 10) out)))
     && starts_with (str " ") (drop (at_ + 10) out)
  then at_ + 11 else at_.

(** [X ] at the start, lowered. *)
Definition fix_marker (line : bytes) : bytes :=
  if starts_with (str "X ") line then str "x" ++ drop 1 line else line.

(** Where the priority may stand. *)
Definition priority_spot (out : bytes) : nat :=
  if starts_with (str "x ") out then skip_date out (skip_date out 2) else 0.

Definition fix_priority (out : bytes) (at_ : nat) : bytes :=
  match drop at_ out with
  | a :: p :: b :: c :: _ =>
      if bool_decide (a = "("%byte) && is_ascii_lowercase p && bool_decide (b = ")"%byte) && bool_decide (c = " "%byte)
      then take (at_ + 1) out ++ [to_ascii_uppercase p] ++ drop (at_ + 2) out
      else out
  | _ => out
  end.

Definition fix_case (line : bytes) : bytes :=
  let out := fix_marker line in fix_priority out (priority_spot out).

(** ** line_length.rs *)

Definition LINE_LENGTH_HINT : nat := 100.

Definition span_chars (raw : bytes) (s : Span) : nat := char_count (slice (sp_start s) (sp_end s) raw).

(** The chars hidden with each id tag: its own, and those of the whitespace span before it. *)
Fixpoint hidden_chars (raw : bytes) (before : option Span) (spans : list Span) : nat :=
  match spans with
  | [] => 0
  | s :: spans' =>
      (if bool_decide (sp_kind s = KIdTag) then
         span_chars raw s
         + match before with
           | Some gap => if bool_decide (sp_kind gap = Whitespace) then span_chars raw gap else 0
           | None => 0
           end
       else 0)
      + hidden_chars raw (Some s) spans'
  end.

Definition visible_chars (raw : bytes) : nat := char_count raw - hidden_chars raw None (tokenize raw).

Definition over_length_hint (raw : bytes) : option nat :=
  if LINE_LENGTH_HINT <? visible_chars raw then Some (visible_chars raw) else None.

(** ** lint.rs *)

Definition length_hint (line : OwnedLine) : option bytes :=
  raw ← OwnedLine_raw line;
  len ← over_length_hint raw;
  Some (display_N (N.of_nat len) ++ str " chars, over the " ++ display_N (N.of_nat LINE_LENGTH_HINT) ++ str "-char hint").

Definition line_findings (number : nat) (line : OwnedLine) : list (nat * bytes) :=
  match OwnedLine_parse line with
  | None => [(number, str "not valid UTF-8")]
  | Some l => if negb (Quirks_is_empty (quirks l)) then [(number, Quirks_display (quirks l))] else []
  end
  ++ match length_hint line with Some f => [(number, f)] | None => [] end.

Definition findings (f : File) : list (nat * bytes) :=
  concat (imap (λ i line, line_findings (i + 1) line) (lines f))
  ++ (if bom f then [(0, str "byte order mark")] else [])
  ++ (if negb (trailing_newline f) && negb (bool_decide (lines f = [])) then [(0, str "no trailing newline")] else []).

(** ** strict_hint.rs *)

Definition LOWERCASE_PRIORITY : bytes := str "Priority letters are uppercase: (A)–(Z).".
Definition NOT_A_PRIORITY : bytes := str "A leading (…) must be a single priority letter.".
Definition DATE_TAG : bytes := str "due: and t: take a date, YYYY-MM-DD.".

(** A regex word character. *)
Definition is_word (c : byte) : bool := is_ascii_alphanumeric c || bool_decide (c = "_"%byte).

Definition all_digits (l : bytes) : bool := forallb is_ascii_digit l.

(** A whole date by shape at the start, then a word boundary. *)
Definition is_date_word (rest : bytes) : bool :=
  (10 <=? length rest)
  && all_digits (take 4 rest) && bool_decide (rest !! 4 = Some "-"%byte)
  && all_digits (slice 5 7 rest) && bool_decide (rest !! 7 = Some "-"%byte)
  && all_digits (slice 8 10 rest)
  && match rest !! 10 with None => true | Some c => negb (is_word c) end.

(** The test at one offset; [before] is the byte in front of it. *)
Definition bad_date_tag_at (before : option byte) (rest : bytes) : bool :=
  let at_boundary := match before with None => true | Some c => negb (is_word c) end in
  match strip_prefix (str "due:") rest, strip_prefix (str "t:") rest with
  | Some value, _ | None, Some value => at_boundary && negb (is_date_word value)
  | None, None => false
  end.

Fixpoint has_bad_date_tag (before : option byte) (b : bytes) : bool :=
  match b with
  | [] => false
  | c :: b' => bad_date_tag_at before b || has_bad_date_tag (Some c) b'
  end.

(** A leading [(c)] whose letter passes a test. *)
Definition leading_letter (test : byte → bool) (b : bytes) : bool :=
  match b with
  | x :: c :: y :: _ => bool_decide (x = "("%byte) && test c && bool_decide (y = ")"%byte)
  | _ => false
  end.

Definition strict_hint (line : bytes) : option bytes :=
  if leading_letter is_ascii_lowercase line then Some LOWERCASE_PRIORITY
  else if bool_decide (head line = Some "("%byte) && negb (leading_letter is_ascii_uppercase line) then Some NOT_A_PRIORITY
  else if has_bad_date_tag None line then Some DATE_TAG
  else None.

(** ** Samples *)

Example fix_case_sample :
  map fix_case [str "X call mum"; str "(a) call mum"; str "x (b) call"; str "x 2026-09-11 2026-09-01 (c) call";
                str "X-ray the pipes"; str "call (a) mum X ok"; str "(ab) not a priority"]
  = [str "x call mum"; str "(A) call mum"; str "x (B) call"; str "x 2026-09-11 2026-09-01 (C) call";
     str "X-ray the pipes"; str "call (a) mum X ok"; str "(ab) not a priority"].
Proof. vm_compute. reflexivity. Qed.

Example date_done_sample :
  map (λ l, date_done l sample_day) [str "x call mum"; str "x (A) call mum"; str "x 2026-09-01 call mum"; str "xylophone"]
  = [str "x 2026-09-11 call mum"; str "x 2026-09-11 call mum pri:A"; str "x 2026-09-01 call mum"; str "xylophone"].
Proof. vm_compute. reflexivity. Qed.

(** After the marker, another [x] makes the rest a done line of its own: the first marker is dropped and
    the line stays undated. *)
Example date_done_drops_marker :
  date_done (str "x x call mum") sample_day = str "x call mum".
Proof. vm_compute. reflexivity. Qed.

Example strict_hint_sample :
  map strict_hint [str "(a) nope"; str "(A) ok due:2026-09-26"; str "(AB) two"; str "pay rent due:2026-09-01x";
                   str "meet at:home"; str "due:"]
  = [Some LOWERCASE_PRIORITY; None; Some NOT_A_PRIORITY; Some DATE_TAG; None; Some DATE_TAG].
Proof. vm_compute. reflexivity. Qed.

Example visible_chars_sample :
  visible_chars (str "buy milk id:01J9K3H5Z7Q8X2M4N6P8R0T2V4") = 8.
Proof. vm_compute. reflexivity. Qed.

(** ** Case fixes *)

(** The same text but for the case of ASCII letters. *)
Definition same_but_case (s t : bytes) : Prop := map to_ascii_lowercase s = map to_ascii_lowercase t.

Lemma lower_upper c : is_ascii_lowercase c = true → to_ascii_lowercase (to_ascii_uppercase c) = c.
Proof. intros H. destruct c; try discriminate H; vm_compute; reflexivity. Qed.

Lemma lower_lower c : is_ascii_lowercase c = true → to_ascii_lowercase c = c.
Proof. intros H. destruct c; try discriminate H; vm_compute; reflexivity. Qed.

Lemma upper_not_lower c : is_ascii_lowercase c = true → is_ascii_lowercase (to_ascii_uppercase c) = false.
Proof. intros H. destruct c; try discriminate H; vm_compute; reflexivity. Qed.

Lemma fix_marker_case line : same_but_case (fix_marker line) line.
Proof.
  unfold fix_marker. destruct (starts_with (str "X ") line) eqn:E; [|done].
  apply starts_with_spec in E as [r ->]. reflexivity.
Qed.

(** The priority fixed, as a shape: the bytes around one letter stay. *)
Lemma fix_priority_shape out n :
  fix_priority out n = out
  ∨ ∃ p r, drop n out = "("%byte :: p :: ")"%byte :: " "%byte :: r ∧ is_ascii_lowercase p = true
      ∧ out = take n out ++ "("%byte :: p :: ")"%byte :: " "%byte :: r
      ∧ fix_priority out n = take n out ++ "("%byte :: to_ascii_uppercase p :: ")"%byte :: " "%byte :: r.
Proof.
  unfold fix_priority. destruct (drop n out) as [|a [|p [|b [|c r]]]] eqn:E; try by left.
  destruct (_ && _) eqn:T; [|by left]. right. rewrite !andb_true_iff, !bool_decide_eq_true in T. destruct T as [[[-> Hp] ->] ->].
  exists p, r. assert (n ≤ length out) as Hn.
  { destruct (decide (n ≤ length out)); [done|]. rewrite drop_ge in E by lia. discriminate E. }
  split_and!; [done|done|by rewrite <- E, take_drop|].
  assert (take (n + 1) out = take n out ++ ["("%byte]) as ->.
  { rewrite Nat.add_1_r, (take_S_r _ _ "("%byte); [done|]. rewrite <- (Nat.add_0_r n), <- lookup_drop, E. done. }
  assert (drop (n + 2) out = ")"%byte :: " "%byte :: r) as ->.
  { rewrite <- drop_drop, E. done. }
  by rewrite <- app_assoc.
Qed.

Lemma fix_priority_case out n : same_but_case (fix_priority out n) out.
Proof.
  destruct (fix_priority_shape out n) as [->|(p & r & _ & Hp & Ho & ->)]; [done|].
  unfold same_but_case. rewrite Ho at 2. rewrite !map_app. cbn [map]. by rewrite (lower_upper p Hp), (lower_lower p Hp).
Qed.

Lemma fix_case_case line : same_but_case (fix_case line) line.
Proof. unfold fix_case, same_but_case. by rewrite fix_priority_case, fix_marker_case. Qed.

Lemma same_but_case_length s t : same_but_case s t → length s = length t.
Proof. intros H. apply (f_equal length) in H. by rewrite !length_map in H. Qed.

(** ** Fixing the case twice *)

Lemma ascii_number_nondigit c s : is_ascii_digit c = false → ascii_number (c :: s) = None.
Proof. intros Hc. unfold ascii_number. cbn. rewrite Hc. induction s as [|c' s IH]; [done|exact IH]. Qed.

Lemma date_parse_nondigit c s : is_ascii_digit c = false → Date_parse (c :: s) = None.
Proof.
  intros Hc. destruct (Date_parse (c :: s)) as [d|] eqn:E; [|done]. exfalso. unfold Date_parse in E.
  destruct (_ || _); [done|]. apply bind_Some in E as (y & Hy & _). unfold slice in Hy. cbn [drop take Nat.sub] in Hy.
  by rewrite ascii_number_nondigit in Hy.
Qed.

Lemma skip_date_paren l r : skip_date (l ++ "("%byte :: r) (length l) = length l.
Proof.
  unfold skip_date. destruct (_ && _ && _ && bool_decide _ && _) eqn:E; [|done]. exfalso.
  rewrite !andb_true_iff, bool_decide_eq_true in E. destruct E as [[_ [d Hd]] _].
  unfold slice in Hd. rewrite drop_app_length, Nat.add_sub_swap, Nat.sub_diag in Hd by lia. cbn [Nat.add take] in Hd.
  by rewrite date_parse_nondigit in Hd.
Qed.

(** Reading before an offset, two texts that agree up to it read the same. *)
Lemma skip_date_before l r r' at_ :
  at_ + 11 ≤ length l → length r = length r' → skip_date (l ++ r) at_ = skip_date (l ++ r') at_.
Proof.
  intros Hl Hr. unfold skip_date. rewrite !length_app, Hr.
  assert (∀ i, i < length l → is_char_boundary (l ++ r) i = is_char_boundary (l ++ r') i) as Hb.
  { intros i Hi. unfold is_char_boundary. by rewrite !length_app, Hr, !lookup_app_l by lia. }
  rewrite (Hb at_), (Hb (at_ + 10)) by lia.
  assert (∀ r, slice at_ (at_ + 10) (l ++ r) = slice at_ (at_ + 10) l) as Hs.
  { intros q. unfold slice. rewrite drop_app_le, take_app_le by (rewrite ?length_drop; lia). done. }
  rewrite !Hs, !drop_app_le by lia.
  assert (starts_with (str " ") (drop (at_ + 10) l ++ r) = starts_with (str " ") (drop (at_ + 10) l ++ r')) as ->; [|done].
  destruct (drop (at_ + 10) l) as [|c q] eqn:E; [apply (f_equal length) in E; rewrite length_drop in E; cbn in E; lia|].
  apply bool_decide_ext. cbn. destruct (bool_decide _); split; intros [? ?]; by eauto.
Qed.

Lemma skip_date_cases out at_ : skip_date out at_ = at_ ∨ skip_date out at_ = at_ + 11.
Proof. unfold skip_date. destruct (_ && _ && _ && _ && _); auto. Qed.

(** The priority found stays where it is when its letter is raised. *)
Lemma priority_spot_raised p q l r :
  priority_spot (l ++ "("%byte :: p :: r) = length l → priority_spot (l ++ "("%byte :: q :: r) = length l.
Proof.
  unfold priority_spot. intros H. set (rp := "("%byte :: p :: r) in *. set (rq := "("%byte :: q :: r) in *.
  assert (∀ at_, at_ + 11 ≤ length l → skip_date (l ++ rp) at_ = skip_date (l ++ rq) at_) as Hb.
  { intros at_ Ha. by apply skip_date_before. }
  assert (∀ s, skip_date (l ++ "("%byte :: s) (length l) = length l) as Hn by (intros s; apply skip_date_paren).
  assert (starts_with (str "x ") (l ++ rp) = starts_with (str "x ") (l ++ rq)) as Hx.
  { destruct l as [|c [|c' l]]; unfold starts_with; apply bool_decide_ext; cbn; repeat case_bool_decide;
      split; intros [? ?]; first [by eauto|discriminate|congruence]. }
  rewrite <- Hx. destruct (starts_with _ _); [|done].
  set (s1 := skip_date (l ++ rp) 2) in *.
  assert (skip_date (l ++ rq) 2 = s1 ∧ skip_date (l ++ rq) s1 = length l) as [-> ?]; [|done].
  assert (2 ≤ s1) as Hge by (subst s1; destruct (skip_date_cases (l ++ rp) 2); lia).
  destruct (skip_date_cases (l ++ rp) s1) as [E2|E2]; rewrite H in E2.
  - split; [|rewrite <- E2; apply Hn]. destruct (skip_date_cases (l ++ rp) 2) as [E1|E1]; fold s1 in E1.
    + rewrite <- E2. rewrite E1 in E2. rewrite <- E2 at 1. apply Hn.
    + rewrite <- Hb by lia. done.
  - rewrite <- !Hb by lia. done.
Qed.

Lemma fix_marker_again line : fix_marker (fix_marker line) = fix_marker line.
Proof.
  unfold fix_marker at 2 3. destruct (starts_with (str "X ") line) eqn:E; [|unfold fix_marker; by rewrite E].
  apply starts_with_spec in E as [r ->]. reflexivity.
Qed.

Lemma fix_marker_none s : starts_with (str "X ") s = false → fix_marker s = s.
Proof. unfold fix_marker. by intros ->. Qed.

Lemma fix_marker_done line : starts_with (str "X ") (fix_marker line) = false.
Proof.
  unfold fix_marker. destruct (starts_with (str "X ") line) eqn:E; [|done].
  by apply starts_with_spec in E as [r ->].
Qed.

(** Raising a letter after an open parenthesis makes no [X ] marker. *)
Lemma no_marker_raised l p q r :
  starts_with (str "X ") (l ++ "("%byte :: p :: r) = false → starts_with (str "X ") (l ++ "("%byte :: q :: r) = false.
Proof.
  destruct l as [|c [|c' l]]; [done| |].
  - intros _. apply bool_decide_eq_false. cbn. case_bool_decide; by intros [? ?].
  - intros H. apply bool_decide_eq_false_1 in H. apply bool_decide_eq_false. intros [s Hs]. apply H. cbn in Hs |- *.
    repeat case_bool_decide; try done.
Qed.

Lemma fix_case_again line : fix_case (fix_case line) = fix_case line.
Proof.
  unfold fix_case. pose proof (fix_marker_done line) as Hm. revert Hm. generalize (fix_marker line) as out. intros out Hm.
  set (n := priority_spot out).
  destruct (fix_priority_shape out n) as [E|(p & r & Hd & Hp & Ho & E)].
  - rewrite E, (fix_marker_none _ Hm). exact E.
  - rewrite Ho in Hm. rewrite E, (fix_marker_none _ (no_marker_raised _ p _ _ Hm)).
    assert (length (take n out) = n) as Hlen.
    { rewrite length_take. apply (f_equal length) in Hd. rewrite length_drop in Hd. cbn in Hd. lia. }
    assert (priority_spot (take n out ++ "("%byte :: to_ascii_uppercase p :: ")"%byte :: " "%byte :: r) = length (take n out)) as ->.
    { apply (priority_spot_raised p). rewrite <- Ho, Hlen. done. }
    unfold fix_priority. rewrite drop_app_length. rewrite (upper_not_lower p Hp). by rewrite andb_false_r.
Qed.

(** ** Lengths *)

Lemma char_count_concat ls : char_count (concat ls) = sum_list_with char_count ls.
Proof. 
  induction ls as [|l ls IH]; [done|]. change (char_count (l ++ concat ls) = char_count l + sum_list_with char_count ls).
  by rewrite char_count_app, IH.
 Qed.

Lemma hidden_chars_le raw before spans :
  hidden_chars raw before spans
  ≤ match before with Some g => if bool_decide (sp_kind g = Whitespace) then span_chars raw g else 0 | None => 0 end
    + sum_list_with (span_chars raw) spans.
Proof.
  revert before. induction spans as [|s spans IH]; intros before; cbn [hidden_chars sum_list_with]; [lia|].
  specialize (IH (Some s)). cbn beta iota in IH.
  destruct (bool_decide (sp_kind s = KIdTag)) eqn:Ek.
  - apply bool_decide_eq_true in Ek. rewrite Ek in IH. rewrite bool_decide_eq_false_2 in IH by done. cbn iota. destruct before; lia.
  - cbn iota. destruct (bool_decide (sp_kind s = Whitespace)), before as [g|]; try case_match; lia.
Qed.

(** The spans' chars are the line's. *)
Lemma span_chars_total raw : sum_list_with (span_chars raw) (tokenize raw) = char_count raw.
Proof.
  transitivity (char_count (concat ((λ t, slice (fst t) (snd t) raw) <$> (span_ends <$> tokenize raw)))).
  - rewrite char_count_concat. induction (tokenize raw) as [|s l IH]; [done|]. cbn. by rewrite IH.
  - rewrite (tiles_concat raw 0); [by rewrite drop_0|apply tokenize_tiles].
Qed.

(** ** Findings *)

Lemma quirk_names_some q : Quirks_wf q → Quirks_is_empty q = false → Quirks_names q ≠ [].
Proof.
  destruct q as [b]. unfold Quirks_wf, Quirks_is_empty. cbn [bits_of]. intros Hb Hz%N.eqb_neq.
  assert (∀ n, n < 256 → N.of_nat n = 0%N ∨ Quirks_names (mkQuirks (N.of_nat n)) ≠ []) as H.
  { intros n Hn. assert (forallb (λ n, (N.of_nat n =? 0)%N || negb (bool_decide (Quirks_names (mkQuirks (N.of_nat n)) = []))) (seq 0 256) = true) as Hall
      by (vm_compute; reflexivity).
    rewrite forallb_forall in Hall. specialize (Hall n ltac:(apply in_seq; lia)).
    apply orb_true_iff in Hall as [E%N.eqb_eq|E%negb_true_iff%bool_decide_eq_false]; auto. }
  destruct (H (N.to_nat b)) as [E|E]; [lia|rewrite N2Nat.id in E; lia|by rewrite N2Nat.id in E].
Qed.

Lemma quirk_names_nonempty q : Forall (λ n, n ≠ []) (Quirks_names q).
Proof.
  unfold Quirks_names. apply Forall_forall. intros n Hn. apply list_elem_of_fmap in Hn as ([f m] & -> & Hf).
  apply list_elem_of_In, filter_In in Hf as [Hf _]. cbn in Hf. cbn.
  repeat (destruct Hf as [[= <- <-]|Hf]; [by apply (bool_decide_eq_true_1 _); vm_compute|]). done.
Qed.

Lemma quirks_display_nonempty q : Quirks_wf q → Quirks_is_empty q = false → Quirks_display q ≠ [].
Proof.
  intros Hw He. unfold Quirks_display. rewrite He. pose proof (quirk_names_some q Hw He) as Hs.
  pose proof (quirk_names_nonempty q) as Hn. destruct (Quirks_names q) as [|n ns]; [done|].
  apply Forall_cons in Hn as [Hn _]. cbn. by destruct n.
Qed.

Lemma line_findings_ok number l :
  Quirks_wf (ol_quirks l) → Forall (λ f, fst f = number ∧ snd f ≠ []) (line_findings number l).
Proof.
  intros Hw. unfold line_findings. apply Forall_app. split.
  - destruct (OwnedLine_parse l) as [pl|] eqn:E; [|by repeat constructor].
    unfold OwnedLine_parse in E. apply bind_Some in E as (r & _ & (line & _ & E)%bind_Some). injection E as <-. cbn [quirks].
    destruct (Quirks_is_empty (ol_quirks l)) eqn:Eq; [constructor|]. repeat constructor. by apply quirks_display_nonempty.
  - unfold length_hint. destruct (OwnedLine_raw l) as [r|]; [|constructor]. cbn.
    destruct (over_length_hint r); [|constructor]. repeat constructor. cbn [snd]. intros [_ H]%app_eq_nil. discriminate H.
Qed.

(** ** A new line's creation date *)

Lemma chunks_from_run fuel pos w r ws :
  w ≠ [] → Forall (λ b, is_ws b = ws) w → (∀ b, head r = Some b → is_ws b = negb ws) →
  chunks_from (S fuel) pos (w ++ r) = mkChunk pos (pos + length w) ws :: chunks_from fuel (pos + length w) r.
Proof.
  intros Hw Hall Hr. destruct w as [|c w]; [done|]. apply Forall_cons in Hall as [Hc Hall].
  assert (run_len ws ((c :: w) ++ r) = length (c :: w)) as Hn.
  { cbn. rewrite Hc, eqb_reflx. f_equal. clear Hw. induction Hall as [|c' w Hc' _ IH].
    - destruct r as [|b r]; [done|]. cbn. rewrite (Hr b eq_refl). by destruct ws.
    - cbn. by rewrite Hc', eqb_reflx, IH. }
  cbn [app chunks_from] in Hn |- *. rewrite Hc, Hn. f_equal. f_equal. by rewrite app_comm_cons, drop_app_length.
Qed.

Lemma date_word d : Date_valid d → Date_display d ≠ [] ∧ Forall (λ b, is_ws b = false) (Date_display d).
Proof.
  intros Hd. split; [apply Date_display_nonempty|].
  assert (∀ w n, Forall (λ b, is_ws b = false) (pad_zero w (display_N n))) as Hp.
  { intros w n. unfold pad_zero. apply Forall_app. split; [by apply Forall_replicate|].
    eapply Forall_impl; [apply display_N_digits|]. intros b Hb. cbn beta in Hb.
    unfold is_ws. apply orb_false_iff. split; apply bool_decide_eq_false; intros ->; discriminate Hb. }
  assert (Forall (λ b, is_ws b = false) (str "-")) as Hm by repeat constructor.
  unfold Date_display. rewrite !Forall_app. split_and!; first [apply Hp|exact Hm].
Qed.

Lemma date_length d : Date_valid d → length (Date_display d) = 10.
Proof.
  intros H. destruct (Date_display_shape _ H) as (y & m & e & -> & Hy & Hm & He & _).
  rewrite length_app. cbn. rewrite length_app. cbn. lia.
Qed.

(** A date word before the cursor's separator is taken as the creation date. *)
Lemma take_optional_dated t p d :
  p_mode p = Lenient → p_word p = Some (Date_display d) → Date_valid d →
  ∃ p', take_optional_date t p = Ok (mkTask (completed t) (completion_date t) (Some d) (priority t) (description t), p')
    ∧ p_mode p' = Lenient.
Proof.
  intros Hm Hw Hd. unfold take_optional_date, mbind, M_bind, take_date. rewrite Hw, (Date_parse_display_valid _ Hd).
  unfold mbind, M_bind, p_advance, mret, M_ret.
  set (p1 := mkParser _ _ _ _ _). pose proof (safe_separator Lenient p1 Hm) as Hs.
  destruct (separator p1) as [[b p2]|e]; [|done]. exists p2. split; [done|]. by rewrite (step_mode _ _ Hs).
Qed.

(** The lenient parse of a line whose prefix, run from the first word, leaves a creation date. *)
Lemma lenient_created raw0 t1 p1 d :
  raw0 ≠ [] → starts_completed (p_init raw0 Lenient) = false →
  incomplete_prefix (mkTask false None None None []) (p_init raw0 Lenient) = Ok (t1, p1) →
  p_mode p1 = Lenient → creation_date t1 = Some d →
  ∃ t, lenient_kind raw0 = Some (LTask t) ∧ creation_date t = Some d ∧ completed t = completed t1 ∧ priority t = priority t1.
Proof.
  intros Hne Hs Hp Hm Hd. unfold lenient_kind, parse_line, parse_line_with_schemes.
  rewrite bool_decide_eq_false_2 by done. fold (p_init raw0 Lenient). unfold p_task, mbind, M_bind. rewrite Hs, Hp.
  pose proof (safe_description Lenient p1 Hm) as Hsd. destruct (p_description p1) as [[ds p2]|e]; [|done].
  eexists. split; [reflexivity|]. by cbn.
Qed.

Lemma dated_line_parse d r :
  Date_valid d →
  ∃ t, lenient_kind (Date_display d ++ " "%byte :: r) = Some (LTask t) ∧ creation_date t = Some d ∧ priority t = None.
Proof.
  intros Hd. destruct (date_word d Hd) as [Hne Hws]. set (raw0 := Date_display d ++ " "%byte :: r).
  assert (raw0 ≠ []) as Hr by (subst raw0; by destruct (Date_display d)).
  assert (chunks raw0 !! 0 = Some (mkChunk 0 10 false)) as Hc.
  { unfold chunks. subst raw0. rewrite length_app, (date_length d Hd). cbn [Nat.add].
    rewrite (chunks_from_run _ _ _ _ false); [by rewrite (date_length d Hd)|done|done|by intros b [= <-]]. }
  assert (p_word (p_init raw0 Lenient) = Some (Date_display d)) as Hw.
  { unfold p_word, p_init. cbn [p_chunks p_i p_raw]. rewrite Hc.
    change (Some (take 10 raw0) = Some (Date_display d)). f_equal.
    subst raw0. by rewrite <- (date_length d Hd), take_app_length. }
  assert (is_priority_word (Date_display d) = false) as Hnp.
  { pose proof (date_length d Hd) as Hl. destruct (Date_display d) as [|a [|b [|c [|]]]]; done. }
  assert (starts_completed (p_init raw0 Lenient) = false) as Hsc.
  { unfold starts_completed. rewrite Hw, bool_decide_eq_false_2; [done|]. intros [= E].
    apply (f_equal length) in E. by rewrite (date_length d Hd) in E. }
  set (t0 := mkTask false None None None []).
  destruct (take_optional_dated t0 (p_init raw0 Lenient) d eq_refl Hw Hd) as (p' & Ht & Hm).
  destruct (lenient_created raw0 (mkTask false None (Some d) None []) p' d Hr Hsc) as (t & H1 & H2 & H3 & H4); try done.
  { unfold incomplete_prefix, take_priority, mbind, M_bind. rewrite Hw, Hnp. exact Ht. }
  by exists t.
Qed.

Lemma priority_dated_line_parse P d r :
  is_ascii_uppercase P = true → Date_valid d →
  ∃ t, lenient_kind ("("%byte :: P :: ")"%byte :: " "%byte :: Date_display d ++ " "%byte :: r) = Some (LTask t)
       ∧ creation_date t = Some d ∧ priority t = Priority_new (bN P).
Proof.
  intros HP Hd. destruct (date_word d Hd) as [Hne Hws]. set (w := ["("%byte; P; ")"%byte]).
  set (raw0 := w ++ str " " ++ Date_display d ++ " "%byte :: r).
  change ("("%byte :: _) with raw0.
  assert (Forall (λ b, is_ws b = false) w) as Hw0.
  { repeat constructor. destruct P; try discriminate HP; reflexivity. }
  assert (chunks raw0 = mkChunk 0 3 false :: mkChunk 3 4 true :: mkChunk 4 14 false :: chunks_from (12 + length r) 14 (" "%byte :: r)) as Hc.
  { unfold chunks. subst raw0. rewrite !length_app, (date_length d Hd). change (length w) with 3. change (length (str " ")) with 1.
    cbn [Nat.add length]. rewrite (chunks_from_run _ _ w _ false); [|done|done|by intros b [= <-]]. f_equal.
    rewrite (chunks_from_run _ _ (str " ") _ true); [|done|by repeat constructor|].
    2: { intros b Hb. destruct (Date_display d) as [|c q]; [done|]. injection Hb as <-. by apply Forall_cons in Hws as [-> _]. }
    f_equal. rewrite (chunks_from_run _ _ (Date_display d) _ false); [|done|done|by intros b [= <-]]. by rewrite (date_length d Hd). }
  assert (is_Some (Priority_new (bN P))) as Hsome by (destruct P; try discriminate HP; by eexists).
  assert (p_word (p_init raw0 Lenient) = Some w) as Hp0 by (unfold p_word, p_init; cbn [p_chunks p_i]; by rewrite Hc).
  assert (starts_completed (p_init raw0 Lenient) = false) as Hsc by (unfold starts_completed; by rewrite Hp0).
  set (t0 := mkTask false None None (Priority_new (bN P)) []).
  set (p2 := mkParser raw0 (chunks raw0) 2 Lenient NONE).
  assert (p_word p2 = Some (Date_display d)) as Hw2.
  { unfold p_word, p2. cbn [p_chunks p_i p_raw]. rewrite Hc. change (Some (take 10 (drop 4 raw0)) = Some (Date_display d)). f_equal.
    change (drop 4 raw0) with (Date_display d ++ " "%byte :: r). by rewrite <- (date_length d Hd), take_app_length. }
  destruct (take_optional_dated t0 p2 d eq_refl Hw2 Hd) as (p' & Ht & Hm).
  destruct (lenient_created raw0 (mkTask false None (Some d) (Priority_new (bN P)) []) p' d) as (t & H1 & H2 & H3 & H4); try done.
  - unfold incomplete_prefix, mbind, M_bind. unfold take_priority at 1. rewrite Hp0.
    assert (is_priority_word w = true) as -> by (unfold is_priority_word, w; by rewrite !bool_decide_eq_true_2).
    assert (separator (mkParser raw0 (chunks raw0) 1 Lenient NONE) = Ok (true, p2)) as Hsep.
    { unfold separator, p2. cbn [p_chunks p_i p_raw]. rewrite Hc. cbn [lookup list_lookup].
      change (chunk_text raw0 (mkChunk 3 4 true)) with (take 1 (drop 3 raw0)). by rewrite bool_decide_eq_true_2. }
    unfold mbind, M_bind, p_advance, mret, M_ret. change (p_init raw0 Lenient) with (mkParser raw0 (chunks raw0) 0 Lenient NONE).
    cbn [p_chunks p_i p_raw p_mode p_quirks]. rewrite Hsep. exact Ht.
  - by exists t.
Qed.

Lemma after_priority_cases line :
  after_priority line = 0 ∨ ∃ P r, line = "("%byte :: P :: ")"%byte :: " "%byte :: r ∧ is_ascii_uppercase P = true ∧ after_priority line = 4.
Proof.
  destruct line as [|a [|P [|b [|c r]]]]; cbn; auto. destruct (_ && _) eqn:E; auto. right.
  rewrite !andb_true_iff, !bool_decide_eq_true in E. destruct E as [[[-> HP] ->] ->]. by exists P, r.
Qed.

(** A stamped line reads as created that day. *)
Lemma stamp_created_read line d :
  Date_valid d → stamp_created line d = line ∨
  ∃ t, lenient_kind (stamp_created line d) = Some (LTask t) ∧ creation_date t = Some d
    ∧ length (stamp_created line d) = length line + 11.
Proof.
  intros Hd. unfold stamp_created. destruct (match lenient_kind line with Some (LTask t) => _ | _ => _ end); [by left|right].
  set (a := after_priority line). assert (a ≤ length line) as Ha.
  { subst a. destruct (after_priority_cases line) as [->|(P & r & -> & _ & ->)]; cbn; lia. }
  assert (length (take a line ++ Date_display d ++ str " " ++ drop a line) = length line + 11) as Hlen.
  { rewrite !length_app, length_take, length_drop, (date_length d Hd). cbn. lia. }
  subst a. destruct (after_priority_cases line) as [E|(P & r & -> & HP & E)]; rewrite E in *.
  - destruct (dated_line_parse d line Hd) as (t & H1 & H2 & _). by exists t.
  - destruct (priority_dated_line_parse P d r HP Hd) as (t & H1 & H2 & _). by exists t.
Qed.

(** ** Claims *)

(** Stamping a new line with today's date changes it at most once: a stamped line reads as created
    that day, is eleven bytes longer, and stamping it again, on any day, leaves it alone. *)
Theorem stamp_created_once line d d' :
  Date_valid d →
  stamp_created (stamp_created line d) d' = stamp_created line d
  ∧ (stamp_created line d = line ∨
     ∃ t, lenient_kind (stamp_created line d) = Some (LTask t) ∧ creation_date t = Some d
       ∧ length (stamp_created line d) = length line + 11).
Proof.
  intros Hd. destruct (stamp_created_read line d Hd) as [E|(t & Hk & Hc & Hl)].
  - split; [|by left]. rewrite E. unfold stamp_created in E |- *.
    destruct (match lenient_kind line with Some (LTask t) => _ | _ => _ end); [done|].
    exfalso. apply (f_equal length) in E. rewrite !length_app, (date_length d Hd), length_take, length_drop in E. cbn in E.
    destruct (after_priority_cases line) as [Ea|(P & r & -> & _ & Ea)]; rewrite Ea in E; cbn in E; lia.
  - split; [|by right; exists t]. unfold stamp_created at 1. rewrite Hk, Hc.
    rewrite (bool_decide_eq_true_2 (is_Some (Some d))) by (by exists d). by rewrite orb_true_r.
Qed.

Lemma stamp_created_once_witness :
  stamp_created (stamp_created (str "(B) call mum") sample_day) (mkDate 2027 1 1) = str "(B) 2026-09-11 call mum".
Proof.
  destruct (stamp_created_once (str "(B) call mum") sample_day (mkDate 2027 1 1)) as [-> _]; [reflexivity|].
  vm_compute. reflexivity.
Defined.

(** Fixing the case slips of a line changes nothing but the case of letters, so it keeps the line's
    length, and fixing it again changes nothing more. *)
Theorem fix_case_only_case line :
  same_but_case (fix_case line) line ∧ length (fix_case line) = length line ∧ fix_case (fix_case line) = fix_case line.
Proof. split_and!; [apply fix_case_case|apply same_but_case_length, fix_case_case|apply fix_case_again]. Qed.

(** The length hint never underflows: the chars hidden with a line's id tags are among the line's
    own, so hidden and visible chars add up to the line's. *)
Theorem visible_chars_no_underflow raw :
  hidden_chars raw None (tokenize raw) + visible_chars raw = char_count raw.
Proof.
  unfold visible_chars. pose proof (hidden_chars_le raw None (tokenize raw)) as H. rewrite span_chars_total in H. lia.
Qed.

(** What the lint reports about a file: every finding names line 0 or a line of the file, and says
    something. *)
Theorem findings_in_file f :
  Forall (λ l, Quirks_wf (ol_quirks l)) (lines f) →
  Forall (λ nd, fst nd ≤ length (lines f) ∧ snd nd ≠ []) (findings f).
Proof.
  intros Hw. unfold findings. rewrite !Forall_app. split_and!.
  - apply Forall_concat, Forall_lookup. intros i x Hi. rewrite list_lookup_imap in Hi.
    destruct (lines f !! i) as [l|] eqn:El; [|done]. injection Hi as <-. rewrite Forall_lookup in Hw.
    eapply Forall_impl; [apply line_findings_ok, (Hw i l El)|]. intros [n s] [-> ?]. apply lookup_lt_Some in El. cbn. split; [lia|done].
  - destruct (bom f); repeat constructor; [cbn; lia|done].
  - destruct (negb _ && _); repeat constructor; [cbn; lia|done].
Qed.

Lemma findings_in_file_witness :
  findings (parse_file (str "a  b" ++ [x0a] ++ [xff] ++ [x0a] ++ str "c"))
    = [(1, str "tabs"); (2, str "not valid UTF-8"); (0, str "no trailing newline")]
  ∧ Forall (λ nd, fst nd ≤ 3 ∧ snd nd ≠ []) (findings (parse_file (str "a  b" ++ [x0a] ++ [xff] ++ [x0a] ++ str "c"))).
Proof.
  split; [vm_compute; reflexivity|].
  apply (findings_in_file (parse_file (str "a  b" ++ [x0a] ++ [xff] ++ [x0a] ++ str "c"))).
  apply (bool_decide_eq_true_1 _). vm_compute. reflexivity.
Defined.
