(* ===== verification/Universal.v ===== *)
(** The Universal screen: [universal.rs] of [crates/txtodo-core/src].

    Due dates are counted in days of the calendar, and rows are grouped and ranked. An [i64] is a [Z]; a
    day count is far from its ends. Unicode lowercasing is a parameter. The theorems: the day count is the
    calendar's, day by day; a grouping is a partition of the rows into sorted groups. *)
From S2P Require Import Prelude.
From S2P Require Import Utf8.
From S2P Require Import Types.

#[local] Open Scope Z_scope.

Definition days_from_civil (d : Date) : Z :=
  let '(y, m, dd) := (Z.of_N (year d), Z.of_N (month d), Z.of_N (day d)) in
  let y := if m <=? 2 then y - 1 else y in
  let era := y / 400 in
  let yoe := y - era * 400 in
  let mp := Z.rem (m + 9) 12 in
  let doy := Z.quot (153 * mp + 2) 5 + dd - 1 in
  let doe := yoe * 365 + Z.quot yoe 4 - Z.quot yoe 100 + doy in
  era * 146097 + doe - 719468.

Definition days_between (from to : bytes) : option Z :=
  from ← Date_parse from;
  to ← Date_parse to;
  Some (days_from_civil to - days_from_civil from).

Inductive DueBucket := Overdue | Today | ThisWeek | Later | NoDate.

Definition DueBucket_label (b : DueBucket) : bytes :=
  match b with
  | Overdue => str "Overdue"
  | Today => str "Today"
  | ThisWeek => str "This week"
  | Later => str "Later"
  | NoDate => str "No date"
  end.

Definition due_bucket (due : option bytes) (today : bytes) : DueBucket :=
  match due ≫= days_between today with
  | None => NoDate
  | Some d => if d <? 0 then Overdue else if d =? 0 then Today else if d <=? 7 then ThisWeek else Later
  end.

Definition MONTHS : list bytes :=
  map str ["Jan"; "Feb"; "Mar"; "Apr"; "May"; "Jun"; "Jul"; "Aug"; "Sep"; "Oct"; "Nov"; "Dec"]%string.

Definition due_label (due : option bytes) (today : bytes) : option (bytes * Z) :=
  due ← due;
  d ← days_between today due;
  text ← (if d <? 0 then Some (str "overdue " ++ display_N (Z.to_N (- d)) ++ str "d")
          else if d =? 0 then Some (str "today")
          else if d =? 1 then Some (str "tomorrow")
          else if d <=? 7 then Some (str "in " ++ display_N (Z.to_N d) ++ str "d")
          else date ← Date_parse due; name ← MONTHS !! N.to_nat (month date - 1); Some (name ++ str " " ++ display_N (day date)));
  Some (text, d).

Inductive GroupBy := ByPriority | ByDue | ByProject | ByContext | ByWorkspace.

Record RowFacts := mkRow {
  rf_done : bool;
  rf_priority : option char;
  rf_due : option bytes;
  rf_project : option bytes;
  rf_context : option bytes;
  rf_workspace : bytes
}.

Definition group_name (row : RowFacts) (by_ : GroupBy) (today : bytes) : bytes :=
  match by_ with
  | ByPriority => match rf_priority row with None => str "No priority" | Some p => str "(" ++ encode_char p ++ str ")" end
  | ByDue => DueBucket_label (due_bucket (rf_due row) today)
  | ByProject => default (str "No project") (rf_project row)
  | ByContext => default (str "No context") (rf_context row)
  | ByWorkspace => rf_workspace row
  end.

Definition group_rank (name : bytes) (by_ : GroupBy) (workspaces : list bytes) : Z :=
  let unknown := Z.quot (2 ^ 63 - 1) 2 in
  match by_ with
  | ByDue => match position (λ b, bool_decide (DueBucket_label b = name)) [Overdue; Today; ThisWeek; Later; NoDate] with Some i => Z.of_nat i | None => unknown end
  | ByWorkspace => match position (λ w, bool_decide (w = name)) workspaces with Some i => Z.of_nat i | None => unknown end
  | ByPriority => match name with "("%byte :: p :: _ => Z.of_N (bN p) | _ => 999 end
  | ByProject | ByContext => if starts_with (str "No ") name then 9999 else 0
  end.

Definition row_rank (row : RowFacts) (today : bytes) : Z :=
  let done := if rf_done row then 1000000 else 0 in
  let due := match rf_due row ≫= days_between today with None => 5000 | Some d => d + 1000 end in
  let pri := match rf_priority row with None => 9 | Some p => Z.of_N p - 64 end in
  done + due * 10 + pri.

(** A group found by its name takes the row, or a new one does. *)
Definition add_row (groups : list (bytes * list nat)) (name : bytes) (i : nat) : list (bytes * list nat) :=
  match position (λ g, bool_decide (fst g = name)) groups with
  | Some k => alter (λ g, (fst g, snd g ++ [i])) k groups
  | None => groups ++ [(name, [i])]
  end.

Section lowercase.
Context (to_lowercase : bytes → bytes).

(** [name_order(a, b) != Greater]. *)
Definition name_le (a b : bytes) : bool :=
  if bool_decide (to_lowercase a = to_lowercase b) then bytes_leb a b else bytes_leb (to_lowercase a) (to_lowercase b).

Definition heading_le (by_ : GroupBy) (workspaces : list bytes) (a b : bytes) : bool :=
  let '(ra, rb) := (group_rank a by_ workspaces, group_rank b by_ workspaces) in
  if ra =? rb then name_le a b else ra <? rb.

Definition group (rows : list RowFacts) (by_ : GroupBy) (today : bytes) (workspaces : list bytes) : list (bytes * list nat) :=
  let groups := foldl (λ groups ir, add_row groups (group_name (snd ir) by_ today) (fst ir)) [] (imap pair rows) in
  let groups := stable_sort (λ a b, heading_le by_ workspaces (fst a) (fst b)) groups in
  map (λ g, (fst g, stable_sort (λ i j, match rows !! i, rows !! j with
                                        | Some a, Some b => row_rank a today <=? row_rank b today
                                        | _, _ => true
                                        end) (snd g))) groups.
End lowercase.

(** ** Samples: the code's own tests, and the places where a rank says other than its comment *)

Definition due_row (pri : option char) (due : option string) : RowFacts := mkRow false pri (str <$> due) None None (str "home").

Example days_sample :
  map (λ d, days_between (str "2026-09-25") (str d)) ["2026-09-25"; "2026-10-01"; "2026-09-20"; "2026-02-30"; "soon"]%string
  = [Some 0; Some 6; Some (-5); None; None]
  ∧ days_between (str "2028-02-28") (str "2028-03-01") = Some 2
  ∧ due_label (Some (str "2026-10-15")) (str "2026-09-25") = Some (str "Oct 15", 20).
Proof. vm_compute. split_and!; reflexivity. Qed.

(** A row's place is said to be open before done, then by due date with none last, then by priority with
    none last. A due date more than ten years off comes after no date, and after done rows when it is more
    than some 285 years off; no priority comes before (J); and due in two days at (L) before due in one. *)
Example ranks_cross :
  let rank := λ r, row_rank r (str "2026-09-25") in
  (rank (due_row None None) <? rank (due_row None (Some "2038-01-01"%string))) = true
  ∧ (rank (mkRow true None None None None (str "home")) <? rank (due_row None (Some "2330-01-01"%string))) = true
  ∧ (rank (due_row None None) <? rank (due_row (Some 74%N) None)) = true
  ∧ (rank (due_row (Some 65%N) (Some "2026-09-27"%string)) <? rank (due_row (Some 76%N) (Some "2026-09-26"%string))) = true.
Proof. vm_compute. split_and!; reflexivity. Qed.

(** ** The day count *)

(** The calendar, a day at a time. *)
Definition next_date (d : Date) : Date :=
  if (day d <? days_in_month (year d) (month d))%N then mkDate (year d) (month d) (day d + 1)
  else if (month d <? 12)%N then mkDate (year d) (month d + 1) 1
  else mkDate (year d + 1) 1 1.

Definition on_calendar (d : Date) : Prop := (1 <= month d <= 12 ∧ 1 <= day d <= days_in_month (year d) (month d))%N.

Lemma Date_valid_on_calendar d : Date_valid d → on_calendar d.
Proof. intros H. destruct (Date_new_inv _ _ _ _ H) as [_ ?]. unfold on_calendar. lia. Qed.

Lemma next_on_calendar d : on_calendar d → on_calendar (next_date d).
Proof.
  intros [Hm Hd]. unfold next_date. pose proof (days_in_month_bound (year d) (month d + 1)). pose proof (days_in_month_bound (year d + 1) 1).
  destruct (_ <? _)%N eqn:E; [apply N.ltb_lt in E; split; cbn [month day year]; lia|].
  destruct (month d <? 12)%N eqn:E2; [apply N.ltb_lt in E2|]; split; cbn [month day year]; lia.
Qed.

(** Days before the first of March of a year. *)
Definition to_march (y : Z) : Z := 365 * y + y / 4 - y / 100 + y / 400.

(** Days from the first of March to a day of a month. *)
Definition from_march (m d : Z) : Z := (153 * ((m + 9) mod 12) + 2) / 5 + d - 1.

Lemma days_split d : on_calendar d →
  days_from_civil d = (if Z.of_N (month d) <=? 2 then to_march (Z.of_N (year d) - 1) else to_march (Z.of_N (year d))) + from_march (Z.of_N (month d)) (Z.of_N (day d)) - 719468.
Proof.
  intros [Hm Hd]. transitivity (to_march (if Z.of_N (month d) <=? 2 then Z.of_N (year d) - 1 else Z.of_N (year d)) + from_march (Z.of_N (month d)) (Z.of_N (day d)) - 719468); [|by destruct (_ <=? 2)].
  unfold days_from_civil, to_march, from_march. set (y := if _ <=? 2 then _ else _). set (m := Z.of_N (month d)) in *.
  assert (1 <= m <= 12) as Hm' by lia. clearbody m y. pose proof (Z.mod_pos_bound (m + 9) 12 ltac:(lia)). pose proof (Z.mod_pos_bound y 400 ltac:(lia)).
  rewrite Z.rem_mod_nonneg by lia. replace (y - y / 400 * 400) with (y mod 400) by (rewrite Z.mod_eq; lia).
  rewrite !Z.quot_div_nonneg by lia. generalize ((153 * ((m + 9) mod 12) + 2) / 5). clear. intros doy. Z.to_euclidean_division_equations. lia.
Qed.

Definition leap (y : Z) : bool := (y mod 4 =? 0) && (negb (y mod 100 =? 0) || (y mod 400 =? 0)).

Lemma to_march_next y : to_march (y + 1) = to_march y + (if leap (y + 1) then 366 else 365).
Proof.
  unfold to_march, leap. destruct ((y + 1) mod 4 =? 0) eqn:E1, ((y + 1) mod 100 =? 0) eqn:E2, ((y + 1) mod 400 =? 0) eqn:E3; cbn [andb negb orb];
    rewrite ?Z.eqb_eq, ?Z.eqb_neq in *; Z.to_euclidean_division_equations; lia.
Qed.

Lemma days_in_month_Z d : on_calendar d →
  days_in_month (year d) (month d) =
    (if month d =? 2 then (if leap (Z.of_N (year d)) then 29 else 28)
     else if (month d =? 4) || (month d =? 6) || (month d =? 9) || (month d =? 11) then 30 else 31)%N.
Proof.
  intros [Hm Hd]. unfold days_in_month.
  assert (leap (Z.of_N (year d)) = ((year d mod 4 =? 0) && (negb (year d mod 100 =? 0) || (year d mod 400 =? 0)))%N) as ->.
  { unfold leap. assert (∀ k, (0 < k)%N → (Z.of_N (year d) mod Z.of_N k =? 0) = (year d mod k =? 0)%N) as He.
    { intros k Hk. rewrite <- N2Z.inj_mod. destruct (year d mod k)%N eqn:E; [done|]. by rewrite (proj2 (Z.eqb_neq _ _)) by lia. }
    by rewrite <- (He 4%N), <- (He 100%N), <- (He 400%N) by lia. }
  clear Hd. remember (month d) as m. clear Heqm.
  assert (m = 1 ∨ m = 2 ∨ m = 3 ∨ m = 4 ∨ m = 5 ∨ m = 6 ∨ m = 7 ∨ m = 8 ∨ m = 9 ∨ m = 10 ∨ m = 11 ∨ m = 12)%N as Hin by lia.
  clear Hm. destruct_or!; subst m; cbn; by repeat case_match.
Qed.

Lemma month_cases m : (1 <= m <= 12)%N → (m ∈ [1; 2; 3; 4; 5; 6; 7; 8; 9; 10; 11; 12])%N.
Proof. intros H. rewrite !elem_of_cons. lia. Qed.

(** Case on the month, with everything about it computed. *)
Ltac by_month m H :=
  apply month_cases in H; repeat (apply elem_of_cons in H as [H|H]; [rewrite ?H in *|]); [..|by apply elem_of_nil in H].

Lemma from_march_next m d : (1 <= m <= 12)%N → from_march (Z.of_N m) (d + 1) = from_march (Z.of_N m) d + 1.
Proof. intros _. unfold from_march. lia. Qed.

Lemma days_next d : on_calendar d → days_from_civil (next_date d) = days_from_civil d + 1.
Proof.
  intros H. pose proof (next_on_calendar _ H) as Hn. rewrite !days_split by done. pose proof (days_in_month_Z _ H) as Hdim. destruct d as [y m dd], H as [Hm Hd]. clear Hn.
  unfold next_date in *. cbn [year month day] in *. destruct (dd <? _)%N eqn:E; cbn [year month day].
  - rewrite N2Z.inj_add, from_march_next by done. lia.
  - apply N.ltb_ge in E. assert (dd = days_in_month y m) as -> by lia. clear E Hd.
    destruct (m <? 12)%N eqn:E2; cbn [year month day].
    + apply N.ltb_lt in E2. rewrite Hdim. clear Hdim. pose proof (to_march_next (Z.of_N y - 1)) as Ht. rewrite Z.sub_add in Ht. revert Ht.
      generalize (to_march (Z.of_N y - 1)), (to_march (Z.of_N y)), (leap (Z.of_N y)). intros t0 t1 l Ht.
      by_month m Hm; try lia; unfold from_march; destruct l;
        repeat (destruct (_ <=? 2) eqn:?; rewrite ?Z.leb_le, ?Z.leb_gt in *); cbn [N.eqb Pos.eqb orb]; Z.to_euclidean_division_equations; lia.
    + apply N.ltb_ge in E2. assert (m = 12%N) as -> by lia. rewrite Hdim. replace (Z.of_N (y + 1) - 1) with (Z.of_N y) by lia.
      generalize (to_march (Z.of_N y)), (to_march (Z.of_N (y + 1))). intros t0 t1. unfold from_march.
      repeat (destruct (_ <=? 2) eqn:?; rewrite ?Z.leb_le, ?Z.leb_gt in *); cbn [N.eqb Pos.eqb orb]; Z.to_euclidean_division_equations; lia.
Qed.

Lemma to_march_mono a b : a <= b → to_march a <= to_march b.
Proof.
  intros H. replace b with (a + Z.of_nat (Z.to_nat (b - a))) by lia. generalize (Z.to_nat (b - a)) as n. intros n. clear H. induction n as [|n IH]; [by rewrite Z.add_0_r|].
  replace (a + Z.of_nat (S n)) with (a + Z.of_nat n + 1) by lia. rewrite to_march_next. destruct (leap _); lia.
Qed.

(** A month's place from March on, and the days before it. *)
Definition mp_of (m : N) : Z := (Z.of_N m + 9) mod 12.

Lemma from_march_bounds d : on_calendar d →
  let mp := mp_of (month d) in let f := from_march (Z.of_N (month d)) (Z.of_N (day d)) in
  0 <= mp <= 11 ∧ (mp = Z.of_N (month d) + 9 ∧ Z.of_N (month d) <= 2 ∨ mp = Z.of_N (month d) - 3 ∧ 2 < Z.of_N (month d))
  ∧ f = (153 * mp + 2) / 5 + Z.of_N (day d) - 1 ∧ (mp < 11 → f < (153 * (mp + 1) + 2) / 5)
  ∧ 0 <= f < (if leap (if Z.of_N (month d) <=? 2 then Z.of_N (year d) else Z.of_N (year d) + 1) then 366 else 365).
Proof.
  intros H. pose proof (days_in_month_Z _ H) as Hdim. destruct d as [y m dd], H as [Hm Hd]. cbn [year month day] in *. unfold from_march, mp_of. cbn zeta. rewrite Hdim in Hd. clear Hdim.
  replace (leap (if Z.of_N m <=? 2 then Z.of_N y else Z.of_N y + 1)) with (if Z.of_N m <=? 2 then leap (Z.of_N y) else leap (Z.of_N y + 1)) by (by destruct (_ <=? 2)).
  generalize dependent (leap (Z.of_N y + 1)). generalize dependent (leap (Z.of_N y)). intros l Hd l'.
  by_month m Hm; cbn [N.eqb Pos.eqb orb] in *; destruct l, l'; (destruct (_ <=? 2) eqn:E; rewrite ?Z.leb_le, ?Z.leb_gt in *); Z.to_euclidean_division_equations; lia.
Qed.

Lemma days_inj a b : on_calendar a → on_calendar b → days_from_civil a = days_from_civil b → a = b.
Proof.
  intros Ha Hb H. rewrite !days_split in H by done.
  destruct (from_march_bounds a Ha) as (Hpa & Hma & Hfa & Hna & Hla). destruct (from_march_bounds b Hb) as (Hpb & Hmb & Hfb & Hnb & Hlb). cbn zeta in *.
  set (ya := if Z.of_N (month a) <=? 2 then Z.of_N (year a) - 1 else Z.of_N (year a)). set (yb := if Z.of_N (month b) <=? 2 then Z.of_N (year b) - 1 else Z.of_N (year b)).
  assert (to_march ya + from_march (Z.of_N (month a)) (Z.of_N (day a)) = to_march yb + from_march (Z.of_N (month b)) (Z.of_N (day b))) as H'.
  { subst ya yb. destruct (Z.of_N (month a) <=? 2), (Z.of_N (month b) <=? 2); lia. }
  pose proof (to_march_next ya) as Hta. pose proof (to_march_next yb) as Htb.
  assert ((if Z.of_N (month a) <=? 2 then Z.of_N (year a) else Z.of_N (year a) + 1) = ya + 1) as Ea by (subst ya; clear; destruct (_ <=? 2); lia). rewrite Ea in Hla.
  assert ((if Z.of_N (month b) <=? 2 then Z.of_N (year b) else Z.of_N (year b) + 1) = yb + 1) as Eb by (subst yb; clear; destruct (_ <=? 2); lia). rewrite Eb in Hlb.
  assert (ya = yb) as Hy.
  { destruct (Z.lt_trichotomy ya yb) as [Hlt|[?|Hlt]]; [|done|].
    - pose proof (to_march_mono (ya + 1) yb ltac:(lia)). lia.
    - pose proof (to_march_mono (yb + 1) ya ltac:(lia)). lia. }
  rewrite Hy in H'. assert (mp_of (month a) = mp_of (month b)) as Hp.
  { destruct (Z.lt_trichotomy (mp_of (month a)) (mp_of (month b))) as [Hlt|[?|Hlt]]; [|done|].
    - specialize (Hna ltac:(lia)). assert (day b >= 1)%N by (destruct Hb; lia). pose proof (Z.div_le_mono (153 * (mp_of (month a) + 1) + 2) (153 * mp_of (month b) + 2) 5). lia.
    - specialize (Hnb ltac:(lia)). assert (day a >= 1)%N by (destruct Ha; lia). pose proof (Z.div_le_mono (153 * (mp_of (month b) + 1) + 2) (153 * mp_of (month a) + 2) 5). lia. }
  assert (month a = month b) as Hmm by (destruct Ha as [Ha _], Hb as [Hb _]; clear -Ha Hb Hma Hmb Hp; lia). assert (day a = day b) as Hdd by (rewrite Hp in Hfa; lia).
  assert (year a = year b) as Hyy by (subst ya yb; rewrite Hmm in Hy; clear -Hy; destruct (_ <=? 2); lia). destruct a, b. cbn in *. congruence.
Qed.

Lemma iter_next n d : on_calendar d → on_calendar (Nat.iter n next_date d) ∧ days_from_civil (Nat.iter n next_date d) = days_from_civil d + Z.of_nat n.
Proof.
  intros H. induction n as [|n [IH1 IH2]]; [split; [done|cbn; lia]|]. change (Nat.iter (S n) next_date d) with (next_date (Nat.iter n next_date d)).
  split; [by apply next_on_calendar|]. rewrite days_next by done. lia.
Qed.

(** [n] days on from one date is the other. *)
Lemma days_count a b n : on_calendar a → on_calendar b → days_from_civil b - days_from_civil a = Z.of_nat n → Nat.iter n next_date a = b.
Proof. intros Ha Hb H. destruct (iter_next n a Ha) as [Hn Hd]. apply days_inj; [done|done|lia]. Qed.

(** C36. Due dates are counted on the calendar. The days between two dates are those a calendar counts one
    by one, leap years included; there are none exactly when a text is not a date; and a row's bucket is
    the one its due date is in. *)
Theorem due_dates_counted today due :
  (days_between today due = None ↔ Date_parse today = None ∨ Date_parse due = None)
  ∧ ∀ a b, Date_parse today = Some a → Date_parse due = Some b →
      ∃ n, days_between today due = Some n
        ∧ (if 0 <=? n then Nat.iter (Z.to_nat n) next_date a = b else Nat.iter (Z.to_nat (- n)) next_date b = a)
        ∧ match due_bucket (Some due) today with
          | Overdue => ∃ k, (0 < k)%nat ∧ Nat.iter k next_date b = a
          | Today => a = b
          | ThisWeek => ∃ k, (1 <= k <= 7)%nat ∧ Nat.iter k next_date a = b
          | Later => ∃ k, (7 < k)%nat ∧ Nat.iter k next_date a = b
          | NoDate => False
          end.
Proof.
  split.
  - unfold days_between. destruct (Date_parse today), (Date_parse due); cbn; split; try done; try tauto. by intros [?|?].
  - intros a b Ha Hb. pose proof (Date_valid_on_calendar _ (Date_parse_valid _ _ Ha)) as Hca. pose proof (Date_valid_on_calendar _ (Date_parse_valid _ _ Hb)) as Hcb.
    set (n := days_from_civil b - days_from_civil a). assert (days_between today due = Some n) as Hn by (unfold days_between; by rewrite Ha, Hb). exists n. split; [done|].
    assert (0 <= n → Nat.iter (Z.to_nat n) next_date a = b) as Hfwd by (intros; apply days_count; [done|done|lia]).
    assert (n < 0 → Nat.iter (Z.to_nat (- n)) next_date b = a) as Hbwd by (intros; apply days_count; [done|done|lia]).
    split; [destruct (0 <=? n) eqn:E; rewrite ?Z.leb_le, ?Z.leb_gt in E; auto|].
    unfold due_bucket. cbn [mbind option_bind]. rewrite Hn. destruct (n <? 0) eqn:E1; [apply Z.ltb_lt in E1; exists (Z.to_nat (- n)); split; [lia|auto]|]. apply Z.ltb_ge in E1.
    destruct (n =? 0) eqn:E2; [apply Z.eqb_eq in E2; by apply days_inj; [| |lia]|]. apply Z.eqb_neq in E2.
    destruct (n <=? 7) eqn:E3; rewrite ?Z.leb_le, ?Z.leb_gt in E3; exists (Z.to_nat n); (split; [lia|auto]).
Qed.

Lemma due_dates_counted_witness :
  days_between (str "2028-02-28") (str "2028-03-01") = Some 2 ∧ Nat.iter 2 next_date (mkDate 2028 2 28) = mkDate 2028 3 1.
Proof.
  split; [vm_compute; reflexivity|].
  destruct (proj2 (due_dates_counted (str "2028-02-28") (str "2028-03-01")) (mkDate 2028 2 28) (mkDate 2028 3 1)) as (n & Hn & H & _); [vm_compute; reflexivity|vm_compute; reflexivity|].
  assert (n = 2) as -> by (vm_compute in Hn; by injection Hn as <-). exact H.
Defined.


(** ** Grouping *)

Section grouping.
Context (to_lowercase : bytes → bytes) (by_ : GroupBy) (today : bytes) (workspaces : list bytes).

Lemma name_le_total a b : name_le to_lowercase a b = true ∨ name_le to_lowercase b a = true.
Proof.
  unfold name_le. case_bool_decide as H; [rewrite bool_decide_eq_true_2 by done|rewrite bool_decide_eq_false_2 by done]; apply bytes_leb_total.
Qed.

Lemma name_le_trans a b c : name_le to_lowercase a b = true → name_le to_lowercase b c = true → name_le to_lowercase a c = true.
Proof.
  unfold name_le. case_bool_decide as H1; case_bool_decide as H2.
  - rewrite bool_decide_eq_true_2 by congruence. apply bytes_leb_trans.
  - rewrite bool_decide_eq_false_2 by congruence. by rewrite H1.
  - rewrite bool_decide_eq_false_2 by congruence. by rewrite H2.
  - intros Ha Hb. case_bool_decide as H3; [|by eapply bytes_leb_trans]. destruct H1. apply bytes_leb_antisym; [done|by rewrite H3].
Qed.

Lemma heading_le_total a b : heading_le to_lowercase by_ workspaces a b = true ∨ heading_le to_lowercase by_ workspaces b a = true.
Proof.
  unfold heading_le. destruct (group_rank a _ _ =? group_rank b _ _) eqn:E; rewrite Z.eqb_sym, E; [apply name_le_total|].
  apply Z.eqb_neq in E. rewrite !Z.ltb_lt. lia.
Qed.

Lemma heading_le_trans a b c :
  heading_le to_lowercase by_ workspaces a b = true → heading_le to_lowercase by_ workspaces b c = true → heading_le to_lowercase by_ workspaces a c = true.
Proof.
  unfold heading_le. destruct (group_rank a _ _ =? group_rank b _ _) eqn:E1, (group_rank b _ _ =? group_rank c _ _) eqn:E2; rewrite ?Z.eqb_eq, ?Z.eqb_neq in *.
  - rewrite (proj2 (Z.eqb_eq _ _)) by congruence. apply name_le_trans.
  - rewrite (proj2 (Z.eqb_neq _ _)) by congruence. intros _. by rewrite E1.
  - rewrite (proj2 (Z.eqb_neq _ _)) by congruence. intros H _. by rewrite <- E2.
  - rewrite !Z.ltb_lt. intros H1 H2. rewrite (proj2 (Z.eqb_neq _ _)) by lia. apply Z.ltb_lt. lia.
Qed.

Definition named (rows : list RowFacts) (i : nat) (name : bytes) : Prop := ∃ r, rows !! i = Some r ∧ group_name r by_ today = name.

(** Groups as the rows are read: names apart, each with its rows, first to last. *)
Definition groups_ok (rows : list RowFacts) (groups : list (bytes * list nat)) : Prop :=
  NoDup (map fst groups) ∧ concat (map snd groups) ≡ₚ seq 0 (length rows)
  ∧ ∀ name ms, (name, ms) ∈ groups → ms ≠ [] ∧ StronglySorted lt ms ∧ ∀ i, i ∈ ms → named rows i name.

Lemma named_snoc rows r i name : named rows i name → named (rows ++ [r]) i name.
Proof. intros (r' & Hr & Hn). exists r'. split; [by apply lookup_app_l_Some|done]. Qed.

Lemma StronglySorted_snoc (ms : list nat) n : StronglySorted lt ms → (∀ i, i ∈ ms → (i < n)%nat) → StronglySorted lt (ms ++ [n]).
Proof.
  induction 1 as [|m ms Hs IH Hm]; intros Hn; cbn [app]; [by repeat constructor|]. constructor; [apply IH; intros i Hi; apply Hn; by right|].
  apply Forall_app. split; [done|]. repeat constructor. apply Hn. left.
Qed.

Lemma add_row_ok rows r groups :
  groups_ok rows groups → groups_ok (rows ++ [r]) (add_row groups (group_name r by_ today) (length rows)).
Proof.
  intros (Hnd & Hperm & Hg). set (name := group_name r by_ today).
  assert (named (rows ++ [r]) (length rows) name) as Hnew by (exists r; split; [by apply list_lookup_middle|done]).
  assert (∀ n ms i, (n, ms) ∈ groups → i ∈ ms → (i < length rows)%nat) as Hlt.
  { intros n ms i Hin Hi. destruct (Hg n ms Hin) as (_ & _ & Hnm). destruct (Hnm i Hi) as (r' & Hr & _). by eapply lookup_lt_Some. }
  assert (seq 0 (length (rows ++ [r])) = seq 0 (length rows) ++ [length rows]) as Hseq by (rewrite length_app; cbn [length]; rewrite Nat.add_1_r; apply seq_S).
  unfold add_row. destruct (position _ groups) as [k|] eqn:Ek.
  - apply position_spec in Ek as (g1 & [n ms] & g2 & -> & <- & Hgn & _). apply bool_decide_eq_true in Hgn. cbn [fst] in Hgn. subst n.
    assert (alter (λ g, (fst g, snd g ++ [length rows])) (length g1) (g1 ++ (name, ms) :: g2) = g1 ++ (name, ms ++ [length rows]) :: g2) as ->.
    { rewrite <- (Nat.add_0_r (length g1)), alter_app_r. done. }
    split_and!.
    + rewrite map_app in *. exact Hnd.
    + rewrite Hseq, <- Hperm. rewrite !map_app, !concat_app. cbn [map concat snd]. rewrite <- !app_assoc. do 2 f_equiv. apply Permutation_app_comm.
    + intros n ms' Hin. apply elem_of_app in Hin. rewrite elem_of_cons in Hin. destruct Hin as [Hin|[[= -> ->]|Hin]].
      * destruct (Hg n ms') as (? & ? & Hnm); [apply elem_of_app; by left|]. split_and!; [done|done|]. intros i Hi. by apply named_snoc, Hnm.
      * destruct (Hg name ms) as (? & Hs & Hnm); [apply elem_of_app; right; left|]. split_and!; [by destruct ms| |].
        { apply StronglySorted_snoc; [done|]. intros i Hi. eapply Hlt; [|exact Hi]. apply elem_of_app. right. left. }
        intros i [Hi|Hi]%elem_of_app; [by apply named_snoc, Hnm|]. apply list_elem_of_singleton in Hi as ->. done.
      * destruct (Hg n ms') as (? & ? & Hnm); [apply elem_of_app; right; by right|]. split_and!; [done|done|]. intros i Hi. by apply named_snoc, Hnm.
  - split_and!.
    + rewrite map_app. cbn [map fst]. apply NoDup_app. split_and!; [done| |apply NoDup_singleton]. intros n ((n' & ms) & -> & Hin)%list_elem_of_fmap Hn.
      apply list_elem_of_singleton in Hn. cbn [fst] in Hn. pose proof (proj1 (position_None _ _) Ek) as Hall. rewrite Forall_forall in Hall. specialize (Hall _ Hin). cbn [fst] in Hall. by apply bool_decide_eq_false in Hall.
    + rewrite Hseq, <- Hperm, map_app, concat_app. done.
    + intros n ms [Hin|Hin]%elem_of_app.
      * destruct (Hg n ms Hin) as (? & ? & Hnm). split_and!; [done|done|]. intros i Hi. by apply named_snoc, Hnm.
      * apply list_elem_of_singleton in Hin as [= -> ->]. split_and!; [done|by repeat constructor|]. intros i Hi. by apply list_elem_of_singleton in Hi as ->.
Qed.

Lemma groups_read rows :
  groups_ok rows (foldl (λ groups ir, add_row groups (group_name (snd ir) by_ today) (fst ir)) [] (imap pair rows)).
Proof.
  induction rows as [|r rows IH] using rev_ind.
  - split_and!; [constructor|done|]. by intros n ms ?%elem_of_nil.
  - rewrite imap_app, foldl_app. cbn [imap foldl fst snd]. rewrite Nat.add_0_r. by apply add_row_ok.
Qed.

(** A stable sort of indices leaves equals in their order. *)
Lemma stable_sort_lex (rank : nat → Z) (le : nat → nat → bool) l :
  (∀ i j, i ∈ l → j ∈ l → le i j = (rank i <=? rank j)) → StronglySorted lt l →
  StronglySorted (λ i j, rank i < rank j ∨ rank i = rank j ∧ (i < j)%nat) (stable_sort le l).
Proof.
  intros Hle Hs. induction Hs as [|x l Hs IH Hx]; [constructor|]. change (stable_sort le (x :: l)) with (sort_insert le x (stable_sort le l)).
  assert (∀ i, i ∈ stable_sort le l → (x < i)%nat ∧ le x i = (rank x <=? rank i)) as Hx'.
  { intros i Hi%stable_sort_elem. rewrite Forall_forall in Hx. split; [by apply Hx|]. apply Hle; [left|by right]. }
  assert (StronglySorted (λ i j, rank i < rank j ∨ rank i = rank j ∧ (i < j)%nat) (stable_sort le l)) as Hsort.
  { apply IH. intros i j Hi Hj. apply Hle; by right. }
  clear IH Hs Hx Hle. induction Hsort as [|y k Hs IH Hy]; cbn [sort_insert]; [by repeat constructor|].
  destruct (Hx' y) as [Hlt He]; [left|]. rewrite He. destruct (rank x <=? rank y) eqn:E.
  - apply Z.leb_le in E. constructor; [by constructor|]. constructor; [lia|]. eapply Forall_impl; [exact Hy|]. cbn. intros z Hz. destruct Hz as [?|[? ?]]; [left; lia|]. destruct (Z.eq_dec (rank x) (rank z)); [right; lia|left; lia].
  - apply Z.leb_gt in E. constructor; [apply IH; intros i Hi; apply Hx'; by right|].
    assert (∀ P : nat → Prop, P x → Forall P k → Forall P (sort_insert le x k)) as Hins.
    { intros P HP Hk. clear -HP Hk. induction Hk as [|z k Hz Hk IH]; cbn; [by repeat constructor|]. destruct (le x z); by repeat constructor. }
    apply Hins; [left; lia|exact Hy].
Qed.

Definition rank_at (rows : list RowFacts) (i : nat) : Z := from_option (λ r, row_rank r today) 0 (rows !! i).

(** A grouping is a partition in order. Every row is in exactly one group, the one of its own heading;
    no group is empty and no heading comes twice; headings are in their order, and the rows of a group in
    that of their ranks, with rows of one rank as they came. *)
Theorem group_partitions rows :
  let groups := group to_lowercase rows by_ today workspaces in
  concat (map snd groups) ≡ₚ seq 0 (length rows) ∧ NoDup (map fst groups)
  ∧ StronglySorted (λ a b, heading_le to_lowercase by_ workspaces a b = true) (map fst groups)
  ∧ ∀ name ms, (name, ms) ∈ groups → ms ≠ [] ∧ (∀ i, i ∈ ms ↔ named rows i name)
      ∧ StronglySorted (λ i j, rank_at rows i < rank_at rows j ∨ rank_at rows i = rank_at rows j ∧ (i < j)%nat) ms.
Proof.
  intros groups. destruct (groups_read rows) as (Hnd & Hperm & Hg). set (read := foldl _ _ _) in *.
  set (le := λ i j, match rows !! i, rows !! j with Some a, Some b => row_rank a today <=? row_rank b today | _, _ => true end).
  set (sorted := stable_sort (λ a b, heading_le to_lowercase by_ workspaces (fst a) (fst b)) read).
  assert (groups = map (λ g, (fst g, stable_sort le (snd g))) sorted) as Egr by done.
  assert (sorted ≡ₚ read) as Hsp by apply stable_sort_perm.
  assert (map fst groups = map fst sorted) as Efst by (rewrite Egr, map_map; done).
  assert (concat (map snd groups) ≡ₚ seq 0 (length rows)) as Hall.
  { rewrite Egr, map_map. cbn [snd]. rewrite <- Hperm, <- Hsp. clear. induction sorted as [|g gs IH]; [done|]. cbn [map concat]. by rewrite stable_sort_perm, IH. }
  assert (NoDup (map fst groups)) as Hnd' by (by rewrite Efst, Hsp). split_and!; [done|done| |].
  - rewrite Efst. assert (StronglySorted (λ a b, heading_le to_lowercase by_ workspaces (fst a) (fst b) = true) sorted) as Hs.
    { apply stable_sort_sorted; intros; [apply heading_le_total|by eapply heading_le_trans]. }
    clear -Hs. induction Hs as [|g gs Hs IH Hg]; [constructor|]. cbn [map]. constructor; [done|]. apply Forall_map. exact Hg.
  - intros name ms Hin. rewrite Egr in Hin. apply list_elem_of_fmap in Hin as ((n & ms0) & [= -> ->] & Hin). cbn [fst snd] in *. rewrite Hsp in Hin.
    destruct (Hg _ _ Hin) as (Hne & Hss & Hnm). split_and!.
    + intros Hnil. apply Hne. apply Permutation_nil. rewrite <- (stable_sort_perm le ms0), Hnil. done.
    + intros i. rewrite stable_sort_elem. split; [apply Hnm|]. intros (r & Hr & Hn).
      assert (i ∈ concat (map snd read)) as Hi by (rewrite Hperm; apply elem_of_seq; split; [lia|by eapply lookup_lt_Some]).
      apply list_elem_of_In, in_concat in Hi as (ms' & (g & <- & Hg')%in_map_iff & Hi). apply list_elem_of_In in Hg', Hi. destruct g as [n' ms']. cbn [snd] in *.
      destruct (Hg _ _ Hg') as (_ & _ & Hnm'). destruct (Hnm' i Hi) as (r' & Hr' & Hn'). assert (n' = n) as -> by congruence.
      assert (ms' = ms0) as ->; [|done]. apply list_elem_of_lookup in Hin as [a Ha], Hg' as [b Hb].
      assert (a = b) as -> by (eapply NoDup_lookup; [exact Hnd|rewrite list_lookup_fmap, Ha; done|rewrite list_lookup_fmap, Hb; done]). congruence.
    + apply stable_sort_lex; [|done]. intros i j Hi Hj. destruct (Hnm i Hi) as (ri & Hri & _), (Hnm j Hj) as (rj & Hrj & _).
      unfold le, rank_at. by rewrite Hri, Hrj.
Qed.
End grouping.

Definition sample_rows : list RowFacts :=
  [due_row None None; due_row (Some 66%N) (Some "2026-09-24"%string); due_row (Some 65%N) None; due_row (Some 66%N) (Some "2026-09-30"%string);
   mkRow true (Some 66%N) (str <$> Some "2026-09-20"%string) None None (str "work")].

Example group_sample :
  group (λ s, s) sample_rows ByPriority (str "2026-09-25") [] = [(str "(A)", [2%nat]); (str "(B)", [1%nat; 3%nat; 4%nat]); (str "No priority", [0%nat])].
Proof. vm_compute. reflexivity. Qed.

Lemma group_partitions_witness :
  named ByDue (str "2026-09-25") sample_rows 1 (str "Overdue") ∧ concat (map snd (group (λ s, s) sample_rows ByDue (str "2026-09-25") [])) ≡ₚ [0; 1; 2; 3; 4]%nat.
Proof.
  destruct (group_partitions (λ s, s) ByDue (str "2026-09-25") [] sample_rows) as (Hperm & _ & _ & Hg). split; [|exact Hperm].
  refine (proj1 (proj1 (proj2 (Hg (str "Overdue") [1%nat; 4%nat] _)) 1%nat) _).
  - vm_compute. left.
  - left.
Defined.
