(* ===== verification/Chips.v ===== *)
(** The prompt bar's chips: [chips.rs] of [crates/txtodo-core/src].

    A caret is a byte offset. A slice the code takes is after ASCII bytes, so it is at a char boundary. The
    theorems: a chip leaves valid text and a caret at a boundary of it; completing a line and reopening it
    gives the line back. *)
From S2P Require Import Prelude.
From S2P Require Import Utf8.
From S2P Require Import Types.

Inductive Chip := CPriority (letter : char) | CComplete | CToken (token : bytes).

Definition Chip_parse (name : bytes) : option Chip :=
  if bool_decide (name ∈ [str "A"; str "B"; str "C"]) then CPriority <$> head (chars name)
  else if bool_decide (name = str "x") then Some CComplete
  else if bool_decide (name ∈ [str "+"; str "@"; str "due:"; str "t:"; str "rec:"]) then Some (CToken name)
  else None.

(** The loop steps back until a boundary; 0 is one. *)
Fixpoint step_back (raw : bytes) (at_ : nat) : nat :=
  match at_ with
  | O => O
  | S below => if is_char_boundary raw at_ then at_ else step_back raw below
  end.

Definition floor_boundary (raw : bytes) (at_ : nat) : nat := step_back raw (Nat.min at_ (length raw)).

Definition strip_priority (raw : bytes) : option (char * bytes) :=
  match raw with
  | open :: letter :: close :: rest =>
      if bool_decide (open = "("%byte ∧ close = ")"%byte) && is_ascii_uppercase letter then Some (bN letter, default rest (strip_prefix (str " ") rest)) else None
  | _ => None
  end.

Definition toggle_priority (raw : bytes) (caret : nat) (letter : char) : bytes * nat :=
  let '(current, rest) := match strip_priority raw with Some (l, rest) => (Some l, rest) | None => (None, raw) end in
  let text :=
    if bool_decide (current = Some letter) then rest
    else if bool_decide (rest = []) then str "(" ++ encode_char letter ++ str ") "
    else str "(" ++ encode_char letter ++ str ") " ++ rest in
  let old_prefix := length raw - length rest in
  let new_prefix := length text - length rest in
  let moved := (caret + new_prefix) - old_prefix in
  (text, floor_boundary text moved).

Definition insert_chip (raw : bytes) (caret : nat) (token : bytes) : bytes * nat :=
  let caret := floor_boundary raw caret in
  let '(before, after) := (take caret raw, drop caret raw) in
  let at_boundary := match last (chars before) with None => true | Some c => char_is_whitespace c end in
  let insert := if at_boundary then token else str " " ++ token in
  (before ++ insert ++ after, length before + length insert).

Definition is_date (s : bytes) : bool :=
  (10 <=? length s)
  && forallb is_ascii_digit (slice 0 4 s) && bool_decide (s !! 4 = Some "-"%byte)
  && forallb is_ascii_digit (slice 5 7 s) && bool_decide (s !! 7 = Some "-"%byte)
  && forallb is_ascii_digit (slice 8 10 s).

Definition split_date (s : bytes) : option (bytes * bytes) :=
  if negb (is_date s) then None
  else
    let '(date, tail) := (take 10 s, drop 10 s) in
    if bool_decide (tail = []) then Some (date, []) else (date,.) <$> strip_prefix (str " ") tail.

Definition split_completed (raw : bytes) : option (option bytes * bytes) :=
  after_x ← strip_prefix (str "x ") raw;
  '(_, rest) ← split_date after_x;
  Some (match split_date rest with Some (created, description) => (Some created, description) | None => (None, rest) end).

Definition pri_tag (word : bytes) : option char :=
  match strip_prefix (str "pri:") word with
  | Some [p] => if is_ascii_uppercase p then Some (bN p) else None
  | _ => None
  end.

(** The filter's closure: the first [pri:] tag is taken out. *)
Fixpoint take_pri (words : list bytes) : option char * list bytes :=
  match words with
  | [] => (None, [])
  | w :: rest =>
      match pri_tag w with
      | Some p => (Some p, rest)
      | None => let '(p, kept) := take_pri rest in (p, w :: kept)
      end
  end.

Definition opt_list {A B} (f : A → B) (o : option A) : list B := match o with Some a => [f a] | None => [] end.

Definition is_space (c : byte) : bool := bool_decide (c = " "%byte).

Definition reopen (created : option bytes) (description : bytes) : bytes :=
  let words := if bool_decide (description = []) then [] else split_on is_space description in
  let '(priority, kept) := take_pri words in
  join_with (str " ")
    (opt_list (λ p, str "(" ++ encode_char p ++ str ")") priority ++ opt_list id created
     ++ (if bool_decide (kept = []) then [] else [join_with (str " ") kept])).

Definition toggle_complete_text (raw today : bytes) : bytes :=
  match split_completed raw with
  | Some (created, description) => reopen created description
  | None =>
      let '(priority, rest) := match strip_priority raw with Some (l, rest) => (Some l, rest) | None => (None, raw) end in
      let '(created, description) := match split_date rest with Some (date, description) => (Some date, description) | None => (None, rest) end in
      join_with (str " ")
        ([str "x"; today] ++ opt_list id created ++ (if bool_decide (description = []) then [] else [description])
         ++ opt_list (λ p, str "pri:" ++ encode_char p) priority)
  end.

Definition apply_chip (raw : bytes) (caret : nat) (chip : Chip) (today : bytes) : bytes * nat :=
  let caret := floor_boundary raw caret in
  match chip with
  | CPriority letter => toggle_priority raw caret letter
  | CComplete => let text := toggle_complete_text raw today in (text, length text)
  | CToken token => insert_chip raw caret token
  end.

(** The code's own tests. *)
Example chips_sample :
  let chip := λ raw caret name, match Chip_parse (str name) with Some c => Some (apply_chip (str raw) caret c (str "2026-09-12")) | None => None end in
  chip "call mum" 0 "A" = Some (str "(A) call mum", 4) ∧ chip "(A) call mum" 0 "A" = Some (str "call mum", 0)
  ∧ chip "(B) call mum" 5 "A" = Some (str "(A) call mum", 5) ∧ chip "(A)" 0 "A" = Some ([], 0)
  ∧ chip "call mum" 8 "+" = Some (str "call mum +", 10) ∧ chip "call  mum" 5 "due:" = Some (str "call due: mum", 9)
  ∧ toggle_complete_text (str "(A) 2026-09-01 call mum +home") (str "2026-09-12") = str "x 2026-09-12 2026-09-01 call mum +home pri:A"
  ∧ toggle_complete_text (str "x 2026-09-12x") (str "2026-09-12") = str "x 2026-09-12 x 2026-09-12x"
  ∧ chip "x" 0 "D" = None.
Proof. vm_compute. split_and!; reflexivity. Qed.

(** [(A)call] is no priority, as the code's own comment says of [(B)call]; the chips take it for one. *)
Example glued_priority :
  toggle_priority (str "(A)call") 0 65%N = (str "call", 0) ∧ toggle_complete_text (str "(A)call") (str "2026-09-12") = str "x 2026-09-12 call pri:A".
Proof. vm_compute. split; reflexivity. Qed.

(** ** Text and carets *)

Lemma step_back_boundary raw n : is_char_boundary raw (step_back raw n) = true.
Proof. induction n as [|n IH]; [apply is_char_boundary_0|]. cbn [step_back]. by destruct (is_char_boundary raw (S n)) eqn:E. Qed.

Lemma floor_boundary_ok raw n : is_char_boundary raw (floor_boundary raw n) = true.
Proof. apply step_back_boundary. Qed.

Lemma utf8_tail c l : is_utf8 (c :: l) = true → (bN c < 0x80)%N → is_utf8 l = true.
Proof.
  intros Hu Hc. pose proof (boundary_after_ascii (c :: l) 0 c Hu eq_refl Hc) as Hb. apply (is_utf8_boundary_split _ _ Hu) in Hb as [_ H]. exact H.
Qed.

Lemma utf8_after l1 l2 : Forall (λ c, (bN c < 0x80)%N) l1 → is_utf8 (l1 ++ l2) = true → is_utf8 l2 = true.
Proof. induction 1 as [|c l1 Hc _ IH]; [done|]. intros H. apply IH. by eapply utf8_tail. Qed.

Lemma ascii_utf8 l : Forall (λ c, (bN c < 0x80)%N) l → is_utf8 l = true.
Proof.
  intros H. assert (l = encode (map bN l)) as ->.
  { induction H as [|c l Hc _ IH]; [done|]. cbn [map encode flat_map]. fold (encode (map bN l)). rewrite <- IH. unfold encode_char.
    apply N.ltb_lt in Hc. rewrite Hc. cbn [app]. by rewrite byte_of_bN. }
  apply is_utf8_encode. apply Forall_map. eapply Forall_impl; [exact H|]. cbn. intros c Hc. unfold is_scalar. apply orb_true_iff. left. apply N.ltb_lt. lia.
Qed.

(** A scanned prefix is ASCII, so what follows it is text. *)
Lemma uppercase_ascii c : is_ascii_uppercase c = true → (bN c < 0x80)%N.
Proof. unfold is_ascii_uppercase. rewrite in_range_spec. lia. Qed.

Lemma digit_ascii c : is_ascii_digit c = true → (bN c < 0x80)%N.
Proof. unfold is_ascii_digit. rewrite in_range_spec. lia. Qed.

Lemma strip_prefix_text p l r : Forall (λ c, (bN c < 0x80)%N) p → is_utf8 l = true → strip_prefix p l = Some r → is_utf8 r = true.
Proof. intros Hp Hu ->%strip_prefix_spec. by eapply utf8_after. Qed.

Lemma strip_priority_text raw l rest : is_utf8 raw = true → strip_priority raw = Some (l, rest) → is_utf8 rest = true ∧ (65 <= l <= 90)%N ∧ ∃ p, raw = p ++ rest.
Proof.
  intros Hu. unfold strip_priority. destruct raw as [|a [|letter [|z raw]]]; try done. case_bool_decide as Hp; [|done]. destruct Hp as [-> ->]. cbn [andb].
  destruct (is_ascii_uppercase letter) eqn:El; [|done]. intros Heq.
  assert (l = bN letter) as -> by congruence. assert (rest = default raw (strip_prefix (str " ") raw)) as -> by congruence. clear Heq.
  assert (is_utf8 raw = true) as Hr.
  { apply (utf8_after ["("%byte; letter; ")"%byte]); [|exact Hu]. constructor; [done|]. constructor; [by apply uppercase_ascii|]. by constructor; [|constructor]. }
  unfold is_ascii_uppercase in El. apply in_range_spec in El. split_and!; [|lia..|].
  - destruct (strip_prefix (str " ") raw) eqn:E; [|exact Hr]. eapply strip_prefix_text; [|exact Hr|exact E]. by repeat constructor.
  - destruct (strip_prefix (str " ") raw) as [r|] eqn:E; cbn [default from_option id]; [apply strip_prefix_spec in E as ->; by exists ["("; letter; ")"; " "]%byte|by exists ["("; letter; ")"]%byte].
Qed.

Lemma is_date_ascii s : is_date s = true → Forall (λ c, (bN c < 0x80)%N) (take 10 s) ∧ 10 <= length s.
Proof.
  unfold is_date. intros H. breflect. rewrite forallb_forall in *.
  do 10 (destruct s as [|? s]; [cbn in *; lia|]). cbn in *. simplify_eq. split; [|lia]. repeat constructor;
    first [apply digit_ascii; match goal with H : ∀ x, _ → is_ascii_digit x = true |- is_ascii_digit ?y = true => apply H; cbn; tauto end|by vm_compute].
Qed.

Lemma split_date_text s date rest : is_utf8 s = true → split_date s = Some (date, rest) → is_utf8 date = true ∧ is_utf8 rest = true.
Proof.
  intros Hu. unfold split_date. destruct (is_date s) eqn:E; [|done]. apply is_date_ascii in E as [Ha _]. cbn [negb].
  assert (is_utf8 (drop 10 s) = true) as Hd by (apply (utf8_after (take 10 s)); [done|by rewrite take_drop]).
  case_bool_decide; [intros [= <- <-]; split; [by apply ascii_utf8|done]|]. destruct (strip_prefix _ _) as [r|] eqn:Er; [|done]. intros [= <- <-].
  split; [by apply ascii_utf8|]. eapply strip_prefix_text; [|exact Hd|exact Er]. by repeat constructor.
Qed.

Lemma join_text sep ws : is_utf8 sep = true → Forall (λ w, is_utf8 w = true) ws → is_utf8 (join_with sep ws) = true.
Proof.
  intros Hs. induction 1 as [|w ws Hw Hws IH]; [done|]. destruct ws as [|w' ws]; [done|]. cbn [join_with] in *. by apply is_utf8_app; [|apply is_utf8_app].
Qed.

Lemma words_text l : is_utf8 l = true → Forall (λ w, is_utf8 w = true) (split_on is_space l).
Proof.
  intros Hu. pose proof (join_split_on " "%byte is_space l) as Hj. assert (join_with [" "%byte] (split_on is_space l) = l) as E by (apply Hj; intros x Hx; by apply bool_decide_eq_true in Hx).
  rewrite <- E in Hu. clear E Hj. revert Hu. generalize (split_on is_space l) as ws. clear. intros ws.
  induction ws as [|w ws IH]; intros Hu; [constructor|]. destruct ws as [|w' ws]; [by repeat constructor|].
  change (join_with [" "%byte] (w :: w' :: ws)) with (w ++ " "%byte :: join_with [" "%byte] (w' :: ws)) in Hu.
  apply is_utf8_split in Hu as [H1 H2]; [|done]. constructor; [done|]. apply IH. eapply utf8_tail; [exact H2|by vm_compute].
Qed.

Lemma take_pri_text words p kept : Forall (λ w, is_utf8 w = true) words → take_pri words = (p, kept) →
  Forall (λ w, is_utf8 w = true) kept ∧ ∀ c, p = Some c → (65 <= c <= 90)%N.
Proof.
  intros H. revert p kept. induction H as [|w words Hw Hws IH]; intros p kept; cbn [take_pri]; [by intros [= <- <-]|].
  destruct (pri_tag w) as [c|] eqn:Ep.
  - intros [= <- <-]. split; [done|]. intros c' [= <-]. unfold pri_tag in Ep. repeat case_match; simplify_eq.
    match goal with H : is_ascii_uppercase _ = true |- _ => unfold is_ascii_uppercase in H; apply in_range_spec in H end. lia.
  - destruct (take_pri words) as [p' k'] eqn:E. intros [= <- <-]. destruct (IH _ _ eq_refl) as [? ?]. split; [by constructor|done].
Qed.

Lemma letter_text c : (65 <= c <= 90)%N → is_utf8 (encode_char c) = true.
Proof. intros H. pose proof (is_utf8_encode [c]) as He. cbn [encode flat_map] in He. rewrite app_nil_r in He. apply He. repeat constructor. unfold is_scalar. apply orb_true_iff. left. apply N.ltb_lt. lia. Qed.

Lemma opt_list_text {A} (f : A → bytes) o : (∀ a, o = Some a → is_utf8 (f a) = true) → Forall (λ w, is_utf8 w = true) (opt_list f o).
Proof. intros H. destruct o; repeat constructor. by apply H. Qed.

Lemma if_nil_text {A} (b : bool) (w : list A) (f : list A → bytes) : is_utf8 (f w) = true → Forall (λ w, is_utf8 w = true) (if b then [] else [f w]).
Proof. intros H. destruct b; by repeat constructor. Qed.

Lemma toggle_complete_text_ok raw today : is_utf8 raw = true → is_utf8 today = true → is_utf8 (toggle_complete_text raw today) = true.
Proof.
  intros Hu Ht. assert (∀ s c d, is_utf8 s = true → (match split_date s with Some (date, description) => (Some date, description) | None => (None, s) end) = (c, d) →
    is_utf8 d = true ∧ ∀ x, c = Some x → is_utf8 x = true) as Hsplit.
  { intros s c d Hs. destruct (split_date s) as [[x y]|] eqn:E; intros [= <- <-]; [|done]. destruct (split_date_text _ _ _ Hs E). split; [done|]. by intros ? [= <-]. }
  unfold toggle_complete_text. destruct (split_completed raw) as [[created description]|] eqn:Ec.
  - unfold split_completed in Ec. destruct (strip_prefix (str "x ") raw) as [r|] eqn:Er; [|done]. cbn [mbind option_bind] in Ec.
    assert (is_utf8 r = true) as Hr by (eapply strip_prefix_text; [|exact Hu|exact Er]; by repeat constructor).
    destruct (split_date r) as [[d r']|] eqn:Ed; [|done]. cbn [mbind option_bind] in Ec. destruct (split_date_text _ _ _ Hr Ed) as [_ Hr']. injection Ec as Ec.
    destruct (Hsplit r' created description Hr' Ec) as [Hdesc Hcr]. unfold reopen.
    destruct (take_pri _) as [p kept] eqn:Ep. apply take_pri_text in Ep as [Hk Hp]; [|case_bool_decide; [constructor|by apply words_text]].
    apply join_text; [done|]. apply Forall_app. split; [apply opt_list_text; intros c Hc; apply is_utf8_app; [done|]; apply is_utf8_app; [by apply letter_text, Hp|done]|].
    apply Forall_app. split; [by apply opt_list_text|]. apply if_nil_text. by apply join_text.
  - destruct (match strip_priority raw with Some (l, rest) => (Some l, rest) | None => (None, raw) end) as [priority rest] eqn:Ep.
    assert (is_utf8 rest = true ∧ ∀ c, priority = Some c → (65 <= c <= 90)%N) as [Hr Hp].
    { destruct (strip_priority raw) as [[l r]|] eqn:E; injection Ep as <- <-; [|done]. destruct (strip_priority_text _ _ _ Hu E) as (? & ? & _). split; [done|]. by intros c [= <-]. }
    destruct (match split_date rest with Some (date, description) => (Some date, description) | None => (None, rest) end) as [created description] eqn:Ed. destruct (Hsplit rest created description Hr Ed) as [Hdesc Hcr].
    apply join_text; [done|]. apply Forall_app. split; [by repeat constructor|]. apply Forall_app. split; [by apply opt_list_text|].
    apply Forall_app. split; [by apply (if_nil_text _ description id)|]. apply opt_list_text. intros c Hc. apply is_utf8_app; [done|]. by apply letter_text, Hp.
Qed.

Lemma toggle_priority_ok raw caret letter : is_utf8 raw = true → (65 <= letter <= 90)%N →
  let '(text, c) := toggle_priority raw caret letter in is_utf8 text = true ∧ is_char_boundary text c = true.
Proof.
  intros Hu Hl. unfold toggle_priority. destruct (match strip_priority raw with Some (l, rest) => (Some l, rest) | None => (None, raw) end) as [current rest] eqn:E.
  assert (is_utf8 rest = true) as Hr. { destruct (strip_priority raw) as [[l r]|] eqn:E'; injection E as <- <-; [by destruct (strip_priority_text _ _ _ Hu E')|done]. }
  split; [|apply floor_boundary_ok]. pose proof (letter_text _ Hl). case_bool_decide; [done|]. case_bool_decide; repeat apply is_utf8_app; done.
Qed.

Lemma insert_chip_ok raw caret token : is_utf8 raw = true → is_utf8 token = true →
  let '(text, c) := insert_chip raw caret token in is_utf8 text = true ∧ is_char_boundary text c = true.
Proof.
  intros Hu Ht. unfold insert_chip. set (k := floor_boundary raw caret). destruct (is_utf8_boundary_split raw k Hu (floor_boundary_ok raw caret)) as [Hb Ha].
  set (ins := if match last (chars (take k raw)) with None => true | Some c => char_is_whitespace c end then token else str " " ++ token). assert (is_utf8 ins = true) as Hi by (subst ins; destruct (match last (chars (take k raw)) with None => true | Some c => char_is_whitespace c end); [done|by apply is_utf8_app]).
  split; [by apply is_utf8_app; [|apply is_utf8_app]|]. rewrite app_assoc, <- length_app. generalize dependent (take k raw ++ ins). intros l.
  destruct (drop k raw) as [|c rest] eqn:E; [intros; rewrite app_nil_r; apply is_char_boundary_end|]. eapply is_char_boundary_lookup; [by apply list_lookup_middle|].
  destruct (is_cont c) eqn:Ec; [|done]. unfold is_utf8 in Ha. rewrite decode_cont_head in Ha by done. done.
Qed.

(** A chip leaves a caret that splits no char. On any text with the caret anywhere, each of the chips
    of the bar gives text, with the caret at a char boundary of it. *)
Theorem chip_carets_safe raw caret name chip today :
  is_utf8 raw = true → is_utf8 today = true → Chip_parse name = Some chip →
  let '(text, c) := apply_chip raw caret chip today in is_utf8 text = true ∧ is_char_boundary text c = true.
Proof.
  intros Hu Ht Hc. unfold apply_chip, Chip_parse in *. case_bool_decide as H1.
  { assert (∃ l, chip = CPriority l ∧ (65 <= l <= 90)%N) as (l & -> & Hl); [|by apply toggle_priority_ok].
    repeat (apply elem_of_cons in H1 as [->|H1]; [vm_compute in Hc; injection Hc as <-; eexists; split; [done|lia]|]). by apply elem_of_nil in H1. }
  clear H1. case_bool_decide as H1.
  { injection Hc as <-. split; [by apply toggle_complete_text_ok|apply is_char_boundary_end]. }
  clear H1. case_bool_decide as H1; [|done]. injection Hc as <-. apply insert_chip_ok; [done|].
  repeat (apply elem_of_cons in H1 as [->|H1]; [done|]). by apply elem_of_nil in H1.
Qed.

Lemma chip_carets_safe_witness :
  let raw := [xc3; xa9; xc3; xa9] in let '(text, c) := apply_chip raw 3 (CToken (str "@")) [] in text = raw ++ [] ∨ (is_utf8 text = true ∧ is_char_boundary text c = true).
Proof. right. exact (chip_carets_safe [xc3; xa9; xc3; xa9] 3 (str "@") (CToken (str "@")) [] eq_refl eq_refl eq_refl). Defined.

(** ** Completing and reopening *)

(** A line in the usual shape: a priority, a creation date, a description. *)
Definition line_of (priority : option char) (created : option bytes) (description : bytes) : bytes :=
  join_with (str " ") (opt_list (λ p, str "(" ++ encode_char p ++ str ")") priority ++ opt_list id created ++ [description]).

Definition date_text (s : bytes) : Prop := is_date s = true ∧ length s = 10.

(** No word is a [pri:] tag, and the description is not read as a date, a priority or a completed line that
    the line does not have. *)
Record usual (priority : option char) (created : option bytes) (description : bytes) : Prop := {
  us_letter : ∀ p, priority = Some p → (65 <= p <= 90)%N;
  us_created : ∀ c, created = Some c → date_text c;
  us_text : description ≠ [];
  us_words : Forall (λ w, pri_tag w = None) (split_on is_space description);
  us_date : created = None → split_date description = None;
  us_start : priority = None → created = None → strip_priority description = None ∧ split_completed description = None
}.

Lemma is_date_app d rest : 10 <= length d → is_date (d ++ rest) = is_date d.
Proof. intros H. do 10 (destruct d as [|? d]; [cbn in H; lia|]). reflexivity. Qed.

Lemma split_date_app d rest : date_text d → split_date (d ++ str " " ++ rest) = Some (d, rest).
Proof.
  intros [Hd Hl]. unfold split_date. rewrite is_date_app, Hd by lia.
  cbn [negb]. rewrite take_app_length', drop_app_length' by done. done.
Qed.

(** The first ten bytes of a date are digits and dashes. *)
Lemma is_date_chars s : is_date s = true → Forall (λ ic, is_ascii_digit (snd ic) = true ∨ snd ic = "-"%byte) (imap pair (take 10 s)).
Proof.
  unfold is_date. intros H. breflect. rewrite forallb_forall in *.
  do 10 (destruct s as [|? s]; [cbn in *; lia|]). cbn in *. simplify_eq. repeat (constructor; [cbn; first [by right|left;
    match goal with H : ∀ x, _ → is_ascii_digit x = true |- is_ascii_digit ?y = true => apply H; cbn; tauto end]|]). constructor.
Qed.

Lemma split_date_none s t : split_date s = None → s ≠ [] → split_date (s ++ str " " ++ t) = None.
Proof.
  unfold split_date. intros H Hne. destruct (is_date s) eqn:E; cbn [negb] in H.
  - pose proof (is_date_ascii _ E) as [_ Hl]. rewrite is_date_app, E by lia.
    cbn [negb]. case_bool_decide as Hn; [done|]. rewrite drop_app_le by lia. destruct (drop 10 s) as [|c r] eqn:Er; [done|].
    rewrite bool_decide_eq_false_2 by done. destruct (strip_prefix (str " ") (c :: r)) eqn:Es; [done|]. destruct (strip_prefix (str " ") ((c :: r) ++ str " " ++ t)) as [x|] eqn:Ex; [|done].
    apply strip_prefix_spec in Ex. cbn in Ex. injection Ex as -> _. assert (strip_prefix (str " ") (" "%byte :: r) = Some r) as Hx by (by apply strip_prefix_spec). by rewrite Hx in Es.
  - destruct (decide (10 <= length s)) as [Hl|Hl]; [by rewrite is_date_app, E by lia|].
    assert (is_date (s ++ str " " ++ t) = false) as ->; [|done]. destruct (is_date (s ++ str " " ++ t)) eqn:E2; [|done]. exfalso.
    clear H E. apply is_date_chars in E2. rewrite Forall_forall in E2. assert ((length s, " "%byte) ∈ imap pair (take 10 (s ++ str " " ++ t))) as Hin.
    { apply list_elem_of_lookup. exists (length s). rewrite list_lookup_imap, lookup_take_lt by lia. rewrite lookup_app_r, Nat.sub_diag by lia. done. }
    specialize (E2 _ Hin). by destruct E2.
Qed.

Lemma take_pri_none words : Forall (λ w, pri_tag w = None) words → take_pri words = (None, words).
Proof. induction 1 as [|w words Hw _ IH]; [done|]. cbn [take_pri]. by rewrite Hw, IH. Qed.

Lemma take_pri_last words w p : Forall (λ w, pri_tag w = None) words → pri_tag w = Some p → take_pri (words ++ [w]) = (Some p, words).
Proof. intros H Hw. induction H as [|v words Hv _ IH]; cbn [app take_pri]; [by rewrite Hw|]. by rewrite Hv, IH. Qed.

Lemma letter_byte p : (65 <= p <= 90)%N → ∃ c, encode_char p = [c] ∧ is_ascii_uppercase c = true ∧ bN c = p.
Proof.
  intros H. unfold encode_char. rewrite (proj2 (N.ltb_lt p 128)) by lia. exists (byte_of_N p). unfold is_ascii_uppercase. rewrite in_range_spec, bN_of_N by lia. split_and!; [done|lia..].
Qed.

Lemma pri_tag_of p : (65 <= p <= 90)%N → pri_tag (str "pri:" ++ encode_char p) = Some p.
Proof.
  intros H. destruct (letter_byte p H) as (c & -> & Hu & Hb). unfold pri_tag. assert (strip_prefix (str "pri:") (str "pri:" ++ [c]) = Some [c]) as -> by (by apply strip_prefix_spec). by rewrite Hu, Hb.
Qed.

(** Reopening what completing wrote. *)
Lemma reopen_completed priority created description :
  usual priority created description →
  reopen created (join_with (str " ") (description :: opt_list (λ p, str "pri:" ++ encode_char p) priority)) = line_of priority created description.
Proof.
  intros [Hl _ Hne Hw _ _]. unfold reopen, line_of.
  set (d' := join_with _ _). assert (d' ≠ []) as Hd' by (subst d'; destruct priority; cbn; [by destruct description|done]). rewrite bool_decide_eq_false_2 by done.
  assert (take_pri (split_on is_space d') = (priority, split_on is_space description)) as ->.
  { subst d'. destruct priority as [p|]; cbn [opt_list join_with]; [|by apply take_pri_none]. specialize (Hl p eq_refl).
    change (description ++ str " " ++ str "pri:" ++ encode_char p) with (description ++ " "%byte :: str "pri:" ++ encode_char p). rewrite split_on_app by done.
    assert (split_on is_space (str "pri:" ++ encode_char p) = [str "pri:" ++ encode_char p]) as ->; [|apply take_pri_last; [done|by apply pri_tag_of]].
    apply split_on_none. destruct (letter_byte p Hl) as (c & -> & Hu & _). repeat constructor. unfold is_space. apply bool_decide_eq_false. by intros ->. }
  rewrite bool_decide_eq_false_2 by apply split_on_nonempty. change (str " ") with [" "%byte] at 2. rewrite join_split_on; [done|]. intros x Hx. by apply bool_decide_eq_true in Hx.
Qed.

(** C38. Completing and reopening. A line in the usual shape is completed as [x], the day, its creation
    date, its description and its priority as a tag; and that line, reopened on any day, is the line again,
    byte for byte. *)
Theorem complete_then_reopen priority created description today later :
  usual priority created description → date_text today →
  let line := line_of priority created description in
  let completed := toggle_complete_text line today in
  completed = join_with (str " ") ([str "x"; today] ++ opt_list id created ++ [description] ++ opt_list (λ p, str "pri:" ++ encode_char p) priority)
  ∧ toggle_complete_text completed later = line.
Proof.
  intros Hu Ht line completed. pose proof Hu as [Hl Hc Hne Hw Hd Hs].
  assert (completed = join_with (str " ") ([str "x"; today] ++ opt_list id created ++ [description] ++ opt_list (λ p, str "pri:" ++ encode_char p) priority)) as Hcomp.
  { subst completed. unfold toggle_complete_text.
    assert (split_completed line = None ∧ (match strip_priority line with Some (l, rest) => (Some l, rest) | None => (None, line) end)
              = (priority, join_with (str " ") (opt_list id created ++ [description]))) as [-> ->].
    { subst line. unfold line_of. destruct priority as [p|]; cbn [opt_list app].
      - destruct (letter_byte p (Hl p eq_refl)) as (c & -> & Hup & Hb). set (rest := join_with _ (opt_list id created ++ [description])).
        assert (join_with (str " ") ((str "(" ++ [c] ++ str ")") :: opt_list id created ++ [description]) = "("%byte :: c :: ")"%byte :: str " " ++ rest) as -> by (subst rest; by destruct created).
        split; [done|]. unfold strip_priority. rewrite bool_decide_eq_true_2, Hup by done. cbn [andb]. assert (strip_prefix (str " ") (str " " ++ rest) = Some rest) as -> by (by apply strip_prefix_spec).
        cbn. by rewrite Hb.
      - destruct created as [d|]; cbn [opt_list app join_with id].
        + destruct (Hc d eq_refl) as [Hdate Hlen]. unfold is_date in Hdate. breflect. do 10 (destruct d as [|? d]; [done|]). destruct d; [|done]. cbn in *.
          split; [unfold split_completed, strip_prefix; cbn; by repeat case_bool_decide; simplify_eq|]. by case_bool_decide as Hx; [destruct Hx as [-> ->]|].
        + by destruct (Hs eq_refl eq_refl) as [-> ->]. }
    assert ((match split_date (join_with (str " ") (opt_list id created ++ [description])) with Some (date, d) => (Some date, d) | None => (None, join_with (str " ") (opt_list id created ++ [description])) end)
             = (created, description)) as ->.
    { destruct created as [d|]; cbn [opt_list app join_with id]; [by rewrite split_date_app by by apply Hc|]. by rewrite Hd. }
    rewrite bool_decide_eq_false_2 by done. done. }
  split; [done|]. rewrite Hcomp. unfold toggle_complete_text.
  set (tail := join_with (str " ") (description :: opt_list (λ p, str "pri:" ++ encode_char p) priority)).
  assert (split_completed (join_with (str " ") ([str "x"; today] ++ opt_list id created ++ [description] ++ opt_list (λ p, str "pri:" ++ encode_char p) priority)) = Some (created, tail)) as ->;
    [|by apply reopen_completed].
  assert (join_with (str " ") ([str "x"; today] ++ opt_list id created ++ [description] ++ opt_list (λ p, str "pri:" ++ encode_char p) priority)
    = str "x " ++ today ++ str " " ++ (match created with Some d => d ++ str " " ++ tail | None => tail end)) as -> by (subst tail; by destruct created).
  unfold split_completed. assert (∀ r, strip_prefix (str "x ") (str "x " ++ r) = Some r) as -> by (intros r; by apply strip_prefix_spec). cbn [mbind option_bind].
  rewrite split_date_app by done. cbn [mbind option_bind]. f_equal. destruct created as [d|]; [by rewrite split_date_app by by apply Hc|].
  assert (split_date tail = None) as ->; [|done]. subst tail. destruct priority as [p|]; cbn [opt_list join_with]; [|by apply Hd]. apply split_date_none; [by apply Hd|done].
Qed.

Lemma complete_then_reopen_witness :
  toggle_complete_text (toggle_complete_text (str "(A) 2026-09-01 call  mum +home") (str "2026-09-12")) (str "2026-10-01") = str "(A) 2026-09-01 call  mum +home".
Proof.
  refine (proj2 (complete_then_reopen (Some 65%N) (Some (str "2026-09-01")) (str "call  mum +home") (str "2026-09-12") (str "2026-10-01") _ _)); [split|].
  - intros p [= <-]. lia.
  - intros c [= <-]. by vm_compute.
  - done.
  - by repeat constructor.
  - done.
  - done.
  - by vm_compute.
Defined.
