(* ===== verification/Notice.v ===== *)
(** Change notices: [notice.rs] of [crates/txtodo-core/src].

    A burst of other clients' ops is folded into one notice. Times are milliseconds far below [u64]'s end.
    The theorem: what a pending notice holds is the strongest verb of every op that counted since the last
    one, and it is due within its two waits. *)
From S2P Require Import Prelude.
From S2P Require Import Types.

#[local] Open Scope N_scope.

Definition QUIET_MS : N := 3000.
Definition MAX_WAIT_MS : N := 15000.

(** In order: the strongest last. *)
Inductive Verb := Edited | Completed | Deleted.

#[global] Instance Verb_eq_dec : EqDecision Verb.
Proof. solve_decision. Defined.

Definition Verb_word (v : Verb) : bytes := match v with Edited => str "edited" | Completed => str "completed" | Deleted => str "deleted" end.

Definition Verb_rank (v : Verb) : N := match v with Edited => 0 | Completed => 1 | Deleted => 2 end.

(** [max], which of equals is the same. *)
Definition Verb_max (a b : Verb) : Verb := if Verb_rank a <=? Verb_rank b then b else a.

Definition verb_of (kind summary : bytes) : option Verb :=
  if bool_decide (kind ∈ [str "edit_text"; str "remove_tag"]) then Some Edited
  else if bool_decide (kind = str "set_field") then
    if starts_with (str "Completed = Bool(true)") summary then Some Completed
    else if starts_with (str "Deleted = Bool(true)") summary then Some Deleted
    else if starts_with (str "CompletionDate") summary || starts_with (str "Quirks") summary then None
    else Some Edited
  else None.

Record OpFacts := mkFacts { op_path : bytes; op_source : bytes; op_kind : bytes; op_task : bytes; op_summary : bytes }.

Record Notice := mkNotice { nt_title : bytes; nt_body : bytes }.

Record Debouncer := mkDebouncer {
  db_own_source : bytes;
  db_only_source : option bytes;
  db_first_at : option N;
  db_last_at : N;
  db_tasks : gmap (bytes * bytes) Verb;
  db_sources : list bytes
}.

Definition Debouncer_new (own_source : bytes) : Debouncer := mkDebouncer own_source None None 0 ∅ [].
Definition only_from (source : bytes) : Debouncer := mkDebouncer [] (Some source) None 0 ∅ [].

Definition dropped (d : Debouncer) (op : OpFacts) : bool :=
  match db_only_source d with
  | Some only => negb (bool_decide (op_source op = only))
  | None => bool_decide (op_source op = db_own_source d)
  end.

Definition push (d : Debouncer) (now_ms : N) (op : OpFacts) : Debouncer * bool :=
  if dropped d op || bool_decide (op_task op = []) then (d, false)
  else
    match verb_of (op_kind op) (op_summary op) with
    | None => (d, false)
    | Some verb =>
        let key := (op_path op, op_task op) in
        let slot := default verb (db_tasks d !! key) in
        let sources := if bool_decide (op_source op ∈ db_sources d) then db_sources d else db_sources d ++ [op_source op] in
        (mkDebouncer (db_own_source d) (db_only_source d) (Some (default now_ms (db_first_at d))) now_ms (<[key := Verb_max slot verb]> (db_tasks d)) sources, true)
    end.

Definition next_due (d : Debouncer) : option N :=
  first ← db_first_at d; Some (N.min (db_last_at d + QUIET_MS) (first + MAX_WAIT_MS)).

Definition by_whom (sources : list bytes) : bytes :=
  match sources with
  | [one] =>
      if bool_decide (one = str "sync") then str " on another device"
      else if bool_decide (one = str "mcp") then str " by an agent"
      else if bool_decide (one = str "cli") then str " from the CLI"
      else if bool_decide (one = str "tui") then str " from the TUI"
      else if bool_decide (one = str "desktop") then str " from the desktop app"
      else if bool_decide (one = str "external") then str " in an editor"
      else []
  | _ => []
  end.

(** [Vec::dedup]: neighbours that are equal become one. *)
Fixpoint dedup {A} `{EqDecision A} (l : list A) : list A :=
  match l with
  | [] => []
  | x :: l' => match l' with y :: _ => if bool_decide (x = y) then dedup l' else x :: dedup l' | [] => [x] end
  end.

(** A [BTreeMap]'s order: the path, then the task. *)
Definition key_leb (a b : bytes * bytes) : bool := if bool_decide (fst a = fst b) then bytes_leb (snd a) (snd b) else bytes_leb (fst a) (fst b).
Definition in_order (tasks : gmap (bytes * bytes) Verb) : list ((bytes * bytes) * Verb) := stable_sort (λ a b, key_leb (fst a) (fst b)) (map_to_list tasks).

Definition display_nat (n : nat) : bytes := display_N (N.of_nat n).

Definition counts (tasks : gmap (bytes * bytes) Verb) : list (nat * Verb) :=
  List.filter (λ nv, (0 <? fst nv)%nat) (map (λ v, (length (List.filter (λ kv, bool_decide (snd kv = v)) (in_order tasks)), v)) [Completed; Deleted; Edited]).

Definition word (tasks : gmap (bytes * bytes) Verb) (sources : list bytes) : Notice :=
  let who := by_whom sources in
  let paths := dedup (map (λ kv, fst (fst kv)) (in_order tasks)) in
  let place :=
    match paths with
    | [] => []
    | [one] => str "in " ++ one
    | [a; b] => str "in " ++ a ++ str " and " ++ b
    | a :: rest => str "in " ++ a ++ str " and " ++ display_nat (length rest) ++ str " more lists"
    end in
  if (size tasks =? 1)%nat then
    let verb := match in_order tasks with kv :: _ => Verb_word (snd kv) | [] => str "edited" end in
    mkNotice (str "A task was " ++ verb ++ who) place
  else
    mkNotice (display_nat (size tasks) ++ str " tasks changed" ++ who)
      (join_with (str ", ") (map (λ nv, display_nat (fst nv) ++ str " " ++ Verb_word (snd nv)) (counts tasks)) ++ str ", " ++ place).

Definition due (d : Debouncer) (now_ms : N) : Debouncer * option Notice :=
  match next_due d with
  | None => (d, None)
  | Some t =>
      if now_ms <? t then (d, None)
      else (mkDebouncer (db_own_source d) (db_only_source d) None (db_last_at d) ∅ [], Some (word (db_tasks d) (db_sources d)))
  end.

(** ** What a burst comes to *)

Inductive Call := Push (now_ms : N) (op : OpFacts) | Due (now_ms : N).

(** A debouncer with the ops that counted since its last notice. *)
Definition step (dp : Debouncer * list (N * OpFacts * Verb)) (c : Call) : Debouncer * list (N * OpFacts * Verb) :=
  let '(d, pending) := dp in
  match c with
  | Push now op =>
      match push d now op, verb_of (op_kind op) (op_summary op) with
      | (d', true), Some v => (d', pending ++ [(now, op, v)])
      | (d', _), _ => (d', pending)
      end
  | Due now => match due d now with (d', Some _) => (d', []) | (d', None) => (d', pending) end
  end.

(** The strongest verb of the pending ops on a task. *)
Definition strongest (pending : list (N * OpFacts * Verb)) (key : bytes * bytes) : option Verb :=
  foldl (λ acc o, if bool_decide ((op_path (snd (fst o)), op_task (snd (fst o))) = key) then Some (Verb_max (default (snd o) acc) (snd o)) else acc) None pending.

Record pending_ok (d : Debouncer) (pending : list (N * OpFacts * Verb)) : Prop := {
  pn_tasks : ∀ key, db_tasks d !! key = strongest pending key;
  pn_first : db_first_at d = (λ o, fst (fst o)) <$> head pending;
  pn_last : ∀ o, last pending = Some o → db_last_at d = fst (fst o);
  pn_sources : ∀ s, s ∈ db_sources d ↔ ∃ o, o ∈ pending ∧ op_source (snd (fst o)) = s;
  pn_counted : ∀ o, o ∈ pending → dropped d (snd (fst o)) = false
}.

Lemma burst_step_ok d pending c : pending_ok d pending → let '(d', pending') := step (d, pending) c in pending_ok d' pending'.
Proof.
  intros [Ht Hf Hl Hs Hc]. destruct c as [now op|now]; cbn [step].
  - unfold push. destruct (dropped d op || _) eqn:E; [by split|]. apply orb_false_iff in E as [Ed _].
    destruct (verb_of _ _) as [v|]; [|by split]. split; cbn [db_tasks db_first_at db_last_at db_sources].
    + intros key. unfold strongest. rewrite foldl_app. cbn [foldl fst snd]. change (foldl _ None pending) with (strongest pending key). case_bool_decide as Hk.
      * subst key. rewrite lookup_insert_eq, Ht. done.
      * by rewrite lookup_insert_ne, Ht.
    + rewrite Hf. by destruct pending.
    + intros o. rewrite last_snoc. by intros [= <-].
    + intros s. setoid_rewrite elem_of_app. setoid_rewrite list_elem_of_singleton. case_bool_decide as Hin; [|rewrite elem_of_app, list_elem_of_singleton]; rewrite Hs in *.
      * split; [intros (o & ? & ?); exists o; auto|]. intros (o & [Ho| ->] & He); [by exists o|]. cbn [fst snd] in He. by subst s.
      * split; [intros [(o & ? & ?)| ->]; [exists o; auto|exists (now, op, v); auto]|]. intros (o & [Ho| ->] & He); [left; by exists o|by right].
    + intros o [Ho|Ho]%elem_of_app; [by apply Hc|]. by apply list_elem_of_singleton in Ho as ->.
  - unfold due. destruct (next_due d) as [t|]; [|by split]. destruct (now <? t); [by split|]. split; cbn; try done.
    + intros o. split; [by intros ?%elem_of_nil|]. intros (? & ?%elem_of_nil & _). done.
    + by intros o ?%elem_of_nil.
Qed.

(** A change is told once and in time. Whatever ops come and whenever a notice is asked for: the tasks
    a debouncer holds are those of the ops that counted since the last notice, each with its strongest
    verb, and none of them is of a source to leave out; when there are any, a notice is due at most fifteen
    seconds after the first of them and three after the last, not before, and giving it starts over. *)
Theorem changes_told_in_time start cs :
  (∃ source, start = Debouncer_new source ∨ start = only_from source) →
  let '(d, pending) := foldl step (start, []) cs in
  (∀ key, db_tasks d !! key = strongest pending key)
  ∧ (∀ o, o ∈ pending → dropped start (snd (fst o)) = false)
  ∧ (pending = [] → next_due d = None)
  ∧ ∀ first last_, head pending = Some first → last pending = Some last_ →
      let t := N.min (fst (fst last_) + 3000) (fst (fst first) + 15000) in
      next_due d = Some t ∧ ∀ now, if now <? t then due d now = (d, None) else ∃ d', due d now = (d', Some (word (db_tasks d) (db_sources d))) ∧ next_due d' = None.
Proof.
  intros Hstart. assert (pending_ok start []) as Hinit.
  { destruct Hstart as (s & [-> | ->]); split; try done; cbn; (intros o; first [split; [by intros ?%elem_of_nil|by intros (? & ?%elem_of_nil & _)]|by intros ?%elem_of_nil]). }
  assert (∀ d op, db_own_source d = db_own_source start → db_only_source d = db_only_source start → dropped d op = dropped start op) as Hsame by (intros d op H1 H2; unfold dropped; by rewrite H1, H2).
  assert (∀ d pending, pending_ok d pending → db_own_source d = db_own_source start → db_only_source d = db_only_source start →
    let '(d', pending') := foldl step (d, pending) cs in pending_ok d' pending' ∧ db_own_source d' = db_own_source start ∧ db_only_source d' = db_only_source start) as Hrun.
  { clear Hinit Hsame. induction cs as [|c cs IH]; intros d pending Hok H1 H2; [done|]. cbn [foldl]. pose proof (burst_step_ok d pending c Hok) as Hok'.
    assert (db_own_source (fst (step (d, pending) c)) = db_own_source d ∧ db_only_source (fst (step (d, pending) c)) = db_only_source d) as [E1 E2].
    { destruct c as [now op|now]; cbn [step].
      - unfold push. destruct (dropped d op || _); [done|]. by destruct (verb_of _ _).
      - unfold due. destruct (next_due d); [|done]. by destruct (now <? _). }
    destruct (step (d, pending) c) as [d' pending']. cbn [fst] in *. apply IH; [done|congruence..]. }
  specialize (Hrun start [] Hinit eq_refl eq_refl). destruct (foldl step (start, []) cs) as [d pending]. destruct Hrun as ([Ht Hf Hl Hs Hc] & H1 & H2).
  split_and!; [done|intros o Ho; rewrite <- (Hsame d) by done; by apply Hc|intros ->; unfold next_due; by rewrite Hf|].
  intros first last_ Hh Hla t. assert (next_due d = Some t) as Hn by (unfold next_due; by rewrite Hf, Hh, (Hl _ Hla)). split; [done|].
  intros now. unfold due. rewrite Hn. destruct (now <? t); [done|]. by eexists.
Qed.

Definition sample_op (source kind task summary : string) : OpFacts := mkFacts (str "todo.txt") (str source) (str kind) (str task) (str summary).

(** An agent's edit and completion of one task, the client's own op, and an edit of another. *)
Definition sample_calls : list Call :=
  [Push 1000 (sample_op "mcp" "edit_text" "t1" ""); Push 1500 (sample_op "tui" "edit_text" "t9" "");
   Push 2000 (sample_op "mcp" "set_field" "t1" "Completed = Bool(true)"); Push 2500 (sample_op "mcp" "edit_text" "t2" ""); Due 5000].

Example notice_sample :
  let d := fst (foldl step (Debouncer_new (str "tui"), []) sample_calls) in
  next_due d = Some 5500 ∧ snd (due d 5500) = Some (mkNotice (str "2 tasks changed by an agent") (str "1 completed, 1 edited, in todo.txt")).
Proof. vm_compute. split; reflexivity. Qed.

Lemma changes_told_in_time_witness :
  let '(d, pending) := foldl step (Debouncer_new (str "tui"), []) sample_calls in
  length pending = 3%nat ∧ ∀ key, db_tasks d !! key = strongest pending key.
Proof.
  pose proof (changes_told_in_time (Debouncer_new (str "tui")) sample_calls (ex_intro _ (str "tui") (or_introl eq_refl))) as H.
  assert (length (snd (foldl step (Debouncer_new (str "tui"), []) sample_calls)) = 3%nat) as Hl by (vm_compute; reflexivity).
  destruct (foldl step (Debouncer_new (str "tui"), []) sample_calls) as [d pending]. split; [exact Hl|]. exact (proj1 H).
Defined.
