(* ===== verification/Query.v ===== *)
(** Line search and the field-by-field view: [query.rs] and [breakdown.rs] of [crates/txtodo-core/src].

    Unicode lowercasing is a parameter. The theorems: a query is the conjunction of its terms, a [-] negates
    one, a task is open or done and a blank line neither; a line has fields exactly when it is not blank. *)
From S2P Require Import Prelude.
From S2P Require Import Utf8.
From S2P Require Import Types.
From S2P Require Import Scanner.
From S2P Require Import Parser.

(** ** query.rs *)

(** A lenient parse does not fail ([parse_line_lenient_total]). *)
Definition completion (raw : bytes) : option bool :=
  match parse_line raw Lenient with
  | Ok l => match kind l with LTask t => Some (completed t) | LBlank => None end
  | Err _ => None
  end.

Section lowercase.
Context (to_lowercase : bytes → bytes).

Definition positive_holds (raw hay term : bytes) : bool :=
  let lowered := to_lowercase term in
  if bool_decide (lowered = str "is:open") then bool_decide (completion raw = Some false)
  else if bool_decide (lowered = str "is:done") then bool_decide (completion raw = Some true)
  else contains_sub lowered hay.

Definition term_holds (raw hay term : bytes) : bool :=
  match strip_prefix (str "-") term with
  | Some neg => if bool_decide (neg = []) then positive_holds raw hay term else negb (positive_holds raw hay neg)
  | None => positive_holds raw hay term
  end.

Definition matches_terms (raw : bytes) (terms : list bytes) : bool :=
  let hay := to_lowercase raw in
  forallb (term_holds raw hay) terms.

Definition matches (raw query : bytes) : bool := matches_terms raw (split_whitespace query).
End lowercase.

Definition GOLDEN : list (bytes * bytes * bool) :=
  map (λ r, (str (fst (fst r)), str (snd (fst r)), snd r))
    [("(A) Call Mum @phone", "", true); ("(A) Call Mum @phone", "mum", true); ("(A) Call Mum @phone", "MUM @PHONE", true);
     ("(A) Call Mum @phone", "mum @home", false); ("(A) Call Mum @phone", "-phone", false); ("(A) Call Mum @phone", "-home", true);
     ("(A) Call Mum @phone", "-", false); ("a - b", "-", true); ("Café ÉCLAIR +bake", "éclair café", true);
     ("x 2026-09-25 file taxes +home", "is:done", true); ("x 2026-09-25 file taxes +home", "is:open", false);
     ("x 2026-09-25 file taxes +home", "-is:done", false); ("file taxes +home", "is:open +home", true);
     ("file taxes +home", "IS:DONE", false); ("xylophone lessons", "is:open", true); ("", "is:open", false); ("", "is:done", false);
     ("", "", true)]%string.

(** ** breakdown.rs *)

Definition fields (line : bytes) : list (bytes * bytes) :=
  if bool_decide (str_trim line = []) then []
  else
    match parse_line line Lenient with
    | Err _ => []
    | Ok l =>
        match kind l with
        | LBlank => []
        | LTask task =>
            let date := from_option Date_display [] in
            let joined := λ sigil words, join_with (str " ") (map (app sigil) words) in
            let listed := λ name joined, if bool_decide (joined = []) then [] else [(str name, joined)] in
            [(str "done", if completed task then str "yes" else str "no");
             (str "priority", from_option Priority_display [] (priority task));
             (str "created", date (creation_date task));
             (str "completed", date (completion_date task));
             (str "text", join_with (str " ") (plain_words task))]
            ++ listed "projects"%string (joined (str "+") (projects task)) ++ listed "contexts"%string (joined (str "@") (contexts task))
            ++ tags task
        end
    end.

(** ** Samples *)

(** Lowercasing of ASCII and of the one accented capital of the golden rows. *)
Fixpoint sample_lower (s : bytes) : bytes :=
  match s with
  | xc3 :: x89 :: rest => xc3 :: xa9 :: sample_lower rest
  | c :: rest => to_ascii_lowercase c :: sample_lower rest
  | [] => []
  end.

(** Every golden row holds. *)
Example golden_rows : forallb (λ r, Bool.eqb (matches sample_lower (fst (fst r)) (snd (fst r))) (snd r)) GOLDEN = true.
Proof. vm_compute. reflexivity. Qed.

(** The code's own tests. *)
Example fields_sample :
  fields (str "(A) 2026-10-05 call mum +home @phone due:2026-10-09 ref:mum")
  = map (λ r, (str (fst r), str (snd r)))
      [("done", "no"); ("priority", "(A)"); ("created", "2026-10-05"); ("completed", ""); ("text", "call mum"); ("projects", "+home");
       ("contexts", "@phone"); ("due", "2026-10-09"); ("ref", "mum")]%string
  ∧ fields (str "   ") = [].
Proof. vm_compute. split; reflexivity. Qed.

(** ** Words of a text *)

Lemma split_whitespace_app a b : is_utf8 a = true → is_utf8 b = true → split_whitespace (a ++ str " " ++ b) = split_whitespace a ++ split_whitespace b.
Proof.
  intros Ha Hb. unfold split_whitespace. rewrite <- map_app, <- List.filter_app. do 2 f_equal.
  assert (chars (a ++ str " " ++ b) = chars a ++ 32%N :: chars b) as ->; [|by apply split_on_app].
  rewrite <- (encode_chars a Ha) at 1. rewrite <- (encode_chars b Hb) at 1.
  replace (encode (chars a) ++ str " " ++ encode (chars b)) with (encode (chars a ++ 32%N :: chars b)) by (unfold encode; rewrite flat_map_app; reflexivity).
  apply chars_encode, Forall_app. split; [apply chars_scalar|constructor; [done|apply chars_scalar]].
Qed.

(** A single word. *)
Definition one_word (w : bytes) : Prop := is_utf8 w = true ∧ w ≠ [] ∧ Forall (λ c, char_is_whitespace c = false) (chars w).

Lemma split_whitespace_word w : one_word w → split_whitespace w = [w].
Proof.
  intros (Hu & Hne & Hw). unfold split_whitespace. rewrite split_on_none by done. cbn. rewrite bool_decide_false; cbn; [by rewrite encode_chars|].
  intros E. apply Hne. rewrite <- (encode_chars w Hu), E. done.
Qed.

Lemma one_word_minus w : one_word w → one_word (str "-" ++ w).
Proof.
  intros (Hu & Hne & Hw). split; [by apply is_utf8_app|]. split; [done|].
  assert (chars (str "-" ++ w) = 45%N :: chars w) as ->; [|by constructor].
  rewrite <- (encode_chars w Hu) at 1. apply (chars_encode (45%N :: chars w)). constructor; [done|apply chars_scalar].
Qed.

(** ** Queries *)

Lemma completion_task raw : is_Some (completion raw) ↔ raw ≠ [].
Proof.
  unfold completion, parse_line. destruct (parse_line_lenient_ok raw DEFAULT_SCHEMES) as [l Hl]. rewrite Hl.
  unfold parse_line_with_schemes in Hl. case_bool_decide as E.
  - injection Hl as <-. cbn. split; [by intros []|done].
  - destruct (p_task _) as [[t p]|e]; [|done]. injection Hl as <-. cbn. split; [done|by eexists].
Qed.

(** A query is read term by term. A query made of two holds when both do; a word after a [-] holds
    exactly when the word does not; and every line with a byte in it is either open or done, an empty one
    neither. *)
Theorem query_reads_terms (to_lowercase : bytes → bytes) (raw : bytes) :
  to_lowercase (str "is:open") = str "is:open" → to_lowercase (str "is:done") = str "is:done" →
  (∀ q1 q2, is_utf8 q1 = true → is_utf8 q2 = true →
     matches to_lowercase raw (q1 ++ str " " ++ q2) = matches to_lowercase raw q1 && matches to_lowercase raw q2)
  ∧ (∀ word, one_word word → starts_with (str "-") word = false →
       matches to_lowercase raw (str "-" ++ word) = negb (matches to_lowercase raw word))
  ∧ matches to_lowercase raw (str "is:open") && matches to_lowercase raw (str "is:done") = false
  ∧ (matches to_lowercase raw (str "is:open") || matches to_lowercase raw (str "is:done") = true ↔ raw ≠ []).
Proof.
  intros Ho Hd. assert (∀ w, one_word w → matches to_lowercase raw w = term_holds to_lowercase raw (to_lowercase raw) w) as Hone.
  { intros w Hw. unfold matches, matches_terms. rewrite split_whitespace_word by done. cbn. by rewrite andb_true_r. }
  assert (one_word (str "is:open") ∧ one_word (str "is:done")) as [? ?] by (split; (split; [reflexivity|]; split; [discriminate|]; vm_compute; repeat constructor)).
  assert (matches to_lowercase raw (str "is:open") = bool_decide (completion raw = Some false)) as Eopen.
  { rewrite Hone by done. change (term_holds ?l ?r ?h _) with (positive_holds l r h (str "is:open")). unfold positive_holds. by rewrite Ho. }
  assert (matches to_lowercase raw (str "is:done") = bool_decide (completion raw = Some true)) as Edone.
  { rewrite Hone by done. change (term_holds ?l ?r ?h _) with (positive_holds l r h (str "is:done")). unfold positive_holds. by rewrite Hd. }
  split; [|split; [|split]].
  - intros q1 q2 H1 H2. unfold matches, matches_terms. by rewrite split_whitespace_app, forallb_app.
  - intros w Hw Hm. rewrite !Hone by (try apply one_word_minus; done). destruct Hw as (_ & Hne & _). unfold term_holds at 1. cbn [strip_prefix].
    unfold term_holds, starts_with in *. apply bool_decide_eq_false in Hm. destruct (strip_prefix (str "-") w); [by destruct Hm|].
    replace (strip_prefix (str "-") (str "-" ++ w)) with (Some w) by done. cbn match. by rewrite bool_decide_false.
  - rewrite Eopen, Edone. by destruct (completion raw) as [[]|].
  - rewrite <- completion_task, Eopen, Edone. destruct (completion raw) as [[]|]; cbn; split; try done; by intros [].
Qed.

Lemma query_reads_terms_witness :
  matches (map to_ascii_lowercase) (str "(A) Call Mum") (str "mum" ++ str " " ++ str "-home") = true
  ∧ matches (map to_ascii_lowercase) (str "(A) Call Mum") (str "-mum") = negb (matches (map to_ascii_lowercase) (str "(A) Call Mum") (str "mum")).
Proof.
  destruct (query_reads_terms (map to_ascii_lowercase) (str "(A) Call Mum") eq_refl eq_refl) as (Hand & Hnot & _). split.
  - rewrite (Hand (str "mum") (str "-home")) by reflexivity. vm_compute. reflexivity.
  - apply (Hnot (str "mum")); [|reflexivity]. split; [reflexivity|]. split; [discriminate|]. vm_compute. repeat constructor.
Defined.

(** A line has fields exactly when it is not blank. *)
Lemma fields_blank line : fields line = [] ↔ str_trim line = [].
Proof.
  unfold fields. case_bool_decide as E; [done|]. assert (line ≠ []) as Hne by (intros ->; by destruct E).
  apply completion_task in Hne. revert Hne. unfold completion. destruct (parse_line line Lenient) as [l|e]; [|by intros []]. destruct (kind l); [by intros []|done].
Qed.
