(* ===== verification/Myers.v ===== *)
(** Myers' greedy diff: [myers] and [backtrack] of [crates/txtodo-core/src/diff.rs].

    The V array is a list indexed as the source indexes it, and an index out of range (a panic) or the
    [unreachable!] after the loop is [None]. The theorem: the algorithm always returns, and the steps
    it returns replay one sequence into the other. *)
From S2P Require Import Prelude.

#[local] Open Scope Z_scope.

(** A raw diff step over indices. *)
Inductive Step :=
| SKeep (i j : nat)
| SDelete (i : nat)
| SInsert (j : nat).

#[global] Instance Step_eq_dec : EqDecision Step.
Proof. solve_decision. Defined.

(** [v[i as usize]] for a signed index: out of range is a panic. *)
Definition at_index (v : list Z) (i : Z) : option Z :=
  if i <? 0 then None else v !! Z.to_nat i.

(** [v[i as usize] = x]. *)
Definition set_index (v : list Z) (i : Z) (x : Z) : option (list Z) :=
  if (i <? 0) || (Z.of_nat (length v) <=? i) then None else Some (<[Z.to_nat i := x]> v).

Section myers.
Context {T : Type} `{EqDecision T}.
Implicit Types a b : list T.

(** [while x < n && y < m && a[x] == b[y]]: each turn moves one place in both, so the length of [a]
    is enough fuel. *)
Fixpoint snake (fuel : nat) a b (x y : Z) : Z * Z :=
  match fuel with
  | O => (x, y)
  | S fuel' =>
      if (x <? Z.of_nat (length a)) && (y <? Z.of_nat (length b))
         && bool_decide (a !! Z.to_nat x = b !! Z.to_nat y)
      then snake fuel' a b (x + 1) (y + 1)
      else (x, y)
  end.

(** [k == -d || (k != d && v[k-1] < v[k+1])], with the two reads short-circuited as written. *)
Definition go_down (v : list Z) (off d k : Z) : option bool :=
  if k =? - d then Some true
  else if k =? d then Some false
  else
    l ← at_index v (k - 1 + off);
    r ← at_index v (k + 1 + off);
    Some (l <? r).

(** The body of the inner loop: the new V array and whether the end was reached. A negative [y],
    which [as usize] would wrap to a huge index, is [None] too: the theorem shows none occurs. *)
Definition myers_cell a b (off d k : Z) (v : list Z) : option (list Z * bool) :=
  down ← go_down v off d k;
  x ← (if (down : bool) then at_index v (k + 1 + off) else Z.succ <$> at_index v (k - 1 + off));
  _ ← (if x - k <? 0 then None else Some tt);
  let '(x, y) := snake (length a) a b x (x - k) in
  v' ← set_index v (k + off) x;
  Some (v', (Z.of_nat (length a) <=? x) && (Z.of_nat (length b) <=? y)).

(** [while k <= d]: [cells] more diagonals from [k] on. *)
Fixpoint myers_round a b (off d : Z) (cells : nat) (k : Z) (v : list Z) : option (list Z * bool) :=
  match cells with
  | O => Some (v, false)
  | S cells' =>
      '(v', reached) ← myers_cell a b off d k v;
      if (reached : bool) then Some (v', true) else myers_round a b off d cells' (k + 2) v'
  end.

(** The inner loop of [backtrack]: the walk back along a run of equal elements, pushed in front. *)
Fixpoint walk_back (fuel : nat) (px py x y : Z) (acc : list Step) : Z * Z * list Step :=
  match fuel with
  | O => (x, y, acc)
  | S fuel' =>
      if (px <? x) && (py <? y)
      then walk_back fuel' px py (x - 1) (y - 1) (SKeep (Z.to_nat (x - 1)) (Z.to_nat (y - 1)) :: acc)
      else (x, y, acc)
  end.

(** The outer loop: [trace] newest first, [d] the index of its head. Steps are consed, so the final
    [reverse] is already done. *)
Fixpoint backtrack_loop (off : Z) (trace : list (list Z)) (x y : Z) (acc : list Step)
    : option (Z * Z * list Step) :=
  match trace with
  | [] => Some (x, y, acc)
  | v :: trace' =>
      let d := Z.of_nat (length trace') in
      let k := x - y in
      down ← go_down v off d k;
      let prev_k := if (down : bool) then k + 1 else k - 1 in
      '(px, py) ← (if d =? 0 then Some (0, 0) else p ← at_index v (prev_k + off); Some (p, p - prev_k));
      let '(x1, y1, acc1) := walk_back (Z.to_nat x) px py x y acc in
      if 0 <? d
      then backtrack_loop off trace' px py
             ((if (down : bool) then SInsert (Z.to_nat py) else SDelete (Z.to_nat px)) :: acc1)
      else backtrack_loop off trace' x1 y1 acc1
  end.

Definition backtrack (trace : list (list Z)) (n m : nat) (off : Z) : option (list Step) :=
  snd <$> backtrack_loop off trace (Z.of_nat n) (Z.of_nat m) [].

(** [for d in 0..=max]: [rounds] more rounds from [d] on; [None] at the end is the [unreachable!]. *)
Fixpoint myers_loop a b (off : Z) (rounds : nat) (d : nat) (v : list Z) (trace : list (list Z))
    : option (list Step) :=
  match rounds with
  | O => None
  | S rounds' =>
      let trace' := v :: trace in
      '(v', reached) ← myers_round a b off (Z.of_nat d) (S d) (- Z.of_nat d) v;
      if (reached : bool) then backtrack trace' (length a) (length b) off
      else myers_loop a b off rounds' (S d) v' trace'
  end.

Definition myers a b : option (list Step) :=
  let max := (length a + length b)%nat in
  myers_loop a b (Z.of_nat max) (S max) 0 (replicate (2 * max + 2) 0) [].

(** ** The script relation *)

(** [ss] turns [a] from index [i] on into [b] from index [j] on. *)
Inductive script a b : nat → nat → list Step → Prop :=
| script_end : script a b (length a) (length b) []
| script_keep i j x ss :
    a !! i = Some x → b !! j = Some x → script a b (S i) (S j) ss → script a b i j (SKeep i j :: ss)
| script_delete i j x ss : a !! i = Some x → script a b (S i) j ss → script a b i j (SDelete i :: ss)
| script_insert i j x ss : b !! j = Some x → script a b i (S j) ss → script a b i j (SInsert j :: ss).

End myers.

Example myers_sample :
  myers (str "abcabba") (str "cbabac")
  = Some [SDelete 0; SDelete 1; SKeep 2 0; SInsert 1; SKeep 3 2; SKeep 4 3; SDelete 5; SKeep 6 4;
          SInsert 5].
Proof. by vm_compute. Qed.

(** ** Furthest points, as a recursion on the round *)

Section furthest.
Context {T : Type} `{EqDecision T} (a b : list T).
Local Abbreviation n := (Z.of_nat (length a)).
Local Abbreviation m := (Z.of_nat (length b)).

Definition slide (k x : Z) : Z := fst (snake (length a) a b x (x - k)).

(** Whether round [d] goes down into diagonal [k], given the previous round's points. *)
Definition downR (prior : Z → Z) (d k : Z) : bool :=
  (k =? - d) || (negb (k =? d) && (prior (k - 1) <? prior (k + 1))).

Definition step_into (prior : Z → Z) (d k : Z) : Z :=
  if downR prior d k then prior (k + 1) else prior (k - 1) + 1.

(** The point of round [d] on diagonal [k] (its x); before round 0 the array is zero. *)
Fixpoint R (d : nat) (k : Z) : Z :=
  slide k (step_into (match d with O => λ _, 0 | S d' => R d' end) (Z.of_nat d) k).

Definition prior (d : nat) : Z → Z := match d with O => λ _, 0 | S d' => R d' end.

(** The diagonals a round visits. *)
Definition valid (d : nat) (k : Z) : Prop := ∃ q, 0 ≤ q ≤ Z.of_nat d ∧ k = 2 * q - Z.of_nat d.

(** The diagonals a round reads. *)
Definition readable (d : nat) (k : Z) : Prop := match d with O => k = 1 | S d' => valid d' k end.

Definition reached (d : nat) (k : Z) : Prop := n ≤ R d k ∧ m ≤ R d k - k.

Lemma R_eq d k : R d k = slide k (step_into (prior d) (Z.of_nat d) k).
Proof. by destruct d. Qed.

Lemma snake_spec fuel x y x' y' :
  0 ≤ x → 0 ≤ y → snake fuel a b x y = (x', y') →
  ∃ t : nat, x' = x + Z.of_nat t ∧ y' = y + Z.of_nat t
  ∧ (∀ s : nat, (s < t)%nat → x + Z.of_nat s < n ∧ y + Z.of_nat s < m
       ∧ a !! Z.to_nat (x + Z.of_nat s) = b !! Z.to_nat (y + Z.of_nat s)).
Proof.
  revert x y. induction fuel as [|fuel IH]; intros x y Hx Hy H; simpl in H.
  { simplify_eq. exists 0%nat. split_and!; [lia|lia|]. intros; lia. }
  destruct (_ && _) eqn:E; [|simplify_eq; exists 0%nat; split_and!; [lia|lia|intros; lia]].
  rewrite !andb_true_iff, !Z.ltb_lt, bool_decide_eq_true in E. destruct E as [[E1 E2] E3].
  apply IH in H as (t & -> & -> & Ht); [|lia..]. exists (S t). split_and!; [lia|lia|].
  intros [|s] Hs; [by rewrite !Z.add_0_r|]. destruct (Ht s) as (? & ? & Hs3); [lia|].
  replace (x + Z.of_nat (S s)) with (x + 1 + Z.of_nat s) by lia.
  replace (y + Z.of_nat (S s)) with (y + 1 + Z.of_nat s) by lia. by split_and!.
Qed.

(** A slide along diagonal [k]: matches all the way, in bounds unless it does not move. *)
Lemma slide_spec k x :
  0 ≤ x → 0 ≤ x - k →
  ∃ t : nat, slide k x = x + Z.of_nat t
  ∧ (∀ s : nat, (s < t)%nat → x + Z.of_nat s < n ∧ x - k + Z.of_nat s < m
       ∧ a !! Z.to_nat (x + Z.of_nat s) = b !! Z.to_nat (x - k + Z.of_nat s)).
Proof.
  intros Hx Hy. unfold slide. destruct (snake _ _ _ _ _) as [x' y'] eqn:E.
  apply snake_spec in E as (t & -> & -> & Ht); [|done..]. by exists t.
Qed.

Lemma snake_diag fuel x y : snd (snake fuel a b x y) = fst (snake fuel a b x y) - (x - y).
Proof.
  revert x y. induction fuel as [|fuel IH]; intros x y; simpl; [lia|].
  case_match; simpl; [rewrite IH|]; lia.
Qed.

(** A round reads only what the previous one wrote. *)
Lemma downR_cases d k (pr : Z → Z) :
  valid d k →
  (downR pr (Z.of_nat d) k = true ∧ readable d (k + 1) ∧ (k = - Z.of_nat d ∨ pr (k - 1) < pr (k + 1)))
  ∨ (downR pr (Z.of_nat d) k = false ∧ readable d (k - 1) ∧ (0 < d)%nat
     ∧ (k = Z.of_nat d ∨ pr (k + 1) ≤ pr (k - 1))).
Proof.
  intros (q & Hq & Hk). unfold downR. destruct (k =? - Z.of_nat d) eqn:E1; cbn [orb]; breflect.
  { left. split; [done|]. split; [|lia]. destruct d as [|d]; cbn [readable]; [lia|]. exists q. lia. }
  destruct (k =? Z.of_nat d) eqn:E2; cbn [negb andb]; breflect.
  { right. split; [done|]. destruct d as [|d]; [lia|]. split_and!; [|lia|lia]. exists (q - 1). lia. }
  destruct d as [|d]; [lia|]. destruct (pr (k - 1) <? pr (k + 1)) eqn:E3; breflect.
  - left. split_and!; [done| |lia]. exists q. lia.
  - right. split_and!; [done| |lia|lia]. exists (q - 1). lia.
Qed.

(** The point a round steps into, before it slides. *)
Definition entry (d : nat) (k : Z) : Z := step_into (prior d) (Z.of_nat d) k.

Definition point_ok (d : nat) (k x : Z) : Prop := 0 ≤ x ∧ 0 ≤ x - k ∧ Z.of_nat d ≤ 2 * x - k.

Lemma slide_ok d k x : point_ok d k x → point_ok d k (slide k x).
Proof. intros (? & ? & ?). destruct (slide_spec k x) as (t & -> & _); [lia..|]. unfold point_ok. lia. Qed.

Lemma R_entry_ok d k : valid d k → point_ok d k (entry d k) ∧ point_ok d k (R d k).
Proof.
  rewrite R_eq. fold (entry d k). intros Hv. assert (point_ok d k (entry d k)); [|auto using slide_ok].
  revert k Hv. induction d as [|d IH]; intros k Hv; unfold entry, step_into.
  - destruct Hv as (q & ? & ->). unfold point_ok. case_match; simpl; lia.
  - assert (∀ k, valid d k → point_ok d k (R d k)) as HR.
    { intros k' Hk'. rewrite R_eq. apply slide_ok, IH, Hk'. }
    destruct (downR_cases (S d) k (prior (S d)) Hv) as [(-> & Hr & _)|(-> & Hr & _)];
      apply HR in Hr; unfold point_ok in *; simpl prior; lia.
Qed.

Lemma entry_le_R d k : valid d k → entry d k ≤ R d k.
Proof.
  intros Hv. destruct (R_entry_ok d k Hv) as [(? & ? & _) _]. rewrite R_eq.
  fold (entry d k). destruct (slide_spec k (entry d k)) as (t & -> & _); lia.
Qed.

(** Each round reaches at least as far as a step right or down from the previous one. *)
Lemma R_down d k : valid d k → R d k ≤ R (S d) (k - 1).
Proof.
  intros (q & Hq & Hk). assert (valid (S d) (k - 1)) as Hv by (exists q; lia).
  etrans; [|by apply entry_le_R]. unfold entry, step_into. simpl prior.
  destruct (downR_cases (S d) (k - 1) (R d) Hv) as [(-> & _)|(-> & _ & _ & Hc)].
  - by replace (k - 1 + 1) with k by lia.
  - replace (k - 1 + 1) with k in Hc by lia. lia.
Qed.

Lemma R_right d k : valid d k → R d k + 1 ≤ R (S d) (k + 1).
Proof.
  intros (q & Hq & Hk). assert (valid (S d) (k + 1)) as Hv by (exists (q + 1); lia).
  etrans; [|by apply entry_le_R]. unfold entry, step_into. simpl prior.
  destruct (downR_cases (S d) (k + 1) (R d) Hv) as [(-> & _ & Hc)|(-> & _)].
  - replace (k + 1 - 1) with k in Hc by lia. lia.
  - replace (k + 1 - 1) with k by lia. lia.
Qed.

Lemma valid_down d k (t : nat) : valid d k → valid (d + t) (k - Z.of_nat t).
Proof. intros (q & ? & ?). exists q. lia. Qed.
Lemma valid_right d k (t : nat) : valid d k → valid (d + t) (k + Z.of_nat t).
Proof. intros (q & ? & ?). exists (q + Z.of_nat t). lia. Qed.

Lemma R_downs d k (t : nat) : valid d k → R d k ≤ R (d + t) (k - Z.of_nat t).
Proof.
  intros Hv. induction t as [|t IH]; [by rewrite Nat.add_0_r, Z.sub_0_r|].
  etrans; [exact IH|]. etrans; [apply R_down, valid_down, Hv|].
  rewrite Nat.add_succ_r. replace (k - Z.of_nat (S t)) with (k - Z.of_nat t - 1); lia.
Qed.

Lemma R_rights d k (t : nat) : valid d k → R d k + Z.of_nat t ≤ R (d + t) (k + Z.of_nat t).
Proof.
  intros Hv. induction t as [|t IH]; [by rewrite Nat.add_0_r, !Z.add_0_r|].
  pose proof (R_right _ _ (valid_right d k t Hv)) as H.
  rewrite Nat.add_succ_r. replace (k + Z.of_nat (S t)) with (k + Z.of_nat t + 1); lia.
Qed.

(** A slide never moves a point that is past an end, and never moves one past an end. *)
Lemma slide_past k x : 0 ≤ x → 0 ≤ x - k → n < slide k x ∨ m < slide k x - k → slide k x = x.
Proof.
  intros Hx Hy H. destruct (slide_spec k x Hx Hy) as (t & E & Ht). rewrite E in *.
  destruct t as [|t]; [lia|]. destruct (Ht t) as (? & ? & _); lia.
Qed.

Lemma R_past d k : valid d k → n < R d k ∨ m < R d k - k → R d k = entry d k.
Proof.
  intros Hv H. destruct (R_entry_ok _ _ Hv) as [(? & ? & _) _].
  rewrite R_eq in *. by apply slide_past.
Qed.

(** A point past the right end got there by single steps from a point on it. *)
Lemma overshoot_right d k :
  valid d k → n < R d k →
  ∃ d0 k0, valid d0 k0 ∧ R d0 k0 = n ∧ n - k0 ≤ R d k - k
    ∧ Z.of_nat d - Z.of_nat d0 = (R d k - n) + ((R d k - k) - (n - k0)).
Proof.
  revert k. induction d as [|d IH]; intros k Hv Hover; pose proof (R_past _ _ Hv (or_introl Hover)) as E;
    rewrite E in *; unfold entry, step_into in *.
  - destruct (downR_cases 0 k (prior 0) Hv) as [(Hd & _)|(_ & _ & ? & _)]; [|lia].
    rewrite Hd in *. destruct Hv as (q & ? & ->). simpl in *. lia.
  - destruct (downR_cases (S d) k (prior (S d)) Hv) as [(Hd & Hr & _)|(Hd & Hr & _)];
      rewrite Hd in *; cbn [prior readable] in *.
    + destruct (IH _ Hr Hover) as (d0 & k0 & ? & ? & ? & ?). exists d0, k0. split_and!; auto; lia.
    + destruct (decide (n < R d (k - 1))) as [Ho|Ho].
      * destruct (IH _ Hr Ho) as (d0 & k0 & ? & ? & ? & ?). exists d0, k0. split_and!; auto; lia.
      * exists d, (k - 1). split_and!; [done|lia|lia|lia].
Qed.

(** Likewise past the bottom. *)
Lemma overshoot_down d k :
  valid d k → m < R d k - k →
  ∃ d0 k0, valid d0 k0 ∧ R d0 k0 - k0 = m ∧ m + k0 ≤ R d k
    ∧ Z.of_nat d - Z.of_nat d0 = (R d k - k - m) + (R d k - (m + k0)).
Proof.
  revert k. induction d as [|d IH]; intros k Hv Hover; pose proof (R_past _ _ Hv (or_intror Hover)) as E;
    rewrite E in *; unfold entry, step_into in *.
  - destruct (downR_cases 0 k (prior 0) Hv) as [(Hd & _)|(_ & _ & ? & _)]; [|lia].
    rewrite Hd in *. destruct Hv as (q & ? & ->). simpl in *. lia.
  - destruct (downR_cases (S d) k (prior (S d)) Hv) as [(Hd & Hr & _)|(Hd & Hr & _)];
      rewrite Hd in *; cbn [prior readable] in *.
    + destruct (decide (m < R d (k + 1) - (k + 1))) as [Ho|Ho].
      * destruct (IH _ Hr Ho) as (d0 & k0 & ? & ? & ? & ?). exists d0, k0. split_and!; auto; lia.
      * exists d, (k + 1). split_and!; [done|lia|lia|lia].
    + destruct (IH (k - 1) Hr) as (d0 & k0 & ? & ? & ? & ?); [lia|].
      exists d0, k0. split_and!; auto; lia.
Qed.

(** The first point past both ends is the corner itself. *)
Lemma reached_exact d k :
  valid d k → reached d k → (∀ d' k', (d' < d)%nat → valid d' k' → ¬ reached d' k') →
  R d k = n ∧ k = n - m.
Proof.
  intros Hv [Hn Hm] Hfirst.
  destruct (decide (n < R d k)) as [Ho|Ho].
  - destruct (overshoot_right _ _ Hv Ho) as (d0 & k0 & Hv0 & Hx & Hy & Hd). exfalso.
    apply (Hfirst (d0 + Z.to_nat (m - (n - k0)))%nat (k0 - Z.of_nat (Z.to_nat (m - (n - k0))))).
    + lia.
    + by apply valid_down.
    + pose proof (R_downs d0 k0 (Z.to_nat (m - (n - k0))) Hv0). split; lia.
  - destruct (decide (m < R d k - k)) as [Ho2|Ho2]; [|lia].
    destruct (overshoot_down _ _ Hv Ho2) as (d0 & k0 & Hv0 & Hx & Hy & Hd). exfalso.
    apply (Hfirst (d0 + Z.to_nat (n - (m + k0)))%nat (k0 + Z.of_nat (Z.to_nat (n - (m + k0))))).
    + lia.
    + by apply valid_right.
    + pose proof (R_rights d0 k0 (Z.to_nat (n - (m + k0))) Hv0). split; lia.
Qed.

(** Round [n + m] reaches the corner at the latest. *)
Lemma reached_last : valid (length a + length b) (n - m) ∧ reached (length a + length b) (n - m).
Proof.
  assert (valid (length a + length b) (n - m)) as Hv by (exists n; lia). split; [done|].
  destruct (R_entry_ok _ _ Hv) as [_ (? & ? & ?)]. split; lia.
Qed.

(** ** The loops compute those points *)

Local Abbreviation max := (length a + length b)%nat.
Local Abbreviation off := (Z.of_nat max).

(** The V array holds what round [d] reads. *)
Definition holds (v : list Z) (d : nat) : Prop :=
  length v = (2 * max + 2)%nat ∧ ∀ k, readable d k → at_index v (k + off) = Some (prior d k).

Lemma at_set v i x v' j :
  set_index v i x = Some v' → at_index v' j = if decide (i = j) then Some x else at_index v j.
Proof.
  unfold set_index, at_index. destruct (_ || _) eqn:E; [done|]. intros [= <-]. breflect.
  destruct (j <? 0) eqn:Ej; breflect; case_decide; subst; try lia; [done| |].
  - rewrite list_lookup_insert_eq; [done|lia].
  - rewrite list_lookup_insert_ne; [done|lia].
Qed.

Lemma set_index_Some v i x : 0 ≤ i < Z.of_nat (length v) → ∃ v', set_index v i x = Some v' ∧ length v' = length v.
Proof.
  intros Hi. unfold set_index. rewrite (proj2 (Z.ltb_ge _ _)), (proj2 (Z.leb_gt _ _)) by lia. simpl.
  eexists. split; [done|]. apply length_insert.
Qed.

Lemma go_down_holds v d k :
  holds v d → valid d k → go_down v off (Z.of_nat d) k = Some (downR (prior d) (Z.of_nat d) k).
Proof.
  intros [Hl Hv] Hk. unfold go_down, downR. destruct (k =? - Z.of_nat d) eqn:E1; [done|].
  destruct (k =? Z.of_nat d) eqn:E2; [done|]. destruct Hk as (q & ? & ->). breflect.
  destruct d as [|d]; [lia|].
  rewrite (Hv (2 * q - Z.of_nat (S d) - 1)) by (exists (q - 1); lia).
  rewrite (Hv (2 * q - Z.of_nat (S d) + 1)) by (exists q; lia). done.
Qed.

Lemma valid_bound d k : valid d k → - Z.of_nat d ≤ k ≤ Z.of_nat d.
Proof. intros (q & ? & ->). lia. Qed.

Definition reachedb (d : nat) (k : Z) : bool := (n <=? R d k) && (m <=? R d k - k).

Lemma reachedb_spec d k : reachedb d k = true ↔ reached d k.
Proof. unfold reachedb, reached. by rewrite andb_true_iff, !Z.leb_le. Qed.

Lemma cell_holds v d k :
  holds v d → valid d k → (d ≤ max)%nat →
  ∃ v', myers_cell a b off (Z.of_nat d) k v = Some (v', reachedb d k) ∧ length v' = length v
    ∧ ∀ j, at_index v' j = if decide (k + off = j) then Some (R d k) else at_index v j.
Proof.
  intros Hv Hk Hd. unfold myers_cell. rewrite (go_down_holds _ _ _ Hv Hk). cbn [mbind option_bind].
  pose proof (valid_bound _ _ Hk) as Hb. destruct (R_entry_ok _ _ Hk) as [(? & ? & _) _].
  assert ((if downR (prior d) (Z.of_nat d) k then at_index v (k + 1 + off)
    else Z.succ <$> at_index v (k - 1 + off)) = Some (entry d k)) as ->.
  { unfold entry, step_into. destruct (downR_cases d k (prior d) Hk) as [(-> & Hr & _)|(-> & Hr & _)];
      by rewrite (proj2 Hv _ Hr). }
  cbn [mbind option_bind]. rewrite (proj2 (Z.ltb_ge _ _)) by lia. cbn [mbind option_bind].
  pose proof (snake_diag (length a) (entry d k) (entry d k - k)) as Hs.
  destruct (snake _ _ _ _ _) as [x y] eqn:E.
  assert (x = R d k) as Hx. { rewrite R_eq. unfold slide. fold (entry d k). by rewrite E. }
  simpl in Hs. destruct (set_index_Some v (k + off) x) as (v' & Hset & Hlen).
  { rewrite (proj1 Hv). lia. }
  rewrite Hset. cbn [mbind option_bind]. exists v'. unfold reachedb. rewrite <- Hx.
  replace (x - k) with y by lia. split_and!; [done..|]. intros j. by rewrite (at_set _ _ _ _ j Hset).
Qed.

(** The rest of a round: [cells] more diagonals, the last one [d]. *)
Lemma round_holds d cells k v :
  holds v d → (d ≤ max)%nat → k + 2 * Z.of_nat cells = Z.of_nat d + 2 → (cells ≤ S d)%nat →
  (∀ k', valid d k' → k' < k → at_index v (k' + off) = Some (R d k') ∧ ¬ reached d k') →
  ∃ v' r, myers_round a b off (Z.of_nat d) cells k v = Some (v', r)
    ∧ (if (r : bool) then ∃ k', valid d k' ∧ reached d k' else
       holds v' (S d) ∧ ∀ k', valid d k' → ¬ reached d k').
Proof.
  revert k v. induction cells as [|cells IH]; intros k v Hv Hd Hk Hc Hdone.
  { exists v, false. split; [done|]. split.
    - split; [apply Hv|]. intros k' Hk'. apply Hdone; [done|]. pose proof (valid_bound _ _ Hk'). lia.
    - intros k' Hk'. apply Hdone; [done|]. pose proof (valid_bound _ _ Hk'). lia. }
  assert (valid d k) as Hvk by (exists (Z.of_nat d - Z.of_nat cells); lia).
  destruct (cell_holds _ _ _ Hv Hvk Hd) as (v' & Hcell & Hlen & Hat).
  cbn [myers_round]. rewrite Hcell. cbn [mbind option_bind].
  destruct (reachedb d k) eqn:Er.
  { exists v', true. split; [done|]. exists k. by rewrite <- reachedb_spec. }
  apply IH; [|done|lia|lia|].
  - split; [by rewrite Hlen; apply Hv|]. intros k' Hk'. rewrite Hat. case_decide; [|by apply Hv].
    exfalso. destruct Hvk as (q & ? & ?). destruct d as [|d]; simpl in Hk'; [lia|].
    destruct Hk' as (q' & ? & ?). lia.
  - intros k' Hk' Hlt. rewrite Hat. case_decide.
    + replace k' with k by lia. split; [done|]. rewrite <- reachedb_spec. congruence.
    + apply Hdone; [done|]. destruct Hvk as (q & ? & ?), Hk' as (q' & ? & ?). lia.
Qed.

(** ** Walking back *)

Local Abbreviation scriptZ := (λ x y ss, script a b (Z.to_nat x) (Z.to_nat y) ss).

Lemma walk_back_spec (t fuel : nat) px py x y acc :
  0 ≤ px ≤ x → 0 ≤ py ≤ y → px = x ∨ py = y → (t ≤ fuel)%nat →
  (∀ s : nat, (s < t)%nat → x + Z.of_nat s < n ∧ y + Z.of_nat s < m
     ∧ a !! Z.to_nat (x + Z.of_nat s) = b !! Z.to_nat (y + Z.of_nat s)) →
  scriptZ (x + Z.of_nat t) (y + Z.of_nat t) acc →
  ∃ acc', walk_back fuel px py (x + Z.of_nat t) (y + Z.of_nat t) acc = (x, y, acc') ∧ scriptZ x y acc'.
Proof.
  intros Hpx Hpy Hstop. revert fuel acc. induction t as [|t IH]; intros fuel acc Hf Hm Hs.
  - rewrite !Z.add_0_r in *. exists acc. split; [|done]. destruct fuel as [|fuel]; [done|].
    cbn [walk_back]. destruct ((px <? x) && (py <? y)) eqn:E; [|done].
    apply andb_true_iff in E. lia.
  - destruct fuel as [|fuel]; [lia|]. cbn [walk_back].
    rewrite (proj2 (Z.ltb_lt _ _)), (proj2 (Z.ltb_lt _ _)) by lia. cbn [andb].
    replace (x + Z.of_nat (S t) - 1) with (x + Z.of_nat t) by lia.
    replace (y + Z.of_nat (S t) - 1) with (y + Z.of_nat t) by lia.
    apply IH; [lia|intros; apply Hm; lia|]. destruct (Hm t) as (Hx & Hy & He); [lia|].
    destruct (lookup_lt_is_Some_2 a (Z.to_nat (x + Z.of_nat t))) as [c Hc]; [lia|].
    eapply script_keep; [exact Hc|congruence|].
    replace (S (Z.to_nat (x + Z.of_nat t))) with (Z.to_nat (x + Z.of_nat (S t))) by lia.
    by replace (S (Z.to_nat (y + Z.of_nat t))) with (Z.to_nat (y + Z.of_nat (S t))) by lia.
Qed.

Fixpoint trace_ok (trace : list (list Z)) : Prop :=
  match trace with [] => True | v :: trace' => holds v (length trace') ∧ trace_ok trace' end.

(** The last leg of the path to a point: a step from the previous round, then a slide. *)
Lemma leg d k :
  valid d k → R d k ≤ n → R d k - k ≤ m →
  ∃ t : nat, R d k = entry d k + Z.of_nat t
  ∧ (∀ s : nat, (s < t)%nat → entry d k + Z.of_nat s < n ∧ entry d k - k + Z.of_nat s < m
       ∧ a !! Z.to_nat (entry d k + Z.of_nat s) = b !! Z.to_nat (entry d k - k + Z.of_nat s)).
Proof.
  intros Hv _ _. destruct (R_entry_ok _ _ Hv) as [(? & ? & _) _].
  rewrite R_eq. fold (entry d k). by apply slide_spec.
Qed.

Lemma backtrack_holds trace v k x y acc :
  trace_ok (v :: trace) → valid (length trace) k → x = R (length trace) k → y = x - k →
  x ≤ n → y ≤ m → scriptZ x y acc →
  ∃ acc', backtrack_loop off (v :: trace) x y acc = Some (0, 0, acc') ∧ script a b 0 0 acc'.
Proof.
  revert v k x y acc. induction trace as [|v' trace IH]; intros v k x y acc Htr Hv -> -> Hx Hy Hs;
    destruct Htr as [Hvo Htr]; destruct (R_entry_ok _ _ Hv) as [(He1 & He2 & _) _];
    destruct (leg _ _ Hv Hx Hy) as (t & Ht & Hm); cbn [backtrack_loop];
    replace (R _ k - (R _ k - k)) with k by lia;
    rewrite (go_down_holds _ _ _ Hvo Hv); cbn [mbind option_bind]; rewrite Ht in *.
  - cbn [length] in *. assert (k = 0 ∧ entry 0 k = 0) as [-> He].
    { destruct (downR_cases 0 k (prior 0) Hv) as [(Hd & _)|(_ & _ & ? & _)]; [|lia].
      unfold entry, step_into. simpl in *. rewrite Hd. destruct Hv as (q & ? & ->). simpl in *. lia. }
    rewrite He in *. rewrite ?Z.sub_0_r in *.
    change (Z.of_nat 0 =? 0) with true. change (0 <? Z.of_nat 0) with false. cbn [mbind option_bind].
    destruct (walk_back_spec t (Z.to_nat (0 + Z.of_nat t)) 0 0 0 0 acc) as (acc' & -> & Hacc);
      [lia|lia|lia|lia|done|done|]. exists acc'. by split.
  - set (d := length (v' :: trace)) in *. assert (Z.of_nat d ≠ 0 ∧ 0 < Z.of_nat d) as [Hd0 Hd1] by (simpl in d; lia).
    rewrite (proj2 (Z.eqb_neq _ _) Hd0), (proj2 (Z.ltb_lt _ _) Hd1).
    unfold entry, step_into in *.
    destruct (downR_cases d k (prior d) Hv) as [(Hd & Hr & _)|(Hd & Hr & _)]; rewrite Hd in *;
      rewrite (proj2 Hvo _ Hr); cbn [mbind option_bind]; cbn [prior readable length d] in *;
      destruct (R_entry_ok _ _ Hr) as [_ (Hp1 & Hp2 & _)];
      set (p := R (length trace) _) in *.
    + destruct (walk_back_spec t (Z.to_nat (p + Z.of_nat t)) p (p - (k + 1)) p (p - k) acc)
        as (acc' & Hw & Hacc); [lia|lia|lia|lia|done| |].
      { by replace (p - k + Z.of_nat t) with (p + Z.of_nat t - k) by lia. }
      replace (p - k + Z.of_nat t) with (p + Z.of_nat t - k) in Hw by lia. rewrite Hw.
      apply (IH v' (k + 1)); [done|done|done|lia|lia|lia|].
      destruct (lookup_lt_is_Some_2 b (Z.to_nat (p - (k + 1)))) as [c Hc]; [lia|].
      eapply script_insert; [exact Hc|].
      by replace (S (Z.to_nat (p - (k + 1)))) with (Z.to_nat (p - k)) by lia.
    + destruct (walk_back_spec t (Z.to_nat (p + 1 + Z.of_nat t)) p (p - (k - 1)) (p + 1) (p + 1 - k) acc)
        as (acc' & Hw & Hacc); [lia|lia|lia|lia|done| |].
      { by replace (p + 1 - k + Z.of_nat t) with (p + 1 + Z.of_nat t - k) by lia. }
      replace (p + 1 - k + Z.of_nat t) with (p + 1 + Z.of_nat t - k) in Hw by lia. rewrite Hw.
      apply (IH v' (k - 1)); [done|done|done|lia|lia|lia|].
      destruct (lookup_lt_is_Some_2 a (Z.to_nat p)) as [c Hc]; [lia|].
      eapply script_delete; [exact Hc|].
      replace (S (Z.to_nat p)) with (Z.to_nat (p + 1)) by lia.
      by replace (Z.to_nat (p - (k - 1))) with (Z.to_nat (p + 1 - k)) by lia.
Qed.

Lemma myers_loop_spec rounds d v trace :
  trace_ok (v :: trace) → length trace = d → (rounds + d = S max)%nat →
  (∀ d' k, (d' < d)%nat → valid d' k → ¬ reached d' k) →
  ∃ ss, myers_loop a b off rounds d v trace = Some ss ∧ script a b 0 0 ss.
Proof.
  revert d v trace. induction rounds as [|rounds IH]; intros d v trace Htr Hlen Hr Hno.
  { exfalso. destruct reached_last as [Hv Hre]. eapply Hno; [|exact Hv|exact Hre]. lia. }
  destruct Htr as [Hv Htr]. rewrite Hlen in Hv.
  destruct (round_holds d (S d) (- Z.of_nat d) v Hv) as (v' & r & Hround & Hres); [lia|lia|lia| |].
  { intros k' Hk' Hlt. pose proof (valid_bound _ _ Hk'). lia. }
  cbn [myers_loop]. rewrite Hround. cbn [mbind option_bind]. destruct r.
  - destruct Hres as (k & Hvk & Hre). destruct (reached_exact _ _ Hvk Hre Hno) as [Hx Hk].
    unfold backtrack. subst d. destruct (backtrack_holds trace v k n m []) as (ss & -> & Hss);
      [done|done|done|lia|lia|lia| |by exists ss].
    rewrite !Nat2Z.id. constructor.
  - destruct Hres as [Hv' Hno']. apply IH; [|by simpl; rewrite Hlen|lia|].
    + cbn [trace_ok length]. rewrite Hlen. by split_and!.
    + intros d' k Hlt Hvk. destruct (decide (d' = d)) as [->|]; [by apply Hno'|].
      apply Hno; [lia|done].
Qed.

Lemma myers_script : ∃ ss, myers a b = Some ss ∧ script a b 0 0 ss.
Proof.
  unfold myers. apply myers_loop_spec; [|done|lia|intros; lia].
  split; [|done]. split; [by rewrite length_replicate|]. intros k ->. unfold at_index.
  rewrite (proj2 (Z.ltb_ge _ _)) by lia. apply lookup_replicate_2. lia.
Qed.
End furthest.

(** The diff always returns: no index is out of range, the corner is reached within [N+M] rounds,
    and the steps it returns are a script from the one sequence to the other, in order. *)
Theorem myers_replays {T} `{EqDecision T} (a b : list T) :
  ∃ ss, myers a b = Some ss ∧ script a b 0 0 ss.
Proof. apply myers_script. Qed.
