(* ===== verification/Diff.v ===== *)
(** Line-level and char-level diffs: [crates/txtodo-core/src/diff.rs] over the algorithm of
    [Myers.v], and the applier of [crates/txtodo-engine/src/textedit.rs].

    The theorems: applying a text diff to its source gives its target, and a line diff accounts for
    every line of both files exactly once. *)
From S2P Require Import Prelude.
From S2P Require Import Utf8.
From S2P Require Import Types.
From S2P Require Import Ulid.
From S2P Require Import Scanner.
From S2P Require Import Parser.
From S2P Require Import TodoFile.
From S2P Require Import Myers.

(** ** Text diffs *)

(** A [Delete] is addressed in the source text, an [Insert] in the target text, in chars. *)
Inductive TextEdit :=
| TInsert (at_ : nat) (text : bytes)
| TDelete (at_ len : nat).

#[global] Instance TextEdit_eq_dec : EqDecision TextEdit.
Proof. solve_decision. Defined.

(** One step of the loop of [diff_text]; the edits so far, newest first. *)
Definition diff_text_step (cb : list char) (out : list TextEdit) (s : Step) : list TextEdit :=
  match s, out with
  | SDelete i, TDelete at_ len :: out' =>
      if at_ + len =? i then TDelete at_ (len + 1) :: out' else TDelete i 1 :: out
  | SDelete i, _ => TDelete i 1 :: out
  | SInsert j, TInsert at_ text :: out' =>
      let c := default 0%N (cb !! j) in
      if at_ + char_count text =? j then TInsert at_ (text ++ encode_char c) :: out'
      else TInsert j (encode_char c) :: out
  | SInsert j, _ => TInsert j (encode_char (default 0%N (cb !! j))) :: out
  | SKeep _ _, _ => out
  end.

(** Char-level diff, merged into runs. *)
Definition diff_text (a b : bytes) : option (list TextEdit) :=
  let ca := chars a in
  let cb := chars b in
  ss ← myers ca cb;
  Some (reverse (foldl (diff_text_step cb) [] ss)).

(** ** Applying a text diff *)

Definition MAX_TEXT_EDITS : nat := Z.to_nat 10000.

Record TextEditError := mkTextEditError { te_index : nat; te_at : nat; te_len : nat }.

#[global] Instance TextEditError_eq_dec : EqDecision TextEditError.
Proof. solve_decision. Defined.

(** One edit: the source cursor and the text written so far. *)
Definition text_edit_step (src : list char) (cursor : nat) (out : list char) (e : TextEdit)
    : option (nat * list char) :=
  match e with
  | TDelete at_ len =>
      if (at_ + len <=? length src) && (cursor <=? at_)
      then Some (at_ + len, out ++ slice cursor at_ src) else None
  | TInsert at_ text =>
      if at_ <? length out then None
      else
        let keep := at_ - length out in
        if cursor + keep <=? length src
        then Some (cursor + keep, out ++ slice cursor (cursor + keep) src ++ chars text) else None
  end.

Definition edit_at (e : TextEdit) : nat := match e with TInsert a _ | TDelete a _ => a end.

Fixpoint text_edit_loop (src : list char) (index cursor : nat) (out : list char)
    (edits : list TextEdit) : result TextEditError (nat * list char) :=
  match edits with
  | [] => Ok (cursor, out)
  | e :: edits' =>
      match text_edit_step src cursor out e with
      | Some (cursor', out') => text_edit_loop src (S index) cursor' out' edits'
      | None => Err (mkTextEditError index (edit_at e) (length src))
      end
  end.

(** Applies the first [MAX_TEXT_EDITS] edits to the source; the rest of the source is kept. *)
Definition apply_text_edits_core (source : bytes) (edits : list TextEdit) : result TextEditError bytes :=
  let src := chars source in
  r ← text_edit_loop src 0 0 [] (take MAX_TEXT_EDITS edits);
  mret (encode (snd r ++ drop (fst r) src)).

Definition apply_text_edits (source : bytes) (edits : list TextEdit) : result TextEditError bytes :=
  apply_text_edits_core source edits.

Definition apply_notes_edits (source : bytes) (edits : list TextEdit) : result TextEditError bytes :=
  apply_text_edits_core source edits.

(** ** Line diffs *)

Inductive LineDiff :=
| LKeep (from to : nat)
| LInsert (to : nat)
| LDelete (from : nat)
| LChange (from to : nat)
| LMove (from to : nat).

(** How a line is matched across files. *)
Inductive Key := KId (id : Ulid) | KContent (h : N).

#[global] Instance LineDiff_eq_dec : EqDecision LineDiff.
Proof. solve_decision. Defined.
#[global] Instance Key_eq_dec : EqDecision Key.
Proof. solve_decision. Defined.

(** FNV-1a on 64 bits. *)
Definition fnv1a (bs : bytes) : N :=
  foldl (λ h c, (N.lxor h (bN c) * 0x100000001b3) mod 2 ^ 64)%N 0xcbf29ce484222325%N bs.

Definition key_of (l : OwnedLine) : Key :=
  let id :=
    r ← OwnedLine_raw l;
    line ← result_ok (parse_line r Lenient);
    match kind line with LTask t => Task_id t | LBlank => None end in
  match id with Some u => KId u | None => KContent (fnv1a (ol_bytes l)) end.

Definition line_bytes (f : File) (i : nat) : option bytes := ol_bytes <$> lines f !! i.

(** [pair_moves]: a [Delete] and an [Insert] of the same id become one [Move]. Each turn moves the
    index up or shortens the list, so the list's length is enough fuel. *)
Fixpoint pair_moves (fuel : nat) (ka kb : list Key) (i : nat) (out : list LineDiff) : list LineDiff :=
  match fuel with
  | 0 => out
  | S fuel' =>
      match out !! i with
      | None => out
      | Some (LDelete from) =>
          match ka !! from with
          | Some (KId id) =>
              match position (λ d, match d with
                                   | LInsert to => bool_decide (kb !! to = Some (KId id))
                                   | _ => false end) out with
              | Some j =>
                  match out !! j with
                  | Some (LInsert to) => pair_moves fuel' ka kb i (delete j (<[i := LMove from to]> out))
                  | _ => out
                  end
              | None => pair_moves fuel' ka kb (S i) out
              end
          | _ => pair_moves fuel' ka kb (S i) out
          end
      | Some _ => pair_moves fuel' ka kb (S i) out
      end
  end.

Definition diff_lines (a b : File) : option (list LineDiff) :=
  let ka := map key_of (lines a) in
  let kb := map key_of (lines b) in
  ss ← myers ka kb;
  let out := map (λ s, match s with
    | SKeep i j => if bool_decide (line_bytes a i = line_bytes b j) then LKeep i j else LChange i j
    | SDelete i => LDelete i
    | SInsert j => LInsert j
    end) ss in
  Some (pair_moves (length out) ka kb 0 out).

(** ** Samples *)

Example diff_text_sample :
  diff_text (str "abcdefg") (str "abXYZdeg") = Some [TDelete 2 1; TInsert 2 (str "XYZ"); TDelete 5 1]
  ∧ apply_text_edits (str "abcdefg") [TDelete 2 1; TInsert 2 (str "XYZ"); TDelete 5 1]
    = Ok (str "abXYZdeg").
Proof. by vm_compute. Qed.

Definition id_line_a := str "one id:01J9K3H5Z7Q8X2M4N6P8R0T2V4".
Definition id_line_b := str "two id:01J9K3H5Z7Q8X2M4N6P8R0T2V5".
Definition file_of (ls : list bytes) : File := parse_file (concat (map (λ l, l ++ [x0a]) ls)).

Example diff_lines_move :
  diff_lines (file_of [id_line_a; id_line_b]) (file_of [id_line_b; id_line_a])
  = Some [LMove 0 1; LKeep 1 0].
Proof. by vm_compute. Qed.

(** ** A text diff replays *)

Section replay.
Context (ca cb : list char).

(** The edits emitted so far bring the applier to [(i, j)]: what it has written plus what it still
    copies up to [i] is the first [j] chars of the target. *)
Definition at_point (out : list TextEdit) (i j : nat) : Prop :=
  ∃ cursor o, text_edit_loop ca 0 0 [] (reverse out) = Ok (cursor, o)
  ∧ cursor ≤ i ∧ i ≤ length ca ∧ o ++ slice cursor i ca = take j cb ∧ j ≤ length cb
  ∧ Forall (λ e, match e with TInsert _ text => is_utf8 text = true | _ => True end) out.

Lemma text_edit_loop_app src index cursor out es1 es2 r :
  text_edit_loop src index cursor out es1 = Ok r →
  text_edit_loop src index cursor out (es1 ++ es2)
  = text_edit_loop src (index + length es1) (fst r) (snd r) es2.
Proof.
  revert index cursor out. induction es1 as [|e es1 IH]; intros index cursor out H; simpl in *.
  { injection H as <-. by rewrite Nat.add_0_r. }
  destruct (text_edit_step _ _ _ e) as [[c o]|]; [|done]. rewrite (IH _ _ _ H).
  by rewrite Nat.add_succ_r.
Qed.

Lemma text_edit_loop_snoc_inv src index cursor out es e r :
  text_edit_loop src index cursor out (es ++ [e]) = Ok r →
  ∃ c o, text_edit_loop src index cursor out es = Ok (c, o) ∧ text_edit_step src c o e = Some r.
Proof.
  revert index cursor out. induction es as [|e' es IH]; intros index cursor out H; simpl in *.
  { destruct (text_edit_step _ _ _ e) as [[c o]|] eqn:E; [|done]. injection H as <-. eauto. }
  destruct (text_edit_step _ _ _ e') as [[c o]|]; [|done]. eauto.
Qed.

Lemma text_edit_loop_snoc src es e c o r :
  text_edit_loop src 0 0 [] es = Ok (c, o) → text_edit_step src c o e = Some r →
  text_edit_loop src 0 0 [] (es ++ [e]) = Ok r.
Proof.
  intros H He. rewrite (text_edit_loop_app _ _ _ _ _ [e] _ H). simpl. rewrite He. by destruct r.
Qed.

Lemma slice_nil {A} i (l : list A) : slice i i l = [].
Proof. unfold slice. by rewrite Nat.sub_diag. Qed.

Lemma slice_snoc {A} a i (l : list A) x : a ≤ i → l !! i = Some x → slice a (S i) l = slice a i l ++ [x].
Proof.
  intros Ha Hx. unfold slice. rewrite Nat.sub_succ_l by done.
  rewrite (take_S_r _ _ x); [done|]. rewrite lookup_drop. by replace (a + (i - a)) with i by lia.
Qed.

Lemma chars_encode_char c : is_scalar c = true → chars (encode_char c) = [c].
Proof. intros H. rewrite <- (app_nil_r (encode_char c)). apply (chars_encode [c]). by constructor. Qed.

Lemma chars_snoc text c :
  is_utf8 text = true → is_scalar c = true → chars (text ++ encode_char c) = chars text ++ [c].
Proof.
  intros Ht Hc. rewrite <- (encode_chars text Ht) at 1.
  replace (encode (chars text) ++ encode_char c) with (encode (chars text ++ [c])).
  - apply chars_encode. apply Forall_app. split; [apply chars_scalar|by constructor].
  - rewrite encode_app. f_equal. apply app_nil_r.
Qed.

Lemma is_utf8_encode_char c : is_scalar c = true → is_utf8 (encode_char c) = true.
Proof. intros H. rewrite <- (app_nil_r (encode_char c)). apply (is_utf8_encode [c]). by constructor. Qed.

Lemma point_keep out i j x :
  ca !! i = Some x → cb !! j = Some x → at_point out i j → at_point out (S i) (S j).
Proof.
  intros Ha Hb (c & o & Hl & Hc & Hi & Ho & Hj & Hu).
  pose proof (lookup_lt_Some _ _ _ Ha). pose proof (lookup_lt_Some _ _ _ Hb).
  exists c, o. split_and!; [done|lia|lia| |lia|done].
  by rewrite (slice_snoc _ _ _ _ Hc Ha), app_assoc, Ho, (take_S_r _ _ _ Hb).
Qed.

Lemma point_delete_new out i j x :
  ca !! i = Some x → at_point out i j → at_point (TDelete i 1 :: out) (S i) j.
Proof.
  intros Ha (c & o & Hl & Hc & Hi & Ho & Hj & Hu). pose proof (lookup_lt_Some _ _ _ Ha).
  exists (S i), (o ++ slice c i ca). split_and!; [|lia|lia| |done|by constructor].
  - rewrite reverse_cons. eapply text_edit_loop_snoc; [exact Hl|]. simpl.
    rewrite (proj2 (Nat.leb_le _ _)), (proj2 (Nat.leb_le _ _)) by lia. simpl. by rewrite Nat.add_1_r.
  - by rewrite slice_nil, app_nil_r.
Qed.

Lemma point_insert_new out i j x :
  cb !! j = Some x → is_scalar x = true → at_point out i j → at_point (TInsert j (encode_char x) :: out) i (S j).
Proof.
  intros Hb Hx (c & o & Hl & Hc & Hi & Ho & Hj & Hu). pose proof (lookup_lt_Some _ _ _ Hb).
  assert (length o + (i - c) = j) as Hlen.
  { apply (f_equal length) in Ho. rewrite length_app, slice_length, length_take in Ho; lia. }
  exists i, (o ++ slice c i ca ++ [x]). split_and!; [|lia|done| |lia|].
  - rewrite reverse_cons. eapply text_edit_loop_snoc; [exact Hl|]. simpl.
    rewrite (proj2 (Nat.ltb_ge _ _)) by lia. replace (c + (j - length o)) with i by lia.
    rewrite (proj2 (Nat.leb_le _ _)) by lia. by rewrite chars_encode_char.
  - by rewrite slice_nil, app_nil_r, app_assoc, Ho, (take_S_r _ _ _ Hb).
  - constructor; [by apply is_utf8_encode_char|done].
Qed.

Lemma point_step out i j s :
  (match s with
   | SKeep i' j' => i' = i ∧ j' = j ∧ ∃ x, ca !! i = Some x ∧ cb !! j = Some x
   | SDelete i' => i' = i ∧ is_Some (ca !! i)
   | SInsert j' => j' = j ∧ ∃ x, cb !! j = Some x ∧ is_scalar x = true end) →
  at_point out i j →
  at_point (diff_text_step cb out s)
    (match s with SInsert _ => i | _ => S i end) (match s with SDelete _ => j | _ => S j end).
Proof.
  destruct s as [i' j'|i'|j']; simpl.
  - intros (-> & -> & x & ? & ?). by eapply point_keep.
  - intros (-> & x & Hx) Hp. destruct out as [|[at_ t|at_ len] out]; try by eapply point_delete_new.
    destruct (at_ + len =? i) eqn:E; [|by eapply point_delete_new]. breflect.
    destruct Hp as (c & o & Hl & Hc & Hi & Ho & Hj & Hu). pose proof (lookup_lt_Some _ _ _ Hx).
    rewrite reverse_cons in Hl. apply text_edit_loop_snoc_inv in Hl as (c0 & o0 & Hl & Hs).
    simpl in Hs. destruct (_ && (c0 <=? at_)) eqn:E2 in Hs; [|done]. injection Hs as <- <-. breflect.
    exists (S i), (o0 ++ slice c0 at_ ca). split_and!; [|lia|lia| |done|by inversion Hu; constructor].
    + rewrite reverse_cons. eapply text_edit_loop_snoc; [exact Hl|]. simpl.
      rewrite (proj2 (Nat.leb_le _ _)), (proj2 (Nat.leb_le _ _)) by lia. simpl. do 3 f_equal. lia.
    + by rewrite E, slice_nil, app_nil_r in Ho; rewrite slice_nil, app_nil_r.
  - intros (-> & x & Hx & Hsc) Hp. rewrite Hx. simpl.
    destruct out as [|[at_ t|at_ len] out]; try by eapply point_insert_new.
    destruct (at_ + char_count t =? j) eqn:E; [|by eapply point_insert_new]. breflect.
    destruct Hp as (c & o & Hl & Hc & Hi & Ho & Hj & Hu). pose proof (lookup_lt_Some _ _ _ Hx).
    inversion Hu as [|? ? Hut Hu']; subst.
    rewrite reverse_cons in Hl. apply text_edit_loop_snoc_inv in Hl as (c0 & o0 & Hl & Hs).
    simpl in Hs. destruct (at_ <? length o0) eqn:E1; [done|].
    destruct (c0 + (at_ - length o0) <=? length ca) eqn:E2; [|done]. injection Hs as <- <-. breflect.
    rewrite char_count_chars in * by done.
    assert (c0 + (at_ - length o0) = i) as Hci.
    { apply (f_equal length) in Ho.
      rewrite !length_app, !slice_length, length_take in Ho by lia. lia. }
    rewrite Hci in *. rewrite slice_nil, app_nil_r in Ho.
    exists i, (o0 ++ slice c0 i ca ++ chars t ++ [x]). split_and!; [|lia|lia| |lia|].
    + rewrite reverse_cons. eapply text_edit_loop_snoc; [exact Hl|]. simpl.
      rewrite (proj2 (Nat.ltb_ge _ _)) by lia. rewrite Hci, (proj2 (Nat.leb_le _ _)) by lia.
      by rewrite chars_snoc.
    + rewrite slice_nil, app_nil_r, (take_S_r _ _ _ Hx), <- Ho. by rewrite <- !app_assoc.
    + constructor; [|done]. by apply is_utf8_app; [|apply is_utf8_encode_char].
Qed.

Lemma script_point ss i j out :
  Forall (λ c, is_scalar c = true) cb → script ca cb i j ss → at_point out i j →
  at_point (foldl (diff_text_step cb) out ss) (length ca) (length cb).
Proof.
  intros Hsc Hs. revert out. induction Hs; intros out Hp; simpl; [done|..]; apply IHHs.
  - apply (point_step out i j (SKeep i j)); [eauto 6|done].
  - apply (point_step out i j (SDelete i)); [eauto|done].
  - apply (point_step out i j (SInsert j)); [|done]. split; [done|]. exists x. split; [done|].
    rewrite Forall_lookup in Hsc. eauto.
Qed.
End replay.

(** A text diff always exists and, applied to its source, gives its target, unless it is longer
    than the cap on edits an operation carries. *)
Theorem diff_text_apply (a b : bytes) :
  is_utf8 b = true →
  ∃ edits, diff_text a b = Some edits
  ∧ (length edits ≤ MAX_TEXT_EDITS → apply_text_edits a edits = Ok b).
Proof.
  intros Hb. unfold diff_text. destruct (myers_script (chars a) (chars b)) as (ss & -> & Hs).
  simpl. eexists. split; [done|]. intros Hlen.
  destruct (script_point (chars a) (chars b) ss 0 0 [] (chars_scalar b) Hs)
    as (c & o & Hl & Hc & _ & Ho & _).
  { exists 0, []. split_and!; try done; lia. }
  unfold apply_text_edits, apply_text_edits_core. rewrite take_ge by done. rewrite Hl. simpl.
  unfold slice in Ho. rewrite firstn_all, take_ge in Ho by (rewrite length_drop; lia).
  rewrite Ho. f_equal. by apply encode_chars.
Qed.

Lemma diff_text_apply_witness :
  match diff_text (str "Call Mum") (str "call mum today") with
  | Some edits => apply_text_edits (str "Call Mum") edits = Ok (str "call mum today")
  | None => False
  end.
Proof.
  destruct (diff_text_apply (str "Call Mum") (str "call mum today")) as (es & E & H).
  { vm_compute. reflexivity. }
  rewrite E. apply H. vm_compute in E. injection E as <-. apply Nat.leb_le. vm_compute. reflexivity.
Defined.

(** ** A line diff accounts for every line *)

(** The lines of [a], and of [b], a step speaks about. *)
Definition froms (d : LineDiff) : list nat :=
  match d with LKeep f _ | LDelete f | LChange f _ | LMove f _ => [f] | LInsert _ => [] end.
Definition tos (d : LineDiff) : list nat :=
  match d with LKeep _ t | LInsert t | LChange _ t | LMove _ t => [t] | LDelete _ => [] end.

(** What a step claims about the lines it pairs. *)
Definition diff_ok (a b : File) (d : LineDiff) : Prop :=
  match d with
  | LKeep f t => is_Some (line_bytes a f) ∧ line_bytes a f = line_bytes b t
  | LChange f t =>
      key_of <$> lines a !! f = key_of <$> lines b !! t ∧ line_bytes a f ≠ line_bytes b t
  | LMove f t => ∃ id, key_of <$> lines a !! f = Some (KId id) ∧ key_of <$> lines b !! t = Some (KId id)
  | LInsert _ | LDelete _ => True
  end.

Lemma flat_map_Permutation {A B} (g : A → list B) l1 l2 : l1 ≡ₚ l2 → flat_map g l1 ≡ₚ flat_map g l2.
Proof.
  induction 1; simpl; [done|by f_equiv| |by etrans].
  rewrite !(assoc_L (++)). by rewrite (Permutation_app_comm (g y)).
Qed.

(** One pairing: the delete becomes a move and the insert goes. *)
Lemma pair_one {B} (g : LineDiff → list B) out i j x y z :
  i ≠ j → out !! i = Some x → out !! j = Some y →
  g y ++ flat_map g (delete j (<[i := z]> out)) ≡ₚ g z ++ flat_map g (delete i out)
  ∧ flat_map g out ≡ₚ g x ++ flat_map g (delete i out).
Proof.
  intros Hne Hx Hy. split; [|by apply (flat_map_Permutation g _ (x :: delete i out)), delete_Permutation].
  assert (<[i:=z]> out !! j = Some y) as Hj by by rewrite list_lookup_insert_ne.
  apply delete_Permutation, (flat_map_Permutation g) in Hj. simpl in Hj. rewrite <- Hj.
  assert (<[i:=z]> out !! i = Some z) as Hi by (apply list_lookup_insert_eq; by eapply lookup_lt_Some).
  apply delete_Permutation, (flat_map_Permutation g) in Hi. simpl in Hi. rewrite Hi.
  rewrite !delete_take_drop. f_equiv.
  pose proof (lookup_lt_Some _ _ _ Hx). rewrite take_insert_ge, drop_insert_lt by lia. done.
Qed.

Lemma elem_of_delete_insert {A} (out : list A) i j z d :
  d ∈ delete j (<[i := z]> out) → d = z ∨ d ∈ out.
Proof.
  intros H. assert (d ∈ <[i := z]> out) as H'.
  { generalize dependent (<[i := z]> out). intros l H. rewrite delete_take_drop in H.
    rewrite <- (take_drop j l). apply elem_of_app in H as [H|H]; apply elem_of_app; [by left|right].
    destruct (l !! j) as [y|] eqn:E; [rewrite (drop_S _ _ _ E); apply elem_of_cons; by right|].
    apply lookup_ge_None in E. rewrite drop_ge in H by lia. by apply elem_of_nil in H. }
  apply list_elem_of_lookup in H' as [k Hk]. destruct (decide (k = i)) as [->|].
  - left. destruct (decide (i < length out)).
    + rewrite list_lookup_insert_eq in Hk by done. congruence.
    + apply lookup_lt_Some in Hk. rewrite length_insert in Hk. lia.
  - right. rewrite list_lookup_insert_ne in Hk by done. by eapply list_elem_of_lookup_2.
Qed.

Lemma pair_moves_ok a b fuel i out :
  Forall (diff_ok a b) out →
  let out' := pair_moves fuel (map key_of (lines a)) (map key_of (lines b)) i out in
  Forall (diff_ok a b) out' ∧ flat_map froms out' ≡ₚ flat_map froms out
  ∧ flat_map tos out' ≡ₚ flat_map tos out.
Proof.
  change (map key_of) with (fmap (M:=list) key_of).
  revert i out. induction fuel as [|fuel IH]; intros i out Hok; cbn [pair_moves]; [done|].
  destruct (out !! i) as [[| |from| |]|] eqn:Hi; auto.
  destruct ((key_of <$> lines a) !! from) as [[id|h]|] eqn:Hka; auto.
  destruct (position _ out) as [j|] eqn:Hp; auto.
  apply position_spec in Hp as (l1 & x & l2 & Hout & Hj & Hx & _).
  assert (out !! j = Some x) as Hxj by (by rewrite Hout, <- Hj, list_lookup_middle).
  rewrite Hxj. destruct x as [|to| | |]; auto. apply bool_decide_eq_true in Hx.
  assert (i ≠ j) as Hne by congruence.
  assert (diff_ok a b (LMove from to)) as Hmove.
  { exists id. by rewrite <- !list_lookup_fmap. }
  destruct (IH i (delete j (<[i:=LMove from to]> out))) as (H1 & H2 & H3).
  { rewrite Forall_forall in *. intros d [->|Hd]%elem_of_delete_insert; auto. }
  split; [exact H1|]. cbn zeta in *. rewrite H2, H3.
  destruct (pair_one froms out i j _ _ (LMove from to) Hne Hi Hxj) as [P1 P2].
  destruct (pair_one tos out i j _ _ (LMove from to) Hne Hi Hxj) as [P3 P4].
  simpl in P1, P2, P3, P4. split; [by rewrite P1, P2|]. rewrite P4. by apply Permutation_cons_inv in P3.
Qed.

Lemma script_accounts {T} (ka kb : list T) i j ss :
  script ka kb i j ss →
  i ≤ length ka ∧ j ≤ length kb ∧
  ∀ f : Step → LineDiff,
    (∀ i j, froms (f (SKeep i j)) = [i] ∧ tos (f (SKeep i j)) = [j]) →
    (∀ i, f (SDelete i) = LDelete i) → (∀ j, f (SInsert j) = LInsert j) →
    flat_map froms (map f ss) = seq i (length ka - i) ∧ flat_map tos (map f ss) = seq j (length kb - j).
Proof.
  induction 1 as [|i j x ss Ha Hb H (Hi & Hj & IH)|i j x ss Ha H (Hi & Hj & IH)|i j x ss Hb H (Hi & Hj & IH)].
  - split_and!; [done..|]. intros f _ _ _. by rewrite !Nat.sub_diag.
  - split_and!; [lia..|]. intros f Hk Hd Hin. destruct (IH f Hk Hd Hin) as [IH1 IH2].
    destruct (Hk i j) as [Hf Ht]. cbn [map flat_map]. rewrite Hf, Ht, IH1, IH2.
    replace (length ka - i) with (S (length ka - S i)) by lia.
    by replace (length kb - j) with (S (length kb - S j)) by lia.
  - split_and!; [lia..|]. intros f Hk Hd Hin. destruct (IH f Hk Hd Hin) as [IH1 IH2].
    cbn [map flat_map]. rewrite Hd, IH1, IH2. simpl.
    by replace (length ka - i) with (S (length ka - S i)) by lia.
  - split_and!; [lia..|]. intros f Hk Hd Hin. destruct (IH f Hk Hd Hin) as [IH1 IH2].
    cbn [map flat_map]. rewrite Hin, IH1, IH2. simpl.
    by replace (length kb - j) with (S (length kb - S j)) by lia.
Qed.

Lemma script_keeps {T} (ka kb : list T) i j ss s :
  script ka kb i j ss → s ∈ ss →
  match s with SKeep i' j' => ∃ x, ka !! i' = Some x ∧ kb !! j' = Some x | _ => True end.
Proof.
  intros H. revert s. induction H as [|i j x ss Ha Hb _ IH|i j x ss Ha _ IH|i j x ss Hb _ IH]; intros s.
  { by intros ?%elem_of_nil. }
  all: intros [->|Hin]%elem_of_cons; [|by apply IH]. all: [> by eexists|done..].
Qed.

Lemma diff_lines_spec (a b : File) :
  ∃ ds, diff_lines a b = Some ds
  ∧ flat_map froms ds ≡ₚ seq 0 (length (lines a)) ∧ flat_map tos ds ≡ₚ seq 0 (length (lines b))
  ∧ Forall (diff_ok a b) ds.
Proof.
  unfold diff_lines. destruct (myers_script (map key_of (lines a)) (map key_of (lines b))) as (ss & -> & Hs).
  cbn [mbind option_bind]. eexists. split; [done|].
  set (f := λ s, match s with
    | SKeep i j => if bool_decide (line_bytes a i = line_bytes b j) then LKeep i j else LChange i j
    | SDelete i => LDelete i | SInsert j => LInsert j end).
  destruct (script_accounts _ _ _ _ _ Hs) as (_ & _ & Hacc).
  destruct (Hacc f) as [Hf Ht]; [|done|done|].
  { intros i j. simpl. by case_bool_decide. }
  assert (Forall (diff_ok a b) (map f ss)) as Hok.
  { apply Forall_forall. intros d Hd. apply list_elem_of_In, in_map_iff in Hd as (s & <- & Hin).
    apply list_elem_of_In, (script_keeps _ _ _ _ _ _ Hs) in Hin. destruct s as [i j| |]; simpl; [|done..].
    destruct Hin as (x & Hx & Hy). change (map key_of) with (fmap (M:=list) key_of) in *.
    rewrite list_lookup_fmap in Hx, Hy. case_bool_decide as Hb; simpl.
    - split; [|done]. unfold line_bytes. destruct (lines a !! i); [by eexists|done].
    - by rewrite Hx, Hy. }
  destruct (pair_moves_ok a b (length (map f ss)) 0 _ Hok) as (H1 & H2 & H3).
  rewrite length_map, Nat.sub_0_r in Hf, Ht. rewrite Hf in H2. rewrite Ht in H3. by split_and!.
Qed.

(** A line diff always exists and accounts for every line of both files exactly once; what it
    keeps is byte-identical, what it calls changed shares a key but not its bytes, and what it calls
    moved has the same id on both sides. *)
Theorem diff_lines_accounts (a b : File) :
  ∃ ds, diff_lines a b = Some ds
  ∧ flat_map froms ds ≡ₚ seq 0 (length (lines a)) ∧ flat_map tos ds ≡ₚ seq 0 (length (lines b))
  ∧ Forall (diff_ok a b) ds.
Proof. apply diff_lines_spec. Qed.
