(* ===== verification/Merge3.v ===== *)
(** The three-way merge of [crates/txtodo-core/src/merge3.rs], line by line.

    Lines are compared by their exact text. The theorems: the result holds, of every distinct line,
    exactly the number of copies the module promises; the set of lines does not depend on whose side
    is ours; and a side that theirs left unchanged is returned as it was. The text [merge3] writes has
    those lines, but for a blank last line when neither side ends in a newline ([blank_end]). *)
From S2P Require Import Prelude.

Abbreviation Counts := (gmap bytes nat).

Definition count_in (m : Counts) (line : bytes) : nat := default 0 (m !! line).

Definition counts (ls : list bytes) : Counts :=
  foldl (λ m line, <[line := count_in m line + 1]> m) ∅ ls.

(** [text.split('\n')], one trailing newline not counting as a last empty line. *)
Definition merge_lines (text : bytes) : list bytes :=
  let body := default text (strip_suffix [x0a] text) in
  if bool_decide (body = []) && bool_decide (text = []) then []
  else split_on (λ c, bool_decide (c = x0a)) body.

(** The text of the merged lines, ending in a newline when either side's file did. *)
Definition merge_join (out : list bytes) (ours theirs : bytes) : bytes :=
  if bool_decide (out = []) then []
  else join_with [x0a] out ++ (if ends_with [x0a] ours || ends_with [x0a] theirs then [x0a] else []).

(** How many copies of a line the result wants. *)
Definition want (nb no nt : Counts) (line : bytes) : nat :=
  let b := count_in nb line in
  let o := count_in no line in
  let t := count_in nt line in
  let deleted := Nat.max (b - o) (b - t) in
  let added := Nat.max (o - b) (t - b) in
  (b - Nat.min deleted b) + added.

(** The first loop: ours in its order, up to the copies wanted. *)
Definition take_ours (w : bytes → nat) (o : list bytes) : list bytes * Counts :=
  foldl (λ '(out, taken) line,
    let used := count_in taken line in
    if used <? w line then (out ++ [line], <[line := used + 1]> taken)
    else (out, <[line := used]> taken)) ([], ∅) o.

(** The copies theirs must supply. *)
Definition owed_of (w : bytes → nat) (nt taken : Counts) : Counts :=
  map_imap (λ line _,
    let missing := w line - count_in taken line in
    if 0 <? missing then Some missing else None) nt.

(** Which copies of each owed line are extra, counting from the end of theirs. *)
Definition mark_extra (owed : Counts) (theirs : list bytes) : list bool :=
  snd (foldr (λ line '(from_end, extra),
    let seen := count_in from_end line in
    (<[line := seen + 1]> from_end, (seen <? count_in owed line) :: extra)) (∅ : Counts, []) theirs).

(** The second loop: an extra line goes right after the last line placed or found. *)
Definition place_theirs (out : list bytes) (theirs : list (bytes * bool)) : list bytes * option nat :=
  foldl (λ '(out, after) '(line, extra),
    if (extra : bool) then
      let n := match after with Some a => a + 1 | None => 0 end in
      (insert_at n line out, Some n)
    else
      match rposition (λ l, bool_decide (l = line)) out with
      | Some pos => (out, Some pos)
      | None => (out, after)
      end) (out, None) theirs.

Definition insert_theirs (out theirs : list bytes) (owed : Counts) : list bytes :=
  fst (place_theirs out (zip theirs (mark_extra owed theirs))).

(** The merge on lines. *)
Definition merge3_lines (b o t : list bytes) : list bytes :=
  let w := want (counts b) (counts o) (counts t) in
  let '(out, taken) := take_ours w o in
  insert_theirs out t (owed_of w (counts t) taken).

Definition merge3 (base ours theirs : bytes) : bytes :=
  merge_join (merge3_lines (merge_lines base) (merge_lines ours) (merge_lines theirs)) ours theirs.

(** ** Samples *)

Definition text_of (ls : list bytes) : bytes := concat (map (λ l, l ++ [x0a]) ls).

Example merge3_edits_both_stay :
  merge3 (text_of [str "a"; str "b"; str "c"]) (text_of [str "a"; str "b1"; str "c"])
    (text_of [str "a"; str "b2"; str "c"; str "d"])
  = text_of [str "a"; str "b2"; str "b1"; str "c"; str "d"].
Proof. by vm_compute. Qed.

(** The order follows ours even when ours is the unchanged side. *)
Example merge3_theirs_reordered :
  merge3 (text_of [str "a"; str "b"]) (text_of [str "a"; str "b"]) (text_of [str "b"; str "a"])
  = text_of [str "a"; str "b"].
Proof. by vm_compute. Qed.

(** ** Counting *)

(** The copies of a line in a list of lines. *)
Definition copies (line : bytes) (ls : list bytes) : nat :=
  length (List.filter (λ l, bool_decide (l = line)) ls).

Lemma copies_app line l1 l2 : copies line (l1 ++ l2) = copies line l1 + copies line l2.
Proof. unfold copies. by rewrite List.filter_app, length_app. Qed.

Lemma copies_cons line l ls : copies line (l :: ls) = (if bool_decide (l = line) then 1 else 0) + copies line ls.
Proof. unfold copies. simpl. by case_bool_decide. Qed.

Lemma count_in_insert m k n line : count_in (<[k := n]> m) line = if bool_decide (k = line) then n else count_in m line.
Proof.
  unfold count_in. case_bool_decide as H; [subst; by rewrite lookup_insert_eq|by rewrite lookup_insert_ne].
Qed.

Lemma counts_spec ls line : count_in (counts ls) line = copies line ls.
Proof.
  unfold counts. assert (∀ m, count_in (foldl (λ m line, <[line := count_in m line + 1]> m) m ls) line
    = count_in m line + copies line ls) as ->; [|done].
  induction ls as [|l ls IH]; intros m; simpl; [unfold copies; simpl; lia|].
  rewrite IH, copies_cons, count_in_insert. case_bool_decide; subst; lia.
Qed.

Lemma take_ours_spec w o :
  let '(out, taken) := take_ours w o in
  sublist out o
  ∧ ∀ line, copies line out = Nat.min (w line) (copies line o) ∧ count_in taken line = copies line out.
Proof.
  unfold take_ours. induction o as [|l o IH] using rev_ind; simpl.
  { split; [done|]. intros line. unfold copies; simpl. split; [lia|done]. }
  rewrite foldl_app. simpl. destruct (foldl _ _ o) as [out taken]. destruct IH as [IHs IH].
  destruct (IH l) as [Hl Hu]. destruct (count_in taken l <? w l) eqn:E; breflect.
  - split; [by apply sublist_app|]. intros line. destruct (IH line) as [H1 H2].
    rewrite !copies_app, !copies_cons, count_in_insert. unfold copies at 2 4 6. simpl.
    case_bool_decide; subst; lia.
  - split; [by apply sublist_inserts_r|]. intros line. destruct (IH line) as [H1 H2].
    rewrite !copies_app, !copies_cons, count_in_insert. unfold copies at 3. simpl.
    case_bool_decide; subst; lia.
Qed.

Lemma owed_spec w t taken line :
  count_in (owed_of w (counts t) taken) line =
    if bool_decide (copies line t = 0) then 0 else w line - count_in taken line.
Proof.
  unfold count_in at 1, owed_of. rewrite map_lookup_imap.
  pose proof (counts_spec t line) as Hc. unfold count_in in Hc.
  destruct (counts t !! line) as [n|] eqn:E; simpl in *.
  - assert (n ≠ 0) as Hn.
    { clear -E. revert E. unfold counts.
      assert (∀ m : Counts, (∀ k n, m !! k = Some n → n ≠ 0) →
        ∀ k n, foldl (λ m line, <[line := count_in m line + 1]> m) m t !! k = Some n → n ≠ 0) as H.
      { induction t as [|l t IH]; simpl; [done|]. intros m Hm. apply IH. intros k n'.
        rewrite lookup_insert_Some. intros [[_ <-]|[_ H]]; [lia|by eapply Hm]. }
      apply H. intros k n'. by rewrite lookup_empty. }
    rewrite bool_decide_eq_false_2 by lia. destruct (0 <? _) eqn:Ez; breflect; simpl; lia.
  - by rewrite bool_decide_eq_true_2.
Qed.

Lemma copies_pos line ls : 0 < copies line ls ↔ line ∈ ls.
Proof.
  induction ls as [|l ls IH]; [unfold copies; cbn; split; [lia|by intros ?%elem_of_nil]|].
  rewrite copies_cons, elem_of_cons, <- IH. case_bool_decide; subst; naive_solver lia.
Qed.

(** The extra copies of a line among marked lines. *)
Definition extras (line : bytes) (ls : list (bytes * bool)) : nat :=
  length (List.filter (λ le, bool_decide (fst le = line) && snd le) ls).

Lemma mark_extra_spec owed t line :
  length (mark_extra owed t) = length t
  ∧ extras line (zip t (mark_extra owed t)) = Nat.min (count_in owed line) (copies line t).
Proof.
  unfold mark_extra. enough (∀ r, foldr (λ line '(from_end, extra),
    let seen := count_in from_end line in
    (<[line := seen + 1]> from_end, (seen <? count_in owed line) :: extra)) (∅ : Counts, []) t = r →
    length (snd r) = length t ∧ count_in (fst r) line = copies line t
    ∧ extras line (zip t (snd r)) = Nat.min (count_in owed line) (copies line t)) as H.
  { destruct (H _ eq_refl) as (? & ? & ?). by split. }
  induction t as [|l t IH]; intros r <-; simpl.
  { unfold copies, extras; simpl. split_and!; [done|done|lia]. }
  destruct (foldr _ _ t) as [m ex]. destruct (IH _ eq_refl) as (H1 & H2 & H3). simpl in *.
  rewrite H1, count_in_insert, copies_cons. split_and!; [done|case_bool_decide; subst; lia|].
  unfold extras in *. simpl. case_bool_decide as Hl; simpl; [subst l|exact H3].
  destruct (count_in m line <? count_in owed line) eqn:E; simpl; rewrite H3; breflect; lia.
Qed.

Lemma copies_insert_at n x l line :
  copies line (insert_at n x l) = (if bool_decide (x = line) then 1 else 0) + copies line l.
Proof.
  unfold insert_at. rewrite copies_app, copies_cons.
  rewrite <- (take_drop n l) at 3. rewrite copies_app. lia.
Qed.

Lemma place_theirs_spec out ls :
  sublist out (fst (place_theirs out ls))
  ∧ ∀ line, copies line (fst (place_theirs out ls)) = copies line out + extras line ls.
Proof.
  unfold place_theirs. induction ls as [|[l e] ls IH] using rev_ind; simpl.
  { split; [done|]. intros line. unfold extras; simpl. lia. }
  rewrite foldl_app. destruct (foldl _ _ ls) as [o after]. destruct IH as [IHs IH]. simpl in *.
  assert (∀ line, extras line (ls ++ [(l, e)]) =
    extras line ls + (if bool_decide (l = line) && e then 1 else 0)) as Hex.
  { intros line. unfold extras. rewrite List.filter_app, length_app. simpl. by case_match. }
  destruct e; simpl.
  - split; [etrans; [exact IHs|apply insert_at_sublist]|]. intros line.
    rewrite Hex, copies_insert_at, IH, andb_true_r. lia.
  - assert (∀ line, copies line o = copies line out + extras line (ls ++ [(l, false)])) as H.
    { intros line. rewrite Hex, IH, andb_false_r. lia. }
    by destruct (rposition _ o).
Qed.

Lemma merge3_lines_spec b o t :
  (∃ kept, sublist kept o ∧ sublist kept (merge3_lines b o t)
     ∧ ∀ line, copies line kept = Nat.min (want (counts b) (counts o) (counts t) line) (copies line o))
  ∧ ∀ line, copies line (merge3_lines b o t) = want (counts b) (counts o) (counts t) line.
Proof.
  unfold merge3_lines. set (w := want _ _ _). pose proof (take_ours_spec w o) as Ho.
  destruct (take_ours w o) as [out taken]. destruct Ho as [Hs Ho]. unfold insert_theirs.
  set (owed := owed_of w (counts t) taken).
  destruct (place_theirs_spec out (zip t (mark_extra owed t))) as [Hsub Hc]. split.
  { exists out. split_and!; [done|done|]. intros line. by destruct (Ho line). }
  intros line. destruct (Ho line) as [H1 H2]. destruct (mark_extra_spec owed t line) as [_ He].
  rewrite Hc, He, H1. unfold owed. rewrite owed_spec, H2, H1.
  assert (w line ≤ Nat.max (copies line o) (copies line t)) as Hw.
  { unfold w, want. rewrite !counts_spec. lia. }
  case_bool_decide; lia.
Qed.

(** ** The merged text's lines *)

Abbreviation is_newline := (λ c, bool_decide (c = x0a)).
Definition one_piece (l : bytes) : Prop := Forall (λ c, is_newline c = false) l.

Lemma split_pieces s : Forall one_piece (split_on is_newline s).
Proof.
  induction s as [|c s IH]; cbn; [by repeat constructor|]. destruct (bool_decide (c = x0a)) eqn:Hc; [constructor; [constructor|done]|].
  destruct (split_on _ s) as [|w ws]; [by repeat constructor|]. apply Forall_cons in IH as [Hw Hws]. by repeat constructor.
Qed.

Lemma merge_lines_pieces s : Forall one_piece (merge_lines s).
Proof. unfold merge_lines. destruct (_ && _); [constructor|apply split_pieces]. Qed.

Lemma split_join out : Forall one_piece out → out ≠ [] → split_on is_newline (join_with [x0a] out) = out.
Proof.
  induction 1 as [|l out Hl Ho IH]; [done|]. intros _. destruct out as [|l' out]; [by apply split_on_none|].
  change (join_with [x0a] (l :: l' :: out)) with (l ++ x0a :: join_with [x0a] (l' :: out)). rewrite split_on_app, split_on_none by done. by rewrite IH.
Qed.

Lemma join_with_last out l : join_with [x0a] (out ++ [l]) = match out with [] => l | _ => join_with [x0a] out ++ [x0a] ++ l end.
Proof.
  induction out as [|x out IH]; [done|]. destruct out as [|y out]; [done|]. cbn [app join_with] in *. rewrite IH. by rewrite <- app_assoc.
Qed.

(** A last line that is blank, in a file that ends in no newline, reads as the newline before it. *)
Definition blank_end (out : list bytes) (ours theirs : bytes) : bool :=
  negb (ends_with [x0a] ours || ends_with [x0a] theirs) && bool_decide (last out = Some []).

Lemma merge_join_reads out ours theirs :
  Forall one_piece out →
  merge_lines (merge_join out ours theirs) = if blank_end out ours theirs then removelast out else out.
Proof.
  intros Ho. unfold merge_join, blank_end. case_bool_decide as En; [subst out; by rewrite bool_decide_eq_false_2, andb_false_r by done|].
  unfold merge_lines. destruct (_ || _); cbn [negb andb].
  - rewrite (proj2 (strip_suffix_spec [x0a] _ _) eq_refl). cbn [default from_option id]. unfold id.
    rewrite (bool_decide_eq_false_2 (_ ++ [x0a] = [])) by (by destruct (join_with _ _)). rewrite andb_false_r. by apply split_join.
  - rewrite app_nil_r. destruct out as [|l out _] using rev_ind; [done|]. rewrite last_snoc, removelast_last.
    apply Forall_app in Ho as [Ho Hl]. apply Forall_cons in Hl as [Hl _]. destruct l as [|c l _] using rev_ind.
    + rewrite (bool_decide_eq_true_2 (Some [] = Some [])) by done. rewrite join_with_last. destruct out as [|x out]; [done|].
      rewrite app_nil_r, (proj2 (strip_suffix_spec [x0a] _ _) eq_refl). cbn [default from_option id]. unfold id.
      rewrite (bool_decide_eq_false_2 (_ ++ [x0a] = [])) by (by destruct (join_with _ _)). rewrite andb_false_r. by apply split_join.
    + rewrite (bool_decide_eq_false_2 (Some _ = Some _)) by (intros [= E]; by destruct l).
      assert (∃ r, join_with [x0a] (out ++ [l ++ [c]]) = r ++ [c]) as [r Hr].
      { rewrite join_with_last. destruct out as [|x out]; [by exists l|]. exists (join_with [x0a] (x :: out) ++ [x0a] ++ l). by rewrite <- !app_assoc. }
      assert (strip_suffix [x0a] (r ++ [c]) = None) as Hs.
      { destruct (strip_suffix _ _) as [r'|] eqn:E; [|done]. apply strip_suffix_spec in E. apply app_inj_tail in E as [_ ->].
        apply Forall_app in Hl as [_ Hl]. apply Forall_cons in Hl as [Hl _]. done. }
      rewrite Hr, Hs. cbn [default from_option id]. rewrite (bool_decide_eq_false_2 (r ++ [c] = [])) by (by destruct r). cbn [andb].
      rewrite <- Hr. apply split_join; [apply Forall_app; split; [done|by constructor]|by destruct out].
Qed.

Lemma merge3_lines_pieces b o t : Forall one_piece o → Forall one_piece t → Forall one_piece (merge3_lines b o t).
Proof.
  intros Ho Ht. apply Forall_forall. intros l Hl. destruct (merge3_lines_spec b o t) as [_ Hc]. specialize (Hc l).
  assert (0 < copies l (merge3_lines b o t)) as Hpos by (by apply copies_pos).
  assert (l ∈ o ∨ l ∈ t) as [Hin|Hin]; [|by rewrite Forall_forall in Ho; apply Ho|by rewrite Forall_forall in Ht; apply Ht].
  rewrite <- !copies_pos. unfold want in Hc. rewrite !counts_spec in Hc. lia.
Qed.

Lemma copies_blank_end out ours theirs line :
  copies line (if blank_end out ours theirs then removelast out else out)
  = copies line out - (if blank_end out ours theirs && bool_decide (line = []) then 1 else 0).
Proof.
  destruct (blank_end out ours theirs) eqn:E; cbn [andb]; [|lia]. unfold blank_end in E. apply andb_true_iff in E as [_ E%bool_decide_eq_true].
  destruct out as [|l out _] using rev_ind; [done|]. rewrite last_snoc in E. injection E as ->. rewrite removelast_last, copies_app, copies_cons.
  unfold copies at 3. cbn. rewrite (bool_decide_ext (line = []) ([] = line)) by done. case_bool_decide; lia.
Qed.

Definition nonblank (ls : list bytes) : list bytes := List.filter (λ l, negb (bool_decide (l = []))) ls.

Lemma nonblank_sublist l1 l2 : sublist l1 l2 → sublist (nonblank l1) (nonblank l2).
Proof. unfold nonblank. induction 1 as [|x l1 l2 _ IH|x l1 l2 _ IH]; cbn; [done| |]; case_bool_decide; cbn; first [done|by constructor]. Qed.

Lemma nonblank_le ls : sublist (nonblank ls) ls.
Proof. unfold nonblank. induction ls as [|l ls IH]; cbn; [done|]. case_bool_decide; cbn; first [done|by constructor]. Qed.

Lemma copies_nonblank line ls : line ≠ [] → copies line (nonblank ls) = copies line ls.
Proof.
  intros Hl. unfold nonblank. induction ls as [|l ls IH]; [done|]. cbn [List.filter]. rewrite copies_cons, <- IH.
  case_bool_decide; cbn [negb]; [|by rewrite copies_cons]. subst l. by rewrite bool_decide_eq_false_2.
Qed.

Lemma nonblank_blank_end out ours theirs : nonblank (if blank_end out ours theirs then removelast out else out) = nonblank out.
Proof.
  destruct (blank_end out ours theirs) eqn:E; [|done]. unfold blank_end in E. apply andb_true_iff in E as [_ E%bool_decide_eq_true].
  destruct out as [|l out _] using rev_ind; [done|]. rewrite last_snoc in E. injection E as ->.
  unfold nonblank. by rewrite removelast_last, List.filter_app, app_nil_r.
Qed.

(** The copies of a line the module promises, of [b], [o] and [t] copies in the base, ours and theirs. *)
Definition promised (b o t : nat) : nat := (b - Nat.max (b - o) (b - t)) + Nat.max (o - b) (t - b).

(** C39. A merged text never loses a line: of every line, with [b], [o] and [t] copies in the base, ours
    and theirs, it has [b - max(b - o, b - t) + max(o - b, t - b)] copies. The one exception is a blank
    line: when neither side ends in a newline and the last line merged is blank, that one line is not in
    the text, whose last newline it becomes. What the text keeps of ours it keeps in ours' order: a
    subsequence of both with as many copies of each line as both have, blank lines aside in the excepted
    case. *)
Theorem merge3_copies (base ours theirs : bytes) :
  let b := merge_lines base in let o := merge_lines ours in let t := merge_lines theirs in
  let r := merge_lines (merge3 base ours theirs) in
  let lost := blank_end (merge3_lines b o t) ours theirs in
  (∀ line, copies line r = promised (copies line b) (copies line o) (copies line t) - (if lost && bool_decide (line = []) then 1 else 0))
  ∧ ∃ kept, sublist kept o ∧ sublist kept r
      ∧ ∀ line, line ≠ [] ∨ lost = false → copies line kept = Nat.min (copies line r) (copies line o).
Proof.
  intros b o t r lost. destruct (merge3_lines_spec b o t) as [(kept & H1 & H2 & H3) Hc].
  assert (r = if lost then removelast (merge3_lines b o t) else merge3_lines b o t) as Hr.
  { apply merge_join_reads, merge3_lines_pieces; apply merge_lines_pieces. }
  assert (∀ line, copies line r = promised (copies line b) (copies line o) (copies line t) - (if lost && bool_decide (line = []) then 1 else 0)) as Hcr.
  { intros line. rewrite Hr. unfold lost. rewrite copies_blank_end, Hc. unfold want. rewrite !counts_spec. unfold promised. lia. }
  split; [exact Hcr|]. destruct lost eqn:El.
  - exists (nonblank kept). split_and!; [etrans; [apply nonblank_le|done]| |].
    + etrans; [by apply nonblank_sublist|]. pose proof (nonblank_blank_end (merge3_lines b o t) ours theirs) as Hn. fold lost in Hn.
      rewrite El, <- Hr in Hn. rewrite <- Hn. apply nonblank_le.
    + intros line [Hl|?]; [|done]. rewrite copies_nonblank, H3, Hcr by done. rewrite bool_decide_eq_false_2 by done.
      unfold want, promised. rewrite !counts_spec. cbn [andb]. lia.
  - exists kept. rewrite Hr. split_and!; [done..|]. intros line _. by rewrite H3, Hc.
Qed.

(** The merge of a file whose last line is blank, with no newline after it. *)
Example merge3_blank_end :
  let base := str "a" ++ [x0a; x0a] ++ str "b" in let theirs := [x0a] ++ str "a" in
  merge3 base base theirs = str "a" ++ [x0a] ∧ merge_lines (merge3 base base theirs) = [str "a"].
Proof. by vm_compute. Qed.

Lemma copies_Permutation l1 l2 : (∀ line, copies line l1 = copies line l2) → l1 ≡ₚ l2.
Proof.
  revert l2. induction l1 as [|x l1 IH]; intros l2 H.
  { destruct l2 as [|y l2]; [done|]. specialize (H y). rewrite copies_cons, bool_decide_eq_true_2 in H by done.
    unfold copies in H at 1. simpl in H. lia. }
  assert (x ∈ l2) as Hx.
  { destruct (decide (x ∈ l2)) as [|Hn]; [done|]. specialize (H x).
    rewrite copies_cons, bool_decide_eq_true_2 in H by done. exfalso.
    assert (copies x l2 = 0); [|lia]. clear -Hn. induction l2 as [|y l2 IH]; [done|].
    rewrite copies_cons, bool_decide_eq_false_2 by set_solver. apply IH. set_solver. }
  apply list_elem_of_split in Hx as (k1 & k2 & ->). rewrite <- Permutation_middle. f_equiv.
  apply IH. intros line. specialize (H line). rewrite !copies_app, !copies_cons in *. lia.
Qed.

(** The lines of a merge do not depend on whose side is ours: swapping the sides permutes them. *)
Theorem merge3_symmetric (b o t : list bytes) : merge3_lines b o t ≡ₚ merge3_lines b t o.
Proof.
  apply copies_Permutation. intros line.
  destruct (merge3_lines_spec b o t) as [_ ->], (merge3_lines_spec b t o) as [_ ->].
  unfold want. rewrite !counts_spec. lia.
Qed.

Lemma take_ours_all w o : (∀ line, copies line o ≤ w line) → fst (take_ours w o) = o.
Proof.
  intros Hw. unfold take_ours. induction o as [|l o IH] using rev_ind; [done|].
  rewrite foldl_app. pose proof (take_ours_spec w o) as Hs. unfold take_ours in Hs.
  destruct (foldl _ _ o) as [out taken] eqn:E. simpl in *.
  assert (out = o) as ->.
  { apply IH. intros line. specialize (Hw line). rewrite copies_app in Hw. lia. }
  destruct Hs as [_ Hs]. destruct (Hs l) as [H1 H2]. specialize (Hw l).
  rewrite copies_app, copies_cons, bool_decide_eq_true_2 in Hw by done.
  by rewrite (proj2 (Nat.ltb_lt _ _)) by lia.
Qed.

Lemma sublist_same_length {A} (l1 l2 : list A) : sublist l1 l2 → length l1 = length l2 → l1 = l2.
Proof.
  induction 1 as [|x l1 l2 _ IH|x l1 l2 H IH]; simpl; intros Hl; [done|f_equal; apply IH; lia|].
  apply sublist_length in H. lia.
Qed.

Lemma merge3_lines_base b o : merge3_lines b o b = o.
Proof.
  pose proof (merge3_lines_spec b o b) as [_ Hc]. unfold merge3_lines in *.
  set (w := want _ _ _) in *. assert (∀ line, w line = copies line o) as Hw.
  { intros line. unfold w, want. rewrite !counts_spec. lia. }
  pose proof (take_ours_all w o) as Ho. destruct (take_ours w o) as [out taken]. simpl in Ho.
  rewrite Ho in * by (intros line; by rewrite Hw). unfold insert_theirs in *.
  set (ls := zip _ _) in *. destruct (place_theirs_spec o ls) as [Hsub Hcop].
  symmetry. apply sublist_same_length; [done|]. apply Permutation_length, copies_Permutation.
  intros line. by rewrite Hc, Hw.
Qed.

Lemma merge_join_lines ours theirs :
  (ends_with [x0a] theirs = true → ends_with [x0a] ours = true ∨ ours = []) →
  merge_join (merge_lines ours) ours theirs = ours.
Proof.
  intros Hend. unfold merge_join, merge_lines.
  destruct (decide (ours = [])) as [->|Hne]; [done|].
  rewrite (bool_decide_eq_false_2 (ours = [])), andb_false_r by done.
  rewrite bool_decide_eq_false_2 by apply split_on_nonempty.
  rewrite join_split_on by (intros x Hx; by apply bool_decide_eq_true in Hx).
  unfold ends_with in *. destruct (strip_suffix [x0a] ours) as [body|] eqn:E; simpl.
  - apply strip_suffix_spec in E. by rewrite E.
  - destruct (bool_decide (is_Some (strip_suffix [x0a] theirs))) eqn:Et; simpl; [|by rewrite app_nil_r].
    destruct (Hend eq_refl); [|done]. done.
Qed.

(** When theirs is unchanged since the base, the merge is ours, byte for byte (up to the final
    newline, which the base may add). *)
Theorem merge3_unchanged (base ours : bytes) :
  (ends_with [x0a] base = true → ends_with [x0a] ours = true ∨ ours = []) →
  merge3 base ours base = ours.
Proof. intros H. unfold merge3. rewrite merge3_lines_base. by apply merge_join_lines. Qed.

Lemma merge3_unchanged_witness :
  merge3 (text_of [str "a"; str "b"]) (text_of [str "b"; str "c"; str "a"]) (text_of [str "a"; str "b"])
  = text_of [str "b"; str "c"; str "a"].
Proof. apply (merge3_unchanged (text_of [str "a"; str "b"])). intros _. left. vm_compute. reflexivity. Defined.
