(* ===== verification/Hlc.v ===== *)
(** The hybrid logical clock of [crates/txtodo-model/src/hlc.rs].

    A stamp is [(wall_ms, counter, device)] in field order; [wall_ms] is a [u64], [counter] a [u16]
    whose increment is checked. The theorems: the send and receive rules only move forward, a refused
    or overflowing stamp leaves the clock as it was, a peer's clock can only pull ours ahead of the
    wall clock by the skew bound, and every run of one device issues strictly increasing stamps. *)
From S2P Require Import Prelude.

#[local] Open Scope N_scope.

(** [DeviceId(u128)] and the other ULID newtypes of [ids.rs]. *)
Abbreviation DeviceId := N.
Abbreviation TaskId := N.
Abbreviation OpId := N.
Abbreviation TokenId := N.

Definition MAX_PEER_SKEW_AHEAD_MS : N := 5 * 60 * 1000.
Definition MAX_PEER_SKEW_BEHIND_MS : N := 5 * 60 * 1000.

Record Hlc := mkHlc { wall_ms : N; counter : N; device : DeviceId }.

Inductive HlcError :=
| HlcOverflow (wall : N)
| HlcPeerAhead (peer_ms local_ms bound_ms : N).

Inductive Skew := SkewOk | SkewBehind (ms : N) | SkewAhead (ms : N).

#[global] Instance Hlc_eq_dec : EqDecision Hlc.
Proof. solve_decision. Defined.
#[global] Instance HlcError_eq_dec : EqDecision HlcError.
Proof. solve_decision. Defined.
#[global] Instance Skew_eq_dec : EqDecision Skew.
Proof. solve_decision. Defined.

(** The derived order: lexicographic in the fields. *)
Definition Hlc_compare (a b : Hlc) : comparison :=
  match wall_ms a ?= wall_ms b with
  | Eq => match counter a ?= counter b with Eq => device a ?= device b | c => c end
  | c => c
  end.

Definition Hlc_ltb (a b : Hlc) : bool := match Hlc_compare a b with Lt => true | _ => false end.
Definition Hlc_leb (a b : Hlc) : bool := match Hlc_compare a b with Gt => false | _ => true end.

(** [self.counter.checked_add(1)] on [u16]. *)
Definition counter_succ (c : N) : option N := if c + 1 <=? 0xFFFF then Some (c + 1) else None.

(** Classifies a peer's clock against ours; the subtractions saturate. *)
Definition Skew_check (peer_ms local_ms : N) : Skew :=
  let lead := peer_ms - local_ms in
  let lag := local_ms - peer_ms in
  if MAX_PEER_SKEW_AHEAD_MS <? lead then SkewAhead lead
  else if MAX_PEER_SKEW_BEHIND_MS <? lag then SkewBehind lag
  else SkewOk.

Definition Hlc_zero (d : DeviceId) : Hlc := mkHlc 0 0 d.

(** Send rule: the clock after the call, and the stamp or error it returns. *)
Definition Hlc_tick (self : Hlc) (now_ms : N) : Hlc * result HlcError Hlc :=
  if wall_ms self <? now_ms then
    let self' := mkHlc now_ms 0 (device self) in (self', Ok self')
  else
    match counter_succ (counter self) with
    | Some c => let self' := mkHlc (wall_ms self) c (device self) in (self', Ok self')
    | None => (self, Err (HlcOverflow (wall_ms self)))
    end.

(** Receive rule: folds a peer's stamp in. *)
Definition Hlc_merge (self remote : Hlc) (now_ms : N) : Hlc * result HlcError Hlc :=
  match Skew_check (wall_ms remote) now_ms with
  | SkewAhead _ => (self, Err (HlcPeerAhead (wall_ms remote) now_ms MAX_PEER_SKEW_AHEAD_MS))
  | _ =>
      let wall := N.max (N.max (wall_ms self) (wall_ms remote)) now_ms in
      let c :=
        match wall =? wall_ms self, wall =? wall_ms remote with
        | true, true => counter_succ (N.max (counter self) (counter remote))
        | true, false => counter_succ (counter self)
        | false, true => counter_succ (counter remote)
        | false, false => Some 0
        end in
      match c with
      | None => (self, Err (HlcOverflow wall))
      | Some c => let next := mkHlc wall c (device self) in (next, Ok next)
      end
  end.

(** ** The stamp floor of [crates/txtodo-engine/src/stamp_floor.rs] *)

Definition FLOOR_LIMIT_MS : N := 24 * 60 * 60 * 1000.

Definition Hlc_max (a b : Hlc) : Hlc := if Hlc_ltb b a then a else b.

(** Remembers a peer stamp the clock refused to merge. *)
Definition hold (floor : option Hlc) (stamp : Hlc) : option Hlc :=
  Some (match floor with Some f => Hlc_max f stamp | None => stamp end).

(** [a] sorts after [b] by wall and counter alone. *)
Definition is_past (a b : Hlc) : bool :=
  (wall_ms b <? wall_ms a) || ((wall_ms b =? wall_ms a) && (counter b <? counter a)).

Definition saturating_add64 (a b : N) : N := N.min (a + b) (2 ^ 64 - 1).

Definition within_limit (floor : Hlc) (now_ms : N) : bool :=
  wall_ms floor <=? saturating_add64 now_ms FLOOR_LIMIT_MS.

Definition just_past (floor ticked : Hlc) : Hlc :=
  match counter_succ (counter floor) with
  | Some c => mkHlc (wall_ms floor) c (device ticked)
  | None => mkHlc ((wall_ms floor + 1) mod 2 ^ 64) 0 (device ticked)
  end.

(** This device's next stamp, moved just past a floor near enough to follow. *)
Definition past_floor (ticked : Hlc) (floor : option Hlc) (now_ms : N) : Hlc :=
  match floor with
  | Some f => if negb (is_past ticked f) && within_limit f now_ms then just_past f ticked else ticked
  | None => ticked
  end.

(** ** The order *)

Definition Hlc_lt (a b : Hlc) : Prop :=
  wall_ms a < wall_ms b
  ∨ (wall_ms a = wall_ms b ∧ (counter a < counter b ∨ (counter a = counter b ∧ device a < device b))).

Lemma Hlc_ltb_spec a b : Hlc_ltb a b = true ↔ Hlc_lt a b.
Proof.
  unfold Hlc_ltb, Hlc_compare, Hlc_lt.
  destruct (N.compare_spec (wall_ms a) (wall_ms b)); [|split; [|done]; auto|split; [done|]; lia].
  destruct (N.compare_spec (counter a) (counter b)); [|split; [|done]; auto|split; [done|]; lia].
  destruct (N.compare_spec (device a) (device b)); (split; [|done]) || (split; [done|]); auto; lia.
Qed.

#[global] Instance Hlc_lt_strict : StrictOrder Hlc_lt.
Proof.
  split.
  - intros a. unfold complement, Hlc_lt. lia.
  - intros a b c. unfold Hlc_lt. lia.
Qed.

Lemma Hlc_eq a b : wall_ms a = wall_ms b → counter a = counter b → device a = device b → a = b.
Proof. destruct a, b; simpl; congruence. Qed.

Lemma Hlc_lt_total a b : Hlc_lt a b ∨ a = b ∨ Hlc_lt b a.
Proof.
  unfold Hlc_lt. destruct (decide (a = b)) as [|Hne]; [auto|].
  assert (wall_ms a ≠ wall_ms b ∨ counter a ≠ counter b ∨ device a ≠ device b); [|lia].
  destruct (decide (wall_ms a = wall_ms b)); [|auto]. destruct (decide (counter a = counter b)); [|auto].
  right. right. intros ?. by apply Hne, Hlc_eq.
Qed.

Lemma Hlc_compare_spec a b : CompareSpec (a = b) (Hlc_lt a b) (Hlc_lt b a) (Hlc_compare a b).
Proof.
  unfold Hlc_compare, Hlc_lt.
  destruct (N.compare_spec (wall_ms a) (wall_ms b)); [|constructor; lia..].
  destruct (N.compare_spec (counter a) (counter b)); [|constructor; lia..].
  destruct (N.compare_spec (device a) (device b)); constructor; [by apply Hlc_eq|lia..].
Qed.

(** A stamp that fits its machine integers. *)
Definition Hlc_wf (h : Hlc) : Prop := wall_ms h < 2 ^ 64 ∧ counter h <= 0xFFFF.

Lemma counter_succ_Some c c' : counter_succ c = Some c' ↔ c' = c + 1 ∧ c + 1 <= 0xFFFF.
Proof.
  unfold counter_succ. case_match; breflect; (split; [intros [= <-]|intros [-> ?]]); try done; lia.
Qed.

Lemma counter_succ_None c : counter_succ c = None ↔ 0xFFFF <= c.
Proof. unfold counter_succ. case_match; breflect; split; intros; simplify_eq; try lia. done. Qed.

Lemma tick_spec c now c' r :
  Hlc_tick c now = (c', r) →
  match r with
  | Ok s => c' = s ∧ Hlc_lt c s ∧ device s = device c ∧ wall_ms s = N.max (wall_ms c) now
            ∧ (Hlc_wf c → now < 2 ^ 64 → Hlc_wf s)
  | Err e => c' = c ∧ e = HlcOverflow (wall_ms c) ∧ 0xFFFF <= counter c ∧ now <= wall_ms c
  end.
Proof.
  unfold Hlc_tick. destruct (wall_ms c <? now) eqn:E; breflect.
  - intros [= <- <-]. unfold Hlc_lt, Hlc_wf; simpl. split_and!; [done|lia|done|lia|]. intros; lia.
  - destruct (counter_succ (counter c)) as [n|] eqn:Es; intros [= <- <-].
    + apply counter_succ_Some in Es as [-> ?]. unfold Hlc_lt, Hlc_wf; simpl. split_and!; [done|lia|done|lia|].
      intros [? ?] ?. split; lia.
    + apply counter_succ_None in Es. by split_and!.
Qed.

Lemma Skew_check_ahead p l : (∃ ms, Skew_check p l = SkewAhead ms) ↔ l + MAX_PEER_SKEW_AHEAD_MS < p.
Proof.
  unfold Skew_check. destruct (_ <? p - l) eqn:E; breflect.
  - split; [unfold MAX_PEER_SKEW_AHEAD_MS in *; lia|]. by eexists.
  - split; [|lia]. intros [ms H]. by destruct (_ <? _).
Qed.

Lemma merge_spec c remote now c' r :
  Hlc_merge c remote now = (c', r) →
  match r with
  | Ok s => c' = s ∧ Hlc_lt c s ∧ Hlc_lt remote s ∧ device s = device c
            ∧ wall_ms s = N.max (N.max (wall_ms c) (wall_ms remote)) now
            ∧ wall_ms remote <= now + MAX_PEER_SKEW_AHEAD_MS
            ∧ (Hlc_wf c → now < 2 ^ 64 → wall_ms remote < 2 ^ 64 → Hlc_wf s)
  | Err (HlcPeerAhead p l b) =>
      c' = c ∧ p = wall_ms remote ∧ l = now ∧ b = MAX_PEER_SKEW_AHEAD_MS
      ∧ now + MAX_PEER_SKEW_AHEAD_MS < wall_ms remote
  | Err (HlcOverflow w) =>
      c' = c ∧ wall_ms remote <= now + MAX_PEER_SKEW_AHEAD_MS ∧ (0xFFFF <= counter c ∨ 0xFFFF <= counter remote)
  end.
Proof.
  unfold Hlc_merge. pose proof (Skew_check_ahead (wall_ms remote) now) as Hs.
  destruct (Skew_check (wall_ms remote) now) as [| |ms] eqn:Esk.
  3: { intros [= <- <-]. split_and!; try done. apply Hs. by eexists. }
  all: assert (wall_ms remote <= now + MAX_PEER_SKEW_AHEAD_MS) as Hle
    by (apply N.nlt_ge; intros H; apply Hs in H as [? [=]]).
  all: set (w := N.max _ now); destruct (match _ with true => _ | false => _ end) as [n|] eqn:E;
    intros [= <- <-].
  2, 4: split_and!; [done|done|];
    repeat case_match; apply counter_succ_None in E || done; lia.
  all: assert (counter c < n ∨ w ≠ wall_ms c) as H1 by
    (repeat case_match; breflect; try (apply counter_succ_Some in E); lia).
  all: assert (counter remote < n ∨ w ≠ wall_ms remote) as H2 by
    (repeat case_match; breflect; try (apply counter_succ_Some in E); lia).
  all: assert (n <= 0xFFFF) as H3 by
    (repeat case_match; breflect; try (apply counter_succ_Some in E); simplify_eq; lia).
  all: unfold Hlc_lt, Hlc_wf; simpl; split_and!; try done; try lia.
  all: intros [? ?] ? ?; split; lia.
Qed.

(** ** Runs of one device *)

Inductive HlcEvent := ETick (now_ms : N) | EMerge (remote : Hlc) (now_ms : N).

Definition hlc_step (c : Hlc) (e : HlcEvent) : Hlc * result HlcError Hlc :=
  match e with ETick now => Hlc_tick c now | EMerge r now => Hlc_merge c r now end.

(** The clock after a run, and the stamps it issued in order. *)
Fixpoint hlc_run (c : Hlc) (es : list HlcEvent) : Hlc * list Hlc :=
  match es with
  | [] => (c, [])
  | e :: es' =>
      let '(c', r) := hlc_step c e in
      let '(c'', ss) := hlc_run c' es' in
      (c'', match r with Ok s => s :: ss | Err _ => ss end)
  end.

Lemma hlc_step_spec c e c' r :
  hlc_step c e = (c', r) →
  match r with Ok s => c' = s ∧ Hlc_lt c s ∧ device s = device c | Err _ => c' = c end.
Proof.
  destruct e as [now|remote now]; simpl; intros H.
  - apply tick_spec in H. destruct r; naive_solver.
  - apply merge_spec in H. destruct r as [|[|]]; naive_solver.
Qed.

Lemma last_cons_default {A} (x y : A) l : List.last (x :: l) y = List.last l x.
Proof.
  revert x y. induction l as [|z l IH]; intros x y; [done|].
  change (List.last (x :: z :: l) y) with (List.last (z :: l) y). by rewrite !IH.
Qed.

(** C30. Whatever its wall clock does and whatever stamps peers send, one device issues strictly
    increasing stamps, all its own, and its clock ends at the last one issued. *)
Theorem hlc_run_increasing (c : Hlc) (es : list HlcEvent) :
  StronglySorted Hlc_lt (c :: snd (hlc_run c es))
  ∧ Forall (λ s, device s = device c) (snd (hlc_run c es))
  ∧ fst (hlc_run c es) = List.last (snd (hlc_run c es)) c.
Proof.
  revert c. induction es as [|e es IH]; intros c; simpl; [by repeat constructor|].
  destruct (hlc_step c e) as [c' r] eqn:E. apply hlc_step_spec in E.
  specialize (IH c'). destruct (hlc_run c' es) as [c'' ss]. simpl in *.
  destruct IH as (H1 & H2 & H3). destruct r as [s|]; [|simpl in E; subst; by split_and!].
  destruct E as (-> & Hlt & Hd). split_and!.
  - apply StronglySorted_inv in H1 as [H1 Hall]. constructor; [by constructor|].
    constructor; [done|]. eapply Forall_impl; [exact Hall|]. intros x Hx. by etrans.
  - constructor; [done|]. eapply Forall_impl; [exact H2|]. simpl. congruence.
  - by rewrite last_cons_default.
Qed.

(** The receive rule: the stamp dominates both the clock and the peer's stamp; it is refused
    exactly when the peer leads our wall clock by more than the bound, and any error leaves the clock
    unchanged; so no peer can push the clock further than the bound past our own wall clock. *)
Theorem hlc_merge_correct (c remote : Hlc) (now : N) (c' : Hlc) (r : result HlcError Hlc) :
  Hlc_merge c remote now = (c', r) →
  (now + MAX_PEER_SKEW_AHEAD_MS < wall_ms remote ↔
     r = Err (HlcPeerAhead (wall_ms remote) now MAX_PEER_SKEW_AHEAD_MS))
  ∧ match r with
    | Ok s => c' = s ∧ Hlc_lt c s ∧ Hlc_lt remote s
              ∧ wall_ms s <= N.max (wall_ms c) (now + MAX_PEER_SKEW_AHEAD_MS)
              ∧ (Hlc_wf c → now < 2 ^ 64 → wall_ms remote < 2 ^ 64 → Hlc_wf s)
    | Err _ => c' = c
    end.
Proof.
  intros H. apply merge_spec in H. destruct r as [s|[w|p l b]].
  - destruct H as (-> & ? & ? & ? & Hw & ? & ?). split; [split; [lia|done]|].
    split_and!; try done. lia.
  - destruct H as (-> & ? & ?). split; [split; [lia|done]|done].
  - destruct H as (-> & -> & -> & -> & ?). split; [by split|done].
Qed.

Lemma hlc_merge_correct_witness :
  Hlc_lt (mkHlc 5000 7 1) (fst (Hlc_merge (mkHlc 5000 7 1) (mkHlc 305000 9 2) 5000))
  ∧ fst (Hlc_merge (mkHlc 5000 7 1) (mkHlc 305001 9 2) 5000) = mkHlc 5000 7 1.
Proof.
  split.
  - exact (proj1 (proj2 (proj2 (hlc_merge_correct (mkHlc 5000 7 1) (mkHlc 305000 9 2) 5000 _ (Ok _) eq_refl)))).
  - exact (proj2 (hlc_merge_correct (mkHlc 5000 7 1) (mkHlc 305001 9 2) 5000 _ (Err _) eq_refl)).
Defined.

(** ** The floor *)

Lemma is_past_spec a b : is_past a b = true ↔ wall_ms b < wall_ms a ∨ (wall_ms b = wall_ms a ∧ counter b < counter a).
Proof. unfold is_past. rewrite orb_true_iff, andb_true_iff, !N.ltb_lt, N.eqb_eq. done. Qed.

(** A local stamp is never moved back and stays this device's; and when the newest refused peer
    stamp is within a day of our wall clock, the local stamp sorts after it. *)
Theorem past_floor_correct (ticked : Hlc) (stamps : list Hlc) (now : N) :
  Forall (λ s, wall_ms s < 2 ^ 64 - 1 ∧ counter s <= 0xFFFF) stamps →
  let s := past_floor ticked (foldl hold None stamps) now in
  device s = device ticked ∧ (s = ticked ∨ Hlc_lt ticked s)
  ∧ (Forall (λ p, wall_ms p <= now + FLOOR_LIMIT_MS) stamps → Forall (λ p, is_past s p = true) stamps).
Proof.
  intros Hwf. cbn zeta. assert (∀ o, (match o with Some f => f ∈ stamps | None => stamps = [] end) →
    (∀ p, p ∈ stamps → ∃ f, o = Some f ∧ (p = f ∨ Hlc_lt p f)) → 
    let s := past_floor ticked o now in
    device s = device ticked ∧ (s = ticked ∨ Hlc_lt ticked s)
    ∧ (Forall (λ p, wall_ms p <= now + FLOOR_LIMIT_MS) stamps → Forall (λ p, is_past s p = true) stamps)) as H.
  - intros [f|] Hin Hmax; cbn zeta; [|subst; simpl; split_and!; auto].
    rewrite Forall_forall in Hwf. destruct (Hwf _ Hin) as [Hw Hc].
    assert (is_past (just_past f ticked) f = true) as Hjp.
    { apply is_past_spec. unfold just_past. destruct (counter_succ (counter f)) as [c|] eqn:E; simpl.
      - apply counter_succ_Some in E. lia.
      - rewrite N.mod_small by lia. lia. }
    assert (∀ s, is_past s f = true → Forall (λ p, is_past s p = true) stamps) as Hall.
    { intros s Hs. apply Forall_forall. intros p Hp. destruct (Hmax _ Hp) as (f' & [= <-] & [->|Hlt]); [done|].
      apply is_past_spec in Hs. apply is_past_spec. unfold Hlc_lt in Hlt. lia. }
    unfold past_floor. destruct (is_past ticked f) eqn:Ep; simpl; [by split_and!; auto|].
    destruct (within_limit f now) eqn:El.
    + split_and!; [by unfold just_past; destruct (counter_succ _)| |by auto].
      right. apply is_past_spec in Hjp. assert (¬ (wall_ms f < wall_ms ticked ∨
        (wall_ms f = wall_ms ticked ∧ counter f < counter ticked))) as Hn.
      { rewrite <- is_past_spec. congruence. }
      unfold Hlc_lt. lia.
    + split_and!; auto. intros Hnear. rewrite Forall_forall in Hnear. specialize (Hnear _ Hin).
      unfold within_limit, saturating_add64 in El. apply N.leb_gt in El. lia.
  - clear -Hwf H. apply H; clear H Hwf.
    + induction stamps as [|p stamps IH] using rev_ind; [done|].
      rewrite foldl_app. simpl. destruct (foldl hold None stamps) as [f|]; simpl; [|set_solver].
      unfold Hlc_max. destruct (Hlc_ltb p f); set_solver.
    + induction stamps as [|p stamps IH] using rev_ind; [by intros p ?%elem_of_nil|].
      rewrite foldl_app. simpl. unfold hold at 1. intros q Hq. eexists. split; [done|].
      apply elem_of_app in Hq as [Hq|Hq%list_elem_of_singleton].
      * destruct (IH _ Hq) as (f & Hf & Hqf). rewrite Hf. unfold Hlc_max.
        destruct (Hlc_ltb p f) eqn:E; [done|].
        destruct (Hlc_lt_total p f) as [Hl|[->|Hl]]; [apply Hlc_ltb_spec in Hl; congruence|done|].
        right. destruct Hqf as [->|Hqf]; [done|by etrans].
      * subst q. destruct (foldl hold None stamps) as [f|]; [|by left]. unfold Hlc_max.
        destruct (Hlc_ltb p f) eqn:E; [right; by apply Hlc_ltb_spec|by left].
Qed.

Lemma past_floor_correct_witness :
  is_past (past_floor (mkHlc 180000 0 1) (foldl hold None [mkHlc 600000 3 2; mkHlc 500000 9 3]) 180000)
    (mkHlc 600000 3 2) = true.
Proof.
  destruct (past_floor_correct (mkHlc 180000 0 1) [mkHlc 600000 3 2; mkHlc 500000 9 3] 180000) as (_ & _ & H).
  - repeat (constructor; [split; [reflexivity|discriminate]|]). constructor.
  - assert (Forall (λ p, wall_ms p <= 180000 + FLOOR_LIMIT_MS) [mkHlc 600000 3 2; mkHlc 500000 9 3]) as Hn.
    { repeat (constructor; [discriminate|]). constructor. }
    specialize (H Hn). by inversion H.
Defined.
