(* ===== verification/TagText.v ===== *)
(** Tags removed and set by name, on the text of a description:
    [crates/txtodo-model/src/tag_text.rs] and the [pri:] helpers of
    [crates/txtodo-engine/src/text_history.rs].

    The theorem: for a key that is no URL scheme, no sigil and not [id], removing a tag by name does
    exactly what the editor of the core crate does, so every device removes the same bytes. *)
From S2P Require Import Prelude.
From S2P Require Import Utf8.
From S2P Require Import Types.
From S2P Require Import Ulid.
From S2P Require Import Scanner.
From S2P Require Import Parser.
From S2P Require Import Format.
From S2P Require Import TodoFile.
From S2P Require Import Edit.

(** ** tag_text.rs *)

Definition valid_tag_key (key : bytes) : bool :=
  negb (bool_decide (key = []))
  && negb (existsb (λ b, bool_decide (b = " "%byte) || bool_decide (b = x09) || bool_decide (b = ":"%byte)) key).

(** [key:] plus a non-empty value. *)
Definition is_tag_word (key word : bytes) : bool :=
  match strip_prefix key word ≫= strip_prefix (str ":") with
  | Some v => negb (bool_decide (v = []))
  | None => false
  end.

(** The loop over the words: [start] is the offset of the next one. *)
Fixpoint find_word (test : bytes → bool) (start : nat) (words : list bytes) : option (nat * nat) :=
  match words with
  | [] => None
  | w :: ws =>
      let end_ := start + length w in
      if test w then Some (start, end_) else find_word test (end_ + 1) ws
  end.

Definition find_tag (d key : bytes) : option (nat * nat) :=
  if negb (valid_tag_key key) then None
  else find_word (is_tag_word key) 0
         (split_on (λ c, bool_decide (c = " "%byte) || bool_decide (c = x09)) d).

Definition TagText_remove_tag (d key : bytes) : bytes :=
  match find_tag d key with
  | None => d
  | Some (s, e) =>
      let '(from, to) :=
        if (0 <? s) && bool_decide (d !! (s - 1) = Some " "%byte) then (s - 1, e)
        else if bool_decide (d !! e = Some " "%byte) then (s, e + 1)
        else (s, e) in
      take from d ++ drop to d
  end.

(** ** The [pri:] tag of text_history.rs *)

(** [pri:] with a value. *)
Definition is_pri (word : bytes) : bool := (4 <? length word) && starts_with (str "pri:") word.

Definition is_space (c : byte) : bool := bool_decide (c = " "%byte).

Definition has_pri (text : bytes) : bool := existsb is_pri (split_on is_space text).

(** The first [pri:] word set to the letter, else, if [add], one added at the end. *)
Definition set_pri (text : bytes) (letter : char) (add : bool) : bytes :=
  match find_word is_pri 0 (split_on is_space text) with
  | Some (s, e) => take s text ++ str "pri:" ++ encode_char letter ++ drop e text
  | None =>
      if negb add then text
      else if bool_decide (text = []) then str "pri:" ++ encode_char letter
      else text ++ str " pri:" ++ encode_char letter
  end.

(** ** Samples *)

Example remove_tag_samples :
  TagText_remove_tag (str "call mum pri:B") (str "pri") = str "call mum"
  ∧ TagText_remove_tag (str "call pri:B mum pri:C") (str "pri") = str "call mum pri:C"
  ∧ TagText_remove_tag (str "call pri: mum") (str "pri") = str "call pri: mum".
Proof. by vm_compute. Qed.

(** A tab separates words for the editor but not for [set_pri]. *)
Example set_pri_tab :
  set_pri (str "a" ++ [x09] ++ str "pri:B") 67 true = str "a" ++ [x09] ++ str "pri:B pri:C"
  ∧ Draft_set_tag (str "a" ++ [x09] ++ str "pri:B") (str "pri") (encode_char 67) = str "a" ++ [x09] ++ str "pri:C".
Proof. by vm_compute. Qed.

(** ** Words of a split and words of the scanner *)

Lemma find_map_ext {A B} (f g : A → option B) l : (∀ x, x ∈ l → f x = g x) → find_map f l = find_map g l.
Proof.
  induction l as [|x l IH]; intros H; simpl; [done|]. rewrite (H x) by (by left).
  destruct (g x); [done|]. apply IH. intros y Hy. apply H. by right.
Qed.

Section words.
Context (test : bytes → bool) (test_nil : test [] = false).

Lemma find_word_skip pos w r :
  Forall (λ b, is_ws b = true) w →
  find_word test pos (split_on is_ws (w ++ r)) = find_word test (pos + length w) (split_on is_ws r).
Proof.
  intros H. revert pos. induction H as [|b w Hb _ IH]; intros pos; simpl; [by rewrite Nat.add_0_r|].
  rewrite Hb. simpl. rewrite test_nil, IH. f_equal. lia.
Qed.

Lemma split_on_word w r :
  Forall (λ b, is_ws b = false) w → (∀ b, head r = Some b → is_ws b = true) →
  split_on is_ws (w ++ r) = w :: match r with [] => [] | _ :: r' => split_on is_ws r' end.
Proof.
  intros Hw Hr. induction Hw as [|b w Hb Hw IH]; simpl.
  - destruct r as [|b r]; [done|]. simpl. by rewrite (Hr b eq_refl).
  - rewrite Hb, IH. done.
Qed.

Lemma find_word_chunked pos rest cs :
  chunked pos rest cs →
  find_word test pos (split_on is_ws rest)
  = find_map (λ c, if test (slice (ch_start c - pos) (ch_end c - pos) rest) then Some (ch_start c, ch_end c) else None)
      (List.filter (λ c, negb (ch_is_ws c)) cs).
Proof.
  revert pos rest. induction cs as [|c cs IH]; intros pos rest; cbn [chunked].
  { intros ->. simpl. by rewrite test_nil. }
  intros (w & r & -> & Hw & Hs & He & Hall & Hr & Hch).
  assert (∀ c', c' ∈ List.filter (λ c, negb (ch_is_ws c)) cs →
    slice (ch_start c' - (pos + length w)) (ch_end c' - (pos + length w)) r
    = slice (ch_start c' - pos) (ch_end c' - pos) (w ++ r)) as Hslice.
  { intros c' Hin. apply list_elem_of_In, filter_In in Hin as [Hin _].
    apply list_elem_of_In, list_elem_of_lookup in Hin as [i Hi].
    destruct (chunked_lookup _ _ _ _ _ Hch Hi) as (? & ? & ? & _). unfold slice.
    rewrite drop_app_ge by lia. f_equal; [lia|f_equal; lia]. }
  assert (find_word test (pos + length w) (split_on is_ws r)
    = find_map (λ c, if test (slice (ch_start c - pos) (ch_end c - pos) (w ++ r))
        then Some (ch_start c, ch_end c) else None) (List.filter (λ c, negb (ch_is_ws c)) cs)) as Hrest.
  { rewrite (IH _ _ Hch). apply find_map_ext. intros c' Hin. by rewrite Hslice. }
  cbn [List.filter]. destruct (ch_is_ws c); cbn [negb].
  - by rewrite find_word_skip.
  - cbn [find_map]. rewrite Hs, He, split_on_word by done.
    replace (slice (pos - pos) (pos + length w - pos) (w ++ r)) with w.
    2: { unfold slice. rewrite Nat.sub_diag, drop_0, Nat.sub_0_r.
         by replace (pos + length w - pos) with (length w) by lia; rewrite take_app_length. }
    cbn [find_word]. destruct (test w); [done|]. rewrite <- Hrest. destruct r as [|b r].
    + simpl. by rewrite test_nil.
    + simpl. rewrite (Hr b eq_refl). simpl. rewrite test_nil. f_equal. lia.
Qed.

Lemma find_word_chunks d :
  find_word test 0 (split_on is_ws d)
  = find_map (λ c, if test (chunk_text d c) then Some (ch_start c, ch_end c) else None) (word_chunks d).
Proof.
  rewrite (find_word_chunked _ _ _ (chunks_chunked d)). unfold word_chunks.
  apply find_map_ext. intros c _. by rewrite !Nat.sub_0_r.
Qed.
End words.

(** ** The two removals agree *)

(** A key the classifier reads as a plain tag: no URL scheme, no sigil, not [id]. *)
Definition plain_key (key : bytes) : Prop :=
  valid_tag_key key = true ∧ existsb (λ s, eq_ignore_ascii_case s key) DEFAULT_SCHEMES = false
  ∧ key ≠ str "id" ∧ starts_with (str "+") key = false ∧ starts_with (str "@") key = false.

Lemma valid_tag_key_no_colon key :
  valid_tag_key key = true → key ≠ [] ∧ Forall (λ b, is_colon b = false) key.
Proof.
  unfold valid_tag_key. intros H. breflect. split; [done|]. apply Forall_forall. intros b Hb.
  unfold is_colon. apply bool_decide_eq_false. intros ->.
  match goal with H : existsb ?f key = false |- _ => assert (existsb f key = true); [|congruence] end.
  apply existsb_exists. exists ":"%byte. by rewrite <- list_elem_of_In.
Qed.

Lemma position_app_colon key v :
  Forall (λ b, is_colon b = false) key → position is_colon (key ++ ":"%byte :: v) = Some (length key).
Proof. induction 1 as [|b key Hb _ IH]; simpl; [done|]. by rewrite Hb, IH. Qed.

Lemma is_tag_word_iff key w :
  is_tag_word key w = true ↔ ∃ v, w = key ++ ":"%byte :: v ∧ v ≠ [].
Proof.
  unfold is_tag_word. destruct (strip_prefix key w ≫= strip_prefix (str ":")) as [v|] eqn:E.
  - apply bind_Some in E as (r & Hr & Hv). apply strip_prefix_spec in Hr as ->, Hv as ->.
    rewrite negb_true_iff, bool_decide_eq_false. split; [by exists v|].
    intros (v' & H & Hv). apply app_inv_head in H. by injection H as ->.
  - split; [done|]. intros (v & -> & _). exfalso.
    assert (strip_prefix key (key ++ ":"%byte :: v) = Some (":"%byte :: v)) as Hs by by apply strip_prefix_spec.
    rewrite Hs in E. cbn [mbind option_bind] in E. done.
Qed.

Lemma starts_with_app p k v c : starts_with [p] (k ++ c :: v) = true → k ≠ [] → starts_with [p] k = true.
Proof.
  rewrite !starts_with_spec. intros [r H] Hk. destruct k as [|b k]; [done|]. injection H as -> _.
  by exists k.
Qed.

Lemma classify_plain key w :
  plain_key key →
  match classify_word w DEFAULT_SCHEMES with
  | WTag colon => bool_decide (take colon w = key)
  | WIdTag => bool_decide (key = str "id")
  | _ => false
  end = is_tag_word key w.
Proof.
  intros (Hv & Hs & Hid & Hp & Hc). apply valid_tag_key_no_colon in Hv as [Hne Hcol].
  destruct (is_tag_word key w) eqn:E.
  - apply is_tag_word_iff in E as (v & -> & Hvne). unfold classify_word.
    assert (is_url (key ++ ":"%byte :: v) DEFAULT_SCHEMES = false) as ->.
    { unfold is_url. rewrite position_app_colon, take_app_length by done. by rewrite Hs, andb_false_r. }
    rewrite bool_decide_eq_false_2.
    2: { intros [u Hu]. apply bind_Some in Hu as (r & Hr & _). apply strip_prefix_spec in Hr.
         apply (f_equal (position is_colon)) in Hr as Hpos. rewrite position_app_colon in Hpos by done.
         change (str "id:" ++ r) with (str "id" ++ ":"%byte :: r) in *.
         rewrite position_app_colon in Hpos by (repeat constructor). injection Hpos as Hl.
         apply Hid. apply (f_equal (take (length key))) in Hr.
         rewrite take_app_length, Hl in Hr. by rewrite Hr. }
    destruct (starts_with (str "+") (key ++ ":"%byte :: v)) eqn:Ep;
      [assert (starts_with (str "+") key = true) by exact (starts_with_app _ _ _ _ Ep Hne); congruence|].
    destruct (starts_with (str "@") (key ++ ":"%byte :: v)) eqn:Ea;
      [assert (starts_with (str "@") key = true) by exact (starts_with_app _ _ _ _ Ea Hne); congruence|].
    rewrite !andb_false_r. unfold tag_split. rewrite position_app_colon by done. cbn [mbind option_bind].
    rewrite length_app. simpl. rewrite (proj2 (Nat.ltb_lt _ _)), (proj2 (Nat.ltb_lt _ _)).
    + simpl. rewrite take_app_length. by rewrite bool_decide_eq_true_2.
    + destruct v; simpl; [done|lia].
    + destruct key; simpl; [done|lia].
  - destruct (classify_word w DEFAULT_SCHEMES) as [| | | |colon|] eqn:Ek; try done.
    + by apply bool_decide_eq_false.
    + apply classify_word_tag, tag_split_bounds in Ek as (? & Hl & Hb).
      apply bool_decide_eq_false. intros Hk. apply not_true_iff_false in E. apply E, is_tag_word_iff.
      exists (drop (S colon) w). split.
      * by rewrite <- Hk, take_drop_middle.
      * intros Hd. apply (f_equal length) in Hd. rewrite length_drop in Hd. simpl in Hd. lia.
Qed.

Lemma find_tag_agrees d key : plain_key key → find_tag d key = Draft_find_tag d key.
Proof.
  intros Hk. unfold find_tag, Draft_find_tag. rewrite (proj1 Hk). cbn [negb].
  change (λ c, bool_decide (c = " "%byte) || bool_decide (c = x09)) with is_ws.
  assert (is_tag_word key [] = false) as Hnil.
  { apply not_true_iff_false. rewrite is_tag_word_iff. intros (v & H & _). by destruct key. }
  rewrite find_word_chunks by done. apply find_map_ext. intros c Hc.
  apply word_chunk_lookup in Hc as (i & Hi & _). destruct (chunks_lookup _ _ _ Hi) as (Hlt & Hle & _).
  pose proof (classify_plain key (chunk_text d c) Hk) as Hcl. rewrite <- Hcl.
  destruct (classify_word (chunk_text d c) DEFAULT_SCHEMES) as [| | | |colon|] eqn:Ek; try done.
  assert (slice (ch_start c) (ch_start c + colon) d = take colon (chunk_text d c)) as ->.
  { apply classify_word_tag, tag_split_bounds in Ek as (? & Hl & _).
    unfold chunk_text in *. rewrite slice_length in Hl by done. unfold slice.
    rewrite take_take. f_equal. lia. }
  done.
Qed.

(** Removing a tag by name, as every device's state does, removes exactly the bytes the editor
    removes, for any key that is no URL scheme, no sigil and not [id] ([pri], the only one sent). *)
Theorem remove_tag_agrees (d key : bytes) :
  plain_key key → TagText_remove_tag d key = Draft_remove_tag d key.
Proof.
  intros Hk. unfold TagText_remove_tag, Draft_remove_tag. rewrite find_tag_agrees by done.
  destruct (Draft_find_tag d key) as [[s e]|]; [|done]. unfold replace_range.
  destruct ((0 <? s) && _); [done|]. by destruct (bool_decide (d !! e = _)).
Qed.

Lemma plain_pri : plain_key (str "pri").
Proof. by split_and!. Qed.

Lemma remove_tag_agrees_witness :
  TagText_remove_tag (str "call pri:B mum pri:C") (str "pri") = Draft_remove_tag (str "call pri:B mum pri:C") (str "pri").
Proof. apply remove_tag_agrees, plain_pri. Defined.

(** ** The two ways to set [pri:] *)

Lemma split_space_ws d : Forall (λ b, b ≠ x09) d → split_on is_space d = split_on is_ws d.
Proof.
  induction 1 as [|b d Hb _ IH]; [done|]. simpl. rewrite IH. unfold is_ws, is_space.
  by rewrite (bool_decide_eq_false_2 (b = x09)), orb_false_r by done.
Qed.

Lemma is_pri_tag_word w : is_pri w = is_tag_word (str "pri") w.
Proof.
  unfold is_pri. destruct (is_tag_word (str "pri") w) eqn:E.
  - apply is_tag_word_iff in E as (v & -> & Hv).
    rewrite (proj2 (starts_with_spec _ _)) by (by exists v). destruct v; [done|]. done.
  - apply not_true_iff_false. intros H. apply andb_true_iff in H as [Hl Hs]. breflect.
    apply starts_with_spec in Hs as [r ->]. apply not_true_iff_false in E. apply E, is_tag_word_iff.
    exists r. split; [done|]. intros ->. simpl in Hl. lia.
Qed.

Lemma find_word_ext f g n ws : (∀ w, f w = g w) → find_word f n ws = find_word g n ws.
Proof. intros H. revert n. induction ws as [|w ws IH]; intros n; simpl; [done|]. by rewrite H, IH. Qed.

(** On a description without a tab, setting [pri:] in a text history writes the same bytes as the
    editor's [set_tag]. *)
Theorem set_pri_agrees (d : bytes) (letter : char) :
  Forall (λ b, b ≠ x09) d →
  set_pri d letter true = Draft_set_tag d (str "pri") (encode_char letter).
Proof.
  intros Hd. unfold set_pri, Draft_set_tag. rewrite <- (find_tag_agrees d _ plain_pri).
  unfold find_tag. rewrite (proj1 plain_pri). cbn [negb].
  change (λ c, bool_decide (c = " "%byte) || bool_decide (c = x09)) with is_ws.
  rewrite <- split_space_ws, (find_word_ext _ _ _ _ is_pri_tag_word) by done.
  destruct (find_word _ _ _) as [[s e]|]; [done|]. cbn [negb]. unfold Draft_append.
  destruct (decide (d = [])) as [->|Hne]; [done|].
  rewrite !bool_decide_eq_false_2 by done. cbn [negb andb]. by rewrite <- app_assoc.
Qed.

Lemma set_pri_agrees_witness :
  set_pri (str "call pri:B mum") 65 true = Draft_set_tag (str "call pri:B mum") (str "pri") (str "A").
Proof. apply (set_pri_agrees (str "call pri:B mum") 65). by repeat constructor. Defined.
