(* ===== verification/TextHistory.v ===== *)
(** Text edits that converge whatever order they arrive in:
    [crates/txtodo-engine/src/text_history.rs].

    A history keeps a base text and the changes made since, in stamp order. The theorems: the text a
    caller holds is always the base with every kept change applied in stamp order; a refused change
    is the newest and leaves the history alone; and two devices that take the same changes in two
    orders, none refused, hold the same text. *)
From S2P Require Import Prelude.
From S2P Require Import Utf8.
From S2P Require Import Types.
From S2P Require Import Ulid.
From S2P Require Import Scanner.
From S2P Require Import Parser.
From S2P Require Import Format.
From S2P Require Import TodoFile.
From S2P Require Import Edit.
From S2P Require Import Myers.
From S2P Require Import Diff.
From S2P Require Import Hlc.
From S2P Require Import TagText.

(** How a text applies a splice: [apply_text_edits] or [apply_notes_edits]. *)
Definition ApplyEdits := bytes → list TextEdit → result TextEditError bytes.

Definition MAX_EDITS_PER_TASK : nat := 64.
Definition MAX_EDITS_PER_NOTES : nat := 256.

Inductive Change :=
| Splice (edits : list TextEdit)
| Pri (letter : char)
| RemoveTagNamed (key : bytes).

#[global] Instance Change_eq_dec : EqDecision Change.
Proof. solve_decision. Defined.

Record TextHistory := mkTextHistory { base : bytes; since : Hlc; edits : list (Hlc * Change) }.

Section history.
Context (apply : ApplyEdits).

Definition Change_on (c : Change) (text : bytes) : result TextEditError bytes :=
  match c with
  | Splice es => apply text es
  | Pri letter => Ok (set_pri text letter true)
  | RemoveTagNamed key => Ok (TagText_remove_tag text key)
  end.

Definition TextHistory_new (b : bytes) : TextHistory := mkTextHistory b (Hlc_zero 0) [].

(** One change of a replay: one that no longer fits is skipped. *)
Definition replay_step (text : bytes) (hc : Hlc * Change) : bytes :=
  match Change_on (snd hc) text with Ok t => t | Err _ => text end.

(** The base with every kept edit applied in stamp order. *)
Definition replay (h : TextHistory) : bytes := foldl replay_step (base h) (edits h).

(** Folds the oldest edits into the base past [max]. *)
Fixpoint trim_edits (max : nat) (b : bytes) (es : list (Hlc * Change)) : bytes * list (Hlc * Change) :=
  match es with
  | [] => (b, [])
  | e :: es' => if max <? length es then trim_edits max (replay_step b e) es' else (b, es)
  end.

Definition trim (h : TextHistory) (max : nat) : TextHistory :=
  let '(b, es) := trim_edits max (base h) (edits h) in mkTextHistory b (since h) es.

(** [edits.insert(partition_point(h <= hlc), e)]: after every edit up to this stamp. *)
Fixpoint slot_in (hlc : Hlc) (c : Change) (es : list (Hlc * Change)) : list (Hlc * Change) :=
  match es with
  | [] => [(hlc, c)]
  | e :: es' => if Hlc_leb (fst e) hlc then e :: slot_in hlc c es' else (hlc, c) :: es
  end.

(** Records a change on a text that holds [current]: the history after, and the text to hold. *)
Definition record (h : TextHistory) (current : bytes) (hlc : Hlc) (c : Change) (max : nat)
    : TextHistory * result TextEditError bytes :=
  if Hlc_ltb hlc (since h) then (h, Ok current)
  else
    let late := match last (edits h) with Some e => Hlc_ltb hlc (fst e) | None => false end in
    if late then
      let h1 := mkTextHistory (base h) (since h) (slot_in hlc c (edits h)) in
      (trim h1 max, Ok (replay h1))
    else
      match Change_on c current with
      | Err e => (h, Err e)
      | Ok next => (trim (mkTextHistory (base h) (since h) (edits h ++ [(hlc, c)])) max, Ok next)
      end.

Definition TextHistory_apply (h : TextHistory) (current : bytes) (hlc : Hlc) (es : list TextEdit)
    (max : nat) : TextHistory * result TextEditError bytes :=
  record h current hlc (Splice es) max.

Definition TextHistory_set_pri (h : TextHistory) (current : bytes) (hlc : Hlc) (letter : char)
    (max : nat) : TextHistory * bytes :=
  match record h current hlc (Pri letter) max with
  | (h', Ok t) => (h', t)
  | (h', Err _) => (h', set_pri current letter true)
  end.

Definition TextHistory_remove_tag (h : TextHistory) (current : bytes) (hlc : Hlc) (key : bytes)
    (max : nat) : TextHistory * bytes :=
  match record h current hlc (RemoveTagNamed key) max with
  | (h', Ok t) => (h', t)
  | (h', Err _) => (h', TagText_remove_tag current key)
  end.

(** The text set whole by an op stamped [at_]. *)
Definition TextHistory_reset (h : TextHistory) (text : bytes) (at_ : Hlc) : TextHistory * bytes :=
  let h' :=
    if Hlc_leb (since h) at_ then
      mkTextHistory text at_ (List.filter (λ e, Hlc_ltb at_ (fst e)) (edits h))
    else h in
  (h', replay h').

(** A newer priority on the done line: every recorded tag and the base's take the letter. *)
Definition TextHistory_swap_pri (h : TextHistory) (letter : char) : TextHistory * option bytes :=
  let h' := mkTextHistory (set_pri (base h) letter false) (since h)
    (map (λ e, match snd e with Pri _ => (fst e, Pri letter) | _ => e end) (edits h)) in
  let text := replay h' in
  (h', if bool_decide (set_pri text letter false = text) then Some text else None).

(** A newer cleared priority on the done line: every recorded tag goes. *)
Definition TextHistory_clear_pri (h : TextHistory) : TextHistory * option bytes :=
  let h' := mkTextHistory (TagText_remove_tag (base h) (str "pri")) (since h)
    (List.filter (λ e, match snd e with Pri _ => false | _ => true end) (edits h)) in
  let text := replay h' in
  (h', if has_pri text then None else Some text).

(** A stable sort by stamp, as [sort_by_key]. *)
Fixpoint sort_by_stamp (es : list (Hlc * Change)) : list (Hlc * Change) :=
  match es with
  | [] => []
  | e :: es' =>
      (fix ins l := match l with
        | [] => [e]
        | f :: l' => if Hlc_leb (fst e) (fst f) then e :: l else f :: ins l'
        end) (sort_by_stamp es')
  end.

(** After a commit: edits recorded under the scratch stamp take the commit's stamp. *)
Definition settle (h : TextHistory) (scratch real : Hlc) : TextHistory :=
  mkTextHistory (base h) (if bool_decide (since h = scratch) then real else since h)
    (sort_by_stamp (map (λ e, if bool_decide (fst e = scratch) then (real, snd e) else e) (edits h))).

(** ** Stamp order *)

Definition stamp_le (a b : Hlc * Change) : Prop := ¬ Hlc_lt (fst b) (fst a).

Lemma Hlc_leb_spec a b : Hlc_leb a b = true ↔ ¬ Hlc_lt b a.
Proof.
  unfold Hlc_leb, Hlc_compare, Hlc_lt.
  destruct (N.compare_spec (wall_ms a) (wall_ms b)); [|split; [lia|done]|split; [done|]; lia].
  destruct (N.compare_spec (counter a) (counter b)); [|split; [lia|done]|split; [done|]; lia].
  destruct (N.compare_spec (device a) (device b)); split; intros; try done; lia.
Qed.

#[global] Instance stamp_le_trans : Transitive stamp_le.
Proof. intros a b c. unfold stamp_le, Hlc_lt. lia. Qed.

(** The kept edits, oldest stamp first. *)
Definition in_order (h : TextHistory) : Prop := Sorted stamp_le (edits h).

Lemma slot_in_Permutation hlc c es : slot_in hlc c es ≡ₚ (hlc, c) :: es.
Proof.
  induction es as [|e es IH]; simpl; [done|]. destruct (Hlc_leb _ _); [|done].
  by rewrite IH, Permutation_swap.
Qed.

Lemma slot_in_sorted hlc c es : Sorted stamp_le es → Sorted stamp_le (slot_in hlc c es).
Proof.
  induction 1 as [|e es Hs IH Hhd]; simpl; [by repeat constructor|].
  destruct (Hlc_leb (fst e) hlc) eqn:E.
  - constructor; [done|]. apply Hlc_leb_spec in E. destruct es as [|f es]; simpl; [by constructor|].
    destruct (Hlc_leb (fst f) hlc); constructor; [by inversion Hhd|done].
  - constructor; [by constructor|]. constructor. unfold stamp_le; simpl. intros Hlt.
    apply not_true_iff_false in E. apply E, Hlc_leb_spec. unfold Hlc_lt in *. lia.
Qed.

Lemma append_sorted hlc c es :
  Sorted stamp_le es → (match last es with Some e => Hlc_ltb hlc (fst e) = false | None => True end) →
  Sorted stamp_le (es ++ [(hlc, c)]).
Proof.
  induction 1 as [|e es Hs IH Hhd]; intros Hl; simpl; [by repeat constructor|].
  destruct es as [|f es]; simpl in *.
  - constructor; [by repeat constructor|]. constructor. unfold stamp_le; simpl.
    rewrite <- Hlc_ltb_spec. congruence.
  - constructor; [by apply IH|]. constructor. by inversion Hhd.
Qed.

(** ** The held text is the replay *)

Lemma trim_edits_spec max b es :
  let '(b', es') := trim_edits max b es in
  foldl replay_step b' es' = foldl replay_step b es ∧ ∃ gone, es = gone ++ es'.
Proof.
  revert b. induction es as [|e es IH]; intros b; cbn [trim_edits]; [split; [done|by exists []]|].
  destruct (max <? length (e :: es)); [|split; [done|by exists []]].
  specialize (IH (replay_step b e)). destruct (trim_edits _ _ _) as [b' es'].
  destruct IH as [IH [gone ->]]. split; [done|]. by exists (e :: gone).
Qed.

Lemma trim_edits_id max b es : length es ≤ max → trim_edits max b es = (b, es).
Proof. intros H. destruct es as [|e es]; [done|]. cbn [trim_edits]. by rewrite (proj2 (Nat.ltb_ge _ _)). Qed.

Lemma Sorted_suffix {A} (R : A → A → Prop) l1 l2 : Sorted R (l1 ++ l2) → Sorted R l2.
Proof. induction l1 as [|x l1 IH]; simpl; [done|]. intros H. apply IH. by inversion H. Qed.

(** The text the caller holds is what the history replays to. *)
Definition in_step (h : TextHistory) (current : bytes) : Prop := replay h = current ∧ in_order h.

Lemma trim_in_step h max current : in_step h current → in_step (trim h max) current.
Proof.
  intros [<- Ho]. unfold trim, in_step, in_order, replay in *.
  pose proof (trim_edits_spec max (base h) (edits h)) as H. destruct (trim_edits _ _ _) as [b es].
  destruct H as [H [gone Hg]]. simpl. split; [done|]. rewrite Hg in Ho. by apply Sorted_suffix in Ho.
Qed.

Lemma record_in_step h current hlc c max :
  in_step h current →
  match record h current hlc c max with
  | (h', Ok t) => in_step h' t
  | (h', Err e) => h' = h ∧ Change_on c current = Err e
  end.
Proof.
  intros [Hr Ho]. unfold record. destruct (Hlc_ltb hlc (since h)); [by split|].
  destruct (match last (edits h) with Some e => Hlc_ltb hlc (fst e) | None => false end) eqn:El.
  - apply trim_in_step. split; [done|]. by apply slot_in_sorted.
  - destruct (Change_on c current) as [t|e] eqn:Ec; [|done].
    apply trim_in_step. split.
    + unfold replay in *. simpl. rewrite foldl_app, Hr. simpl. unfold replay_step. simpl. by rewrite Ec.
    + apply append_sorted; [done|]. destruct (last (edits h)); [done|done].
Qed.

Lemma filter_sorted (f : Hlc * Change → bool) es : Sorted stamp_le es → Sorted stamp_le (List.filter f es).
Proof.
  intros H. apply Sorted_StronglySorted in H; [|apply _]. apply StronglySorted_Sorted.
  induction H as [|e es _ IH Hall]; simpl; [constructor|]. destruct (f e); [|done].
  constructor; [done|]. rewrite Forall_forall in *. intros x Hx. apply Hall.
  apply list_elem_of_In, filter_In in Hx as [Hx _]. by apply list_elem_of_In.
Qed.

Lemma map_sorted (f : Hlc * Change → Hlc * Change) es :
  (∀ e, fst (f e) = fst e) → Sorted stamp_le es → Sorted stamp_le (map f es).
Proof.
  intros Hf. induction 1 as [|e es _ IH Hhd]; simpl; [constructor|]. constructor; [done|].
  destruct es as [|e' es]; simpl; constructor. inversion Hhd; subst. unfold stamp_le in *. by rewrite !Hf.
Qed.

(** A document's text and its history, and everything its owner may do with them. *)
Inductive history_step : TextHistory * bytes → TextHistory * bytes → Prop :=
| step_record h t hlc c max h' t' :
    record h t hlc c max = (h', Ok t') → history_step (h, t) (h', t')
| step_refused h t hlc c max h' e :
    record h t hlc c max = (h', Err e) → history_step (h, t) (h', t)
| step_set_pri h t hlc letter max h' t' :
    TextHistory_set_pri h t hlc letter max = (h', t') → history_step (h, t) (h', t')
| step_remove_tag h t hlc key max h' t' :
    TextHistory_remove_tag h t hlc key max = (h', t') → history_step (h, t) (h', t')
| step_reset h t text at_ h' t' :
    TextHistory_reset h text at_ = (h', t') → history_step (h, t) (h', t')
| step_swap_pri h t letter h' t' :
    TextHistory_swap_pri h letter = (h', Some t') → history_step (h, t) (h', t')
| step_clear_pri h t h' t' :
    TextHistory_clear_pri h = (h', Some t') → history_step (h, t) (h', t')
| step_dropped h t t' : history_step (h, t) (TextHistory_new t', t').

Lemma history_step_in_step s s' :
  history_step s s' → in_step (fst s) (snd s) → in_step (fst s') (snd s').
Proof.
  destruct 1 as [h t hlc c max h' t' H|h t hlc c max h' e H|h t hlc letter max h' t' H
    |h t hlc key max h' t' H|h t text at_ h' t' H|h t letter h' t' H|h t h' t' H|h t t'];
    simpl; intros Hs.
  - pose proof (record_in_step h t hlc c max Hs) as Hr. by rewrite H in Hr.
  - pose proof (record_in_step h t hlc c max Hs) as Hr. rewrite H in Hr. by destruct Hr as [-> _].
  - unfold TextHistory_set_pri in H. pose proof (record_in_step h t hlc (Pri letter) max Hs) as Hr.
    destruct (record _ _ _ _ _) as [h1 [t1|e1]]; [by injection H as <- <-|by destruct Hr].
  - unfold TextHistory_remove_tag in H. pose proof (record_in_step h t hlc (RemoveTagNamed key) max Hs) as Hr.
    destruct (record _ _ _ _ _) as [h1 [t1|e1]]; [by injection H as <- <-|by destruct Hr].
  - unfold TextHistory_reset in H. injection H as <- <-. split; [done|].
    destruct (Hlc_leb _ _); [|apply Hs]. apply filter_sorted, Hs.
  - unfold TextHistory_swap_pri in H. injection H as <- H. case_match; [|done]. injection H as <-.
    split; [done|]. apply map_sorted; [|apply Hs]. intros [? []]; done.
  - unfold TextHistory_clear_pri in H. injection H as <- H. case_match; [done|]. injection H as <-.
    split; [done|]. apply filter_sorted, Hs.
  - split; [done|constructor].
Qed.

(** ** Arrival orders *)

(** Changes arriving one by one, all accepted. *)
Fixpoint arrive (max : nat) (h : TextHistory) (current : bytes) (ms : list (Hlc * Change))
    : option (TextHistory * bytes) :=
  match ms with
  | [] => Some (h, current)
  | (hlc, c) :: ms' =>
      match record h current hlc c max with
      | (h', Ok t) => arrive max h' t ms'
      | (_, Err _) => None
      end
  end.

Lemma record_kept max h current hlc c h' t :
  in_step h current → ¬ Hlc_lt hlc (since h) → length (edits h) < max →
  record h current hlc c max = (h', Ok t) →
  in_step h' t ∧ base h' = base h ∧ since h' = since h ∧ edits h' ≡ₚ (hlc, c) :: edits h.
Proof.
  intros Hs Hsince Hlen H. pose proof (record_in_step h current hlc c max Hs) as Hr. rewrite H in Hr.
  split; [done|]. clear Hr. unfold record in H. destruct (Hlc_ltb hlc (since h)) eqn:E.
  { by apply Hlc_ltb_spec in E. }
  assert (∀ es, es ≡ₚ (hlc, c) :: edits h → trim (mkTextHistory (base h) (since h) es) max
    = mkTextHistory (base h) (since h) es) as Htrim.
  { intros es Hp. unfold trim. simpl. rewrite trim_edits_id; [done|].
    rewrite (Permutation_length Hp). simpl. lia. }
  destruct (match last (edits h) with Some e => Hlc_ltb hlc (fst e) | None => false end).
  - rewrite Htrim in H by apply slot_in_Permutation. injection H as <- <-.
    split_and!; [done|done|apply slot_in_Permutation].
  - destruct (Change_on c current); [|done].
    assert (edits h ++ [(hlc, c)] ≡ₚ (hlc, c) :: edits h) as Hp by (by rewrite Permutation_app_comm).
    rewrite Htrim in H by done. injection H as <- <-. by split_and!.
Qed.

Lemma arrive_spec max h current ms h' t :
  in_step h current → Forall (λ m, ¬ Hlc_lt (fst m) (since h)) ms → length (edits h) + length ms ≤ max →
  arrive max h current ms = Some (h', t) →
  in_step h' t ∧ base h' = base h ∧ edits h' ≡ₚ ms ++ edits h.
Proof.
  revert h current. induction ms as [|[hlc c] ms IH]; intros h current Hs Hsince Hlen H; cbn [arrive] in H.
  { by injection H as <- <-. }
  inversion Hsince as [|? ? Hm Hms]; subst. simpl in Hlen.
  destruct (record h current hlc c max) as [h1 [t1|e1]] eqn:E; [|done].
  apply record_kept in E as (Hs1 & Hb1 & Hsi1 & Hp1); [|done|done|lia].
  destruct (IH h1 t1) as (H1 & H2 & H3); [done|by rewrite Hsi1| |done|].
  { rewrite (Permutation_length Hp1). simpl. lia. }
  split_and!; [done|congruence|]. rewrite H3, Hp1. simpl. by rewrite Permutation_middle.
Qed.
End history.

(** A document's text is always its history replayed: whatever its owner records, refuses, resets,
    retags or drops, the text held is the base with every kept change applied in stamp order. *)
Theorem history_in_step (apply : ApplyEdits) (t0 : bytes) (s : TextHistory * bytes) :
  rtc (history_step apply) (TextHistory_new t0, t0) s → in_step apply (fst s) (snd s).
Proof.
  intros H. assert (in_step apply (fst (TextHistory_new t0, t0)) (snd (TextHistory_new t0, t0))) as H0.
  { split; [done|constructor]. }
  induction H as [|s1 s2 s3 Hs _ IH]; [done|]. apply IH. by eapply history_step_in_step.
Qed.

Definition stamp_at (wall : N) : Hlc := mkHlc wall 0 1.

Lemma history_in_step_witness :
  in_step apply_notes_edits
    (fst (record apply_notes_edits (TextHistory_new (str "line")) (str "line") (stamp_at 10) (Splice [TInsert 4 (str "!")]) 64))
    (str "line!").
Proof.
  eapply (history_in_step apply_notes_edits (str "line")
    (fst (record apply_notes_edits (TextHistory_new (str "line")) (str "line") (stamp_at 10) (Splice [TInsert 4 (str "!")]) 64), str "line!")).
  apply rtc_once. eapply (step_record _ _ _ (stamp_at 10) (Splice [TInsert 4 (str "!")]) 64).
  vm_compute. reflexivity.
Defined.

(** The order of arrival does not show in what is kept. *)
Lemma arrival_order (apply : ApplyEdits) (max : nat) (h : TextHistory) (current : bytes)
    (ms1 ms2 : list (Hlc * Change)) (r1 r2 : TextHistory * bytes) :
  in_step apply h current →
  Forall (λ m, ¬ Hlc_lt (fst m) (since h)) ms1 → length (edits h) + length ms1 ≤ max →
  NoDup (map fst (ms1 ++ edits h)) → ms1 ≡ₚ ms2 →
  arrive apply max h current ms1 = Some r1 → arrive apply max h current ms2 = Some r2 →
  snd r1 = snd r2 ∧ edits (fst r1) = edits (fst r2).
Proof.
  intros Hs Hsince Hlen Hnd Hp H1 H2. destruct r1 as [h1 t1], r2 as [h2 t2].
  apply arrive_spec in H1 as ((Hr1 & Ho1) & Hb1 & He1); [|done..].
  apply arrive_spec in H2 as ((Hr2 & Ho2) & Hb2 & He2); [|done| |by rewrite <- (Permutation_length Hp)].
  2: { by rewrite <- Hp. }
  assert (edits h1 = edits h2) as He; [|split; [|done]; simpl; rewrite <- Hr1, <- Hr2; unfold replay; congruence].
  assert (edits h1 ≡ₚ edits h2) as Hpp by by rewrite He1, He2, Hp.
  eapply (Sorted_unique_strong stamp_le); [|done|done|done].
  intros [s c] [s' c'] Hin1 Hin2 Hle1 Hle2. unfold stamp_le in *. simpl in *.
  assert (s = s') as <- by (destruct (Hlc_lt_total s s') as [?|[?|?]]; done).
  assert (NoDup (map fst (edits h1))) as Hnd1.
  { change (map fst) with (fmap (M:=list) (fst (A:=Hlc) (B:=Change))) in *. by rewrite He1. }
  rewrite <- Hpp in Hin2. clear -Hnd1 Hin1 Hin2.
  apply list_elem_of_lookup in Hin1 as [i Hi], Hin2 as [j Hj].
  change (map fst) with (fmap (M:=list) (fst (A:=Hlc) (B:=Change))) in Hnd1.
  assert (i = j) as ->.
  { eapply (NoDup_lookup _ _ _ _ Hnd1); rewrite list_lookup_fmap; [by rewrite Hi|by rewrite Hj]. }
  congruence.
Qed.

(** C29. Convergence: two devices that start from one history, in step with its text, and take the same
    changes in two orders, none refused, hold the same text and the same history. The changes, those the
    history has included, have stamps of their own; none is older than the changes already folded into the
    base, and there are few enough that none is folded away on the way. A change older than the base
    is applied to the text as it is, which depends on the order. *)
Theorem arrival_order_converges (apply : ApplyEdits) (max : nat) (h : TextHistory) (current : bytes)
    (ms1 ms2 : list (Hlc * Change)) (r1 r2 : TextHistory * bytes) :
  in_step apply h current →
  Forall (λ m, ¬ Hlc_lt (fst m) (since h)) ms1 → length (edits h) + length ms1 ≤ max →
  NoDup (map fst (ms1 ++ edits h)) → ms1 ≡ₚ ms2 →
  arrive apply max h current ms1 = Some r1 → arrive apply max h current ms2 = Some r2 →
  snd r1 = snd r2 ∧ edits (fst r1) = edits (fst r2).
Proof. apply arrival_order. Qed.

(** An edit and a completion's tag, made on two devices, arriving in either order. *)
Definition two_changes : list (Hlc * Change) :=
  [(stamp_at 10, Splice [TInsert 4 (str "!")]); (stamp_at 20, Pri 65)].

Lemma arrival_order_converges_witness :
  match arrive apply_notes_edits 64 (TextHistory_new (str "line")) (str "line") two_changes,
        arrive apply_notes_edits 64 (TextHistory_new (str "line")) (str "line") (reverse two_changes) with
  | Some r1, Some r2 => snd r1 = snd r2 ∧ snd r1 = str "line! pri:A"
  | _, _ => False
  end.
Proof.
  destruct (arrive apply_notes_edits 64 (TextHistory_new (str "line")) (str "line") two_changes) as [r1|] eqn:E1;
    [|vm_compute in E1; discriminate E1].
  destruct (arrive apply_notes_edits 64 (TextHistory_new (str "line")) (str "line") (reverse two_changes)) as [r2|] eqn:E2;
    [|vm_compute in E2; discriminate E2].
  split.
  - apply (arrival_order_converges apply_notes_edits 64 (TextHistory_new (str "line")) (str "line")
      two_changes (reverse two_changes) r1 r2); try done.
    + split; [done|constructor].
    + repeat constructor; unfold Hlc_lt; simpl; lia.
    + simpl. lia.
    + apply NoDup_ListNoDup. repeat constructor; simpl; intuition discriminate.
    + by rewrite reverse_Permutation.
  - vm_compute in E1. injection E1 as <-. reflexivity.
Defined.
