(* ===== verification/Ops.v ===== *)
(** The op model of [crates/txtodo-model/src/op.rs] and the document paths of [ids.rs].

    The theorems: an accepted path names a file inside the workspace; a set-field op always pairs a
    field with a value of its type; and dates, priorities and quirks survive the trip through their
    raw op form. *)
From S2P Require Import Prelude.
From S2P Require Import Utf8.
From S2P Require Import Types.
From S2P Require Import Hlc.
From S2P Require Import Myers.
From S2P Require Import Diff.

(** ** ids.rs: workspace-relative paths *)

Definition FILE_PATH_MAX_BYTES : nat := 1024.

Inductive FilePathError :=
| FilePathEmpty
| FilePathTooLong (n : nat)
| FilePathMalformed (p : bytes).

(** [FilePath(String)]. *)
Abbreviation FilePath := bytes.

Definition is_slash (c : byte) : bool := bool_decide (c = "/"%byte).

Definition FilePath_new (path : bytes) : result FilePathError FilePath :=
  if bool_decide (path = []) then Err FilePathEmpty
  else if FILE_PATH_MAX_BYTES <? length path then Err (FilePathTooLong (length path))
  else
    let bad_start := starts_with (str "/") path || contains_byte "\"%byte path in
    let bad_segment :=
      existsb (λ s, bool_decide (s = []) || bool_decide (s = str ".") || bool_decide (s = str ".."))
        (split_on is_slash path) in
    if bad_start || bad_segment then Err (FilePathMalformed path) else Ok path.

(** ** op.rs *)

Inductive Field :=
| FCompleted | FCompletionDate | FCreationDate | FPriority | FDeleted | FQuirks.

(** A field's new value, in its raw representation. *)
Inductive FieldValue :=
| FVBool (b : bool)
| FVDate (d : option (N * N * N))
| FVPriority (p : option char)
| FVQuirks (bits : N).

Inductive OpKind :=
| KInsert (task : TaskId) (after : option TaskId) (line : bytes)
| KSetField (task : TaskId) (field : Field) (value : FieldValue)
| KEditText (task : TaskId) (edits : list TextEdit)
| KMove (task : TaskId) (after : option TaskId) (to_file : FilePath)
| KNotesEdit (file : FilePath) (edits : list TextEdit)
| KBlankInsert (after : option TaskId)
| KBlankRemove (after : option TaskId)
| KRemoveTag (task : TaskId) (key : bytes).

Inductive Principal :=
| PUser (dev : DeviceId)
| PAgent (token_id : TokenId) (name : bytes) (dev : DeviceId)
| PExternal (dev : DeviceId).

Record Op := mkOp {
  op_id : OpId; op_hlc : Hlc; op_principal : Principal; op_file : FilePath; op_kind : OpKind
}.

#[global] Instance Field_eq_dec : EqDecision Field.
Proof. solve_decision. Defined.
#[global] Instance FieldValue_eq_dec : EqDecision FieldValue.
Proof. solve_decision. Defined.
#[global] Instance OpKind_eq_dec : EqDecision OpKind.
Proof. solve_decision. Defined.
#[global] Instance Principal_eq_dec : EqDecision Principal.
Proof. solve_decision. Defined.
#[global] Instance Op_eq_dec : EqDecision Op.
Proof. solve_decision. Defined.
#[global] Instance Field_countable : Countable Field.
Proof.
  refine (inj_countable'
    (λ f, match f with FCompleted => 0 | FCompletionDate => 1 | FCreationDate => 2
                     | FPriority => 3 | FDeleted => 4 | FQuirks => 5 end)
    (λ n, match n with 0 => FCompleted | 1 => FCompletionDate | 2 => FCreationDate
                     | 3 => FPriority | 4 => FDeleted | _ => FQuirks end) _).
  by intros [].
Defined.

(** The pairing rule of [set_field]. *)
Definition field_fits (f : Field) (v : FieldValue) : bool :=
  match f, v with
  | FCompleted, FVBool _ | FDeleted, FVBool _ => true
  | FCompletionDate, FVDate _ | FCreationDate, FVDate _ => true
  | FPriority, FVPriority _ => true
  | FQuirks, FVQuirks _ => true
  | _, _ => false
  end.

(** Builds a set-field op after checking the pairing; the error is the field. *)
Definition op_set_field (task : TaskId) (f : Field) (v : FieldValue) : result Field OpKind :=
  if field_fits f v then Ok (KSetField task f v) else Err f.

Definition ALL_QUIRKS : list Quirks :=
  [NO_COMPLETION_DATE; PRIORITY_AFTER_X; PRIORITY_AFTER_DATE; TABS; TRAILING_WS; INVALID_REF;
   MIXED_ENDING; LEADING_WS].

Definition FieldValue_date (d : option Date) : FieldValue :=
  FVDate ((λ d, (year d, month d, day d)) <$> d).
Definition FieldValue_priority (p : option Priority) : FieldValue :=
  FVPriority (Priority_as_char <$> p).
(** A bit per set flag, in the order of [ALL_QUIRKS]. *)
Definition FieldValue_quirks (q : Quirks) : FieldValue :=
  FVQuirks (foldl (λ m '(i, f), if Quirks_has q f then N.lor m (N.shiftl 1 (N.of_nat i)) else m) 0%N
              (imap (λ i f, (i, f)) ALL_QUIRKS)).

Definition FieldValue_as_date (v : FieldValue) : option (option Date) :=
  match v with
  | FVDate None => Some None
  | FVDate (Some (y, m, d)) => Some <$> Date_new y m d
  | _ => None
  end.
Definition FieldValue_as_quirks (v : FieldValue) : option Quirks :=
  match v with
  | FVQuirks bits =>
      Some (foldl (λ q '(i, f), if (N.land bits (N.shiftl 1 (N.of_nat i)) =? 0)%N then q else Quirks_insert q f) NONE
              (imap (λ i f, (i, f)) ALL_QUIRKS))
  | _ => None
  end.

(** ** Paths *)

(** Where a sequence of segments leads from a directory: [.] stays, [..] goes up. *)
Fixpoint resolve (dir : list bytes) (segments : list bytes) : list bytes :=
  match segments with
  | [] => dir
  | s :: segments' =>
      if bool_decide (s = []) || bool_decide (s = str ".") then resolve dir segments'
      else if bool_decide (s = str "..") then resolve (take (length dir - 1) dir) segments'
      else resolve (dir ++ [s]) segments'
  end.

Lemma resolve_plain dir segments :
  existsb (λ s, bool_decide (s = []) || bool_decide (s = str ".") || bool_decide (s = str "..")) segments = false →
  resolve dir segments = dir ++ segments.
Proof.
  revert dir. induction segments as [|s segments IH]; intros dir H; simpl in *; [by rewrite app_nil_r|].
  apply orb_false_iff in H as [H1 H2]. apply orb_false_iff in H1 as [H1 H3]. rewrite H1, H3, IH by done.
  by rewrite <- app_assoc.
Qed.

(** An accepted path is the text given, at most 1024 bytes, relative, and names exactly the file
    its segments spell below whatever directory it is resolved against: it cannot leave the
    workspace. *)
Theorem FilePath_new_safe (path p : bytes) (root : list bytes) :
  FilePath_new path = Ok p →
  p = path ∧ length p ≤ 1024 ∧ starts_with (str "/") p = false
  ∧ resolve root (split_on is_slash p) = root ++ split_on is_slash p.
Proof.
  unfold FilePath_new. case_bool_decide; [done|].
  destruct (FILE_PATH_MAX_BYTES <? length path) eqn:El; [done|]. breflect.
  destruct (_ || _) eqn:E; [done|]. intros [= <-].
  apply orb_false_iff in E as [E1 E2]. apply orb_false_iff in E1 as [E1 _].
  split_and!; [done|exact El|done|]. by apply resolve_plain.
Qed.

Lemma FilePath_new_safe_witness :
  resolve [str "home"; str "todo"] (split_on is_slash (str "q4/sync/todo.txt"))
    = [str "home"; str "todo"; str "q4"; str "sync"; str "todo.txt"]
  ∧ FilePath_new (str "a/../../b") = Err (FilePathMalformed (str "a/../../b")).
Proof.
  split; [|by vm_compute].
  exact (proj2 (proj2 (proj2 (FilePath_new_safe (str "q4/sync/todo.txt") _ [str "home"; str "todo"] eq_refl)))).
Defined.

(** ** Values *)

Lemma quirks_round_trip_byte (b : N) :
  (b < 256)%N → FieldValue_as_quirks (FieldValue_quirks (mkQuirks b)) = Some (mkQuirks b).
Proof.
  intros Hb. assert (forallb (λ n, bool_decide (FieldValue_as_quirks (FieldValue_quirks (mkQuirks (N.of_nat n)))
    = Some (mkQuirks (N.of_nat n)))) (seq 0 256) = true) as H by by vm_compute.
  rewrite forallb_forall in H. specialize (H (N.to_nat b)).
  rewrite N2Nat.id in H. eapply bool_decide_eq_true_1, H. apply in_seq. lia.
Qed.

(** A set-field op carries its value without loss: a real date, a priority letter and any set of
    quirks read back as they were, and the pairing check accepts exactly the value's own fields. *)
Theorem field_value_round_trip (d : option Date) (q : Quirks) (p : option Priority) :
  (∀ d', d = Some d' → Date_valid d') → (bits_of q < 256)%N →
  FieldValue_as_date (FieldValue_date d) = Some d
  ∧ FieldValue_as_quirks (FieldValue_quirks q) = Some q
  ∧ (∀ f, field_fits f (FieldValue_date d) = true ↔ f = FCompletionDate ∨ f = FCreationDate)
  ∧ (∀ f, field_fits f (FieldValue_priority p) = true ↔ f = FPriority)
  ∧ (∀ f, field_fits f (FieldValue_quirks q) = true ↔ f = FQuirks).
Proof.
  intros Hd Hq. split_and!.
  - destruct d as [d|]; [|done]. simpl. specialize (Hd d eq_refl). unfold Date_valid in Hd. by rewrite Hd.
  - destruct q as [b]. by apply quirks_round_trip_byte.
  - intros []; simpl; split; intros; try done; auto; naive_solver.
  - by intros [].
  - by intros [].
Qed.

Lemma field_value_round_trip_witness :
  FieldValue_as_quirks (FieldValue_quirks (Quirks_insert TABS LEADING_WS)) = Some (Quirks_insert TABS LEADING_WS).
Proof.
  apply (field_value_round_trip (Some (mkDate 2026 9 11)) (Quirks_insert TABS LEADING_WS) None).
  - intros d [= <-]. reflexivity.
  - vm_compute. reflexivity.
Defined.
