(* ===== verification/Notes.v ===== *)
(** A notes document: [notes_state.rs] of [crates/txtodo-engine/src].

    A notes document is its file's text, and a history of the edits since it was opened. The theorems:
    what an op refused leaves is the whole document; the text stays within its bound and in step with its
    history; two devices that take the same edits in two orders hold the same bytes. *)
From S2P Require Import Prelude.
From S2P Require Import Utf8.
From S2P Require Import Types.
From S2P Require Import Scanner.
From S2P Require Import TodoFile.
From S2P Require Import Myers.
From S2P Require Import Diff.
From S2P Require Import Hlc.
From S2P Require Import TextHistory.
From S2P Require Import Ops.

(** ** notes_state.rs *)

Definition MAX_NOTES_BYTES : N := (8 * 1024 * 1024)%N.

Inductive NotesStateError :=
| NotUtf8
| TooManyBytes (n : nat)
| NotesText (e : TextEditError)
| NotesUnsupported (what : bytes)
| WrongFile (path : FilePath).

Record NotesState := mkNotesState {
  ns_path : FilePath;
  ns_text : bytes;
  ns_history : option TextHistory
}.

(** [==]: the history is not compared. *)
Definition NotesState_eqb (a b : NotesState) : bool :=
  bool_decide (ns_path a = ns_path b) && bool_decide (ns_text a = ns_text b).

Definition NotesState_empty (path : FilePath) : NotesState := mkNotesState path [] None.

Definition too_many (bs : bytes) : bool := (MAX_NOTES_BYTES <? N.of_nat (length bs))%N.

Definition NotesState_from_bytes (path : FilePath) (bs : bytes) : result NotesStateError NotesState :=
  if too_many bs then Err (TooManyBytes (length bs))
  else if is_utf8 bs then Ok (mkNotesState path bs None)
  else Err NotUtf8.

Definition NotesState_to_bytes (s : NotesState) : bytes := ns_text s.

Definition op_kind_name (k : OpKind) : bytes :=
  match k with
  | KInsert _ _ _ => str "Insert"
  | KSetField _ _ _ => str "SetField"
  | KEditText _ _ => str "EditText"
  | KMove _ _ _ => str "Move"
  | KNotesEdit _ _ => str "NotesEdit"
  | KBlankInsert _ => str "BlankInsert"
  | KBlankRemove _ => str "BlankRemove"
  | KRemoveTag _ _ => str "RemoveTag"
  end.

(** [text_history.apply], and the bound on what it gives. *)
Definition notes_next (h : TextHistory) (text : bytes) (hlc : Hlc) (edits : list TextEdit)
  : TextHistory * result NotesStateError bytes :=
  let '(h', r) := TextHistory_apply apply_notes_edits h text hlc edits MAX_EDITS_PER_NOTES in
  (h', next ← map_err NotesText r; if too_many next then Err (TooManyBytes (length next)) else mret next).

(** The state after, and the error: on an error [saved] is put back. *)
Definition notes_apply (s : NotesState) (o : Op) : NotesState * result NotesStateError () :=
  match op_kind o with
  | KNotesEdit file edits =>
      if negb (bool_decide (file = ns_path s)) || negb (bool_decide (op_file o = ns_path s)) then (s, Err (WrongFile file))
      else
        let saved := ns_history s in
        let history := default (TextHistory_new (ns_text s)) (ns_history s) in
        match notes_next history (ns_text s) (op_hlc o) edits with
        | (h', Ok next) => (mkNotesState (ns_path s) next (Some h'), Ok ())
        | (_, Err e) => (mkNotesState (ns_path s) (ns_text s) saved, Err e)
        end
  | k => (s, Err (NotesUnsupported (op_kind_name k)))
  end.

Definition notes_apply_edits (s : NotesState) (edits : list TextEdit) : NotesState * result NotesStateError () :=
  match apply_notes_edits (ns_text s) edits with
  | Err e => (s, Err (NotesText e))
  | Ok next =>
      if too_many next then (s, Err (TooManyBytes (length next)))
      else (mkNotesState (ns_path s) next None, Ok ())
  end.

Definition notes_adopt_history (s replayed : NotesState) : NotesState :=
  if bool_decide (ns_text replayed = ns_text s) then mkNotesState (ns_path s) (ns_text s) (ns_history replayed) else s.

(** ** Samples *)

Definition notes_path : FilePath := str "tasks/a/notes.md".
Definition notes_op (wall : N) (file : FilePath) (edits : list TextEdit) : Op :=
  mkOp wall (mkHlc wall 0 1) (PUser 1) file (KNotesEdit file edits).
Definition sample_notes : NotesState := mkNotesState notes_path (str "one" ++ [x0a]) None.

(** An edit that arrives late is slotted in before the newer one. *)
Example notes_sample :
  let early := notes_op 10 notes_path [TInsert 0 (str "a ")] in
  let late := notes_op 20 notes_path [TInsert 0 (str "b ")] in
  let text s := ns_text s in
  text (fst (notes_apply (fst (notes_apply sample_notes late)) early)) = str "b a one" ++ [x0a]
  ∧ snd (notes_apply sample_notes (notes_op 10 (str "notes.md") [])) = Err (WrongFile (str "notes.md")).
Proof. vm_compute. split; reflexivity. Qed.

(** ** What holds of every document *)

(** Within the bound, and its history replays to it. *)
Definition notes_ok (s : NotesState) : Prop :=
  too_many (ns_text s) = false ∧ ∀ h, ns_history s = Some h → in_step apply_notes_edits h (ns_text s).

Inductive notes_step : NotesState → NotesState → Prop :=
| step_apply s o : notes_step s (fst (notes_apply s o))
| step_apply_edits s edits : notes_step s (fst (notes_apply_edits s edits))
| step_adopt s replayed : notes_ok replayed → notes_step s (notes_adopt_history s replayed).

Lemma in_step_new t : in_step apply_notes_edits (TextHistory_new t) t.
Proof. split; [done|constructor]. Qed.

Lemma history_or_new_ok s : notes_ok s → in_step apply_notes_edits (default (TextHistory_new (ns_text s)) (ns_history s)) (ns_text s).
Proof. intros [_ H]. destruct (ns_history s) as [h|]; [by apply H|apply in_step_new]. Qed.

Lemma notes_next_ok h text hlc edits h' next :
  in_step apply_notes_edits h text → notes_next h text hlc edits = (h', Ok next) →
  too_many next = false ∧ in_step apply_notes_edits h' next
  ∧ TextHistory_apply apply_notes_edits h text hlc edits MAX_EDITS_PER_NOTES = (h', Ok next).
Proof.
  intros Hs. unfold notes_next. destruct (TextHistory_apply _ _ _ _ _ _) as [h1 [t|e]] eqn:E; cbn; [|done].
  destruct (too_many t) eqn:Et; [done|]. intros [= -> ->]. split_and!; [done| |done].
  pose proof (record_in_step apply_notes_edits h text hlc (Splice edits) MAX_EDITS_PER_NOTES Hs) as H.
  unfold TextHistory_apply in E. by rewrite E in H.
Qed.

(** A refused op leaves the whole document, an accepted one is well formed. *)
Lemma notes_apply_cases s o s' r :
  notes_apply s o = (s', r) →
  (s' = s ∧ ∃ e, r = Err e)
  ∨ ∃ file edits h' next, op_kind o = KNotesEdit file edits ∧ file = ns_path s ∧ op_file o = ns_path s ∧ r = Ok ()
      ∧ notes_next (default (TextHistory_new (ns_text s)) (ns_history s)) (ns_text s) (op_hlc o) edits = (h', Ok next)
      ∧ s' = mkNotesState (ns_path s) next (Some h').
Proof.
  unfold notes_apply. destruct (op_kind o) as [| | | |file edits| | |] eqn:Ek;
    try (intros [= <- <-]; left; split; [done|by eexists]).
  destruct (bool_decide (file = ns_path s)) eqn:Ef; cbn [negb orb]; [|intros [= <- <-]; left; split; [done|by eexists]].
  destruct (bool_decide (op_file o = ns_path s)) eqn:Eo; cbn [negb]; [|intros [= <- <-]; left; split; [done|by eexists]].
  apply bool_decide_eq_true in Ef, Eo. destruct (notes_next _ _ _ _) as [h' [next|e]] eqn:En; intros [= <- <-].
  - right. by exists file, edits, h', next.
  - left. split; [by destruct s|by eexists].
Qed.

Lemma notes_step_ok s s' : notes_step s s' → notes_ok s → notes_ok s' ∧ ns_path s' = ns_path s.
Proof.
  intros H Hs. destruct H as [s o|s edits|s replayed Hr].
  - destruct (notes_apply s o) as [s' r] eqn:E. cbn [fst].
    apply notes_apply_cases in E as [[-> _]|(file & edits & h' & next & _ & _ & _ & _ & Hn & ->)]; [done|].
    apply notes_next_ok in Hn as (Ht & Hi & _); [|by apply history_or_new_ok]. split; [|done]. split; [done|]. cbn. by intros h [= ->].
  - unfold notes_apply_edits. destruct (apply_notes_edits _ _) as [next|e]; [|done]. destruct (too_many next) eqn:E; [done|].
    cbn. split; [|done]. by split.
  - unfold notes_adopt_history. case_bool_decide as E; [|done]. destruct Hs as [Ht _], Hr as [_ Hr]. split; [|done]. split; [done|]. cbn. rewrite <- E. exact Hr.
Qed.

(** C35. A notes document stays whole. Opened from bytes it writes back just these; and after any ops,
    bare edits and adopted histories, taken or refused, its path is the same, its text is within the
    bound and is what its history replays to, and the next op, if refused, leaves all of it as it was. *)
Theorem notes_stay_whole path bs s0 s o :
  NotesState_from_bytes path bs = Ok s0 → rtc notes_step s0 s →
  NotesState_to_bytes s0 = bs ∧ ns_path s = path ∧ notes_ok s ∧ (snd (notes_apply s o) ≠ Ok () → fst (notes_apply s o) = s).
Proof.
  intros H0 H. unfold NotesState_from_bytes in H0. destruct (too_many bs) eqn:Eb; [done|]. destruct (is_utf8 bs); [|done]. injection H0 as <-.
  assert (notes_ok s ∧ ns_path s = path) as [Hok Hp].
  { remember (mkNotesState path bs None) as s0 eqn:E0. assert (notes_ok s0 ∧ ns_path s0 = path) as H0 by (by subst; split; [split|]).
    clear E0. induction H as [|s1 s2 s3 Hs _ IH]; [done|]. apply IH. destruct H0 as [H0 <-]. by apply notes_step_ok in Hs. }
  split_and!; [done|done|done|]. destruct (notes_apply s o) as [s' r] eqn:E. cbn.
  apply notes_apply_cases in E as [[-> _]|(file & edits & h' & next & _ & _ & _ & -> & _)]; [done|]. intros Hne. by destruct Hne.
Qed.

Lemma notes_stay_whole_witness :
  let s := fst (notes_apply sample_notes (notes_op 20 notes_path [TInsert 0 (str "b ")])) in
  ns_text s = str "b one" ++ [x0a] ∧ notes_ok s.
Proof.
  split; [vm_compute; reflexivity|].
  apply (notes_stay_whole notes_path (str "one" ++ [x0a]) sample_notes _ (notes_op 1 notes_path [])); [reflexivity|].
  apply rtc_once. apply (step_apply sample_notes (notes_op 20 notes_path [TInsert 0 (str "b ")])).
Defined.

(** ** Orders of arrival *)

(** Ops taken one by one, all accepted. *)
Fixpoint notes_run (s : NotesState) (ops : list Op) : option NotesState :=
  match ops with
  | [] => Some s
  | o :: ops' => match notes_apply s o with (s', Ok _) => notes_run s' ops' | _ => None end
  end.

Definition notes_edits (o : Op) : list TextEdit := match op_kind o with KNotesEdit _ es => es | _ => [] end.

Lemma notes_run_arrives s ops s' :
  notes_ok s → notes_run s ops = Some s' →
  ∃ h, arrive apply_notes_edits MAX_EDITS_PER_NOTES (default (TextHistory_new (ns_text s)) (ns_history s)) (ns_text s)
         (map (λ o, (op_hlc o, Splice (notes_edits o))) ops) = Some (h, ns_text s') ∧ ns_path s' = ns_path s.
Proof.
  revert s. induction ops as [|o ops IH]; intros s Hs H; cbn [notes_run map arrive] in *; [injection H as <-; by eexists|].
  destruct (notes_apply s o) as [s1 r] eqn:E. destruct r; [|done].
  apply notes_apply_cases in E as [[_ [? ?]]|(file & edits & h' & next & Hk & _ & _ & _ & Hn & ->)]; [done|].
  apply notes_next_ok in Hn as (Ht & Hi & Hr); [|by apply history_or_new_ok]. unfold notes_edits at 1. rewrite Hk.
  unfold TextHistory_apply in Hr. rewrite Hr. apply IH in H as (h & Ha & Hp); [by exists h|]. split; [done|]. cbn. by intros h [= ->].
Qed.

(** Two devices that open the same notes and take the same edits, each with its own stamp and no more
    of them than a history keeps, in whatever orders they arrive, write the same bytes, as long as each
    accepts what it is given. *)
Theorem notes_converge path bs s ops1 ops2 s1 s2 :
  NotesState_from_bytes path bs = Ok s → ops1 ≡ₚ ops2 → NoDup (map op_hlc ops1) → length ops1 ≤ MAX_EDITS_PER_NOTES →
  notes_run s ops1 = Some s1 → notes_run s ops2 = Some s2 →
  NotesState_to_bytes s1 = NotesState_to_bytes s2.
Proof.
  intros H0 Hp Hnd Hlen H1 H2. unfold NotesState_from_bytes in H0. destruct (too_many bs) eqn:Eb; [done|]. destruct (is_utf8 bs); [|done].
  injection H0 as <-. assert (notes_ok (mkNotesState path bs None)) as Hok by by split.
  apply notes_run_arrives in H1 as (h1 & H1 & _); [|done]. apply notes_run_arrives in H2 as (h2 & H2 & _); [|done]. cbn [ns_history ns_text default] in *.
  change (ns_text s1 = ns_text s2). eapply (arrival_order apply_notes_edits _ _ _ _ _ (h1, ns_text s1) (h2, ns_text s2)); [| | | | |exact H1|exact H2].
  - apply in_step_new.
  - apply Forall_forall. intros m _. unfold Hlc_lt. cbn. lia.
  - by rewrite length_map.
  - cbn [edits TextHistory_new]. rewrite app_nil_r, map_map. exact Hnd.
  - by rewrite Hp.
Qed.

Lemma notes_converge_witness :
  let a := notes_op 10 notes_path [TInsert 0 (str "a ")] in
  let b := notes_op 20 notes_path [TInsert 0 (str "b ")] in
  match notes_run sample_notes [a; b], notes_run sample_notes [b; a] with
  | Some s1, Some s2 => NotesState_to_bytes s1 = NotesState_to_bytes s2 ∧ NotesState_to_bytes s1 = str "b a one" ++ [x0a]
  | _, _ => False
  end.
Proof.
  set (a := notes_op 10 notes_path [TInsert 0 (str "a ")]). set (b := notes_op 20 notes_path [TInsert 0 (str "b ")]). cbv zeta.
  destruct (notes_run sample_notes [a; b]) as [s1|] eqn:E1; [|vm_compute in E1; discriminate E1].
  destruct (notes_run sample_notes [b; a]) as [s2|] eqn:E2; [|vm_compute in E2; discriminate E2]. split.
  - apply (notes_converge notes_path (str "one" ++ [x0a]) sample_notes [a; b] [b; a] s1 s2); [reflexivity|constructor| | |done|done].
    + apply (bool_decide_eq_true_1 _). vm_compute. reflexivity.
    + vm_compute. lia.
  - vm_compute in E1. injection E1 as <-. reflexivity.
Defined.
