(* ===== verification/DocState.v ===== *)
(** The in-memory document and its ops: [state.rs], [state_order.rs], [state_ghosts.rs],
    [state_rehome.rs], [state_erase.rs], [state_reinsert.rs] and [fields.rs] of
    [crates/txtodo-engine/src].

    The document is a sequence of placements, shown or hidden, in parallel vectors; every op is one
    definition over the whole state, and returns the state also when it fails. *)
From S2P Require Import Prelude.
From S2P Require Import Utf8.
From S2P Require Import Types.
From S2P Require Import Ulid.
From S2P Require Import Scanner.
From S2P Require Import Parser.
From S2P Require Import Format.
From S2P Require Import TodoFile.
From S2P Require Import Edit.
From S2P Require Import Myers.
From S2P Require Import Diff.
From S2P Require Import Hlc.
From S2P Require Import TagText.
From S2P Require Import TextHistory.
From S2P Require Import Ops.

(** ** State *)

Definition MAX_LINES_PER_FILE : N := 1000000.
Definition MAX_GHOSTS_PER_FILE : nat := Z.to_nat 10000.
Definition GHOSTS_AFTER_PRUNE : nat := MAX_GHOSTS_PER_FILE - MAX_GHOSTS_PER_FILE / 4.

Inductive IdentityMode := Tagged | Sidecar.

Inductive Entry := TaskEntry (id : TaskId) (line : OwnedLine) | BlankEntry (line : OwnedLine).

Definition entry_line (e : Entry) : OwnedLine := match e with TaskEntry _ l | BlankEntry l => l end.
Definition entry_id (e : Entry) : option TaskId :=
  match e with TaskEntry i _ => Some i | BlankEntry _ => None end.

(** The anchor placement an entry's op followed. *)
Abbreviation Parent := (option (TaskId * Hlc)).

Record Spot := mkSpot { spot_at : nat; spot_parent : Parent }.

(** When a task was last deleted and last inserted again. *)
Record Life := mkLife { died : option Hlc; reborn : option Hlc }.

Inductive StateError :=
| MissingId (i : nat)
| Opaque (i : nat)
| UnknownTask (t : TaskId)
| IdMismatch (t : TaskId)
| TextError (t : TaskId) (e : TextEditError)
| NoBlank (after : option TaskId)
| Unsupported (what : bytes)
| TooManyLines (n : nat).

Record DocState := mkDocState {
  ds_path : FilePath;
  entries : list Entry;
  hidden : list bool;
  visible : list nat;
  stamps : list Hlc;
  parents : list Parent;
  erasers : list bool;
  field_stamps : gmap (TaskId * Field) Hlc;
  text_history : gmap TaskId TextHistory;
  life : gmap TaskId Life;
  ds_bom : bool;
  ds_ending : LineEnding;
  ds_trailing_newline : bool;
  ds_mode : IdentityMode
}.

#[global] Instance IdentityMode_eq_dec : EqDecision IdentityMode.
Proof. solve_decision. Defined.
#[global] Instance Entry_eq_dec : EqDecision Entry.
Proof. solve_decision. Defined.
#[global] Instance StateError_eq_dec : EqDecision StateError.
Proof. solve_decision. Defined.

(** The stamp of a line nothing placed: older than every op. *)
Definition unplaced : Hlc := Hlc_zero 0.

(** The stamp scratch replays place under: newer than every real op. *)
Definition scratch_stamp : Hlc := mkHlc (2 ^ 64 - 1) 0xFFFF (2 ^ 128 - 1).

Definition scratch_op (path : FilePath) (k : OpKind) : Op :=
  mkOp 0 scratch_stamp (PExternal 0) path k.

(** Updates of some fields. *)
Definition with_sequence (st : DocState) (es : list Entry) (hs : list bool) (ss : list Hlc)
    (ps : list Parent) (ers : list bool) : DocState :=
  mkDocState (ds_path st) es hs (visible st) ss ps ers (field_stamps st) (text_history st) (life st)
    (ds_bom st) (ds_ending st) (ds_trailing_newline st) (ds_mode st).
Definition with_meta (st : DocState) (fs : gmap (TaskId * Field) Hlc) (th : gmap TaskId TextHistory)
    (lf : gmap TaskId Life) : DocState :=
  mkDocState (ds_path st) (entries st) (hidden st) (visible st) (stamps st) (parents st) (erasers st)
    fs th lf (ds_bom st) (ds_ending st) (ds_trailing_newline st) (ds_mode st).
Definition with_field_stamps (st : DocState) fs := with_meta st fs (text_history st) (life st).
Definition with_history (st : DocState) th := with_meta st (field_stamps st) th (life st).
Definition with_life (st : DocState) lf := with_meta st (field_stamps st) (text_history st) lf.

(** ** Slots *)

Definition slots (st : DocState) : list nat := seq 0 (length (entries st)).

(** [self.stamps[s]] and the like; every caller's slot is in range. *)
Definition slot_hidden (st : DocState) (s : nat) : bool := default false (hidden st !! s).
Definition slot_stamp (st : DocState) (s : nat) : Hlc := default unplaced (stamps st !! s).
Definition slot_id (st : DocState) (s : nat) : option TaskId := entries st !! s ≫= entry_id.
Definition slot_eraser (st : DocState) (s : nat) : bool := default false (erasers st !! s).
Definition slot_is (st : DocState) (id : TaskId) (s : nat) : bool := bool_decide (slot_id st s = Some id).
Definition is_blank (st : DocState) (s : nat) : bool :=
  match entries st !! s with Some (BlankEntry _) => true | _ => false end.

(** The slots shown, in order. *)
Definition visible_of (hs : list bool) : list nat :=
  List.filter (λ s, negb (default false (hs !! s))) (seq 0 (length hs)).

(** Rebuilds the visible view after the sequence changed. *)
Definition reindex (st : DocState) : DocState :=
  mkDocState (ds_path st) (entries st) (hidden st) (visible_of (hidden st)) (stamps st) (parents st)
    (erasers st) (field_stamps st) (text_history st) (life st) (ds_bom st) (ds_ending st)
    (ds_trailing_newline st) (ds_mode st).

Definition visible_entries (st : DocState) : list Entry := omap (λ s, entries st !! s) (visible st).

(** [len] of the document: the lines shown. *)
Definition doc_len (st : DocState) : nat := length (visible st).
Definition entry_at (st : DocState) (i : nat) : option Entry := visible st !! i ≫= λ s, entries st !! s.

(** The slot of a task's shown placement. *)
Definition live_slot (st : DocState) (id : TaskId) : option nat :=
  find (λ s, negb (slot_hidden st s) && slot_is st id s) (slots st).

Definition line_of_task (st : DocState) (id : TaskId) : option OwnedLine :=
  s ← live_slot st id; entry_line <$> entries st !! s.

Definition task_before (st : DocState) (i : nat) : option TaskId :=
  find_map (slot_id st) (reverse (take (Nat.min i (length (visible st))) (visible st))).

Definition index_of (st : DocState) (id : TaskId) : option nat := position (slot_is st id) (visible st).

Definition task_lines (st : DocState) : list (TaskId * OwnedLine) :=
  omap (λ e, i ← entry_id e; Some (i, entry_line e)) (visible_entries st).

Definition line_ids (st : DocState) : list (option TaskId) := map entry_id (visible_entries st).

(** The file as bytes. *)
Definition doc_to_bytes (st : DocState) : bytes :=
  to_bytes (mkFile (map entry_line (visible_entries st)) (ds_bom st) (ds_ending st) (ds_trailing_newline st)).

Definition has_placement (st : DocState) (id : TaskId) : bool :=
  existsb (λ e, bool_decide (entry_id e = Some id)) (entries st).

Definition replace_entry (st : DocState) (slot : nat) (e : Entry) : DocState :=
  with_sequence st (<[slot := e]> (entries st)) (hidden st) (stamps st) (parents st) (erasers st).

(** Hides the entry in [slot] where it is. *)
Definition hide_entry (st : DocState) (slot : nat) : DocState :=
  reindex (with_sequence st (entries st) (<[slot := true]> (hidden st)) (stamps st) (parents st) (erasers st)).

Definition is_completed (l : OwnedLine) : bool :=
  match kind <$> OwnedLine_parse l with Some (LTask t) => completed t | _ => false end.

(** Task lines and, of those, the completed ones. *)
Definition task_counts (st : DocState) : nat * nat :=
  (length (task_lines st), length (List.filter (λ il, is_completed (snd il)) (task_lines st))).

(** ** Placing (state_order.rs) *)

Definition insert_entry (st : DocState) (spot : Spot) (e : Entry) (hlc : Hlc) : DocState :=
  let n := spot_at spot in
  reindex (with_sequence st (insert_at n e (entries st)) (insert_at n false (hidden st))
             (insert_at n hlc (stamps st)) (insert_at n (spot_parent spot) (parents st))
             (insert_at n false (erasers st))).

(** [(stamp, flag)] keys in order. *)
Definition key_leb (a b : Hlc * bool) : bool :=
  match Hlc_compare (fst a) (fst b) with
  | Lt => true
  | Gt => false
  | Eq => negb (snd a) || snd b
  end.

(** The slot an op anchored after [after] follows: the anchor's placement with the newest stamp not
    newer than the op, else its shown one, else its oldest. *)
Definition anchor_slot (st : DocState) (after : option TaskId) (hlc : Hlc)
    : result StateError (option nat) :=
  match after with
  | None => Ok None
  | Some id =>
      let placements := List.filter (slot_is st id) (slots st) in
      let not_newer :=
        max_by (λ a b, key_leb (slot_stamp st a, negb (slot_hidden st a)) (slot_stamp st b, negb (slot_hidden st b)))
          (List.filter (λ s, Hlc_leb (slot_stamp st s) hlc) placements) in
      let shown := find (λ s, negb (slot_hidden st s)) placements in
      let oldest := min_by (λ a b, Hlc_leb (slot_stamp st a) (slot_stamp st b)) placements in
      match not_newer, shown, oldest with
      | Some s, _, _ => Ok (Some s)
      | None, Some s, _ => Ok (Some s)
      | None, None, Some s => Ok (Some s)
      | None, None, None => Err (UnknownTask id)
      end
  end.

(** Past every entry placed by a later op, from [n] on. *)
Definition skip_newer (ss : list Hlc) (hlc : Hlc) (n : nat) : nat :=
  n + run_while (λ placed, Hlc_ltb hlc placed) (drop n ss).

(** Spot for an entry placed after [after]: right after the anchor, then past later ops' entries. *)
Definition slot_after (st : DocState) (after : option TaskId) (hlc : Hlc) : result StateError Spot :=
  anchor ← anchor_slot st after hlc;
  let parent := s ← anchor; i ← slot_id st s; Some (i, slot_stamp st s) in
  let n := match anchor with Some s => s + 1 | None => 0 end in
  mret (mkSpot (skip_newer (stamps st) hlc n) parent).

Definition is_stale_move (st : DocState) (i : nat) (hlc : Hlc) : bool :=
  match stamps st !! i with Some placed => Hlc_ltb hlc placed | None => false end.

Definition is_stale_field (st : DocState) (task : TaskId) (f : Field) (hlc : Hlc) : bool :=
  match field_stamps st !! (task, f) with Some set => Hlc_ltb hlc set | None => false end.

Definition record_field (st : DocState) (task : TaskId) (f : Field) (hlc : Hlc) : DocState :=
  with_field_stamps st (<[(task, f) := hlc]> (field_stamps st)).

Definition forget_text (st : DocState) (task : TaskId) : DocState :=
  with_history st (delete task (text_history st)).

Definition text_history_of (st : DocState) (task : TaskId) : option TextHistory := text_history st !! task.

Definition restore_text (st : DocState) (task : TaskId) (saved : option TextHistory) : DocState :=
  match saved with
  | Some h => with_history st (<[task := h]> (text_history st))
  | None => with_history st (delete task (text_history st))
  end.

(** [entry(task).or_insert_with(new(current))]. *)
Definition history_or_new (st : DocState) (task : TaskId) (current : bytes) : TextHistory :=
  default (TextHistory_new current) (text_history st !! task).

Definition put_history (st : DocState) (task : TaskId) (h : TextHistory) : DocState :=
  with_history st (<[task := h]> (text_history st)).

Definition edit_description (st : DocState) (task : TaskId) (current : bytes) (hlc : Hlc)
    (es : list TextEdit) : DocState * result TextEditError bytes :=
  let '(h, r) := TextHistory_apply apply_text_edits (history_or_new st task current) current hlc es
                   MAX_EDITS_PER_TASK in
  (put_history st task h, r).

Definition set_pri_in_description (st : DocState) (task : TaskId) (current : bytes) (hlc : Hlc)
    (letter : char) (add : bool) : DocState * option bytes :=
  let h := history_or_new st task current in
  if add then
    let '(h', t) := TextHistory_set_pri apply_text_edits h current hlc letter MAX_EDITS_PER_TASK in
    (put_history st task h', Some t)
  else
    let '(h', t) := TextHistory_swap_pri apply_text_edits h letter in
    (put_history st task h', t).

Definition clear_pri_in_description (st : DocState) (task : TaskId) (current : bytes)
    : DocState * bytes :=
  match TextHistory_clear_pri apply_text_edits (history_or_new st task current) with
  | (h', Some t) => (put_history st task h', t)
  | (_, None) => (forget_text st task, TagText_remove_tag current (str "pri"))
  end.

Definition remove_tag_in_description (st : DocState) (task : TaskId) (current : bytes) (hlc : Hlc)
    (key : bytes) : DocState * bytes :=
  let '(h, t) := TextHistory_remove_tag apply_text_edits (history_or_new st task current) current hlc key
                   MAX_EDITS_PER_TASK in
  (put_history st task h, t).

(** ** Re-homing (state_rehome.rs) *)

Definition slot_parent (st : DocState) (s : nat) : Parent := default None (parents st !! s).

(** Whether the entry in [s] follows an older placement of [task] than [placed], was placed by a
    newer op, and no placement of [task] sits between the two. *)
Definition follows_older (st : DocState) (s : nat) (task : TaskId) (placed : Hlc) : bool :=
  let mine := slot_stamp st s in
  let older :=
    match slot_parent st s with
    | Some (t, p) => (t =? task)%N && Hlc_ltb p placed && Hlc_ltb placed mine
    | None => false
    end in
  older && negb (existsb (λ q, slot_is st task q && Hlc_ltb placed (slot_stamp st q)
                               && Hlc_ltb (slot_stamp st q) mine) (slots st)).

(** The loop of [block_end]: each turn moves [end_] one up, so the document's length is enough. *)
Fixpoint block_end_from (fuel : nat) (st : DocState) (members : list (TaskId * Hlc)) (end_ : nat) : nat :=
  match fuel with
  | 0 => end_
  | S fuel' =>
      let members := match slot_id st end_ with
                     | Some i => (i, slot_stamp st end_) :: members
                     | None => members
                     end in
      let end_ := end_ + 1 in
      let in_block := match slot_parent st end_ with
                      | Some p => bool_decide (p ∈ members)
                      | None => false
                      end in
      if in_block then block_end_from fuel' st members end_ else end_
  end.

Definition block_end (st : DocState) (head : nat) : nat := block_end_from (length (entries st)) st [] head.

(** [drain(a..b)] then [splice(n..n, drained)]. *)
Definition move_range {A} (a b n : nat) (l : list A) : list A :=
  let rest := take a l ++ drop b l in
  take n rest ++ slice a b l ++ drop n rest.

(** Moves the block under the placement; [None], nothing moved, when that placement is gone or
    inside the block. *)
Definition move_block (st : DocState) (head : nat) (task : TaskId) (placed : Hlc) : option DocState :=
  let end_ := block_end st head in
  anchor ← find (λ s, slot_is st task s && bool_decide (slot_stamp st s = placed)) (slots st);
  if (head <=? anchor) && (anchor <? end_) then None
  else
    let anchor := if head <? anchor then anchor - (end_ - head) else anchor in
    let rest := take head (stamps st) ++ drop end_ (stamps st) in
    let n := skip_newer rest (slot_stamp st head) (anchor + 1) in
    Some (reindex (with_sequence st
            (move_range head end_ n (entries st)) (move_range head end_ n (hidden st))
            (move_range head end_ n (stamps st))
            (move_range head end_ n (<[head := Some (task, placed)]> (parents st)))
            (move_range head end_ n (erasers st)))).

(** After [task]'s placement stamped [placed] landed: each block that should follow it moves under
    it, the last one first. *)
Fixpoint rehome_loop (fuel : nat) (st : DocState) (task : TaskId) (placed : Hlc) : DocState :=
  match fuel with
  | 0 => st
  | S fuel' =>
      match find (λ s, follows_older st s task placed) (reverse (slots st)) with
      | None => st
      | Some head =>
          match move_block st head task placed with
          | Some st' => rehome_loop fuel' st' task placed
          | None => st
          end
      end
  end.

Definition rehome_onto (st : DocState) (task : TaskId) (placed : Hlc) : DocState :=
  rehome_loop (length (entries st)) st task placed.

(** ** Erasers (state_erase.rs) *)

(** The search of [claim] over the slots after the eraser; [oldest_between] is the oldest shown line
    passed. *)
Fixpoint claim_from (st : DocState) (mine : Hlc) (taken : list nat) (oldest_between : option Hlc)
    (ss : list nat) : option nat :=
  match ss with
  | [] => None
  | s :: ss' =>
      let passed := slot_eraser st s || (slot_hidden st s && negb (is_blank st s))
                    || bool_decide (s ∈ taken) || Hlc_ltb mine (slot_stamp st s) in
      if passed then claim_from st mine taken oldest_between ss'
      else if is_blank st s then
        let adjacent := match oldest_between with
                        | None => true
                        | Some old => Hlc_ltb (slot_stamp st s) old
                        end in
        if adjacent then Some s else None
      else
        let o := match oldest_between with
                 | None => slot_stamp st s
                 | Some o => if Hlc_leb o (slot_stamp st s) then o else slot_stamp st s
                 end in
        claim_from st mine taken (Some o) ss'
  end.

Definition claim (st : DocState) (eraser : nat) (taken : list nat) : option nat :=
  claim_from st (slot_stamp st eraser) taken None (drop (eraser + 1) (slots st)).

(** Each eraser's slot and the blank it claims, erasers in sequence order. *)
Definition claims (st : DocState) : list (nat * nat) :=
  foldl (λ acc s, match claim st s (map snd acc) with
                  | Some b => acc ++ [(s, b)]
                  | None => acc
                  end) [] (List.filter (slot_eraser st) (slots st)).

(** Hides each blank an eraser claims and shows every other blank. *)
Definition settle_erasers (st : DocState) : DocState :=
  if negb (existsb id (erasers st)) then st
  else
    let claimed := map snd (claims st) in
    let hs := imap (λ s h, if is_blank st s && negb (slot_eraser st s) then bool_decide (s ∈ claimed) else h)
                (hidden st) in
    if bool_decide (hs = hidden st) then st
    else reindex (with_sequence st (entries st) hs (stamps st) (parents st) (erasers st)).

(** ** Ghosts (state_ghosts.rs) *)

(** The slot holding a task's line: its shown placement, else its newest one. *)
Definition content_slot (st : DocState) (task : TaskId) : option nat :=
  match live_slot st task with
  | Some s => Some s
  | None => max_by (λ a b, Hlc_leb (slot_stamp st a) (slot_stamp st b)) (List.filter (slot_is st task) (slots st))
  end.

Definition slot_line (st : DocState) (slot : nat) : option OwnedLine := entry_line <$> entries st !! slot.

(** A step on the document: the document after, also when it fails. *)
Definition ST (A : Type) : Type := DocState → DocState * result StateError A.

#[global] Instance ST_ret : MRet ST := λ A a st, (st, Ok a).
#[global] Instance ST_bind : MBind ST := λ A B f m st,
  match m st with (st', Ok a) => f a st' | (st', Err e) => (st', Err e) end.

Definition fail {A} (e : StateError) : ST A := λ st, (st, Err e).
Definition gets {A} (f : DocState → A) : ST A := λ st, (st, Ok (f st)).
Definition try {A} (f : DocState → result StateError A) : ST A := λ st, (st, f st).
Definition modify (f : DocState → DocState) : ST unit := λ st, (f st, Ok tt).

(** Adds a placement of [task] as a ghost. *)
Definition place_ghost (task : TaskId) (after : option TaskId) (hlc : Hlc) : ST unit :=
  line ← try (λ st, ok_or (content_slot st task ≫= slot_line st) (UnknownTask task));
  spot ← try (λ st, slot_after st after hlc);
  modify (λ st, rehome_onto (hide_entry (insert_entry st spot (TaskEntry task line) hlc) (spot_at spot)) task hlc).

(** [v.remove(s)] for each of the slots, the greatest first. *)
Definition remove_slots {A} (drops : list nat) (l : list A) : list A := foldl (λ l s, delete s l) l drops.

(** Which slots a prune drops: the oldest unclaimed ghosts, each eraser with the blank it claims. *)
Fixpoint prune_pick (cl : list (nat * nat)) (limit : nat) (acc oldest : list nat) : list nat :=
  match oldest with
  | [] => acc
  | s :: oldest' =>
      if limit <=? length acc then acc
      else
        let acc := acc ++ [s] in
        prune_pick cl limit
          (match find (λ eb, fst eb =? s) cl with Some (_, b) => acc ++ [b] | None => acc end) oldest'
  end.

Definition prune_ghosts_to (st : DocState) (max : nat) : DocState :=
  let ghosts := length (entries st) - length (visible st) in
  if ghosts <=? max then st
  else
    let cl := claims st in
    let claimed := map snd cl in
    let oldest :=
      stable_sort (λ a b, Hlc_leb (slot_stamp st a) (slot_stamp st b))
        (List.filter (λ s, slot_hidden st s && negb (bool_decide (s ∈ claimed))) (slots st)) in
    let drops := stable_sort (λ a b, b <=? a) (prune_pick cl (ghosts - max) [] oldest) in
    let st' := with_sequence st (remove_slots drops (entries st)) (remove_slots drops (hidden st))
                 (remove_slots drops (stamps st)) (remove_slots drops (parents st))
                 (remove_slots drops (erasers st)) in
    let present := omap entry_id (entries st') in
    reindex (with_meta st'
      (filter (λ kv, fst (fst kv) ∈ present) (field_stamps st'))
      (filter (λ kv, fst kv ∈ present) (text_history st'))
      (filter (λ kv, fst kv ∈ present) (life st'))).

Definition prune_ghosts_past (st : DocState) (max after : nat) : DocState :=
  if max <? length (entries st) - length (visible st) then prune_ghosts_to st after else st.

Definition prune_ghosts (st : DocState) : DocState :=
  prune_ghosts_past st MAX_GHOSTS_PER_FILE GHOSTS_AFTER_PRUNE.

(** ** Lines (fields.rs) *)

Definition task_of_line (l : OwnedLine) : option Task :=
  line ← OwnedLine_parse l; match kind line with LTask t => Some t | LBlank => None end.

(** A task's id from its line, when it has one. *)
Definition id_of (l : OwnedLine) : option TaskId := t ← task_of_line l; u ← Task_id t; Some (to_u128 u).

Definition description_of (l : OwnedLine) : option bytes := description <$> task_of_line l.

Definition done_description (l : OwnedLine) : option bytes :=
  t ← task_of_line l; if completed t then Some (description t) else None.

(** The letter a done line's [pri:] tag holds. *)
Definition moved_priority (l : OwnedLine) : option char :=
  t ← task_of_line l;
  if negb (completed t) then None else v ← tag t (str "pri"); head (chars v).

(** The prefix with one field changed; [None] when the value does not fit. *)
Definition prefix_with (p : Prefix) (f : Field) (v : FieldValue) : option Prefix :=
  match f, v with
  | FCompleted, FVBool b =>
      let cd := if b && bool_decide (pre_completion_date p = None)
                     && bool_decide (is_Some (pre_creation_date p))
                then pre_creation_date p else pre_completion_date p in
      Some (mkPrefix b cd (pre_creation_date p) (pre_priority p))
  | FCompletionDate, v =>
      d ← FieldValue_as_date v; Some (mkPrefix (pre_completed p) d (pre_creation_date p) (pre_priority p))
  | FCreationDate, v =>
      d ← FieldValue_as_date v; Some (mkPrefix (pre_completed p) (pre_completion_date p) d (pre_priority p))
  | FPriority, FVPriority l => Some (with_priority p (l ≫= Priority_new))
  | _, _ => None
  end.

(** Re-emits the prefix with one field changed; a priority on a completed line moves to [pri:]. *)
Definition rewrite_prefix (l : OwnedLine) (f : Field) (v : FieldValue) : option OwnedLine :=
  r ← OwnedLine_raw l;
  t ← task_of_line l;
  p ← prefix_with (Prefix_of t) f v;
  let d := drop (description_start r) r in
  let moved := if pre_completed p then pre_priority p else None in
  let p := if pre_completed p then with_priority p None else p in
  let text := emit_prefix p (negb (bool_decide (d = []))) ++ d in
  let rewritten := OwnedLine_from_bytes text (ol_ending l) in
  match moved with
  | Some pri =>
      edit ← result_ok (set_tag Edit_new (str "pri") (encode_char (Priority_as_char pri)));
      Some (apply rewritten edit)
  | None => Some rewritten
  end.

Definition field_value (l : OwnedLine) (f : Field) : option FieldValue :=
  t ← task_of_line l;
  match f with
  | FCompleted => Some (FVBool (completed t))
  | FCompletionDate => Some (FieldValue_date (completion_date t))
  | FCreationDate => Some (FieldValue_date (creation_date t))
  | FPriority => Some (FieldValue_priority (priority t))
  | FDeleted | FQuirks => None
  end.

(** A reopen half applied: the priority an open line's [pri:] tag holds goes into its prefix. *)
Definition priority_from_tag (l : OwnedLine) : option OwnedLine :=
  t ← task_of_line l;
  if completed t || bool_decide (is_Some (priority t)) then None
  else
    v ← tag t (str "pri");
    letter ← head (chars v);
    _ ← Priority_new letter;
    rewrite_prefix l FPriority (FVPriority (Some letter)).

(** The line with its description set; refused when that drops the [id:] a tagged line needs. *)
Definition with_description (st : DocState) (task : TaskId) (l : OwnedLine) (text : bytes)
    : result StateError OwnedLine :=
  match set_description Edit_new text with
  | Err _ => Err (Unsupported (str "line break"))
  | Ok edit =>
      let new_line := apply l edit in
      if bool_decide (ds_mode st = Tagged) && negb (bool_decide (id_of new_line = Some task))
      then Err (IdMismatch task) else Ok new_line
  end.

(** The old and new descriptions and [(letter, added)] when a rewrite moved a priority into [pri:]
    exactly as [set_pri] would. *)
Definition moved_into_pri (old_line new_line : OwnedLine) : option (bytes * bytes * (char * bool)) :=
  old ← description_of old_line;
  new ← description_of new_line;
  letter ← moved_priority new_line;
  let add := negb (has_pri old) in
  if bool_decide (set_pri old letter add = new) then Some (old, new, (letter, add)) else None.

(** A prefix rewrite that changed the description goes into its history, and the line it returns is
    the one the history rebuilds. *)
Definition keep_in_history (st : DocState) (task : TaskId) (old_line new_line : OwnedLine) (hlc : Hlc)
    : DocState * OwnedLine :=
  let '(st', kept) :=
    match moved_into_pri old_line new_line with
    | Some (old, new, (letter, add)) =>
        match set_pri_in_description st task old hlc letter add with
        | (st', Some held) => (st', Some (held, new))
        | (st', None) => (st', None)
        end
    | None => (st, None)
    end in
  match kept with
  | None => (forget_text st' task, new_line)
  | Some (held, new) =>
      if bool_decide (held = new) then (st', new_line)
      else match set_description Edit_new held with
           | Ok edit => (st', apply new_line edit)
           | Err _ => (st', new_line)
           end
  end.

(** ** Life and reinsertion (state_reinsert.rs) *)

Definition opt_max (a b : option Hlc) : option Hlc :=
  match a, b with
  | Some x, Some y => Some (Hlc_max x y)
  | Some x, None => Some x
  | None, b => b
  end.

Definition life_of (st : DocState) (task : TaskId) : Life := default (mkLife None None) (life st !! task).

(** Records a delete, and says whether it hides the task. *)
Definition note_death (st : DocState) (task : TaskId) (hlc : Hlc) : DocState * bool :=
  let l := life_of st task in
  (with_life st (<[task := mkLife (opt_max (died l) (Some hlc)) (reborn l)]> (life st)),
   match reborn l with Some r => Hlc_leb r hlc | None => true end).

Definition PREFIX_FIELDS : list Field := [FCompleted; FCompletionDate; FCreationDate; FPriority].

(** The inserted line with each prefix field a newer set-field op set taken from the current one, and
    the description its history holds once reset. *)
Definition merged_line (task : TaskId) (current inserted : OwnedLine) (hlc : Hlc) : ST OwnedLine :=
  newer ← gets (λ st f, is_stale_field st task f hlc);
  let kept := List.filter newer PREFIX_FIELDS in
  let taken := List.filter (λ f, negb (newer f)) PREFIX_FIELDS in
  let line := foldl (λ l f, l ← l; v ← field_value current f; rewrite_prefix l f v) (Some inserted) kept in
  line ← try (λ _, ok_or line (Unsupported (str "insert again over this line")));
  d ← try (λ _, ok_or (description_of line) (Unsupported (str "a blank")));
  held ← (λ st, let '(h, t) := TextHistory_reset apply_text_edits (history_or_new st task d) d hlc in
                (put_history st task h, Ok t));
  edit ← try (λ _, match set_description Edit_new held with
                   | Ok e => Ok e
                   | Err _ => Err (Unsupported (str "line break"))
                   end);
  _ ← modify (λ st, foldl (λ st f, record_field st task f hlc) st taken);
  mret (apply line edit).

(** Shows [task] at its newest placement, [added] on a tie. *)
Definition show_newest (st : DocState) (task : TaskId) (added : nat) : DocState :=
  let newest := max_by (λ a b, key_leb (slot_stamp st a, a =? added) (slot_stamp st b, b =? added))
                  (List.filter (slot_is st task) (slots st)) in
  let live := live_slot st task in
  if bool_decide (newest = live) then st
  else
    let hs := match live with Some l => <[l := true]> (hidden st) | None => hidden st end in
    let hs := match newest with Some s => <[s := false]> hs | None => hs end in
    reindex (with_sequence st (entries st) hs (stamps st) (parents st) (erasers st)).

(** An insert of a task that already has a placement sets its whole line at its stamp. *)
Definition reinsert (task : TaskId) (after : option TaskId) (line : OwnedLine) (hlc : Hlc) : ST unit :=
  spot ← try (λ st, slot_after st after hlc);
  current ← try (λ st, ok_or (content_slot st task ≫= slot_line st) (UnknownTask task));
  merged ← merged_line task current line hlc;
  modify (λ st,
    let was_live := bool_decide (is_Some (live_slot st task)) in
    let n := spot_at spot in
    let st := hide_entry (insert_entry st spot (TaskEntry task merged) hlc) n in
    let l := life_of st task in
    let st := with_life st (<[task := mkLife (died l) (opt_max (reborn l) (Some hlc))]> (life st)) in
    let st := if was_live || (match died l with Some d => Hlc_leb d hlc | None => true end)
              then show_newest st task n else st in
    let es := map (λ e, if bool_decide (entry_id e = Some task) then TaskEntry task merged else e) (entries st) in
    rehome_onto (with_sequence st es (hidden st) (stamps st) (parents st) (erasers st)) task hlc).

(** ** Ops on a line (fields.rs) *)

Definition clear_done_priority (task : TaskId) (i : nat) (line : OwnedLine) (d : bytes) (hlc : Hlc) : ST unit :=
  held ← (λ st, let '(st', t) := clear_pri_in_description st task d in (st', Ok t));
  new_line ← try (λ st, with_description st task line held);
  modify (λ st, record_field (replace_entry st i (TaskEntry task new_line)) task FPriority hlc).

Definition doc_set_deleted (task : TaskId) (value : FieldValue) (hlc : Hlc) : ST unit := λ st,
  match value with
  | FVBool true =>
      if has_placement st task then
        let '(st', hides) := note_death st task hlc in
        match live_slot st' task with
        | Some slot => if hides then (hide_entry st' slot, Ok tt) else (st', Ok tt)
        | None => (st', Ok tt)
        end
      else (st, Err (UnknownTask task))
  | _ => (st, Err (Unsupported (str "undelete via SetField")))
  end.

Definition doc_set_field (task : TaskId) (field : Field) (value : FieldValue) (hlc : Hlc) : ST unit := λ st,
  if bool_decide (field = FDeleted) then doc_set_deleted task value hlc st
  else
    match content_slot st task with
    | None => (st, Err (UnknownTask task))
    | Some i =>
        let line := default (OwnedLine_new [] Lf NONE) (slot_line st i) in
        if is_stale_field st task field hlc then
          match priority_from_tag line with
          | Some restored =>
              if bool_decide (field = FPriority) then (replace_entry st i (TaskEntry task restored), Ok tt)
              else (st, Ok tt)
          | None => (st, Ok tt)
          end
        else
          match bool_decide (field = FPriority) && bool_decide (value = FVPriority None), done_description line with
          | true, Some d => clear_done_priority task i line d hlc st
          | _, _ =>
              match rewrite_prefix line field value with
              | None => (st, Err (Unsupported (str "SetField on this line")))
              | Some new_line =>
                  let '(st', new_line) :=
                    if bool_decide (description_of line = description_of new_line) then (st, new_line)
                    else keep_in_history st task line new_line hlc in
                  (record_field (replace_entry st' i (TaskEntry task new_line)) task field hlc, Ok tt)
              end
          end
    end.

Definition doc_edit_text (task : TaskId) (es : list TextEdit) (hlc : Hlc) : ST unit := λ st,
  match content_slot st task with
  | None => (st, Err (UnknownTask task))
  | Some i =>
      let line := default (OwnedLine_new [] Lf NONE) (slot_line st i) in
      match description_of line with
      | None => (st, Err (Opaque i))
      | Some d =>
          let saved := text_history_of st task in
          let '(st', r) := edit_description st task d hlc es in
          let new_line := match r with
                          | Err e => Err (TextError task e)
                          | Ok d' => with_description st' task line d'
                          end in
          match new_line with
          | Err e => (restore_text st' task saved, Err e)
          | Ok l => (replace_entry st' i (TaskEntry task l), Ok tt)
          end
      end
  end.

Definition doc_remove_tag (task : TaskId) (key : bytes) (hlc : Hlc) : ST unit := λ st,
  if negb (valid_tag_key key) then (st, Err (Unsupported (str "RemoveTag with a bad key")))
  else
    match content_slot st task with
    | None => (st, Err (UnknownTask task))
    | Some i =>
        let line := default (OwnedLine_new [] Lf NONE) (slot_line st i) in
        match description_of line with
        | None => (st, Err (Opaque i))
        | Some d =>
            let saved := text_history_of st task in
            let '(st', held) := remove_tag_in_description st task d hlc key in
            match with_description st' task line held with
            | Err e => (restore_text st' task saved, Err e)
            | Ok l => (replace_entry st' i (TaskEntry task l), Ok tt)
            end
        end
    end.

(** ** Ops on the sequence (state.rs) *)

Definition too_many (st : DocState) : bool := (MAX_LINES_PER_FILE <? N.of_nat (length (visible st) + 1))%N.

Definition doc_insert (task : TaskId) (after : option TaskId) (line : bytes) (hlc : Hlc) : ST unit := λ st,
  if too_many st then (st, Err (TooManyLines (length (visible st) + 1)))
  else
    let owned := OwnedLine_from_bytes line (ds_ending st) in
    if bool_decide (ds_mode st = Tagged) && negb (bool_decide (id_of owned = Some task))
    then (st, Err (IdMismatch task))
    else if has_placement st task then reinsert task after owned hlc st
    else (spot ← try (λ st, slot_after st after hlc);
          modify (λ st, insert_entry st spot (TaskEntry task owned) hlc)) st.

Definition doc_move (task : TaskId) (after : option TaskId) (to_file : FilePath) (hlc : Hlc) : ST unit := λ st,
  if negb (bool_decide (to_file = ds_path st)) then
    match live_slot st task with
    | Some from => (hide_entry st from, Ok tt)
    | None => if has_placement st task then (st, Ok tt) else (st, Err (UnknownTask task))
    end
  else if bool_decide (after = Some task) then (st, Err (UnknownTask task))
  else
    match anchor_slot st after hlc with
    | Err e => (st, Err e)
    | Ok _ =>
        match live_slot st task with
        | None => place_ghost task after hlc st
        | Some from =>
            if is_stale_move st from hlc then place_ghost task after hlc st
            else
              match entries st !! from with
              | None => (st, Err (UnknownTask task))
              | Some entry =>
                  (_ ← modify (λ st, hide_entry st from);
                   spot ← try (λ st, slot_after st after hlc);
                   modify (λ st, rehome_onto (insert_entry st spot entry hlc) task hlc)) st
              end
        end
    end.

Definition blank_entry (st : DocState) : Entry := BlankEntry (OwnedLine_from_bytes [] (ds_ending st)).

Definition doc_blank_insert (after : option TaskId) (hlc : Hlc) : ST unit := λ st,
  if too_many st then (st, Err (TooManyLines (length (visible st) + 1)))
  else (spot ← try (λ st, slot_after st after hlc);
        modify (λ st, insert_entry st spot (blank_entry st) hlc)) st.

Definition set_eraser (st : DocState) (n : nat) : DocState :=
  with_sequence st (entries st) (hidden st) (stamps st) (parents st) (<[n := true]> (erasers st)).

Definition doc_blank_remove (after : option TaskId) (hlc : Hlc) : ST unit :=
  spot ← try (λ st, slot_after st after hlc);
  modify (λ st, hide_entry (set_eraser (insert_entry st spot (blank_entry st) hlc) (spot_at spot)) (spot_at spot)).

(** Whether an op can change which blank an eraser claims. *)
Definition reshapes (k : OpKind) : bool :=
  match k with
  | KSetField _ f _ => bool_decide (f = FDeleted)
  | KEditText _ _ | KNotesEdit _ _ | KRemoveTag _ _ => false
  | _ => true
  end.

Definition doc_dispatch (o : Op) : ST unit :=
  match op_kind o with
  | KInsert task after line => doc_insert task after line (op_hlc o)
  | KSetField task f v => doc_set_field task f v (op_hlc o)
  | KEditText task es => doc_edit_text task es (op_hlc o)
  | KRemoveTag task key => doc_remove_tag task key (op_hlc o)
  | KMove task after to_file => doc_move task after to_file (op_hlc o)
  | KBlankInsert after => doc_blank_insert after (op_hlc o)
  | KBlankRemove after => doc_blank_remove after (op_hlc o)
  | KNotesEdit _ _ => fail (Unsupported (str "NotesEdit"))
  end.

(** Applies one op. *)
Definition doc_apply (o : Op) : ST unit :=
  _ ← doc_dispatch o;
  _ ← modify (λ st, if reshapes (op_kind o) then settle_erasers st else st);
  modify prune_ghosts.

(** ** Opening, committing, adopting *)

Definition entry_of (index : nat) (l : OwnedLine) (i : option TaskId) : result StateError Entry :=
  match OwnedLine_parse l with
  | None => Err (Opaque index)
  | Some parsed =>
      match kind parsed with
      | LBlank => Ok (BlankEntry l)
      | LTask _ => match i with Some i => Ok (TaskEntry i l) | None => Err (MissingId index) end
      end
  end.

Fixpoint entries_of (index : nat) (ls : list OwnedLine) (ids : list (option TaskId))
    : result StateError (list Entry) :=
  match ls with
  | [] => Ok []
  | l :: ls' =>
      e ← entry_of index l (default None (head ids));
      es ← entries_of (S index) ls' (tail ids);
      mret (e :: es)
  end.

(** The state of a file, given each line's resolved id. *)
Definition from_file (path : FilePath) (f : File) (ids : list (option TaskId)) (m : IdentityMode)
    : result StateError DocState :=
  if (MAX_LINES_PER_FILE <? N.of_nat (length (lines f)))%N then Err (TooManyLines (length (lines f)))
  else
    es ← entries_of 0 (lines f) ids;
    let n := length es in
    mret (mkDocState path es (replicate n false) (seq 0 n) (replicate n unplaced) (replicate n None)
            (replicate n false) ∅ ∅ ∅ (bom f) (f_ending f) (trailing_newline f) m).

(** After a commit: whatever a scratch replay placed takes the commit's stamp. *)
Definition settled (hlc s : Hlc) : Hlc := if bool_decide (s = scratch_stamp) then hlc else s.

Definition settle_life (lf : gmap TaskId Life) (hlc : Hlc) : gmap TaskId Life :=
  (λ l, mkLife (settled hlc <$> died l) (settled hlc <$> reborn l)) <$> lf.

Definition settle_scratch_stamps (st : DocState) (hlc : Hlc) : DocState :=
  with_meta
    (with_sequence st (entries st) (hidden st) (map (settled hlc) (stamps st))
       (map (fmap (λ tp, (fst tp, settled hlc (snd tp)))) (parents st)) (erasers st))
    (settled hlc <$> field_stamps st)
    ((λ h, settle h scratch_stamp hlc) <$> text_history st)
    (settle_life (life st) hlc).

(** Takes the replay's whole sequence when it shows the same lines by id. *)
Definition adopt_sequence (st replayed : DocState) : option DocState :=
  if bool_decide (line_ids st = line_ids replayed) then
    let es := foldl (λ es tm, match entries st !! snd tm with
                              | Some e => <[fst tm := e]> es
                              | None => es
                              end) (entries replayed) (zip (visible replayed) (visible st)) in
    Some (reindex (with_sequence st es (hidden replayed) (stamps replayed) (parents replayed) (erasers replayed)))
  else None.

(** Takes the stamps of a document rebuilt from its log. *)
Definition adopt_stamps (st replayed : DocState) : DocState :=
  let st := with_meta st (field_stamps replayed) (text_history replayed) (life replayed) in
  match adopt_sequence st replayed with
  | Some st' => st'
  | None =>
      let by_task : gmap TaskId (Hlc * Parent) :=
        list_to_map (reverse (omap (λ s, i ← slot_id replayed s; Some (i, (slot_stamp replayed s, slot_parent replayed s)))
                       (visible replayed))) in
      let ss := imap (λ s x, match slot_id st s ≫= (by_task !!.) with Some (x', _) => x' | None => x end) (stamps st) in
      let ps := imap (λ s p, match slot_id st s ≫= (by_task !!.) with Some (_, p') => p' | None => p end) (parents st) in
      with_sequence st (entries st) (hidden st) ss ps (erasers st)
  end.

(** The newest stamp any entry carries. *)
Definition newest_stamp (st : DocState) : option Hlc :=
  max_by Hlc_leb (List.filter (λ s, negb (bool_decide (s = unplaced))) (stamps st)).

(** Two states hold the same document. *)
Definition same_document (a b : DocState) : bool :=
  bool_decide (ds_path a = ds_path b) && bool_decide (visible_entries a = visible_entries b)
  && bool_decide (ds_bom a = ds_bom b) && bool_decide (ds_ending a = ds_ending b)
  && bool_decide (ds_trailing_newline a = ds_trailing_newline b) && bool_decide (ds_mode a = ds_mode b).

(** ** Batches (apply.rs) *)

(** One round over the pending ops: the state after, and those that failed. *)
Fixpoint apply_round (st : DocState) (pending : list Op) : DocState * list (Op * StateError) :=
  match pending with
  | [] => (st, [])
  | o :: pending' =>
      let '(st1, r) := doc_apply o st in
      let '(st2, failed) := apply_round st1 pending' in
      (st2, match r with Ok _ => failed | Err e => (o, e) :: failed end)
  end.

(** Retries one commit's failures until a round applies nothing new: every other round applies at
    least one op, so the number of ops is enough fuel. *)
Fixpoint apply_group (fuel : nat) (st : DocState) (pending : list Op) : DocState * list (Op * StateError) :=
  match fuel with
  | 0 => (st, [])
  | S fuel' =>
      let '(st', failed) := apply_round st pending in
      if bool_decide (failed = []) || (length failed =? length pending) then (st', failed)
      else apply_group fuel' st' (map fst failed)
  end.

(** [chunk_by(a.hlc == b.hlc)]. *)
Fixpoint chunk_by_stamp (ops : list Op) : list (list Op) :=
  match ops with
  | [] => []
  | o :: ops' =>
      match chunk_by_stamp ops' with
      | (o' :: g) :: gs => if bool_decide (op_hlc o = op_hlc o') then (o :: o' :: g) :: gs else [o] :: (o' :: g) :: gs
      | gs => [o] :: gs
      end
  end.

Definition apply_leniently (st : DocState) (ops : list Op) : DocState * list (Op * StateError) :=
  foldl (λ '(st, skipped) g, let '(st', failed) := apply_group (S (length g)) st g in (st', skipped ++ failed))
    (st, []) (chunk_by_stamp ops).

(** ** Samples *)

Definition todo_path : FilePath := str "todo.txt".

(** A document of task lines with ids 1, 2, ... *)
Definition doc_of (ls : list bytes) : option DocState :=
  result_ok (from_file todo_path (parse_file (concat (map (λ l, l ++ [x0a]) ls)))
    (imap (λ i _, Some (N.of_nat (S i))) ls) Sidecar).

Definition hlc_at (wall dev : N) : Hlc := mkHlc wall 0 dev.
Definition op_at (wall dev : N) (k : OpKind) : Op := mkOp wall (hlc_at wall dev) (PUser dev) todo_path k.

Definition run_ops (st : option DocState) (ops : list Op) : option DocState :=
  st ← st; Some (fst (apply_leniently st ops)).

Definition shown (st : option DocState) : option bytes := doc_to_bytes <$> st.

(** Two devices insert after the same line at once; both arrival orders agree. *)
Example concurrent_inserts_sample :
  let a := op_at 10 1 (KInsert 11 (Some 1%N) (str "from one")) in
  let b := op_at 20 2 (KInsert 12 (Some 1%N) (str "from two")) in
  let d := doc_of [str "first"; str "last"] in
  shown (run_ops d [a; b]) = Some (concat (map (λ l, l ++ [x0a]) [str "first"; str "from two"; str "from one"; str "last"]))
  ∧ shown (run_ops d [b; a]) = shown (run_ops d [a; b]).
Proof. by vm_compute. Qed.

(** A move, a delete and a blank removed and added at once, in two orders. *)
Example mixed_ops_sample :
  let ops := [op_at 10 1 (KMove 1 (Some 2%N) todo_path); op_at 20 2 (KSetField 2 FDeleted (FVBool true));
              op_at 30 1 (KBlankInsert (Some 1%N)); op_at 40 2 (KBlankRemove (Some 1%N));
              op_at 50 1 (KSetField 3 FPriority (FVPriority (Some 65%N)))] in
  let d := doc_of [str "one"; str "two"; str "three"] in
  shown (run_ops d ops) = Some (concat (map (λ l, l ++ [x0a]) [str "one"; str "(A) three"]))
  ∧ shown (run_ops d (reverse ops)) = shown (run_ops d ops).
Proof. by vm_compute. Qed.
