(* ===== verification/DocRows.v ===== *)
(** The document as one list of placements: the parallel vectors of a [DocState] are the columns of
    a single list, every change of the sequence is one change of that list, and the rules a document
    keeps are stated on it. *)
From S2P Require Import Prelude.
From S2P Require Import Utf8.
From S2P Require Import Types.
From S2P Require Import Ulid.
From S2P Require Import Scanner.
From S2P Require Import Parser.
From S2P Require Import Format.
From S2P Require Import TodoFile.
From S2P Require Import Edit.
From S2P Require Import Myers.
From S2P Require Import Diff.
From S2P Require Import Hlc.
From S2P Require Import TagText.
From S2P Require Import TextHistory.
From S2P Require Import Ops.
From S2P Require Import DocState.

(** ** Definitions *)

(** One row of the parallel vectors. *)
Record Placement := mkPlacement {
  p_entry : Entry;
  p_hidden : bool;
  p_stamp : Hlc;
  p_parent : Parent;
  p_eraser : bool
}.

(** The state holds these rows, and its view shows those not hidden. *)
Record columns (st : DocState) (rs : list Placement) : Prop := mkColumns {
  col_entries : entries st = p_entry <$> rs;
  col_hidden : hidden st = p_hidden <$> rs;
  col_stamps : stamps st = p_stamp <$> rs;
  col_parents : parents st = p_parent <$> rs;
  col_erasers : erasers st = p_eraser <$> rs
}.

Definition p_id (r : Placement) : option TaskId := entry_id (p_entry r).
Definition p_blank (r : Placement) : bool := match p_entry r with BlankEntry _ => true | _ => false end.

(** The id a row shows. *)
Definition shows (r : Placement) : option TaskId := if p_hidden r then None else p_id r.

Definition hide_row (r : Placement) : Placement :=
  mkPlacement (p_entry r) true (p_stamp r) (p_parent r) (p_eraser r).
Definition show_row (r : Placement) : Placement :=
  mkPlacement (p_entry r) false (p_stamp r) (p_parent r) (p_eraser r).
Definition erase_row (r : Placement) : Placement :=
  mkPlacement (p_entry r) (p_hidden r) (p_stamp r) (p_parent r) true.
Definition with_entry (e : Entry) (r : Placement) : Placement :=
  mkPlacement e (p_hidden r) (p_stamp r) (p_parent r) (p_eraser r).
Definition with_parent (p : Parent) (r : Placement) : Placement :=
  mkPlacement (p_entry r) (p_hidden r) (p_stamp r) p (p_eraser r).

(** An eraser is a hidden blank. *)
Definition eraser_ok (r : Placement) : Prop := p_eraser r = true → p_hidden r = true ∧ p_blank r = true.

(** The rules on the rows: each task is shown at most once, and erasers are hidden blanks. *)
Definition rows_ok (rs : list Placement) : Prop := NoDup (omap shows rs) ∧ Forall eraser_ok rs.

(** How often an id is in a list. *)
Definition copies_of (i : TaskId) (l : list TaskId) : nat := length (List.filter (λ x, bool_decide (x = i)) l).

(** The same with a bound [B] on how often each task is shown: a file may hold one [id:] on two lines. *)
Definition rows_within (B : TaskId → nat) (rs : list Placement) : Prop :=
  (∀ i, copies_of i (omap shows rs) ≤ B i) ∧ Forall eraser_ok rs.
Definition doc_within (B : TaskId → nat) (st : DocState) : Prop :=
  visible st = visible_of (hidden st) ∧ ∃ rs, columns st rs ∧ rows_within B rs.

(** A well-formed document. *)
Definition doc_wf (st : DocState) : Prop :=
  visible st = visible_of (hidden st) ∧ ∃ rs, columns st rs ∧ rows_ok rs.

(** ** Lists *)

Lemma fmap_insert_at {A B} (f : A → B) n x l : f <$> insert_at n x l = insert_at n (f x) (f <$> l).
Proof. unfold insert_at. by rewrite fmap_app, fmap_take, fmap_cons, fmap_drop. Qed.

Lemma insert_insert_at {A} n (x y : A) l : n ≤ length l → <[n := y]> (insert_at n x l) = insert_at n y l.
Proof.
  intros Hn. unfold insert_at. rewrite insert_app_r_alt by (rewrite length_take; lia).
  by rewrite length_take, Nat.min_l, Nat.sub_diag by lia.
Qed.

Lemma insert_at_perm {A} n (x : A) l : insert_at n x l ≡ₚ x :: l.
Proof. unfold insert_at. rewrite <- Permutation_middle. by rewrite take_drop. Qed.

Lemma slice_fmap {A B} (f : A → B) a b l : f <$> slice a b l = slice a b (f <$> l).
Proof. unfold slice. by rewrite fmap_take, fmap_drop. Qed.

Lemma move_range_fmap {A B} (f : A → B) a b n l : f <$> move_range a b n l = move_range a b n (f <$> l).
Proof.
  unfold move_range. rewrite !fmap_app, slice_fmap, fmap_take, fmap_drop.
  by rewrite fmap_app, fmap_take, fmap_drop.
Qed.

Lemma move_range_perm {A} a b n (l : list A) : a ≤ b → move_range a b n l ≡ₚ l.
Proof.
  intros Hab. unfold move_range.
  set (rest := take a l ++ drop b l).
  rewrite (Permutation_app_comm (slice a b l)), app_assoc, take_drop. subst rest.
  rewrite <- app_assoc, (Permutation_app_comm (drop b l)), app_assoc, slice_app_split by done.
  by rewrite take_drop.
Qed.

Lemma remove_slots_fmap {A B} (f : A → B) ds l : f <$> remove_slots ds l = remove_slots ds (f <$> l).
Proof.
  revert l. induction ds as [|d ds IH]; intros l; [done|]. cbn. unfold remove_slots in *.
  rewrite IH. f_equal. clear. revert d. induction l as [|x l IHl]; intros [|d]; cbn; try done.
  by rewrite <- IHl.
Qed.

Lemma remove_slots_sublist {A} ds (l : list A) : sublist (remove_slots ds l) l.
Proof.
  revert l. induction ds as [|d ds IH]; intros l; cbn; [done|].
  transitivity (delete d l); [apply IH|apply sublist_delete].
Qed.

Lemma omap_sublist {A B} (f : A → option B) l k : sublist l k → sublist (omap f l) (omap f k).
Proof.
  induction 1 as [|x l k _ IH|x l k _ IH]; cbn; [done|..]; destruct (f x); try done.
  - by apply sublist_skip.
  - by apply sublist_cons.
Qed.

Lemma omap_perm {A B} (f : A → option B) l k : l ≡ₚ k → omap f l ≡ₚ omap f k.
Proof. by intros ->. Qed.

Lemma omap_insert_None {A B} (f : A → option B) (l : list A) i x :
  f x = None → sublist (omap f (<[i := x]> l)) (omap f l).
Proof.
  intros Hx. revert i. induction l as [|y l IH]; intros [|i]; cbn; try done.
  - rewrite Hx. destruct (f y); [by apply sublist_cons|done].
  - destruct (f y); [by apply sublist_skip|done].
Qed.

Lemma omap_insert_same {A B} (f : A → option B) (l : list A) (i : nat) x y :
  l !! i = Some y → f x = f y → omap f (<[i := x]> l) = omap f l.
Proof.
  revert i. induction l as [|z l IH]; intros [|i] Hi Hx; cbn in *; simplify_eq; [by rewrite Hx|].
  by rewrite IH.
Qed.

Lemma sublist_Forall' {A} (P : A → Prop) l k : sublist l k → Forall P k → Forall P l.
Proof. intros H. rewrite !Forall_forall. intros Hk x Hx. apply Hk. by eapply elem_of_sublist. Qed.

(** ** The columns of the rows *)

Lemma columns_length st rs : columns st rs → length (entries st) = length rs.
Proof. intros [-> _ _ _ _]. by rewrite length_fmap. Qed.

Lemma columns_lookup st rs s r :
  columns st rs → rs !! s = Some r →
  entries st !! s = Some (p_entry r) ∧ slot_hidden st s = p_hidden r ∧ slot_stamp st s = p_stamp r
  ∧ slot_parent st s = p_parent r ∧ slot_eraser st s = p_eraser r ∧ slot_id st s = p_id r
  ∧ is_blank st s = p_blank r.
Proof.
  intros [He Hh Hs Hp Hr] H.
  unfold slot_hidden, slot_stamp, slot_parent, slot_eraser, slot_id, is_blank.
  by rewrite He, Hh, Hs, Hp, Hr, !list_lookup_fmap, H.
Qed.

Lemma slot_id_row st rs s i : columns st rs → slot_id st s = Some i → ∃ r, rs !! s = Some r ∧ p_id r = Some i.
Proof.
  intros Hc Hi. destruct (rs !! s) as [r|] eqn:E.
  - exists r. split; [done|]. destruct (columns_lookup _ _ _ _ Hc E) as (_ & _ & _ & _ & _ & <- & _). done.
  - unfold slot_id in Hi. rewrite (col_entries _ _ Hc), list_lookup_fmap, E in Hi. done.
Qed.

Lemma columns_reindex st rs : columns st rs → columns (reindex st) rs.
Proof. by intros []. Qed.

Lemma columns_insert st rs spot e hlc :
  columns st rs →
  columns (insert_entry st spot e hlc)
    (insert_at (spot_at spot) (mkPlacement e false hlc (spot_parent spot) false) rs).
Proof. intros [He Hh Hs Hp Hr]. split; cbn; by rewrite fmap_insert_at, ?He, ?Hh, ?Hs, ?Hp, ?Hr. Qed.

Lemma alter_fmap_same {A B} (f : A → B) (g : A → A) (l : list A) (n : nat) :
  (∀ x, f (g x) = f x) → f <$> alter g n l = f <$> l.
Proof.
  intros Hfg. revert n. induction l as [|x l IH]; intros [|n]; cbn; [done..|by rewrite Hfg|].
  f_equal. apply IH.
Qed.

Lemma alter_fmap_to {A B} (f : A → B) (g : A → A) y (l : list A) (n : nat) :
  (∀ x, f (g x) = y) → f <$> alter g n l = <[n := y]> (f <$> l).
Proof.
  intros Hfg. revert n. induction l as [|x l IH]; intros [|n]; cbn; [done..|by rewrite Hfg|].
  f_equal. apply IH.
Qed.

Lemma columns_hide st rs n : columns st rs → columns (hide_entry st n) (alter hide_row n rs).
Proof.
  intros [He Hh Hs Hp Hr]. split; cbn; rewrite ?He, ?Hh, ?Hs, ?Hp, ?Hr; symmetry;
    first [by apply alter_fmap_same | by apply alter_fmap_to].
Qed.

Lemma columns_set_eraser st rs n : columns st rs → columns (set_eraser st n) (alter erase_row n rs).
Proof.
  intros [He Hh Hs Hp Hr]. split; cbn; rewrite ?He, ?Hh, ?Hs, ?Hp, ?Hr; symmetry;
    first [by apply alter_fmap_same | by apply alter_fmap_to].
Qed.

Lemma columns_replace st rs n e : columns st rs → columns (replace_entry st n e) (alter (with_entry e) n rs).
Proof.
  intros [He Hh Hs Hp Hr]. split; cbn; rewrite ?He, ?Hh, ?Hs, ?Hp, ?Hr; symmetry;
    first [by apply alter_fmap_same | by apply alter_fmap_to].
Qed.

Lemma alter_insert_at {A} (g : A → A) n x l :
  n ≤ length l → alter g n (insert_at n x l) = insert_at n (g x) l.
Proof.
  intros Hn. apply list_eq. intros i. destruct (decide (i = n)) as [->|].
  - rewrite list_lookup_alter_eq, !lookup_insert_at by done.
    by rewrite (proj2 (Nat.ltb_ge n n)), Nat.eqb_refl by lia.
  - rewrite list_lookup_alter_ne by done. rewrite !lookup_insert_at by done.
    by rewrite (proj2 (Nat.eqb_neq i n)).
Qed.

(** ** Copies *)

Lemma copies_of_cons i x l : copies_of i (x :: l) = (if bool_decide (x = i) then 1 else 0) + copies_of i l.
Proof. unfold copies_of. cbn. by case_bool_decide. Qed.

Lemma copies_of_app i l l' : copies_of i (l ++ l') = copies_of i l + copies_of i l'.
Proof. unfold copies_of. by rewrite List.filter_app, length_app. Qed.

Lemma copies_of_perm i l l' : l ≡ₚ l' → copies_of i l = copies_of i l'.
Proof. intros H. unfold copies_of. by rewrite (filter_perm _ _ _ H). Qed.

Lemma copies_of_sublist i l l' : sublist l l' → copies_of i l ≤ copies_of i l'.
Proof. induction 1; rewrite ?copies_of_cons; lia. Qed.

Lemma copies_of_none i l : i ∉ l → copies_of i l = 0.
Proof.
  induction l as [|x l IH]; [done|]. rewrite not_elem_of_cons, copies_of_cons. intros [Hx Hl].
  rewrite bool_decide_eq_false_2 by done. by rewrite IH.
Qed.

Lemma copies_of_elem i l : i ∈ l → 1 ≤ copies_of i l.
Proof.
  induction 1 as [x l|x y l _ IH]; rewrite copies_of_cons; [rewrite bool_decide_eq_true_2 by done|]; lia.
Qed.

Lemma NoDup_copies l : NoDup l ↔ ∀ i, copies_of i l ≤ 1.
Proof.
  induction l as [|x l IH]; [split; [intros _ i; cbn; lia|constructor]|]. rewrite NoDup_cons, IH. split.
  - intros [Hx H] i. rewrite copies_of_cons. case_bool_decide; [subst; by rewrite copies_of_none|apply H].
  - intros H. split.
    + intros Hx%copies_of_elem. specialize (H x). rewrite copies_of_cons, bool_decide_eq_true_2 in H by done. lia.
    + intros i. specialize (H i). rewrite copies_of_cons in H. lia.
Qed.

Lemma rows_ok_within rs : rows_ok rs ↔ rows_within (λ _, 1) rs.
Proof. unfold rows_ok, rows_within. by rewrite NoDup_copies. Qed.

Lemma doc_wf_within st : doc_wf st ↔ doc_within (λ _, 1) st.
Proof. unfold doc_wf, doc_within. by setoid_rewrite rows_ok_within. Qed.

(** ** The rules on the rows *)

Lemma Forall_alter' {A} (P : A → Prop) g (l : list A) (n : nat) :
  Forall P l → (∀ x, l !! n = Some x → P x → P (g x)) → Forall P (alter g n l).
Proof.
  intros Hf. revert n. induction Hf as [|x l Hx Hl IH]; intros [|n] H; cbn; try by constructor.
  - constructor; [by apply H|assumption].
  - constructor; [done|]. by apply IH.
Qed.

Lemma omap_alter_None {A B} (f : A → option B) g (l : list A) (n : nat) :
  (∀ x, f (g x) = None) → sublist (omap f (alter g n l)) (omap f l).
Proof.
  intros Hg. revert n. induction l as [|x l IH]; intros [|n]; cbn; try done.
  - rewrite Hg. destruct (f x); [by apply sublist_cons|done].
  - destruct (f x); [by apply sublist_skip|]; apply IH.
Qed.

Section within.
Context (B : TaskId → nat).
Implicit Types (rs : list Placement) (r : Placement).

Lemma rows_within_perm rs rs' : rs ≡ₚ rs' → rows_within B rs → rows_within B rs'.
Proof. intros Hp [Hn Hf]. split; [|by rewrite <- Hp]. intros i. by rewrite <- (copies_of_perm i (omap shows rs)) by (by rewrite Hp). Qed.

Lemma rows_within_sublist rs rs' : sublist rs' rs → rows_within B rs → rows_within B rs'.
Proof.
  intros Hs [Hn Hf]. split; [|by eapply sublist_Forall'].
  intros i. etrans; [|apply Hn]. by apply copies_of_sublist, omap_sublist.
Qed.

(** A change of rows that shows the same ids and keeps erasers hidden blanks. *)
Lemma rows_within_same rs rs' :
  Forall2 (λ r r', shows r' = shows r ∧ (eraser_ok r → eraser_ok r')) rs rs' → rows_within B rs → rows_within B rs'.
Proof.
  intros H [Hn Hf]. split.
  - replace (omap shows rs') with (omap shows rs); [done|].
    clear Hn Hf. induction H as [|r r' rs rs' [Hs _] _ IH]; cbn; [done|]. by rewrite Hs, IH.
  - clear Hn. induction H as [|r r' rs rs' [_ He] _ IH]; [done|].
    apply Forall_cons in Hf as [? ?]. constructor; auto.
Qed.

Lemma rows_within_cons r rs :
  rows_within B rs → eraser_ok r → (∀ i, shows r = Some i → S (copies_of i (omap shows rs)) ≤ B i) → rows_within B (r :: rs).
Proof.
  intros [Hn Hf] He Hs. split; [|by constructor]. intros i.
  change (omap shows (r :: rs)) with (match shows r with Some y => y :: omap shows rs | None => omap shows rs end).
  destruct (shows r) as [k|]; [|apply Hn].
  rewrite copies_of_cons. case_bool_decide; [subst; by apply Hs|apply Hn].
Qed.

Lemma rows_within_insert n r rs :
  rows_within B rs → eraser_ok r → (∀ i, shows r = Some i → S (copies_of i (omap shows rs)) ≤ B i) → rows_within B (insert_at n r rs).
Proof. intros. eapply rows_within_perm; [symmetry; apply insert_at_perm|by apply rows_within_cons]. Qed.

Lemma rows_within_hide n rs : rows_within B rs → rows_within B (alter hide_row n rs).
Proof.
  intros [Hn Hf]. split.
  - intros i. etrans; [|apply Hn]. by apply copies_of_sublist, omap_alter_None.
  - apply Forall_alter'; [done|]. intros r _ Hr H. split; [done|]. apply Hr in H. apply H.
Qed.

Lemma rows_within_alter_same g n rs :
  rows_within B rs → (∀ r, rs !! n = Some r → shows (g r) = shows r ∧ (eraser_ok r → eraser_ok (g r))) →
  rows_within B (alter g n rs).
Proof.
  intros Hok Hg. eapply rows_within_same; [|done]. clear Hok. revert n Hg.
  assert (∀ l : list Placement, Forall2 (λ r r', shows r' = shows r ∧ (eraser_ok r → eraser_ok r')) l l) as Hrefl.
  { intros l. by induction l; constructor. }
  induction rs as [|r rs IH]; intros [|n] Hg; cbn; [by constructor..| |].
  - constructor; [by apply Hg|apply Hrefl].
  - constructor; [done|by apply IH].
Qed.
End within.

Lemma rows_ok_same rs rs' :
  Forall2 (λ r r', shows r' = shows r ∧ (eraser_ok r → eraser_ok r')) rs rs' → rows_ok rs → rows_ok rs'.
Proof. rewrite !rows_ok_within. apply rows_within_same. Qed.

Lemma rows_ok_insert n r rs :
  rows_ok rs → eraser_ok r → (∀ i, shows r = Some i → i ∉ omap shows rs) → rows_ok (insert_at n r rs).
Proof.
  rewrite !rows_ok_within. intros Hok He Hi. apply rows_within_insert; [done|done|]. intros i Hs. by rewrite copies_of_none by auto.
Qed.

Lemma rows_ok_hide n rs : rows_ok rs → rows_ok (alter hide_row n rs).
Proof. rewrite !rows_ok_within. apply rows_within_hide. Qed.

(** A row hidden: one copy less of what it showed. *)
Lemma copies_hidden n rs r i :
  rs !! n = Some r → shows r = Some i → S (copies_of i (omap shows (alter hide_row n rs))) = copies_of i (omap shows rs).
Proof.
  revert n. induction rs as [|x rs IH]; intros [|n] H Hs; [done..| |]; cbn [lookup list_lookup] in H; simplify_eq;
    cbn [alter list_alter]; [|specialize (IH _ H Hs)].
  - change (omap shows (hide_row r :: rs)) with (omap shows rs). change (omap shows (r :: rs)) with (match shows r with Some y => y :: omap shows rs | None => omap shows rs end). rewrite Hs, copies_of_cons, bool_decide_eq_true_2 by done. done.
  - change (omap shows (x :: ?l)) with (match shows x with Some y => y :: omap shows l | None => omap shows l end).
    destruct (shows x); [|exact IH]. rewrite !copies_of_cons. lia.
Qed.

(** Two rows that show one task are the same row. *)
Lemma rows_ok_once rs s1 s2 r1 r2 i :
  rows_ok rs → rs !! s1 = Some r1 → rs !! s2 = Some r2 → shows r1 = Some i → shows r2 = Some i → s1 = s2.
Proof.
  intros [Hn _]. revert s1 s2. induction rs as [|r rs IH]; intros s1 s2 H1 H2 E1 E2; [done|].
  assert (∀ s r', rs !! s = Some r' → shows r' = Some i → i ∈ omap shows rs) as Hin.
  { intros s r' Hs Hr'. apply list_elem_of_omap. exists r'. split; [by eapply list_elem_of_lookup_2|done]. }
  cbn in Hn. destruct s1 as [|s1], s2 as [|s2]; cbn in *; simplify_eq; [done|..].
  - rewrite E1 in Hn. apply NoDup_cons in Hn as [Hn _]. by destruct Hn; eapply Hin.
  - rewrite E2 in Hn. apply NoDup_cons in Hn as [Hn _]. by destruct Hn; eapply Hin.
  - f_equal. eapply IH; eauto. destruct (shows r); [by apply NoDup_cons in Hn as [_ ?]|done].
Qed.
