(* ===== verification/DocInvariant.v ===== *)
(** Well-formedness of the document: every op, whether it succeeds or fails, keeps the parallel
    vectors the columns of one list, the shown view exact, each eraser a hidden blank, and each task shown
    at most as often as its bound: once, unless a tagged file with one id on several lines was opened. *)
From S2P Require Import Prelude.
From S2P Require Import Utf8.
From S2P Require Import Types.
From S2P Require Import Ulid.
From S2P Require Import Scanner.
From S2P Require Import Parser.
From S2P Require Import Format.
From S2P Require Import TodoFile.
From S2P Require Import Edit.
From S2P Require Import Myers.
From S2P Require Import Diff.
From S2P Require Import Hlc.
From S2P Require Import TagText.
From S2P Require Import TextHistory.
From S2P Require Import Ops.
From S2P Require Import DocState.
From S2P Require Import DocRows.

(** ** Definitions *)

(** The state after some ops: documents opened from files that hold no id [i] on more than [B i] lines, then
    ops applied whether they succeed or fail, scratch stamps settled, and stamps adopted from another
    document. *)
Inductive doc_reaches (B : TaskId → nat) : DocState → Prop :=
| reach_open path f ids m st :
    from_file path f ids m = Ok st → (∀ i, copies_of i (omap id ids) ≤ B i) → doc_reaches B st
| reach_apply st o st' r : doc_reaches B st → doc_apply o st = (st', r) → doc_reaches B st'
| reach_settle st hlc : doc_reaches B st → doc_reaches B (settle_scratch_stamps st hlc)
| reach_adopt st replayed : doc_reaches B st → doc_reaches B replayed → doc_reaches B (adopt_stamps st replayed).

(** No id on two lines. *)
Definition once : TaskId → nat := λ _, 1.

Lemma reach_open_once path f ids m st : from_file path f ids m = Ok st → NoDup (omap id ids) → doc_reaches once st.
Proof. rewrite NoDup_copies. apply reach_open. Qed.

(** ** Changes that keep ids and visibility *)

(** The rows behind vectors of one length. *)
Lemma columns_exist st :
  length (hidden st) = length (entries st) → length (stamps st) = length (entries st) →
  length (parents st) = length (entries st) → length (erasers st) = length (entries st) →
  ∃ rs, columns st rs.
Proof.
  intros H1 H2 H3 H4.
  exists (imap (λ s e, mkPlacement e (slot_hidden st s) (slot_stamp st s) (slot_parent st s) (slot_eraser st s)) (entries st)).
  assert (∀ {A} (l : list A) (f : Placement → A) d,
    length l = length (entries st) →
    (∀ s e, f (mkPlacement e (slot_hidden st s) (slot_stamp st s) (slot_parent st s) (slot_eraser st s)) = default d (l !! s)) →
    l = f <$> imap (λ s e, mkPlacement e (slot_hidden st s) (slot_stamp st s) (slot_parent st s) (slot_eraser st s)) (entries st)) as Hcol.
  { intros A l f d Hl Hf. apply list_eq. intros s. rewrite list_lookup_fmap, list_lookup_imap.
    destruct (entries st !! s) as [e|] eqn:E; cbn.
    - rewrite Hf. apply lookup_lt_Some in E. rewrite <- Hl in E. by apply lookup_lt_is_Some in E as [x ->].
    - apply lookup_ge_None in E. apply lookup_ge_None. lia. }
  split.
  - apply list_eq. intros s. rewrite list_lookup_fmap, list_lookup_imap. by destruct (entries st !! s).
  - by apply (Hcol _ _ _ false).
  - by apply (Hcol _ _ _ unplaced).
  - by apply (Hcol _ _ _ None).
  - by apply (Hcol _ _ _ false).
Qed.

Lemma columns_lengths st rs :
  columns st rs →
  length (entries st) = length rs ∧ length (hidden st) = length rs ∧ length (stamps st) = length rs
  ∧ length (parents st) = length rs ∧ length (erasers st) = length rs.
Proof. by intros [-> -> -> -> ->]; rewrite !length_fmap. Qed.

Lemma p_blank_id r : p_blank r = true ↔ p_id r = None.
Proof. unfold p_blank, p_id. by destruct (p_entry r). Qed.

(** Two states with the same sequence. *)
Definition same_sequence (st st' : DocState) : Prop :=
  ds_path st' = ds_path st ∧ entries st' = entries st ∧ hidden st' = hidden st ∧ visible st' = visible st
  ∧ stamps st' = stamps st ∧ parents st' = parents st ∧ erasers st' = erasers st
  ∧ ds_bom st' = ds_bom st ∧ ds_ending st' = ds_ending st
  ∧ ds_trailing_newline st' = ds_trailing_newline st ∧ ds_mode st' = ds_mode st.

Lemma same_sequence_refl st : same_sequence st st.
Proof. by repeat split. Qed.

Lemma same_sequence_trans a b c : same_sequence a b → same_sequence b c → same_sequence a c.
Proof. intros H1 H2. unfold same_sequence in *. destruct_and!. repeat split; congruence. Qed.

Lemma same_sequence_meta st fs th lf : same_sequence st (with_meta st fs th lf).
Proof. by repeat split. Qed.

Lemma same_sequence_columns st st' rs : same_sequence st st' → columns st rs → columns st' rs.
Proof. intros H [? ? ? ? ?]. unfold same_sequence in H. destruct_and!. split; congruence. Qed.

Lemma same_sequence_slot_id st st' s : same_sequence st st' → slot_id st' s = slot_id st s.
Proof. intros H. unfold same_sequence in H. destruct_and!. unfold slot_id. congruence. Qed.

#[export] Hint Resolve same_sequence_refl same_sequence_meta : txtodo.

(** ** Slots found are slots of the document *)

Lemma slot_is_spec st i s : slot_is st i s = true ↔ slot_id st s = Some i.
Proof. unfold slot_is. by rewrite bool_decide_eq_true. Qed.

Lemma slot_id_lt st s i : slot_id st s = Some i → s < length (entries st).
Proof. unfold slot_id. intros (e & H & _)%bind_Some. by eapply lookup_lt_Some. Qed.

Lemma elem_of_slots st s : s ∈ slots st ↔ s < length (entries st).
Proof. unfold slots. rewrite elem_of_seq. lia. Qed.

Lemma elem_of_filter {A} (p : A → bool) l x : x ∈ List.filter p l ↔ p x = true ∧ x ∈ l.
Proof. rewrite !list_elem_of_In, filter_In. naive_solver. Qed.

Lemma find_elem {A} (p : A → bool) l x : find p l = Some x → x ∈ l ∧ p x = true.
Proof. intros H%find_some. by rewrite list_elem_of_In. Qed.

Lemma find_elem_None {A} (p : A → bool) l x : find p l = None → x ∈ l → p x = false.
Proof. rewrite list_elem_of_In. intros H. by apply find_none. Qed.

Lemma anchor_slot_id st after hlc s :
  anchor_slot st after hlc = Ok (Some s) → ∃ i, after = Some i ∧ slot_id st s = Some i.
Proof.
  unfold anchor_slot. destruct after as [i|]; [|done]. intros H. exists i. split; [done|].
  apply slot_is_spec.
  assert (s ∈ List.filter (slot_is st i) (slots st)) as [? _]%elem_of_filter; [|done].
  destruct (max_by _ _) as [s'|] eqn:E1; simplify_eq.
  { by apply max_by_elem, elem_of_filter in E1 as [_ E1]. }
  destruct (find _ _) as [s'|] eqn:E2; simplify_eq; [by apply find_elem in E2 as [? _]|].
  destruct (min_by _ _) as [s'|] eqn:E3; simplify_eq. by apply min_by_elem in E3.
Qed.

(** The spot of a new entry is a position of the sequence or its end. *)
Lemma slot_after_le st after hlc spot :
  length (stamps st) = length (entries st) → slot_after st after hlc = Ok spot →
  spot_at spot ≤ length (entries st).
Proof.
  unfold slot_after. intros Hl H. destruct (anchor_slot st after hlc) as [a|e] eqn:E; [|done].
  cbn in H. injection H as <-. cbn. unfold skip_newer.
  set (n := match a with Some s => s + 1 | None => 0 end).
  assert (n ≤ length (stamps st)) as Hn.
  { subst n. destruct a as [s|]; [|lia]. apply anchor_slot_id in E as (i & _ & Hi%slot_id_lt). lia. }
  destruct (run_while_spec (λ placed, Hlc_ltb hlc placed) (drop n (stamps st))) as (Hr & _).
  rewrite length_drop in Hr. lia.
Qed.

Lemma live_slot_Some st i s : live_slot st i = Some s → slot_id st s = Some i ∧ slot_hidden st s = false.
Proof.
  unfold live_slot. intros [_ H]%find_elem. apply andb_true_iff in H as [H1 H2].
  apply slot_is_spec in H2. by apply negb_true_iff in H1.
Qed.

Lemma live_slot_None st i s : live_slot st i = None → slot_id st s = Some i → slot_hidden st s = true.
Proof.
  unfold live_slot. intros H Hi.
  pose proof (find_elem_None _ _ s H (proj2 (elem_of_slots _ _) (slot_id_lt _ _ _ Hi))) as Hf. cbn in Hf.
  apply slot_is_spec in Hi. rewrite Hi, andb_true_r in Hf. by apply negb_false_iff in Hf.
Qed.

Lemma content_slot_id st i s : content_slot st i = Some s → slot_id st s = Some i.
Proof.
  unfold content_slot. destruct (live_slot st i) as [s'|] eqn:E.
  - intros [= <-]. by apply live_slot_Some in E as [? _].
  - intros H%max_by_elem. apply elem_of_filter in H as [H _]. by apply slot_is_spec.
Qed.

(** ** Opening and adopting *)

Lemma entry_of_id n l i e : entry_of n l i = Ok e → entry_id e = None ∨ entry_id e = i.
Proof.
  unfold entry_of. destruct (OwnedLine_parse l) as [p|]; [|done].
  destruct (kind p); [intros [= <-]; by left|]. destruct i; [intros [= <-]; by right|done].
Qed.

Lemma entries_of_ids n ls ids es :
  entries_of n ls ids = Ok es → sublist (omap entry_id es) (omap id ids).
Proof.
  revert n ids es. induction ls as [|l ls IH]; intros n ids es H; cbn [entries_of] in H.
  - injection H as <-. apply sublist_nil_l.
  - destruct (entry_of n l (default None (head ids))) as [e|] eqn:E; [|done].
    destruct (entries_of (S n) ls (tail ids)) as [es'|] eqn:E'; [|done]. cbn in H. injection H as <-.
    apply IH in E'. apply entry_of_id in E. destruct ids as [|i ids]; cbn in *.
    + destruct E as [-> | ->]; exact E'.
    + destruct E as [-> | ->]; destruct i; cbn; try done; [by apply sublist_cons|by apply sublist_skip].
Qed.

Lemma visible_of_none n : visible_of (replicate n false) = seq 0 n.
Proof.
  unfold visible_of. rewrite length_replicate. transitivity (List.filter (λ _, true) (seq 0 n)).
  - apply filter_ext_in. intros s [_ Hs]%in_seq. by rewrite lookup_replicate_2.
  - generalize 0. induction n as [|n IH]; intros k; cbn; [done|]. by rewrite IH.
Qed.

(** ** The view *)

Lemma visible_of_snoc hs h : visible_of (hs ++ [h]) = visible_of hs ++ (if h then [] else [length hs]).
Proof.
  unfold visible_of. rewrite length_app, seq_app, List.filter_app. cbn [length seq plus]. f_equal.
  - apply filter_ext_in. intros s [_ Hs]%in_seq. by rewrite lookup_app_l.
  - cbn. rewrite list_lookup_middle by done. by destruct h.
Qed.

Lemma visible_of_lt hs s : s ∈ visible_of hs → s < length hs ∧ hs !! s = Some false.
Proof.
  unfold visible_of. intros [H Hs]%elem_of_filter. apply elem_of_seq in Hs.
  destruct (hs !! s) as [h|] eqn:E; [|apply lookup_ge_None in E; lia]. split; [lia|]. by destruct h.
Qed.

Definition shown_rows (rs : list Placement) : list Placement := List.filter (λ r, negb (p_hidden r)) rs.

Lemma lookup_shown {B} (f : Placement → B) rs :
  omap (λ s, (f <$> rs) !! s) (visible_of (p_hidden <$> rs)) = f <$> shown_rows rs.
Proof.
  induction rs as [|r rs IH] using rev_ind; [done|].
  rewrite !fmap_app. change (p_hidden <$> [r]) with [p_hidden r]. rewrite visible_of_snoc, omap_app. unfold shown_rows in *. rewrite List.filter_app, fmap_app. f_equal.
  - rewrite <- IH. apply list_omap_ext. apply Forall_Forall2_diag, Forall_forall.
    intros s [Hs _]%visible_of_lt. rewrite length_fmap in Hs. by rewrite lookup_app_l by (by rewrite length_fmap).
  - rewrite length_fmap. cbn. destruct (p_hidden r) eqn:E; cbn; [done|].
    by rewrite list_lookup_middle by (by rewrite length_fmap).
Qed.

Lemma visible_entries_rows st rs :
  visible st = visible_of (hidden st) → columns st rs → visible_entries st = p_entry <$> shown_rows rs.
Proof. intros Hv Hc. unfold visible_entries. rewrite Hv, (col_entries _ _ Hc), (col_hidden _ _ Hc). apply lookup_shown. Qed.

Lemma shown_ids rs : omap entry_id (p_entry <$> shown_rows rs) = omap shows rs.
Proof.
  unfold shown_rows. induction rs as [|r rs IH]; [done|]. cbn. unfold shows at 1.
  destruct (p_hidden r); cbn; [done|]. by rewrite IH.
Qed.

Lemma doc_wf_shown_once st : doc_wf st → NoDup (omap entry_id (visible_entries st)).
Proof. intros (Hv & rs & Hc & Hn & _). rewrite (visible_entries_rows _ _ Hv Hc). by rewrite shown_ids. Qed.

Lemma line_ids_rows st rs :
  visible st = visible_of (hidden st) → columns st rs →
  line_ids st = (λ s, slot_id st s) <$> visible st ∧ Forall (λ s, s < length (entries st)) (visible st).
Proof.
  intros Hv Hc.
  assert (Forall (λ s, s < length (entries st)) (visible st)) as Hf.
  { apply Forall_forall. intros s Hs. rewrite Hv in Hs. apply visible_of_lt in Hs as [Hs _].
    destruct (columns_lengths _ _ Hc) as (-> & <- & _). done. }
  split; [|done]. unfold line_ids, visible_entries.
  clear Hv. induction Hf as [|s vs Hs _ IH]; [done|]. cbn. apply lookup_lt_is_Some in Hs as [e He].
  unfold slot_id at 1. rewrite He. cbn. f_equal. apply IH.
Qed.

(** ** Adopting *)

Lemma adopt_entries_ids st (pairs : list (nat * nat)) (es : list Entry) :
  Forall (λ p, ∃ e, entries st !! snd p = Some e ∧ ∀ e', es !! fst p = Some e' → entry_id e' = entry_id e) pairs →
  entry_id <$> foldl (λ es tm, match entries st !! snd tm with Some e => <[fst tm := e]> es | None => es end) es pairs
  = entry_id <$> es.
Proof.
  revert es. induction pairs as [|[t m] pairs IH]; intros es H; [done|].
  apply Forall_cons in H as [(e & He & Hid) H]. cbn in *. rewrite He.
  assert (entry_id <$> <[t := e]> es = entry_id <$> es) as Hsame.
  { rewrite list_fmap_insert. destruct (es !! t) as [e'|] eqn:E.
    - apply list_insert_id. rewrite list_lookup_fmap, E. cbn. by rewrite (Hid e').
    - apply list_insert_ge. rewrite length_fmap. by apply lookup_ge_None. }
  rewrite IH; [done|]. eapply Forall_impl; [exact H|]. intros [t' m'] (e2 & He2 & Hid2). exists e2. split; [done|].
  cbn. intros e' He'. apply (f_equal (lookup t')) in Hsame. rewrite !list_lookup_fmap, He' in Hsame.
  destruct (es !! t') as [e0|] eqn:E0; [|done]. cbn in *. injection Hsame as ->. by apply Hid2.
Qed.

Lemma shown_elem (rs : list Placement) (i : TaskId) : i ∈ omap shows rs → ∃ (s : nat) r, rs !! s = Some r ∧ shows r = Some i.
Proof. intros (r & [s Hs]%list_elem_of_lookup & Hr)%list_elem_of_omap. eauto. Qed.

Lemma shows_id r i : shows r = Some i → p_id r = Some i ∧ p_hidden r = false.
Proof. unfold shows. by destruct (p_hidden r). Qed.

(** How often a task is shown: not at all, or once more than with its shown entry hidden. *)
Lemma unseen_copies st rs i : columns st rs → live_slot st i = None → copies_of i (omap shows rs) = 0.
Proof.
  intros Hc Hl. apply copies_of_none. intros (s & r & Hs & [Hr Hh]%shows_id)%shown_elem.
  destruct (columns_lookup _ _ _ _ Hc Hs) as (_ & E1 & _ & _ & _ & E5 & _).
  pose proof (live_slot_None _ _ s Hl) as H. rewrite E1, E5 in H. by rewrite H in Hh.
Qed.

Lemma hidden_copies st rs i l :
  columns st rs → live_slot st i = Some l → S (copies_of i (omap shows (alter hide_row l rs))) = copies_of i (omap shows rs).
Proof.
  intros Hc [Hi Hh]%live_slot_Some. destruct (slot_id_row _ _ _ _ Hc Hi) as (r & Hr & Hri).
  destruct (columns_lookup _ _ _ _ Hc Hr) as (_ & E1 & _). eapply copies_hidden; [exact Hr|]. unfold shows. by rewrite <- E1, Hh.
Qed.

Section within.
Context (B : TaskId → nat) (HB : ∀ i, 1 ≤ B i).
Abbreviation within := (doc_within B).

(** A change that keeps every id and eraser, and the visibility of all but plain blanks. *)
Lemma within_same st st' :
  within st → visible st' = visible_of (hidden st') →
  entry_id <$> entries st' = entry_id <$> entries st →
  length (hidden st') = length (hidden st) → erasers st' = erasers st →
  length (stamps st') = length (stamps st) → length (parents st') = length (parents st) →
  (∀ s, slot_hidden st' s = slot_hidden st s ∨ (slot_id st s = None ∧ slot_eraser st s = false)) →
  within st'.
Proof.
  intros (_ & rs & Hc & Hok) Hv He Hh Hr Hs Hp Hsame. split; [done|].
  destruct (columns_lengths _ _ Hc) as (L1 & L2 & L3 & L4 & L5).
  pose proof (f_equal length He) as Hl. rewrite !length_fmap in Hl.
  destruct (columns_exist st') as [rs' Hc']; [rewrite ?Hr; congruence..|].
  exists rs'. split; [done|]. eapply rows_within_same; [|exact Hok].
  destruct (columns_lengths _ _ Hc') as (L1' & _).
  apply Forall2_same_length_lookup_2; [congruence|]. intros s r r' Er Er'.
  destruct (columns_lookup _ _ _ _ Hc Er) as (_ & E1 & _ & _ & E4 & E5 & _).
  destruct (columns_lookup _ _ _ _ Hc' Er') as (_ & E1' & _ & _ & E4' & E5' & _).
  assert (p_id r' = p_id r) as Hid.
  { apply (f_equal (lookup s)) in He. rewrite (col_entries _ _ Hc), (col_entries _ _ Hc') in He.
    rewrite !list_lookup_fmap, Er, Er' in He. unfold p_id. cbn in He. congruence. }
  assert (p_eraser r' = p_eraser r) as Her by (rewrite <- E4, <- E4'; unfold slot_eraser; by rewrite Hr).
  unfold shows, eraser_ok. rewrite Her, !p_blank_id, Hid.
  destruct (Hsame s) as [Hs'|[Hi Hne]].
  - rewrite E1, E1' in Hs'. by rewrite Hs'.
  - rewrite <- E5, Hi. split; [by destruct (p_hidden r), (p_hidden r')|].
    intros _ Ht. rewrite <- E4, Hne in Ht. done.
Qed.

Lemma same_sequence_within st st' : same_sequence st st' → within st → within st'.
Proof.
  intros H (Hv & rs & Hc & Hok). split; [unfold same_sequence in H; destruct_and!; congruence|].
  exists rs. split; [by eapply same_sequence_columns|done].
Qed.

Lemma within_replace st i task l :
  within st → slot_id st i = Some task → within (replace_entry st i (TaskEntry task l)).
Proof.
  intros Hwf Hi. apply (within_same st); try done; [by apply Hwf| |by left].
  cbn. rewrite list_fmap_insert. apply list_insert_id. rewrite list_lookup_fmap.
  unfold slot_id in Hi. apply bind_Some in Hi as (e & -> & He). cbn. by rewrite He.
Qed.

(** ** Each step keeps the rules *)

Lemma visible_reindex st : visible (reindex st) = visible_of (hidden (reindex st)).
Proof. done. Qed.

Lemma within_rows st rs : columns st rs → rows_within B rs → within (reindex st).
Proof. intros Hc Hok. split; [done|]. exists rs. by split; [apply columns_reindex|]. Qed.

Lemma within_hide st s : within st → within (hide_entry st s).
Proof.
  intros (_ & rs & Hc & Hok). split; [done|]. exists (alter hide_row s rs).
  split; [by apply columns_hide|by apply rows_within_hide].
Qed.

(** A new entry, its id shown less often than it may be. *)
Lemma within_insert_rows st rs spot e hlc :
  columns st rs → rows_within B rs → (∀ i, entry_id e = Some i → S (copies_of i (omap shows rs)) ≤ B i) →
  within (insert_entry st spot e hlc).
Proof.
  intros Hc Hok Hl. split; [done|]. eexists. split; [by apply columns_insert|].
  apply rows_within_insert; [done|done|]. intros i Hi. by apply Hl.
Qed.

(** A new entry, its id shown nowhere. *)
Lemma within_insert st spot e hlc :
  within st → (∀ i, entry_id e = Some i → live_slot st i = None) → within (insert_entry st spot e hlc).
Proof.
  intros (_ & rs & Hc & Hok) Hl. apply (within_insert_rows st rs); [done|done|]. intros i Hi.
  by rewrite (unseen_copies st rs i Hc (Hl i Hi)).
Qed.

(** A new entry hidden at once, with or without an eraser's mark. *)
Lemma within_insert_ghost st spot e hlc :
  within st → spot_at spot ≤ length (entries st) →
  within (hide_entry (insert_entry st spot e hlc) (spot_at spot)).
Proof.
  intros (_ & rs & Hc & Hok) Hle. split; [done|].
  eexists. split; [by apply columns_hide, columns_insert|].
  rewrite alter_insert_at by (by rewrite <- (columns_length _ _ Hc)). by apply rows_within_insert.
Qed.

Lemma within_insert_eraser st spot l hlc :
  within st → spot_at spot ≤ length (entries st) →
  within (hide_entry (set_eraser (insert_entry st spot (BlankEntry l) hlc) (spot_at spot)) (spot_at spot)).
Proof.
  intros (_ & rs & Hc & Hok) Hle. split; [done|].
  eexists. split; [by apply columns_hide, columns_set_eraser, columns_insert|].
  rewrite !alter_insert_at by (by rewrite <- (columns_length _ _ Hc)). by apply rows_within_insert.
Qed.

Lemma block_end_from_le fuel st ms n : n ≤ block_end_from fuel st ms n.
Proof.
  revert ms n. induction fuel as [|fuel IH]; intros ms n; cbn [block_end_from]; [lia|].
  destruct (match slot_parent st (n + 1) with Some p => _ | None => _ end); [|lia].
  etransitivity; [|apply IH]. lia.
Qed.

Lemma block_end_le st n : n ≤ block_end st n.
Proof. apply block_end_from_le. Qed.

Lemma move_block_rows st head task placed st' rs :
  columns st rs → move_block st head task placed = Some st' →
  ∃ rs', columns st' rs' ∧ rs' ≡ₚ alter (with_parent (Some (task, placed))) head rs ∧ visible st' = visible_of (hidden st').
Proof.
  intros Hc H. unfold move_block in H.
  set (e := block_end st head) in *. pose proof (block_end_le st head : head ≤ e) as Hle.
  apply bind_Some in H as (a & _ & H). destruct (_ && _); [done|].
  match type of H with context [skip_newer ?l ?h ?k] => set (n := skip_newer l h k) in * end.
  injection H as <-.
  exists (move_range head e n (alter (with_parent (Some (task, placed))) head rs)). split_and!; [|by apply move_range_perm|done].
  destruct Hc as [He Hh Hs Hp Hr].
  split; cbn [entries hidden stamps parents erasers reindex with_sequence]; rewrite move_range_fmap, ?He, ?Hh, ?Hs, ?Hp, ?Hr; f_equal; symmetry;
    first [by apply alter_fmap_same | by apply alter_fmap_to].
Qed.

Lemma within_rehome_loop fuel st task placed : within st → within (rehome_loop fuel st task placed).
Proof.
  revert st. induction fuel as [|fuel IH]; intros st Hwf; cbn [rehome_loop]; [done|].
  destruct (find _ _) as [head|]; [|done].
  destruct (move_block st head task placed) as [st'|] eqn:E; [|done]. apply IH.
  destruct Hwf as (_ & rs & Hc & Hok).
  destruct (move_block_rows _ _ _ _ _ _ Hc E) as (rs' & Hc' & Hp & Hv).
  split; [done|]. exists rs'. split; [done|].
  eapply rows_within_perm; [symmetry; exact Hp|]. by apply rows_within_alter_same.
Qed.

Lemma within_rehome st task placed : within st → within (rehome_onto st task placed).
Proof. apply within_rehome_loop. Qed.

Lemma alter_split {A} (g : A → A) (l : list A) (s : nat) x :
  l !! s = Some x → alter g s l = take s l ++ g x :: drop (S s) l.
Proof.
  revert s. induction l as [|y l IH]; intros [|s] H; cbn in *; simplify_eq; [by rewrite drop_0|].
  f_equal. by apply IH.
Qed.

(** Shows an entry of a task shown less often than it may be. *)
Lemma within_show st rs task s :
  columns st rs → rows_within B rs → S (copies_of task (omap shows rs)) ≤ B task → slot_id st s = Some task →
  within (reindex (with_sequence st (entries st) (<[s := false]> (hidden st)) (stamps st) (parents st) (erasers st))).
Proof.
  intros Hc [Hn Hf] Hl Hi. destruct (slot_id_row _ _ _ _ Hc Hi) as (r & Hr & Hri).
  split; [done|]. exists (alter show_row s rs). split.
  - destruct Hc as [He Hh Hs Hp Her]. split; cbn; rewrite ?He, ?Hh, ?Hs, ?Hp, ?Her; symmetry;
      first [by apply alter_fmap_same | by apply alter_fmap_to].
  - pose proof (take_drop_middle _ _ _ Hr) as Hsplit. rewrite (alter_split _ _ _ _ Hr).
    assert (sublist (take s rs ++ drop (S s) rs) rs) as Hsub by (rewrite <- Hsplit at 3; by apply sublist_app, sublist_cons).
    eapply rows_within_perm; [apply Permutation_middle|]. apply rows_within_cons.
    + by eapply (rows_within_sublist B rs); [|split].
    + intros He. apply Forall_lookup_1 with (i := s) (x := r) in Hf; [|done].
      destruct (Hf He) as [_ Hb%p_blank_id]. congruence.
    + intros i [Hi' _]%shows_id. assert (i = task) as -> by (unfold p_id in *; cbn in *; congruence).
      pose proof (copies_of_sublist task _ _ (omap_sublist shows _ _ Hsub)). lia.
Qed.

Lemma within_show_newest st task n : within st → within (show_newest st task n).
Proof.
  intros Hwf. unfold show_newest.
  set (newest := max_by _ _). destruct (bool_decide (newest = live_slot st task)) eqn:Eb; [done|]. breflect.
  assert (∀ s, newest = Some s → slot_id st s = Some task) as Hnew.
  { intros s Hs%max_by_elem. apply elem_of_filter in Hs as [Hs _]. by apply slot_is_spec. }
  pose proof Hwf as (_ & rs & Hc & Hok).
  destruct (live_slot st task) as [l|] eqn:El, newest as [s|] eqn:En; try done.
  - apply (within_show (hide_entry st l) (alter hide_row l rs) task s); [by apply columns_hide|by apply rows_within_hide| |by apply Hnew].
    rewrite (hidden_copies st rs task l Hc El). apply Hok.
  - by apply (within_hide st l).
  - apply (within_show st rs task s); [done|done| |by apply Hnew]. by rewrite (unseen_copies st rs task Hc El).
Qed.

Lemma within_settle st : within st → within (settle_erasers st).
Proof.
  intros Hwf. unfold settle_erasers. destruct (negb _); [done|].
  set (hs := imap _ _). destruct (bool_decide (hs = hidden st)); [done|].
  assert (length hs = length (hidden st)) as Hl by (subst hs; by rewrite length_imap).
  apply (within_same st); [done..|]. intros s.
  destruct (is_blank st s && negb (slot_eraser st s)) eqn:E.
  - right. apply andb_true_iff in E as [Hb He]. apply negb_true_iff in He. split; [|done].
    unfold is_blank in Hb. unfold slot_id. by destruct (entries st !! s) as [[]|].
  - left. unfold slot_hidden. change (hidden (reindex _)) with hs. subst hs. rewrite list_lookup_imap.
    destruct (hidden st !! s); cbn; [by rewrite E|done].
Qed.

Lemma within_prune_to st n : within st → within (prune_ghosts_to st n).
Proof.
  intros Hwf. unfold prune_ghosts_to. destruct (_ <=? _); [done|].
  set (ds := stable_sort _ _). destruct Hwf as (_ & rs & Hc & Hok). split; [done|].
  exists (remove_slots ds rs). split; [|by eapply rows_within_sublist; [apply remove_slots_sublist|]].
  destruct Hc as [He Hh Hs Hp Hr].
  split; cbn [entries hidden stamps parents erasers reindex with_sequence with_meta]; by rewrite remove_slots_fmap, ?He, ?Hh, ?Hs, ?Hp, ?Hr.
Qed.

Lemma within_prune st : within st → within (prune_ghosts st).
Proof. intros Hwf. unfold prune_ghosts, prune_ghosts_past. destruct (_ <? _); [by apply within_prune_to|done]. Qed.

(** ** Each op keeps the rules *)

(** A step that keeps documents well-formed, also when it fails. *)
Definition keeps {A} (m : ST A) : Prop := ∀ st, within st → within (fst (m st)).

Lemma keeps_bind {A C} (m : ST A) (f : A → ST C) : keeps m → (∀ a, keeps (f a)) → keeps (m ≫= f).
Proof.
  intros Hm Hf st Hwf. specialize (Hm st Hwf). unfold mbind, ST_bind.
  destruct (m st) as [st' [a|e]]; [by apply Hf|done].
Qed.

Lemma keeps_modify f : (∀ st, within st → within (f st)) → keeps (modify f).
Proof. intros H st Hwf. by apply H. Qed.

Lemma keeps_pure {A} (m : ST A) : (∀ st, fst (m st) = st) → keeps m.
Proof. intros H st Hwf. by rewrite H. Qed.

(** A step of the sequence's metadata alone. *)
Definition meta_only {A} (m : ST A) : Prop := ∀ st, same_sequence st (fst (m st)).

Lemma meta_only_bind {A C} (m : ST A) (f : A → ST C) : meta_only m → (∀ a, meta_only (f a)) → meta_only (m ≫= f).
Proof.
  intros Hm Hf st. specialize (Hm st). unfold mbind, ST_bind.
  destruct (m st) as [st' [a|e]]; [|done]. by eapply same_sequence_trans; [|apply Hf].
Qed.

Lemma meta_only_keeps {A} (m : ST A) : meta_only m → keeps m.
Proof. intros H st Hwf. eapply same_sequence_within; [apply H|done]. Qed.

Lemma same_sequence_record_all st task hlc fs :
  same_sequence st (foldl (λ st f, record_field st task f hlc) st fs).
Proof.
  revert st. induction fs as [|f fs IH]; intros st; cbn; [apply same_sequence_refl|].
  eapply same_sequence_trans; [|apply IH]. apply same_sequence_meta.
Qed.

Lemma edit_description_meta st task d hlc es : same_sequence st (fst (edit_description st task d hlc es)).
Proof. unfold edit_description. destruct (TextHistory_apply apply_text_edits _ _ _ _ _) as [h r]. apply same_sequence_meta. Qed.

Lemma set_pri_meta st task d hlc l add : same_sequence st (fst (set_pri_in_description st task d hlc l add)).
Proof.
  unfold set_pri_in_description. destruct add.
  - destruct (TextHistory_set_pri apply_text_edits _ _ _ _ _) as [h t]. apply same_sequence_meta.
  - destruct (TextHistory_swap_pri apply_text_edits _ _) as [h t]. apply same_sequence_meta.
Qed.

Lemma clear_pri_meta st task d : same_sequence st (fst (clear_pri_in_description st task d)).
Proof. unfold clear_pri_in_description. destruct (TextHistory_clear_pri apply_text_edits _) as [h [t|]]; apply same_sequence_meta. Qed.

Lemma remove_tag_meta st task d hlc key : same_sequence st (fst (remove_tag_in_description st task d hlc key)).
Proof. unfold remove_tag_in_description. destruct (TextHistory_remove_tag apply_text_edits _ _ _ _ _) as [h t]. apply same_sequence_meta. Qed.

Lemma keep_in_history_meta st task l l' hlc : same_sequence st (fst (keep_in_history st task l l' hlc)).
Proof.
  unfold keep_in_history. destruct (moved_into_pri l l') as [[[old new] [letter add]]|]; [|apply same_sequence_meta].
  pose proof (set_pri_meta st task old hlc letter add) as H.
  destruct (set_pri_in_description st task old hlc letter add) as [st' [held|]]; cbn in H.
  - destruct (bool_decide (held = new)); [done|]. by destruct (set_description Edit_new held).
  - eapply same_sequence_trans; [exact H|apply same_sequence_meta].
Qed.

Lemma restore_text_meta st task saved : same_sequence st (restore_text st task saved).
Proof. unfold restore_text. destruct saved; apply same_sequence_meta. Qed.

#[local] Hint Resolve same_sequence_record_all edit_description_meta set_pri_meta clear_pri_meta
  remove_tag_meta keep_in_history_meta restore_text_meta : txtodo.

Lemma merged_line_meta task cur ins hlc : meta_only (merged_line task cur ins hlc).
Proof.
  unfold merged_line.
  repeat (apply meta_only_bind; [|intros ?]); intros st;
    unfold gets, try, modify, mret, ST_ret; cbn [fst]; auto with txtodo.
  match goal with |- context [TextHistory_reset ?p ?h ?d ?x] => destruct (TextHistory_reset p h d x) as [h' t] end.
  apply same_sequence_meta.
Qed.

(** Replacing the line of a found task, after its metadata changed. *)
Lemma within_replace_meta st st' i task l :
  within st → slot_id st i = Some task → same_sequence st st' → within (replace_entry st' i (TaskEntry task l)).
Proof.
  intros Hwf Hi Hs. apply within_replace; [by eapply same_sequence_within|]. by rewrite (same_sequence_slot_id st st').
Qed.

Lemma keeps_set_field task f v hlc : keeps (doc_set_field task f v hlc).
Proof.
  intros st Hwf. unfold doc_set_field. destruct (bool_decide (f = FDeleted)).
  - unfold doc_set_deleted. destruct v as [[]| | |]; try done.
    destruct (has_placement st task); [|done]. unfold note_death.
    assert (∀ lf, within (with_life st lf)) as Hl.
    { intros lf. eapply same_sequence_within; [|exact Hwf]. apply same_sequence_meta. }
    destruct (live_slot _ task) as [s|]; [|apply Hl].
    destruct (match reborn _ with Some _ => _ | None => _ end); cbn [fst]; [apply within_hide|]; apply Hl.
  - destruct (content_slot st task) as [i|] eqn:Ei; [|done]. apply content_slot_id in Ei.
    set (line := default _ (slot_line st i)).
    destruct (is_stale_field st task f hlc).
    { destruct (priority_from_tag line); [|done].
      destruct (bool_decide (f = FPriority)); [|done]. by apply within_replace. }
    assert (∀ v, within (fst (match rewrite_prefix line f v with
              | None => (st, Err (Unsupported (str "SetField on this line")))
              | Some new_line =>
                  let '(st', new_line) :=
                    if bool_decide (description_of line = description_of new_line) then (st, new_line)
                    else keep_in_history st task line new_line hlc in
                  (record_field (replace_entry st' i (TaskEntry task new_line)) task f hlc, @Ok StateError unit tt)
              end))) as Hrw.
    { intros w. destruct (rewrite_prefix line f w) as [l|]; [|done].
      destruct (bool_decide (description_of line = description_of l)).
      { eapply same_sequence_within; [apply same_sequence_meta|]. by apply within_replace. }
      pose proof (keep_in_history_meta st task line l hlc) as Hk.
      destruct (keep_in_history st task line l hlc) as [st' l']; cbn [fst] in *.
      eapply same_sequence_within; [apply same_sequence_meta|]. by eapply within_replace_meta. }
    destruct (_ && _); [|by apply Hrw].
    destruct (done_description line) as [d|]; [|by apply Hrw].
    unfold clear_done_priority, mbind, ST_bind, modify, try.
    pose proof (clear_pri_meta st task d) as Hc.
    destruct (clear_pri_in_description st task d) as [st' t]; cbn [fst] in *.
    destruct (with_description st' task line t) as [l|e]; cbn; [|by eapply same_sequence_within].
    eapply same_sequence_within; [apply same_sequence_meta|]. by eapply within_replace_meta.
Qed.

Lemma keeps_edit_text task es hlc : keeps (doc_edit_text task es hlc).
Proof.
  intros st Hwf. unfold doc_edit_text.
  destruct (content_slot st task) as [i|] eqn:Ei; [|done]. apply content_slot_id in Ei.
  destruct (description_of _) as [d|]; [|done].
  pose proof (edit_description_meta st task d hlc es) as Hm.
  destruct (edit_description st task d hlc es) as [st' r]; cbn [fst] in *.
  destruct (match r with Ok _ => _ | Err _ => _ end) as [l|e]; cbn [fst].
  - by eapply within_replace_meta.
  - eapply same_sequence_within; [apply restore_text_meta|]. by eapply same_sequence_within.
Qed.

Lemma keeps_remove_tag task key hlc : keeps (doc_remove_tag task key hlc).
Proof.
  intros st Hwf. unfold doc_remove_tag. destruct (negb _); [done|].
  destruct (content_slot st task) as [i|] eqn:Ei; [|done]. apply content_slot_id in Ei.
  destruct (description_of _) as [d|]; [|done].
  pose proof (remove_tag_meta st task d hlc key) as Hm.
  destruct (remove_tag_in_description st task d hlc key) as [st' t]; cbn [fst] in *.
  destruct (with_description st' task _ t) as [l|e]; cbn [fst].
  - by eapply within_replace_meta.
  - eapply same_sequence_within; [apply restore_text_meta|]. by eapply same_sequence_within.
Qed.

Lemma within_stamps st : within st → length (stamps st) = length (entries st).
Proof. intros (_ & rs & Hc & _). destruct (columns_lengths _ _ Hc) as (-> & _ & -> & _). done. Qed.

Lemma within_relabel st task l :
  within st →
  within (with_sequence st (map (λ e, if bool_decide (entry_id e = Some task) then TaskEntry task l else e) (entries st))
            (hidden st) (stamps st) (parents st) (erasers st)).
Proof.
  intros Hwf. apply (within_same st); try done; [by apply Hwf| |by left].
  change (entry_id <$> ((λ e, if bool_decide (entry_id e = Some task) then TaskEntry task l else e) <$> entries st)
          = entry_id <$> entries st).
  rewrite <- list_fmap_compose. apply list_fmap_ext. intros _ e _. cbn. by case_bool_decide.
Qed.

Lemma keeps_place_ghost task after hlc : keeps (place_ghost task after hlc).
Proof.
  intros st Hwf. unfold place_ghost, mbind, ST_bind, try, modify.
  destruct (ok_or _ _) as [line|e]; [|done].
  destruct (slot_after st after hlc) as [spot|e] eqn:Es; [|done]. cbn [fst].
  apply within_rehome, within_insert_ghost; [done|]. eapply slot_after_le; [|exact Es]. by apply within_stamps.
Qed.

Lemma keeps_reinsert task after line hlc : keeps (reinsert task after line hlc).
Proof.
  intros st Hwf. unfold reinsert, mbind, ST_bind, modify, try.
  destruct (slot_after st after hlc) as [spot|e] eqn:Es; [|done].
  destruct (ok_or _ _) as [current|e]; [|done].
  pose proof (merged_line_meta task current line hlc st) as Hm.
  destruct (merged_line task current line hlc st) as [st1 [merged|e]]; cbn [fst] in *; [|by eapply same_sequence_within].
  assert (spot_at spot ≤ length (entries st1)) as Hle.
  { destruct Hm as (_ & -> & _). eapply slot_after_le; [|exact Es]. by apply within_stamps. }
  apply (same_sequence_within _ _ Hm) in Hwf.
  apply within_rehome, within_relabel.
  match goal with |- within (if _ then show_newest ?s _ _ else _) => assert (within s) as Hs end.
  { eapply same_sequence_within; [apply same_sequence_meta|]. by apply within_insert_ghost. }
  destruct (_ || _); [by apply within_show_newest|done].
Qed.

Lemma has_placement_live st task : has_placement st task = false → live_slot st task = None.
Proof.
  intros H. destruct (live_slot st task) as [s|] eqn:E; [|done]. apply live_slot_Some in E as [Hi _].
  unfold slot_id in Hi. apply bind_Some in Hi as (e & He & Hi).
  assert (existsb (λ e, bool_decide (entry_id e = Some task)) (entries st) = true) as Ht; [|unfold has_placement in H; congruence].
  apply existsb_exists. exists e. split; [by apply list_elem_of_In, (list_elem_of_lookup_2 _ s)|by apply bool_decide_eq_true].
Qed.

Lemma keeps_insert task after line hlc : keeps (doc_insert task after line hlc).
Proof.
  intros st Hwf. unfold doc_insert. destruct (too_many st); [done|]. destruct (_ && _); [done|].
  destruct (has_placement st task) eqn:Eh; [by apply keeps_reinsert|].
  unfold mbind, ST_bind, try, modify. destruct (slot_after st after hlc) as [spot|e]; [|done]. cbn [fst].
  apply within_insert; [done|]. intros i [= <-]. by apply has_placement_live.
Qed.

Lemma keeps_move task after to hlc : keeps (doc_move task after to hlc).
Proof.
  intros st Hwf. unfold doc_move. destruct (negb _).
  { destruct (live_slot st task) as [s|]; [by apply within_hide|]. by destruct (has_placement st task). }
  destruct (bool_decide _); [done|]. destruct (anchor_slot st after hlc) as [a|e]; [|done].
  destruct (live_slot st task) as [s|] eqn:El; [|by apply keeps_place_ghost].
  destruct (is_stale_move st s hlc); [by apply keeps_place_ghost|].
  destruct (entries st !! s) as [e|] eqn:Ee; [|done].
  unfold mbind, ST_bind, try, modify. destruct (slot_after _ after hlc) as [spot|err]; cbn [fst]; [|by apply within_hide].
  pose proof Hwf as (_ & rs & Hc & Hok).
  apply within_rehome, (within_insert_rows _ (alter hide_row s rs)); [by apply columns_hide|by apply rows_within_hide|]. intros i Hi.
  assert (i = task) as ->; [|rewrite (hidden_copies st rs task s Hc El); apply Hok].
  apply live_slot_Some in El as [Hs _]. unfold slot_id in Hs. rewrite Ee in Hs. cbn in Hs. congruence.
Qed.

Lemma keeps_blank_insert after hlc : keeps (doc_blank_insert after hlc).
Proof.
  intros st Hwf. unfold doc_blank_insert. destruct (too_many st); [done|].
  unfold mbind, ST_bind, try, modify. destruct (slot_after st after hlc) as [spot|e]; [|done].
  by apply within_insert.
Qed.

Lemma keeps_blank_remove after hlc : keeps (doc_blank_remove after hlc).
Proof.
  intros st Hwf. unfold doc_blank_remove.
  unfold mbind, ST_bind, try, modify. destruct (slot_after st after hlc) as [spot|e] eqn:Es; [|done].
  apply within_insert_eraser; [done|]. eapply slot_after_le; [|exact Es]. by apply within_stamps.
Qed.

#[local] Hint Resolve keeps_set_field keeps_edit_text keeps_remove_tag keeps_insert keeps_move
  keeps_blank_insert keeps_blank_remove within_settle within_prune : txtodo.

Lemma keeps_apply o : keeps (doc_apply o).
Proof.
  unfold doc_apply. apply keeps_bind; [|intros _; apply keeps_bind; [|intros _]].
  - unfold doc_dispatch. destruct (op_kind o); auto with txtodo. by apply keeps_pure.
  - apply keeps_modify. intros st Hwf. destruct (reshapes _); auto with txtodo.
  - apply keeps_modify. auto with txtodo.
Qed.

Lemma within_open path f ids m st : from_file path f ids m = Ok st → (∀ i, copies_of i (omap id ids) ≤ B i) → within st.
Proof.
  unfold from_file. destruct (_ <? _)%N; [done|]. destruct (entries_of 0 (lines f) ids) as [es|] eqn:E; [|done].
  intros [= <-] Hn. split; [symmetry; apply visible_of_none|].
  exists ((λ e, mkPlacement e false unplaced None false) <$> es). split.
  - split; cbn; rewrite <- list_fmap_compose; cbn; [by rewrite list_fmap_id|..]; symmetry; apply const_fmap; done.
  - split.
    + intros i. etrans; [|apply Hn]. apply copies_of_sublist. replace (omap shows _) with (omap entry_id es); [by eapply entries_of_ids|].
      clear. induction es as [|e es IH]; cbn; [done|]. by rewrite <- IH.
    + by apply Forall_fmap, Forall_true.
Qed.

Lemma within_settle_scratch st hlc : within st → within (settle_scratch_stamps st hlc).
Proof.
  intros Hwf. apply (within_same st); try done; [by apply Hwf|..].
  - cbn. by rewrite length_map.
  - cbn. by rewrite length_map.
  - by left.
Qed.

Lemma within_adopt st replayed : within st → within replayed → within (adopt_stamps st replayed).
Proof.
  intros Hwf Hr. unfold adopt_stamps.
  set (st0 := with_meta st _ _ _).
  assert (within st0) as Hwf0 by (eapply same_sequence_within; [apply same_sequence_meta|done]).
  clearbody st0. clear st Hwf. rename st0 into st, Hwf0 into Hwf.
  unfold adopt_sequence. destruct (bool_decide (line_ids st = line_ids replayed)) eqn:E.
  - breflect. pose proof Hr as (Hv' & rs' & Hc' & _). pose proof Hwf as (Hv & rs & Hc & _).
    destruct (line_ids_rows _ _ Hv Hc) as [El Hlt]. destruct (line_ids_rows _ _ Hv' Hc') as [El' Hlt'].
    rewrite El, El' in E. apply (within_same replayed); try done; [|by left].
    cbn. apply adopt_entries_ids. apply Forall_lookup_2. intros k [t m] Hk.
    apply lookup_zip_with_Some in Hk as (t' & m' & [= <- <-] & Ht & Hm).
    rewrite Forall_lookup in Hlt. destruct (proj2 (lookup_lt_is_Some _ _) (Hlt _ _ Hm)) as [e He].
    exists e. split; [done|]. cbn. intros e' He'.
    apply (f_equal (lookup k)) in E. rewrite !list_lookup_fmap, Ht, Hm in E. cbn in E. injection E as E.
    unfold slot_id in E. rewrite He, He' in E. by symmetry.
  - apply (within_same st); try done; [by apply Hwf|..].
    + cbn. by rewrite length_imap.
    + cbn. by rewrite length_imap.
    + by left.
Qed.

End within.

#[export] Hint Resolve same_sequence_record_all edit_description_meta set_pri_meta clear_pri_meta
  remove_tag_meta keep_in_history_meta restore_text_meta : txtodo.

(** ** Documents whose ids are distinct *)

Lemma doc_wf_insert st spot e hlc :
  doc_wf st → (∀ i, entry_id e = Some i → live_slot st i = None) → doc_wf (insert_entry st spot e hlc).
Proof. rewrite !doc_wf_within. by apply within_insert. Qed.

Lemma doc_wf_settle st : doc_wf st → doc_wf (settle_erasers st).
Proof. rewrite !doc_wf_within. by apply within_settle. Qed.

Lemma doc_wf_stamps st : doc_wf st → length (stamps st) = length (entries st).
Proof. rewrite doc_wf_within. apply within_stamps. Qed.

Lemma doc_wf_apply o st st' r : doc_wf st → doc_apply o st = (st', r) → doc_wf st'.
Proof. rewrite !doc_wf_within. intros Hwf H. replace st' with (fst (doc_apply o st)) by (by rewrite H). by apply keeps_apply. Qed.

Lemma doc_wf_open path f ids m st : from_file path f ids m = Ok st → NoDup (omap id ids) → doc_wf st.
Proof. rewrite doc_wf_within, NoDup_copies. by apply within_open. Qed.

(** Hiding a task's shown entry leaves none shown. *)
Lemma live_slot_hidden st task l :
  doc_wf st → live_slot st task = Some l → live_slot (hide_entry st l) task = None.
Proof.
  intros (_ & rs & Hc & Hok) El. destruct (live_slot (hide_entry st l) task) as [s|] eqn:E; [|done]. exfalso.
  apply live_slot_Some in E as [Hi Hh]. apply live_slot_Some in El as [Hi' Hh'].
  change (slot_id st s = Some task) in Hi.
  destruct (slot_id_row _ _ _ _ Hc Hi) as (r & Hr & Hri).
  destruct (slot_id_row _ _ _ _ Hc Hi') as (r' & Hr' & Hri').
  destruct (columns_lookup _ _ _ _ Hc Hr) as (_ & E1 & _). destruct (columns_lookup _ _ _ _ Hc Hr') as (_ & E1' & _).
  unfold slot_hidden in Hh. cbn in Hh. destruct (decide (s = l)) as [->|Hne].
  - rewrite list_lookup_insert_eq in Hh; [done|].
    rewrite (col_hidden _ _ Hc), length_fmap. by eapply lookup_lt_Some.
  - rewrite list_lookup_insert_ne in Hh by done. fold (slot_hidden st s) in Hh.
    destruct Hne. eapply (rows_ok_once rs); [done..| |]; unfold shows; [by rewrite <- E1, Hh|by rewrite <- E1', Hh'].
Qed.

Lemma reaches_within B st : (∀ i, 1 ≤ B i) → doc_reaches B st → doc_within B st.
Proof.
  intros HB H. induction H as [path f ids m st H Hn|st o st' r _ IH H|st hlc _ IH|st replayed _ IH1 _ IH2].
  - by eapply within_open.
  - replace st' with (fst (doc_apply o st)) by (by rewrite H). by apply keeps_apply.
  - by apply within_settle_scratch.
  - by apply within_adopt.
Qed.

Lemma reaches_wf st : doc_reaches once st → doc_wf st.
Proof. intros H. apply doc_wf_within, (reaches_within once); [done|exact H]. Qed.

Lemma task_lines_ids st : map fst (task_lines st) = omap entry_id (visible_entries st).
Proof.
  unfold task_lines. induction (visible_entries st) as [|e es IH]; [done|]. cbn. destruct (entry_id e); cbn; by rewrite IH.
Qed.

(** ** Claims *)

(** C26. However documents are opened, changed by ops that succeed or fail, settled after a commit and given
    the stamps of their rebuilt log, the parallel vectors keep one length, the view lists exactly the
    placements not hidden, every eraser is a hidden blank, and a task is never shown more often than the
    bound: for files that hold no id on two lines, at most once; for files that hold the id [i] on [B i]
    lines, as a tagged file may, never more often than that. *)
Theorem doc_reaches_wf B st :
  (∀ i, 1 ≤ B i) → doc_reaches B st →
  (length (hidden st) = length (entries st) ∧ length (stamps st) = length (entries st)
   ∧ length (parents st) = length (entries st) ∧ length (erasers st) = length (entries st))
  ∧ visible st = visible_of (hidden st)
  ∧ (∀ i, copies_of i (map fst (task_lines st)) ≤ B i)
  ∧ (B = once → NoDup (map fst (task_lines st)))
  ∧ ∀ s, slot_eraser st s = true → slot_hidden st s = true ∧ is_blank st s = true.
Proof.
  intros HB Hwf%reaches_within; [|done]. rewrite task_lines_ids, NoDup_copies. destruct Hwf as (Hv & rs & Hc & Hn & Hf).
  assert (∀ i, copies_of i (omap entry_id (visible_entries st)) ≤ B i) as Hcopies.
  { intros i. rewrite (visible_entries_rows _ _ Hv Hc), shown_ids. apply Hn. }
  destruct (columns_lengths _ _ Hc) as (-> & -> & -> & -> & ->). split_and!; try done.
  - intros ->. apply Hcopies.
  - intros s Hs. destruct (rs !! s) as [r|] eqn:Er.
    + destruct (columns_lookup _ _ _ _ Hc Er) as (_ & -> & _ & _ & E4 & _ & ->).
      eapply Forall_lookup_1 in Hf; [|exact Er]. apply Hf. congruence.
    + unfold slot_eraser in Hs. by rewrite (col_erasers _ _ Hc), list_lookup_fmap, Er in Hs.
Qed.

(** A tagged file with one id on two lines, its first line deleted: the task is shown once more. *)
Lemma doc_reaches_wf_witness : ∃ st,
  doc_to_bytes st = str "two" ++ [x0a] ∧ ∀ i, copies_of i (map fst (task_lines st)) ≤ 2.
Proof.
  destruct (from_file todo_path (parse_file (str "one" ++ [x0a] ++ str "two" ++ [x0a])) [Some 1%N; Some 1%N] Tagged) as [st|e] eqn:E;
    [|vm_compute in E; discriminate E].
  destruct (doc_apply (op_at 5 1 (KSetField 1 FDeleted (FVBool true))) st) as [st' r] eqn:E'.
  exists st'. split.
  - vm_compute in E. injection E as <-. vm_compute in E'. injection E' as <- <-. by vm_compute.
  - apply (doc_reaches_wf (λ _, 2) st'); [intros; lia|]. eapply reach_apply; [eapply reach_open; [exact E|]|exact E'].
    intros i. unfold copies_of. cbn. repeat case_bool_decide; cbn; lia.
Defined.
