(* ===== verification/DocConverge.v ===== *)
(** Concurrent inserts converge: two devices' new lines land in the same order whichever arrives
    first. *)
From S2P Require Import Prelude.
From S2P Require Import Utf8.
From S2P Require Import Types.
From S2P Require Import Ulid.
From S2P Require Import Scanner.
From S2P Require Import Parser.
From S2P Require Import Format.
From S2P Require Import TodoFile.
From S2P Require Import Edit.
From S2P Require Import Myers.
From S2P Require Import Diff.
From S2P Require Import Hlc.
From S2P Require Import TagText.
From S2P Require Import TextHistory.
From S2P Require Import Ops.
From S2P Require Import DocState.
From S2P Require Import DocRows.
From S2P Require Import DocInvariant.

(** ** Definitions *)

(** Where a gap of the sequence is after an insertion at [n]: a gap at or before [n] stays. *)
Definition shift_gap (n k : nat) : nat := if k <=? n then k else S k.

(** Where a slot is after an insertion at [n]. *)
Definition shift_slot (n s : nat) : nat := if s <? n then s else S s.

(** The gap right after an anchor, and the parent it gives. *)
Definition gap_after (anchor : option nat) : nat := match anchor with Some s => s + 1 | None => 0 end.
Definition parent_of (st : DocState) (anchor : option nat) : Parent :=
  s ← anchor; i ← slot_id st s; Some (i, slot_stamp st s).

(** An op that adds a new line: what it adds and after which task. *)
Definition new_line (st : DocState) (o : Op) : option (Entry * option TaskId) :=
  match op_kind o with
  | KInsert task after line =>
      if has_placement st task then None
      else Some (TaskEntry task (OwnedLine_from_bytes line (ds_ending st)), after)
  | KBlankInsert after => Some (blank_entry st, after)
  | _ => None
  end.

(** Applies ops in order, stopping at the first failure. *)
Definition apply_all (ops : list Op) : ST unit := foldr (λ o m, doc_apply o ≫= λ _, m) (mret tt) ops.

(** The task an op adds. *)
Definition added_id (o : Op) : option TaskId :=
  match op_kind o with KInsert task _ _ => Some task | _ => None end.

(** How many entries are hidden or blank: the most ghosts there can be however erasers settle. *)
Definition may_hide (st : DocState) : nat :=
  length (List.filter (λ s, slot_hidden st s || is_blank st s) (slots st)).

(** Two states that differ at most in which plain blanks are shown. *)
Record blanks_apart (st st' : DocState) : Prop := mkBlanksApart {
  ba_entries : entries st' = entries st;
  ba_stamps : stamps st' = stamps st;
  ba_parents : parents st' = parents st;
  ba_erasers : erasers st' = erasers st;
  ba_meta : (field_stamps st', text_history st', life st') = (field_stamps st, text_history st, life st);
  ba_file : (ds_path st', ds_bom st', ds_ending st', ds_trailing_newline st', ds_mode st')
            = (ds_path st, ds_bom st, ds_ending st, ds_trailing_newline st, ds_mode st);
  ba_length : length (hidden st') = length (hidden st);
  ba_hidden : ∀ s, slot_hidden st' s = slot_hidden st s ∨ (is_blank st s = true ∧ slot_eraser st s = false)
}.

(** Ops that each add a new line the document accepts, with their own stamps and tasks, and room for
    them all: no line limit is reached and no ghost is pruned. *)
Record fits (st : DocState) (ops : list Op) : Prop := mkFits {
  fit_wf : doc_wf st;
  fit_accepted : Forall (λ o, is_Some (new_line st o) ∧ snd (doc_apply o st) = Ok tt) ops;
  fit_stamps : NoDup (op_hlc <$> ops);
  fit_ids : NoDup (omap added_id ops);
  fit_ghosts : may_hide st + length ops ≤ MAX_GHOSTS_PER_FILE;
  fit_lines : (N.of_nat (length (entries st) + length ops) <= MAX_LINES_PER_FILE)%N
}.

(** ** Spots *)

Lemma skip_newer_spec ss hlc k :
  k ≤ length ss →
  k ≤ skip_newer ss hlc k ≤ length ss
  ∧ (∀ i x, k ≤ i < skip_newer ss hlc k → ss !! i = Some x → Hlc_ltb hlc x = true)
  ∧ (∀ x, ss !! skip_newer ss hlc k = Some x → Hlc_ltb hlc x = false).
Proof.
  intros Hk. unfold skip_newer.
  destruct (run_while_spec (λ placed, Hlc_ltb hlc placed) (drop k ss)) as (H1 & H2 & H3).
  rewrite length_drop in H1. split_and!; [lia|lia| |].
  - intros i x Hi Hx. apply (H2 (i - k)); [lia|]. rewrite lookup_drop. by replace (k + (i - k)) with i by lia.
  - intros x Hx. apply H3. by rewrite lookup_drop.
Qed.

Lemma skip_newer_unique ss hlc k n :
  k ≤ n ≤ length ss →
  (∀ i x, k ≤ i < n → ss !! i = Some x → Hlc_ltb hlc x = true) →
  (∀ x, ss !! n = Some x → Hlc_ltb hlc x = false) →
  skip_newer ss hlc k = n.
Proof.
  intros Hk H1 H2. destruct (skip_newer_spec ss hlc k) as (G0 & G1 & G2); [lia|].
  destruct (Nat.lt_trichotomy (skip_newer ss hlc k) n) as [Hlt|[->|Hgt]]; [|done|].
  - destruct (lookup_lt_is_Some_2 ss (skip_newer ss hlc k)) as [x Hx]; [lia|].
    specialize (G2 x Hx). by rewrite (H1 _ x (conj (proj1 G0) Hlt) Hx) in G2.
  - destruct (lookup_lt_is_Some_2 ss n) as [x Hx]; [lia|]. specialize (H2 x Hx). rewrite (G1 n x) in H2; [done|lia|done].
Qed.

Lemma Hlc_ltb_between a b x : Hlc_ltb a x = true → Hlc_ltb b x = false → Hlc_ltb a b = true.
Proof.
  rewrite <- (not_true_iff_false (Hlc_ltb b x)), !Hlc_ltb_spec. unfold Hlc_lt. lia.
Qed.

Lemma Hlc_ltb_flip a b : a ≠ b → Hlc_ltb b a = negb (Hlc_ltb a b).
Proof.
  intros Hab. destruct (Hlc_ltb a b) eqn:E; cbn.
  - rewrite Hlc_ltb_spec in E. apply not_true_iff_false. rewrite Hlc_ltb_spec. unfold Hlc_lt in *. lia.
  - rewrite <- not_true_iff_false, Hlc_ltb_spec in E. rewrite Hlc_ltb_spec.
    destruct (Hlc_lt_total a b) as [?|[?|?]]; done.
Qed.

(** A scan that stops before an insertion, or starts after it. *)
Lemma skip_newer_insert ss h h' k n :
  k ≤ length ss → n ≤ length ss →
  skip_newer (insert_at n h' ss) h (shift_gap n k) =
    if n <? k then S (skip_newer ss h k)
    else if skip_newer ss h k <? n then skip_newer ss h k
    else if Hlc_ltb h h' then S (skip_newer ss h k)
    else n.
Proof.
  intros Hk Hn. destruct (skip_newer_spec ss h k Hk) as (G0 & G1 & G2).
  set (m := skip_newer ss h k) in *. unfold shift_gap.
  assert (length (insert_at n h' ss) = S (length ss)) as Hl by apply length_insert_at.
  destruct (Nat.ltb_spec n k) as [Hnk|Hnk].
  - rewrite (proj2 (Nat.leb_gt k n)) by lia. apply skip_newer_unique; [lia|..].
    + intros i x Hi. rewrite lookup_insert_at by done.
      rewrite (proj2 (Nat.ltb_ge i n)), (proj2 (Nat.eqb_neq i n)) by lia. apply G1. lia.
    + intros x. rewrite lookup_insert_at by done.
      rewrite (proj2 (Nat.ltb_ge (S m) n)), (proj2 (Nat.eqb_neq (S m) n)) by lia.
      replace (S m - 1) with m by lia. apply G2.
  - rewrite (proj2 (Nat.leb_le k n)) by lia. destruct (Nat.ltb_spec m n) as [Hmn|Hmn].
    + apply skip_newer_unique; [lia|..].
      * intros i x Hi. rewrite lookup_insert_at by done. rewrite (proj2 (Nat.ltb_lt i n)) by lia. by apply G1.
      * intros x. rewrite lookup_insert_at by done. rewrite (proj2 (Nat.ltb_lt m n)) by lia. by apply G2.
    + destruct (Hlc_ltb h h') eqn:E.
      * apply skip_newer_unique; [lia|..].
        -- intros i x Hi. rewrite lookup_insert_at by done.
           destruct (Nat.ltb_spec i n); [apply G1; lia|]. destruct (Nat.eqb_spec i n); [congruence|]. apply G1. lia.
        -- intros x. rewrite lookup_insert_at by done.
           rewrite (proj2 (Nat.ltb_ge (S m) n)), (proj2 (Nat.eqb_neq (S m) n)) by lia.
           replace (S m - 1) with m by lia. apply G2.
      * apply skip_newer_unique; [lia|..].
        -- intros i x Hi. rewrite lookup_insert_at by done. rewrite (proj2 (Nat.ltb_lt i n)) by lia. apply G1. lia.
        -- intros x. rewrite lookup_insert_at, Nat.ltb_irrefl, Nat.eqb_refl by done. congruence.
Qed.

(** Two insertions, each at the first place its stamp allows past its own gap, take the same places
    in either order. *)
Lemma insert_spots_commute ss hA hB a b :
  a ≤ length ss → b ≤ length ss → hA ≠ hB →
  let nA := skip_newer ss hA a in
  let nB := skip_newer ss hB b in
  let nB' := skip_newer (insert_at nA hA ss) hB (shift_gap nA b) in
  let nA' := skip_newer (insert_at nB hB ss) hA (shift_gap nB a) in
  (nA ≤ nB ∧ nB' = S nB ∧ nA' = nA) ∨ (nB ≤ nA ∧ nB' = nB ∧ nA' = S nA).
Proof.
  intros Ha Hb Hne nA nB nB' nA'.
  destruct (skip_newer_spec ss hA a Ha) as (A0 & A1 & A2).
  destruct (skip_newer_spec ss hB b Hb) as (B0 & B1 & B2).
  fold nA in A0, A1, A2. fold nB in B0, B1, B2.
  assert (nB' = if nA <? b then S nB else if nB <? nA then nB else if Hlc_ltb hB hA then S nB else nA) as ->
    by (apply skip_newer_insert; lia).
  assert (nA' = if nB <? a then S nA else if nA <? nB then nA else if Hlc_ltb hA hB then S nA else nB) as ->
    by (apply skip_newer_insert; lia).
  pose proof (Hlc_ltb_flip hA hB Hne) as Hflip.
  assert (a ≤ nB → nB < nA → Hlc_ltb hA hB = true) as HAB.
  { intros H1 H2. destruct (lookup_lt_is_Some_2 ss nB) as [x Hx]; [lia|].
    eapply Hlc_ltb_between; [eapply (A1 nB); [lia|exact Hx]|by apply B2]. }
  assert (b ≤ nA → nA < nB → Hlc_ltb hB hA = true) as HBA.
  { intros H1 H2. destruct (lookup_lt_is_Some_2 ss nA) as [x Hx]; [lia|].
    eapply Hlc_ltb_between; [eapply (B1 nA); [lia|exact Hx]|by apply A2]. }
  destruct (Nat.ltb_spec nA b), (Nat.ltb_spec nB a), (Nat.ltb_spec nB nA), (Nat.ltb_spec nA nB);
    try lia; try (rewrite HAB in * by lia); try (rewrite HBA in * by lia);
    rewrite ?Hflip; destruct (Hlc_ltb hA hB); cbn in *; try discriminate; lia.
Qed.

Lemma insert_at_commute {A} (l : list A) n m x y :
  n ≤ m → m ≤ length l → insert_at (S m) y (insert_at n x l) = insert_at n x (insert_at m y l).
Proof.
  intros Hnm Hm. apply list_eq. intros i.
  rewrite (lookup_insert_at (S m)) by (rewrite length_insert_at; lia).
  rewrite (lookup_insert_at n x (insert_at m y l)) by (rewrite length_insert_at; lia).
  rewrite !lookup_insert_at by lia.
  destruct (Nat.ltb_spec i (S m)), (Nat.ltb_spec i n), (Nat.eqb_spec i (S m)), (Nat.eqb_spec i n),
    (Nat.ltb_spec i m), (Nat.eqb_spec i m), (Nat.ltb_spec (i - 1) n), (Nat.eqb_spec (i - 1) n),
    (Nat.ltb_spec (i - 1) m), (Nat.eqb_spec (i - 1) m); try lia; try done; f_equal; lia.
Qed.

(** ** Searches over shifted slots *)

Lemma foldl_pick_map {A B} (g : A → B) (pick : B → B → B) (pick' : A → A → A) l acc :
  (∀ a b, pick (g a) (g b) = g (pick' a b)) →
  foldl (λ acc x, match acc with None => Some x | Some m => Some (pick m x) end) (g <$> acc) (map g l)
  = g <$> foldl (λ acc x, match acc with None => Some x | Some m => Some (pick' m x) end) acc l.
Proof.
  intros H. revert acc. induction l as [|x l IH]; intros acc; cbn [foldl map]; [done|].
  rewrite <- IH. f_equal. destruct acc; cbn; [by rewrite H|done].
Qed.

Lemma max_by_pick {A} (le : A → A → bool) l acc :
  foldl (λ acc x, match acc with None => Some x | Some m => if le m x then Some x else Some m end) acc l
  = foldl (λ acc x, match acc with None => Some x | Some m => Some (if le m x then x else m) end) acc l.
Proof. revert acc. induction l as [|x l IH]; intros acc; cbn; [done|]. rewrite IH. f_equal. destruct acc as [m|]; [by destruct (le m x)|done]. Qed.

Lemma min_by_pick {A} (le : A → A → bool) l acc :
  foldl (λ acc x, match acc with None => Some x | Some m => if le m x then Some m else Some x end) acc l
  = foldl (λ acc x, match acc with None => Some x | Some m => Some (if le m x then m else x) end) acc l.
Proof. revert acc. induction l as [|x l IH]; intros acc; cbn; [done|]. rewrite IH. f_equal. destruct acc as [m|]; [by destruct (le m x)|done]. Qed.

Lemma max_by_map {A B} (g : A → B) le le' l :
  (∀ a b, le (g a) (g b) = le' a b) → max_by le (map g l) = g <$> max_by le' l.
Proof.
  intros H. unfold max_by. rewrite !max_by_pick. rewrite <- (foldl_pick_map g (λ m x, if le m x then x else m)); [done|].
  intros a b. rewrite H. by destruct (le' a b).
Qed.

Lemma min_by_map {A B} (g : A → B) le le' l :
  (∀ a b, le (g a) (g b) = le' a b) → min_by le (map g l) = g <$> min_by le' l.
Proof.
  intros H. unfold min_by. rewrite !min_by_pick. rewrite <- (foldl_pick_map g (λ m x, if le m x then m else x)); [done|].
  intros a b. rewrite H. by destruct (le' a b).
Qed.

Lemma filter_map_list {A B} (g : A → B) p l : List.filter p (map g l) = map g (List.filter (λ x, p (g x)) l).
Proof. induction l as [|x l IH]; cbn; [done|]. rewrite IH. by destruct (p (g x)). Qed.

Lemma find_map_list {A B} (g : A → B) p l : find p (map g l) = g <$> find (λ x, p (g x)) l.
Proof. induction l as [|x l IH]; cbn; [done|]. by destruct (p (g x)). Qed.

Lemma find_same {A} (p q : A → bool) l : (∀ x, p x = q x) → find p l = find q l.
Proof. intros H. induction l as [|x l IH]; cbn; [done|]. by rewrite H, IH. Qed.

Lemma lookup_insert_at_shift {A} n (x : A) l s : n ≤ length l → insert_at n x l !! shift_slot n s = l !! s.
Proof.
  intros Hn. rewrite lookup_insert_at by done. unfold shift_slot. destruct (Nat.ltb_spec s n) as [H|H].
  - by rewrite (proj2 (Nat.ltb_lt s n)).
  - rewrite (proj2 (Nat.ltb_ge (S s) n)), (proj2 (Nat.eqb_neq (S s) n)) by lia. f_equal. lia.
Qed.

(** The slots a test accepts after an insertion it does not accept. *)
Lemma filter_slots_insert p n k :
  n ≤ k → p n = false →
  List.filter p (seq 0 (S k)) = map (shift_slot n) (List.filter (λ s, p (shift_slot n s)) (seq 0 k)).
Proof.
  intros H Hp. replace (S k) with (n + S (k - n)) by lia. replace k with (n + (k - n)) at 2 by lia.
  rewrite !seq_app, !List.filter_app, map_app. cbn [seq List.filter plus]. rewrite Hp. f_equal.
  - rewrite <- filter_map_list. f_equal. rewrite <- (map_id (seq 0 n)) at 1. apply map_ext_in.
    intros s [_ Hs]%in_seq. unfold shift_slot. by rewrite (proj2 (Nat.ltb_lt s n)).
  - rewrite <- filter_map_list. f_equal. rewrite <- seq_shift. apply map_ext_in.
    intros s [? _]%in_seq. unfold shift_slot. by rewrite (proj2 (Nat.ltb_ge s n)).
Qed.

Section insertion.
Context (st : DocState) (rs : list Placement) (spot : Spot) (e : Entry) (h : Hlc).
Hypothesis Hc : columns st rs.
Hypothesis Hn : spot_at spot ≤ length rs.
Let st1 := insert_entry st spot e h.
Let sh := shift_slot (spot_at spot).

Lemma insert_slot_id s : slot_id st1 (sh s) = slot_id st s.
Proof.
  unfold slot_id, st1, sh. cbn. rewrite lookup_insert_at_shift; [done|]. by rewrite (columns_length _ _ Hc).
Qed.

Lemma insert_slot_stamp s : slot_stamp st1 (sh s) = slot_stamp st s.
Proof.
  unfold slot_stamp, st1, sh. cbn. rewrite lookup_insert_at_shift; [done|].
  destruct (columns_lengths _ _ Hc) as (_ & _ & -> & _). done.
Qed.

Lemma insert_slot_hidden s : slot_hidden st1 (sh s) = slot_hidden st s.
Proof.
  unfold slot_hidden, st1, sh. cbn. rewrite lookup_insert_at_shift; [done|].
  destruct (columns_lengths _ _ Hc) as (_ & -> & _). done.
Qed.

Lemma insert_slot_is i s : slot_is st1 i (sh s) = slot_is st i s.
Proof. unfold slot_is. by rewrite insert_slot_id. Qed.

Lemma insert_new_id : slot_id st1 (spot_at spot) = entry_id e.
Proof.
  unfold slot_id, st1. cbn. rewrite lookup_insert_at by (by rewrite (columns_length _ _ Hc)).
  by rewrite Nat.ltb_irrefl, Nat.eqb_refl.
Qed.

Lemma insert_placements i :
  entry_id e ≠ Some i →
  List.filter (slot_is st1 i) (slots st1) = map sh (List.filter (slot_is st i) (slots st)).
Proof.
  intros Hi. unfold slots. change (entries st1) with (insert_at (spot_at spot) e (entries st)).
  rewrite length_insert_at, (columns_length _ _ Hc). rewrite (filter_slots_insert _ (spot_at spot)); [|done|].
  - f_equal. apply List.filter_ext. intros s. apply insert_slot_is.
  - unfold slot_is. rewrite insert_new_id. by apply bool_decide_eq_false.
Qed.

(** Another op's anchor is where it was, moved along. *)
Lemma insert_anchor_slot after hlc :
  entry_id e ≠ after ∨ after = None →
  anchor_slot st1 after hlc = fmap (M := result StateError) (fmap sh) (anchor_slot st after hlc).
Proof.
  intros Hafter. unfold anchor_slot. destruct after as [i|]; [|done].
  rewrite insert_placements by (destruct Hafter; done).
  rewrite filter_map_list, find_map_list.
  rewrite (List.filter_ext (λ x, Hlc_leb (slot_stamp st1 (sh x)) hlc) (λ s, Hlc_leb (slot_stamp st s) hlc))
    by (intros s; by rewrite insert_slot_stamp).
  rewrite (max_by_map sh _ (λ a b, key_leb (slot_stamp st a, negb (slot_hidden st a)) (slot_stamp st b, negb (slot_hidden st b))))
    by (intros a b; by rewrite !insert_slot_stamp, !insert_slot_hidden).
  rewrite (min_by_map sh _ (λ a b, Hlc_leb (slot_stamp st a) (slot_stamp st b)))
    by (intros a b; by rewrite !insert_slot_stamp).
  rewrite (find_same (λ x, negb (slot_hidden st1 (sh x))) (λ s, negb (slot_hidden st s)))
    by (intros s; by rewrite insert_slot_hidden).
  destruct (max_by _ _) as [s|]; cbn; [done|]. destruct (find _ _) as [s|]; cbn; [done|].
  by destruct (min_by _ _).
Qed.
Lemma insert_slot_after after hlc k p :
  entry_id e ≠ after ∨ after = None →
  (∃ a, anchor_slot st after hlc = Ok a ∧ k = gap_after a ∧ p = parent_of st a) →
  slot_after st1 after hlc =
    Ok (mkSpot (skip_newer (insert_at (spot_at spot) h (stamps st)) hlc (shift_gap (spot_at spot) k)) p).
Proof.
  intros Hafter (a & Ha & -> & ->). unfold slot_after. rewrite (insert_anchor_slot after hlc Hafter), Ha. cbn.
  f_equal. destruct a as [s|]; cbn.
  - f_equal; [|by rewrite insert_slot_id, insert_slot_stamp]. f_equal. unfold sh, shift_slot, shift_gap.
    unfold skip_newer. assert ((if s <? spot_at spot then s else S s) + 1
      = if s + 1 <=? spot_at spot then s + 1 else S (s + 1)) as ->; [|done].
    destruct (Nat.ltb_spec s (spot_at spot)), (Nat.leb_spec (s + 1) (spot_at spot)); lia.
  - by destruct (spot_at spot).
Qed.
End insertion.

Lemma slot_after_Ok st after hlc spot :
  slot_after st after hlc = Ok spot ↔
  ∃ a, anchor_slot st after hlc = Ok a
       ∧ spot = mkSpot (skip_newer (stamps st) hlc (gap_after a)) (parent_of st a).
Proof.
  unfold slot_after. destruct (anchor_slot st after hlc) as [a|e]; cbn; [|naive_solver].
  split; [intros [= <-]; by exists a|intros (? & [= <-] & ->); done].
Qed.

Lemma gap_after_le st after hlc a :
  anchor_slot st after hlc = Ok a → gap_after a ≤ length (entries st).
Proof.
  intros H. destruct a as [s|]; cbn; [|lia]. apply anchor_slot_id in H as (i & _ & Hi%slot_id_lt). lia.
Qed.

(** Two new entries, neither anchored on the other, take the same places in either order. *)
Lemma places_commute st afterA afterB hA hB eA eB spotA spotB :
  doc_wf st → hA ≠ hB →
  slot_after st afterA hA = Ok spotA → slot_after st afterB hB = Ok spotB →
  (entry_id eA ≠ afterB ∨ afterB = None) → (entry_id eB ≠ afterA ∨ afterA = None) →
  ∃ spotA' spotB',
    slot_after (insert_entry st spotA eA hA) afterB hB = Ok spotB'
    ∧ slot_after (insert_entry st spotB eB hB) afterA hA = Ok spotA'
    ∧ insert_entry (insert_entry st spotA eA hA) spotB' eB hB
      = insert_entry (insert_entry st spotB eB hB) spotA' eA hA.
Proof.
  intros (_ & rs & Hc & _) Hne HA HB HAB HBA.
  apply slot_after_Ok in HA as (a & Ha & ->). apply slot_after_Ok in HB as (b & Hb & ->).
  pose proof (gap_after_le _ _ _ _ Ha) as La. pose proof (gap_after_le _ _ _ _ Hb) as Lb.
  destruct (columns_lengths _ _ Hc) as (L1 & L2 & L3 & L4 & L5).
  destruct (skip_newer_spec (stamps st) hA (gap_after a)) as (A0 & _); [lia|].
  destruct (skip_newer_spec (stamps st) hB (gap_after b)) as (B0 & _); [lia|].
  eexists _, _. split_and!.
  - apply (insert_slot_after st rs _ eA hA Hc); [cbn; lia|done|eauto].
  - apply (insert_slot_after st rs _ eB hB Hc); [cbn; lia|done|eauto].
  - destruct (insert_spots_commute (stamps st) hA hB (gap_after a) (gap_after b)) as [(H1 & H2 & H3)|(H1 & H2 & H3)];
      [lia|lia|done|..]; cbn [spot_at] in *; rewrite H2, H3; unfold insert_entry, reindex, with_sequence;
      cbn [spot_at spot_parent entries hidden stamps parents erasers visible ds_path field_stamps text_history life ds_bom ds_ending ds_trailing_newline ds_mode];
      [rewrite !(insert_at_commute _ (skip_newer (stamps st) hA (gap_after a))) by lia
      |rewrite <- !(insert_at_commute _ (skip_newer (stamps st) hB (gap_after b))) by lia]; done.
Qed.

(** ** Settling erasers between ops *)

Lemma blanks_apart_refl st : blanks_apart st st.
Proof. split; try done. by left. Qed.

Lemma blanks_apart_settle st : blanks_apart st (settle_erasers st).
Proof.
  unfold settle_erasers. destruct (negb _); [apply blanks_apart_refl|].
  set (hs := imap _ _). destruct (bool_decide (hs = hidden st)); [apply blanks_apart_refl|].
  split; try done; [cbn; subst hs; by rewrite length_imap|]. intros s.
  destruct (is_blank st s && negb (slot_eraser st s)) eqn:E.
  - right. apply andb_true_iff in E as [Hb He]. by apply negb_true_iff in He.
  - left. unfold slot_hidden. change (hidden (reindex _)) with hs. subst hs. rewrite list_lookup_imap.
    destruct (hidden st !! s); cbn; [by rewrite E|done].
Qed.

Section apart.
Context (st st' : DocState).
Hypothesis Ha : blanks_apart st st'.

Lemma apart_slots : slots st' = slots st.
Proof. unfold slots. by rewrite (ba_entries _ _ Ha). Qed.

Lemma apart_slot_id s : slot_id st' s = slot_id st s.
Proof. unfold slot_id. by rewrite (ba_entries _ _ Ha). Qed.

Lemma apart_slot_stamp s : slot_stamp st' s = slot_stamp st s.
Proof. unfold slot_stamp. by rewrite (ba_stamps _ _ Ha). Qed.

Lemma apart_slot_eraser s : slot_eraser st' s = slot_eraser st s.
Proof. unfold slot_eraser. by rewrite (ba_erasers _ _ Ha). Qed.

Lemma apart_is_blank s : is_blank st' s = is_blank st s.
Proof. unfold is_blank. by rewrite (ba_entries _ _ Ha). Qed.

Lemma apart_hidden s : is_blank st s = false → slot_hidden st' s = slot_hidden st s.
Proof. intros Hb. destruct (ba_hidden _ _ Ha s) as [?|[? _]]; congruence. Qed.

Lemma apart_hidden_id s i : slot_id st s = Some i → slot_hidden st' s = slot_hidden st s.
Proof.
  intros Hi. apply apart_hidden. unfold slot_id in Hi. unfold is_blank. by destruct (entries st !! s) as [[]|].
Qed.

Lemma apart_slot_is i s : slot_is st' i s = slot_is st i s.
Proof. unfold slot_is. by rewrite apart_slot_id. Qed.

Lemma foldl_pick_ext {A} (pick pick' : A → A → A) (l : list A) acc :
  (∀ a b, a ∈ l ∨ acc = Some a → b ∈ l → pick a b = pick' a b) →
  (∀ a b, pick a b = a ∨ pick a b = b) →
  foldl (λ acc x, match acc with None => Some x | Some m => Some (pick m x) end) acc l
  = foldl (λ acc x, match acc with None => Some x | Some m => Some (pick' m x) end) acc l.
Proof.
  intros H Hp. revert acc H. induction l as [|x l IH]; intros acc H; [done|]. cbn.
  assert (match acc with None => Some x | Some m => Some (pick' m x) end
          = match acc with None => Some x | Some m => Some (pick m x) end) as ->.
  { destruct acc as [m|]; [|done]. rewrite H; [done|right; reflexivity|apply elem_of_cons; by left]. }
  apply IH. intros a b Hor Hb. apply H; [|apply elem_of_cons; by right].
  destruct Hor as [Hin|Hacc]; [left; apply elem_of_cons; by right|].
  destruct acc as [m|]; injection Hacc as <-; [|left; apply elem_of_cons; by left].
  destruct (Hp m x) as [-> | ->]; [by right|left; apply elem_of_cons; by left].
Qed.

Lemma max_by_ext {A} (le le' : A → A → bool) (l : list A) :
  (∀ a b, a ∈ l → b ∈ l → le a b = le' a b) → max_by le l = max_by le' l.
Proof.
  intros H. unfold max_by. rewrite !max_by_pick. apply foldl_pick_ext.
  - intros a b [Hin|Hacc] Hb; [|done]. by rewrite H.
  - intros a b. destruct (le a b); auto.
Qed.

Lemma find_ext_in {A} (p q : A → bool) (l : list A) : (∀ x, x ∈ l → p x = q x) → find p l = find q l.
Proof.
  intros H. induction l as [|x l IH]; [done|]. cbn. rewrite (H x) by (apply elem_of_cons; by left). rewrite IH; [done|].
  intros y Hy. apply H. apply elem_of_cons. by right.
Qed.

Lemma apart_anchor_slot after hlc : anchor_slot st' after hlc = anchor_slot st after hlc.
Proof.
  unfold anchor_slot. destruct after as [i|]; [|done].
  rewrite apart_slots, (List.filter_ext (slot_is st' i) (slot_is st i)) by (intros s; apply apart_slot_is).
  set (ps := List.filter (slot_is st i) (slots st)).
  assert (∀ s, s ∈ ps → slot_hidden st' s = slot_hidden st s) as Hh.
  { intros s [Hs%slot_is_spec _]%elem_of_filter. by eapply apart_hidden_id. }
  rewrite (List.filter_ext (λ s, Hlc_leb (slot_stamp st' s) hlc) (λ s, Hlc_leb (slot_stamp st s) hlc))
    by (intros s; by rewrite apart_slot_stamp).
  rewrite (max_by_ext _ (λ a b, key_leb (slot_stamp st a, negb (slot_hidden st a)) (slot_stamp st b, negb (slot_hidden st b)))).
  2:{ intros a b [_ Ha']%elem_of_filter [_ Hb]%elem_of_filter. by rewrite !apart_slot_stamp, !Hh. }
  rewrite (find_ext_in (λ s, negb (slot_hidden st' s)) (λ s, negb (slot_hidden st s))) by (intros s Hs; by rewrite Hh).
  replace (min_by (λ a b, Hlc_leb (slot_stamp st' a) (slot_stamp st' b)) ps)
    with (min_by (λ a b, Hlc_leb (slot_stamp st a) (slot_stamp st b)) ps); [done|].
  rewrite <- (map_id ps) at 2. rewrite (min_by_map (λ s, s) _ (λ a b, Hlc_leb (slot_stamp st a) (slot_stamp st b))).
  - by destruct (min_by _ ps).
  - intros a b. by rewrite !apart_slot_stamp.
Qed.

Lemma apart_slot_after after hlc : slot_after st' after hlc = slot_after st after hlc.
Proof.
  unfold slot_after. rewrite apart_anchor_slot. destruct (anchor_slot st after hlc) as [a|e]; [|done].
  cbn. rewrite (ba_stamps _ _ Ha).
  do 2 f_equal. destruct a as [s|]; [|done]. cbn. by rewrite apart_slot_id, apart_slot_stamp.
Qed.

Lemma apart_insert spot e h :
  length (hidden st) = length (entries st) → length (erasers st) = length (entries st) →
  spot_at spot ≤ length (entries st) →
  blanks_apart (insert_entry st spot e h) (insert_entry st' spot e h).
Proof.
  intros L1 L2 Hle. pose proof Ha as [He Hs Hp Hr Hm Hf Hl Hh]. injection Hm as ? ? ?. injection Hf as ? ? ? ? ?.
  split; cbn; try congruence; [by rewrite !length_insert_at; congruence|].
  intros s. unfold slot_hidden, is_blank, slot_eraser. cbn.
  rewrite !lookup_insert_at by congruence.
  destruct (s <? spot_at spot); [apply Hh|]. destruct (s =? spot_at spot); [by left|apply Hh].
Qed.

Lemma apart_claim_from mine taken o ss : claim_from st' mine taken o ss = claim_from st mine taken o ss.
Proof.
  revert o. induction ss as [|s ss IH]; intros o; [done|]. cbn.
  rewrite apart_slot_eraser, apart_slot_stamp, apart_is_blank, !IH.
  destruct (is_blank st s) eqn:E; cbn; [by rewrite !andb_false_r|]. by rewrite apart_hidden.
Qed.

Lemma apart_claim s taken : claim st' s taken = claim st s taken.
Proof. unfold claim. by rewrite apart_slots, apart_slot_stamp, apart_claim_from. Qed.

Lemma foldl_ext {A B} (f g : B → A → B) l b : (∀ b a, f b a = g b a) → foldl f b l = foldl g b l.
Proof. intros H. revert b. induction l as [|x l IH]; intros b; cbn; [done|]. by rewrite H, IH. Qed.

Lemma apart_claims : claims st' = claims st.
Proof.
  unfold claims. rewrite apart_slots, (List.filter_ext (slot_eraser st') (slot_eraser st)) by (intros s; apply apart_slot_eraser).
  apply foldl_ext. intros acc s. by rewrite apart_claim.
Qed.
End apart.

(** The hidden column once erasers settled. *)
Definition settled_hidden (st : DocState) : list bool :=
  imap (λ s h, if is_blank st s && negb (slot_eraser st s) then bool_decide (s ∈ map snd (claims st)) else h) (hidden st).

Lemma settle_form st :
  visible st = visible_of (hidden st) → existsb id (erasers st) = true →
  settle_erasers st = reindex (with_sequence st (entries st) (settled_hidden st) (stamps st) (parents st) (erasers st)).
Proof.
  intros Hv He. unfold settle_erasers. rewrite He. cbn [negb]. fold (settled_hidden st).
  case_bool_decide as E; [|done]. rewrite E. unfold reindex, with_sequence. cbn [hidden]. rewrite <- Hv. by destruct st.
Qed.

Lemma settle_apart st st' :
  doc_wf st → doc_wf st' → blanks_apart st st' → existsb id (erasers st) = true →
  settle_erasers st' = settle_erasers st.
Proof.
  intros [Hv _] [Hv' _] Ha He.
  rewrite (settle_form st) by done. rewrite (settle_form st') by (by rewrite ?(ba_erasers _ _ Ha)).
  assert (settled_hidden st' = settled_hidden st) as Hs.
  { unfold settled_hidden. apply list_eq. intros s. rewrite !list_lookup_imap.
    rewrite (apart_claims _ _ Ha), (apart_is_blank _ _ Ha), (apart_slot_eraser _ _ Ha).
    pose proof (ba_length _ _ Ha) as Hl. pose proof (ba_hidden _ _ Ha s) as Hh. unfold slot_hidden in Hh.
    destruct (hidden st !! s) as [h|] eqn:E1, (hidden st' !! s) as [h'|] eqn:E2; cbn in *; try done.
    - destruct (is_blank st s && negb (slot_eraser st s)) eqn:E; [done|].
      destruct Hh as [->|[Hb Hn]]; [done|]. rewrite Hb, Hn in E. done.
    - apply lookup_lt_Some in E1. apply lookup_ge_None in E2. lia.
    - apply lookup_lt_Some in E2. apply lookup_ge_None in E1. lia. }
  destruct Ha as [H1 H2 H3 H4 H5 H6 _ _]. injection H5 as M1 M2 M3. injection H6 as F1 F2 F3 F4 F5.
  unfold reindex, with_sequence. cbn [hidden]. by rewrite Hs, H1, H2, H3, H4, M1, M2, M3, F1, F2, F3, F4, F5.
Qed.

(** ** Room *)

Lemma may_hide_rows st rs :
  columns st rs → may_hide st = length (List.filter (λ r, p_hidden r || p_blank r) rs).
Proof.
  intros Hc. unfold may_hide, slots. rewrite (columns_length _ _ Hc).
  transitivity (length (List.filter (λ s, default false ((λ r, p_hidden r || p_blank r) <$> rs !! s)) (seq 0 (length rs)))).
  - f_equal. apply filter_ext_in. intros s [_ Hs]%in_seq. destruct (lookup_lt_is_Some_2 rs s Hs) as [r Hr].
    destruct (columns_lookup _ _ _ _ Hc Hr) as (_ & -> & _ & _ & _ & _ & ->). by rewrite Hr.
  - clear Hc. induction rs as [|r rs IH] using rev_ind; [done|].
    rewrite length_app, seq_app, !List.filter_app, !length_app. f_equal.
    + rewrite <- IH. f_equal. apply filter_ext_in. intros s [_ Hs]%in_seq. by rewrite lookup_app_l.
    + cbn. rewrite list_lookup_middle by done. cbn. by destruct (_ || _).
Qed.

Lemma visible_of_length rs : length (visible_of (p_hidden <$> rs)) + length (List.filter p_hidden rs) = length rs.
Proof.
  induction rs as [|r rs IH] using rev_ind; [done|].
  rewrite fmap_app. change (p_hidden <$> [r]) with [p_hidden r].
  rewrite visible_of_snoc, List.filter_app, !length_app. cbn. destruct (p_hidden r); cbn; lia.
Qed.

Lemma ghosts_le_may_hide st : doc_wf st → length (entries st) - length (visible st) ≤ may_hide st.
Proof.
  intros (Hv & rs & Hc & _). rewrite (may_hide_rows _ _ Hc), Hv, (columns_length _ _ Hc), (col_hidden _ _ Hc).
  pose proof (visible_of_length rs) as H.
  assert (length (List.filter p_hidden rs) ≤ length (List.filter (λ r, p_hidden r || p_blank r) rs)); [|lia].
  clear. induction rs as [|r rs IH]; cbn; [done|]. destruct (p_hidden r), (p_blank r); cbn; lia.
Qed.

Lemma visible_le_entries st : doc_wf st → length (visible st) ≤ length (entries st).
Proof.
  intros (Hv & rs & Hc & _). rewrite Hv, (columns_length _ _ Hc), (col_hidden _ _ Hc).
  pose proof (visible_of_length rs). lia.
Qed.

Lemma may_hide_apart st st' : blanks_apart st st' → may_hide st' = may_hide st.
Proof.
  intros Ha. unfold may_hide. rewrite (apart_slots _ _ Ha). f_equal. apply List.filter_ext. intros s.
  rewrite (apart_is_blank _ _ Ha). destruct (is_blank st s) eqn:E; [by rewrite !orb_true_r|].
  by rewrite (apart_hidden _ _ Ha).
Qed.

Lemma may_hide_insert st spot e h : doc_wf st → may_hide (insert_entry st spot e h) ≤ S (may_hide st).
Proof.
  intros (_ & rs & Hc & _). rewrite (may_hide_rows _ _ Hc), (may_hide_rows _ _ (columns_insert _ _ spot e h Hc)).
  unfold insert_at. rewrite <- (take_drop (spot_at spot) rs) at 3. rewrite !List.filter_app, !length_app.
  cbn [List.filter]. destruct (_ || _); cbn [length]; lia.
Qed.

Lemma prune_room st : doc_wf st → may_hide st ≤ MAX_GHOSTS_PER_FILE → prune_ghosts st = st.
Proof.
  intros Hwf Hm. unfold prune_ghosts, prune_ghosts_past. pose proof (ghosts_le_may_hide st Hwf).
  by rewrite (proj2 (Nat.ltb_ge _ _)) by lia.
Qed.

(** ** One new line *)

Lemma new_line_dispatch st o e after :
  new_line st o = Some (e, after) → snd (doc_dispatch o st) = Ok tt →
  ∃ spot, slot_after st after (op_hlc o) = Ok spot
          ∧ doc_dispatch o st = (insert_entry st spot e (op_hlc o), Ok tt).
Proof.
  unfold new_line, doc_dispatch. intros Hn Hok. destruct (op_kind o) as [t a l| | | | |a| |]; try done.
  - unfold doc_insert in *. destruct (has_placement st t); [done|]. injection Hn as <- <-.
    destruct (too_many st); [done|]. destruct (_ && _); [done|].
    unfold mbind, ST_bind, try, modify in *. destruct (slot_after st a (op_hlc o)) as [spot|err]; [|done]. by exists spot.
  - unfold doc_blank_insert in *. injection Hn as <- <-. destruct (too_many st); [done|].
    unfold mbind, ST_bind, try, modify in *. destruct (slot_after st a (op_hlc o)) as [spot|err]; [|done]. by exists spot.
Qed.

(** The same op on a state that differs only in its sequence. *)
Lemma new_line_again st st' o e after spot :
  new_line st o = Some (e, after) → snd (doc_dispatch o st) = Ok tt →
  ds_mode st' = ds_mode st → ds_ending st' = ds_ending st →
  (∀ t, added_id o = Some t → has_placement st' t = false) → too_many st' = false →
  slot_after st' after (op_hlc o) = Ok spot →
  new_line st' o = Some (e, after) ∧ doc_dispatch o st' = (insert_entry st' spot e (op_hlc o), Ok tt).
Proof.
  unfold new_line, doc_dispatch, added_id. intros Hn Hok Hm He Hid Htm Hs. destruct (op_kind o) as [t a l| | | | |a| |]; try done.
  - rewrite (Hid t eq_refl). unfold doc_insert in *. destruct (has_placement st t); [done|]. injection Hn as <- <-.
    destruct (too_many st); [done|]. rewrite Htm, Hm, He, (Hid t eq_refl). destruct (_ && _); [done|].
    unfold mbind, ST_bind, try, modify. by rewrite Hs.
  - injection Hn as <- <-. unfold blank_entry, doc_blank_insert. rewrite Htm, He. split; [done|].
    unfold mbind, ST_bind, try, modify. rewrite Hs. unfold blank_entry. by rewrite He.
Qed.

Lemma new_line_id st o e after :
  new_line st o = Some (e, after) → entry_id e = added_id o ∧ ∀ t, added_id o = Some t → has_placement st t = false.
Proof.
  unfold new_line, added_id. destruct (op_kind o) as [t a l| | | | |a| |]; try done.
  - destruct (has_placement st t) eqn:E; [done|]. intros [= <- <-]. split; [done|]. by intros ? [= <-].
  - by intros [= <- <-].
Qed.

Lemma new_line_reshapes st o e after : new_line st o = Some (e, after) → reshapes (op_kind o) = true.
Proof. unfold new_line. by destruct (op_kind o). Qed.

Lemma doc_wf_new_line st o e after spot :
  doc_wf st → new_line st o = Some (e, after) → doc_wf (insert_entry st spot e (op_hlc o)).
Proof.
  intros Hwf Hn. apply new_line_id in Hn as [Hid Hno]. apply doc_wf_insert; [done|].
  intros i Hi. apply has_placement_live, Hno. congruence.
Qed.

Lemma apply_dispatch_ok st o e after :
  new_line st o = Some (e, after) → snd (doc_apply o st) = Ok tt → snd (doc_dispatch o st) = Ok tt.
Proof.
  intros _. unfold doc_apply, mbind, ST_bind. destruct (doc_dispatch o st) as [st' [[]|err]]; done.
Qed.

Lemma apply_new_line st o e after spot :
  doc_wf st → new_line st o = Some (e, after) →
  doc_dispatch o st = (insert_entry st spot e (op_hlc o), Ok tt) → may_hide st < MAX_GHOSTS_PER_FILE →
  doc_apply o st = (settle_erasers (insert_entry st spot e (op_hlc o)), Ok tt).
Proof.
  intros Hwf Hn Hd Hm. unfold doc_apply, mbind, ST_bind, modify. rewrite Hd, (new_line_reshapes _ _ _ _ Hn).
  rewrite prune_room; [done|..].
  - by apply doc_wf_settle, (doc_wf_new_line _ _ _ _ _ Hwf Hn).
  - rewrite (may_hide_apart _ _ (blanks_apart_settle _)).
    pose proof (may_hide_insert st spot e (op_hlc o) Hwf). lia.
Qed.

Lemma anchored_placed st t hlc spot : slot_after st (Some t) hlc = Ok spot → has_placement st t = true.
Proof.
  intros (a & Ha & _)%slot_after_Ok. destruct a as [s|].
  - apply anchor_slot_id in Ha as (i & [= <-] & Hi). unfold slot_id in Hi. apply bind_Some in Hi as (e & He & Hi).
    apply existsb_exists. exists e. split; [by apply list_elem_of_In, (list_elem_of_lookup_2 _ s)|by apply bool_decide_eq_true].
  - exfalso. unfold anchor_slot in Ha. destruct (max_by _ _); [done|]. destruct (find _ _); [done|]. by destruct (min_by _ _).
Qed.

Lemma has_placement_insert st spot e h t :
  has_placement st t = false → entry_id e ≠ Some t → has_placement (insert_entry st spot e h) t = false.
Proof.
  unfold has_placement. intros H He. cbn. unfold insert_at. rewrite existsb_app. cbn.
  rewrite <- (take_drop (spot_at spot) (entries st)), existsb_app in H. apply orb_false_iff in H as [-> ->].
  by rewrite bool_decide_eq_false_2.
Qed.

Lemma erasers_insert st spot e h : existsb id (erasers (insert_entry st spot e h)) = existsb id (erasers st).
Proof.
  cbn. unfold insert_at. rewrite existsb_app. cbn.
  by rewrite <- (take_drop (spot_at spot) (erasers st)) at 3; rewrite existsb_app.
Qed.

Lemma too_many_room st n :
  doc_wf st → (N.of_nat (length (entries st) + n) <= MAX_LINES_PER_FILE)%N → 0 < n → too_many st = false.
Proof. intros Hwf H Hn. unfold too_many. apply N.ltb_ge. pose proof (visible_le_entries st Hwf). lia. Qed.

(** What an accepted new line does. *)
Lemma apply_accepted st o e after :
  doc_wf st → may_hide st < MAX_GHOSTS_PER_FILE → new_line st o = Some (e, after) → snd (doc_apply o st) = Ok tt →
  ∃ spot, slot_after st after (op_hlc o) = Ok spot
          ∧ doc_apply o st = (settle_erasers (insert_entry st spot e (op_hlc o)), Ok tt).
Proof.
  intros Hwf Hm Hn Hok.
  destruct (new_line_dispatch st o e after Hn (apply_dispatch_ok _ _ _ _ Hn Hok)) as (spot & Hs & Hd).
  exists spot. split; [done|]. by eapply apply_new_line.
Qed.

(** A second new line after a first one, its spot found as if no eraser had settled in between. *)
Lemma second_new_line st a b eA eB afterA afterB spotA spotB' :
  doc_wf st → may_hide st + 2 ≤ MAX_GHOSTS_PER_FILE → (N.of_nat (length (entries st) + 2) <= MAX_LINES_PER_FILE)%N →
  new_line st a = Some (eA, afterA) → new_line st b = Some (eB, afterB) → snd (doc_apply b st) = Ok tt →
  (∀ t, added_id a = Some t → added_id b ≠ Some t) →
  spot_at spotA ≤ length (entries st) →
  slot_after (insert_entry st spotA eA (op_hlc a)) afterB (op_hlc b) = Ok spotB' →
  let stA := settle_erasers (insert_entry st spotA eA (op_hlc a)) in
  new_line stA b = Some (eB, afterB)
  ∧ doc_apply b stA = (settle_erasers (insert_entry (insert_entry st spotA eA (op_hlc a)) spotB' eB (op_hlc b)), Ok tt).
Proof.
  intros Hwf Hm Hl HA HB Hok Hids Hle Hs stA.
  pose proof (doc_wf_new_line st a eA afterA spotA Hwf HA) as Hwf1.
  assert (doc_wf stA) as HwfA by (by apply doc_wf_settle).
  pose proof (blanks_apart_settle (insert_entry st spotA eA (op_hlc a))) as Hap. fold stA in Hap.
  destruct (new_line_id _ _ _ _ HA) as [HidA HnoA]. destruct (new_line_id _ _ _ _ HB) as [HidB HnoB].
  assert (entries stA = insert_at (spot_at spotA) eA (entries st)) as HeA by apply (ba_entries _ _ Hap).
  destruct (new_line_again st stA b eB afterB spotB' HB (apply_dispatch_ok _ _ _ _ HB Hok)) as [HB' Hd].
  - pose proof (ba_file _ _ Hap) as Hf. by injection Hf.
  - pose proof (ba_file _ _ Hap) as Hf. by injection Hf.
  - intros t Ht. unfold has_placement. rewrite HeA.
    apply (has_placement_insert st spotA eA (op_hlc a)); [by apply HnoB|]. rewrite HidA. intros E. by apply (Hids t).
  - apply (too_many_room stA 1); [done| |lia]. rewrite HeA, length_insert_at. lia.
  - by rewrite (apart_slot_after _ _ Hap).
  - split; [done|]. rewrite (apply_new_line stA b eB afterB spotB' HwfA HB' Hd).
    2:{ rewrite (may_hide_apart _ _ Hap). pose proof (may_hide_insert st spotA eA (op_hlc a) Hwf). lia. }
    f_equal. destruct (existsb id (erasers st)) eqn:E.
    + apply settle_apart.
      * eapply doc_wf_insert; [done|]. intros i Hi. apply has_placement_live, has_placement_insert; [apply HnoB|]; congruence || (rewrite HidA; intros E'; apply (Hids i E'); congruence).
      * by eapply doc_wf_new_line.
      * pose proof Hwf1 as (_ & rs & Hc & _). destruct (columns_lengths _ _ Hc) as (L1 & L2 & L3 & L4 & L5).
        apply apart_insert; [done|congruence|congruence|]. eapply slot_after_le; [congruence|exact Hs].
      * by rewrite !erasers_insert.
    + unfold stA, settle_erasers at 2. by rewrite erasers_insert, E.
Qed.

(** ** Many new lines *)

Lemma NoDup_omap_ne {A B} (f : A → option B) x l : NoDup (omap f (x :: l)) → ∀ t y, f x = Some t → y ∈ l → f y ≠ Some t.
Proof.
  cbn. intros H t y Hx Hy Hf. rewrite Hx in H. apply NoDup_cons in H as [H _]. apply H, list_elem_of_omap. eauto.
Qed.

Lemma fits_perm st ops ops' : ops ≡ₚ ops' → fits st ops → fits st ops'.
Proof. intros H [H1 H2 H3 H4 H5 H6]. split; rewrite <- ?H; done. Qed.

(** The spots of an accepted pair. *)
Lemma pair_spots st a b eA eB afterA afterB :
  doc_wf st → may_hide st + 2 ≤ MAX_GHOSTS_PER_FILE →
  new_line st a = Some (eA, afterA) → new_line st b = Some (eB, afterB) →
  snd (doc_apply a st) = Ok tt → snd (doc_apply b st) = Ok tt → op_hlc a ≠ op_hlc b →
  ∃ spotA spotB spotA' spotB',
    slot_after st afterA (op_hlc a) = Ok spotA ∧ slot_after st afterB (op_hlc b) = Ok spotB
    ∧ doc_apply a st = (settle_erasers (insert_entry st spotA eA (op_hlc a)), Ok tt)
    ∧ doc_apply b st = (settle_erasers (insert_entry st spotB eB (op_hlc b)), Ok tt)
    ∧ slot_after (insert_entry st spotA eA (op_hlc a)) afterB (op_hlc b) = Ok spotB'
    ∧ slot_after (insert_entry st spotB eB (op_hlc b)) afterA (op_hlc a) = Ok spotA'
    ∧ insert_entry (insert_entry st spotA eA (op_hlc a)) spotB' eB (op_hlc b)
      = insert_entry (insert_entry st spotB eB (op_hlc b)) spotA' eA (op_hlc a).
Proof.
  intros Hwf Hm HA HB OkA OkB Hne.
  destruct (apply_accepted st a eA afterA Hwf ltac:(lia) HA OkA) as (spotA & HsA & HdA).
  destruct (apply_accepted st b eB afterB Hwf ltac:(lia) HB OkB) as (spotB & HsB & HdB).
  destruct (new_line_id _ _ _ _ HA) as [HidA HnoA]. destruct (new_line_id _ _ _ _ HB) as [HidB HnoB].
  destruct (places_commute st afterA afterB (op_hlc a) (op_hlc b) eA eB spotA spotB) as (sA & sB & H1 & H2 & H3); try done.
  - destruct afterB as [t|]; [left|by right]. intros E. apply anchored_placed in HsB. rewrite HnoA in HsB by congruence. done.
  - destruct afterA as [t|]; [left|by right]. intros E. apply anchored_placed in HsA. rewrite HnoB in HsA by congruence. done.
  - by exists spotA, spotB, sA, sB.
Qed.

Lemma fits_pair st a b eA eB afterA afterB :
  fits st [a; b] → new_line st a = Some (eA, afterA) → new_line st b = Some (eB, afterB) →
  ∃ stA stB st2, doc_apply a st = (stA, Ok tt) ∧ doc_apply b st = (stB, Ok tt)
    ∧ doc_apply b stA = (st2, Ok tt) ∧ doc_apply a stB = (st2, Ok tt)
    ∧ new_line stA b = Some (eB, afterB).
Proof.
  intros [Hwf Hacc Hst Hid Hg Hl] HA HB. cbn [length] in Hg, Hl.
  apply Forall_cons in Hacc as [[_ OkA] [[_ OkB] _]%Forall_cons].
  assert (op_hlc a ≠ op_hlc b) as Hne by (cbn in Hst; apply NoDup_cons in Hst as [Hst _]; intros E; apply Hst; rewrite E; left).
  pose proof (NoDup_omap_ne _ _ _ Hid) as Hids.
  destruct (pair_spots st a b eA eB afterA afterB) as (spotA & spotB & spotA' & spotB' & HsA & HsB & HdA & HdB & HsB' & HsA' & Heq); try done.
  assert (∀ spot after h, slot_after st after h = Ok spot → spot_at spot ≤ length (entries st)) as Hle.
  { intros spot after h Hs. eapply slot_after_le; [by apply doc_wf_stamps|exact Hs]. }
  destruct (second_new_line st a b eA eB afterA afterB spotA spotB') as [HB' Hab]; try done; eauto.
  { intros t Ht. apply (Hids t b Ht). left. }
  destruct (second_new_line st b a eB eA afterB afterA spotB spotA') as [HA' Hba]; try done; eauto.
  { intros t Ht Ht'. by apply (Hids t b Ht'); [left|]. }
  rewrite <- Heq in Hba. by eexists _, _, _.
Qed.

Lemma fits_step st a ops :
  fits st (a :: ops) → ∃ st', doc_apply a st = (st', Ok tt) ∧ fits st' ops.
Proof.
  intros Hf. pose proof Hf as [Hwf Hacc Hst Hid Hg Hl]. cbn [length] in Hg, Hl.
  apply Forall_cons in Hacc as [[[[eA afterA] HA] OkA] Hacc].
  destruct (apply_accepted st a eA afterA Hwf ltac:(lia) HA OkA) as (spotA & HsA & HdA).
  eexists. split; [exact HdA|].
  pose proof (blanks_apart_settle (insert_entry st spotA eA (op_hlc a))) as Hap.
  split.
  - apply doc_wf_settle. by eapply doc_wf_new_line.
  - apply Forall_forall. intros b Hb. rewrite Forall_forall in Hacc. destruct (Hacc b Hb) as [[[eB afterB] HB] OkB].
    assert (0 < length ops) by (destruct ops; [by apply elem_of_nil in Hb|cbn; lia]).
    destruct (fits_pair st a b eA eB afterA afterB) as (stA & stB & st2 & E1 & _ & E2 & _ & E3); try done.
    + split; try done; [| | |cbn [length]; lia|cbn [length]; lia].
      * constructor; [by split|]. constructor; [by split|done].
      * rewrite fmap_cons in Hst. apply NoDup_cons in Hst as [Hst _]. cbn. constructor; [|apply NoDup_singleton].
        rewrite list_elem_of_singleton. intros E. apply Hst. rewrite E. by apply list_elem_of_fmap_2.
      * pose proof (NoDup_omap_ne _ _ _ Hid) as Hids. cbn. destruct (added_id a) as [t|] eqn:Ea.
        -- constructor; [|destruct (added_id b); [apply NoDup_singleton|constructor]].
           destruct (added_id b) as [t'|] eqn:Eb; [|by intros ?%elem_of_nil].
           rewrite list_elem_of_singleton. intros <-. by apply (Hids t b eq_refl).
        -- destruct (added_id b); [apply NoDup_singleton|constructor].
    + rewrite HdA in E1. injection E1 as <-. rewrite E2, E3. split; [by eexists|done].
  - cbn in Hst. by apply NoDup_cons in Hst as [_ ?].
  - cbn in Hid. destruct (added_id a); [by apply NoDup_cons in Hid as [_ ?]|done].
  - rewrite (may_hide_apart _ _ Hap). pose proof (may_hide_insert st spotA eA (op_hlc a) Hwf). lia.
  - rewrite (ba_entries _ _ Hap). cbn. rewrite length_insert_at. lia.
Qed.

Lemma apply_all_cons o ops st :
  apply_all (o :: ops) st = (let '(st', r) := doc_apply o st in match r with Ok _ => apply_all ops st' | Err e => (st', Err e) end).
Proof. cbn. unfold mbind, ST_bind. by destruct (doc_apply o st) as [st' [[]|e]]. Qed.

Lemma fits_runs st ops : fits st ops → ∃ st', apply_all ops st = (st', Ok tt).
Proof.
  revert st. induction ops as [|o ops IH]; intros st Hf; [by eexists|].
  rewrite apply_all_cons. destruct (fits_step st o ops Hf) as (st' & -> & Hf'). by apply IH.
Qed.

Lemma fits_converge st ops ops' : ops ≡ₚ ops' → fits st ops → apply_all ops st = apply_all ops' st.
Proof.
  intros Hp. revert st. induction Hp as [|o ops ops' Hp IH|a b ops|ops1 ops2 ops3 H12 IH12 H23 IH23]; intros st Hf; [done|..].
  - rewrite !apply_all_cons. destruct (fits_step st o ops Hf) as (st' & -> & Hf'). by apply IH.
  - assert (fits st [b; a]) as Hf2.
    { destruct Hf as [H1 H2 H3 H4 H5 H6]. cbn [length] in H5, H6.
      change (b :: a :: ops) with ([b; a] ++ ops) in H2, H3, H4. apply Forall_app in H2 as [H2 _].
      rewrite fmap_app in H3. apply NoDup_app in H3 as [H3 _]. rewrite omap_app in H4. apply NoDup_app in H4 as [H4 _].
      split; try done; cbn [length]; lia. }
    pose proof (fit_accepted _ _ Hf2) as Hacc.
    apply Forall_cons in Hacc as [[[[eB afterB] HB] _] [[[[eA afterA] HA] _] _]%Forall_cons].
    destruct (fits_pair st b a eB eA afterB afterA Hf2 HB HA) as (stB & stA & st2 & E1 & E2 & E3 & E4 & _).
    by rewrite !apply_all_cons, E1, E2, !apply_all_cons, E3, E4.
  - rewrite IH12 by done. apply IH23. by eapply fits_perm.
Qed.

(** ** Claims *)

(** Any number of new lines and blank lines made at once, each accepted by the document as it
    stands, with their own stamps and tasks, are all applied in whatever order they arrive, and every
    order gives the same document: same sequence, same placements, same view. *)
Theorem new_lines_converge st ops ops' :
  fits st ops → ops ≡ₚ ops' → ∃ st', apply_all ops st = (st', Ok tt) ∧ apply_all ops' st = (st', Ok tt).
Proof.
  intros Hf Hp. destruct (fits_runs st ops Hf) as [st' E]. exists st'. split; [done|].
  by rewrite <- (fits_converge st ops ops' Hp Hf).
Qed.

Definition sample_doc : option DocState := doc_of [str "first"; str "last"].
Definition sample_news : list Op :=
  [op_at 10 1 (KInsert 11 (Some 1%N) (str "from one")); op_at 20 2 (KInsert 12 (Some 1%N) (str "from two"));
   op_at 30 3 (KBlankInsert (Some 1%N))].

Lemma new_lines_converge_witness : ∃ st st',
  sample_doc = Some st ∧ fits st sample_news ∧ apply_all sample_news st = (st', Ok tt)
  ∧ apply_all (reverse sample_news) st = (st', Ok tt).
Proof.
  destruct (from_file todo_path (parse_file (str "first" ++ [x0a] ++ str "last" ++ [x0a])) [Some 1%N; Some 2%N] Sidecar) as [st|e] eqn:E;
    [|vm_compute in E; discriminate E].
  assert (fits st sample_news) as Hf.
  { assert (doc_wf st) as Hwf.
    { eapply doc_wf_open; [exact E|]. apply (bool_decide_eq_true_1 _). vm_compute. reflexivity. }
    split; [exact Hwf|..]; clear Hwf; vm_compute in E; injection E as <-.
    - repeat constructor; vm_compute; eauto.
    - apply (bool_decide_eq_true_1 _). vm_compute. reflexivity.
    - apply (bool_decide_eq_true_1 _). vm_compute. reflexivity.
    - apply Nat.leb_le. vm_compute. reflexivity.
    - vm_compute. discriminate. }
  destruct (new_lines_converge st sample_news (reverse sample_news) Hf) as (st' & H1 & H2); [symmetry; apply reverse_Permutation|].
  exists st, st'. split_and!; [|exact Hf|exact H1|exact H2].
  vm_compute in E. injection E as <-. vm_compute. reflexivity.
Defined.
