(* ===== verification/DocErrors.v ===== *)
(** What a failing op leaves behind, last-writer-wins on fields, settled erasers, and batches that
    tolerate order. *)
From S2P Require Import Prelude.
From S2P Require Import Utf8.
From S2P Require Import Types.
From S2P Require Import Ulid.
From S2P Require Import Scanner.
From S2P Require Import Parser.
From S2P Require Import Format.
From S2P Require Import TodoFile.
From S2P Require Import Edit.
From S2P Require Import Myers.
From S2P Require Import Diff.
From S2P Require Import Hlc.
From S2P Require Import TagText.
From S2P Require Import TextHistory.
From S2P Require Import Ops.
From S2P Require Import DocState.
From S2P Require Import DocRows.
From S2P Require Import DocInvariant.
From S2P Require Import DocConverge.

(** ** Definitions *)

(** The ops whose failure can leave the task's text history changed: clearing a priority, and an
    insert of a task already placed. *)
Definition may_touch_history (st : DocState) (o : Op) : bool :=
  match op_kind o with
  | KSetField _ FPriority (FVPriority None) => true
  | KInsert task _ _ => has_placement st task
  | _ => false
  end.

(** The task whose history such an op can change. *)
Definition op_task (o : Op) : option TaskId :=
  match op_kind o with
  | KInsert t _ _ | KSetField t _ _ | KEditText t _ | KRemoveTag t _ | KMove t _ _ => Some t
  | KBlankInsert _ | KBlankRemove _ | KNotesEdit _ _ => None
  end.

(** Every stamp a field had is kept or made newer, while its task keeps a placement. *)
Definition stamps_grow (st st' : DocState) : Prop :=
  ∀ t f h, field_stamps st !! (t, f) = Some h → has_placement st' t = true →
  ∃ h', field_stamps st' !! (t, f) = Some h' ∧ Hlc_ltb h' h = false.

(** A batch's end: every op applied, or a last round in which each op left failed. *)
Definition stuck (st' : DocState) (failed : list (Op * StateError)) : Prop :=
  failed = [] ∨ ∃ st1, apply_round st1 (map fst failed) = (st', failed).

(** ** Failing ops *)

(** Only the history of [task] differs. *)
Definition history_apart (task : option TaskId) (st st' : DocState) : Prop :=
  st' = with_history st (text_history st') ∧
  ∀ t, Some t ≠ task → text_history st' !! t = text_history st !! t.

Lemma history_apart_refl task st : history_apart task st st.
Proof. split; [by destruct st|done]. Qed.

Lemma history_apart_put task st h : history_apart (Some task) st (put_history st task h).
Proof. split; [done|]. intros t Ht. cbn. rewrite lookup_insert_ne; [done|]. congruence. Qed.

Lemma history_apart_forget task st : history_apart (Some task) st (forget_text st task).
Proof. split; [done|]. intros t Ht. cbn. rewrite lookup_delete_ne; [done|]. congruence. Qed.

Lemma restore_put st task h : restore_text (put_history st task h) task (text_history st !! task) = st.
Proof.
  unfold restore_text, put_history, with_history, with_meta. destruct st as [? ? ? ? ? ? ? ? th ? ? ? ? ?]. cbn.
  destruct (th !! task) as [h'|] eqn:E; f_equal.
  - by rewrite insert_insert_eq, insert_id.
  - by rewrite delete_insert_id.
Qed.

Lemma edit_description_put st task d hlc es : ∃ h r, edit_description st task d hlc es = (put_history st task h, r).
Proof. unfold edit_description. destruct (TextHistory_apply apply_text_edits _ _ _ _ _) as [h r]. by exists h, r. Qed.

Lemma remove_tag_put st task d hlc key : ∃ h t, remove_tag_in_description st task d hlc key = (put_history st task h, t).
Proof. unfold remove_tag_in_description. destruct (TextHistory_remove_tag apply_text_edits _ _ _ _ _) as [h r]. by exists h, r. Qed.

Lemma clear_pri_apart st task d : history_apart (Some task) st (fst (clear_pri_in_description st task d)).
Proof.
  unfold clear_pri_in_description. destruct (TextHistory_clear_pri apply_text_edits _) as [h [t|]];
    [apply history_apart_put|apply history_apart_forget].
Qed.

Lemma edit_text_err task es hlc st st' e : doc_edit_text task es hlc st = (st', Err e) → st' = st.
Proof.
  unfold doc_edit_text. destruct (content_slot st task) as [i|]; [|by intros [= <- _]].
  destruct (description_of _) as [d|]; [|by intros [= <- _]].
  destruct (edit_description_put st task d hlc es) as (h & r & ->).
  destruct (match r with Ok _ => _ | Err _ => _ end) as [l|e']; [done|]. intros [= <- _]. apply restore_put.
Qed.

Lemma remove_tag_err task key hlc st st' e : doc_remove_tag task key hlc st = (st', Err e) → st' = st.
Proof.
  unfold doc_remove_tag. destruct (negb _); [by intros [= <- _]|].
  destruct (content_slot st task) as [i|]; [|by intros [= <- _]].
  destruct (description_of _) as [d|]; [|by intros [= <- _]].
  destruct (remove_tag_put st task d hlc key) as (h & t & ->).
  destruct (with_description _ task _ t) as [l|e']; [done|]. intros [= <- _]. apply restore_put.
Qed.

Lemma set_field_err task f v hlc st st' e :
  doc_set_field task f v hlc st = (st', Err e) →
  history_apart (Some task) st st' ∧ ((f, v) ≠ (FPriority, FVPriority None) → st' = st).
Proof.
  unfold doc_set_field. destruct (bool_decide (f = FDeleted)).
  { unfold doc_set_deleted, note_death. intros H.
    assert (st' = st) as ->; [|by split; [apply history_apart_refl|]].
    destruct v as [[]| | |]; try by injection H as <- _.
    destruct (has_placement st task); [|by injection H as <- _].
    destruct (live_slot _ task) as [s|]; [|done]. by destruct (match reborn _ with Some _ => _ | None => _ end). }
  destruct (content_slot st task) as [i|]; [|intros [= <- _]; by split; [apply history_apart_refl|]].
  set (line := default _ (slot_line st i)).
  destruct (is_stale_field st task f hlc).
  { destruct (priority_from_tag line); [|done]. by destruct (bool_decide (f = FPriority)). }
  assert ((match rewrite_prefix line f v with
              | None => (st, Err (Unsupported (str "SetField on this line")))
              | Some new_line =>
                  let '(st', new_line) :=
                    if bool_decide (description_of line = description_of new_line) then (st, new_line)
                    else keep_in_history st task line new_line hlc in
                  (record_field (replace_entry st' i (TaskEntry task new_line)) task f hlc, @Ok StateError unit tt)
              end) = (st', Err e) → st' = st) as Hrw.
  { destruct (rewrite_prefix line f v) as [l|]; [|by intros [= <- _]].
    by destruct (if bool_decide _ then _ else _) as [st1 l']. }
  destruct (bool_decide (f = FPriority) && bool_decide (v = FVPriority None)) eqn:Ef; cycle 1.
  { intros ->%Hrw. by split; [apply history_apart_refl|]. }
  apply andb_true_iff in Ef as [->%bool_decide_eq_true ->%bool_decide_eq_true].
  destruct (done_description line) as [d|]; [|intros ->%Hrw; by split; [apply history_apart_refl|]].
  unfold clear_done_priority, mbind, ST_bind, try, modify. pose proof (clear_pri_apart st task d) as Hc.
  destruct (clear_pri_in_description st task d) as [st1 t]. cbn [fst] in Hc.
  destruct (with_description st1 task line t) as [l|e']; [done|]. intros [= <- _]. by split.
Qed.

Lemma merged_line_err task cur ins hlc st st' e :
  merged_line task cur ins hlc st = (st', Err e) → history_apart (Some task) st st'.
Proof.
  unfold merged_line, mbind, ST_bind, gets, try, modify.
  destruct (ok_or (foldl _ _ _) _) as [line|e1]; [|intros [= <- _]; apply history_apart_refl].
  destruct (ok_or (description_of line) _) as [d|e1]; [|intros [= <- _]; apply history_apart_refl].
  destruct (TextHistory_reset apply_text_edits (history_or_new st task d) d hlc) as [h t].
  destruct (set_description Edit_new t) as [ed|e1]; [done|]. intros [= <- _]. apply history_apart_put.
Qed.

Lemma insert_err task after line hlc st st' e :
  doc_insert task after line hlc st = (st', Err e) →
  history_apart (Some task) st st' ∧ (has_placement st task = false → st' = st).
Proof.
  unfold doc_insert. destruct (too_many st); [intros [= <- _]; by split; [apply history_apart_refl|]|].
  destruct (_ && _); [intros [= <- _]; by split; [apply history_apart_refl|]|].
  destruct (has_placement st task).
  - intros H. split; [|done]. revert H. unfold reinsert, mbind, ST_bind, try, modify.
    destruct (slot_after st after hlc) as [spot|e1]; [|intros [= <- _]; apply history_apart_refl].
    destruct (ok_or _ _) as [cur|e1]; [|intros [= <- _]; apply history_apart_refl].
    destruct (merged_line task cur _ hlc st) as [st1 [m|e1]] eqn:E; [done|]. intros [= <- _]. by eapply merged_line_err.
  - unfold mbind, ST_bind, try, modify. destruct (slot_after st after hlc); [done|].
    intros [= <- _]. by split; [apply history_apart_refl|].
Qed.

Lemma place_ghost_err task after hlc st st' e : place_ghost task after hlc st = (st', Err e) → st' = st.
Proof.
  unfold place_ghost, mbind, ST_bind, try, modify. destruct (ok_or _ _); [|by intros [= <- _]].
  destruct (slot_after st after hlc); [done|by intros [= <- _]].
Qed.

Lemma min_by_None {A} le (l : list A) : min_by le l = None → l = [].
Proof.
  destruct l as [|x l]; [done|]. unfold min_by. rewrite min_by_pick. cbn. intros H. exfalso. revert x H.
  induction l as [|y l IH]; intros x H; [done|]. cbn in H. by apply IH in H.
Qed.

(** An anchor is found exactly when it has a placement, shown or not. *)
Lemma anchor_slot_err st after hlc e :
  anchor_slot st after hlc = Err e → ∃ i, after = Some i ∧ List.filter (slot_is st i) (slots st) = [].
Proof.
  unfold anchor_slot. destruct after as [i|]; [|done]. intros H. exists i. split; [done|].
  destruct (max_by _ _); [done|]. destruct (find _ _); [done|]. destruct (min_by _ _) eqn:E; [done|]. by apply min_by_None in E.
Qed.

Lemma slot_after_err st after hlc e : slot_after st after hlc = Err e → anchor_slot st after hlc = Err e.
Proof. unfold slot_after. destruct (anchor_slot st after hlc); cbn; [done|by intros [= ->]]. Qed.

Lemma anchor_slot_hide st s after hlc hlc' e :
  anchor_slot (hide_entry st s) after hlc = Err e → anchor_slot st after hlc' = Err e.
Proof.
  intros H. pose proof H as H0. apply anchor_slot_err in H0 as (i & -> & Hnil).
  change (List.filter (slot_is st i) (slots st) = []) in Hnil.
  unfold anchor_slot in *. cbn zeta in *.
  change (List.filter (slot_is (hide_entry st s) i) (slots (hide_entry st s))) with (List.filter (slot_is st i) (slots st)) in H.
  rewrite Hnil in *. exact H.
Qed.

Lemma move_err task after to hlc st st' e : doc_move task after to hlc st = (st', Err e) → st' = st.
Proof.
  unfold doc_move. destruct (negb _).
  { destruct (live_slot st task); [done|]. destruct (has_placement st task); [done|]. by intros [= <- _]. }
  destruct (bool_decide _); [by intros [= <- _]|].
  destruct (anchor_slot st after hlc) as [a|e1] eqn:Ea; [|by intros [= <- _]].
  destruct (live_slot st task) as [s|]; [|apply place_ghost_err].
  destruct (is_stale_move st s hlc); [apply place_ghost_err|].
  destruct (entries st !! s) as [en|]; [|by intros [= <- _]].
  unfold mbind, ST_bind, try, modify. destruct (slot_after (hide_entry st s) after hlc) as [spot|e1] eqn:E; [done|].
  apply slot_after_err in E. apply (anchor_slot_hide st s after hlc hlc) in E. congruence.
Qed.

Lemma apply_err_dispatch o st st' e : doc_apply o st = (st', Err e) → doc_dispatch o st = (st', Err e).
Proof.
  unfold doc_apply, mbind, ST_bind, modify. destruct (doc_dispatch o st) as [st1 [[]|e1]]; [done|]. by intros [= <- <-].
Qed.

Lemma apply_err o st st' e :
  doc_apply o st = (st', Err e) →
  history_apart (op_task o) st st' ∧ (may_touch_history st o = false → st' = st).
Proof.
  intros H%apply_err_dispatch. unfold doc_dispatch, op_task, may_touch_history in *.
  assert (st' = st → history_apart (op_task o) st st' ∧ (may_touch_history st o = false → st' = st)) as Hsame.
  { intros ->. by split; [apply history_apart_refl|]. }
  unfold op_task, may_touch_history in Hsame.
  destruct (op_kind o) as [t a l|t f v|t es|t a p|p es|a|a|t k] eqn:E.
  - apply insert_err in H as [H1 H2]. split; [done|exact H2].
  - apply set_field_err in H as [H1 H2]. split; [done|]. intros Hf. apply H2. intros [= -> ->]. done.
  - by apply Hsame, (edit_text_err _ _ _ _ _ _ H).
  - by apply Hsame, (move_err _ _ _ _ _ _ _ H).
  - apply Hsame. by injection H.
  - apply Hsame. unfold doc_blank_insert, mbind, ST_bind, try, modify in H.
    destruct (too_many st); [by injection H|]. destruct (slot_after st a (op_hlc o)); [done|by injection H].
  - apply Hsame. unfold doc_blank_remove, mbind, ST_bind, try, modify in H.
    destruct (slot_after st a (op_hlc o)); [done|by injection H].
  - by apply Hsame, (remove_tag_err _ _ _ _ _ _ H).
Qed.

(** ** Last writer wins *)

Definition fs_grow (st st' : DocState) : Prop :=
  ∀ k h, field_stamps st !! k = Some h → ∃ h', field_stamps st' !! k = Some h' ∧ Hlc_ltb h' h = false.

Lemma Hlc_ltb_irrefl h : Hlc_ltb h h = false.
Proof. apply not_true_iff_false. rewrite Hlc_ltb_spec. unfold Hlc_lt. lia. Qed.

Lemma Hlc_ltb_false_trans a b c : Hlc_ltb a b = false → Hlc_ltb b c = false → Hlc_ltb a c = false.
Proof. rewrite <- !not_true_iff_false, !Hlc_ltb_spec. unfold Hlc_lt. lia. Qed.

Lemma fs_grow_same st st' : field_stamps st' = field_stamps st → fs_grow st st'.
Proof. intros H k h Hk. exists h. rewrite H. split; [done|apply Hlc_ltb_irrefl]. Qed.

Lemma fs_grow_trans a b c : fs_grow a b → fs_grow b c → fs_grow a c.
Proof.
  intros H1 H2 k h Hk. destruct (H1 k h Hk) as (h1 & Hk1 & Hl1). destruct (H2 k h1 Hk1) as (h2 & Hk2 & Hl2).
  exists h2. split; [done|]. by eapply Hlc_ltb_false_trans.
Qed.

(** Recording a field at a stamp that is not stale. *)
Lemma fs_grow_record st task f hlc : is_stale_field st task f hlc = false → fs_grow st (record_field st task f hlc).
Proof.
  intros Hs k h Hk. cbn. destruct (decide (k = (task, f))) as [->|Hne].
  - exists hlc. rewrite lookup_insert_eq. split; [done|]. unfold is_stale_field in Hs. by rewrite Hk in Hs.
  - exists h. rewrite lookup_insert_ne by done. split; [done|apply Hlc_ltb_irrefl].
Qed.

Lemma is_stale_record st task f f' hlc :
  is_stale_field st task f' hlc = false → is_stale_field (record_field st task f hlc) task f' hlc = false.
Proof.
  unfold is_stale_field. cbn. destruct (decide (f = f')) as [->|Hne].
  - by rewrite lookup_insert_eq, Hlc_ltb_irrefl.
  - rewrite lookup_insert_ne by congruence. done.
Qed.

Lemma fs_grow_record_all st task hlc fs :
  Forall (λ f, is_stale_field st task f hlc = false) fs → fs_grow st (foldl (λ st f, record_field st task f hlc) st fs).
Proof.
  revert st. induction fs as [|f fs IH]; intros st Hf; cbn [foldl]; [by apply fs_grow_same|].
  apply Forall_cons in Hf as [Hf Hfs]. eapply fs_grow_trans; [by apply fs_grow_record|]. apply IH.
  eapply Forall_impl; [exact Hfs|]. intros f' Hf'. by apply is_stale_record.
Qed.

Lemma fs_rehome fuel st task placed : field_stamps (rehome_loop fuel st task placed) = field_stamps st.
Proof.
  revert st. induction fuel as [|fuel IH]; intros st; cbn [rehome_loop]; [done|].
  destruct (find _ _) as [head|]; [|done]. destruct (move_block st head task placed) as [st'|] eqn:E; [|done].
  rewrite IH. unfold move_block in E. apply bind_Some in E as (a & _ & E). destruct (_ && _); [done|]. by injection E as <-.
Qed.

Lemma fs_show_newest st task n : field_stamps (show_newest st task n) = field_stamps st.
Proof. unfold show_newest. by destruct (bool_decide _). Qed.

Lemma fs_settle st : field_stamps (settle_erasers st) = field_stamps st.
Proof. unfold settle_erasers. destruct (negb _); [done|]. by destruct (bool_decide _). Qed.

Lemma fs_keep_in_history st task l l' hlc : field_stamps (fst (keep_in_history st task l l' hlc)) = field_stamps st.
Proof.
  unfold keep_in_history. destruct (moved_into_pri l l') as [[[old new] [letter add]]|]; [|done].
  assert (field_stamps (fst (set_pri_in_description st task old hlc letter add)) = field_stamps st) as H.
  { unfold set_pri_in_description. destruct add.
    - by destruct (TextHistory_set_pri apply_text_edits _ _ _ _ _).
    - by destruct (TextHistory_swap_pri apply_text_edits _ _). }
  destruct (set_pri_in_description st task old hlc letter add) as [st' [held|]]; cbn in H; [|done].
  destruct (bool_decide (held = new)); [done|]. by destruct (set_description Edit_new held).
Qed.

(** A set-field either keeps the stamps and was stale, or records its own. *)
Lemma fs_set_field task f v hlc st st' :
  f ≠ FDeleted → doc_set_field task f v hlc st = (st', Ok tt) →
  (is_stale_field st task f hlc = true ∧ field_stamps st' = field_stamps st)
  ∨ (is_stale_field st task f hlc = false ∧ field_stamps st' = <[(task, f) := hlc]> (field_stamps st)).
Proof.
  intros Hf. unfold doc_set_field. rewrite bool_decide_eq_false_2 by done.
  destruct (content_slot st task) as [i|]; [|done].
  set (line := default _ (slot_line st i)).
  destruct (is_stale_field st task f hlc).
  { destruct (priority_from_tag line); [|intros [= <-]; by left].
    destruct (bool_decide (f = FPriority)); intros [= <-]; by left. }
  assert ((match rewrite_prefix line f v with
              | None => (st, Err (Unsupported (str "SetField on this line")))
              | Some new_line =>
                  let '(st', new_line) :=
                    if bool_decide (description_of line = description_of new_line) then (st, new_line)
                    else keep_in_history st task line new_line hlc in
                  (record_field (replace_entry st' i (TaskEntry task new_line)) task f hlc, @Ok StateError unit tt)
              end) = (st', Ok tt) → field_stamps st' = <[(task, f) := hlc]> (field_stamps st)) as Hrw.
  { destruct (rewrite_prefix line f v) as [l|]; [|done].
    destruct (bool_decide _); [by intros [= <-]|].
    pose proof (fs_keep_in_history st task line l hlc) as H.
    destruct (keep_in_history st task line l hlc) as [st1 l']. intros [= <-]. cbn in *. by rewrite H. }
  destruct (_ && _) eqn:Ef; [|intros H; right; auto].
  apply andb_true_iff in Ef as [->%bool_decide_eq_true _].
  destruct (done_description line) as [d|]; [|intros H; right; auto].
  unfold clear_done_priority, mbind, ST_bind, try, modify.
  pose proof (clear_pri_apart st task d) as Hc.
  destruct (clear_pri_in_description st task d) as [st1 t]. cbn [fst] in Hc.
  destruct (with_description st1 task line t) as [l|e']; [|done]. intros [= <-]. right. split; [done|].
  destruct Hc as [-> _]. done.
Qed.

Lemma fs_merged_line task cur ins hlc st st' l :
  merged_line task cur ins hlc st = (st', Ok l) → fs_grow st st'.
Proof.
  unfold merged_line, mbind, ST_bind, gets, try, modify, mret, ST_ret.
  destruct (ok_or (foldl _ _ _) _) as [line|e1]; [|done].
  destruct (ok_or (description_of line) _) as [d|e1]; [|done].
  destruct (TextHistory_reset apply_text_edits (history_or_new st task d) d hlc) as [h t].
  destruct (set_description Edit_new t) as [ed|e1]; [|done]. intros [= <- _].
  eapply fs_grow_trans; [by apply (fs_grow_same st (put_history st task h))|].
  apply fs_grow_record_all. apply Forall_forall. intros f Hf.
  change (f ∈ List.filter (λ f, negb (is_stale_field st task f hlc)) PREFIX_FIELDS) in Hf.
  apply elem_of_filter in Hf as [Hf _]. apply negb_true_iff in Hf. exact Hf.
Qed.

Lemma fs_dispatch o st st' r : doc_dispatch o st = (st', r) → fs_grow st st'.
Proof.
  destruct r as [[]|e]; cycle 1.
  { intros H. apply fs_grow_same. unfold doc_dispatch in H.
    assert (doc_apply o st = (st', Err e)) as [[-> _] _]%apply_err; [|done].
    unfold doc_apply, mbind, ST_bind. unfold doc_dispatch. by rewrite H. }
  unfold doc_dispatch. destruct (op_kind o) as [t a l|t f v|t es|t a p|p es|a|a|t k].
  - unfold doc_insert. destruct (too_many st); [done|]. destruct (_ && _); [done|].
    destruct (has_placement st t).
    + unfold reinsert, mbind, ST_bind, try, modify. destruct (slot_after st a (op_hlc o)) as [spot|e1]; [|done].
      destruct (ok_or _ _) as [cur|e1]; [|done].
      destruct (merged_line t cur _ (op_hlc o) st) as [st1 [m|e1]] eqn:E; [|done]. intros [= <-].
      eapply fs_grow_trans; [by eapply fs_merged_line|]. apply fs_grow_same. unfold rehome_onto. rewrite fs_rehome.
      cbn. destruct (_ || _); [by rewrite fs_show_newest|done].
    + unfold mbind, ST_bind, try, modify. destruct (slot_after st a (op_hlc o)); [|done]. intros [= <-]. by apply fs_grow_same.
  - intros H. destruct (decide (f = FDeleted)) as [->|Hf].
    + apply fs_grow_same. unfold doc_set_field in H. rewrite bool_decide_eq_true_2 in H by done. unfold doc_set_deleted, note_death in H.
      destruct v as [[]| | |]; try done. destruct (has_placement st t); [|done].
      destruct (live_slot _ t) as [s|]; [|by injection H as <-].
      destruct (match reborn _ with Some _ => _ | None => _ end); by injection H as <-.
    + apply fs_set_field in H as [[_ H]|[Hs H]]; [by apply fs_grow_same|..|done].
      intros k h Hk. destruct (fs_grow_record st t f (op_hlc o) Hs k h Hk) as (h' & Hk' & Hl). exists h'. by rewrite H.
  - unfold doc_edit_text. destruct (content_slot st t) as [i|]; [|done]. destruct (description_of _) as [d|]; [|done].
    destruct (edit_description_put st t d (op_hlc o) es) as (h & r & ->).
    destruct (match r with Ok _ => _ | Err _ => _ end); [|done]. intros [= <-]. by apply fs_grow_same.
  - unfold doc_move. intros H. apply fs_grow_same. revert H. destruct (negb _).
    { destruct (live_slot st t); [by intros [= <-]|]. by destruct (has_placement st t); intros [= <-]. }
    destruct (bool_decide _); [done|]. destruct (anchor_slot st a (op_hlc o)); [|done].
    assert (∀ st', place_ghost t a (op_hlc o) st = (st', Ok tt) → field_stamps st' = field_stamps st) as Hg.
    { intros st1. unfold place_ghost, mbind, ST_bind, try, modify. destruct (ok_or _ _); [|done].
      destruct (slot_after st a (op_hlc o)); [|done]. intros [= <-]. unfold rehome_onto. by rewrite fs_rehome. }
    destruct (live_slot st t) as [s|]; [|apply Hg]. destruct (is_stale_move _ _ _); [apply Hg|].
    destruct (entries st !! s); [|done]. unfold mbind, ST_bind, try, modify.
    destruct (slot_after (hide_entry st s) a (op_hlc o)); [|done]. intros [= <-]. unfold rehome_onto. by rewrite fs_rehome.
  - done.
  - unfold doc_blank_insert, mbind, ST_bind, try, modify. destruct (too_many st); [done|].
    destruct (slot_after st a (op_hlc o)); [|done]. intros [= <-]. by apply fs_grow_same.
  - unfold doc_blank_remove, mbind, ST_bind, try, modify.
    destruct (slot_after st a (op_hlc o)); [|done]. intros [= <-]. by apply fs_grow_same.
  - unfold doc_remove_tag. destruct (negb _); [done|]. destruct (content_slot st t) as [i|]; [|done].
    destruct (description_of _) as [d|]; [|done].
    destruct (remove_tag_put st t d (op_hlc o) k) as (h & t' & ->).
    destruct (with_description _ t _ t'); [|done]. intros [= <-]. by apply fs_grow_same.
Qed.

Lemma has_placement_elem st t : has_placement st t = true ↔ t ∈ omap entry_id (entries st).
Proof.
  unfold has_placement. rewrite existsb_exists, list_elem_of_omap. split.
  - intros (e & He & Ht%bool_decide_eq_true). exists e. by rewrite list_elem_of_In.
  - intros (e & He & Ht). exists e. rewrite <- list_elem_of_In. split; [done|by apply bool_decide_eq_true].
Qed.

(** A prune keeps what it knows of every task still placed. *)
Lemma fs_prune st k : has_placement (prune_ghosts st) (fst k) = true → field_stamps (prune_ghosts st) !! k = field_stamps st !! k.
Proof.
  unfold prune_ghosts, prune_ghosts_past. destruct (_ <? _); [|done]. unfold prune_ghosts_to. destruct (_ <=? _); [done|].
  intros Hp%has_placement_elem. cbn [field_stamps reindex with_meta entries with_sequence] in *.
  destruct (field_stamps st !! k) as [h|] eqn:E.
  - by apply map_lookup_filter_Some_2.
  - apply map_lookup_filter_None_2. by left.
Qed.

(** ** Settled erasers *)

Lemma claim_from_spec st mine taken o ss b :
  claim_from st mine taken o ss = Some b →
  ∃ pre post, ss = pre ++ b :: post ∧ is_blank st b = true ∧ slot_eraser st b = false ∧ (b ∉ taken)
  ∧ Hlc_ltb mine (slot_stamp st b) = false
  ∧ (∀ old, o = Some old → Hlc_ltb (slot_stamp st b) old = true)
  ∧ ∀ s, s ∈ pre → slot_hidden st s = false → slot_eraser st s = false → s ∉ taken → is_blank st s = false →
      Hlc_ltb mine (slot_stamp st s) = true ∨ Hlc_ltb (slot_stamp st b) (slot_stamp st s) = true.
Proof.
  revert o. induction ss as [|s ss IH]; intros o H; [done|]. cbn in H.
  destruct (slot_eraser st s || _ || _ || _) eqn:Ep.
  - destruct (IH _ H) as (pre & post & -> & H1 & H2 & H3 & H4 & H5 & H6).
    exists (s :: pre), post. split_and!; try done. intros s' [->|Hs']%elem_of_cons Hh He Ht Hb; [|by apply H6].
    left. rewrite He, Hh, (bool_decide_eq_false_2 _ Ht) in Ep. exact Ep.
  - apply orb_false_iff in Ep as [[[He Hh]%orb_false_iff Ht%bool_decide_eq_false]%orb_false_iff Hn].
    destruct (is_blank st s) eqn:Eb.
    + exists [], ss. destruct (match o with None => true | Some old => _ end) eqn:Ea; [|done]. injection H as <-.
      split_and!; try done; [by intros old ->|by intros s' ?%elem_of_nil].
    + destruct (IH _ H) as (pre & post & -> & H1 & H2 & H3 & H4 & H5 & H6).
      specialize (H5 _ eq_refl).
      assert (Hlc_ltb (slot_stamp st b) (slot_stamp st s) = true ∧ ∀ old, o = Some old → Hlc_ltb (slot_stamp st b) old = true) as [Hs Ho].
      { destruct o as [old|]; [|by split]. destruct (Hlc_leb old (slot_stamp st s)) eqn:El.
        - split; [|by intros ? [= <-]]. rewrite Hlc_ltb_spec in *. apply Hlc_leb_spec in El.
          unfold Hlc_lt in *. lia.
        - split; [done|]. intros ? [= <-]. rewrite Hlc_ltb_spec in *.
          rewrite <- not_true_iff_false, Hlc_leb_spec in El. unfold Hlc_lt in *. lia. }
      exists (s :: pre), post. split_and!; try done.
      intros s' [->|Hs']%elem_of_cons Hh' He' Ht' Hb'; [by right|by apply H6].
Qed.

(** What a claim is: an eraser, and a plain blank after it, not newer than it, with no line shown
    between them that is older than the eraser and as old as the blank. *)
Definition claim_ok (st : DocState) (e b : nat) : Prop :=
  slot_eraser st e = true ∧ e < b ∧ is_blank st b = true ∧ slot_eraser st b = false
  ∧ Hlc_ltb (slot_stamp st e) (slot_stamp st b) = false
  ∧ ∀ s, e < s < b → slot_hidden st s = false → is_blank st s = false →
      Hlc_ltb (slot_stamp st e) (slot_stamp st s) = true ∨ Hlc_ltb (slot_stamp st b) (slot_stamp st s) = true.

Lemma claim_spec st e taken b :
  doc_wf st → slot_eraser st e = true → claim st e taken = Some b →
  (b ∉ taken) ∧ (Forall (λ t, is_blank st t = true) taken → claim_ok st e b).
Proof.
  intros Hwf He H. destruct (claim_from_spec _ _ _ _ _ _ H) as (pre & post & Hss & H1 & H2 & H3 & H4 & _ & H6).
  split; [done|]. intros Ht. unfold claim_ok.
  assert (∀ k s, drop (e + 1) (slots st) !! k = Some s → s = e + 1 + k) as Hslot.
  { intros k s Hk. rewrite lookup_drop in Hk. unfold slots in Hk. apply lookup_seq in Hk. lia. }
  assert (b = e + 1 + length pre) as Hb.
  { apply Hslot. rewrite Hss, lookup_app_r, Nat.sub_diag by done. done. }
  split_and!; try done; [lia|]. intros s Hs Hh Hbl. apply H6; try done.
  - assert (drop (e + 1) (slots st) !! (s - (e + 1)) = Some s) as Hl.
    { destruct (drop (e + 1) (slots st) !! (s - (e + 1))) as [s'|] eqn:E.
      - apply Hslot in E. f_equal. lia.
      - apply lookup_ge_None in E. rewrite Hss, length_app in E. cbn in E. lia. }
    rewrite Hss, lookup_app_l in Hl by lia. by eapply list_elem_of_lookup_2.
  - destruct Hwf as (_ & rs & Hc & _ & Hf). destruct (slot_eraser st s) eqn:E; [|done]. exfalso.
    unfold slot_eraser in E. rewrite (col_erasers _ _ Hc), list_lookup_fmap in E.
    destruct (rs !! s) as [r|] eqn:Er; [|done]. cbn in E. eapply Forall_lookup_1 in Hf; [|exact Er].
    destruct (columns_lookup _ _ _ _ Hc Er) as (_ & E1 & _). destruct (Hf E) as [Hh' _]. congruence.
  - intros Hin. rewrite Forall_forall in Ht. by rewrite (Ht s Hin) in Hbl.
Qed.

Lemma claims_spec st : doc_wf st → NoDup (map snd (claims st)) ∧ ∀ e b, (e, b) ∈ claims st → claim_ok st e b.
Proof.
  intros Hwf. unfold claims.
  assert (∀ ss acc, Forall (λ s, slot_eraser st s = true) ss →
    NoDup (map snd acc) ∧ (∀ e b, (e, b) ∈ acc → claim_ok st e b) →
    let l := foldl (λ acc s, match claim st s (map snd acc) with Some b => acc ++ [(s, b)] | None => acc end) acc ss in
    NoDup (map snd l) ∧ ∀ e b, (e, b) ∈ l → claim_ok st e b) as Hgen.
  { induction ss as [|s ss IH]; intros acc Hs Hacc; [done|]. cbn. apply Forall_cons in Hs as [Hs Hss].
    apply IH; [done|]. destruct (claim st s (map snd acc)) as [b|] eqn:E; [|done]. destruct Hacc as [Hn Hok].
    destruct (claim_spec st s _ b Hwf Hs E) as [Hb Hcl]. split.
    - rewrite map_app. cbn. apply NoDup_app. split_and!; [done| |apply NoDup_singleton].
      intros x Hx ->%list_elem_of_singleton. done.
    - intros e' b' [Hin|Hin]%elem_of_app; [by apply Hok|]. apply list_elem_of_singleton in Hin as [= -> ->].
      apply Hcl. apply Forall_forall. intros t Ht. apply list_elem_of_In, in_map_iff in Ht as ([e2 b2] & <- & Hin).
      apply list_elem_of_In, Hok in Hin. by destruct Hin as (_ & _ & ? & _). }
  apply Hgen.
  - apply Forall_forall. by intros s [Hs _]%elem_of_filter.
  - split; [constructor|]. by intros e b ?%elem_of_nil.
Qed.

Lemma settle_hides st s :
  doc_wf st → existsb id (erasers st) = true → is_blank st s = true → slot_eraser st s = false →
  slot_hidden (settle_erasers st) s = true ↔ s ∈ map snd (claims st).
Proof.
  intros Hwf He Hb Hn. rewrite settle_form by (done || apply Hwf). unfold slot_hidden.
  change (hidden (reindex _)) with (settled_hidden st). unfold settled_hidden. rewrite list_lookup_imap.
  destruct Hwf as (_ & rs & Hc & _). destruct (columns_lengths _ _ Hc) as (L1 & L2 & _).
  destruct (hidden st !! s) as [h|] eqn:E; cbn [fmap option_fmap option_map default].
  - rewrite Hb, Hn. cbn. by rewrite bool_decide_eq_true.
  - exfalso. apply lookup_ge_None in E. unfold is_blank in Hb.
    destruct (entries st !! s) as [en|] eqn:Ee; [|done]. apply lookup_lt_Some in Ee. lia.
Qed.

(** ** Batches *)

Lemma apply_round_sublist st ops st' failed :
  apply_round st ops = (st', failed) → sublist (map fst failed) ops.
Proof.
  revert st st' failed. induction ops as [|o ops IH]; intros st st' failed H; cbn in H; [by injection H as <- <-|].
  destruct (doc_apply o st) as [st1 r]. destruct (apply_round st1 ops) as [st2 f] eqn:E. injection H as <- <-.
  apply IH in E. destruct r; cbn; [by apply sublist_cons|by apply sublist_skip].
Qed.

(** A round that applies nothing fails every op. *)
Lemma apply_round_all st ops st' failed :
  apply_round st ops = (st', failed) → length failed = length ops → map fst failed = ops.
Proof.
  intros H Hl. apply apply_round_sublist in H. rewrite <- (length_map fst) in Hl.
  revert Hl. induction H as [|x l k _ IH|x l k Hs IH]; cbn; [done|intros [= Hl]; by rewrite IH|].
  intros Hl. apply sublist_length in Hs. lia.
Qed.

Lemma apply_group_spec fuel st pending st' failed :
  length pending < fuel → apply_group fuel st pending = (st', failed) →
  sublist (map fst failed) pending
  ∧ (failed = [] ∨ ∃ st0, apply_round st0 (map fst failed) = (st', failed))
  ∧ ∀ fuel', length pending < fuel' → apply_group fuel' st pending = (st', failed).
Proof.
  revert st pending. induction fuel as [|fuel IH]; intros st pending Hf H; [lia|]. cbn [apply_group] in H.
  destruct (apply_round st pending) as [st1 f] eqn:E. pose proof (apply_round_sublist _ _ _ _ E) as Hs.
  destruct (bool_decide (f = []) || (length f =? length pending)) eqn:Et.
  - injection H as <- <-. split_and!; [done| |].
    + apply orb_true_iff in Et as [->%bool_decide_eq_true|El%Nat.eqb_eq]; [by left|right].
      exists st. by rewrite (apply_round_all _ _ _ _ E El).
    + intros [|fuel'] Hf'; [lia|]. cbn [apply_group]. by rewrite E, Et.
  - apply orb_false_iff in Et as [E1 E2]. pose proof (sublist_length _ _ Hs) as Hl. rewrite length_map in Hl.
    apply Nat.eqb_neq in E2.
    destruct (IH st1 (map fst f)) as (H1 & H2 & H3); [rewrite length_map; lia|done|].
    split_and!; [by transitivity (map fst f)|done|].
    intros [|fuel'] Hf'; [lia|]. cbn [apply_group]. rewrite E, E1, (proj2 (Nat.eqb_neq _ _) E2).
    apply H3. rewrite length_map. lia.
Qed.

Lemma chunk_by_stamp_concat ops : concat (chunk_by_stamp ops) = ops.
Proof.
  induction ops as [|o ops IH]; [done|]. cbn. destruct (chunk_by_stamp ops) as [|[|o' g] gs]; cbn in *; [by rewrite <- IH|by rewrite <- IH|].
  destruct (bool_decide _); cbn; by rewrite <- IH.
Qed.

Lemma apply_leniently_sublist st ops : sublist (map fst (snd (apply_leniently st ops))) ops.
Proof.
  unfold apply_leniently. rewrite <- (chunk_by_stamp_concat ops) at 2.
  assert (∀ gs acc done_, sublist (map fst (snd acc)) done_ →
    sublist (map fst (snd (foldl (λ '(st, skipped) g, let '(st', failed) := apply_group (S (length g)) st g in (st', skipped ++ failed)) acc gs)))
      (done_ ++ concat gs)) as Hgen; [|by apply (Hgen _ (st, []) [])].
  induction gs as [|g gs IH]; intros [s sk] done_ Hd; cbn [foldl concat]; [by rewrite app_nil_r|].
  rewrite app_assoc. apply IH. destruct (apply_group (S (length g)) s g) as [s' f] eqn:E. cbn [snd].
  rewrite map_app. apply sublist_app; [done|]. apply apply_group_spec in E; [|lia]. apply E.
Qed.

(** A run of attempts to apply ops: those that were applied, in the order they were. An attempt that is
    refused adds nothing to them. *)
Inductive attempts : DocState → list Op → DocState → Prop :=
  | att_none st : attempts st [] st
  | att_applied o st st1 os st' : doc_apply o st = (st1, Ok tt) → attempts st1 os st' → attempts st (o :: os) st'
  | att_refused o e st st1 os st' : doc_apply o st = (st1, Err e) → attempts st1 os st' → attempts st os st'.

Lemma attempts_app st1 os1 st2 os2 st3 : attempts st1 os1 st2 → attempts st2 os2 st3 → attempts st1 (os1 ++ os2) st3.
Proof. intros H H'. induction H as [|o st st1 os st2 E H IH|o e st st1 os st2 E H IH]; [done|eapply att_applied|eapply att_refused]; eauto. Qed.

Lemma apply_round_attempts st ops st' failed :
  apply_round st ops = (st', failed) → ∃ os, attempts st os st' ∧ ops ≡ₚ os ++ map fst failed.
Proof.
  revert st st' failed. induction ops as [|o ops IH]; intros st st' failed H; cbn in H.
  { injection H as <- <-. exists []. split; [constructor|done]. }
  destruct (doc_apply o st) as [st1 r] eqn:Ea. destruct (apply_round st1 ops) as [st2 f] eqn:E. injection H as <- <-.
  destruct (IH _ _ _ E) as (os & Ho & Hp). destruct r as [[]|e].
  - exists (o :: os). split; [by eapply att_applied|]. cbn. by rewrite Hp.
  - exists os. split; [by eapply att_refused|]. cbn [map fst]. by rewrite <- Permutation_middle, Hp.
Qed.

Lemma apply_group_attempts fuel st ops st' failed :
  length ops < fuel → apply_group fuel st ops = (st', failed) → ∃ os, attempts st os st' ∧ ops ≡ₚ os ++ map fst failed.
Proof.
  revert st ops. induction fuel as [|fuel IH]; intros st ops Hf H; [lia|]. cbn [apply_group] in H.
  destruct (apply_round st ops) as [st1 f] eqn:E. destruct (apply_round_attempts _ _ _ _ E) as (os & Ho & Hp).
  destruct (bool_decide (f = []) || (length f =? length ops)) eqn:Et; [injection H as <- <-; by exists os|].
  apply orb_false_iff in Et as [_ E2%Nat.eqb_neq]. pose proof (sublist_length _ _ (apply_round_sublist _ _ _ _ E)) as Hl.
  rewrite length_map in Hl. destruct (IH st1 (map fst f)) as (os' & Ho' & Hp'); [rewrite length_map; lia|done|].
  exists (os ++ os'). split; [by eapply attempts_app|]. by rewrite Hp, Hp', app_assoc.
Qed.

(** Every op of a batch is applied or reported, and the state after is the one the applied ops made. *)
Lemma apply_leniently_attempts st ops :
  ∃ os, attempts st os (fst (apply_leniently st ops)) ∧ ops ≡ₚ os ++ map fst (snd (apply_leniently st ops)).
Proof.
  unfold apply_leniently. pose proof (chunk_by_stamp_concat ops) as Hc. revert Hc. generalize (chunk_by_stamp ops).
  intros chunks <-. assert (∀ gs acc done_ os0, attempts st os0 (fst acc) → done_ ≡ₚ os0 ++ map fst (snd acc) →
    ∃ os, attempts st os (fst (foldl (λ '(st, skipped) g, let '(st', failed) := apply_group (S (length g)) st g in (st', skipped ++ failed)) acc gs))
      ∧ done_ ++ concat gs ≡ₚ os ++ map fst (snd (foldl (λ '(st, skipped) g, let '(st', failed) := apply_group (S (length g)) st g in (st', skipped ++ failed)) acc gs))) as Hgen.
  { induction gs as [|g gs IH]; intros [s sk] done_ os0 Ha Hd; cbn [foldl concat]; [exists os0; by rewrite app_nil_r|].
    rewrite app_assoc. destruct (apply_group (S (length g)) s g) as [s' f] eqn:E.
    apply apply_group_attempts in E as (os & Ho & Hp); [|lia]. apply (IH _ _ (os0 ++ os)); cbn [fst snd] in *.
    - by eapply attempts_app.
    - rewrite map_app, Hd, Hp. solve_Permutation. }
  apply (Hgen _ (st, []) [] []); [constructor|done].
Qed.

(** ** Claims *)

(** C31. An op that fails leaves the document as it was, apart from the text history of its own task;
    and that history too is left alone, except by an op that clears a priority or inserts a task the
    document already places. *)
Theorem failed_op_leaves_document o st st' e :
  doc_apply o st = (st', Err e) →
  (st' = with_history st (text_history st') ∧ ∀ t, op_task o ≠ Some t → text_history st' !! t = text_history st !! t)
  ∧ doc_to_bytes st' = doc_to_bytes st
  ∧ (may_touch_history st o = false → st' = st).
Proof.
  intros H. destruct (apply_err o st st' e H) as [[H1 H2] H3]. split_and!; [done| |by rewrite H1|done].
  intros t Ht. apply H2. congruence.
Qed.

Lemma failed_op_leaves_document_witness :
  match doc_of [str "one"; str "two"] with
  | Some st => fst (doc_apply (op_at 5 1 (KMove 1 (Some 9%N) todo_path)) st) = st
  | None => False
  end.
Proof.
  destruct (doc_of [str "one"; str "two"]) as [st|] eqn:E; [|vm_compute in E; discriminate E].
  destruct (doc_apply (op_at 5 1 (KMove 1 (Some 9%N) todo_path)) st) as [st' [[]|e]] eqn:E'.
  - exfalso. vm_compute in E. injection E as <-. vm_compute in E'. discriminate E'.
  - destruct (failed_op_leaves_document _ _ _ _ E') as (_ & _ & H). apply H. reflexivity.
Defined.

(** Clearing the priority of a done task whose description holds a carriage return fails, and the
    failure changes the state: the task has a text history it did not have. *)
Theorem failed_clear_touches_history :
  match doc_of [str "x call" ++ [x0d] ++ str "me pri:A"] with
  | Some st =>
      let o := op_at 5 1 (KSetField 1 FPriority (FVPriority None)) in
      let '(st', r) := doc_apply o st in
      may_touch_history st o = true ∧ is_ok r = false ∧ text_history st !! 1%N = None ∧ text_history st' !! 1%N ≠ None
  | None => False
  end.
Proof. vm_compute. split_and!; done. Qed.

(** Last writer wins: no op makes a field's stamp older while its task stays in the document, and
    an accepted set-field leaves its field's stamp no older than its own. *)
Theorem field_stamps_grow o st st' r :
  doc_apply o st = (st', r) →
  stamps_grow st st'
  ∧ ∀ t f v, op_kind o = KSetField t f v → f ≠ FDeleted → r = Ok tt → has_placement st' t = true →
      ∃ h, field_stamps st' !! (t, f) = Some h ∧ Hlc_ltb h (op_hlc o) = false.
Proof.
  unfold doc_apply, mbind, ST_bind, modify. intros H.
  destruct (doc_dispatch o st) as [st1 [[]|e]] eqn:E; cycle 1.
  { injection H as <- <-. split; [|done]. intros t f h Hk _. exact (fs_dispatch _ _ _ _ E _ _ Hk). }
  set (st2 := if reshapes (op_kind o) then settle_erasers st1 else st1) in *.
  assert (field_stamps st2 = field_stamps st1) as Hfs by (subst st2; destruct (reshapes _); [apply fs_settle|done]).
  injection H as <- <-. split.
  - intros t f h Hk Hp. rewrite (fs_prune st2 (t, f) Hp), Hfs. exact (fs_dispatch _ _ _ _ E _ _ Hk).
  - intros t f v Ho Hf _ Hp. rewrite (fs_prune st2 (t, f) Hp), Hfs. unfold doc_dispatch in E. rewrite Ho in E.
    apply fs_set_field in E as [[Hs ->]|[Hs ->]]; [| |done].
    + unfold is_stale_field in Hs. destruct (field_stamps st !! (t, f)) as [h|]; [|done]. exists h. split; [done|].
      rewrite <- not_true_iff_false, !Hlc_ltb_spec in *. unfold Hlc_lt in *. lia.
    + exists (op_hlc o). by rewrite lookup_insert_eq, Hlc_ltb_irrefl.
Qed.

Lemma field_stamps_grow_witness :
  match doc_of [str "one"; str "two"] with
  | Some st =>
      ∃ h, field_stamps (fst (doc_apply (op_at 5 1 (KSetField 1 FCompleted (FVBool true))) st)) !! (1%N, FCompleted) = Some h
           ∧ Hlc_ltb h (hlc_at 5 1) = false
  | None => False
  end.
Proof.
  destruct (doc_of [str "one"; str "two"]) as [st|] eqn:E; [|vm_compute in E; discriminate E].
  destruct (doc_apply (op_at 5 1 (KSetField 1 FCompleted (FVBool true))) st) as [st' r] eqn:E'.
  destruct (field_stamps_grow _ _ _ _ E') as [_ H]. apply (H 1%N FCompleted (FVBool true)); [reflexivity|discriminate|..].
  - vm_compute in E. injection E as <-. vm_compute in E'. injection E' as _ <-. reflexivity.
  - vm_compute in E. injection E as <-. vm_compute in E'. injection E' as <- _. reflexivity.
Defined.

(** Once erasers settled, a plain blank is hidden exactly when an eraser claims it; no two erasers
    claim one blank; each claims a blank after it that is not newer than it, with no older line shown
    in between; and settling again changes nothing. *)
Theorem erasers_settle st :
  doc_reaches once st → existsb id (erasers st) = true →
  (∀ s, is_blank st s = true → slot_eraser st s = false →
     slot_hidden (settle_erasers st) s = true ↔ s ∈ map snd (claims st))
  ∧ NoDup (map snd (claims st))
  ∧ (∀ e b, (e, b) ∈ claims st → claim_ok st e b)
  ∧ claims (settle_erasers st) = claims st
  ∧ settle_erasers (settle_erasers st) = settle_erasers st.
Proof.
  intros Hr He. apply reaches_wf in Hr. destruct (claims_spec st Hr) as [Hn Hok].
  split_and!; [|done|done|apply apart_claims, blanks_apart_settle|].
  - intros s Hb Hs. by apply settle_hides.
  - apply settle_apart; [done|by apply doc_wf_settle|apply blanks_apart_settle|done].
Qed.

Lemma erasers_settle_witness : ∃ st,
  claims st = [(1, 2)] ∧ slot_hidden (settle_erasers st) 2 = true ∧ doc_to_bytes st = str "one" ++ [x0a] ++ str "two" ++ [x0a].
Proof.
  destruct (from_file todo_path (parse_file (str "one" ++ [x0a; x0a] ++ str "two" ++ [x0a])) [Some 1%N; None; Some 2%N] Sidecar) as [st|e] eqn:E;
    [|vm_compute in E; discriminate E].
  destruct (doc_apply (op_at 5 1 (KBlankRemove (Some 1%N))) st) as [st' r] eqn:E'.
  assert (doc_reaches once st') as Hr.
  { eapply reach_apply; [eapply reach_open_once; [exact E|]|exact E']. apply (bool_decide_eq_true_1 _). vm_compute. reflexivity. }
  exists st'. pose proof (erasers_settle st' Hr) as H. clear Hr.
  vm_compute in E. injection E as <-. vm_compute in E'. injection E' as <- <-.
  split; [vm_compute; reflexivity|]. split; [|vm_compute; reflexivity].
  apply (H eq_refl); [reflexivity..|]. vm_compute. apply elem_of_cons. by left.
Defined.

(** Retrying a batch ends: within one commit, rounds stop with every op applied or with a round in
    which each op left fails, whatever fuel above the number of ops they are given; over the whole
    batch the ops reported as skipped are among those given, in order, each at most once. *)
Theorem leniently_accounts st ops :
  (∀ st0 g, let '(st', failed) := apply_group (S (length g)) st0 g in
     stuck st' failed ∧ ∀ fuel, length g < fuel → apply_group fuel st0 g = (st', failed))
  ∧ sublist (map fst (snd (apply_leniently st ops))) ops.
Proof.
  split; [|apply apply_leniently_sublist]. intros st0 g.
  destruct (apply_group (S (length g)) st0 g) as [st' failed] eqn:E. apply apply_group_spec in E as (_ & H1 & H2); [by split|lia].
Qed.
