(* ===== verification/DocFresh.v ===== *)
(** What an op newer than everything a document holds sees of it: its anchor is the anchor shown, its
    spot is right after it, and an entry placed there shows right after the anchor's line. *)
From S2P Require Import Prelude.
From S2P Require Import Utf8.
From S2P Require Import Types.
From S2P Require Import Ulid.
From S2P Require Import Scanner.
From S2P Require Import Parser.
From S2P Require Import Format.
From S2P Require Import TodoFile.
From S2P Require Import Edit.
From S2P Require Import Myers.
From S2P Require Import Diff.
From S2P Require Import Hlc.
From S2P Require Import TagText.
From S2P Require Import TextHistory.
From S2P Require Import Ops.
From S2P Require Import DocState.
From S2P Require Import DocRows.
From S2P Require Import DocInvariant.
From S2P Require Import DocConverge.
From S2P Require Import DocErrors.

(** ** The lines shown *)

Definition holds (t : TaskId) (e : Entry) : bool := bool_decide (entry_id e = Some t).

(** The list with an entry right after a task, or first. *)
Definition place_after (after : option TaskId) (e : Entry) (l : list Entry) : option (list Entry) :=
  match after with
  | None => Some (e :: l)
  | Some t => i ← position (holds t) l; Some (insert_at (S i) e l)
  end.

Definition remove_task (t : TaskId) (l : list Entry) : list Entry := List.filter (λ e, negb (holds t e)) l.

(** The lines shown. *)
Definition shown_lines (st : DocState) : list Entry := visible_entries st.

(** ** Nothing newer *)

(** Each task shown is shown at its newest placement. *)
Definition newest_shown (rs : list Placement) : Prop :=
  ∀ r r' i, r ∈ rs → r' ∈ rs → p_hidden r = false → p_id r = Some i → p_id r' = Some i →
  Hlc_ltb (p_stamp r) (p_stamp r') = false.

(** A document in which nothing is newer than [h] and each task is shown at its newest placement. *)
Record fresh_at (h : Hlc) (st : DocState) (rs : list Placement) : Prop := mkFreshAt {
  fr_columns : columns st rs;
  fr_visible : visible st = visible_of (hidden st);
  fr_ok : rows_ok rs;
  fr_newest : newest_shown rs;
  fr_stamps : Forall (λ r, Hlc_ltb h (p_stamp r) = false) rs
}.

(** Room for [n] more lines and ghosts. *)
Definition roomy (n : nat) (st : DocState) : Prop :=
  may_hide st + n ≤ MAX_GHOSTS_PER_FILE ∧ (N.of_nat (length (entries st) + n) <= MAX_LINES_PER_FILE)%N.

(** ** Lists *)

Lemma max_by_ge {A} (le : A → A → bool) (l : list A) m :
  (∀ a b, le a b = true ∨ le b a = true) → (∀ a b c, le a b = true → le b c = true → le a c = true) →
  max_by le l = Some m → ∀ x, x ∈ l → le x m = true.
Proof.
  intros Htot Htr. unfold max_by. rewrite max_by_pick.
  assert (∀ acc, foldl (λ acc x, match acc with None => Some x | Some m => Some (if le m x then x else m) end) acc l = Some m →
    (∀ x, x ∈ l → le x m = true) ∧ (∀ a, acc = Some a → le a m = true)) as Hgen.
  { induction l as [|y l IH]; intros acc H; cbn in H.
    - split; [by intros x ?%elem_of_nil|]. intros a ->. injection H as ->. by destruct (Htot m m).
    - apply IH in H as [H1 H2]. destruct acc as [a|].
      + specialize (H2 _ eq_refl). assert (le y m = true ∧ le a m = true) as [Hy Ha].
        { destruct (le a y) eqn:E; [split; [done|by eapply Htr]|]. split; [|done].
          destruct (Htot a y) as [?|?]; [congruence|by eapply Htr]. }
        split; [intros x [->|Hx]%elem_of_cons; [done|by apply H1]|by intros ? [= <-]].
      + specialize (H2 _ eq_refl). split; [intros x [->|Hx]%elem_of_cons; [done|by apply H1]|done]. }
  intros H x Hx. by apply (proj1 (Hgen None H)).
Qed.

Lemma max_by_nonempty {A} (le : A → A → bool) (l : list A) x : x ∈ l → ∃ m, max_by le l = Some m.
Proof.
  intros Hx. unfold max_by. rewrite max_by_pick.
  destruct l as [|y l]; [by apply elem_of_nil in Hx|]. cbn. clear Hx x. revert y.
  induction l as [|z l IH]; intros y; cbn; [by exists y|]. apply IH.
Qed.

Lemma position_app_here {A} (p : A → bool) l1 x l2 :
  Forall (λ y, p y = false) l1 → p x = true → position p (l1 ++ x :: l2) = Some (length l1).
Proof. intros Hl Hx. induction Hl as [|y l Hy _ IH]; cbn; [by rewrite Hx|]. by rewrite Hy, IH. Qed.

Lemma insert_at_middle {A} (x y : A) l1 l2 : insert_at (S (length l1)) y (l1 ++ x :: l2) = l1 ++ x :: y :: l2.
Proof.
  unfold insert_at. replace (l1 ++ x :: l2) with ((l1 ++ [x]) ++ l2) by (by rewrite <- app_assoc).
  rewrite take_app_length', drop_app_length' by (rewrite length_app; cbn; lia). by rewrite <- app_assoc.
Qed.

Lemma Hlc_leb_total a b : Hlc_leb a b = true ∨ Hlc_leb b a = true.
Proof. rewrite !Hlc_leb_spec. unfold Hlc_lt. lia. Qed.

Lemma key_leb_spec a b :
  key_leb a b = true ↔ Hlc_ltb (fst a) (fst b) = true ∨ (fst a = fst b ∧ (snd a = true → snd b = true)).
Proof.
  rewrite Hlc_ltb_spec. unfold key_leb. destruct (Hlc_compare_spec (fst a) (fst b)) as [E|E|E].
  - destruct (snd a), (snd b); cbn; split; try done; try (right; by split).
    intros [H|[_ H]]; [exfalso; rewrite E in H; revert H; unfold Hlc_lt; lia|by apply H].
  - split; [by left|done].
  - split; [done|]. intros [H|[H _]]; exfalso; [unfold Hlc_lt in *; lia|].
    rewrite H in E. revert E. unfold Hlc_lt. lia.
Qed.

Lemma key_leb_total a b : key_leb a b = true ∨ key_leb b a = true.
Proof.
  rewrite !key_leb_spec, !Hlc_ltb_spec. destruct (Hlc_lt_total (fst a) (fst b)) as [?|[E|?]]; [auto| |auto].
  destruct (snd a), (snd b); auto.
Qed.

Lemma key_leb_trans a b c : key_leb a b = true → key_leb b c = true → key_leb a c = true.
Proof.
  rewrite !key_leb_spec, !Hlc_ltb_spec. intros [H1|[H1 H1']] [H2|[H2 H2']].
  - left. unfold Hlc_lt in *. lia.
  - left. by rewrite <- H2.
  - left. by rewrite H1.
  - right. split; [congruence|auto].
Qed.

(** ** The rows shown *)

Lemma shown_rows_app rs1 rs2 : shown_rows (rs1 ++ rs2) = shown_rows rs1 ++ shown_rows rs2.
Proof. apply List.filter_app. Qed.

Lemma shown_rows_split rs s r :
  rs !! s = Some r → p_hidden r = false →
  shown_rows rs = shown_rows (take s rs) ++ r :: shown_rows (drop (S s) rs).
Proof.
  intros Hr Hh. rewrite <- (take_drop_middle _ _ _ Hr) at 1. rewrite shown_rows_app. f_equal.
  unfold shown_rows at 1. cbn. by rewrite Hh.
Qed.

Lemma holds_shown t rs s r :
  rows_ok rs → rs !! s = Some r → p_hidden r = false → p_id r = Some t →
  Forall (λ e, holds t e = false) (p_entry <$> shown_rows (take s rs))
  ∧ Forall (λ e, holds t e = false) (p_entry <$> shown_rows (drop (S s) rs)).
Proof.
  intros Hok Hr Hh Hi.
  assert (∀ s' r', rs !! s' = Some r' → p_hidden r' = false → s' ≠ s → holds t (p_entry r') = false) as Hne.
  { intros s' r' Hr' Hh' Hs. apply bool_decide_eq_false. intros Hi'. apply Hs.
    eapply rows_ok_once; [exact Hok|exact Hr'|exact Hr|..]; unfold shows; [by rewrite Hh'|by rewrite Hh]. }
  split; apply Forall_fmap, Forall_forall; intros r' [Hh' Hin]%elem_of_filter; apply negb_true_iff in Hh';
    apply list_elem_of_lookup in Hin as [k Hk].
  - apply lookup_take_Some in Hk as [Hk Hlt]. apply (Hne k); [done|done|lia].
  - rewrite lookup_drop in Hk. by apply (Hne (S s + k)); [|done|lia].
Qed.

Lemma position_shown t rs s r :
  rows_ok rs → rs !! s = Some r → p_hidden r = false → p_id r = Some t →
  position (holds t) (p_entry <$> shown_rows rs) = Some (length (shown_rows (take s rs))).
Proof.
  intros Hok Hr Hh Hi. rewrite (shown_rows_split rs s r Hr Hh), fmap_app, fmap_cons.
  rewrite position_app_here; [by rewrite length_fmap|by eapply holds_shown|by apply bool_decide_eq_true].
Qed.

(** Showing a new row right after a shown one. *)
Lemma place_shown t rs s r e h p :
  rows_ok rs → rs !! s = Some r → p_hidden r = false → p_id r = Some t →
  place_after (Some t) e (p_entry <$> shown_rows rs)
  = Some (p_entry <$> shown_rows (insert_at (S s) (mkPlacement e false h p false) rs)).
Proof.
  intros Hok Hr Hh Hi. unfold place_after. rewrite (position_shown t rs s r Hok Hr Hh Hi). cbn. f_equal.
  unfold insert_at at 2. rewrite (take_S_r _ _ _ Hr), !shown_rows_app.
  assert (∀ l, shown_rows (mkPlacement e false h p false :: l) = mkPlacement e false h p false :: shown_rows l) as Hc by done.
  assert (shown_rows [r] = [r]) as Hr1 by (unfold shown_rows; cbn; by rewrite Hh).
  rewrite Hc, Hr1, (shown_rows_split rs s r Hr Hh), !fmap_app, !fmap_cons.
  rewrite <- (length_fmap p_entry (shown_rows (take s rs))), insert_at_middle. by rewrite <- app_assoc.
Qed.

(** Hiding a shown row. *)
Lemma filter_holds_none t l : Forall (λ e, holds t e = false) l → remove_task t l = l.
Proof. unfold remove_task. induction 1 as [|e l He _ IH]; cbn; [done|]. by rewrite He, IH. Qed.

Lemma hide_shown t rs s r :
  rows_ok rs → rs !! s = Some r → p_hidden r = false → p_id r = Some t →
  p_entry <$> shown_rows (alter hide_row s rs) = remove_task t (p_entry <$> shown_rows rs).
Proof.
  intros Hok Hr Hh Hi. destruct (holds_shown t rs s r Hok Hr Hh Hi) as [H1 H2].
  rewrite (alter_split _ _ _ _ Hr), shown_rows_app, (shown_rows_split rs s r Hr Hh).
  assert (∀ l, shown_rows (hide_row r :: l) = shown_rows l) as Hc by done.
  rewrite Hc, !fmap_app, fmap_cons. unfold remove_task. rewrite List.filter_app. cbn.
  assert (holds t (p_entry r) = true) as -> by (by apply bool_decide_eq_true). cbn.
  fold (remove_task t (p_entry <$> shown_rows (take s rs))). fold (remove_task t (p_entry <$> shown_rows (drop (S s) rs))).
  by rewrite !filter_holds_none.
Qed.

(** ** A fresh op's anchor and spot *)

Lemma fresh_wf h st rs : fresh_at h st rs → doc_wf st.
Proof. intros [Hc Hv Hok _ _]. split; [done|]. by exists rs. Qed.

Lemma live_row h st rs t s :
  fresh_at h st rs → live_slot st t = Some s → ∃ r, rs !! s = Some r ∧ p_hidden r = false ∧ p_id r = Some t.
Proof.
  intros Hl [Hi Hh]%live_slot_Some. destruct (slot_id_row _ _ _ _ (fr_columns _ _ _ Hl) Hi) as (r & Hr & Hri).
  exists r. split_and!; [done| |done].
  destruct (columns_lookup _ _ _ _ (fr_columns _ _ _ Hl) Hr) as (_ & <- & _). done.
Qed.

Lemma fresh_stamp_le h st rs s : fresh_at h st rs → s < length rs → Hlc_ltb h (slot_stamp st s) = false.
Proof.
  intros Hl Hs. destruct (lookup_lt_is_Some_2 rs s Hs) as [r Hr].
  destruct (columns_lookup _ _ _ _ (fr_columns _ _ _ Hl) Hr) as (_ & _ & -> & _).
  by eapply Forall_lookup_1 in Hr; [|exact (fr_stamps _ _ _ Hl)].
Qed.

(** A fresh op follows its anchor where it is shown. *)
Lemma fresh_anchor h st rs t s :
  fresh_at h st rs → live_slot st t = Some s → anchor_slot st (Some t) h = Ok (Some s).
Proof.
  intros Hl Hlive. pose proof (live_slot_Some _ _ _ Hlive) as [Hi Hh].
  destruct (live_row _ _ _ _ _ Hl Hlive) as (r & Hr & Hrh & Hri).
  pose proof (fr_columns _ _ _ Hl) as Hc.
  unfold anchor_slot. set (ps := List.filter (slot_is st t) (slots st)).
  assert (List.filter (λ s, Hlc_leb (slot_stamp st s) h) ps = ps) as ->.
  { transitivity (List.filter (λ _, true) ps); [|induction ps as [|x l IH]; cbn; [done|by rewrite IH]].
    apply filter_ext_in. intros s' Hs'. apply list_elem_of_In in Hs'. subst ps.
    apply elem_of_filter in Hs' as [Hs'%slot_is_spec _]. apply Hlc_leb_spec. rewrite <- Hlc_ltb_spec.
    rewrite (fresh_stamp_le h st rs s' Hl); [done|]. rewrite <- (columns_length _ _ Hc). by eapply slot_id_lt. }
  set (le := λ a b, key_leb (slot_stamp st a, negb (slot_hidden st a)) (slot_stamp st b, negb (slot_hidden st b))).
  assert (s ∈ ps) as Hin.
  { subst ps. apply elem_of_filter. split; [by apply slot_is_spec|]. apply elem_of_slots. by eapply slot_id_lt. }
  destruct (max_by_nonempty le ps s Hin) as [m Hm]. rewrite Hm. do 2 f_equal.
  pose proof (max_by_elem _ _ _ Hm) as Hmin. subst ps. apply elem_of_filter in Hmin as [Hmi%slot_is_spec _].
  assert (le s m = true) as Hle.
  { apply (max_by_ge le (List.filter (slot_is st t) (slots st)) m); [|by intros a b c; apply key_leb_trans|done|done]. intros a b. apply key_leb_total. }
  destruct (slot_id_row _ _ _ _ Hc Hmi) as (rm & Hrm & Hrmi).
  destruct (columns_lookup _ _ _ _ Hc Hrm) as (_ & Em & Es & _). destruct (columns_lookup _ _ _ _ Hc Hr) as (_ & Em' & Es' & _).
  unfold le in Hle. rewrite Em, Es, Em', Es', Hrh in Hle. apply key_leb_spec in Hle. cbn in Hle.
  assert (Hlc_ltb (p_stamp r) (p_stamp rm) = false) as Hnew.
  { eapply (fr_newest _ _ _ Hl r rm t); [by eapply list_elem_of_lookup_2|by eapply list_elem_of_lookup_2|done..]. }
  destruct Hle as [Hle|[_ Hle]]; [congruence|]. specialize (Hle eq_refl). apply negb_true_iff in Hle.
  eapply rows_ok_once; [exact (fr_ok _ _ _ Hl)|exact Hrm|exact Hr|..]; unfold shows; [by rewrite Hle|by rewrite Hrh].
Qed.

Lemma fresh_skip h st rs n : fresh_at h st rs → n ≤ length rs → skip_newer (stamps st) h n = n.
Proof.
  intros Hl Hn. pose proof (fr_columns _ _ _ Hl) as Hc. destruct (columns_lengths _ _ Hc) as (_ & _ & L & _).
  apply skip_newer_unique; [lia|intros i x Hi; lia|]. intros x Hx. rewrite (col_stamps _ _ Hc), list_lookup_fmap in Hx.
  destruct (rs !! n) as [r|] eqn:E; [|done]. cbn in Hx. injection Hx as <-.
  by eapply Forall_lookup_1 in E; [|exact (fr_stamps _ _ _ Hl)].
Qed.

(** The slot a fresh op places at, when its anchor is shown. *)
Definition spot_of (st : DocState) (after : option TaskId) : option nat :=
  match after with None => Some 0 | Some t => S <$> live_slot st t end.

Lemma fresh_spot h st rs after n :
  fresh_at h st rs → spot_of st after = Some n →
  ∃ spot, slot_after st after h = Ok spot ∧ spot_at spot = n ∧ n ≤ length rs
    ∧ ∀ e p, place_after after e (shown_lines st) = Some (p_entry <$> shown_rows (insert_at n (mkPlacement e false h p false) rs)).
Proof.
  intros Hl Hn. pose proof (fr_columns _ _ _ Hl) as Hc.
  unfold shown_lines. rewrite (visible_entries_rows st rs (fr_visible _ _ _ Hl) Hc).
  destruct after as [t|]; cbn in Hn.
  - apply fmap_Some in Hn as (s & Hs & ->). destruct (live_row _ _ _ _ _ Hl Hs) as (r & Hr & Hrh & Hri).
    pose proof (lookup_lt_Some _ _ _ Hr). eexists. split; [apply slot_after_Ok; eexists; split; [by eapply fresh_anchor|reflexivity]|].
    cbn [spot_at gap_after]. split_and!; [rewrite (fresh_skip h st rs); [lia|done|lia]|lia|].
    intros e p. by apply (place_shown t rs s r); [exact (fr_ok _ _ _ Hl)|..].
  - injection Hn as <-. eexists. split; [apply slot_after_Ok; eexists; split; [reflexivity|reflexivity]|].
    cbn [spot_at gap_after]. split_and!; [apply (fresh_skip h st rs); [done|lia]|lia|]. done.
Qed.

(** ** Placing and hiding *)

Lemma live_shown h st rs t :
  fresh_at h st rs → is_Some (live_slot st t) ↔ existsb (holds t) (shown_lines st) = true.
Proof.
  intros Hl. pose proof (fr_columns _ _ _ Hl) as Hc.
  unfold shown_lines. rewrite (visible_entries_rows st rs (fr_visible _ _ _ Hl) Hc). split.
  - intros [s Hs]. destruct (live_row _ _ _ _ _ Hl Hs) as (r & Hr & Hrh & Hri).
    apply existsb_exists. exists (p_entry r). split; [|by apply bool_decide_eq_true].
    apply list_elem_of_In, list_elem_of_fmap_2, elem_of_filter. split; [by rewrite Hrh|by eapply list_elem_of_lookup_2].
  - intros (e & He & Hh)%existsb_exists. apply list_elem_of_In, list_elem_of_fmap in He as (r & -> & Hr).
    apply elem_of_filter in Hr as [Hrh Hr]. apply negb_true_iff in Hrh. apply list_elem_of_lookup in Hr as [s Hs].
    destruct (live_slot st t) as [s'|] eqn:E; [by exists s'|]. exfalso.
    destruct (columns_lookup _ _ _ _ Hc Hs) as (_ & E1 & _ & _ & _ & E5 & _).
    apply bool_decide_eq_true in Hh. rewrite (live_slot_None st t s E) in E1; [congruence|]. by rewrite E5.
Qed.

Lemma place_after_spot h st rs after e l' :
  fresh_at h st rs → place_after after e (shown_lines st) = Some l' → is_Some (spot_of st after).
Proof.
  intros Hl. destruct after as [t|]; [|by eexists]. cbn. intros (i & Hi & _)%bind_Some.
  assert (is_Some (live_slot st t)) as [s ->]; [|by eexists]. eapply live_shown; [exact Hl|].
  apply position_spec in Hi as (l1 & x & l2 & -> & _ & Hx & _). rewrite existsb_app. cbn. by rewrite Hx, orb_true_r.
Qed.

Lemma find_shown h st rs t s :
  fresh_at h st rs → live_slot st t = Some s →
  ∃ r, rs !! s = Some r ∧ p_hidden r = false ∧ p_id r = Some t ∧ find (holds t) (shown_lines st) = Some (p_entry r)
       ∧ entries st !! s = Some (p_entry r).
Proof.
  intros Hl Hs. destruct (live_row _ _ _ _ _ Hl Hs) as (r & Hr & Hrh & Hri). exists r. split_and!; try done.
  - unfold shown_lines. rewrite (visible_entries_rows st rs (fr_visible _ _ _ Hl) (fr_columns _ _ _ Hl)).
    destruct (holds_shown t rs s r (fr_ok _ _ _ Hl) Hr Hrh Hri) as [H1 _].
    rewrite (shown_rows_split rs s r Hr Hrh), fmap_app, fmap_cons.
    induction H1 as [|e l He _ IH]; cbn; [|by rewrite He].
    assert (holds t (p_entry r) = true) as -> by (by apply bool_decide_eq_true). done.
  - by destruct (columns_lookup _ _ _ _ (fr_columns _ _ _ Hl) Hr) as (-> & _).
Qed.

Lemma fresh_insert h st rs spot e :
  fresh_at h st rs → (∀ i, entry_id e = Some i → live_slot st i = None) →
  fresh_at h (insert_entry st spot e h)
    (insert_at (spot_at spot) (mkPlacement e false h (spot_parent spot) false) rs).
Proof.
  intros [Hc Hv Hok Hnew Hst] Hid.
  assert (∀ r, r ∈ insert_at (spot_at spot) (mkPlacement e false h (spot_parent spot) false) rs →
    r = mkPlacement e false h (spot_parent spot) false ∨ r ∈ rs) as Hin.
  { intros r Hr. rewrite insert_at_perm in Hr. by apply elem_of_cons in Hr. }
  split; try done.
  - by apply columns_insert.
  - apply rows_ok_insert; [done|done|]. intros i Hi Hin'. cbn in Hi. change (entry_id e = Some i) in Hi.
    apply shown_elem in Hin' as (s & r & Hs & [Hr Hh]%shows_id).
    destruct (columns_lookup _ _ _ _ Hc Hs) as (_ & E1 & _ & _ & _ & E5 & _).
    rewrite (live_slot_None _ _ s (Hid i Hi)) in E1; congruence.
  - intros r r' i Hr Hr' Hh Hri Hri'.
    apply Hin in Hr as [->|Hr]; apply Hin in Hr' as [->|Hr'].
    + apply Hlc_ltb_irrefl.
    + rewrite Forall_forall in Hst. by apply Hst.
    + exfalso. change (entry_id e = Some i) in Hri'. apply list_elem_of_lookup in Hr as [s Hs].
      destruct (columns_lookup _ _ _ _ Hc Hs) as (_ & E1 & _ & _ & _ & E5 & _).
      rewrite (live_slot_None _ _ s (Hid i Hri')) in E1; congruence.
    + by apply (Hnew r r' i).
  - rewrite insert_at_perm. constructor; [apply Hlc_ltb_irrefl|done].
Qed.

Lemma alter_elem {A} (g : A → A) (l : list A) (n : nat) x : x ∈ alter g n l → x ∈ l ∨ ∃ y, y ∈ l ∧ x = g y.
Proof.
  intros [k Hk]%list_elem_of_lookup. destruct (decide (k = n)) as [->|Hne].
  - rewrite list_lookup_alter_eq in Hk. apply fmap_Some in Hk as (y & Hy & ->). right. exists y.
    split; [by eapply list_elem_of_lookup_2|done].
  - rewrite list_lookup_alter_ne in Hk by done. left. by eapply list_elem_of_lookup_2.
Qed.

Lemma fresh_hide h st rs s : fresh_at h st rs → fresh_at h (hide_entry st s) (alter hide_row s rs).
Proof.
  intros [Hc Hv Hok Hnew Hst].
  assert (∀ r, r ∈ alter hide_row s rs → ∃ r0, r0 ∈ rs ∧ p_stamp r = p_stamp r0 ∧ p_id r = p_id r0
    ∧ p_eraser r = p_eraser r0 ∧ (p_hidden r = false → p_hidden r0 = false)) as Hin.
  { intros r [Hr|(r0 & Hr & ->)]%alter_elem; [by exists r|by exists r0]. }
  rewrite Forall_forall in Hst.
  split; try done; [by apply columns_hide|by apply rows_ok_hide| |].
  - intros r r' i (r0 & Hr & E1 & E2 & _ & E3)%Hin (r0' & Hr' & E1' & E2' & _)%Hin Hh Hi Hi'.
    rewrite E1, E1'. apply (Hnew r0 r0' i); try done; [by apply E3|congruence|congruence].
  - apply Forall_forall. intros r (r0 & Hr & -> & _)%Hin. by apply Hst.
Qed.

Lemma hide_lines h st rs t s :
  fresh_at h st rs → live_slot st t = Some s → shown_lines (hide_entry st s) = remove_task t (shown_lines st).
Proof.
  intros Hl Hs. destruct (live_row _ _ _ _ _ Hl Hs) as (r & Hr & Hrh & Hri).
  unfold shown_lines. rewrite (visible_entries_rows st rs (fr_visible _ _ _ Hl) (fr_columns _ _ _ Hl)).
  pose proof (fresh_hide h st rs s Hl) as Hl'.
  rewrite (visible_entries_rows _ _ (fr_visible _ _ _ Hl') (fr_columns _ _ _ Hl')).
  by apply (hide_shown t rs s r); [exact (fr_ok _ _ _ Hl)|..].
Qed.

Lemma insert_lines h st rs spot after e n :
  fresh_at h st rs → spot_of st after = Some n → spot_at spot = n →
  (∀ i, entry_id e = Some i → live_slot st i = None) →
  place_after after e (shown_lines st) = Some (shown_lines (insert_entry st spot e h)).
Proof.
  intros Hl Hn <- Hid. destruct (fresh_spot h st rs after _ Hl Hn) as (spot' & _ & _ & _ & Hpl).
  rewrite (Hpl e (spot_parent spot)). f_equal. pose proof (fresh_insert h st rs spot e Hl Hid) as Hl'.
  unfold shown_lines. by rewrite (visible_entries_rows _ _ (fr_visible _ _ _ Hl') (fr_columns _ _ _ Hl')).
Qed.

(** After a fresh op nothing re-homes: no entry is newer. *)
Lemma fresh_rehome h st rs t : fresh_at h st rs → rehome_onto st t h = st.
Proof.
  intros Hl. unfold rehome_onto. destruct (length (entries st)) as [|n]; [done|]. cbn [rehome_loop].
  destruct (find _ _) as [head|] eqn:E; [|done]. exfalso. apply find_elem in E as [Hin Hf].
  rewrite elem_of_reverse, elem_of_slots, (columns_length _ _ (fr_columns _ _ _ Hl)) in Hin.
  pose proof (fresh_stamp_le h st rs head Hl Hin) as Hle. unfold follows_older in Hf.
  destruct (slot_parent st head) as [[t' p]|]; [|done]. by rewrite Hle, andb_false_r in Hf.
Qed.

Lemma may_hide_hide st s : doc_wf st → may_hide (hide_entry st s) ≤ S (may_hide st).
Proof.
  intros (_ & rs & Hc & _). rewrite (may_hide_rows _ _ Hc), (may_hide_rows _ _ (columns_hide _ _ s Hc)).
  destruct (rs !! s) as [r|] eqn:Hr.
  - rewrite (alter_split _ _ _ _ Hr). rewrite <- (take_drop_middle _ _ _ Hr) at 3. rewrite !List.filter_app, !length_app.
    cbn. destruct (p_hidden r || p_blank r); cbn; lia.
  - assert (alter hide_row s rs = rs) as ->; [|lia]. apply list_eq. intros k.
    destruct (decide (k = s)) as [->|]; [by rewrite list_lookup_alter_eq, Hr|by rewrite list_lookup_alter_ne].
Qed.

Lemma roomy_insert n st spot e h : doc_wf st → roomy (S n) st → roomy n (insert_entry st spot e h).
Proof.
  intros Hwf [H1 H2]. split.
  - pose proof (may_hide_insert st spot e h Hwf). lia.
  - cbn. rewrite length_insert_at. lia.
Qed.

Lemma has_placement_insert_inv st spot e h t :
  has_placement (insert_entry st spot e h) t = true → has_placement st t = true ∨ entry_id e = Some t.
Proof.
  intros H. destruct (has_placement st t) eqn:E; [by left|right].
  destruct (decide (entry_id e = Some t)) as [|Hne]; [done|]. by rewrite (has_placement_insert st spot e h t E Hne) in H.
Qed.

Lemma roomy_too_many n st : doc_wf st → roomy (S n) st → too_many st = false.
Proof. intros Hwf [_ H]. apply (too_many_room st (S n)); [done|done|lia]. Qed.

