(* ===== verification/DocLocal.v ===== *)
(** The document as its owner sees it: an op newer than everything the document holds does to the
    lines shown what the same edit does to a plain list. The abstract document is a list of entries;
    a run of local ops refines a run of list operations. *)
From S2P Require Import Prelude.
From S2P Require Import Utf8.
From S2P Require Import Types.
From S2P Require Import Ulid.
From S2P Require Import Scanner.
From S2P Require Import Parser.
From S2P Require Import Format.
From S2P Require Import TodoFile.
From S2P Require Import Edit.
From S2P Require Import Myers.
From S2P Require Import Diff.
From S2P Require Import Hlc.
From S2P Require Import TagText.
From S2P Require Import TextHistory.
From S2P Require Import Ops.
From S2P Require Import DocState.
From S2P Require Import DocRows.
From S2P Require Import DocInvariant.
From S2P Require Import DocConverge.
From S2P Require Import DocErrors.
From S2P Require Import DocFresh.

(** ** The abstract document *)

(** What a local op does to the lines, for a document at [path] with line ending [ending]; [None] for
    an op the lines do not accept. *)
Definition line_step (path : FilePath) (ending : LineEnding) (k : OpKind) (l : list Entry) : option (list Entry) :=
  match k with
  | KInsert t after line => place_after after (TaskEntry t (OwnedLine_from_bytes line ending)) l
  | KBlankInsert after => place_after after (BlankEntry (OwnedLine_from_bytes [] ending)) l
  | KSetField t FDeleted (FVBool true) =>
      if existsb (holds t) l then Some (remove_task t l) else None
  | KMove t after to_file =>
      e ← find (holds t) l;
      if negb (bool_decide (to_file = path)) then Some (remove_task t l)
      else if bool_decide (after = Some t) then None
      else place_after after e (remove_task t l)
  | _ => None
  end.

Fixpoint line_run (path : FilePath) (ending : LineEnding) (ks : list OpKind) (l : list Entry) : option (list Entry) :=
  match ks with
  | [] => Some l
  | k :: ks' => l' ← line_step path ending k l; line_run path ending ks' l'
  end.

(** ** What makes an op local *)

(** A document no peer removed a blank from, in which nothing is newer than [h]. *)
Record local_at (h : Hlc) (st : DocState) (rs : list Placement) : Prop := mkLocalAt {
  loc_fresh :> fresh_at h st rs;
  loc_erasers : Forall (λ r, p_eraser r = false) rs;
  loc_reborn : ∀ t r, reborn (life_of st t) = Some r → Hlc_ltb h r = false
}.

Definition local (h : Hlc) (st : DocState) : Prop := ∃ rs, local_at h st rs.

(** The document accepts the ids and lines the ops bring: a line inserted has a task no placement had,
    and in tagged mode carries its tag. *)
Definition brings (st : DocState) (k : OpKind) : Prop :=
  match k with
  | KInsert t _ line =>
      has_placement st t = false ∧ (ds_mode st = Tagged → id_of (OwnedLine_from_bytes line (ds_ending st)) = Some t)
  | _ => True
  end.

(** ** Local documents *)

Lemma local_wf h st : local h st → doc_wf st.
Proof. intros [rs [Hf _ _]]. by eapply fresh_wf. Qed.

Lemma local_no_erasers h st rs : local_at h st rs → existsb id (erasers st) = false.
Proof.
  intros [Hf He _]. rewrite (col_erasers _ _ (fr_columns _ _ _ Hf)). clear -He.
  induction He as [|r rs Hr _ IH]; [done|]. cbn. by rewrite Hr.
Qed.

Lemma local_insert h st rs spot e :
  local_at h st rs → (∀ i, entry_id e = Some i → live_slot st i = None) →
  local_at h (insert_entry st spot e h)
    (insert_at (spot_at spot) (mkPlacement e false h (spot_parent spot) false) rs).
Proof.
  intros [Hf Her Hre] Hid. split; [by apply fresh_insert| |done]. rewrite insert_at_perm. by constructor.
Qed.

Lemma local_hide h st rs s : local_at h st rs → local_at h (hide_entry st s) (alter hide_row s rs).
Proof. intros [Hf Her Hre]. split; [by apply fresh_hide|by apply Forall_alter'|done]. Qed.

Lemma local_settle h st rs : local_at h st rs → settle_erasers st = st.
Proof. intros Hl. unfold settle_erasers. by rewrite (local_no_erasers h st rs Hl). Qed.

Lemma local_later h h' st : Hlc_ltb h' h = false → local h st → local h' st.
Proof.
  intros Hle [rs [[Hc Hv Hok Hnew Hst] Her Hre]]. exists rs. split; [split; try done|done|].
  - eapply Forall_impl; [exact Hst|]. intros r Hr. by eapply Hlc_ltb_false_trans.
  - intros t r Hr. eapply Hlc_ltb_false_trans; [exact Hle|by apply (Hre t)].
Qed.

(** A change of the metadata that adds no life newer than the op. *)
Lemma local_meta h st rs lf :
  local_at h st rs → (∀ t r, reborn (life_of (with_life st lf) t) = Some r → Hlc_ltb h r = false) →
  local_at h (with_life st lf) rs.
Proof.
  intros [[Hc Hv Hok Hnew Hst] Her Hre] Hlf. split; try done. split; try done. by eapply same_sequence_columns; [apply same_sequence_meta|].
Qed.

(** What every local step keeps beside the lines. *)
Record stepped (h : Hlc) (st st' : DocState) (o : Op) : Prop := mkStepped {
  sp_local : local h st';
  sp_path : ds_path st' = ds_path st;
  sp_ending : ds_ending st' = ds_ending st;
  sp_mode : ds_mode st' = ds_mode st;
  sp_room : ∀ n, roomy (S n) st → roomy n st';
  sp_placed : ∀ t, has_placement st' t = true → has_placement st t = true ∨ added_id o = Some t
}.

(** Steps of a local op end without a settle or a prune. *)
Lemma local_apply h st o st' rs :
  doc_dispatch o st = (st', Ok tt) → local_at h st' rs → roomy 0 st' → doc_apply o st = (st', Ok tt).
Proof.
  intros Hd Hl [Hg _]. unfold doc_apply, mbind, ST_bind, modify. rewrite Hd.
  assert ((if reshapes (op_kind o) then settle_erasers st' else st') = st') as ->.
  { destruct (reshapes _); [by eapply local_settle|done]. }
  rewrite prune_room; [done|eapply local_wf; by exists rs|lia].
Qed.

(** New lines and blanks. *)
Lemma local_new_line h st o after e l' :
  local h st → op_hlc o = h → roomy 1 st → new_line st o = Some (e, after) →
  (∀ spot, slot_after st after h = Ok spot → doc_dispatch o st = (insert_entry st spot e h, Ok tt)) →
  place_after after e (shown_lines st) = Some l' →
  ∃ st', doc_apply o st = (st', Ok tt) ∧ shown_lines st' = l' ∧ stepped h st st' o.
Proof.
  intros [rs Hl] Ho Hroom Hn Hd Hp.
  assert (doc_wf st) as Hwf by (eapply local_wf; by exists rs).
  destruct (new_line_id _ _ _ _ Hn) as [Hid Hno].
  assert (∀ i, entry_id e = Some i → live_slot st i = None) as Hlive.
  { intros i Hi. apply has_placement_live, Hno. congruence. }
  destruct (place_after_spot _ _ _ _ _ _ Hl Hp) as [n Hspot].
  destruct (fresh_spot h st rs after n Hl Hspot) as (spot & Hs & Hat & _).
  pose proof (local_insert h st rs spot e Hl Hlive) as Hl'.
  exists (insert_entry st spot e h). split_and!.
  - eapply local_apply; [by apply Hd|exact Hl'|by apply roomy_insert].
  - pose proof (insert_lines h st rs spot after e n Hl Hspot Hat Hlive) as E. congruence.
  - split; try done; [by eexists|intros m; by apply roomy_insert|].
    intros t [?|?]%has_placement_insert_inv; [by left|right; congruence].
Qed.

Lemma stepped_hide h st s o : local h st → stepped h st (hide_entry st s) o.
Proof.
  intros [rs Hl]. split; try done.
  - eexists. by apply local_hide.
  - intros n [H1 H2]. pose proof (may_hide_hide st s (local_wf h st (ex_intro _ rs Hl))). split; [lia|cbn; lia].
  - intros t Ht. by left.
Qed.

(** A delete. *)
Lemma local_delete h st o t :
  local h st → op_hlc o = h → roomy 1 st → op_kind o = KSetField t FDeleted (FVBool true) →
  existsb (holds t) (shown_lines st) = true →
  ∃ st', doc_apply o st = (st', Ok tt) ∧ shown_lines st' = remove_task t (shown_lines st) ∧ stepped h st st' o.
Proof.
  intros [rs Hl] Ho Hroom Hk Hex.
  destruct (proj2 (live_shown h st rs t Hl) Hex) as [s Hs].
  assert (has_placement st t = true) as Hpl.
  { destruct (has_placement st t) eqn:E; [done|]. by rewrite (has_placement_live st t E) in Hs. }
  set (lf := <[t := mkLife (opt_max (died (life_of st t)) (Some h)) (reborn (life_of st t))]> (life st)).
  assert (∀ t' r, reborn (life_of (with_life st lf) t') = Some r → Hlc_ltb h r = false) as Hlf.
  { intros t' r. unfold life_of. cbn. subst lf. destruct (decide (t' = t)) as [->|Hne].
    - rewrite lookup_insert_eq. cbn. apply (loc_reborn _ _ _ Hl t).
    - rewrite lookup_insert_ne by done. apply (loc_reborn _ _ _ Hl t'). }
  pose proof (local_meta h st rs lf Hl Hlf) as Hl1.
  pose proof (local_hide h _ rs s Hl1) as Hl2.
  assert (roomy 0 (hide_entry (with_life st lf) s)) as Hr0.
  { destruct Hroom as [H1 H2]. pose proof (may_hide_hide (with_life st lf) s (local_wf h _ (ex_intro _ rs Hl1))) as Hm.
    change (may_hide (with_life st lf)) with (may_hide st) in Hm. split; [lia|cbn; lia]. }
  exists (hide_entry (with_life st lf) s). split_and!.
  - eapply local_apply; [|exact Hl2|done]. unfold doc_dispatch. rewrite Hk, Ho. unfold doc_set_field.
    rewrite bool_decide_eq_true_2 by done. unfold doc_set_deleted. rewrite Hpl. unfold note_death. fold lf.
    assert (match reborn (life_of st t) with Some r => Hlc_leb r h | None => true end = true) as ->.
    { destruct (reborn (life_of st t)) as [r|] eqn:E; [|done]. apply Hlc_leb_spec. rewrite <- Hlc_ltb_spec.
      by rewrite (loc_reborn _ _ _ Hl t r E). }
    change (live_slot (with_life st lf) t) with (live_slot st t). by rewrite Hs.
  - apply (hide_lines h (with_life st lf) rs t s Hl1 Hs).
  - split; try done; [by eexists| |].
    + intros n [H1 H2]. pose proof (may_hide_hide (with_life st lf) s (local_wf h _ (ex_intro _ rs Hl1))) as Hm.
      change (may_hide (with_life st lf)) with (may_hide st) in Hm. split; [lia|cbn; lia].
    + intros t' Ht'. by left.
Qed.

(** A move inside the document. *)
Lemma local_move h st o t after e l' :
  local h st → op_hlc o = h → roomy 1 st → op_kind o = KMove t after (ds_path st) → after ≠ Some t →
  find (holds t) (shown_lines st) = Some e → place_after after e (remove_task t (shown_lines st)) = Some l' →
  ∃ st', doc_apply o st = (st', Ok tt) ∧ shown_lines st' = l' ∧ stepped h st st' o.
Proof.
  intros [rs Hl] Ho Hroom Hk Hne He Hp.
  assert (doc_wf st) as Hwf by (eapply local_wf; by exists rs).
  assert (is_Some (live_slot st t)) as [s Hs].
  { eapply live_shown; [exact Hl|]. apply find_some in He as [Hin Ht]. apply existsb_exists. eauto. }
  destruct (find_shown h st rs t s Hl Hs) as (r & Hr & Hrh & Hri & Hf & Hent).
  assert (e = p_entry r) as -> by congruence.
  pose proof (local_hide h st rs s Hl) as Hl1. rewrite <- (hide_lines h st rs t s Hl Hs) in Hp.
  destruct (place_after_spot _ _ _ _ _ _ Hl1 Hp) as [n Hspot].
  destruct (fresh_spot h _ _ after n Hl1 Hspot) as (spot & Hsp & Hat & _).
  assert (∀ i, entry_id (p_entry r) = Some i → live_slot (hide_entry st s) i = None) as Hlive.
  { intros i Hi. assert (i = t) as -> by (unfold p_id in Hri; congruence). by apply live_slot_hidden. }
  pose proof (local_insert h _ _ spot (p_entry r) Hl1 Hlive) as Hl2.
  destruct (stepped_hide h st s o (ex_intro _ rs Hl)) as [_ _ _ _ Hroom1 Hpl1].
  assert (length (entries (hide_entry st s)) = length (entries st)) as Hlen by done.
  assert (∀ m, roomy (S m) st → roomy m (insert_entry (hide_entry st s) spot (p_entry r) h)) as Hroom2.
  { intros m [H1 H2]. split; [|cbn; rewrite length_insert_at; lia].
    pose proof (fr_columns _ _ _ Hl1) as Hc1.
    rewrite (may_hide_rows _ _ (fr_columns _ _ _ Hl2)).
    pose proof (may_hide_hide st s Hwf) as Hm. rewrite (may_hide_rows _ _ Hc1) in Hm.
    unfold insert_at. rewrite List.filter_app, length_app. cbn [List.filter p_hidden].
    assert (p_blank (mkPlacement (p_entry r) false h (spot_parent spot) false) = false) as Hb.
    { apply not_true_iff_false. rewrite p_blank_id. unfold p_id in *. cbn. congruence. }
    rewrite Hb. cbn [orb]. rewrite <- length_app, <- List.filter_app, take_drop. lia. }
  exists (insert_entry (hide_entry st s) spot (p_entry r) h). split_and!.
  - eapply local_apply; [|exact Hl2|by apply Hroom2]. unfold doc_dispatch. rewrite Hk, Ho. unfold doc_move.
    rewrite bool_decide_eq_true_2 by done. cbn [negb]. rewrite bool_decide_eq_false_2 by done.
    destruct (anchor_slot st after h) as [a|err] eqn:Ea.
    2:{ exfalso. apply slot_after_Ok in Hsp as (a & Ha & _).
        destruct (anchor_slot_err st after h err Ea) as (i & -> & Hnil). unfold anchor_slot in Ha.
        change (List.filter (slot_is (hide_entry st s) i) (slots (hide_entry st s))) with (List.filter (slot_is st i) (slots st)) in Ha.
        by rewrite Hnil in Ha. }
    rewrite Hs. assert (is_stale_move st s h = false) as ->.
    { unfold is_stale_move. destruct (stamps st !! s) as [x|] eqn:Ex; [|done].
      pose proof (fresh_stamp_le h st rs s Hl (lookup_lt_Some _ _ _ Hr)) as Hst. unfold slot_stamp in Hst. by rewrite Ex in Hst. }
    rewrite Hent. unfold mbind, ST_bind, try, modify. rewrite Hsp. by rewrite (fresh_rehome h _ _ t Hl2).
  - pose proof (insert_lines h _ _ spot after (p_entry r) n Hl1 Hspot Hat Hlive) as E. congruence.
  - split; try done; [by eexists|].
    intros t' [Ht'|Ht']%has_placement_insert_inv; [by left|left].
    assert (t' = t) as -> by (unfold p_id in Hri; congruence).
    destruct (has_placement st t) eqn:E; [done|]. by rewrite (has_placement_live st t E) in Hs.
Qed.

(** A move to another document. *)
Lemma local_leave h st o t after to :
  local h st → roomy 1 st → op_kind o = KMove t after to → to ≠ ds_path st →
  existsb (holds t) (shown_lines st) = true →
  ∃ st', doc_apply o st = (st', Ok tt) ∧ shown_lines st' = remove_task t (shown_lines st) ∧ stepped h st st' o.
Proof.
  intros [rs Hl] Hroom Hk Hne Hex. destruct (proj2 (live_shown h st rs t Hl) Hex) as [s Hs].
  pose proof (stepped_hide h st s o (ex_intro _ rs Hl)) as Hst. exists (hide_entry st s). split_and!; [| |done].
  - eapply local_apply; [|by eapply local_hide|by apply (sp_room _ _ _ _ Hst)]. unfold doc_dispatch. rewrite Hk. unfold doc_move.
    rewrite bool_decide_eq_false_2 by done. cbn [negb]. by rewrite Hs.
  - by apply (hide_lines h st rs t s Hl Hs).
Qed.

Lemma local_step h st o l' :
  local h st → op_hlc o = h → roomy 1 st → brings st (op_kind o) →
  line_step (ds_path st) (ds_ending st) (op_kind o) (shown_lines st) = Some l' →
  ∃ st', doc_apply o st = (st', Ok tt) ∧ shown_lines st' = l' ∧ stepped h st st' o.
Proof.
  intros Hloc Ho Hroom Hb Hstep. pose proof (local_wf _ _ Hloc) as Hwf. pose proof (roomy_too_many 0 st Hwf Hroom) as Htm.
  destruct (op_kind o) as [t after line|t f v|t es|t after to|p es|after|after|t k] eqn:Hk; cbn in Hstep; try done.
  - destruct Hb as [Hno Htag]. eapply local_new_line; try done.
    + unfold new_line. by rewrite Hk, Hno.
    + intros spot Hs. unfold doc_dispatch. rewrite Hk, Ho. unfold doc_insert. rewrite Htm, Hno.
      destruct (bool_decide (ds_mode st = Tagged) && _) eqn:E.
      * apply andb_true_iff in E as [Em%bool_decide_eq_true Ei]. rewrite (bool_decide_eq_true_2 _ (Htag Em)) in Ei. done.
      * unfold mbind, ST_bind, try, modify. by rewrite Hs.
  - destruct f; try done. destruct v as [[]| | |]; try done. destruct (existsb _ _) eqn:E; [|done]. injection Hstep as <-.
    by eapply local_delete.
  - apply bind_Some in Hstep as (e & He & Hstep). destruct (decide (to = ds_path st)) as [->|Hne].
    + rewrite bool_decide_eq_true_2 in Hstep by done. cbn [negb] in Hstep.
      destruct (bool_decide (after = Some t)) eqn:Ea; [done|]. apply bool_decide_eq_false in Ea. by eapply local_move.
    + rewrite bool_decide_eq_false_2 in Hstep by done. cbn in Hstep. injection Hstep as <-. eapply local_leave; try done.
      apply find_some in He as [Hin Ht]. apply existsb_exists. eauto.
  - eapply local_new_line; try done; [unfold new_line; by rewrite Hk|].
    intros spot Hs. unfold doc_dispatch. rewrite Hk, Ho. unfold doc_blank_insert. rewrite Htm.
    unfold mbind, ST_bind, try, modify. by rewrite Hs.
Qed.

(** Ops ready to run: in stamp order from [h] on, their tasks new and their own, with room for all. *)
Record local_ops (h : Hlc) (st : DocState) (ops : list Op) : Prop := mkLocalOps {
  lo_order : StronglySorted (λ a b, Hlc_ltb b a = false) (h :: map op_hlc ops);
  lo_brings : Forall (λ o, brings st (op_kind o)) ops;
  lo_ids : NoDup (omap added_id ops);
  lo_room : roomy (length ops) st
}.

Lemma brings_later h st st' o k :
  stepped h st st' o → brings st k → (∀ t, added_id o = Some t → ∀ after line, k ≠ KInsert t after line) → brings st' k.
Proof.
  intros [_ _ He Hm _ Hpl] Hb Hne. destruct k as [t after line| | | | | | |]; try done. destruct Hb as [H1 H2]. split.
  - destruct (has_placement st' t) eqn:E; [|done]. destruct (Hpl t E) as [?|Ha]; [congruence|]. by destruct (Hne t Ha after line).
  - by rewrite Hm, He.
Qed.

Lemma local_run h st ops l' :
  local h st → local_ops h st ops →
  line_run (ds_path st) (ds_ending st) (map op_kind ops) (shown_lines st) = Some l' →
  ∃ st' h', apply_all ops st = (st', Ok tt) ∧ shown_lines st' = l' ∧ local h' st'
    ∧ ds_path st' = ds_path st ∧ ds_ending st' = ds_ending st ∧ ds_mode st' = ds_mode st.
Proof.
  revert h st. induction ops as [|o ops IH]; intros h st Hloc [Hord Hb Hid Hroom] Hrun; cbn in Hrun.
  - injection Hrun as <-. by exists st, h.
  - apply bind_Some in Hrun as (l1 & Hstep & Hrun). cbn [map] in Hord. apply StronglySorted_inv in Hord as [Hord Hall].
    apply Forall_cons in Hall as [Ho _]. apply Forall_cons in Hb as [Hb Hbs]. cbn [length] in Hroom.
    assert (roomy 1 st) as Hroom1 by (destruct Hroom; split; lia).
    destruct (local_step (op_hlc o) st o l1 (local_later h _ st Ho Hloc) eq_refl Hroom1 Hb Hstep) as (st1 & Ha & Hl1 & Hsp).
    rewrite apply_all_cons, Ha.
    destruct (IH (op_hlc o) st1) as (st' & h' & H1 & H2 & H3 & H4 & H5 & H6).
    + apply (sp_local _ _ _ _ Hsp).
    + split; [done| | |by apply (sp_room _ _ _ _ Hsp)].
      * apply Forall_forall. intros o' Ho'. rewrite Forall_forall in Hbs. eapply brings_later; [exact Hsp|by apply Hbs|].
        intros t Ht after line Hk. eapply (NoDup_omap_ne _ _ _ Hid); [exact Ht|exact Ho'|]. unfold added_id. by rewrite Hk.
      * cbn in Hid. destruct (added_id o); [by apply NoDup_cons in Hid as [_ ?]|done].
    + rewrite (sp_path _ _ _ _ Hsp), (sp_ending _ _ _ _ Hsp), Hl1. exact Hrun.
    + exists st', h'. rewrite <- (sp_path _ _ _ _ Hsp), <- (sp_ending _ _ _ _ Hsp), <- (sp_mode _ _ _ _ Hsp). done.
Qed.

(** A document just opened is local at any stamp from the zero one on. *)
Lemma open_local path f ids m st :
  from_file path f ids m = Ok st → NoDup (omap id ids) → local unplaced st.
Proof.
  intros Ho Hn. pose proof (doc_wf_open _ _ _ _ _ Ho Hn) as Hwf. unfold from_file in Ho.
  destruct (_ <? _)%N; [done|]. destruct (entries_of 0 (lines f) ids) as [es|] eqn:E; [|done]. injection Ho as <-.
  destruct Hwf as (Hv & rs & Hc & Hok). exists rs.
  assert (∀ r, r ∈ rs → p_stamp r = unplaced ∧ p_hidden r = false ∧ p_eraser r = false) as Hr.
  { assert (∀ {A} (g : Placement → A) v n r, replicate n v = g <$> rs → r ∈ rs → g r = v) as Hrep.
    { intros A g v n r Heq Hin. assert (g r ∈ replicate n v) as Hg by (rewrite Heq; by apply list_elem_of_fmap_2).
      by apply elem_of_replicate in Hg as [-> _]. }
    intros r Hin. pose proof Hc as [_ Hh Hst _ He]. split_and!; by eapply Hrep. }
  split; [split; try done| |done].
  - intros r r' i H H' _ _ _. destruct (Hr r H) as [-> _], (Hr r' H') as [-> _]. apply Hlc_ltb_irrefl.
  - apply Forall_forall. intros r H. destruct (Hr r H) as [-> _]. apply Hlc_ltb_irrefl.
  - apply Forall_forall. intros r H. by destruct (Hr r H) as (_ & _ & ?).
Qed.

(** ** Claims *)

(** C7. The owner's view: while no peer removed a blank, a run of inserts, blanks, deletes and moves,
    each no older than what the document holds, does to the lines shown exactly what the same edits do
    to a plain list, every op is accepted, and the file is written from that list. *)
Theorem local_run_refines h st ops l' :
  local h st → local_ops h st ops →
  line_run (ds_path st) (ds_ending st) (map op_kind ops) (visible_entries st) = Some l' →
  ∃ st' h', apply_all ops st = (st', Ok tt) ∧ visible_entries st' = l' ∧ local h' st'.
Proof. intros Hl Ho Hr. destruct (local_run h st ops l' Hl Ho Hr) as (st' & h' & H1 & H2 & H3 & _). eauto. Qed.

Definition local_sample : list Op :=
  [op_at 10 1 (KInsert 11 (Some 2%N) (str "new")); op_at 10 1 (KBlankInsert (Some 1%N));
   op_at 20 1 (KMove 1 (Some 11%N) todo_path); op_at 30 1 (KSetField 2 FDeleted (FVBool true))].

Lemma local_run_refines_witness : ∃ st st' h',
  apply_all local_sample st = (st', Ok tt) ∧ local h' st'
  ∧ line_run todo_path Lf (map op_kind local_sample) (visible_entries st) = Some (visible_entries st')
  ∧ map entry_id (visible_entries st') = [None; Some 11%N; Some 1%N].
Proof.
  destruct (from_file todo_path (parse_file (str "one" ++ [x0a] ++ str "two" ++ [x0a])) [Some 1%N; Some 2%N] Sidecar) as [st|e] eqn:E;
    [|vm_compute in E; discriminate E].
  assert (local unplaced st) as Hl.
  { eapply open_local; [exact E|]. apply (bool_decide_eq_true_1 _). vm_compute. reflexivity. }
  assert (local_ops unplaced st local_sample) as Ho.
  { split.
    - repeat constructor.
    - vm_compute in E. injection E as <-. repeat constructor; vm_compute; done.
    - apply (bool_decide_eq_true_1 _). vm_compute. reflexivity.
    - vm_compute in E. injection E as <-. split; [apply Nat.leb_le; vm_compute; reflexivity|vm_compute; discriminate]. }
  destruct (line_run (ds_path st) (ds_ending st) (map op_kind local_sample) (visible_entries st)) as [l'|] eqn:Er.
  2:{ exfalso. vm_compute in E. injection E as <-. vm_compute in Er. discriminate Er. }
  destruct (local_run_refines unplaced st local_sample l' Hl Ho Er) as (st' & h' & H1 & H2 & H3).
  exists st, st', h'. rewrite H2. split_and!; [exact H1|exact H3| |].
  - rewrite <- Er. f_equal; vm_compute in E; injection E as <-; reflexivity.
  - clear Hl Ho H1 H2 H3. vm_compute in E. injection E as <-. vm_compute in Er. injection Er as <-. reflexivity.
Defined.
