(* ===== verification/DocCausal.v ===== *)
(** New lines that build on each other: whatever the order they are applied in, as long as each comes
    after the line it is anchored to and the ops of one commit stay in their order, the document ends the
    same. *)
From S2P Require Import Prelude.
From S2P Require Import Utf8.
From S2P Require Import Types.
From S2P Require Import Ulid.
From S2P Require Import Scanner.
From S2P Require Import Parser.
From S2P Require Import Format.
From S2P Require Import TodoFile.
From S2P Require Import Edit.
From S2P Require Import Myers.
From S2P Require Import Diff.
From S2P Require Import Hlc.
From S2P Require Import TagText.
From S2P Require Import TextHistory.
From S2P Require Import Ops.
From S2P Require Import DocState.
From S2P Require Import DocRows.
From S2P Require Import DocInvariant.
From S2P Require Import DocConverge.
From S2P Require Import DocErrors.
From S2P Require Import DocFresh.
From S2P Require Import DocLocal.

(** ** Causal order *)

(** The task an op is placed after. *)
Definition anchor_of (o : Op) : option TaskId :=
  match op_kind o with
  | KInsert _ after _ | KMove _ after _ | KBlankInsert after | KBlankRemove after => after
  | _ => None
  end.

(** The anchor is among the known tasks. *)
Definition anchored (known : TaskId → Prop) (o : Op) : Prop :=
  match anchor_of o with None => True | Some t => known t end.

Definition learn (known : TaskId → Prop) (o : Op) : TaskId → Prop := λ t, known t ∨ added_id o = Some t.

(** Each op comes after the one that adds its anchor. *)
Fixpoint ordered (known : TaskId → Prop) (ops : list Op) : Prop :=
  match ops with
  | [] => True
  | o :: ops' => anchored known o ∧ ordered (learn known o) ops'
  end.

Definition placed (st : DocState) : TaskId → Prop := λ t, has_placement st t = true.

(** The ops of a commit, which share its stamp. *)
Definition of_stamp (h : Hlc) (ops : list Op) : list Op := List.filter (λ o, bool_decide (op_hlc o = h)) ops.

(** Each commit's ops come in one order. *)
Definition same_commits (ops ops' : list Op) : Prop := ∀ h, of_stamp h ops = of_stamp h ops'.

(** Ops that each add a new line or a blank, with their own tasks, lines the document takes, and room for
    them all. *)
Record causal (st : DocState) (ops : list Op) : Prop := mkCausal {
  cz_wf : doc_wf st;
  cz_new : Forall (λ o, is_Some (new_line st o) ∧ brings st (op_kind o)) ops;
  cz_ids : NoDup (omap added_id ops);
  cz_ghosts : may_hide st + length ops ≤ MAX_GHOSTS_PER_FILE;
  cz_lines : (N.of_nat (length (entries st) + length ops) <= MAX_LINES_PER_FILE)%N
}.

(** ** One step *)

Lemma anchored_mono (known known' : TaskId → Prop) o : (∀ t, known t → known' t) → anchored known o → anchored known' o.
Proof. unfold anchored. destruct (anchor_of o); auto. Qed.

Lemma ordered_ext (known known' : TaskId → Prop) ops : (∀ t, known t ↔ known' t) → ordered known ops → ordered known' ops.
Proof.
  revert known known'. induction ops as [|o ops IH]; intros known known' H; cbn; [done|]. intros [H1 H2]. split.
  - eapply anchored_mono; [|exact H1]. intros t. apply H.
  - eapply IH; [|exact H2]. intros t. unfold learn. by rewrite H.
Qed.

Lemma causal_perm st ops ops' : ops ≡ₚ ops' → causal st ops → causal st ops'.
Proof. intros H [H1 H2 H3 H4 H5]. split; rewrite <- ?H; done. Qed.

Lemma causal_sub st ops ops' : sublist ops' ops → causal st ops → causal st ops'.
Proof.
  intros H [H1 H2 H3 H4 H5]. pose proof (sublist_length _ _ H). split; [done|by eapply sublist_Forall'| |lia|lia].
  eapply sublist_NoDup; [exact H3|by apply omap_sublist].
Qed.

(** A placed anchor is found. *)
Lemma placed_slot_after st after hlc :
  (∀ t, after = Some t → placed st t) → ∃ spot, slot_after st after hlc = Ok spot.
Proof.
  intros H. destruct (slot_after st after hlc) as [spot|e] eqn:E; [by exists spot|]. exfalso.
  apply slot_after_err in E. destruct (anchor_slot_err _ _ _ _ E) as (t & -> & Hnil).
  specialize (H t eq_refl). apply existsb_exists in H as (en & Hin & Ht). apply list_elem_of_In, list_elem_of_lookup in Hin as [s Hs].
  assert (s ∈ List.filter (slot_is st t) (slots st)) as Hin.
  { apply elem_of_filter. split; [apply slot_is_spec; unfold slot_id; rewrite Hs; by apply bool_decide_eq_true in Ht|].
    apply elem_of_slots. by eapply lookup_lt_Some. }
  rewrite Hnil in Hin. by apply elem_of_nil in Hin.
Qed.

Lemma new_line_anchor st o e after : new_line st o = Some (e, after) → anchor_of o = after.
Proof. unfold new_line, anchor_of. destruct (op_kind o); try done; [destruct (has_placement _ _); [done|]|]; by intros [= _ <-]. Qed.

Lemma causal_accepts st o ops : causal st (o :: ops) → anchored (placed st) o → snd (doc_apply o st) = Ok tt.
Proof.
  intros [Hwf Hnew _ Hg Hl] Ha. apply Forall_cons in Hnew as [[[[e after] Hn] Hb] _]. cbn [length] in Hg, Hl.
  destruct (placed_slot_after st after (op_hlc o)) as [spot Hs].
  { intros t ->. unfold anchored in Ha. by rewrite (new_line_anchor _ _ _ _ Hn) in Ha. }
  assert (too_many st = false) as Htm by (apply (too_many_room st 1); [done| |lia]; lia).
  assert (doc_dispatch o st = (insert_entry st spot e (op_hlc o), Ok tt)) as Hd.
  { unfold doc_dispatch. unfold new_line in Hn. destruct (op_kind o) as [t a l| | | | |a| |]; try done.
    - destruct Hb as [Hno Htag]. rewrite Hno in Hn. injection Hn as <- <-. unfold doc_insert. rewrite Htm, Hno.
      destruct (bool_decide (ds_mode st = Tagged) && _) eqn:E.
      + breflect. by specialize (Htag H).
      + unfold mbind, ST_bind, try, modify. by rewrite Hs.
    - injection Hn as <- <-. unfold doc_blank_insert. rewrite Htm. unfold mbind, ST_bind, try, modify. by rewrite Hs. }
  by rewrite (apply_new_line st o e after spot Hwf Hn Hd ltac:(lia)).
Qed.

Lemma has_placement_new st spot e h t :
  has_placement (insert_entry st spot e h) t = true ↔ has_placement st t = true ∨ entry_id e = Some t.
Proof.
  split; [apply has_placement_insert_inv|]. unfold has_placement. cbn. unfold insert_at. rewrite existsb_app. cbn.
  rewrite <- (take_drop (spot_at spot) (entries st)) at 1. rewrite existsb_app, !orb_true_iff, bool_decide_eq_true. tauto.
Qed.

Lemma causal_step st o ops :
  causal st (o :: ops) → anchored (placed st) o →
  ∃ st', doc_apply o st = (st', Ok tt) ∧ causal st' ops ∧ ∀ t, placed st' t ↔ learn (placed st) o t.
Proof.
  intros Hc Ha. pose proof (causal_accepts st o ops Hc Ha) as Hok. destruct Hc as [Hwf Hnew Hid Hg Hl]. cbn [length] in Hg, Hl.
  apply Forall_cons in Hnew as [[[[e after] Hn] _] Hnew].
  destruct (apply_accepted st o e after Hwf ltac:(lia) Hn Hok) as (spot & Hs & Hd). destruct (new_line_id _ _ _ _ Hn) as [Hie Hno].
  pose proof (blanks_apart_settle (insert_entry st spot e (op_hlc o))) as Hap.
  set (st' := settle_erasers (insert_entry st spot e (op_hlc o))) in *.
  assert (∀ t, placed st' t ↔ learn (placed st) o t) as Hpl.
  { intros t. unfold placed, learn, has_placement. rewrite (ba_entries _ _ Hap), <- Hie. apply has_placement_new. }
  assert (ds_ending st' = ds_ending st ∧ ds_mode st' = ds_mode st) as [He Hm] by (pose proof (ba_file _ _ Hap) as Hf; by injection Hf).
  exists st'. split_and!; [done| |done]. split.
  - apply doc_wf_settle. by eapply doc_wf_new_line.
  - apply Forall_forall. intros o' Ho'. rewrite Forall_forall in Hnew. destruct (Hnew o' Ho') as [[[e' a'] Hn'] Hb].
    assert (∀ t, added_id o' = Some t → has_placement st' t = false) as Hno'.
    { intros t Ht. apply not_true_iff_false. intros [Hp|Hp]%Hpl.
      - apply new_line_id in Hn' as [_ Hn']. unfold placed in Hp. by rewrite (Hn' t Ht) in Hp.
      - by apply (NoDup_omap_ne _ _ _ Hid t o' Hp Ho'). }
    split.
    + unfold new_line in *. unfold added_id in Hno'. destruct (op_kind o'); try done. rewrite (Hno' _ eq_refl). by eexists.
    + unfold brings in *. unfold added_id in Hno'. destruct (op_kind o'); try done. rewrite He, Hm. destruct Hb as [_ Hb]. split; [by apply Hno'|done].
  - cbn in Hid. destruct (added_id o); [by apply NoDup_cons in Hid as [_ ?]|done].
  - rewrite (may_hide_apart _ _ Hap). pose proof (may_hide_insert st spot e (op_hlc o) Hwf). lia.
  - rewrite (ba_entries _ _ Hap). cbn. rewrite length_insert_at. lia.
Qed.

(** ** Runs *)

Fixpoint learned (known : TaskId → Prop) (ops : list Op) : TaskId → Prop :=
  match ops with [] => known | o :: ops' => learned (learn known o) ops' end.

Lemma learned_spec known ops t : learned known ops t ↔ known t ∨ ∃ o, o ∈ ops ∧ added_id o = Some t.
Proof.
  revert known. induction ops as [|o ops IH]; intros known; cbn; [set_solver|]. rewrite IH. unfold learn. set_solver.
Qed.

Lemma causal_run st done more :
  causal st (done ++ more) → ordered (placed st) done →
  ∃ st', apply_all done st = (st', Ok tt) ∧ causal st' more ∧ ∀ t, placed st' t ↔ learned (placed st) done t.
Proof.
  revert st. induction done as [|o ops IH]; intros st Hc Ho; cbn [app] in Hc; [by exists st|]. destruct Ho as [Ha Ho].
  destruct (causal_step st o (ops ++ more) Hc Ha) as (st1 & E & Hc1 & Hp1). rewrite apply_all_cons, E.
  destruct (IH st1 Hc1) as (st' & E' & Hc' & Hp'); [by eapply ordered_ext; [|exact Ho]; intros t; rewrite Hp1|].
  exists st'. split_and!; [done|done|]. intros t. rewrite Hp'. cbn [learned]. rewrite !learned_spec. by rewrite Hp1.
Qed.

(** Two ops of two commits that could both come first commute. *)
Lemma causal_swap st a b ops :
  op_hlc a ≠ op_hlc b → causal st (a :: b :: ops) → anchored (placed st) a → anchored (placed st) b →
  apply_all (a :: b :: ops) st = apply_all (b :: a :: ops) st.
Proof.
  intros Hab Hc Ha Hb. assert (causal st (b :: a :: ops)) as Hc' by (eapply causal_perm; [|exact Hc]; constructor).
  pose proof (causal_accepts st a _ Hc Ha) as OkA. pose proof (causal_accepts st b _ Hc' Hb) as OkB.
  assert (fits st [a; b]) as Hf.
  { assert (causal st [a; b]) as [H1 H2 H3 H4 H5] by (eapply causal_sub; [|exact Hc]; do 2 apply sublist_skip; apply sublist_nil_l).
    split; try done; [|cbn; repeat constructor; set_solver]. apply Forall_cons in H2 as [[? _] [[? _] _]%Forall_cons]. by repeat constructor. }
  pose proof (fit_accepted _ _ Hf) as Hacc. apply Forall_cons in Hacc as [[[[eA afterA] HA] _] [[[[eB afterB] HB] _] _]%Forall_cons].
  destruct (fits_pair st a b eA eB afterA afterB Hf HA HB) as (stA & stB & st2 & E1 & E2 & E3 & E4 & _).
  by rewrite !apply_all_cons, E1, E2, !apply_all_cons, E3, E4.
Qed.

(** An op that could come first may be brought to the front, past ops of other commits. *)
Lemma causal_front st pre o post :
  Forall (λ x, op_hlc x ≠ op_hlc o) pre → causal st (pre ++ o :: post) → ordered (placed st) pre → anchored (placed st) o →
  apply_all (pre ++ o :: post) st = apply_all (o :: pre ++ post) st.
Proof.
  intros Hne. revert st. induction Hne as [|p pre Hpo Hne IH]; intros st Hc Ho Ha; [done|]. destruct Ho as [Hp Ho]. cbn [app] in Hc |- *.
  destruct (causal_step st p _ Hc Hp) as (st1 & E1 & Hc1 & Hp1). rewrite apply_all_cons, E1.
  rewrite IH; [|done|by eapply ordered_ext; [|exact Ho]; intros t; rewrite Hp1|].
  2:{ eapply anchored_mono; [|exact Ha]. intros t Ht. apply Hp1. by left. }
  rewrite <- causal_swap; [by rewrite (apply_all_cons p), E1|done| |done|done].
  eapply causal_perm; [|exact Hc]. by rewrite <- Permutation_middle, Permutation_swap.
Qed.

Lemma ordered_app known l1 l2 : ordered known (l1 ++ l2) ↔ ordered known l1 ∧ ordered (learned known l1) l2.
Proof. revert known. induction l1 as [|o l1 IH]; intros known; cbn; [tauto|]. rewrite IH. tauto. Qed.

Lemma ordered_mono (known known' : TaskId → Prop) ops : (∀ t, known t → known' t) → ordered known ops → ordered known' ops.
Proof.
  revert known known'. induction ops as [|o ops IH]; intros known known' H; cbn; [done|]. intros [H1 H2]. split.
  - by eapply anchored_mono.
  - eapply IH; [|exact H2]. unfold learn. naive_solver.
Qed.

Lemma of_stamp_app h l l' : of_stamp h (l ++ l') = of_stamp h l ++ of_stamp h l'.
Proof. apply List.filter_app. Qed.

Lemma of_stamp_elem h l o : o ∈ of_stamp h l ↔ op_hlc o = h ∧ o ∈ l.
Proof. unfold of_stamp. by rewrite elem_of_filter, bool_decide_eq_true. Qed.

Lemma of_stamp_own o l : of_stamp (op_hlc o) (o :: l) = o :: of_stamp (op_hlc o) l.
Proof. unfold of_stamp. cbn. by rewrite bool_decide_eq_true_2. Qed.

(** An op that comes first of its commit in one order has none of its commit before it in the other. *)
Lemma first_of_commit ops o rest : same_commits ops (o :: rest) → NoDup (op_id <$> ops) →
  ∀ pre post, ops = pre ++ o :: post → Forall (λ x, op_hlc x ≠ op_hlc o) pre ∧ same_commits (pre ++ post) rest.
Proof.
  intros Hs Hd pre post ->.
  assert (Forall (λ x, op_hlc x ≠ op_hlc o) pre) as Hpre.
  { apply Forall_forall. intros x Hx Hst. specialize (Hs (op_hlc o)). rewrite of_stamp_own, of_stamp_app in Hs.
    destruct (of_stamp (op_hlc o) pre) as [|y l] eqn:E; [eapply elem_of_nil; rewrite <- E; by apply of_stamp_elem|].
    cbn in Hs. injection Hs as -> _. assert (o ∈ pre) as Ho by (eapply of_stamp_elem; rewrite E; by left).
    rewrite fmap_app in Hd. apply NoDup_app in Hd as (_ & Hd & _). apply (Hd (op_id o)); [by apply list_elem_of_fmap_2|by left]. }
  split; [done|]. intros h. specialize (Hs h). rewrite of_stamp_app in *. destruct (decide (op_hlc o = h)) as [<-|Hne].
  - rewrite !of_stamp_own in Hs. assert (of_stamp (op_hlc o) pre = []) as E.
    { destruct (of_stamp (op_hlc o) pre) as [|y l] eqn:E; [done|]. exfalso. assert (y ∈ of_stamp (op_hlc o) pre) as Hy by (rewrite E; by left).
      apply of_stamp_elem in Hy as [Hy1 Hy2]. rewrite Forall_forall in Hpre. by apply (Hpre y). }
    rewrite E in *. cbn in *. by injection Hs.
  - assert (∀ l, of_stamp h (o :: l) = of_stamp h l) as Hskip by (intros l; unfold of_stamp; cbn; by rewrite bool_decide_eq_false_2).
    by rewrite !Hskip in Hs.
Qed.

Lemma causal_orders st ops ops' :
  ops ≡ₚ ops' → same_commits ops ops' → NoDup (op_id <$> ops) → causal st ops → ordered (placed st) ops → ordered (placed st) ops' → apply_all ops st = apply_all ops' st.
Proof.
  revert st ops. induction ops' as [|o ops' IH]; intros st ops Hp Hsc Hid Hc Ho Ho'.
  { by apply Permutation_nil_r in Hp as ->. }
  destruct Ho' as [Ha Ho']. assert (o ∈ ops) as (pre & post & ->)%list_elem_of_split by (rewrite Hp; by left).
  destruct (first_of_commit _ _ _ Hsc Hid pre post eq_refl) as [Hne Hsc'].
  apply ordered_app in Ho as [Hpre Hpost]. rewrite causal_front by done.
  assert (causal st (o :: pre ++ post)) as Hc' by (eapply causal_perm; [|exact Hc]; by rewrite <- Permutation_middle).
  destruct (causal_step st o _ Hc' Ha) as (st1 & E & Hc1 & Hp1). rewrite !apply_all_cons, E. apply IH; [|done| |done| |].
  - rewrite <- Permutation_middle in Hp. by apply Permutation_cons_inv in Hp.
  - rewrite fmap_app in Hid |- *. eapply sublist_NoDup; [exact Hid|]. apply sublist_app; [done|]. cbn. by apply sublist_cons.
  - eapply ordered_ext; [intros t; symmetry; apply Hp1|]. apply ordered_app. split.
    + eapply ordered_mono; [|exact Hpre]. intros t Ht. by left.
    + destruct Hpost as [_ Hpost]. eapply ordered_ext; [|exact Hpost]. intros t. unfold learn. rewrite !learned_spec. tauto.
  - by eapply ordered_ext; [intros t; symmetry; apply Hp1|].
Qed.

(** ** Claims *)

(** C6. New lines and blanks that build on each other: every order in which each comes after the line it
    is anchored to, and the ops of one commit, which share its stamp, after each other as they were made,
    is accepted whole, and all such orders give the same document. The ops are new to the document, no two
    of one id or of one task, and there is room for them. *)
Theorem causal_orders_converge st ops ops' :
  causal st ops → NoDup (op_id <$> ops) → ops ≡ₚ ops' → same_commits ops ops' → ordered (placed st) ops → ordered (placed st) ops' →
  ∃ st', apply_all ops st = (st', Ok tt) ∧ apply_all ops' st = (st', Ok tt).
Proof.
  intros Hc Hid Hp Hsc Ho Ho'. assert (causal st (ops ++ [])) as Hc' by (by rewrite app_nil_r).
  destruct (causal_run st ops [] Hc' Ho) as (st' & E & _). exists st'. split; [done|]. by rewrite <- (causal_orders st ops ops').
Qed.

(** Two devices: one adds a line and, in one commit, two lines below it; the other a blank below the first. *)
Definition causal_sample : list Op :=
  [op_at 10 1 (KInsert 11 (Some 1%N) (str "first")); mkOp 21 (hlc_at 20 2) (PUser 2) todo_path (KInsert 12 (Some 11%N) (str "under it"));
   mkOp 22 (hlc_at 20 2) (PUser 2) todo_path (KInsert 13 (Some 11%N) (str "and above that"));
   op_at 30 3 (KBlankInsert (Some 11%N))].
Definition causal_sample' : list Op :=
  [op_at 10 1 (KInsert 11 (Some 1%N) (str "first")); op_at 30 3 (KBlankInsert (Some 11%N));
   mkOp 21 (hlc_at 20 2) (PUser 2) todo_path (KInsert 12 (Some 11%N) (str "under it"));
   mkOp 22 (hlc_at 20 2) (PUser 2) todo_path (KInsert 13 (Some 11%N) (str "and above that"))].

Lemma causal_sample_ready st : doc_of [str "one"] = Some st →
  causal st causal_sample ∧ ordered (placed st) causal_sample ∧ ordered (placed st) causal_sample'.
Proof.
  intros E. assert (doc_wf st) as Hwf.
  { unfold doc_of in E. destruct (from_file _ _ _ _) as [st'|e] eqn:Ef in E; [|done]. injection E as ->.
    eapply doc_wf_open; [exact Ef|]. apply (bool_decide_eq_true_1 _). vm_compute. reflexivity. }
  split; [split; [exact Hwf|..]; clear Hwf; vm_compute in E; injection E as <-|].
  - repeat constructor; vm_compute; eauto; done.
  - apply (bool_decide_eq_true_1 _). vm_compute. reflexivity.
  - apply Nat.leb_le. vm_compute. reflexivity.
  - vm_compute. discriminate.
  - assert (placed st 1%N) as H1 by (clear Hwf; vm_compute in E; injection E as <-; vm_compute; reflexivity).
    unfold causal_sample, causal_sample', ordered, anchored, learn, anchor_of, added_id, op_at. cbn [op_kind]. split_and!; tauto.
Qed.

(** Two orders' commits, compared at the stamps there are. *)
Lemma same_commits_at ops ops' :
  ops ≡ₚ ops' → Forall (λ o, of_stamp (op_hlc o) ops = of_stamp (op_hlc o) ops') ops → same_commits ops ops'.
Proof.
  intros Hp Hall h. destruct (of_stamp h ops) as [|o l] eqn:E.
  - destruct (of_stamp h ops') as [|o l] eqn:E'; [done|]. exfalso. assert (o ∈ of_stamp h ops') as [Hh Ho]%of_stamp_elem by (rewrite E'; by left).
    rewrite <- Hp in Ho. eapply elem_of_nil. rewrite <- E. by apply of_stamp_elem.
  - assert (o ∈ of_stamp h ops) as [<- Ho]%of_stamp_elem by (rewrite E; by left). rewrite <- E.
    rewrite Forall_forall in Hall. by apply Hall.
Qed.

Lemma causal_orders_converge_witness :
  ∃ st st', doc_of [str "one"] = Some st ∧ apply_all causal_sample st = (st', Ok tt) ∧ apply_all causal_sample' st = (st', Ok tt).
Proof.
  destruct (doc_of [str "one"]) as [st|] eqn:E; [|vm_compute in E; discriminate E].
  destruct (causal_sample_ready st E) as (Hc & Ho & Ho').
  assert (causal_sample ≡ₚ causal_sample') as Hp by (unfold causal_sample, causal_sample'; solve_Permutation).
  destruct (causal_orders_converge st causal_sample causal_sample' Hc) as (st' & H1 & H2); [|done| |done|done|].
  - apply (bool_decide_eq_true_1 _). vm_compute. reflexivity.
  - apply same_commits_at; [done|]. repeat constructor.
  - exists st, st'. by split_and!.
Defined.
