(* ===== verification/DocView.v ===== *)
(** Reading the document through its lines: what [entry_at], [index_of], [task_before] and the rest
    answer, in terms of the list of entries shown. *)
From S2P Require Import Prelude.
From S2P Require Import Types.
From S2P Require Import TodoFile.
From S2P Require Import Edit.
From S2P Require Import Hlc.
From S2P Require Import Ops.
From S2P Require Import DocState.
From S2P Require Import DocRows.
From S2P Require Import DocInvariant.
From S2P Require Import DocConverge.
From S2P Require Import DocErrors.
From S2P Require Import DocFresh.
From S2P Require Import DocLocal.

(** The last task of a list of lines. *)
Definition last_task (l : list Entry) : option TaskId := find_map entry_id (reverse l).

Definition blanks (l : list Entry) : Prop := Forall (λ e, entry_id e = None) l.

(** Empty, or its last line is a task. *)
Definition ends_in_task (l : list Entry) : Prop :=
  match last l with None => True | Some e => is_Some (entry_id e) end.

(** No task twice. *)
Definition ids_once (l : list Entry) : Prop := NoDup (omap entry_id l).

(** ** The document's own queries *)

Lemma visible_in_range st : doc_wf st → Forall (λ s, s < length (entries st)) (visible st).
Proof. intros (Hv & rs & Hc & _). by apply (line_ids_rows st rs). Qed.

Lemma omap_lookup_all {A B} (f : A → option B) (l : list A) i :
  Forall (λ x, is_Some (f x)) l → omap f l !! i = (x ← l !! i; f x).
Proof.
  intros H. revert i. induction H as [|x l [y Hy] _ IH]; intros i; [done|]. cbn. rewrite Hy.
  destruct i as [|i]; cbn; [by rewrite Hy|apply IH].
Qed.

Lemma visible_some st : doc_wf st → Forall (λ s, is_Some (entries st !! s)) (visible st).
Proof. intros H. eapply Forall_impl; [by apply visible_in_range|]. intros s Hs. by apply lookup_lt_is_Some. Qed.

Lemma entry_at_lines st i : doc_wf st → entry_at st i = visible_entries st !! i.
Proof. intros H. unfold entry_at, visible_entries. by rewrite omap_lookup_all by (by apply visible_some). Qed.

Lemma visible_length st : doc_wf st → length (visible_entries st) = doc_len st.
Proof.
  intros H. pose proof (visible_some _ H) as Hs. unfold visible_entries, doc_len. clear H.
  induction Hs as [|s l [e He] _ IH]; [done|]. cbn. rewrite He. cbn. by rewrite IH.
Qed.

Lemma visible_fmap st : doc_wf st → entry_id <$> visible_entries st = slot_id st <$> visible st.
Proof.
  intros H. pose proof (visible_some _ H) as Hs. unfold visible_entries, slot_id. clear H.
  induction Hs as [|s l [e He] _ IH]; [done|]. cbn. rewrite He. cbn. by rewrite IH.
Qed.

Lemma find_map_fmap {A B C} (f : B → option C) (g : A → B) (l : list A) : find_map f (g <$> l) = find_map (λ x, f (g x)) l.
Proof. induction l as [|x l IH]; [done|]. cbn. by rewrite IH. Qed.

Lemma position_fmap {A B} (p : B → bool) (g : A → B) (l : list A) : position p (g <$> l) = position (λ x, p (g x)) l.
Proof. induction l as [|x l IH]; [done|]. cbn. by rewrite IH. Qed.

Lemma task_before_lines st i : doc_wf st → task_before st i = last_task (take i (visible_entries st)).
Proof.
  intros H. unfold task_before, last_task.
  assert (∀ l, find_map entry_id l = find_map id (entry_id <$> l)) as He by (intros l; by rewrite find_map_fmap).
  assert (∀ l, find_map (slot_id st) l = find_map id (slot_id st <$> l)) as Hs by (intros l; by rewrite find_map_fmap).
  rewrite He, Hs, !fmap_reverse, !fmap_take, (visible_fmap _ H), <- !fmap_take. do 3 f_equal.
  destruct (decide (i ≤ length (visible st))); [by rewrite Nat.min_l by lia|].
  rewrite Nat.min_r, firstn_all, take_ge by lia. done.
Qed.

Lemma index_of_lines st t : doc_wf st → index_of st t = position (holds t) (visible_entries st).
Proof.
  intros H. transitivity (position (λ o, bool_decide (o = Some t)) (slot_id st <$> visible st)); [by rewrite position_fmap|].
  by rewrite <- (visible_fmap _ H), position_fmap.
Qed.

Lemma last_task_all st : doc_wf st → task_before st (doc_len st) = last_task (visible_entries st).
Proof. intros H. rewrite (task_before_lines _ _ H), <- (visible_length _ H). by rewrite firstn_all. Qed.

(** ** Lists of lines *)

Lemma last_task_app l1 l2 : last_task (l1 ++ l2) = match last_task l2 with Some t => Some t | None => last_task l1 end.
Proof.
  unfold last_task. rewrite reverse_app. induction (reverse l2) as [|e l IH]; [done|]. cbn. by destruct (entry_id e).
Qed.

Lemma last_task_snoc l e : last_task (l ++ [e]) = match entry_id e with Some t => Some t | None => last_task l end.
Proof. rewrite last_task_app. unfold last_task at 1. cbn. by destruct (entry_id e). Qed.

Lemma last_task_blanks l : blanks l → last_task l = None.
Proof. induction l as [|e l IH] using rev_ind; [done|]. intros [H1 H2]%Forall_app. rewrite last_task_snoc. inversion_clear H2. rewrite H. by apply IH. Qed.

Lemma blanks_no_task l : last_task l = None → blanks l.
Proof.
  induction l as [|e l IH] using rev_ind; [constructor|]. rewrite last_task_snoc. destruct (entry_id e) eqn:E; [done|].
  intros H. apply Forall_app. split; [by apply IH|by constructor].
Qed.

(** The lines up to the last task, and the blanks after it. *)
Lemma split_last l : ∃ pre post, l = pre ++ post ∧ ends_in_task pre ∧ blanks post ∧ last_task l = last_task pre.
Proof.
  induction l as [|e l (pre & post & -> & H1 & H2 & H3)] using rev_ind; [by exists [], []; split_and!; try constructor|].
  destruct (entry_id e) as [t|] eqn:E.
  - exists ((pre ++ post) ++ [e]), []. rewrite app_nil_r. split_and!; [done| |constructor|done].
    unfold ends_in_task. rewrite last_snoc. by exists t.
  - exists pre, (post ++ [e]). rewrite app_assoc. split_and!; [done|done| |by rewrite last_task_snoc, E].
    apply Forall_app. split; [done|by constructor].
Qed.

Lemma ends_in_task_last pre : ends_in_task pre →
  match last_task pre with
  | None => pre = []
  | Some t => ∃ pre' e, pre = pre' ++ [e] ∧ entry_id e = Some t
  end.
Proof.
  destruct pre as [|e pre _] using rev_ind; [done|]. unfold ends_in_task. rewrite last_snoc, last_task_snoc.
  intros [t Ht]. rewrite Ht. by exists pre, e.
Qed.

Lemma holds_spec t e : holds t e = true ↔ entry_id e = Some t.
Proof. apply bool_decide_eq_true. Qed.

Lemma ids_once_app l1 l2 : ids_once (l1 ++ l2) → ids_once l1 ∧ ids_once l2
  ∧ ∀ e e' t, e ∈ l1 → e' ∈ l2 → entry_id e = Some t → entry_id e' = Some t → False.
Proof.
  unfold ids_once. rewrite omap_app, NoDup_app. intros (H1 & H2 & H3). split_and!; [done|done|].
  intros e e' t He He' Ht Ht'. apply (H2 t); apply list_elem_of_omap; eauto.
Qed.

Lemma others_not t l1 e l2 : ids_once (l1 ++ e :: l2) → entry_id e = Some t →
  Forall (λ e', holds t e' = false) l1 ∧ Forall (λ e', holds t e' = false) l2.
Proof.
  intros Ho He. destruct (ids_once_app _ _ Ho) as (_ & H2 & H3). 
  change (e :: l2) with ([e] ++ l2) in H2. destruct (ids_once_app _ _ H2) as (_ & _ & H4).
  split; apply Forall_forall; intros e' He'; apply not_true_is_false; intros Ht%holds_spec.
  - eapply (H3 e' e); [done|by left|done|done].
  - eapply (H4 e e'); [by left|done|done|done].
Qed.

(** Placing after the last task of a first part. *)
Lemma place_after_split pre post e :
  ids_once (pre ++ post) → ends_in_task pre → place_after (last_task pre) e (pre ++ post) = Some (pre ++ e :: post).
Proof.
  intros Ho He. apply ends_in_task_last in He. destruct (last_task pre) as [t|] eqn:E; [|by subst pre].
  destruct He as (pre' & x & -> & Hx). unfold place_after. rewrite <- app_assoc in Ho |- *. cbn [app] in *.
  destruct (others_not t _ _ _ Ho Hx) as [Hn _].
  rewrite position_app_here; [|done|by apply holds_spec]. cbn. by rewrite insert_at_middle, <- app_assoc.
Qed.

Lemma remove_task_delete t l i e : ids_once l → l !! i = Some e → entry_id e = Some t → remove_task t l = delete i l.
Proof.
  intros Ho Hi He. rewrite <- (take_drop_middle l i e Hi) in Ho. destruct (others_not t _ _ _ Ho He) as [H1 H2].
  rewrite <- (take_drop_middle l i e Hi) at 1. rewrite delete_take_drop. unfold remove_task. rewrite List.filter_app. cbn.
  apply holds_spec in He. rewrite He. cbn. fold (remove_task t (take i l)) (remove_task t (drop (S i) l)).
  by rewrite !filter_holds_none.
Qed.

Lemma find_holds t l i e : ids_once l → l !! i = Some e → entry_id e = Some t → find (holds t) l = Some e.
Proof.
  intros Ho Hi He. rewrite <- (take_drop_middle l i e Hi) in Ho |- *. destruct (others_not t _ _ _ Ho He) as [H1 _].
  induction H1 as [|x l' Hx _ IH]; cbn; [apply holds_spec in He; by rewrite He|]. rewrite Hx. apply IH.
  apply (ids_once_app [x]) in Ho. apply Ho.
Qed.

Lemma last_task_elem l t : last_task l = Some t → ∃ e, e ∈ l ∧ entry_id e = Some t.
Proof. intros (e & He & Ht)%find_map_Some. exists e. by rewrite elem_of_reverse in He. Qed.

(** Without one of its tasks, the last task of a list is the same, unless it was that one. *)
Lemma last_task_delete t l i e : ids_once l → l !! i = Some e → entry_id e = Some t →
  last_task (delete i l) = if bool_decide (last_task l = Some t) then last_task (take i l) else last_task l.
Proof.
  intros Ho Hi He. rewrite <- (take_drop_middle l i e Hi) in Ho. destruct (others_not t _ _ _ Ho He) as [_ H2].
  assert (last_task l = match last_task (drop (S i) l) with Some u => Some u | None => Some t end) as ->.
  { transitivity (last_task (take i l ++ [e] ++ drop (S i) l)); [f_equal; symmetry; by apply take_drop_middle|].
    rewrite !last_task_app. destruct (last_task (drop (S i) l)); [done|]. unfold last_task at 1. cbn. by rewrite He. }
  rewrite delete_take_drop, last_task_app. destruct (last_task (drop (S i) l)) as [u|] eqn:E.
  - rewrite bool_decide_eq_false_2; [done|]. intros [= ->]. apply last_task_elem in E as (x & Hx & Hxt).
    rewrite Forall_forall in H2. specialize (H2 x Hx). apply holds_spec in Hxt. congruence.
  - by rewrite bool_decide_eq_true_2.
Qed.
