(* ===== verification/FastId.v ===== *)
(** The reconciler's fast [id:] scan ([fastid.rs]) and the removal of a line's own tag
    ([id_strip.rs]) of [crates/txtodo-engine/src]. The theorem: on a line without a form feed, a
    carriage return or a line feed, the scan finds the id a full parse finds. *)
From S2P Require Import Prelude.
From S2P Require Import Utf8.
From S2P Require Import Types.
From S2P Require Import Ulid.
From S2P Require Import Scanner.
From S2P Require Import Parser.
From S2P Require Import TodoFile.
From S2P Require Import Edit.
From S2P Require Import LineFixes.
From S2P Require Import Hlc.
From S2P Require Import TagText.
From S2P Require Import Ops.
From S2P Require Import DocState.

(** ** fastid.rs *)

(** The value of an [id:] word that has one. *)
Definition id_value (w : bytes) : option bytes :=
  v ← strip_prefix (str "id:") w; if bool_decide (v = []) then None else Some v.

Definition fast_id_of (l : OwnedLine) : option TaskId :=
  raw0 ← OwnedLine_raw l;
  v ← find_map id_value (split_on is_ascii_whitespace raw0);
  to_u128 <$> Ulid_parse v.

(** [from_tagged_file]. *)
Definition from_tagged_file (path : FilePath) (f : File) : result StateError DocState :=
  from_file path f (map fast_id_of (lines f)) Tagged.

(** ** id_strip.rs *)

(** The line's own id and the line without that tag. *)
Definition strip_own_id (l : OwnedLine) : option (TaskId * OwnedLine) :=
  id ← fast_id_of l;
  edit ← result_ok (remove_tag Edit_new (str "id"));
  Some (id, apply l edit).

(** The byte span of the word the scan reads. *)
Definition own_id_word (raw0 : bytes) : option (nat * nat) :=
  find_word (λ w, bool_decide (is_Some (id_value w))) 0 (split_on is_ascii_whitespace raw0).

(** Whether a text's last word could be part of a prefix. *)
Definition after_prefix_token (head : bytes) : bool :=
  match last (split_on is_ascii_whitespace head) with
  | None => true
  | Some w =>
      let priority := match w with
                      | [a; p; z] => bool_decide (a = "("%byte) && is_ascii_uppercase p && bool_decide (z = ")"%byte)
                      | _ => false
                      end in
      let date := (length w =? 10) && bool_decide (w !! 4 = Some "-"%byte) && bool_decide (w !! 7 = Some "-"%byte) in
      bool_decide (w = []) || bool_decide (w = str "x") || priority || date
  end.

Definition without_own_id (l : OwnedLine) : option bytes :=
  _ ← fast_id_of l;
  raw0 ← OwnedLine_raw l;
  se ← own_id_word raw0;
  let '(s, e) := se in
  let before := if s =? 0 then None else raw0 !! (s - 1) in
  let cut :=
    match before, raw0 !! e with
    | None, Some c => if bool_decide (c = " "%byte) then Some (s, e + 1) else None
    | Some b, Some c => if bool_decide (b = " "%byte) && bool_decide (c = " "%byte) then Some (s, e + 1) else None
    | Some b, None => if bool_decide (b = " "%byte) && negb (after_prefix_token (take (s - 1) raw0)) then Some (s - 1, e) else None
    | None, None => None
    end in
  match cut with
  | Some (from, to) => Some (take from raw0 ++ drop to raw0)
  | None => (λ il, ol_bytes (snd il)) <$> strip_own_id l
  end.

(** ** Samples *)

Definition sample_id : bytes := str "01ARZ3NDEKTSV4RRFFQ69G5FAV".

Example fast_id_sample :
  Forall (λ s, fast_id_of (line_of s) = id_of (line_of s))
    [str "(A) 2026-09-11 buy id:" ++ sample_id; str "id:" ++ sample_id; str "bad id:nope then id:" ++ sample_id;
     str "key:id:" ++ sample_id; str "bare id: then id:" ++ sample_id; str "id:"; []; str "   "].
Proof. repeat constructor; vm_compute; reflexivity. Qed.

(** After a form feed the scan sees a word, the parser the rest of one. *)
Example fast_id_form_feed :
  let l := line_of (str "buy" ++ [x0c] ++ str "id:" ++ sample_id) in
  is_Some (fast_id_of l) ∧ id_of l = None.
Proof. split; [vm_compute; by eexists|vm_compute; reflexivity]. Qed.

(** The own tag removed both ways. *)
Example without_own_id_sample :
  Forall (λ s, without_own_id (line_of s) = (λ il, ol_bytes (snd il)) <$> strip_own_id (line_of s))
    [str "buy id:" ++ sample_id ++ str " milk"; str "buy milk id:" ++ sample_id; str "x id:" ++ sample_id;
     str "(A) id:" ++ sample_id; str "id:" ++ sample_id ++ str " a"; str "a" ++ [x09] ++ str "id:" ++ sample_id].
Proof. repeat constructor; vm_compute; reflexivity. Qed.

(** ** The first [id:] word of a text *)

Section first_word.
Context {A : Type} (f : bytes → option A) (f_nil : f [] = None).

Lemma find_map_skip w r :
  Forall (λ b, is_ws b = true) w → find_map f (split_on is_ws (w ++ r)) = find_map f (split_on is_ws r).
Proof. induction 1 as [|b w Hb _ IH]; [done|]. cbn. by rewrite Hb; cbn; rewrite f_nil, IH. Qed.

Lemma find_map_chunked pos rest cs :
  chunked pos rest cs →
  find_map f (split_on is_ws rest)
  = find_map (λ c, f (slice (ch_start c - pos) (ch_end c - pos) rest)) (List.filter (λ c, negb (ch_is_ws c)) cs).
Proof.
  revert pos rest. induction cs as [|c cs IH]; intros pos rest; cbn [chunked].
  { intros ->. cbn. by rewrite f_nil. }
  intros (w & r & -> & Hw & Hs & He & Hall & Hr & Hch).
  assert (find_map f (split_on is_ws r)
    = find_map (λ c, f (slice (ch_start c - pos) (ch_end c - pos) (w ++ r))) (List.filter (λ c, negb (ch_is_ws c)) cs)) as Hrest.
  { rewrite (IH _ _ Hch). apply find_map_ext. intros c' Hin.
    apply list_elem_of_In, filter_In in Hin as [Hin _]. apply list_elem_of_In, list_elem_of_lookup in Hin as [i Hi].
    destruct (chunked_lookup _ _ _ _ _ Hch Hi) as (? & ? & ? & _). f_equal. unfold slice.
    rewrite (drop_app_ge w r) by lia. f_equal; [lia|f_equal; lia]. }
  cbn [List.filter]. destruct (ch_is_ws c); cbn [negb]; [by rewrite find_map_skip|].
  cbn [find_map]. rewrite Hs, He, split_on_word by done.
  replace (slice (pos - pos) (pos + length w - pos) (w ++ r)) with w.
  2: { unfold slice. rewrite Nat.sub_diag, drop_0, Nat.sub_0_r.
       by replace (pos + length w - pos) with (length w) by lia; rewrite take_app_length. }
  cbn [find_map]. destruct (f w); [done|]. rewrite <- Hrest. destruct r as [|b r]; [cbn; by rewrite f_nil|].
  cbn. rewrite (Hr b eq_refl). cbn. by rewrite f_nil.
Qed.

Lemma find_map_chunks raw0 : find_map f (split_on is_ws raw0) = find_map (λ c, f (chunk_text raw0 c)) (word_chunks raw0).
Proof. rewrite (find_map_chunked _ _ _ (chunks_chunked raw0)). apply find_map_ext. intros c _. by rewrite !Nat.sub_0_r. Qed.

(** The rest of a text from one of its chunks on. *)
Lemma chunked_drop pos rest cs i c :
  chunked pos rest cs → cs !! i = Some c → chunked (ch_start c) (drop (ch_start c - pos) rest) (drop i cs).
Proof.
  revert pos rest i. induction cs as [|d cs IH]; intros pos rest i H Hi; [done|]. pose proof H as H0.
  destruct H as (w & r & -> & Hw & Hs & He & Hall & Hr & Hch). destruct i as [|i]; cbn in Hi.
  - injection Hi as ->. rewrite Hs, Nat.sub_diag, !drop_0. exact H0.
  - cbn [drop]. specialize (IH _ _ _ Hch Hi). destruct (chunked_lookup _ _ _ _ _ Hch Hi) as (? & _).
    rewrite drop_app_ge by lia. by replace (ch_start c - pos - length w) with (ch_start c - (pos + length w)) by lia.
Qed.

(** A text whose first chunks hold no such word. *)
Lemma find_map_from raw0 i :
  (∀ j c, j < i → chunks raw0 !! j = Some c → ch_is_ws c = false → f (chunk_text raw0 c) = None) →
  find_map f (split_on is_ws raw0)
  = find_map f (split_on is_ws (drop (from_option ch_start (length raw0) (chunks raw0 !! i)) raw0)).
Proof.
  intros Hq. rewrite find_map_chunks. unfold word_chunks. rewrite <- (take_drop i (chunks raw0)) at 1.
  rewrite List.filter_app.
  assert (∀ l1 l2, (∀ c, c ∈ l1 → f (chunk_text raw0 c) = None) →
    find_map (λ c, f (chunk_text raw0 c)) (l1 ++ l2) = find_map (λ c, f (chunk_text raw0 c)) l2) as Hskip.
  { intros l1 l2. induction l1 as [|c l1 IH]; intros H; [done|]. cbn. rewrite H by (by left). apply IH. intros c' Hc'. apply H. by right. }
  rewrite Hskip.
  2: { intros c Hc. apply list_elem_of_In, filter_In in Hc as [Hc Hw]. apply list_elem_of_In, list_elem_of_lookup in Hc as [j Hj].
       apply lookup_take_Some in Hj as [Hj Hlt]. apply (Hq j c Hlt Hj). by apply negb_true_iff. }
  destruct (chunks raw0 !! i) as [c|] eqn:Ec; cbn [from_option].
  - pose proof (chunked_drop 0 raw0 _ i c (chunks_chunked raw0) Ec) as Hd. rewrite Nat.sub_0_r in Hd.
    rewrite (find_map_chunked _ _ _ Hd). apply find_map_ext. intros c' Hc'.
    apply list_elem_of_In, filter_In in Hc' as [Hc' _]. apply list_elem_of_In, list_elem_of_lookup in Hc' as [j Hj].
    destruct (chunked_lookup _ _ _ _ _ Hd Hj) as (? & ? & _). f_equal. unfold chunk_text, slice.
    rewrite drop_drop. f_equal; [lia|f_equal; lia].
  - rewrite drop_ge by (by apply lookup_ge_None). rewrite drop_all. cbn. by rewrite f_nil.
Qed.

(** A text up to one of its chunks. *)
Lemma chunked_take pos rest cs i c :
  chunked pos rest cs → cs !! i = Some c → chunked pos (take (ch_start c - pos) rest) (take i cs).
Proof.
  revert pos rest i. induction cs as [|d cs IH]; intros pos rest i H Hi; [done|].
  destruct H as (w & r & -> & Hw & Hs & He & Hall & Hr & Hch). destruct i as [|i]; cbn in Hi.
  - injection Hi as ->. rewrite Hs, Nat.sub_diag. done.
  - cbn [take]. destruct (chunked_lookup _ _ _ _ _ Hch Hi) as (Hle & _).
    exists w, (take (ch_start c - (pos + length w)) r).
    split; [rewrite take_app_ge by lia; f_equal; f_equal; lia|]. split_and!; try done.
    + intros b Hb. apply Hr. destruct r; [by rewrite take_nil in Hb|]. by destruct (ch_start c - (pos + length w)).
    + by apply IH.
Qed.

Lemma find_map_before raw0 i :
  (∀ j c, j < i → chunks raw0 !! j = Some c → ch_is_ws c = false → f (chunk_text raw0 c) = None) →
  find_map f (split_on is_ws (take (from_option ch_start (length raw0) (chunks raw0 !! i)) raw0)) = None.
Proof.
  intros Hq. set (n := from_option _ _ _).
  assert (∃ cs, chunked 0 (take n raw0) cs ∧ cs = take i (chunks raw0)) as (cs & Hch & Hcs).
  { eexists. split; [|reflexivity]. subst n. destruct (chunks raw0 !! i) as [c|] eqn:Ec; cbn [from_option].
    - pose proof (chunked_take 0 raw0 _ i c (chunks_chunked raw0) Ec) as H. by rewrite Nat.sub_0_r in H.
    - rewrite firstn_all, take_ge by (by apply lookup_ge_None). apply chunks_chunked. }
  rewrite (find_map_chunked _ _ _ Hch).
  assert (∀ l, (∀ c, c ∈ l → f (slice (ch_start c - 0) (ch_end c - 0) (take n raw0)) = None) →
    find_map (λ c, f (slice (ch_start c - 0) (ch_end c - 0) (take n raw0))) l = None) as Hnone.
  { intros l. induction l as [|c l IH]; intros H; [done|]. cbn [find_map]. rewrite H by (by left). apply IH. intros c' Hc'. apply H. by right. }
  apply Hnone. intros c Hc. apply list_elem_of_In, filter_In in Hc as [Hc Hw]. apply negb_true_iff in Hw.
  apply list_elem_of_In, list_elem_of_lookup in Hc as [j Hj].
  destruct (chunked_lookup _ _ _ _ _ Hch Hj) as (_ & _ & Hle & _). rewrite length_take in Hle.
  rewrite Hcs in Hj. apply lookup_take_Some in Hj as [Hj Hlt]. rewrite <- (Hq j c Hlt Hj Hw). f_equal.
  unfold chunk_text, slice. rewrite !Nat.sub_0_r, skipn_firstn_comm, take_take. f_equal. lia.
Qed.

(** A text cut at a separator. *)
Lemma find_map_cut a c b :
  is_ws c = true →
  find_map f (split_on is_ws (a ++ c :: b))
  = match find_map f (split_on is_ws a) with Some v => Some v | None => find_map f (split_on is_ws b) end.
Proof.
  intros Hc. assert (split_on is_ws (a ++ c :: b) = split_on is_ws a ++ split_on is_ws b) as ->.
  { assert (∀ a, split_on is_ws a ≠ []) as Hne.
    { intros a0. destruct a0 as [|x a0]; [done|]. cbn. destruct (is_ws x); [done|]. by destruct (split_on is_ws a0). }
    induction a as [|x a IH]; cbn; [by rewrite Hc|]. rewrite IH. destruct (is_ws x); [done|].
    destruct (split_on is_ws a) as [|w ws] eqn:E; [by destruct (Hne a)|done]. }
  induction (split_on is_ws a) as [|w ws IH]; [done|]. cbn. by destruct (f w).
Qed.
End first_word.

(** ** The prefix of a line holds no [id:] word *)

(** From [p] to [p'] the cursor passed no word of that kind. *)
Record quiet (p p' : Parser) : Prop := mkQuiet {
  q_raw : p_raw p' = p_raw p;
  q_chunks : p_chunks p' = p_chunks p;
  q_le : p_i p ≤ p_i p';
  q_none : ∀ j c, p_i p ≤ j → j < p_i p' → p_chunks p !! j = Some c → ch_is_ws c = false → id_value (chunk_text (p_raw p) c) = None
}.

(** The chunk at the cursor is no word. *)
Definition after_word (p : Parser) : Prop := ∀ c, p_chunks p !! p_i p = Some c → ch_is_ws c = true.

Lemma quiet_refl p : quiet p p.
Proof. split; [done|done|lia|]. intros; lia. Qed.

Lemma quiet_trans p q r : quiet p q → quiet q r → quiet p r.
Proof.
  intros [H1 H2 H3 H4] [K1 K2 K3 K4]. split; [congruence|congruence|lia|].
  intros j c Hj Hj' Hc Hw. destruct (decide (j < p_i q)); [by apply (H4 j)|].
  rewrite <- H1. apply (K4 j); [lia|lia|by rewrite H2|done].
Qed.

Lemma quiet_chunks p p' : quiet p p' → on_chunks p → on_chunks p'.
Proof. intros [H1 H2 _ _]. unfold on_chunks. by rewrite H1, H2. Qed.

(** A step that only adds a quirk. *)
Definition same_place (p p' : Parser) : Prop := p_raw p' = p_raw p ∧ p_chunks p' = p_chunks p ∧ p_i p' = p_i p.

Lemma same_quiet p p' : same_place p p' → quiet p p'.
Proof. intros (H1 & H2 & H3). split; [done|done|lia|]. intros; lia. Qed.

Lemma same_lenient_or_at q r m b p u p' : lenient_or_at q r m b p = Ok (u, p') → same_place p p'.
Proof. unfold lenient_or_at. destruct (p_mode p); [done|]. intros H. injection H as _ <-. done. Qed.

Lemma same_insert q p u p' : p_insert q p = Ok (u, p') → same_place p p'.
Proof. intros H. injection H as _ <-. done. Qed.

Lemma advance_word p w :
  on_chunks p → p_word p = Some w → id_value w = None →
  quiet p (mkParser (p_raw p) (p_chunks p) (S (p_i p)) (p_mode p) (p_quirks p))
  ∧ after_word (mkParser (p_raw p) (p_chunks p) (S (p_i p)) (p_mode p) (p_quirks p)).
Proof.
  intros Ho Hw Hid. unfold p_word in Hw. destruct (p_chunks p !! p_i p) as [c|] eqn:Hc; [|done]. cbn in Hw.
  destruct (ch_is_ws c) eqn:Hws; [done|]. injection Hw as Hw. split.
  - split; cbn; [done|done|lia|]. intros j c' Hj Hj' Hc' _. replace j with (p_i p) in Hc' by lia. assert (c' = c) as -> by congruence. by rewrite Hw.
  - intros c' Hc'. cbn in Hc'. rewrite Ho in Hc, Hc'. destruct (chunks_lookup _ _ _ Hc) as (_ & _ & _ & Hn).
    rewrite (Hn _ Hc'). by rewrite Hws.
Qed.

Lemma quiet_separator p b p' : after_word p → separator p = Ok (b, p') → quiet p p'.
Proof.
  intros Ha H. unfold separator in H. destruct (p_chunks p !! p_i p) as [c|] eqn:Hc; [|injection H as <- <-; apply quiet_refl].
  inv_bind H u p1 E1. inv_bind H u2 p2 E2. inv_bind H at_end p3 E3. injection E3 as <- <-. injection E2 as <- <-.
  assert (same_place p p1) as (H1 & H2 & H3).
  { destruct (bool_decide _); [by inv_ret E1|by eapply same_lenient_or_at]. }
  assert (quiet p (mkParser (p_raw p1) (p_chunks p1) (S (p_i p1)) (p_mode p1) (p_quirks p1))) as Hq.
  { split; cbn; [done|done|lia|]. intros j c' Hj Hj' Hc' Hw. replace j with (p_i p) in Hc' by lia.
    rewrite (Ha _ Hc') in Hw. done. }
  eapply quiet_trans; [exact Hq|]. destruct (_ =? _).
  - inv_bind H u3 p3 E3. inv_ret H. by eapply same_quiet, same_lenient_or_at.
  - inv_ret H. apply quiet_refl.
Qed.

Lemma not_id_head w : match w with c :: _ => negb (bool_decide (c = "i"%byte)) | [] => true end = true → id_value w = None.
Proof.
  unfold id_value. destruct (strip_prefix (str "id:") w) as [v|] eqn:E; [|done]. apply strip_prefix_spec in E as ->. cbn. discriminate.
Qed.

Lemma priority_not_id w : is_priority_word w = true → id_value w = None.
Proof.
  intros H. apply not_id_head. destruct w as [|a [|b [|c [|]]]]; try done. cbn in H.
  rewrite !andb_true_iff, !bool_decide_eq_true in H. by destruct H as [[-> _] _].
Qed.

Lemma date_not_id w d : Date_parse w = Some d → id_value w = None.
Proof.
  intros H. apply not_id_head. destruct w as [|c w]; [done|]. destruct (bool_decide (c = "i"%byte)) eqn:E; [|done].
  apply bool_decide_eq_true in E as ->. by rewrite date_parse_nondigit in H.
Qed.

Lemma quiet_take_priority t p r p' : on_chunks p → take_priority t p = Ok (r, p') → quiet p p'.
Proof.
  intros Ho H. unfold take_priority in H. destruct (p_word p) as [w|] eqn:Hw; [|injection H as <- <-; apply quiet_refl].
  destruct (is_priority_word w) eqn:Hp; [|injection H as <- <-; apply quiet_refl].
  inv_bind H u p1 E1. injection E1 as <- <-. inv_bind H b p2 E2. inv_ret H.
  destruct (advance_word p w Ho Hw (priority_not_id w Hp)) as [Hq Ha]. eapply quiet_trans; [exact Hq|]. by eapply quiet_separator.
Qed.

Lemma quiet_take_date p o p' : on_chunks p → take_date p = Ok (o, p') → quiet p p' ∧ (is_Some o → after_word p').
Proof.
  intros Ho H. unfold take_date in H. destruct (p_word p) as [w|] eqn:Hw.
  2: { injection H as <- <-. split; [apply quiet_refl|]. by intros [? ?]. }
  destruct (Date_parse w) as [d|] eqn:Hd.
  - inv_bind H u p1 E1. injection E1 as <- <-. inv_ret H.
    destruct (advance_word p w Ho Hw (date_not_id w d Hd)) as [Hq Ha]. by split.
  - destruct (_ && _); [done|]. injection H as <- <-. split; [apply quiet_refl|]. by intros [? ?].
Qed.

Lemma quiet_take_optional_date t p t' p' : on_chunks p → take_optional_date t p = Ok (t', p') → quiet p p'.
Proof.
  intros Ho H. unfold take_optional_date in H. inv_bind H o p1 E1. destruct (quiet_take_date _ _ _ Ho E1) as [Hq Ha].
  destruct o as [d|]; [|by inv_ret H]. inv_bind H b p2 E2. inv_ret H.
  eapply quiet_trans; [exact Hq|]. eapply quiet_separator; [apply Ha; by eexists|exact E2].
Qed.

Lemma quiet_incomplete t p t' p' : on_chunks p → incomplete_prefix t p = Ok (t', p') → quiet p p'.
Proof.
  intros Ho H. unfold incomplete_prefix in H. inv_bind H r p1 E1. pose proof (quiet_take_priority _ _ _ _ Ho E1) as Hq.
  eapply quiet_trans; [exact Hq|]. eapply quiet_take_optional_date; [by eapply quiet_chunks|exact H].
Qed.

(** A priority and the quirk it may leave. *)
Lemma quiet_priority_quirk (q : Quirks) t p t' p' :
  on_chunks p →
  (r ← take_priority t; _ ← (if (snd r : bool) then p_insert q else mret tt); mret (fst r)) p = Ok (t', p') → quiet p p'.
Proof.
  intros Ho H. inv_bind H r p1 E1. inv_bind H u p2 E2. inv_ret H.
  eapply quiet_trans; [by eapply quiet_take_priority|]. destruct (snd r); [by eapply same_quiet, same_insert|]. inv_ret E2. apply quiet_refl.
Qed.

Lemma quiet_completed t p t' p' : on_chunks p → after_word p → completed_prefix t p = Ok (t', p') → quiet p p'.
Proof.
  intros Ho Ha H. unfold completed_prefix in H. inv_bind H more p1 E1. pose proof (quiet_separator _ _ _ Ha E1) as Q1.
  assert (on_chunks p1) as Ho1 by (by eapply quiet_chunks). eapply quiet_trans; [exact Q1|]. clear Q1 E1 Ha Ho p.
  destruct more; cbn [negb] in H.
  2: { inv_bind H u p2 E2. inv_ret H. by eapply same_quiet, same_lenient_or_at. }
  inv_bind H len p2 E2. injection E2 as <- <-. inv_bind H t1 p2 E2.
  assert (quiet p1 p2) as Q2 by (destruct (bool_decide _); [by eapply quiet_priority_quirk|inv_ret E2; apply quiet_refl]).
  assert (on_chunks p2) as Ho2 by (by eapply quiet_chunks). eapply quiet_trans; [exact Q2|]. clear Q2 E2.
  inv_bind H o p3 E3. destruct (quiet_take_date _ _ _ Ho2 E3) as [Q3 Ha3]. eapply quiet_trans; [exact Q3|].
  assert (on_chunks p3) as Ho3 by (by eapply quiet_chunks). clear E3 Q3.
  destruct o as [d|].
  2: { inv_bind H u p4 E4. inv_ret H. by eapply same_quiet, same_lenient_or_at. }
  inv_bind H more p4 E4. pose proof (quiet_separator _ _ _ (Ha3 ltac:(by eexists)) E4) as Q4.
  assert (on_chunks p4) as Ho4 by (by eapply quiet_chunks). eapply quiet_trans; [exact Q4|]. clear E4 Q4.
  inv_bind H t2 p5 E5.
  assert (quiet p4 p5) as Q5 by (destruct more; [by eapply quiet_take_optional_date|inv_ret E5; apply quiet_refl]).
  eapply quiet_trans; [exact Q5|]. destruct (_ && _); [|inv_ret H; apply quiet_refl].
  eapply quiet_priority_quirk; [by eapply quiet_chunks|exact H].
Qed.

(** ** The two scans agree *)

Lemma classify_id w :
  match classify_word w DEFAULT_SCHEMES with
  | WTag colon => if bool_decide (take colon w = str "id") then Some (drop (colon + 1) w) else None
  | WIdTag => Some (drop 3 w)
  | _ => None
  end = id_value w.
Proof.
  destruct (id_value w) as [v|] eqn:E.
  - unfold id_value in E. apply bind_Some in E as (r & Hr & E). apply strip_prefix_spec in Hr as ->.
    case_bool_decide; [done|]. injection E as ->. unfold classify_word.
    assert (is_url (str "id:" ++ v) DEFAULT_SCHEMES = false) as ->.
    { unfold is_url. change (position is_colon (str "id:" ++ v)) with (Some 2). cbv beta iota.
      change (existsb (λ s, eq_ignore_ascii_case s (take 2 (str "id:" ++ v))) DEFAULT_SCHEMES) with false. apply andb_false_r. }
    assert (strip_prefix (str "id:") (str "id:" ++ v) = Some v) as -> by (by apply strip_prefix_spec).
    assert (starts_with (str "+") (str "id:" ++ v) = false) as -> by reflexivity.
    assert (starts_with (str "@") (str "id:" ++ v) = false) as -> by reflexivity.
    rewrite !andb_false_r. destruct (bool_decide _); [reflexivity|].
    unfold tag_split. cbn. destruct v as [|c v]; [done|]. reflexivity.
  - destruct (classify_word w DEFAULT_SCHEMES) as [| | | |colon|] eqn:Ek; try done.
    + exfalso. unfold classify_word in Ek. destruct (is_url w _); [done|]. case_bool_decide as Hu.
      * destruct Hu as [u (v & Hv & Hu)%bind_Some]. unfold id_value in E. rewrite Hv in E. cbn in E.
        case_bool_decide as Hnil; [|done]. subst v. by vm_compute in Hu.
      * destruct (_ && _); [done|]. destruct (_ && _); [done|]. by destruct (tag_split w).
    + apply classify_word_tag, tag_split_bounds in Ek as (? & Hl & Hb). case_bool_decide as Hk; [|done]. exfalso.
      assert (w = str "id:" ++ drop (S colon) w) as Hw.
      { rewrite <- (take_drop_middle w colon _ Hb) at 1. by rewrite Hk. }
      unfold id_value in E. rewrite (proj2 (strip_prefix_spec _ _ _) Hw) in E. cbn in E. case_bool_decide as Hd; [|done].
      apply (f_equal length) in Hd. rewrite length_drop in Hd. cbn in Hd. lia.
Qed.

Lemma find_map_map {A B C} (f : B → option C) (g : A → B) (l : list A) : find_map (λ x, f (g x)) l = find_map f (map g l).
Proof. induction l as [|x l IH]; [done|]. cbn. by rewrite IH. Qed.

Lemma tag_id_words t : tag t (str "id") = find_map id_value (words_of (description t)).
Proof.
  unfold tag, tags, Task_words. induction (words_of (description t)) as [|w ws IH]; [done|].
  cbn [map omap list_omap find_map]. rewrite <- (classify_id w). cbn [fst snd].
  destruct (classify_word w DEFAULT_SCHEMES); try exact IH; [done|].
  cbn [find fst snd]. destruct (bool_decide (take colon w = str "id")); [done|exact IH].
Qed.

Lemma split_ascii_ws raw0 :
  Forall (λ b, b ∉ [x0a; x0c; x0d]) raw0 → split_on is_ascii_whitespace raw0 = split_on is_ws raw0.
Proof.
  induction 1 as [|b l Hb _ IH]; [done|]. cbn. rewrite IH.
  assert (is_ascii_whitespace b = is_ws b) as ->; [|done].
  destruct b; try reflexivity; exfalso; apply Hb; set_solver.
Qed.

(** Where the chunk [i] of a text starts. *)
Definition chunk_pos (raw0 : bytes) (i : nat) : nat := from_option ch_start (length raw0) (chunks raw0 !! i).

(** No word before the chunk [i] is an [id:] word. *)
Definition quiet_before (raw0 : bytes) (i : nat) : Prop :=
  ∀ j c, j < i → chunks raw0 !! j = Some c → ch_is_ws c = false → id_value (chunk_text raw0 c) = None.

(** The prefix of a leniently parsed line holds no [id:] word. *)
Lemma quiet_prefix raw0 l t :
  parse_line raw0 Lenient = Ok l → kind l = LTask t →
  ∃ i, quiet_before raw0 i ∧ description t = drop (chunk_pos raw0 i) raw0.
Proof.
  intros H Hk. apply parse_line_inv in H as [[-> ->]|(_ & t' & p' & Ht & _ & Hk' & _)]; [done|].
  assert (t' = t) as -> by congruence. clear Hk Hk'. unfold p_task in Ht. inv_bind Ht t1 p E1. inv_bind Ht d p2 E2.
  injection Ht as <- <-. apply description_Ok in E2 as [-> _]. cbn [description].
  assert (quiet (p_init raw0 Lenient) p) as [Hr Hc _ Hn].
  { destruct (starts_completed (p_init raw0 Lenient)) eqn:Es; [|by eapply quiet_incomplete].
    inv_bind E1 u p1 E0. injection E0 as <- <-.
    assert (p_word (p_init raw0 Lenient) = Some (str "x")) as Hx.
    { unfold starts_completed in Es. destruct (bool_decide (p_word _ = _)) eqn:Ex in Es; [|done]. by apply bool_decide_eq_true in Ex. }
    destruct (advance_word (p_init raw0 Lenient) _ eq_refl Hx eq_refl) as [Hq Ha].
    eapply quiet_trans; [exact Hq|]. eapply quiet_completed; [|exact Ha|exact E1]. done. }
  exists (p_i p). rewrite Hr. unfold p_pos, chunk_pos. rewrite Hr, Hc. cbn [p_raw p_chunks p_init] in *.
  split; [|done]. intros j c Hj Hcj. apply (Hn j c); [cbn; lia|done|done].
Qed.

Lemma id_value_description raw0 l t :
  parse_line raw0 Lenient = Ok l → kind l = LTask t →
  find_map id_value (split_on is_ws raw0) = find_map id_value (split_on is_ws (description t)).
Proof. intros H Hk. destruct (quiet_prefix _ _ _ H Hk) as (i & Hq & ->). by apply find_map_from. Qed.

Lemma fast_id_full l : Forall (λ b, b ∉ [x0a; x0c; x0d]) (ol_bytes l) → fast_id_of l = id_of l.
Proof.
  intros Hb. unfold fast_id_of, id_of, task_of_line, OwnedLine_parse.
  assert (∀ r, OwnedLine_raw l = Some r → r = ol_bytes l) as Hr.
  { intros r. unfold OwnedLine_raw. destruct (is_utf8 _); [|done]. by intros [= <-]. }
  destruct (OwnedLine_raw l) as [r|]; [|done]. rewrite (Hr r eq_refl) in *. clear Hr. cbn [mbind option_bind].
  rewrite (split_ascii_ws _ Hb). destruct (parse_line_lenient_ok (ol_bytes l) DEFAULT_SCHEMES) as [pl Hpl].
  fold (parse_line (ol_bytes l) Lenient) in Hpl. rewrite Hpl. cbn. destruct (kind pl) as [|t] eqn:Hk.
  - apply parse_line_inv in Hpl as [[Hnil _]|(_ & t & p & _ & _ & Hk' & _)]; [|congruence]. by rewrite Hnil.
  - rewrite (id_value_description _ _ _ Hpl Hk). cbn. unfold Task_id. rewrite tag_id_words.
    unfold words_of. rewrite (find_map_chunks id_value eq_refl).
    rewrite (find_map_map id_value). destruct (find_map _ _); [|done]. cbn. by destruct (Ulid_parse _).
Qed.

(** ** A line's tag set *)

(** What follows a text with no [id:] word that ends at a separator, or is empty. *)
Lemma first_id_after a b :
  find_map id_value (split_on is_ws a) = None → (a = [] ∨ ∃ a' c, a = a' ++ [c] ∧ is_ws c = true) →
  find_map id_value (split_on is_ws (a ++ b)) = find_map id_value (split_on is_ws b).
Proof.
  intros Hn [->|(a' & c & -> & Hc)]; [done|]. rewrite <- app_assoc. cbn [app].
  rewrite (find_map_cut id_value a' c b Hc). rewrite (find_map_cut id_value a' c [] Hc) in Hn.
  by destruct (find_map id_value (split_on is_ws a')).
Qed.

Lemma first_id_word w r v :
  Forall (λ b, is_ws b = false) w → (∀ b, head r = Some b → is_ws b = true) → id_value w = Some v →
  find_map id_value (split_on is_ws (w ++ r)) = Some v.
Proof. intros Hw Hr Hv. rewrite (split_on_word w r Hw Hr). cbn [find_map]. by rewrite Hv. Qed.

Lemma find_map_filter_first {A B} (g : A → option B) (p : A → bool) (l : list A) y :
  find_map g (List.filter p l) = Some y →
  ∃ i x, l !! i = Some x ∧ p x = true ∧ g x = Some y ∧ ∀ j x', j < i → l !! j = Some x' → p x' = true → g x' = None.
Proof.
  induction l as [|x l IH]; [done|]. cbn. destruct (p x) eqn:Hp; cbn; [destruct (g x) as [z|] eqn:Hg|].
  - intros [= <-]. exists 0, x. split_and!; try done. intros; lia.
  - intros H. destruct (IH H) as (i & x' & H1 & H2 & H3 & H4). exists (S i), x'. split_and!; try done.
    intros [|j] x'' Hj Hx; [by injection Hx as <-|]. cbn in Hx. apply (H4 j); [lia|done].
  - intros H. destruct (IH H) as (i & x' & H1 & H2 & H3 & H4). exists (S i), x'. split_and!; try done.
    intros [|j] x'' Hj Hx; [injection Hx as <-; congruence|]. cbn in Hx. apply (H4 j); [lia|done].
Qed.

(** The bytes around a word are separators. *)
Lemma before_word d i c :
  chunks d !! i = Some c → ch_is_ws c = false →
  take (ch_start c) d = [] ∨ ∃ a b, take (ch_start c) d = a ++ [b] ∧ is_ws b = true.
Proof.
  intros Hc Hw. destruct i as [|i]; [left; by rewrite (chunk_first _ _ Hc)|right].
  destruct (lookup_lt_is_Some_2 (chunks d) i) as [c0 H0]; [apply lookup_lt_Some in Hc; lia|].
  destruct (chunks_lookup _ _ _ H0) as (Hlt & Hle & _ & Hn). specialize (Hn _ Hc).
  pose proof (chunk_next _ _ _ H0) as Hnext. rewrite Hc in Hnext. cbn in Hnext.
  destruct (chunk_byte d i c0 (ch_end c0 - 1) H0 ltac:(lia)) as (b & Hb & Hws).
  exists (take (ch_end c0 - 1) d), b. rewrite Hnext. split.
  - rewrite <- (take_S_r _ _ _ Hb). f_equal. lia.
  - rewrite Hws. rewrite Hw in Hn. by destruct (ch_is_ws c0).
Qed.

Lemma after_chunk_word d i c b :
  chunks d !! i = Some c → ch_is_ws c = false → head (drop (ch_end c) d) = Some b → is_ws b = true.
Proof.
  intros Hc Hw Hb. rewrite head_lookup, lookup_drop, Nat.add_0_r in Hb.
  pose proof (chunk_next _ _ _ Hc) as Hnext. destruct (chunks d !! S i) as [c'|] eqn:Hc'; cbn in Hnext.
  - destruct (chunks_lookup _ _ _ Hc') as (Hlt & _). destruct (chunks_lookup _ _ _ Hc) as (_ & _ & _ & Hn).
    destruct (chunk_byte d (S i) c' (ch_end c) Hc' ltac:(lia)) as (b' & Hb' & Hws).
    assert (b' = b) as <- by congruence. rewrite Hws, (Hn _ Hc'). by rewrite Hw.
  - rewrite <- Hnext, lookup_ge_None_2 in Hb by lia. done.
Qed.

Lemma find_id_chunks d :
  Draft_find_tag d (str "id")
  = find_map (λ c, if bool_decide (is_Some (id_value (chunk_text d c))) then Some (ch_start c, ch_end c) else None) (word_chunks d).
Proof.
  unfold Draft_find_tag. apply find_map_ext. intros c Hc. apply word_chunk_lookup in Hc as (i & Hi & _).
  destruct (chunks_lookup _ _ _ Hi) as (Hlt & Hle & _). rewrite <- (classify_id (chunk_text d c)).
  destruct (classify_word (chunk_text d c) DEFAULT_SCHEMES) as [| | | |colon|] eqn:Ek; try done.
  assert (slice (ch_start c) (ch_start c + colon) d = take colon (chunk_text d c)) as ->.
  { apply classify_word_tag, tag_split_bounds in Ek as (? & Hl & _).
    unfold chunk_text in *. rewrite slice_length in Hl by done. unfold slice. rewrite take_take. f_equal. lia. }
  by destruct (bool_decide (take colon _ = str "id")).
Qed.

(** A description whose [id:] tag was set reads back that tag. *)
Lemma set_tag_first d tag :
  tag ≠ [] → Forall (λ b, is_ws b = false) tag →
  Draft_set_tag d (str "id") tag ≠ []
  ∧ find_map id_value (split_on is_ws (Draft_set_tag d (str "id") tag)) = Some tag.
Proof.
  intros Hne Hws. set (word := str "id" ++ str ":" ++ tag).
  assert (id_value word = Some tag) as Hv.
  { unfold id_value. rewrite (proj2 (strip_prefix_spec (str "id:") word tag) eq_refl). cbn. by rewrite bool_decide_eq_false_2. }
  assert (Forall (λ b, is_ws b = false) word) as Hword by (subst word; cbn; by repeat (constructor; [reflexivity|])).
  unfold Draft_set_tag. fold word. rewrite find_id_chunks. unfold word_chunks.
  destruct (find_map _ _) as [[s e]|] eqn:E.
  - apply find_map_filter_first in E as (i & c & Hc & Hw & Hg & Hbefore). apply negb_true_iff in Hw.
    destruct (bool_decide _) in Hg; [|done]. injection Hg as <- <-. unfold replace_range. split; [by destruct (take _ d)|].
    rewrite first_id_after.
    + apply first_id_word; [done| |done]. intros b Hb. by eapply after_chunk_word.
    + pose proof (find_map_before id_value eq_refl d i) as Hb. rewrite Hc in Hb. apply Hb. intros j c' Hj Hc' Hw'.
      specialize (Hbefore j c' Hj Hc'). rewrite Hw' in Hbefore. specialize (Hbefore eq_refl).
      destruct (id_value (chunk_text d c')); [|done]. rewrite bool_decide_eq_true_2 in Hbefore; [done|by eexists].
    + by eapply before_word.
  - assert (find_map id_value (split_on is_ws d) = None) as Hn.
    { rewrite (find_map_chunks id_value eq_refl). unfold word_chunks. revert E. generalize (List.filter (λ c, negb (ch_is_ws c)) (chunks d)) as cs.
      induction cs as [|c cs IH]; [done|]. cbn [find_map]. destruct (id_value (chunk_text d c)) as [v|].
      - rewrite bool_decide_eq_true_2 by (by eexists). discriminate.
      - rewrite bool_decide_eq_false_2 by (by intros [? ?]). exact IH. }
    unfold Draft_append. assert (negb (bool_decide (word = [])) = true) as ->.
    { apply negb_true_iff, bool_decide_eq_false. by destruct word. }
    rewrite andb_true_r. case_bool_decide as Hd; cbn [negb].
    + subst d. cbn [app]. split; [done|]. rewrite <- (app_nil_r word). by apply first_id_word.
    + split; [by destruct d|]. rewrite <- app_assoc. change (str " " ++ word) with (" "%byte :: word).
      rewrite (find_map_cut id_value d " "%byte word eq_refl), Hn. rewrite <- (app_nil_r word). by apply first_id_word.
Qed.

Lemma Ulid_display_ascii u : Forall (λ b, is_ascii_whitespace b = false ∧ (bN b < 0x80)%N) (Ulid_display u).
Proof.
  unfold Ulid_display. assert (∀ n bits, Forall (λ b, is_ascii_whitespace b = false ∧ (bN b < 0x80)%N) (Ulid_slots n bits [])) as Hs; [|apply Hs].
  induction n as [|n IH]; intros bits; [constructor|]. cbn [Ulid_slots]. rewrite Ulid_slots_snoc. apply Forall_app. split; [apply IH|].
  repeat constructor; (destruct (ALPHABET !! N.to_nat (N.land bits 31)) as [c|] eqn:E; [|reflexivity]);
    apply list_elem_of_lookup_2 in E; cbn; unfold ALPHABET in E;
    assert (forallb (λ b, negb (is_ascii_whitespace b) && (bN b <? 0x80)%N) (str "0123456789ABCDEFGHJKMNPQRSTVWXYZ") = true) as Hall
      by (vm_compute; reflexivity);
    rewrite forallb_forall in Hall; specialize (Hall c ltac:(by apply list_elem_of_In)); apply andb_true_iff in Hall as [H1 H2].
  - by apply negb_true_iff.
  - by apply N.ltb_lt.
Qed.

Lemma Ulid_display_plain u : Ulid_display u ≠ [] ∧ Forall (λ b, is_ascii_whitespace b = false) (Ulid_display u).
Proof.
  split.
  - intros H. apply (f_equal length) in H. unfold Ulid_display in H. by rewrite Ulid_slots_length in H.
  - eapply Forall_impl; [apply Ulid_display_ascii|]. by intros b [? _].
Qed.

(** ** Claims *)

(** C37. On every line without a form feed, carriage return or line feed, the reconciler's scan reads the id
    the full parse reads, none included. *)
Theorem fast_id_agrees l :
  Forall (λ b, b ∉ [x0a; x0c; x0d]) (ol_bytes l) → fast_id_of l = id_of l.
Proof. apply fast_id_full. Qed.

Lemma fast_id_agrees_witness :
  let l := line_of (str "x 2026-09-11 id: buy id:" ++ sample_id) in fast_id_of l = id_of l ∧ is_Some (fast_id_of l).
Proof.
  split; [|vm_compute; by eexists].
  apply (fast_id_agrees (line_of (str "x 2026-09-11 id: buy id:" ++ sample_id))).
  apply (bool_decide_eq_true_1 _). vm_compute. reflexivity.
Defined.
