(* ===== verification/Duplicates.v ===== *)
(** Duplicate lines: [duplicates.rs] of [crates/txtodo-engine/src].

    The theorem: the groups are exactly the classes of two or more tasks whose lines compare equal, in the
    order of their first lines, whatever order the hash map gives them in. *)
From S2P Require Import Prelude.
From S2P Require Import Types.
From S2P Require Import TodoFile.
From S2P Require Import Hlc.
From S2P Require Import TagText.
From S2P Require Import Ops.
From S2P Require Import DocState.
From S2P Require Import FastId.

Abbreviation DuplicateGroup := (list (TaskId * nat)).

(** The bytes two lines are compared by. *)
Definition comparable (m : IdentityMode) (l : OwnedLine) : bytes :=
  match m with
  | Tagged => default (ol_bytes l) (without_own_id l)
  | Sidecar => ol_bytes l
  end.

Definition indexed_entries (st : DocState) : list (nat * Entry) := imap pair (visible_entries st).

(** The tasks of each compared text, with their 1-based lines, in file order. *)
Definition by_line (st : DocState) : gmap bytes DuplicateGroup :=
  foldl (λ m ie, match snd ie with
                 | TaskEntry i l => let k := comparable (ds_mode st) l in <[k := default [] (m !! k) ++ [(i, fst ie + 1)]]> m
                 | BlankEntry _ => m
                 end) ∅ (indexed_entries st).

(** [min] of a group's lines; none is empty. *)
Definition first_line (g : DuplicateGroup) : nat := default 0 (min_by Nat.leb (map snd g)).

(** [into_values] gives the groups in any order ([hashed]); they are then sorted by their first line. *)
Definition duplicate_groups (hashed : list DuplicateGroup → list DuplicateGroup) (st : DocState) : list DuplicateGroup :=
  stable_sort (λ a b, first_line a <=? first_line b)
    (map (stable_sort (λ a b, (fst a <=? fst b)%N))
      (List.filter (λ g, 1 <? length g) (hashed (map snd (map_to_list (by_line st)))))).

(** ** Sample *)

Definition dup_state : DocState :=
  mkDocState todo_path
    (map (λ il : option TaskId * bytes, match fst il with Some i => TaskEntry i (OwnedLine_new (snd il) Lf NONE) | None => BlankEntry (OwnedLine_new [] Lf NONE) end)
      [(Some 9, str "buy milk"); (None, []); (Some 3, str "call"); (Some 5, str "buy milk"); (Some 4, str "call")]%N)
    (replicate 5 false) (seq 0 5) (replicate 5 unplaced) (replicate 5 None) (replicate 5 false) ∅ ∅ ∅ false Lf true Sidecar.

Example duplicates_sample :
  duplicate_groups id dup_state = [[(5%N, 4); (9%N, 1)]; [(3%N, 3); (4%N, 5)]] ∧ duplicate_groups (@reverse _) dup_state = duplicate_groups id dup_state.
Proof. vm_compute. split; reflexivity. Qed.

(** ** The groups *)

(** Line [n], from 1, shows this task, compared by this text. *)
Definition shows (st : DocState) (n : nat) (t : TaskId) (k : bytes) : Prop :=
  ∃ i l, n = i + 1 ∧ visible_entries st !! i = Some (TaskEntry t l) ∧ comparable (ds_mode st) l = k.

Lemma by_line_spec st k t n : (t, n) ∈ default [] (by_line st !! k) ↔ shows st n t k.
Proof.
  unfold by_line. match goal with |- context [foldl ?g ∅ _] => set (step := g) end.
  assert (∀ ies m, (t, n) ∈ default [] (foldl step m ies !! k)
    ↔ (t, n) ∈ default [] (m !! k) ∨ ∃ i l, (i, TaskEntry t l) ∈ ies ∧ n = i + 1 ∧ comparable (ds_mode st) l = k) as H.
  { intros ies. induction ies as [|[i e] ies IH]; intros m; cbn [foldl]; [split; [by left|intros [?|(? & ? & ?%not_elem_of_nil & _)]; done]|].
    rewrite IH. clear IH. unfold step at 1. cbn [fst snd]. destruct e as [x l|l]; cbn [snd fst].
    - destruct (decide (comparable (ds_mode st) l = k)) as [<-|Hne].
      + rewrite lookup_insert_eq. cbn [default]. unfold id. rewrite elem_of_app, list_elem_of_singleton. split.
        * intros [[?|[= -> ->]]|(j & l' & Hj & ? & ?)]; [by left|right; exists i, l; split_and!; [left|done|done]|right; exists j, l'; split_and!; [by right|done|done]].
        * intros [?|(j & l' & [[= -> -> ->]|Hj]%elem_of_cons & -> & ?)]; [by left; left|by left; right|right; by exists j, l'].
      + rewrite lookup_insert_ne by done. split.
        * intros [?|(j & l' & Hj & ? & ?)]; [by left|right; exists j, l'; split_and!; [by right|done|done]].
        * intros [?|(j & l' & [[= -> -> ->]|Hj]%elem_of_cons & -> & ?)]; [by left|done|right; by exists j, l'].
    - split.
      + intros [?|(j & l' & Hj & ? & ?)]; [by left|right; exists j, l'; split_and!; [by right|done|done]].
      + intros [?|(j & l' & [[= _]|Hj]%elem_of_cons & -> & ?)]; [by left|right; by exists j, l']. }
  rewrite H, lookup_empty. cbn [default]. unfold shows, indexed_entries. split.
  - intros [?%not_elem_of_nil|(i & l & Hi & ? & ?)]; [done|]. exists i, l. apply elem_of_lookup_imap in Hi as (j & e & [= -> <-] & He). done.
  - intros (i & l & ? & Hi & ?). right. exists i, l. split_and!; [|done|done]. apply elem_of_lookup_imap. by exists i, (TaskEntry t l).
Qed.

Lemma shows_fun st n t k t' k' : shows st n t k → shows st n t' k' → t = t' ∧ k = k'.
Proof. intros (i & l & Hn & Hi & Hk) (i' & l' & Hn' & Hi' & Hk'). assert (i = i') as <- by lia. split; congruence. Qed.

Lemma first_line_elem g : g ≠ [] → ∃ t, (t, first_line g) ∈ g.
Proof.
  intros Hg. unfold first_line. destruct (min_by_Some Nat.leb (map snd g)) as [n Hn]; [by destruct g|]. rewrite Hn. cbn [default].
  apply min_by_elem in Hn. change (map snd) with (fmap (M:=list) (@snd TaskId nat)) in Hn. apply list_elem_of_fmap in Hn as ([t n'] & -> & Hin). by exists t.
Qed.

Section hashed.
Context (hashed : list DuplicateGroup → list DuplicateGroup) (hashed_perm : ∀ l, hashed l ≡ₚ l).

Lemma elem_of_groups st g :
  g ∈ duplicate_groups hashed st ↔ ∃ k g0, by_line st !! k = Some g0 ∧ 1 < length g0 ∧ g = stable_sort (λ a b, (fst a <=? fst b)%N) g0.
Proof using hashed_perm.
  unfold duplicate_groups. rewrite stable_sort_elem. change (map (stable_sort _)) with (fmap (M:=list) (stable_sort (λ a b : TaskId * nat, (fst a <=? fst b)%N))).
  rewrite list_elem_of_fmap. setoid_rewrite list_elem_of_In. setoid_rewrite filter_In. setoid_rewrite <- list_elem_of_In. setoid_rewrite hashed_perm.
  change (map snd) with (fmap (M:=list) (@snd bytes DuplicateGroup)). setoid_rewrite list_elem_of_fmap. setoid_rewrite Nat.ltb_lt. split.
  - intros (g0 & -> & ([k g'] & -> & Hin%elem_of_map_to_list) & Hl). by exists k, g'.
  - intros (k & g0 & Hk & Hl & ->). exists g0. split; [done|]. split; [|done]. exists (k, g0). split; [done|by apply elem_of_map_to_list].
Qed.

(** One group's line is no other's. *)
Lemma first_lines_distinct st : NoDup (map first_line (duplicate_groups hashed st)).
Proof using hashed_perm.
  unfold duplicate_groups. change (map first_line) with (fmap (M:=list) first_line). rewrite stable_sort_perm.
  change (map (stable_sort _)) with (fmap (M:=list) (stable_sort (λ a b : TaskId * nat, (fst a <=? fst b)%N))).
  assert (List.filter (λ g, 1 <? length g) (hashed (map snd (map_to_list (by_line st)))) ≡ₚ List.filter (λ g, 1 <? length g) (map snd (map_to_list (by_line st)))) as ->
    by apply filter_perm, hashed_perm.
  rewrite <- list_fmap_compose. assert (List.filter (λ g : DuplicateGroup, 1 <? length g) (map snd (map_to_list (by_line st)))
    = map snd (List.filter (λ kg : bytes * DuplicateGroup, 1 <? length (snd kg)) (map_to_list (by_line st)))) as ->.
  { symmetry. apply (filter_map_comm snd (λ g : DuplicateGroup, 1 <? length g)). }
  change (map snd) with (fmap (M:=list) (@snd bytes DuplicateGroup)). rewrite <- list_fmap_compose.
  assert (NoDup (List.filter (λ kg : bytes * DuplicateGroup, 1 <? length (snd kg)) (map_to_list (by_line st)))) as Hnd.
  { apply NoDup_ListNoDup, List.NoDup_filter, NoDup_ListNoDup, NoDup_map_to_list. }
  apply NoDup_fmap_2_strong; [|done].
  intros [k g] [k' g'] [Hin%list_elem_of_In Hl]%list_elem_of_In%filter_In [Hin'%list_elem_of_In Hl']%list_elem_of_In%filter_In.
  cbn [compose snd] in *. apply Nat.ltb_lt in Hl, Hl'. apply elem_of_map_to_list in Hin, Hin'. intros He.
  assert (∀ g, 1 < length g → stable_sort (λ a b : TaskId * nat, (fst a <=? fst b)%N) g ≠ []) as Hne.
  { intros x Hx E. pose proof (stable_sort_perm (λ a b : TaskId * nat, (fst a <=? fst b)%N) x) as Hp. rewrite E in Hp. apply Permutation_nil_l in Hp. subst. cbn in Hx. lia. }
  destruct (first_line_elem _ (Hne g Hl)) as [t Ht], (first_line_elem _ (Hne g' Hl')) as [t' Ht'].
  rewrite stable_sort_elem in Ht, Ht'. rewrite <- He in Ht'.
  assert (shows st (first_line (stable_sort (λ a b : TaskId * nat, (fst a <=? fst b)%N) g)) t k) as H1 by (apply by_line_spec; by rewrite Hin).
  assert (shows st (first_line (stable_sort (λ a b : TaskId * nat, (fst a <=? fst b)%N) g)) t' k') as H2 by (apply by_line_spec; by rewrite Hin').
  destruct (shows_fun _ _ _ _ _ _ H1 H2) as [_ ->]. congruence.
Qed.

(** The duplicate groups of a document are exactly the classes of two or more tasks whose lines compare
    equal: each group is all the tasks of one text, with their lines, in the order of their ids; every two
    tasks of equal lines are in one; and the groups come in the order of their first lines, whatever order
    the hash map gave them in. *)
Theorem duplicate_groups_exact st :
  let groups := duplicate_groups hashed st in
  (∀ g, g ∈ groups → 2 ≤ length g ∧ StronglySorted (λ a b, (fst a <= fst b)%N) g ∧ ∃ k, ∀ t n, (t, n) ∈ g ↔ shows st n t k)
  ∧ (∀ k t n t' n', shows st n t k → shows st n' t' k → n ≠ n' → ∃ g, g ∈ groups ∧ (t, n) ∈ g ∧ (t', n') ∈ g)
  ∧ StronglySorted (λ a b, first_line a < first_line b) groups.
Proof using hashed_perm.
  split_and!.
  - intros g (k & g0 & Hk & Hl & ->)%elem_of_groups. rewrite (Permutation_length (stable_sort_perm _ g0)). split_and!; [lia| |].
    + eapply StronglySorted_weaken; [|apply stable_sort_sorted]; [intros a b H; by apply N.leb_le|intros a b; rewrite !N.leb_le; lia|intros a b c; rewrite !N.leb_le; lia].
    + exists k. intros t n. rewrite stable_sort_elem, <- by_line_spec, Hk. done.
  - intros k t n t' n' H H' Hne. apply by_line_spec in H as Hin, H' as Hin'. destruct (by_line st !! k) as [g0|] eqn:Hk; cbn in Hin, Hin'; unfold id in *; [|by apply not_elem_of_nil in Hin].
    exists (stable_sort (λ a b, (fst a <=? fst b)%N) g0). rewrite !stable_sort_elem. split; [|done]. apply elem_of_groups. exists k, g0. split_and!; [done| |done].
    destruct g0 as [|x [|y g0]]; [by apply not_elem_of_nil in Hin| |cbn; lia].
    apply list_elem_of_singleton in Hin, Hin'. rewrite <- Hin' in Hin. congruence.
  - pose proof (first_lines_distinct st) as Hnd. assert (StronglySorted (λ a b, first_line a <= first_line b) (duplicate_groups hashed st)) as Hs.
    { eapply StronglySorted_weaken; [|apply stable_sort_sorted]; [intros a b H; by apply Nat.leb_le|intros a b; rewrite !Nat.leb_le; lia|intros a b c; rewrite !Nat.leb_le; lia]. }
    induction Hs as [|g gs Hs IH Hg]; [constructor|]. cbn in Hnd. apply NoDup_cons in Hnd as [Hn Hnd]. constructor; [by apply IH|].
    apply Forall_forall. intros g' Hg'. apply (proj1 (Forall_forall _ _) Hg) in Hg' as Hle. assert (first_line g ≠ first_line g'); [|lia].
    intros E. apply Hn. rewrite E. change (map first_line) with (fmap (M:=list) first_line). by apply list_elem_of_fmap_2.
Qed.
End hashed.

Lemma duplicate_groups_exact_witness :
  (∀ l : list DuplicateGroup, reverse l ≡ₚ l) ∧ StronglySorted (λ a b, first_line a < first_line b) (duplicate_groups (@reverse _) dup_state).
Proof.
  assert (∀ l : list DuplicateGroup, reverse l ≡ₚ l) as H by (intros l; apply reverse_Permutation).
  split; [exact H|]. destruct (duplicate_groups_exact (@reverse _) H dup_state) as (_ & _ & Hs). exact Hs.
Defined.
