(* ===== verification/UnifiedDiff.v ===== *)
(** A unified diff of two documents: [unified_diff.rs] of [crates/txtodo-engine/src].

    The theorems: the edit script is a script from one document's lines to the other's that keeps as many
    lines as can be kept; and the text printed, read by a reference [patch] that checks the file names and
    every hunk's starts and lengths, and applied to the old bytes, gives the new bytes, whenever the lines
    kept end alike on both sides. *)
From S2P Require Import Prelude.
From S2P Require Import Utf8.
From S2P Require Import Types.

(** ** The standard library's part *)

Definition is_lf (b : byte) : bool := bool_decide (b = x0a).

(** [split_terminator('\n')]. *)
Definition split_terminator (s : bytes) : list bytes :=
  let ws := split_on is_lf s in if bool_decide (last ws = Some []) then removelast ws else ws.

(** The length of the character a text starts with. *)
Definition char_len (l : bytes) : option nat :=
  find (λ k, bool_decide (length <$> decode (take k l) = Some 1)) [1; 2; 3; 4].

(** How many bytes one replacement character stands for, where no character starts: the longest start of
    one. *)
Definition invalid_len (l : bytes) : nat :=
  match l with
  | [] => 0%nat
  | b0 :: r =>
      let second := λ lo hi, match r with b1 :: _ => in_range lo hi b1 | [] => false end in
      let third := match r with _ :: b2 :: _ => is_cont b2 | _ => false end in
      let ok := if in_range 0xE0 0xE0 b0 then second 0xA0 0xBF
                else if in_range 0xE1 0xEC b0 then second 0x80 0xBF
                else if in_range 0xED 0xED b0 then second 0x80 0x9F
                else if in_range 0xEE 0xEF b0 then second 0x80 0xBF
                else if in_range 0xF0 0xF0 b0 then second 0x90 0xBF
                else if in_range 0xF1 0xF3 b0 then second 0x80 0xBF
                else if in_range 0xF4 0xF4 b0 then second 0x80 0x8F
                else false in
      (if negb ok then 1 else if in_range 0xF0%N 0xF4%N b0 && third then 3 else 2)%nat
  end%N.

(** [String::from_utf8_lossy]; each turn takes a byte at least. *)
Fixpoint utf8_lossy (fuel : nat) (l : bytes) : bytes :=
  match fuel, l with
  | 0, _ | _, [] => []
  | S fuel', _ =>
      match char_len l with
      | Some k => take k l ++ utf8_lossy fuel' (drop k l)
      | None => encode_char 0xFFFD ++ utf8_lossy fuel' (drop (invalid_len l) l)
      end
  end.

Definition from_utf8_lossy (l : bytes) : bytes := utf8_lossy (length l) l.

(** ** The edit script *)

Definition CONTEXT : nat := 3.
Definition MAX_LCS_CELLS : N := 4000000.

Inductive Kind := Same | Del | Add.

#[global] Instance Kind_eq_dec : EqDecision Kind.
Proof. solve_decision. Defined.

Abbreviation Script := (list (Kind * bytes)).

(** The lines two lists start with. *)
Definition common (a b : list bytes) : nat := run_while (λ p, bool_decide (fst p = snd p)) (zip a b).

(** One row of the table from the row below it. *)
Fixpoint lcs_row (x : bytes) (b : list bytes) (below : list nat) : list nat :=
  match b, below with
  | y :: b', d :: below' =>
      let row := lcs_row x b' below' in
      (if bool_decide (x = y) then default 0 (head below') + 1 else Nat.max d (default 0 (head row))) :: row
  | _, _ => [0]
  end.

(** [lcs[i][j]]: the longest common subsequence of [a[i..]] and [b[j..]], filled from the end. *)
Definition lcs_table (a b : list bytes) : list (list nat) :=
  foldr (λ x t, lcs_row x b (default [] (head t)) :: t) [replicate (length b + 1) 0] a.

Definition lcs_at (t : list (list nat)) (i j : nat) : nat := default 0 (t !! i ≫= λ row, row !! j).

(** The walk; each turn moves [i] or [j], so both lengths together are enough. *)
Fixpoint lcs_walk (fuel : nat) (t : list (list nat)) (a b : list bytes) (i j : nat) : Script :=
  match fuel with
  | 0 => []
  | S fuel' =>
      match a !! i, b !! j with
      | None, None => []
      | Some x, None => (Del, x) :: lcs_walk fuel' t a b (S i) j
      | None, Some y => (Add, y) :: lcs_walk fuel' t a b i (S j)
      | Some x, Some y =>
          if bool_decide (x = y) then (Same, x) :: lcs_walk fuel' t a b (S i) (S j)
          else if lcs_at t i (S j) <=? lcs_at t (S i) j then (Del, x) :: lcs_walk fuel' t a b (S i) j
          else (Add, y) :: lcs_walk fuel' t a b i (S j)
      end
  end.

Definition middle (a b : list bytes) : Script :=
  if (MAX_LCS_CELLS <? N.of_nat (length a) * N.of_nat (length b))%N then map (Del,.) a ++ map (Add,.) b
  else lcs_walk (length a + length b) (lcs_table a b) a b 0 0.

Definition edit_script (a b : list bytes) : Script :=
  let prefix := common a b in
  let suffix := common (reverse (drop prefix a)) (reverse (drop prefix b)) in
  map (Same,.) (take prefix a) ++ middle (slice prefix (length a - suffix) a) (slice prefix (length b - suffix) b)
  ++ map (Same,.) (drop (length a - suffix) a).

(** ** Hunks *)

Definition kept (k : Kind) : bool := bool_decide (k = Same).

(** One turn of the loop over the script. *)
Definition hunk_step (len : nat) (out : list (nat * nat)) (ik : nat * Kind) : list (nat * nat) :=
  let '(i, k) := ik in
  if kept k then out
  else
    let start := i - CONTEXT in
    let end_ := Nat.min (i + 1 + CONTEXT) len in
    match last out with
    | Some (s, e) => if start <=? e then removelast out ++ [(s, end_)] else out ++ [(start, end_)]
    | None => out ++ [(start, end_)]
    end.

Definition hunks (script : Script) : list (nat * nat) :=
  foldl (hunk_step (length script)) [] (zip (seq 0 (length script)) (map fst script)).

Record Ends := mkEnds { old_lines : nat; new_lines : nat; old_newline : bool; new_newline : bool }.

Definition incomplete (ends : Ends) (old_idx new_idx : option nat) : bool :=
  let old_last := match old_idx with Some i => (i + 1 =? old_lines ends) && negb (old_newline ends) | None => false end in
  let new_last := match new_idx with Some i => (i + 1 =? new_lines ends) && negb (new_newline ends) | None => false end in
  old_last || new_last.

Definition count_side (keep : Kind) (script : Script) : nat :=
  length (List.filter (λ kl, kept (fst kl) || bool_decide (fst kl = keep)) script).

Definition NO_NEWLINE : bytes := str "\ No newline at end of file".

Definition sign_of (k : Kind) : byte := match k with Same => " " | Del => "-" | Add => "+" end%byte.

(** The lines of a hunk's body, markers included. *)
Fixpoint hunk_body (ends : Ends) (old_idx new_idx : nat) (script : Script) : list bytes :=
  match script with
  | [] => []
  | (k, line) :: script' =>
      let old_at := match k with Add => None | _ => Some old_idx end in
      let new_at := match k with Del => None | _ => Some new_idx end in
      (sign_of k :: line) :: (if incomplete ends old_at new_at then [NO_NEWLINE] else [])
      ++ hunk_body ends (match k with Add => old_idx | _ => S old_idx end) (match k with Del => new_idx | _ => S new_idx end) script'
  end.

Definition display_nat (n : nat) : bytes := display_N (N.of_nat n).

Definition hunk_header (old_before old_len new_before new_len : nat) : bytes :=
  let first := λ before len, if len =? 0 then before else before + 1 in
  str "@@ -" ++ display_nat (first old_before old_len) ++ str "," ++ display_nat old_len
  ++ str " +" ++ display_nat (first new_before new_len) ++ str "," ++ display_nat new_len ++ str " @@".

Definition unlines (ls : list bytes) : bytes := concat (map (λ l, l ++ [x0a]) ls).

Definition write_hunk (script : Script) (ends : Ends) (se : nat * nat) : bytes :=
  let before := take (fst se) script in
  let body := slice (fst se) (snd se) script in
  let old_before := count_side Del before in
  let new_before := count_side Add before in
  unlines (hunk_header old_before (count_side Del body) new_before (count_side Add body) :: hunk_body ends old_before new_before body).

Definition ends_of (old new : bytes) : Ends :=
  mkEnds (length (split_terminator old)) (length (split_terminator new)) (ends_with [x0a] old) (ends_with [x0a] new).

(** The script shown: when nothing but the last line's ending differs, that line is removed and added. *)
Definition shown_script (old new : bytes) : Script :=
  let script := edit_script (split_terminator old) (split_terminator new) in
  match last script with
  | Some (_, line) =>
      if forallb (λ kl, kept (fst kl)) script then removelast script ++ [(Del, line); (Add, line)] else script
  | None => script
  end.

Definition unified_diff (path old new : bytes) : bytes :=
  if bool_decide (old = new) then []
  else
    let old := from_utf8_lossy old in
    let new := from_utf8_lossy new in
    let script := shown_script old new in
    unlines [str "--- a/" ++ path; str "+++ b/" ++ path] ++ concat (map (write_hunk script (ends_of old new)) (hunks script)).

Example unified_diff_sample :
  unified_diff (str "todo.txt") (str "one" ++ [x0a] ++ str "two" ++ [x0a] ++ str "three" ++ [x0a]) (str "one" ++ [x0a] ++ str "TWO" ++ [x0a] ++ str "three" ++ [x0a])
  = unlines [str "--- a/todo.txt"; str "+++ b/todo.txt"; str "@@ -1,3 +1,3 @@"; str " one"; str "-two"; str "+TWO"; str " three"].
Proof. vm_compute. reflexivity. Qed.

Example unified_diff_newline :
  unified_diff (str "n") (str "a" ++ [x0a] ++ str "b") (str "a" ++ [x0a] ++ str "b" ++ [x0a])
  = unlines [str "--- a/n"; str "+++ b/n"; str "@@ -1,2 +1,2 @@"; str " a"; str "-b"; NO_NEWLINE; str "+b"].
Proof. vm_compute. reflexivity. Qed.

Example unified_diff_empty :
  unified_diff (str "n") [] (str "first" ++ [x0a]) = unlines [str "--- a/n"; str "+++ b/n"; str "@@ -0,0 +1,1 @@"; str "+first"].
Proof. vm_compute. reflexivity. Qed.

(** ** A reference patch *)

(** A text's lines with their line feeds; the last has none when the text does not end in one. *)
Definition terminated (n : nat) (newline : bool) (i : nat) (l : bytes) : bytes :=
  if (i + 1 =? n) && negb newline then l else l ++ [x0a].
Definition terminated_from (n : nat) (newline : bool) (i : nat) (ls : list bytes) : list bytes :=
  imap (λ k l, terminated n newline (i + k) l) ls.
Definition term_lines (s : bytes) : list bytes :=
  terminated_from (length (split_terminator s)) (ends_with [x0a] s) 0 (split_terminator s).

(** Where a patch stands: the old lines not read yet, how many were, how many new ones were written, how many
    of each the hunk still announces, the text written, and whether the last line read was written. *)
Record Patching := mkPatching {
  pt_rest : list bytes; pt_done : nat; pt_made : nat; pt_old_left : nat; pt_new_left : nat; pt_out : bytes; pt_wrote : bool }.

(** A number and what follows it. *)
Definition read_number (s : bytes) : option (nat * bytes) :=
  let k := run_while is_ascii_digit s in
  (λ n, (N.to_nat n, drop k s)) <$> ascii_number (take k s).

(** A side's [start,len]. *)
Definition read_range (s : bytes) : option (nat * nat * bytes) :=
  sr ← read_number s;
  r ← strip_prefix (str ",") (snd sr);
  nr ← read_number r;
  Some (fst sr, fst nr, snd nr).

(** [@@ -start,len +start,len @@]. *)
Definition read_header (l : bytes) : option ((nat * nat) * (nat * nat)) :=
  r ← strip_prefix (str "@@ -") l;
  o ← read_range r;
  r ← strip_prefix (str " +") (snd o);
  n ← read_range r;
  if bool_decide (snd n = str " @@") then Some (fst o, fst n) else None.

(** The lines before a range: an empty one is numbered by the line before it, any other by its first line,
    counted from 1. *)
Definition lines_before (range : nat * nat) : option nat :=
  match range with (start, 0) => Some start | (0, _) => None | (S start, _) => Some start end.

(** The lines up to a hunk are copied; the hunk before it must have had the lines it announced, and the new
    side must be where the header says. *)
Definition patch_header (p : Patching) (l : bytes) : option Patching :=
  h ← read_header l;
  before ← lines_before (fst h);
  made ← lines_before (snd h);
  let k := before - pt_done p in
  if (pt_done p <=? before) && (pt_old_left p =? 0) && (pt_new_left p =? 0) && (made =? pt_made p + k)
  then Some (mkPatching (drop k (pt_rest p)) before made (snd (fst h)) (snd (snd h)) (pt_out p ++ concat (take k (pt_rest p))) true)
  else None.

Definition without_lf (l : bytes) : bytes := default l (strip_suffix [x0a] l).

(** An old line, which must be the one named and one the hunk announces. *)
Definition patch_old (p : Patching) (l : bytes) : option Patching :=
  match pt_rest p, pt_old_left p with
  | r :: rest, S more =>
      if bool_decide (without_lf r = l)
      then Some (mkPatching rest (S (pt_done p)) (pt_made p) more (pt_new_left p) (pt_out p) false) else None
  | _, _ => None
  end.

(** A new line, one the hunk announces. *)
Definition patch_new (p : Patching) (l : bytes) : option Patching :=
  match pt_new_left p with
  | S more => Some (mkPatching (pt_rest p) (pt_done p) (S (pt_made p)) (pt_old_left p) more (pt_out p ++ l ++ [x0a]) true)
  | 0 => None
  end.

(** A line of the diff: a header, context, a line gone, a line added, or the marker, which takes the line
    feed off the line before it. *)
Definition patch_line (p : Patching) (d : bytes) : option Patching :=
  match d with
  | [] => None
  | b :: l =>
      if bool_decide (b = "@"%byte) then patch_header p d
      else if bool_decide (b = " "%byte) then p ← patch_old p l; patch_new p l
      else if bool_decide (b = "-"%byte) then patch_old p l
      else if bool_decide (b = "+"%byte) then patch_new p l
      else if bool_decide (d = NO_NEWLINE) then
        Some (mkPatching (pt_rest p) (pt_done p) (pt_made p) (pt_old_left p) (pt_new_left p)
          (if pt_wrote p then without_lf (pt_out p) else pt_out p) (pt_wrote p))
      else None
  end.

Definition patch_lines (p : option Patching) (ds : list bytes) : option Patching :=
  foldl (λ p d, p ← p; patch_line p d) p ds.

(** The text a diff makes of [old]; its first two lines name the files, and its last hunk has the lines it
    announced. *)
Definition patch (path diff old : bytes) : option bytes :=
  match split_terminator diff with
  | [] => Some old
  | a :: b :: ds =>
      if bool_decide (a = str "--- a/" ++ path) && bool_decide (b = str "+++ b/" ++ path) then
        p ← patch_lines (Some (mkPatching (term_lines old) 0 0 0 0 [] false)) ds;
        if (pt_old_left p =? 0) && (pt_new_left p =? 0) then Some (pt_out p ++ concat (pt_rest p)) else None
      else None
  | _ => None
  end.

(** Every line kept ends in a line feed on both sides or on neither. *)
Fixpoint kept_alike (ends : Ends) (old_idx new_idx : nat) (script : Script) : bool :=
  match script with
  | [] => true
  | (k, _) :: script' =>
      (match k with Same => Bool.eqb (incomplete ends (Some old_idx) None) (incomplete ends None (Some new_idx)) | _ => true end)
      && kept_alike ends (match k with Add => old_idx | _ => S old_idx end) (match k with Del => new_idx | _ => S new_idx end) script'
  end.

(** A line added under an old last line without a line feed: the marker then stands for both sides, and
    the new text that comes of the diff has no line feed there. *)
Example patch_joins_lines :
  patch (str "n") (unified_diff (str "n") (str "a") (str "a" ++ [x0a] ++ str "b" ++ [x0a])) (str "a") = Some (str "ab" ++ [x0a]).
Proof. vm_compute. reflexivity. Qed.

Example patch_sample :
  let old := str "a" ++ [x0a] ++ str "b" in let new := str "z" ++ [x0a] ++ str "a" ++ [x0a] ++ str "c" in
  patch (str "n") (unified_diff (str "n") old new) old = Some new.
Proof. vm_compute. reflexivity. Qed.

(** ** The script's two sides *)

(** The lines of one side of a script. *)
Definition side (keep : Kind) (script : Script) : list bytes :=
  map snd (List.filter (λ kl, kept (fst kl) || bool_decide (fst kl = keep)) script).

Definition kept_lines (script : Script) : list bytes := map snd (List.filter (λ kl, kept (fst kl)) script).

Lemma side_app keep s1 s2 : side keep (s1 ++ s2) = side keep s1 ++ side keep s2.
Proof. unfold side. by rewrite List.filter_app, map_app. Qed.

Lemma side_cons keep k l s :
  side keep ((k, l) :: s) = (if kept k || bool_decide (k = keep) then [l] else []) ++ side keep s.
Proof. unfold side. cbn. by destruct (_ || _). Qed.

Lemma side_same keep ls : side keep (map (Same,.) ls) = ls.
Proof. induction ls as [|l ls IH]; [done|]. cbn [map]. rewrite side_cons, IH. done. Qed.

Lemma side_del keep ls : keep ≠ Same → side keep (map (Del,.) ls) = if bool_decide (keep = Del) then ls else [].
Proof.
  intros H. induction ls as [|l ls IH]; [by destruct (bool_decide _)|]. cbn [map]. rewrite side_cons, IH. by destruct keep.
Qed.

Lemma side_add keep ls : keep ≠ Same → side keep (map (Add,.) ls) = if bool_decide (keep = Add) then ls else [].
Proof.
  intros H. induction ls as [|l ls IH]; [by destruct (bool_decide _)|]. cbn [map]. rewrite side_cons, IH. by destruct keep.
Qed.

Lemma count_side_length keep s : count_side keep s = length (side keep s).
Proof. unfold count_side, side. by rewrite length_map. Qed.

Lemma drop_lookup {A} (l : list A) i x : l !! i = Some x → drop i l = x :: drop (S i) l.
Proof. intros H. by rewrite <- (take_drop_middle l i x H) at 1; rewrite drop_app_length' by (rewrite length_take; apply lookup_lt_Some in H; lia). Qed.

Lemma lcs_walk_sides fuel t a b i j :
  (length a - i) + (length b - j) ≤ fuel →
  side Del (lcs_walk fuel t a b i j) = drop i a ∧ side Add (lcs_walk fuel t a b i j) = drop j b.
Proof.
  revert i j. induction fuel as [|fuel IH]; intros i j Hf; cbn [lcs_walk].
  { rewrite !drop_ge by lia. done. }
  destruct (a !! i) as [x|] eqn:Ea, (b !! j) as [y|] eqn:Eb.
  - apply lookup_lt_Some in Ea as Hi, Eb as Hj. rewrite (drop_lookup a i x Ea), (drop_lookup b j y Eb).
    case_bool_decide as Exy; [subst y|destruct (_ <=? _)]; rewrite !side_cons; cbn [kept bool_decide orb].
    + destruct (IH (S i) (S j)) as [-> ->]; [lia|]. done.
    + destruct (IH (S i) j) as [-> ->]; [lia|]. by rewrite (drop_lookup b j y Eb).
    + destruct (IH i (S j)) as [-> ->]; [lia|]. by rewrite (drop_lookup a i x Ea).
  - apply lookup_lt_Some in Ea as Hi. rewrite (drop_lookup a i x Ea), !side_cons. destruct (IH (S i) j) as [-> ->]; [lia|]. done.
  - apply lookup_lt_Some in Eb as Hj. rewrite (drop_lookup b j y Eb), !side_cons. destruct (IH i (S j)) as [-> ->]; [lia|]. done.
  - apply lookup_ge_None in Ea, Eb. rewrite !drop_ge by lia. done.
Qed.

Lemma middle_sides a b : side Del (middle a b) = a ∧ side Add (middle a b) = b.
Proof.
  unfold middle. destruct (_ <? _)%N.
  - rewrite !side_app, !side_del, !side_add by done. cbn. by rewrite app_nil_r.
  - apply (lcs_walk_sides _ _ _ _ 0 0). lia.
Qed.

Lemma common_spec a b : common a b ≤ length a ∧ common a b ≤ length b ∧ take (common a b) a = take (common a b) b.
Proof.
  unfold common. revert b. induction a as [|x a IH]; intros [|y b]; cbn [zip zip_with run_while length take]; try (split_and!; [lia|lia|done]).
  cbn [fst snd]. case_bool_decide as E; [|split_and!; [lia|lia|done]]. destruct (IH b) as (H1 & H2 & H3). fold (zip a b).
  split_and!; [cbn; lia|cbn; lia|]. cbn [take]. by rewrite H3, E.
Qed.

(** The parts of an edit script: what both begin with, the two middles, what both end with. *)
Lemma edit_script_parts a b :
  ∃ p am bm s, a = p ++ am ++ s ∧ b = p ++ bm ++ s ∧ edit_script a b = map (Same,.) p ++ middle am bm ++ map (Same,.) s.
Proof.
  unfold edit_script. set (n := common a b). destruct (common_spec a b) as (H1 & H2 & H3). fold n in H1, H2, H3.
  set (k := common (reverse (drop n a)) (reverse (drop n b))).
  destruct (common_spec (reverse (drop n a)) (reverse (drop n b))) as (K1 & K2 & K3). fold k in K1, K2, K3.
  rewrite !length_reverse, !length_drop in *.
  assert (drop (length a - k) a = drop (length b - k) b) as Hs.
  { assert (∀ l : list bytes, n ≤ length l → k ≤ length l - n → drop (length l - k) l = reverse (take k (reverse (drop n l)))) as H.
    { intros l Hn Hk. rewrite take_reverse, reverse_involutive, length_drop, drop_drop. f_equal. lia. }
    rewrite (H a), (H b), K3 by done. done. }
  assert (∀ l : list bytes, k ≤ length l - n → n ≤ length l → l = take n l ++ slice n (length l - k) l ++ drop (length l - k) l) as Hp.
  { intros l Hk Hn. rewrite app_assoc, slice_app_split by lia. by rewrite take_drop. }
  exists (take n a), (slice n (length a - k) a), (slice n (length b - k) b), (drop (length a - k) a).
  split_and!; [by apply Hp|rewrite H3, Hs; by apply Hp|done].
Qed.

Lemma edit_script_sides a b : side Del (edit_script a b) = a ∧ side Add (edit_script a b) = b.
Proof.
  destruct (edit_script_parts a b) as (p & am & bm & s & Ha & Hb & ->). rewrite !side_app, !side_same.
  destruct (middle_sides am bm) as [-> ->]. by split.
Qed.

(** ** As many lines kept as can be *)

(** The longest common subsequence's length, by its recursion. *)
Fixpoint lcs (a : list bytes) : list bytes → nat :=
  match a with
  | [] => λ _, 0
  | x :: a' => fix go (b : list bytes) := match b with
                                          | [] => 0
                                          | y :: b' => if bool_decide (x = y) then S (lcs a' b') else Nat.max (lcs a' b) (go b')
                                          end
  end.

Lemma lcs_longest a b c : sublist c a → sublist c b → length c ≤ lcs a b.
Proof.
  revert b c. induction a as [|x a IH]; intros b c Ha Hb; [apply sublist_nil_r in Ha as ->; done|].
  induction b as [|y b IHb] in c, Ha, Hb |- *; [apply sublist_nil_r in Hb as ->; cbn; lia|]. cbn [lcs].
  case_bool_decide as E.
  - subst y. destruct c as [|z c]; [cbn; lia|]. cbn. apply le_n_S, IH.
    + inversion Ha; subst; [done|]. etrans; [by apply sublist_cons|done].
    + inversion Hb; subst; [done|]. etrans; [by apply sublist_cons|done].
  - inversion Ha as [|? ? ? Ha'|? ? ? Ha']; subst; [|etrans; [by apply (IH (y :: b))|apply Nat.le_max_l]].
    inversion Hb as [|? ? ? Hb'|? ? ? Hb']; subst; [done|]. etrans; [apply IHb; [by constructor|done]|apply Nat.le_max_r].
Qed.

Fixpoint lcs_rows (a b : list bytes) : list nat := lcs a b :: match b with [] => [] | _ :: b' => lcs_rows a b' end.

Lemma lcs_nil_r a : lcs a [] = 0.
Proof. by destruct a. Qed.

Lemma lcs_row_spec x a b : lcs_row x b (lcs_rows a b) = lcs_rows (x :: a) b.
Proof.
  induction b as [|y b IH]; [done|]. cbn [lcs_row]. change (lcs_rows a (y :: b)) with (lcs a (y :: b) :: lcs_rows a b). cbn iota beta.
  rewrite IH. change (lcs_rows (x :: a) (y :: b)) with (lcs (x :: a) (y :: b) :: lcs_rows (x :: a) b). f_equal.
  assert (∀ c, default 0 (head (lcs_rows c b)) = lcs c b) as Hh by (intros c; by destruct b). rewrite !Hh. cbn [lcs].
  case_bool_decide; [lia|done].
Qed.

Lemma lcs_rows_lookup a b j : j ≤ length b → lcs_rows a b !! j = Some (lcs a (drop j b)).
Proof. revert j. induction b as [|y b IH]; intros [|j] Hj; cbn in *; [done|lia|done|]. apply IH. lia. Qed.

Lemma lcs_table_at a b i j : i ≤ length a → j ≤ length b → lcs_at (lcs_table a b) i j = lcs (drop i a) (drop j b).
Proof.
  intros Hi Hj. unfold lcs_at. enough (lcs_table a b !! i = Some (lcs_rows (drop i a) b)) as -> by (cbn; by rewrite lcs_rows_lookup).
  assert (replicate (length b + 1) 0 = lcs_rows [] b) as Hbase.
  { clear. induction b as [|y b IH]; [done|]. cbn. by rewrite <- IH. }
  revert i Hi. unfold lcs_table. rewrite Hbase. induction a as [|x a IH]; intros i Hi; [destruct i; [done|cbn in Hi; lia]|]. cbn [foldr].
  assert (head (foldr (λ x t, lcs_row x b (default [] (head t)) :: t) [lcs_rows [] b] a) = Some (lcs_rows a b)) as Hh.
  { specialize (IH 0 ltac:(lia)). rewrite drop_0 in IH. by rewrite <- head_lookup in IH. }
  rewrite Hh. cbn [default]. unfold id. rewrite lcs_row_spec. destruct i as [|i]; [done|]. cbn [lookup list_lookup drop]. apply IH. cbn in Hi. lia.
Qed.

Lemma kept_same x s : kept_lines ((Same, x) :: s) = x :: kept_lines s.
Proof. done. Qed.

Lemma lcs_walk_keeps fuel a b i j :
  i ≤ length a → j ≤ length b → (length a - i) + (length b - j) ≤ fuel →
  length (kept_lines (lcs_walk fuel (lcs_table a b) a b i j)) = lcs (drop i a) (drop j b).
Proof.
  revert i j. induction fuel as [|fuel IH]; intros i j Hi Hj Hf; cbn [lcs_walk].
  { rewrite (drop_ge a) by lia. done. }
  destruct (a !! i) as [x|] eqn:Ea, (b !! j) as [y|] eqn:Eb.
  - apply lookup_lt_Some in Ea as Hi', Eb as Hj'. rewrite (drop_lookup a i x Ea), (drop_lookup b j y Eb). cbn [lcs].
    case_bool_decide as Exy; [rewrite kept_same; cbn [length]; f_equal; apply IH; lia|].
    rewrite !lcs_table_at by lia. change ((fix go (b : list bytes) := match b with [] => 0 | y :: b' => if bool_decide (x = y) then S (lcs (drop (S i) a) b') else Nat.max (lcs (drop (S i) a) b) (go b') end) (drop (S j) b))
      with (lcs (x :: drop (S i) a) (drop (S j) b)). rewrite <- (drop_lookup a i x Ea), <- (drop_lookup b j y Eb).
    destruct (Nat.leb_spec (lcs (drop i a) (drop (S j) b)) (lcs (drop (S i) a) (drop j b)));
      [change (kept_lines ((Del, x) :: ?s)) with (kept_lines s)|change (kept_lines ((Add, y) :: ?s)) with (kept_lines s)]; rewrite IH by lia; lia.
  - apply lookup_lt_Some in Ea as Hi'. change (kept_lines ((Del, x) :: ?s)) with (kept_lines s). rewrite IH by lia. apply lookup_ge_None in Eb. by rewrite (drop_ge b), !lcs_nil_r by lia.
  - apply lookup_lt_Some in Eb as Hj'. change (kept_lines ((Add, y) :: ?s)) with (kept_lines s). rewrite IH by lia. apply lookup_ge_None in Ea. by rewrite (drop_ge a) by lia.
  - apply lookup_ge_None in Ea. by rewrite (drop_ge a) by lia.
Qed.

Lemma kept_app s1 s2 : kept_lines (s1 ++ s2) = kept_lines s1 ++ kept_lines s2.
Proof. unfold kept_lines. by rewrite List.filter_app, map_app. Qed.

Lemma kept_all ls : kept_lines (map (Same,.) ls) = ls.
Proof. induction ls as [|l ls IH]; [done|]. cbn [map]. by rewrite kept_same, IH. Qed.

(** A line both begin with costs nothing. *)
Lemma sublist_tail {A} (c : list A) x a : sublist c (x :: a) → sublist (tail c) a.
Proof. intros H. inversion H; subst; [done|]. destruct c as [|y c]; [by apply sublist_nil_l|]. cbn. etrans; [by apply sublist_cons|done]. Qed.

Lemma common_head_bound {A} (p a b : list A) n :
  (∀ c, sublist c a → sublist c b → length c ≤ n) → ∀ c, sublist c (p ++ a) → sublist c (p ++ b) → length c ≤ length p + n.
Proof.
  intros H. induction p as [|x p IH]; intros c Ha Hb; cbn in *; [by apply H|].
  specialize (IH (tail c) (sublist_tail _ _ _ Ha) (sublist_tail _ _ _ Hb)). destruct c; cbn in *; lia.
Qed.

Lemma sublist_reverse {A} (c l : list A) : sublist c l → sublist (reverse c) (reverse l).
Proof.
  induction 1 as [|x c l _ IH|x c l _ IH]; [done| |]; rewrite !reverse_cons; [by apply sublist_app|]. by apply sublist_inserts_r.
Qed.

Lemma common_tail_bound {A} (s a b : list A) n :
  (∀ c, sublist c a → sublist c b → length c ≤ n) → ∀ c, sublist c (a ++ s) → sublist c (b ++ s) → length c ≤ n + length s.
Proof.
  intros H c Ha Hb. rewrite <- (length_reverse c), Nat.add_comm, <- (length_reverse s).
  apply (common_head_bound (reverse s) (reverse a) (reverse b)); [|by rewrite <- reverse_app; apply sublist_reverse|by rewrite <- reverse_app; apply sublist_reverse].
  intros d Hd He. rewrite <- (length_reverse d). apply H; [rewrite <- (reverse_involutive a)|rewrite <- (reverse_involutive b)]; by apply sublist_reverse.
Qed.

(** The script behind a unified diff leads from the one document's lines to the other's, and keeps as
    many lines as any common subsequence has, while the middle left between what both begin and end with is
    within the table's bound (past it, the middle is replaced whole). *)
Theorem edit_script_minimal a b :
  side Del (edit_script a b) = a ∧ side Add (edit_script a b) = b
  ∧ ((N.of_nat (length a) * N.of_nat (length b) <= MAX_LCS_CELLS)%N →
     ∀ c, sublist c a → sublist c b → length c ≤ length (kept_lines (edit_script a b))).
Proof.
  destruct (edit_script_sides a b) as [Ha Hb]. split_and!; [done|done|]. clear Ha Hb. intros Hcap.
  destruct (edit_script_parts a b) as (p & am & bm & s & -> & -> & ->). rewrite !kept_app, !kept_all, !length_app.
  unfold middle. rewrite !length_app in Hcap. rewrite (proj2 (N.ltb_ge _ _)) by nia.
  rewrite lcs_walk_keeps, !drop_0 by lia. apply common_head_bound, common_tail_bound. apply lcs_longest.
Qed.

Lemma edit_script_minimal_witness :
  (N.of_nat (length [str "a"; str "b"; str "c"]) * N.of_nat (length [str "b"; str "c"; str "a"]) <= MAX_LCS_CELLS)%N
  ∧ ∀ c, sublist c [str "a"; str "b"; str "c"] → sublist c [str "b"; str "c"; str "a"] → length c ≤ 2.
Proof.
  assert ((N.of_nat (length [str "a"; str "b"; str "c"]) * N.of_nat (length [str "b"; str "c"; str "a"]) <= MAX_LCS_CELLS)%N) as Hcap by (vm_compute; discriminate).
  split; [exact Hcap|]. destruct (edit_script_minimal [str "a"; str "b"; str "c"] [str "b"; str "c"; str "a"]) as (_ & _ & H). exact (H Hcap).
Defined.

(** ** Lossy decoding of text *)

Lemma encode_char_length c : 1 ≤ length (encode_char c) ≤ 4.
Proof. unfold encode_char. repeat case_match; cbn; lia. Qed.

Lemma decode_one c : is_scalar c = true → decode (encode_char c) = Some [c].
Proof. intros H. rewrite <- (app_nil_r (encode_char c)), decode_encode_char by done. done. Qed.

Lemma char_len_encode c r : is_scalar c = true → char_len (encode_char c ++ r) = Some (length (encode_char c)).
Proof.
  intros Hc. unfold char_len. pose proof (encode_char_length c) as Hlen. set (n := length (encode_char c)) in *.
  assert (bool_decide (length <$> decode (take n (encode_char c ++ r)) = Some 1) = true) as Hn.
  { apply bool_decide_eq_true. unfold n. by rewrite take_app_length, decode_one. }
  assert (∀ k, 1 ≤ k → k < n → bool_decide (length <$> decode (take k (encode_char c ++ r)) = Some 1) = false) as Hk.
  { intros k H1 Hkn. apply bool_decide_eq_false. rewrite take_app_le by (unfold n in Hkn; lia). intros (cs & Hd & Hl)%fmap_Some.
    destruct cs as [|d [|]]; try done. apply decode_sound in Hd as [Henc Hall]. cbn in Henc. rewrite app_nil_r in Henc. apply Forall_cons in Hall as [Hds _].
    assert (encode_char c = encode_char d ++ drop k (encode_char c)) as Hsplit by (rewrite Henc; by rewrite take_drop).
    destruct (encode_char_shape c Hc) as (b & t & Hb & _ & Ht). pose proof (decode_one c Hc) as Hone. rewrite Hsplit, decode_encode_char in Hone by done.
    destruct (drop k (encode_char c)) as [|e u] eqn:Ed; [apply (f_equal length) in Ed; rewrite length_drop in Ed; cbn in Ed; unfold n in *; lia|].
    rewrite decode_cont_head in Hone; [done|]. destruct k as [|k]; [lia|]. rewrite Hb in Ed. cbn in Ed.
    apply (Forall_drop _ k) in Ht. rewrite Ed in Ht. by apply Forall_cons in Ht as [? _]. }
  destruct (decide (n = 1)) as [E|]; [rewrite E in *; cbn [find]; by rewrite Hn|]. cbn [find]. rewrite (Hk 1) by lia.
  destruct (decide (n = 2)) as [E|]; [rewrite E in *; by rewrite Hn|]. rewrite (Hk 2) by lia.
  destruct (decide (n = 3)) as [E|]; [rewrite E in *; by rewrite Hn|]. rewrite (Hk 3) by lia. assert (n = 4) as E by lia. rewrite E in *. by rewrite Hn.
Qed.

Lemma lossy_text l : is_utf8 l = true → from_utf8_lossy l = l.
Proof.
  intros H. unfold from_utf8_lossy. apply bool_decide_eq_true in H as [cs H].
  enough (∀ fuel, length l ≤ fuel → utf8_lossy fuel l = l) as Hf by (by apply Hf).
  revert l H. induction cs as [|c cs IH]; intros l H fuel Hf; destruct (decode_inv _ _ H) as [[-> ?]|(c' & cs' & r & He & Hs & -> & Hr)]; try done; [by destruct fuel|].
  injection He as <- <-. pose proof (encode_char_length c) as Hlen. rewrite length_app in Hf. destruct fuel as [|fuel]; [lia|]. cbn [utf8_lossy].
  destruct (encode_char c ++ r) as [|b t] eqn:E; [apply (f_equal length) in E; rewrite length_app in E; cbn in E; lia|]. rewrite <- E.
  rewrite char_len_encode, take_app_length, drop_app_length by done. f_equal. apply IH; [done|lia].
Qed.

(** ** Lines of text *)

Definition one_line (l : bytes) : Prop := Forall (λ b, is_lf b = false) l.

Lemma unlines_app a b : unlines (a ++ b) = unlines a ++ unlines b.
Proof. unfold unlines. by rewrite map_app, concat_app. Qed.

Lemma unlines_cons l ls : unlines (l :: ls) = l ++ x0a :: unlines ls.
Proof. unfold unlines. cbn. by rewrite <- app_assoc. Qed.

Lemma split_unlines ls : Forall one_line ls → split_on is_lf (unlines ls) = ls ++ [[]].
Proof.
  induction 1 as [|l ls Hl _ IH]; [done|]. rewrite unlines_cons, split_on_app by done. by rewrite (split_on_none _ l Hl), IH.
Qed.

Lemma split_terminator_unlines ls : Forall one_line ls → split_terminator (unlines ls) = ls.
Proof.
  intros H. unfold split_terminator. rewrite split_unlines, last_snoc by done. cbn. by rewrite removelast_last.
Qed.

Lemma split_one_lines s : Forall one_line (split_on is_lf s).
Proof.
  induction s as [|b s IH]; cbn; [by repeat constructor|]. destruct (is_lf b) eqn:Eb; [constructor; [constructor|done]|].
  destruct (split_on is_lf s) as [|w ws]; [by repeat constructor|]. apply Forall_cons in IH as [Hw IH]. constructor; [by constructor|done].
Qed.

(** A text by its lines: all end in a line feed, but perhaps the last. *)
Lemma split_terminator_view s :
  ∃ ls w, s = unlines ls ++ w ∧ Forall one_line ls ∧ one_line w ∧ split_terminator s = ls ++ (if bool_decide (w = []) then [] else [w])
  ∧ ends_with [x0a] s = bool_decide (w = []) && negb (bool_decide (ls = [])).
Proof.
  pose proof (join_split_on x0a is_lf s) as Hj. pose proof (split_one_lines s) as Hf. pose proof (split_on_nonempty is_lf s) as Hne.
  unfold split_terminator. destruct (split_on is_lf s) as [|w ls _] using rev_ind; [done|]. rewrite last_snoc.
  assert (∀ ls w, join_with [x0a] (ls ++ [w]) = unlines ls ++ w) as Hjoin.
  { clear. intros ls w. induction ls as [|l ls IH]; [done|]. cbn [app join_with]. rewrite unlines_cons, <- app_assoc. cbn [app].
    destruct (ls ++ [w]) as [|x xs] eqn:E; [by destruct ls|]. rewrite <- E in *. f_equal. cbn. f_equal. exact IH. }
  rewrite Hjoin in Hj. specialize (Hj ltac:(intros x Hx; by apply bool_decide_eq_true in Hx)). apply Forall_app in Hf as [Hls [Hw _]%Forall_cons].
  exists ls, w. split_and!; [done|done|done| |].
  - destruct (decide (w = [])) as [->|Hn].
    + rewrite !bool_decide_eq_true_2 by done. by rewrite removelast_last, app_nil_r.
    + rewrite (bool_decide_eq_false_2 (w = [])) by done. rewrite bool_decide_eq_false_2 by congruence. done.
  - subst s. unfold ends_with. destruct w as [|b w _] using rev_ind.
    + rewrite app_nil_r, (bool_decide_eq_true_2 (([] : bytes) = [])) by done. destruct ls as [|l ls _] using rev_ind; [done|].
      rewrite (bool_decide_eq_false_2 (ls ++ [l] = [])) by (by intros [_ ?]%app_eq_nil). cbn [negb andb]. apply bool_decide_eq_true. exists (unlines ls ++ l).
      apply strip_suffix_spec. rewrite unlines_app, unlines_cons. by rewrite <- app_assoc.
    + rewrite (bool_decide_eq_false_2 (w ++ [b] = [])) by (by intros [_ ?]%app_eq_nil). cbn [andb]. apply bool_decide_eq_false. intros [r Hr%strip_suffix_spec].
      rewrite app_assoc in Hr. apply app_inj_tail in Hr as [_ ->]. apply Forall_app in Hw as [_ [Hb _]%Forall_cons]. done.
Qed.

Lemma terminated_from_cons n nl i l ls : terminated_from n nl i (l :: ls) = terminated n nl i l :: terminated_from n nl (S i) ls.
Proof. unfold terminated_from. cbn. rewrite Nat.add_0_r. f_equal. apply imap_ext. intros k x _. cbn. by rewrite <- plus_n_Sm. Qed.

Lemma terminated_from_app n nl i l1 l2 :
  terminated_from n nl i (l1 ++ l2) = terminated_from n nl i l1 ++ terminated_from n nl (i + length l1) l2.
Proof.
  revert i. induction l1 as [|l l1 IH]; intros i; [cbn; by rewrite Nat.add_0_r|]. cbn [app length]. rewrite !terminated_from_cons, IH, <- plus_n_Sm. done.
Qed.

Lemma terminated_from_length n nl i ls : length (terminated_from n nl i ls) = length ls.
Proof. unfold terminated_from. apply length_imap. Qed.

Lemma terminated_before n nl i ls : i + length ls < n ∨ nl = true → concat (terminated_from n nl i ls) = unlines ls.
Proof.
  intros H. induction ls as [|l ls IH] in i, H |- *; [done|]. rewrite terminated_from_cons, unlines_cons. cbn [concat length] in *. rewrite IH by (destruct H; [left; lia|by right]).
  unfold terminated. rewrite (proj2 (andb_false_iff _ _)); [by rewrite <- app_assoc|]. destruct H as [H| ->]; [left; apply Nat.eqb_neq; lia|by right].
Qed.

Lemma term_lines_concat s : concat (term_lines s) = s.
Proof.
  unfold term_lines. destruct (split_terminator_view s) as (ls & w & Hs & _ & _ & -> & ->). destruct (decide (w = [])) as [->|Hw].
  - rewrite !bool_decide_eq_true_2 by done. rewrite Hs, !app_nil_r. cbn [andb]. destruct ls as [|l ls]; [done|]. apply terminated_before. by right.
  - rewrite !(bool_decide_eq_false_2 (w = [])) by done. cbn [andb]. rewrite terminated_from_app, concat_app, Nat.add_0_l, length_app. cbn [length].
    rewrite terminated_before by (left; lia). rewrite Hs. f_equal. rewrite terminated_from_cons. cbn. unfold terminated. by rewrite Nat.eqb_refl, app_nil_r.
Qed.

Lemma without_lf_snoc l : without_lf (l ++ [x0a]) = l.
Proof. unfold without_lf. by rewrite (proj2 (strip_suffix_spec [x0a] (l ++ [x0a]) l) eq_refl). Qed.

Lemma without_lf_one l : one_line l → without_lf l = l.
Proof.
  intros H. unfold without_lf. destruct (strip_suffix [x0a] l) as [r|] eqn:E; [|done]. apply strip_suffix_spec in E as ->.
  apply Forall_app in H as [_ [Hb _]%Forall_cons]. done.
Qed.

Lemma without_lf_terminated n nl i l : one_line l → without_lf (terminated n nl i l) = l.
Proof. intros H. unfold terminated. destruct (_ && _); [by apply without_lf_one|by apply without_lf_snoc]. Qed.

(** ** The hunks *)

(** Every change of the script up to [i] is in a hunk; hunks are in order and apart. *)
Fixpoint covers (script : Script) (p : nat) (hs : list (nat * nat)) (i : nat) : Prop :=
  match hs with
  | [] => ∀ k x, p ≤ k → k < i → script !! k = Some x → kept (fst x) = true
  | (s, e) :: hs' =>
      p ≤ s ∧ s ≤ e ∧ e ≤ length script ∧ (∀ k x, p ≤ k → k < s → script !! k = Some x → kept (fst x) = true) ∧ covers script e hs' i
  end.

Definition hunks_end (p : nat) (hs : list (nat * nat)) : nat := match last hs with Some (_, e) => e | None => p end.

Lemma hunks_end_cons p s e hs : hunks_end p ((s, e) :: hs) = hunks_end e hs.
Proof. unfold hunks_end. by destruct hs as [|h hs] using rev_ind; [|rewrite app_comm_cons, !last_snoc]. Qed.

Lemma covers_weaken script p hs i j : covers script p hs i → j ≤ i → covers script p hs j.
Proof.
  revert p. induction hs as [|[s e] hs IH]; intros p; cbn [covers]; [intros H Hj k x Hp Hk; apply H; lia|].
  intros (? & ? & ? & ? & H) Hj. split_and!; try done. by apply IH.
Qed.

Lemma covers_grow script p hs i : covers script p hs i → (∀ x, script !! i = Some x → kept (fst x) = true) → covers script p hs (S i).
Proof.
  revert p. induction hs as [|[s e] hs IH]; intros p; cbn [covers].
  - intros H Hi k x Hp Hk Hx. destruct (decide (k = i)) as [->|]; [by apply Hi|]. apply (H k); [done|lia|done].
  - intros (? & ? & ? & ? & H) Hi. split_and!; try done. by apply IH.
Qed.

Lemma covers_snoc script p hs s e i :
  covers script p (hs ++ [(s, e)]) i
  ↔ covers script p hs s ∧ hunks_end p hs ≤ s ∧ s ≤ e ∧ e ≤ length script ∧ ∀ k x, e ≤ k → k < i → script !! k = Some x → kept (fst x) = true.
Proof.
  revert p. induction hs as [|[s' e'] hs IH]; intros p; cbn [app covers].
  - unfold hunks_end. cbn. naive_solver.
  - rewrite IH, hunks_end_cons. naive_solver.
Qed.

Lemma hunk_step_covers script out i k x :
  script !! i = Some x → k = fst x → covers script 0 out i → hunks_end 0 out ≤ i + CONTEXT →
  covers script 0 (hunk_step (length script) out (i, k)) (S i) ∧ hunks_end 0 (hunk_step (length script) out (i, k)) ≤ S i + CONTEXT.
Proof.
  intros Hx -> Hc He. pose proof (lookup_lt_Some _ _ _ Hx) as Hi. unfold hunk_step. destruct (kept (fst x)) eqn:Ek.
  { split; [|lia]. apply covers_grow; [done|]. intros y Hy. congruence. }
  assert (∀ k y, Nat.min (i + 1 + CONTEXT) (length script) ≤ k → k < S i → script !! k = Some y → kept (fst y) = true) as Hvac by (intros j y Hj Hj' Hy; lia).
  assert (∀ o s, hunks_end 0 (o ++ [(s, Nat.min (i + 1 + CONTEXT) (length script))]) ≤ S i + CONTEXT) as Hend by (intros o s; unfold hunks_end; rewrite last_snoc; lia).
  assert (hunks_end 0 out ≤ i - CONTEXT → covers script 0 (out ++ [(i - CONTEXT, Nat.min (i + 1 + CONTEXT) (length script))]) (S i)) as Hpush.
  { intros Hle. apply covers_snoc. split_and!; [apply (covers_weaken _ _ _ i); [done|lia]|done|lia|lia|exact Hvac]. }
  destruct out as [|[s e] out _] using rev_ind; [cbn [last]; split; [apply Hpush; unfold hunks_end; cbn; lia|apply Hend]|].
  rewrite last_snoc. destruct (Nat.leb_spec (i - CONTEXT) e) as [Hle|Hgt].
  - rewrite removelast_last. split; [|apply Hend]. apply covers_snoc in Hc as (H1 & H2 & H3 & H4 & H5). apply covers_snoc.
    unfold hunks_end in He. rewrite last_snoc in He. split_and!; [done|done|lia|lia|exact Hvac].
  - split; [|apply Hend]. apply Hpush. unfold hunks_end. rewrite last_snoc. lia.
Qed.

Lemma hunks_cover script : covers script 0 (hunks script) (length script).
Proof.
  unfold hunks. assert (∀ rest i out, drop i script = rest → covers script 0 out i → hunks_end 0 out ≤ i + CONTEXT →
    covers script 0 (foldl (hunk_step (length script)) out (zip (seq i (length rest)) (map fst rest))) (i + length rest)) as H.
  { intros rest. induction rest as [|x rest IH]; intros i out Hd Hc He; [cbn; by rewrite Nat.add_0_r|].
    cbn [length seq map zip zip_with foldl]. fold (zip (seq (S i) (length rest)) (map fst rest)).
    assert (script !! i = Some x) as Hx by (rewrite <- (Nat.add_0_r i), <- lookup_drop, Hd; done).
    destruct (hunk_step_covers script out i (fst x) x Hx eq_refl Hc He) as [Hc' He']. rewrite <- plus_n_Sm. apply (IH (S i)); [|done|done].
    rewrite <- (Nat.add_1_r i), <- drop_drop, Hd. done. }
  apply (H script 0 []); [by rewrite drop_0| |cbn; lia]. cbn. intros; lia.
Qed.

(** ** Reading a hunk *)

Lemma run_while_all {A} (p : A → bool) l r :
  Forall (λ x, p x = true) l → (∀ x, head r = Some x → p x = false) → run_while p (l ++ r) = length l.
Proof. induction 1 as [|x l Hx _ IH]; intros Hr; cbn [app run_while length]; [|by rewrite Hx, IH]. destruct r as [|x r]; [done|]. cbn. by rewrite (Hr x). Qed.

Lemma read_number_display n r :
  (∀ b, head r = Some b → is_ascii_digit b = false) → read_number (display_nat n ++ r) = Some (n, r).
Proof.
  intros Hr. unfold read_number, display_nat. rewrite run_while_all by (first [apply display_N_digits|done]).
  rewrite take_app_length, drop_app_length, ascii_number_display. cbn. by rewrite Nat2N.id.
Qed.

Lemma read_range_display n k r :
  (∀ b, head r = Some b → is_ascii_digit b = false) → read_range (display_nat n ++ str "," ++ display_nat k ++ r) = Some (n, k, r).
Proof.
  intros Hr. unfold read_range. rewrite read_number_display by (intros b [= <-]; done). cbn [mbind option_bind snd fst].
  rewrite (proj2 (strip_prefix_spec (str ",") _ _) eq_refl). cbn [mbind option_bind]. by rewrite read_number_display.
Qed.

Lemma read_hunk_header ob ol nb nl :
  read_header (hunk_header ob ol nb nl) = Some ((if ol =? 0 then ob else ob + 1, ol), (if nl =? 0 then nb else nb + 1, nl)).
Proof.
  unfold read_header, hunk_header. rewrite (proj2 (strip_prefix_spec (str "@@ -") _ _) eq_refl). cbn [mbind option_bind].
  rewrite read_range_display by (intros b [= <-]; done). cbn [mbind option_bind snd fst].
  rewrite (proj2 (strip_prefix_spec (str " +") _ _) eq_refl). cbn [mbind option_bind].
  rewrite read_range_display by (intros b [= <-]; done). done.
Qed.

Lemma lines_before_first before len : lines_before (if len =? 0 then before else before + 1, len) = Some before.
Proof. destruct len; [by destruct before|]. rewrite Nat.add_1_r. done. Qed.

Lemma patch_lines_cons p d ds : patch_lines (Some p) (d :: ds) = patch_lines (patch_line p d) ds.
Proof. done. Qed.

Lemma patch_lines_app p ds1 ds2 : patch_lines p (ds1 ++ ds2) = patch_lines (patch_lines p ds1) ds2.
Proof. apply foldl_app. Qed.

Section reading.
Context (ends : Ends).

(** The old and new lines of a part of the script that starts at these rows. *)
Abbreviation olds oi s := (terminated_from (old_lines ends) (old_newline ends) oi (side Del s)).
Abbreviation news ni s := (terminated_from (new_lines ends) (new_newline ends) ni (side Add s)).

Lemma terminated_old oi l : terminated (old_lines ends) (old_newline ends) oi l = if incomplete ends (Some oi) None then l else l ++ [x0a].
Proof. unfold terminated, incomplete. by rewrite orb_false_r. Qed.

Lemma terminated_new ni l : terminated (new_lines ends) (new_newline ends) ni l = if incomplete ends None (Some ni) then l else l ++ [x0a].
Proof. done. Qed.

Lemma incomplete_or oi ni : incomplete ends (Some oi) (Some ni) = incomplete ends (Some oi) None || incomplete ends None (Some ni).
Proof. unfold incomplete. by rewrite orb_false_r. Qed.

Lemma marker_after rest n m ol nl out l w :
  patch_line (mkPatching rest n m ol nl (out ++ l ++ [x0a]) w) NO_NEWLINE
  = Some (mkPatching rest n m ol nl (if w then out ++ l else out ++ l ++ [x0a]) w).
Proof.
  destruct w; [|done].
  change (Some (mkPatching rest n m ol nl (without_lf (out ++ l ++ [x0a])) true) = Some (mkPatching rest n m ol nl (out ++ l) true)).
  by rewrite app_assoc, without_lf_snoc.
Qed.

Lemma patch_old_reads r rest n m ol nl out w l : one_line l → r = l ∨ r = l ++ [x0a] →
  patch_old (mkPatching (r :: rest) n m (S ol) nl out w) l = Some (mkPatching rest (S n) m ol nl out false).
Proof.
  intros Hl Hr. unfold patch_old. cbn [pt_rest pt_old_left].
  by rewrite bool_decide_eq_true_2 by (destruct Hr as [->| ->]; [by apply without_lf_one|by apply without_lf_snoc]).
Qed.

Lemma context_after r rest n m ol nl out w l : one_line l → r = l ∨ r = l ++ [x0a] →
  patch_line (mkPatching (r :: rest) n m (S ol) (S nl) out w) (sign_of Same :: l)
  = Some (mkPatching rest (S n) (S m) ol nl (out ++ l ++ [x0a]) true).
Proof.
  intros Hl Hr. change (patch_line ?p _) with (p' ← patch_old p l; patch_new p' l). by rewrite patch_old_reads.
Qed.

Lemma removal_after r rest n m ol nl out w l : one_line l → r = l ∨ r = l ++ [x0a] →
  patch_line (mkPatching (r :: rest) n m (S ol) nl out w) (sign_of Del :: l) = Some (mkPatching rest (S n) m ol nl out false).
Proof. intros Hl Hr. change (patch_line ?p _) with (patch_old p l). by rewrite patch_old_reads. Qed.

Lemma terminated_cases n nl i l : terminated n nl i l = l ∨ terminated n nl i l = l ++ [x0a].
Proof. unfold terminated. destruct (_ && _); [by left|by right]. Qed.

(** A marker, or none, after a line just read. *)
Lemma marker_lines (flag : bool) rest n m ol nl out l w ds :
  patch_lines (Some (mkPatching rest n m ol nl (out ++ l ++ [x0a]) w)) ((if flag then [NO_NEWLINE] else []) ++ ds)
  = patch_lines (Some (mkPatching rest n m ol nl (out ++ if flag && w then l else l ++ [x0a]) w)) ds.
Proof. destruct flag; [|done]. cbn [app]. rewrite patch_lines_cons, marker_after. by destruct w. Qed.

Lemma hunk_body_reads s oi ni rest out w :
  Forall (λ kl, one_line (snd kl)) s → kept_alike ends oi ni s = true →
  ∃ w', patch_lines (Some (mkPatching (olds oi s ++ rest) oi ni (length (side Del s)) (length (side Add s)) out w)) (hunk_body ends oi ni s)
    = Some (mkPatching rest (oi + length (side Del s)) (ni + length (side Add s)) 0 0 (out ++ concat (news ni s)) w').
Proof using.
  revert oi ni out w. induction s as [|[k l] s IH]; intros oi ni out w Hl Ha; [exists w; cbn; by rewrite app_nil_r, !Nat.add_0_r|].
  apply Forall_cons in Hl as [Hl Hs]. cbn [fst snd] in Hl. cbn [kept_alike] in Ha. apply andb_true_iff in Ha as [Ha Hrest]. cbn [hunk_body].
  rewrite patch_lines_cons. destruct k;
    [change (side Del ((Same, l) :: s)) with (l :: side Del s); change (side Add ((Same, l) :: s)) with (l :: side Add s)
    |change (side Del ((Del, l) :: s)) with (l :: side Del s); change (side Add ((Del, l) :: s)) with (side Add s)
    |change (side Del ((Add, l) :: s)) with (side Del s); change (side Add ((Add, l) :: s)) with (l :: side Add s)];
    rewrite ?terminated_from_cons; cbn [app length].
  - apply eqb_prop in Ha.
    rewrite context_after by (first [done|apply terminated_cases]). rewrite marker_lines, andb_true_r.
    destruct (IH (S oi) (S ni) (out ++ terminated (new_lines ends) (new_newline ends) ni l) true Hs Hrest) as [w' IHw].
    exists w'. rewrite incomplete_or, Ha, orb_diag, <- terminated_new, IHw, <- !plus_n_Sm. cbn [concat]. by rewrite <- app_assoc.
  - rewrite removal_after by (first [done|apply terminated_cases]).
    destruct (IH (S oi) ni out false Hs Hrest) as [w' IHw]. exists w'. rewrite <- plus_n_Sm.
    etrans; [|exact IHw]. destruct (incomplete _ _ _); done.
  - change (patch_line ?p (sign_of Add :: l)) with (patch_new p l). unfold patch_new. cbn [pt_rest pt_done pt_made pt_old_left pt_new_left pt_out].
    rewrite marker_lines, andb_true_r, <- terminated_new.
    destruct (IH oi (S ni) (out ++ terminated (new_lines ends) (new_newline ends) ni l) true Hs Hrest) as [w' IHw].
    exists w'. rewrite IHw, <- plus_n_Sm. cbn [concat]. by rewrite <- app_assoc.
Qed.

Lemma kept_alike_app oi ni s1 s2 :
  kept_alike ends oi ni (s1 ++ s2) = kept_alike ends oi ni s1 && kept_alike ends (oi + length (side Del s1)) (ni + length (side Add s1)) s2.
Proof using.
  revert oi ni. induction s1 as [|[k l] s1 IH]; intros oi ni; [cbn; by rewrite !Nat.add_0_r|]. cbn [app kept_alike]. rewrite IH, andb_assoc.
  destruct k; [change (side Del ((Same, l) :: s1)) with (l :: side Del s1); change (side Add ((Same, l) :: s1)) with (l :: side Add s1)
    |change (side Del ((Del, l) :: s1)) with (l :: side Del s1); change (side Add ((Del, l) :: s1)) with (side Add s1)
    |change (side Del ((Add, l) :: s1)) with (side Del s1); change (side Add ((Add, l) :: s1)) with (l :: side Add s1)]; cbn [length]; by rewrite <- ?plus_n_Sm.
Qed.

Lemma kept_sides (g : Script) : Forall (λ kl, kept (fst kl) = true) g → side Add g = side Del g.
Proof using.
  induction 1 as [|[k l] g Hk _ IH]; [done|]. destruct k; try done.
  change (side Del ((Same, l) :: g)) with (l :: side Del g). change (side Add ((Same, l) :: g)) with (l :: side Add g). by rewrite IH.
Qed.

(** Lines kept, alike on both sides. *)
Lemma kept_gap oi ni g :
  Forall (λ kl, kept (fst kl) = true) g → kept_alike ends oi ni g = true → olds oi g = news ni g.
Proof using.
  revert oi ni. induction g as [|[k l] g IH]; intros oi ni Hk Ha; [done|]. apply Forall_cons in Hk as [Hk Hg]. cbn [fst] in Hk. destruct k; try done.
  cbn [kept_alike] in Ha. apply andb_true_iff in Ha as [Ha Hrest]. apply eqb_prop in Ha.
  change (side Del ((Same, l) :: g)) with (l :: side Del g). change (side Add ((Same, l) :: g)) with (l :: side Add g).
  rewrite !terminated_from_cons, terminated_old, terminated_new, Ha. f_equal. by apply IH.
Qed.

Lemma patch_header_copies k rest n m out w ob ol nb nl :
  ob = n + k → nb = m + k →
  patch_line (mkPatching rest n m 0 0 out w) (hunk_header ob ol nb nl)
  = Some (mkPatching (drop k rest) ob nb ol nl (out ++ concat (take k rest)) true).
Proof using.
  intros -> ->. change (patch_line ?p (hunk_header (n + k) ol (m + k) nl)) with (patch_header p (hunk_header (n + k) ol (m + k) nl)).
  unfold patch_header. rewrite read_hunk_header. cbn [mbind option_bind fst snd]. rewrite !lines_before_first.
  cbn [mbind option_bind pt_done pt_made pt_old_left pt_new_left pt_rest pt_out]. replace (n + k - n) with k by lia.
  rewrite (proj2 (Nat.leb_le _ _)) by lia. by rewrite !Nat.eqb_refl.
Qed.

Definition hunk_lines (script : Script) (se : nat * nat) : list bytes :=
  let before := take (fst se) script in
  let body := slice (fst se) (snd se) script in
  hunk_header (count_side Del before) (count_side Del body) (count_side Add before) (count_side Add body)
  :: hunk_body ends (count_side Del before) (count_side Add before) body.

Lemma hunks_read script hs p out w :
  Forall (λ kl, one_line (snd kl)) script → kept_alike ends 0 0 script = true →
  covers script p hs (length script) → p ≤ length script → out = concat (news 0 (take p script)) →
  ∃ st, patch_lines (Some (mkPatching (olds (length (side Del (take p script))) (drop p script)) (length (side Del (take p script)))
        (length (side Add (take p script))) 0 0 out w)) (concat (map (hunk_lines script) hs)) = Some st
    ∧ pt_old_left st = 0 ∧ pt_new_left st = 0 ∧ pt_out st ++ concat (pt_rest st) = concat (news 0 script).
Proof using.
  intros Hl Ha. revert p out w. induction hs as [|[s e] hs IH]; intros p out w Hc Hp Hout; cbn [covers] in Hc; cbn [map concat].
  - eexists. split_and!; [reflexivity|done|done|]. cbn [pt_out pt_rest]. rewrite Hout. transitivity (concat (news 0 (take p script ++ drop p script))); [|by rewrite take_drop].
    rewrite side_app, terminated_from_app, concat_app. f_equal. f_equal.
    rewrite <- (take_drop p script), kept_alike_app in Ha. apply andb_true_iff in Ha as [_ Ha]. apply kept_gap; [|exact Ha].
    apply Forall_lookup. intros k x Hx. rewrite lookup_drop in Hx. apply (Hc (p + k) x); [lia|by eapply lookup_lt_Some|done].
  - destruct Hc as (Hps & Hse & He & Hgap & Hc). set (g := slice p s script). set (b := slice s e script).
    assert (drop p script = g ++ b ++ drop e script) as Hd.
    { unfold g, b. rewrite slice_drop_split by lia. by rewrite slice_drop_split by lia. }
    assert (take s script = take p script ++ g) as Ht by (unfold g; by rewrite slice_app_split by lia).
    assert (take e script = (take p script ++ g) ++ b) as Hte by (unfold b; rewrite <- Ht; by rewrite slice_app_split by lia).
    assert (script = (take p script ++ g) ++ b ++ drop e script) as Hall by (by rewrite <- app_assoc, <- Hd, take_drop).
    assert (Forall (λ kl, kept (fst kl) = true) g) as Hkept.
    { apply Forall_lookup. intros k x Hx. unfold g, slice in Hx. pose proof (lookup_lt_Some _ _ _ Hx) as Hlt. rewrite length_take in Hlt.
      rewrite lookup_take_lt in Hx by lia. rewrite lookup_drop in Hx. apply (Hgap (p + k) x); [lia|lia|done]. }
    pose proof Ha as Ha'. rewrite Hall, kept_alike_app in Ha'. rewrite kept_alike_app in Ha'. cbn [Nat.add] in Ha'.
    apply andb_true_iff in Ha' as [Hag Hab]. apply andb_true_iff in Hag as [_ Hag]. rewrite kept_alike_app in Hab. apply andb_true_iff in Hab as [Hab _].
    unfold hunk_lines at 1. cbn [fst snd]. fold b. rewrite Ht, !count_side_length. cbn [app]. rewrite patch_lines_cons.
    rewrite (patch_header_copies (length (side Del g))) by (rewrite side_app, length_app; first [done|by rewrite (kept_sides g Hkept)]).
    rewrite Hd, !side_app, !terminated_from_app, !length_app.
    rewrite take_app_length', drop_app_length' by (by rewrite terminated_from_length).
    rewrite patch_lines_app. set (oi := length (side Del (take p script)) + length (side Del g)). set (ni := length (side Add (take p script)) + length (side Add g)).
    rewrite side_app, side_app, !length_app in Hab. cbn [Nat.add] in Hab. fold oi ni in Hab.
    assert (Forall (λ kl, one_line (snd kl)) b) as Hlb by (unfold b, slice; by apply Forall_take, Forall_drop).
    destruct (hunk_body_reads b oi ni (olds (oi + length (side Del b)) (drop e script)) (out ++ concat (olds (length (side Del (take p script))) g)) true Hlb Hab) as [w' ->].
    assert (length (side Del (take e script)) = oi + length (side Del b)) as <- by (by rewrite Hte, !side_app, !length_app).
    assert (length (side Add (take e script)) = ni + length (side Add b)) as <- by (by rewrite Hte, !side_app, !length_app).
    apply IH; [done|done|]. rewrite Hout, Hte, !side_app, !terminated_from_app, !concat_app, !length_app, !Nat.add_0_l.
    rewrite (kept_gap _ (length (side Add (take p script))) g Hkept Hag). done.
Qed.
End reading.

(** ** The text is a patch *)

Lemma script_lines s : Forall one_line (side Del s) → Forall one_line (side Add s) → Forall (λ kl, one_line (snd kl)) s.
Proof.
  induction s as [|[k l] s IH]; [constructor|]. destruct k;
    [change (side Del ((Same, l) :: s)) with (l :: side Del s); change (side Add ((Same, l) :: s)) with (l :: side Add s)
    |change (side Del ((Del, l) :: s)) with (l :: side Del s); change (side Add ((Del, l) :: s)) with (side Add s)
    |change (side Del ((Add, l) :: s)) with (side Del s); change (side Add ((Add, l) :: s)) with (l :: side Add s)];
    rewrite ?Forall_cons; naive_solver.
Qed.

Lemma split_terminator_lines s : Forall one_line (split_terminator s).
Proof.
  destruct (split_terminator_view s) as (ls & w & _ & Hls & Hw & -> & _). apply Forall_app. split; [done|]. case_bool_decide; by repeat constructor.
Qed.

Lemma shown_script_sides old new :
  side Del (shown_script old new) = split_terminator old ∧ side Add (shown_script old new) = split_terminator new.
Proof.
  unfold shown_script. destruct (edit_script_sides (split_terminator old) (split_terminator new)) as [Hd Ha].
  destruct (edit_script _ _) as [|[k l] s _] using rev_ind; [done|]. rewrite last_snoc. destruct (forallb _ _) eqn:E; [|done].
  rewrite removelast_last. rewrite forallb_app in E. apply andb_true_iff in E as [_ E]. cbn in E. rewrite andb_true_r in E. destruct k; try done.
  rewrite !side_app in *. by split.
Qed.

Lemma digits_one_line n : one_line (display_nat n).
Proof. eapply Forall_impl; [apply display_N_digits|]. intros b Hb. by destruct b. Qed.

Lemma header_one_line a b c d : one_line (hunk_header a b c d).
Proof. unfold hunk_header. unfold one_line. rewrite !Forall_app. split_and!; first [apply digits_one_line|repeat constructor]. Qed.

Lemma body_one_line ends oi ni s : Forall (λ kl, one_line (snd kl)) s → Forall one_line (hunk_body ends oi ni s).
Proof.
  intros H. revert oi ni. induction H as [|[k l] s Hl _ IH]; intros oi ni; [constructor|]. cbn [hunk_body]. constructor; [constructor; [by destruct k|done]|].
  apply Forall_app. split; [|apply IH]. destruct (incomplete _ _ _); repeat constructor.
Qed.

(** C34. The text of a unified diff is a patch: read back and applied to the old bytes it gives the new
    ones, every hunk starting on both sides at the line its header says and having as many lines of each
    side as it announces. For texts in UTF-8 and a path on one line, as long as every line both keep ends in
    a line feed on both sides or on neither (as when both documents end in a line feed). *)
Theorem unified_diff_patches path old new :
  one_line path → is_utf8 old = true → is_utf8 new = true → kept_alike (ends_of old new) 0 0 (shown_script old new) = true →
  patch path (unified_diff path old new) old = Some new.
Proof.
  intros Hpath Ho Hn Ha. unfold unified_diff. case_bool_decide as E; [by subst|]. rewrite !lossy_text by done.
  set (script := shown_script old new) in *. set (ends := ends_of old new) in *.
  destruct (shown_script_sides old new) as [Hd Hs]. fold script in Hd, Hs.
  assert (Forall (λ kl, one_line (snd kl)) script) as Hlines by (apply script_lines; [rewrite Hd|rewrite Hs]; apply split_terminator_lines).
  set (ls := [str "--- a/" ++ path; str "+++ b/" ++ path] ++ concat (map (hunk_lines ends script) (hunks script))).
  assert (unlines [str "--- a/" ++ path; str "+++ b/" ++ path] ++ concat (map (write_hunk script ends) (hunks script)) = unlines ls) as ->.
  { unfold ls. rewrite unlines_app. f_equal. induction (hunks script) as [|h hs IH]; [done|]. cbn [map concat]. by rewrite unlines_app, IH. }
  assert (Forall one_line ls) as Hls.
  { unfold ls. apply Forall_app. split.
    - apply Forall_cons. split; [|apply Forall_cons; split; [|constructor]]; unfold one_line; rewrite Forall_app; (split; [repeat constructor|done]).
    - apply List.Forall_concat, Forall_forall. intros x Hx. change (map (hunk_lines ends script)) with (fmap (M:=list) (hunk_lines ends script)) in Hx.
      apply list_elem_of_fmap in Hx as (h & -> & _). constructor; [apply header_one_line|]. apply body_one_line. unfold slice. by apply Forall_take, Forall_drop. }
  unfold patch. rewrite split_terminator_unlines by done. unfold ls. cbn [app]. rewrite !bool_decide_eq_true_2 by done. cbn [andb].
  destruct (hunks_read ends script (hunks script) 0 [] false Hlines Ha (hunks_cover script) ltac:(lia) eq_refl) as (st & Hst & Hol & Hnl & Hout).
  rewrite !take_0, drop_0 in Hst. cbn [side List.filter map length] in Hst. rewrite Hd in Hst.
  assert (term_lines old = terminated_from (old_lines ends) (old_newline ends) 0 (split_terminator old)) as -> by done.
  rewrite Hst. cbn [mbind option_bind]. rewrite Hol, Hnl. cbn [Nat.eqb andb]. rewrite Hout, Hs. f_equal. exact (term_lines_concat new).
Qed.

(** Two documents that both end in a line feed. *)
Lemma terminated_alike ends oi ni s : old_newline ends = true → new_newline ends = true → kept_alike ends oi ni s = true.
Proof.
  intros Ho Hn. revert oi ni. induction s as [|[k l] s IH]; intros oi ni; [done|]. cbn [kept_alike]. rewrite IH, andb_true_r.
  unfold incomplete. rewrite Ho, Hn. cbn. rewrite !andb_false_r. by destruct k.
Qed.

Lemma unified_diff_patches_witness :
  let old := str "a" ++ [x0a] ++ str "b" ++ [x0a] in let new := str "b" ++ [x0a] ++ str "c" ++ [x0a] in
  patch (str "todo.txt") (unified_diff (str "todo.txt") old new) old = Some new.
Proof.
  apply (unified_diff_patches (str "todo.txt")); [repeat constructor|vm_compute; reflexivity|vm_compute; reflexivity|].
  apply terminated_alike; vm_compute; reflexivity.
Defined.
