(* ===== verification/Mutation.v ===== *)
(** What a client asks for, as ops: [mutation.rs], [mutation_add.rs], [mutation_moves.rs],
    [mutation_reopen.rs], and [change_ops] of [reconcile.rs], in [crates/txtodo-engine/src]; a client's
    batch of them, [actor_apply.rs] and the guards of [replace.rs] in [crates/txtodo-daemon/src].

    A mutation is resolved against the document and becomes the ops the log records. The theorems say
    what those ops do to the lines shown, through the owner's view of the document ([DocLocal]). *)
From S2P Require Import Prelude.
From S2P Require Import Utf8.
From S2P Require Import Types.
From S2P Require Import Ulid.
From S2P Require Import Scanner.
From S2P Require Import Parser.
From S2P Require Import Format.
From S2P Require Import TodoFile.
From S2P Require Import Edit.
From S2P Require Import LineFixes.
From S2P Require Import Myers.
From S2P Require Import Diff.
From S2P Require Import Hlc.
From S2P Require Import TagText.
From S2P Require Import TextHistory.
From S2P Require Import Ops.
From S2P Require Import DocState.
From S2P Require Import DocRows.
From S2P Require Import DocInvariant.
From S2P Require Import DocConverge.
From S2P Require Import DocErrors.
From S2P Require Import DocFresh.
From S2P Require Import DocLocal.

(** ** Data *)

Definition MAX_MUTATIONS_PER_APPLY : nat := Z.to_nat 10000.

(** A blake3 hash, as bytes. *)
Abbreviation Hash := bytes.

(** A line as the client saw it: its 1-based number, 0 for "by id alone". *)
Record TaskRef := mkTaskRef { line_number : nat; ref_task_id : option TaskId }.

Inductive Mutation :=
| MAdd (line : bytes)
| MArrive (line : bytes) (task : TaskId)
| MComplete (task : TaskRef) (today : Date)
| MEdit (task : TaskRef) (new_line : bytes) (settle : bool)
| MMove (task : TaskRef) (to : FilePath)
| MDelete (task : TaskRef) (leave_blank : bool)
| MMoveToEnd (task : TaskRef)
| MMoveBefore (task before : TaskRef)
| MReopen (task : TaskRef)
| MReplace (hash : Hash) (contents : bytes)
| MRequireBase (hash : Hash).

Inductive MutationError :=
| NoLine (n : nat)
| Blank (n : nat)
| Stale (n : nat) (expected found : TaskId)
| StaleBase
| NotATask (text : bytes)
| IdChanged (t : TaskId)
| MUnsupported (what : bytes)
| MUnknownTask (t : TaskId)
| TooMany (n : nat).

#[global] Instance TaskRef_eq_dec : EqDecision TaskRef.
Proof. solve_decision. Defined.
#[global] Instance MutationError_eq_dec : EqDecision MutationError.
Proof. solve_decision. Defined.

(** The 1-based line the refusal is about; none past 32 bits. *)
Definition MutationError_line (e : MutationError) : option N :=
  n ← match e with NoLine n | Blank n | Stale n _ _ => Some n | _ => None end;
  if (N.of_nat n <? 2 ^ 32)%N then Some (N.of_nat n) else None.

Definition MutationError_spec_rule (e : MutationError) : option bytes :=
  match e with
  | Blank _ => Some (str "specs/todotxt.abnf#blank")
  | NoLine _ | NotATask _ => Some (str "specs/todotxt.abnf#line")
  | IdChanged _ => Some (str "specs/todotxt.abnf#id-tag")
  | _ => None
  end.

(** ** Resolving a reference *)

(** The visible index and id of the task named; the client's id is checked in tagged mode only. *)
Definition resolve_ref (st : DocState) (task : TaskRef) : result MutationError (nat * TaskId) :=
  match line_number task, ref_task_id task with
  | 0, Some id => i ← ok_or (index_of st id) (MUnknownTask id); mret (i, id)
  | 0, None => Err (NoLine 0)
  | S i, expected =>
      match entry_at st i with
      | None => Err (NoLine (S i))
      | Some (BlankEntry _) => Err (Blank (S i))
      | Some (TaskEntry found _) =>
          match expected with
          | Some e =>
              if bool_decide (ds_mode st = Tagged) && negb (e =? found)%N then Err (Stale (S i) e found)
              else Ok (i, found)
          | None => Ok (i, found)
          end
      end
  end.

(** ** A changed line as field ops and a text edit (reconcile.rs) *)

Definition PRI : bytes := str "pri".

(** [completed] of reconcile.rs. *)
Definition line_completed (l : OwnedLine) : bool :=
  match task_of_line l with Some t => completed t | None => false end.

Definition CHANGE_FIELDS : list Field := [FCompleted; FCompletionDate; FCreationDate; FPriority].

(** One turn of the loop over the fields: the ops so far and the working line they leave. *)
Definition change_field (old new_line : OwnedLine) (wanted : Task) (task : TaskId)
    (acc : list OpKind * OwnedLine) (f : Field) : list OpKind * OwnedLine :=
  let '(ops, line) := acc in
  match field_value new_line f with
  | None => acc
  | Some value =>
      let reopen_priority := bool_decide (f = FPriority) && line_completed old && negb (completed wanted) in
      if bool_decide (field_value line f = Some value) && negb reopen_priority then acc
      else match op_set_field task f value, rewrite_prefix line f value with
           | Ok op, Some next => (ops ++ [op], next)
           | _, _ => acc
           end
  end.

(** The op that gives the description the fields left the one wanted. [diff_text] always finds a
    script ([Diff.diff_text_apply]). *)
Definition change_description (have wanted : bytes) (task : TaskId) : list OpKind :=
  if bool_decide (TagText_remove_tag have PRI = wanted) && negb (bool_decide (have = wanted))
  then [KRemoveTag task PRI]
  else if bool_decide (have = wanted) then []
  else [KEditText task (default [] (diff_text have wanted))].

Definition change_ops (old new_line : OwnedLine) (task : TaskId) : list OpKind :=
  match task_of_line new_line, task_of_line old with
  | Some wanted, Some _ =>
      let '(ops, line) := foldl (change_field old new_line wanted task) ([], old) CHANGE_FIELDS in
      match task_of_line line with
      | None => ops
      | Some have => ops ++ change_description (description have) (description wanted) task
      end
  | _, _ => []
  end.

(** ** Moves (mutation_moves.rs) *)

Definition move_ops (st : DocState) (task : TaskRef) (to : FilePath) : result MutationError (list OpKind) :=
  it ← resolve_ref st task;
  mret [KMove (snd it) None to].

Definition move_to_end_ops (st : DocState) (task : TaskRef) : result MutationError (list OpKind) :=
  it ← resolve_ref st task;
  let '(i, id) := it in
  let last := task_before st (doc_len st) in
  let after := if bool_decide (last = Some id) then task_before st i else last in
  mret [KMove id after (ds_path st)].

Definition move_before_ops (st : DocState) (task before : TaskRef) : result MutationError (list OpKind) :=
  it ← resolve_ref st task;
  jb ← resolve_ref st before;
  let '(i, id) := it in
  let '(j, before_id) := jb in
  if (id =? before_id)%N then Err (MUnsupported (str "moving a task before itself"))
  else
    let predecessor := task_before st j in
    let after := if bool_decide (predecessor = Some id) then task_before st i else predecessor in
    mret [KMove id after (ds_path st)].

(** ** Adding (mutation_add.rs) *)

Definition has_line_break (s : bytes) : bool := contains_byte x0a s || contains_byte x0d s.

(** Client text as a task line. *)
Definition task_line (text : bytes) : result MutationError OwnedLine :=
  if has_line_break text then Err (NotATask text)
  else
    let owned := OwnedLine_from_bytes text Lf in
    match kind <$> OwnedLine_parse owned with
    | Some (LTask _) => Ok owned
    | _ => Err (NotATask text)
    end.

(** One insert after the last task; [mint 0] is the id a first call of the closure returns. *)
Definition add_ops (st : DocState) (line : bytes) (mint : nat → TaskId) : result MutationError (list OpKind) :=
  owned ← task_line line;
  tl ← (if bool_decide (ds_mode st = Sidecar) then Ok (mint 0, owned)
        else match id_of owned with
             | Some id => Ok (id, owned)
             | None =>
                 let tag := Ulid_display (from_u128 (mint 0)) in
                 match set_tag Edit_new (str "id") tag with
                 | Err _ => Err (NotATask line)
                 | Ok edit => Ok (mint 0, apply owned edit)
                 end
             end);
  let '(task, owned) := tl in
  mret [KInsert task (task_before st (doc_len st)) (default [] (OwnedLine_raw owned))].

(** ** Reopening (mutation_reopen.rs) *)

(** The loop of [end_of_open_block]. *)
Fixpoint open_block_from (last_open : option TaskId) (id : TaskId) (ls : list (TaskId * OwnedLine)) : option TaskId :=
  match ls with
  | [] => last_open
  | (other, line) :: ls' =>
      if (other =? id)%N then open_block_from last_open id ls'
      else if is_completed line then last_open
      else open_block_from (Some other) id ls'
  end.

Definition end_of_open_block (st : DocState) (id : TaskId) : option TaskId :=
  open_block_from None id (task_lines st).

Definition reopen_ops (st : DocState) (task : TaskRef) : result MutationError (list OpKind) :=
  it ← resolve_ref st task;
  let '(i, id) := it in
  old ← ok_or (line_of_task st id) (NoLine (line_number task));
  let new_line := apply old (uncomplete Edit_new) in
  let ops := change_ops old new_line id in
  if bool_decide (ops = []) then mret ops
  else
    let after := end_of_open_block st id in
    if bool_decide (task_before st i = after) then mret ops
    else mret (ops ++ [KMove id after (ds_path st)]).

(** ** The dispatch (mutation.rs) *)

Definition edit_ops (st : DocState) (task : TaskRef) (text : bytes) (settle : bool)
    : result MutationError (list OpKind) :=
  it ← resolve_ref st task;
  let id := snd it in
  new_line ← task_line text;
  if bool_decide (ds_mode st = Tagged) && negb (bool_decide (id_of new_line = Some id)) then Err (IdChanged id)
  else
    old ← ok_or (line_of_task st id) (NoLine (line_number task));
    let ops := change_ops old new_line id in
    let done := λ l, match OwnedLine_raw l with Some s => is_completed_text s | None => false end in
    if settle && negb (done old) && done new_line && negb (bool_decide (task_before st (doc_len st) = Some id))
    then more ← move_to_end_ops st task; mret (ops ++ more)
    else mret ops.

Definition complete_ops (st : DocState) (task : TaskRef) (today : Date) : result MutationError (list OpKind) :=
  it ← resolve_ref st task;
  let id := snd it in
  old ← ok_or (line_of_task st id) (NoLine (line_number task));
  let ops := change_ops old (apply old (complete Edit_new today)) id in
  if negb (bool_decide (ops = [])) && negb (bool_decide (task_before st (doc_len st) = Some id))
  then more ← move_to_end_ops st task; mret (ops ++ more)
  else mret ops.

Definition delete_ops (st : DocState) (task : TaskRef) (leave_blank : bool) : result MutationError (list OpKind) :=
  it ← resolve_ref st task;
  let '(i, id) := it in
  let after := task_before st i in
  let op := match op_set_field id FDeleted (FVBool true) with Ok op => op | Err _ => KBlankRemove after end in
  mret ([op] ++ if leave_blank then [KBlankInsert after] else []).

Definition mutation_ops (st : DocState) (m : Mutation) (mint : nat → TaskId) : result MutationError (list OpKind) :=
  match m with
  | MAdd line => add_ops st line mint
  | MArrive line task => add_ops st line (λ _, task)
  | MComplete task today => complete_ops st task today
  | MEdit task new_line settle => edit_ops st task new_line settle
  | MMove task to => move_ops st task to
  | MMoveToEnd task => move_to_end_ops st task
  | MReopen task => reopen_ops st task
  | MMoveBefore task before => move_before_ops st task before
  | MReplace _ _ => Err (MUnsupported (str "Replace must be its own Apply batch"))
  | MRequireBase _ => Ok []
  | MDelete task leave_blank => delete_ops st task leave_blank
  end.

(** ** Reading a line without changing it (mutation_moves.rs, contents.rs) *)

Record Contents := mkContents { c_bytes : bytes; c_hash : Hash; task_ids : list (option TaskId) }.

Definition task_id_texts (c : Contents) : list bytes :=
  map (λ id, match id with Some t => Ulid_display (from_u128 t) | None => [] end) (task_ids c).

Record PeekedLine := mkPeekedLine { pk_id : TaskId; pk_line : bytes; pk_ref_slug : option bytes }.

(** A reference by id alone gets its line number: from the actor's ids, else from the text. *)
Definition with_line_number (c : Contents) (task : TaskRef) : result MutationError TaskRef :=
  if negb (line_number task =? 0) then Ok task
  else
    id ← ok_or (ref_task_id task) (NoLine 0);
    let by_actor := position (λ t, bool_decide (t = Some id)) (task_ids c) in
    let by_text := position (λ l, bool_decide (id_of l = Some id)) (lines (parse_file (c_bytes c))) in
    index ← ok_or (match by_actor with Some i => Some i | None => by_text end) (MUnknownTask id);
    mret (mkTaskRef (index + 1) (Some id)).

Definition peek (bs : bytes) (ids : list (option TaskId)) (task : TaskRef) : result MutationError PeekedLine :=
  let n := line_number task in
  match n with
  | 0 => Err (NoLine n)
  | S i =>
      line ← ok_or (lines (parse_file bs) !! i) (NoLine n);
      parsed ← ok_or (OwnedLine_parse line) (NoLine n);
      match kind parsed with
      | LBlank => Err (Blank n)
      | LTask t =>
          let by_actor := default None (ids !! i) in
          found ← ok_or (match by_actor with Some id => Some id | None => to_u128 <$> Task_id t end) (NoLine n);
          let peeked := mkPeekedLine found (default [] (OwnedLine_raw line)) (ref_slug t) in
          match ref_task_id task with
          | Some expected => if negb (expected =? found)%N then Err (Stale n expected found) else Ok peeked
          | None => Ok peeked
          end
      end
  end.

Definition peek_line (bs : bytes) (task : TaskRef) : result MutationError PeekedLine := peek bs [] task.

Definition peek_contents (c : Contents) (task : TaskRef) : result MutationError PeekedLine :=
  peek (c_bytes c) (task_ids c) task.

(** ** A client's batch (actor_apply.rs, replace.rs) *)

Inductive PlanError := PlanMutation (e : MutationError) | PlanState (e : StateError).

(** What stamps a batch: one tick, one principal, the actor's path, and the ids the clock hands out:
    [op_ids n] for the [n]-th op, [mint_ids n] for the id the [n]-th mutation may mint. *)
Record Stamper := mkStamper {
  by_hlc : Hlc; by_principal : Principal; by_path : FilePath; op_ids : nat → OpId; mint_ids : nat → TaskId
}.

Definition stamped (s : Stamper) (n : nat) (k : OpKind) : Op :=
  mkOp (op_ids s n) (by_hlc s) (by_principal s) (by_path s) k.

(** The inner loop: stamps and applies one mutation's ops. *)
Fixpoint plan_ops (s : Stamper) (st : DocState) (ops : list Op) (ks : list OpKind)
    : result PlanError (DocState * list Op) :=
  match ks with
  | [] => Ok (st, ops)
  | k :: ks' =>
      let o := stamped s (length ops) k in
      match doc_apply o st with
      | (st', Ok _) => plan_ops s st' (ops ++ [o]) ks'
      | (_, Err e) => Err (PlanState e)
      end
  end.

(** The batch, the [n]-th mutation on: each sees the ones before it applied. *)
Fixpoint plan_from (s : Stamper) (n : nat) (st : DocState) (ops : list Op) (ms : list Mutation)
    : result PlanError (DocState * list Op) :=
  match ms with
  | [] => Ok (st, ops)
  | m :: ms' =>
      ks ← map_err PlanMutation (mutation_ops st m (λ _, mint_ids s n));
      p ← plan_ops s st ops ks;
      plan_from s (S n) (fst p) (snd p) ms'
  end.

Definition plan_batch (s : Stamper) (st : DocState) (ms : list Mutation)
    : result PlanError (DocState * list Op * bytes) :=
  p ← plan_from s 0 st [] ms;
  mret (fst p, snd p, doc_to_bytes (fst p)).

Definition is_guard (m : Mutation) : bool := match m with MRequireBase _ => true | _ => false end.
Definition is_replace (m : Mutation) : bool := match m with MReplace _ _ => true | _ => false end.

(** The hash a leading guard wants checked, or a misplaced guard's refusal. *)
Definition guard_batch (ms : list Mutation) : result MutationError (option Hash) :=
  let misplaced := if existsb is_guard ms
                   then Err (MUnsupported (str "RequireBase must be the first, and only, guard of its Apply batch"))
                   else Ok None in
  match ms with
  | MRequireBase h :: rest => if existsb is_guard rest then misplaced else Ok (Some h)
  | _ => misplaced
  end.

(** The size limit, then the guard. *)
Definition check_batch (ms : list Mutation) : result MutationError (option Hash) :=
  if MAX_MUTATIONS_PER_APPLY <? length ms then Err (TooMany (length ms)) else guard_batch ms.

(** The [Replace] of a batch: [None] when it holds none. *)
Definition replace_batch (ms : list Mutation) : option (result MutationError (Hash * bytes)) :=
  match ms with
  | [MReplace h contents] => Some (Ok (h, contents))
  | _ => if existsb is_replace ms then Some (Err (MUnsupported (str "Replace must be its own Apply batch"))) else None
  end.
