(* ===== verification/MutationSpec.v ===== *)
(** What a client's mutations do to the lines shown: each refines an edit of the plain list of lines,
    and a batch refines the edits in order ([mutation_ops] and [plan_batch] of [Mutation]). *)
From S2P Require Import Prelude.
From S2P Require Import Utf8.
From S2P Require Import Types.
From S2P Require Import Ulid.
From S2P Require Import Parser.
From S2P Require Import TodoFile.
From S2P Require Import Edit.
From S2P Require Import Hlc.
From S2P Require Import Ops.
From S2P Require Import DocState.
From S2P Require Import DocRows.
From S2P Require Import DocInvariant.
From S2P Require Import DocConverge.
From S2P Require Import DocErrors.
From S2P Require Import DocFresh.
From S2P Require Import DocLocal.
From S2P Require Import DocView.
From S2P Require Import Mutation.

(** ** The specification *)

(** The mutations that move whole lines. *)
Definition list_mutation (m : Mutation) : bool :=
  match m with
  | MAdd _ | MArrive _ _ | MMove _ _ | MDelete _ _ | MMoveToEnd _ | MMoveBefore _ _ | MRequireBase _ => true
  | _ => false
  end.

(** A line appended after the last task, above the blanks that end the file. *)
Definition appended (e : Entry) (l l' : list Entry) : Prop :=
  ∃ pre post, l = pre ++ post ∧ ends_in_task pre ∧ blanks post ∧ l' = pre ++ e :: post.

(** What a mutation does to the lines of a document. *)
Definition edited (st : DocState) (mint : nat → TaskId) (m : Mutation) (l l' : list Entry) : Prop :=
  match m with
  | MAdd line | MArrive line _ =>
      ∃ t text, appended (TaskEntry t (OwnedLine_from_bytes text (ds_ending st))) l l'
        ∧ (ds_mode st = Sidecar → t = (match m with MArrive _ u => u | _ => mint 0 end) ∧ text = line)
        ∧ (ds_mode st = Tagged → ∀ i, id_of (OwnedLine_from_bytes line Lf) = Some i → t = i ∧ text = line)
  | MDelete task leave_blank =>
      ∃ i id, resolve_ref st task = Ok (i, id)
        ∧ if leave_blank then map entry_id l' = <[i := None]> (map entry_id l) ∧ length l' = length l
          else l' = delete i l
  | MMoveToEnd task =>
      ∃ i id e, resolve_ref st task = Ok (i, id) ∧ l !! i = Some e ∧ appended e (delete i l) l'
  | MMoveBefore task before =>
      ∃ i id e j jd b pre mid post, resolve_ref st task = Ok (i, id) ∧ resolve_ref st before = Ok (j, jd)
        ∧ l !! i = Some e ∧ l !! j = Some b ∧ delete i l = pre ++ mid ++ b :: post ∧ ends_in_task pre ∧ blanks mid
        ∧ l' = pre ++ e :: mid ++ b :: post
  | MMove task to =>
      ∃ i id e, resolve_ref st task = Ok (i, id) ∧ l !! i = Some e
        ∧ l' = if bool_decide (to = ds_path st) then e :: delete i l else delete i l
  | MRequireBase _ => l' = l
  | _ => False
  end.

(** ** Resolving *)

Lemma resolve_lines st task i id :
  doc_wf st → resolve_ref st task = Ok (i, id) → ∃ e, visible_entries st !! i = Some e ∧ entry_id e = Some id.
Proof.
  intros Hwf. unfold resolve_ref. destruct task as [[|n] t]; cbn [line_number ref_task_id].
  - destruct t as [t|]; [|done]. destruct (index_of st t) as [k|] eqn:E; [|done]. cbn. intros [= <- <-].
    rewrite (index_of_lines _ _ Hwf) in E. apply position_spec in E as (l1 & e & l2 & Hl & Hk & He & _).
    exists e. split; [|by apply holds_spec]. rewrite Hl, <- Hk. by rewrite lookup_app_r, Nat.sub_diag by lia.
  - rewrite (entry_at_lines _ _ Hwf). destruct (visible_entries st !! n) as [[found x|x]|] eqn:E; [| |done].
    + destruct t as [t|]; [destruct (_ && _)|]; intros H; try done; injection H as <- <-; eauto.
    + done.
Qed.

(** ** One op on the list *)

Section one_op.
Context (path : FilePath) (ending : LineEnding) (l : list Entry) (Hl : ids_once l).
Context (i : nat) (id : TaskId) (e : Entry) (Hi : l !! i = Some e) (He : entry_id e = Some id).

Lemma existsb_here : existsb (holds id) l = true.
Proof. apply existsb_exists. exists e. split; [by apply list_elem_of_In, list_elem_of_lookup_2 with i|by apply holds_spec]. Qed.

Lemma step_delete : line_step path ending (KSetField id FDeleted (FVBool true)) l = Some (delete i l).
Proof. cbn. rewrite existsb_here. by rewrite (remove_task_delete id l i e). Qed.

Lemma step_leave to : to ≠ path → line_step path ending (KMove id None to) l = Some (delete i l).
Proof.
  intros Hto. cbn. rewrite (find_holds id l i e) by done. cbn. rewrite bool_decide_eq_false_2 by done.
  cbn. by rewrite (remove_task_delete id l i e).
Qed.

(** A move after the last task of a first part of the other lines. *)
Lemma step_move pre post :
  delete i l = pre ++ post → ends_in_task pre →
  line_step path ending (KMove id (last_task pre) path) l = Some (pre ++ e :: post).
Proof.
  intros Hd Hp. assert (ids_once (delete i l)) as Ho.
  { unfold ids_once in *. rewrite delete_take_drop, omap_app. rewrite <- (take_drop_middle l i e Hi), omap_app in Hl. cbn in Hl. rewrite He in Hl.
    eapply sublist_NoDup; [exact Hl|]. apply sublist_app; [done|]. by apply sublist_cons. }
  cbn. rewrite (find_holds id l i e) by done. cbn. rewrite bool_decide_eq_true_2 by done. cbn.
  rewrite bool_decide_eq_false_2.
  - rewrite (remove_task_delete id l i e), Hd by done. apply place_after_split; [by rewrite <- Hd|done].
  - intros E. apply last_task_elem in E as (x & Hx & Hxi).
    rewrite <- (take_drop_middle l i e Hi) in Hl. destruct (others_not id _ _ _ Hl He) as [H1 H2].
    assert (x ∈ delete i l) as Hin by (rewrite Hd; apply elem_of_app; by left).
    rewrite delete_take_drop, elem_of_app in Hin. rewrite Forall_forall in H1, H2. apply holds_spec in Hxi.
    destruct Hin as [Hin|Hin]; [specialize (H1 _ Hin)|specialize (H2 _ Hin)]; congruence.
Qed.
End one_op.

(** ** Anchors *)

(** A part of a list has each task at most once too. *)
Lemma ids_once_sublist l l' : sublist l' l → ids_once l → ids_once l'.
Proof.
  intros Hs Ho. eapply sublist_NoDup; [exact Ho|]. clear Ho. induction Hs as [|x l1 l2 _ IH|x l1 l2 _ IH]; cbn; [done| |].
  - destruct (entry_id x); [by apply sublist_skip|done].
  - destruct (entry_id x); [by apply sublist_cons|done].
Qed.

(** The anchor of [move_before_ops] is the last task above the target among the other lines. *)
Lemma before_anchor l i j e b id :
  ids_once l → l !! i = Some e → entry_id e = Some id → l !! j = Some b → i ≠ j →
  ∃ j', delete i l !! j' = Some b
    ∧ (if bool_decide (last_task (take j l) = Some id) then last_task (take i l) else last_task (take j l))
      = last_task (take j' (delete i l)).
Proof.
  intros Ho Hi He Hj Hne. destruct (decide (i < j)) as [Hlt|Hge].
  - exists (j - 1). rewrite list_lookup_delete_ge by lia. replace (S (j - 1)) with j by lia. split; [done|].
    assert (take (j - 1) (delete i l) = delete i (take j l)) as ->.
    { apply list_eq. intros k. destruct (decide (k < j - 1)) as [Hk|Hk].
      - rewrite lookup_take_lt by lia. destruct (decide (k < i)).
        + by rewrite !list_lookup_delete_lt, lookup_take_lt by lia.
        + by rewrite !list_lookup_delete_ge, lookup_take_lt by lia.
      - rewrite lookup_take_ge by lia. by rewrite list_lookup_delete_ge, lookup_take_ge by lia. }
    symmetry. assert (take i (take j l) = take i l) as Ht by (rewrite take_take; f_equal; lia).
    rewrite <- Ht. apply (last_task_delete id (take j l) i e); [|by rewrite lookup_take_lt by lia|done].
    eapply ids_once_sublist; [|exact Ho]. apply sublist_take.
  - exists j. rewrite list_lookup_delete_lt by lia. split; [done|].
    assert (take j (delete i l) = take j l) as ->.
    { rewrite delete_take_drop, take_app_le by (rewrite length_take; pose proof (lookup_lt_Some _ _ _ Hi); lia).
      rewrite take_take. f_equal. lia. }
    rewrite bool_decide_eq_false_2; [done|]. intros (x & Hx & Hxi)%last_task_elem.
    apply list_elem_of_lookup in Hx as [k Hk]. apply lookup_take_Some in Hk as [Hk Hkj].
    assert (k ≠ i) as Hki by lia.
    rewrite <- (take_drop_middle l i e Hi) in Ho. destruct (others_not id _ _ _ Ho He) as [H1 _].
    rewrite Forall_forall in H1. apply holds_spec in Hxi. rewrite H1 in Hxi; [done|].
    apply list_elem_of_lookup. exists k. apply lookup_take_Some. split; [done|lia].
Qed.

Lemma blanks_ids mid : blanks mid → map entry_id mid = replicate (length mid) None.
Proof. induction 1 as [|e mid He _ IH]; [done|]. cbn. by rewrite He, IH. Qed.

(** ** Each mutation on the list *)

Lemma lines_add st t text l :
  ids_once l → ∃ l', line_run (ds_path st) (ds_ending st) [KInsert t (last_task l) text] l = Some l'
    ∧ appended (TaskEntry t (OwnedLine_from_bytes text (ds_ending st))) l l'.
Proof.
  intros Ho. destruct (split_last l) as (pre & post & -> & Hp & Hb & ->).
  cbn. rewrite (place_after_split _ _ _ Ho Hp). eexists. split; [reflexivity|]. by exists pre, post.
Qed.

Lemma lines_delete st l i id e lb :
  ids_once l → l !! i = Some e → entry_id e = Some id →
  ∃ l', line_run (ds_path st) (ds_ending st)
          (KSetField id FDeleted (FVBool true) :: (if lb : bool then [KBlankInsert (last_task (take i l))] else [])) l = Some l'
    ∧ if lb then map entry_id l' = <[i := None]> (map entry_id l) ∧ length l' = length l else l' = delete i l.
Proof.
  intros Ho Hi He. pose proof (lookup_lt_Some _ _ _ Hi) as Hlt.
  cbn [line_run]. rewrite (step_delete _ _ l Ho i id e Hi He). cbn.
  destruct lb; [|by eexists]. cbn. destruct (split_last (take i l)) as (pre & mid & Ht & Hp & Hb & ->).
  assert (delete i l = pre ++ mid ++ drop (S i) l) as Hd by (by rewrite delete_take_drop, Ht, app_assoc).
  assert (ids_once (pre ++ mid ++ drop (S i) l)) as Hod.
  { rewrite <- Hd. eapply ids_once_sublist; [apply sublist_delete|done]. }
  rewrite Hd, (place_after_split _ _ _ Hod Hp). eexists. split; [reflexivity|].
  assert (length (pre ++ mid) = i) as Hlen by (rewrite <- Ht, length_take; lia). rewrite length_app in Hlen.
  assert (l = (pre ++ mid) ++ e :: drop (S i) l) as Hl by (by rewrite <- Ht, take_drop_middle).
  generalize dependent (drop (S i) l). intros rest _ _ Hl. rewrite Hl. split.
  - rewrite !map_app. cbn. rewrite !map_app, (blanks_ids mid Hb).
    rewrite insert_app_r_alt by (rewrite length_app, !length_map, length_replicate; lia).
    rewrite length_app, !length_map, length_replicate, Hlen, Nat.sub_diag. cbn.
    rewrite <- app_assoc. f_equal. generalize (map entry_id rest) as r. intros r. clear.
    induction (length mid) as [|n IH]; [done|]. cbn. by f_equal.
  - rewrite !length_app. cbn. rewrite !length_app. lia.
Qed.

Lemma lines_move_to_end st l i id e :
  ids_once l → l !! i = Some e → entry_id e = Some id →
  ∃ l', line_run (ds_path st) (ds_ending st)
          [KMove id (if bool_decide (last_task l = Some id) then last_task (take i l) else last_task l) (ds_path st)] l = Some l'
    ∧ appended e (delete i l) l'.
Proof.
  intros Ho Hi He. rewrite <- (last_task_delete id l i e Ho Hi He).
  destruct (split_last (delete i l)) as (pre & post & Hd & Hp & Hb & ->).
  cbn [line_run]. rewrite (step_move _ _ l Ho i id e Hi He pre post Hd Hp). eexists. split; [reflexivity|]. by exists pre, post.
Qed.

Lemma lines_move_before st l i j id e b jd :
  ids_once l → l !! i = Some e → entry_id e = Some id → l !! j = Some b → entry_id b = Some jd → id ≠ jd →
  ∃ l' pre mid post, line_run (ds_path st) (ds_ending st)
          [KMove id (if bool_decide (last_task (take j l) = Some id) then last_task (take i l) else last_task (take j l)) (ds_path st)] l
        = Some l'
    ∧ delete i l = pre ++ mid ++ b :: post ∧ ends_in_task pre ∧ blanks mid ∧ l' = pre ++ e :: mid ++ b :: post.
Proof.
  intros Ho Hi He Hj Hb Hne. assert (i ≠ j) as Hij by (intros ->; congruence).
  destruct (before_anchor l i j e b id Ho Hi He Hj Hij) as (j' & Hj' & ->).
  destruct (split_last (take j' (delete i l))) as (pre & mid & Ht & Hp & Hbl & ->).
  assert (delete i l = pre ++ mid ++ b :: drop (S j') (delete i l)) as Hd.
  { rewrite <- (take_drop_middle _ _ _ Hj') at 1. by rewrite Ht, <- app_assoc. }
  eexists _, pre, mid, _. cbn [line_run]. rewrite (step_move _ _ l Ho i id e Hi He pre _ Hd Hp).
  split; [reflexivity|]. by split_and!.
Qed.

(** The ops of a mutation that moves whole lines run on the lines, and do what it means. *)
Lemma mutation_lines st m mint ks :
  doc_wf st → list_mutation m = true → mutation_ops st m mint = Ok ks →
  ∃ l', line_run (ds_path st) (ds_ending st) ks (visible_entries st) = Some l' ∧ edited st mint m (visible_entries st) l'.
Proof.
  intros Hwf Hm. pose proof (doc_wf_shown_once _ Hwf : ids_once _) as Ho.
  assert (∀ line fresh ks, add_ops st line fresh = Ok ks → ∃ l' t text,
    line_run (ds_path st) (ds_ending st) ks (visible_entries st) = Some l'
    ∧ appended (TaskEntry t (OwnedLine_from_bytes text (ds_ending st))) (visible_entries st) l'
    ∧ (ds_mode st = Sidecar → t = fresh 0 ∧ text = line)
    ∧ (ds_mode st = Tagged → ∀ i, id_of (OwnedLine_from_bytes line Lf) = Some i → t = i ∧ text = line)) as Hadd.
  { clear ks. intros line fresh ks H. unfold add_ops, task_line in H. destruct (has_line_break line); [done|].
    destruct (kind <$> OwnedLine_parse _) as [[|t0]|] eqn:Ek; try done.
    assert (default [] (OwnedLine_raw (OwnedLine_from_bytes line Lf)) = line) as Hraw.
    { unfold OwnedLine_parse in Ek. destruct (OwnedLine_raw (OwnedLine_from_bytes line Lf)) as [r|] eqn:Er; [|done].
      unfold OwnedLine_raw in Er. destruct (is_utf8 _); [|done]. by injection Er as <-. }
    unfold mbind, result_bind, mret, result_ret in H. case_bool_decide as Hs.
    - injection H as <-. destruct (lines_add st (fresh 0) line _ Ho) as (l' & H1 & H2).
      rewrite Hraw, (last_task_all _ Hwf). exists l', (fresh 0), line. split_and!; try done. by rewrite Hs.
    - destruct (id_of _) as [i|] eqn:Ei.
      + injection H as <-. destruct (lines_add st i line _ Ho) as (l' & H1 & H2).
        rewrite Hraw, (last_task_all _ Hwf). exists l', i, line. split_and!; try done. by intros _ ? [= ->].
      + destruct (set_tag _ _ _) as [ed|]; [|done]. injection H as <-.
        edestruct (lines_add st (fresh 0)) as (l' & H1 & H2); [exact Ho|].
        rewrite (last_task_all _ Hwf). eexists l', (fresh 0), _. split_and!; try done. }
  destruct m; try done; cbn [mutation_ops edited].
  - intros H. destruct (Hadd _ _ _ H) as (l' & t & text & H1 & H2). exists l'. split; [done|]. by exists t, text.
  - intros H. destruct (Hadd _ _ _ H) as (l' & t & text & H1 & H2). exists l'. split; [done|]. by exists t, text.
  - unfold move_ops. destruct (resolve_ref st task) as [[i id]|] eqn:Er; [|done]. cbn. intros [= <-].
    destruct (resolve_lines _ _ _ _ Hwf Er) as (e & Hi & He). case_bool_decide as Hto.
    + subst to. edestruct (step_move (ds_path st) (ds_ending st) _ Ho i id e Hi He [] (delete i (visible_entries st))); [done|done|].
      cbn [line_run]. rewrite (step_move _ _ _ Ho i id e Hi He [] (delete i (visible_entries st))) by done.
      eexists. split; [reflexivity|]. by exists i, id, e.
    + cbn [line_run]. rewrite (step_leave _ _ _ Ho i id e Hi He) by done. eexists. split; [reflexivity|]. by exists i, id, e.
  - unfold delete_ops. destruct (resolve_ref st task) as [[i id]|] eqn:Er; [|done]. cbn. intros [= <-].
    destruct (resolve_lines _ _ _ _ Hwf Er) as (e & Hi & He). rewrite (task_before_lines _ _ Hwf).
    destruct (lines_delete st _ i id e leave_blank Ho Hi He) as (l' & H1 & H2). exists l'. split; [exact H1|]. by exists i, id.
  - unfold move_to_end_ops. destruct (resolve_ref st task) as [[i id]|] eqn:Er; [|done]. cbn. intros [= <-].
    destruct (resolve_lines _ _ _ _ Hwf Er) as (e & Hi & He). rewrite (last_task_all _ Hwf), (task_before_lines _ _ Hwf).
    destruct (lines_move_to_end st _ i id e Ho Hi He) as (l' & H1 & H2). exists l'. split; [exact H1|]. by exists i, id, e.
  - unfold move_before_ops. destruct (resolve_ref st task) as [[i id]|] eqn:Er; [|done].
    destruct (resolve_ref st before) as [[j jd]|] eqn:Eb; [|done]. cbn.
    destruct (id =? jd)%N eqn:En; [done|]. apply N.eqb_neq in En. intros [= <-].
    destruct (resolve_lines _ _ _ _ Hwf Er) as (e & Hi & He). destruct (resolve_lines _ _ _ _ Hwf Eb) as (b & Hj & Hb).
    rewrite !(task_before_lines _ _ Hwf).
    destruct (lines_move_before st _ i j id e b jd Ho Hi He Hj Hb En) as (l' & pre & mid & post & H1 & H2 & H3 & H4 & H5).
    exists l'. split; [exact H1|]. exists i, id, e, j, jd, b, pre, mid, post. by split_and!.
  - intros [= <-]. by eexists.
Qed.

(** ** Batches *)

(** What a run of local ops keeps: the document stays local, and gains only the tasks given. *)
Record grown (h : Hlc) (st st' : DocState) (new : list TaskId) (used : nat) : Prop := mkGrown {
  gr_local : local h st';
  gr_path : ds_path st' = ds_path st;
  gr_ending : ds_ending st' = ds_ending st;
  gr_mode : ds_mode st' = ds_mode st;
  gr_placed : ∀ t, has_placement st' t = true → has_placement st t = true ∨ t ∈ new;
  gr_room : ∀ n, roomy (used + n) st → roomy n st'
}.

Definition kind_id (k : OpKind) : option TaskId := match k with KInsert t _ _ => Some t | _ => None end.

Lemma grown_refl h st : local h st → grown h st st [] 0.
Proof. by split; auto. Qed.

Lemma grown_trans h st st1 st2 new1 new2 u1 u2 :
  grown h st st1 new1 u1 → grown h st1 st2 new2 u2 → grown h st st2 (new1 ++ new2) (u1 + u2).
Proof.
  intros [A1 A2 A3 A4 A5 A6] [B1 B2 B3 B4 B5 B6]. split; [done|congruence..| |].
  - intros t [Ht|Ht]%B5; [apply A5 in Ht as [?|?]; [by left|]|]; right; set_solver.
  - intros n Hn. apply B6, A6. by rewrite Nat.add_assoc.
Qed.

Lemma plan_ops_run s st ops ks l' :
  local (by_hlc s) st → Forall (brings st) ks → NoDup (omap kind_id ks) → roomy (length ks) st →
  line_run (ds_path st) (ds_ending st) ks (visible_entries st) = Some l' →
  ∃ st' ops', plan_ops s st ops ks = Ok (st', ops') ∧ visible_entries st' = l'
    ∧ grown (by_hlc s) st st' (omap kind_id ks) (length ks).
Proof.
  revert st ops. induction ks as [|k ks IH]; intros st ops Hl Hb Hn Hr Hrun; cbn in Hrun.
  - injection Hrun as <-. exists st, ops. split_and!; [done|done|by apply grown_refl].
  - apply bind_Some in Hrun as (l1 & Hs & Hrun). apply Forall_cons in Hb as [Hb Hbs]. set (o := stamped s (length ops) k).
    assert (roomy 1 st) as Hr1 by (destruct Hr as [? ?]; split; cbn in *; lia).
    destruct (local_step (by_hlc s) st o l1 Hl eq_refl Hr1 Hb Hs) as (st1 & Ha & Hl1 & Hst).
    assert (added_id o = kind_id k) as Hid by done.
    destruct (IH st1 (ops ++ [o])) as (st' & ops' & H1 & H2 & H3).
    + by apply (sp_local _ _ _ _ Hst).
    + apply Forall_forall. intros k' Hk'. rewrite Forall_forall in Hbs. eapply brings_later; [exact Hst|by apply Hbs|].
      intros t Ht after line ->. rewrite Hid in Ht. cbn in Hn. rewrite Ht in Hn. apply NoDup_cons in Hn as [Hn _]. apply Hn.
      apply list_elem_of_omap. by exists (KInsert t after line).
    + cbn in Hn. destruct (kind_id k); [by apply NoDup_cons in Hn as [_ ?]|done].
    + by apply (sp_room _ _ _ _ Hst).
    + rewrite (sp_path _ _ _ _ Hst), (sp_ending _ _ _ _ Hst). unfold shown_lines in Hl1. by rewrite Hl1.
    + exists st', ops'. cbn [plan_ops]. fold o. rewrite Ha. split_and!; [done|done|].
      assert (grown (by_hlc s) st st1 (match kind_id k with Some t => [t] | None => [] end) 1) as Hg.
      { destruct Hst as [G1 G2 G3 G4 G5 G6]. split; try done.
        intros t [?|Ht]%G6; [by left|right]. rewrite Hid in Ht. rewrite Ht. by left. }
      pose proof (grown_trans _ _ _ _ _ _ _ _ Hg H3) as Hg'. cbn [length omap list_omap].
      destruct (kind_id k); exact Hg'.
Qed.

(** The task a mutation brings into the document. *)
Definition brought (md : IdentityMode) (fresh : TaskId) (m : Mutation) : option TaskId :=
  match m with
  | MAdd line => if bool_decide (md = Sidecar) then Some fresh else id_of (OwnedLine_from_bytes line Lf)
  | MArrive line t => if bool_decide (md = Sidecar) then Some t else id_of (OwnedLine_from_bytes line Lf)
  | _ => None
  end.

(** In tagged mode the lines a client adds carry their tag already. *)
Definition tagged_line (md : IdentityMode) (m : Mutation) : Prop :=
  match m with
  | MAdd line | MArrive line _ => md = Tagged → is_Some (id_of (OwnedLine_from_bytes line Lf))
  | _ => True
  end.

Definition brought_from (md : IdentityMode) (s : Stamper) (n : nat) (ms : list Mutation) : list TaskId :=
  omap id (imap (λ i m, brought md (mint_ids s (n + i)) m) ms).

(** A batch of line mutations, with room for it, that brings only new tasks. *)
Record ready (s : Stamper) (n : nat) (st : DocState) (ms : list Mutation) : Prop := mkReady {
  rd_list : Forall (λ m, list_mutation m = true) ms;
  rd_tagged : Forall (tagged_line (ds_mode st)) ms;
  rd_once : NoDup (brought_from (ds_mode st) s n ms);
  rd_new : Forall (λ t, has_placement st t = false) (brought_from (ds_mode st) s n ms);
  rd_room : roomy (2 * length ms) st
}.

(** The edits of a batch, in order, each on the lines the ones before left. *)
Inductive batch_edits (s : Stamper) : nat → list Mutation → DocState → DocState → Prop :=
| be_none n st : batch_edits s n [] st st
| be_one n m ms st st1 st2 :
    edited st (λ _, mint_ids s n) m (visible_entries st) (visible_entries st1) →
    batch_edits s (S n) ms st1 st2 → batch_edits s n (m :: ms) st st2.

Lemma id_of_any_ending line e e' : id_of (OwnedLine_from_bytes line e) = id_of (OwnedLine_from_bytes line e').
Proof.
  unfold id_of, task_of_line, OwnedLine_parse, OwnedLine_from_bytes, OwnedLine_raw. cbn.
  destruct (is_utf8 line); [|done]. cbn. by destruct (result_ok (parse_line line Lenient)).
Qed.

Lemma add_kinds st line fresh ks :
  add_ops st line (λ _, fresh) = Ok ks → tagged_line (ds_mode st) (MAdd line) →
  ∃ t, ks = [KInsert t (task_before st (doc_len st)) line] ∧ brought (ds_mode st) fresh (MAdd line) = Some t
    ∧ (has_placement st t = false → Forall (brings st) ks).
Proof.
  unfold add_ops, task_line. destruct (has_line_break line); [done|].
  destruct (kind <$> OwnedLine_parse _) as [[|t0]|] eqn:Ek; try done.
  assert (default [] (OwnedLine_raw (OwnedLine_from_bytes line Lf)) = line) as Hraw.
  { unfold OwnedLine_parse in Ek. destruct (OwnedLine_raw (OwnedLine_from_bytes line Lf)) as [r|] eqn:Er; [|done].
    unfold OwnedLine_raw in Er. destruct (is_utf8 _); [|done]. by injection Er as <-. }
  unfold mbind, result_bind, mret, result_ret, tagged_line, brought. intros H Ht.
  destruct (ds_mode st) eqn:Em.
  - rewrite bool_decide_eq_false_2 in H |- * by done. destruct (Ht eq_refl) as [i Hi]. rewrite Hi in H. injection H as <-.
    exists i. rewrite Hraw. split_and!; [done|done|]. intros Hp. repeat constructor; [done|]. intros _.
    by rewrite (id_of_any_ending _ _ Lf).
  - rewrite bool_decide_eq_true_2 in H |- * by done. injection H as <-. exists fresh. rewrite Hraw. split_and!; [done|done|].
    intros Hp. repeat constructor; [done|]. by rewrite Em.
Qed.

Lemma mutation_kinds st m fresh ks :
  list_mutation m = true → tagged_line (ds_mode st) m → mutation_ops st m (λ _, fresh) = Ok ks →
  omap kind_id ks = option_list (brought (ds_mode st) fresh m) ∧ length ks ≤ 2
  ∧ ((∀ t, brought (ds_mode st) fresh m = Some t → has_placement st t = false) → Forall (brings st) ks).
Proof.
  intros Hm Ht H. destruct m; try done; cbn [mutation_ops] in H.
  - destruct (add_kinds st line fresh ks H Ht) as (t & -> & Hb & Hbr). rewrite Hb. split_and!; [done|cbn; lia|].
    intros Hn. apply Hbr, Hn. done.
  - destruct (add_kinds st line task ks H Ht) as (t & -> & Hb & Hbr).
    change (brought (ds_mode st) fresh (MArrive line task)) with (brought (ds_mode st) task (MAdd line)).
    rewrite Hb. split_and!; [done|cbn; lia|]. intros Hn. apply Hbr, Hn. done.
  - unfold move_ops in H. destruct (resolve_ref _ _) as [[i id]|]; [|done]. injection H as <-. split_and!; [done|cbn; lia|by repeat constructor].
  - unfold delete_ops in H. destruct (resolve_ref _ _) as [[i id]|]; [|done]. injection H as <-.
    destruct leave_blank; (split_and!; [done|cbn; lia|by repeat constructor]).
  - unfold move_to_end_ops in H. destruct (resolve_ref _ _) as [[i id]|]; [|done]. injection H as <-. split_and!; [done|cbn; lia|by repeat constructor].
  - unfold move_before_ops in H. destruct (resolve_ref _ task) as [[i id]|]; [|done].
    destruct (resolve_ref _ before) as [[j jd]|]; [|done]. cbn in H. destruct (id =? jd)%N; [done|].
    injection H as <-. split_and!; [done|cbn; lia|by repeat constructor].
  - injection H as <-. split_and!; [done|cbn; lia|done].
Qed.

Lemma roomy_less n m st : m ≤ n → roomy n st → roomy m st.
Proof. intros Hle [H1 H2]. split; lia. Qed.

(** A batch refused: the edits before the mutation that cannot be done, and its refusal. *)
Definition stopped (s : Stamper) (n : nat) (st : DocState) (ms : list Mutation) (e : MutationError) : Prop :=
  ∃ ms1 m ms2 st1, ms = ms1 ++ m :: ms2 ∧ batch_edits s n ms1 st st1
    ∧ mutation_ops st1 m (λ _, mint_ids s (n + length ms1)) = Err e.

Lemma plan_from_edits s n st ops ms :
  local (by_hlc s) st → ready s n st ms →
  (∃ e, plan_from s n st ops ms = Err (PlanMutation e) ∧ stopped s n st ms e)
  ∨ ∃ st' ops', plan_from s n st ops ms = Ok (st', ops') ∧ batch_edits s n ms st st' ∧ local (by_hlc s) st'.
Proof.
  revert n st ops. induction ms as [|m ms IH]; intros n st ops Hl [Hli Hta Hon Hnew Hr]; cbn [plan_from].
  { right. exists st, ops. split_and!; [done|constructor|done]. }
  apply Forall_cons in Hli as [Hm Hli]. apply Forall_cons in Hta as [Ht Hta].
  set (fresh := mint_ids s n). unfold mbind, result_bind.
  destruct (mutation_ops st m (λ _, fresh)) as [ks|e] eqn:Ek; cbn [map_err].
  2: { left. exists e. split; [done|]. exists [], m, ms, st. split_and!; [done|constructor|]. by rewrite Nat.add_0_r. }
  destruct (mutation_kinds st m fresh ks Hm Ht Ek) as (Hids & Hlen & Hbr).
  assert (brought_from (ds_mode st) s n (m :: ms) = option_list (brought (ds_mode st) fresh m) ++ brought_from (ds_mode st) s (S n) ms) as Hbf.
  { unfold brought_from. cbn [imap omap list_omap]. rewrite Nat.add_0_r. fold fresh.
    assert (imap (λ i m, brought (ds_mode st) (mint_ids s (n + S i)) m) ms = imap (λ i m, brought (ds_mode st) (mint_ids s (S n + i)) m) ms) as Hi.
    { apply imap_ext. intros i x _. by rewrite Nat.add_succ_comm. }
    unfold compose. rewrite Hi. by destruct (brought _ _ _). }
  rewrite Hbf in Hon, Hnew. apply NoDup_app in Hon as (Hon1 & Hdis & Hon2). apply Forall_app in Hnew as [Hnew1 Hnew2].
  cbn [length] in Hr.
  destruct (mutation_lines st m (λ _, fresh) ks (local_wf _ _ Hl) Hm Ek) as (l' & Hrun & Hed).
  destruct (plan_ops_run s st ops ks l' Hl) as (st1 & ops1 & Hp & Hl1 & Hg); try done.
  { apply Hbr. intros t Hbt. rewrite Hbt in Hnew1. by apply Forall_inv in Hnew1. }
  { by rewrite Hids. }
  { eapply roomy_less; [|exact Hr]. lia. }
  rewrite Hp. cbn [fst snd]. rewrite <- Hl1 in Hed.
  destruct (IH (S n) st1 ops1) as [(e & He & ms1 & m' & ms2 & st2 & -> & Hed2 & He2)|(st2 & ops2 & H1 & H2 & H3)].
  - apply (gr_local _ _ _ _ _ Hg).
  - split; try rewrite (gr_mode _ _ _ _ _ Hg); try done.
    + apply Forall_forall. intros t Htn. destruct (has_placement st1 t) eqn:E; [|done].
      apply (gr_placed _ _ _ _ _ Hg) in E as [E|E].
      * rewrite Forall_forall in Hnew2. rewrite (Hnew2 t Htn) in E. done.
      * rewrite Hids in E. by destruct (Hdis t E).
    + apply (gr_room _ _ _ _ _ Hg). eapply roomy_less; [|exact Hr]. lia.
  - left. exists e. split; [done|]. exists (m :: ms1), m', ms2, st2. split_and!; [done|by econstructor|].
    cbn [length]. by rewrite <- Nat.add_succ_comm.
  - right. exists st2, ops2. split_and!; [done| |done]. econstructor; [exact Hed|done].
Qed.

(** What a reference that resolves to a line and a task means by them. *)
Definition names_line (st : DocState) (task : TaskRef) (i : nat) (id : TaskId) : Prop :=
  (∃ e, visible_entries st !! i = Some e ∧ entry_id e = Some id)
  ∧ match line_number task with
    | 0 => ref_task_id task = Some id
    | S k => k = i ∧ (ds_mode st = Tagged → ∀ seen, ref_task_id task = Some seen → seen = id)
    end.

(** ** Claims *)

(** C8. A client's batch of line mutations does to the lines shown what the mutations mean, one after the
    other: an added line goes after the last task, a deleted one goes or leaves a blank in its place, a
    line moved to the end or before another lands there. A batch is refused only for a mutation that
    cannot be done on the lines the ones before it left, never because an op fails to apply. The document
    is one no peer removed a blank from, in which nothing is newer than the batch's stamp; the batch
    brings only new tasks, whose lines carry their id already where the file is tagged, and has room. *)
Theorem plan_batch_refines s st ms :
  local (by_hlc s) st → ready s 0 st ms →
  (∃ e, plan_batch s st ms = Err (PlanMutation e) ∧ stopped s 0 st ms e)
  ∨ ∃ st' ops, plan_batch s st ms = Ok (st', ops, doc_to_bytes st') ∧ batch_edits s 0 ms st st' ∧ local (by_hlc s) st'.
Proof.
  intros Hl Hr. unfold plan_batch, mbind, result_bind.
  destruct (plan_from_edits s 0 st [] ms Hl Hr) as [(e & He & Hs)|(st' & ops & H1 & H2 & H3)].
  - left. exists e. by rewrite He.
  - right. exists st', ops. rewrite H1. by split_and!.
Qed.

Definition sample_stamper : Stamper :=
  mkStamper (hlc_at 10 1) (PUser 1) todo_path (λ n, N.of_nat n) (λ n, N.of_nat (100 + n)).

Definition sample_batch : list Mutation :=
  [MAdd (str "new"); MDelete (mkTaskRef 1 None) true; MMoveBefore (mkTaskRef 0 (Some 100%N)) (mkTaskRef 2 (Some 2%N))].

Lemma plan_batch_refines_witness :
  match from_file todo_path (parse_file (str "one" ++ [x0a] ++ str "two" ++ [x0a])) [Some 1%N; Some 2%N] Sidecar with
  | Ok st => ∃ st' ops, plan_batch sample_stamper st sample_batch = Ok (st', ops, doc_to_bytes st')
      ∧ batch_edits sample_stamper 0 sample_batch st st' ∧ doc_to_bytes st' = str "new" ++ [x0a; x0a] ++ str "two" ++ [x0a]
  | Err _ => False
  end.
Proof.
  destruct (from_file todo_path (parse_file (str "one" ++ [x0a] ++ str "two" ++ [x0a])) [Some 1%N; Some 2%N] Sidecar) as [st|e] eqn:E;
    [|vm_compute in E; discriminate E].
  assert (local (by_hlc sample_stamper) st) as Hl.
  { eapply (local_later unplaced); [reflexivity|]. eapply open_local; [exact E|]. apply (bool_decide_eq_true_1 _). vm_compute. reflexivity. }
  assert (ready sample_stamper 0 st sample_batch) as Hr.
  { vm_compute in E. injection E as <-. split.
    - repeat constructor.
    - repeat constructor. intros H. discriminate H.
    - apply (bool_decide_eq_true_1 _). vm_compute. reflexivity.
    - apply (bool_decide_eq_true_1 _). vm_compute. reflexivity.
    - split; [apply Nat.leb_le; vm_compute; reflexivity|vm_compute; discriminate]. }
  destruct (plan_batch_refines sample_stamper st sample_batch Hl Hr) as [(e & He & _)|(st' & ops & H1 & H2 & _)].
  - exfalso. vm_compute in E. injection E as <-. vm_compute in He. discriminate He.
  - exists st', ops. split_and!; [exact H1|exact H2|]. clear Hl Hr H2. vm_compute in E. injection E as <-.
    vm_compute in H1. injection H1 as <- _. vm_compute. reflexivity.
Defined.

(** A reference names the line the client saw or is refused: by line number it is the task on that
    line, in tagged mode only when its id is the one the client saw there; by id alone it is that task. *)
Theorem resolve_names_line st task i id :
  doc_reaches once st → resolve_ref st task = Ok (i, id) ↔ names_line st task i id.
Proof.
  intros Hr%reaches_wf. split.
  - intros H. split; [by eapply resolve_lines|]. unfold resolve_ref in H. destruct task as [[|k] t]; cbn in *.
    + destruct t as [t|]; [|done]. destruct (index_of st t); [|done]. by injection H as <- <-.
    + destruct (entry_at st k) as [[found x|x]|]; try done. destruct t as [t|]; [|by injection H as <- <-].
      case_bool_decide as Hm; cbn in H.
      * destruct (t =? found)%N eqn:Et; [|done]. apply N.eqb_eq in Et as ->. injection H as <- <-. split; [done|]. by intros _ ? [= ->].
      * injection H as <- <-. done.
  - intros [(e & He & Hid) H]. unfold resolve_ref. destruct task as [[|k] t]; cbn in *.
    + subst t. rewrite (index_of_lines _ _ Hr).
      pose proof (doc_wf_shown_once _ Hr : ids_once _) as Ho. rewrite <- (take_drop_middle _ _ _ He) in Ho |- *.
      destruct (others_not id _ _ _ Ho Hid) as [H1 _]. rewrite position_app_here; [|done|by apply holds_spec].
      cbn. rewrite length_take. pose proof (lookup_lt_Some _ _ _ He). by rewrite Nat.min_l by lia.
    + destruct H as [-> H]. rewrite (entry_at_lines _ _ Hr), He. destruct e as [found x|x]; [|done]. injection Hid as ->.
      destruct t as [t|]; [|done]. case_bool_decide as Hm; cbn; [|done]. rewrite (H Hm t eq_refl), N.eqb_refl. done.
Qed.

Lemma resolve_names_line_witness :
  match doc_of [str "one"; str "two"] with
  | Some st => resolve_ref st (mkTaskRef 2 None) = Ok (1, 2%N) ∧ resolve_ref st (mkTaskRef 0 (Some 2%N)) = Ok (1, 2%N)
  | None => False
  end.
Proof.
  destruct (doc_of [str "one"; str "two"]) as [st|] eqn:E; [|vm_compute in E; discriminate E].
  assert (doc_reaches once st) as Hr.
  { unfold doc_of in E. destruct (from_file _ _ _ _) as [st'|e] eqn:Ef in E; [|done]. injection E as ->.
    eapply reach_open_once; [exact Ef|]. apply (bool_decide_eq_true_1 _). vm_compute. reflexivity. }
  vm_compute in E. injection E as <-.
  split; apply (resolve_names_line _ _ _ _ Hr); (split; [eexists; split; reflexivity|cbn]); [by split|done].
Defined.
