(* ===== verification/Reconcile.v ===== *)
(** A file edited outside txtodo, as ops: [reconcile.rs] of [crates/txtodo-engine/src], and the
    re-anchoring of a save's ops in [pending_save.rs] of [crates/txtodo-daemon/src].

    The theorems: the ops are bounded by the line counts, and every task line of the file a reconcile
    renders has an id, so that file opens as a document. *)
From S2P Require Import Prelude.
From S2P Require Import Utf8.
From S2P Require Import Types.
From S2P Require Import Ulid.
From S2P Require Import Scanner.
From S2P Require Import Parser.
From S2P Require Import Format.
From S2P Require Import TodoFile.
From S2P Require Import Edit.
From S2P Require Import LineFixes.
From S2P Require Import Myers.
From S2P Require Import Diff.
From S2P Require Import Hlc.
From S2P Require Import TagText.
From S2P Require Import Ops.
From S2P Require Import DocState.
From S2P Require Import FastId.
From S2P Require Import Mutation.

(** ** The result *)

Record Reconciled := mkReconciled {
  r_ops : list OpKind;
  r_file : File;
  r_minted : nat;
  r_reused : nat;
  r_ids : list (option TaskId)
}.

(** Whether a line holds a task. *)
Definition is_task (l : OwnedLine) : bool := bool_decide (is_Some (task_of_line l)).

(** ** Ids for the lines that have none *)

(** The line text with its [id:] word removed. *)
Definition text_without_id (l : OwnedLine) : option bytes :=
  edit ← result_ok (remove_tag Edit_new (str "id"));
  OwnedLine_raw (apply l edit).

Definition needs_id (l : OwnedLine) : bool := bool_decide (fast_id_of l = None) && is_task l.

(** The old ids by their text, oldest first. *)
Definition index_by_text (ls : list OwnedLine) : gmap bytes (list TaskId) :=
  foldl (λ m l, match fast_id_of l, text_without_id l with
                | Some i, Some text => <[text := default [] (m !! text) ++ [i]]> m
                | _, _ => m
                end) ∅ ls.

(** The line with its tag set. *)
Definition tag_line (l : OwnedLine) (i : TaskId) : OwnedLine :=
  match set_tag Edit_new (str "id") (Ulid_display (from_u128 i)) with
  | Ok edit => apply l edit
  | Err _ => l
  end.

(** The loop over the lines: [mint n] is the id the [n]-th call of the closure returns. *)
Fixpoint assign_lines (mint : nat → TaskId) (by_text : gmap bytes (list TaskId)) (minted reused : nat)
    (ls : list OwnedLine) : list OwnedLine * nat * nat :=
  match ls with
  | [] => ([], minted, reused)
  | l :: ls' =>
      if needs_id l then
        match OwnedLine_raw l ≫= (λ t, (t,.) <$> by_text !! t) with
        | Some (t, i :: rest) =>
            let '(out, m, r) := assign_lines mint (<[t := rest]> by_text) minted (S reused) ls' in
            (tag_line l i :: out, m, r)
        | _ =>
            let '(out, m, r) := assign_lines mint by_text (S minted) reused ls' in
            (tag_line l (mint minted) :: out, m, r)
        end
      else
        let '(out, m, r) := assign_lines mint by_text minted reused ls' in (l :: out, m, r)
  end.

Definition with_lines (f : File) (ls : list OwnedLine) : File :=
  mkFile ls (bom f) (f_ending f) (trailing_newline f).

Definition assign_ids (old new_file : File) (mint : nat → TaskId) : File * nat * nat :=
  if negb (existsb needs_id (lines new_file)) then (new_file, 0, 0)
  else
    let '(ls, minted, reused) := assign_lines mint (index_by_text (lines old)) 0 0 (lines new_file) in
    (with_lines new_file ls, minted, reused).

(** ** The passes *)

(** The nearest task id above an index. *)
Definition prev_task (ids : list (option TaskId)) (i : nat) : option TaskId :=
  find_map id (reverse (take i ids)).

(** [ids[i]]; the diff's indices are in range ([Diff.diff_lines_spec]). *)
Definition id_at (ids : list (option TaskId)) (i : nat) : option TaskId := default None (ids !! i).

Definition line_at (f : File) (i : nat) : OwnedLine := default (OwnedLine_new [] Lf NONE) (lines f !! i).

Definition text_of_line (l : OwnedLine) : bytes := default [] (OwnedLine_raw l).

Definition delete_op (old_ids : list (option TaskId)) (from : nat) : OpKind :=
  match id_at old_ids from with
  | Some task =>
      match op_set_field task FDeleted (FVBool true) with
      | Ok op => op
      | Err _ => KBlankRemove (prev_task old_ids from)
      end
  | None => KBlankRemove (prev_task old_ids from)
  end.

(** Pass 1: deletions, bottom-up. *)
Definition delete_pass (diffs : list LineDiff) (old_ids : list (option TaskId)) : list OpKind :=
  omap (λ d, match d with LDelete from => Some (delete_op old_ids from) | _ => None end) (reverse diffs).

(** Pass 2: changed lines. *)
Definition change_pass (diffs : list LineDiff) (old : File) (old_ids : list (option TaskId)) (f : File) : list OpKind :=
  flat_map (λ d, match d with
                 | LChange from to =>
                     match id_at old_ids from with
                     | Some task => change_ops (line_at old from) (line_at f to) task
                     | None => []
                     end
                 | _ => []
                 end) diffs.

Definition insert_op (f : File) (new_ids : list (option TaskId)) (to : nat) : OpKind :=
  let after := prev_task new_ids to in
  match id_at new_ids to with
  | Some task => KInsert task after (text_of_line (line_at f to))
  | None => KBlankInsert after
  end.

(** Pass 3: new and moved task lines, top-down. *)
Definition task_pass (diffs : list LineDiff) (f : File) (new_ids : list (option TaskId)) (path : FilePath) : list OpKind :=
  omap (λ d, match d with
             | LInsert to => if bool_decide (is_Some (id_at new_ids to)) then Some (insert_op f new_ids to) else None
             | LMove _ to => task ← id_at new_ids to; Some (KMove task (prev_task new_ids to) path)
             | _ => None
             end) diffs.

(** Pass 4: new blank lines. *)
Definition blank_pass (diffs : list LineDiff) (new_ids : list (option TaskId)) : list OpKind :=
  omap (λ d, match d with
             | LInsert to => if bool_decide (id_at new_ids to = None) then Some (KBlankInsert (prev_task new_ids to)) else None
             | _ => None
             end) diffs.

(** Ops that turn our last projection into the bytes on disk. *)
Definition reconcile (old new_file : File) (path : FilePath) (mint : nat → TaskId) : Reconciled :=
  let '(f, minted, reused) := assign_ids old new_file mint in
  let old_ids := map fast_id_of (lines old) in
  let new_ids := map fast_id_of (lines f) in
  let diffs := default [] (diff_lines old f) in
  mkReconciled
    (delete_pass diffs old_ids ++ change_pass diffs old old_ids f ++ task_pass diffs f new_ids path ++ blank_pass diffs new_ids)
    f minted reused new_ids.

(** ** Re-anchoring a save (pending_save.rs) *)

(** The closest task above [task] in the editor's file that the state holds. *)
Definition nearest_kept_above (task : TaskId) (ids : list (option TaskId)) (st : DocState) : option TaskId :=
  at_ ← position (λ i, bool_decide (i = Some task)) ids;
  find (λ i, bool_decide (is_Some (index_of st i))) (omap id (reverse (take at_ ids))).

(** One op, on the lines the scratch copy has by now. *)
Definition reanchor_one (ids : list (option TaskId)) (scratch : DocState) (k : OpKind) : OpKind :=
  let lost := λ after, match after with Some a => bool_decide (index_of scratch a = None) | None => false end in
  match k with
  | KInsert task after line => if lost after then KInsert task (nearest_kept_above task ids scratch) line else k
  | KMove task after to => if lost after then KMove task (nearest_kept_above task ids scratch) to else k
  | _ => k
  end.

Fixpoint reanchor (ks : list OpKind) (ids : list (option TaskId)) (scratch : DocState) : list OpKind :=
  match ks with
  | [] => []
  | k :: ks' =>
      let k := reanchor_one ids scratch k in
      k :: reanchor ks' ids (fst (doc_apply (scratch_op (ds_path scratch) k) scratch))
  end.

(** ** Samples *)

Definition ff_old : File := file_of [str "milk id:" ++ sample_id].
Definition ff_new : File := file_of [str "milk id:" ++ sample_id; str "buy" ++ [x0c] ++ str "id:nope milk"].

Example reconcile_sample :
  let r := reconcile (file_of [str "one id:" ++ sample_id]) (file_of [str "one"; str "two"]) todo_path (λ n, N.of_nat n) in
  r_minted r = 1 ∧ r_reused r = 1 ∧ r_ops r = [KInsert 0 (Ulid_parse sample_id ≫= λ u, Some (to_u128 u)) (str "two id:00000000000000000000000000")].
Proof. vm_compute. split_and!; reflexivity. Qed.

(** A word [id:nope] after a form feed: the scan reads it as the tag and finds no id, the editor sets the
    tag after it, and the line stays without an id; the file reconciled does not open. *)
Example reconcile_form_feed :
  let r := reconcile ff_old ff_new todo_path (λ n, N.of_nat n) in
  r_minted r = 1 ∧ r_ids r !! 1 = Some None
  ∧ from_file todo_path (r_file r) (r_ids r) Tagged = Err (MissingId 1).
Proof. vm_compute. split_and!; reflexivity. Qed.

(** So does a word after a carriage return inside a line. *)
Example reconcile_carriage_return :
  let r := reconcile ff_old (file_of [str "milk id:" ++ sample_id; str "buy" ++ [x0d] ++ str "id:nope milk"]) todo_path (λ n, N.of_nat n) in
  from_file todo_path (r_file r) (r_ids r) Tagged = Err (MissingId 1).
Proof. vm_compute. reflexivity. Qed.

(** ** How many ops *)

Lemma change_field_length old new_line wanted task acc f :
  length (fst (change_field old new_line wanted task acc f)) ≤ S (length (fst acc)).
Proof.
  unfold change_field. destruct acc as [ops l]. destruct (field_value new_line f); cbn [fst]; [|lia].
  destruct (_ && _); cbn [fst]; [lia|]. destruct (op_set_field _ _ _); [|cbn; lia].
  destruct (rewrite_prefix l f _); cbn [fst]; rewrite ?length_app; cbn; lia.
Qed.

Lemma change_fields_length old new_line wanted task acc fs :
  length (fst (foldl (change_field old new_line wanted task) acc fs)) ≤ length (fst acc) + length fs.
Proof.
  revert acc. induction fs as [|f fs IH]; intros acc; cbn [foldl length]; [lia|].
  pose proof (change_field_length old new_line wanted task acc f). specialize (IH (change_field old new_line wanted task acc f)). lia.
Qed.

Lemma change_ops_length old new_line task : length (change_ops old new_line task) ≤ 5.
Proof.
  unfold change_ops. destruct (task_of_line new_line) as [wanted|]; [|cbn; lia]. destruct (task_of_line old); [|cbn; lia].
  pose proof (change_fields_length old new_line wanted task ([], old) CHANGE_FIELDS) as H.
  destruct (foldl _ _ _) as [ops l]. cbn in H. destruct (task_of_line l); [|lia].
  rewrite length_app. unfold change_description. destruct (_ && _); [cbn; lia|]. case_bool_decide; cbn; lia.
Qed.

Lemma passes_length diffs old old_ids f new_ids path :
  length (delete_pass diffs old_ids ++ change_pass diffs old old_ids f ++ task_pass diffs f new_ids path ++ blank_pass diffs new_ids)
  ≤ 5 * length (flat_map tos diffs) + length (flat_map froms diffs).
Proof.
  rewrite !length_app. unfold delete_pass.
  assert (length (omap (λ d, match d with LDelete from => Some (delete_op old_ids from) | _ => None end) (reverse diffs))
    = length (omap (λ d, match d with LDelete from => Some (delete_op old_ids from) | _ => None end) diffs)) as ->.
  { apply Permutation_length. by rewrite reverse_Permutation. }
  induction diffs as [|d diffs IH]; [cbn; lia|]. unfold change_pass, task_pass, blank_pass in *.
  cbn [flat_map omap list_omap]. rewrite !length_app. destruct d as [a b|b|a|a b|a b]; cbn [tos froms length].
  - lia.
  - case_bool_decide as H1; case_bool_decide as H2; cbn [length]; [rewrite H2 in H1; by destruct H1| | |]; lia.
  - cbn [length]. lia.
  - destruct (id_at old_ids a) as [t|]; cbn [length]; [|lia]. pose proof (change_ops_length (line_at old a) (line_at f b) t). lia.
  - destruct (id_at new_ids b); cbn [length mbind option_bind]; lia.
Qed.

Lemma assign_lines_length mint by_text m r ls ls' m' r' :
  assign_lines mint by_text m r ls = (ls', m', r') → length ls' = length ls ∧ m + r ≤ m' + r' ≤ m + r + length ls.
Proof.
  revert by_text m r ls' m' r'. induction ls as [|l ls IH]; intros by_text m r ls' m' r' H; cbn [assign_lines] in H.
  - injection H as <- <- <-. cbn. lia.
  - destruct (needs_id l).
    + destruct (OwnedLine_raw l ≫= _) as [[t [|i rest]]|].
      all: destruct (assign_lines _ _ _ _ ls) as [[out m1] r1] eqn:E; injection H as <- <- <-; apply IH in E; cbn; lia.
    + destruct (assign_lines _ _ _ _ ls) as [[out m1] r1] eqn:E. injection H as <- <- <-. apply IH in E. cbn. lia.
Qed.

Lemma assign_ids_length old new_file mint f m r :
  assign_ids old new_file mint = (f, m, r) → length (lines f) = length (lines new_file) ∧ m + r ≤ length (lines new_file).
Proof.
  unfold assign_ids. destruct (negb _).
  - intros [= <- <- <-]. lia.
  - destruct (assign_lines _ _ _ _ _) as [[ls m1] r1] eqn:E. intros [= <- <- <-]. apply assign_lines_length in E. cbn. lia.
Qed.

(** ** A tagged line has its id *)

(** No byte the fast scan splits at and the parser does not. *)
Definition clean (s : bytes) : Prop := Forall (λ b, b ∉ [x0a; x0c; x0d]) s.

Lemma clean_app s t : clean (s ++ t) ↔ clean s ∧ clean t.
Proof. apply Forall_app. Qed.

Lemma clean_take n s : clean s → clean (take n s).
Proof. apply Forall_take. Qed.

Lemma clean_drop n s : clean s → clean (drop n s).
Proof. apply Forall_drop. Qed.

Lemma clean_plain s : Forall (λ b, is_ascii_whitespace b = false) s → clean s.
Proof. intros H. eapply Forall_impl; [exact H|]. intros b Hb. cbn in Hb. set_unfold. intros [->|[->|[->|[]]]]; discriminate Hb. Qed.

Lemma clean_set_tag d v : clean d → clean v → clean (Draft_set_tag d (str "id") v).
Proof.
  intros Hd Hv. assert (clean (str "id" ++ str ":" ++ v)) as Hw.
  { rewrite !clean_app. split_and!; [| |done]; apply clean_plain; repeat constructor. }
  unfold Draft_set_tag. destruct (Draft_find_tag d (str "id")) as [[s e]|].
  - unfold replace_range. rewrite (clean_app (take s d)), (clean_app (str "id" ++ _)). split_and!; [by apply clean_take|done|by apply clean_drop].
  - unfold Draft_append. rewrite clean_app. split; [|done]. destruct (_ && _); [|done]. rewrite clean_app. split; [done|].
    apply (bool_decide_eq_true_1 _). vm_compute. reflexivity.
Qed.

Lemma join_first_id prefix d v :
  find_map id_value (split_on is_ws prefix) = None → d ≠ [] → find_map id_value (split_on is_ws d) = Some v →
  find_map id_value (split_on is_ws (join prefix d)) = Some v.
Proof.
  intros Hp Hd Hv. unfold join. rewrite bool_decide_eq_false_2 by done.
  destruct prefix as [|b a _] using rev_ind; [done|]. rewrite last_snoc.
  rewrite bool_decide_eq_false_2 by (intros E; by apply app_eq_nil in E as [_ E]). cbn [negb andb].
  destruct (is_ws b) eqn:Hb; cbn [negb].
  - rewrite first_id_after; [done|done|]. right. by exists a, b.
  - rewrite first_id_after; [done| |right; by exists (a ++ [b]), " "%byte].
    change (str " ") with [" "%byte]. by rewrite (find_map_cut id_value (a ++ [b]) " "%byte [] eq_refl), Hp.
Qed.

Lemma set_id_tag_ok i :
  set_tag Edit_new (str "id") (Ulid_display (from_u128 i)) = Ok (mkEdit [SetTag (str "id") (Ulid_display (from_u128 i))]).
Proof.
  destruct (Ulid_display_plain (from_u128 i)) as [Hne Hws]. unfold set_tag, valid_tag.
  assert (existsb is_ascii_whitespace (Ulid_display (from_u128 i)) = false) as Hx.
  { apply not_true_iff_false. intros (b & Hb & Ht)%existsb_exists. rewrite Forall_forall in Hws.
    rewrite (Hws b) in Ht; [done|by apply list_elem_of_In]. }
  rewrite Hx, (bool_decide_eq_false_2 (Ulid_display _ = [])) by done. reflexivity.
Qed.

Lemma task_line_parse l : is_task l = true →
  OwnedLine_raw l = Some (ol_bytes l) ∧ ∃ pl t, parse_line (ol_bytes l) Lenient = Ok pl ∧ kind pl = LTask t.
Proof.
  unfold is_task, task_of_line, OwnedLine_parse. intros [t Ht]%bool_decide_eq_true. revert Ht.
  destruct (OwnedLine_raw l) as [r|] eqn:Hr; [|done]. assert (r = ol_bytes l) as ->.
  { unfold OwnedLine_raw in Hr. destruct (is_utf8 _); [|done]. by injection Hr as <-. }
  cbn. destruct (parse_line (ol_bytes l) Lenient) as [pl|] eqn:Hp; [|done]. cbn. destruct (kind pl) eqn:Hk; [done|].
  intros _. split; [done|]. by eexists _, _.
Qed.

Lemma tag_line_id l i :
  clean (ol_bytes l) → is_task l = true → (i < u128_mod)%N →
  fast_id_of (tag_line l i) = Some i ∧ clean (ol_bytes (tag_line l i)).
Proof.
  intros Hc Ht Hi. destruct (task_line_parse l Ht) as (Hraw & pl & t & Hp & Hk).
  set (v := Ulid_display (from_u128 i)). destruct (Ulid_display_plain (from_u128 i)) as [Hvne Hvp]. fold v in Hvne, Hvp.
  assert (Forall (λ b, is_ws b = false) v) as Hvw.
  { eapply Forall_impl; [exact Hvp|]. intros b Hb. destruct b; try reflexivity; discriminate Hb. }
  assert (Ulid_parse v = Some (from_u128 i)) as Hparse by (by apply Ulid_parse_display_wf).
  assert (clean (description t)) as Hcd.
  { destruct (quiet_prefix _ _ _ Hp Hk) as (k & _ & ->). by apply clean_drop. }
  unfold tag_line. rewrite set_id_tag_ok. fold v. set (e := mkEdit [SetTag (str "id") v]).
  assert (is_utf8 (ol_bytes (apply l e)) = true) as Hu.
  { assert (is_utf8 (ol_bytes l) = true) as Hul by (unfold OwnedLine_raw in Hraw; by destruct (is_utf8 _)).
    rewrite <- Hul. apply (apply_keeps l e).
    - unfold line_ok. intros Hin. unfold clean in Hc. rewrite Forall_forall in Hc. apply (Hc _ Hin). left.
    - eapply (built_set_tag Edit_new e (str "id") v); [apply built_new|done| |exact (set_id_tag_ok i)].
      assert (text_ok v) as [? _]; [|done]. apply text_ok_ascii. eapply Forall_impl; [apply Ulid_display_ascii|].
      intros b [Hb Hb']. split; [done|]. intros ->. discriminate Hb. }
  assert (fast_id_of (apply l e) = (v' ← find_map id_value (split_on is_ascii_whitespace (ol_bytes (apply l e))); to_u128 <$> Ulid_parse v')) as Hf.
  { unfold fast_id_of, OwnedLine_raw. by rewrite Hu. }
  enough (find_map id_value (split_on is_ws (ol_bytes (apply l e))) = Some v ∧ clean (ol_bytes (apply l e))) as [Hv Hcl].
  { split; [|done]. rewrite Hf, (split_ascii_ws _ Hcl), Hv. cbn [mbind option_bind]. by rewrite Hparse. }
  clear Hf Hu. destruct (set_tag_first (description t) v Hvne Hvw) as [Hdne Hdv].
  unfold apply. rewrite Hraw. assert (draft_of (ol_bytes l) = mkDraft (Prefix_of t) (description t)) as Hdr by (unfold draft_of; by rewrite Hp, Hk).
  rewrite Hdr. cbn [ops_of e foldl Draft_apply d_prefix d_description].
  unfold settle_priority. cbn [d_prefix]. rewrite (bool_decide_eq_true_2 (Prefix_of t = Prefix_of t)) by done. cbn [negb andb d_description].
  destruct (bool_decide (Draft_set_tag (description t) (str "id") v = description t)) eqn:Ed; cbn [negb].
  - apply bool_decide_eq_true in Ed. split; [|done]. rewrite (id_value_description _ _ _ Hp Hk), <- Ed. exact Hdv.
  - cbn [ol_bytes OwnedLine_from_bytes OwnedLine_new]. destruct (quiet_prefix _ _ _ Hp Hk) as (k & Hq & Hd).
    assert (description_start (ol_bytes l) = chunk_pos (ol_bytes l) k) as ->.
    { unfold description_start. rewrite Hp, Hk, Hd, length_drop. unfold chunk_pos.
      destruct (chunks (ol_bytes l) !! k) as [c|] eqn:Ec; cbn [from_option]; [|lia]. destruct (chunks_lookup _ _ _ Ec). lia. }
    split.
    + apply join_first_id; [|done|done]. by apply find_map_before.
    + unfold join. rewrite bool_decide_eq_false_2 by done. rewrite clean_app. split; [|by apply clean_set_tag; [|apply clean_plain]].
      destruct (_ && _); [rewrite clean_app; split; [by apply clean_take|]|by apply clean_take].
      apply (bool_decide_eq_true_1 _). vm_compute. reflexivity.
Qed.

(** ** Every task line has an id *)

Definition id_wf (i : TaskId) : Prop := (i < u128_mod)%N.

Lemma fast_id_wf l i : fast_id_of l = Some i → id_wf i.
Proof.
  unfold fast_id_of. intros (r & _ & H)%bind_Some. apply bind_Some in H as (v & _ & H). apply fmap_Some in H as (u & Hu & ->).
  by apply Ulid_parse_inv in Hu as [? _].
Qed.

Lemma index_wf (ls : list OwnedLine) (m : gmap bytes (list TaskId)) : (∀ t ks, m !! t = Some ks → Forall id_wf ks) →
  ∀ t ks, foldl (λ m l, match fast_id_of l, text_without_id l with
                | Some i, Some text => <[text := default [] (m !! text) ++ [i]]> m
                | _, _ => m
                end) m ls !! t = Some ks → Forall id_wf ks.
Proof.
  revert m. induction ls as [|l ls IH]; intros m Hm; cbn [foldl]; [exact Hm|]. apply IH.
  destruct (fast_id_of l) as [i|] eqn:Ei; [|done]. destruct (text_without_id l) as [text|]; [|done].
  intros t ks. destruct (decide (t = text)) as [->|Hne].
  - rewrite lookup_insert_eq. intros [= <-]. apply Forall_app. split; [|repeat constructor; by eapply fast_id_wf].
    destruct (m !! text) as [ks|] eqn:E; [by apply (Hm text)|constructor].
  - rewrite lookup_insert_ne by done. apply Hm.
Qed.

(** A line a reconcile leaves: unchanged, or a task line with its tag set. *)
Definition assigned (l l' : OwnedLine) : Prop :=
  (l' = l ∧ needs_id l = false) ∨ ∃ i, id_wf i ∧ needs_id l = true ∧ l' = tag_line l i.

Lemma assign_lines_spec mint by_text m r ls ls' m' r' :
  (∀ n, id_wf (mint n)) → (∀ t ks, by_text !! t = Some ks → Forall id_wf ks) →
  assign_lines mint by_text m r ls = (ls', m', r') → Forall2 assigned ls ls'.
Proof.
  intros Hmint. revert by_text m r ls' m' r'. induction ls as [|l ls IH]; intros by_text m r ls' m' r' Hb H; cbn [assign_lines] in H.
  - injection H as <- <- <-. constructor.
  - destruct (needs_id l) eqn:En.
    + destruct (OwnedLine_raw l ≫= _) as [[t [|i rest]]|] eqn:Et.
      2: { destruct (assign_lines _ _ _ _ ls) as [[out m1] r1] eqn:E. injection H as <- <- <-.
           apply bind_Some in Et as (t' & _ & Et). apply fmap_Some in Et as (ks & His & Et). injection Et as <- <-.
           pose proof (Hb _ _ His) as Hw. apply Forall_cons in Hw as [Hi Hrest].
           constructor; [right; by exists i|]. eapply IH; [|exact E]. intros t' ks'. destruct (decide (t' = t)) as [->|Hne].
           - rewrite lookup_insert_eq. by intros [= <-].
           - rewrite lookup_insert_ne by done. apply Hb. }
      all: destruct (assign_lines _ _ _ _ ls) as [[out m1] r1] eqn:E; injection H as <- <- <-;
        (constructor; [right; exists (mint m); split_and!; [apply Hmint|done|done]|by eapply IH]).
    + destruct (assign_lines _ _ _ _ ls) as [[out m1] r1] eqn:E. injection H as <- <- <-. constructor; [by left|by eapply IH].
Qed.

Lemma assign_ids_spec old new_file mint f m r :
  (∀ n, id_wf (mint n)) → assign_ids old new_file mint = (f, m, r) →
  Forall2 assigned (lines new_file) (lines f) ∧ bom f = bom new_file ∧ f_ending f = f_ending new_file
  ∧ trailing_newline f = trailing_newline new_file.
Proof.
  intros Hmint. unfold assign_ids. destruct (existsb needs_id (lines new_file)) eqn:Ex; cbn [negb].
  - destruct (assign_lines _ _ _ _ _) as [[ls m1] r1] eqn:E. intros [= <- <- <-]. split_and!; try done.
    eapply assign_lines_spec; [exact Hmint| |exact E]. apply index_wf. intros t ks. by rewrite lookup_empty.
  - intros [= <- <- <-]. split_and!; try done. induction (lines new_file) as [|l ls IH]; [constructor|]. cbn in Ex.
    apply orb_false_iff in Ex as [En Ex]. constructor; [by left|by apply IH].
Qed.

Lemma assigned_id l l' :
  assigned l l' → clean (ol_bytes l) → is_task l' = true → is_Some (fast_id_of l').
Proof.
  intros [[-> Hn]|(i & Hi & Hn & ->)] Hc Ht.
  - unfold needs_id in Hn. rewrite Ht, andb_true_r in Hn. apply bool_decide_eq_false in Hn. by destruct (fast_id_of l).
  - unfold needs_id in Hn. apply andb_true_iff in Hn as [_ Hl]. destruct (tag_line_id l i Hc Hl Hi) as [-> _]. by eexists.
Qed.

Lemma tag_line_utf8 l i : clean (ol_bytes l) → is_utf8 (ol_bytes (tag_line l i)) = is_utf8 (ol_bytes l).
Proof.
  intros Hc. unfold tag_line. rewrite set_id_tag_ok. apply apply_keeps.
  - unfold line_ok. intros Hin. unfold clean in Hc. rewrite Forall_forall in Hc. apply (Hc _ Hin). left.
  - eapply (built_set_tag Edit_new _ (str "id") (Ulid_display (from_u128 i))); [apply built_new|done| |exact (set_id_tag_ok i)].
    assert (text_ok (Ulid_display (from_u128 i))) as [? _]; [|done]. apply text_ok_ascii.
    eapply Forall_impl; [apply Ulid_display_ascii|]. intros b [Hb Hb']. split; [done|]. intros ->. discriminate Hb.
Qed.

Lemma entries_of_found n ls :
  Forall (λ l, is_utf8 (ol_bytes l) = true ∧ (is_task l = true → is_Some (fast_id_of l))) ls →
  ∃ es, entries_of n ls (map fast_id_of ls) = Ok es ∧ map entry_line es = ls.
Proof.
  intros H. revert n. induction H as [|l ls [Hu Ht] _ IH]; intros n; [by exists []|]. cbn [entries_of map head tail].
  destruct (IH (S n)) as (es & Hes & Hls).
  assert (∃ e, entry_of n l (default None (Some (fast_id_of l))) = Ok e ∧ entry_line e = l) as (e & He & Hl).
  { unfold entry_of. destruct (OwnedLine_parse l) as [pl|] eqn:Ep.
    - destruct (kind pl) as [|t] eqn:Ek; [by eexists|]. assert (is_task l = true) as Hit.
      { unfold is_task, task_of_line. rewrite Ep. cbn. rewrite Ek. apply bool_decide_eq_true. by eexists. }
      destruct (Ht Hit) as [i Hi]. cbn [default]. unfold id. rewrite Hi. by eexists.
    - exfalso. unfold OwnedLine_parse, OwnedLine_raw in Ep. rewrite Hu in Ep. cbn in Ep.
      destruct (parse_line_lenient_ok (ol_bytes l) DEFAULT_SCHEMES) as [pl Hpl]. unfold parse_line in Ep. rewrite Hpl in Ep. done. }
  exists (e :: es). unfold mbind, result_bind. rewrite He, Hes. cbn. by rewrite Hl, Hls.
Qed.

Lemma omap_seq {A} (l : list A) : omap (λ s, l !! s) (seq 0 (length l)) = l.
Proof.
  induction l as [|x l IH] using rev_ind; [done|]. rewrite length_app, Nat.add_1_r, seq_S, omap_app. cbn [omap list_omap].
  rewrite Nat.add_0_l, lookup_app_r, Nat.sub_diag by lia. cbn. f_equal. etrans; [|exact IH].
  apply list_omap_ext, Forall_Forall2_diag, Forall_forall. intros s Hs%elem_of_seq. by rewrite lookup_app_l by lia.
Qed.

Lemma from_file_bytes path f ids m st :
  from_file path f ids m = Ok st → map entry_line (visible_entries st) = lines f → doc_to_bytes st = to_bytes f.
Proof.
  intros H Hl. unfold doc_to_bytes. rewrite Hl. unfold from_file in H. destruct (_ <? _)%N; [done|].
  destruct (entries_of 0 (lines f) ids); [|done]. injection H as <-. by destruct f.
Qed.

(** ** Claims *)

(** The ops of a reconcile are bounded by the two files' line counts: at most five for each line of
    the new file and one for each line of the old one, within the six the code asserts; and at most one
    id is given to each line of the new file. *)
Theorem reconcile_op_bound old new_file path mint :
  let r := reconcile old new_file path mint in
  length (r_ops r) ≤ 5 * length (lines new_file) + length (lines old)
  ∧ r_minted r + r_reused r ≤ length (lines new_file) ∧ length (r_ids r) = length (lines new_file).
Proof.
  unfold reconcile. destruct (assign_ids old new_file mint) as [[f m] rr] eqn:E. cbn [r_ops r_minted r_reused r_ids].
  apply assign_ids_length in E as [Hlen Hm]. destruct (diff_lines_spec old f) as (ds & -> & Hf & Ht & _). cbn [default].
  unfold id. split_and!; [|done|by rewrite length_map].
  pose proof (passes_length ds old (map fast_id_of (lines old)) f (map fast_id_of (lines f)) path) as H.
  rewrite Hf, Ht, !length_seq in H. lia.
Qed.

(** C9. A file of UTF-8 lines without form feeds or carriage returns, no more of them than a file may
    have, always opens once reconciled, the ids minted being well formed: every task line has an id,
    found, recovered or minted, and the document opened writes back exactly the bytes the reconciler
    rendered. [reconcile_form_feed] and [reconcile_carriage_return] evaluate the exception. *)
Theorem reconcile_opens old new_file path mint :
  (∀ n, id_wf (mint n)) → Forall (λ l, is_utf8 (ol_bytes l) = true ∧ clean (ol_bytes l)) (lines new_file) →
  (N.of_nat (length (lines new_file)) <= MAX_LINES_PER_FILE)%N →
  let r := reconcile old new_file path mint in
  ∃ st, from_file path (r_file r) (r_ids r) Tagged = Ok st ∧ doc_to_bytes st = to_bytes (r_file r)
    ∧ ∀ i l, lines (r_file r) !! i = Some l → is_task l = true → is_Some (id_at (r_ids r) i).
Proof.
  intros Hmint Hl Hmax. unfold reconcile. destruct (assign_ids old new_file mint) as [[f m] rr] eqn:E. cbn [r_file r_ids].
  destruct (assign_ids_length _ _ _ _ _ _ E) as [Hlen _].
  destruct (assign_ids_spec _ _ _ _ _ _ Hmint E) as (Hass & _).
  assert (Forall (λ l, is_utf8 (ol_bytes l) = true ∧ (is_task l = true → is_Some (fast_id_of l))) (lines f)) as Hok.
  { clear -Hass Hl. induction Hass as [|l l' ls ls' Ha _ IH]; [constructor|]. apply Forall_cons in Hl as [[Hu Hc] Hl].
    constructor; [|by apply IH]. split; [|by eapply assigned_id].
    destruct Ha as [[-> _]|(i & _ & _ & ->)]; [done|]. by rewrite tag_line_utf8. }
  destruct (entries_of_found 0 (lines f) Hok) as (es & Hes & Hmap).
  assert (from_file path f (map fast_id_of (lines f)) Tagged = Ok (mkDocState path es (replicate (length es) false) (seq 0 (length es))
    (replicate (length es) unplaced) (replicate (length es) None) (replicate (length es) false) ∅ ∅ ∅ (bom f) (f_ending f) (trailing_newline f) Tagged)) as Hopen.
  { unfold from_file. rewrite (proj2 (N.ltb_ge _ _)) by lia. by rewrite Hes. }
  rewrite Hopen. eexists. split; [reflexivity|]. split.
  - eapply from_file_bytes; [exact Hopen|]. unfold visible_entries. cbn [visible entries]. by rewrite omap_seq.
  - intros i l Hi Ht. unfold id_at. change (map fast_id_of) with (fmap (M:=list) fast_id_of).
    rewrite list_lookup_fmap, Hi. rewrite Forall_lookup in Hok. by apply (Hok i l Hi).
Qed.

Lemma reconcile_opens_witness :
  let r := reconcile (file_of [str "one id:" ++ sample_id]) (file_of [str "one"; []; str "(A) two id:nope"]) todo_path (λ n, N.of_nat n mod 2)%N in
  (∃ st, from_file todo_path (r_file r) (r_ids r) Tagged = Ok st ∧ doc_to_bytes st = to_bytes (r_file r))
  ∧ to_bytes (r_file r) = str "one id:" ++ sample_id ++ [x0a; x0a] ++ str "(A) two id:00000000000000000000000000" ++ [x0a].
Proof.
  split; [|vm_compute; reflexivity].
  destruct (reconcile_opens (file_of [str "one id:" ++ sample_id]) (file_of [str "one"; []; str "(A) two id:nope"]) todo_path
    (λ n, N.of_nat n mod 2)%N) as (st & H1 & H2 & _).
  - intros n. unfold id_wf. pose proof (N.mod_lt (N.of_nat n) 2 ltac:(lia)). unfold u128_mod. lia.
  - apply (bool_decide_eq_true_1 _). vm_compute. reflexivity.
  - vm_compute. discriminate.
  - exact (ex_intro _ st (conj H1 H2)).
Defined.
