(* ===== verification/Lis.v ===== *)
(** The longest increasing subsequence [reconcile_sidecar.rs] of [crates/txtodo-engine/src] tells kept
    lines from moved ones by ([lis_indices], patience sorting with back pointers).

    The theorem: what it gives is strictly increasing, in order and in bounds, and none is longer. *)
From S2P Require Import Prelude.

(** [seq[i]]; every index here is in bounds. *)
Definition val (sq : list nat) (i : nat) : nat := default 0 (sq !! i).

(** [partition_point], of a slice its predicate partitions. *)
Definition partition_point {A} (p : A → bool) (l : list A) : nat := run_while p l.

(** One pass of the loop over [seq]: [tails], [prev] and the index. *)
Definition lis_step (sq : list nat) (tp : list nat * list (option nat)) (iv : nat * nat) : list nat * list (option nat) :=
  let '(tails, prev) := tp in
  let '(i, v) := iv in
  let pos := partition_point (λ ti, val sq ti <? v) tails in
  let prev := if 0 <? pos then <[i := tails !! (pos - 1)]> prev else prev in
  if pos =? length tails then (tails ++ [i], prev) else (<[pos := i]> tails, prev).

(** The walk back; each back pointer is to a smaller index, so [length seq] is enough. *)
Fixpoint walk_back (fuel : nat) (prev : list (option nat)) (cur : option nat) (lis : list nat) : list nat :=
  match fuel, cur with
  | S fuel', Some i => walk_back fuel' prev (default None (prev !! i)) (lis ++ [i])
  | _, _ => lis
  end.

Definition lis_indices (sq : list nat) : list nat :=
  let '(tails, prev) := foldl (lis_step sq) ([], replicate (length sq) None) (zip (seq 0 (length sq)) sq) in
  reverse (walk_back (length sq) prev (last tails) []).

Example lis_sample : lis_indices [3; 1; 4; 1; 5; 9; 2; 6] = [1; 2; 4; 7].
Proof. reflexivity. Qed.

(** ** The theorem *)

(** Indices in order whose values rise. *)
Definition rising (sq : list nat) (js : list nat) : Prop :=
  StronglySorted (λ i j, i < j ∧ val sq i < val sq j) js ∧ Forall (λ i, i < length sq) js.

Lemma rising_snoc sq js j :
  rising sq (js ++ [j]) ↔ rising sq js ∧ j < length sq ∧ ∀ i, last js = Some i → i < j ∧ val sq i < val sq j.
Proof.
  unfold rising. rewrite Forall_app, Forall_singleton. split.
  - intros (Hs & Hf & Hj). split_and!; [|done|done|].
    + clear -Hs. induction js as [|x js IH]; [constructor|]. apply StronglySorted_inv in Hs as [Hs Hx]. constructor; [by apply IH|].
      by apply Forall_app in Hx as [? _].
    + intros i Hi. apply last_Some in Hi as [js' ->]. rewrite <- app_assoc in Hs. clear -Hs. induction js' as [|x js' IH]; cbn in Hs.
      * apply StronglySorted_inv in Hs as [_ Hx]. by inversion Hx.
      * apply StronglySorted_inv in Hs as [Hs _]. by apply IH.
  - intros ((Hs & Hf) & Hj & Hl). split_and!; [|done|done]. clear Hf Hj. induction Hs as [|x js Hs IH Hx]; cbn; [repeat constructor|].
    assert (∀ i, last js = Some i → i < j ∧ val sq i < val sq j) as Hl'.
    { intros i Hi. apply Hl. destruct js; [done|exact Hi]. }
    constructor; [by apply IH|]. apply Forall_app. split; [done|]. apply Forall_singleton.
    destruct js as [|y js] using rev_ind; [by apply Hl|]. destruct (Hl' y) as [? ?]; [by rewrite last_snoc|].
    apply Forall_app in Hx as [_ [[? ?] _]%Forall_cons]. lia.
Qed.

Lemma rising_length sq js : rising sq js → length js ≤ length sq.
Proof.
  intros [Hs Hf].
  assert (NoDup js) as Hnd by (clear -Hs; induction Hs as [|x l Hs IH Hx]; constructor; [|done];
    intros Hin; apply (proj1 (Forall_forall _ _) Hx) in Hin; lia).
  assert (js ⊆+ seq 0 (length sq)) as Hsub.
  { apply NoDup_submseteq; [done|]. intros x Hx. apply elem_of_seq. apply (proj1 (Forall_forall _ _) Hf) in Hx. lia. }
  apply submseteq_length in Hsub. by rewrite length_seq in Hsub.
Qed.

(** The chain of back pointers that ends at an index. *)
Inductive chain (sq : list nat) (prev : list (option nat)) : nat → list nat → Prop :=
| chain_one i : prev !! i = Some None → chain sq prev i [i]
| chain_next i j l : prev !! i = Some (Some j) → chain sq prev j l → j < i → val sq j < val sq i → chain sq prev i (l ++ [i]).

Lemma chain_bound sq prev i l : chain sq prev i l → ∀ x, x ∈ l → x ≤ i.
Proof.
  induction 1 as [i Hp|i j l Hp Hc IH Hlt Hv]; intros x Hx; [by apply list_elem_of_singleton in Hx as ->|].
  apply elem_of_app in Hx as [Hx| ->%list_elem_of_singleton]; [specialize (IH x Hx)|]; lia.
Qed.

Lemma chain_rising sq prev i l : i < length sq → chain sq prev i l → rising sq l ∧ last l = Some i.
Proof.
  intros Hi Hc. revert Hi. induction Hc as [i Hp|i j l Hp Hc IH Hlt Hv]; intros Hi.
  - split; [|done]. split; [repeat constructor|by constructor].
  - rewrite last_snoc. split; [|done]. apply rising_snoc. destruct (IH ltac:(lia)) as [Hr Hl].
    split_and!; [done|done|]. intros x Hx. rewrite Hl in Hx. by injection Hx as <-.
Qed.

Lemma chain_insert sq prev k o i l : chain sq prev i l → i < k → chain sq (<[k := o]> prev) i l.
Proof.
  induction 1 as [i Hp|i j l Hp Hc IH Hlt Hv]; intros Hk.
  - constructor. rewrite list_lookup_insert_ne by lia. done.
  - eapply chain_next; [|apply IH; lia|done|done]. rewrite list_lookup_insert_ne by lia. done.
Qed.

(** After the first [k] values: each length's tail is the end of a chain of that length, tails rise, and
    no rising indices below [k] end lower than the tail of their length. *)
Record lis_inv (sq : list nat) (k : nat) (tails : list nat) (prev : list (option nat)) : Prop := {
  li_len : length prev = length sq;
  li_new i : k ≤ i → i < length sq → prev !! i = Some None;
  li_chain p t : tails !! p = Some t → t < k ∧ ∃ l, chain sq prev t l ∧ length l = S p;
  li_sorted p q t u : p < q → tails !! p = Some t → tails !! q = Some u → val sq t < val sq u;
  li_best js j : rising sq (js ++ [j]) → j < k → ∃ t, tails !! length js = Some t ∧ val sq t ≤ val sq j
}.

Lemma lis_step_inv sq k v tails prev :
  lis_inv sq k tails prev → sq !! k = Some v →
  let '(tails', prev') := lis_step sq (tails, prev) (k, v) in lis_inv sq (S k) tails' prev'.
Proof.
  intros [Hlen Hnew Hchain Hsort Hbest] Hv. pose proof (lookup_lt_Some _ _ _ Hv) as Hk.
  assert (val sq k = v) as Hval by (unfold val; by rewrite Hv).
  unfold lis_step, partition_point. set (test := λ ti, val sq ti <? v).
  destruct (run_while_spec test tails) as (Hpos & Hbefore & Hat). set (pos := run_while test tails) in *.
  set (prev' := if 0 <? pos then <[k:=tails !! (pos - 1)]> prev else prev).
  assert (∀ i l, chain sq prev i l → i < k → chain sq prev' i l) as Hkeep.
  { intros i l Hc Hi. unfold prev'. destruct (0 <? pos); [by apply chain_insert|done]. }
  assert (∃ l, chain sq prev' k l ∧ length l = S pos) as Hmine.
  { unfold prev'. destruct (Nat.ltb_spec 0 pos) as [Hp|Hp].
    - destruct (lookup_lt_is_Some_2 tails (pos - 1)) as [t Ht]; [lia|]. destruct (Hchain _ _ Ht) as (Htk & l & Hc & Hl).
      pose proof (Hbefore (pos - 1) t ltac:(lia) Ht) as Hlt. apply Nat.ltb_lt in Hlt.
      exists (l ++ [k]). split; [|rewrite length_app; simpl; lia]. apply (chain_next _ _ k t); [|by apply chain_insert|done|lia].
      rewrite list_lookup_insert_eq by lia. by rewrite Ht.
    - exists [k]. split; [|simpl; lia]. constructor. apply Hnew; lia. }
  set (tails' := if pos =? length tails then tails ++ [k] else <[pos:=k]> tails).
  assert (tails' !! pos = Some k) as Hput.
  { unfold tails'. destruct (Nat.eqb_spec pos (length tails)) as [->|]; [by rewrite lookup_app_r, Nat.sub_diag by lia|].
    apply list_lookup_insert_eq. lia. }
  assert (∀ p, p ≠ pos → tails' !! p = tails !! p) as Hother.
  { intros p Hp. unfold tails'. destruct (Nat.eqb_spec pos (length tails)) as [He|]; [|by rewrite list_lookup_insert_ne].
    destruct (decide (p < length tails)); [by rewrite lookup_app_l|]. rewrite lookup_app_r by lia.
    rewrite (lookup_ge_None_2 tails) by lia. destruct (p - length tails) eqn:E; [lia|done]. }
  assert (lis_inv sq (S k) tails' prev'); [|by unfold tails' in *; destruct (_ =? _)].
  split.
  - unfold prev'. destruct (0 <? pos); [by rewrite length_insert|done].
  - intros i Hi Hl. unfold prev'. destruct (0 <? pos); [rewrite list_lookup_insert_ne by lia|]; apply Hnew; lia.
  - intros p t Ht. destruct (decide (p = pos)) as [->|Hne].
    + rewrite Hput in Ht. injection Ht as <-. split; [lia|done].
    + rewrite Hother in Ht by done. destruct (Hchain p t Ht) as (Htk & l & Hc & Hl). split; [lia|]. exists l. by split; [apply Hkeep|].
  - intros p q t u Hpq Ht Hu. destruct (decide (p = pos)) as [->|Hp], (decide (q = pos)) as [->|Hq]; [lia| | |].
    + rewrite Hput in Ht. injection Ht as <-. rewrite Hother in Hu by done. rewrite Hval.
      destruct (lookup_lt_is_Some_2 tails pos) as [x Hx]; [apply lookup_lt_Some in Hu; lia|].
      pose proof (Hat x Hx) as Hge. apply Nat.ltb_ge in Hge. pose proof (Hsort pos q x u Hpq Hx Hu). lia.
    + rewrite Hput in Hu. injection Hu as <-. rewrite Hother in Ht by done. rewrite Hval.
      apply Nat.ltb_lt. by apply (Hbefore p t).
    + rewrite Hother in Ht, Hu by done. by apply (Hsort p q).
  - intros js j Hr Hj. destruct (decide (j = k)) as [->|Hjk].
    + assert (length js ≤ pos) as Hle.
      { destruct js as [|i js _] using rev_ind; [simpl; lia|]. rewrite length_app. cbn.
        apply rising_snoc in Hr as (Hr & _ & Hl). destruct (Hl i) as [Hik Hvi]; [by rewrite last_snoc|].
        destruct (Hbest js i Hr Hik) as (t & Ht & Hle). destruct (decide (length js < pos)); [lia|].
        exfalso. destruct (lookup_lt_is_Some_2 tails pos) as [x Hx]; [apply lookup_lt_Some in Ht; lia|].
        pose proof (Hat x Hx) as Hge. apply Nat.ltb_ge in Hge.
        assert (val sq x ≤ val sq t); [|lia]. destruct (decide (pos = length js)) as [He|]; [|apply Nat.lt_le_incl; apply (Hsort pos (length js)); [lia|done|done]].
        rewrite <- He, Hx in Ht. by injection Ht as ->. }
      destruct (decide (length js = pos)) as [He|Hne]; [exists k; rewrite He; split; [done|lia]|]. rewrite Hother by done.
      destruct (lookup_lt_is_Some_2 tails (length js)) as [t Ht]; [lia|]. exists t. split; [done|].
      pose proof (Hbefore (length js) t ltac:(lia) Ht) as Hlt. apply Nat.ltb_lt in Hlt. lia.
    + destruct (Hbest js j Hr) as (t & Ht & Hle); [lia|]. destruct (decide (length js = pos)) as [He|Hne].
      * exists k. rewrite He. split; [done|]. rewrite He in Ht. pose proof (Hat t Ht) as Hge. apply Nat.ltb_ge in Hge. lia.
      * exists t. by rewrite Hother.
Qed.

Lemma lis_fold sq : ∀ rest k tails prev,
  lis_inv sq k tails prev → drop k sq = rest →
  let '(tails', prev') := foldl (lis_step sq) (tails, prev) (zip (seq k (length rest)) rest) in lis_inv sq (length sq) tails' prev'.
Proof.
  induction rest as [|v rest IH]; intros k tails prev Hinv Hd.
  - cbn. assert (length sq ≤ k) as Hle by (apply (f_equal length) in Hd; rewrite length_drop in Hd; simpl in Hd; lia).
    destruct Hinv as [Hlen Hnew Hchain Hsort Hbest]. split; [done|intros; lia| |done|].
    + intros p t Ht. destruct (Hchain p t Ht) as (_ & l & Hc & Hl). split; [|by exists l].
      assert (is_Some (prev !! t)) as [o Ho]; [inversion Hc; eauto|]. apply lookup_lt_Some in Ho. lia.
    + intros js j Hr Hj. apply Hbest; [done|lia].
  - assert (sq !! k = Some v) as Hv by (rewrite <- (Nat.add_0_r k), <- lookup_drop, Hd; done).
    change (zip (seq k (length (v :: rest))) (v :: rest)) with ((k, v) :: zip (seq (S k) (length rest)) rest). cbn [foldl].
    pose proof (lis_step_inv sq k v tails prev Hinv Hv) as Hs. destruct (lis_step sq (tails, prev) (k, v)) as [tails' prev'].
    apply IH; [done|]. apply (f_equal tail) in Hd. cbn in Hd. rewrite <- Hd. rewrite <- (Nat.add_1_r k), <- drop_drop.
    by destruct (drop k sq).
Qed.

Lemma walk_back_chain sq prev i l : chain sq prev i l → ∀ fuel lis, length l ≤ fuel →
  walk_back fuel prev (Some i) lis = lis ++ reverse l.
Proof.
  induction 1 as [i Hp|i j l Hp Hc IH Hlt Hv]; intros fuel lis Hf.
  - destruct fuel as [|fuel]; [simpl in Hf; lia|]. cbn [walk_back]. rewrite Hp. cbn. by destruct fuel.
  - rewrite length_app in Hf. cbn in Hf. destruct fuel as [|fuel]; [lia|]. cbn [walk_back]. rewrite Hp. cbn [default].
    unfold id. rewrite IH by lia. by rewrite reverse_snoc, <- app_assoc.
Qed.

(** The tails end with a longest run, and the walk back is that run. *)
Lemma lis_indices_spec sq :
  rising sq (lis_indices sq) ∧ ∃ tails prev, lis_inv sq (length sq) tails prev ∧ length (lis_indices sq) = length tails.
Proof.
  unfold lis_indices.
  assert (lis_inv sq 0 [] (replicate (length sq) None)) as H0.
  { split; [by rewrite length_replicate| |done|done|intros; lia]. intros i _ Hi. by apply lookup_replicate_2. }
  pose proof (lis_fold sq sq 0 [] _ H0 eq_refl) as H.
  destruct (foldl (lis_step sq) ([], replicate (length sq) None) (zip (seq 0 (length sq)) sq)) as [tails prev].
  destruct (decide (tails = [])) as [->|Hne].
  - cbn [last]. assert (walk_back (length sq) prev None [] = []) as -> by (by destruct (length sq)).
    split; [split; constructor|]. by exists [], prev.
  - assert (∃ t, last tails = Some t ∧ tails !! (length tails - 1) = Some t) as (t & Hlast & Ht).
    { destruct (lookup_lt_is_Some_2 tails (length tails - 1)) as [t Ht]; [destruct tails; [done|simpl; lia]|].
      exists t. split; [|done]. rewrite last_lookup. by rewrite <- Ht, Nat.sub_1_r. }
    destruct (li_chain _ _ _ _ H _ _ Ht) as (Htk & l & Hc & Hl). destruct (chain_rising _ _ _ _ Htk Hc) as [Hr _].
    rewrite Hlast, (walk_back_chain _ _ _ _ Hc) by (by apply rising_length in Hr). cbn [app]. rewrite reverse_involutive. split; [done|].
    exists tails, prev. split; [done|]. rewrite Hl. destruct tails; [done|simpl; lia].
Qed.

Lemma rising_le_tails sq js tails prev : lis_inv sq (length sq) tails prev → rising sq js → length js ≤ length tails.
Proof.
  intros H Hjs. destruct js as [|j js _] using rev_ind; [simpl; lia|]. rewrite length_app. cbn.
  apply rising_snoc in Hjs as Hj. destruct (li_best _ _ _ _ H js j Hjs) as (u & Hu & _); [by destruct Hj as (_ & ? & _)|].
  apply lookup_lt_Some in Hu. lia.
Qed.

(** A list that rises already is kept whole. *)
Lemma sorted_seq js k : StronglySorted lt js → Forall (λ i, k ≤ i < k + length js) js → js = seq k (length js).
Proof.
  intros Hs. revert k. induction Hs as [|x js Hs IH Hx]; intros k Hf; [done|]. apply Forall_cons in Hf as [Hk Hf]. cbn in *.
  assert (js = seq (S k) (length js)) as Htl.
  { apply IH. apply Forall_forall. intros i Hi. apply (proj1 (Forall_forall _ _) Hx) in Hi as Hxi. apply (proj1 (Forall_forall _ _) Hf) in Hi. lia. }
  rewrite <- Htl. f_equal. destruct js as [|y js]; [cbn in Hk; lia|]. injection Htl as Hy _. apply Forall_cons in Hx as [Hx _]. lia.
Qed.

Lemma lis_indices_seq n : lis_indices (seq 0 n) = seq 0 n.
Proof.
  destruct (lis_indices_spec (seq 0 n)) as ([Hs Hf] & tails & prev & Hinv & Hlen). rewrite length_seq in *.
  assert (∀ l, StronglySorted lt l → Forall (λ i, i < n) l → rising (seq 0 n) l) as Hup.
  { intros l Hl Hb. split; [|by rewrite length_seq]. induction Hl as [|x l Hl IH Hx]; [constructor|]. apply Forall_cons in Hb as [Hxn Hb].
    constructor; [by apply IH|]. apply Forall_forall. intros i Hi. apply (proj1 (Forall_forall _ _) Hx) in Hi as Hxi.
    apply (proj1 (Forall_forall _ _) Hb) in Hi. unfold val. rewrite !lookup_seq_lt by done. done. }
  assert (length (seq 0 n) ≤ length tails) as Hle.
  { apply (rising_le_tails (seq 0 n) _ _ prev); [by rewrite length_seq|]. apply Hup.
    - clear. generalize 0. induction n as [|n IH]; intros k; cbn; constructor; [apply IH|]. apply Forall_forall. intros i Hi%elem_of_seq. lia.
    - apply Forall_forall. intros i Hi%elem_of_seq. lia. }
  rewrite length_seq in Hle. assert (length (lis_indices (seq 0 n)) ≤ n) as Hge.
  { etrans; [|apply Nat.eq_le_incl, (length_seq n 0)]. apply rising_length. split; [done|by rewrite length_seq]. }
  assert (length (lis_indices (seq 0 n)) = n) as Hn by lia. rewrite <- Hn at 2. apply sorted_seq.
  - clear -Hs. induction Hs as [|x l Hs IH Hx]; constructor; [done|]. eapply Forall_impl; [exact Hx|]. by intros i [? _].
  - rewrite Hn. eapply Forall_impl; [exact Hf|]. cbn. lia.
Qed.

(** The lines a sidecar reconcile counts as kept in place are a longest rising subsequence: the
    indices given are in order and in bounds, their values rise, and no such indices are more. *)
Theorem lis_longest (sq : list nat) :
  rising sq (lis_indices sq) ∧ ∀ js, rising sq js → length js ≤ length (lis_indices sq).
Proof.
  destruct (lis_indices_spec sq) as (Hr & tails & prev & Hinv & ->). split; [done|]. intros js. by apply rising_le_tails with prev.
Qed.
