(* ===== verification/Sidecar.v ===== *)
(** Task identity without [id:] tags: [reconcile_sidecar.rs], [identity_assign.rs] and
    [identity_fingerprint.rs] of [crates/txtodo-engine/src], the shapes of [identity.rs] of
    [crates/txtodo-model/src], and the choice of reconciler by mode in [reconcile_replay.rs].

    An [f64] is Rocq's [spec_float] at precision 53. [normalized_levenshtein] (strsim) and
    [kuhn_munkres_min] (pathfinding) are parameters, as is Unicode lowercasing; of the solver the theorems
    use that its columns are a permutation. The theorems: every task line of the new file gets exactly one
    id, old ids are kept once or deleted, and lines whose text did not change are never re-identified; an
    unchanged file gives no ops. *)
From Stdlib Require Import SpecFloat.
From S2P Require Import Prelude.
From S2P Require Import Utf8.
From S2P Require Import Types.
From S2P Require Import Scanner.
From S2P Require Import Parser.
From S2P Require Import TodoFile.
From S2P Require Import Myers.
From S2P Require Import Diff.
From S2P Require Import Hlc.
From S2P Require Import TagText.
From S2P Require Import Ops.
From S2P Require Import DocState.
From S2P Require Import Mutation.
From S2P Require Import Reconcile.
From S2P Require Import Lis.

(** ** Binary64 *)

Abbreviation f64 := spec_float.
Definition fadd : f64 → f64 → f64 := SFadd 53 1024.
Definition fsub : f64 → f64 → f64 := SFsub 53 1024.
Definition fmul : f64 → f64 → f64 := SFmul 53 1024.
Definition fdiv : f64 → f64 → f64 := SFdiv 53 1024.
(** [m * 2^e]. *)
Definition float (m e : Z) : f64 := binary_normalize 53 1024 m e false.
Definition f64_of_nat (n : nat) : f64 := float (Z.of_nat n) 0.

(** [x.round() as i64]: half away from zero; too large saturates and NaN is 0. *)
Definition round_i64 (x : f64) : Z :=
  match x with
  | S754_zero _ | S754_nan => 0
  | S754_infinity s => if s then - 2 ^ 63 else 2 ^ 63 - 1
  | S754_finite s m e =>
      let n := if (0 <=? e)%Z then (Z.pos m * 2 ^ e)%Z else ((Z.pos m + 2 ^ (- e - 1)) / 2 ^ (- e))%Z in
      if s then Z.max (- 2 ^ 63) (- n) else Z.min (2 ^ 63 - 1) n
  end%Z.

(** ** identity.rs *)

Record Fingerprint := mkFingerprint {
  fp_creation_date : option (N * N * N);
  fp_projects : gset bytes;
  fp_contexts : gset bytes;
  fp_description_norm : bytes;
  fp_line_index : nat
}.

Record CostWeights := mkWeights {
  cw_date : f64; cw_project : f64; cw_context : f64; cw_description : f64; cw_position : f64; cw_match_threshold : f64
}.

(** [CostWeights::DEFAULT]: 3, 2, 1, 6, 1.5 and 5. *)
Definition DEFAULT_WEIGHTS : CostWeights :=
  mkWeights (float 3 0) (float 2 0) (float 1 0) (float 6 0) (float 3 (-1)) (float 5 0).

(** ** What the code gets from elsewhere *)

Record Identity := mkIdentity {
  to_lowercase : bytes → bytes;
  normalized_levenshtein : bytes → bytes → f64;
  kuhn_munkres_min : list (list Z) → list nat
}.

(** The columns of a least-cost pairing of a square matrix: each column once. *)
Class IdentityLaws (I : Identity) : Prop := {
  km_columns m : (∀ row, row ∈ m → length row = length m) → kuhn_munkres_min I m ≡ₚ seq 0 (length m)
}.

Section with_identity.
Context (I : Identity).

(** ** identity_fingerprint.rs, identity_levenshtein.rs *)

Definition description_distance (a b : bytes) : f64 := fsub (float 1 0) (normalized_levenshtein I a b).

Definition fingerprint_of (t : Task) (line_index : nat) : Fingerprint :=
  mkFingerprint ((λ d, (year d, month d, day d)) <$> creation_date t)
    (list_to_set (projects t)) (list_to_set (contexts t))
    (to_lowercase I (join_with (str " ") (plain_words t))) line_index.

Definition set_distance (a b : gset bytes) : f64 :=
  if bool_decide (a = ∅) && bool_decide (b = ∅) then float 0 0
  else fsub (float 1 0) (fdiv (f64_of_nat (size (a ∩ b))) (f64_of_nat (size (a ∪ b)))).

Definition abs_diff (a b : nat) : nat := (a - b) + (b - a).

Definition cost (old new : Fingerprint) (w : CostWeights) (max_task_count : nat) : f64 :=
  let date_mismatch := if bool_decide (fp_creation_date old = fp_creation_date new) then float 0 0 else float 1 0 in
  let position_term := fdiv (f64_of_nat (abs_diff (fp_line_index old) (fp_line_index new))) (f64_of_nat (Nat.max max_task_count 1)) in
  fadd (fadd (fadd (fadd (fmul (cw_date w) date_mismatch)
    (fmul (cw_project w) (set_distance (fp_projects old) (fp_projects new))))
    (fmul (cw_context w) (set_distance (fp_contexts old) (fp_contexts new))))
    (fmul (cw_description w) (description_distance (fp_description_norm old) (fp_description_norm new))))
    (fmul (cw_position w) position_term).

(** ** identity_assign.rs *)

Definition SCALE : f64 := float 1000000 0.
Definition PADDING_COST : f64 := float 1000 0.

Record Assignment := mkAssignment {
  as_matched : list (TaskId * nat);
  as_deleted : list TaskId;
  as_inserted : list nat
}.

Definition scaled (c : f64) : Z := round_i64 (fmul c SCALE).

Definition pair_cost (old : list (TaskId * Fingerprint)) (new : list Fingerprint) (w : CostWeights)
  (max_task_count : nat) (row col : nat) : Z :=
  match old !! row, new !! col with
  | Some (_, o), Some n => scaled (cost o n w max_task_count)
  | _, _ => scaled PADDING_COST
  end.

(** The loop over the rows: the pairs kept and the tasks dropped. *)
Fixpoint assign_rows (ok : nat → nat → bool) (row : nat) (old : list TaskId) (columns : list nat)
  : list (TaskId * nat) * list TaskId :=
  match old, columns with
  | task :: old', col :: columns' =>
      let '(matched, deleted) := assign_rows ok (S row) old' columns' in
      if ok row col then ((task, col) :: matched, deleted) else (matched, task :: deleted)
  | _, _ => ([], [])
  end.

Definition assign (old : list (TaskId * Fingerprint)) (new : list Fingerprint) (w : CostWeights)
  (max_task_count : nat) : Assignment :=
  let n := Nat.max (length old) (length new) in
  if Nat.eqb n 0 then mkAssignment [] [] []
  else
    let pc := pair_cost old new w max_task_count in
    let columns := kuhn_munkres_min I (map (λ row, map (pc row) (seq 0 n)) (seq 0 n)) in
    let threshold := scaled (cw_match_threshold w) in
    let '(matched, deleted) :=
      assign_rows (λ row col, (col <? length new) && (pc row col <? threshold)%Z) 0 (map fst old) columns in
    let inserted := List.filter (λ i, negb (existsb (λ m, Nat.eqb (snd m) i) matched)) (seq 0 (length new)) in
    mkAssignment matched deleted inserted.

(** ** reconcile_sidecar.rs *)

(** A file and its lines' ids. *)
Record Side := mkSide { sd_file : File; sd_ids : list (option TaskId) }.

(** [old_rows]: the task lines with their row, in file order; a task's index among them and its row. *)
Definition old_order (old : Side) : list (TaskId * nat) :=
  omap (λ r : nat * OwnedLine, if is_task (snd r) then (λ t, (t, fst r)) <$> id_at (sd_ids old) (fst r) else None)
    (zip (seq 0 (length (lines (sd_file old)))) (lines (sd_file old))).

Definition old_info (order : list (TaskId * nat)) : gmap TaskId (nat * nat) :=
  foldl (λ m p, <[fst (snd p) := (fst p, snd (snd p))]> m) ∅ (zip (seq 0 (length order)) order).

(** [info[task]]; every task asked for is in it. *)
Definition info_of (info : gmap TaskId (nat * nat)) (t : TaskId) : nat * nat := default (0, 0) (info !! t).

Definition new_rows (new : File) : list nat :=
  omap (λ r : nat * OwnedLine, if is_task (snd r) then Some (fst r) else None) (zip (seq 0 (length (lines new))) (lines new)).

Record Split := mkSplit {
  sp_trivial : list (TaskId * nat);
  sp_remaining_old : list nat;
  sp_remaining_new : list nat
}.

(** [by_bytes]: the new lines of each text, in order. *)
Definition by_bytes (new : File) (rows : list nat) : gmap bytes (list nat) :=
  foldl (λ m p, let b := ol_bytes (line_at new (snd p)) in <[b := default [] (m !! b) ++ [fst p]]> m) ∅
    (zip (seq 0 (length rows)) rows).

(** The loop over the old lines: pairs of equal bytes, first come first served. *)
Fixpoint split_loop (old : File) (m : gmap bytes (list nat)) (tli : nat) (order : list (TaskId * nat))
  : list (TaskId * nat) * list nat :=
  match order with
  | [] => ([], [])
  | (task, raw) :: order' =>
      let b := ol_bytes (line_at old raw) in
      match m !! b with
      | Some (new_tli :: rest) =>
          let '(trivial, remaining) := split_loop old (<[b := rest]> m) (S tli) order' in
          ((task, new_tli) :: trivial, remaining)
      | _ =>
          let '(trivial, remaining) := split_loop old m (S tli) order' in
          (trivial, tli :: remaining)
      end
  end.

Definition split_exact_matches (order : list (TaskId * nat)) (rows : list nat) (old new : File) : Split :=
  let '(trivial, remaining_old) := split_loop old (by_bytes new rows) 0 order in
  mkSplit trivial remaining_old
    (List.filter (λ i, negb (existsb (λ m, Nat.eqb (snd m) i) trivial)) (seq 0 (length rows))).

Definition fingerprints_of (tlis : list nat) (order : list (TaskId * nat)) (old : File) : list (TaskId * Fingerprint) :=
  omap (λ tli, '(task, raw) ← order !! tli; t ← task_of_line (line_at old raw); Some (task, fingerprint_of t tli)) tlis.

Definition fingerprints_of_new (tlis rows : list nat) (new : File) : list Fingerprint :=
  omap (λ tli, raw ← rows !! tli; t ← task_of_line (line_at new raw); Some (fingerprint_of t tli)) tlis.

Record Matching := mkMatching {
  mt_matched : list (TaskId * nat);
  mt_deleted : list TaskId;
  mt_inserted : list nat;
  mt_new_ids : list (option TaskId);
  mt_minted : nat;
  mt_reused : nat;
  mt_info : gmap TaskId (nat * nat);
  mt_rows : list nat
}.

(** [xs[i]], in bounds. *)
Definition nth_of (xs : list nat) (i : nat) : nat := default 0 (xs !! i).

(** The minted ids, in the order of the lines. *)
Fixpoint mint_ids (mint : nat → TaskId) (minted : nat) (rows inserted : list nat) (ids : list (option TaskId))
  : list (option TaskId) * nat :=
  match inserted with
  | [] => (ids, minted)
  | i :: inserted' => mint_ids mint (S minted) rows inserted' (<[nth_of rows i := Some (mint minted)]> ids)
  end.

Definition resolve_matches (old : Side) (new : File) (w : CostWeights) (mint : nat → TaskId) : Matching :=
  let order := old_order old in
  let rows := new_rows new in
  let max_task_count := Nat.max (length order) (length rows) in
  let split := split_exact_matches order rows (sd_file old) new in
  let reduced_old := fingerprints_of (sp_remaining_old split) order (sd_file old) in
  let reduced_new := fingerprints_of_new (sp_remaining_new split) rows new in
  let solved := assign reduced_old reduced_new w max_task_count in
  let matched := sp_trivial split ++ map (λ m, (fst m, nth_of (sp_remaining_new split) (snd m))) (as_matched solved) in
  let inserted := map (nth_of (sp_remaining_new split)) (as_inserted solved) in
  let ids := foldl (λ ids m, <[nth_of rows (snd m) := Some (fst m)]> ids) (replicate (length (lines new)) None) matched in
  let '(new_ids, minted) := mint_ids mint 0 rows inserted ids in
  mkMatching matched (as_deleted solved) inserted new_ids minted (length matched) (old_info order) rows.

(** [classify_matched]: changes and moves, as rows. *)
Definition classify_matched (matched : list (TaskId * nat)) (info : gmap TaskId (nat * nat)) (rows : list nat)
  (old new : File) : list (nat * nat) * list (nat * nat) :=
  let ordered := stable_sort (λ a b, fst (info_of info (fst a)) <=? fst (info_of info (fst b))) matched in
  let lis := lis_indices (map snd ordered) in
  let rows_of := λ m : TaskId * nat, (snd (info_of info (fst m)), nth_of rows (snd m)) in
  let indexed := zip (seq 0 (length ordered)) ordered in
  let kept := λ p : nat * (TaskId * nat), existsb (Nat.eqb (fst p)) lis in
  (List.filter (λ r, negb (bool_decide (ol_bytes (line_at old (fst r)) = ol_bytes (line_at new (snd r)))))
     (map (λ p, rows_of (snd p)) (List.filter kept indexed)),
   map (λ p, rows_of (snd p)) (List.filter (λ p, negb (kept p)) indexed)).

(** The blank rows by the task above them. *)
Definition blank_slots (side : Side) : gmap (option TaskId) (list nat) :=
  foldl (λ m raw, if bool_decide (id_at (sd_ids side) raw = None)
                  then let k := prev_task (sd_ids side) raw in <[k := default [] (m !! k) ++ [raw]]> m else m)
    ∅ (seq 0 (length (lines (sd_file side)))).

(** [None] sorts before every task. *)
Definition anchor_leb (a b : option TaskId) : bool :=
  match a, b with None, _ => true | Some _, None => false | Some x, Some y => (x <=? y)%N end.

(** [pair_blank_runs]: the blanks in excess on either side. *)
Definition pair_blank_runs (old new : Side) : list nat * list nat :=
  let olds := blank_slots old in
  let news := blank_slots new in
  let anchors := stable_sort anchor_leb (elements (dom olds ∪ dom news)) in
  let excess := λ (xs ys : gmap (option TaskId) (list nat)) a,
    drop (Nat.min (length (default [] (xs !! a))) (length (default [] (ys !! a)))) (default [] (xs !! a)) in
  (flat_map (excess olds news) anchors, flat_map (excess news olds) anchors).

Definition reconcile_sidecar (old : Side) (new : File) (path : FilePath) (w : CostWeights) (mint : nat → TaskId) : Reconciled :=
  let m := resolve_matches old new w mint in
  let '(changes, moves) := classify_matched (mt_matched m) (mt_info m) (mt_rows m) (sd_file old) new in
  let '(blank_deletes, blank_inserts) := pair_blank_runs old (mkSide new (mt_new_ids m)) in
  let deletes := stable_sort Nat.leb (map (λ t, snd (info_of (mt_info m) t)) (mt_deleted m) ++ blank_deletes) in
  let inserts := stable_sort Nat.leb (map (nth_of (mt_rows m)) (mt_inserted m) ++ blank_inserts) in
  let diffs := map LDelete deletes ++ map (λ c, LChange (fst c) (snd c)) changes
               ++ map (λ c, LMove (fst c) (snd c)) moves ++ map LInsert inserts in
  mkReconciled
    (delete_pass diffs (sd_ids old) ++ change_pass diffs (sd_file old) (sd_ids old) new
     ++ task_pass diffs new (mt_new_ids m) path ++ blank_pass diffs (mt_new_ids m))
    new (mt_minted m) (mt_reused m) (mt_new_ids m).

(** ** reconcile_replay.rs: by the document's mode *)

Definition reconcile_against (st : DocState) (old new : File) (mint : nat → TaskId) : Reconciled :=
  if bool_decide (ds_mode st = Tagged) then reconcile old new (ds_path st) mint
  else
    let old_ids := map (λ i, e ← entry_at st i; entry_id e) (seq 0 (doc_len st)) in
    reconcile_sidecar (mkSide old old_ids) new (ds_path st) DEFAULT_WEIGHTS mint.
End with_identity.

(** ** Samples *)

(** A solver that pairs row by row, and a distance that knows equal texts. *)
Definition sample_identity : Identity :=
  mkIdentity id (λ a b, if bool_decide (a = b) then float 1 0 else float 0 0) (λ m, seq 0 (length m)).
Definition sample_side : Side :=
  mkSide (file_of [str "buy milk +home"; []; str "call bob"; str "x done"]) [Some 7; None; Some 8; Some 9]%N.
Definition sample_new : File := file_of [str "call bob"; str "buy oats +home"; str "new thing"].
Definition sample_mint (n : nat) : TaskId := (100 + N.of_nat n)%N.

(** Another day's text is a new task; with the description weighed less than the threshold it is the old one,
    moved. *)
Example sidecar_sample :
  let r := reconcile_sidecar sample_identity sample_side sample_new todo_path DEFAULT_WEIGHTS sample_mint in
  r_ids r = [Some 8; Some 100; Some 101]%N
  ∧ r_ops r = [KSetField 9 FDeleted (FVBool true); KBlankRemove (Some 7%N); KSetField 7 FDeleted (FVBool true);
               KInsert 100 (Some 8%N) (str "buy oats +home"); KInsert 101 (Some 100%N) (str "new thing")].
Proof. vm_compute. split; reflexivity. Qed.

Example sidecar_sample_lenient :
  let w := mkWeights (float 3 0) (float 2 0) (float 1 0) (float 4 0) (float 3 (-1)) (float 5 0) in
  r_ids (reconcile_sidecar sample_identity sample_side sample_new todo_path w sample_mint) = [Some 8; Some 7; Some 9]%N.
Proof. vm_compute. reflexivity. Qed.

(** ** Rows and lists *)

Lemma elem_of_indexed {A} (l : list A) i x : (i, x) ∈ zip (seq 0 (length l)) l ↔ l !! i = Some x.
Proof.
  rewrite list_elem_of_lookup. split.
  - intros [n Hn]. apply lookup_zip_Some in Hn as [Hs Hx]. apply lookup_seq in Hs as [-> _]. done.
  - intros Hx. exists i. apply lookup_zip_Some. split; [|done]. apply lookup_seq. split; [done|by eapply lookup_lt_Some].
Qed.

Lemma fst_indexed {A} (l : list A) : map fst (zip (seq 0 (length l)) l) = seq 0 (length l).
Proof. apply fst_zip. by rewrite length_seq. Qed.

(** The positions an [omap] over numbered items keeps stay distinct and rising. *)
Lemma omap_indexed_sorted {A B} (g : nat * A → option B) (pos : B → nat) (l : list A) :
  (∀ r b, g r = Some b → pos b = fst r) →
  StronglySorted lt (map pos (omap g (zip (seq 0 (length l)) l))).
Proof.
  intros Hg. generalize 0 as k. induction l as [|x l IH]; intros k; [constructor|]. cbn [length seq zip zip_with omap list_omap].
  change (list_omap _ _ g (zip_with pair (seq (S k) (length l)) l)) with (omap g (zip (seq (S k) (length l)) l)).
  destruct (g (k, x)) as [b|] eqn:E; [|apply IH]. cbn [map]. constructor; [apply IH|]. rewrite (Hg _ _ E). cbn [fst].
  apply Forall_forall. intros j Hj. change (map pos) with (fmap (M:=list) pos) in Hj. apply list_elem_of_fmap in Hj as (b' & -> & Hb').
  apply list_elem_of_omap in Hb' as ([i y] & Hin & Hb'). rewrite (Hg _ _ Hb'). cbn [fst].
  apply elem_of_zip_l in Hin. apply elem_of_seq in Hin. lia.
Qed.

Lemma sorted_lt_NoDup (l : list nat) : StronglySorted lt l → NoDup l.
Proof.
  induction 1 as [|x l Hs IH Hx]; constructor; [|done]. intros Hin. apply (proj1 (Forall_forall _ _) Hx) in Hin. lia.
Qed.

(** What [filter] of the unmarked leaves, beside the marked. *)
Lemma unmarked_perm (marked : list nat) n :
  NoDup marked → (∀ i, i ∈ marked → i < n) →
  marked ++ List.filter (λ i, negb (existsb (Nat.eqb i) marked)) (seq 0 n) ≡ₚ seq 0 n.
Proof.
  intros Hnd Hlt. apply NoDup_Permutation.
  - apply NoDup_app. split_and!; [done| |].
    + intros i Hi Hf%list_elem_of_In. apply filter_In in Hf as [_ Hf]. apply negb_true_iff in Hf.
      apply not_true_iff_false in Hf. apply Hf, existsb_exists. exists i. split; [by apply list_elem_of_In|by apply Nat.eqb_eq].
    + apply NoDup_ListNoDup, List.NoDup_filter, NoDup_ListNoDup, NoDup_seq.
  - apply NoDup_seq.
  - intros i. rewrite elem_of_app, (list_elem_of_In (List.filter _ _)), filter_In, <- list_elem_of_In, elem_of_seq.
    split; [intros [Hi|[? _]]; [specialize (Hlt i Hi); lia|done]|]. intros Hi.
    destruct (existsb (Nat.eqb i) marked) eqn:E; [|by right].
    left. apply existsb_exists in E as (j & Hj & ->%Nat.eqb_eq). by apply list_elem_of_In.
Qed.

Lemma existsb_snd {A} (ms : list (A * nat)) i : existsb (λ m, Nat.eqb (snd m) i) ms = existsb (Nat.eqb i) (map snd ms).
Proof. induction ms as [|m ms IH]; cbn; [done|]. by rewrite IH, (Nat.eqb_sym i). Qed.

(** Ids written at rows. *)
Definition put_ids (ids : list (option TaskId)) (writes : list (nat * TaskId)) : list (option TaskId) :=
  foldl (λ ids p, <[fst p := Some (snd p)]> ids) ids writes.

Lemma put_ids_length ids writes : length (put_ids ids writes) = length ids.
Proof. revert ids. induction writes as [|p ps IH]; intros ids; [done|]. cbn. etrans; [apply IH|by rewrite length_insert]. Qed.

Lemma put_ids_other ids writes i : i ∉ map fst writes → put_ids ids writes !! i = ids !! i.
Proof.
  revert ids. induction writes as [|p ps IH]; intros ids Hi; [done|]. cbn in *. apply not_elem_of_cons in Hi as [Hne Hi].
  etrans; [by apply IH|]. by rewrite list_lookup_insert_ne.
Qed.

Lemma put_ids_one ids writes i t :
  NoDup (map fst writes) → (i, t) ∈ writes → i < length ids → put_ids ids writes !! i = Some (Some t).
Proof.
  revert ids. induction writes as [|q ps IH]; intros ids Hnd Hp Hl; [by apply elem_of_nil in Hp|]. cbn in *.
  apply NoDup_cons in Hnd as [Hq Hnd]. apply elem_of_cons in Hp as [<-|Hp].
  - etrans; [by apply put_ids_other|]. by apply list_lookup_insert_eq.
  - apply IH; [done|done|by rewrite length_insert].
Qed.

Lemma put_ids_spec n writes i t :
  NoDup (map fst writes) → (∀ p, p ∈ writes → fst p < n) →
  put_ids (replicate n None) writes !! i = Some (Some t) ↔ (i, t) ∈ writes.
Proof.
  intros Hnd Hlt. destruct (decide (i ∈ map fst writes)) as [Hi|Hi].
  - change (map fst) with (fmap (M:=list) (@fst nat TaskId)) in Hi. apply list_elem_of_fmap in Hi as ([i' t'] & -> & Hin). cbn [fst].
    rewrite (put_ids_one _ _ i' t') by (rewrite ?length_replicate; first [done|by apply (Hlt _ Hin)]).
    split; [by intros [= ->]|]. intros Hin'. do 2 f_equal.
    apply list_elem_of_lookup in Hin as [j Hj], Hin' as [k Hk]. assert (j = k) as ->.
    { eapply NoDup_lookup; [exact Hnd| |]; change (map fst) with (fmap (M:=list) (@fst nat TaskId)); rewrite list_lookup_fmap; [by rewrite Hj|by rewrite Hk]. }
    congruence.
  - rewrite put_ids_other by done. split.
    + intros [H _]%lookup_replicate_1. done.
    + intros Hin. exfalso. apply Hi. change (map fst) with (fmap (M:=list) (@fst nat TaskId)). by apply (list_elem_of_fmap_2 fst _ (i, t)).
Qed.

(** ** The old side and the new rows *)

(** Each line of a side has an id exactly if it is a task line, and no id is on two lines. *)
Record aligned (s : Side) : Prop := {
  al_length : length (sd_ids s) = length (lines (sd_file s));
  al_task i l : lines (sd_file s) !! i = Some l → (is_task l = true ↔ is_Some (id_at (sd_ids s) i));
  al_nodup : NoDup (omap id (sd_ids s))
}.

Definition text_at (f : File) (row : nat) : bytes := ol_bytes (line_at f row).

Lemma line_at_lookup f i l : lines f !! i = Some l → line_at f i = l.
Proof. intros H. unfold line_at. by rewrite H. Qed.

Lemma elem_of_new_rows f raw : raw ∈ new_rows f ↔ ∃ l, lines f !! raw = Some l ∧ is_task l = true.
Proof.
  unfold new_rows. rewrite list_elem_of_omap. split.
  - intros ([i l] & Hin%elem_of_indexed & H). cbn in H. destruct (is_task l) eqn:E; [|done]. injection H as ->. by exists l.
  - intros (l & Hl & Ht). exists (raw, l). split; [by apply elem_of_indexed|]. cbn. by rewrite Ht.
Qed.

Lemma new_rows_sorted f : StronglySorted lt (new_rows f).
Proof.
  rewrite <- (list_fmap_id (new_rows f)). unfold new_rows. apply (omap_indexed_sorted _ id). intros [i l] b. cbn.
  destruct (is_task l); [|done]. by intros [= ->].
Qed.

Lemma id_at_Some ids i t : id_at ids i = Some t ↔ ids !! i = Some (Some t).
Proof. unfold id_at. destruct (ids !! i) as [[x|]|]; cbn; unfold id; split; congruence. Qed.

Lemma elem_of_old_order s t raw :
  (t, raw) ∈ old_order s ↔ ∃ l, lines (sd_file s) !! raw = Some l ∧ is_task l = true ∧ sd_ids s !! raw = Some (Some t).
Proof.
  unfold old_order. rewrite list_elem_of_omap. split.
  - intros ([i l] & Hin%elem_of_indexed & H). cbn in H. destruct (is_task l) eqn:E; [|done].
    apply fmap_Some in H as (t' & Ht & [= -> ->]). exists l. by rewrite <- id_at_Some.
  - intros (l & Hl & Ht & Hi). exists (raw, l). split; [by apply elem_of_indexed|]. cbn. apply id_at_Some in Hi. by rewrite Ht, Hi.
Qed.

Lemma old_order_sorted s : StronglySorted lt (map snd (old_order s)).
Proof.
  unfold old_order. apply omap_indexed_sorted. intros [i l] b. cbn. destruct (is_task l); [|done]. by intros (t & _ & ->)%fmap_Some.
Qed.

Lemma elem_of_ids (ids : list (option TaskId)) t : t ∈ omap id ids ↔ ∃ i, ids !! i = Some (Some t).
Proof.
  rewrite list_elem_of_omap. split.
  - intros (o & Ho & [= ->]). by apply list_elem_of_lookup in Ho.
  - intros [i Hi]. exists (Some t). split; [by eapply list_elem_of_lookup_2|done].
Qed.

(** The ids of a list given by its rows. *)
Lemma ids_NoDup (ids : list (option TaskId)) :
  NoDup (omap id ids) ↔ ∀ i j t, ids !! i = Some (Some t) → ids !! j = Some (Some t) → i = j.
Proof.
  induction ids as [|o ids IH]; [split; [done|constructor]|].
  cbn [omap list_omap]. destruct o as [x|]; cbn [id].
  - rewrite NoDup_cons. change (list_omap _ _ id ids) with (omap id ids). rewrite elem_of_ids, IH. split.
    + intros [Hx Hi] [|i] [|j] t H1 H2; cbn in *; [done| | |f_equal; by eapply Hi]; exfalso; apply Hx.
      * injection H1 as ->. by exists j.
      * injection H2 as ->. by exists i.
    + intros H. split; [intros [i Hi]; by specialize (H 0 (S i) x eq_refl Hi)|]. intros i j t H1 H2. by injection (H (S i) (S j) t H1 H2).
  - change (list_omap _ _ id ids) with (omap id ids). rewrite IH. split.
    + intros Hi [|i] [|j] t H1 H2; cbn in *; [done..|]. f_equal. by eapply Hi.
    + intros H i j t H1 H2. by injection (H (S i) (S j) t H1 H2).
Qed.

Lemma old_order_row s : aligned s → ∀ t r1 r2, (t, r1) ∈ old_order s → (t, r2) ∈ old_order s → r1 = r2.
Proof.
  intros Hal t r1 r2 (_ & _ & _ & H1)%elem_of_old_order (_ & _ & _ & H2)%elem_of_old_order.
  pose proof (al_nodup s Hal) as Hnd. rewrite ids_NoDup in Hnd. by apply (Hnd _ _ t).
Qed.

Lemma old_order_tasks s : aligned s → NoDup (map fst (old_order s)) ∧ ∀ t, t ∈ map fst (old_order s) ↔ Some t ∈ sd_ids s.
Proof.
  intros Hal. split.
  - apply NoDup_fmap_fst; [by apply old_order_row|].
    apply (NoDup_fmap_1 snd). apply (sorted_lt_NoDup _ (old_order_sorted s)).
  - intros t. change (map fst) with (fmap (M:=list) (@fst TaskId nat)). rewrite list_elem_of_fmap. split.
    + intros ([t' raw] & -> & (l & _ & _ & H)%elem_of_old_order). by eapply list_elem_of_lookup_2.
    + intros [i Hi]%list_elem_of_lookup. destruct (lookup_lt_is_Some_2 (lines (sd_file s)) i) as [l Hl].
      { rewrite <- (al_length s Hal). by eapply lookup_lt_Some. }
      exists (t, i). split; [done|]. apply elem_of_old_order. exists l. split_and!; [done| |done].
      apply (al_task s Hal i l Hl). apply id_at_Some in Hi. by eexists.
Qed.

(** ** Equal lines *)

(** The new lines still waiting, by text. *)
Definition queue (m : gmap bytes (list nat)) (b : bytes) : list nat := default [] (m !! b).

Lemma queue_insert m b l c : queue (<[b := l]> m) c = if bool_decide (c = b) then l else queue m c.
Proof.
  unfold queue. case_bool_decide as E; [subst; by rewrite lookup_insert_eq|by rewrite lookup_insert_ne].
Qed.

Lemma by_bytes_queue f rows b :
  queue (by_bytes f rows) b = map fst (List.filter (λ p, bool_decide (text_at f (snd p) = b)) (zip (seq 0 (length rows)) rows)).
Proof.
  unfold by_bytes. match goal with |- queue (foldl ?g ∅ _) b = _ => enough (∀ ps m, queue (foldl g m ps) b =
    queue m b ++ map fst (List.filter (λ p, bool_decide (text_at f (snd p) = b)) ps)) as H by (rewrite H; done) end.
  intros ps. induction ps as [|[i raw] ps IH]; intros m; cbn [foldl List.filter map].
  - by rewrite app_nil_r.
  - rewrite IH. cbn [fst snd]. change (default [] (m !! ol_bytes (line_at f raw))) with (queue m (text_at f raw)).
    change (ol_bytes (line_at f raw)) with (text_at f raw). rewrite queue_insert.
    destruct (decide (text_at f raw = b)) as [<-|Hne].
    + rewrite !bool_decide_eq_true_2 by done. cbn [map fst]. by rewrite <- app_assoc.
    + by rewrite !bool_decide_eq_false_2 by done.
Qed.

Lemma elem_of_by_bytes f rows b i : i ∈ queue (by_bytes f rows) b ↔ ∃ raw, rows !! i = Some raw ∧ text_at f raw = b.
Proof.
  rewrite by_bytes_queue. change (map fst) with (fmap (M:=list) (@fst nat nat)). rewrite list_elem_of_fmap. split.
  - intros ([j raw] & -> & H%list_elem_of_In). apply filter_In in H as [H%list_elem_of_In Ht]. cbn in *.
    apply bool_decide_eq_true in Ht. apply elem_of_indexed in H. by exists raw.
  - intros (raw & Hr & Ht). exists (i, raw). split; [done|]. apply list_elem_of_In, filter_In. rewrite <- list_elem_of_In.
    split; [by apply elem_of_indexed|by apply bool_decide_eq_true].
Qed.

Lemma split_loop_spec old order0 order m tli trivial remaining :
  (∀ b, NoDup (queue m b)) → (∀ b c i, i ∈ queue m b → i ∈ queue m c → b = c) →
  drop tli order0 = order → split_loop old m tli order = (trivial, remaining) →
  NoDup (map snd trivial)
  ∧ (∀ t i, (t, i) ∈ trivial → ∃ raw, (t, raw) ∈ order ∧ i ∈ queue m (text_at old raw))
  ∧ map fst trivial ++ omap (λ k, fst <$> order0 !! k) remaining ≡ₚ map fst order
  ∧ ∀ k, k ∈ remaining → ∃ t raw, order0 !! k = Some (t, raw) ∧ ∀ i, i ∈ queue m (text_at old raw) → i ∈ map snd trivial.
Proof.
  revert m tli trivial remaining. induction order as [|[task raw] order IH]; intros m tli trivial remaining Hnd Hinj Hd H.
  { injection H as <- <-. split_and!; [constructor| |done|]; intros; by apply not_elem_of_nil in H. }
  assert (order0 !! tli = Some (task, raw)) as Hat by (rewrite <- (Nat.add_0_r tli), <- lookup_drop, Hd; done).
  assert (drop (S tli) order0 = order) as Hd'.
  { rewrite <- (Nat.add_1_r tli), <- drop_drop, Hd. done. }
  cbn [split_loop] in H. fold (text_at old raw) in H.
  destruct (m !! text_at old raw) as [[|i0 rest]|] eqn:Em.
  2: { destruct (split_loop old _ (S tli) order) as [tr re] eqn:E. injection H as <- <-.
    assert (queue m (text_at old raw) = i0 :: rest) as Hq by (unfold queue; by rewrite Em).
    assert (∀ b i, i ∈ queue (<[text_at old raw := rest]> m) b → i ∈ queue m b) as Hsub.
    { intros b i. rewrite queue_insert. case_bool_decide as Eb; [subst; rewrite Hq; by right|done]. }
    pose proof (Hnd (text_at old raw)) as Hndq. rewrite Hq in Hndq. apply NoDup_cons in Hndq as [Hi0 Hndr].
    apply IH in E as (E1 & E2 & E3 & E4); [| |intros b c i Hb Hc; eapply Hinj; by apply Hsub|done].
    2: { intros b. rewrite queue_insert. case_bool_decide; [done|apply Hnd]. }
    split_and!.
    - cbn. constructor; [|done]. change (map snd) with (fmap (M:=list) (@snd TaskId nat)). intros ([t i] & -> & Hin)%list_elem_of_fmap. cbn in *.
      apply E2 in Hin as (r & _ & Hin). rewrite queue_insert in Hin. case_bool_decide as Eb; [done|].
      apply Eb, (Hinj _ _ i); [done|rewrite Hq; left].
    - intros t i [[= -> ->]|Hin]%elem_of_cons; [exists raw; rewrite Hq; split; left|].
      apply E2 in Hin as (r & Hr & Hin). exists r. split; [by right|by apply Hsub].
    - cbn [map fst app]. by rewrite E3.
    - intros k Hk. destruct (E4 k Hk) as (t & r & Hr & Hall). exists t, r. split; [done|]. intros i Hi. cbn.
      destruct (decide (i = i0)) as [->|Hne]; [left|right]. apply Hall. rewrite queue_insert. case_bool_decide as Eb; [|done].
      rewrite Eb, Hq in Hi. apply elem_of_cons in Hi as [?|Hi]; [done|exact Hi]. }
  all: destruct (split_loop old m (S tli) order) as [tr re] eqn:E; injection H as <- <-;
    assert (queue m (text_at old raw) = []) as Hq by (unfold queue; by rewrite Em);
    apply IH in E as (E1 & E2 & E3 & E4); [|done..]; split_and!;
    [done
    |intros t i Hin; apply E2 in Hin as (r & Hr & Hin); exists r; split; [by right|done]
    |cbn [omap list_omap map fst]; rewrite Hat; cbn [fmap option_fmap option_map]; rewrite <- E3; symmetry; apply Permutation_middle|].
  all: intros k [->|Hk]%elem_of_cons; [exists task, raw; split; [done|]; rewrite Hq; by intros i ?%not_elem_of_nil|by apply E4].
Qed.

(** ** The solved pairs *)

Lemma fingerprints_of_tasks I s tlis :
  (∀ k, k ∈ tlis → is_Some (old_order s !! k)) →
  map fst (fingerprints_of I tlis (old_order s) (sd_file s)) = omap (λ k, fst <$> old_order s !! k) tlis.
Proof.
  induction tlis as [|k tlis IH]; intros H; [done|]. unfold fingerprints_of in *. cbn [omap list_omap].
  destruct (H k) as [[t raw] Hk]; [left|]. rewrite Hk. cbn [mbind option_bind fmap option_fmap option_map].
  assert (is_Some (task_of_line (line_at (sd_file s) raw))) as [tk Htk].
  { apply list_elem_of_lookup_2, elem_of_old_order in Hk as (l & Hl & Ht & _). rewrite (line_at_lookup _ _ _ Hl). by apply bool_decide_eq_true in Ht. }
  rewrite Htk. cbn. f_equal. apply IH. intros j Hj. apply H. by right.
Qed.

Lemma fingerprints_of_new_length I f tlis :
  (∀ k, k ∈ tlis → k < length (new_rows f)) → length (fingerprints_of_new I tlis (new_rows f) f) = length tlis.
Proof.
  induction tlis as [|k tlis IH]; intros H; [done|]. unfold fingerprints_of_new in *. cbn [omap list_omap].
  destruct (lookup_lt_is_Some_2 (new_rows f) k) as [raw Hk]; [apply H; left|]. rewrite Hk. cbn [mbind option_bind].
  assert (is_Some (task_of_line (line_at f raw))) as [tk Htk].
  { apply list_elem_of_lookup_2, elem_of_new_rows in Hk as (l & Hl & Ht). rewrite (line_at_lookup _ _ _ Hl). by apply bool_decide_eq_true in Ht. }
  rewrite Htk. cbn. f_equal. apply IH. intros j Hj. apply H. by right.
Qed.

Lemma assign_rows_spec ok row old columns matched deleted :
  length old ≤ length columns → NoDup columns → assign_rows ok row old columns = (matched, deleted) →
  map fst matched ++ deleted ≡ₚ old ∧ NoDup (map snd matched)
  ∧ ∀ t c, (t, c) ∈ matched → c ∈ columns ∧ ∃ r, old !! r = Some t ∧ ok (row + r) c = true.
Proof.
  revert row columns matched deleted. induction old as [|t old IH]; intros row columns matched deleted Hl Hnd H.
  { injection H as <- <-. split_and!; [done|constructor|]. intros t c Hin. by apply not_elem_of_nil in Hin. }
  destruct columns as [|c columns]; [cbn in Hl; lia|]. cbn [assign_rows] in H. cbn in Hl. apply NoDup_cons in Hnd as [Hc Hnd].
  destruct (assign_rows ok (S row) old columns) as [ms ds] eqn:E. apply IH in E as (E1 & E2 & E3); [|lia|done].
  assert (∀ t' c', (t', c') ∈ ms → c' ∈ c :: columns ∧ ∃ r, (t :: old) !! r = Some t' ∧ ok (row + r) c' = true) as Hin.
  { intros t' c' Hin. destruct (E3 t' c' Hin) as (Hc' & r & Hr & Hok). split; [by right|]. exists (S r). by rewrite <- plus_n_Sm. }
  destruct (ok row c) eqn:Hok; injection H as <- <-; split_and!; cbn; [by rewrite E1| | |by rewrite <- Permutation_middle, E1|done|exact Hin].
  - constructor; [|done]. change (map snd) with (fmap (M:=list) (@snd TaskId nat)). intros ([t' c'] & Hc' & Hm)%list_elem_of_fmap.
    cbn in Hc'. subst c'. by apply E3 in Hm as [? _].
  - intros t' c' [[= -> ->]|Hm]%elem_of_cons; [|by apply Hin]. split; [left|]. exists 0. by rewrite Nat.add_0_r.
Qed.

Section solver.
Context (I : Identity) {laws : IdentityLaws I}.

(** Every old task is matched or deleted, every new line matched or inserted, and each once. *)
Lemma assign_spec old new w n :
  let a := assign I old new w n in
  map fst (as_matched a) ++ as_deleted a ≡ₚ map fst old
  ∧ map snd (as_matched a) ++ as_inserted a ≡ₚ seq 0 (length new).
Proof using laws.
  unfold assign. set (k := Nat.max (length old) (length new)). destruct (Nat.eqb_spec k 0) as [Hk|Hk].
  { assert (length old = 0 ∧ length new = 0) as [Ho Hn] by lia. apply nil_length_inv in Ho, Hn. by subst. }
  set (pc := pair_cost I old new w n). set (m := map (λ row, map (pc row) (seq 0 k)) (seq 0 k)).
  assert (kuhn_munkres_min I m ≡ₚ seq 0 k) as Hkm.
  { assert (length m = k) as Hlm by (unfold m; by rewrite length_map, length_seq).
    replace (seq 0 k) with (seq 0 (length m)) by (by rewrite Hlm). apply km_columns. intros row Hrow. rewrite Hlm. unfold m in Hrow. change (map (λ row, map (pc row) (seq 0 k))) with (fmap (M:=list) (λ row, map (pc row) (seq 0 k))) in Hrow.
    apply list_elem_of_fmap in Hrow as (r & -> & _). by rewrite length_map, length_seq. }
  destruct (assign_rows _ 0 (map fst old) _) as [ms ds] eqn:E. cbn [as_matched as_deleted as_inserted].
  apply assign_rows_spec in E as (E1 & E2 & E3).
  - split; [done|]. erewrite List.filter_ext; [apply unmarked_perm; [done|]|intros i; cbn; by rewrite existsb_snd].
    intros i Hi. change (map snd) with (fmap (M:=list) (@snd TaskId nat)) in Hi. apply list_elem_of_fmap in Hi as ([t c] & -> & Hc).
    apply E3 in Hc as (_ & r & _ & Hok). apply andb_true_iff in Hok as [Hok _]. by apply Nat.ltb_lt in Hok.
  - rewrite (Permutation_length Hkm), length_map, length_seq. lia.
  - rewrite Hkm. apply NoDup_seq.
Qed.

(** What the whole matching is: a bijection between the tasks kept and their lines, beside the deleted
    and the inserted; and the equal lines it never splits. *)
Record matching_ok (old : Side) (new : File) (matched : list (TaskId * nat)) (deleted : list TaskId) (inserted : list nat) : Prop := {
  mo_old : map fst matched ++ deleted ≡ₚ map fst (old_order old);
  mo_new : map snd matched ++ inserted ≡ₚ seq 0 (length (new_rows new));
  mo_equal t raw i row : (t, raw) ∈ old_order old → new_rows new !! i = Some row → text_at (sd_file old) raw = text_at new row →
    (∃ j row', (t, j) ∈ matched ∧ new_rows new !! j = Some row' ∧ text_at new row' = text_at (sd_file old) raw)
    ∨ ∃ t' raw', (t', i) ∈ matched ∧ (t', raw') ∈ old_order old ∧ text_at (sd_file old) raw' = text_at new row
}.

Lemma map_nth_seq (xs : list nat) : map (nth_of xs) (seq 0 (length xs)) = xs.
Proof.
  apply list_eq. intros i. change (map (nth_of xs)) with (fmap (M:=list) (nth_of xs)). rewrite list_lookup_fmap.
  destruct (decide (i < length xs)) as [Hi|Hi].
  - rewrite lookup_seq_lt by done. cbn. unfold nth_of. by destruct (lookup_lt_is_Some_2 xs i Hi) as [x ->].
  - rewrite lookup_seq_ge by lia. by rewrite lookup_ge_None_2 by lia.
Qed.

Lemma put_matched rows matched ids :
  foldl (λ ids m, <[nth_of rows (snd m) := Some (fst m)]> ids) ids matched
  = put_ids ids (map (λ m : TaskId * nat, (nth_of rows (snd m), fst m)) matched).
Proof using. revert ids. induction matched as [|m ms IH]; intros ids; [done|]. cbn. apply IH. Qed.

Lemma mint_ids_put mint k rows inserted ids :
  mint_ids mint k rows inserted ids
  = (put_ids ids (imap (λ j i, (nth_of rows i, mint (k + j))) inserted), k + length inserted).
Proof using.
  revert k ids. induction inserted as [|i js IH]; intros k ids; cbn [mint_ids imap length]; [by rewrite Nat.add_0_r|].
  rewrite IH. f_equal; [|lia]. unfold put_ids. cbn [foldl fst snd]. rewrite Nat.add_0_r. f_equal.
  apply imap_ext. intros j x _. cbn. by rewrite <- plus_n_Sm.
Qed.

Lemma resolve_matching old new w mint :
  aligned old → let m := resolve_matches I old new w mint in matching_ok old new (mt_matched m) (mt_deleted m) (mt_inserted m).
Proof using laws.
  intros Hal. unfold resolve_matches, split_exact_matches. set (order := old_order old). set (rows := new_rows new).
  destruct (split_loop (sd_file old) (by_bytes new rows) 0 order) as [trivial rem_old] eqn:Es. cbn [sp_trivial sp_remaining_old sp_remaining_new].
  apply (split_loop_spec _ order) in Es as (S1 & S2 & S3 & S4); [| | |done].
  2: { intros b. rewrite by_bytes_queue. change (map fst) with (fmap (M:=list) (@fst nat nat)).
    apply NoDup_fmap_fst; [|apply NoDup_ListNoDup, List.NoDup_filter, NoDup_ListNoDup, (NoDup_fmap_1 fst)].
    - intros i r1 r2 H1%list_elem_of_In H2%list_elem_of_In. apply filter_In in H1 as [H1%list_elem_of_In _], H2 as [H2%list_elem_of_In _].
      apply elem_of_indexed in H1, H2. congruence.
    - change (fmap (M:=list) fst) with (map (@fst nat nat)). rewrite fst_indexed. apply NoDup_seq. }
  2: { intros b c i (r1 & H1 & <-)%elem_of_by_bytes (r2 & H2 & <-)%elem_of_by_bytes. congruence. }
  set (rem_new := List.filter (λ i, negb (existsb (λ m, Nat.eqb (snd m) i) trivial)) (seq 0 (length rows))).
  assert (map snd trivial ++ rem_new ≡ₚ seq 0 (length rows)) as Hrem.
  { unfold rem_new. erewrite List.filter_ext; [apply unmarked_perm; [done|]|intros i; cbn; by rewrite existsb_snd].
    intros i Hi. change (map snd) with (fmap (M:=list) (@snd TaskId nat)) in Hi. apply list_elem_of_fmap in Hi as ([t c] & -> & Hc).
    apply S2 in Hc as (raw & _ & Hq). apply elem_of_by_bytes in Hq as (r & Hr & _). by eapply lookup_lt_Some. }
  destruct (assign_spec (fingerprints_of I rem_old order (sd_file old)) (fingerprints_of_new I rem_new rows new) w
    (Nat.max (length order) (length rows))) as [A1 A2].
  set (a := assign I _ _ w _) in *.
  rewrite (fingerprints_of_tasks I old) in A1 by (intros k Hk; destruct (S4 k Hk) as (t & raw & ? & _); by eexists).
  rewrite (fingerprints_of_new_length I new) in A2.
  2: { intros k Hk. assert (k ∈ seq 0 (length rows)) as Hin%elem_of_seq by (rewrite <- Hrem; apply elem_of_app; by right). unfold rows in Hin. lia. }
  destruct (mint_ids _ _ _ _ _) as [ids minted]. cbn [mt_matched mt_deleted mt_inserted].
  assert (∀ ms : list (TaskId * nat), map snd (map (λ m, (fst m, nth_of rem_new (snd m))) ms) = map (nth_of rem_new) (map snd ms)) as Hsnd
    by (intros ms; by rewrite !map_map).
  assert (∀ ms : list (TaskId * nat), map fst (map (λ m, (fst m, nth_of rem_new (snd m))) ms) = map fst ms) as Hfst
    by (intros ms; by rewrite map_map).
  split.
  - by rewrite map_app, Hfst, <- app_assoc, A1.
  - rewrite map_app, Hsnd, <- app_assoc, <- map_app, A2, map_nth_seq. exact Hrem.
  - intros t raw i row Ht Hi Htext.
    assert (t ∈ map fst trivial ++ omap (λ k, fst <$> order !! k) rem_old) as [Hin|Hin]%elem_of_app.
    { rewrite S3. change (map fst) with (fmap (M:=list) (@fst TaskId nat)). by apply (list_elem_of_fmap_2 fst order (t, raw)). }
    + left. change (map fst) with (fmap (M:=list) (@fst TaskId nat)) in Hin. apply list_elem_of_fmap in Hin as ([t' j] & -> & Hj). cbn [fst] in *.
      destruct (S2 _ _ Hj) as (raw' & Hraw' & Hq). apply elem_of_by_bytes in Hq as (row' & Hrow' & Htext').
      exists j, row'. split_and!; [apply elem_of_app; by left|done|]. rewrite Htext'. f_equal. by apply (old_order_row old Hal t').
    + right. apply list_elem_of_omap in Hin as (k & Hk & Hat). destruct (S4 k Hk) as (t' & raw' & Hraw' & Hall).
      rewrite Hraw' in Hat. injection Hat as ->. assert (raw' = raw) as -> by (apply (old_order_row old Hal t); [by eapply list_elem_of_lookup_2|done]).
      assert (i ∈ map snd trivial) as Hi' by (apply Hall, elem_of_by_bytes; by exists row).
      change (map snd) with (fmap (M:=list) (@snd TaskId nat)) in Hi'. apply list_elem_of_fmap in Hi' as ([t' j] & -> & Hj).
      destruct (S2 _ _ Hj) as (raw' & Hr' & Hq). apply elem_of_by_bytes in Hq as (row' & Hrow' & Htext'). cbn [snd] in *.
      exists t', raw'. split_and!; [apply elem_of_app; by left|done|]. unfold rows in Hrow'. rewrite <- Htext'. congruence.
Qed.

Lemma fst_minted (mint : nat → TaskId) rows js : map fst (imap (λ k i, (nth_of rows i, mint k)) js) = map (nth_of rows) js.
Proof using. revert mint. induction js as [|i js IH]; intros f; [done|]. cbn. f_equal. apply (IH (f ∘ S)). Qed.

Lemma resolve_counts old new w mint :
  let m := resolve_matches I old new w mint in
  mt_minted m = length (mt_inserted m) ∧ mt_reused m = length (mt_matched m) ∧ mt_info m = old_info (old_order old) ∧ mt_rows m = new_rows new
  ∧ mt_new_ids m = put_ids (replicate (length (lines new)) None)
      (map (λ m : TaskId * nat, (nth_of (new_rows new) (snd m), fst m)) (mt_matched m)
       ++ imap (λ k i, (nth_of (new_rows new) i, mint k)) (mt_inserted m)).
Proof using.
  unfold resolve_matches. rewrite mint_ids_put, put_matched. cbn [mt_minted mt_inserted mt_reused mt_matched mt_new_ids mt_info mt_rows].
  split_and!; [done..|]. unfold put_ids. by rewrite foldl_app.
Qed.

(** The id of a new row: its matched task's, or the minted one. *)
Lemma new_ids_spec old new w mint :
  aligned old → let m := resolve_matches I old new w mint in
  length (mt_new_ids m) = length (lines new)
  ∧ ∀ row t, mt_new_ids m !! row = Some (Some t)
      ↔ ∃ i, new_rows new !! i = Some row ∧ ((t, i) ∈ mt_matched m ∨ ∃ k, mt_inserted m !! k = Some i ∧ t = mint k).
Proof using laws.
  intros Hal. destruct (resolve_counts old new w mint) as (_ & _ & _ & _ & Hids).
  pose proof (resolve_matching old new w mint Hal) as Hm. set (m := resolve_matches I old new w mint) in *. cbn zeta. rewrite Hids.
  split; [by rewrite put_ids_length, length_replicate|]. intros row t. set (rows := new_rows new).
  destruct Hm as [_ Hnew _]. fold rows in Hnew.
  assert (∀ i, i ∈ map snd (mt_matched m) ++ mt_inserted m → rows !! i = Some (nth_of rows i)) as Hrows.
  { intros i Hi. rewrite Hnew in Hi. apply elem_of_seq in Hi. unfold nth_of. by destruct (lookup_lt_is_Some_2 rows i) as [r ->]; [lia|]. }
  pose proof (fst_minted mint rows (mt_inserted m)) as Hfst.
  assert (∀ r t', (r, t') ∈ map (λ m : TaskId * nat, (nth_of rows (snd m), fst m)) (mt_matched m) ++ imap (λ k i, (nth_of rows i, mint k)) (mt_inserted m)
    ↔ ∃ i, rows !! i = Some r ∧ ((t', i) ∈ mt_matched m ∨ ∃ k, mt_inserted m !! k = Some i ∧ t' = mint k)) as Hin.
  { intros r t'. rewrite elem_of_app. change (map (λ m : TaskId * nat, (nth_of rows (snd m), fst m))) with (fmap (M:=list) (λ m : TaskId * nat, (nth_of rows (snd m), fst m))).
    rewrite list_elem_of_fmap. setoid_rewrite elem_of_lookup_imap. split.
    - intros [([t0 i] & [= -> ->] & Hin)|(k & i & [= -> ->] & Hk)].
      + exists i. split; [|by left]. apply Hrows, elem_of_app. left. change (map snd) with (fmap (M:=list) (@snd TaskId nat)). by apply (list_elem_of_fmap_2 snd _ (t0, i)).
      + exists i. split; [|right; by exists k]. apply Hrows, elem_of_app. right. by eapply list_elem_of_lookup_2.
    - intros (i & Hi & H). assert (r = nth_of rows i) as -> by (unfold nth_of; by rewrite Hi).
      destruct H as [H|(k & Hk & ->)]; [left; by exists (t', i)|right; by exists k, i]. }
  rewrite put_ids_spec; [by apply Hin| |].
  - rewrite map_app, Hfst, map_map. cbn [fst]. rewrite <- (map_map snd (nth_of rows)), <- map_app, Hnew, map_nth_seq.
    apply sorted_lt_NoDup, new_rows_sorted.
  - intros [r t'] Hp. apply Hin in Hp as (i & Hi & _). cbn [fst]. apply list_elem_of_lookup_2, elem_of_new_rows in Hi as (l & Hl & _).
    by eapply lookup_lt_Some.
Qed.
End solver.

(** ** The ops *)

(** The op a deleted task gets. *)
Definition deletion (t : TaskId) : OpKind := KSetField t FDeleted (FVBool true).

Lemma change_fields_no_deletion t old l wanted task fs acc :
  FDeleted ∉ fs → deletion t ∉ fst acc → deletion t ∉ fst (foldl (change_field old l wanted task) acc fs).
Proof.
  revert acc. induction fs as [|f fs IH]; intros acc Hf Hacc; [done|]. cbn [foldl]. apply not_elem_of_cons in Hf as [Hne Hf]. apply IH; [done|].
  unfold change_field. destruct acc as [ops line]. destruct (field_value l f); [|done]. destruct (_ && _); [done|].
  unfold op_set_field. destruct (field_fits _ _); [|done]. destruct (rewrite_prefix _ _ _); [|done]. cbn in *.
  intros [Hin|Hin]%elem_of_app; [done|]. apply list_elem_of_singleton in Hin. unfold deletion in Hin. congruence.
Qed.

Lemma change_ops_no_deletion t old l task : deletion t ∉ change_ops old l task.
Proof.
  unfold change_ops. destruct (task_of_line l) as [wanted|]; [|by apply not_elem_of_nil]. destruct (task_of_line old); [|by apply not_elem_of_nil].
  pose proof (change_fields_no_deletion t old l wanted task CHANGE_FIELDS ([], old)) as H.
  destruct (foldl _ _ _) as [ops line]. cbn [fst] in H. assert (deletion t ∉ ops) as Hops.
  { apply H; [apply (bool_decide_eq_true_1 _); vm_compute; reflexivity|by apply not_elem_of_nil]. }
  destruct (task_of_line line); [|done]. unfold change_description. intros [Hin|Hin]%elem_of_app; [done|]. revert Hin.
  destruct (_ && _); [by intros ?%list_elem_of_singleton|]. case_bool_decide; [by intros ?%not_elem_of_nil|by intros ?%list_elem_of_singleton].
Qed.

(** A reconcile's deletions are its deleted rows' tasks. *)
Lemma deletion_in_passes t diffs old old_ids f new_ids path :
  deletion t ∈ delete_pass diffs old_ids ++ change_pass diffs old old_ids f ++ task_pass diffs f new_ids path ++ blank_pass diffs new_ids
  ↔ ∃ from, LDelete from ∈ diffs ∧ id_at old_ids from = Some t.
Proof.
  rewrite !elem_of_app. split.
  - intros [H|[H|[H|H]]].
    + unfold delete_pass in H. apply list_elem_of_omap in H as (d & Hd & H). rewrite elem_of_reverse in Hd.
      destruct d as [| |from| |]; try done. injection H as H. exists from. split; [done|].
      unfold delete_op in H. destruct (id_at old_ids from) as [t'|]; [|done]. cbn in H. unfold deletion in H. congruence.
    + exfalso. unfold change_pass in H. apply list_elem_of_In, in_flat_map in H as (d & _ & H%list_elem_of_In).
      destruct d as [| | |a b|]; try by apply not_elem_of_nil in H. destruct (id_at old_ids a); [by apply change_ops_no_deletion in H|by apply not_elem_of_nil in H].
    + exfalso. unfold task_pass in H. apply list_elem_of_omap in H as (d & _ & H). destruct d as [|to| |a b|a b]; try done.
      * case_bool_decide; [|done]. injection H as H. unfold insert_op in H. by destruct (id_at new_ids to).
      * by destruct (id_at new_ids b).
    + exfalso. unfold blank_pass in H. apply list_elem_of_omap in H as (d & _ & H). destruct d as [|to| |a b|a b]; try done. by case_bool_decide.
  - intros (from & Hd & Hid). left. unfold delete_pass. apply list_elem_of_omap. exists (LDelete from).
    rewrite elem_of_reverse. split; [done|]. unfold delete_op. by rewrite Hid.
Qed.

Lemma old_info_lookup order t raw :
  NoDup (map fst order) → (t, raw) ∈ order → ∃ k, order !! k = Some (t, raw) ∧ info_of (old_info order) t = (k, raw).
Proof.
  intros Hnd [k Hk]%list_elem_of_lookup. exists k. split; [done|]. unfold info_of, old_info.
  enough (∀ n m, NoDup (map fst order) → foldl (λ m p, <[fst (snd p) := (fst p, snd (snd p))]> m) m (zip (seq n (length order)) order) !! t = Some (n + k, raw)) as H
    by (rewrite (H 0 ∅) by done; done).
  clear Hnd. revert k Hk. induction order as [|[x r] order IH]; intros k Hk n m Hnd; [done|]. cbn [length seq zip zip_with foldl fst snd map] in *.
  change (zip_with pair (seq (S n) (length order)) order) with (zip (seq (S n) (length order)) order).
  apply NoDup_cons in Hnd as [Hx Hnd]. destruct k as [|k]; [|rewrite (IH k) by done; by rewrite <- plus_n_Sm].
  injection Hk as -> ->. rewrite Nat.add_0_r. clear IH.
  enough (∀ n (m : gmap TaskId (nat * nat)), foldl (λ m p, <[fst (snd p) := (fst p, snd (snd p))]> m) m (zip (seq n (length order)) order) !! t = m !! t) as ->
    by by rewrite lookup_insert_eq.
  clear Hnd n m. induction order as [|[y q] order IH]; intros n m; [done|]. cbn [length seq zip zip_with foldl fst snd map] in *.
  apply not_elem_of_cons in Hx as [Hne Hx]. etrans; [by apply IH|]. by rewrite lookup_insert_ne.
Qed.

Lemma blank_slots_none s a row : row ∈ default [] (blank_slots s !! a) → id_at (sd_ids s) row = None.
Proof.
  unfold blank_slots.
  match goal with |- context [foldl ?g ∅ _] => enough (∀ rows m, (∀ a row, row ∈ default [] (m !! a) → id_at (sd_ids s) row = None) →
    row ∈ default [] (foldl g m rows !! a) → id_at (sd_ids s) row = None) as H by (apply H; intros ? ?; rewrite lookup_empty; by intros ?%not_elem_of_nil) end.
  intros rows. induction rows as [|raw rows IH]; intros m Hm; cbn [foldl]; [apply Hm|]. apply IH. case_bool_decide as E; [|done].
  intros b r. destruct (decide (b = prev_task (sd_ids s) raw)) as [->|Hne].
  - rewrite lookup_insert_eq. cbn [default]. intros [Hr|Hr%list_elem_of_singleton]%elem_of_app; [by apply (Hm (prev_task (sd_ids s) raw))|]. by subst.
  - rewrite lookup_insert_ne by done. apply Hm.
Qed.

Lemma blank_deletes_none old new row : row ∈ fst (pair_blank_runs old new) → id_at (sd_ids old) row = None.
Proof.
  unfold pair_blank_runs. cbn [fst]. intros H%list_elem_of_In. apply in_flat_map in H as (a & _ & H%list_elem_of_In).
  apply (blank_slots_none old a). eapply elem_of_submseteq; [exact H|]. apply sublist_submseteq, sublist_drop.
Qed.

(** A deletion is among a reconcile's ops exactly when its task is deleted. *)
Lemma sidecar_deletions I old new path w mint t :
  aligned old → (∀ t, t ∈ mt_deleted (resolve_matches I old new w mint) → t ∈ map fst (old_order old)) →
  deletion t ∈ r_ops (reconcile_sidecar I old new path w mint) ↔ t ∈ mt_deleted (resolve_matches I old new w mint).
Proof.
  intros Hal Hdel. destruct (resolve_counts I old new w mint) as (_ & _ & Hinfo & _).
  unfold reconcile_sidecar. set (m := resolve_matches I old new w mint) in *.
  destruct (classify_matched _ _ _ _ _) as [changes moves]. destruct (pair_blank_runs old _) as [bd bi] eqn:Eb. cbn [r_ops].
  rewrite deletion_in_passes. destruct (old_order_tasks old Hal) as [Hnd _].
  assert (∀ x, x ∈ mt_deleted m → id_at (sd_ids old) (snd (info_of (mt_info m) x)) = Some x) as Hrow.
  { intros x Hx%Hdel. change (map fst) with (fmap (M:=list) (@fst TaskId nat)) in Hx. apply list_elem_of_fmap in Hx as ([y raw] & -> & Hin).
    rewrite Hinfo. destruct (old_info_lookup _ _ _ Hnd Hin) as (k & _ & Hk). cbn [fst]. rewrite Hk. apply elem_of_old_order in Hin as (_ & _ & _ & Hi). by apply id_at_Some. }
  assert (∀ from, LDelete from ∈ map LDelete (stable_sort Nat.leb (map (λ t, snd (info_of (mt_info m) t)) (mt_deleted m) ++ bd)) ++ map (λ c, LChange (fst c) (snd c)) changes
    ++ map (λ c, LMove (fst c) (snd c)) moves ++ map LInsert (stable_sort Nat.leb (map (nth_of (mt_rows m)) (mt_inserted m) ++ bi))
    ↔ from ∈ map (λ t, snd (info_of (mt_info m) t)) (mt_deleted m) ∨ from ∈ bd) as Hd.
  { intros from. generalize (map (λ t, snd (info_of (mt_info m) t)) (mt_deleted m)) as ds. intros ds.
    rewrite !elem_of_app, (list_elem_of_In (map LDelete _)), (list_elem_of_In (map (λ c, LChange _ _) _)), (list_elem_of_In (map (λ c, LMove _ _) _)),
      (list_elem_of_In (map LInsert _)), !in_map_iff. setoid_rewrite <- list_elem_of_In. setoid_rewrite stable_sort_elem. setoid_rewrite elem_of_app. naive_solver. }
  setoid_rewrite Hd. clear Hd. change (map (λ t, snd (info_of (mt_info m) t))) with (fmap (M:=list) (λ t, snd (info_of (mt_info m) t))). setoid_rewrite list_elem_of_fmap. split.
  - intros (from & [(x & -> & Hx)|Hb] & Hid).
    + rewrite Hrow in Hid by done. by injection Hid as ->.
    + exfalso. pose proof (blank_deletes_none old (mkSide new (mt_new_ids m)) from) as Hn. rewrite Eb in Hn. rewrite Hn in Hid; done.
  - intros Ht. exists (snd (info_of (mt_info m) t)). split; [left; by exists t|by apply Hrow].
Qed.

Section claims.
Context (I : Identity) {laws : IdentityLaws I}.

Lemma r_ids_new old new path w mint :
  let r := reconcile_sidecar I old new path w mint in let m := resolve_matches I old new w mint in
  r_ids r = mt_new_ids m ∧ r_minted r = mt_minted m ∧ r_reused r = mt_reused m ∧ r_file r = new.
Proof using.
  unfold reconcile_sidecar. set (m := resolve_matches I old new w mint). destruct (classify_matched _ _ _ _ _) as [changes moves].
  by destruct (pair_blank_runs old _).
Qed.

(** The tasks kept are tasks of the old side. *)
Lemma matched_old old new w mint t i :
  aligned old → (t, i) ∈ mt_matched (resolve_matches I old new w mint) → Some t ∈ sd_ids old.
Proof using laws.
  intros Hal Ht. destruct (resolve_matching I old new w mint Hal) as [Hold _ _]. destruct (old_order_tasks old Hal) as [_ Hin].
  apply Hin. rewrite <- Hold. apply elem_of_app. left.
  change (map fst) with (fmap (M:=list) (@fst TaskId nat)). by apply (list_elem_of_fmap_2 fst _ (t, i)).
Qed.

Lemma matched_NoDup old new w mint :
  aligned old → let m := resolve_matches I old new w mint in
  NoDup (map fst (mt_matched m)) ∧ ∀ t, t ∈ map fst (mt_matched m) → t ∉ mt_deleted m.
Proof using laws.
  intros Hal m. destruct (resolve_matching I old new w mint Hal) as [Hold _ _]. destruct (old_order_tasks old Hal) as [Hnd _].
  rewrite <- Hold in Hnd. by apply NoDup_app in Hnd as (? & ? & _).
Qed.

(** The new file and its ids are a projection again. *)
Lemma new_side_aligned old new w mint :
  aligned old → (∀ n m, mint n = mint m → n = m) → (∀ n, Some (mint n) ∉ sd_ids old) →
  aligned (mkSide new (mt_new_ids (resolve_matches I old new w mint))).
Proof using laws.
  intros Hal Hinj Hfresh. destruct (new_ids_spec I old new w mint Hal) as [Hlen Hspec].
  destruct (resolve_matching I old new w mint Hal) as [_ Hnew _]. destruct (matched_NoDup old new w mint Hal) as [Hndm _].
  pose proof (λ t i, matched_old old new w mint t i Hal) as Hof. set (m := resolve_matches I old new w mint) in *.
  split; cbn [sd_ids sd_file]; [done| |].
  + intros i l Hl. split.
    * intros Ht. assert (i ∈ new_rows new) as [k Hk]%list_elem_of_lookup by (apply elem_of_new_rows; by exists l).
      assert (k ∈ map snd (mt_matched m) ++ mt_inserted m) as [Hm|[j Hj]%list_elem_of_lookup]%elem_of_app.
      { rewrite Hnew. apply elem_of_seq. apply lookup_lt_Some in Hk. lia. }
      -- change (map snd) with (fmap (M:=list) (@snd TaskId nat)) in Hm. apply list_elem_of_fmap in Hm as ([t k'] & -> & Hm).
         exists t. apply id_at_Some, Hspec. exists k'. split; [done|by left].
      -- exists (mint j). apply id_at_Some, Hspec. exists k. split; [done|]. right. by exists j.
    * intros [t (k & Hk & _)%id_at_Some%Hspec]. apply list_elem_of_lookup_2, elem_of_new_rows in Hk as (l' & Hl' & Ht). congruence.
  + apply ids_NoDup. intros i j t (a & Ha & Hat)%Hspec (b & Hb & Hbt)%Hspec.
    assert (a = b) as ->; [|congruence]. destruct Hat as [Hat|(k & Hk & ->)], Hbt as [Hbt|(k' & Hk' & Ht)].
    * apply list_elem_of_lookup in Hat as [x Hx], Hbt as [y Hy]. assert (x = y) as ->; [|congruence].
      eapply NoDup_lookup; [exact Hndm| |]; change (map fst) with (fmap (M:=list) (@fst TaskId nat)); rewrite list_lookup_fmap; [by rewrite Hx|by rewrite Hy].
    * exfalso. apply (Hfresh k'). rewrite <- Ht. by eapply Hof.
    * exfalso. apply (Hfresh k). by eapply Hof.
    * apply Hinj in Ht as ->. congruence.
Qed.

(** C22. Task lines without ids are re-identified one to one. From a projection whose task lines each have
    one id, and a mint of fresh ids, a sidecar reconcile gives every task line of the new file exactly one
    id, every other line none, and no id twice, so the new file can be the projection of the next
    reconcile; each id is an old one or one just minted, as many as there are task lines; and the old
    tasks it deletes are exactly those whose id no new line has. *)
Theorem sidecar_identity old new path w mint :
  aligned old → (∀ n m, mint n = mint m → n = m) → (∀ n, Some (mint n) ∉ sd_ids old) →
  let r := reconcile_sidecar I old new path w mint in
  aligned (mkSide new (r_ids r))
  ∧ r_reused r + r_minted r = length (new_rows new)
  ∧ (∀ t, Some t ∈ r_ids r → Some t ∈ sd_ids old ∨ ∃ k, k < r_minted r ∧ t = mint k)
  ∧ ∀ t, Some t ∈ sd_ids old → (deletion t ∈ r_ops r ↔ Some t ∉ r_ids r).
Proof using laws.
  intros Hal Hinj Hfresh r. subst r. destruct (r_ids_new old new path w mint) as (Hr & Hrm & Hru & _). rewrite Hr, Hrm, Hru.
  destruct (resolve_counts I old new w mint) as (Hmi & Hre & _). destruct (new_ids_spec I old new w mint Hal) as [Hlen Hspec].
  destruct (resolve_matching I old new w mint Hal) as [Hold Hnew _]. destruct (old_order_tasks old Hal) as [Hnd Hin].
  destruct (matched_NoDup old new w mint Hal) as [_ Hdisj]. pose proof (λ t i, matched_old old new w mint t i Hal) as Hof.
  set (m := resolve_matches I old new w mint) in *.
  split_and!.
  - by apply new_side_aligned.
  - rewrite Hmi, Hre. apply Permutation_length in Hnew. rewrite length_app, length_map, length_seq in Hnew. done.
  - intros t [i (k & _ & [Hk|(j & Hj & ->)])%Hspec]%list_elem_of_lookup; [left; by eapply Hof|right].
    exists j. split; [|done]. rewrite Hmi. by eapply lookup_lt_Some.
  - intros t Ht. rewrite sidecar_deletions; [|done|]. fold m. split.
    + intros Hd [i (k & _ & [Hk|(j & _ & ->)])%Hspec]%list_elem_of_lookup; [|by apply (Hfresh j)].
      apply (Hdisj t); [|done]. change (map fst) with (fmap (M:=list) (@fst TaskId nat)). by apply (list_elem_of_fmap_2 fst _ (t, k)).
    + intros Hnot. assert (t ∈ map fst (mt_matched m) ++ mt_deleted m) as [Hm|Hd]%elem_of_app by (rewrite Hold; by apply Hin); [|done].
      exfalso. apply Hnot. change (map fst) with (fmap (M:=list) (@fst TaskId nat)) in Hm. apply list_elem_of_fmap in Hm as ([t' k] & -> & Hm).
      assert (k ∈ map snd (mt_matched m) ++ mt_inserted m) as Hk.
      { apply elem_of_app. left. change (map snd) with (fmap (M:=list) (@snd TaskId nat)). by apply (list_elem_of_fmap_2 snd _ (t', k)). }
      rewrite Hnew in Hk. apply elem_of_seq in Hk. destruct (lookup_lt_is_Some_2 (new_rows new) k) as [row Hrow]; [lia|].
      eapply list_elem_of_lookup_2. apply Hspec. exists k. split; [done|by left].
    + intros x Hx. rewrite <- Hold. apply elem_of_app. by right.
Qed.

(** Lines whose text did not change are never re-identified by resemblance: when a new task line has
    the bytes of an old one, then either that old task is on some new line of just these bytes, or all
    were taken and the new line has the id of another old line of just these bytes. *)
Theorem sidecar_keeps_unedited old new path w mint t raw row :
  aligned old → sd_ids old !! raw = Some (Some t) → row ∈ new_rows new → text_at (sd_file old) raw = text_at new row →
  let r := reconcile_sidecar I old new path w mint in
  (∃ row', r_ids r !! row' = Some (Some t) ∧ row' ∈ new_rows new ∧ text_at new row' = text_at (sd_file old) raw)
  ∨ ∃ t' raw', r_ids r !! row = Some (Some t') ∧ sd_ids old !! raw' = Some (Some t') ∧ text_at (sd_file old) raw' = text_at new row.
Proof using laws.
  intros Hal Hid Hrow Htext r. subst r. destruct (r_ids_new old new path w mint) as (-> & _).
  destruct (new_ids_spec I old new w mint Hal) as [_ Hspec].
  destruct (resolve_matching I old new w mint Hal) as [_ _ Hequal].
  assert ((t, raw) ∈ old_order old) as Hin.
  { destruct (lookup_lt_is_Some_2 (lines (sd_file old)) raw) as [l Hl]; [rewrite <- (al_length old Hal); by eapply lookup_lt_Some|].
    apply elem_of_old_order. exists l. split_and!; [done| |done]. apply (al_task old Hal raw l Hl). exists t. by apply id_at_Some. }
  apply list_elem_of_lookup in Hrow as [i Hi].
  destruct (Hequal t raw i row Hin Hi Htext) as [(j & row' & Hm & Hr & Ht)|(t' & raw' & Hm & Hin' & Ht)]; [left|right].
  - exists row'. split_and!; [apply Hspec; exists j; split; [done|by left]|by eapply list_elem_of_lookup_2|done].
  - exists t', raw'. split_and!; [apply Hspec; exists i; split; [done|by left]| |done].
    by apply elem_of_old_order in Hin' as (_ & _ & _ & ?).
Qed.

(** ** The same file again *)

Lemma split_loop_same f order m tli :
  (∀ b, queue m b = map fst (List.filter (λ p, bool_decide (text_at f (snd p) = b)) (zip (seq tli (length order)) (map snd order)))) →
  split_loop f m tli order = (zip (map fst order) (seq tli (length order)), []).
Proof using.
  revert m tli. induction order as [|[t raw] order IH]; intros m tli H; [done|]. cbn [split_loop length seq map fst snd zip zip_with]. fold (text_at f raw).
  pose proof (H (text_at f raw)) as Hq. cbn [length seq map snd zip zip_with List.filter] in Hq. rewrite bool_decide_eq_true_2 in Hq by done.
  cbn [map fst] in Hq. unfold queue in Hq. destruct (m !! text_at f raw) as [l|]; cbn in Hq; [|done]. unfold id in Hq. subst l.
  rewrite (IH _ (S tli)); [done|]. intros b. rewrite queue_insert. case_bool_decide as Eb; [by subst b|].
  rewrite H. cbn [length seq map snd zip zip_with List.filter]. rewrite bool_decide_eq_false_2; [done|]. intros Hx. by apply Eb.
Qed.

Lemma rows_of_old old : aligned old → new_rows (sd_file old) = map snd (old_order old).
Proof using.
  intros Hal. unfold new_rows, old_order.
  assert (∀ ps, (∀ p, p ∈ ps → lines (sd_file old) !! fst p = Some (snd p)) →
    omap (λ r : nat * OwnedLine, if is_task (snd r) then Some (fst r) else None) ps
    = map snd (omap (λ r : nat * OwnedLine, if is_task (snd r) then (λ t, (t, fst r)) <$> id_at (sd_ids old) (fst r) else None) ps)) as H.
  { intros ps. induction ps as [|[i l] ps IH]; intros Hp; [done|]. cbn [omap list_omap fst snd].
    pose proof (Hp (i, l) ltac:(left)) as Hl. cbn in Hl.
    destruct (is_task l) eqn:Et; [|apply IH; intros p Hin; apply Hp; by right].
    apply (al_task old Hal i l Hl) in Et as [t ->]. cbn. f_equal. apply IH. intros p Hin; apply Hp; by right. }
  apply H. intros [i l] Hin. by apply elem_of_indexed in Hin.
Qed.

Lemma resolve_same old w mint :
  aligned old → let m := resolve_matches I old (sd_file old) w mint in
  mt_matched m = zip (map fst (old_order old)) (seq 0 (length (old_order old))) ∧ mt_deleted m = [] ∧ mt_inserted m = [].
Proof using.
  intros Hal. unfold resolve_matches, split_exact_matches. rewrite (rows_of_old old Hal). set (order := old_order old).
  rewrite split_loop_same; [|intros b; by rewrite by_bytes_queue, length_map]. cbn [sp_trivial sp_remaining_old sp_remaining_new].
  assert (List.filter (λ i, negb (existsb (λ m, Nat.eqb (snd m) i) (zip (map fst order) (seq 0 (length order))))) (seq 0 (length (map snd order))) = []) as ->.
  { erewrite List.filter_ext; [|intros i; by rewrite existsb_snd]. rewrite snd_zip by (by rewrite length_map, length_seq).
    rewrite length_map. apply elem_of_nil_inv. intros i Hi%list_elem_of_In. apply filter_In in Hi as [Hi Hn].
    apply negb_true_iff, not_true_iff_false in Hn. apply Hn, existsb_exists. exists i. split; [done|by apply Nat.eqb_eq]. }
  cbn [fingerprints_of fingerprints_of_new omap list_omap assign length Nat.max Nat.eqb as_matched as_deleted as_inserted map mint_ids].
  cbn [mt_matched mt_deleted mt_inserted]. by rewrite app_nil_r.
Qed.

Lemma zip_tasks_sorted (order : list (TaskId * nat)) :
  NoDup (map fst order) → let ms := zip (map fst order) (seq 0 (length order)) in
  stable_sort (λ a b, fst (info_of (old_info order) (fst a)) <=? fst (info_of (old_info order) (fst b))) ms = ms.
Proof using.
  intros Hnd ms. apply stable_sort_id.
  assert (∀ t i, (t, i) ∈ ms → fst (info_of (old_info order) t) = i) as Hpos.
  { intros t i [k Hk]%list_elem_of_lookup. apply lookup_zip_Some in Hk as [Ht [-> _]%lookup_seq].
    change (map fst) with (fmap (M:=list) (@fst TaskId nat)) in Ht. rewrite list_lookup_fmap in Ht. apply fmap_Some in Ht as ([t' raw] & Hk & ->).
    destruct (old_info_lookup order t' raw Hnd) as (k' & Hk' & Hk''); [by eapply list_elem_of_lookup_2|]. cbn [fst]. rewrite Hk''. cbn [fst].
    cbn; eapply NoDup_lookup; [exact Hnd| |]; change (map fst) with (fmap (M:=list) (@fst TaskId nat)); rewrite list_lookup_fmap; [by rewrite Hk'|by rewrite Hk]. }
  assert (StronglySorted lt (map snd ms)) as Hs.
  { unfold ms. rewrite snd_zip by (by rewrite length_map, length_seq). clear. generalize 0, (length order). intros k n. revert k.
    induction n as [|n IH]; intros k; cbn; constructor; [apply IH|]. apply Forall_forall. intros i Hi%elem_of_seq. lia. }
  clearbody ms. induction ms as [|[t i] ms IH]; [constructor|]. cbn in Hs. apply StronglySorted_inv in Hs as [Hs Hi]. constructor.
  - apply IH; [|done]. intros t' i' H. apply Hpos. by right.
  - apply Forall_forall. intros [t' i'] H. cbn. rewrite (Hpos t i), (Hpos t' i') by (by first [left|right]). apply Nat.leb_le.
    apply (proj1 (Forall_forall _ _)) with (x := i') in Hi; [lia|]. change (map snd) with (fmap (M:=list) (@snd TaskId nat)). by apply (list_elem_of_fmap_2 snd _ (t', i')).
Qed.

(** Reconciling the projection against itself: no op, the same ids. *)
Lemma reconcile_same old path w mint :
  aligned old → let r := reconcile_sidecar I old (sd_file old) path w mint in r_ops r = [] ∧ r_ids r = sd_ids old ∧ r_minted r = 0.
Proof using laws.
  intros Hal r. destruct (r_ids_new old (sd_file old) path w mint) as (Hr & Hrm & _). destruct (resolve_same old w mint Hal) as (Hm & Hd & Hi).
  destruct (resolve_counts I old (sd_file old) w mint) as (Hmi & _ & Hinfo & Hrows & _).
  destruct (new_ids_spec I old (sd_file old) w mint Hal) as [Hlen Hspec]. destruct (old_order_tasks old Hal) as [Hnd _].
  set (m := resolve_matches I old (sd_file old) w mint) in *.
  assert (mt_new_ids m = sd_ids old) as Hids.
  { assert (∀ i t, mt_new_ids m !! i = Some (Some t) ↔ sd_ids old !! i = Some (Some t)) as Hiff.
    { intros i t. rewrite Hspec, Hm, Hi, (rows_of_old old Hal). change (map snd) with (fmap (M:=list) (@snd TaskId nat)). change (map fst) with (fmap (M:=list) (@fst TaskId nat)).
      split.
      - intros (k & Hk & [[j Hj]%list_elem_of_lookup|(j & Hj & _)]); [|done]. apply lookup_zip_Some in Hj as [Ht [-> _]%lookup_seq]. cbn in Hk.
        rewrite list_lookup_fmap in Hk. rewrite list_lookup_fmap in Ht. apply fmap_Some in Hk as ([t' raw] & Hk & ->). rewrite Hk in Ht. injection Ht as ->.
        apply list_elem_of_lookup_2, elem_of_old_order in Hk as (_ & _ & _ & ?). done.
      - intros H. destruct (lookup_lt_is_Some_2 (lines (sd_file old)) i) as [l Hl]; [rewrite <- (al_length old Hal); by eapply lookup_lt_Some|].
        assert ((t, i) ∈ old_order old) as [k Hk]%list_elem_of_lookup.
        { apply elem_of_old_order. exists l. split_and!; [done| |done]. apply (al_task old Hal i l Hl). exists t. by apply id_at_Some. }
        exists k. rewrite list_lookup_fmap, Hk. split; [done|]. left. apply list_elem_of_lookup. exists k. apply lookup_zip_Some.
        rewrite list_lookup_fmap, Hk. split; [done|]. apply lookup_seq. split; [done|by eapply lookup_lt_Some]. }
    apply list_eq. intros i. destruct (decide (i < length (lines (sd_file old)))) as [Hi'|Hi'].
    - destruct (lookup_lt_is_Some_2 (mt_new_ids m) i) as [x Hx]; [by rewrite Hlen|]. destruct (lookup_lt_is_Some_2 (sd_ids old) i) as [y Hy]; [by rewrite (al_length old Hal)|].
      rewrite Hx, Hy. destruct x as [t|]; [by apply Hiff in Hx; congruence|]. destruct y as [t|]; [|done]. apply Hiff in Hy. congruence.
    - by rewrite !lookup_ge_None_2 by (rewrite ?Hlen, ?(al_length old Hal); lia). }
  subst r. rewrite Hr, Hrm, Hmi, Hi. split_and!; [|done|done].
  unfold reconcile_sidecar. fold m. rewrite Hids, Hm, Hd, Hi, Hinfo, Hrows.
  unfold classify_matched. rewrite zip_tasks_sorted by done. set (ms := zip (map fst (old_order old)) (seq 0 (length (old_order old)))).
  assert (map snd ms = seq 0 (length (old_order old))) as -> by (unfold ms; by rewrite snd_zip by (by rewrite length_map, length_seq)).
  assert (length ms = length (old_order old)) as Hlm by (unfold ms; rewrite length_zip, length_map, length_seq; lia). rewrite <- Hlm, lis_indices_seq.
  rewrite (filter_none (λ p : nat * (TaskId * nat), negb (existsb (Nat.eqb (fst p)) (seq 0 (length ms))))).
  2: { intros [i x] Hin. cbn [fst]. apply negb_false_iff, existsb_exists. exists i. split; [|by apply Nat.eqb_eq]. apply elem_of_zip_l in Hin. by apply list_elem_of_In. }
  rewrite filter_none.
  2: { intros p Hp. apply negb_false_iff, bool_decide_eq_true. apply list_elem_of_In, in_map_iff in Hp as ([i [t k]] & <- & [Hp _]%filter_In).
    apply list_elem_of_In, elem_of_indexed in Hp. cbn [fst snd]. unfold ms in Hp. apply lookup_zip_Some in Hp as [Ht [-> _]%lookup_seq]. cbn.
    change (map fst) with (fmap (M:=list) (@fst TaskId nat)) in Ht. rewrite list_lookup_fmap in Ht. apply fmap_Some in Ht as ([t' raw] & Hk & ->). cbn [fst].
    destruct (old_info_lookup _ t' raw Hnd) as (k' & Hk' & Hk''); [by eapply list_elem_of_lookup_2|]. cbn [fst]. rewrite Hk''. cbn [snd].
    rewrite (rows_of_old old Hal). unfold nth_of. change (map snd) with (fmap (M:=list) (@snd TaskId nat)). by rewrite list_lookup_fmap, Hk. }
  assert (pair_blank_runs old (mkSide (sd_file old) (sd_ids old)) = ([], [])) as ->; [|done].
  destruct old as [f ids]. cbn [sd_file sd_ids]. unfold pair_blank_runs. set (b := blank_slots _).
  assert (∀ as_, flat_map (λ a, drop (Nat.min (length (default [] (b !! a))) (length (default [] (b !! a)))) (default [] (b !! a))) as_ = []) as ->; [|done].
  intros as_. induction as_ as [|a as_ IH]; [done|]. cbn [flat_map]. rewrite IH, Nat.min_id, drop_all. done.
Qed.

(** ** Opening the file *)

Lemma opened_entries n ls ids :
  length ids = length ls →
  (∀ i l, ls !! i = Some l → is_utf8 (ol_bytes l) = true ∧ (is_task l = true ↔ is_Some (id_at ids i))) →
  ∃ es, entries_of n ls ids = Ok es ∧ map entry_line es = ls ∧ map entry_id es = ids.
Proof using.
  revert n ids. induction ls as [|l ls IH]; intros n ids Hlen H; [destruct ids; [by exists []|done]|].
  destruct ids as [|o ids]; [done|]. cbn in Hlen. destruct (H 0 l eq_refl) as [Hu Ht]. cbn in Ht. unfold id in Ht.
  destruct (IH (S n) ids) as (es & Hes & Hls & Hids); [lia|intros i l' Hl'; by apply (H (S i))|].
  assert (∃ e, entry_of n l o = Ok e ∧ entry_line e = l ∧ entry_id e = o) as (e & He & Hl & Ho).
  { unfold entry_of, is_task, task_of_line in *. destruct (OwnedLine_parse l) as [pl|] eqn:Ep.
    - cbn [mbind option_bind] in Ht. destruct (kind pl) as [|t] eqn:Ek.
      + destruct o as [x|]; [|by eexists]. destruct Ht as [_ Ht]. by discriminate (Ht ltac:(by eexists)).
      + destruct Ht as [Ht _]. destruct Ht as [x ->]; [by apply bool_decide_eq_true; eexists|]. by eexists.
    - exfalso. unfold OwnedLine_parse, OwnedLine_raw in Ep. rewrite Hu in Ep. cbn in Ep.
      destruct (parse_line_lenient_ok (ol_bytes l) DEFAULT_SCHEMES) as [pl Hpl]. unfold parse_line in Ep. rewrite Hpl in Ep. done. }
  exists (e :: es). cbn [entries_of head tail default]. unfold id, mbind, result_bind. rewrite He, Hes. cbn. by rewrite Hl, Hls, Ho, Hids.
Qed.

(** C23. A sidecar reconcile settles. From a projection whose task lines each have one id, with a mint of
    new ids that gives none twice, the new file, when its lines are UTF-8 and no more than a file may
    have, opens as a document with the ids the reconcile gave its lines and writes back exactly the bytes
    read; and reconciling the same bytes against that document again gives no op and mints no id. *)
Theorem sidecar_settles old new path w mint :
  aligned old → (∀ n m, mint n = mint m → n = m) → (∀ n, Some (mint n) ∉ sd_ids old) →
  Forall (λ l, is_utf8 (ol_bytes l) = true) (lines new) → (N.of_nat (length (lines new)) <= MAX_LINES_PER_FILE)%N →
  let r := reconcile_sidecar I old new path w mint in
  ∃ st, from_file path (r_file r) (r_ids r) Sidecar = Ok st ∧ doc_to_bytes st = to_bytes new ∧ line_ids st = r_ids r
    ∧ ∀ mint', let r' := reconcile_against I st new new mint' in r_ops r' = [] ∧ r_ids r' = r_ids r ∧ r_minted r' = 0.
Proof using laws.
  intros Hal Hinj Hfresh Hutf Hmax r. subst r. destruct (r_ids_new old new path w mint) as (Hr & _ & _ & Hf). rewrite Hr, Hf.
  pose proof (new_side_aligned old new w mint Hal Hinj Hfresh) as Hal'. set (ids := mt_new_ids _) in *.
  destruct (opened_entries 0 (lines new) ids) as (es & Hes & Hls & Hids); [exact (al_length _ Hal')| |].
  { intros i l Hl. split; [by apply (proj1 (Forall_lookup _ _) Hutf i)|exact (al_task _ Hal' i l Hl)]. }
  assert (from_file path new ids Sidecar = Ok (mkDocState path es (replicate (length es) false) (seq 0 (length es))
    (replicate (length es) unplaced) (replicate (length es) None) (replicate (length es) false) ∅ ∅ ∅ (bom new) (f_ending new) (trailing_newline new) Sidecar)) as Hopen.
  { unfold from_file. rewrite (proj2 (N.ltb_ge _ _)) by lia. by rewrite Hes. }
  rewrite Hopen. eexists. split; [reflexivity|]. split_and!.
  - eapply from_file_bytes; [exact Hopen|]. unfold visible_entries. cbn [visible entries]. by rewrite omap_seq.
  - unfold line_ids, visible_entries. cbn [visible entries]. by rewrite omap_seq.
  - intros mint'. unfold reconcile_against. cbn [ds_mode ds_path]. rewrite bool_decide_eq_false_2 by done. unfold doc_len. cbn [visible].
    match goal with |- context [mkSide new ?x] => assert (x = ids) as -> end; [|exact (reconcile_same (mkSide new ids) path DEFAULT_WEIGHTS mint' Hal')].
    rewrite <- Hids, length_seq. apply list_eq. intros i. change (map ?f ?l) with (f <$> l). rewrite !list_lookup_fmap. unfold entry_at. cbn [visible entries].
    destruct (decide (i < length es)) as [Hi|Hi].
    + rewrite lookup_seq_lt by done. cbn [fmap option_fmap option_map mbind option_bind]. rewrite lookup_seq_lt by done. cbn. by destruct (lookup_lt_is_Some_2 es i Hi) as [e ->].
    + rewrite lookup_seq_ge by lia. by rewrite lookup_ge_None_2 by lia.
Qed.
End claims.

(** ** Witnesses *)

#[local] Instance sample_laws : IdentityLaws sample_identity.
Proof. split. intros m _. done. Qed.

Lemma sample_aligned : aligned sample_side.
Proof.
  split; [reflexivity| |apply (bool_decide_eq_true_1 _); vm_compute; reflexivity]. intros i l Hl.
  assert (map is_task (lines (sd_file sample_side)) = map (λ o : option TaskId, bool_decide (is_Some o)) (sd_ids sample_side)) as H by (vm_compute; reflexivity).
  apply (f_equal (.!! i)) in H. change (map ?f ?l) with (f <$> l) in H. rewrite !list_lookup_fmap, Hl in H. unfold id_at.
  destruct (sd_ids sample_side !! i) as [o|]; [|done]. injection H as ->. cbn. unfold id. apply bool_decide_eq_true.
Qed.

Lemma sample_mint_inj n m : sample_mint n = sample_mint m → n = m.
Proof. unfold sample_mint. lia. Qed.

Lemma sample_mint_fresh n : Some (sample_mint n) ∉ sd_ids sample_side.
Proof. unfold sample_mint. intros H. vm_compute sd_ids in H. rewrite !elem_of_cons, elem_of_nil in H. destruct_or! H; try done; injection H as H; lia. Qed.

Lemma sidecar_identity_witness :
  let r := reconcile_sidecar sample_identity sample_side sample_new todo_path DEFAULT_WEIGHTS sample_mint in
  aligned (mkSide sample_new (r_ids r)) ∧ r_ids r = [Some 8; Some 100; Some 101]%N ∧ deletion 7 ∈ r_ops r.
Proof.
  destruct (sidecar_identity sample_identity sample_side sample_new todo_path DEFAULT_WEIGHTS sample_mint) as (H1 & H2 & H3 & H4).
  - exact sample_aligned.
  - exact sample_mint_inj.
  - exact sample_mint_fresh.
  - split; [exact H1|]. split; [vm_compute; reflexivity|]. apply H4; apply (bool_decide_eq_true_1 _); vm_compute; reflexivity.
Defined.

Lemma sidecar_keeps_unedited_witness :
  let r := reconcile_sidecar sample_identity sample_side sample_new todo_path DEFAULT_WEIGHTS sample_mint in
  (∃ row', r_ids r !! row' = Some (Some 8%N) ∧ row' ∈ new_rows sample_new ∧ text_at sample_new row' = text_at (sd_file sample_side) 2)
  ∨ ∃ t' raw', r_ids r !! 0 = Some (Some t') ∧ sd_ids sample_side !! raw' = Some (Some t') ∧ text_at (sd_file sample_side) raw' = text_at sample_new 0.
Proof.
  apply (sidecar_keeps_unedited sample_identity sample_side sample_new todo_path DEFAULT_WEIGHTS sample_mint 8 2 0).
  - exact sample_aligned.
  - reflexivity.
  - apply (bool_decide_eq_true_1 _). vm_compute. reflexivity.
  - vm_compute. reflexivity.
Defined.

Lemma sidecar_settles_witness :
  let r := reconcile_sidecar sample_identity sample_side sample_new todo_path DEFAULT_WEIGHTS sample_mint in
  ∃ st, from_file todo_path (r_file r) (r_ids r) Sidecar = Ok st ∧ doc_to_bytes st = to_bytes sample_new.
Proof.
  destruct (sidecar_settles sample_identity sample_side sample_new todo_path DEFAULT_WEIGHTS sample_mint) as (st & H1 & H2 & _).
  - exact sample_aligned.
  - exact sample_mint_inj.
  - exact sample_mint_fresh.
  - apply (bool_decide_eq_true_1 _). vm_compute. reflexivity.
  - vm_compute. discriminate.
  - exact (ex_intro _ st (conj H1 H2)).
Defined.
