(* ===== verification/Layout.v ===== *)
(** Where a workspace keeps its root list and the folders for its [ref:] lines
    ([crates/txtodo-model/src/layout.rs]).

    The theorems: an accepted layout names safe paths outside the daemon's own directory, and so does
    every folder it gives a slug of the root list; another list's folders are where that list is; the two
    ways of asking for the root list's folder agree. *)
From S2P Require Import Prelude.
From S2P Require Import Utf8.
From S2P Require Import Types.
From S2P Require Import Scanner.
From S2P Require Import Ops.

(** ** Constants and errors *)

Definition DEFAULT_TODO_FILE : bytes := str "todo.txt".
Definition DEFAULT_REFS_DIR : bytes := str "tasks".
Definition BESIDE_THE_LIST : bytes := str ".".
Definition NOTES_FILE_NAME : bytes := str "notes.md".
Definition STATE_DIR : bytes := str ".txtodo".

Inductive LayoutError :=
| LayoutPath (setting : bytes) (source : FilePathError)
| LayoutNotesFile (v : bytes)
| LayoutColon (setting value : bytes)
| LayoutInsideStateDir (setting value : bytes)
| LayoutNotAFile (v : bytes).

Record WorkspaceLayout := mkLayout { refs_dir : bytes; todo_file : FilePath }.

#[global] Instance FilePathError_eq_dec : EqDecision FilePathError.
Proof. solve_decision. Defined.
#[global] Instance LayoutError_eq_dec : EqDecision LayoutError.
Proof. solve_decision. Defined.
#[global] Instance WorkspaceLayout_eq_dec : EqDecision WorkspaceLayout.
Proof. solve_decision. Defined.

Definition Layout_default : WorkspaceLayout := mkLayout DEFAULT_REFS_DIR DEFAULT_TODO_FILE.

(** [rsplit_once('/')]. *)
Definition rsplit_slash (s : bytes) : option (bytes * bytes) :=
  i ← rposition is_slash s; Some (take i s, drop (S i) s).

(** [rsplit('/').next()]. *)
Definition file_name (s : bytes) : bytes := match rsplit_slash s with Some (_, name) => name | None => s end.

(** ** Checking *)

(** The rules every synced layout path shares. *)
Definition layout_check (setting value : bytes) : result LayoutError unit :=
  _ ← map_err (LayoutPath setting) (FilePath_new value);
  if contains_byte ":"%byte value then Err (LayoutColon setting value)
  else if eq_ignore_ascii_case (default [] (head (split_on is_slash value))) STATE_DIR
  then Err (LayoutInsideStateDir setting value)
  else Ok tt.

(** An empty setting means its default. *)
Definition Layout_new (refs todo : bytes) : result LayoutError WorkspaceLayout :=
  let refs := if bool_decide (refs = []) then DEFAULT_REFS_DIR else refs in
  let todo := if bool_decide (todo = []) then DEFAULT_TODO_FILE else todo in
  _ ← (if bool_decide (refs = BESIDE_THE_LIST) then Ok tt else layout_check (str "refs_dir") refs);
  if bool_decide (todo = BESIDE_THE_LIST) then Err (LayoutNotAFile todo)
  else
    _ ← layout_check (str "todo_file") todo;
    if bool_decide (file_name todo = NOTES_FILE_NAME) then Err (LayoutNotesFile todo)
    else
      todo ← map_err (LayoutPath (str "todo_file")) (FilePath_new todo);
      mret (mkLayout refs todo).

Definition beside_the_list : WorkspaceLayout := mkLayout BESIDE_THE_LIST DEFAULT_TODO_FILE.

Definition refs_beside_list (l : WorkspaceLayout) : bool := bool_decide (refs_dir l = BESIDE_THE_LIST).

(** The root list when the walker would not find it by name. *)
Definition custom_root_list (l : WorkspaceLayout) : option FilePath :=
  if bool_decide (file_name (todo_file l) = DEFAULT_TODO_FILE) then None else Some (todo_file l).

(** ** Where a slug's folder lives *)

Definition beside (file : bytes) : bytes := match rsplit_slash file with Some (dir, _) => dir | None => [] end.

Definition refs_parent_of (l : WorkspaceLayout) (owner : FilePath) : bytes :=
  if negb (bool_decide (owner = todo_file l)) then beside owner
  else if refs_beside_list l then beside (todo_file l)
  else refs_dir l.

(** [format!("{parent}/{slug}")]. *)
Definition under (parent slug : bytes) : bytes := parent ++ str "/" ++ slug.

Definition ref_dir_for (l : WorkspaceLayout) (owner : FilePath) (slug : bytes) : bytes :=
  let parent := refs_parent_of l owner in
  if bool_decide (parent = []) then slug else under parent slug.

Definition ref_dir_of (l : WorkspaceLayout) (slug : bytes) : bytes :=
  if refs_beside_list l then
    match rsplit_slash (todo_file l) with Some (dir, _) => under dir slug | None => slug end
  else under (refs_dir l) slug.

(** ** Samples *)

Example layout_samples :
  Layout_new [] [] = Ok Layout_default
  ∧ (λ l, ref_dir_of l (str "auth")) <$> Layout_new (str ".") (str "lists/todo.txt") = Ok (str "lists/auth")
  ∧ Layout_new (str "tasks") (str ".") = Err (LayoutNotAFile (str "."))
  ∧ Layout_new (str ".TxTodo/refs") [] = Err (LayoutInsideStateDir (str "refs_dir") (str ".TxTodo/refs"))
  ∧ Layout_new (str "c:x") [] = Err (LayoutColon (str "refs_dir") (str "c:x"))
  ∧ Layout_new [] (str "docs/notes.md") = Err (LayoutNotesFile (str "docs/notes.md")).
Proof. vm_compute. done. Qed.

(** ** Segments *)

Definition seg_ok (s : bytes) : bool :=
  negb (bool_decide (s = []) || bool_decide (s = str ".") || bool_decide (s = str "..")).

(** What [FilePath_new] asks of a text apart from its length. *)
Definition path_ok (p : bytes) : Prop :=
  contains_byte "\"%byte p = false ∧ Forall (λ s, seg_ok s = true) (split_on is_slash p).

Definition segments (p : bytes) : list bytes := split_on is_slash p.

Lemma segments_under parent slug : segments (under parent slug) = segments parent ++ segments slug.
Proof. unfold segments, under. by apply (split_on_app is_slash parent "/"%byte slug). Qed.

Lemma rposition_spec {A} (p : A → bool) l i :
  rposition p l = Some i →
  ∃ l1 x l2, l = l1 ++ x :: l2 ∧ length l1 = i ∧ p x = true ∧ Forall (λ y, p y = false) l2.
Proof.
  revert i. induction l as [|y l IH]; intros i H; cbn in H; [done|].
  destruct (rposition p l) as [j|] eqn:E.
  - injection H as <-. destruct (IH j eq_refl) as (l1 & x & l2 & -> & <- & ? & ?). by exists (y :: l1), x, l2.
  - destruct (p y) eqn:Ey; [|done]. injection H as <-. exists [], y, l. split_and!; try done. clear -E.
    induction l as [|z l IH]; [constructor|]. cbn in E. destruct (rposition p l); [done|].
    destruct (p z) eqn:Ez; [done|]. constructor; [done|by apply IH].
Qed.

Lemma rsplit_slash_spec s dir name :
  rsplit_slash s = Some (dir, name) → s = under dir name ∧ Forall (λ c, is_slash c = false) name.
Proof.
  unfold rsplit_slash. intros (i & Hi & [= <- <-])%bind_Some.
  apply rposition_spec in Hi as (l1 & x & l2 & -> & <- & Hx & Hall). apply bool_decide_eq_true in Hx as ->.
  rewrite take_app_length, (drop_app_ge _ _ (S (length l1))) by lia.
  replace (S (length l1) - length l1) with 1 by lia. by split.
Qed.

Lemma existsb_negb_Forall {A} (f : A → bool) l : existsb f l = false ↔ Forall (λ x, negb (f x) = true) l.
Proof.
  induction l as [|x l IH]; cbn; [by split|]. rewrite orb_false_iff, Forall_cons, IH. by rewrite negb_true_iff.
Qed.

Lemma path_ok_start p : path_ok p → starts_with (str "/") p = false ∧ p ≠ [].
Proof.
  intros [_ Hs]. split.
  - apply not_true_iff_false. intros [r ->]%starts_with_spec. cbn in Hs. apply Forall_cons in Hs as [Hs _]. done.
  - intros ->. cbn in Hs. apply Forall_cons in Hs as [Hs _]. done.
Qed.

(** A path is accepted exactly when its segments are plain and it is short enough. *)
Lemma FilePath_new_ok p q : FilePath_new p = Ok q ↔ q = p ∧ path_ok p ∧ length p ≤ FILE_PATH_MAX_BYTES.
Proof.
  unfold FilePath_new, path_ok. split.
  - case_bool_decide; [done|]. destruct (_ <? _) eqn:El; [done|]. destruct (_ || _) eqn:E; [done|]. intros [= <-].
    breflect. apply existsb_negb_Forall in H1. split_and!; try done.
  - intros (-> & Hp & Hl). destruct (path_ok_start p Hp) as [Hs Hn]. destruct Hp as [Hb Hf].
    rewrite bool_decide_eq_false_2 by done. rewrite (proj2 (Nat.ltb_ge _ _)) by lia.
    rewrite Hs, Hb. cbn [orb]. by rewrite (proj2 (existsb_negb_Forall _ _) Hf).
Qed.

Lemma contains_byte_app c a b : contains_byte c (a ++ b) = contains_byte c a || contains_byte c b.
Proof. unfold contains_byte. by rewrite existsb_app. Qed.

Lemma path_ok_under parent slug : path_ok (under parent slug) ↔ path_ok parent ∧ path_ok slug.
Proof.
  pose proof (segments_under parent slug) as Hs. unfold path_ok. unfold segments in Hs. rewrite Hs, Forall_app. unfold under.
  rewrite !contains_byte_app, !orb_false_iff. naive_solver.
Qed.

(** ** Slugs *)

Lemma slug_chars s : is_valid_slug s = true →
  Forall (λ c, is_ascii_lowercase c || is_ascii_digit c || bool_decide (c ∈ ["."%byte; "_"%byte; "-"%byte]) = true) s
  ∧ (∃ c s', s = c :: s' ∧ is_ascii_lowercase c || is_ascii_digit c = true)
  ∧ length s ≤ SLUG_MAX_LEN ∧ s ≠ str "." ∧ s ≠ str "..".
Proof.
  unfold is_valid_slug. intros H. breflect. split_and!; try done.
  - apply Forall_forall. intros c Hc. rewrite forallb_forall in H3. apply H3. by apply list_elem_of_In.
  - destruct s as [|c s']; [done|]. by exists c, s'.
Qed.

Lemma slug_char_plain c :
  is_ascii_lowercase c || is_ascii_digit c || bool_decide (c ∈ ["."%byte; "_"%byte; "-"%byte]) = true →
  is_slash c = false ∧ c ≠ "\"%byte ∧ c ≠ ":"%byte.
Proof. destruct c; try (intros H; vm_compute in H; discriminate H); intros _; by vm_compute. Qed.

Lemma slug_segments s : is_valid_slug s = true → segments s = [s].
Proof.
  intros (Hc & _)%slug_chars. apply split_on_none. eapply Forall_impl; [exact Hc|]. by intros c (? & _)%slug_char_plain.
Qed.

Lemma contains_byte_none c s : Forall (λ d, d ≠ c) s → contains_byte c s = false.
Proof. induction 1 as [|d s Hd _ IH]; cbn; [done|]. by rewrite bool_decide_eq_false_2. Qed.

Lemma slug_path_ok s : is_valid_slug s = true → path_ok s.
Proof.
  intros H. split.
  - apply slug_chars in H as (Hc & _). apply contains_byte_none. eapply Forall_impl; [exact Hc|].
    by intros c (_ & ? & _)%slug_char_plain.
  - pose proof (slug_segments s H) as Hs. unfold segments in Hs. rewrite Hs. constructor; [|done].
    apply slug_chars in H as (_ & (c & s' & -> & _) & _ & Hd & Hdd). unfold seg_ok.
    rewrite !bool_decide_eq_false_2 by done. done.
Qed.

(** ** Safe paths *)

(** Not inside the daemon's own directory, and free of drive letters. *)
Definition in_state_dir (p : bytes) : bool := eq_ignore_ascii_case (default [] (head (segments p))) STATE_DIR.
Definition has_colon (p : bytes) : bool := contains_byte ":"%byte p.
Definition outside_state (p : bytes) : Prop := in_state_dir p = false ∧ has_colon p = false.

(** What every path a layout names or derives satisfies. *)
Definition safe (p : bytes) : Prop := path_ok p ∧ outside_state p.

Lemma layout_check_ok setting v : layout_check setting v = Ok tt ↔ safe v ∧ length v ≤ FILE_PATH_MAX_BYTES.
Proof.
  unfold layout_check, safe, outside_state, in_state_dir, has_colon, mbind, result_bind, map_err. split.
  - destruct (FilePath_new v) as [p|e] eqn:E; [|done]. apply FilePath_new_ok in E as (-> & Hp & Hl).
    destruct (contains_byte _ v) eqn:Ec; [done|]. destruct (eq_ignore_ascii_case _ _) eqn:Es; [done|]. done.
  - intros [[Hp [Hs Hc]] Hl]. rewrite (proj2 (FilePath_new_ok v v)) by done. rewrite Hc. unfold segments in Hs. by rewrite Hs.
Qed.

Lemma head_segments_under parent slug : head (segments (under parent slug)) = head (segments parent).
Proof.
  rewrite segments_under. destruct (segments parent) eqn:E; [|done]. by apply split_on_nonempty in E.
Qed.

Lemma safe_slug slug : is_valid_slug slug = true → safe slug.
Proof.
  intros Hslug. split; [by apply slug_path_ok|]. split.
  - unfold in_state_dir. rewrite (slug_segments slug Hslug). cbn [head default]. apply slug_chars in Hslug as (_ & (c & s' & -> & Hc) & _).
    unfold eq_ignore_ascii_case. apply bool_decide_eq_false. cbn [map]. intros [= Hd _].
    destruct c; try (vm_compute in Hc; discriminate Hc); vm_compute in Hd; discriminate Hd.
  - apply slug_chars in Hslug as (Hall & _). apply contains_byte_none. eapply Forall_impl; [exact Hall|].
    by intros c (_ & _ & ?)%slug_char_plain.
Qed.

(** A slug adds nothing unsafe to the folder it is under. *)
Lemma under_slug parent slug : path_ok parent → is_valid_slug slug = true →
  path_ok (under parent slug) ∧ in_state_dir (under parent slug) = in_state_dir parent ∧ has_colon (under parent slug) = has_colon parent.
Proof.
  intros Hp Hs. destruct (safe_slug slug Hs) as [Hok [_ Hc]]. unfold has_colon in *. split_and!.
  - by apply path_ok_under.
  - unfold in_state_dir. by rewrite head_segments_under.
  - unfold under. by rewrite !contains_byte_app, Hc, orb_false_r.
Qed.

Lemma safe_under parent slug : safe parent → is_valid_slug slug = true → safe (under parent slug).
Proof.
  intros [Hp [Hi Hc]] Hs. destruct (under_slug parent slug Hp Hs) as (Hu & Hi' & Hc'). split; [done|]. unfold outside_state. by rewrite Hi', Hc'.
Qed.

Lemma safe_beside f dir name : safe f → rsplit_slash f = Some (dir, name) → safe dir ∧ dir ≠ [].
Proof.
  intros [Hp [Hs Hc]] Hr. apply rsplit_slash_spec in Hr as [-> _]. apply path_ok_under in Hp as [Hd _].
  unfold in_state_dir in Hs. rewrite head_segments_under in Hs. unfold has_colon, under in Hc. rewrite contains_byte_app in Hc.
  apply orb_false_iff in Hc as [Hc _]. split; [done|]. by apply path_ok_start.
Qed.

(** A layout [Layout_new] accepts. *)
Definition layout_wf (l : WorkspaceLayout) : Prop :=
  (refs_dir l = BESIDE_THE_LIST ∨ safe (refs_dir l) ∧ length (refs_dir l) ≤ FILE_PATH_MAX_BYTES)
  ∧ safe (todo_file l) ∧ length (todo_file l) ≤ FILE_PATH_MAX_BYTES.

Lemma Layout_new_inv refs todo l : Layout_new refs todo = Ok l →
  refs_dir l = (if bool_decide (refs = []) then DEFAULT_REFS_DIR else refs)
  ∧ todo_file l = (if bool_decide (todo = []) then DEFAULT_TODO_FILE else todo)
  ∧ layout_wf l ∧ file_name (todo_file l) ≠ NOTES_FILE_NAME.
Proof.
  unfold Layout_new. set (r := if bool_decide (refs = []) then _ else _). set (t := if bool_decide (todo = []) then _ else _).
  unfold mbind, result_bind. intros H.
  destruct (if bool_decide (r = BESIDE_THE_LIST) then _ else _) as [[]|] eqn:Er; [|done].
  case_bool_decide; [done|]. destruct (layout_check (str "todo_file") t) as [[]|] eqn:Et; [|done].
  case_bool_decide as Hn; [done|]. unfold map_err in H. destruct (FilePath_new t) as [p|] eqn:Ep; [|done].
  injection H as <-. apply FilePath_new_ok in Ep as (-> & _). apply layout_check_ok in Et.
  split_and!; try done. split; [|done]. cbn. case_bool_decide; [by left|]. right. by apply layout_check_ok in Er.
Qed.

Lemma Layout_default_wf : layout_wf Layout_default.
Proof. destruct (Layout_new_inv [] [] Layout_default) as (_ & _ & H & _); [vm_compute; reflexivity|done]. Qed.

Lemma beside_the_list_wf : layout_wf beside_the_list.
Proof. split; [by left|]. apply (proj2 Layout_default_wf). Qed.

Lemma ref_dir_of_safe l slug : layout_wf l → is_valid_slug slug = true → safe (ref_dir_of l slug).
Proof.
  intros [Hr [Ht _]] Hs. unfold ref_dir_of, refs_beside_list. case_bool_decide as Hb.
  - destruct (rsplit_slash (todo_file l)) as [[dir name]|] eqn:E; [|by apply safe_slug].
    apply safe_under; [|done]. by eapply safe_beside.
  - destruct Hr as [?|[? _]]; [done|]. by apply safe_under.
Qed.

Lemma ref_dir_agree l slug : layout_wf l → ref_dir_for l (todo_file l) slug = ref_dir_of l slug.
Proof.
  intros [Hr [Ht _]]. unfold ref_dir_for, refs_parent_of, ref_dir_of, beside.
  rewrite (bool_decide_eq_true_2 (todo_file l = todo_file l)) by done. cbn [negb].
  destruct (refs_beside_list l) eqn:Eb.
  - destruct (rsplit_slash (todo_file l)) as [[dir name]|] eqn:E; [|by rewrite bool_decide_eq_true_2 by done].
    destruct (safe_beside _ _ _ Ht E) as [_ Hn]. by rewrite bool_decide_eq_false_2.
  - apply bool_decide_eq_false in Eb. destruct Hr as [?|[[Hp _] _]]; [done|]. apply path_ok_start in Hp as [_ Hn].
    by rewrite bool_decide_eq_false_2.
Qed.

(** Whatever list's folder: it is inside the daemon's own directory, or has a colon, only if the list has. *)
Lemma ref_dir_for_any l owner slug : layout_wf l → path_ok owner → is_valid_slug slug = true →
  path_ok (ref_dir_for l owner slug)
  ∧ (in_state_dir (ref_dir_for l owner slug) = true → in_state_dir owner = true)
  ∧ (has_colon (ref_dir_for l owner slug) = true → has_colon owner = true).
Proof.
  intros Hl Ho Hs.
  assert (safe (ref_dir_for l owner slug) ∨ ∃ dir name, owner = under dir name ∧ path_ok dir ∧ ref_dir_for l owner slug = under dir slug) as [Hd|Hd].
  - destruct (decide (owner = todo_file l)) as [->|Hne]; [left; rewrite ref_dir_agree by done; by apply ref_dir_of_safe|].
    unfold ref_dir_for, refs_parent_of, beside. rewrite (bool_decide_eq_false_2 (owner = todo_file l)) by done. cbn [negb].
    destruct (rsplit_slash owner) as [[dir name]|] eqn:E; [right|left; rewrite bool_decide_eq_true_2 by done; by apply safe_slug].
    apply rsplit_slash_spec in E as [-> _]. exists dir, name. apply path_ok_under in Ho as [Hd _].
    rewrite bool_decide_eq_false_2 by (by apply path_ok_start). done.
  - destruct Hd as [? [Hi Hc]]. by rewrite Hi, Hc.
  - destruct Hd as (dir & name & -> & Hd & ->). destruct (under_slug dir slug Hd Hs) as (? & -> & ->). split_and!; [done| |].
    + unfold in_state_dir. by rewrite head_segments_under.
    + intros Hc. unfold has_colon, under in *. by rewrite contains_byte_app, Hc.
Qed.

Lemma safe_new p : safe p → FilePath_new p = Ok p ∨ FilePath_new p = Err (FilePathTooLong (length p)).
Proof.
  intros [Hp _]. destruct (decide (length p ≤ FILE_PATH_MAX_BYTES)) as [Hl|Hl].
  - left. by apply FilePath_new_ok.
  - right. unfold FilePath_new. apply path_ok_start in Hp as [_ Hn]. rewrite bool_decide_eq_false_2 by done.
    by rewrite (proj2 (Nat.ltb_lt _ _)) by lia.
Qed.

(** ** Claims *)

(** C33. The folder an accepted layout gives a slug is safe: relative, no empty, dot or dot-dot segment, no
    backslash or drive letter, never inside the daemon's own directory whatever the case it is written
    in; it is refused only for its length; and asked for the root list, the two ways of asking agree. For
    the lines of any other list the folder is such a path too, inside the daemon's own directory or with a
    colon only if the list's own path is. *)
Theorem ref_dirs_safe refs todo l slug :
  Layout_new refs todo = Ok l → is_valid_slug slug = true →
  safe (ref_dir_of l slug)
  ∧ (FilePath_new (ref_dir_of l slug) = Ok (ref_dir_of l slug)
     ∨ FilePath_new (ref_dir_of l slug) = Err (FilePathTooLong (length (ref_dir_of l slug))))
  ∧ ref_dir_for l (todo_file l) slug = ref_dir_of l slug
  ∧ ∀ path owner, FilePath_new path = Ok owner →
      path_ok (ref_dir_for l owner slug)
      ∧ (in_state_dir (ref_dir_for l owner slug) = true → in_state_dir owner = true)
      ∧ (has_colon (ref_dir_for l owner slug) = true → has_colon owner = true).
Proof.
  intros (_ & _ & Hl & _)%Layout_new_inv Hs. pose proof (ref_dir_of_safe l slug Hl Hs) as Hsafe.
  split_and!; [done|by apply safe_new|by apply ref_dir_agree|].
  intros path owner (<- & Ho & _)%FilePath_new_ok. by apply ref_dir_for_any.
Qed.

(** A list inside the daemon's own directory is a path, and its lines' folders are inside it. *)
Example ref_dir_in_state : let owner := str ".txtodo/todo.txt" in
  FilePath_new owner = Ok owner ∧ ref_dir_for Layout_default owner (str "a") = str ".txtodo/a".
Proof. split; vm_compute; reflexivity. Qed.

Lemma ref_dirs_safe_witness :
  FilePath_new (ref_dir_of (mkLayout (str "work/refs") (str "work/todo.txt")) (str "q4.plan")) = Ok (str "work/refs/q4.plan").
Proof.
  destruct (ref_dirs_safe (str "work/refs") (str "work/todo.txt") (mkLayout (str "work/refs") (str "work/todo.txt")) (str "q4.plan"))
    as (_ & [H|H] & _); [vm_compute; reflexivity|vm_compute; reflexivity| |].
  - exact H.
  - vm_compute in H. discriminate H.
Defined.

(** Reading a layout back: an accepted one, its settings written as they are held, is accepted again
    as the same layout; and what is accepted holds the settings given, the defaults standing for empty
    ones. *)
Theorem layout_round_trip refs todo l :
  Layout_new refs todo = Ok l →
  Layout_new (refs_dir l) (todo_file l) = Ok l
  ∧ (refs ≠ [] → refs_dir l = refs) ∧ (todo ≠ [] → todo_file l = todo)
  ∧ (refs = [] → refs_dir l = DEFAULT_REFS_DIR) ∧ (todo = [] → todo_file l = DEFAULT_TODO_FILE).
Proof.
  intros H. destruct (Layout_new_inv _ _ _ H) as (Hr & Ht & _).
  split_and!; [|by intros ?; rewrite Hr, bool_decide_eq_false_2|by intros ?; rewrite Ht, bool_decide_eq_false_2
               |by intros ->|by intros ->].
  rewrite <- H. unfold Layout_new. rewrite Hr, Ht.
  assert (∀ d s : bytes, d ≠ [] → (if bool_decide ((if bool_decide (s = []) then d else s) = []) then d
            else if bool_decide (s = []) then d else s) = if bool_decide (s = []) then d else s) as He.
  { intros d s Hd. destruct (bool_decide (s = [])) eqn:E; [by rewrite bool_decide_eq_false_2|by rewrite E]. }
  by rewrite !He.
Qed.

Lemma layout_round_trip_witness :
  Layout_new (str ".") (str "lists/work.txt") = Ok (mkLayout (str ".") (str "lists/work.txt"))
  ∧ Layout_new (str "tasks") (str "todo.txt") = Ok Layout_default.
Proof.
  split; [vm_compute; reflexivity|]. apply (layout_round_trip [] [] Layout_default). vm_compute. reflexivity.
Defined.
