(* ===== verification/Tree.v ===== *)
(** The workspace tree of [ref:] directories ([crates/txtodo-model/src/tree.rs]), the node a document
    belongs to and the tree a client is sent ([crates/txtodo-daemon/src/tree.rs]).

    The theorems: what a built tree holds, node by node; every edge goes one level down, so the tree
    sent to a client is always built within the depth bound. *)
From stdpp Require Import gmap.
From S2P Require Import Prelude.
From S2P Require Import Utf8.
From S2P Require Import Types.
From S2P Require Import Scanner.
From S2P Require Import Hlc.
From S2P Require Import Ops.
From S2P Require Import Layout.
From S2P Require Import TodoFile.
From S2P Require Import Diff.
From S2P Require Import TextHistory.
From S2P Require Import DocState.

(** ** Nodes *)

Definition MAX_TREE_DEPTH : nat := 32.
Definition MAX_TRACKED_REFS : nat := Z.to_nat 10000.

(** Rule 5's counters: two u32. *)
Record Progress := mkProgress { pr_done : N; pr_total : N }.
Definition Progress_default : Progress := mkProgress 0 0.

(** The workspace root, or a [ref:] directory by its path. *)
Abbreviation NodeId := (option FilePath).
Definition root : NodeId := None.

(** Nesting depth: [matches('/').count() + 1] off the root. *)
Definition NodeId_depth (n : NodeId) : nat :=
  match n with Some d => length (List.filter is_slash d) + 1 | None => 0 end.

(** The node that owns a file: the directory it sits in. *)
Definition NodeId_of_file (file : FilePath) : NodeId :=
  match rsplit_slash file with
  | Some (dir, _) => match FilePath_new dir with Ok d => Some d | Err _ => root end
  | None => root
  end.

(** The child directory for a slug; [None] when the joined path is refused. *)
Definition NodeId_child (n : NodeId) (slug : bytes) (l : WorkspaceLayout) : option NodeId :=
  let joined := match n with None => ref_dir_of l slug | Some dir => under dir slug end in
  match FilePath_new joined with Ok d => Some (Some d) | Err _ => None end.

Record RefTag := mkRefTag { rt_owner : TaskId; rt_slug : bytes }.

Record NodeInput := mkNodeInput { ni_id : NodeId; ni_progress : Progress; ni_tags : list RefTag }.

Record Node := mkNode { n_progress : Progress; n_owner : option TaskId; n_children : gmap bytes NodeId }.
Definition Node_default : Node := mkNode Progress_default None ∅.

Inductive TreeError := TreeTooMany (n : nat) | TreeTooDeep (n : NodeId).

(** [WorkspaceTree]. *)
Abbreviation WorkspaceTree := (gmap NodeId Node).

(** ** Building *)

(** One tag: the owner of the directory it names, unless one was found before, and the edge. *)
Definition link_child (l : WorkspaceLayout) (parent : NodeId) (nodes : WorkspaceTree) (tag : RefTag) : WorkspaceTree :=
  match NodeId_child parent (rt_slug tag) l with
  | None => nodes
  | Some child =>
      if bool_decide (is_Some (nodes !! child)) then
        alter (λ n, mkNode (n_progress n) (n_owner n) (<[rt_slug tag := child]> (n_children n))) parent
          (alter (λ n, mkNode (n_progress n) (Some (default (rt_owner tag) (n_owner n))) (n_children n)) child nodes)
      else nodes
  end.

Definition link_children (l : WorkspaceLayout) (nodes : WorkspaceTree) (parent : NodeId) (tags : list RefTag) : WorkspaceTree :=
  foldl (link_child l parent) nodes tags.

(** [collect] into the map, a later input with the same id replacing the earlier one, then the root. *)
Definition input_nodes (inputs : list NodeInput) : WorkspaceTree :=
  let nodes := foldl (λ m i, <[ni_id i := mkNode (ni_progress i) None ∅]> m) (∅ : WorkspaceTree) inputs in
  match nodes !! root with Some _ => nodes | None => <[root := Node_default]> nodes end.

Definition build_with_layout (inputs : list NodeInput) (l : WorkspaceLayout) : result TreeError WorkspaceTree :=
  if MAX_TRACKED_REFS <? length inputs then Err (TreeTooMany (length inputs))
  else
    match find (λ i, MAX_TREE_DEPTH <? NodeId_depth (ni_id i)) inputs with
    | Some i => Err (TreeTooDeep (ni_id i))
    | None => Ok (foldl (λ nodes i, link_children l nodes (ni_id i) (ni_tags i)) (input_nodes inputs) inputs)
    end.

Definition build (inputs : list NodeInput) : result TreeError WorkspaceTree := build_with_layout inputs beside_the_list.

(** ** Reading *)

Definition tree_progress (t : WorkspaceTree) (id : NodeId) : option Progress := n_progress <$> t !! id.
Definition tree_owner (t : WorkspaceTree) (id : NodeId) : option TaskId := t !! id ≫= n_owner.

(** The children in the map's order, by slug. *)
Definition tree_children (t : WorkspaceTree) (id : NodeId) : list (bytes * NodeId) :=
  stable_sort (λ a b, bytes_leb (fst a) (fst b)) (map_to_list (from_option n_children ∅ (t !! id))).

Definition NodeId_leb (a b : NodeId) : bool :=
  match a, b with None, _ => true | Some _, None => false | Some x, Some y => bytes_leb x y end.

(** Directories nothing points at, in order. *)
Definition orphans (t : WorkspaceTree) : list NodeId :=
  stable_sort NodeId_leb
    (map fst (List.filter (λ kn, negb (bool_decide (fst kn = root)) && bool_decide (n_owner (snd kn) = None)) (map_to_list t))).

(** ** What an op can change *)

Record Invalidation := mkInvalidation { iv_counters : list NodeId; iv_edges : list NodeId }.

Definition invalidation_is_empty (i : Invalidation) : bool :=
  bool_decide (iv_counters i = []) && bool_decide (iv_edges i = []).

Definition counters_and_edges (id : NodeId) : Invalidation := mkInvalidation [id] [id].
Definition counters_only (id : NodeId) : Invalidation := mkInvalidation [id] [].
Definition edges_only (id : NodeId) : Invalidation := mkInvalidation [] [id].

Definition invalidates (op : OpKind) (file : FilePath) : Invalidation :=
  let node := NodeId_of_file file in
  match op with
  | KInsert _ _ _ => counters_and_edges node
  | KSetField _ FCompleted _ => counters_only node
  | KSetField _ FDeleted _ => counters_and_edges node
  | KSetField _ (FPriority | FCreationDate | FCompletionDate | FQuirks) _ => mkInvalidation [] []
  | KEditText _ _ => edges_only node
  | KRemoveTag _ _ => edges_only node
  | KMove _ _ to_file =>
      let dest := NodeId_of_file to_file in
      if bool_decide (dest = node) then counters_and_edges node else mkInvalidation [node; dest] [node; dest]
  | KNotesEdit _ _ | KBlankInsert _ | KBlankRemove _ => mkInvalidation [] []
  end.

(** ** The daemon's view (txtodo-daemon/src/tree.rs) *)

Definition mark_dirty_for (dirty : bool) (ops : list Op) : bool :=
  dirty || existsb (λ o, negb (invalidation_is_empty (invalidates (op_kind o) (op_file o)))) ops.

(** The root for the root list wherever the layout puts it, else the file's directory. *)
Definition node_of (l : WorkspaceLayout) (path : FilePath) : NodeId :=
  if bool_decide (path = todo_file l) then root else NodeId_of_file path.

Inductive PbNode := mkPbNode (dir : bytes) (progress : Progress) (owner : option TaskId)
    (files : list FilePath) (children : list PbNode).

(** [build_node], one level of fuel for each level of depth; [None] when the fuel ends. *)
Fixpoint build_node (fuel : nat) (t : WorkspaceTree) (id : NodeId) (files : list FilePath) (l : WorkspaceLayout)
    : option PbNode :=
  match fuel with
  | 0 => None
  | S fuel' =>
      children ← mapM (λ sc, build_node fuel' t (snd sc) files l) (tree_children t id);
      Some (mkPbNode (default [] id) (default Progress_default (tree_progress t id)) (tree_owner t id)
              (List.filter (λ f, bool_decide (node_of l f = id)) files) children)
  end.

Definition to_pb_tree (t : WorkspaceTree) (files : list FilePath) (l : WorkspaceLayout) : option PbNode :=
  build_node (S MAX_TREE_DEPTH) t root files l.

(** ** Samples *)

Definition dir_node (p : bytes) : NodeId := Some p.

Definition sample_inputs : list NodeInput :=
  [mkNodeInput root (mkProgress 1 3) [mkRefTag 1 (str "auth"); mkRefTag 2 (str "later")];
   mkNodeInput (dir_node (str "tasks/auth")) (mkProgress 0 2) [mkRefTag 3 (str "login")];
   mkNodeInput (dir_node (str "tasks/auth/login")) (mkProgress 0 0) [];
   mkNodeInput (dir_node (str "old")) (mkProgress 5 5) []].

Example tree_sample :
  match build_with_layout sample_inputs Layout_default with
  | Ok t =>
      tree_owner t (dir_node (str "tasks/auth")) = Some 1%N ∧ orphans t = [dir_node (str "old")]
      ∧ tree_children t root = [(str "auth", dir_node (str "tasks/auth"))]
      ∧ to_pb_tree t [str "todo.txt"; str "tasks/auth/todo.txt"] Layout_default
        = Some (mkPbNode [] (mkProgress 1 3) None [str "todo.txt"]
                  [mkPbNode (str "tasks/auth") (mkProgress 0 2) (Some 1%N) [str "tasks/auth/todo.txt"]
                     [mkPbNode (str "tasks/auth/login") (mkProgress 0 0) (Some 3%N) [] []]])
  | Err _ => False
  end.
Proof. vm_compute. done. Qed.

(** A directory may have two parents: the root, through [refs_dir], and the directory [refs_dir] itself
    names when it holds a list of its own. *)
Example tree_two_parents :
  match build_with_layout [mkNodeInput root Progress_default [mkRefTag 1 (str "a")];
                           mkNodeInput (dir_node (str "tasks")) Progress_default [mkRefTag 2 (str "a")];
                           mkNodeInput (dir_node (str "tasks/a")) Progress_default []] Layout_default with
  | Ok t => tree_children t root = tree_children t (dir_node (str "tasks"))
            ∧ tree_owner t (dir_node (str "tasks/a")) = Some 1%N
  | Err _ => False
  end.
Proof. vm_compute. done. Qed.

(** Clearing the priority of the open line [(A) x foo] leaves the done line [x foo], though the op is said
    to touch no counter. *)
Example priority_moves_counter :
  let o := op_at 10 1 (KSetField 1 FPriority (FVPriority None)) in
  (doc_to_bytes <$> run_ops (doc_of [str "(A) x foo"]) [o]) = Some (str "x foo" ++ [x0a])
  ∧ invalidates (op_kind o) (op_file o) = mkInvalidation [] [].
Proof. vm_compute. done. Qed.

(** ** What the tags make of the nodes *)

(** Each tag with the node it is found in, in order. *)
Definition all_tags (inputs : list NodeInput) : list (NodeId * RefTag) :=
  concat (map (λ i, map (pair (ni_id i)) (ni_tags i)) inputs).

(** The tasks whose tags name a directory, in order. *)
Definition namers (l : WorkspaceLayout) (tags : list (NodeId * RefTag)) (id : NodeId) : list TaskId :=
  omap (λ pt, if bool_decide (NodeId_child (fst pt) (rt_slug (snd pt)) l = Some id) then Some (rt_owner (snd pt)) else None) tags.

Definition edge (t : WorkspaceTree) (p : NodeId) (s : bytes) (c : NodeId) : Prop :=
  ∃ n, t !! p = Some n ∧ n_children n !! s = Some c.

Section linking.
Context (l : WorkspaceLayout).

Definition link_tags (t : WorkspaceTree) (tags : list (NodeId * RefTag)) : WorkspaceTree :=
  foldl (λ t pt, link_child l (fst pt) t (snd pt)) t tags.

Lemma link_all inputs t :
  foldl (λ t i, link_children l t (ni_id i) (ni_tags i)) t inputs = link_tags t (all_tags inputs).
Proof.
  unfold link_tags, all_tags. revert t. induction inputs as [|i inputs IH]; intros t; cbn; [done|].
  rewrite foldl_app, IH. f_equal. unfold link_children. clear. revert t.
  induction (ni_tags i) as [|tag tags IH]; intros t; cbn; [done|]. apply IH.
Qed.

Lemma namers_snoc tags p tag id :
  namers l (tags ++ [(p, tag)]) id
  = namers l tags id ++ if bool_decide (NodeId_child p (rt_slug tag) l = Some id) then [rt_owner tag] else [].
Proof. unfold namers. rewrite omap_app. cbn. by case_bool_decide. Qed.

(** What linking the tags found so far makes of a bare map. *)
Record linked (t0 : WorkspaceTree) (tags : list (NodeId * RefTag)) (t : WorkspaceTree) : Prop := mkLinked {
  ln_dom : ∀ id, is_Some (t !! id) ↔ is_Some (t0 !! id);
  ln_progress : ∀ id, tree_progress t id = tree_progress t0 id;
  ln_owner : ∀ id, is_Some (t0 !! id) → tree_owner t id = head (namers l tags id);
  ln_edge : ∀ p s c, edge t p s c ↔
    is_Some (t0 !! p) ∧ is_Some (t0 !! c) ∧ NodeId_child p s l = Some c ∧ ∃ tag, (p, tag) ∈ tags ∧ rt_slug tag = s
}.

Lemma link_child_lookup t p tag c id :
  NodeId_child p (rt_slug tag) l = Some c → is_Some (t !! c) →
  link_child l p t tag !! id
  = (λ n, mkNode (n_progress n) (if bool_decide (id = c) then Some (default (rt_owner tag) (n_owner n)) else n_owner n)
            (if bool_decide (id = p) then <[rt_slug tag := c]> (n_children n) else n_children n)) <$> t !! id.
Proof.
  intros Hc Ht. unfold link_child. rewrite Hc, bool_decide_eq_true_2 by done.
  destruct (decide (id = p)) as [->|Hp].
  - rewrite lookup_alter_eq, (bool_decide_eq_true_2 (p = p)) by done. destruct (decide (p = c)) as [->|Hpc].
    + rewrite lookup_alter_eq, bool_decide_eq_true_2 by done. by destruct (t !! c).
    + rewrite lookup_alter_ne, bool_decide_eq_false_2 by done. done.
  - rewrite lookup_alter_ne, (bool_decide_eq_false_2 (id = p)) by done. destruct (decide (id = c)) as [->|Hpc].
    + rewrite lookup_alter_eq, bool_decide_eq_true_2 by done. done.
    + rewrite lookup_alter_ne, bool_decide_eq_false_2 by done. by destruct (t !! id) as [[]|].
Qed.

Lemma link_tags_linked t0 tags :
  (∀ id n, t0 !! id = Some n → n_owner n = None ∧ n_children n = ∅) → linked t0 tags (link_tags t0 tags).
Proof.
  intros H0. induction tags as [|[p tag] tags IH] using rev_ind.
  - split; [done|done| |].
    + intros id [n Hn]. cbn. unfold tree_owner. rewrite Hn. cbn. by destruct (H0 _ _ Hn) as [-> _].
    + intros p s c. cbn. split.
      * intros (n & Hn & Hs). destruct (H0 _ _ Hn) as [_ E]. by rewrite E in Hs.
      * intros (_ & _ & _ & tag & Hin & _). by apply elem_of_nil in Hin.
  - unfold link_tags. rewrite foldl_app. cbn [foldl fst snd]. fold (link_tags t0 tags). set (t := link_tags t0 tags) in *.
    assert (∀ q s, (∃ tag', (q, tag') ∈ tags ++ [(p, tag)] ∧ rt_slug tag' = s) ↔
      (∃ tag', (q, tag') ∈ tags ∧ rt_slug tag' = s) ∨ q = p ∧ rt_slug tag = s) as Hsnoc.
    { intros q s. setoid_rewrite elem_of_app. setoid_rewrite list_elem_of_singleton. naive_solver. }
    destruct IH as [Hd Hp Ho He].
    destruct (NodeId_child p (rt_slug tag) l) as [c|] eqn:Ec.
    2:{ assert (link_child l p t tag = t) as -> by (unfold link_child; by rewrite Ec).
        split; [done|done| |].
        - intros id Hid. rewrite namers_snoc, Ec. cbn. rewrite app_nil_r. by apply Ho.
        - intros q s c. rewrite He, (Hsnoc q s). naive_solver congruence. }
    destruct (decide (is_Some (t !! c))) as [Hc|Hc].
    2:{ assert (link_child l p t tag = t) as -> by (unfold link_child; by rewrite Ec, bool_decide_eq_false_2 by done).
        split; [done|done| |].
        - intros id Hid. rewrite namers_snoc, Ec. rewrite bool_decide_eq_false_2; [rewrite app_nil_r; by apply Ho|].
          intros [= ->]. by apply Hc, Hd.
        - intros q s c'. rewrite He, (Hsnoc q s). rewrite Hd in Hc. naive_solver congruence. }
    pose proof (λ id, link_child_lookup t p tag c id Ec Hc) as Hl.
    split.
    + intros id. by rewrite Hl, fmap_is_Some.
    + intros id. rewrite <- Hp. unfold tree_progress. rewrite Hl. by destruct (t !! id).
    + intros id Hid. rewrite namers_snoc, Ec. specialize (Ho id Hid). apply Hd in Hid as [n Hn].
      unfold tree_owner in *. rewrite Hl. rewrite Hn in Ho |- *. cbn in Ho |- *.
      destruct (decide (id = c)) as [->|Hne].
      * rewrite !bool_decide_eq_true_2 by done. rewrite Ho. by destruct (namers l tags c).
      * rewrite !bool_decide_eq_false_2 by congruence. by rewrite app_nil_r.
    + intros q s c'. rewrite (Hsnoc q s). unfold edge. rewrite Hl.
      destruct (t !! q) as [n|] eqn:En; cbn.
      2:{ assert (¬ is_Some (t0 !! q)) as Hq by (rewrite <- Hd, En; apply is_Some_None). naive_solver. }
      assert (is_Some (t0 !! q)) as Hq by (apply Hd; rewrite En; by eexists).
      specialize (He q s c'). unfold edge in He. rewrite En in He. rewrite Hd in Hc.
      destruct (decide (q = p)) as [->|Hne].
      * rewrite (bool_decide_eq_true_2 (p = p)) by done. destruct (decide (s = rt_slug tag)) as [->|Hs].
        -- split; [intros (? & [= <-] & Hx); cbn in Hx; rewrite lookup_insert_eq in Hx; injection Hx as <-; naive_solver|].
           intros (_ & _ & Hch & _). eexists. split; [done|]. cbn. rewrite lookup_insert_eq. congruence.
        -- split.
           ++ intros (? & [= <-] & Hx). cbn in Hx. rewrite lookup_insert_ne in Hx by done. naive_solver.
           ++ intros (? & ? & ? & [?|[_ ?]]); [|congruence]. eexists. split; [done|]. cbn. rewrite lookup_insert_ne by done.
              destruct He as [_ He]. destruct He as (? & [= <-] & ?); [naive_solver|done].
      * rewrite (bool_decide_eq_false_2 (q = p)) by done. naive_solver.
Qed.
End linking.

(** ** What a built tree holds *)

Lemma input_nodes_fold (inputs : list NodeInput) (m0 : WorkspaceTree) (id : NodeId) :
  (foldl (λ (m : WorkspaceTree) i, <[ni_id i := mkNode (ni_progress i) None ∅]> m) m0 inputs) !! id
  = match last (List.filter (λ i, bool_decide (ni_id i = id)) inputs) with
    | Some i => Some (mkNode (ni_progress i) None ∅)
    | None => m0 !! id
    end.
Proof.
  revert m0. induction inputs as [|i inputs IH] using rev_ind; intros m0; cbn; [done|].
  rewrite foldl_app, List.filter_app. cbn. case_bool_decide as E.
  - rewrite last_snoc. subst id. by rewrite lookup_insert_eq.
  - rewrite lookup_insert_ne, IH by done. by rewrite app_nil_r.
Qed.

(** The nodes of a tree are the root and the inputs, each with the progress last reported for it. *)
Lemma input_nodes_lookup inputs id :
  input_nodes inputs !! id
  = match last (List.filter (λ i, bool_decide (ni_id i = id)) inputs) with
    | Some i => Some (mkNode (ni_progress i) None ∅)
    | None => if bool_decide (id = root) then Some Node_default else None
    end.
Proof.
  unfold input_nodes. pose proof (input_nodes_fold inputs ∅) as Hf. set (m := foldl _ _ _) in *.
  assert (∀ id, m !! id = match last (List.filter (λ i, bool_decide (ni_id i = id)) inputs) with
    | Some i => Some (mkNode (ni_progress i) None ∅) | None => None end) as Hf'.
  { intros k. rewrite Hf. destruct (last _); [done|]. apply lookup_empty. }
  clear Hf. rename Hf' into Hf. destruct (m !! root) as [n|] eqn:E.
  - rewrite Hf. destruct (last _) eqn:El; [done|]. case_bool_decide as Hr; [|done]. subst id.
    rewrite Hf, El in E. done.
  - destruct (decide (id = root)) as [->|Hne].
    + rewrite lookup_insert_eq, (bool_decide_eq_true_2 (root = root)) by done. rewrite Hf in E. by destruct (last _).
    + rewrite lookup_insert_ne by done. rewrite Hf. by rewrite (bool_decide_eq_false_2 (id = root)).
Qed.

Lemma input_nodes_bare inputs id n :
  input_nodes inputs !! id = Some n → n_owner n = None ∧ n_children n = ∅.
Proof. rewrite input_nodes_lookup. destruct (last _); [by intros [= <-]|]. case_bool_decide; [by intros [= <-]|done]. Qed.

Lemma last_filter_in {A} (p : A → bool) (l : list A) : is_Some (last (List.filter p l)) ↔ ∃ x, x ∈ l ∧ p x = true.
Proof.
  rewrite last_is_Some. split.
  - intros H. destruct (List.filter p l) as [|x l'] eqn:E; [done|]. exists x.
    apply list_elem_of_In, List.filter_In in E || (assert (x ∈ List.filter p l) as Hx by (rewrite E; by left); apply list_elem_of_In, List.filter_In in Hx as [? ?]; by rewrite list_elem_of_In).
  - intros (x & Hx & Hp) E. assert (x ∈ List.filter p l) as Hin by (apply list_elem_of_In, List.filter_In; by rewrite <- list_elem_of_In).
    rewrite E in Hin. by apply elem_of_nil in Hin.
Qed.

Lemma input_nodes_dom inputs id : is_Some (input_nodes inputs !! id) ↔ id = root ∨ ∃ i, i ∈ inputs ∧ ni_id i = id.
Proof.
  rewrite input_nodes_lookup. pose proof (last_filter_in (λ i, bool_decide (ni_id i = id)) inputs) as Hl.
  setoid_rewrite bool_decide_eq_true in Hl. destruct (last _) as [i|].
  - split; [|by eexists]. intros _. right. by apply Hl.
  - case_bool_decide as Hr; [split; [by left|by eexists]|]. split; [by intros [? ?]|]. intros [?|H]; [done|].
    apply Hl in H as [? ?]. done.
Qed.

Lemma build_linked inputs l t :
  build_with_layout inputs l = Ok t →
  linked l (input_nodes inputs) (all_tags inputs) t
  ∧ length inputs ≤ MAX_TRACKED_REFS ∧ Forall (λ i, NodeId_depth (ni_id i) ≤ MAX_TREE_DEPTH) inputs.
Proof.
  unfold build_with_layout. destruct (_ <? _) eqn:El; [done|]. destruct (find _ _) as [i|] eqn:Ef; [done|]. intros [= <-].
  apply Nat.ltb_ge in El. split_and!; [|done|].
  - rewrite link_all. apply link_tags_linked. apply input_nodes_bare.
  - apply Forall_forall. intros i Hi. eapply find_none in Ef; [|by apply list_elem_of_In]. cbv beta in Ef. by apply Nat.ltb_ge in Ef.
Qed.

(** ** Depth *)

Lemma depth_under dir slug : NodeId_depth (Some dir) < NodeId_depth (Some (under dir slug)).
Proof.
  unfold NodeId_depth, under. rewrite !List.filter_app, !length_app.
  change (length (List.filter is_slash (str "/"))) with 1. lia.
Qed.

(** Each edge goes down. *)
Lemma child_deeper p slug l c : NodeId_child p slug l = Some c → NodeId_depth p < NodeId_depth c.
Proof.
  unfold NodeId_child. destruct p as [dir|].
  - destruct (FilePath_new _) as [d|] eqn:E; [|done]. intros [= <-]. apply FilePath_new_ok in E as (-> & _). apply depth_under.
  - destruct (FilePath_new _) as [d|] eqn:E; [|done]. intros [= <-]. cbn. lia.
Qed.

Lemma tree_children_edge t p s c : (s, c) ∈ tree_children t p ↔ edge t p s c.
Proof.
  unfold tree_children, edge. rewrite stable_sort_elem. destruct (t !! p) as [n|]; cbn.
  - rewrite elem_of_map_to_list. naive_solver.
  - rewrite map_to_list_empty. split; [by intros ?%elem_of_nil|naive_solver].
Qed.

Lemma orphans_elem t id : id ∈ orphans t ↔ id ≠ root ∧ ∃ n, t !! id = Some n ∧ n_owner n = None.
Proof.
  unfold orphans. rewrite stable_sort_elem, list_elem_of_In, in_map_iff. setoid_rewrite List.filter_In.
  setoid_rewrite <- list_elem_of_In. split.
  - intros ([k n] & <- & Hin%elem_of_map_to_list & H). cbn in *. breflect. by eauto.
  - intros (Hr & n & Hn & Ho). exists (id, n). split_and!; [done|by apply elem_of_map_to_list|].
    cbn. by rewrite bool_decide_eq_false_2, bool_decide_eq_true_2.
Qed.

(** A build that has fuel for the levels below a node ends. *)
Lemma build_node_total t files l fuel id :
  (∀ p s c, edge t p s c → NodeId_depth p < NodeId_depth c ∧ NodeId_depth c ≤ MAX_TREE_DEPTH) →
  NodeId_depth id ≤ MAX_TREE_DEPTH < NodeId_depth id + fuel → is_Some (build_node fuel t id files l).
Proof.
  intros He. revert id. induction fuel as [|fuel IH]; intros id Hf; [lia|]. cbn [build_node].
  assert (is_Some (mapM (λ sc, build_node fuel t (snd sc) files l) (tree_children t id))) as [cs ->]; [|by eexists].
  apply mapM_is_Some, Forall_forall. intros [s c] Hc%tree_children_edge. destruct (He _ _ _ Hc). apply IH. cbn [snd]. lia.
Qed.

Lemma sample_builds : is_ok (build_with_layout sample_inputs Layout_default) = true.
Proof. vm_compute. reflexivity. Qed.

(** ** Claims *)

(** A built tree says of every directory what its tags say: it holds the root and the directories
    found; a directory's owner is the first task whose tag names it, and it has none exactly when it is
    an orphan; a child is listed under a slug exactly when a tag of the node has that slug and the
    directory it names was found. *)
Theorem tree_holds_tags inputs l t :
  build_with_layout inputs l = Ok t →
  (∀ id, is_Some (t !! id) ↔ id = root ∨ ∃ i, i ∈ inputs ∧ ni_id i = id)
  ∧ (∀ id, is_Some (t !! id) → tree_owner t id = head (namers l (all_tags inputs) id))
  ∧ (∀ id, id ∈ orphans t ↔ is_Some (t !! id) ∧ id ≠ root ∧ namers l (all_tags inputs) id = [])
  ∧ (∀ p s c, (s, c) ∈ tree_children t p ↔
       is_Some (t !! p) ∧ is_Some (t !! c) ∧ NodeId_child p s l = Some c
       ∧ ∃ tag, (p, tag) ∈ all_tags inputs ∧ rt_slug tag = s).
Proof.
  intros ([Hd Hp Ho He] & _ & _)%build_linked.
  assert (∀ id, is_Some (t !! id) → tree_owner t id = head (namers l (all_tags inputs) id)) as Hown.
  { intros id Hid. by apply Ho, Hd. }
  split_and!; [intros id; by rewrite Hd, input_nodes_dom|done| |].
  - intros id. rewrite orphans_elem. split.
    + intros (Hr & n & Hn & Hno). assert (is_Some (t !! id)) as Hid by (by eexists). split_and!; [done|done|].
      specialize (Hown id Hid). unfold tree_owner in Hown. rewrite Hn in Hown. cbn in Hown. rewrite Hno in Hown.
      by destruct (namers _ _ _).
    + intros ([n Hn] & Hr & E). split; [done|]. exists n. split; [done|].
      specialize (Hown id (ex_intro _ n Hn)). unfold tree_owner in Hown. rewrite Hn, E in Hown. exact Hown.
  - intros p s c. by rewrite tree_children_edge, He, !Hd.
Qed.

Lemma tree_holds_tags_witness :
  ∃ t, build_with_layout sample_inputs Layout_default = Ok t
    ∧ tree_owner t (dir_node (str "tasks/auth/login")) = Some 3%N ∧ dir_node (str "old") ∈ orphans t.
Proof.
  destruct (build_with_layout sample_inputs Layout_default) as [t|e] eqn:E; [|by pose proof sample_builds as Hb; rewrite E in Hb].
  destruct (tree_holds_tags _ _ _ E) as (Hd & Ho & Horph & _). exists t. split_and!; [done| |].
  - rewrite Ho; [vm_compute; reflexivity|]. apply Hd. right. eexists. split; [do 2 right; by left|reflexivity].
  - apply Horph. split_and!; [|done|vm_compute; reflexivity]. apply Hd. right. eexists. split; [do 3 right; by left|reflexivity].
Defined.

(** The tree has no cycle and its depth is bounded: each edge leads to a directory deeper than its
    own, none deeper than 32, so the tree sent to a client is built whole, by a recursion 33 deep at
    most, whatever the tags say. *)
Theorem tree_depth_bounded inputs l t files :
  build_with_layout inputs l = Ok t →
  (∀ p s c, (s, c) ∈ tree_children t p → NodeId_depth p < NodeId_depth c ∧ NodeId_depth c ≤ MAX_TREE_DEPTH)
  ∧ is_Some (to_pb_tree t files l).
Proof.
  intros ([Hd _ _ He] & _ & Hdepth)%build_linked.
  assert (∀ p s c, edge t p s c → NodeId_depth p < NodeId_depth c ∧ NodeId_depth c ≤ MAX_TREE_DEPTH) as H.
  { intros p s c (_ & Hc & Hch & _)%He. split; [by eapply child_deeper|].
    apply input_nodes_dom in Hc as [->|(i & Hi & <-)]; [unfold root, NodeId_depth; lia|]. rewrite Forall_forall in Hdepth. by apply Hdepth. }
  split; [intros p s c Hc%tree_children_edge; by eapply H|]. apply build_node_total; [done|].
  unfold root, NodeId_depth. lia.
Qed.

Lemma tree_depth_bounded_witness :
  ∃ t, build_with_layout sample_inputs Layout_default = Ok t ∧ is_Some (to_pb_tree t [str "todo.txt"] Layout_default).
Proof.
  destruct (build_with_layout sample_inputs Layout_default) as [t|e] eqn:E; [|by pose proof sample_builds as Hb; rewrite E in Hb].
  exists t. split; [done|]. apply (tree_depth_bounded _ _ _ [str "todo.txt"] E).
Defined.
