(* ===== verification/Park.v ===== *)
(** Peer ops that wait for a task this document does not hold yet ([crates/txtodo-engine/src/sync_park.rs]):
    the queue with its indexes, and applying a batch with it.

    The theorems: the indexes always agree with the queue and the queue is bounded; a retry ends; every
    op is, once, waiting, skipped, or one of those whose application made the document; a group naming a task not here leaves the document untouched. *)
From stdpp Require Import gmap.
From S2P Require Import Prelude.
From S2P Require Import Utf8.
From S2P Require Import Types.
From S2P Require Import TodoFile.
From S2P Require Import Diff.
From S2P Require Import Hlc.
From S2P Require Import TextHistory.
From S2P Require Import Ops.
From S2P Require Import DocState.
From S2P Require Import DocRows.
From S2P Require Import DocInvariant.
From S2P Require Import DocConverge.
From S2P Require Import DocErrors.

(** ** The queue *)

Definition MAX_PARKED_OPS : nat := Z.to_nat 10000.

#[global] Instance Hlc_countable : Countable Hlc.
Proof.
  refine (inj_countable' (λ h, (wall_ms h, counter h, device h)) (λ '(w, c, d), mkHlc w c d) _). by intros [].
Defined.

(** [Parked]: the waiting ops by arrival number, the last number given, and the indexes. *)
Record Parked := mkParked {
  pk_ops : gmap N (Op * StateError);
  pk_next : N;
  by_task : gmap TaskId (gset N);
  by_stamp : gmap Hlc (gset N);
  pk_whole : gset Hlc
}.

Definition Parked_default : Parked := mkParked ∅ 0 ∅ ∅ ∅.

Record Parking := mkParking { pk_skipped : list (Op * StateError); pk_landed : nat }.

Definition Parking_default : Parking := mkParking [] 0.

Definition skip (out : Parking) (d : Op * StateError) : Parking := mkParking (pk_skipped out ++ [d]) (pk_landed out).

(** The task an op acts on and the one it is placed after in this document. *)
Definition names (o : Op) : option TaskId * option TaskId :=
  match op_kind o with
  | KInsert _ after _ => (None, after)
  | KMove task after to_file => (Some task, if bool_decide (to_file = op_file o) then after else None)
  | KSetField task _ _ | KEditText task _ | KRemoveTag task _ => (Some task, None)
  | KBlankInsert after | KBlankRemove after => (None, after)
  | KNotesEdit _ _ => (None, None)
  end.

(** [names(op).into_iter().flatten()]. *)
Definition names_list (o : Op) : list TaskId := option_list (fst (names o)) ++ option_list (snd (names o)).

(** The task an op places or changes. *)
Definition subject (k : OpKind) : option TaskId :=
  match k with
  | KInsert task _ _ | KSetField task _ _ | KEditText task _ | KRemoveTag task _ | KMove task _ _ => Some task
  | KNotesEdit _ _ | KBlankInsert _ | KBlankRemove _ => None
  end.

Definition first_name (o : Op) : TaskId :=
  match names o with (Some t, _) => t | (None, Some t) => t | (None, None) => 0%N end.

(** Whether a failed op may fit later. *)
Definition waits (st : DocState) (e : StateError) : bool :=
  match e with UnknownTask id => negb (has_placement st id) | TextError _ _ => true | _ => false end.

(** Whether some op of a group names a task neither here nor inserted by the group. *)
Definition needs_a_missing_task (st : DocState) (group : list Op) : bool :=
  let inserted := omap (λ o, match op_kind o with KInsert task _ _ => Some task | _ => None end) group in
  let missing := λ id, negb (bool_decide (id ∈ inserted)) && negb (has_placement st id) in
  existsb (λ o, existsb missing (names_list o)) group.

(** ** Its operations *)

(** [entry(task).or_default().insert(n)] and the removal that drops an emptied set. *)
Definition index_add {K} `{Countable K} (n : N) (m : gmap K (gset N)) (k : K) : gmap K (gset N) :=
  <[k := {[n]} ∪ default ∅ (m !! k)]> m.
Definition index_remove {K} `{Countable K} (n : N) (m : gmap K (gset N)) (k : K) : gmap K (gset N) :=
  match m !! k with
  | Some g => if bool_decide (g ∖ {[n]} = ∅) then delete k m else <[k := g ∖ {[n]}]> m
  | None => m
  end.

Definition put (p : Parked) (n : N) (o : Op) (e : StateError) : Parked :=
  mkParked (<[n := (o, e)]> (pk_ops p)) (pk_next p) (foldl (index_add n) (by_task p) (names_list o))
    (index_add n (by_stamp p) (op_hlc o)) (pk_whole p).

Definition take_op (p : Parked) (n : N) : Parked * option (Op * StateError) :=
  match pk_ops p !! n with
  | None => (p, None)
  | Some (o, e) =>
      let stamps' := index_remove n (by_stamp p) (op_hlc o) in
      let whole' := if bool_decide (is_Some (by_stamp p !! op_hlc o) ∧ stamps' !! op_hlc o = None)
                    then pk_whole p ∖ {[op_hlc o]} else pk_whole p in
      (mkParked (delete n (pk_ops p)) (pk_next p) (foldl (index_remove n) (by_task p) (names_list o)) stamps' whole',
       Some (o, e))
  end.

(** The numbers of a set in order. *)
Definition in_order (s : gset N) : list N := stable_sort N.leb (elements s).
(** [range(pos..).next()]. *)
Definition least_from (pos : N) (s : gset N) : option N := head (List.filter (λ n, (pos <=? n)%N) (in_order s)).

(** Waits an op last; past the bound the oldest is skipped. *)
Definition push (p : Parked) (o : Op) (e : StateError) (out : Parking) : Parked * Parking :=
  let n := (pk_next p + 1)%N in
  let p := put (mkParked (pk_ops p) n (by_task p) (by_stamp p) (pk_whole p)) n o e in
  if MAX_PARKED_OPS <? size (pk_ops p) then
    match head (in_order (dom (pk_ops p))) with
    | Some oldest =>
        match take_op p oldest with
        | (p', Some dropped) => (p', skip out dropped)
        | (p', None) => (p', out)
        end
    | None => (p, out)
    end
  else (p, out).

(** The waiting ops that name one of some tasks. *)
Definition naming (p : Parked) (tasks : list TaskId) : gset N := ⋃ (omap (λ t, by_task p !! t) tasks).

(** The numbers waiting with the stamp of a waiting op, in arrival order. *)
Definition group_of (p : Parked) (n : N) : list N :=
  match pk_ops p !! n with
  | None => []
  | Some (o, _) => in_order (default ∅ (by_stamp p !! op_hlc o))
  end.

Definition waits_whole (p : Parked) (h : Hlc) : bool := bool_decide (h ∈ pk_whole p).

Definition failed_id (failed : list (Op * StateError)) (o : Op) : bool :=
  existsb (λ f, (op_id (fst f) =? op_id o)%N) failed.

(** ** Retrying *)

(** One failed op of a retried group: back at its number if it may fit later, else skipped. *)
Definition put_back (st : DocState) (ops : list (N * Op)) (po : Parked * Parking) (f : Op * StateError) : Parked * Parking :=
  let '(p, out) := po in
  match find (λ no, (op_id (snd no) =? op_id (fst f))%N) ops with
  | Some (n, _) => if waits st (snd f) then (put p n (fst f) (snd f), out) else (p, skip out f)
  | None => (p, skip out f)
  end.

(** One waiting group: left alone when it still names a missing task, else applied; the tasks its landed
    ops touched. *)
Definition retry_group (st : DocState) (p : Parked) (group : list N) (out : Parking)
    : DocState * Parked * Parking * list TaskId :=
  let ops := omap (λ n, match pk_ops p !! n with Some (o, _) => Some (n, o) | None => None end) group in
  let bare := map snd ops in
  if needs_a_missing_task st bare then (st, p, out, [])
  else
    let p := foldl (λ p n, fst (take_op p n)) p group in
    let p := match bare with
             | o :: _ => mkParked (pk_ops p) (pk_next p) (by_task p) (by_stamp p) (pk_whole p ∖ {[op_hlc o]})
             | [] => p
             end in
    let '(st, failed) := apply_leniently st bare in
    let landed := List.filter (λ o, negb (failed_id failed o)) bare in
    let out := mkParking (pk_skipped out) (pk_landed out + length landed) in
    let '(p, out) := foldl (put_back st ops) (p, out) failed in
    (st, p, out, omap (λ o, subject (op_kind o)) landed).

(** The inner loop over one round, in order of arrival from [pos] on; [None] when the fuel ends. *)
Fixpoint retry_round (fuel : nat) (st : DocState) (p : Parked) (out : Parking) (round later : gset N) (pos : N)
    : option (DocState * Parked * Parking * gset N) :=
  match least_from pos round with
  | None => Some (st, p, out, later)
  | Some n =>
      match fuel with
      | 0 => None
      | S fuel' =>
          let group := group_of p n in
          let pos := (n + 1)%N in
          let round := round ∖ list_to_set group in
          let '(st, p, out, touched) := retry_group st p group out in
          let ready := naming p touched in
          retry_round fuel' st p out (round ∪ filter (λ k, (pos <= k)%N) ready) (later ∪ filter (λ k, (k < pos)%N) ready) pos
      end
  end.

(** The outer loop: each further round follows a landing. *)
Fixpoint retry_rounds (fuel : nat) (st : DocState) (p : Parked) (out : Parking) (round : gset N)
    : option (DocState * Parked * Parking) :=
  if bool_decide (round = ∅) then Some (st, p, out)
  else
    match fuel with
    | 0 => None
    | S fuel' =>
        r ← retry_round (size (round ∪ dom (pk_ops p))) st p out round ∅ 0;
        let '(st, p, out, later) := r in retry_rounds fuel' st p out later
    end.

Definition retry (st : DocState) (p : Parked) (touched : list TaskId) (out : Parking) : option (DocState * Parked * Parking) :=
  retry_rounds (S (size (pk_ops p))) st p out (naming p touched).

(** ** Applying a batch *)

(** A group that waits whole. *)
Definition park_group (p : Parked) (out : Parking) (group : list Op) : Parked * Parking :=
  foldl (λ po o,
    let p := fst po in
    push (mkParked (pk_ops p) (pk_next p) (by_task p) (by_stamp p) ({[op_hlc o]} ∪ pk_whole p)) o
      (UnknownTask (first_name o)) (snd po)) (p, out) group.

Definition park_failed (st : DocState) (po : Parked * Parking) (f : Op * StateError) : Parked * Parking :=
  if waits st (snd f) then push (fst po) (fst f) (snd f) (snd po) else (fst po, skip (snd po) f).

Definition apply_group_parking (st : DocState) (p : Parked) (out : Parking) (group : list Op)
    : option (DocState * Parked * Parking) :=
  let joins := match group with o :: _ => waits_whole p (op_hlc o) | [] => false end in
  if joins || needs_a_missing_task st group then
    let '(p, out) := park_group p out group in Some (st, p, out)
  else
    let '(st, failed) := apply_leniently st group in
    let touched := omap (λ o, subject (op_kind o)) (List.filter (λ o, negb (failed_id failed o)) group) in
    let '(p, out) := foldl (park_failed st) (p, out) failed in
    if bool_decide (touched = []) then Some (st, p, out) else retry st p touched out.

Fixpoint apply_groups (st : DocState) (p : Parked) (out : Parking) (groups : list (list Op))
    : option (DocState * Parked * Parking) :=
  match groups with
  | [] => Some (st, p, out)
  | g :: groups' => r ← apply_group_parking st p out g; let '(st, p, out) := r in apply_groups st p out groups'
  end.

Definition apply_parking (st : DocState) (ops : list Op) (p : Parked) : option (DocState * Parked * Parking) :=
  apply_groups st p Parking_default (chunk_by_stamp ops).

(** ** Samples *)

(** A commit that moves a line its author got from a third device: it waits whole, and lands as it did on
    its author. *)
Definition park_one : Op := op_at 10 1 (KInsert 1 None (str "one")).
Definition park_three : Op := mkOp 1 (hlc_at 11 1) (PUser 1) todo_path (KInsert 3 (Some 1%N) (str "three")).
Definition park_two : Op := mkOp 2 (hlc_at 20 3) (PUser 3) todo_path (KInsert 2 (Some 1%N) (str "two")).
Definition park_moves : list Op :=
  [mkOp 3 (hlc_at 30 1) (PUser 1) todo_path (KMove 1 (Some 3%N) todo_path);
   mkOp 4 (hlc_at 30 1) (PUser 1) todo_path (KMove 2 None todo_path)].

(** The batches one after the other: the text shown and how many ops wait. *)
Fixpoint deliver (st : DocState) (p : Parked) (batches : list (list Op)) : option (bytes * nat) :=
  match batches with
  | [] => Some (doc_to_bytes st, size (pk_ops p))
  | b :: bs => r ← apply_parking st b p; deliver (fst (fst r)) (snd (fst r)) bs
  end.

Definition deliver_new (batches : list (list Op)) : option (bytes * nat) :=
  st ← doc_of []; deliver st Parked_default batches.

Example park_sample :
  deliver_new [[park_one]; [park_three]; park_moves] = Some (str "one" ++ [x0a] ++ str "three" ++ [x0a], 2)
  ∧ deliver_new [[park_one]; [park_three]; park_moves; [park_two]] = deliver_new [[park_one]; [park_three]; [park_two]; park_moves]
  ∧ deliver_new [[park_one]; [park_three]; park_moves; [park_two]]
    = Some (str "two" ++ [x0a] ++ str "three" ++ [x0a] ++ str "one" ++ [x0a], 0).
Proof. vm_compute. done. Qed.

(** ** Indexes *)

Section index.
Context {K : Type} `{Countable K}.
Implicit Types (m : gmap K (gset N)) (k : K) (n : N).

(** The numbers an index holds under a key. *)
Definition held m k : gset N := default ∅ (m !! k).

(** No set of an index is empty. *)
Definition tidy m : Prop := ∀ k g, m !! k = Some g → g ≠ ∅.

Lemma held_add m k n k' n' : n' ∈ held (index_add n m k) k' ↔ (n' = n ∧ k' = k) ∨ n' ∈ held m k'.
Proof.
  unfold held, index_add. destruct (decide (k' = k)) as [->|Hne].
  - rewrite lookup_insert_eq. cbn [default from_option id]. rewrite elem_of_union, elem_of_singleton. naive_solver.
  - rewrite lookup_insert_ne by done. naive_solver.
Qed.

Lemma held_remove m k n k' n' : n' ∈ held (index_remove n m k) k' ↔ n' ∈ held m k' ∧ ¬ (n' = n ∧ k' = k).
Proof.
  unfold held, index_remove. destruct (m !! k) as [g|] eqn:E.
  - destruct (decide (k' = k)) as [->|Hne].
    + rewrite E. cbn [default from_option id]. case_bool_decide as Hg.
      * rewrite lookup_delete_eq. cbn [default from_option id]. set_solver.
      * rewrite lookup_insert_eq. cbn [default from_option id]. set_solver.
    + case_bool_decide; [rewrite lookup_delete_ne by done|rewrite lookup_insert_ne by done]; naive_solver.
  - split; [|by intros [? _]]. intros Hn. split; [done|]. intros [-> ->]. rewrite E in Hn. cbn in Hn. set_solver.
Qed.

Lemma tidy_add m k n : tidy m → tidy (index_add n m k).
Proof.
  intros Ht k' g. unfold index_add. destruct (decide (k' = k)) as [->|Hne].
  - rewrite lookup_insert_eq. intros [= <-]. set_solver.
  - rewrite lookup_insert_ne by done. apply Ht.
Qed.

Lemma tidy_remove m k n : tidy m → tidy (index_remove n m k).
Proof.
  intros Ht. unfold index_remove. destruct (m !! k) as [g|] eqn:E; [|done]. intros k' g'. case_bool_decide as Hg.
  - rewrite lookup_delete_Some. intros [_ ?]. by eapply Ht.
  - destruct (decide (k' = k)) as [->|Hne]; [rewrite lookup_insert_eq; by intros [= <-]|].
    rewrite lookup_insert_ne by done. apply Ht.
Qed.

Lemma held_add_all m ks n k' n' : n' ∈ held (foldl (index_add n) m ks) k' ↔ (n' = n ∧ k' ∈ ks) ∨ n' ∈ held m k'.
Proof.
  revert m. induction ks as [|k ks IH]; intros m; cbn [foldl]; [set_solver|].
  rewrite IH, held_add, elem_of_cons. naive_solver.
Qed.

Lemma held_remove_all m ks n k' n' : n' ∈ held (foldl (index_remove n) m ks) k' ↔ n' ∈ held m k' ∧ ¬ (n' = n ∧ k' ∈ ks).
Proof.
  revert m. induction ks as [|k ks IH]; intros m; cbn [foldl]; [set_solver|].
  rewrite IH, held_remove, elem_of_cons. naive_solver.
Qed.

Lemma tidy_add_all m ks n : tidy m → tidy (foldl (index_add n) m ks).
Proof. revert m. induction ks as [|k ks IH]; intros m Ht; cbn [foldl]; [done|]. by apply IH, tidy_add. Qed.

Lemma tidy_remove_all m ks n : tidy m → tidy (foldl (index_remove n) m ks).
Proof. revert m. induction ks as [|k ks IH]; intros m Ht; cbn [foldl]; [done|]. by apply IH, tidy_remove. Qed.

Lemma held_lookup m k : tidy m → (is_Some (m !! k) ↔ ∃ n, n ∈ held m k).
Proof.
  intros Ht. unfold held. destruct (m !! k) as [g|] eqn:E; cbn.
  - split; [intros _|by eexists]. apply set_choose_L. by eapply Ht.
  - split; [by intros [? ?]|]. intros [n Hn]. set_solver.
Qed.
End index.

(** ** The queue's invariant *)

(** Every index says exactly what the queue says, numbers are not above the last given, and a stamp
    marked whole has an op waiting. *)
Record parked_wf (p : Parked) : Prop := mkParkedWf {
  pw_task : ∀ t n, n ∈ held (by_task p) t ↔ ∃ o e, pk_ops p !! n = Some (o, e) ∧ t ∈ names_list o;
  pw_stamp : ∀ h n, n ∈ held (by_stamp p) h ↔ ∃ o e, pk_ops p !! n = Some (o, e) ∧ op_hlc o = h;
  pw_task_tidy : tidy (by_task p);
  pw_stamp_tidy : tidy (by_stamp p);
  pw_next : ∀ n, is_Some (pk_ops p !! n) → (n <= pk_next p)%N;
  pw_whole : ∀ h, h ∈ pk_whole p → is_Some (by_stamp p !! h)
}.

Lemma parked_default_wf : parked_wf Parked_default.
Proof.
  split; cbn [by_task by_stamp pk_ops pk_next pk_whole Parked_default].
  - intros t n. unfold held. rewrite lookup_empty. cbn. setoid_rewrite lookup_empty. set_solver.
  - intros t n. unfold held. rewrite lookup_empty. cbn. setoid_rewrite lookup_empty. set_solver.
  - intros k g. by rewrite lookup_empty.
  - intros k g. by rewrite lookup_empty.
  - intros n. rewrite lookup_empty. by intros [? ?].
  - set_solver.
Qed.

(** Waiting an op at a free number, the last number given and the whole marks changed with it. *)
Lemma put_wf_with p n o e next W :
  parked_wf p → pk_ops p !! n = None → (pk_next p <= next)%N → (n <= next)%N →
  (∀ h, h ∈ W → h = op_hlc o ∨ h ∈ pk_whole p) →
  parked_wf (put (mkParked (pk_ops p) next (by_task p) (by_stamp p) W) n o e).
Proof.
  intros [Ht Hs Htt Hst Hn Hw] Hno Hnx Hle HW. unfold put. split; cbn [by_task by_stamp pk_ops pk_next pk_whole].
  - intros t k. rewrite held_add_all, Ht. destruct (decide (k = n)) as [->|Hne].
    + rewrite lookup_insert_eq. setoid_rewrite Hno. naive_solver.
    + rewrite lookup_insert_ne by done. naive_solver.
  - intros h k. rewrite held_add, Hs. destruct (decide (k = n)) as [->|Hne].
    + rewrite lookup_insert_eq. setoid_rewrite Hno. naive_solver.
    + rewrite lookup_insert_ne by done. naive_solver.
  - by apply tidy_add_all.
  - by apply tidy_add.
  - intros k. destruct (decide (k = n)) as [->|Hne]; [done|]. rewrite lookup_insert_ne by done. intros Hk%Hn. lia.
  - intros h Hh. unfold index_add. destruct (decide (h = op_hlc o)) as [->|Hne].
    + rewrite lookup_insert_eq. by eexists.
    + rewrite lookup_insert_ne by done. destruct (HW h Hh) as [?|?]; [done|by apply Hw].
Qed.

Lemma put_wf p n o e : parked_wf p → pk_ops p !! n = None → (n <= pk_next p)%N → parked_wf (put p n o e).
Proof.
  intros Hp Hno Hle. destruct p as [ops next bt bs W].
  apply (put_wf_with (mkParked ops next bt bs W) n o e next W Hp Hno); [done|done|by right].
Qed.

Lemma take_op_wf p n : parked_wf p → parked_wf (fst (take_op p n)).
Proof.
  intros Hwf. unfold take_op. destruct (pk_ops p !! n) as [[o e]|] eqn:E; [|done]. cbn [fst].
  destruct Hwf as [Ht Hs Htt Hst Hn Hw]. split; cbn [by_task by_stamp pk_ops pk_next pk_whole].
  - intros t k. rewrite held_remove_all, Ht. destruct (decide (k = n)) as [->|Hne].
    + rewrite lookup_delete_eq, E. naive_solver.
    + rewrite lookup_delete_ne by done. naive_solver.
  - intros h k. rewrite held_remove, Hs. destruct (decide (k = n)) as [->|Hne].
    + rewrite lookup_delete_eq, E. naive_solver.
    + rewrite lookup_delete_ne by done. naive_solver.
  - by apply tidy_remove_all.
  - by apply tidy_remove.
  - intros k. destruct (decide (k = n)) as [->|Hne]; [rewrite lookup_delete_eq; by intros [? ?]|].
    rewrite lookup_delete_ne by done. apply Hn.
  - intros h Hh. assert (h ∈ pk_whole p ∧ (h = op_hlc o → is_Some (index_remove n (by_stamp p) (op_hlc o) !! op_hlc o))) as [Hp Hs'].
    { case_bool_decide as Hb; [set_solver|]. split; [done|]. intros ->. destruct (index_remove _ _ _ !! _) eqn:Ei; [by eexists|].
      destruct Hb. split; [by apply Hw|done]. }
    clear Hh. destruct (decide (h = op_hlc o)) as [->|Hne]; [by apply Hs'|]. specialize (Hw h Hp). unfold index_remove.
    destruct (by_stamp p !! op_hlc o); [|done]. case_bool_decide; [by rewrite lookup_delete_ne|by rewrite lookup_insert_ne].
Qed.

(** ** What waits *)

(** The waiting ops. *)
Definition waiting (p : Parked) : list Op := map (λ nd, fst (snd nd)) (map_to_list (pk_ops p)).

(** No two waiting ops are one op. *)
Definition ids_distinct (p : Parked) : Prop := NoDup (map op_id (waiting p)).

Lemma waiting_elem p o : o ∈ waiting p ↔ ∃ n e, pk_ops p !! n = Some (o, e).
Proof.
  unfold waiting. rewrite list_elem_of_fmap. split.
  - intros ([n [o' e]] & -> & H%elem_of_map_to_list). cbn. by exists n, e.
  - intros (n & e & H). exists (n, (o, e)). split; [done|]. by apply elem_of_map_to_list.
Qed.

Lemma waiting_length p : length (waiting p) = size (pk_ops p).
Proof. unfold waiting. by rewrite length_map, length_map_to_list. Qed.

Lemma waiting_put p n o e : pk_ops p !! n = None → waiting (put p n o e) ≡ₚ o :: waiting p.
Proof.
  intros Hn. unfold waiting, put. cbn [pk_ops].
  rewrite (Permutation_map _ (map_to_list_insert (pk_ops p) n (o, e) Hn)). done.
Qed.

Lemma take_op_ops p n : pk_ops (fst (take_op p n)) = delete n (pk_ops p).
Proof.
  unfold take_op. destruct (pk_ops p !! n) as [[o e]|] eqn:E; [done|]. cbn. by rewrite delete_id.
Qed.

Lemma take_op_next p n : pk_next (fst (take_op p n)) = pk_next p.
Proof. unfold take_op. by destruct (pk_ops p !! n) as [[o e]|]. Qed.

Lemma waiting_take p n o e : pk_ops p !! n = Some (o, e) → waiting p ≡ₚ o :: waiting (fst (take_op p n)).
Proof.
  intros H. unfold waiting. rewrite take_op_ops.
  rewrite <- (Permutation_map (λ nd : N * (Op * StateError), fst (snd nd)) (map_to_list_delete (pk_ops p) n (o, e) H)). done.
Qed.

(** The ops of a list of numbers. *)
Definition numbered (p : Parked) (group : list N) : list (N * Op) :=
  omap (λ n, match pk_ops p !! n with Some (o, _) => Some (n, o) | None => None end) group.

Definition take_all (p : Parked) (group : list N) : Parked := foldl (λ p n, fst (take_op p n)) p group.

Lemma take_all_wf p group : parked_wf p → parked_wf (take_all p group).
Proof. unfold take_all. revert p. induction group as [|n g IH]; intros p Hp; cbn; [done|]. by apply IH, take_op_wf. Qed.

Lemma take_all_ops p group n : pk_ops (take_all p group) !! n = if bool_decide (n ∈ group) then None else pk_ops p !! n.
Proof.
  unfold take_all. revert p. induction group as [|k g IH]; intros p; cbn [foldl]; [by rewrite bool_decide_eq_false_2 by set_solver|].
  rewrite IH, take_op_ops. destruct (decide (n = k)) as [->|Hne].
  - rewrite lookup_delete_eq, (bool_decide_eq_true_2 (k ∈ k :: g)) by set_solver. by case_bool_decide.
  - rewrite lookup_delete_ne by done. rewrite (bool_decide_ext (n ∈ k :: g) (n ∈ g)) by set_solver. done.
Qed.

Lemma take_all_next p group : pk_next (take_all p group) = pk_next p.
Proof. unfold take_all. revert p. induction group as [|n g IH]; intros p; cbn; [done|]. by rewrite IH, take_op_next. Qed.

Lemma numbered_elem p group n o : (n, o) ∈ numbered p group ↔ n ∈ group ∧ ∃ e, pk_ops p !! n = Some (o, e).
Proof.
  unfold numbered. rewrite list_elem_of_omap. split.
  - intros (k & Hk & H). destruct (pk_ops p !! k) as [[o' e]|] eqn:E; [|done]. injection H as -> ->. by split; [|exists e].
  - intros (Hn & e & E). exists n. by rewrite E.
Qed.

Lemma waiting_take_all p group : NoDup group → waiting p ≡ₚ map snd (numbered p group) ++ waiting (take_all p group).
Proof.
  revert p. induction group as [|n g IH]; intros p Hd; [done|]. apply NoDup_cons in Hd as [Hn Hd].
  assert (numbered p g = numbered (fst (take_op p n)) g) as Hnum.
  { unfold numbered. rewrite take_op_ops. clear -Hn. induction g as [|k g IH]; [done|]. apply not_elem_of_cons in Hn as [Hk Hn]. cbn.
    rewrite lookup_delete_ne by done. by rewrite IH. }
  unfold numbered at 1. cbn [omap list_omap]. fold (numbered p g). change (take_all p (n :: g)) with (take_all (fst (take_op p n)) g).
  rewrite Hnum. destruct (pk_ops p !! n) as [[o e]|] eqn:E.
  - cbn [map snd app]. rewrite (waiting_take p n o e E). by rewrite <- IH.
  - rewrite <- IH by done. unfold take_op. by rewrite E.
Qed.

Lemma numbered_nodup p group : NoDup group → NoDup (map fst (numbered p group)).
Proof.
  intros Hd. eapply sublist_NoDup; [exact Hd|]. unfold numbered. clear. induction group as [|n g IH]; cbn; [done|].
  destruct (pk_ops p !! n) as [[o e]|]; cbn; [by apply sublist_skip|by apply sublist_cons].
Qed.

(** ** One group *)

Lemma failed_split failed (bare : list Op) :
  NoDup (map op_id bare) → sublist (map fst failed) bare →
  bare ≡ₚ map fst failed ++ List.filter (λ o, negb (failed_id failed o)) bare.
Proof.
  intros Hd Hs. assert (∀ o, failed_id failed o = existsb (λ f, (op_id f =? op_id o)%N) (map fst failed)) as Hf.
  { intros o. unfold failed_id. clear. induction failed as [|f l IH]; cbn; [done|]. by rewrite IH. }
  assert (List.filter (λ o, negb (failed_id failed o)) bare
          = List.filter (λ o, negb (existsb (λ f, (op_id f =? op_id o)%N) (map fst failed))) bare) as ->.
  { apply List.filter_ext. intros o. by rewrite Hf. }
  clear Hf. generalize dependent (map fst failed). clear failed. intros fl Hs.
  induction Hs as [|x fl bare Hs IH|x fl bare Hs IH]; [done| |]; cbn [map] in Hd; apply NoDup_cons in Hd as [Hx Hd].
  - cbn [List.filter existsb app]. rewrite N.eqb_refl. cbn [orb negb]. constructor. rewrite (IH Hd) at 1. f_equiv.
    apply reflexive_eq, filter_ext_in. intros o Ho. f_equal. assert ((op_id x =? op_id o)%N = false) as ->; [|done].
    apply N.eqb_neq. intros E. apply Hx. rewrite E. by apply list_elem_of_In, in_map.
  - cbn [List.filter]. assert (existsb (λ f, (op_id f =? op_id x)%N) fl = false) as ->.
    { apply not_true_iff_false. intros (f & Hf & E%N.eqb_eq)%existsb_exists. apply Hx. rewrite <- E.
      apply list_elem_of_fmap_2. eapply elem_of_sublist; [|exact Hs]. by apply list_elem_of_In. }
    cbn [negb]. rewrite <- Permutation_middle. constructor. by apply IH.
Qed.

Lemma find_numbered (ops : list (N * Op)) n o :
  NoDup (map op_id (map snd ops)) → (n, o) ∈ ops → find (λ no, (op_id (snd no) =? op_id o)%N) ops = Some (n, o).
Proof.
  induction ops as [|[k x] ops IH]; intros Hd Hin; [by apply elem_of_nil in Hin|]. cbn [map fst snd] in Hd.
  apply NoDup_cons in Hd as [Hx Hd]. cbn [find snd]. apply elem_of_cons in Hin as [[= -> ->]|Hin]; [by rewrite N.eqb_refl|].
  assert ((op_id x =? op_id o)%N = false) as ->; [|by apply IH]. apply N.eqb_neq. intros E. apply Hx. rewrite E.
  apply list_elem_of_fmap_2, list_elem_of_fmap. by exists (n, o).
Qed.

Lemma numbered_unique (ops : list (N * Op)) n o o' : NoDup (map fst ops) → (n, o) ∈ ops → (n, o') ∈ ops → o = o'.
Proof.
  induction ops as [|[k x] ops IH]; intros Hd H1 H2; [by apply elem_of_nil in H1|]. cbn [map fst] in Hd.
  apply NoDup_cons in Hd as [Hk Hd].
  assert (∀ y, (k, y) ∉ ops) as Hno by (intros y Hy; apply Hk, list_elem_of_fmap; by exists (k, y)).
  apply elem_of_cons in H1 as [E1|H1]; apply elem_of_cons in H2 as [E2|H2]; simplify_eq; try done.
  - by apply Hno in H2.
  - by apply Hno in H1.
  - by apply IH.
Qed.

(** Putting a group's failures back. *)
Record put_back_ok (st : DocState) (ops : list (N * Op)) (failed : list (Op * StateError)) (p : Parked) (out : Parking)
    (p' : Parked) (out' : Parking) : Prop := mkPutBackOk {
  pb_wf : parked_wf p';
  pb_next : pk_next p' = pk_next p;
  pb_whole : pk_whole p' = pk_whole p;
  pb_landed : pk_landed out' = pk_landed out;
  pb_kept : ∃ more, pk_skipped out' = pk_skipped out ++ more ∧ waiting p' ++ map fst more ≡ₚ map fst failed ++ waiting p;
  pb_dom : ∀ n o e, pk_ops p' !! n = Some (o, e) → pk_ops p !! n = Some (o, e) ∨ (n, o) ∈ ops ∧ (o, e) ∈ failed ∧ waits st e = true
}.

Lemma put_back_spec st ops failed p out :
  parked_wf p → NoDup (map fst ops) → NoDup (map op_id (map snd ops)) → NoDup (map op_id (map fst failed)) →
  (∀ o, o ∈ map fst failed → ∃ n, (n, o) ∈ ops ∧ pk_ops p !! n = None ∧ (n <= pk_next p)%N) →
  let '(p', out') := foldl (put_back st ops) (p, out) failed in put_back_ok st ops failed p out p' out'.
Proof.
  intros Hp Hn Hd. revert p out Hp. induction failed as [|[o e] failed IH]; intros p out Hp Hdf Hin.
  - cbn. split; auto. exists []. by rewrite !app_nil_r.
  - cbn [map fst] in Hdf, Hin. apply NoDup_cons in Hdf as [Ho Hdf]. cbn [foldl put_back fst snd].
    destruct (Hin o) as (n & Hno & Hnone & Hle); [by left|]. rewrite (find_numbered ops n o Hd Hno).
    assert (∀ o', o' ∈ map fst failed → ∃ n', (n', o') ∈ ops ∧ pk_ops p !! n' = None ∧ (n' <= pk_next p)%N ∧ n' ≠ n) as Hrest.
    { intros o' Ho'. destruct (Hin o') as (n' & H1 & H2 & H3); [by right|]. exists n'. split_and!; try done. intros ->.
      apply Ho. assert (o = o') as ->; [|by apply list_elem_of_fmap_2].
      by eapply numbered_unique. }
    destruct (waits st e) eqn:Ew.
    + assert (∀ o', o' ∈ map fst failed → ∃ n', (n', o') ∈ ops ∧ pk_ops (put p n o e) !! n' = None ∧ (n' <= pk_next (put p n o e))%N) as Hin'.
      { intros o' Ho'. destruct (Hrest o' Ho') as (n' & ? & ? & ? & ?). exists n'. split_and!; try done. cbn. by rewrite lookup_insert_ne. }
      specialize (IH _ out (put_wf p n o e Hp Hnone Hle) Hdf Hin'). destruct (foldl _ _ _) as [p' out'].
      destruct IH as [H1 H2 H2w H3 H4 H5]. split; [done|done|done|done| |].
      * destruct H4 as (more & E & H4). exists more. split; [done|]. rewrite H4, (waiting_put p n o e Hnone).
        cbn [map fst app]. by rewrite <- Permutation_middle.
      * intros k o' e' Hk. apply H5 in Hk as [Hk|(? & ? & ?)]; [|right; split_and!; try done; by right].
        cbn in Hk. apply lookup_insert_Some in Hk as [[<- [= <- <-]]|[_ Hk]]; [|by left]. right. split_and!; [done|by left|done].
    + assert (∀ o', o' ∈ map fst failed → ∃ n', (n', o') ∈ ops ∧ pk_ops p !! n' = None ∧ (n' <= pk_next p)%N) as Hin'.
      { intros o' Ho'. destruct (Hrest o' Ho') as (n' & ? & ? & ? & ?). by exists n'. }
      specialize (IH p (skip out (o, e)) Hp Hdf Hin'). destruct (foldl _ _ _) as [p' out'].
      destruct IH as [H1 H2 H2w H3 H4 H5]. split; [done|done|done|done| |].
      * destruct H4 as (more & E & H4). exists ((o, e) :: more). split; [by rewrite E; cbn; rewrite <- app_assoc|].
        cbn [map fst app]. by rewrite <- Permutation_middle, H4.
      * intros k o' e' Hk. apply H5 in Hk as [Hk|(? & ? & ?)]; [by left|]. right. split_and!; try done. by right.
Qed.

(** What trying a group does: nothing is lost or doubled, the numbers are kept, and the document is the one
    the landed ops made. *)
Record group_tried (st st' : DocState) (p p' : Parked) (out out' : Parking) (landed : list Op) : Prop := mkGroupTried {
  gt_did : ∃ applied, attempts st applied st' ∧ applied ≡ₚ landed;
  gt_wf : parked_wf p';
  gt_next : pk_next p' = pk_next p;
  gt_landed : pk_landed out' = pk_landed out + length landed;
  gt_kept : ∃ more, pk_skipped out' = pk_skipped out ++ more ∧ waiting p' ++ map fst more ++ landed ≡ₚ waiting p;
  gt_dom : dom (pk_ops p') ⊆ dom (pk_ops p)
}.

Lemma ids_distinct_kept p p' more landed :
  waiting p' ++ more ++ landed ≡ₚ waiting p → ids_distinct p → ids_distinct p'.
Proof.
  unfold ids_distinct. intros Hk Hd. rewrite <- Hk, map_app in Hd. by apply NoDup_app in Hd as [? _].
Qed.

Lemma drop_whole_wf p h :
  parked_wf p → parked_wf (mkParked (pk_ops p) (pk_next p) (by_task p) (by_stamp p) (pk_whole p ∖ {[h]})).
Proof. intros [H1 H2 H3 H4 H5 H6]. split; try done. cbn. intros k Hk. apply H6. set_solver. Qed.

Lemma retry_group_spec st p group out :
  parked_wf p → ids_distinct p → NoDup group →
  let '(st', p', out', touched) := retry_group st p group out in
  ∃ landed, touched = omap (λ o, subject (op_kind o)) landed ∧ group_tried st st' p p' out out' landed
    ∧ (needs_a_missing_task st (map snd (numbered p group)) = true → st' = st ∧ p' = p ∧ out' = out ∧ landed = []).
Proof.
  intros Hp Hd Hg. unfold retry_group. fold (numbered p group). set (bare := map snd (numbered p group)).
  destruct (needs_a_missing_task st bare) eqn:Em.
  { exists []. split_and!; [done| |done].
    split; [exists []; split; [constructor|done]|done|done|cbn; lia|exists []; split; [by rewrite app_nil_r|by rewrite !app_nil_r]|done]. }
  fold (take_all p group). pose proof (waiting_take_all p group Hg) as Hw. fold bare in Hw.
  set (p1 := match bare with o :: _ => _ | [] => _ end).
  assert (parked_wf p1 ∧ pk_ops p1 = pk_ops (take_all p group) ∧ pk_next p1 = pk_next p) as (Hp1 & Ho1 & Hn1).
  { pose proof (take_all_wf p group Hp) as Hwf. pose proof (take_all_next p group) as Hnx. subst p1.
    destruct bare; [done|]. split_and!; [by apply drop_whole_wf|done|done]. }
  clearbody p1. assert (waiting p1 = waiting (take_all p group)) as Hw1 by (unfold waiting; by rewrite Ho1).
  destruct (apply_leniently st bare) as [st' failed] eqn:El.
  pose proof (apply_leniently_sublist st bare) as Hsub. rewrite El in Hsub. cbn [snd] in Hsub.
  destruct (apply_leniently_attempts st bare) as (applied & Hatt & Hap). rewrite El in Hatt, Hap. cbn [fst snd] in Hatt, Hap.
  set (landed := List.filter (λ o, negb (failed_id failed o)) bare).
  assert (NoDup (map op_id bare)) as Hdb.
  { unfold ids_distinct in Hd. rewrite Hw, map_app in Hd. by apply NoDup_app in Hd as [? _]. }
  pose proof (failed_split failed bare Hdb Hsub) as Hsplit. fold landed in Hsplit.
  assert (NoDup (map op_id (map fst failed))) as Hdf.
  { rewrite Hsplit, map_app in Hdb. by apply NoDup_app in Hdb as [? _]. }
  pose proof (put_back_spec st' (numbered p group) failed p1 (mkParking (pk_skipped out) (pk_landed out + length landed))
    Hp1 (numbered_nodup p group Hg) Hdb Hdf) as Hpb.
  destruct (foldl _ _ _) as [p2 out2]. destruct Hpb as [H1 H2 _ H3 H4 H5].
  { intros o Ho. assert (o ∈ bare) as Hob by (eapply elem_of_sublist; [exact Ho|done]).
    apply list_elem_of_fmap in Hob as ([n o'] & -> & Hin). exists n. split; [done|].
    apply numbered_elem in Hin as [Hn (e & He)]. rewrite Ho1, take_all_ops, bool_decide_eq_true_2, Hn1 by done.
    split; [done|]. apply (pw_next _ Hp). rewrite He. by eexists. }
  exists landed. split_and!; [done| |done]. split; [|done|by rewrite H2|done| |].
  - exists applied. split; [done|]. apply (Permutation_app_inv_l (map fst failed)).
    by rewrite <- Hsplit, Permutation_app_comm.
  - destruct H4 as (more & E & H4). exists more. split; [done|]. rewrite Hw, app_assoc, H4, Hw1, Hsplit.
    rewrite (Permutation_app_comm _ landed), <- !app_assoc. rewrite !app_assoc. f_equiv. apply Permutation_app_comm.
  - intros n Hn. apply elem_of_dom in Hn as [[o e] Hn]. apply elem_of_dom. apply H5 in Hn as [Hn|(Hn & _)].
    + rewrite Ho1, take_all_ops in Hn. case_bool_decide; [done|]. rewrite Hn. by eexists.
    + apply numbered_elem in Hn as (_ & e' & Hn). rewrite Hn. by eexists.
Qed.

(** ** A round ends *)

Lemma in_order_elem (s : gset N) n : n ∈ in_order s ↔ n ∈ s.
Proof. unfold in_order. by rewrite stable_sort_elem, elem_of_elements. Qed.

Lemma in_order_nodup (s : gset N) : NoDup (in_order s).
Proof. unfold in_order. rewrite stable_sort_perm. apply NoDup_elements. Qed.

Lemma in_order_sorted (s : gset N) : StronglySorted (λ a b, (a <=? b)%N = true) (in_order s).
Proof. apply stable_sort_sorted; intros; rewrite ?N.leb_le in *; lia. Qed.

Lemma least_from_spec pos (s : gset N) :
  match least_from pos s with
  | Some n => n ∈ s ∧ (pos <= n)%N ∧ ∀ k, k ∈ s → (pos <= k)%N → (n <= k)%N
  | None => ∀ k, k ∈ s → ¬ (pos <= k)%N
  end.
Proof.
  unfold least_from. pose proof (in_order_sorted s) as Hs. pose proof (in_order_elem s) as He.
  destruct (List.filter (λ n, (pos <=? n)%N) (in_order s)) as [|n l] eqn:E; cbn [head].
  - intros k Hk Hp. assert (k ∈ List.filter (λ n, (pos <=? n)%N) (in_order s)) as Hin.
    { apply list_elem_of_In, List.filter_In. split; [by apply list_elem_of_In, He|by apply N.leb_le]. }
    rewrite E in Hin. by apply elem_of_nil in Hin.
  - assert (n ∈ List.filter (λ n, (pos <=? n)%N) (in_order s)) as Hin by (rewrite E; by left).
    apply list_elem_of_In, List.filter_In in Hin as [Hin Hp]. apply list_elem_of_In, He in Hin. apply N.leb_le in Hp.
    split_and!; [done|done|]. intros k Hk Hpk.
    assert (StronglySorted (λ a b, (a <=? b)%N = true) (n :: l)) as Hs'.
    { rewrite <- E. clear -Hs. induction Hs as [|x l Hs IH Hx]; cbn; [constructor|]. destruct (pos <=? x)%N; [|done].
      constructor; [done|]. apply Forall_forall. intros y [Hy _]%list_elem_of_In%List.filter_In.
      rewrite Forall_forall in Hx. by apply Hx, list_elem_of_In. }
    apply StronglySorted_inv in Hs' as [_ Hn]. assert (k ∈ n :: l) as Hkl.
    { rewrite <- E. apply list_elem_of_In, List.filter_In. split; [by apply list_elem_of_In, He|by apply N.leb_le]. }
    apply elem_of_cons in Hkl as [->|Hkl]; [lia|]. rewrite Forall_forall in Hn. by apply N.leb_le, Hn.
Qed.

Lemma group_of_nodup p n : NoDup (group_of p n).
Proof. unfold group_of. destruct (pk_ops p !! n) as [[o e]|]; [apply in_order_nodup|constructor]. Qed.

Lemma group_of_elem p n k : parked_wf p →
  k ∈ group_of p n ↔ ∃ o e o' e', pk_ops p !! n = Some (o, e) ∧ pk_ops p !! k = Some (o', e') ∧ op_hlc o' = op_hlc o.
Proof.
  intros Hp. unfold group_of. destruct (pk_ops p !! n) as [[o e]|] eqn:E.
  - rewrite in_order_elem. change (default ∅ (by_stamp p !! op_hlc o)) with (held (by_stamp p) (op_hlc o)).
    rewrite (pw_stamp _ Hp). naive_solver.
  - split; [by intros ?%elem_of_nil|naive_solver].
Qed.

Lemma naming_elem p tasks n : parked_wf p →
  n ∈ naming p tasks ↔ ∃ t o e, t ∈ tasks ∧ pk_ops p !! n = Some (o, e) ∧ t ∈ names_list o.
Proof.
  intros Hp. unfold naming. rewrite elem_of_union_list. setoid_rewrite list_elem_of_omap. split.
  - intros (X & (t & Ht & HX) & Hn). assert (n ∈ held (by_task p) t) as Hh by (unfold held; by rewrite HX).
    apply (pw_task _ Hp) in Hh as (o & e & ? & ?). by exists t, o, e.
  - intros (t & o & e & Ht & Ho & Hto). assert (n ∈ held (by_task p) t) as Hh by (apply (pw_task _ Hp); by exists o, e).
    unfold held in Hh. destruct (by_task p !! t) as [X|] eqn:E; [|cbn in Hh; set_solver]. by exists X; split; [exists t|].
Qed.

Lemma naming_dom p tasks : parked_wf p → naming p tasks ⊆ dom (pk_ops p).
Proof. intros Hp n (t & o & e & _ & Hn & _)%naming_elem; [|done]. apply elem_of_dom. by eexists. Qed.

Lemma group_tried_size st st' p p' out out' landed : group_tried st st' p p' out out' landed → size (pk_ops p') + length landed ≤ size (pk_ops p).
Proof.
  intros [_ _ _ _ (more & _ & Hk) _]. apply Permutation_length in Hk. rewrite !length_app, !waiting_length in Hk. lia.
Qed.

(** What a run of retries does to the document, the queue and the outcome. *)
Record queue_ran (st st' : DocState) (p p' : Parked) (out out' : Parking) : Prop := mkQueueRan {
  qr_wf : parked_wf p';
  qr_next : pk_next p' = pk_next p;
  qr_kept : ∃ more landed, attempts st landed st' ∧ pk_skipped out' = pk_skipped out ++ more ∧ pk_landed out' = pk_landed out + length landed
    ∧ waiting p' ++ map fst more ++ landed ≡ₚ waiting p;
  qr_dom : dom (pk_ops p') ⊆ dom (pk_ops p)
}.

Lemma queue_ran_refl st p out : parked_wf p → queue_ran st st p p out out.
Proof. intros Hp. split; [done|done| |done]. exists [], []. rewrite !app_nil_r. cbn. split_and!; [constructor|done|lia|done]. Qed.

Lemma kept_trans {A} (w m1 m2 l1 l2 : list A) : w ++ (m1 ++ m2) ++ l1 ++ l2 ≡ₚ (w ++ m2 ++ l2) ++ m1 ++ l1.
Proof. solve_Permutation. Qed.

Lemma queue_ran_trans s1 s2 s3 p1 p2 p3 o1 o2 o3 :
  queue_ran s1 s2 p1 p2 o1 o2 → queue_ran s2 s3 p2 p3 o2 o3 → queue_ran s1 s3 p1 p3 o1 o3.
Proof.
  intros [_ N1 (m1 & l1 & A1 & S1 & L1 & K1) D1] [W2 N2 (m2 & l2 & A2 & S2 & L2 & K2) D2]. split; [done|congruence| |set_solver].
  exists (m1 ++ m2), (l1 ++ l2). split_and!; [by eapply attempts_app|by rewrite S2, S1, app_assoc|rewrite L2, L1, length_app; lia|].
  rewrite <- K1, <- K2, map_app. apply kept_trans.
Qed.

Lemma queue_ran_distinct st st' p p' out out' : queue_ran st st' p p' out out' → ids_distinct p → ids_distinct p'.
Proof. intros [_ _ (more & landed & _ & _ & _ & Hk) _]. by eapply ids_distinct_kept. Qed.

Lemma group_tried_ran st st' p p' out out' landed : group_tried st st' p p' out out' landed → queue_ran st st' p p' out out'.
Proof.
  intros [(ap & A & P) W N L (more & S & K) D]. split; try done. exists more, ap.
  split_and!; [done|done|by rewrite L, P|by rewrite P].
Qed.

(** The numbers a round may still look at. *)
Definition ahead (pos : N) (round : gset N) (p : Parked) : gset N := filter (λ k, (pos <= k)%N) (round ∪ dom (pk_ops p)).

Lemma retry_round_total fuel st p out round later pos :
  parked_wf p → ids_distinct p → size (ahead pos round p) ≤ fuel →
  ∃ st' p' out' later', retry_round fuel st p out round later pos = Some (st', p', out', later')
    ∧ queue_ran st st' p p' out out'
    ∧ (later' = later ∨ size (pk_ops p') < size (pk_ops p)).
Proof.
  revert st p out round later pos. induction fuel as [|fuel IH]; intros st p out round later pos Hp Hd Hf; cbn [retry_round];
    pose proof (least_from_spec pos round) as Hl; destruct (least_from pos round) as [n|].
  - exfalso. destruct Hl as (Hn & Hpos & _). assert (n ∈ ahead pos round p) as Hin by (apply fin_sets.elem_of_filter; set_solver).
    assert (size (ahead pos round p) = 0) as Hz by lia. apply size_empty_inv in Hz. set_solver.
  - exists st, p, out, later. split_and!; [done|by apply queue_ran_refl|by left].
  - destruct Hl as (Hn & Hpos & _). pose proof (retry_group_spec st p (group_of p n) out Hp Hd (group_of_nodup p n)) as Hg.
    destruct (retry_group st p (group_of p n) out) as [[[st1 p1] out1] touched] eqn:Eg. destruct Hg as (landed & -> & Htr & _).
    set (touched := omap (λ o, subject (op_kind o)) landed) in *. pose proof (group_tried_ran _ _ _ _ _ _ _ Htr) as Hran.
    pose proof (naming_dom p1 touched (qr_wf _ _ _ _ _ _ Hran)) as Hready. pose proof (qr_dom _ _ _ _ _ _ Hran) as Hdom.
    set (round' := round ∖ list_to_set (group_of p n) ∪ filter (λ k, (n + 1 <= k)%N) (naming p1 touched)).
    set (later1 := later ∪ filter (λ k, (k < n + 1)%N) (naming p1 touched)).
    assert (size (ahead (n + 1) round' p1) ≤ fuel) as Hf'.
    { assert (ahead (n + 1) round' p1 ⊂ ahead pos round p) as Hs%subset_size; [|lia].
      split; [|intros Hsub; specialize (Hsub n); unfold ahead in Hsub; rewrite !fin_sets.elem_of_filter in Hsub; destruct Hsub as [? _]; [set_solver|lia]].
      intros k. unfold ahead, round'. rewrite !fin_sets.elem_of_filter. intros [Hk Hin]. split; [lia|]. set_solver. }
    destruct (IH st1 p1 out1 round' later1 (n + 1)%N (qr_wf _ _ _ _ _ _ Hran) (queue_ran_distinct _ _ _ _ _ _ Hran Hd) Hf')
      as (st' & p' & out' & later' & E & Hran' & Hlater).
    exists st', p', out', later'. split_and!; [exact E|by eapply queue_ran_trans|].
    assert (size (pk_ops p') ≤ size (pk_ops p1)) as Hle1.
    { rewrite <- !size_dom. apply subseteq_size, (qr_dom _ _ _ _ _ _ Hran'). }
    pose proof (group_tried_size _ _ _ _ _ _ _ Htr) as Hsz. destruct landed as [|o landed].
    + destruct Hlater as [->|]; [|right; cbn in Hsz; lia]. left. subst later1 touched. unfold naming. cbn. set_solver.
    + right. cbn in Hsz. lia.
  - exists st, p, out, later. split_and!; [done|by apply queue_ran_refl|by left].
Qed.

Lemma retry_rounds_total fuel st p out round :
  parked_wf p → ids_distinct p → size (pk_ops p) < fuel →
  ∃ st' p' out', retry_rounds fuel st p out round = Some (st', p', out') ∧ queue_ran st st' p p' out out'.
Proof.
  revert st p out round. induction fuel as [|fuel IH]; intros st p out round Hp Hd Hf; [lia|]. cbn [retry_rounds].
  case_bool_decide as Hr; [by exists st, p, out; split; [|by apply queue_ran_refl]|].
  destruct (retry_round_total (size (round ∪ dom (pk_ops p))) st p out round ∅ 0 Hp Hd) as (st1 & p1 & out1 & later & E & Hran & Hl).
  { apply subseteq_size. intros k [_ Hk]%fin_sets.elem_of_filter. done. }
  unfold mbind, option_bind. rewrite E. destruct Hl as [->|Hl].
  - assert (retry_rounds fuel st1 p1 out1 ∅ = Some (st1, p1, out1)) as -> by (by destruct fuel). by exists st1, p1, out1.
  - destruct (IH st1 p1 out1 later (qr_wf _ _ _ _ _ _ Hran) (queue_ran_distinct _ _ _ _ _ _ Hran Hd)) as (st' & p' & out' & E' & Hran'); [lia|].
    exists st', p', out'. split; [done|by eapply queue_ran_trans].
Qed.

Lemma retry_total st p touched out :
  parked_wf p → ids_distinct p → ∃ st' p' out', retry st p touched out = Some (st', p', out') ∧ queue_ran st st' p p' out out'.
Proof. intros Hp Hd. apply retry_rounds_total; [done|done|lia]. Qed.

(** ** A batch *)

(** What parking some given ops does: each op waiting or given is waiting, skipped or among those that made
    the document it leaves. *)
Record batch_ran (st st' : DocState) (p p' : Parked) (out out' : Parking) (given : list Op) : Prop := mkBatchRan {
  br_wf : parked_wf p';
  br_size : size (pk_ops p') ≤ MAX_PARKED_OPS;
  br_next : (pk_next p <= pk_next p' <= pk_next p + N.of_nat (length given))%N;
  br_kept : ∃ more applied, attempts st applied st' ∧ pk_skipped out' = pk_skipped out ++ more
    ∧ pk_landed out ≤ pk_landed out' ≤ pk_landed out + length applied
    ∧ waiting p' ++ map fst more ++ applied ≡ₚ waiting p ++ given
}.

Lemma batch_ran_trans s1 s2 s3 p1 p2 p3 o1 o2 o3 g1 g2 :
  batch_ran s1 s2 p1 p2 o1 o2 g1 → batch_ran s2 s3 p2 p3 o2 o3 g2 → batch_ran s1 s3 p1 p3 o1 o3 (g1 ++ g2).
Proof.
  intros [_ _ N1 (m1 & l1 & A1 & S1 & L1 & K1)] [W2 Z2 N2 (m2 & l2 & A2 & S2 & L2 & K2)]. split; [done|done|rewrite length_app; lia|].
  exists (m1 ++ m2), (l1 ++ l2). split_and!; [by eapply attempts_app|by rewrite S2, S1, app_assoc|lia|rewrite length_app; lia|].
  rewrite map_app, kept_trans, K2. transitivity ((waiting p2 ++ map fst m1 ++ l1) ++ g2); [solve_Permutation|].
  rewrite K1. by rewrite <- app_assoc.
Qed.

Lemma queue_ran_batch st st' p p' out out' :
  size (pk_ops p) ≤ MAX_PARKED_OPS → queue_ran st st' p p' out out' → batch_ran st st' p p' out out' [].
Proof.
  intros Hz [W Nx (more & landed & A & S & L & K) D]. split; [done| |cbn; lia|].
  - etransitivity; [|exact Hz]. rewrite <- !size_dom. by apply subseteq_size.
  - exists more, landed. split_and!; [done|done|lia|lia|]. by rewrite app_nil_r.
Qed.

Lemma batch_ran_skip st p out f :
  parked_wf p → size (pk_ops p) ≤ MAX_PARKED_OPS → batch_ran st st p p out (skip out f) [fst f].
Proof.
  intros Hp Hz. split; [done|done|cbn; lia|]. exists [f], []. split_and!; [constructor|done|cbn; lia|cbn; lia|done].
Qed.

Lemma batch_ran_applied st st' p out applied applied' :
  parked_wf p → size (pk_ops p) ≤ MAX_PARKED_OPS → attempts st applied st' → applied ≡ₚ applied' →
  batch_ran st st' p p out out applied'.
Proof.
  intros Hp Hz Ha Hap. split; [done|done|lia|]. exists [], applied. rewrite app_nil_r. split_and!; [done|done|lia|lia|].
  cbn [map app]. by rewrite Hap.
Qed.

Lemma batch_ran_nil st p out : parked_wf p → size (pk_ops p) ≤ MAX_PARKED_OPS → batch_ran st st p p out out [].
Proof. intros Hp Hz. eapply batch_ran_applied; [done|done|constructor|done]. Qed.

Lemma batch_ran_perm st st' p p' out out' given given' :
  given ≡ₚ given' → batch_ran st st' p p' out out' given → batch_ran st st' p p' out out' given'.
Proof.
  intros Hg [W Z Nx (more & ap & A & S & L & K)]. split; [done|done|by rewrite <- Hg|]. exists more, ap. by rewrite <- Hg.
Qed.

(** Waiting an op last, perhaps with its stamp marked whole. *)
Lemma push_spec st p o e out W :
  parked_wf p → size (pk_ops p) ≤ MAX_PARKED_OPS → (∀ h, h ∈ W → h = op_hlc o ∨ h ∈ pk_whole p) →
  let '(p', out') := push (mkParked (pk_ops p) (pk_next p) (by_task p) (by_stamp p) W) o e out in
  batch_ran st st p p' out out' [o].
Proof.
  intros Hp Hz HW. unfold push. cbn [pk_ops pk_next by_task by_stamp pk_whole]. set (n := (pk_next p + 1)%N).
  assert (pk_ops p !! n = None) as Hno.
  { destruct (pk_ops p !! n) eqn:E; [|done]. exfalso. assert (n <= pk_next p)%N; [apply (pw_next _ Hp); rewrite E; by eexists|lia]. }
  set (p1 := put (mkParked (pk_ops p) n (by_task p) (by_stamp p) W) n o e).
  assert (parked_wf p1) as Hp1 by (apply put_wf_with; [done|done|lia|lia|done]).
  assert (size (pk_ops p1) = S (size (pk_ops p))) as Hz1 by (unfold p1, put; cbn [pk_ops]; by rewrite map_size_insert_None).
  assert (waiting p1 ≡ₚ o :: waiting p) as Hw1 by (apply (waiting_put (mkParked (pk_ops p) n (by_task p) (by_stamp p) W) n o e Hno)).
  assert (pk_next p1 = n) as Hn1 by done.
  destruct (MAX_PARKED_OPS <? size (pk_ops p1)) eqn:Eo.
  - apply Nat.ltb_lt in Eo. destruct (in_order (dom (pk_ops p1))) as [|k ks] eqn:Ek; cbn [head].
    { exfalso. assert (n ∈ in_order (dom (pk_ops p1))) as Hn by (apply in_order_elem, elem_of_dom; unfold p1, put; cbn; rewrite lookup_insert_eq; by eexists).
      rewrite Ek in Hn. by apply elem_of_nil in Hn. }
    assert (k ∈ dom (pk_ops p1)) as Hk by (apply in_order_elem; rewrite Ek; by left). apply elem_of_dom in Hk as [[ok ek] Hk].
    pose proof (take_op_wf p1 k Hp1) as Hwf. pose proof (take_op_ops p1 k) as Hops. pose proof (take_op_next p1 k) as Hnx.
    pose proof (waiting_take p1 k ok ek Hk) as Hw.
    assert (snd (take_op p1 k) = Some (ok, ek)) as Hs by (unfold take_op; by rewrite Hk).
    destruct (take_op p1 k) as [p2 d]. cbn [fst snd] in *. subst d. split; [done| | |].
    + rewrite Hops, map_size_delete_Some by (by eexists). lia.
    + rewrite Hnx, Hn1. cbn [length]. lia.
    + exists [(ok, ek)], []. split_and!; [constructor|done|cbn; lia|cbn; lia|]. rewrite app_nil_r. cbn [map fst].
      rewrite Permutation_app_comm. cbn [app]. rewrite <- Hw, Hw1. by rewrite Permutation_cons_append.
  - apply Nat.ltb_ge in Eo. split; [done|done|rewrite Hn1; cbn [length]; lia|]. exists [], []. rewrite !app_nil_r.
    split_and!; [constructor|done|lia|cbn; lia|]. by rewrite Hw1, Permutation_cons_append.
Qed.

Lemma park_group_spec st p out group :
  parked_wf p → size (pk_ops p) ≤ MAX_PARKED_OPS →
  let '(p', out') := park_group p out group in batch_ran st st p p' out out' group.
Proof.
  unfold park_group. revert p out. induction group as [|o group IH]; intros p out Hp Hz; cbn [foldl]; [by apply batch_ran_nil|].
  cbn [fst snd].
  pose proof (push_spec st p o (UnknownTask (first_name o)) out ({[op_hlc o]} ∪ pk_whole p) Hp Hz) as Hpush.
  destruct (push _ _ _ _) as [p1 out1]. assert (batch_ran st st p p1 out out1 [o]) as H1 by (apply Hpush; set_solver).
  specialize (IH p1 out1 (br_wf _ _ _ _ _ _ _ H1) (br_size _ _ _ _ _ _ _ H1)). destruct (foldl _ _ _) as [p2 out2].
  exact (batch_ran_trans _ _ _ _ _ _ _ _ _ _ _ H1 IH).
Qed.

Lemma park_failed_spec st p out failed :
  parked_wf p → size (pk_ops p) ≤ MAX_PARKED_OPS →
  let '(p', out') := foldl (park_failed st) (p, out) failed in batch_ran st st p p' out out' (map fst failed).
Proof.
  revert p out. induction failed as [|[o e] failed IH]; intros p out Hp Hz; cbn [foldl map]; [by apply batch_ran_nil|].
  unfold park_failed at 2. cbn [fst snd].
  assert (let '(p', out') := if waits st e then push p o e out else (p, skip out (o, e)) in batch_ran st st p p' out out' [o]) as H1.
  { destruct (waits st e); [|by apply (batch_ran_skip st p out (o, e))].
    pose proof (push_spec st p o e out (pk_whole p) Hp Hz) as Hpush. destruct p. apply Hpush. by right. }
  destruct (if waits st e then _ else _) as [p1 out1].
  specialize (IH p1 out1 (br_wf _ _ _ _ _ _ _ H1) (br_size _ _ _ _ _ _ _ H1)). destruct (foldl _ _ _) as [p2 out2].
  exact (batch_ran_trans _ _ _ _ _ _ _ _ _ [o] _ H1 IH).
Qed.

Lemma batch_ran_distinct st st' p p' out out' given later :
  batch_ran st st' p p' out out' given → NoDup (map op_id (waiting p ++ given ++ later)) → NoDup (map op_id (waiting p' ++ later)).
Proof.
  intros [_ _ _ (more & ap & _ & _ & _ & K)] Hd. rewrite app_assoc, <- K in Hd. eapply sublist_NoDup; [exact Hd|].
  apply (fmap_sublist op_id). rewrite <- app_assoc. apply sublist_app; [done|]. by apply sublist_inserts_l.
Qed.

Lemma apply_group_parking_spec st p out group :
  parked_wf p → size (pk_ops p) ≤ MAX_PARKED_OPS → NoDup (map op_id (waiting p ++ group)) →
  ∃ st' p' out', apply_group_parking st p out group = Some (st', p', out') ∧ batch_ran st st' p p' out out' group
    ∧ (needs_a_missing_task st group = true → st' = st).
Proof.
  intros Hp Hz Hd. unfold apply_group_parking.
  destruct (_ || needs_a_missing_task st group) eqn:Em.
  { pose proof (park_group_spec st p out group Hp Hz) as H. destruct (park_group p out group) as [p' out']. by exists st, p', out'. }
  apply orb_false_iff in Em as [_ Em]. pose proof (apply_leniently_sublist st group) as Hsub.
  destruct (apply_leniently_attempts st group) as (applied & Hatt & Hap).
  destruct (apply_leniently st group) as [st1 failed]. cbn [fst snd] in Hsub, Hatt, Hap.
  set (landed := List.filter (λ o, negb (failed_id failed o)) group).
  assert (NoDup (map op_id group)) as Hdg by (rewrite map_app in Hd; by apply NoDup_app in Hd as (_ & _ & ?)).
  pose proof (failed_split failed group Hdg Hsub) as Hsplit. fold landed in Hsplit.
  pose proof (park_failed_spec st1 p out failed Hp Hz) as Hf. destruct (foldl _ _ _) as [p1 out1].
  assert (batch_ran st st1 p p1 out out1 group) as H1.
  { eapply batch_ran_perm; [|exact (batch_ran_trans _ _ _ _ _ _ _ _ _ _ _
      (batch_ran_applied st st1 p out applied applied Hp Hz Hatt (reflexivity _)) Hf)]. by rewrite Hap. }
  assert (ids_distinct p1) as Hd1.
  { unfold ids_distinct. rewrite <- (app_nil_r (waiting p1)). eapply batch_ran_distinct; [exact H1|]. by rewrite app_nil_r. }
  case_bool_decide as Ht; [exists st1, p1, out1; split_and!; [done|done|by rewrite Em]|].
  destruct (retry_total st1 p1 (omap (λ o, subject (op_kind o)) landed) out1 (br_wf _ _ _ _ _ _ _ H1) Hd1) as (st' & p' & out' & E & Hq).
  exists st', p', out'. split_and!; [done| |by rewrite Em]. rewrite <- (app_nil_r group).
  eapply batch_ran_trans; [exact H1|]. apply queue_ran_batch; [by apply (br_size _ _ _ _ _ _ _ H1)|done].
Qed.

Lemma apply_groups_spec st p out groups :
  parked_wf p → size (pk_ops p) ≤ MAX_PARKED_OPS → NoDup (map op_id (waiting p ++ concat groups)) →
  ∃ st' p' out', apply_groups st p out groups = Some (st', p', out') ∧ batch_ran st st' p p' out out' (concat groups).
Proof.
  revert st p out. induction groups as [|g gs IH]; intros st p out Hp Hz Hd; cbn [apply_groups concat].
  { exists st, p, out. split; [done|by apply batch_ran_nil]. }
  cbn [concat] in Hd. destruct (apply_group_parking_spec st p out g Hp Hz) as (st1 & p1 & out1 & E & H1 & _).
  { eapply sublist_NoDup; [exact Hd|]. apply (fmap_sublist op_id). rewrite app_assoc. by apply sublist_inserts_r. }
  unfold mbind, option_bind. rewrite E.
  destruct (IH st1 p1 out1 (br_wf _ _ _ _ _ _ _ H1) (br_size _ _ _ _ _ _ _ H1)) as (st' & p' & out' & E' & H2).
  { by eapply batch_ran_distinct. }
  exists st', p', out'. split; [done|by eapply batch_ran_trans].
Qed.

(** ** Claims *)

(** C32. Applying a batch always ends, however landings ready further groups; the queue and its indexes
    still agree and are bounded afterwards; and every op given or waiting before is, once, waiting after,
    reported as skipped, or one of the ops whose application, each accepted in its turn, made the document
    the batch leaves; the landed count is among those. *)
Theorem parking_ends st ops p :
  parked_wf p → size (pk_ops p) ≤ MAX_PARKED_OPS → NoDup (map op_id (waiting p ++ ops)) →
  ∃ st' p' out', apply_parking st ops p = Some (st', p', out')
    ∧ parked_wf p' ∧ size (pk_ops p') ≤ MAX_PARKED_OPS ∧ (pk_next p' <= pk_next p + N.of_nat (length ops))%N
    ∧ ∃ applied, attempts st applied st' ∧ pk_landed out' ≤ length applied ∧ waiting p' ++ map fst (pk_skipped out') ++ applied ≡ₚ waiting p ++ ops.
Proof.
  intros Hp Hz Hd. unfold apply_parking. rewrite <- (chunk_by_stamp_concat ops) in Hd.
  destruct (apply_groups_spec st p Parking_default (chunk_by_stamp ops) Hp Hz Hd) as (st' & p' & out' & E & [W Z Nx (more & ap & A & S & L & K)]).
  rewrite chunk_by_stamp_concat in *. exists st', p', out'. split_and!; [done|done|done|lia|]. exists ap.
  cbn [pk_skipped pk_landed Parking_default app] in *. rewrite S. split_and!; [done|lia|done].
Qed.

Lemma parking_ends_witness :
  ∃ st st' p' out', doc_of [str "old"] = Some st
    ∧ apply_parking st (park_moves ++ [park_one]) Parked_default = Some (st', p', out') ∧ size (pk_ops p') ≤ MAX_PARKED_OPS.
Proof.
  destruct (doc_of [str "old"]) as [st|] eqn:E; [|vm_compute in E; discriminate E]. exists st.
  destruct (parking_ends st (park_moves ++ [park_one]) Parked_default parked_default_wf) as (st' & p' & out' & H & _ & Hz & _).
  - apply Nat.leb_le. vm_compute. reflexivity.
  - apply (bool_decide_eq_true_1 _). vm_compute. reflexivity.
  - exists st', p', out'. by split_and!.
Defined.
