(* ===== verification/ParkSpec.v ===== *)
(** What parking is for: new lines that build on each other, delivered in any order, end in the document
    of a causal order, with nothing left waiting and nothing skipped. Ops of one commit share a stamp and
    are applied as a group; a batch may bring part of a commit, and the rest joins what waits of it. *)
From stdpp Require Import gmap.
From S2P Require Import Prelude.
From S2P Require Import Utf8.
From S2P Require Import Types.
From S2P Require Import TodoFile.
From S2P Require Import Diff.
From S2P Require Import Hlc.
From S2P Require Import TextHistory.
From S2P Require Import Ops.
From S2P Require Import DocState.
From S2P Require Import DocRows.
From S2P Require Import DocInvariant.
From S2P Require Import DocConverge.
From S2P Require Import DocErrors.
From S2P Require Import DocFresh.
From S2P Require Import DocLocal.
From S2P Require Import DocCausal.
From S2P Require Import Park.

(** ** Deliveries *)

(** Batches delivered one after the other; all that was skipped. *)
Fixpoint apply_batches (st : DocState) (p : Parked) (batches : list (list Op)) : option (DocState * Parked * list (Op * StateError)) :=
  match batches with
  | [] => Some (st, p, [])
  | b :: batches' =>
      r ← apply_parking st b p;
      let '(st, p, out) := r in
      r ← apply_batches st p batches';
      let '(st, p, skipped) := r in
      Some (st, p, pk_skipped out ++ skipped)
  end.

(** ** One new line *)

Lemma new_line_names st o : is_Some (new_line st o) → names_list o = option_list (anchor_of o).
Proof.
  unfold new_line, names_list, names, anchor_of. intros [? H]. by destruct (op_kind o).
Qed.

Lemma new_line_subject st o : is_Some (new_line st o) → subject (op_kind o) = added_id o.
Proof. unfold new_line, added_id. intros [? H]. by destruct (op_kind o). Qed.

(** The tasks some ops add. *)
Definition added_ids (ops : list Op) : list TaskId := omap added_id ops.

(** New lines need a missing task exactly when one's anchor is neither placed nor added by one of them. *)
Lemma needs_spec st g :
  Forall (λ o, is_Some (new_line st o)) g →
  needs_a_missing_task st g = false ↔ ∀ o t, o ∈ g → anchor_of o = Some t → t ∈ added_ids g ∨ placed st t.
Proof.
  intros Hn. unfold needs_a_missing_task.
  change (omap (λ o, match op_kind o with KInsert task _ _ => Some task | _ => None end) g) with (added_ids g).
  rewrite <- not_true_iff_false, existsb_exists. split.
  - intros H o t Ho Ha. rewrite Forall_forall in Hn. destruct (decide (t ∈ added_ids g)) as [|Hin]; [by left|right].
    apply not_false_iff_true. intros Hp. apply H. exists o. split; [by apply list_elem_of_In|]. apply existsb_exists. exists t. split.
    + apply list_elem_of_In. rewrite (new_line_names st o) by auto. rewrite Ha. by left.
    + rewrite bool_decide_eq_false_2 by done. unfold placed in Hp. by rewrite Hp.
  - intros H (o & Ho%list_elem_of_In & (t & Ht%list_elem_of_In & Hm)%existsb_exists). rewrite Forall_forall in Hn.
    rewrite (new_line_names st o) in Ht by auto. destruct (anchor_of o) as [t'|] eqn:Ea; [|by apply elem_of_nil in Ht].
    apply list_elem_of_singleton in Ht as ->. apply andb_true_iff in Hm as [H1%negb_true_iff%bool_decide_eq_false H2%negb_true_iff].
    destruct (H o t' Ho Ea) as [|Hp]; [done|]. unfold placed in Hp. congruence.
Qed.

(** ** Chunks *)

(** Consecutive ops of one commit. *)
Definition one_commit (g : list Op) : Prop := match g with [] => False | o :: _ => Forall (λ x, op_hlc x = op_hlc o) g end.

Lemma chunks_one_commit ops : Forall one_commit (chunk_by_stamp ops).
Proof.
  induction ops as [|o ops IH]; cbn [chunk_by_stamp]; [constructor|]. destruct (chunk_by_stamp ops) as [|[|o' g] gs].
  - repeat constructor.
  - apply Forall_cons in IH as [[] _].
  - apply Forall_cons in IH as [Hg Hgs]. case_bool_decide as E; [|constructor; [by repeat constructor|by constructor]].
    constructor; [|done]. cbn in Hg |- *. constructor; [done|]. eapply Forall_impl; [exact Hg|]. cbn. congruence.
Qed.

Lemma chunk_one g : one_commit g → chunk_by_stamp g = [g].
Proof.
  induction g as [|o g IH]; [by intros []|]. intros Hg. cbn in Hg. apply Forall_cons in Hg as [_ Hg]. cbn [chunk_by_stamp].
  destruct g as [|o' g]; [done|]. pose proof Hg as Hg'. apply Forall_cons in Hg' as [Ho _]. rewrite IH.
  - by rewrite bool_decide_eq_true_2.
  - cbn. eapply Forall_impl; [exact Hg|]. cbn. congruence.
Qed.

Lemma apply_round_run st g st' : apply_all g st = (st', Ok tt) → apply_round st g = (st', []).
Proof.
  revert st. induction g as [|o g IH]; intros st; cbn [apply_round]; [by intros [= <-]|]. rewrite apply_all_cons.
  destruct (doc_apply o st) as [st1 [[]|e]]; [|done]. intros H. by rewrite (IH _ H).
Qed.

(** A commit whose ops all fit lands whole. *)
Lemma leniently_run st g st' : one_commit g ∨ g = [] → apply_all g st = (st', Ok tt) → apply_leniently st g = (st', []).
Proof.
  intros [Hg| ->] H; [|by injection H as <-]. unfold apply_leniently. rewrite (chunk_one g Hg). cbn [foldl].
  cbn [apply_group]. by rewrite (apply_round_run _ _ _ H).
Qed.

(** ** Orders *)

(** The ops of one commit among ordered ones, when everything else they are anchored to is known. *)
Lemma ordered_filter (f : Op → bool) known known' ops :
  ordered known ops → (∀ t, known t → known' t) → (∀ o t, o ∈ ops → f o = false → added_id o = Some t → known' t) →
  ordered known' (List.filter f ops).
Proof.
  revert known known'. induction ops as [|o ops IH]; intros known known' Ho Hk Hf; cbn; [done|]. destruct Ho as [Ha Ho].
  destruct (f o) eqn:Efo; cbn.
  - split; [by eapply anchored_mono|]. eapply IH; [exact Ho|unfold learn; naive_solver|].
    intros x t Hx Hfx Hadd. left. by eapply Hf; [right|..].
  - eapply IH; [exact Ho| |intros x t Hx; by apply Hf; right]. intros t [?|Hadd]; [by apply Hk|]. eapply Hf; [by left|done|done].
Qed.

(** Ordered ops whose anchors are known or added by one of them. *)
Lemma ordered_within (known known' : TaskId → Prop) ops :
  ordered known ops → (∀ o t, o ∈ ops → anchor_of o = Some t → t ∈ added_ids ops ∨ known' t) →
  (∀ t, known t → t ∈ added_ids ops → known' t) → ordered known' ops.
Proof.
  revert known known'. induction ops as [|o ops IH]; intros known known' Ho Ha Hk; [done|]. destruct Ho as [Ha0 Ho].
  assert (∀ t, t ∈ added_ids (o :: ops) ↔ added_id o = Some t ∨ t ∈ added_ids ops) as Hadd.
  { intros t. unfold added_ids. cbn. destruct (added_id o) as [i|]; [|naive_solver]. rewrite elem_of_cons. naive_solver. }
  split.
  - unfold anchored in *. destruct (anchor_of o) as [t|] eqn:Et; [|done]. destruct (Ha o t) as [Hin|?]; [by left|done| |done]. by apply Hk.
  - eapply IH; [exact Ho| |].
    + intros x t Hx Hat. unfold learn. destruct (Ha x t) as [[?|?]%Hadd|?]; [by right|done|by right; right|by left|by right; left].
    + intros t [Ht|?] Hin; [|by right]. left. apply Hk; [done|]. apply Hadd. by right.
Qed.

(** ** The queue, commit by commit *)

Definition numbers_of (p : Parked) (h : Hlc) : list N := in_order (held (by_stamp p) h).

(** The waiting ops of a commit, in order of arrival. *)
Definition waiting_of (p : Parked) (h : Hlc) : list Op := map snd (numbered p (numbers_of p h)).

Lemma numbers_of_elem p h k : parked_wf p → k ∈ numbers_of p h ↔ ∃ o e, pk_ops p !! k = Some (o, e) ∧ op_hlc o = h.
Proof. intros Hp. unfold numbers_of. by rewrite in_order_elem, (pw_stamp _ Hp). Qed.

Lemma waiting_of_elem p h o : parked_wf p → o ∈ waiting_of p h ↔ op_hlc o = h ∧ o ∈ waiting p.
Proof.
  intros Hp. unfold waiting_of. rewrite list_elem_of_fmap, waiting_elem. split.
  - intros ([n o'] & -> & [Hn (e & He)]%numbered_elem). cbn. apply (numbers_of_elem p h n Hp) in Hn as (o & e' & E & <-).
    rewrite He in E. injection E as <- <-. eauto.
  - intros (<- & n & e & Hn). exists (n, o). split; [done|]. apply numbered_elem. split; [|by exists e].
    apply numbers_of_elem; [done|]. eauto.
Qed.

Lemma group_of_numbers p n o e : pk_ops p !! n = Some (o, e) → group_of p n = numbers_of p (op_hlc o).
Proof. intros H. unfold group_of. by rewrite H. Qed.

Lemma in_order_unique (s : gset N) l : StronglySorted (λ a b, (a <=? b)%N = true) l → NoDup l → (∀ k, k ∈ l ↔ k ∈ s) → in_order s = l.
Proof.
  intros Hs Hd He. assert (AntiSymm (=) (λ a b : N, (a <=? b)%N = true)) as Hanti by (intros a b; rewrite !N.leb_le; lia).
  eapply StronglySorted_unique; [exact Hanti|apply in_order_sorted|done|]. apply NoDup_Permutation; [apply in_order_nodup|done|].
  intros k. by rewrite in_order_elem, He.
Qed.

Lemma numbered_ext p p' l : (∀ k, k ∈ l → pk_ops p !! k = pk_ops p' !! k) → numbered p l = numbered p' l.
Proof.
  unfold numbered. induction l as [|k l IH]; intros H; [done|]. cbn. rewrite (H k) by (by left).
  rewrite IH; [done|]. intros k' Hk'. apply H. by right.
Qed.

(** A commit the queue keeps as it is. *)
Lemma waiting_of_ext p p' h : parked_wf p → parked_wf p' →
  (∀ k o e, op_hlc o = h → pk_ops p !! k = Some (o, e) ↔ pk_ops p' !! k = Some (o, e)) →
  numbers_of p h = numbers_of p' h ∧ waiting_of p h = waiting_of p' h.
Proof.
  intros Hp Hp' H. assert (held (by_stamp p) h = held (by_stamp p') h) as Eh.
  { apply set_eq. intros k. rewrite (pw_stamp _ Hp), (pw_stamp _ Hp'). split; intros (o & e & Hk & Ho); exists o, e; (split; [|done]); by apply (H k o e). }
  assert (numbers_of p h = numbers_of p' h) as En by (unfold numbers_of; by rewrite Eh). split; [done|].
  unfold waiting_of. rewrite En. f_equal. apply numbered_ext. intros k Hk. apply (numbers_of_elem p' h k Hp') in Hk as (o & e & Hk & Ho).
  rewrite Hk. by apply H.
Qed.

Lemma queue_order_snoc (s : gset N) n : (∀ k, k ∈ s → (k < n)%N) → in_order ({[n]} ∪ s) = in_order s ++ [n].
Proof.
  intros H. apply in_order_unique.
  - pose proof (in_order_sorted s) as Hs. assert (∀ k, k ∈ in_order s → (k < n)%N) as Hk by (intros k Hk; by apply H, in_order_elem).
    clear H. induction Hs as [|x l Hs IH Hx]; cbn; [by repeat constructor|]. constructor; [apply IH; intros k Hin; apply Hk; by right|].
    apply Forall_app. split; [done|]. constructor; [|done]. apply N.leb_le. specialize (Hk x). rewrite elem_of_cons in Hk. specialize (Hk (or_introl eq_refl)). lia.
  - apply NoDup_app. split_and!; [apply in_order_nodup| |apply NoDup_singleton]. intros k Hk%in_order_elem ->%list_elem_of_singleton. specialize (H n Hk). lia.
  - intros k. rewrite elem_of_app, in_order_elem, list_elem_of_singleton. set_solver.
Qed.

(** Parking one op, with room for it. *)
Lemma push_kept p o e out W :
  parked_wf p → size (pk_ops p) < MAX_PARKED_OPS → (∀ h, h ∈ W → h = op_hlc o ∨ h ∈ pk_whole p) →
  ∃ p', push (mkParked (pk_ops p) (pk_next p) (by_task p) (by_stamp p) W) o e out = (p', out)
    ∧ parked_wf p' ∧ pk_ops p' = <[(pk_next p + 1)%N := (o, e)]> (pk_ops p) ∧ waiting p' ≡ₚ o :: waiting p.
Proof.
  intros Hp Hz HW. unfold push. cbn [pk_ops pk_next by_task by_stamp pk_whole]. set (n := (pk_next p + 1)%N).
  assert (pk_ops p !! n = None) as Hno.
  { destruct (pk_ops p !! n) eqn:E; [|done]. exfalso. assert (n <= pk_next p)%N; [apply (pw_next _ Hp); rewrite E; by eexists|lia]. }
  set (p1 := put (mkParked (pk_ops p) n (by_task p) (by_stamp p) W) n o e).
  assert (size (pk_ops p1) = S (size (pk_ops p))) as Hz1 by (unfold p1, put; cbn [pk_ops]; by rewrite map_size_insert_None).
  rewrite Hz1. assert ((MAX_PARKED_OPS <? S (size (pk_ops p))) = false) as -> by (apply Nat.ltb_ge; lia).
  exists p1. split_and!; [done| |done|].
  - apply put_wf_with; [done|done|lia|lia|done].
  - apply (waiting_put (mkParked (pk_ops p) n (by_task p) (by_stamp p) W) n o e Hno).
Qed.

(** The op parked comes last of its commit. *)
Lemma waiting_of_push p p' o e : parked_wf p → parked_wf p' → pk_ops p' = <[(pk_next p + 1)%N := (o, e)]> (pk_ops p) →
  ∀ h, waiting_of p' h = waiting_of p h ++ of_stamp h [o].
Proof.
  intros Hp Hp' Hops h. set (n := (pk_next p + 1)%N) in *.
  assert (pk_ops p !! n = None) as Hno.
  { destruct (pk_ops p !! n) eqn:E; [|done]. exfalso. assert (n <= pk_next p)%N; [apply (pw_next _ Hp); rewrite E; by eexists|lia]. }
  unfold of_stamp. cbn. case_bool_decide as Hh.
  - assert (numbers_of p' h = numbers_of p h ++ [n]) as En.
    { unfold numbers_of. rewrite <- queue_order_snoc.
      - f_equal. apply set_eq. intros k. rewrite (pw_stamp _ Hp'), elem_of_union, elem_of_singleton, (pw_stamp _ Hp), Hops. split.
        + intros (o' & e' & [[<- _]|[_ Hk]]%lookup_insert_Some & Ho'); [by left|right; eauto].
        + intros [->|(o' & e' & Hk & Ho')]; [exists o, e; by rewrite lookup_insert_eq|]. exists o', e'. split; [|done].
          rewrite lookup_insert_ne; [done|]. intros ->. congruence.
      - intros k Hk. apply (pw_stamp _ Hp) in Hk as (o' & e' & Hk & _). assert (k <= pk_next p)%N; [|lia]. apply (pw_next _ Hp). rewrite Hk. by eexists. }
    unfold waiting_of. rewrite En. unfold numbered. rewrite omap_app, map_app. f_equal.
    + f_equal. apply numbered_ext. intros k Hk. apply (numbers_of_elem p h k Hp) in Hk as (o' & e' & Hk & _).
      rewrite Hops, lookup_insert_ne; [done|]. intros ->. congruence.
    + cbn. by rewrite Hops, lookup_insert_eq.
  - rewrite app_nil_r. apply waiting_of_ext; [done|done|]. intros k o' e' Ho'. rewrite Hops, lookup_insert_Some. split.
    + intros [[-> [= <- <-]]|[_ ?]]; done.
    + intros Hk. right. split; [|done]. intros ->. congruence.
Qed.

Lemma take_all_whole p group h :
  (∀ k o e, k ∈ group → pk_ops p !! k = Some (o, e) → op_hlc o = h) → pk_whole p ∖ {[h]} ⊆ pk_whole (take_all p group).
Proof.
  unfold take_all. revert p. induction group as [|n g IH]; intros p Hg; cbn [foldl]; [set_solver|].
  assert (pk_whole p ∖ {[h]} ⊆ pk_whole (fst (take_op p n)) ∖ {[h]}) as H.
  { unfold take_op. destruct (pk_ops p !! n) as [[o e]|] eqn:E; [|done]. cbn [fst pk_whole].
    rewrite (Hg n o e) by (done || by left). case_bool_decide; set_solver. }
  etrans; [exact H|]. apply IH. intros k o e Hk. rewrite take_op_ops, lookup_delete_Some. intros [_ He]. eapply Hg; [by right|done].
Qed.

(** ** The simulation *)

Section parking.
Context (st0 : DocState) (all : list Op).
Hypothesis (Hcausal : causal st0 all).
Hypothesis (Hids : NoDup (map op_id all)).
Hypothesis (Hfew : length all ≤ MAX_PARKED_OPS).
(** Within a commit each op comes after the one that adds its anchor. *)
Hypothesis (Hinner : ∀ h, ordered (λ t, t ∉ added_ids (of_stamp h all)) (of_stamp h all)).

(** The document so far is a causal run of the ops done; the others wait, whole commits of them, or are
    still to come. *)
Record sim (st : DocState) (p : Parked) (done rest : list Op) : Prop := mkSim {
  sm_run : apply_all done st0 = (st, Ok tt);
  sm_order : ordered (placed st0) done;
  sm_wf : parked_wf p;
  sm_all : done ++ waiting p ++ rest ≡ₚ all;
  sm_whole : ∀ n o e, pk_ops p !! n = Some (o, e) → op_hlc o ∈ pk_whole p;
  sm_commits : ∀ h, of_stamp h done ++ waiting_of p h ++ of_stamp h rest = of_stamp h all
}.

(** A commit that waits and could land. *)
Definition ready (st : DocState) (p : Parked) (h : Hlc) : Prop := needs_a_missing_task st (waiting_of p h) = false.

(** The commits that could land have an op among some numbers. *)
Definition awaited (st : DocState) (p : Parked) (pending : gset N) : Prop :=
  ∀ n o e, pk_ops p !! n = Some (o, e) → ready st p (op_hlc o) → ∃ k, k ∈ numbers_of p (op_hlc o) ∧ k ∈ pending.

Lemma sim_causal st p done rest : sim st p done rest → causal st (waiting p ++ rest) ∧ ∀ t, placed st t ↔ learned (placed st0) done t.
Proof.
  intros [Hr Ho _ Ha _ _]. assert (causal st0 (done ++ waiting p ++ rest)) as Hc by (eapply causal_perm; [symmetry; exact Ha|done]).
  destruct (causal_run st0 done _ Hc Ho) as (st' & E & Hc' & Hp). rewrite Hr in E. by injection E as <-.
Qed.

Lemma sim_new st p done rest o : sim st p done rest → o ∈ waiting p ++ rest → is_Some (new_line st o).
Proof.
  intros Hs Hin. destruct (sim_causal _ _ _ _ Hs) as [[_ Hn _ _ _] _]. rewrite Forall_forall in Hn. by apply Hn.
Qed.

Lemma sim_new_all st p done rest g : sim st p done rest → (∀ o, o ∈ g → o ∈ waiting p ++ rest) → Forall (λ o, is_Some (new_line st o)) g.
Proof. intros Hs Hg. apply Forall_forall. intros o Ho. eapply sim_new; [exact Hs|by apply Hg]. Qed.

(** What an op of a commit is anchored to: another commit's task, or one its own commit adds before. *)
Lemma inner_anchor h a w b o t : a ++ w ++ b = of_stamp h all → o ∈ w → anchor_of o = Some t →
  t ∉ added_ids (of_stamp h all) ∨ t ∈ added_ids a ∨ t ∈ added_ids w.
Proof.
  intros E Ho Ha. pose proof (Hinner h) as Hi. set (K := λ t, t ∉ added_ids (of_stamp h all)) in Hi. rewrite <- E in Hi. apply list_elem_of_split in Ho as (w1 & w2 & ->).
  rewrite <- app_assoc in Hi. cbn [app] in Hi. rewrite app_assoc in Hi. apply ordered_app in Hi as [_ [Hi _]].
  unfold anchored in Hi. rewrite Ha in Hi. apply learned_spec in Hi as [Hi|(x & Hx & Hxt)]; [by left|right].
  unfold added_ids. apply elem_of_app in Hx as [Hx|Hx]; [left|right]; apply list_elem_of_omap; exists x; (split; [set_solver|done]).
Qed.

Lemma added_placed st p done rest h t : sim st p done rest → t ∈ added_ids (of_stamp h done) → placed st t.
Proof.
  intros Hs (x & [_ Hx]%of_stamp_elem & Ht)%list_elem_of_omap. apply (sim_causal _ _ _ _ Hs), learned_spec. right. by exists x.
Qed.

Lemma apply_all_app l1 l2 st st1 : apply_all l1 st = (st1, Ok tt) → apply_all (l1 ++ l2) st = apply_all l2 st1.
Proof.
  revert st. induction l1 as [|x l1 IH]; intros st; cbn [app]; [by intros [= <-]|]. rewrite !apply_all_cons.
  destruct (doc_apply x st) as [st2 [[]|e]]; [apply IH|done].
Qed.

(** The next part of a commit lands when nothing it names is missing. *)
Lemma sim_land st p done rest h mid post others :
  sim st p done rest → of_stamp h done ++ mid ++ post = of_stamp h all → waiting p ++ rest ≡ₚ mid ++ others →
  needs_a_missing_task st mid = false →
  ∃ st', apply_all mid st = (st', Ok tt) ∧ apply_all (done ++ mid) st0 = (st', Ok tt) ∧ ordered (placed st0) (done ++ mid)
    ∧ ∀ t, placed st' t ↔ learned (placed st) mid t.
Proof.
  intros Hs Hh Hp Hn. destruct (sim_causal _ _ _ _ Hs) as [Hc Hpl].
  assert (Forall (λ o, is_Some (new_line st o)) mid) as Hnew by (eapply sim_new_all; [exact Hs|]; intros o Ho; rewrite Hp; set_solver).
  pose proof (proj1 (needs_spec st mid Hnew) Hn) as Hanch.
  assert (ordered (placed st) mid) as Ho.
  { pose proof (Hinner h) as Hi. set (K := λ t, t ∉ added_ids (of_stamp h all)) in Hi. rewrite <- Hh in Hi. apply ordered_app in Hi as [_ [Hi _]%ordered_app].
    eapply ordered_within; [exact Hi|exact Hanch|]. intros t [Ht|(x & Hx & Hxt)]%learned_spec Hin.
    - destruct Ht. rewrite <- Hh. unfold added_ids in *. rewrite !omap_app. set_solver.
    - eapply added_placed; [exact Hs|]. unfold added_ids. apply list_elem_of_omap. by exists x. }
  destruct (causal_run st mid others) as (st' & E & _ & Hpl'); [by eapply causal_perm|done|]. exists st'. split_and!; [done| | |done].
  - rewrite (apply_all_app _ _ _ _ (sm_run _ _ _ _ Hs)). done.
  - apply ordered_app. split; [apply Hs|]. eapply ordered_ext; [|exact Ho]. done.
Qed.

(** What becomes ready when some ops land is waiting for one of them. *)
Lemma newly_ready st p done rest st' p' mid h :
  sim st p done rest → parked_wf p' → (∀ o, o ∈ waiting p' → o ∈ waiting p ++ rest) → (∀ t, placed st' t ↔ learned (placed st) mid t) →
  Forall (λ o, is_Some (new_line st' o)) (waiting_of p' h) → ready st' p' h →
  needs_a_missing_task st (waiting_of p' h) = false ∨ ∃ k, k ∈ numbers_of p' h ∧ k ∈ naming p' (added_ids mid).
Proof.
  intros Hs Hp' Hsub Hpl Hnew' Hr. destruct (needs_a_missing_task st (waiting_of p' h)) eqn:Em; [right|by left].
  assert (∀ o, o ∈ waiting_of p' h → o ∈ waiting p ++ rest) as Hin by (intros o [_ Ho]%(waiting_of_elem p' h o Hp'); by apply Hsub).
  pose proof (sim_new_all _ _ _ _ _ Hs Hin) as Hnew. pose proof (needs_spec st _ Hnew) as Hsp. pose proof (proj1 (needs_spec st' _ Hnew') Hr) as Hr'.
  set (f := λ o, match anchor_of o with Some t => bool_decide (t ∈ added_ids mid) | None => false end).
  destruct (existsb f (waiting_of p' h)) eqn:Ex.
  - apply existsb_exists in Ex as (o & Ho%list_elem_of_In & Ht). unfold f in Ht. destruct (anchor_of o) as [t|] eqn:Ea; [|done].
    apply bool_decide_eq_true in Ht.
    apply waiting_of_elem in Ho as [Hst Ho]; [|done]. pose proof Ho as Ho0. apply waiting_elem in Ho as (k & e & Hk). exists k. split.
    + apply numbers_of_elem; [done|]. eauto.
    + apply naming_elem; [done|]. exists t, o, e. split_and!; [done|done|]. rewrite (new_line_names st o), Ea by (by eapply sim_new, Hsub). by left.
  - exfalso. apply not_false_iff_true in Em. apply Em, Hsp. intros o t Ho Ha. destruct (Hr' o t Ho Ha) as [?|Hplt]; [by left|].
    apply Hpl, learned_spec in Hplt as [?|(x & Hx & Hxt)]; [by right|].
    apply not_true_iff_false in Ex. destruct Ex. apply existsb_exists. exists o. split; [by apply list_elem_of_In|]. unfold f. rewrite Ha.
    apply bool_decide_eq_true. unfold added_ids. apply list_elem_of_omap. by exists x.
Qed.

Lemma of_stamp_all h l : (∀ o, o ∈ l → op_hlc o = h) → of_stamp h l = l ∧ ∀ h', h' ≠ h → of_stamp h' l = [].
Proof.
  induction l as [|o l IH]; intros H; [done|]. destruct IH as [IH1 IH2]; [intros x Hx; apply H; by right|].
  pose proof (H o ltac:(by left)) as Ho. unfold of_stamp in *. cbn. split.
  - by rewrite bool_decide_eq_true_2, IH1.
  - intros h' Hh. rewrite bool_decide_eq_false_2 by congruence. by apply IH2.
Qed.

Lemma leniently_filter (bare : list Op) : List.filter (λ o, negb (failed_id [] o)) bare = bare.
Proof. induction bare as [|o l IH]; [done|]. cbn [List.filter failed_id existsb negb]. by f_equal. Qed.

Lemma subjects_added st l : Forall (λ o, is_Some (new_line st o)) l → omap (λ o, subject (op_kind o)) l = added_ids l.
Proof. unfold added_ids. induction 1 as [|o l Ho _ IH]; [done|]. cbn. by rewrite (new_line_subject st o Ho), IH. Qed.

(** The queue after a commit left it. *)
Lemma taken_commit st p done rest n o e h :
  sim st p done rest → pk_ops p !! n = Some (o, e) → op_hlc o = h →
  ∃ o1 l p', waiting_of p h = o1 :: l ∧ op_hlc o1 = h
    ∧ p' = mkParked (pk_ops (take_all p (numbers_of p h))) (pk_next (take_all p (numbers_of p h))) (by_task (take_all p (numbers_of p h)))
        (by_stamp (take_all p (numbers_of p h))) (pk_whole (take_all p (numbers_of p h)) ∖ {[op_hlc o1]})
    ∧ parked_wf p' ∧ waiting p ≡ₚ waiting_of p h ++ waiting p' ∧ (∀ o, o ∈ waiting_of p h → op_hlc o = h)
    ∧ (∀ k o' e', pk_ops p' !! k = Some (o', e') ↔ pk_ops p !! k = Some (o', e') ∧ op_hlc o' ≠ h)
    ∧ (∀ k o' e', pk_ops p' !! k = Some (o', e') → op_hlc o' ∈ pk_whole p')
    ∧ waiting_of p' h = [] ∧ ∀ h', h' ≠ h → numbers_of p h' = numbers_of p' h' ∧ waiting_of p h' = waiting_of p' h'.
Proof.
  intros Hs Hn Hh0. pose proof (sm_wf _ _ _ _ Hs) as Hp. set (g := numbers_of p h).
  assert (∀ x, x ∈ waiting_of p h → op_hlc x = h) as Hst by (intros x [? _]%(waiting_of_elem p h x Hp); done).
  assert (o ∈ waiting_of p h) as Ho by (apply waiting_of_elem; [done|]; split; [done|]; apply waiting_elem; eauto).
  assert (∃ o1 l, waiting_of p h = o1 :: l) as (o1 & l & Ew) by (destruct (waiting_of p h) as [|o1 l]; [by apply elem_of_nil in Ho|by exists o1, l]).
  assert (op_hlc o1 = h) as H1 by (apply Hst; rewrite Ew; by left). set (p1 := take_all p g).
  set (p' := mkParked (pk_ops p1) (pk_next p1) (by_task p1) (by_stamp p1) (pk_whole p1 ∖ {[op_hlc o1]})).
  exists o1, l, p'. split_and!; [done|done|done|..].
  - by apply drop_whole_wf, take_all_wf.
  - rewrite (waiting_take_all p g) by apply in_order_nodup. fold p1. done.
  - exact Hst.
  - intros k o' e'. change (pk_ops p') with (pk_ops p1). unfold p1. rewrite take_all_ops. split.
    + case_bool_decide as Hk; [done|]. intros He. split; [done|]. intros Hh. apply Hk, numbers_of_elem; [done|]. eauto.
    + intros [He Hh]. rewrite bool_decide_eq_false_2; [done|]. intros (o2 & e2 & E2 & H2)%numbers_of_elem; [|done]. congruence.
  - intros k o' e'. change (pk_ops p') with (pk_ops p1). unfold p1. rewrite take_all_ops. case_bool_decide as Hk; [done|]. intros He.
    assert (op_hlc o' ≠ h) as Hne by (intros Hh; apply Hk, numbers_of_elem; [done|]; eauto).
    cbn [pk_whole p']. rewrite H1. apply elem_of_difference. split; [|set_solver].
    apply (take_all_whole p g h); [|apply elem_of_difference; split; [by eapply (sm_whole _ _ _ _ Hs)|set_solver]].
    intros k2 o2 e2 Hk2 He2. apply numbers_of_elem in Hk2 as (o3 & e3 & E3 & H3); [|done]. congruence.
  - assert (parked_wf p') as Hp' by (by apply drop_whole_wf, take_all_wf). destruct (waiting_of p' h) as [|x l'] eqn:E; [done|]. exfalso.
    assert (x ∈ waiting_of p' h) as Hx by (rewrite E; by left). apply waiting_of_elem in Hx as [Hxh Hx]; [|done].
    apply waiting_elem in Hx as (k & e' & Hk). change (pk_ops p') with (pk_ops p1) in Hk. unfold p1 in Hk. rewrite take_all_ops in Hk.
    case_bool_decide as Hb; [done|]. apply Hb, numbers_of_elem; [done|]. eauto.
  - intros h' Hh'. apply waiting_of_ext; [done|by apply drop_whole_wf, take_all_wf|]. intros k o' e' Ho'.
    change (pk_ops p') with (pk_ops p1). unfold p1. rewrite take_all_ops. case_bool_decide as Hk; [|done].
    apply numbers_of_elem in Hk as (o2 & e2 & E2 & H2); [|done]. split; [|done]. intros He. congruence.
Qed.

(** ** Retrying *)

(** One number tried: its commit lands whole when nothing it names is missing, else nothing changes. *)
Lemma sim_retry_group st p out done rest n :
  sim st p done rest →
  ∃ st' p' done' touched landed,
    retry_group st p (group_of p n) out = (st', p', mkParking (pk_skipped out) (pk_landed out + landed), touched)
    ∧ sim st' p' done' rest ∧ dom (pk_ops p') ⊆ dom (pk_ops p)
    ∧ (∀ pending, awaited st p pending → awaited st' p' (pending ∖ list_to_set (group_of p n) ∪ naming p' touched)).
Proof.
  intros Hs. pose proof (sm_wf _ _ _ _ Hs) as Hp. destruct (pk_ops p !! n) as [[o e]|] eqn:En.
  2:{ assert (group_of p n = []) as -> by (unfold group_of; by rewrite En).
      exists st, p, done, [], 0. split_and!; [by destruct out; unfold retry_group; cbn|done|done|].
      intros pending Ha k x ex Hk Hr. destruct (Ha k x ex Hk Hr) as (k' & ? & ?). exists k'. split; [done|]. set_solver. }
  rewrite (group_of_numbers _ _ _ _ En). set (h := op_hlc o).
  destruct (taken_commit st p done rest n o e h Hs En eq_refl) as (o1 & l & p' & Ew & H1 & Ep' & Hp' & Hperm & Hst & Hops & Hwh & Hwn & Hwo).
  assert (∀ x, x ∈ waiting_of p h → x ∈ waiting p ++ rest) as Hin by (intros x Hx; rewrite Hperm; set_solver).
  unfold retry_group. fold (numbered p (numbers_of p h)). change (map snd (numbered p (numbers_of p h))) with (waiting_of p h).
  destruct (needs_a_missing_task st (waiting_of p h)) eqn:Em.
  { exists st, p, done, [], 0. split_and!; [by destruct out; cbn; rewrite Nat.add_0_r|done|done|].
    intros pending Ha k x ex Hk Hr. destruct (Ha k x ex Hk Hr) as (k' & Hk' & Hpk). exists k'. split; [done|]. apply elem_of_union. left.
    apply elem_of_difference. split; [done|]. intros Hin'%elem_of_list_to_set. unfold ready in Hr.
    apply numbers_of_elem in Hk' as (y & ey & Ey & Hy); [|done]. apply numbers_of_elem in Hin' as (z & ez & Ez & Hz); [|done].
    assert (op_hlc x = h) as Hxh by congruence. rewrite Hxh in Hr. congruence. }
  pose proof (sm_commits _ _ _ _ Hs h) as Hch.
  destruct (sim_land st p done rest h (waiting_of p h) (of_stamp h rest) (waiting p' ++ rest) Hs Hch) as (st' & Ea & Er & Ho' & Hpl);
    [by rewrite Hperm, app_assoc|done|].
  destruct (of_stamp_all h _ Hst) as [Hs1 Hs2].
  assert (sim st' p' (done ++ waiting_of p h) rest) as Hs'.
  { split; [done|done|done| |done|].
    - rewrite <- (sm_all _ _ _ _ Hs), Hperm. by rewrite !app_assoc.
    - intros h'. rewrite of_stamp_app, <- (sm_commits _ _ _ _ Hs h'). destruct (decide (h' = h)) as [->|Hne].
      + by rewrite Hs1, Hwn, <- app_assoc.
      + destruct (Hwo h' Hne) as [_ ->]. by rewrite (Hs2 h' Hne), app_nil_r. }
  exists st', p', (done ++ waiting_of p h), (added_ids (waiting_of p h)), (length (waiting_of p h)). split_and!; [|done| |].
  - rewrite (leniently_run st (waiting_of p h) st') by (first [done|left; rewrite Ew in Hst |- *; apply Forall_forall; intros x Hx; rewrite H1; by apply Hst]).
    rewrite leniently_filter, (subjects_added st (waiting_of p h)) by (eapply sim_new_all; [exact Hs|exact Hin]).
    rewrite Ep', Ew. reflexivity.
  - intros k [[x ex] Hk]%elem_of_dom. apply elem_of_dom. apply Hops in Hk as [Hk _]. rewrite Hk. by eexists.
  - intros pending Ha k x ex Hk Hr. apply Hops in Hk as [Hk Hxh]. destruct (Hwo (op_hlc x) Hxh) as [Enum Ewait].
    destruct (newly_ready st p done rest st' p' (waiting_of p h) (op_hlc x)) as [Hold|(k' & Hk' & Hnm)]; [done|done| |done| |done| |].
    + intros y Hy. rewrite Hperm. set_solver.
    + eapply sim_new_all; [exact Hs'|]. intros y [_ Hy]%waiting_of_elem; [|done]. set_solver.
    + rewrite <- Ewait in Hold. destruct (Ha k x ex Hk Hold) as (k' & Hk' & Hpk). exists k'. rewrite <- Enum. split; [done|].
      apply elem_of_union. left. apply elem_of_difference. split; [done|]. intros Hin'%elem_of_list_to_set.
      apply numbers_of_elem in Hk' as (y & ey & Ey & Hy); [|done]. apply numbers_of_elem in Hin' as (z & ez & Ez & Hz); [|done]. congruence.
    + exists k'. split; [done|]. apply elem_of_union. by right.
Qed.

Lemma sim_retry_round fuel st p out done rest round later pos st' p' out' later' :
  sim st p done rest → awaited st p (filter (λ k, (pos <= k)%N) round ∪ later) →
  retry_round fuel st p out round later pos = Some (st', p', out', later') →
  ∃ done', sim st' p' done' rest ∧ awaited st' p' later' ∧ pk_skipped out' = pk_skipped out.
Proof.
  revert st p out done round later pos. induction fuel as [|fuel IH]; intros st p out done round later pos Hs Ha;
    cbn [retry_round]; pose proof (least_from_spec pos round) as Hl; destruct (least_from pos round) as [n|]; try discriminate.
  1,3: intros [= -> -> -> ->]; exists done; split_and!; [done| |done];
    intros k o e Hk Hr; destruct (Ha k o e Hk Hr) as (k' & ? & [Hf|?]%elem_of_union); [|by exists k'];
    apply fin_sets.elem_of_filter in Hf as [? ?]; by destruct (Hl k').
  destruct Hl as (Hn & Hpos & Hmin).
  destruct (sim_retry_group st p out done rest n Hs) as (st1 & p1 & done1 & touched & landed & E & Hs1 & Hdom & Ha1). rewrite E.
  intros Hr. apply IH with (done := done1) in Hr as (done' & Hs' & Ha' & Hk); [by exists done'|done|].
  specialize (Ha1 _ Ha). intros k o e Hk Hrd. destruct (Ha1 k o e Hk Hrd) as (k' & Hk' & Hin). exists k'. split; [done|].
  assert (k' ∈ dom (pk_ops p)) as Hkd.
  { apply Hdom, elem_of_dom. apply numbers_of_elem in Hk' as (x & ex & -> & _); [by eexists|apply Hs1]. }
  assert (k' ∉ group_of p n → k' ≠ n) as Hkn.
  { intros Hno ->. apply Hno. apply elem_of_dom in Hkd as [[x ex] Hx]. apply (group_of_elem p n n (sm_wf _ _ _ _ Hs)). by exists x, ex, x, ex. }
  repeat rewrite ?elem_of_union, ?elem_of_difference, ?fin_sets.elem_of_filter, ?elem_of_list_to_set in *.
  destruct (decide (n + 1 <= k')%N) as [Hle|Hgt].
  - destruct Hin as [[[[_ Hk1]|?] Hne]|?]; [left|by right; left|by left; split; [|right]]. split; [done|]. left. split; [done|]. by rewrite ?elem_of_list_to_set.
  - right. destruct Hin as [[[[Hpk Hk1]|?] Hne]|?]; [|by left|right; split; [lia|done]]. specialize (Hmin k' Hk1 Hpk). specialize (Hkn Hne). lia.
Qed.

Lemma sim_retry_rounds fuel st p out done rest round st' p' out' :
  sim st p done rest → awaited st p round → retry_rounds fuel st p out round = Some (st', p', out') →
  ∃ done', sim st' p' done' rest ∧ awaited st' p' ∅ ∧ pk_skipped out' = pk_skipped out.
Proof.
  revert st p out done round. induction fuel as [|fuel IH]; intros st p out done round Hs Ha; cbn [retry_rounds];
    case_bool_decide as Hr; try discriminate.
  1,2: intros [= -> -> ->]; subst round; by exists done.
  unfold mbind, option_bind. destruct (retry_round _ _ _ _ _ _ _) as [[[[st1 p1] out1] later]|] eqn:E; [|discriminate].
  intros Hrr. apply (sim_retry_round _ _ _ _ done rest) in E as (done1 & Hs1 & Ha1 & Hk1); [|done|].
  - apply (IH _ _ _ done1) in Hrr as (done' & Hs' & Ha' & Hk'); [|done|done]. exists done'. split_and!; [done|done|congruence].
  - intros k o e Hk Hrd. destruct (Ha k o e Hk Hrd) as (k' & ? & ?). exists k'. split; [done|]. apply elem_of_union. left.
    apply fin_sets.elem_of_filter. split; [lia|done].
Qed.

(** ** Delivery *)

Lemma sim_distinct st p done rest : sim st p done rest → NoDup (map op_id (waiting p ++ rest)).
Proof.
  intros Hs. pose proof Hids as Hd. rewrite <- (sm_all _ _ _ _ Hs), map_app in Hd. by apply NoDup_app in Hd as (_ & _ & ?).
Qed.

Lemma index_insert_le {A} (m : gmap N A) i x : size (<[i := x]> m) ≤ S (size m).
Proof. rewrite map_size_insert. case_match; cbn; lia. Qed.

(** A group parked whole, with room for it. *)
Lemma park_group_kept p out g h :
  parked_wf p → size (pk_ops p) + length g ≤ MAX_PARKED_OPS → (∀ o, o ∈ g → op_hlc o = h) →
  (∀ n o e, pk_ops p !! n = Some (o, e) → op_hlc o ∈ pk_whole p) →
  ∃ p', park_group p out g = (p', out) ∧ parked_wf p' ∧ waiting p' ≡ₚ waiting p ++ g
    ∧ (∀ n o e, pk_ops p' !! n = Some (o, e) → op_hlc o ∈ pk_whole p')
    ∧ (∀ h', waiting_of p' h' = waiting_of p h' ++ of_stamp h' g).
Proof.
  intros Hp Hz Hst Hwh. unfold park_group. revert p Hp Hz Hwh. induction g as [|o g IH]; intros p Hp Hz Hwh; cbn [foldl].
  { exists p. split_and!; [done|done|by rewrite app_nil_r|done|]. intros h'. by rewrite app_nil_r. }
  cbn [fst snd length] in *.
  destruct (push_kept p o (UnknownTask (first_name o)) out ({[op_hlc o]} ∪ pk_whole p) Hp) as (p1 & E & Hp1 & Hops & Hw); [lia|set_solver|].
  assert (pk_whole p1 = {[op_hlc o]} ∪ pk_whole p) as Hw1.
  { unfold push in E. cbn [pk_ops pk_next by_task by_stamp pk_whole] in E. case_match eqn:Eo; [|by injection E as <-].
    apply Nat.ltb_lt in Eo. change (pk_ops (put ?q ?n ?x ?y)) with (<[n := (x, y)]> (pk_ops q)) in Eo. cbn [pk_ops] in Eo.
    pose proof (index_insert_le (pk_ops p) (pk_next p + 1)%N (o, UnknownTask (first_name o))). lia. }
  rewrite E. destruct (IH (λ x Hx, Hst x ltac:(by right)) p1 Hp1) as (p' & E' & Hp' & Hperm & Hwh' & Hof).
  - assert (size (pk_ops p1) ≤ S (size (pk_ops p))); [|lia]. rewrite Hops. apply index_insert_le.
  - intros n x e Hn. rewrite Hw1. rewrite Hops in Hn. apply lookup_insert_Some in Hn as [[_ [= <- <-]]|[_ Hn]]; [set_solver|].
    apply elem_of_union. right. by eapply Hwh.
  - exists p'. split_and!; [done|done| |done|].
    + rewrite Hperm, Hw. solve_Permutation.
    + intros h'. rewrite Hof, (waiting_of_push p p1 o _ Hp Hp1 Hops). change (o :: g) with ([o] ++ g). by rewrite of_stamp_app, app_assoc.
Qed.

(** A group delivered: parked when its commit waits or names a missing task, else applied with all that it
    readies. *)
Lemma sim_group_parking st p out done g rest :
  sim st p done (g ++ rest) → one_commit g → awaited st p ∅ →
  ∃ st' p' out' done', apply_group_parking st p out g = Some (st', p', out')
    ∧ sim st' p' done' rest ∧ awaited st' p' ∅ ∧ pk_skipped out' = pk_skipped out.
Proof.
  intros Hs Hg Ha. pose proof (sm_wf _ _ _ _ Hs) as Hp. destruct g as [|o0 g0]; [done|]. set (g := o0 :: g0) in *. set (h := op_hlc o0).
  assert (∀ o, o ∈ g → op_hlc o = h) as Hst by (by apply Forall_forall). destruct (of_stamp_all h g Hst) as [Hs1 Hs2].
  assert (∀ o, o ∈ g → o ∈ waiting p ++ g ++ rest) as Hin by set_solver.
  pose proof (sm_commits _ _ _ _ Hs h) as Hch. rewrite of_stamp_app, Hs1 in Hch.
  assert (∀ w, w ∈ waiting_of p h → waits_whole p h = true) as Hjoin.
  { intros w [Hwh (n & e & Hn)%waiting_elem]%waiting_of_elem; [|done]. unfold waits_whole. apply bool_decide_eq_true. rewrite <- Hwh. by eapply Hs. }
  unfold apply_group_parking. cbn [g]. fold g. fold h. destruct (waits_whole p h || needs_a_missing_task st g) eqn:Em.
  { destruct (park_group_kept p out g h Hp) as (p' & E & Hp' & Hperm & Hwh & Hof); [|done|by eapply sm_whole|].
    { pose proof (Permutation_length (sm_all _ _ _ _ Hs)) as Hl. rewrite !length_app, waiting_length in Hl. pose proof Hfew. lia. }
    rewrite E. exists st, p', out, done.
    assert (sim st p' done rest) as Hs'.
    { split; [apply Hs|apply Hs|done| |done|].
      - rewrite <- (sm_all _ _ _ _ Hs), Hperm. by rewrite <- !app_assoc.
      - intros h'. rewrite Hof, <- (sm_commits _ _ _ _ Hs h'), of_stamp_app. by rewrite <- !app_assoc. }
    split_and!; [done|done| |done]. intros n o e Hn Hr. exfalso. unfold ready in Hr.
    assert (o ∈ waiting p') as Ho by (apply waiting_elem; eauto). destruct (decide (op_hlc o = h)) as [Hoh|Hoh].
    - rewrite Hoh, Hof, Hs1 in Hr.
      assert (Forall (λ o, is_Some (new_line st o)) (waiting_of p h ++ g)) as Hnew.
      { eapply sim_new_all; [exact Hs|]. intros x [Hx|Hx]%elem_of_app; [apply waiting_of_elem in Hx as [_ Hx]; [set_solver|done]|by apply Hin]. }
      pose proof (proj1 (needs_spec st _ Hnew) Hr) as Hanch. apply Forall_app in Hnew as [Hneww Hnewg].
      destruct (waiting_of p h) as [|w ws] eqn:Ew.
      + cbn [app] in Hanch. apply (needs_spec st g Hnewg) in Hanch. rewrite Hanch, orb_false_r in Em. unfold waits_whole in Em.
        apply bool_decide_eq_true in Em. apply (pw_whole _ Hp) in Em. apply (held_lookup _ _ (pw_stamp_tidy _ Hp)) in Em as [k Hk].
        apply (pw_stamp _ Hp) in Hk as (x & ex & Hk & Hx). assert (x ∈ waiting_of p h) as Hxw by (apply waiting_of_elem; [done|]; split; [done|]; apply waiting_elem; eauto).
        rewrite Ew in Hxw. by apply elem_of_nil in Hxw.
      + assert (w ∈ waiting_of p h) as Hw by (rewrite Ew; by left). pose proof Hw as [Hwh' (k & ek & Hk)%waiting_elem]%waiting_of_elem; [|done].
        destruct (Ha k w ek Hk) as (k' & _ & Hk'); [|set_solver]. unfold ready. rewrite Hwh', Ew. apply (needs_spec st _ Hneww). intros x t Hx Hat.
        destruct (inner_anchor h _ _ _ x t Hch Hx Hat) as [Hno|[Hdone|?]]; [|right; by eapply added_placed|by left].
        destruct (Hanch x t) as [Hadd|?]; [apply elem_of_app; by left|done| |by right]. destruct Hno. rewrite <- Hch.
        unfold added_ids in *. rewrite !omap_app in *. set_solver.
    - assert (waiting_of p' (op_hlc o) = waiting_of p (op_hlc o)) as Ew by (by rewrite Hof, Hs2, app_nil_r). rewrite Ew in Hr.
      assert (o ∈ waiting_of p (op_hlc o)) as Hop by (rewrite <- Ew; by apply waiting_of_elem). apply waiting_of_elem in Hop as [_ (k & ek & Hk)%waiting_elem]; [|done].
      destruct (Ha k o ek Hk Hr) as (k' & _ & Hk'). set_solver. }
  apply orb_false_iff in Em as [Ej Em].
  assert (waiting_of p h = []) as Ew by (destruct (waiting_of p h) as [|w ws]; [done|]; rewrite (Hjoin w) in Ej by (by left); done).
  rewrite Ew in Hch. cbn [app] in Hch.
  destruct (sim_land st p done (g ++ rest) h g (of_stamp h rest) (waiting p ++ rest) Hs Hch) as (st1 & Ea & Er & Ho1 & Hpl); [solve_Permutation|done|].
  rewrite (leniently_run st g st1) by (first [done|by left]). cbn [foldl].
  assert (sim st1 p (done ++ g) rest) as Hs1'.
  { split; [done|done|done| |apply Hs|].
    - rewrite <- (sm_all _ _ _ _ Hs). solve_Permutation.
    - intros h'. rewrite of_stamp_app, <- (sm_commits _ _ _ _ Hs h'), of_stamp_app. destruct (decide (h' = h)) as [->|Hne].
      + rewrite Ew. cbn [app]. by rewrite <- app_assoc.
      + by rewrite (Hs2 h' Hne), app_nil_r. }
  assert (awaited st1 p (naming p (added_ids g))) as Ha1.
  { intros n o e Hn Hr. destruct (newly_ready st p done (g ++ rest) st1 p g (op_hlc o)) as [Hold|?]; [done|done|set_solver|done| |done| |done].
    - eapply sim_new_all; [exact Hs1'|]. intros y [_ Hy]%waiting_of_elem; [|done]. set_solver.
    - destruct (Ha n o e Hn Hold) as (k' & _ & Hk'). set_solver. }
  rewrite leniently_filter, (subjects_added st g) by (by eapply sim_new_all).
  case_bool_decide as Hnil.
  - exists st1, p, out, (done ++ g). split_and!; [done|done| |done]. intros n o e Hn Hr. destruct (Ha1 n o e Hn Hr) as (k & ? & Hk).
    rewrite Hnil in Hk. unfold naming in Hk. cbn in Hk. set_solver.
  - assert (ids_distinct p) as Hd.
    { pose proof (sim_distinct _ _ _ _ Hs1') as Hd. rewrite map_app in Hd. by apply NoDup_app in Hd as [? _]. }
    destruct (retry_total st1 p (added_ids g) out Hp Hd) as (st' & p' & out' & E & _).
    rewrite E. unfold retry in E. apply (sim_retry_rounds _ _ _ _ _ _ _ _ _ _ Hs1' Ha1) in E as (done' & ? & ? & ?).
    by exists st', p', out', done'.
Qed.

Lemma sim_groups st p out done gs rest :
  sim st p done (concat gs ++ rest) → Forall one_commit gs → awaited st p ∅ →
  ∃ st' p' out' done', apply_groups st p out gs = Some (st', p', out')
    ∧ sim st' p' done' rest ∧ awaited st' p' ∅ ∧ pk_skipped out' = pk_skipped out.
Proof.
  intros Hs Hg. revert st p out done Hs. induction Hg as [|g gs Hg _ IH]; intros st p out done Hs Ha; cbn [apply_groups]; [by exists st, p, out, done|].
  cbn [concat] in Hs. rewrite <- app_assoc in Hs. destruct (sim_group_parking st p out done g _ Hs Hg Ha) as (st1 & p1 & out1 & done1 & E & Hs1 & Ha1 & Hk1).
  unfold mbind, option_bind. rewrite E.
  destruct (IH st1 p1 out1 done1 Hs1 Ha1) as (st' & p' & out' & done' & E' & Hs' & Ha' & Hk').
  exists st', p', out', done'. split_and!; [done|done|done|congruence].
Qed.

Lemma sim_batches st p done batches :
  sim st p done (concat batches) → awaited st p ∅ →
  ∃ st' p' done', apply_batches st p batches = Some (st', p', []) ∧ sim st' p' done' [] ∧ awaited st' p' ∅.
Proof.
  revert st p done. induction batches as [|b batches IH]; intros st p done Hs Ha; cbn [apply_batches concat]; [by exists st, p, done|].
  cbn [concat] in Hs. unfold mbind, option_bind, apply_parking. rewrite <- (chunk_by_stamp_concat b) in Hs.
  destruct (sim_groups st p Parking_default done _ _ Hs (chunks_one_commit b) Ha) as (st1 & p1 & out1 & done1 & E & Hs1 & Ha1 & Hk1). rewrite E.
  destruct (IH st1 p1 done1 Hs1 Ha1) as (st' & p' & done' & E' & Hs' & Ha'). rewrite E', Hk1. by exists st', p', done'.
Qed.

Lemma sim_start : sim st0 Parked_default [] all.
Proof.
  split; [done|done|apply parked_default_wf|done| |].
  - intros n o e. cbn. by rewrite lookup_empty.
  - intros h. assert (waiting_of Parked_default h = []) as ->; [|done]. unfold waiting_of, numbers_of, held. cbn. by rewrite lookup_empty.
Qed.

Lemma awaited_start : awaited st0 Parked_default ∅.
Proof. intros n o e. cbn. by rewrite lookup_empty. Qed.

End parking.

(** ** A causal order ends the waiting *)

(** The ops of each commit stand together. *)
Definition commits_apart (ops : list Op) : Prop := NoDup (omap (λ g, op_hlc <$> head g) (chunk_by_stamp ops)).

Lemma apart_group cs1 g cs2 o x :
  Forall one_commit (cs1 ++ g :: cs2) → NoDup (omap (λ g, op_hlc <$> head g) (cs1 ++ g :: cs2)) →
  o ∈ g → x ∈ concat (cs1 ++ g :: cs2) → op_hlc x = op_hlc o → x ∈ g.
Proof.
  intros Hone Hd Ho Hx Heq. apply Forall_app in Hone as [H1 [Hg H2]%Forall_cons].
  assert (∀ c y, one_commit c → y ∈ c → op_hlc <$> head c = Some (op_hlc y)) as Hhead.
  { intros [|z c] y Hc Hy; [done|]. cbn in *. f_equal. rewrite Forall_forall in Hc. symmetry. by apply Hc. }
  rewrite omap_app in Hd. cbn in Hd. rewrite (Hhead g o Hg Ho) in Hd. apply NoDup_app in Hd as (_ & Hd1 & Hd2).
  apply NoDup_cons in Hd2 as [Hd2 _].
  rewrite concat_app, elem_of_app in Hx. cbn [concat] in Hx. rewrite elem_of_app in Hx.
  assert (∀ cs, Forall one_commit cs → x ∈ concat cs → op_hlc o ∈ omap (λ g, op_hlc <$> head g) cs) as Hin.
  { intros cs Hcs Hx'. apply list_elem_of_In, in_concat in Hx' as (c & Hc%list_elem_of_In & Hxc%list_elem_of_In).
    apply list_elem_of_omap. exists c. split; [done|]. rewrite <- Heq. apply Hhead; [|done]. rewrite Forall_forall in Hcs. by apply Hcs. }
  destruct Hx as [Hx|[Hx|Hx]]; [|done|].
  - exfalso. apply (Hd1 (op_hlc o)); [by apply Hin|by left].
  - exfalso. apply Hd2. by apply Hin.
Qed.

Lemma first_group (cs : list (list Op)) (w : list Op) x :
  x ∈ concat cs → x ∈ w → ∃ cs1 g cs2 y, cs = cs1 ++ g :: cs2 ∧ y ∈ g ∧ y ∈ w ∧ ∀ z, z ∈ concat cs1 → z ∉ w.
Proof.
  induction cs as [|g cs IH]; intros Hx Hw; [by apply elem_of_nil in Hx|].
  destruct (existsb (λ y, bool_decide (y ∈ w)) g) eqn:E.
  - apply existsb_exists in E as (y & Hy%list_elem_of_In & Hyw%bool_decide_eq_true). exists [], g, cs, y. split_and!; [done|done|done|].
    intros z Hz. by apply elem_of_nil in Hz.
  - assert (∀ z, z ∈ g → z ∉ w) as Hg.
    { intros z Hz Hzw. apply not_true_iff_false in E. apply E, existsb_exists. exists z. split; [by apply list_elem_of_In|by apply bool_decide_eq_true]. }
    cbn [concat] in Hx. apply elem_of_app in Hx as [Hx|Hx]; [by destruct (Hg x)|].
    destruct (IH Hx Hw) as (cs1 & g' & cs2 & y & -> & Hy & Hyw & Hp). exists (g :: cs1), g', cs2, y. split_and!; [done|done|done|].
    cbn [concat]. intros z [Hz|Hz]%elem_of_app; [by apply Hg|by apply Hp].
Qed.

(** When some order is causal, within a commit each op comes after the one that adds its anchor. *)
Lemma ordered_inner st order h : causal st order → ordered (placed st) order →
  ordered (λ t, t ∉ added_ids (of_stamp h order)) (of_stamp h order).
Proof.
  intros Hc Ho. unfold of_stamp at 2. eapply ordered_filter; [exact Ho| |].
  - intros t Ht (x & [_ Hx]%of_stamp_elem & Hxt)%list_elem_of_omap. pose proof (cz_new _ _ Hc) as Hn. rewrite Forall_forall in Hn.
    destruct (Hn x Hx) as [[[e a] Hnew] _]. apply new_line_id in Hnew as [_ Hnew]. unfold placed in Ht. by rewrite (Hnew t Hxt) in Ht.
  - intros o t Hin Hf Hadd (x & Hx & Hxt)%list_elem_of_omap. apply of_stamp_elem in Hx as [Hxh Hx].
    pose proof (cz_ids _ _ Hc) as Hd. apply bool_decide_eq_false in Hf.
    apply list_elem_of_split in Hin as (pre & post & ->). rewrite omap_app in Hd. cbn in Hd. rewrite Hadd in Hd.
    apply NoDup_app in Hd as (_ & Hd1 & [Hd2 _]%NoDup_cons). apply elem_of_app in Hx as [Hx|[->|Hx]%elem_of_cons]; [|done|].
    + apply (Hd1 t); [apply list_elem_of_omap; by exists x|by left].
    + apply Hd2, list_elem_of_omap. by exists x.
Qed.

Lemma sim_done st0 all order st p done :
  causal st0 all → order ≡ₚ all → same_commits all order → ordered (placed st0) order → commits_apart order →
  sim st0 all st p done [] → awaited st p ∅ → pk_ops p = ∅.
Proof.
  intros Hc Hp Hsc Ho Hap Hs Ha. destruct (waiting p) as [|w ws] eqn:Ew.
  { apply map_size_empty_iff. by rewrite <- waiting_length, Ew. }
  exfalso. pose proof (sm_wf _ _ _ _ _ _ Hs) as Hwf. pose proof (sm_all _ _ _ _ _ _ Hs) as Hall. rewrite app_nil_r, <- Hp in Hall.
  destruct (first_group (chunk_by_stamp order) (waiting p) w) as (cs1 & g & cs2 & o & Ecs & Hog & How & Hpre).
  { rewrite chunk_by_stamp_concat, <- Hall, Ew. set_solver. }
  { rewrite Ew. by left. }
  pose proof (chunks_one_commit order) as Hone. unfold commits_apart in Hap. rewrite Ecs in Hone, Hap.
  assert (order = concat (cs1 ++ g :: cs2)) as Eorder by (by rewrite <- Ecs, chunk_by_stamp_concat).
  pose proof (sim_causal _ _ Hc _ _ _ _ Hs) as [_ Hpl]. pose proof How as (n & e & Hn)%waiting_elem.
  destruct (Ha n o e Hn) as (k & _ & Hk); [|set_solver].
  unfold ready. assert (Forall (λ o, is_Some (new_line st o)) (waiting_of p (op_hlc o))) as Hnew.
  { eapply (sim_new_all st0 all Hc); [exact Hs|]. intros x [_ Hx]%waiting_of_elem; [|done]. set_solver. }
  apply (needs_spec st _ Hnew). intros x t [Hxh Hx]%waiting_of_elem Hat; [|done].
  assert (x ∈ g) as Hxg.
  { eapply apart_group; [exact Hone|exact Hap|exact Hog| |exact Hxh]. rewrite <- Eorder, <- Hall. set_solver. }
  apply list_elem_of_split in Hxg as (g1 & g2 & ->).
  assert (order = (concat cs1 ++ g1) ++ x :: (g2 ++ concat cs2)) as Esplit.
  { rewrite Eorder, concat_app. cbn [concat]. by rewrite <- !app_assoc. }
  rewrite Esplit in Ho. apply ordered_app in Ho as [_ [Hanch _]]. unfold anchored in Hanch. rewrite Hat in Hanch.
  apply learned_spec in Hanch as [?|(y & Hy & Hyt)]; [right; apply Hpl, learned_spec; by left|].
  assert (y ∈ done ++ waiting p) as Hyin by (rewrite Hall, Esplit; set_solver).
  destruct (decide (y ∈ done)) as [Hyd|Hyd]; [right; apply Hpl, learned_spec; right; by exists y|]. left.
  apply elem_of_app in Hyin as [?|Hyw]; [done|]. apply elem_of_app in Hy as [Hy|Hy]; [by destruct (Hpre y)|].
  unfold added_ids. apply list_elem_of_omap. exists y. split; [|done]. apply waiting_of_elem; [done|]. split; [|done].
  apply Forall_app in Hone as [_ [Hg _]%Forall_cons]. rewrite <- Hxh. destruct (g1 ++ x :: g2) as [|z l] eqn:Eg; [done|].
  cbn in Hg. rewrite Forall_forall in Hg. rewrite (Hg y), (Hg x); [done|rewrite <- Eg; set_solver|rewrite <- Eg; set_solver].
Qed.

(** ** Claims *)

(** C5. Parking delivers: new lines and blanks that build on each other, given in any order and in any
    batches, even a commit's ops in several, as long as they come after each other as they were made, all
    land - nothing is skipped and nothing is left waiting - and the document is the one a causal order
    gives, where each op comes after the line it is anchored to and the ops of a commit, which share its
    stamp, stand together. The ops are new to the document, no two of one id or of one task, there is room
    for them, and no more than may wait. *)
Theorem parking_converges st order batches :
  causal st order → NoDup (map op_id order) → length order ≤ MAX_PARKED_OPS →
  ordered (placed st) order → commits_apart order →
  concat batches ≡ₚ order → same_commits (concat batches) order →
  ∃ st' p', apply_batches st Parked_default batches = Some (st', p', []) ∧ pk_ops p' = ∅ ∧ apply_all order st = (st', Ok tt).
Proof.
  intros Hc Hid Hl Ho Hap Hb Hsc.
  assert (causal st (concat batches)) as Hcb by (by eapply causal_perm; [symmetry|]).
  assert (NoDup (map op_id (concat batches))) as Hidb by (by rewrite Hb).
  assert (length (concat batches) ≤ MAX_PARKED_OPS) as Hlb by (by rewrite Hb).
  assert (∀ h, ordered (λ t, t ∉ added_ids (of_stamp h (concat batches))) (of_stamp h (concat batches))) as Hinner.
  { intros h. rewrite (Hsc h). by apply (ordered_inner st). }
  destruct (sim_batches st _ Hcb Hidb Hlb Hinner st Parked_default [] batches (sim_start _ _) (awaited_start _)) as (st' & p' & done & E & Hs & Ha).
  assert (pk_ops p' = ∅) as Hz by (eapply sim_done; [exact Hcb| |exact Hsc|exact Ho|exact Hap|exact Hs|exact Ha]; by rewrite Hb).
  exists st', p'. split_and!; [done|done|]. pose proof Hs as [Hr Hod Hwf Hall _ Hcm].
  assert (waiting p' = []) as Hw by (unfold waiting; by rewrite Hz, map_to_list_empty). rewrite Hw, !app_nil_r in Hall.
  assert (done ≡ₚ order) as Hdone by (by rewrite Hall).
  rewrite <- Hr. symmetry. apply causal_orders; [done| |by rewrite Hdone|by eapply causal_perm; [symmetry|]|done|done].
  intros h. rewrite <- (Hsc h), <- (Hcm h). assert (waiting_of p' h = []) as ->; [|by rewrite app_nil_r].
  destruct (waiting_of p' h) as [|x l] eqn:Ex; [done|]. assert (x ∈ waiting_of p' h) as Hx by (rewrite Ex; by left).
  apply waiting_of_elem in Hx as [_ Hx]; [|done]. rewrite Hw in Hx. by apply elem_of_nil in Hx.
Qed.

(** The commit of two lines comes in two batches before the line both are placed after. *)
Lemma parking_converges_witness :
  ∃ st st' p', doc_of [str "one"] = Some st
    ∧ apply_batches st Parked_default
        [[mkOp 21 (hlc_at 20 2) (PUser 2) todo_path (KInsert 12 (Some 11%N) (str "under it"))];
         [op_at 30 3 (KBlankInsert (Some 11%N)); mkOp 22 (hlc_at 20 2) (PUser 2) todo_path (KInsert 13 (Some 11%N) (str "and above that"))];
         [op_at 10 1 (KInsert 11 (Some 1%N) (str "first"))]] = Some (st', p', [])
    ∧ pk_ops p' = ∅ ∧ apply_all causal_sample st = (st', Ok tt).
Proof.
  destruct (doc_of [str "one"]) as [st|] eqn:E; [|vm_compute in E; discriminate E]. exists st.
  destruct (causal_sample_ready st E) as (Hc & Ho & Ho').
  set (batches := [[mkOp 21 (hlc_at 20 2) (PUser 2) todo_path (KInsert 12 (Some 11%N) (str "under it"))];
         [op_at 30 3 (KBlankInsert (Some 11%N)); mkOp 22 (hlc_at 20 2) (PUser 2) todo_path (KInsert 13 (Some 11%N) (str "and above that"))];
         [op_at 10 1 (KInsert 11 (Some 1%N) (str "first"))]]).
  assert (concat batches ≡ₚ causal_sample) as Hp by (unfold batches, causal_sample; cbn [concat app]; solve_Permutation).
  destruct (parking_converges st causal_sample batches Hc) as (st' & p' & H1 & H2 & H3).
  - apply (bool_decide_eq_true_1 _). vm_compute. reflexivity.
  - apply Nat.leb_le. vm_compute. reflexivity.
  - exact Ho.
  - apply (bool_decide_eq_true_1 _). vm_compute. reflexivity.
  - exact Hp.
  - apply same_commits_at; [exact Hp|]. repeat constructor.
  - exists st', p'. by split_and!.
Defined.
