(* ===== verification/DocNewest.v ===== *)
(** An op newer than everything a document holds, whatever it does, leaves a document in which nothing is
    newer: each task shown is at its newest placement, so the next such op again finds its anchor where
    it is shown. *)
From stdpp Require Import gmap.
From S2P Require Import Prelude.
From S2P Require Import Types.
From S2P Require Import TodoFile.
From S2P Require Import Diff.
From S2P Require Import Hlc.
From S2P Require Import TextHistory.
From S2P Require Import Ops.
From S2P Require Import DocState.
From S2P Require Import DocRows.
From S2P Require Import DocInvariant.
From S2P Require Import DocConverge.
From S2P Require Import DocErrors.
From S2P Require Import DocFresh.

(** Two rows that hold one placement, with its text changed, or shown otherwise if it is a plain blank. *)
Definition alike (r r' : Placement) : Prop :=
  p_id r' = p_id r ∧ p_stamp r' = p_stamp r ∧ p_eraser r' = p_eraser r
  ∧ (p_hidden r' = p_hidden r ∨ p_id r = None ∧ p_eraser r = false).

(** The document with the texts of its task lines changed. *)
Record retext (st st' : DocState) : Prop := mkRetext {
  rt_ids : entry_id <$> entries st' = entry_id <$> entries st;
  rt_hidden : hidden st' = hidden st;
  rt_visible : visible st' = visible st;
  rt_stamps : stamps st' = stamps st;
  rt_parents : parents st' = parents st;
  rt_erasers : erasers st' = erasers st;
  rt_path : ds_path st' = ds_path st
}.

(** A document nothing of which is newer than [h], its erasers settled. *)
Record calm (h : Hlc) (st : DocState) (rs : list Placement) : Prop := mkCalm {
  cm_fresh :> fresh_at h st rs;
  cm_settled : settle_erasers st = st
}.

(** ** Alike rows *)

Lemma alike_refl r : alike r r.
Proof. split_and!; auto. Qed.

Lemma alike_all_refl rs : Forall2 alike rs rs.
Proof. induction rs; constructor; [apply alike_refl|done]. Qed.

Lemma alike_trans r1 r2 r3 : alike r1 r2 → alike r2 r3 → alike r1 r3.
Proof. unfold alike. intros (-> & -> & -> & H1) (-> & -> & -> & H2). split_and!; try done. destruct H1 as [<-|?], H2 as [?|?]; auto. Qed.

Lemma alike_all_trans rs1 rs2 rs3 : Forall2 alike rs1 rs2 → Forall2 alike rs2 rs3 → Forall2 alike rs1 rs3.
Proof.
  intros H. revert rs3. induction H as [|r1 r2 rs1 rs2 H12 _ IH]; intros rs3 H2; inversion H2; subst; constructor; [by eapply alike_trans|by apply IH].
Qed.

Lemma alike_shows r r' : alike r r' → shows r' = shows r.
Proof.
  unfold shows. intros (Hi & _ & _ & [->|[Hn _]]); [by rewrite Hi|]. rewrite Hi, Hn. by destruct (p_hidden r), (p_hidden r').
Qed.

Lemma alike_rows_ok rs rs' : Forall2 alike rs rs' → rows_ok rs → rows_ok rs'.
Proof.
  intros H. apply rows_ok_same. eapply Forall2_impl; [exact H|]. intros r r' Ha. split; [by apply alike_shows|].
  destruct Ha as (Hi & _ & He & Hh). unfold eraser_ok. rewrite He. intros Hok Her. destruct (Hok Her) as [H1 H2].
  destruct Hh as [->|[_ ?]]; [|congruence]. split; [done|]. apply p_blank_id. rewrite Hi. by apply p_blank_id.
Qed.

Lemma alike_elem rs rs' r' : Forall2 alike rs rs' → r' ∈ rs' → ∃ r, r ∈ rs ∧ alike r r'.
Proof.
  intros H [k Hk]%list_elem_of_lookup. destruct (Forall2_lookup_r _ _ _ _ _ H Hk) as (r & Hr & Ha).
  exists r. split; [by eapply list_elem_of_lookup_2|done].
Qed.

Lemma fresh_alike h st rs st' rs' :
  fresh_at h st rs → Forall2 alike rs rs' → columns st' rs' → visible st' = visible_of (hidden st') → fresh_at h st' rs'.
Proof.
  intros [_ _ Hok Hnew Hst] Ha Hc Hv. split; [done|done|by eapply alike_rows_ok| |].
  - intros r r' i Hr Hr' Hh Hi Hi'. destruct (alike_elem _ _ _ Ha Hr) as (r0 & Hr0 & A1 & -> & _ & A3).
    destruct (alike_elem _ _ _ Ha Hr') as (r0' & Hr0' & B1 & -> & _ & _).
    apply (Hnew r0 r0' i); try done; [|congruence|congruence]. destruct A3 as [<-|[Hn _]]; [done|]. congruence.
  - apply Forall_forall. intros r' Hr'. destruct (alike_elem _ _ _ Ha Hr') as (r & Hr & _ & -> & _).
    rewrite Forall_forall in Hst. by apply Hst.
Qed.

(** ** Settling *)

Lemma alike_settle st rs : doc_wf st → columns st rs → ∃ rs', columns (settle_erasers st) rs' ∧ Forall2 alike rs rs'.
Proof.
  intros Hwf Hc. pose proof (blanks_apart_settle st) as Hap. pose proof (doc_wf_settle st Hwf) as (_ & rs' & Hc' & _).
  exists rs'. split; [done|]. apply Forall2_same_length_lookup_2.
  { rewrite <- (columns_length _ _ Hc), <- (columns_length _ _ Hc'). by rewrite (ba_entries _ _ Hap). }
  intros s r r' Hr Hr'. destruct (columns_lookup _ _ _ _ Hc Hr) as (E1 & E2 & E3 & _ & E4 & E5 & E6).
  destruct (columns_lookup _ _ _ _ Hc' Hr') as (F1 & F2 & F3 & _ & F4 & F5 & _).
  rewrite (apart_slot_id _ _ Hap) in F5. rewrite (apart_slot_stamp _ _ Hap) in F3. rewrite (apart_slot_eraser _ _ Hap) in F4.
  split_and!; [congruence..|]. destruct (ba_hidden _ _ Hap s) as [Hh|[Hb He]]; [left; congruence|right].
  split; [|congruence]. apply p_blank_id. congruence.
Qed.

Lemma settle_twice st : doc_wf st → settle_erasers (settle_erasers st) = settle_erasers st.
Proof.
  intros Hwf. destruct (existsb id (erasers st)) eqn:He.
  - apply settle_apart; [done|by apply doc_wf_settle|apply blanks_apart_settle|done].
  - assert (settle_erasers st = st) as E by (unfold settle_erasers; by rewrite He). by rewrite !E.
Qed.

Lemma fresh_settle h st rs : fresh_at h st rs → ∃ rs', calm h (settle_erasers st) rs' ∧ Forall2 alike rs rs'.
Proof.
  intros Hl. pose proof (fresh_wf _ _ _ Hl) as Hwf. destruct (alike_settle st rs Hwf (fr_columns _ _ _ Hl)) as (rs' & Hc & Ha).
  exists rs'. split; [|done]. split; [|by apply settle_twice]. eapply fresh_alike; [done|done|done|]. by apply doc_wf_settle.
Qed.

Lemma settled_spec st : settle_erasers st = st ↔ existsb id (erasers st) = false ∨ settled_hidden st = hidden st.
Proof.
  unfold settle_erasers. destruct (existsb id (erasers st)) eqn:He; cbn [negb]; [|by split; [left|]].
  fold (settled_hidden st). split.
  - intros H. right. case_bool_decide as E; [done|]. by apply (f_equal hidden) in H.
  - intros [?|E]; [done|]. by rewrite bool_decide_eq_true_2.
Qed.

(** ** Texts changed *)

Lemma retext_refl st : retext st st.
Proof. by split. Qed.

Lemma retext_trans a b c : retext a b → retext b c → retext a c.
Proof. intros [] []. split; congruence. Qed.

Lemma same_sequence_retext st st' : same_sequence st st' → retext st st'.
Proof. intros H. unfold same_sequence in H. destruct_and!. split; congruence. Qed.

Lemma retext_replace st i task l : slot_id st i = Some task → retext st (replace_entry st i (TaskEntry task l)).
Proof.
  intros Hi. split; try done. cbn. rewrite list_fmap_insert. apply list_insert_id. rewrite list_lookup_fmap.
  unfold slot_id in Hi. apply bind_Some in Hi as (e & He & Hi). rewrite He. cbn. by rewrite Hi.
Qed.

(** Metadata changed, then a found task's line. *)
Lemma retext_replace_meta st st' i task l :
  slot_id st i = Some task → same_sequence st st' → retext st (replace_entry st' i (TaskEntry task l)).
Proof.
  intros Hi Hs. eapply retext_trans; [by apply same_sequence_retext|]. apply retext_replace. by rewrite (same_sequence_slot_id st st').
Qed.

Lemma retext_slot_id st st' s : retext st st' → slot_id st' s = slot_id st s.
Proof.
  intros H. pose proof (rt_ids _ _ H) as E. apply (f_equal (lookup s)) in E. rewrite !list_lookup_fmap in E. unfold slot_id.
  destruct (entries st !! s), (entries st' !! s); cbn in *; congruence.
Qed.

Lemma retext_length st st' : retext st st' → length (entries st') = length (entries st).
Proof. intros H. pose proof (rt_ids _ _ H) as E. apply (f_equal length) in E. by rewrite !length_fmap in E. Qed.

Lemma retext_is_blank st st' s : retext st st' → is_blank st' s = is_blank st s.
Proof.
  intros H. pose proof (rt_ids _ _ H) as E. apply (f_equal (lookup s)) in E. rewrite !list_lookup_fmap in E. unfold is_blank.
  destruct (entries st !! s) as [[]|], (entries st' !! s) as [[]|]; cbn in *; congruence.
Qed.

Lemma retext_rows st st' rs : retext st st' → columns st rs → ∃ rs', columns st' rs' ∧ Forall2 alike rs rs'.
Proof.
  intros H Hc. pose proof (retext_length _ _ H) as Hlen. destruct (columns_lengths _ _ Hc) as (L1 & L2 & L3 & L4 & L5).
  destruct (columns_exist st') as [rs' Hc']; [by destruct H; congruence..|].
  exists rs'. split; [done|]. apply Forall2_same_length_lookup_2.
  { rewrite <- (columns_length _ _ Hc), <- (columns_length _ _ Hc'). done. }
  intros s r r' Hr Hr'. destruct (columns_lookup _ _ _ _ Hc Hr) as (_ & E2 & E3 & _ & E4 & E5 & _).
  destruct (columns_lookup _ _ _ _ Hc' Hr') as (_ & F2 & F3 & _ & F4 & F5 & _). rewrite (retext_slot_id _ _ s H) in F5.
  destruct H as [_ H1 _ H2 _ H3 _]. unfold slot_hidden, slot_stamp, slot_eraser in *. rewrite H1 in F2. rewrite H2 in F3. rewrite H3 in F4.
  split_and!; [congruence..|left; congruence].
Qed.

Lemma claim_from_ext st st' mine taken o ss :
  (∀ s, slot_eraser st' s = slot_eraser st s ∧ slot_hidden st' s = slot_hidden st s ∧ is_blank st' s = is_blank st s ∧ slot_stamp st' s = slot_stamp st s) →
  claim_from st' mine taken o ss = claim_from st mine taken o ss.
Proof.
  intros H. revert o. induction ss as [|s ss IH]; intros o; [done|]. cbn [claim_from]. destruct (H s) as (-> & -> & -> & ->). by rewrite !IH.
Qed.

Lemma retext_settled_hidden st st' : retext st st' → settled_hidden st' = settled_hidden st.
Proof.
  intros H. assert (∀ s, slot_eraser st' s = slot_eraser st s ∧ slot_hidden st' s = slot_hidden st s ∧ is_blank st' s = is_blank st s ∧ slot_stamp st' s = slot_stamp st s) as Hs.
  { intros s. rewrite (retext_is_blank _ _ s H). destruct H as [_ H1 _ H2 _ H3 _]. unfold slot_eraser, slot_hidden, slot_stamp. by rewrite H1, H2, H3. }
  assert (slots st' = slots st) as Hsl by (unfold slots; by rewrite (retext_length _ _ H)).
  assert (claims st' = claims st) as Hcl.
  { unfold claims. rewrite Hsl. rewrite (List.filter_ext (slot_eraser st') (slot_eraser st)) by (intros s; apply Hs).
    apply foldl_ext. intros acc s. unfold claim. rewrite Hsl. destruct (Hs s) as (_ & _ & _ & ->). by rewrite (claim_from_ext st st' _ _ _ _ Hs). }
  unfold settled_hidden. rewrite Hcl, (rt_hidden _ _ H). apply imap_ext. intros s h _. destruct (Hs s) as (-> & _ & -> & _). done.
Qed.

Lemma calm_retext h st rs st' : calm h st rs → retext st st' → ∃ rs', calm h st' rs' ∧ Forall2 alike rs rs'.
Proof.
  intros [Hl Hs] H. destruct (retext_rows _ _ _ H (fr_columns _ _ _ Hl)) as (rs' & Hc' & Ha). exists rs'. split; [|done]. split.
  - eapply fresh_alike; [done|done|done|]. rewrite (rt_visible _ _ H), (rt_hidden _ _ H). apply (fr_visible _ _ _ Hl).
  - apply settled_spec. rewrite (rt_erasers _ _ H), (retext_settled_hidden _ _ H), (rt_hidden _ _ H). by apply settled_spec.
Qed.

(** ** Ops on a line change texts only *)

Lemma retext_set_field task f v hlc st : f ≠ FDeleted → retext st (fst (doc_set_field task f v hlc st)).
Proof.
  intros Hf. unfold doc_set_field. rewrite bool_decide_eq_false_2 by done.
  destruct (content_slot st task) as [i|] eqn:Ei; [|apply retext_refl]. apply content_slot_id in Ei.
  set (line := default _ (slot_line st i)). destruct (is_stale_field st task f hlc).
  { destruct (priority_from_tag line); [|apply retext_refl]. destruct (bool_decide (f = FPriority)); [by apply retext_replace|apply retext_refl]. }
  assert (retext st (fst (match rewrite_prefix line f v with
            | None => (st, Err (Unsupported (str "SetField on this line")))
            | Some new_line =>
                let '(st', new_line) :=
                  if bool_decide (description_of line = description_of new_line) then (st, new_line)
                  else keep_in_history st task line new_line hlc in
                (record_field (replace_entry st' i (TaskEntry task new_line)) task f hlc, @Ok StateError unit tt)
            end))) as Hrw.
  { destruct (rewrite_prefix line f v) as [l|]; [|apply retext_refl].
    destruct (bool_decide (description_of line = description_of l)).
    { eapply retext_trans; [by apply retext_replace|]. apply same_sequence_retext, same_sequence_meta. }
    pose proof (keep_in_history_meta st task line l hlc) as Hk. destruct (keep_in_history st task line l hlc) as [st' l']; cbn [fst] in *.
    eapply retext_trans; [by eapply retext_replace_meta|]. apply same_sequence_retext, same_sequence_meta. }
  destruct (_ && _); [|apply Hrw]. destruct (done_description line) as [d|]; [|apply Hrw].
  unfold clear_done_priority, mbind, ST_bind, modify, try. pose proof (clear_pri_meta st task d) as Hc.
  destruct (clear_pri_in_description st task d) as [st' t]; cbn [fst] in *.
  destruct (with_description st' task line t) as [l|e]; cbn; [|by apply same_sequence_retext].
  eapply retext_trans; [by eapply retext_replace_meta|]. apply same_sequence_retext, same_sequence_meta.
Qed.

Lemma retext_edit_text task es hlc st : retext st (fst (doc_edit_text task es hlc st)).
Proof.
  unfold doc_edit_text. destruct (content_slot st task) as [i|] eqn:Ei; [|apply retext_refl]. apply content_slot_id in Ei.
  destruct (description_of _) as [d|]; [|apply retext_refl]. pose proof (edit_description_meta st task d hlc es) as Hm.
  destruct (edit_description st task d hlc es) as [st' r]; cbn [fst] in *. destruct (match r with Ok _ => _ | Err _ => _ end) as [l|e]; cbn [fst].
  - by eapply retext_replace_meta.
  - apply same_sequence_retext. eapply same_sequence_trans; [done|]. apply restore_text_meta.
Qed.

Lemma retext_remove_tag task key hlc st : retext st (fst (doc_remove_tag task key hlc st)).
Proof.
  unfold doc_remove_tag. destruct (negb _); [apply retext_refl|]. destruct (content_slot st task) as [i|] eqn:Ei; [|apply retext_refl].
  apply content_slot_id in Ei. destruct (description_of _) as [d|]; [|apply retext_refl]. pose proof (remove_tag_meta st task d hlc key) as Hm.
  destruct (remove_tag_in_description st task d hlc key) as [st' t]; cbn [fst] in *. destruct (with_description st' task _ t) as [l|e]; cbn [fst].
  - by eapply retext_replace_meta.
  - apply same_sequence_retext. eapply same_sequence_trans; [done|]. apply restore_text_meta.
Qed.

(** ** Room *)

Definition may_hide_count (rs : list Placement) : nat := length (List.filter (λ r, p_hidden r || p_blank r) rs).

Lemma roomy_rows n m st rs st' rs' :
  columns st rs → columns st' rs' → may_hide_count rs' + n ≤ may_hide_count rs + m → length rs' + n ≤ length rs + m →
  roomy m st → roomy n st'.
Proof.
  intros Hc Hc' H1 H2 [R1 R2]. split.
  - rewrite (may_hide_rows _ _ Hc'). rewrite (may_hide_rows _ _ Hc) in R1. unfold may_hide_count in *. lia.
  - rewrite (columns_length _ _ Hc'). rewrite (columns_length _ _ Hc) in R2. lia.
Qed.

Lemma alike_count rs rs' : Forall2 alike rs rs' → may_hide_count rs' = may_hide_count rs.
Proof.
  unfold may_hide_count. induction 1 as [|r r' rs rs' (Hi & _ & _ & Hh) _ IH]; [done|]. cbn.
  assert (p_blank r' = p_blank r) as Hb by (apply Bool.eq_iff_eq_true; by rewrite !p_blank_id, Hi).
  assert (p_hidden r' || p_blank r' = p_hidden r || p_blank r) as ->.
  { destruct Hh as [->|[Hn _]]; [by rewrite Hb|]. apply p_blank_id in Hn. by rewrite Hb, Hn, !orb_true_r. }
  destruct (_ || _); cbn; by rewrite IH.
Qed.

Lemma alike_roomy n st rs st' rs' : columns st rs → columns st' rs' → Forall2 alike rs rs' → roomy n st → roomy n st'.
Proof.
  intros Hc Hc' Ha. apply (roomy_rows n n st rs st' rs'); [done|done|by rewrite (alike_count _ _ Ha)|by rewrite (Forall2_length _ _ _ Ha)].
Qed.

Lemma count_insert_at n r rs :
  may_hide_count (insert_at n r rs) = may_hide_count rs + (if p_hidden r || p_blank r then 1 else 0).
Proof.
  unfold may_hide_count, insert_at. rewrite <- (take_drop n rs) at 3. rewrite !List.filter_app, !length_app. cbn.
  destruct (p_hidden r || p_blank r); cbn; lia.
Qed.

Lemma count_hide s rs : may_hide_count (alter hide_row s rs) ≤ S (may_hide_count rs).
Proof.
  unfold may_hide_count. destruct (rs !! s) as [r|] eqn:Hr.
  - rewrite (alter_split _ _ _ _ Hr). rewrite <- (take_drop_middle _ _ _ Hr) at 3. rewrite !List.filter_app, !length_app.
    cbn. destruct (p_hidden r || p_blank r); cbn; lia.
  - assert (alter hide_row s rs = rs) as ->; [|lia]. apply list_eq. intros k.
    destruct (decide (k = s)) as [->|]; [by rewrite list_lookup_alter_eq, Hr|by rewrite list_lookup_alter_ne].
Qed.

(** ** Ops on the sequence *)

(** A row placed hidden: an eraser, or a ghost of a task not shown. *)
Lemma fresh_ghost h st rs st' n r :
  fresh_at h st rs → columns st' (insert_at n r rs) → visible st' = visible_of (hidden st') →
  p_hidden r = true → p_stamp r = h → eraser_ok r → (∀ i, p_id r = Some i → live_slot st i = None) →
  fresh_at h st' (insert_at n r rs).
Proof.
  intros [Hc Hv Hok Hnew Hst] Hc' Hv' Hh Hs He Hid. split; [done|done| | |].
  - apply rows_ok_insert; [done|done|]. intros i Hi. unfold shows in Hi. by rewrite Hh in Hi.
  - intros r1 r2 i H1 H2 Hh1 Hi1 Hi2. rewrite insert_at_perm in H1, H2. apply elem_of_cons in H1 as [->|H1]; [congruence|].
    apply elem_of_cons in H2 as [->|H2]; [|by apply (Hnew r1 r2 i)]. exfalso.
    apply list_elem_of_lookup in H1 as [s H1]. destruct (columns_lookup _ _ _ _ Hc H1) as (_ & E1 & _ & _ & _ & E5 & _).
    rewrite (live_slot_None _ _ s (Hid i Hi2)) in E1; congruence.
  - rewrite insert_at_perm. constructor; [rewrite Hs; apply Hlc_ltb_irrefl|done].
Qed.

Lemma shift_slot_ne n j : shift_slot n j ≠ n.
Proof. unfold shift_slot. destruct (Nat.ltb_spec j n); lia. Qed.

Lemma shift_slot_onto n k : k ≠ n → ∃ j, k = shift_slot n j.
Proof.
  intros Hk. unfold shift_slot. destruct (decide (k < n)); [exists k|exists (k - 1)].
  - destruct (Nat.ltb_spec k n); lia.
  - destruct (Nat.ltb_spec (k - 1) n); lia.
Qed.

Lemma shift_slot_inj n i j : shift_slot n i = shift_slot n j → i = j.
Proof. unfold shift_slot. destruct (Nat.ltb_spec i n), (Nat.ltb_spec j n); lia. Qed.

Lemma lookup_insert_at_here {A} n (x : A) l : n ≤ length l → insert_at n x l !! n = Some x.
Proof. intros Hn. unfold insert_at. by rewrite list_lookup_middle by (rewrite length_take; lia). Qed.

Lemma alter_shift_insert {A} (g : A → A) n l (x : A) (rs : list A) :
  n ≤ length rs → alter g (shift_slot n l) (insert_at n x rs) = insert_at n x (alter g l rs).
Proof.
  intros Hn. apply list_eq. intros k. destruct (decide (k = n)) as [->|Hk].
  - rewrite list_lookup_alter_ne by apply shift_slot_ne.
    by rewrite !lookup_insert_at_here by (rewrite ?length_alter; done).
  - destruct (shift_slot_onto n k Hk) as [j ->].
    rewrite lookup_insert_at_shift by (by rewrite length_alter). destruct (decide (j = l)) as [->|Hne].
    + by rewrite !list_lookup_alter_eq, lookup_insert_at_shift.
    + rewrite !list_lookup_alter_ne, lookup_insert_at_shift; try done. by intros ?%shift_slot_inj.
Qed.

(** Showing the newest placement, when that is the one just added. *)
Lemma show_added st task n rs r :
  columns st rs → rs !! n = Some r → p_id r = Some task → p_hidden r = true →
  (∀ r', r' ∈ rs → Hlc_ltb (p_stamp r) (p_stamp r') = false) →
  let st' := show_newest st task n in
  columns st' (alter show_row n (match live_slot st task with Some l => alter hide_row l rs | None => rs end))
  ∧ visible st' = visible_of (hidden st').
Proof.
  intros Hc Hr Hi Hh Hnew. cbn zeta. unfold show_newest.
  set (le := λ a b, key_leb (slot_stamp st a, a =? n) (slot_stamp st b, b =? n)).
  assert (slot_id st n = Some task) as Hid by (destruct (columns_lookup _ _ _ _ Hc Hr) as (_ & _ & _ & _ & _ & -> & _); done).
  assert (n ∈ List.filter (slot_is st task) (slots st)) as Hin.
  { apply elem_of_filter. split; [by apply slot_is_spec|]. apply elem_of_slots. by eapply slot_id_lt. }
  assert (max_by le (List.filter (slot_is st task) (slots st)) = Some n) as ->.
  { destruct (max_by_nonempty le _ n Hin) as [m Hm]. rewrite Hm. f_equal.
    pose proof (max_by_elem _ _ _ Hm) as Hmin. apply elem_of_filter in Hmin as [Hmi%slot_is_spec _].
    assert (le n m = true) as Hle.
    { apply (max_by_ge le (List.filter (slot_is st task) (slots st)) m); [|by intros a b c; apply key_leb_trans|done|done].
      intros a b. apply key_leb_total. }
    destruct (slot_id_row _ _ _ _ Hc Hmi) as (rm & Hrm & _).
    destruct (columns_lookup _ _ _ _ Hc Hrm) as (_ & _ & Es & _). destruct (columns_lookup _ _ _ _ Hc Hr) as (_ & _ & Es' & _).
    unfold le in Hle. rewrite Es, Es', Nat.eqb_refl in Hle. apply key_leb_spec in Hle as [Hle|[_ Hle]]; cbn [fst snd] in Hle.
    - rewrite Hnew in Hle; [done|by eapply list_elem_of_lookup_2].
    - by apply Nat.eqb_eq, Hle. }
  rewrite bool_decide_eq_false_2.
  2:{ intros E. symmetry in E. apply live_slot_Some in E as [_ E]. destruct (columns_lookup _ _ _ _ Hc Hr) as (_ & E2 & _). congruence. }
  split; [|done]. apply columns_reindex.
  assert (∀ rs0 st0, columns st0 rs0 → columns (with_sequence st0 (entries st0) (<[n:=false]> (hidden st0)) (stamps st0) (parents st0) (erasers st0)) (alter show_row n rs0)) as Hshow.
  { intros rs0 st0 [He Hh0 Hs Hp Hr0]. split; cbn; rewrite ?He, ?Hh0, ?Hs, ?Hp, ?Hr0; symmetry;
      first [by apply alter_fmap_same | by apply alter_fmap_to]. }
  destruct (live_slot st task) as [l|]; [|by apply Hshow].
  destruct (Hshow _ _ (columns_hide st rs l Hc)) as [H1 H2 H3 H4 H5]. by split.
Qed.

(** An entry placed hidden and then shown. *)
Lemma columns_insert_hidden st rs spot e h :
  columns st rs → spot_at spot ≤ length rs →
  columns (hide_entry (insert_entry st spot e h) (spot_at spot))
    (insert_at (spot_at spot) (mkPlacement e true h (spot_parent spot) false) rs).
Proof.
  intros Hc Hle. pose proof (columns_hide _ _ (spot_at spot) (columns_insert st rs spot e h Hc)) as H.
  by rewrite alter_insert_at in H.
Qed.

Lemma fresh_rows_shown h st rs t s r : fresh_at h st rs → rs !! s = Some r → p_hidden r = false → p_id r = Some t → live_slot st t = Some s.
Proof.
  intros Hl Hr Hh Hi. pose proof (fr_columns _ _ _ Hl) as Hc. destruct (columns_lookup _ _ _ _ Hc Hr) as (_ & E1 & _ & _ & _ & E5 & _).
  destruct (live_slot st t) as [s'|] eqn:E; [|rewrite (live_slot_None _ _ s E) in E1; congruence].
  destruct (live_row _ _ _ _ _ Hl E) as (r' & Hr' & Hh' & Hi'). f_equal.
  eapply rows_ok_once; [exact (fr_ok _ _ _ Hl)|exact Hr'|exact Hr|..]; unfold shows; [by rewrite Hh'|by rewrite Hh].
Qed.

(** What a reinsert does to the rows: the new placement shown and the old one hidden, or a ghost. *)
Lemma fresh_reinsert_rows h st rs task spot e (lf : gmap TaskId Life) (show : bool) :
  fresh_at h st rs → spot_at spot ≤ length rs → entry_id e = Some task →
  let n := spot_at spot in
  let st2 := with_life (hide_entry (insert_entry st spot e h) n) lf in
  (is_Some (live_slot st task) → show = true) →
  let st3 := if show then show_newest st2 task n else st2 in
  ∃ rs3, fresh_at h st3 rs3 ∧ may_hide_count rs3 ≤ S (may_hide_count rs) ∧ length rs3 = S (length rs).
Proof.
  intros Hl Hle He n st2 Hshow st3. pose proof (fr_columns _ _ _ Hl) as Hc.
  set (row := mkPlacement e true h (spot_parent spot) false).
  assert (columns st2 (insert_at n row rs)) as Hc2.
  { eapply same_sequence_columns; [apply same_sequence_meta|]. by apply columns_insert_hidden. }
  assert (rs !! n = rs !! n) as _ by done.
  assert (insert_at n row rs !! n = Some row) as Hrow by (by apply lookup_insert_at_here).
  assert (∀ l, live_slot st2 task = Some l → ∃ l0, l = shift_slot n l0 ∧ live_slot st task = Some l0) as Hlive.
  { intros l El. pose proof (live_slot_Some _ _ _ El) as [Hi Hh]. destruct (slot_id_row _ _ _ _ Hc2 Hi) as (r & Hr & Hri).
    destruct (columns_lookup _ _ _ _ Hc2 Hr) as (_ & E1 & _). destruct (decide (l = n)) as [->|Hne].
    { rewrite Hrow in Hr. injection Hr as <-. by rewrite E1 in Hh. }
    destruct (shift_slot_onto n l Hne) as [l0 ->]. exists l0. split; [done|]. rewrite lookup_insert_at_shift in Hr by done.
    eapply fresh_rows_shown; [done|done|congruence|done]. }
  assert (live_slot st2 task = None → live_slot st task = None) as Hnone.
  { intros E. destruct (live_slot st task) as [l0|] eqn:E0; [|done]. exfalso. destruct (live_row _ _ _ _ _ Hl E0) as (r & Hr & Hrh & Hri).
    assert (insert_at n row rs !! shift_slot n l0 = Some r) as Hr2 by (by rewrite lookup_insert_at_shift).
    destruct (columns_lookup _ _ _ _ Hc2 Hr2) as (_ & E1 & _ & _ & _ & E5 & _). rewrite (live_slot_None _ _ _ E) in E1; congruence. }
  assert (∀ r, r ∈ insert_at n row rs → Hlc_ltb (p_stamp row) (p_stamp r) = false) as Hst.
  { intros r Hr. rewrite insert_at_perm in Hr. apply elem_of_cons in Hr as [->|Hr]; [apply Hlc_ltb_irrefl|].
    pose proof (fr_stamps _ _ _ Hl) as Hs. rewrite Forall_forall in Hs. by apply Hs. }
  pose proof (show_added st2 task n _ row Hc2 Hrow He eq_refl Hst) as [Hc3 Hv3]. cbn zeta in Hc3.
  destruct (live_slot st2 task) as [l|] eqn:El.
  - destruct (Hlive l eq_refl) as (l0 & -> & El0). assert (show = true) as -> by (by apply Hshow; exists l0). subst st3.
    rewrite alter_shift_insert, alter_insert_at in Hc3 by (rewrite ?length_alter; done).
    change (show_row row) with (mkPlacement e false h (spot_parent spot) false) in Hc3.
    pose proof (fresh_hide h st rs l0 Hl) as Hl1.
    assert (∀ i, entry_id e = Some i → live_slot (hide_entry st l0) i = None) as Hno.
    { intros i Hi. assert (i = task) as -> by congruence. apply live_slot_hidden; [by eapply fresh_wf|done]. }
    pose proof (fresh_insert h _ _ spot e Hl1 Hno) as Hl2. eexists. split; [|split].
    + eapply fresh_alike; [exact Hl2|apply alike_all_refl|exact Hc3|done].
    + rewrite count_insert_at. cbn. pose proof (count_hide l0 rs).
      assert (p_blank (mkPlacement e false h (spot_parent spot) false) = false) as ->; [|lia].
      apply not_true_iff_false. rewrite p_blank_id. unfold p_id. cbn. congruence.
    + rewrite length_insert_at, length_alter. done.
  - specialize (Hnone eq_refl). rewrite alter_insert_at in Hc3 by done.
    change (show_row row) with (mkPlacement e false h (spot_parent spot) false) in Hc3.
    assert (∀ i, entry_id e = Some i → live_slot st i = None) as Hno by (intros i Hi; congruence).
    destruct show; subst st3.
    + eexists. split; [|split].
      * eapply fresh_alike; [exact (fresh_insert h st rs spot e Hl Hno)|apply alike_all_refl|exact Hc3|done].
      * rewrite count_insert_at. destruct (_ || _); lia.
      * by rewrite length_insert_at.
    + eexists. split; [|split].
      * apply (fresh_ghost h st rs st2 n row); [done|done|done|done|done| |done]. intros Her. done.
      * rewrite count_insert_at. destruct (_ || _); lia.
      * by rewrite length_insert_at.
Qed.

(** ** Each op *)

(** A move is of a task shown. *)
Definition moves_shown (st : DocState) (k : OpKind) : Prop :=
  match k with KMove t _ _ => is_Some (live_slot st t) | _ => True end.

(** What the newest op's own change leaves: texts changed, or one row more or hidden. *)
Definition newest_left (h : Hlc) (st : DocState) (rs : list Placement) (k : OpKind) (st1 : DocState) : Prop :=
  (reshapes k = false ∧ retext st st1)
  ∨ (reshapes k = true ∧ ∃ rs1, fresh_at h st1 rs1 ∧ may_hide_count rs1 ≤ S (may_hide_count rs) ∧ length rs1 ≤ S (length rs)).

Lemma newest_hide h st rs s lf :
  fresh_at h st rs → ∃ rs1, fresh_at h (hide_entry (with_life st lf) s) rs1 ∧ may_hide_count rs1 ≤ S (may_hide_count rs) ∧ length rs1 ≤ S (length rs).
Proof.
  intros [Hc Hv Hok Hnew Hst]. assert (fresh_at h (with_life st lf) rs) as Hl by (split; try done; by eapply same_sequence_columns; [apply same_sequence_meta|]).
  eexists. split; [by apply fresh_hide|]. split; [apply count_hide|rewrite length_alter; lia].
Qed.

Lemma newest_deleted h st rs t v st1 :
  fresh_at h st rs → doc_set_deleted t v h st = (st1, Ok tt) →
  ∃ rs1, fresh_at h st1 rs1 ∧ may_hide_count rs1 ≤ S (may_hide_count rs) ∧ length rs1 ≤ S (length rs).
Proof.
  intros Hl. unfold doc_set_deleted. destruct v as [[]| | |]; try done. destruct (has_placement st t); [|done].
  unfold note_death. assert (∀ lf, ∃ rs1, fresh_at h (with_life st lf) rs1 ∧ may_hide_count rs1 ≤ S (may_hide_count rs) ∧ length rs1 ≤ S (length rs)) as Hmeta.
  { intros lf. exists rs. split; [|lia]. destruct Hl as [Hc Hv Hok Hnew Hst]. split; try done. by eapply same_sequence_columns; [apply same_sequence_meta|]. }
  destruct (live_slot _ t) as [s|]; [|intros [= <-]; apply Hmeta].
  destruct (match reborn _ with Some _ => _ | None => _ end); intros [= <-]; [by apply newest_hide|apply Hmeta].
Qed.

Lemma newest_reinsert h st rs t after line st1 :
  fresh_at h st rs → reinsert t after line h st = (st1, Ok tt) →
  ∃ rs1, fresh_at h st1 rs1 ∧ may_hide_count rs1 ≤ S (may_hide_count rs) ∧ length rs1 ≤ S (length rs).
Proof.
  intros Hl. unfold reinsert, mbind, ST_bind, modify, try. pose proof (fr_columns _ _ _ Hl) as Hc. pose proof (fresh_wf _ _ _ Hl) as Hwf.
  destruct (slot_after st after h) as [spot|e] eqn:Es; [|done]. destruct (ok_or _ _) as [current|e]; [|done].
  pose proof (merged_line_meta t current line h st) as Hm. destruct (merged_line t current line h st) as [stm [merged|e]]; cbn [fst] in Hm; [|done].
  assert (spot_at spot ≤ length rs) as Hle.
  { rewrite <- (columns_length _ _ Hc). eapply slot_after_le; [|exact Es]. by apply doc_wf_stamps. }
  assert (fresh_at h stm rs) as Hlm.
  { destruct Hl as [_ Hv Hok Hnew Hst]. split; [by eapply same_sequence_columns| |done|done|done]. unfold same_sequence in Hm. destruct_and!. congruence. }
  set (lf := <[t := _]> (life _)). set (st2 := with_life _ lf). set (show := _ || _).
  destruct (fresh_reinsert_rows h stm rs t spot (TaskEntry t merged) lf show Hlm Hle eq_refl) as (rs3 & Hl3 & Hcnt & Hlen).
  { intros Hlive. unfold show. by rewrite bool_decide_eq_true_2. }
  set (st3 := if show then _ else _) in *. change (if show then show_newest st2 t (spot_at spot) else st2) with st3.
  set (st4 := with_sequence st3 _ (hidden st3) (stamps st3) (parents st3) (erasers st3)).
  assert (retext st3 st4) as Hrt.
  { split; try done. cbn. change (map ?f (entries st3)) with (f <$> entries st3). rewrite <- list_fmap_compose. apply list_fmap_ext.
    intros _ e _. cbn. case_bool_decide as E; [by rewrite E|done]. }
  destruct (retext_rows _ _ _ Hrt (fr_columns _ _ _ Hl3)) as (rs4 & Hc4 & Ha).
  assert (fresh_at h st4 rs4) as Hl4.
  { eapply fresh_alike; [exact Hl3|done|done|]. rewrite (rt_visible _ _ Hrt), (rt_hidden _ _ Hrt). apply (fr_visible _ _ _ Hl3). }
  intros [= <-]. rewrite (fresh_rehome h st4 rs4 t Hl4). exists rs4. split; [done|].
  rewrite (alike_count _ _ Ha). rewrite <- (Forall2_length _ _ _ Ha). lia.
Qed.

Lemma newest_insert h st rs spot e :
  fresh_at h st rs → (∀ i, entry_id e = Some i → live_slot st i = None) →
  ∃ rs1, fresh_at h (insert_entry st spot e h) rs1 ∧ may_hide_count rs1 ≤ S (may_hide_count rs) ∧ length rs1 ≤ S (length rs).
Proof.
  intros Hl Hno. eexists. split; [by apply fresh_insert|]. rewrite count_insert_at, length_insert_at. destruct (_ || _); lia.
Qed.

(** The rows an eraser makes. *)
Lemma columns_insert_eraser st rs spot e h :
  columns st rs → spot_at spot ≤ length rs →
  columns (hide_entry (set_eraser (insert_entry st spot e h) (spot_at spot)) (spot_at spot))
    (insert_at (spot_at spot) (mkPlacement e true h (spot_parent spot) true) rs).
Proof.
  intros Hc Hle. pose proof (columns_hide _ _ (spot_at spot) (columns_set_eraser _ _ (spot_at spot) (columns_insert st rs spot e h Hc))) as H.
  by rewrite !alter_insert_at in H.
Qed.

Lemma fresh_eraser h st rs spot l :
  fresh_at h st rs → spot_at spot ≤ length rs →
  fresh_at h (hide_entry (set_eraser (insert_entry st spot (BlankEntry l) h) (spot_at spot)) (spot_at spot))
    (insert_at (spot_at spot) (mkPlacement (BlankEntry l) true h (spot_parent spot) true) rs).
Proof. intros Hl Hle. apply (fresh_ghost h st rs); [done|by apply columns_insert_eraser, Hle; apply (fr_columns _ _ _ Hl)|done|done|done|done|done]. Qed.

Lemma spot_in_rows st rs after h spot : columns st rs → doc_wf st → slot_after st after h = Ok spot → spot_at spot ≤ length rs.
Proof. intros Hc Hwf Hs. rewrite <- (columns_length _ _ Hc). eapply slot_after_le; [by apply doc_wf_stamps|done]. Qed.

Lemma newest_moved h st rs t after to st1 :
  fresh_at h st rs → is_Some (live_slot st t) → doc_move t after to h st = (st1, Ok tt) →
  ∃ rs1, fresh_at h st1 rs1 ∧ may_hide_count rs1 ≤ S (may_hide_count rs) ∧ length rs1 ≤ S (length rs).
Proof.
  intros Hl [s Hs]. unfold doc_move. rewrite Hs. destruct (negb _).
  { intros [= <-]. eexists. split; [by apply fresh_hide|]. split; [apply count_hide|rewrite length_alter; lia]. }
  destruct (bool_decide _); [done|]. destruct (anchor_slot st after h) as [a|e]; [|done].
  destruct (live_row _ _ _ _ _ Hl Hs) as (r & Hr & Hrh & Hri).
  assert (is_stale_move st s h = false) as ->.
  { unfold is_stale_move. destruct (stamps st !! s) as [x|] eqn:Ex; [|done].
    pose proof (fresh_stamp_le h st rs s Hl (lookup_lt_Some _ _ _ Hr)) as Hst. unfold slot_stamp in Hst. by rewrite Ex in Hst. }
  destruct (entries st !! s) as [e|] eqn:Ee; [|done]. unfold mbind, ST_bind, try, modify.
  destruct (columns_lookup _ _ _ _ (fr_columns _ _ _ Hl) Hr) as (E0 & _). assert (e = p_entry r) as -> by congruence.
  pose proof (fresh_hide h st rs s Hl) as Hl1. destruct (slot_after _ after h) as [spot|err] eqn:Es; [|done].
  assert (∀ i, entry_id (p_entry r) = Some i → live_slot (hide_entry st s) i = None) as Hno.
  { intros i Hi. assert (i = t) as -> by (unfold p_id in Hri; congruence). apply live_slot_hidden; [by eapply fresh_wf|done]. }
  pose proof (fresh_insert h _ _ spot (p_entry r) Hl1 Hno) as Hl2. intros [= <-]. rewrite (fresh_rehome h _ _ t Hl2).
  eexists. split; [exact Hl2|]. rewrite count_insert_at, length_insert_at, length_alter. cbn. pose proof (count_hide s rs).
  assert (p_blank (mkPlacement (p_entry r) false h (spot_parent spot) false) = false) as ->; [|lia].
  apply not_true_iff_false. rewrite p_blank_id. unfold p_id in *. cbn. congruence.
Qed.

Lemma newest_dispatch h st rs o st1 :
  fresh_at h st rs → op_hlc o = h → moves_shown st (op_kind o) → doc_dispatch o st = (st1, Ok tt) →
  newest_left h st rs (op_kind o) st1.
Proof.
  intros Hl Ho Hmv. pose proof (fresh_wf _ _ _ Hl) as Hwf. pose proof (fr_columns _ _ _ Hl) as Hc.
  unfold doc_dispatch, newest_left. rewrite Ho. destruct (op_kind o) as [t after line|t f v|t es|t after to|p es|after|after|t k]; intros Hd.
  - right. split; [done|]. unfold doc_insert in Hd. destruct (too_many st); [done|]. destruct (_ && _); [done|].
    destruct (has_placement st t) eqn:Hp; [by eapply newest_reinsert|]. unfold mbind, ST_bind, try, modify in Hd.
    destruct (slot_after st after h) as [spot|e]; [|done]. injection Hd as <-. apply newest_insert; [done|]. intros i [= <-]. by apply has_placement_live.
  - destruct (decide (f = FDeleted)) as [->|Hf].
    + right. split; [done|]. unfold doc_set_field in Hd. rewrite bool_decide_eq_true_2 in Hd by done. by eapply newest_deleted.
    + left. split; [by apply bool_decide_eq_false|]. pose proof (retext_set_field t f v h st Hf) as Hr. by rewrite Hd in Hr.
  - left. split; [done|]. pose proof (retext_edit_text t es h st) as Hr. by rewrite Hd in Hr.
  - right. split; [done|]. by eapply newest_moved.
  - done.
  - right. split; [done|]. unfold doc_blank_insert in Hd. destruct (too_many st); [done|]. unfold mbind, ST_bind, try, modify in Hd.
    destruct (slot_after st after h) as [spot|e]; [|done]. injection Hd as <-. by apply newest_insert.
  - right. split; [done|]. unfold doc_blank_remove, mbind, ST_bind, try, modify in Hd.
    destruct (slot_after st after h) as [spot|e] eqn:Es; [|done]. injection Hd as <-.
    eexists. split; [apply fresh_eraser; [done|by eapply spot_in_rows]|]. rewrite count_insert_at, length_insert_at. cbn. lia.
  - left. split; [done|]. pose proof (retext_remove_tag t k h st) as Hr. by rewrite Hd in Hr.
Qed.

(** A change that leaves the document fresh and with room is settled and not pruned. *)
Lemma newest_settled h st o st1 rs1 :
  doc_dispatch o st = (st1, Ok tt) → reshapes (op_kind o) = true → fresh_at h st1 rs1 → roomy 0 st1 →
  doc_apply o st = (settle_erasers st1, Ok tt) ∧ ∃ rs', calm h (settle_erasers st1) rs' ∧ Forall2 alike rs1 rs'.
Proof.
  intros Hd Hr Hl1 Hroom. destruct (fresh_settle h st1 rs1 Hl1) as (rs' & Hcm & Ha). split; [|by exists rs'].
  unfold doc_apply, mbind, ST_bind, modify. rewrite Hd, Hr. f_equal. apply prune_room; [exact (fresh_wf _ _ _ Hcm)|].
  destruct (alike_roomy 0 _ _ _ _ (fr_columns _ _ _ Hl1) (fr_columns _ _ _ Hcm) Ha Hroom) as [H _]. lia.
Qed.

(** The newest op, applied: the document is calm again; an op on a line takes no room. *)
Lemma newest_apply h st rs o st' n :
  calm h st rs → op_hlc o = h → moves_shown st (op_kind o) → roomy (S n) st → doc_apply o st = (st', Ok tt) →
  let m := if reshapes (op_kind o) then n else S n in
  (∃ rs', calm h st' rs') ∧ roomy m st' ∧ length (entries st') + m ≤ length (entries st) + S n.
Proof.
  intros Hcm Ho Hmv Hroom Ha. cbn zeta. pose proof (fr_columns _ _ _ Hcm) as Hc.
  assert (∃ st1, doc_dispatch o st = (st1, Ok tt)) as [st1 Hd].
  { unfold doc_apply, mbind, ST_bind in Ha. destruct (doc_dispatch o st) as [st1 [[]|e]]; [by exists st1|done]. }
  destruct (newest_dispatch h st rs o st1 Hcm Ho Hmv Hd) as [[Hr Hrt]|(Hr & rs1 & Hl1 & Hcnt & Hlen)].
  - destruct (calm_retext h st rs st1 Hcm Hrt) as (rs1 & Hcm1 & Hal).
    assert (roomy (S n) st1) as Hroom1 by (eapply (alike_roomy (S n) st rs); [done|exact (fr_columns _ _ _ Hcm1)|done|done]).
    unfold doc_apply, mbind, ST_bind, modify in Ha. rewrite Hd, Hr in Ha. rewrite Hr.
    rewrite prune_room in Ha; [|exact (fresh_wf _ _ _ Hcm1)|destruct Hroom1; lia]. injection Ha as <-.
    split_and!; [by exists rs1|done|by rewrite (retext_length _ _ Hrt)].
  - assert (roomy n st1) as Hroom1 by (eapply (roomy_rows n (S n) st rs st1 rs1); [done|exact (fr_columns _ _ _ Hl1)|lia|lia|done]).
    destruct (newest_settled h st o st1 rs1 Hd Hr Hl1) as [E (rs' & Hcm' & Hal)]; [destruct Hroom1; split; lia|].
    rewrite E in Ha. injection Ha as <-. rewrite Hr. split_and!; [by exists rs'| |].
    + eapply (alike_roomy n st1 rs1); [exact (fr_columns _ _ _ Hl1)|exact (fr_columns _ _ _ Hcm')|done|done].
    + rewrite (columns_length _ _ (fr_columns _ _ _ Hcm')), (columns_length _ _ Hc), <- (Forall2_length _ _ _ Hal). lia.
Qed.
