(* ===== verification/DocClaims.v ===== *)
(** Which blanks the erasers of a calm document claim: erasers right after a shown line claim the blanks
    that follow it, and a new blank placed over a blank of the same age leaves every claim as it was. *)
From stdpp Require Import gmap.
From S2P Require Import Prelude.
From S2P Require Import Types.
From S2P Require Import TodoFile.
From S2P Require Import Hlc.
From S2P Require Import TextHistory.
From S2P Require Import Ops.
From S2P Require Import DocState.
From S2P Require Import DocRows.
From S2P Require Import DocInvariant.
From S2P Require Import DocConverge.
From S2P Require Import DocErrors.
From S2P Require Import DocFresh.
From S2P Require Import DocNewest.

(** The erasers taken in order, from some claims on. *)
Definition claims_run (st : DocState) (acc : list (nat * nat)) (ss : list nat) : list (nat * nat) :=
  foldl (λ acc s, match claim st s (map snd acc) with Some b => acc ++ [(s, b)] | None => acc end) acc ss.

(** ** The list of claims *)

Lemma claims_run_app st acc s1 s2 : claims_run st acc (s1 ++ s2) = claims_run st (claims_run st acc s1) s2.
Proof. unfold claims_run. by rewrite foldl_app. Qed.

Lemma claims_run_cons st acc s ss :
  claims_run st acc (s :: ss) = claims_run st (match claim st s (map snd acc) with Some b => acc ++ [(s, b)] | None => acc end) ss.
Proof. done. Qed.

Lemma claims_run_prefix st acc ss : acc `prefix_of` claims_run st acc ss.
Proof.
  revert acc. induction ss as [|s ss IH]; intros acc; [done|]. cbn. destruct (claim st s _) as [b|]; [|apply IH].
  etransitivity; [|apply IH]. by apply prefix_app_r.
Qed.

(** Each eraser's claim was made with some of the final claims taken. *)
Lemma claims_run_each st acc ss s :
  s ∈ ss → ∃ acc', acc' `prefix_of` claims_run st acc ss ∧
    match claim st s (map snd acc') with Some b => (s, b) ∈ claims_run st acc ss | None => True end.
Proof.
  intros (s1 & s2 & ->)%list_elem_of_split. set (acc' := claims_run st acc s1). exists acc'.
  assert (claims_run st acc (s1 ++ s :: s2) = claims_run st (match claim st s (map snd acc') with Some b => acc' ++ [(s, b)] | None => acc' end) s2) as ->.
  { rewrite claims_run_app. fold acc'. done. }
  destruct (claim st s (map snd acc')) as [b|].
  - pose proof (claims_run_prefix st (acc' ++ [(s, b)]) s2) as Hp. split; [etransitivity; [|exact Hp]; by apply prefix_app_r|].
    destruct Hp as [l ->]. set_solver.
  - split; [apply claims_run_prefix|done].
Qed.

Lemma claims_run_from st acc ss e b :
  (e, b) ∈ claims_run st acc ss → (e, b) ∈ acc ∨ e ∈ ss ∧ ∃ acc', acc' `prefix_of` claims_run st acc ss ∧ claim st e (map snd acc') = Some b.
Proof.
  revert acc. induction ss as [|s ss IH]; intros acc H; [by left|]. cbn in H.
  change (foldl _ ?a ss) with (claims_run st a ss) in H.
  set (acc1 := match claim st s (map snd acc) with Some b => acc ++ [(s, b)] | None => acc end).
  assert (claims_run st acc (s :: ss) = claims_run st acc1 ss) as E by done. rewrite E.
  destruct (IH acc1) as [Hin|(He & acc' & Hp & Hc)]; [exact H| |right; split; [by right|by exists acc']].
  subst acc1. destruct (claim st s (map snd acc)) as [b'|] eqn:Ec; [|by left].
  apply elem_of_app in Hin as [?|Hin]; [by left|]. apply list_elem_of_singleton in Hin as [= -> ->]. right. split; [by left|].
  exists acc. split; [|done]. etransitivity; [|apply claims_run_prefix]. by apply prefix_app_r.
Qed.

Lemma claims_are st : claims st = claims_run st [] (List.filter (slot_eraser st) (slots st)).
Proof. done. Qed.

(** ** Erasers right after a shown line *)

(** Over hidden rows and up to an unclaimed blank not newer than it, an eraser claims one of them. *)
Lemma claim_stops st mine taken pre v post :
  Forall (λ s, slot_hidden st s = true ∨ is_blank st s = true) pre →
  slot_eraser st v = false → is_blank st v = true → v ∉ taken → Hlc_ltb mine (slot_stamp st v) = false →
  ∃ b, claim_from st mine taken None (pre ++ v :: post) = Some b ∧ (b ∈ pre ∨ b = v).
Proof.
  intros Hpre He Hb Ht Hn. induction Hpre as [|s pre Hs _ IH]; cbn [app claim_from].
  - rewrite He, Hb, (bool_decide_eq_false_2 _ Ht), Hn. cbn. rewrite andb_false_r. cbn. exists v. by split; [|right].
  - destruct IH as (b & IH & Hin). destruct (slot_eraser st s || (slot_hidden st s && negb (is_blank st s)) || _ || _) eqn:Ep.
    + exists b. split; [done|]. destruct Hin; [left; by right|by right].
    + destruct (is_blank st s) eqn:Eb; [exists s; split; [done|left; by left]|]. destruct Hs as [Hs|?]; [|done].
      by rewrite Hs, !orb_true_r in Ep.
Qed.

Lemma claim_range st e taken v :
  v < length (entries st) → e < v → (∀ s, e < s < v → slot_hidden st s = true ∨ is_blank st s = true) →
  slot_eraser st v = false → is_blank st v = true → v ∉ taken → Hlc_ltb (slot_stamp st e) (slot_stamp st v) = false →
  ∃ b, claim st e taken = Some b ∧ e < b ≤ v.
Proof.
  intros Hv Hev Hpre He Hb Ht Hn. unfold claim.
  assert (drop (e + 1) (slots st) = seq (e + 1) (v - e - 1) ++ v :: seq (v + 1) (length (entries st) - v - 1)) as ->.
  { unfold slots. rewrite skipn_seq. replace (length (entries st) - (e + 1)) with ((v - e - 1) + S (length (entries st) - v - 1)) by lia.
    rewrite seq_app. cbn [seq]. replace (0 + (e + 1)) with (e + 1) by lia. do 2 f_equal; [|f_equal]; lia. }
  destruct (claim_stops st (slot_stamp st e) taken (seq (e + 1) (v - e - 1)) v (seq (v + 1) (length (entries st) - v - 1))) as (b & Hc & Hin); try done.
  - apply Forall_forall. intros s Hs%elem_of_seq. apply Hpre. lia.
  - exists b. split; [done|]. destruct Hin as [Hin%elem_of_seq| ->]; lia.
Qed.

(** In a settled document with an unhidden blank [v], over hidden rows, the erasers before it, none older,
    claim as many blanks, all before it. *)
Lemma erasers_claim st n k v :
  doc_wf st → settle_erasers st = st → v < length (entries st) → n + k ≤ v →
  (∀ s, n ≤ s < v → slot_hidden st s = true) → is_blank st v = true → slot_eraser st v = false → slot_hidden st v = false →
  (∀ s, n ≤ s < n + k → slot_eraser st s = true ∧ Hlc_ltb (slot_stamp st s) (slot_stamp st v) = false) →
  k ≤ length (List.filter (λ s, is_blank st s && negb (slot_eraser st s)) (seq n (v - n))).
Proof.
  intros Hwf Hset Hv Hk Hhid Hb He Hsh Her. destruct k as [|k']; [lia|]. set (k := S k') in *.
  assert (existsb id (erasers st) = true) as Hany.
  { apply existsb_exists. exists true. split; [|done]. destruct (Her n) as [H _]; [lia|]. unfold slot_eraser in H.
    destruct (erasers st !! n) as [b|] eqn:E; [|done]. cbn in H. subst b. apply list_elem_of_In. by eapply list_elem_of_lookup_2. }
  assert (v ∉ map snd (claims st)) as Hno.
  { intros Hin. apply (settle_hides st v Hwf Hany Hb He) in Hin. rewrite Hset in Hin. congruence. }
  assert (∀ e taken, n ≤ e < n + k → taken `prefix_of` claims st → ∃ b, claim st e (map snd taken) = Some b ∧ e < b ≤ v) as Hcl.
  { intros e taken Hen [l Hp]. apply claim_range; try done; [lia|intros s Hs; left; apply Hhid; lia| |by apply Her].
    intros Hin. apply Hno. rewrite Hp, map_app. set_solver. }
  destruct (claims_spec st Hwf) as [Hnd Hok].
  set (P := List.filter (λ p, (n <=? fst p) && (fst p <? n + k)) (claims st)).
  assert (∀ e b, (e, b) ∈ P → n ≤ e < n + k ∧ (e, b) ∈ claims st) as HP.
  { intros e b [Hp Hin]%elem_of_filter. cbn in Hp. apply andb_true_iff in Hp as [H1%Nat.leb_le H2%Nat.ltb_lt]. split; [lia|done]. }
  assert (k ≤ length P) as HkP.
  { assert (seq n k ⊆+ map fst P) as Hsub%submseteq_length.
    - apply NoDup_submseteq; [apply NoDup_ListNoDup, seq_NoDup|]. intros e Hen%elem_of_seq.
      destruct (claims_run_each st [] (List.filter (slot_eraser st) (slots st)) e) as (acc' & Hp & Hm).
      { apply elem_of_filter. split; [by apply Her|]. apply elem_of_slots. lia. }
      rewrite <- claims_are in Hp, Hm. destruct (Hcl e acc' Hen Hp) as (b & Hb' & _). rewrite Hb' in Hm.
      apply list_elem_of_fmap. exists (e, b). split; [done|]. apply elem_of_filter. split; [|done]. cbn.
      apply andb_true_iff. split; [apply Nat.leb_le|apply Nat.ltb_lt]; lia.
    - by rewrite length_seq, length_map in Hsub. }
  etransitivity; [exact HkP|]. rewrite <- (length_map snd). apply submseteq_length, NoDup_submseteq.
  - eapply sublist_NoDup; [exact Hnd|]. apply (fmap_sublist snd). subst P. clear. induction (claims st) as [|p l IH]; cbn; [done|].
    destruct (_ && _); [by apply sublist_skip|by apply sublist_cons].
  - intros b Hin. apply list_elem_of_fmap in Hin as ([e b'] & -> & Hin). apply HP in Hin as [Hen Hin]. cbn.
    destruct (Hok e b' Hin) as (_ & _ & Hb' & He' & _). apply elem_of_filter. split; [by rewrite Hb', He'|]. apply elem_of_seq.
    pose proof Hin as Hfrom. rewrite claims_are in Hfrom.
    apply claims_run_from in Hfrom as [Hf|(_ & acc' & Hp & Hc')]; [by apply elem_of_nil in Hf|].
    rewrite <- claims_are in Hp. destruct (Hcl e acc' Hen Hp) as (b & Hc2 & Hr). rewrite Hc' in Hc2. injection Hc2 as ->.
    destruct (decide (b = v)) as [->|]; [|lia]. exfalso. apply Hno. apply list_elem_of_fmap. by exists (e, v).
Qed.

(** ** A blank over blanks of its age *)

(** The slot is a shown line right before a gap: the top, or the anchor's line. *)
Definition line_before (st : DocState) (n : nat) : Prop :=
  n = 0 ∨ ∃ a, n = S a ∧ a < length (entries st) ∧ is_blank st a = false ∧ slot_hidden st a = false ∧ slot_eraser st a = false.

(** The rows from a gap on begin with blanks stamped [h], one of them no eraser. *)
Definition barrier (h : Hlc) (n : nat) (rs : list Placement) : Prop :=
  ∃ m, (∀ s r, n ≤ s ≤ n + m → rs !! s = Some r → p_blank r = true ∧ p_stamp r = h)
       ∧ ∃ r, rs !! (n + m) = Some r ∧ p_eraser r = false.

Lemma claim_passes st mine taken o pre s post :
  Hlc_ltb mine (slot_stamp st s) = true →
  claim_from st mine taken o (pre ++ s :: post) = claim_from st mine taken o (pre ++ post).
Proof.
  intros Hs. revert o. induction pre as [|x pre IH]; intros o; cbn [app claim_from].
  - by rewrite Hs, orb_true_r.
  - by rewrite !IH.
Qed.

(** A shown line not newer than the eraser keeps it from what only newer lines may come before. *)
Lemma claim_blocked st mine taken o pre a post h :
  is_blank st a = false → slot_hidden st a = false → slot_eraser st a = false → a ∉ taken →
  Hlc_ltb mine (slot_stamp st a) = false → Hlc_ltb h (slot_stamp st a) = false →
  (∀ old, Hlc_ltb h old = false → claim_from st mine taken (Some old) post = None) →
  claim_from st mine taken o (pre ++ a :: post) = claim_from st mine taken o pre.
Proof.
  intros Hb Hh He Ht Hn Ha Hpost. revert o. induction pre as [|x pre IH]; intros o; cbn [app claim_from].
  - rewrite He, Hh, Hb, (bool_decide_eq_false_2 _ Ht), Hn. cbn. apply Hpost. destruct o as [o|]; [|done].
    destruct (Hlc_leb o (slot_stamp st a)) eqn:E; [|done]. apply Hlc_leb_spec in E.
    apply not_true_iff_false. apply not_true_iff_false in Ha. rewrite Hlc_ltb_spec in *. unfold Hlc_lt in *. lia.
  - by rewrite !IH.
Qed.

(** Nothing is claimed over lines as old as [h], where the first plain blank is stamped [h]. *)
Lemma claim_none st mine taken old pre b post h :
  Hlc_ltb h old = false → Hlc_ltb mine h = false →
  Forall (λ s, is_blank st s = true ∧ slot_stamp st s = h ∧ s ∉ taken) (pre ++ [b]) → slot_eraser st b = false →
  claim_from st mine taken (Some old) (pre ++ b :: post) = None.
Proof.
  intros Ho Hm Hf Hb. induction pre as [|s pre IH]; cbn [app claim_from] in *; apply Forall_cons in Hf as [(Hs & Hst & Ht) Hf].
  - by rewrite Hb, Hs, Hst, (bool_decide_eq_false_2 _ Ht), Hm, Ho, andb_false_r.
  - rewrite Hs, Hst, (bool_decide_eq_false_2 _ Ht), Hm, Ho, andb_false_r, !orb_false_r. destruct (slot_eraser st s); [by apply IH|done].
Qed.

Section shifted.
Context (st : DocState) (rs : list Placement) (h : Hlc) (spot : Spot) (l : OwnedLine).
Hypothesis Hf : fresh_at h st rs.
Hypothesis Hn : spot_at spot ≤ length rs.
Let n := spot_at spot.
Let sh := shift_slot n.
Let st1 := insert_entry st spot (BlankEntry l) h.

Lemma shifted_eraser s : slot_eraser st1 (sh s) = slot_eraser st s.
Proof.
  unfold slot_eraser, st1, sh. cbn. rewrite lookup_insert_at_shift; [done|].
  destruct (columns_lengths _ _ (fr_columns _ _ _ Hf)) as (_ & _ & _ & _ & ->). done.
Qed.

Lemma shifted_blank s : is_blank st1 (sh s) = is_blank st s.
Proof.
  unfold is_blank, st1, sh. cbn. rewrite lookup_insert_at_shift; [done|]. by rewrite (columns_length _ _ (fr_columns _ _ _ Hf)).
Qed.

Lemma shifted_here : slot_eraser st1 n = false ∧ is_blank st1 n = true ∧ slot_stamp st1 n = h.
Proof.
  destruct (columns_lengths _ _ (fr_columns _ _ _ Hf)) as (_ & _ & L3 & _ & L5).
  pose proof (columns_length _ _ (fr_columns _ _ _ Hf)) as L.
  unfold slot_eraser, is_blank, slot_stamp, st1, n. cbn. rewrite !lookup_insert_at_here by (rewrite ?L3, ?L5, ?L; done). done.
Qed.

Lemma shifted_taken s taken : bool_decide (sh s ∈ map sh taken) = bool_decide (s ∈ taken).
Proof.
  apply bool_decide_ext. split; [|by apply list_elem_of_fmap_2].
  intros (x & E%shift_slot_inj & Hx)%list_elem_of_fmap. by subst.
Qed.

Lemma shifted_from mine taken o ss :
  claim_from st1 mine (map sh taken) o (map sh ss) = sh <$> claim_from st mine taken o ss.
Proof.
  pose proof (fr_columns _ _ _ Hf) as Hc. revert o. induction ss as [|s ss IH]; intros o; [done|]. cbn [map claim_from].
  rewrite shifted_taken, shifted_eraser, shifted_blank.
  assert (slot_hidden st1 (sh s) = slot_hidden st s) as -> by (by eapply insert_slot_hidden).
  assert (slot_stamp st1 (sh s) = slot_stamp st s) as -> by (by eapply insert_slot_stamp).
  rewrite !IH. destruct (_ || Hlc_ltb _ _); [done|]. destruct (is_blank st s); [|done]. by destruct (match o with None => _ | Some _ => _ end).
Qed.

Lemma shifted_seq i k : n ≤ i → map sh (seq i k) = seq (S i) k.
Proof.
  intros Hi. rewrite <- seq_shift. apply map_ext_in. intros s [? _]%in_seq. unfold sh, shift_slot. by rewrite (proj2 (Nat.ltb_ge s n)) by lia.
Qed.

Lemma shifted_seq_before i k : i + k ≤ n → map sh (seq i k) = seq i k.
Proof.
  intros Hi. rewrite <- (map_id (seq i k)) at 2. apply map_ext_in. intros s [_ ?]%in_seq. unfold sh, shift_slot. by rewrite (proj2 (Nat.ltb_lt s n)) by lia.
Qed.

Lemma shifted_length : length (entries st1) = S (length (entries st)).
Proof. unfold st1. cbn. by rewrite length_insert_at. Qed.

Lemma shifted_slots_after e : n ≤ e → drop (sh e + 1) (slots st1) = map sh (drop (e + 1) (slots st)).
Proof.
  intros He. unfold slots. rewrite shifted_length, !skipn_seq, !Nat.add_0_l, shifted_seq by lia.
  unfold sh, shift_slot. rewrite (proj2 (Nat.ltb_ge e n)) by lia. f_equal; lia.
Qed.

Lemma shifted_slots_before e :
  e < n → ∃ pre post, drop (e + 1) (slots st) = pre ++ post ∧ pre = seq (e + 1) (n - (e + 1)) ∧ post = seq n (length (entries st) - n)
    ∧ drop (sh e + 1) (slots st1) = map sh pre ++ n :: map sh post.
Proof.
  intros He. pose proof (columns_length _ _ (fr_columns _ _ _ Hf)) as L. exists (seq (e + 1) (n - (e + 1))), (seq n (length (entries st) - n)).
  unfold slots. rewrite shifted_length, (shifted_seq n), (shifted_seq_before (e + 1)), !skipn_seq, !Nat.add_0_l by lia.
  unfold sh, shift_slot. rewrite (proj2 (Nat.ltb_lt e n)) by lia. assert (n ≤ length (entries st)) as Hn2 by (unfold n; lia). split_and!; [|done|done|].
  - replace (length (entries st) - (e + 1)) with ((n - (e + 1)) + (length (entries st) - n)) by lia. rewrite seq_app.
    by replace (e + 1 + (n - (e + 1))) with n by lia.
  - replace (S (length (entries st)) - (e + 1)) with ((n - (e + 1)) + S (length (entries st) - n)) by lia. rewrite seq_app. cbn [seq].
    by replace (e + 1 + (n - (e + 1))) with n by lia.
Qed.
End shifted.

Section over_barrier.
Context (st : DocState) (rs : list Placement) (h : Hlc) (spot : Spot) (l : OwnedLine).
Hypothesis Hf : fresh_at h st rs.
Hypothesis Hn : spot_at spot ≤ length rs.
Hypothesis Hline : line_before st (spot_at spot).
Hypothesis Hbar : barrier h (spot_at spot) rs.
Let n := spot_at spot.
Let sh := shift_slot n.
Let st1 := insert_entry st spot (BlankEntry l) h.

(** What the erasers before the gap take: nothing after it that is stamped [h]. *)
Definition spares (taken : list nat) : Prop := ∀ t, t ∈ taken → is_blank st t = true ∧ (n ≤ t → slot_stamp st t ≠ h).

Lemma barrier_slots s m :
  n ≤ s ≤ n + m → n + m < length rs → (∀ s r, n ≤ s ≤ n + m → rs !! s = Some r → p_blank r = true ∧ p_stamp r = h) →
  is_blank st s = true ∧ slot_stamp st s = h.
Proof.
  intros Hs Hm Hall. destruct (lookup_lt_is_Some_2 rs s) as [r' Hr']; [lia|].
  destruct (columns_lookup _ _ _ _ (fr_columns _ _ _ Hf) Hr') as (_ & _ & -> & _ & _ & _ & ->). by apply (Hall s).
Qed.

Lemma claim_spares e taken b :
  slot_eraser st e = true → e < n → spares taken → claim st e taken = Some b → is_blank st b = true ∧ (n ≤ b → slot_stamp st b ≠ h).
Proof.
  intros He Hen Ht Hc. destruct (claim_spec st e taken b (fresh_wf _ _ _ Hf) He Hc) as [_ Hok].
  destruct Hok as (_ & _ & Hb & _ & Hn1 & Hbet); [apply Forall_forall; intros t Hin; by apply Ht|]. split; [done|].
  intros Hnb Hst. destruct Hline as [H0|(a & Ha & Hlt & Hab & Hah & Hae)]; [fold n in H0; lia|]. fold n in Ha.
  assert (a ≠ e) as Hne by congruence.
  assert (Hlc_ltb h (slot_stamp st a) = false) as Hold.
  { apply (fresh_stamp_le h st rs a Hf). by rewrite <- (columns_length _ _ (fr_columns _ _ _ Hf)). }
  destruct (Hbet a) as [H|H]; [lia|done|done| |rewrite Hst in H; congruence].
  rewrite Hst in Hn1. apply not_true_iff_false in Hn1. apply not_true_iff_false in Hold. rewrite Hlc_ltb_spec in *. unfold Hlc_lt in *. lia.
Qed.

Lemma claim_before e taken :
  slot_eraser st e = true → e < n → spares taken → claim st1 (sh e) (map sh taken) = sh <$> claim st e taken.
Proof.
  intros He Hen Ht. pose proof (fr_columns _ _ _ Hf) as Hc. pose proof (columns_length _ _ Hc) as L.
  destruct Hline as [H0|(a & Ha & Hlt & Hab & Hah & Hae)]; [fold n in H0; lia|]. fold n in Ha.
  assert (a ≠ e) as Hne by congruence.
  destruct (shifted_slots_before st rs h spot l Hf Hn e Hen) as (pre & post & E & Epre & Epost & E1).
  fold n in Epre, Epost, E1; fold sh st1 in E1. unfold claim. rewrite E, E1.
  assert (slot_stamp st1 (sh e) = slot_stamp st e) as -> by (by eapply insert_slot_stamp).
  destruct (shifted_here st rs h spot l Hf Hn) as (N1 & N2 & N3). fold st1 n in N1, N2, N3.
  pose proof (shifted_from st rs h spot l Hf Hn (slot_stamp st e) taken) as Hsh. fold n in Hsh; fold sh st1 in Hsh.
  destruct (Hlc_ltb (slot_stamp st e) h) eqn:Hlt'.
  { rewrite claim_passes by (by rewrite N3). by rewrite <- map_app, Hsh. }
  assert (pre = seq (e + 1) (n - (e + 1) - 1) ++ [a]) as ->.
  { rewrite Epre. remember (n - (e + 1) - 1) as k. assert (n - (e + 1) = k + 1) as -> by lia. rewrite seq_app. cbn. do 2 f_equal. lia. }
  assert (Hlc_ltb h (slot_stamp st a) = false) as Hold by (apply (fresh_stamp_le h st rs a Hf); lia).
  assert (a ∉ taken) as Hat by (intros Hin; apply Ht in Hin as [? _]; congruence).
  assert (Hlc_ltb (slot_stamp st e) (slot_stamp st a) = false) as Hea.
  { apply not_true_iff_false. apply not_true_iff_false in Hold, Hlt'. rewrite Hlc_ltb_spec in *. unfold Hlc_lt in *. lia. }
  rewrite map_app, <- !app_assoc. cbn [map app].
  rewrite !(claim_blocked _ _ _ _ _ _ _ h), Hsh; try done.
  - intros old Ho. destruct Hbar as (m & Hall & r & Hr & Her). fold n in Hall, Hr. pose proof (lookup_lt_Some _ _ _ Hr) as Hm.
    subst post. replace (length (entries st) - n) with (m + S (length (entries st) - n - m - 1)) by lia. rewrite seq_app. cbn [seq].
    apply (claim_none _ _ _ _ _ _ _ h); [done|done| |].
    + apply Forall_forall. intros s Hs. assert (n ≤ s ≤ n + m) as Hsn.
      { apply elem_of_app in Hs as [Hs%elem_of_seq| ->%list_elem_of_singleton]; lia. }
      destruct (barrier_slots s m) as [H1 H2]; [lia|lia|done|]. split_and!; [done|done|].
      intros Hin. apply Ht in Hin as [_ Hin]. apply Hin; [lia|done].
    + by destruct (columns_lookup _ _ _ _ Hc Hr) as (_ & _ & _ & _ & -> & _).
  - by rewrite <- (shifted_blank st rs h spot l Hf Hn) in Hab.
  - by rewrite (insert_slot_hidden st rs spot (BlankEntry l) h Hc Hn).
  - by rewrite (shifted_eraser st rs h spot l Hf Hn).
  - intros (x & Ex%shift_slot_inj & Hx)%list_elem_of_fmap. by subst.
  - by rewrite (insert_slot_stamp st rs spot (BlankEntry l) h Hc Hn).
  - by rewrite (insert_slot_stamp st rs spot (BlankEntry l) h Hc Hn).
  - intros old Ho. change (n :: map sh post) with ([] ++ n :: map sh post). apply (claim_none _ _ _ _ _ _ _ h); [done|done| |done].
    constructor; [|done]. split_and!; [done|done|]. intros (x & Ex & _)%list_elem_of_fmap. by apply (shift_slot_ne n x).
Qed.

Lemma claim_after e taken : n ≤ e → claim st1 (sh e) (map sh taken) = sh <$> claim st e taken.
Proof.
  intros He. unfold claim. assert (drop (sh e + 1) (slots st1) = map sh (drop (e + 1) (slots st))) as E by (by eapply shifted_slots_after). rewrite E.
  assert (slot_stamp st1 (sh e) = slot_stamp st e) as -> by (eapply insert_slot_stamp; [by eapply fr_columns|done]).
  by apply shifted_from with (rs := rs).
Qed.
Let both := λ p : nat * nat, (sh (fst p), sh (snd p)).

Lemma both_snd acc : map snd (map both acc) = map sh (map snd acc).
Proof. rewrite !map_map. done. Qed.

Lemma run_after acc ss : Forall (λ e, n ≤ e) ss → claims_run st1 (map both acc) (map sh ss) = map both (claims_run st acc ss).
Proof.
  intros H. revert acc. induction H as [|e ss He _ IH]; intros acc; [done|]. rewrite map_cons, !claims_run_cons, both_snd, claim_after by done.
  destruct (claim st e _) as [b|]; cbn; [|apply IH]. rewrite <- IH. f_equal. by rewrite map_app.
Qed.

Lemma run_before acc ss :
  Forall (λ e, e < n ∧ slot_eraser st e = true) ss → spares (map snd acc) →
  claims_run st1 (map both acc) (map sh ss) = map both (claims_run st acc ss).
Proof.
  intros H. revert acc. induction H as [|e ss [He Her] _ IH]; intros acc Ha; [done|]. rewrite map_cons, !claims_run_cons, both_snd, claim_before by done.
  destruct (claim st e _) as [b|] eqn:E; cbn; [|by apply IH]. rewrite <- (IH (acc ++ [(e, b)])); [f_equal; by rewrite map_app|].
  rewrite map_app. intros t [Ht|Ht]%elem_of_app; [by apply Ha|]. apply list_elem_of_singleton in Ht as ->. by eapply claim_spares.
Qed.

Lemma claims_insert : claims st1 = map both (claims st).
Proof.
  pose proof (columns_length _ _ (fr_columns _ _ _ Hf)) as L. rewrite !claims_are. unfold slots.
  assert (length (entries st1) = S (length (entries st))) as -> by apply shifted_length.
  destruct (shifted_here st rs h spot l Hf Hn) as (N1 & _). fold st1 n in N1.
  rewrite (filter_slots_insert _ n) by (done || (unfold n; lia)).
  rewrite (List.filter_ext (λ s, slot_eraser st1 (shift_slot n s)) (slot_eraser st)) by (intros s; by apply shifted_eraser with (rs := rs)).
  fold sh. assert (length (entries st) = n + (length (entries st) - n)) as -> by (unfold n; lia). rewrite seq_app, List.filter_app, map_app, !claims_run_app.
  change (@nil (nat * nat)) with (map both []) at 1. rewrite run_before, run_after; [done|..].
  - apply Forall_forall. intros s [_ Hs%elem_of_seq]%elem_of_filter. lia.
  - apply Forall_forall. intros s [Hs Hin%elem_of_seq]%elem_of_filter. split; [lia|done].
  - intros t Ht. by apply elem_of_nil in Ht.
Qed.

(** A blank placed over the barrier is shown, and nothing else changes. *)
Lemma settled_over_barrier : settle_erasers st = st → settle_erasers st1 = st1.
Proof.
  intros Hs. pose proof (fr_columns _ _ _ Hf) as Hc. destruct (columns_lengths _ _ Hc) as (L1 & L2 & L3 & L4 & L5).
  destruct (shifted_here st rs h spot l Hf Hn) as (N1 & N2 & _). fold st1 n in N1, N2.
  apply settled_spec. apply settled_spec in Hs as [Hs|Hs].
  { left. apply not_true_iff_false. rewrite existsb_exists. intros (b & Hb & Eb). apply not_true_iff_false in Hs. apply Hs.
    apply existsb_exists. exists b. split; [|done]. apply list_elem_of_In. apply list_elem_of_In in Hb. unfold st1 in Hb. cbn in Hb.
    rewrite insert_at_perm in Hb. by apply elem_of_cons in Hb as [->|Hb]. }
  right. transitivity (insert_at n false (settled_hidden st)); [|by rewrite Hs]. unfold settled_hidden.
  change (hidden st1) with (insert_at n false (hidden st)). apply list_eq. intros k. rewrite list_lookup_imap.
  assert (n ≤ length (hidden st)) as Hnh by (rewrite L2; done). destruct (decide (k = n)) as [->|Hk].
  - rewrite !lookup_insert_at_here by (rewrite ?length_imap; done). cbn [fmap option_fmap option_map]. rewrite N1, N2. cbn [andb negb]. f_equal.
    apply bool_decide_eq_false. rewrite claims_insert, both_snd. intros (x & Ex & _)%list_elem_of_fmap. by apply (shift_slot_ne n x).
  - destruct (shift_slot_onto n k Hk) as [j ->]. rewrite !lookup_insert_at_shift by (rewrite ?length_imap; done).
    rewrite list_lookup_imap. fold sh. destruct (hidden st !! j) as [b|]; [|done]. cbn [fmap option_fmap option_map]. f_equal.
    rewrite claims_insert, both_snd.
    assert (is_blank st1 (sh j) = is_blank st j) as -> by (by apply shifted_blank with (rs := rs)).
    assert (slot_eraser st1 (sh j) = slot_eraser st j) as -> by (by apply shifted_eraser with (rs := rs)).
    assert (bool_decide (sh j ∈ map sh (map snd (claims st))) = bool_decide (j ∈ map snd (claims st))) as -> by apply shifted_taken.
    done.
Qed.
End over_barrier.
