(* ===== verification/Replay.v ===== *)
(** A reconcile's ops must replay on a peer: [reconcile_replay.rs] of [crates/txtodo-engine/src]. When the
    reconciler's own ops do not reproduce the file it rendered, others are made against a scratch copy:
    delete what is gone, put the tasks in order, even out the blank lines.

    The lemma: whatever way a reconcile is settled, the document kept writes back exactly the file
    that was reconciled, and ops said to be exact replay to it ([settled_right]). That it settles at all
    is shown in [ReplayEnds]. *)
From stdpp Require Import gmap.
From S2P Require Import Prelude.
From S2P Require Import Utf8.
From S2P Require Import Types.
From S2P Require Import Ulid.
From S2P Require Import Scanner.
From S2P Require Import Parser.
From S2P Require Import TodoFile.
From S2P Require Import Edit.
From S2P Require Import Diff.
From S2P Require Import Hlc.
From S2P Require Import TextHistory.
From S2P Require Import Ops.
From S2P Require Import DocState.
From S2P Require Import DocRows.
From S2P Require Import DocInvariant.
From S2P Require Import DocConverge.
From S2P Require Import DocErrors.
From S2P Require Import DocFresh.
From S2P Require Import DocView.
From S2P Require Import Mutation.
From S2P Require Import Reconcile.

(** ** Replaying *)

(** What a reconcile commits. *)
Record Settled := mkSettled {
  s_kinds : list OpKind;
  s_next : DocState;
  s_exact : bool;
  s_synthesized : bool
}.

(** The ops in order on a copy; [None] at the first that does not apply. *)
Fixpoint replay (st : DocState) (ks : list OpKind) : option DocState :=
  match ks with
  | [] => Some st
  | k :: ks' =>
      match doc_apply (scratch_op (ds_path st) k) st with
      | (st', Ok _) => replay st' ks'
      | (_, Err _) => None
      end
  end.

(** ** One synthesis pass *)

(** How a task whose line changed is carried over. *)
Inductive Changed := ChFields | ChReinsert.

Record Pass := mkPass { p_work : DocState; p_ops : list OpKind }.

(** One op, applied to the copy as it is made. *)
Definition pass_push (p : Pass) (k : OpKind) : option Pass :=
  match doc_apply (scratch_op (ds_path (p_work p)) k) (p_work p) with
  | (st', Ok _) => Some (mkPass st' (p_ops p ++ [k]))
  | (_, Err _) => None
  end.

(** A loop over a list that stops at the first refusal. *)
Fixpoint each {A S} (f : S → A → option S) (s : S) (l : list A) : option S :=
  match l with
  | [] => Some s
  | x :: l' => s' ← f s x; each f s' l'
  end.

Definition delete_kind (id : TaskId) : option OpKind := result_ok (op_set_field id FDeleted (FVBool true)).

(** One task of the current document: gone, unchanged, or changed. *)
Definition carry_task (target : DocState) (how : Changed) (p : Pass) (il : TaskId * OwnedLine) : option Pass :=
  let '(i, line) := il in
  match line_of_task target i with
  | None => k ← delete_kind i; pass_push p k
  | Some new =>
      if bool_decide (new = line) then Some p
      else match how with
           | ChReinsert => k ← delete_kind i; pass_push p k
           | ChFields => each pass_push p (change_ops line new i)
           end
  end.

Definition delete_and_change (p : Pass) (current target : DocState) (how : Changed) : option Pass :=
  each (carry_task target how) p (task_lines current).

Definition blank_at (st : DocState) (i : nat) : bool :=
  match entry_at st i with Some (BlankEntry _) => true | _ => false end.

Definition tasks_before (st : DocState) (n : nat) : nat :=
  length (List.filter (λ i, negb (blank_at st i)) (seq 0 n)).

(** The [k]-th task of the target: left where it is when [k] tasks are before it, else moved after the
    one before it, or inserted there. *)
Definition place_task (target : DocState) (acc : Pass * option TaskId) (kil : nat * (TaskId * OwnedLine))
    : option (Pass * option TaskId) :=
  let '(p, prev) := acc in
  let '(k, (i, line)) := kil in
  p' ← match index_of (p_work p) i with
       | Some n =>
           if tasks_before (p_work p) n =? k then Some p
           else pass_push p (KMove i prev (ds_path target))
       | None => raw ← OwnedLine_raw line; pass_push p (KInsert i prev raw)
       end;
  Some (p', Some i).

Definition place_tasks (p : Pass) (target : DocState) : option Pass :=
  fst <$> each (place_task target) (p, None) (imap (λ k il, (k, il)) (task_lines target)).

(** How many blanks follow a task, or the top. *)
Definition blanks_after (st : DocState) (after : option TaskId) : option nat :=
  from ← match after with None => Some 0 | Some i => S <$> index_of st i end;
  Some (run_while (blank_at st) (seq from (doc_len st - from))).

(** One anchor's run of blanks, made as long as the target's. The outer [None] is fuel that ran out,
    the inner one an op that did not apply. *)
Fixpoint even_run (fuel : nat) (p : Pass) (after : option TaskId) (want : nat) : option (option Pass) :=
  match blanks_after (p_work p) after with
  | None => Some None
  | Some have =>
      if have =? want then Some (Some p)
      else
        match fuel with
        | 0 => None
        | S fuel' =>
            match pass_push p (if have <? want then KBlankInsert after else KBlankRemove after) with
            | None => Some None
            | Some p' => even_run fuel' p' after want
            end
        end
  end.

Fixpoint even_runs (fuel : nat) (p : Pass) (target : DocState) (anchors : list (option TaskId)) : option (option Pass) :=
  match anchors with
  | [] => Some (Some p)
  | after :: anchors' =>
      match blanks_after target after with
      | None => Some None
      | Some want =>
          match even_run fuel p after want with
          | Some (Some p') => even_runs fuel p' target anchors'
          | r => r
          end
      end
  end.

Definition even_blanks (fuel : nat) (p : Pass) (target : DocState) : option (option Pass) :=
  even_runs fuel p target (None :: map (λ il, Some (fst il)) (task_lines target)).

(** The copy shows the target's lines. *)
Definition same_lines (a b : DocState) : bool :=
  (doc_len a =? doc_len b) && forallb (λ i, bool_decide (entry_at a i = entry_at b i)) (seq 0 (doc_len b)).

Definition synthesize (fuel : nat) (current target : DocState) (how : Changed)
    : option (option (list OpKind * DocState)) :=
  match (p ← delete_and_change (mkPass current []) current target how; place_tasks p target) with
  | None => Some None
  | Some p =>
      match even_blanks fuel p target with
      | Some (Some p) => Some (if same_lines (p_work p) target then Some (p_ops p, p_work p) else None)
      | Some None => Some None
      | None => None
      end
  end.

Definition replayable_ops (fuel : nat) (current target : DocState) : option (option (list OpKind * DocState)) :=
  match synthesize fuel current target ChFields with
  | Some None => synthesize fuel current target ChReinsert
  | r => r
  end.

(** ** Settling *)

(** The reconciler's ops when they replay to its render, else synthesized ones, else the reconciler's
    as they are; [None] when the fuel of a run of blanks ends. *)
Definition settle_reconciled (fuel : nat) (st : DocState) (r : Reconciled) : option (result StateError Settled) :=
  let target := to_bytes (r_file r) in
  match (next ← replay st (r_ops r); if bool_decide (doc_to_bytes next = target) then Some next else None) with
  | Some next => Some (Ok (mkSettled (r_ops r) next true false))
  | None =>
      match from_file (ds_path st) (r_file r) (r_ids r) (ds_mode st) with
      | Err e => Some (Err e)
      | Ok adopted =>
          match replayable_ops fuel st adopted with
          | None => None
          | Some None => Some (Ok (mkSettled (r_ops r) (adopt_stamps adopted st) false false))
          | Some (Some (kinds, work)) =>
              let exact := bool_decide (doc_to_bytes work = target) in
              Some (Ok (mkSettled kinds (if exact then work else adopt_stamps adopted work) exact true))
          end
      end
  end.

(** ** What a pass did *)

Lemma replay_app st ks ks' : replay st (ks ++ ks') = (st' ← replay st ks; replay st' ks').
Proof.
  revert st. induction ks as [|k ks IH]; intros st; cbn [app replay]; [done|].
  destruct (doc_apply _ st) as [st' [[]|e]]; [apply IH|done].
Qed.

(** The copy is what the ops made so far replay to. *)
Definition replays (current : DocState) (p : Pass) : Prop := replay current (p_ops p) = Some (p_work p).

Lemma push_replays current p k p' : replays current p → pass_push p k = Some p' → replays current p'.
Proof.
  unfold replays, pass_push. intros Hp. destruct (doc_apply _ _) as [st' [[]|e]] eqn:E; [|done]. intros [= <-].
  cbn [p_ops p_work]. rewrite replay_app, Hp. cbn. by rewrite E.
Qed.

Lemma each_keeps {A S} (P : S → Prop) (f : S → A → option S) l s s' :
  (∀ s x s', P s → f s x = Some s' → P s') → P s → each f s l = Some s' → P s'.
Proof.
  intros Hf. revert s. induction l as [|x l IH]; intros s Hs; cbn [each]; [by intros [= <-]|].
  intros (s1 & H1 & H2)%bind_Some. eapply IH; [|exact H2]. by eapply Hf.
Qed.

Lemma carry_replays current target how p p' :
  replays current p → delete_and_change p current target how = Some p' → replays current p'.
Proof.
  apply each_keeps. intros q [i line] q' Hq. unfold carry_task. destruct (line_of_task target i) as [new|].
  - case_bool_decide; [by intros [= <-]|]. destruct how.
    + apply each_keeps; [|done]. intros *. apply push_replays.
    + intros (k & _ & Hk)%bind_Some. by eapply push_replays.
  - intros (k & _ & H)%bind_Some. by eapply push_replays.
Qed.

Lemma place_replays current target p p' : replays current p → place_tasks p target = Some p' → replays current p'.
Proof.
  intros Hp. unfold place_tasks. intros ([q prev] & Hq & ->)%fmap_Some. cbn.
  revert Hq. change q with (fst (q, prev)) at 2. generalize (q, prev). intros a.
  apply (each_keeps (λ a, replays current (fst a))); [|done].
  intros [p1 prev1] [k [i line]] a' Hq. cbn [fst place_task]. intros (p2 & H2 & [= <-])%bind_Some. cbn.
  destruct (index_of (p_work p1) i) as [n|].
  - destruct (_ =? k); [by injection H2 as <-|by eapply push_replays].
  - apply bind_Some in H2 as (raw & _ & H2). by eapply push_replays.
Qed.

Lemma even_run_replays current fuel p after want p' :
  replays current p → even_run fuel p after want = Some (Some p') → replays current p'.
Proof.
  revert p. induction fuel as [|fuel IH]; intros p Hp; cbn [even_run]; (destruct (blanks_after _ after) as [have|]; [|done]);
    (destruct (have =? want); [by intros [= <-]|]); [done|].
  destruct (pass_push p _) as [p1|] eqn:E; [|done]. apply IH. by eapply push_replays.
Qed.

Lemma even_runs_replays current fuel p target anchors p' :
  replays current p → even_runs fuel p target anchors = Some (Some p') → replays current p'.
Proof.
  revert p. induction anchors as [|after anchors IH]; intros p Hp; cbn [even_runs]; [by intros [= <-]|].
  destruct (blanks_after target after) as [want|]; [|done]. destruct (even_run fuel p after want) as [[p1|]|] eqn:E; [|done..].
  apply IH. by eapply even_run_replays.
Qed.

(** Every index of the view is in range. *)
Definition view_ok (st : DocState) : Prop := Forall (λ s, is_Some (entries st !! s)) (visible st).

Lemma view_entry_at st i : view_ok st → entry_at st i = visible_entries st !! i.
Proof. intros H. unfold entry_at, visible_entries. by rewrite omap_lookup_all. Qed.

Lemma view_length st : view_ok st → length (visible_entries st) = doc_len st.
Proof.
  unfold view_ok, visible_entries, doc_len. induction 1 as [|s l [e He] _ IH]; cbn; [done|]. rewrite He. cbn. by rewrite IH.
Qed.

Lemma same_lines_spec a b : view_ok a → view_ok b → same_lines a b = true → visible_entries a = visible_entries b.
Proof.
  intros Ha Hb. unfold same_lines. rewrite andb_true_iff, Nat.eqb_eq, forallb_forall. intros [Hl He].
  apply list_eq_same_length with (length (visible_entries b)); [done|by rewrite !view_length|].
  intros i x y Hi Hx Hy. specialize (He i). rewrite bool_decide_eq_true, !view_entry_at in He by done.
  rewrite He in Hx; [congruence|]. apply in_seq. rewrite view_length in Hi by done. lia.
Qed.

Lemma replay_wf st ks st' : doc_wf st → replay st ks = Some st' → doc_wf st'.
Proof.
  revert st. induction ks as [|k ks IH]; intros st Hwf; cbn [replay]; [by intros [= <-]|].
  destruct (doc_apply (scratch_op (ds_path st) k) st) as [st1 [[]|e]] eqn:E; [|done]. by eapply IH, doc_wf_apply.
Qed.

Lemma wf_view_ok st : doc_wf st → view_ok st.
Proof. apply visible_some. Qed.

(** ** A document read from a file *)

Lemma entries_of_lines n ls ids es : entries_of n ls ids = Ok es → map entry_line es = ls.
Proof.
  revert n ids es. induction ls as [|l ls IH]; intros n ids es; cbn [entries_of]; [by intros [= <-]|].
  unfold mbind, result_bind. destruct (entry_of n l _) as [e|] eqn:E; [|done]. destruct (entries_of _ ls _) as [es'|] eqn:E'; [|done].
  intros [= <-]. cbn. rewrite (IH _ _ _ E'). f_equal. unfold entry_of in E. destruct (OwnedLine_parse l) as [pl|]; [|done].
  destruct (kind pl); [by injection E as <-|]. destruct (default None (head ids)); [by injection E as <-|done].
Qed.

Lemma from_file_shown path f ids m st :
  from_file path f ids m = Ok st → view_ok st ∧ visible_entries st = entries st ∧ map entry_line (entries st) = lines f.
Proof.
  unfold from_file. destruct (_ <? _)%N; [done|]. destruct (entries_of 0 (lines f) ids) as [es|] eqn:E; [|done].
  intros [= <-]. split_and!.
  - apply Forall_forall. cbn. intros s Hs%elem_of_seq. apply lookup_lt_is_Some. lia.
  - unfold visible_entries. cbn [visible entries]. apply omap_seq.
  - by eapply entries_of_lines.
Qed.

(** ** Adopting keeps the lines *)

Lemma adopt_lookup (src : list Entry) (ts ms : list nat) (es : list Entry) :
  NoDup ts → length ts = length ms → Forall (λ t, t < length es) ts → Forall (λ m, is_Some (src !! m)) ms →
  omap (λ s, foldl (λ es tm, match src !! snd tm with Some e => <[fst tm := e]> es | None => es end) es (zip ts ms) !! s) ts
  = omap (λ s, src !! s) ms.
Proof.
  revert ms es. induction ts as [|t ts IH]; intros [|m ms] es Hd Hl Ht Hm; try done.
  apply NoDup_cons in Hd as [Hno Hd]. apply Forall_cons in Ht as [Ht Hts]. apply Forall_cons in Hm as [[e He] Hms].
  cbn [zip zip_with foldl fst snd]. rewrite He.
  assert (∀ (l : list (nat * nat)) (es : list Entry), t ∉ map fst l →
    foldl (λ es tm, match src !! snd tm with Some e => <[fst tm := e]> es | None => es end) es l !! t = es !! t) as Hkeep.
  { clear. induction l as [|[t' m'] l IH]; intros es Hn; [done|]. cbn [foldl map fst snd] in *. apply not_elem_of_cons in Hn as [H1 H2].
    rewrite IH by done. destruct (src !! m'); [by rewrite list_lookup_insert_ne|done]. }
  cbn [omap list_omap]. rewrite Hkeep, list_lookup_insert_eq by (try done; change (map fst (zip ts ms)) with ((zip ts ms).*1); by rewrite fst_zip by (injection Hl; lia)).
  rewrite He. f_equal. apply IH; [done|by injection Hl| |done]. eapply Forall_impl; [exact Hts|]. intros x Hx. by rewrite length_insert.
Qed.

Lemma visible_nodup st : doc_wf st → NoDup (visible st).
Proof. intros [-> _]. unfold visible_of. apply NoDup_ListNoDup, List.NoDup_filter, seq_NoDup. Qed.

Lemma adopt_lines st replayed : view_ok st → doc_wf replayed → visible_entries (adopt_stamps st replayed) = visible_entries st.
Proof.
  intros Hv Hr. unfold adopt_stamps. set (st0 := with_meta st _ _ _).
  unfold adopt_sequence. case_bool_decide as E; [|done].
  assert (visible_entries st = visible_entries st0) as -> by done.
  unfold visible_entries at 1. unfold reindex, with_sequence. cbn [entries visible hidden].
  destruct Hr as [Hvr Hr]. rewrite <- Hvr. apply adopt_lookup.
  - by apply visible_nodup.
  - apply (f_equal length) in E. unfold line_ids in E. rewrite !length_map in E.
    rewrite view_length in E by done. rewrite view_length in E by (by apply wf_view_ok). done.
  - by apply visible_in_range.
  - done.
Qed.

Lemma adopt_bytes st replayed : view_ok st → doc_wf replayed → doc_to_bytes (adopt_stamps st replayed) = doc_to_bytes st.
Proof.
  intros Hv Hr. unfold doc_to_bytes. rewrite adopt_lines by done.
  unfold adopt_stamps, adopt_sequence. by case_bool_decide.
Qed.

(** ** Synthesis *)

Lemma synthesize_sound fuel current target how kinds work :
  synthesize fuel current target how = Some (Some (kinds, work)) →
  replay current kinds = Some work ∧ same_lines work target = true.
Proof.
  unfold synthesize. destruct (_ ≫= _) as [p|] eqn:E; [|done].
  apply bind_Some in E as (p0 & H0 & H1).
  assert (replays current p) as Hp by (eapply place_replays; [|exact H1]; by eapply carry_replays; [|exact H0]).
  destruct (even_blanks fuel p target) as [[p'|]|] eqn:Ee; [|done..].
  pose proof (even_runs_replays current fuel p target _ p' Hp Ee) as Hp'.
  destruct (same_lines (p_work p') target) eqn:Es; [|done]. by intros [= <- <-].
Qed.

Lemma replayable_sound fuel current target kinds work :
  replayable_ops fuel current target = Some (Some (kinds, work)) →
  replay current kinds = Some work ∧ same_lines work target = true.
Proof.
  unfold replayable_ops. destruct (synthesize fuel current target ChFields) as [[[ks w]|]|] eqn:E; [|apply synthesize_sound|done].
  intros [= -> ->]. by eapply synthesize_sound.
Qed.

(** ** What a settle leaves *)

(** The document kept writes back exactly the bytes of the file reconciled; ops said to be exact replay to
    that very document; synthesized ops replay to a document that shows the file's lines, whatever the
    file's ending marks; the only refusal is a file that does not open. *)
Definition settled_right (st : DocState) (r : Reconciled) (s : result StateError Settled) : Prop :=
  match s with
  | Ok s =>
      doc_to_bytes (s_next s) = to_bytes (r_file r)
      ∧ (s_exact s = true → replay st (s_kinds s) = Some (s_next s))
      ∧ (s_synthesized s = true → ∃ next, replay st (s_kinds s) = Some next ∧ map entry_line (visible_entries next) = lines (r_file r))
  | Err e => from_file (ds_path st) (r_file r) (r_ids r) (ds_mode st) = Err e
  end.

Lemma settle_sound fuel st r s : doc_wf st → settle_reconciled fuel st r = Some s → settled_right st r s.
Proof.
  intros Hwf. unfold settle_reconciled, settled_right. destruct (_ ≫= _) as [next|] eqn:E.
  { intros [= <-]. apply bind_Some in E as (n & Hn & E). case_bool_decide as Eb; [|done]. injection E as ->. by split_and!. }
  destruct (from_file _ _ _ _) as [adopted|e] eqn:Ef; [|by intros [= <-]].
  destruct (from_file_shown _ _ _ _ _ Ef) as (Hv & Hsh & Hl).
  assert (doc_to_bytes adopted = to_bytes (r_file r)) as Hb by (eapply from_file_bytes; [exact Ef|by rewrite Hsh]).
  destruct (replayable_ops fuel st adopted) as [[[kinds work]|]|] eqn:Er; [| |done].
  - apply replayable_sound in Er as [Hr Hs]. pose proof (replay_wf _ _ _ Hwf Hr) as Hww.
    apply (same_lines_spec work adopted (wf_view_ok _ Hww) Hv) in Hs.
    intros [= <-]. cbn [s_next s_exact s_synthesized s_kinds]. split_and!.
    + case_bool_decide as Ex; [done|]. by rewrite adopt_bytes.
    + intros Hex. by rewrite Hex.
    + intros _. exists work. split; [done|]. by rewrite Hs, Hsh.
  - intros [= <-]. cbn [s_next s_exact s_synthesized s_kinds]. split_and!; [by rewrite adopt_bytes|done|done].
Qed.

(** A batch that reorders lines, drops one and adds one between blanks, with the reconciler's own ops
    left out: they are made again. *)
Definition settle_sample (st : DocState) : Reconciled :=
  mkReconciled [] (file_of [str "three"; []; str "new"; str "one"]) 1 0 [Some 3%N; None; Some 9%N; Some 1%N].
