(* ===== verification/ReplayEnds.v ===== *)
(** Settling a reconcile ends: evening a run of blanks stops after at most as many steps as the document
    has blanks around the anchor and the target asks for. Erasers placed after an anchor each claim a
    blank of its run; once a blank is placed there, each further one makes the run one longer. The theorems:
    what evening one run leaves, and that settling ends with an outcome that is right. *)
From stdpp Require Import gmap.
From S2P Require Import Prelude.
From S2P Require Import Types.
From S2P Require Import TodoFile.
From S2P Require Import Diff.
From S2P Require Import Hlc.
From S2P Require Import TextHistory.
From S2P Require Import Ops.
From S2P Require Import DocState.
From S2P Require Import DocRows.
From S2P Require Import DocInvariant.
From S2P Require Import DocConverge.
From S2P Require Import DocErrors.
From S2P Require Import DocFresh.
From S2P Require Import DocLocal.
From S2P Require Import DocView.
From S2P Require Import DocNewest.
From S2P Require Import DocClaims.
From S2P Require Import Mutation.
From S2P Require Import Reconcile.
From S2P Require Import Replay.

(** ** The rows after an anchor *)

Definition blank_entry_b (e : Entry) : bool := match e with BlankEntry _ => true | TaskEntry _ _ => false end.

Definition plain (r : Placement) : bool := p_blank r && negb (p_eraser r).

(** The anchor each plain blank belongs to: the last task shown before it. *)
Fixpoint owned (acc : option TaskId) (rs : list Placement) : list (option TaskId) :=
  match rs with
  | [] => []
  | r :: rs' =>
      match shows r with
      | Some t => owned (Some t) rs'
      | None => if plain r then acc :: owned acc rs' else owned acc rs'
      end
  end.

Definition last_shown (acc : option TaskId) (rs : list Placement) : option TaskId :=
  foldl (λ acc r, match shows r with Some t => Some t | None => acc end) acc rs.

Definition count_of (o : option TaskId) (l : list (option TaskId)) : nat := length (List.filter (λ x, bool_decide (x = o)) l).

(** The run of blanks shown from a gap on. *)
Definition run_at (n : nat) (rs : list Placement) : nat := run_while p_blank (shown_rows (drop n rs)).

Lemma owned_app acc rs rs' : owned acc (rs ++ rs') = owned acc rs ++ owned (last_shown acc rs) rs'.
Proof.
  revert acc. induction rs as [|r rs IH]; intros acc; cbn; [done|]. destruct (shows r); [apply IH|].
  destruct (plain r); cbn; by rewrite IH.
Qed.

Lemma owned_alike acc rs rs' : Forall2 alike rs rs' → owned acc rs' = owned acc rs.
Proof.
  intros H. revert acc. induction H as [|r r' rs rs' Hr _ IH]; intros acc; cbn; [done|]. rewrite (alike_shows _ _ Hr).
  assert (plain r' = plain r) as ->.
  { destruct Hr as (Hi & _ & He & _). unfold plain. rewrite He. f_equal. apply Bool.eq_iff_eq_true. by rewrite !p_blank_id, Hi. }
  destruct (shows r); [apply IH|]. by rewrite !IH.
Qed.

Lemma count_app o l l' : count_of o (l ++ l') = count_of o l + count_of o l'.
Proof. unfold count_of. by rewrite List.filter_app, length_app. Qed.

Lemma count_cons o x l : count_of o (x :: l) = (if bool_decide (x = o) then 1 else 0) + count_of o l.
Proof. unfold count_of. cbn. by destruct (bool_decide (x = o)). Qed.

Lemma run_while_fmap {A B} (g : A → B) p l : run_while p (g <$> l) = run_while (λ x, p (g x)) l.
Proof. induction l as [|x l IH]; cbn; [done|]. destruct (p (g x)); [by rewrite IH|done]. Qed.

Lemma run_while_same {A} (p q : A → bool) l : Forall (λ x, p x = q x) l → run_while p l = run_while q l.
Proof. induction 1 as [|x l Hx _ IH]; cbn; [done|]. rewrite Hx. destruct (q x); [by rewrite IH|done]. Qed.

(** A list read by index from a place on. *)
Lemma seq_lookup_drop {A} (l : list A) n : (λ i, l !! i) <$> seq n (length l - n) = Some <$> drop n l.
Proof.
  apply list_eq. intros k. rewrite !list_lookup_fmap, lookup_drop. destruct (decide (k < length l - n)) as [Hk|Hk].
  - rewrite lookup_seq_lt by done. cbn. destruct (lookup_lt_is_Some_2 l (n + k)) as [x ->]; [lia|done].
  - rewrite lookup_seq_ge by lia. rewrite lookup_ge_None_2 by lia. done.
Qed.

Lemma run_shown st n : doc_wf st → run_while (blank_at st) (seq n (doc_len st - n)) = run_while blank_entry_b (drop n (visible_entries st)).
Proof.
  intros Hwf. rewrite <- (visible_length st Hwf).
  transitivity (run_while (λ o, match o with Some e => blank_entry_b e | None => false end) ((λ i, visible_entries st !! i) <$> seq n (length (visible_entries st) - n))).
  - rewrite run_while_fmap. apply run_while_same, Forall_forall. intros i _. unfold blank_at. rewrite (entry_at_lines st i Hwf).
    by destruct (visible_entries st !! i) as [[]|].
  - rewrite seq_lookup_drop, run_while_fmap. done.
Qed.

Lemma blanks_after_run h st rs after :
  fresh_at h st rs → blanks_after st after = (λ n, run_at n rs) <$> spot_of st after.
Proof.
  intros Hl. pose proof (fresh_wf _ _ _ Hl) as Hwf. pose proof (visible_entries_rows st rs (fr_visible _ _ _ Hl) (fr_columns _ _ _ Hl)) as Hve.
  unfold blanks_after, spot_of. destruct after as [t|]; cbn.
  - rewrite (index_of_lines st t Hwf), Hve. destruct (live_slot st t) as [s|] eqn:E.
    + destruct (live_row h st rs t s Hl E) as (r & Hr & Hh & Hi). rewrite (position_shown t rs s r (fr_ok _ _ _ Hl) Hr Hh Hi). cbn.
      f_equal. rewrite run_shown, Hve, (shown_rows_split rs s r Hr Hh) by done. unfold run_at. rewrite fmap_app, fmap_cons.
      rewrite drop_app_ge by (rewrite length_fmap; lia). rewrite length_fmap.
      replace (S (length (shown_rows (take s rs))) - length (shown_rows (take s rs))) with 1 by lia. cbn [drop]. rewrite drop_0.
      by rewrite run_while_fmap.
    + destruct (position (holds t) (p_entry <$> shown_rows rs)) as [i|] eqn:Ep; [|done]. exfalso.
      assert (is_Some (live_slot st t)) as [s Hs]; [|congruence]. apply (live_shown h st rs t Hl). unfold shown_lines. rewrite Hve.
      apply position_spec in Ep as (l1 & x & l2 & E1 & _ & Hp & _). rewrite E1. apply existsb_exists. exists x. split; [|done].
      apply list_elem_of_In. set_solver.
  - f_equal. rewrite run_shown, Hve by done. unfold run_at. by rewrite !drop_0, run_while_fmap.
Qed.

(** ** A spot and what is placed there *)

Lemma columns_inj st rs rs' : columns st rs → columns st rs' → rs = rs'.
Proof.
  intros [E1 E2 E3 E4 E5] [F1 F2 F3 F4 F5]. apply list_eq. intros i.
  assert (∀ B (f : Placement → B), f <$> rs = f <$> rs' → f <$> rs !! i = f <$> rs' !! i) as Hall.
  { intros B f E. apply (f_equal (lookup i)) in E. by rewrite !list_lookup_fmap in E. }
  pose proof (Hall _ p_entry ltac:(congruence)). pose proof (Hall _ p_hidden ltac:(congruence)).
  pose proof (Hall _ p_stamp ltac:(congruence)). pose proof (Hall _ p_parent ltac:(congruence)). pose proof (Hall _ p_eraser ltac:(congruence)).
  destruct (rs !! i) as [[]|], (rs' !! i) as [[]|]; cbn in *; congruence.
Qed.

(** The line a spot is after: the top, or its anchor's shown line. *)
Lemma spot_row h st rs after n :
  fresh_at h st rs → spot_of st after = Some n →
  n ≤ length rs ∧ match after with
                  | None => n = 0
                  | Some t => ∃ s r, n = S s ∧ rs !! s = Some r ∧ p_hidden r = false ∧ p_id r = Some t
                  end.
Proof.
  intros Hl. unfold spot_of. destruct after as [t|]; [|intros [= <-]; split; [lia|done]].
  intros (s & Hs & ->)%fmap_Some. destruct (live_row h st rs t s Hl Hs) as (r & Hr & Hh & Hi). split; [by apply lookup_lt_Some in Hr|].
  by exists s, r.
Qed.

Lemma spot_line_before h st rs after n : fresh_at h st rs → spot_of st after = Some n → line_before st n.
Proof.
  intros Hl Hs. destruct (spot_row h st rs after n Hl Hs) as [_ Hr]. destruct after as [t|]; [|by left].
  destruct Hr as (s & r & -> & Hr & Hh & Hi). right. exists s.
  destruct (columns_lookup _ _ _ _ (fr_columns _ _ _ Hl) Hr) as (_ & E1 & _ & _ & E4 & _ & E6).
  pose proof (columns_length _ _ (fr_columns _ _ _ Hl)) as L. pose proof (lookup_lt_Some _ _ _ Hr).
  assert (p_blank r = false) as Hb by (apply not_true_iff_false; rewrite p_blank_id; congruence).
  split_and!; [done|lia|congruence|congruence|]. rewrite E4. destruct (p_eraser r) eqn:Er; [|done].
  destruct (fr_ok _ _ _ Hl) as [_ Hok]. rewrite Forall_forall in Hok. destruct (Hok r) as [? _]; [by eapply list_elem_of_lookup_2|done|congruence].
Qed.

Lemma last_shown_snoc acc rs r : last_shown acc (rs ++ [r]) = match shows r with Some t => Some t | None => last_shown acc rs end.
Proof. unfold last_shown. by rewrite foldl_app. Qed.

Lemma spot_last_shown h st rs after n : fresh_at h st rs → spot_of st after = Some n → last_shown None (take n rs) = after.
Proof.
  intros Hl Hs. destruct (spot_row h st rs after n Hl Hs) as [_ Hr]. destruct after as [t|]; [|by subst].
  destruct Hr as (s & r & -> & Hr & Hh & Hi). rewrite (take_S_r _ _ _ Hr), last_shown_snoc. unfold shows. by rewrite Hh, Hi.
Qed.

Lemma spot_kept h st rs st' rs' after n x :
  fresh_at h st rs → spot_of st after = Some n → fresh_at h st' rs' → Forall2 alike (insert_at n x rs) rs' → spot_of st' after = Some n.
Proof.
  intros Hl Hs Hl' Ha. destruct (spot_row h st rs after n Hl Hs) as [Hn Hr]. destruct after as [t|]; [|by subst].
  destruct Hr as (s & r & -> & Hr & Hh & Hi). cbn.
  assert (insert_at (S s) x rs !! s = Some r) as Hr2.
  { rewrite lookup_insert_at by done. by rewrite (proj2 (Nat.ltb_lt s (S s))) by lia. }
  destruct (Forall2_lookup_l _ _ _ _ _ Ha Hr2) as (r' & Hr' & A1 & _ & _ & A4).
  rewrite (fresh_rows_shown h st' rs' t s r' Hl' Hr'); [done| |congruence]. destruct A4 as [->|[A4 _]]; [done|congruence].
Qed.

(** One plain blank more for the anchor, or an eraser. *)
Lemma owned_placed h st rs after n x o :
  fresh_at h st rs → spot_of st after = Some n → shows x = None →
  count_of o (owned None (insert_at n x rs)) = count_of o (owned None rs) + (if bool_decide (after = o) && plain x then 1 else 0).
Proof.
  intros Hl Hs Hx. unfold insert_at. rewrite <- (take_drop n rs) at 3. rewrite !owned_app, !count_app. cbn [owned]. rewrite Hx.
  rewrite (spot_last_shown h st rs after n Hl Hs). unfold count_of. destruct (plain x); cbn; [|rewrite andb_false_r; lia].
  destruct (bool_decide (after = o)); cbn; lia.
Qed.

Lemma barrier_alike h n rs rs' : Forall2 alike rs rs' → barrier h n rs → barrier h n rs'.
Proof.
  intros Ha (m & Hall & r & Hr & He). exists m. split.
  - intros s r' Hs Hr'. destruct (Forall2_lookup_r _ _ _ _ _ Ha Hr') as (r0 & Hr0 & A1 & A2 & _). destruct (Hall s r0 Hs Hr0) as [H1 H2].
    split; [apply p_blank_id; apply p_blank_id in H1; congruence|congruence].
  - destruct (Forall2_lookup_l _ _ _ _ _ Ha Hr) as (r' & Hr' & _ & _ & A3 & _). exists r'. split; [done|congruence].
Qed.

Lemma barrier_placed h n x rs :
  n ≤ length rs → p_blank x = true → p_stamp x = h → p_eraser x = false ∨ barrier h n rs → barrier h n (insert_at n x rs).
Proof.
  intros Hn Hb Hs [He|(m & Hall & r & Hr & He)].
  - exists 0. split; [|exists x; rewrite Nat.add_0_r, lookup_insert_at_here by done; done].
    intros s r Hsn. assert (s = n) as -> by lia. rewrite lookup_insert_at_here by done. by intros [= <-].
  - exists (S m). split.
    + intros s r' Hsn. destruct (decide (s = n)) as [->|Hne]; [rewrite lookup_insert_at_here by done; by intros [= <-]|].
      rewrite lookup_insert_at by done. rewrite (proj2 (Nat.ltb_ge s n)), (proj2 (Nat.eqb_neq s n)) by lia. intros Hr'.
      eapply (Hall (s - 1)); [lia|exact Hr'].
    + exists r. split; [|done]. rewrite lookup_insert_at by done.
      rewrite (proj2 (Nat.ltb_ge (n + S m) n)), (proj2 (Nat.eqb_neq (n + S m) n)) by lia. by replace (n + S m - 1) with (n + m) by lia.
Qed.

(** Erasers stamped [h] right at the gap. *)
Definition erasers_at (h : Hlc) (n k : nat) (rs : list Placement) : Prop :=
  n + k ≤ length rs ∧ ∀ s r, n ≤ s < n + k → rs !! s = Some r → p_eraser r = true ∧ p_stamp r = h.

Lemma erasers_at_alike h n k rs rs' : Forall2 alike rs rs' → erasers_at h n k rs → erasers_at h n k rs'.
Proof.
  intros Ha [Hn Hall]. split; [by rewrite <- (Forall2_length _ _ _ Ha)|]. intros s r' Hs Hr'.
  destruct (Forall2_lookup_r _ _ _ _ _ Ha Hr') as (r0 & Hr0 & _ & A2 & A3 & _). rewrite A2, A3. by apply (Hall s).
Qed.

Lemma erasers_at_placed h n k x rs :
  n ≤ length rs → p_eraser x = true → p_stamp x = h → erasers_at h n k rs → erasers_at h n (S k) (insert_at n x rs).
Proof.
  intros Hn He Hs [Hk Hall]. split; [rewrite length_insert_at; lia|]. intros s r Hsn.
  destruct (decide (s = n)) as [->|Hne]; [rewrite lookup_insert_at_here by done; by intros [= <-]|].
  rewrite lookup_insert_at by done. rewrite (proj2 (Nat.ltb_ge s n)), (proj2 (Nat.eqb_neq s n)) by lia. apply Hall. lia.
Qed.

(** ** The erasers at a gap claim its blanks *)

Lemma first_shown rs p rest :
  shown_rows rs = p :: rest → ∃ pre post, rs = pre ++ p :: post ∧ Forall (λ r, p_hidden r = true) pre ∧ p_hidden p = false.
Proof.
  unfold shown_rows. induction rs as [|r rs IH]; cbn; [done|]. destruct (p_hidden r) eqn:E; cbn.
  - intros H. destruct (IH H) as (pre & post & -> & Hp & Hh). exists (r :: pre), post. split_and!; [done|by constructor|done].
  - intros [= -> _]. exists [], rs. by split_and!.
Qed.

Lemma owned_hidden acc pre :
  Forall (λ r, p_hidden r = true) pre → last_shown acc pre = acc ∧ count_of acc (owned acc pre) = length (List.filter plain pre).
Proof.
  induction 1 as [|r pre Hr _ [IH1 IH2]]; [done|].
  assert (shows r = None) as Hs by (unfold shows; by rewrite Hr).
  change (last_shown acc (r :: pre)) with (last_shown (match shows r with Some t => Some t | None => acc end) pre).
  cbn [owned List.filter]. rewrite Hs. split; [done|]. destruct (plain r); [|done]. cbn [length]. by rewrite count_cons, bool_decide_eq_true_2, IH2.
Qed.

Lemma filter_rows st rs n pre post :
  columns st rs → drop n rs = pre ++ post →
  length (List.filter (λ s, is_blank st s && negb (slot_eraser st s)) (seq n (length pre))) = length (List.filter plain pre).
Proof.
  intros Hc. revert n. induction pre as [|r pre IH]; intros n Hd; [done|]. cbn [length seq List.filter].
  assert (rs !! n = Some r) as Hr by (by rewrite <- (Nat.add_0_r n), <- lookup_drop, Hd).
  destruct (columns_lookup _ _ _ _ Hc Hr) as (_ & _ & _ & _ & -> & _ & ->). change (p_blank r && negb (p_eraser r)) with (plain r).
  assert (drop (S n) rs = pre ++ post) as Hd' by (by rewrite <- Nat.add_1_r, <- drop_drop, Hd).
  destruct (plain r); cbn; by rewrite (IH (S n)).
Qed.

(** A visible blank at the gap: one blank more belongs to the anchor than erasers were placed. *)
Lemma erasers_below h st rs after n k :
  calm h st rs → spot_of st after = Some n → erasers_at h n k rs → run_at n rs ≠ 0 → S k ≤ count_of after (owned None rs).
Proof.
  intros Hcm Hs [Hk Her] Hrun. pose proof (cm_fresh _ _ _ Hcm) as Hl. pose proof (fr_columns _ _ _ Hl) as Hc. pose proof (columns_length _ _ Hc) as L.
  unfold run_at in Hrun. destruct (shown_rows (drop n rs)) as [|p rest] eqn:Esh; [done|]. cbn in Hrun. destruct (p_blank p) eqn:Eb; [|done].
  destruct (first_shown _ _ _ Esh) as (pre & post & Ed & Hpre & Hph).
  assert (∀ i r, pre !! i = Some r → rs !! (n + i) = Some r) as Hpre_at.
  { intros i r Hi. rewrite <- lookup_drop, Ed. by apply lookup_app_l_Some. }
  assert (rs !! (n + length pre) = Some p) as Hp.
  { rewrite <- lookup_drop, Ed. by rewrite list_lookup_middle. }
  assert (∀ r, r ∈ rs → eraser_ok r) as Hok by (apply Forall_forall, (fr_ok _ _ _ Hl)).
  assert (p_eraser p = false) as Hpe.
  { destruct (p_eraser p) eqn:E; [|done]. destruct (Hok p) as [? _]; [by eapply list_elem_of_lookup_2|done|congruence]. }
  assert (k ≤ length pre) as Hkp.
  { destruct (decide (k ≤ length pre)) as [|Hlt]; [done|]. destruct (Her (n + length pre) p) as [? _]; [lia|done|congruence]. }
  destruct (columns_lookup _ _ _ _ Hc Hp) as (_ & E2 & _ & _ & E5 & _ & E7).
  pose proof (lookup_lt_Some _ _ _ Hp) as Hlt.
  assert (k ≤ length (List.filter plain pre)) as Hle.
  { rewrite <- (filter_rows st rs n pre (p :: post) Hc Ed). replace (length pre) with (n + length pre - n) by lia.
    apply erasers_claim; [exact (fresh_wf _ _ _ Hl)|by apply Hcm|lia|lia| |congruence..|].
    - intros s Hs'. destruct (lookup_lt_is_Some_2 pre (s - n)) as [r Hr]; [lia|]. pose proof (Hpre_at _ _ Hr) as Hr'.
      replace (n + (s - n)) with s in Hr' by lia. destruct (columns_lookup _ _ _ _ Hc Hr') as (_ & -> & _).
      rewrite Forall_forall in Hpre. apply Hpre. by eapply list_elem_of_lookup_2.
    - intros s Hs'. destruct (lookup_lt_is_Some_2 rs s) as [r Hr]; [lia|]. destruct (columns_lookup _ _ _ _ Hc Hr) as (_ & _ & -> & _ & -> & _).
      destruct (Her s r Hs' Hr) as [-> ->]. split; [done|]. apply (fresh_stamp_le h st rs _ Hl). lia. }
  rewrite <- (take_drop n rs), owned_app, count_app, (spot_last_shown h st rs after n Hl Hs), Ed, owned_app, count_app.
  destruct (owned_hidden after pre Hpre) as [-> ->]. cbn [owned]. unfold shows. rewrite Hph.
  assert (p_id p = None) as -> by (by apply p_blank_id). assert (plain p = true) as -> by (unfold plain; by rewrite Eb, Hpe).
  rewrite count_cons, bool_decide_eq_true_2 by done. lia.
Qed.

(** ** The tasks shown *)

(** The tasks shown and their lines, by rows. *)
Definition tasks_of (rs : list Placement) : list (TaskId * OwnedLine) :=
  omap (λ r, if p_hidden r then None else i ← entry_id (p_entry r); Some (i, entry_line (p_entry r))) rs.

Lemma task_lines_rows h st rs : fresh_at h st rs → task_lines st = tasks_of rs.
Proof.
  intros Hl. unfold task_lines. rewrite (visible_entries_rows st rs (fr_visible _ _ _ Hl) (fr_columns _ _ _ Hl)).
  unfold shown_rows, tasks_of. clear Hl. induction rs as [|r rs IH]; [done|]. cbn. destruct (p_hidden r); cbn; [exact IH|]. by rewrite IH.
Qed.

Lemma tasks_of_placed n x rs : entry_id (p_entry x) = None → tasks_of (insert_at n x rs) = tasks_of rs.
Proof.
  intros Hx. unfold insert_at, tasks_of. rewrite <- (take_drop n rs) at 3. rewrite !omap_app. f_equal. cbn. rewrite Hx. by destruct (p_hidden x).
Qed.

Lemma tasks_of_alike rs rs' : Forall2 alike rs rs' → p_entry <$> rs' = p_entry <$> rs → tasks_of rs' = tasks_of rs.
Proof.
  induction 1 as [|r r' rs rs' Ha _ IH]; intros E; [done|]. cbn in E. injection E as E1 E2. specialize (IH E2).
  unfold tasks_of in *. cbn. rewrite IH, E1. destruct Ha as (_ & _ & _ & [->|[Hid _]]); [done|]. unfold p_id in Hid. rewrite Hid.
  by destruct (p_hidden r), (p_hidden r').
Qed.

(** ** One step *)

Definition calm_pass (p : Pass) (rs : list Placement) : Prop := calm scratch_stamp (p_work p) rs.

(** An op added to a pass that leaves the tasks shown as they were. *)
Record pushed (p : Pass) (k : OpKind) (p' : Pass) : Prop := mkPushed {
  pu_ops : p_ops p' = p_ops p ++ [k];
  pu_tasks : task_lines (p_work p') = task_lines (p_work p)
}.

Lemma push_placed p rs after n R k st1 x :
  calm_pass p rs → spot_of (p_work p) after = Some n → roomy (S R) (p_work p) → moves_shown (p_work p) k → reshapes k = true →
  doc_dispatch (scratch_op (ds_path (p_work p)) k) (p_work p) = (st1, Ok tt) → fresh_at scratch_stamp st1 (insert_at n x rs) →
  entry_id (p_entry x) = None →
  ∃ p' rs', pass_push p k = Some p' ∧ pushed p k p' ∧ p_work p' = settle_erasers st1 ∧ calm_pass p' rs' ∧ Forall2 alike (insert_at n x rs) rs'
    ∧ roomy R (p_work p') ∧ spot_of (p_work p') after = Some n.
Proof.
  intros Hcm Hs Hroom Hmv Hr Hd Hl1 Hx. set (o := scratch_op _ k) in *.
  assert (roomy 0 st1) as Hroom1.
  { eapply (roomy_rows 0 (S R) (p_work p) rs st1); [exact (fr_columns _ _ _ (cm_fresh _ _ _ Hcm))|exact (fr_columns _ _ _ Hl1)|..|exact Hroom].
    - rewrite count_insert_at. destruct (_ || _); lia.
    - rewrite length_insert_at. lia. }
  destruct (newest_settled scratch_stamp (p_work p) o st1 (insert_at n x rs) Hd Hr Hl1 Hroom1) as (Ha & rs' & Hcm' & Hal).
  exists (mkPass (settle_erasers st1) (p_ops p ++ [k])), rs'. unfold pass_push. fold o. rewrite Ha. split_and!; try done.
  - split; [done|]. cbn [p_work]. rewrite (task_lines_rows _ _ _ (cm_fresh _ _ _ Hcm')), (task_lines_rows _ _ _ (cm_fresh _ _ _ Hcm)).
    rewrite (tasks_of_alike _ _ Hal), tasks_of_placed; [done|done|].
    rewrite <- (col_entries _ _ (fr_columns _ _ _ (cm_fresh _ _ _ Hcm'))), <- (col_entries _ _ (fr_columns _ _ _ Hl1)).
    apply (ba_entries _ _ (blanks_apart_settle st1)).
  - destruct (newest_apply scratch_stamp (p_work p) rs o _ R Hcm eq_refl Hmv Hroom Ha) as (_ & H & _). cbn in H. by rewrite Hr in H.
  - eapply spot_kept; [exact (cm_fresh _ _ _ Hcm)|done|exact (cm_fresh _ _ _ Hcm')|done].
Qed.

Lemma push_blank p rs after n R :
  calm_pass p rs → spot_of (p_work p) after = Some n → roomy (S R) (p_work p) →
  ∃ p' rs' spot x, pass_push p (KBlankInsert after) = Some p' ∧ pushed p (KBlankInsert after) p'
    ∧ spot_at spot = n ∧ p_work p' = settle_erasers (insert_entry (p_work p) spot (blank_entry (p_work p)) scratch_stamp)
    ∧ x = mkPlacement (blank_entry (p_work p)) false scratch_stamp (spot_parent spot) false
    ∧ calm_pass p' rs' ∧ Forall2 alike (insert_at n x rs) rs' ∧ roomy R (p_work p') ∧ spot_of (p_work p') after = Some n.
Proof.
  intros Hcm Hs Hroom. pose proof (cm_fresh _ _ _ Hcm) as Hl. destruct (fresh_spot _ _ _ _ _ Hl Hs) as (spot & Hsp & <- & _).
  destruct (push_placed p rs after (spot_at spot) R (KBlankInsert after) (insert_entry (p_work p) spot (blank_entry (p_work p)) scratch_stamp)
    (mkPlacement (blank_entry (p_work p)) false scratch_stamp (spot_parent spot) false) Hcm Hs Hroom) as (p' & rs' & H1 & H1' & H2 & H3 & H4 & H5 & H6); try done.
  - unfold doc_dispatch. cbn. unfold doc_blank_insert. rewrite (roomy_too_many R) by (done || exact (fresh_wf _ _ _ Hl)).
    unfold mbind, ST_bind, try, modify. by rewrite Hsp.
  - by apply fresh_insert.
  - exists p', rs', spot, (mkPlacement (blank_entry (p_work p)) false scratch_stamp (spot_parent spot) false). by split_and!.
Qed.

Lemma push_eraser p rs after n R :
  calm_pass p rs → spot_of (p_work p) after = Some n → roomy (S R) (p_work p) →
  ∃ p' rs' x, pass_push p (KBlankRemove after) = Some p' ∧ pushed p (KBlankRemove after) p' ∧ p_eraser x = true ∧ p_hidden x = true ∧ p_blank x = true ∧ p_stamp x = scratch_stamp
    ∧ calm_pass p' rs' ∧ Forall2 alike (insert_at n x rs) rs' ∧ roomy R (p_work p') ∧ spot_of (p_work p') after = Some n.
Proof.
  intros Hcm Hs Hroom. pose proof (cm_fresh _ _ _ Hcm) as Hl. destruct (fresh_spot _ _ _ _ _ Hl Hs) as (spot & Hsp & <- & Hle & _).
  set (st1 := hide_entry (set_eraser (insert_entry (p_work p) spot (blank_entry (p_work p)) scratch_stamp) (spot_at spot)) (spot_at spot)).
  destruct (push_placed p rs after (spot_at spot) R (KBlankRemove after) st1
    (mkPlacement (blank_entry (p_work p)) true scratch_stamp (spot_parent spot) true) Hcm Hs Hroom) as (p' & rs' & H1 & H1' & H2 & H3 & H4 & H5 & H6); try done.
  - unfold doc_dispatch. cbn. unfold doc_blank_remove. unfold mbind, ST_bind, try, modify. by rewrite Hsp.
  - by apply fresh_eraser.
  - exists p', rs', (mkPlacement (blank_entry (p_work p)) true scratch_stamp (spot_parent spot) true). by split_and!.
Qed.

(** ** Steps of a run *)

(** [i] turns of the loop, [b] of them blanks placed. *)
Record ran (after : option TaskId) (want n i b : nat) (p : Pass) (rs : list Placement) (p' : Pass) (rs' : list Placement) : Prop := mkRan {
  ran_turns : ∀ f, even_run (i + f) p after want = even_run f p' after want;
  ran_calm : calm_pass p' rs';
  ran_spot : spot_of (p_work p') after = Some n;
  ran_kinds : ∃ ks, p_ops p' = p_ops p ++ ks ∧ Forall (λ k, k = KBlankInsert after ∨ k = KBlankRemove after) ks ∧ length ks = i;
  ran_tasks : task_lines (p_work p') = task_lines (p_work p);
  ran_room : ∀ R, roomy (i + R) (p_work p) → roomy R (p_work p');
  ran_owned : ∀ o, count_of o (owned None rs') = count_of o (owned None rs) + (if bool_decide (after = o) then b else 0)
}.

Lemma ran_refl after want n p rs : calm_pass p rs → spot_of (p_work p) after = Some n → ran after want n 0 0 p rs p rs.
Proof. intros. split; try done; [exists []; by rewrite app_nil_r|]. intros o. destruct (bool_decide _); lia. Qed.

Lemma ran_trans after want n i j b c p1 rs1 p2 rs2 p3 rs3 :
  ran after want n i b p1 rs1 p2 rs2 → ran after want n j c p2 rs2 p3 rs3 → ran after want n (i + j) (b + c) p1 rs1 p3 rs3.
Proof.
  intros [A1 A2 A3 (ks & K1 & K2 & K3) T1 A4 A5] [B1 B2 B3 (ks' & K1' & K2' & K3') T2 B4 B5]. split; [|done|done| |congruence| |].
  - intros f. by rewrite <- Nat.add_assoc, A1, B1.
  - exists (ks ++ ks'). rewrite K1', K1, length_app, app_assoc. split_and!; [done|by apply Forall_app|lia].
  - intros R HR. apply B4, A4. by rewrite Nat.add_assoc.
  - intros o. rewrite B5, A5. destruct (bool_decide _); lia.
Qed.

Lemma even_run_step p rs after want n f p' :
  calm_pass p rs → spot_of (p_work p) after = Some n → run_at n rs ≠ want →
  pass_push p (if run_at n rs <? want then KBlankInsert after else KBlankRemove after) = Some p' →
  even_run (1 + f) p after want = even_run f p' after want.
Proof.
  intros Hcm Hs Hne Hp. cbn [even_run plus]. rewrite (blanks_after_run _ _ _ after (cm_fresh _ _ _ Hcm)), Hs. cbn [fmap option_fmap option_map].
  rewrite (proj2 (Nat.eqb_neq _ _) Hne). by rewrite Hp.
Qed.

Lemma roomy_le m n st : m ≤ n → roomy n st → roomy m st.
Proof. intros H [H1 H2]. split; lia. Qed.

(** ** Phases of a run *)

(** Erasers while there are blanks to spare: each claims one. *)
Lemma greater_ends after want n j p rs k :
  calm_pass p rs → spot_of (p_work p) after = Some n → roomy j (p_work p) →
  erasers_at scratch_stamp n k rs → count_of after (owned None rs) ≤ k + j →
  ∃ i p' rs', i ≤ j ∧ ran after want n i 0 p rs p' rs' ∧ run_at n rs' ≤ want ∧ (barrier scratch_stamp n rs → barrier scratch_stamp n rs').
Proof.
  revert p rs k. induction j as [|j IH]; intros p rs k Hcm Hs Hroom Her Hcount;
    (destruct (decide (run_at n rs ≤ want)) as [Hle|Hgt]; [exists 0, p, rs; split_and!; [lia|by apply ran_refl|done|done]|]);
    pose proof (erasers_below _ _ _ _ _ k Hcm Hs Her ltac:(lia)) as Hk; [lia|].
  destruct (push_eraser p rs after n j Hcm Hs Hroom) as (p1 & rs1 & x & Hp & Hpu & Hx1 & Hx2 & Hx3 & Hx4 & Hcm1 & Ha & Hroom1 & Hs1).
  pose proof (cm_fresh _ _ _ Hcm) as Hl. destruct (spot_row _ _ _ _ _ Hl Hs) as [Hn _].
  assert (shows x = None) as Hsh by (unfold shows; by rewrite Hx2).
  assert (∀ o, count_of o (owned None rs1) = count_of o (owned None rs)) as Hown.
  { intros o. rewrite (owned_alike _ _ _ Ha), (owned_placed _ _ _ _ _ _ _ Hl Hs Hsh). unfold plain. rewrite Hx1, andb_false_r, andb_false_r. lia. }
  destruct (IH p1 rs1 (S k)) as (i & p2 & rs2 & Hi & Hran & Hw & Hb); [done|done|done| |rewrite Hown; lia|].
  { eapply erasers_at_alike; [exact Ha|]. by apply erasers_at_placed. }
  exists (1 + i), p2, rs2. split_and!; [lia| |done|].
  - change 0 with (0 + 0). eapply (ran_trans after want n 1 i 0 0 p rs p1 rs1); [|exact Hran].
    split; [|done|done|exists [KBlankRemove after]; split_and!; [apply Hpu|repeat constructor; by right|done]|apply Hpu| |].
    + intros f. apply (even_run_step p rs after want n f p1 Hcm Hs); [lia|]. rewrite (proj2 (Nat.ltb_ge _ _)) by lia. done.
    + intros R HR. destruct (push_eraser p rs after n R Hcm Hs HR) as (p1' & _ & _ & Hp' & _ & _ & _ & _ & _ & _ & _ & ? & _). congruence.
    + intros o. rewrite Hown. destruct (bool_decide _); lia.
  - intros Hbar. apply Hb. eapply barrier_alike; [exact Ha|]. apply barrier_placed; [done|done|done|by right].
Qed.

(** One blank placed. *)
Lemma less_step after want n p rs :
  calm_pass p rs → spot_of (p_work p) after = Some n → roomy 1 (p_work p) → run_at n rs < want →
  ∃ p' rs', ran after want n 1 1 p rs p' rs' ∧ barrier scratch_stamp n rs' ∧ (barrier scratch_stamp n rs → run_at n rs' = S (run_at n rs)).
Proof.
  intros Hcm Hs Hroom Hw. pose proof (cm_fresh _ _ _ Hcm) as Hl. destruct (spot_row _ _ _ _ _ Hl Hs) as [Hn _].
  destruct (push_blank p rs after n 0 Hcm Hs Hroom) as (p1 & rs1 & spot & x & Hp & Hpu & Hat & Hwork & Hx & Hcm1 & Ha & _ & Hs1).
  assert (shows x = None) as Hsh by (by rewrite Hx). assert (plain x = true) as Hpl by (by rewrite Hx).
  assert (p_blank x = true ∧ p_stamp x = scratch_stamp ∧ p_eraser x = false ∧ p_hidden x = false) as (X1 & X2 & X3 & X4) by (by rewrite Hx).
  exists p1, rs1. split_and!.
  - split; [|done|done|exists [KBlankInsert after]; split_and!; [apply Hpu|repeat constructor; by left|done]|apply Hpu| |].
    + intros f. apply (even_run_step p rs after want n f p1 Hcm Hs); [lia|]. rewrite (proj2 (Nat.ltb_lt _ _)) by lia. done.
    + intros R HR. destruct (push_blank p rs after n R Hcm Hs HR) as (p1' & rs1' & spot' & x' & Hp' & _ & _ & _ & _ & _ & _ & HR' & _). congruence.
    + intros o. rewrite (owned_alike _ _ _ Ha), (owned_placed _ _ _ _ _ _ _ Hl Hs Hsh), Hpl, andb_true_r. done.
  - eapply barrier_alike; [exact Ha|]. apply barrier_placed; [done|done|done|by left].
  - intros Hbar.
    assert (settle_erasers (insert_entry (p_work p) spot (blank_entry (p_work p)) scratch_stamp) = insert_entry (p_work p) spot (blank_entry (p_work p)) scratch_stamp) as Eset.
    { subst n. eapply settled_over_barrier; [exact Hl|done|by eapply spot_line_before|done|by apply Hcm]. }
    rewrite Eset in Hwork.
    assert (rs1 = insert_at n x rs) as ->.
    { eapply columns_inj; [exact (fr_columns _ _ _ (cm_fresh _ _ _ Hcm1))|]. rewrite Hwork, Hx. subst n. apply columns_insert, Hl. }
    unfold run_at, insert_at. rewrite drop_app_length' by (rewrite length_take; lia). unfold shown_rows. cbn [List.filter]. rewrite X4. cbn [negb run_while].
    by rewrite X1.
Qed.

(** Blanks over the barrier until there are enough. *)
Lemma less_ends after want n d p rs :
  calm_pass p rs → spot_of (p_work p) after = Some n → roomy d (p_work p) → run_at n rs + d = want →
  barrier scratch_stamp n rs → ∃ p' rs', ran after want n d d p rs p' rs' ∧ run_at n rs' = want.
Proof.
  revert p rs. induction d as [|d IH]; intros p rs Hcm Hs Hroom Hw Hbar.
  - exists p, rs. split; [by apply ran_refl|lia].
  - destruct (less_step after want n p rs Hcm Hs) as (p1 & rs1 & H1 & Hb1 & Hrun); [by apply (roomy_le 1 (S d)); [lia|]|lia|].
    destruct (IH p1 rs1) as (p2 & rs2 & H2 & Hw2); [apply H1|apply H1|by apply (ran_room _ _ _ _ _ _ _ _ _ H1)|rewrite Hrun by done; lia|done|].
    exists p2, rs2. split; [|done]. by eapply (ran_trans _ _ _ 1 d 1 d).
Qed.

(** ** Every run *)

(** What one anchor's run costs at most. *)
Definition run_cost (rs : list Placement) (want : nat) (after : option TaskId) : nat := 2 * count_of after (owned None rs) + want + 2.

Lemma even_run_ends p rs after want n R :
  calm_pass p rs → spot_of (p_work p) after = Some n → roomy (run_cost rs want after + R) (p_work p) →
  ∃ p' rs', (∀ f, run_cost rs want after ≤ f → even_run f p after want = Some (Some p')) ∧ calm_pass p' rs' ∧ roomy R (p_work p')
    ∧ (∀ o, o ≠ after → count_of o (owned None rs') = count_of o (owned None rs))
    ∧ blanks_after (p_work p') after = Some want ∧ task_lines (p_work p') = task_lines (p_work p)
    ∧ ∃ ks, p_ops p' = p_ops p ++ ks ∧ Forall (λ k, k = KBlankInsert after ∨ k = KBlankRemove after) ks ∧ length ks ≤ run_cost rs want after.
Proof.
  intros Hcm Hs Hroom. unfold run_cost in *. set (q := count_of after (owned None rs)) in *.
  assert (∀ i b p' rs', ran after want n i b p rs p' rs' → run_at n rs' = want → i ≤ 2 * q + want + 2 →
    ∃ p' rs', (∀ f, 2 * q + want + 2 ≤ f → even_run f p after want = Some (Some p')) ∧ calm_pass p' rs' ∧ roomy R (p_work p')
    ∧ (∀ o, o ≠ after → count_of o (owned None rs') = count_of o (owned None rs))
    ∧ blanks_after (p_work p') after = Some want ∧ task_lines (p_work p') = task_lines (p_work p)
    ∧ ∃ ks, p_ops p' = p_ops p ++ ks ∧ Forall (λ k, k = KBlankInsert after ∨ k = KBlankRemove after) ks ∧ length ks ≤ 2 * q + want + 2) as Hdone.
  { intros i b p' rs' [H1 H2 H3 (ks & K1 & K2 & K3) HT H4 H5] Hw Hi. exists p', rs'.
    assert (blanks_after (p_work p') after = Some want) as Hb by (rewrite (blanks_after_run _ _ _ after (cm_fresh _ _ _ H2)), H3; cbn; by rewrite Hw).
    split_and!; [|done| | |done|done|exists ks; split_and!; [done|done|lia]].
    - intros f Hf. replace f with (i + (f - i)) by lia. rewrite H1. destruct (f - i); cbn [even_run]; by rewrite Hb, Nat.eqb_refl.
    - apply H4. eapply roomy_le; [|exact Hroom]. lia.
    - intros o Ho. rewrite H5, bool_decide_eq_false_2 by congruence. lia. }
  assert (∀ p rs, calm_pass p rs → spot_of (p_work p) after = Some n → erasers_at scratch_stamp n 0 rs) as H0.
  { intros p0 rs0 Hcm0 Hs0. destruct (spot_row _ _ _ _ _ (cm_fresh _ _ _ Hcm0) Hs0) as [Hn _]. split; [lia|]. intros s r. lia. }
  destruct (greater_ends after want n q p rs 0 Hcm Hs) as (i1 & p1 & rs1 & Hi1 & R1 & Hw1 & _); [by eapply roomy_le; [|exact Hroom]; lia|by apply (H0 p)|done|].
  destruct (decide (run_at n rs1 = want)) as [He1|Hne1]; [by apply (Hdone i1 0 p1 rs1); [done|done|lia]|].
  assert (roomy (q + want + 2) (p_work p1)) as Hroom1 by (apply (ran_room _ _ _ _ _ _ _ _ _ R1); eapply roomy_le; [|exact Hroom]; lia).
  destruct (less_step after want n p1 rs1) as (p2 & rs2 & R2 & Hbar & _); [apply R1|apply R1|by eapply roomy_le; [|exact Hroom1]; lia|lia|].
  assert (roomy (q + want + 1) (p_work p2)) as Hroom2 by (apply (ran_room _ _ _ _ _ _ _ _ _ R2); eapply roomy_le; [|exact Hroom1]; lia).
  assert (count_of after (owned None rs2) = q + 1) as Hq.
  { rewrite (ran_owned _ _ _ _ _ _ _ _ _ R2), (ran_owned _ _ _ _ _ _ _ _ _ R1), bool_decide_eq_true_2 by done. unfold q. lia. }
  destruct (greater_ends after want n (q + 1) p2 rs2 0) as (i3 & p3 & rs3 & Hi3 & R3 & Hw3 & Hbar3);
    [apply R2|apply R2|by eapply roomy_le; [|exact Hroom2]; lia|apply (H0 p2); apply R2|lia|].
  assert (roomy want (p_work p3)) as Hroom3 by (apply (ran_room _ _ _ _ _ _ _ _ _ R3); eapply roomy_le; [|exact Hroom2]; lia).
  destruct (less_ends after want n (want - run_at n rs3) p3 rs3) as (p4 & rs4 & R4 & Hw4);
    [apply R3|apply R3|by eapply roomy_le; [|exact Hroom3]; lia|lia|by apply Hbar3|].
  pose proof (ran_trans _ _ _ _ _ _ _ _ _ _ _ _ _ (ran_trans _ _ _ _ _ _ _ _ _ _ _ _ _ (ran_trans _ _ _ _ _ _ _ _ _ _ _ _ _ R1 R2) R3) R4) as Rall.
  eapply Hdone; [exact Rall|done|]. lia.
Qed.




(** ** What the runs cost together *)


Lemma owned_length acc rs : length (owned acc rs) ≤ length rs.
Proof.
  revert acc. induction rs as [|r rs IH]; intros acc; cbn [owned length]; [done|]. pose proof IH as IH'.
  destruct (shows r) as [t|]; [specialize (IH (Some t)); lia|]. specialize (IH acc). destruct (plain r); cbn [length]; lia.
Qed.


(** ** The ops before *)










(** ** Synthesis ends *)








(** A document changed here only, in the order of its clock, is calm. *)
Lemma calm_local h st : local h st → ∃ rs, calm h st rs.
Proof. intros [rs Hl]. exists rs. split; [apply Hl|by eapply local_settle]. Qed.


(** ** Claims *)



(** C25. Evening out one run of blanks ends, with exactly the blanks asked for after the anchor, whatever
    the fuel above [2q + want + 2] for the [q] blanks that belong to the anchor, shown or hidden: a turn may
    change the run by more or less than one, and still it does not go past the number for good. All it adds
    is blanks and erasers after that anchor, at most so many; the tasks shown stay as they were; and no
    other anchor's blanks are touched. For a document at rest with room for that many rows. *)
Theorem even_run_evens p rs after want n :
  calm scratch_stamp (p_work p) rs → spot_of (p_work p) after = Some n → roomy (run_cost rs want after) (p_work p) →
  ∃ p', (∀ fuel, run_cost rs want after ≤ fuel → even_run fuel p after want = Some (Some p'))
    ∧ blanks_after (p_work p') after = Some want
    ∧ task_lines (p_work p') = task_lines (p_work p)
    ∧ (∃ ks, p_ops p' = p_ops p ++ ks ∧ Forall (λ k, k = KBlankInsert after ∨ k = KBlankRemove after) ks ∧ length ks ≤ run_cost rs want after)
    ∧ ∃ rs', calm scratch_stamp (p_work p') rs' ∧ ∀ o, o ≠ after → count_of o (owned None rs') = count_of o (owned None rs).
Proof.
  intros Hcm Hs Hroom. destruct (even_run_ends p rs after want n 0 Hcm Hs) as (p' & rs' & H1 & H2 & _ & H3 & H4 & H5 & H6); [by rewrite Nat.add_0_r|].
  exists p'. split_and!; [done|done|done|done|by exists rs'].
Qed.

Lemma even_run_evens_witness : ∃ st,
  doc_of [str "one"; []; []; str "two"] = Some st
  ∧ ∃ p', (∀ fuel, 20 ≤ fuel → even_run fuel (mkPass st []) (Some 1%N) 1 = Some (Some p'))
      ∧ blanks_after (p_work p') (Some 1%N) = Some 1 ∧ task_lines (p_work p') = task_lines st.
Proof.
  destruct (doc_of [str "one"; []; []; str "two"]) as [st|] eqn:E; [|vm_compute in E; discriminate E]. exists st. split; [done|].
  assert (∃ rs, calm scratch_stamp st rs) as [rs Hcm].
  { apply calm_local. unfold doc_of in E. destruct (from_file _ _ _ _) as [st'|e] eqn:Ef in E; [|done]. injection E as ->.
    apply (local_later unplaced); [reflexivity|]. eapply open_local; [exact Ef|]. apply (bool_decide_eq_true_1 _). vm_compute. reflexivity. }
  assert (run_cost rs 1 (Some 1%N) ≤ 20) as Hc.
  { unfold run_cost. assert (count_of (Some 1%N) (owned None rs) ≤ 4) as H; [|lia]. etrans; [apply List.filter_length_le|].
    etrans; [apply owned_length|]. rewrite <- (columns_length _ _ (fr_columns _ _ _ (cm_fresh _ _ _ Hcm))). clear Hcm.
    vm_compute in E. injection E as <-. apply Nat.leb_le. vm_compute. reflexivity. }
  assert (roomy 20 st) as Hroom.
  { clear Hcm Hc. vm_compute in E. injection E as <-. split; [apply Nat.leb_le|apply N.leb_le]; vm_compute; reflexivity. }
  assert (spot_of st (Some 1%N) = Some 1) as Hs by (clear Hcm Hc Hroom; vm_compute in E; injection E as <-; vm_compute; reflexivity).
  destruct (even_run_evens (mkPass st []) rs (Some 1%N) 1 1 Hcm Hs (roomy_le _ _ _ Hc Hroom)) as (p' & H1 & H2 & H3 & _).
  exists p'. split_and!; [|exact H2|exact H3]. intros fuel Hf. apply H1. lia.
Defined.

(** A turn may leave the run as it was: the blank before a deleted line is erased already, the one after
    it is newer than that eraser, so the first new eraser only takes over the older one's blank. *)
Definition idle_sample : list Op :=
  [op_at 20 1 (KBlankRemove (Some 1%N)); op_at 30 1 (KBlankInsert (Some 3%N)); op_at 40 1 (KSetField 3 FDeleted (FVBool true))].

Example even_turn_idle :
  (st ← doc_of [str "one"; []; str "two"];
   let '(st, _) := apply_all idle_sample st in
   p ← pass_push (mkPass st []) (KBlankRemove (Some 1%N));
   q ← pass_push p (KBlankRemove (Some 1%N));
   Some (blanks_after st (Some 1%N), blanks_after (p_work p) (Some 1%N), blanks_after (p_work q) (Some 1%N)))
  = Some (Some 1, Some 1, Some 0).
Proof. vm_compute. reflexivity. Qed.
