(* ===== verification/Frame.v ===== *)
(** The wire envelope of sync ([crates/txtodo-sync/src/frame.rs]), the length-prefixed records of a
    shared-folder file ([append_frame.rs]) and the two links a session runs over: the buffered reader of
    a byte stream ([lan_link.rs]) and the in-process queue ([link.rs]).

    Lengths are [N] here: the caps are in the millions. A stream is the list of what its reads return.
    The theorems: a frame survives the wire whatever follows it, a receiver gets the frames a sender
    framed and wrote, in order and whole, however the stream cuts them into chunks, and a half-written record is never
    taken for a record. *)
From S2P Require Import Prelude.

#[local] Open Scope N_scope.

(** ** Little-endian integers ([to_le_bytes], [from_le_bytes]) *)

Fixpoint to_le_bytes (width : nat) (v : N) : bytes :=
  match width with
  | O => []
  | S w => byte_of_N (v mod 256) :: to_le_bytes w (v / 256)
  end.

Fixpoint from_le_bytes (bs : bytes) : N :=
  match bs with
  | [] => 0
  | c :: rest => bN c + 256 * from_le_bytes rest
  end.

(** [bytes.len()]. *)
Definition blen (bs : bytes) : N := N.of_nat (length bs).

(** ** The frame *)

Definition MAGIC : bytes := str "TXTO".
Definition PROTOCOL_VERSION : N := 6.
Definition MAX_FRAME_BYTES : N := 4 * 1024 * 1024.
Definition HEADER_BYTES : N := 10.

Record Frame := mkFrame { version : N; body : bytes }.

Inductive FrameError :=
| BadMagic (got : bytes)
| Truncated (needed got : N)
| TooLarge (len max : N)
| UnknownVersion (got supported : N).

#[global] Instance Frame_eq_dec : EqDecision Frame.
Proof. solve_decision. Defined.
#[global] Instance FrameError_eq_dec : EqDecision FrameError.
Proof. solve_decision. Defined.

Definition Frame_new (b : bytes) : result FrameError Frame :=
  if MAX_FRAME_BYTES <? blen b then Err (TooLarge (blen b) MAX_FRAME_BYTES)
  else Ok (mkFrame PROTOCOL_VERSION b).

(** [u32::try_from(len)]. *)
Definition u32_try_from (n : N) : option N := if n <? 2 ^ 32 then Some n else None.

Definition Frame_encode (self : Frame) : result FrameError bytes :=
  if MAX_FRAME_BYTES <? blen (body self) then Err (TooLarge (blen (body self)) MAX_FRAME_BYTES)
  else
    len ← ok_or (u32_try_from (blen (body self))) (TooLarge (blen (body self)) MAX_FRAME_BYTES);
    Ok (MAGIC ++ to_le_bytes 2 (version self) ++ to_le_bytes 4 len ++ body self).

Definition bad_magic (bs : bytes) : FrameError :=
  let n := Nat.min (length bs) 4 in
  BadMagic (take n bs ++ replicate (4 - n)%nat x00).

Definition Frame_peek (bs : bytes) : result FrameError (N * N) :=
  if blen bs <? HEADER_BYTES then
    if (4 <=? blen bs) && negb (bool_decide (take 4 bs = MAGIC)) then Err (bad_magic bs)
    else Err (Truncated HEADER_BYTES (blen bs))
  else if negb (bool_decide (take 4 bs = MAGIC)) then Err (bad_magic bs)
  else
    let ver := from_le_bytes (slice 4 6 bs) in
    let len := from_le_bytes (slice 6 10 bs) in
    if MAX_FRAME_BYTES <? len then Err (TooLarge len MAX_FRAME_BYTES)
    else Ok (ver, HEADER_BYTES + len).

(** [Frame::decode] is this and a log line. *)
Definition Frame_decode_inner (bs : bytes) : result FrameError (Frame * N) :=
  '(ver, total) ← Frame_peek bs;
  if negb (ver =? PROTOCOL_VERSION) then Err (UnknownVersion ver PROTOCOL_VERSION)
  else if blen bs <? total then Err (Truncated total (blen bs))
  else Ok (mkFrame ver (slice 10 (N.to_nat total) bs), total).

(** ** Records of a shared-folder file *)

Definition MAX_APPEND_FRAME_BYTES : N := 8 * 1024 * 1024.
Definition APPEND_HEADER_BYTES : N := 4.

Record AppendFrame := mkAppendFrame { af_len : N; af_body : bytes }.

(** The errors of [carrier_error.rs]; a path is the file's name in the folder. *)
Inductive CarrierError :=
| FrameTooLarge (len max : N)
| CFrame (e : FrameError)
| ForeignDevice (path : bytes) (owner us : N)
| BadFileName (path : bytes)
| CDir
| CIo (path : bytes).

Definition AppendFrame_new (b : bytes) : result CarrierError AppendFrame :=
  if MAX_APPEND_FRAME_BYTES <? blen b then Err (FrameTooLarge (blen b) MAX_APPEND_FRAME_BYTES)
  else
    len ← ok_or (u32_try_from (blen b)) (FrameTooLarge (blen b) MAX_APPEND_FRAME_BYTES);
    Ok (mkAppendFrame len b).

Definition AppendFrame_encode (self : AppendFrame) : bytes := to_le_bytes 4 (af_len self) ++ af_body self.

Definition try_decode (bs : bytes) : result CarrierError (option (AppendFrame * N)) :=
  if blen bs <? APPEND_HEADER_BYTES then Ok None
  else
    let len := from_le_bytes (take 4 bs) in
    if MAX_APPEND_FRAME_BYTES <? len then Err (FrameTooLarge len MAX_APPEND_FRAME_BYTES)
    else
      let total := APPEND_HEADER_BYTES + len in
      if blen bs <? total then Ok None
      else Ok (Some (mkAppendFrame len (slice 4 (N.to_nat total) bs), total)).

(** ** Links *)

Inductive LinkError := Closed | LFrame (e : FrameError) | LIo.

(** What one [read] of the stream returns: some bytes, its end, an error, or nothing before the wait
    is over. *)
Inductive Read := ReadBytes (chunk : bytes) | ReadEof | ReadError | ReadTimeout.

(** [IrohLink::recv_inner]: the inbox, and the reads to come; a stream with no more reads in the list
    stays silent, so the wait elapses. *)
Fixpoint recv_inner (inbox : bytes) (reads : list Read) : bytes * list Read * result LinkError (option Frame) :=
  match Frame_decode_inner inbox with
  | Ok (frame, used) => (drop (N.to_nat used) inbox, reads, Ok (Some frame))
  | Err (Truncated _ _) =>
      match reads with
      | [] => (inbox, [], Ok None)
      | ReadBytes chunk :: rest => recv_inner (inbox ++ chunk) rest
      | ReadEof :: rest => (inbox, rest, Err Closed)
      | ReadError :: rest => (inbox, rest, Err LIo)
      | ReadTimeout :: rest => (inbox, rest, Ok None)
      end
  | Err other => (inbox, reads, Err (LFrame other))
  end.

(** [recv]: an idle wait is reported as the close. *)
Definition recv (inbox : bytes) (reads : list Read) : bytes * list Read * result LinkError Frame :=
  let '(inbox', reads', r) := recv_inner inbox reads in
  (inbox', reads', match r with Ok (Some f) => Ok f | Ok None => Err Closed | Err e => Err e end).

(** [IrohLink::send]: the frame's bytes join those on the stream; [fails] is how many of them a write that
    fails left there. *)
Definition link_send (stream : bytes) (frame : Frame) (fails : option nat) : bytes * result LinkError unit :=
  match map_err LFrame (Frame_encode frame) with
  | Err e => (stream, Err e)
  | Ok bs => match fails with None => (stream ++ bs, Ok tt) | Some n => (stream ++ take n bs, Err LIo) end
  end.

(** A driver that frames some bodies and sends them over a stream that takes every write. *)
Fixpoint send_bodies (stream : bytes) (bodies : list bytes) : result LinkError bytes :=
  match bodies with
  | [] => Ok stream
  | b :: rest => f ← map_err LFrame (Frame_new b); let '(stream', sent) := link_send stream f None in _ ← sent; send_bodies stream' rest
  end.

(** A driver that calls [recv] so many times. *)
Fixpoint recv_times (k : nat) (inbox : bytes) (reads : list Read) : list (result LinkError Frame) :=
  match k with
  | O => []
  | S k' => let '(inbox', reads', r) := recv inbox reads in r :: recv_times k' inbox' reads'
  end.

(** A driver that keeps calling [recv_timeout]: every frame it is given, and how it stopped ([Ok] when
    the stream went silent). *)
Fixpoint recv_frames (fuel : nat) (inbox : bytes) (reads : list Read) : list Frame * result LinkError unit :=
  match fuel with
  | O => ([], Ok tt)
  | S fuel' =>
      match recv_inner inbox reads with
      | (inbox', reads', Ok (Some f)) => let '(fs, r) := recv_frames fuel' inbox' reads' in (f :: fs, r)
      | (inbox', [], Ok None) => ([], Ok tt)
      | (inbox', reads', Ok None) => recv_frames fuel' inbox' reads'
      | (_, _, Err e) => ([], Err e)
      end
  end.

(** [Queue] of [link.rs]: frames in flight and whether the sender is gone. *)
Definition MAX_QUEUED_FRAMES : nat := 256.

Record QueueState := mkQueue { q_frames : list Frame; q_closed : bool }.

Definition Queue_push (q : QueueState) (f : Frame) : result LinkError QueueState :=
  if q_closed q then Err Closed
  else if (MAX_QUEUED_FRAMES <=? length (q_frames q))%nat then Err LIo
  else Ok (mkQueue (q_frames q ++ [f]) (q_closed q)).

(** [pop_timeout]: [Ok None] when nothing comes within the wait. *)
Definition Queue_pop_timeout (q : QueueState) : QueueState * result LinkError (option Frame) :=
  match q_frames q with
  | f :: rest => (mkQueue rest (q_closed q), Ok (Some f))
  | [] => (q, if q_closed q then Err Closed else Ok None)
  end.

Definition Queue_close (q : QueueState) : QueueState := mkQueue (q_frames q) true.

(** ** Lemmas *)

Lemma blen_app a b : blen (a ++ b) = blen a + blen b.
Proof. unfold blen. rewrite length_app. lia. Qed.

Lemma to_le_bytes_length w v : length (to_le_bytes w v) = w.
Proof. revert v. induction w as [|w IH]; intros v; simpl; [done|]. by rewrite IH. Qed.

Lemma from_to_le w v : v < 256 ^ N.of_nat w → from_le_bytes (to_le_bytes w v) = v.
Proof.
  revert v. induction w as [|w IH]; intros v Hv; simpl.
  - change (256 ^ N.of_nat 0) with 1 in Hv. lia.
  - rewrite Nat2N.inj_succ, N.pow_succ_r' in Hv.
    rewrite bN_of_N by (apply N.mod_lt; lia). rewrite IH by (apply N.Div0.div_lt_upper_bound; lia).
    pose proof (N.div_mod' v 256). lia.
Qed.

Lemma from_le_bound bs : from_le_bytes bs < 256 ^ N.of_nat (length bs).
Proof.
  induction bs as [|c bs IH]; [done|]. cbn [from_le_bytes length].
  rewrite Nat2N.inj_succ, N.pow_succ_r'. pose proof (bN_bound c). lia.
Qed.

Lemma to_from_le bs : to_le_bytes (length bs) (from_le_bytes bs) = bs.
Proof.
  induction bs as [|c bs IH]; simpl; [done|]. f_equal.
  - replace ((bN c + 256 * from_le_bytes bs) mod 256) with (bN c); [by apply byte_of_bN|].
    rewrite N.mul_comm, N.Div0.mod_add, N.mod_small by apply bN_bound. done.
  - replace ((bN c + 256 * from_le_bytes bs) / 256) with (from_le_bytes bs); [done|].
    rewrite N.mul_comm, N.div_add by lia. rewrite N.div_small by apply bN_bound. lia.
Qed.

Definition frame_wf (f : Frame) : Prop := version f = PROTOCOL_VERSION ∧ blen (body f) <= MAX_FRAME_BYTES.

(** The bytes of a frame that fits. *)
Definition wire (f : Frame) : bytes :=
  MAGIC ++ to_le_bytes 2 (version f) ++ to_le_bytes 4 (blen (body f)) ++ body f.

Lemma Frame_encode_ok f :
  blen (body f) <= MAX_FRAME_BYTES → Frame_encode f = Ok (wire f).
Proof.
  intros Hl. unfold Frame_encode, u32_try_from. rewrite (proj2 (N.ltb_ge _ _)) by done.
  assert (blen (body f) < 2 ^ 32) as Hlt by (change MAX_FRAME_BYTES with 4194304 in Hl; lia).
  by rewrite (proj2 (N.ltb_lt _ _) Hlt).
Qed.

Lemma Frame_encode_inv f bs : Frame_encode f = Ok bs → bs = wire f ∧ blen (body f) <= MAX_FRAME_BYTES.
Proof.
  intros H. assert (blen (body f) <= MAX_FRAME_BYTES) as Hl.
  { unfold Frame_encode in H. destruct (MAX_FRAME_BYTES <? _) eqn:E; [done|]. by apply N.ltb_ge in E. }
  rewrite Frame_encode_ok in H by done. by simplify_eq.
Qed.

Lemma wire_length f : blen (wire f) = HEADER_BYTES + blen (body f).
Proof.
  unfold wire. rewrite !blen_app. unfold blen at 1 2 3. rewrite !to_le_bytes_length.
  change (length MAGIC) with 4%nat. unfold HEADER_BYTES. lia.
Qed.

(** The ten header bytes decide what [peek] says. *)
Lemma peek_header ver len rest :
  ver < 2 ^ 16 → len <= MAX_FRAME_BYTES →
  Frame_peek (MAGIC ++ to_le_bytes 2 ver ++ to_le_bytes 4 len ++ rest) = Ok (ver, HEADER_BYTES + len).
Proof.
  intros Hv Hl. unfold Frame_peek.
  assert (HEADER_BYTES <= blen (MAGIC ++ to_le_bytes 2 ver ++ to_le_bytes 4 len ++ rest)) as Hh.
  { rewrite !blen_app. unfold blen at 1 2 3. rewrite !to_le_bytes_length.
    change (length MAGIC) with 4%nat. unfold HEADER_BYTES. lia. }
  rewrite (proj2 (N.ltb_ge _ _) Hh). change (take 4 (MAGIC ++ _)) with MAGIC.
  rewrite bool_decide_eq_true_2 by done. simpl negb. cbv iota.
  replace (slice 4 6 _) with (to_le_bytes 2 ver) by reflexivity.
  replace (slice 6 10 _) with (to_le_bytes 4 len) by reflexivity.
  assert (len < 256 ^ N.of_nat 4) as Hlen by (change MAX_FRAME_BYTES with 4194304 in Hl; simpl; lia).
  rewrite (from_to_le 2) by exact Hv. rewrite (from_to_le 4) by exact Hlen.
  by rewrite (proj2 (N.ltb_ge _ _) Hl).
Qed.

(** A frame at the front of any bytes decodes to itself, and takes its own length. *)
Lemma decode_wire f rest :
  frame_wf f → Frame_decode_inner (wire f ++ rest) = Ok (f, blen (wire f)).
Proof.
  intros [Hv Hl]. unfold Frame_decode_inner.
  replace (wire f ++ rest) with (MAGIC ++ to_le_bytes 2 (version f) ++ to_le_bytes 4 (blen (body f)) ++ body f ++ rest)
    by (unfold wire; by rewrite <- !app_assoc).
  rewrite peek_header by (rewrite ?Hv; done). cbn [mbind result_bind].
  rewrite Hv. simpl (negb _). cbv iota.
  assert (HEADER_BYTES + blen (body f) <= blen (MAGIC ++ to_le_bytes 2 PROTOCOL_VERSION ++
    to_le_bytes 4 (blen (body f)) ++ body f ++ rest)) as Hh.
  { rewrite !blen_app. unfold blen at 2 3 4. rewrite !to_le_bytes_length.
    change (length MAGIC) with 4%nat. unfold HEADER_BYTES. lia. }
  rewrite (proj2 (N.ltb_ge _ _) Hh). rewrite wire_length. f_equal. f_equal.
  destruct f as [v b]; cbn [version body] in *. subst v. f_equal. unfold slice.
  change (drop 10 (MAGIC ++ _)) with (b ++ rest).
  replace (N.to_nat (HEADER_BYTES + blen b) - 10)%nat with (length b)
    by (unfold HEADER_BYTES, blen; lia).
  apply take_app_length.
Qed.

(** Anything shorter than the frame is reported as truncated, whatever its length. *)
Lemma decode_prefix f p q :
  frame_wf f → p ++ q = wire f → q ≠ [] → ∃ needed got, Frame_decode_inner p = Err (Truncated needed got).
Proof.
  intros [Hv Hl] Hpq Hq.
  assert (length p < length (wire f))%nat as Hlen.
  { rewrite <- Hpq, length_app. destruct q; [done|]. simpl. lia. }
  assert (p = take (length p) (wire f)) as Hp by (by rewrite <- Hpq, take_app_length).
  unfold Frame_decode_inner. destruct (N.lt_ge_cases (blen p) HEADER_BYTES) as [Hs|Hs].
  - unfold Frame_peek. rewrite (proj2 (N.ltb_lt _ _) Hs).
    assert (4 <= blen p → take 4 p = MAGIC) as Hm.
    { intros H4. rewrite Hp, take_take, Nat.min_l by (unfold blen in H4; lia). done. }
    destruct (N.leb_spec 4 (blen p)); simpl.
    + rewrite bool_decide_eq_true_2 by auto. simpl. eauto.
    + eauto.
  - assert (p = MAGIC ++ to_le_bytes 2 (version f) ++ to_le_bytes 4 (blen (body f)) ++ take (length p - 10) (body f)) as Hp'.
    { rewrite Hp at 1. unfold wire. unfold HEADER_BYTES, blen in Hs.
      rewrite !take_app, !to_le_bytes_length. change (length MAGIC) with 4%nat.
      rewrite !(take_ge (to_le_bytes _ _)) by (rewrite to_le_bytes_length; lia).
      rewrite (take_ge MAGIC) by (change (length MAGIC) with 4%nat; lia).
      by replace (length p - 4 - 2 - 4)%nat with (length p - 10)%nat by lia. }
    assert (blen p < HEADER_BYTES + blen (body f)) as Hshort.
    { rewrite <- wire_length. unfold blen. lia. }
    assert (Frame_peek p = Ok (version f, HEADER_BYTES + blen (body f))) as ->.
    { etransitivity; [exact (f_equal Frame_peek Hp')|]. apply peek_header; [by rewrite Hv|done]. }
    cbn [mbind result_bind].
    rewrite Hv. simpl (negb _). cbv iota. rewrite (proj2 (N.ltb_lt _ _) Hshort). eauto.
Qed.

(** ** A stream cut anywhere *)

(** The bytes a list of reads brings. *)
Definition read_bytes (r : Read) : bytes := match r with ReadBytes c => c | _ => [] end.
Definition stream_bytes (reads : list Read) : bytes := concat (map read_bytes reads).

(** A read that brings bytes or times out: what a link that stays up does. *)
Definition quiet_read (r : Read) : bool := match r with ReadBytes _ | ReadTimeout => true | _ => false end.

Definition wires (fs : list Frame) : bytes := concat (map wire fs).

(** One call: the next frame, or nothing yet; what is left in the inbox and the stream is still the
    frames that were not returned. *)
Lemma recv_inner_next fs : Forall frame_wf fs → ∀ reads inbox,
  forallb quiet_read reads = true → inbox ++ stream_bytes reads = wires fs →
  ∃ inbox' reads', forallb quiet_read reads' = true
    ∧ ((∃ f fs', fs = f :: fs' ∧ recv_inner inbox reads = (inbox', reads', Ok (Some f))
         ∧ inbox' ++ stream_bytes reads' = wires fs' ∧ (length reads' ≤ length reads)%nat)
       ∨ (recv_inner inbox reads = (inbox', reads', Ok None)
         ∧ inbox' ++ stream_bytes reads' = wires fs
         ∧ (∃ n g, Frame_decode_inner inbox' = Err (Truncated n g))
         ∧ (reads' = [] ∨ (length reads' < length reads)%nat))).
Proof.
  intros Hfs. induction reads as [|r reads IH]; intros inbox Hq Hb.
  - cbn [stream_bytes map concat] in Hb. rewrite app_nil_r in Hb. destruct fs as [|f fs]; cbn [recv_inner].
    + change (wires []) with (@nil byte) in Hb. subst inbox. exists [], []. split; [done|]. right.
      split_and!; [done..|eexists _, _; reflexivity|by left].
    + inversion Hfs; subst. change (wires (f :: fs)) with (wire f ++ wires fs). rewrite decode_wire by done. eexists _, []. split; [done|]. left.
      exists f, fs. split_and!; [done|reflexivity| |done]. cbn [stream_bytes map concat].
      unfold stream_bytes. cbn [map concat]. rewrite app_nil_r. unfold blen. rewrite Nat2N.id. by rewrite drop_app_length.
  - cbn [forallb] in Hq. apply andb_true_iff in Hq as [Hr Hq].
    assert (stream_bytes (r :: reads) = read_bytes r ++ stream_bytes reads) as Hs by done.
    assert ((∃ f fs' t, fs = f :: fs' ∧ inbox = wire f ++ t) ∨
            (∃ n g, Frame_decode_inner inbox = Err (Truncated n g))) as [(f & fs' & t & -> & ->)|(n & g & Htr)].
    { destruct fs as [|f fs'].
      - right. change (wires []) with (@nil byte) in Hb. apply app_eq_nil in Hb as [-> _]. eexists _, _. reflexivity.
      - change (wires (f :: fs')) with (wire f ++ wires fs') in Hb.
        destruct (decide (length (wire f) ≤ length inbox)%nat) as [Hle|Hgt].
        + left. exists f, fs', (drop (length (wire f)) inbox). split; [done|].
          rewrite <- (take_drop (length (wire f)) inbox) at 1. f_equal.
          apply (f_equal (take (length (wire f)))) in Hb. rewrite take_app_le, take_app_length in Hb; done.
        + right. inversion Hfs; subst. eapply (decode_prefix f inbox (drop (length inbox) (wire f))); [done| |].
          * assert (inbox = take (length inbox) (wire f)) as Hi.
            { apply (f_equal (take (length inbox))) in Hb. rewrite take_app_length, take_app_le in Hb; [done|lia]. }
            rewrite Hi at 1. apply take_drop.
          * intros Hd. apply (f_equal length) in Hd. rewrite length_drop in Hd.
            change (length (@nil byte)) with 0%nat in Hd. lia. }
    + inversion Hfs; subst. cbn [recv_inner]. rewrite decode_wire by done.
      eexists _, (r :: reads). split; [cbn [forallb]; by rewrite Hr, Hq|]. left. exists f, fs'.
      split_and!; [done|reflexivity| |done]. unfold blen. rewrite Nat2N.id, drop_app_length.
      change (wires (f :: fs')) with (wire f ++ wires fs') in Hb. rewrite <- app_assoc in Hb. by simplify_list_eq.
    + cbn [recv_inner]. rewrite Htr. rewrite Hs, app_assoc in Hb. destruct r as [c| | |]; try done; cbn [read_bytes] in Hb.
      * destruct (IH (inbox ++ c) Hq Hb) as (i' & r' & Hq' & [(f & fs' & ? & ? & ? & ?)|(? & ? & ? & Hd)]);
          exists i', r'; (split; [done|]); [left|right].
        -- exists f, fs'. split_and!; [done..|]. simpl. lia.
        -- split_and!; [done..|]. simpl. destruct Hd as [?|?]; [by left|right; lia].
      * rewrite app_nil_r in Hb. exists inbox, reads. split; [done|]. right.
        split_and!; [done..|by eauto|right; simpl; lia].
Qed.

Lemma recv_frames_all fs : Forall frame_wf fs → ∀ reads inbox fuel,
  forallb quiet_read reads = true → inbox ++ stream_bytes reads = wires fs → (length fs + length reads < fuel)%nat →
  recv_frames fuel inbox reads = (fs, Ok tt).
Proof.
  intros Hfs reads inbox fuel. revert inbox fs reads Hfs.
  induction fuel as [|fuel IH]; intros inbox fs reads Hfs Hq Hb Hlt; [lia|].
  cbn [recv_frames].
  destruct (recv_inner_next fs Hfs reads inbox Hq Hb) as (i' & r' & Hq' & [(f & fs' & -> & -> & Hb' & Hr)|(-> & Hb' & (n & g & Htr) & Hr)]).
  - inversion Hfs; subst. rewrite (IH i' fs' r'); [by destruct r'|done|done|done|cbn [length] in Hlt; lia].
  - destruct r' as [|x r''].
    + destruct fs as [|f fs']; [done|]. exfalso.
      change (stream_bytes []) with (@nil byte) in Hb'. rewrite app_nil_r in Hb'. subst i'.
      inversion Hfs; subst. change (wires (f :: fs')) with (wire f ++ wires fs') in Htr.
      by rewrite decode_wire in Htr.
    + destruct Hr as [?|Hr]; [done|]. apply IH; [done..|lia].
Qed.

(** A read that brings bytes. *)
Definition is_bytes (r : Read) : bool := match r with ReadBytes _ => true | _ => false end.

Lemma recv_inner_waits inbox reads inbox' reads' :
  forallb is_bytes reads = true → recv_inner inbox reads = (inbox', reads', Ok None) → reads' = [].
Proof.
  revert inbox. induction reads as [|r reads IH]; intros inbox Hq; cbn [recv_inner].
  - destruct (Frame_decode_inner inbox) as [[f u]|[]]; congruence.
  - cbn [forallb] in Hq. apply andb_true_iff in Hq as [Hr Hq]. destruct r; try done.
    destruct (Frame_decode_inner inbox) as [[f u]|[]]; try congruence. by apply IH.
Qed.

Lemma recv_inner_suffix inbox reads inbox' reads' r :
  recv_inner inbox reads = (inbox', reads', r) → forallb is_bytes reads = true → forallb is_bytes reads' = true.
Proof.
  revert inbox. induction reads as [|x reads IH]; intros inbox; cbn [recv_inner].
  - destruct (Frame_decode_inner inbox) as [[f u]|[]]; congruence.
  - intros H Hq. pose proof Hq as Hq0. cbn [forallb] in Hq. apply andb_true_iff in Hq as [Hx Hq]. destruct x; try done.
    destruct (Frame_decode_inner inbox) as [[f u]|[]]; simplify_eq; [done|done| |done|done]. by eapply IH.
Qed.

(** While bytes come without a pause, each [recv] is the next frame. *)
Lemma recv_times_all fs : Forall frame_wf fs → ∀ reads inbox,
  forallb is_bytes reads = true → inbox ++ stream_bytes reads = wires fs → recv_times (length fs) inbox reads = map Ok fs.
Proof.
  induction 1 as [|f fs Hf Hfs IH]; intros reads inbox Hq Hb; [done|]. cbn [length recv_times map].
  assert (forallb quiet_read reads = true) as Hq'.
  { apply forallb_forall. intros r Hr. rewrite forallb_forall in Hq. specialize (Hq r Hr). by destruct r. }
  unfold recv. destruct (recv_inner_next (f :: fs) ltac:(by constructor) reads inbox Hq' Hb)
    as (i' & r' & _ & [(f' & fs' & [= <- <-] & E & Hb' & _)|(E & Hb' & (n & g & Htr) & _)]); rewrite E.
  - f_equal. apply IH; [by eapply recv_inner_suffix|done].
  - apply recv_inner_waits in E as ->; [|done]. change (stream_bytes []) with (@nil byte) in Hb'. rewrite app_nil_r in Hb'. subst i'.
    change (wires (f :: fs)) with (wire f ++ wires fs) in Htr. by rewrite decode_wire in Htr.
Qed.

(** What [send] puts on the stream. *)
Lemma send_bodies_Ok bodies stream sent :
  send_bodies stream bodies = Ok sent ↔
  Forall (λ b, blen b <= MAX_FRAME_BYTES) bodies ∧ sent = stream ++ wires (map (mkFrame PROTOCOL_VERSION) bodies).
Proof.
  revert stream. induction bodies as [|b bodies IH]; intros stream; cbn [send_bodies].
  - unfold wires. cbn. rewrite app_nil_r. split; [by intros [= <-]|by intros [_ ->]].
  - rewrite Forall_cons. unfold Frame_new. destruct (N.ltb_spec MAX_FRAME_BYTES (blen b)) as [Hl|Hl]; cbn [map_err mbind result_bind]; [split; [done|intros [[? _] _]; lia]|].
    unfold link_send. rewrite Frame_encode_ok by done. cbn [map_err mbind result_bind]. rewrite IH, <- app_assoc.
    change (wires (map (mkFrame PROTOCOL_VERSION) (b :: bodies))) with (wire (mkFrame PROTOCOL_VERSION b) ++ wires (map (mkFrame PROTOCOL_VERSION) bodies)). tauto.
Qed.

(** C12. A link delivers what was sent, once, in order and whole. Bodies are framed and sent exactly when
    none is over the cap; and however the stream cuts the bytes that [send] wrote into reads, and however
    often a wait runs out in between, the receiver that keeps calling gets exactly the frames sent, then
    silence; and while bytes come without a pause, each [recv] is the next frame. *)
Theorem link_delivers_frames (bodies : list bytes) (reads : list Read) :
  is_ok (send_bodies [] bodies) = forallb (λ b, blen b <=? MAX_FRAME_BYTES) bodies
  ∧ ∀ sent, send_bodies [] bodies = Ok sent → stream_bytes reads = sent → forallb quiet_read reads = true →
    recv_frames (S (length bodies + length reads)) [] reads = (map (mkFrame PROTOCOL_VERSION) bodies, Ok tt)
    ∧ (forallb is_bytes reads = true → recv_times (length bodies) [] reads = map (λ b, Ok (mkFrame PROTOCOL_VERSION b)) bodies).
Proof.
  split.
  - destruct (send_bodies [] bodies) as [sent|e] eqn:E; cbn [is_ok]; symmetry.
    + apply send_bodies_Ok in E as [Hb _]. apply forallb_forall. intros b Hin. apply N.leb_le. by apply (proj1 (Forall_forall _ _) Hb), list_elem_of_In.
    + apply not_true_iff_false. intros Hb. rewrite forallb_forall in Hb. rewrite (proj2 (send_bodies_Ok bodies [] ([] ++ wires (map (mkFrame PROTOCOL_VERSION) bodies)))) in E; [done|]. split; [|done].
      apply Forall_forall. intros b Hin. by apply N.leb_le, Hb, list_elem_of_In.
  - intros sent [Hb ->]%send_bodies_Ok Hs Hq. assert (Forall frame_wf (map (mkFrame PROTOCOL_VERSION) bodies)) as Hfs.
    { apply Forall_map. eapply Forall_impl; [exact Hb|]. by intros b Hle. }
    split; [apply recv_frames_all; [done|done|done|rewrite length_map; lia]|]. intros Hr.
    pose proof (recv_times_all _ Hfs reads [] Hr Hs) as H. by rewrite length_map, map_map in H.
Qed.

Lemma link_delivers_frames_witness :
  let sent := match send_bodies [] [str "hi"; str "ho"] with Ok s => s | Err _ => [] end in
  length sent = 24%nat
  ∧ recv_frames 6 [] [ReadBytes (take 5 sent); ReadTimeout; ReadBytes (drop 5 sent)] = ([mkFrame PROTOCOL_VERSION (str "hi"); mkFrame PROTOCOL_VERSION (str "ho")], Ok tt).
Proof.
  intros sent. split; [vm_compute; reflexivity|].
  apply (proj2 (link_delivers_frames [str "hi"; str "ho"] [ReadBytes (take 5 sent); ReadTimeout; ReadBytes (drop 5 sent)]) sent); vm_compute; reflexivity.
Defined.
