(* ===== verification/OpLog.v ===== *)
(** The op log of a workspace's store ([crates/txtodo-store/src/ops.rs] and [heads.rs]): what its SQL
    statements mean on the rows of the [ops] table, in the order of [seq].

    The table is the list of its rows; [seq] is a row's position, from 1 (an [INTEGER PRIMARY KEY] of a
    table nothing is deleted from). [op_id] and [(device, origin_seq)] are [UNIQUE], and a statement that
    breaks one fails its transaction, which leaves the table as it was. Postcard payloads decode to the
    op they were made from. A log holds fewer than [2^63] rows. The theorems: in a log numbered by [append] a device's ops are
    one run without holes, appending extends the runs, and [ops_for] reads a slice of one. *)
From S2P Require Import Prelude.
From S2P Require Import Utf8.
From S2P Require Import Hlc.
From S2P Require Import Ops.

#[local] Open Scope N_scope.

(** ** Rows *)

Definition op_device (o : Op) : DeviceId := device (op_hlc o).

Record Row := mkRow { row_op : Op; row_origin : N; row_source : option bytes }.
Abbreviation OpLog := (list Row).

Definition row_device (r : Row) : DeviceId := op_device (row_op r).

Record SeqRange := mkSeqRange { sr_first : N; sr_last : N }.
Record Stored := mkStored { stored_seq : N; stored_op : Op }.

Inductive StoreError :=
| Sqlite (what : string)
| EmptyBatch
| BatchTooLarge (n : nat)
| ProjectionTooLarge (n : N)
| BadRun (first last : N)
| TooManyOpsInFile (file : FilePath).

Definition MAX_APPEND_BATCH : N := 50000.
Definition MAX_OPS_PER_READ : nat := Z.to_nat 10000.
Definition MAX_OP_IDS_FOR_DEDUPE : N := 500000.
Definition MAX_OP_IDS_PER_FILE : N := 50000000.
Definition MAX_SOURCE_BYTES : nat := 32.
Definition MAX_DEVICES_PER_HEADS : nat := Z.to_nat 1024.

(** [i64::try_from(n).unwrap_or(i64::MAX)], the width of an SQLite integer. *)
Definition wall_i64 (n : N) : N := N.min n (2 ^ 63 - 1).

(** [is_char_boundary]: not inside a character. *)
Definition is_char_boundary (s : bytes) (i : nat) : bool :=
  match s !! i with
  | Some c => negb (in_range 0x80 0xBF c)
  | None => Nat.eqb i (length s)
  end.

(** The loop [while !is_char_boundary(end) { end -= 1 }], from [end] down. *)
Fixpoint boundary_before (s : bytes) (i : nat) : nat :=
  match i with
  | O => O
  | S i' => if is_char_boundary s i then i else boundary_before s i'
  end.

Definition cap_source (source : bytes) : bytes :=
  if (length source <=? MAX_SOURCE_BYTES)%nat then source
  else take (boundary_before source MAX_SOURCE_BYTES) source.

Definition kind_tag (k : OpKind) : bytes :=
  match k with
  | KInsert _ _ _ => str "insert"
  | KSetField _ _ _ => str "set_field"
  | KEditText _ _ => str "edit_text"
  | KMove _ _ _ => str "move"
  | KNotesEdit _ _ => str "notes_edit"
  | KBlankInsert _ => str "blank_insert"
  | KBlankRemove _ => str "blank_remove"
  | KRemoveTag _ _ => str "remove_tag"
  end.

(** ** Heads *)

Definition device_rows (log : OpLog) (d : DeviceId) : OpLog := List.filter (λ r, row_device r =? d) log.

(** [SELECT COALESCE(MAX(origin_seq), 0) FROM ops WHERE device = ?1]. *)
Definition head_of (log : OpLog) (d : DeviceId) : N := foldr (λ r m, N.max (row_origin r) m) 0 (device_rows log d).

Definition next_origin_seq (log : OpLog) (d : DeviceId) : N := head_of log d + 1.

(** A map's pairs in key order: how a [BTreeMap] is walked. *)
Definition in_key_order {A} (m : gmap N A) : list (N * A) :=
  stable_sort (λ a b, fst a <=? fst b) (map_to_list m).

(** [SELECT device, MAX(origin_seq) FROM ops GROUP BY device ORDER BY device LIMIT 1024]. *)
Definition head_groups (log : OpLog) : gmap DeviceId N :=
  foldr (λ r m, <[row_device r := head_of log (row_device r)]> m) ∅ log.
Definition heads (log : OpLog) : gmap DeviceId N :=
  list_to_map (take MAX_DEVICES_PER_HEADS (in_key_order (head_groups log))).

Fixpoint number_from (log : OpLog) (next : gmap DeviceId N) (ops : list Op) : list N :=
  match ops with
  | [] => []
  | op :: rest =>
      let d := op_device op in
      let n := match next !! d with Some n => n | None => head_of log d + 1 end in
      n :: number_from log (<[d := n + 1]> next) rest
  end.

Definition number_ops (log : OpLog) (ops : list Op) (given : list N) : list N :=
  match given with [] => number_from log ∅ ops | _ => given end.

(** ** Writing *)

(** [INSERT INTO ops] ([i64::try_from(origin_seq)] is exact below [2^63] rows): refused when the op's id or its device's number is there already. *)
Definition insert_row (log : OpLog) (r : Row) : result StoreError OpLog :=
  if existsb (λ s, (op_id (row_op s) =? op_id (row_op r))
                   || ((row_device s =? row_device r) && (row_origin s =? row_origin r))) log
  then Err (Sqlite "insert op")
  else Ok (log ++ [r]).

Fixpoint insert_rows (log : OpLog) (source : option bytes) (numbered : list (Op * N)) : result StoreError OpLog :=
  match numbered with
  | [] => Ok log
  | (op, n) :: rest =>
      log' ← insert_row log (mkRow op n source);
      insert_rows log' source rest
  end.

Definition insert_ops (log : OpLog) (ops : list Op) (source : option bytes) (origin_seqs : list N)
  : result StoreError (OpLog * SeqRange) :=
  let source := s ← source; let s := cap_source s in if bool_decide (s = []) then None else Some s in
  if bool_decide (ops = []) then Err EmptyBatch
  else if MAX_APPEND_BATCH <? N.of_nat (length ops) then Err (BatchTooLarge (length ops))
  else
    let numbers := number_ops log ops origin_seqs in
    log' ← insert_rows log source (zip ops numbers);
    Ok (log', mkSeqRange (N.of_nat (length log) + 1) (N.of_nat (length log'))).

Definition append_with_source (log : OpLog) (ops : list Op) (source : option bytes)
  : result StoreError (OpLog * SeqRange) := insert_ops log ops source [].

Definition append (log : OpLog) (ops : list Op) : result StoreError (OpLog * SeqRange) :=
  append_with_source log ops None.

(** ** Reading *)

(** Every row with its [seq]. *)
Definition rows_with_seq (log : OpLog) : list (N * Row) := imap (λ i r, (N.of_nat i + 1, r)) log.

Definition collect (rows : list (N * Row)) : list Stored := map (λ p, mkStored (fst p) (row_op (snd p))) rows.

Definition ops_for (log : OpLog) (d : DeviceId) (first last : N) : result StoreError (list Stored) :=
  if (first =? 0) || (last <? first) then Err (BadRun first last)
  else
    let width := last - first + 1 in
    if N.of_nat MAX_OPS_PER_READ <? width then Err (BadRun first last)
    else Ok (collect (stable_sort (λ a b, row_origin (snd a) <=? row_origin (snd b))
           (List.filter (λ p, (row_device (snd p) =? d)
                              && (first <=? row_origin (snd p)) && (row_origin (snd p) <=? last))
              (rows_with_seq log)))).

Definition on_file (file : FilePath) (r : Row) : bool := bool_decide (op_file (row_op r) = file).

(** [file = ?1 AND seq > ?2 ORDER BY seq LIMIT ?3]. *)
Definition for_file (log : OpLog) (file : FilePath) (since : N) : list Stored :=
  collect (take MAX_OPS_PER_READ
    (List.filter (λ p, on_file file (snd p) && (since <? fst p)) (rows_with_seq log))).

(** The stamp of a row without its device, as the two columns compare. *)
Definition stamp_leb (a b : N * N) : bool := (fst a <? fst b) || ((fst a =? fst b) && (snd a <=? snd b)).
Definition row_stamp (r : Row) : N * N :=
  (wall_i64 (wall_ms (op_hlc (row_op r))), counter (op_hlc (row_op r))).
Definition stamp_cols (h : Hlc) : N * N := (wall_i64 (wall_ms h), counter h).

(** [ORDER BY hlc_wall, hlc_counter, device]. *)
Definition row_hlc_leb (a b : N * Row) : bool :=
  (stamp_leb (row_stamp (snd a)) (row_stamp (snd b))
    && negb (stamp_leb (row_stamp (snd b)) (row_stamp (snd a))))
  || (stamp_leb (row_stamp (snd a)) (row_stamp (snd b)) && (row_device (snd a) <=? row_device (snd b))).

Definition between (log : OpLog) (file : FilePath) (from to : Hlc) : list Stored :=
  collect (take MAX_OPS_PER_READ
    (stable_sort row_hlc_leb
      (List.filter (λ p, on_file file (snd p) && stamp_leb (stamp_cols from) (row_stamp (snd p))
                         && stamp_leb (row_stamp (snd p)) (stamp_cols to)) (rows_with_seq log)))).

(** [SELECT MAX(seq) FROM ops]. *)
Definition last_seq (log : OpLog) : option N := match log with [] => None | _ => Some (N.of_nat (length log)) end.

Definition ops_page (log : OpLog) (since : N) (limit : nat) : list Stored :=
  collect (take (Nat.min limit MAX_OPS_PER_READ) (List.filter (λ p, since <? fst p) (rows_with_seq log))).

Definition newest (log : OpLog) (file : FilePath) (limit : nat) : list Stored :=
  collect (take (Nat.min limit MAX_OPS_PER_READ)
    (reverse (List.filter (λ p, on_file file (snd p)) (rows_with_seq log)))).

Definition op_by_id (log : OpLog) (id : OpId) : option Stored :=
  head (collect (List.filter (λ p, op_id (row_op (snd p)) =? id) (rows_with_seq log))).

Definition total_ops (log : OpLog) : N := N.of_nat (length log).

Definition sources_between (log : OpLog) (first last : N) : gmap N bytes :=
  list_to_map (omap (λ p, s ← row_source (snd p); Some (fst p, s))
    (List.filter (λ p, (first <=? fst p) && (fst p <=? last)) (rows_with_seq log))).

(** The ids of a file's ops, each passed to [each]; refused past [MAX_OP_IDS_PER_FILE]. *)
Definition for_each_op_id_of_file {S} (log : OpLog) (file : FilePath) (each : S → OpId → S) (s : S)
  : result StoreError (S * N) :=
  let ids := map (λ r, op_id (row_op r)) (List.filter (on_file file) log) in
  if MAX_OP_IDS_PER_FILE <? N.of_nat (length ids) then Err (TooManyOpsInFile file)
  else Ok (foldl each s ids, N.of_nat (length ids)).

(** [held_ops.rs]: the ops whose id the log does not hold. *)
Definition drop_held (log : OpLog) (ops : list Op) : list Op :=
  List.filter (λ op, match op_by_id log (op_id op) with None => true | Some _ => false end) ops.

Definition seqs_are_contiguous (log : OpLog) : bool :=
  match last_seq log with Some m => m =? total_ops log | None => true end.

(** ** A dense log: each device's numbers are 1, 2, 3, ... in row order *)

Definition numbers (n : nat) : list N := map N.of_nat (seq 1 n).

Definition dense (log : OpLog) : Prop :=
  ∀ d, map row_origin (device_rows log d) = numbers (length (device_rows log d)).

(** A device's run: its ops in order. *)
Definition run_of (log : OpLog) (d : DeviceId) : list Op := map row_op (device_rows log d).

Definition ops_of (d : DeviceId) (ops : list Op) : list Op := List.filter (λ o, op_device o =? d) ops.

Definition log_ids (log : OpLog) : list OpId := map (λ r, op_id (row_op r)) log.

Lemma numbers_snoc n : numbers (S n) = numbers n ++ [N.of_nat n + 1].
Proof. unfold numbers. rewrite seq_S, map_app. simpl. f_equal. f_equal. lia. Qed.

Lemma numbers_elem n k : k ∈ numbers n ↔ 1 <= k <= N.of_nat n.
Proof.
  unfold numbers. rewrite list_elem_of_In, in_map_iff. setoid_rewrite in_seq. split.
  - intros (i & <- & ?). lia.
  - intros ?. exists (N.to_nat k). lia.
Qed.

Lemma device_rows_app log log' d : device_rows (log ++ log') d = device_rows log d ++ device_rows log' d.
Proof. apply List.filter_app. Qed.

Lemma length_run_of log d : length (run_of log d) = length (device_rows log d).
Proof. apply length_map. Qed.

Lemma device_rows_elem log d r : r ∈ device_rows log d ↔ r ∈ log ∧ row_device r = d.
Proof. unfold device_rows. rewrite !list_elem_of_In, List.filter_In, N.eqb_eq. done. Qed.

Lemma max_numbers n : foldr N.max 0 (numbers n) = N.of_nat n.
Proof.
  induction n as [|n IH]; [done|]. rewrite numbers_snoc, foldr_app. simpl.
  assert (∀ l x, foldr N.max x l = N.max (foldr N.max 0 l) x) as Hf.
  { intros l x. induction l as [|y l IHl]; simpl; [lia|]. rewrite IHl. lia. }
  rewrite Hf, IH. lia.
Qed.

Lemma head_of_dense log d : dense log → head_of log d = N.of_nat (length (run_of log d)).
Proof.
  intros Hd. unfold head_of. rewrite length_run_of, <- max_numbers, <- (Hd d).
  generalize (device_rows log d) as l. intros l. induction l as [|r l IH]; simpl; [done|]. by rewrite IH.
Qed.

(** ** Reading a run *)

Lemma map_snd_imap {A B} (f : nat → A) (l : list B) : map snd (imap (λ i x, (f i, x)) l) = l.
Proof. revert f. induction l as [|x l IH]; intros f; simpl; [done|]. f_equal. apply (IH (f ∘ S)). Qed.

Lemma map_snd_rows log : map snd (rows_with_seq log) = log.
Proof. apply (map_snd_imap (λ i, N.of_nat i + 1)). Qed.

Lemma filter_and {A} (p q : A → bool) l : List.filter (λ x, p x && q x) l = List.filter q (List.filter p l).
Proof. induction l as [|x l IH]; simpl; [done|]. destruct (p x); simpl; [|done]. destruct (q x); by rewrite IH. Qed.

Lemma NoDup_map_filter {A B} (f : A → B) (p : A → bool) l : NoDup (map f l) → NoDup (map f (List.filter p l)).
Proof.
  induction l as [|x l IH]; cbn; [done|]. intros (Hx & Hl)%NoDup_cons. destruct (p x); cbn; [|by apply IH].
  apply NoDup_cons. split; [|by apply IH]. intros Hin. apply Hx.
  rewrite list_elem_of_In, in_map_iff in *. destruct Hin as (y & Hy & Hin). apply List.filter_In in Hin as [Hin _]. eauto.
Qed.

Section counting.
Context {A : Type} (num : A → N).

Lemma counted_elem rs k n r : map num rs = map N.of_nat (seq k n) → r ∈ rs → N.of_nat k <= num r.
Proof.
  intros Hm Hr. assert (num r ∈ map num rs) as Hi 
    by (apply list_elem_of_In in Hr; apply list_elem_of_In; by apply in_map).
  rewrite Hm, list_elem_of_In, in_map_iff in Hi. destruct Hi as (i & <- & Hs). apply in_seq in Hs. lia.
Qed.

Lemma filter_from rs k n first :
  map num rs = map N.of_nat (seq k n) →
  List.filter (λ r, N.of_nat first <=? num r) rs = drop (first - k) rs.
Proof.
  revert k n. induction rs as [|r rs IH]; intros k n Hm; [by destruct (first - k)%nat|].
  destruct (decide (first ≤ k)%nat) as [Hle|Hgt].
  - replace (first - k)%nat with 0%nat by lia. apply filter_all. intros x Hx. apply N.leb_le.
    pose proof (counted_elem _ _ _ _ Hm Hx). lia.
  - destruct n as [|n]; simpl in Hm; [done|]. injection Hm as Hr Hm. simpl. rewrite Hr.
    destruct (N.leb_spec (N.of_nat first) (N.of_nat k)); [lia|].
    rewrite (IH (S k) n Hm). replace (first - k)%nat with (S (first - S k)) by lia. done.
Qed.

Lemma filter_upto rs k n last :
  map num rs = map N.of_nat (seq k n) →
  List.filter (λ r, num r <=? N.of_nat last) rs = take (S last - k) rs.
Proof.
  revert k n. induction rs as [|r rs IH]; intros k n Hm; [by destruct (S last - k)%nat|].
  destruct (decide (S last ≤ k)%nat) as [Hle|Hgt].
  - replace (S last - k)%nat with 0%nat by lia. apply filter_none. intros x Hx. apply N.leb_gt.
    pose proof (counted_elem _ _ _ _ Hm Hx). lia.
  - destruct n as [|n]; simpl in Hm; [done|]. injection Hm as Hr Hm. simpl. rewrite Hr.
    destruct (N.leb_spec (N.of_nat k) (N.of_nat last)); [|lia].
    rewrite (IH (S k) n Hm). replace (S last - k)%nat with (S (last - k)) by lia. done.
Qed.

Lemma map_drop_seq rs k n m :
  map num rs = map N.of_nat (seq k n) → map num (drop m rs) = map N.of_nat (seq (k + m) (n - m)).
Proof.
  revert k n m. induction rs as [|r rs IH]; intros k n m Hm.
  - destruct n as [|n]; simpl in Hm; [|done]. by rewrite drop_nil.
  - destruct n as [|n]; simpl in Hm; [done|]. destruct m as [|m].
    + simpl. rewrite Nat.add_0_r. exact Hm.
    + injection Hm as _ Hm. simpl. rewrite (IH (S k) n m Hm). do 2 f_equal. lia.
Qed.

(** What is numbered [first] to [last] is the slice there. *)
Lemma filter_between rs n first last :
  map num rs = numbers n → (1 ≤ first)%nat → (first ≤ S last)%nat →
  List.filter (λ r, (N.of_nat first <=? num r) && (num r <=? N.of_nat last)) rs
  = slice (first - 1) last rs.
Proof.
  intros Hm H1 Hl. rewrite filter_and, (filter_from _ 1 n) by done.
  rewrite (filter_upto _ (1 + (first - 1)) (n - (first - 1))) by (by apply map_drop_seq).
  unfold slice. f_equal; lia.
Qed.
End counting.

(** Rows in row order, with their places, keep their device's numbers. *)
Lemma seq_rows_device log d :
  map snd (List.filter (λ p, row_device (snd p) =? d) (rows_with_seq log)) = device_rows log d.
Proof.
  rewrite (filter_map_comm snd (λ r, row_device r =? d)). by rewrite map_snd_rows.
Qed.

Lemma sorted_numbers {A} (num : A → N) rs n k :
  map num rs = map N.of_nat (seq k n) → StronglySorted (λ a b, (num a <=? num b) = true) rs.
Proof.
  revert k n. induction rs as [|r rs IH]; intros k n Hm; [constructor|].
  destruct n as [|n]; simpl in Hm; [done|]. injection Hm as Hr Hm. constructor; [by eapply IH|].
  apply Forall_forall. intros x Hx. apply N.leb_le. pose proof (counted_elem _ _ _ _ _ Hm Hx). lia.
Qed.

Lemma sorted_filter {A} (R : A → A → Prop) (p : A → bool) l :
  StronglySorted R l → StronglySorted R (List.filter p l).
Proof.
  induction 1 as [|x l Hs IH Hx]; simpl; [constructor|]. destruct (p x); [|done]. constructor; [done|].
  apply Forall_forall. intros y Hy. rewrite list_elem_of_In, List.filter_In, <- list_elem_of_In in Hy.
  by apply (Forall_forall (R x) l); [|apply Hy].
Qed.

(** A read of a dense log's run returns the ops numbered so, in order. *)
Lemma ops_for_slice log d first last :
  dense log → 1 <= first → first <= last → last - first + 1 <= N.of_nat MAX_OPS_PER_READ →
  ∃ stored, ops_for log d first last = Ok stored
    ∧ map stored_op stored = slice (N.to_nat (first - 1)) (N.to_nat last) (run_of log d).
Proof.
  intros Hd H1 Hfl Hw. unfold ops_for.
  rewrite (proj2 (N.eqb_neq _ _)), (proj2 (N.ltb_ge _ _) Hfl), (proj2 (N.ltb_ge _ _) Hw) by lia.
  simpl. eexists. split; [reflexivity|].
  set (rows := List.filter (λ p, row_device (snd p) =? d) (rows_with_seq log)).
  assert (map (λ p, row_origin (snd p)) rows = numbers (length (device_rows log d))) as Hn.
  { rewrite <- (Hd d), <- (seq_rows_device log d). fold rows. by rewrite map_map. }
  assert (List.filter (λ p, (row_device (snd p) =? d) && (first <=? row_origin (snd p)) && (row_origin (snd p) <=? last))
            (rows_with_seq log)
          = List.filter (λ p, (first <=? row_origin (snd p)) && (row_origin (snd p) <=? last)) rows) as ->.
  { unfold rows. rewrite <- filter_and. apply List.filter_ext. intros p. by rewrite andb_assoc. }
  rewrite stable_sort_id.
  2:{ apply sorted_filter. by eapply (sorted_numbers (λ p, row_origin (snd p))). }
  pose proof (filter_between (λ p, row_origin (snd p)) rows _ (N.to_nat first) (N.to_nat last) Hn) as Hb.
  rewrite !N2Nat.id in Hb. rewrite Hb by lia. unfold collect. rewrite map_map. cbn [stored_op].
  unfold run_of. rewrite <- (seq_rows_device log d). fold rows. rewrite map_map. unfold slice.
  rewrite skipn_map, firstn_map. do 3 f_equal; lia.
Qed.

(** ** Appending *)

Lemma insert_row_Ok log r log' :
  insert_row log r = Ok log' → log' = log ++ [r] ∧ op_id (row_op r) ∉ log_ids log.
Proof.
  unfold insert_row. destruct (existsb _ log) eqn:E; intros [= <-]. split; [done|].
  intros Hin. unfold log_ids in Hin. rewrite list_elem_of_In, in_map_iff in Hin. destruct Hin as (s & Hs & Hin).
  assert (existsb (λ s, (op_id (row_op s) =? op_id (row_op r))
     || ((row_device s =? row_device r) && (row_origin s =? row_origin r))) log = true) as Ht; [|congruence].
  apply existsb_exists. exists s. split; [done|]. rewrite Hs, N.eqb_refl. done.
Qed.

Lemma insert_row_next log r :
  dense log → op_id (row_op r) ∉ log_ids log → row_origin r = N.of_nat (length (run_of log (row_device r))) + 1 →
  insert_row log r = Ok (log ++ [r]) ∧ dense (log ++ [r]).
Proof.
  intros Hd Hid Hn. split.
  - unfold insert_row. destruct (existsb _ log) eqn:E; [|done]. exfalso.
    apply existsb_exists in E as (s & Hin & Hs). apply orb_true_iff in Hs as [Hs|Hs].
    + apply N.eqb_eq in Hs. apply Hid. unfold log_ids. rewrite list_elem_of_In, in_map_iff. by exists s.
    + apply andb_true_iff in Hs as [Hdev Hnum]. apply N.eqb_eq in Hdev, Hnum.
      assert (row_origin s ∈ map row_origin (device_rows log (row_device r))) as Hi.
      { rewrite list_elem_of_In. apply in_map. apply list_elem_of_In, device_rows_elem.
        by rewrite list_elem_of_In. }
      rewrite (Hd (row_device r)), numbers_elem, <- length_run_of in Hi. lia.
  - intros d. rewrite device_rows_app. unfold device_rows at 2 4. cbn [List.filter].
    destruct (N.eqb_spec (row_device r) d) as [<-|]; [|by rewrite !app_nil_r].
    rewrite map_app, (Hd (row_device r)), length_app, Nat.add_1_r, numbers_snoc. cbn [map].
    by rewrite Hn, length_run_of.
Qed.

Lemma run_of_snoc log r d :
  run_of (log ++ [r]) d = run_of log d ++ (if row_device r =? d then [row_op r] else []).
Proof.
  unfold run_of. rewrite device_rows_app, map_app. unfold device_rows at 2. cbn [List.filter].
  by destruct (row_device r =? d).
Qed.

Lemma ops_of_cons d o ops : ops_of d (o :: ops) = (if op_device o =? d then [o] else []) ++ ops_of d ops.
Proof. unfold ops_of. cbn [List.filter]. by destruct (op_device o =? d). Qed.

Lemma ops_of_app d a b : ops_of d (a ++ b) = ops_of d a ++ ops_of d b.
Proof. apply List.filter_app. Qed.

(** Rows numbered from [log0] as they are inserted after [log]. *)
Lemma insert_rows_numbered log0 source ops : ∀ log next,
  dense log →
  (∀ d, default (head_of log0 d + 1) (next !! d) = N.of_nat (length (run_of log d)) + 1) →
  NoDup (log_ids log ++ map op_id ops) →
  ∃ log', insert_rows log source (zip ops (number_from log0 next ops)) = Ok log'
    ∧ dense log' ∧ (∀ d, run_of log' d = run_of log d ++ ops_of d ops)
    ∧ log_ids log' = log_ids log ++ map op_id ops ∧ length log' = (length log + length ops)%nat.
Proof.
  induction ops as [|o ops IH]; intros log next Hd Hnext Hnd.
  - exists log. split; [done|]. split; [done|]. split; [intros d; by rewrite app_nil_r|].
    split; [by rewrite app_nil_r|cbn; lia].
  - cbn [number_from zip zip_with insert_rows].
    assert (match next !! op_device o with Some n => n | None => head_of log0 (op_device o) + 1 end
            = N.of_nat (length (run_of log (op_device o))) + 1) as Hn.
    { rewrite <- (Hnext (op_device o)). by destruct (next !! op_device o). }
    rewrite Hn. set (n := N.of_nat (length (run_of log (op_device o))) + 1).
    cbn [map] in Hnd. set (r := mkRow o n source).
    assert (op_id o ∉ log_ids log) as Hfresh.
    { intros Hin. apply NoDup_app in Hnd as (_ & Hdis & _). apply (Hdis _ Hin). by left. }
    destruct (insert_row_next log r Hd Hfresh eq_refl) as [Hi Hd']. rewrite Hi. cbn [mbind result_bind].
    destruct (IH (log ++ [r]) (<[op_device o := n + 1]> next) Hd') as (log' & -> & Hdl & Hrun & Hids & Hl).
    + intros d. rewrite run_of_snoc, length_app. cbn [row_op]. change (row_device r) with (op_device o).
      destruct (N.eqb_spec (op_device o) d) as [<-|Hne].
      * rewrite lookup_insert_eq. cbn. unfold n. lia.
      * rewrite lookup_insert_ne by done. rewrite Hnext. cbn. lia.
    + unfold log_ids in *. rewrite map_app, <- app_assoc. exact Hnd.
    + exists log'. split_and!; [done|done| | |].
      * intros d. rewrite Hrun, run_of_snoc, ops_of_cons, <- app_assoc. done.
      * rewrite Hids. unfold log_ids. rewrite map_app, <- app_assoc. done.
      * rewrite Hl, length_app. cbn. lia.
Qed.

Lemma insert_rows_fresh source numbered : ∀ log log',
  NoDup (log_ids log) → insert_rows log source numbered = Ok log' →
  NoDup (log_ids log ++ map (λ p, op_id (fst p)) numbered).
Proof.
  induction numbered as [|[o n] rest IH]; intros log log' Hnd H.
  - by rewrite app_nil_r.
  - cbn [insert_rows] in H. destruct (insert_row log _) as [log1|] eqn:E; [|done]. cbn [mbind result_bind] in H.
    apply insert_row_Ok in E as [-> Hid]. cbn [row_op] in Hid. apply IH in H.
    + unfold log_ids in H. rewrite map_app, <- app_assoc in H. exact H.
    + unfold log_ids. rewrite map_app. apply NoDup_app. split_and!; [done| |apply NoDup_singleton].
      intros x Hx Hx'. apply list_elem_of_singleton in Hx' as ->. done.
Qed.

Lemma number_from_length log next ops : length (number_from log next ops) = length ops.
Proof. revert next. induction ops as [|o ops IH]; intros next; cbn; [done|]. by rewrite IH. Qed.

Lemma append_fresh log ops source :
  dense log → ops ≠ [] → N.of_nat (length ops) <= MAX_APPEND_BATCH → NoDup (log_ids log ++ map op_id ops) →
  ∃ log' range, append_with_source log ops source = Ok (log', range)
    ∧ dense log' ∧ (∀ d, run_of log' d = run_of log d ++ ops_of d ops)
    ∧ log_ids log' = log_ids log ++ map op_id ops
    ∧ sr_first range = N.of_nat (length log) + 1 ∧ sr_last range = N.of_nat (length log + length ops).
Proof.
  intros Hd Hops Hcap Hfresh. unfold append_with_source, insert_ops.
  rewrite bool_decide_eq_false_2, (proj2 (N.ltb_ge _ _) Hcap) by done. cbn [number_ops]. set (src := source ≫= _).
  assert (∀ d, default (head_of log d + 1) ((∅ : gmap DeviceId N) !! d) = N.of_nat (length (run_of log d)) + 1) as Hnext.
  { intros d. rewrite lookup_empty. cbn. by rewrite head_of_dense. }
  destruct (insert_rows_numbered log src ops log ∅ Hd Hnext Hfresh) as (log' & -> & Hd' & Hrun & Hids & Hl).
  cbn [mbind result_bind]. eexists log', _. split; [reflexivity|]. cbn [sr_first sr_last]. by rewrite Hl.
Qed.

(** C21. The log is, to its readers, one hole-free run per device: appending to a log numbered this way
    succeeds exactly when the batch is not empty, not over the cap and brings only new ids; it puts each
    op at the end of its device's run and keeps the numbers dense, and otherwise nothing lands. *)
Theorem append_extends_runs (log : OpLog) (ops : list Op) (source : option bytes) :
  dense log → NoDup (log_ids log) →
  match append_with_source log ops source with
  | Ok (log', range) =>
      ops ≠ [] ∧ N.of_nat (length ops) <= MAX_APPEND_BATCH ∧ NoDup (log_ids log ++ map op_id ops)
      ∧ dense log' ∧ NoDup (log_ids log') ∧ (∀ d, run_of log' d = run_of log d ++ ops_of d ops)
      ∧ (∀ d, head_of log' d = head_of log d + N.of_nat (length (ops_of d ops)))
      ∧ sr_first range = N.of_nat (length log) + 1 ∧ sr_last range = N.of_nat (length log + length ops)
  | Err _ => ops = [] ∨ MAX_APPEND_BATCH < N.of_nat (length ops) ∨ ¬ NoDup (log_ids log ++ map op_id ops)
  end.
Proof.
  intros Hd Hnd. destruct (append_with_source log ops source) as [[log' range]|e] eqn:E.
  - assert (ops ≠ [] ∧ N.of_nat (length ops) <= MAX_APPEND_BATCH ∧ NoDup (log_ids log ++ map op_id ops)) as (Hops & Hcap & Hfresh).
    { unfold append_with_source, insert_ops in E. case_bool_decide as Hops; [done|].
      destruct (N.ltb_spec MAX_APPEND_BATCH (N.of_nat (length ops))); [done|]. split_and!; [done..|].
      destruct (insert_rows _ _ _) as [l|] eqn:Ei; cbn [mbind result_bind] in E; [|done].
      apply insert_rows_fresh in Ei; [|done].
      rewrite <- (map_map fst op_id) in Ei. change (map fst) with (@fmap list _ (Op * N) Op fst) in Ei.
      rewrite fst_zip in Ei; [done|]. cbn [number_ops]. by rewrite number_from_length. }
    destruct (append_fresh log ops source Hd Hops Hcap Hfresh) as (l & r & Ha & Hd' & Hrun & Hids & H1 & H2).
    rewrite Ha in E. injection E as -> ->. split_and!; try done; [by rewrite Hids|].
    intros d. rewrite !head_of_dense, Hrun, length_app by done. lia.
  - destruct (decide (ops = [])) as [|Hops]; [by left|]. right.
    destruct (N.lt_ge_cases MAX_APPEND_BATCH (N.of_nat (length ops))) as [|Hcap]; [by left|]. right.
    intros Hfresh. destruct (append_fresh log ops source Hd Hops Hcap Hfresh) as (l & r & Ha & _). congruence.
Qed.

Definition sample_op (id dev seq : N) : Op :=
  mkOp id (mkHlc (1000 + seq) 0 dev) (PUser dev) (str "todo.txt") (KBlankInsert None).

Lemma append_extends_runs_witness :
  match append_with_source [] [sample_op 1 7 1; sample_op 2 8 1; sample_op 3 7 2] None with
  | Ok (log', _) => dense log' ∧ head_of log' 7 = 2
  | Err _ => False
  end.
Proof.
  assert (dense []) as Hd by done. assert (NoDup (log_ids [])) as Hn by constructor.
  pose proof (append_extends_runs [] [sample_op 1 7 1; sample_op 2 8 1; sample_op 3 7 2] None Hd Hn) as H.
  destruct (append_with_source _ _ _) as [[log' r]|e] eqn:E.
  - destruct H as (_ & _ & _ & Hd' & _ & _ & Hh & _). split; [done|]. rewrite Hh. reflexivity.
  - vm_compute in E. discriminate E.
Defined.
