(* ===== verification/Sealed.v ===== *)
(** Signing and sealing of sync batches: [crates/txtodo-sync/src/sign.rs], [aead.rs], [crypto_error.rs],
    [sealed_ops.rs] and [lan_op_signing.rs], with the daemon's way of sending and opening a message
    ([lan_session_shared.rs]) and its table of epochs ([group_epoch.rs]).

    The ciphers, the signature scheme, the key derivation and postcard are other projects' code: the
    record [Primitives] of parameters, with the laws their documentation gives in [PrimitiveLaws]. A
    nonce from the operating system is an argument, [None] when it gave none. The theorems: what one
    device seals another that holds the epoch's key opens to the same message, signatures verified, and
    a batch labelled for another version, group or workspace is refused by name before any decryption. *)
From S2P Require Import Prelude.
From S2P Require Import Hlc.
From S2P Require Import Ops.
From S2P Require Import OpLog.
From S2P Require Import Frame.
From S2P Require Import Message.

#[local] Open Scope N_scope.

Definition KEY_BYTES : nat := 32.
Definition NONCE_BYTES : nat := 24.
Definition TAG_BYTES : nat := 16.
Definition AAD_BYTES : nat := 2 + 16 + 4 + 16.
Definition SEALED_HEADER_BYTES : nat := AAD_BYTES + NONCE_BYTES.
Definition MAX_RETAINED_KEY_EPOCHS : nat := 16.

(** Raw key bytes. *)
Abbreviation GroupKey := bytes.
Abbreviation DevicePublicKey := bytes.
Abbreviation DeviceSigningKey := bytes.

Inductive CryptoError :=
| EncodeError
| BatchLength (ops signatures : nat)
| UnknownDevice (dev : DeviceId)
| BadPublicKey (dev : option DeviceId)
| SignatureInvalid (dev : DeviceId)
| WrongVersion (got expected : N)
| WrongGroup (got expected : GroupId)
| WrongWorkspace (got expected : WorkspaceId)
| SealTruncated (needed got : nat)
| UnknownEpoch (epoch : N) (held : nat)
| TooManyEpochs (len max : nat)
| Encrypt
| Decrypt (epoch : N)
| Entropy.

(** The group keys a device retains, one per epoch. *)
Abbreviation GroupKeys := (gmap N GroupKey).

Definition GroupKeys_insert (keys : GroupKeys) (epoch : N) (key : GroupKey) : result CryptoError GroupKeys :=
  if negb (bool_decide (is_Some (keys !! epoch))) && (MAX_RETAINED_KEY_EPOCHS <=? size keys)%nat
  then Err (TooManyEpochs (size keys + 1) MAX_RETAINED_KEY_EPOCHS)
  else Ok (<[epoch := key]> keys).

Record SealFor := mkSealFor { sf_group : GroupId; sf_epoch : N; sf_workspace : WorkspaceId }.

Definition aad (version : N) (f : SealFor) : bytes :=
  to_le_bytes 2 version ++ to_le_bytes 16 (sf_group f) ++ to_le_bytes 4 (sf_epoch f)
  ++ to_le_bytes 16 (sf_workspace f).

(** [read_u128]. *)
Definition read_u128 (bs : bytes) : N := from_le_bytes bs.

(** The clear header, read without a key. *)
Definition sealed_epoch (sealed : bytes) : option N :=
  if (length sealed <? 22)%nat then None
  else if (length sealed <? SEALED_HEADER_BYTES)%nat then None
  else Some (from_le_bytes (slice 18 22 sealed)).

Definition peek_workspace (sealed : bytes) : option WorkspaceId :=
  if (length sealed <? 38)%nat then None else Some (read_u128 (slice 22 38 sealed)).

(** ** The primitives *)

Record Primitives := mkPrimitives {
  encrypt : GroupKey → bytes → bytes → bytes → option bytes;
  decrypt : GroupKey → bytes → bytes → bytes → option bytes;
  signing_bytes : Op → option bytes;
  ed_sign : DeviceSigningKey → bytes → Signature;
  verify_strict : DevicePublicKey → bytes → Signature → bool;
  public_key : DeviceSigningKey → DevicePublicKey;
  derive_group_op_signing_key : GroupKey → DeviceSigningKey;
  to_allocvec : Message → option bytes;
  take_from_bytes : bytes → option (Message * bytes)
}.

(** What their documentation promises: a sealed text is longer by the tag and opens under the same key,
    nonce and associated data; a signature verifies under the signer's public key; a message's bytes
    decode to it and leave the rest. *)
Class PrimitiveLaws (P : Primitives) : Prop := {
  encrypt_length k n a p c : encrypt P k n a p = Some c → length c = (length p + TAG_BYTES)%nat;
  decrypt_encrypt k n a p c : encrypt P k n a p = Some c → decrypt P k n a c = Some p;
  verify_signed k b : verify_strict P (public_key P k) b (ed_sign P k b) = true;
  take_allocvec m b rest : to_allocvec P m = Some b → take_from_bytes P (b ++ rest) = Some (m, rest)
}.

Section with_primitives.
Context (P : Primitives).

(** ** sign.rs *)

Definition sign (op : Op) (key : DeviceSigningKey) : result CryptoError Signature :=
  b ← ok_or (signing_bytes P op) EncodeError;
  Ok (ed_sign P key b).

Definition verify (op : Op) (signature : Signature) (key : DevicePublicKey) : result CryptoError unit :=
  b ← ok_or (signing_bytes P op) EncodeError;
  if verify_strict P key b signature then Ok tt else Err (SignatureInvalid (op_device op)).

(** The loop of [verify_batch]. *)
Fixpoint verify_each (keys : gmap DeviceId DevicePublicKey) (batch : list (Op * Signature)) : result CryptoError unit :=
  match batch with
  | [] => Ok tt
  | (op, signature) :: rest =>
      key ← ok_or (keys !! op_device op) (UnknownDevice (op_device op));
      _ ← verify op signature key;
      verify_each keys rest
  end.

Definition verify_batch (ops : list Op) (signatures : list Signature) (keys : gmap DeviceId DevicePublicKey)
  : result CryptoError unit :=
  if negb (Nat.eqb (length ops) (length signatures)) then Err (BatchLength (length ops) (length signatures))
  else verify_each keys (zip ops signatures).

(** ** aead.rs *)

Definition seal_inner (version : N) (f : SealFor) (key : GroupKey) (nonce : option bytes) (plaintext : bytes)
  : result CryptoError bytes :=
  n ← ok_or nonce Entropy;
  c ← ok_or (encrypt P key n (aad version f) plaintext) Encrypt;
  Ok (aad version f ++ n ++ c).

Definition open_inner (version : N) (group : GroupId) (workspace : WorkspaceId) (keys : GroupKeys) (sealed : bytes)
  : result CryptoError bytes :=
  let minimum := (SEALED_HEADER_BYTES + TAG_BYTES)%nat in
  if (length sealed <? minimum)%nat then Err (SealTruncated minimum (length sealed))
  else
    let got_version := from_le_bytes (slice 0 2 sealed) in
    if negb (got_version =? version) then Err (WrongVersion got_version version)
    else
      let got_group := read_u128 (slice 2 18 sealed) in
      if negb (got_group =? group) then Err (WrongGroup got_group group)
      else
        let epoch := from_le_bytes (slice 18 22 sealed) in
        let got_workspace := read_u128 (slice 22 38 sealed) in
        if negb (got_workspace =? workspace) then Err (WrongWorkspace got_workspace workspace)
        else
          key ← ok_or (keys !! epoch) (UnknownEpoch epoch (size keys));
          ok_or (decrypt P key (slice AAD_BYTES SEALED_HEADER_BYTES sealed) (take AAD_BYTES sealed)
                   (drop SEALED_HEADER_BYTES sealed)) (Decrypt epoch).

(** ** sealed_ops.rs *)

Inductive SealedOpsError := SCrypto (e : CryptoError) | SMessage (e : MessageError).

Record SealContext := mkSealContext { sc_group : GroupId; sc_epoch : N; sc_workspace : WorkspaceId; sc_key : GroupKey }.

Fixpoint sign_all (ops : list Op) (key : DeviceSigningKey) : result CryptoError (list Signature) :=
  match ops with
  | [] => Ok []
  | op :: rest => s ← sign op key; ss ← sign_all rest key; Ok (s :: ss)
  end.

Definition seal_ops (ops : list Op) (ranges : list OriginRange) (signing_key : DeviceSigningKey) (ctx : SealContext)
  (nonce : option bytes) : result SealedOpsError Frame :=
  signatures ← map_err SCrypto (sign_all ops signing_key);
  frame ← map_err SMessage (Message_encode (to_allocvec P) (MOps (sc_workspace ctx) ops signatures ranges));
  sealed ← map_err SCrypto (seal_inner PROTOCOL_VERSION
             (mkSealFor (sc_group ctx) (sc_epoch ctx) (sc_workspace ctx)) (sc_key ctx) nonce (body frame));
  Ok (mkFrame PROTOCOL_VERSION sealed).

Definition open_ops (frame : Frame) (group : GroupId) (workspace : WorkspaceId) (group_keys : GroupKeys)
  (device_keys : gmap DeviceId DevicePublicKey) : result SealedOpsError Message :=
  plaintext ← map_err SCrypto (open_inner PROTOCOL_VERSION group workspace group_keys (body frame));
  msg ← map_err SMessage (Message_decode (take_from_bytes P) (mkFrame PROTOCOL_VERSION plaintext));
  match msg with
  | MOps _ ops signatures _ => _ ← map_err SCrypto (verify_batch ops signatures device_keys); Ok msg
  | _ => Ok msg
  end.

(** ** lan_session_shared.rs *)

Record EpochKey := mkEpochKey { ek_epoch : N; ek_key : GroupKey }.

Inductive SyncError := SyLink (e : LinkError) | SyMessage (e : MessageError) | SyCrypto (e : CryptoError).

(** The frame [send_message] hands to the link. *)
Definition sealed_frame (group : GroupId) (workspace : WorkspaceId) (key : EpochKey) (nonce : option bytes)
  (msg : Message) : result SyncError Frame :=
  plain ← map_err SyMessage (Message_encode (to_allocvec P) msg);
  sealed ← map_err SyCrypto (seal_inner (version plain) (mkSealFor group (ek_epoch key) workspace)
             (ek_key key) nonce (body plain));
  Ok (mkFrame (version plain) sealed).

Definition open_and_decode (frame : Frame) (group : GroupId) (workspace : WorkspaceId) (keys : GroupKeys)
  : result SyncError (Message * N) :=
  plain ← map_err SyCrypto (open_inner (version frame) group workspace keys (body frame));
  let epoch := default 0 (sealed_epoch (body frame)) in
  msg ← map_err SyMessage (Message_decode (take_from_bytes P) (mkFrame (version frame) plain));
  Ok (msg, epoch).

(** ** group_epoch.rs: the keystore is its [get]. *)

Definition fetch (get : N → result string (option bytes)) (epoch : N) : result string (option GroupKey) :=
  stored ← get epoch;
  match stored with
  | None => Ok None
  | Some raw => if Nat.eqb (length raw) KEY_BYTES then Ok (Some raw) else Err "not 32 bytes"%string
  end.

Definition oldest_epoch (current : N) : N := current - N.of_nat (MAX_RETAINED_KEY_EPOCHS - 1).

(** [for epoch in oldest..=current]. *)
Fixpoint retain_from (get : N → result string (option bytes)) (keys : GroupKeys) (epochs : list N) : option GroupKeys :=
  match epochs with
  | [] => Some keys
  | epoch :: rest =>
      match fetch get epoch with
      | Ok (Some key) =>
          match GroupKeys_insert keys epoch key with
          | Ok keys' => retain_from get keys' rest
          | Err _ => None
          end
      | _ => retain_from get keys rest
      end
  end.

Definition epochs_upto (current : N) : list N :=
  map (λ i, oldest_epoch current + N.of_nat i) (seq 0 (N.to_nat (current - oldest_epoch current + 1))).

Definition retained (get : N → result string (option bytes)) (current : N) : option GroupKeys :=
  keys ← retain_from get ∅ (epochs_upto current);
  _ ← keys !! current;
  Some keys.

Definition verify_key (keys : GroupKeys) (epoch : N) : option DevicePublicKey :=
  key ← keys !! epoch; Some (public_key P (derive_group_op_signing_key P key)).

(** [lan_apply.rs]: every origin named in a batch, mapped to the one key. *)
Definition device_keys_for (ops : list Op) (key : DevicePublicKey) : gmap DeviceId DevicePublicKey :=
  foldl (λ m op, <[op_device op := key]> m) ∅ ops.
End with_primitives.

(** ** Lemmas *)

(** Values at their width. *)
Definition seal_for_wf (version : N) (f : SealFor) : Prop :=
  version < 2 ^ 16 ∧ sf_group f < 2 ^ 128 ∧ sf_epoch f < 2 ^ 32 ∧ sf_workspace f < 2 ^ 128.

Lemma aad_length version f : length (aad version f) = AAD_BYTES.
Proof. reflexivity. Qed.

Lemma aad_slices version f rest :
  slice 0 2 (aad version f ++ rest) = to_le_bytes 2 version
  ∧ slice 2 18 (aad version f ++ rest) = to_le_bytes 16 (sf_group f)
  ∧ slice 18 22 (aad version f ++ rest) = to_le_bytes 4 (sf_epoch f)
  ∧ slice 22 38 (aad version f ++ rest) = to_le_bytes 16 (sf_workspace f)
  ∧ take AAD_BYTES (aad version f ++ rest) = aad version f.
Proof. split_and!; reflexivity. Qed.

Lemma header_reads version f rest :
  seal_for_wf version f →
  from_le_bytes (slice 0 2 (aad version f ++ rest)) = version
  ∧ read_u128 (slice 2 18 (aad version f ++ rest)) = sf_group f
  ∧ from_le_bytes (slice 18 22 (aad version f ++ rest)) = sf_epoch f
  ∧ read_u128 (slice 22 38 (aad version f ++ rest)) = sf_workspace f.
Proof.
  intros (Hv & Hg & He & Hw). destruct (aad_slices version f rest) as (-> & -> & -> & -> & _).
  unfold read_u128. rewrite !from_to_le; auto.
Qed.

Lemma message_round_trip P (HP : PrimitiveLaws P) m f :
  Message_encode (to_allocvec P) m = Ok f → Message_decode (take_from_bytes P) f = Ok m ∧ version f = PROTOCOL_VERSION.
Proof.
  unfold Message_encode. destruct (check_caps m) as [u|] eqn:Ec; [|done]. cbn [mbind result_bind].
  destruct (to_allocvec P m) as [b|] eqn:Eb; cbn; [|done]. unfold Frame_new.
  destruct (MAX_FRAME_BYTES <? blen b); [done|]. intros [= <-]. split; [|done].
  unfold Message_decode. cbn [version body]. rewrite N.eqb_refl. cbn [negb].
  pose proof (take_allocvec m b [] Eb) as Ht. rewrite app_nil_r in Ht. rewrite Ht. cbn [ok_or mbind result_bind].
  by rewrite bool_decide_eq_true_2, Ec.
Qed.

Section opening.
Context (P : Primitives) {HP : PrimitiveLaws P}.

(** What a sealed batch is made of. *)
Lemma seal_inner_inv version f key nonce plaintext sealed :
  seal_inner P version f key nonce plaintext = Ok sealed →
  ∃ n c, nonce = Some n ∧ encrypt P key n (aad version f) plaintext = Some c ∧ sealed = aad version f ++ n ++ c.
Proof.
  unfold seal_inner. destruct nonce as [n|]; cbn; [|done].
  destruct (encrypt P key n _ plaintext) as [c|] eqn:E; cbn; [|done]. intros [= <-]. eauto.
Qed.

(** Opening what was sealed: the labels are compared first, each with its own error, then the epoch's
    key is looked up, and with the key it was sealed under the plaintext comes back. *)
Lemma open_sealed version version' f key nonce plaintext sealed group workspace keys :
  seal_for_wf version f → (∀ n, nonce = Some n → length n = NONCE_BYTES) →
  seal_inner P version f key nonce plaintext = Ok sealed →
  open_inner P version' group workspace keys sealed =
  if negb (version =? version') then Err (WrongVersion version version')
  else if negb (sf_group f =? group) then Err (WrongGroup (sf_group f) group)
  else if negb (sf_workspace f =? workspace) then Err (WrongWorkspace (sf_workspace f) workspace)
  else match keys !! sf_epoch f with
       | None => Err (UnknownEpoch (sf_epoch f) (size keys))
       | Some k =>
           match nonce with
           | None => Err Entropy
           | Some n => ok_or (decrypt P k n (aad version f) (drop (AAD_BYTES + NONCE_BYTES) sealed)) (Decrypt (sf_epoch f))
           end
       end.
Proof.
  intros Hwf Hn Hs. apply seal_inner_inv in Hs as (n & c & -> & Hc & ->). specialize (Hn n eq_refl).
  apply encrypt_length in Hc as Hl. unfold open_inner.
  destruct (header_reads version f (n ++ c) Hwf) as (-> & -> & -> & ->).
  rewrite (proj2 (Nat.ltb_ge _ _)).
  2:{ rewrite !length_app, aad_length, Hn, Hl. unfold SEALED_HEADER_BYTES. lia. }
  destruct (negb (version =? version')); [done|]. destruct (negb (sf_group f =? group)); [done|].
  destruct (negb (sf_workspace f =? workspace)); [done|].
  destruct (keys !! sf_epoch f) as [k|]; [|done]. cbn [ok_or mbind result_bind].
  destruct (aad_slices version f (n ++ c)) as (_ & _ & _ & _ & ->).
  replace (slice AAD_BYTES SEALED_HEADER_BYTES (aad version f ++ n ++ c)) with n; [done|].
  unfold slice. rewrite drop_app_length' by (by rewrite aad_length).
  unfold SEALED_HEADER_BYTES. replace (AAD_BYTES + NONCE_BYTES - AAD_BYTES)%nat with NONCE_BYTES by lia.
  by rewrite take_app_length'.
Qed.

Lemma open_own version f key nonce plaintext sealed keys :
  seal_for_wf version f → (∀ n, nonce = Some n → length n = NONCE_BYTES) →
  keys !! sf_epoch f = Some key →
  seal_inner P version f key nonce plaintext = Ok sealed →
  open_inner P version (sf_group f) (sf_workspace f) keys sealed = Ok plaintext.
Proof.
  intros Hwf Hn Hk Hs. rewrite (open_sealed _ _ _ _ _ _ _ _ _ _ Hwf Hn Hs), !N.eqb_refl. cbn [negb].
  rewrite Hk. apply seal_inner_inv in Hs as (n & c & -> & Hc & ->).
  rewrite app_assoc, drop_app_length'; [by rewrite (decrypt_encrypt _ _ _ _ _ Hc)|].
  by rewrite length_app, aad_length, (Hn n eq_refl).
Qed.

Lemma sign_all_verified ops key keys signatures :
  (∀ op, op ∈ ops → keys !! op_device op = Some (public_key P key)) →
  sign_all P ops key = Ok signatures → verify_batch P ops signatures keys = Ok tt.
Proof.
  intros Hk Hs. unfold verify_batch.
  assert (length ops = length signatures ∧ verify_each P keys (zip ops signatures) = Ok tt) as [Hl ->].
  2:{ by rewrite Hl, Nat.eqb_refl. }
  revert signatures Hs. induction ops as [|op ops IH]; intros signatures Hs; cbn in Hs; [by simplify_eq|].
  unfold sign in Hs. destruct (signing_bytes P op) as [b|] eqn:Eb; cbn in Hs; [|done].
  destruct (sign_all P ops key) as [ss|]; cbn in Hs; [|done]. simplify_eq.
  destruct (IH (λ o Ho, Hk o (list_elem_of_further _ _ _ Ho)) ss eq_refl) as [Hl Hv]. split; [cbn; by rewrite Hl|].
  cbn [zip zip_with verify_each]. rewrite (Hk op) by (by left). cbn [ok_or mbind result_bind].
  unfold verify. rewrite Eb. cbn [ok_or mbind result_bind]. by rewrite verify_signed.
Qed.
End opening.

(** C11. A batch crosses the wire: what a device signs and seals for its group and workspace, a device of
    the group that holds the epoch's key and the signer's public key opens to the same ops and runs,
    every signature verified; read for another group or another workspace it is refused by name, before
    any key is tried. *)
Theorem batch_crosses_the_wire (P : Primitives) (HP : PrimitiveLaws P) (ops : list Op) (ranges : list OriginRange)
  (key : DeviceSigningKey) (ctx : SealContext) (nonce : option bytes) (frame : Frame)
  (keys : GroupKeys) (device_keys : gmap DeviceId DevicePublicKey) :
  seal_for_wf PROTOCOL_VERSION (mkSealFor (sc_group ctx) (sc_epoch ctx) (sc_workspace ctx)) →
  (∀ n, nonce = Some n → length n = NONCE_BYTES) →
  keys !! sc_epoch ctx = Some (sc_key ctx) →
  (∀ op, op ∈ ops → device_keys !! op_device op = Some (public_key P key)) →
  seal_ops P ops ranges key ctx nonce = Ok frame →
  (∃ signatures, open_ops P frame (sc_group ctx) (sc_workspace ctx) keys device_keys
                 = Ok (MOps (sc_workspace ctx) ops signatures ranges))
  ∧ (∀ group workspace, group ≠ sc_group ctx →
       open_ops P frame group workspace keys device_keys = Err (SCrypto (WrongGroup (sc_group ctx) group)))
  ∧ (∀ workspace, workspace ≠ sc_workspace ctx →
       open_ops P frame (sc_group ctx) workspace keys device_keys
       = Err (SCrypto (WrongWorkspace (sc_workspace ctx) workspace)))
  ∧ peek_workspace (body frame) = Some (sc_workspace ctx) ∧ sealed_epoch (body frame) = Some (sc_epoch ctx).
Proof.
  intros Hwf Hn Hk Hdk Hs. unfold seal_ops in Hs.
  destruct (sign_all P ops key) as [sigs|] eqn:Esig; cbn [map_err mbind result_bind] in Hs; [|done].
  destruct (Message_encode (to_allocvec P) _) as [f|] eqn:Ef; cbn [map_err mbind result_bind] in Hs; [|done].
  destruct (seal_inner _ _ _ _ _ _) as [sealed|] eqn:Es; cbn [map_err mbind result_bind] in Hs; [|done]. injection Hs as <-.
  apply (message_round_trip P HP) in Ef as [Hdec Hver]. destruct f as [v b]. cbn [version body] in *. subst v.
  unfold open_ops. cbn [body]. split_and!.
  - exists sigs. pose proof (open_own P _ _ _ _ _ _ keys Hwf Hn Hk Es) as Ho. cbn [sf_group sf_workspace] in Ho. rewrite Ho. cbn [map_err mbind result_bind].
    rewrite Hdec. cbn [map_err mbind result_bind]. by rewrite (sign_all_verified P _ _ _ _ Hdk Esig).
  - intros group workspace Hg. rewrite (open_sealed P _ _ _ _ _ _ _ _ _ _ Hwf Hn Es), N.eqb_refl. cbn [negb sf_group].
    by rewrite (proj2 (N.eqb_neq _ _) (not_eq_sym Hg)).
  - intros workspace Hw. rewrite (open_sealed P _ _ _ _ _ _ _ _ _ _ Hwf Hn Es), !N.eqb_refl. cbn [negb sf_workspace].
    by rewrite (proj2 (N.eqb_neq _ _) (not_eq_sym Hw)).
  - apply seal_inner_inv in Es as (n & c & -> & Hc & ->). unfold peek_workspace.
    rewrite (proj2 (Nat.ltb_ge _ _)) by (rewrite length_app, aad_length; unfold AAD_BYTES; lia).
    by destruct (header_reads _ _ (n ++ c) Hwf) as (_ & _ & _ & ->).
  - apply seal_inner_inv in Es as (n & c & -> & Hc & ->). unfold sealed_epoch.
    rewrite !(proj2 (Nat.ltb_ge _ _))
      by (rewrite !length_app, aad_length, (Hn n eq_refl); unfold SEALED_HEADER_BYTES, AAD_BYTES; lia).
    by destruct (header_reads _ _ (n ++ c) Hwf) as (_ & _ & -> & _).
Qed.

(** Primitives small enough to compute with: the text is its own ciphertext with sixteen zero bytes, a
    signature is the key and the text, one message has an encoding. *)
Definition sample_batch : Message := MOps 9 [sample_op 1 7 1] [[x05; x01]] [mkRange 7 1 1].
Definition sample_primitives : Primitives := {|
  encrypt := λ k n a p, Some (p ++ replicate TAG_BYTES x00);
  decrypt := λ k n a c, Some (take (length c - TAG_BYTES) c);
  signing_bytes := λ op, Some [byte_of_N (op_id op)];
  ed_sign := λ k b, k ++ b;
  verify_strict := λ k b s, bool_decide (s = k ++ b);
  public_key := λ k, k;
  derive_group_op_signing_key := λ k, k;
  to_allocvec := λ m, if bool_decide (m = sample_batch) then Some [x02] else None;
  take_from_bytes := λ b, match b with x02 :: rest => Some (sample_batch, rest) | _ => None end
|}.

#[export] Instance sample_primitives_laws : PrimitiveLaws sample_primitives.
Proof.
  split.
  - intros k n a p c Hc. injection Hc as <-. rewrite length_app. reflexivity.
  - intros k n a p c Hc. injection Hc as <-. cbn [decrypt sample_primitives]. f_equal.
    rewrite length_app. change (length (replicate TAG_BYTES x00)) with TAG_BYTES.
    rewrite Nat.add_sub. apply take_app_length.
  - intros k b. cbn. by apply bool_decide_eq_true_2.
  - intros m b rest. cbn [to_allocvec sample_primitives]. case_bool_decide as Hm; [|done]. intros [= <-]. by subst.
Qed.

Lemma batch_crosses_the_wire_witness :
  let ctx := mkSealContext 3 0 9 [x0a] in
  ∃ frame, seal_ops sample_primitives [sample_op 1 7 1] [mkRange 7 1 1] [x05] ctx (Some (replicate 24 x00)) = Ok frame
    ∧ ∃ signatures, open_ops sample_primitives frame 3 9 {[0 := [x0a]]} {[7 := [x05]]}
        = Ok (MOps 9 [sample_op 1 7 1] signatures [mkRange 7 1 1]).
Proof.
  intros ctx.
  destruct (seal_ops sample_primitives [sample_op 1 7 1] [mkRange 7 1 1] [x05] ctx (Some (replicate 24 x00)))
    as [frame|e] eqn:E; [|vm_compute in E; discriminate E].
  exists frame. split; [done|].
  refine (proj1 (batch_crosses_the_wire sample_primitives _ [sample_op 1 7 1] [mkRange 7 1 1] [x05] ctx
           (Some (replicate 24 x00)) frame {[0 := [x0a]]} {[7 := [x05]]} _ _ _ _ E)).
  - repeat split; reflexivity.
  - intros n [= <-]. reflexivity.
  - reflexivity.
  - intros op ->%list_elem_of_singleton. reflexivity.
Defined.
