(* ===== verification/Pairing.v ===== *)
(** Pairing two devices: [nonce_registry.rs], [transcript.rs], [sas.rs], [offer.rs], [pairing_error.rs],
    [pairing_grant.rs] and [pairing.rs] of [crates/txtodo-sync/src].

    A device offers (a QR code), another accepts; each derives the words its human compares, and once both
    humans have confirmed, the group key crosses sealed. The curve, the key derivation and the codec of
    grants are other projects' code, the record [PairingPrimitives], with what they document in
    [PairingLaws]; the cipher is that of [Sealed]. A fresh secret or nonce is an argument. The theorems: a
    nonce is good once; a transcript names its parties; an honest handshake shows both humans the same
    words and carries a grant across; no key moves before both confirmed. *)
From S2P Require Import Prelude.
From S2P Require Import Hlc.
From S2P Require Import OpLog.
From S2P Require Import Frame.
From S2P Require Import Message.
From S2P Require Import Sealed.
From S2P Require Import EffWordlist.

#[local] Open Scope N_scope.

(** ** nonce_registry.rs *)

Definition PAIRING_WINDOW_MS : N := 120000.
Definition MAX_CONCURRENT_PAIRINGS : nat := 1.
Definition CONSUMED_RETENTION_MS : N := PAIRING_WINDOW_MS * 8.

Abbreviation Nonce := bytes.

Inductive NonceError := TooManyOpen | Unknown | Expired | AlreadyConsumed.

Record NonceRegistry := mkNonces { nr_open : gmap Nonce N; nr_consumed : gmap Nonce N }.

Definition NonceRegistry_new : NonceRegistry := mkNonces ∅ ∅.

Definition prune (r : NonceRegistry) (now_ms : N) : NonceRegistry :=
  mkNonces (filter (λ kv, now_ms - snd kv <= PAIRING_WINDOW_MS) (nr_open r))
           (filter (λ kv, now_ms - snd kv <= CONSUMED_RETENTION_MS) (nr_consumed r)).

Definition issue (r : NonceRegistry) (nonce : Nonce) (now_ms : N) : NonceRegistry * result NonceError unit :=
  let r := prune r now_ms in
  let live := size (filter (λ kv, now_ms - snd kv <= PAIRING_WINDOW_MS) (nr_open r)) in
  if (MAX_CONCURRENT_PAIRINGS <=? live)%nat then (r, Err TooManyOpen)
  else (mkNonces (<[nonce := now_ms]> (nr_open r)) (nr_consumed r), Ok tt).

Definition consume (r : NonceRegistry) (nonce : Nonce) (now_ms : N) : NonceRegistry * result NonceError unit :=
  if bool_decide (is_Some (nr_consumed r !! nonce)) then (r, Err AlreadyConsumed)
  else
    match nr_open r !! nonce with
    | None => (r, Err Unknown)
    | Some issued_at =>
        let r := mkNonces (delete nonce (nr_open r)) (<[nonce := now_ms]> (nr_consumed r)) in
        (r, if PAIRING_WINDOW_MS <? now_ms - issued_at then Err Expired else Ok tt)
    end.

Definition witness (r : NonceRegistry) (nonce : Nonce) (issued_at_ms now_ms : N) : NonceRegistry * result NonceError unit :=
  let r := prune r now_ms in
  if bool_decide (is_Some (nr_consumed r !! nonce)) then (r, Err AlreadyConsumed)
  else
    (mkNonces (nr_open r) (<[nonce := now_ms]> (nr_consumed r)),
     if PAIRING_WINDOW_MS <? now_ms - issued_at_ms then Err Expired else Ok tt).

(** ** transcript.rs *)

Definition X25519_PUBLIC_KEY_BYTES : nat := 32.
Definition TRANSCRIPT_BYTES : nat := 2 + (16 + X25519_PUBLIC_KEY_BYTES) * 2 + 16.

Record Party := mkParty { p_device : DeviceId; p_public_key : bytes }.

Definition transcript (protocol_version : N) (party1 party2 : Party) (group : GroupId) : bytes :=
  let '(a, b) := if p_device party1 <=? p_device party2 then (party1, party2) else (party2, party1) in
  to_le_bytes 2 protocol_version
  ++ to_le_bytes 16 (p_device a) ++ p_public_key a
  ++ to_le_bytes 16 (p_device b) ++ p_public_key b
  ++ to_le_bytes 16 group.

(** ** pairing_grant.rs, offer.rs *)

Record PairingGrant := mkGrant { pg_group_key : bytes; pg_static_public : bytes; pg_own_device : bool; pg_epoch : N }.

(** A grant as an older build encoded it. *)
Record LegacyGrant := mkLegacy { lg_group_key : bytes; lg_static_public : bytes; lg_own_device : bool }.

Record PairingOffer := mkOffer {
  po_device : DeviceId;
  po_group : GroupId;
  po_public_key : bytes;
  po_endpoint : bytes;
  po_nonce : Nonce;
  po_issued_at_ms : N;
  po_relay_node_id : option bytes;
  po_relay_url : option bytes
}.

(** ** The primitives *)

Record PairingPrimitives := mkPairingPrimitives {
  x25519_public : bytes → bytes;
  diffie_hellman : bytes → bytes → bytes;
  hkdf_expand : bytes → bytes → bytes → nat → option bytes;
  grant_postcard : PairingGrant → option bytes;
  grant_of_postcard : bytes → option PairingGrant;
  legacy_of_postcard : bytes → option LegacyGrant
}.

(** A key of its width. *)
Definition grant_wf (g : PairingGrant) : Prop :=
  length (pg_group_key g) = KEY_BYTES ∧ length (pg_static_public g) = 32%nat ∧ pg_epoch g < 2 ^ 32.

(** What is documented: keys of the curve have 32 bytes and both ends reach one secret; the derivation
    gives as many bytes as asked, up to 255 hashes; the cipher takes any text far below its limit; the
    codec gives a value back. *)
Class PairingLaws (P : Primitives) (Q : PairingPrimitives) : Prop := {
  public_length s : length (x25519_public Q s) = X25519_PUBLIC_KEY_BYTES;
  dh_agree s t : diffie_hellman Q s (x25519_public Q t) = diffie_hellman Q t (x25519_public Q s);
  hkdf_length salt ikm info n : (n <= 255 * 32)%nat → ∃ okm, hkdf_expand Q salt ikm info n = Some okm ∧ length okm = n;
  encrypt_total k n a p : length k = 32%nat → length n = NONCE_BYTES → blen p <= MAX_FRAME_BYTES → ∃ c, encrypt P k n a p = Some c;
  grant_codec g : grant_wf g → ∃ b, grant_postcard Q g = Some b ∧ (length b < 1024)%nat ∧ grant_of_postcard Q b = Some g
}.

(** ** pairing_error.rs *)

Inductive PairingError :=
| PNonce (e : NonceError)
| PDerive
| NotHandshaken
| NotConfirmed
| PClosed
| PSeal.

Section pairing.
Context (P : Primitives) (Q : PairingPrimitives).

(** ** sas.rs *)

Definition SAS_WORD_COUNT : nat := 6.
Definition SAS_INFO : bytes := str "txtodo-sas-v1".
Definition PAIR_KEY_INFO : bytes := str "txtodo-pair-v1".
Definition PAIR_KEY_BYTES : nat := 32.

Definition expand (shared_secret transcript info : bytes) (len : nat) : result PairingError bytes :=
  ok_or (hkdf_expand Q transcript shared_secret info len) PDerive.

(** The word of one four-byte chunk. *)
Definition sas_word (okm : bytes) (i : nat) : bytes :=
  let idx := N.to_nat (from_le_bytes (slice (i * 4) (i * 4 + 4) okm) mod N.of_nat (length wordlist)) in
  default [] (wordlist !! idx).

Definition sas_words (shared_secret transcript : bytes) : result PairingError (list bytes) :=
  okm ← expand shared_secret transcript SAS_INFO (SAS_WORD_COUNT * 4);
  Ok (map (sas_word okm) (seq 0 SAS_WORD_COUNT)).

Definition pair_key (shared_secret transcript : bytes) : result PairingError bytes :=
  expand shared_secret transcript PAIR_KEY_INFO PAIR_KEY_BYTES.

(** ** pairing_grant.rs *)

Definition grant_from_bytes (bs : bytes) : option PairingGrant :=
  match grant_of_postcard Q bs with
  | Some g => Some g
  | None => (λ old, mkGrant (lg_group_key old) (lg_static_public old) (lg_own_device old) 0) <$> legacy_of_postcard Q bs
  end.

(** ** pairing.rs *)

Definition MAX_FAILED_SAS_CONFIRMATIONS : N := 3.
Definition WRAP_NONCE_BYTES : nat := 24.

Record Handshake := mkHandshake { hs_transcript : bytes; hs_shared_secret : bytes }.

Record PairingSession := mkPairing {
  ps_own_device : DeviceId;
  ps_group : GroupId;
  ps_nonce : Nonce;
  ps_own_secret : option bytes;
  ps_own_public : bytes;
  ps_peer_device : option DeviceId;
  ps_handshake : option Handshake;
  ps_local_confirmed : bool;
  ps_remote_confirmed : bool;
  ps_failed_confirmations : N;
  ps_closed : bool
}.

(** [secret] is the fresh key pair's, [nonce] what the system's randomness gave. *)
Definition offer (own_device : DeviceId) (group : GroupId) (endpoint : bytes) (now_ms : N) (registry : NonceRegistry)
  (secret : bytes) (nonce : option Nonce) : NonceRegistry * result PairingError (PairingSession * PairingOffer) :=
  let own_public := x25519_public Q secret in
  match nonce with
  | None => (registry, Err PSeal)
  | Some nonce =>
      match issue registry nonce now_ms with
      | (registry, Err e) => (registry, Err (PNonce e))
      | (registry, Ok _) =>
          (registry,
           Ok (mkPairing own_device group nonce (Some secret) own_public None None false false 0 false,
               mkOffer own_device group own_public endpoint nonce now_ms None None))
      end
  end.

Definition accept (own_device : DeviceId) (o : PairingOffer) (now_ms : N) (registry : NonceRegistry) (secret : bytes)
  : NonceRegistry * result PairingError (PairingSession * bytes) :=
  match witness registry (po_nonce o) (po_issued_at_ms o) now_ms with
  | (registry, Err e) => (registry, Err (PNonce e))
  | (registry, Ok _) =>
      let own_public := x25519_public Q secret in
      let shared_secret := diffie_hellman Q secret (po_public_key o) in
      let t := transcript PROTOCOL_VERSION (mkParty own_device own_public) (mkParty (po_device o) (po_public_key o)) (po_group o) in
      (registry,
       Ok (mkPairing own_device (po_group o) (po_nonce o) None own_public (Some (po_device o))
             (Some (mkHandshake t shared_secret)) false false 0 false, own_public))
  end.

Definition complete (s : PairingSession) (peer_device : DeviceId) (peer_public : bytes) (now_ms : N) (registry : NonceRegistry)
  : NonceRegistry * PairingSession * result PairingError unit :=
  if ps_closed s then (registry, s, Err PClosed)
  else
    match consume registry (ps_nonce s) now_ms with
    | (registry, Err e) => (registry, s, Err (PNonce e))
    | (registry, Ok _) =>
        match ps_own_secret s with
        | None => (registry, s, Err NotHandshaken)
        | Some own_secret =>
            let shared_secret := diffie_hellman Q own_secret peer_public in
            let t := transcript PROTOCOL_VERSION (mkParty (ps_own_device s) (ps_own_public s)) (mkParty peer_device peer_public) (ps_group s) in
            (registry,
             mkPairing (ps_own_device s) (ps_group s) (ps_nonce s) None (ps_own_public s) (Some peer_device)
               (Some (mkHandshake t shared_secret)) (ps_local_confirmed s) (ps_remote_confirmed s)
               (ps_failed_confirmations s) (ps_closed s),
             Ok tt)
        end
    end.

Definition session_sas_words (s : PairingSession) : result PairingError (list bytes) :=
  if ps_closed s then Err PClosed
  else
    hs ← ok_or (ps_handshake s) NotHandshaken;
    sas_words (hs_shared_secret hs) (hs_transcript hs).

Definition set_confirmed (s : PairingSession) (loc rem : bool) : PairingSession :=
  mkPairing (ps_own_device s) (ps_group s) (ps_nonce s) (ps_own_secret s) (ps_own_public s) (ps_peer_device s) (ps_handshake s)
    loc rem (ps_failed_confirmations s) (ps_closed s).

Definition confirm_local (s : PairingSession) : PairingSession * result PairingError unit :=
  if ps_closed s then (s, Err PClosed)
  else match ps_handshake s with
       | None => (s, Err NotHandshaken)
       | Some _ => (set_confirmed s true (ps_remote_confirmed s), Ok tt)
       end.

Definition confirm_remote (s : PairingSession) : PairingSession * result PairingError unit :=
  if ps_closed s then (s, Err PClosed)
  else match ps_handshake s with
       | None => (s, Err NotHandshaken)
       | Some _ => (set_confirmed s (ps_local_confirmed s) true, Ok tt)
       end.

Definition reject (s : PairingSession) : PairingSession * result PairingError unit :=
  if ps_closed s then (s, Err PClosed)
  else
    let failed := ps_failed_confirmations s + 1 in
    (mkPairing (ps_own_device s) (ps_group s) (ps_nonce s) (ps_own_secret s) (ps_own_public s) (ps_peer_device s) (ps_handshake s)
       (ps_local_confirmed s) (ps_remote_confirmed s) failed (MAX_FAILED_SAS_CONFIRMATIONS <=? failed),
     Ok tt).

Definition is_ready_to_send_key (s : PairingSession) : bool :=
  ps_local_confirmed s && ps_remote_confirmed s && negb (ps_closed s).

Definition wrap_group_key (s : PairingSession) (group_key_bytes : bytes) (nonce : option bytes) : result PairingError bytes :=
  if ps_closed s then Err PClosed
  else if negb (is_ready_to_send_key s) then Err NotConfirmed
  else
    hs ← ok_or (ps_handshake s) NotHandshaken;
    key ← pair_key (hs_shared_secret hs) (hs_transcript hs);
    nonce ← ok_or nonce PSeal;
    ciphertext ← ok_or (encrypt P key nonce (hs_transcript hs) group_key_bytes) PSeal;
    Ok (nonce ++ ciphertext).

Definition unwrap_group_key (s : PairingSession) (sealed : bytes) : result PairingError bytes :=
  if ps_closed s then Err PClosed
  else if negb (is_ready_to_send_key s) then Err NotConfirmed
  else if (length sealed <? WRAP_NONCE_BYTES)%nat then Err PSeal
  else
    hs ← ok_or (ps_handshake s) NotHandshaken;
    key ← pair_key (hs_shared_secret hs) (hs_transcript hs);
    ok_or (decrypt P key (take WRAP_NONCE_BYTES sealed) (hs_transcript hs) (drop WRAP_NONCE_BYTES sealed)) PSeal.

Definition wrap_grant (s : PairingSession) (g : PairingGrant) (nonce : option bytes) : result PairingError bytes :=
  bs ← ok_or (grant_postcard Q g) PSeal;
  wrap_group_key s bs nonce.

Definition unwrap_grant (s : PairingSession) (sealed : bytes) : result PairingError PairingGrant :=
  bs ← unwrap_group_key s sealed;
  ok_or (grant_from_bytes bs) PSeal.

Definition is_handshaken (s : PairingSession) : bool := bool_decide (is_Some (ps_handshake s)).
End pairing.

(** ** A nonce is good once *)

(** What is asked of a registry, with its clock. *)
Inductive NonceCall :=
| AskIssue (nonce : Nonce) (now_ms : N)
| AskConsume (nonce : Nonce) (now_ms : N)
| AskWitness (nonce : Nonce) (issued_at_ms now_ms : N).

Definition nonce_call (r : NonceRegistry) (c : NonceCall) : NonceRegistry * result NonceError unit :=
  match c with
  | AskIssue n now => issue r n now
  | AskConsume n now => consume r n now
  | AskWitness n at_ now => witness r n at_ now
  end.

Definition call_time (c : NonceCall) : N := match c with AskIssue _ t | AskConsume _ t | AskWitness _ _ t => t end.

(** The registry after some calls, and the calls it granted. *)
Fixpoint nonce_run (r : NonceRegistry) (cs : list NonceCall) : NonceRegistry * list NonceCall :=
  match cs with
  | [] => (r, [])
  | c :: cs' =>
      let '(r', ans) := nonce_call r c in
      let '(r'', granted) := nonce_run r' cs' in
      (r'', if is_ok ans then c :: granted else granted)
  end.

(** The call took this nonce for a handshake. *)
Definition takes (n : Nonce) (c : NonceCall) : Prop :=
  match c with AskConsume m _ | AskWitness m _ _ => m = n | AskIssue _ _ => False end.

Definition issues (n : Nonce) (c : NonceCall) : Prop := match c with AskIssue m _ => m = n | _ => False end.

Definition clock_monotone (cs : list NonceCall) : Prop := StronglySorted (λ a b, call_time a <= call_time b) cs.

Lemma lookup_prune_open r t n u : nr_open (prune r t) !! n = Some u ↔ nr_open r !! n = Some u ∧ t - u <= PAIRING_WINDOW_MS.
Proof. cbn. rewrite map_lookup_filter_Some. done. Qed.

Lemma lookup_prune_consumed r t n u :
  nr_consumed (prune r t) !! n = Some u ↔ nr_consumed r !! n = Some u ∧ t - u <= CONSUMED_RETENTION_MS.
Proof. cbn. rewrite map_lookup_filter_Some. done. Qed.

Lemma nonce_run_app r cs1 cs2 :
  nonce_run r (cs1 ++ cs2) = let '(r1, g1) := nonce_run r cs1 in let '(r2, g2) := nonce_run r1 cs2 in (r2, g1 ++ g2).
Proof.
  revert r. induction cs1 as [|c cs1 IH]; intros r; cbn [app nonce_run]; [by destruct (nonce_run r cs2)|].
  destruct (nonce_call r c) as [r' ans]. rewrite IH. destruct (nonce_run r' cs1) as [r1 g1], (nonce_run r1 cs2) as [r2 g2]. by destruct (is_ok ans).
Qed.

(** Nothing open is dated after the clock. *)
Definition open_before (r : NonceRegistry) (t : N) : Prop := ∀ n u, nr_open r !! n = Some u → u <= t.

Lemma nonce_call_open r c t : open_before r t → t <= call_time c → open_before (fst (nonce_call r c)) (call_time c).
Proof.
  intros H Ht. assert (open_before r (call_time c)) as Hr by (intros n u Hu; apply H in Hu; lia).
  assert (open_before (prune r (call_time c)) (call_time c)) as Hp by (intros n u Hu; apply lookup_prune_open in Hu as [Hu _]; eauto).
  destruct c as [n now|n now|n at_ now]; cbn [nonce_call call_time] in *.
  - unfold issue. destruct (_ <=? _)%nat; cbn [fst]; [done|]. intros m u. cbn. rewrite lookup_insert_Some. intros [[_ <-]|[_ Hu]]; [done|by eapply Hp].
  - unfold consume. destruct (bool_decide _); [done|]. destruct (nr_open r !! n); [|done]. cbn. intros m u. cbn. rewrite lookup_delete_Some. intros [_ Hu]. eauto.
  - unfold witness. destruct (bool_decide _); done.
Qed.

(** What a registry remembers at time [t] of a nonce taken at [t1]: it is recorded as taken, and any open
    record of it is older or of a new issue; or the record has aged out, and with it the older open ones. *)
Definition remembers (n : Nonce) (t1 t : N) (issued : Prop) (r : NonceRegistry) : Prop :=
  (∃ t', t1 <= t' ∧ nr_consumed r !! n = Some t' ∧ ∀ u, nr_open r !! n = Some u → u <= t1 ∨ issued)
  ∨ (t1 + CONSUMED_RETENTION_MS < t ∧ ∀ u, nr_open r !! n = Some u → issued).

Lemma prune_remembers n t1 t t' issued r : remembers n t1 t issued r → t <= t' → remembers n t1 t' issued (prune r t').
Proof.
  intros [(c & Hc1 & Hc & Ho)|[Ht Ho]] Hle.
  - destruct (decide (t' - c <= CONSUMED_RETENTION_MS)) as [Hd|Hd].
    + left. exists c. split_and!; [done|by apply lookup_prune_consumed|]. intros u [Hu _]%lookup_prune_open. by apply Ho.
    + right. split; [lia|]. intros u [Hu Hw]%lookup_prune_open. apply Ho in Hu as [Hu|]; [|done].
      unfold CONSUMED_RETENTION_MS, PAIRING_WINDOW_MS in *. lia.
  - right. split; [lia|]. intros u [Hu _]%lookup_prune_open. eauto.
Qed.

Lemma remembers_weaken n t1 t t' (A B : Prop) r : remembers n t1 t A r → t <= t' → (A → B) → remembers n t1 t' B r.
Proof. intros [(c & ? & ? & Ho)|[? Ho]] Hle HAB; [left; exists c; split_and!; [done..|]; intros u Hu; destruct (Ho u Hu); auto|right; split; [lia|eauto]]. Qed.

(** The nonce recorded as taken now. *)
Lemma remembers_taken n t1 t issued op co : t1 <= t → (∀ u, op !! n = Some u → u <= t1 ∨ issued) → remembers n t1 t issued (mkNonces op (<[n := t]> co)).
Proof. intros Ht Ho. left. exists t. split_and!; [done|apply lookup_insert_eq|done]. Qed.

(** Records of other nonces are of no account. *)
Lemma remembers_frame n t1 t issued r op co :
  remembers n t1 t issued r → op !! n = nr_open r !! n → co !! n = nr_consumed r !! n → remembers n t1 t issued (mkNonces op co).
Proof. unfold remembers. cbn. by intros H -> ->. Qed.

Lemma remembers_open n t1 t issued r u : remembers n t1 t issued r → nr_open r !! n = Some u → u <= t1 ∨ issued.
Proof. intros [(c & _ & _ & Ho)|[_ Ho]] Hu; [by apply Ho|right; by eapply Ho]. Qed.

Lemma remembers_free n t1 t issued r : remembers n t1 t issued r → nr_consumed r !! n = None →
  t1 + CONSUMED_RETENTION_MS < t ∧ ∀ u, nr_open r !! n = Some u → issued.
Proof. intros [(c & _ & Hc & _)|H] Hn; [congruence|done]. Qed.

(** Taken again only as stated. *)
Lemma taken_again n t1 t issued r c r' ans :
  remembers n t1 t issued r → t <= call_time c → nonce_call r c = (r', ans) → takes n c → is_ok ans = true →
  match c with AskWitness _ at_ _ => t1 + 7 * PAIRING_WINDOW_MS < at_ | _ => issued end.
Proof.
  intros Hr Ht H Hn Hok. destruct c as [m now|m now|m at_ now]; cbn in *; [done|subst m..].
  - unfold consume in H. case_bool_decide as Hc; [by injection H as <- <-|]. apply eq_None_not_Some in Hc.
    destruct (remembers_free _ _ _ _ _ Hr Hc) as [_ Ho]. destruct (nr_open r !! n) eqn:E; [by eapply Ho|by injection H as <- <-].
  - unfold witness in H. pose proof (prune_remembers _ _ _ now _ _ Hr Ht) as Hp. case_bool_decide as Hc; [by injection H as <- <-|].
    apply eq_None_not_Some in Hc. destruct (remembers_free _ _ _ _ _ Hp Hc) as [Hw _]. destruct (PAIRING_WINDOW_MS <? now - at_) eqn:E; injection H as <- <-; [done|].
    apply N.ltb_ge in E. unfold CONSUMED_RETENTION_MS, PAIRING_WINDOW_MS in *. lia.
Qed.

Lemma nonce_call_remembers n t1 t issued r c r' ans :
  remembers n t1 t issued r → t1 <= t → t <= call_time c → nonce_call r c = (r', ans) →
  remembers n t1 (call_time c) (issued ∨ issues n c ∧ is_ok ans = true) r'.
Proof.
  intros Hr Ht1 Ht H. assert (∀ m, m = n ∨ m ≠ n) as Hdec by (intros m; destruct (decide (m = n)); auto).
  pose proof (prune_remembers _ _ _ (call_time c) _ _ Hr Ht) as Hp.
  destruct c as [m now|m now|m at_ now]; cbn [nonce_call call_time issues] in *.
  - unfold issue in H. destruct (_ <=? _)%nat; injection H as <- <-; [eapply remembers_weaken; [exact Hp|done|tauto]|].
    destruct (Hdec m) as [->|Hne].
    + destruct Hp as [(c & ? & ? & _)|[? _]]; [left; exists c; split_and!; [done..|]; intros; right; by right|right; split; [done|]; intros; by right].
    + eapply remembers_frame; [eapply remembers_weaken; [exact Hp|done|tauto]|cbn; by apply lookup_insert_ne|done].
  - assert (remembers n t1 now issued r) as Hrn by (eapply remembers_weaken; [exact Hr|done|tauto]).
    eapply (remembers_weaken _ _ now now issued); [|done|tauto]. unfold consume in H. case_bool_decide as Hc; [by injection H as <- <-|].
    destruct (nr_open r !! m) as [u|] eqn:E; injection H as <- <-; [|done].
    destruct (Hdec m) as [->|Hne]; [apply remembers_taken; [lia|]; intros v; by rewrite lookup_delete_eq|].
    eapply remembers_frame; [exact Hrn|by apply lookup_delete_ne|by apply lookup_insert_ne].
  - eapply (remembers_weaken _ _ now now issued); [|done|tauto]. unfold witness in H. case_bool_decide as Hc; injection H as <- <-; [done|].
    destruct (Hdec m) as [->|Hne]; [apply remembers_taken; [lia|]; intros u Hu; by eapply remembers_open|].
    eapply remembers_frame; [exact Hp|done|by apply lookup_insert_ne].
Qed.

Lemma nonce_run_remembers n t1 t issued r cs r' granted :
  remembers n t1 t issued r → t1 <= t → Forall (λ c, t <= call_time c) cs → clock_monotone cs → nonce_run r cs = (r', granted) →
  ∃ t', t <= t' ∧ (∀ c, Forall (λ d, call_time d <= call_time c) cs → t <= call_time c → t' <= call_time c)
  ∧ remembers n t1 t' (issued ∨ ∃ c, c ∈ granted ∧ issues n c) r'.
Proof.
  revert t issued r granted. induction cs as [|c cs IH]; intros t issued r granted Hr Ht1 Hf Hs H; cbn [nonce_run] in H.
  - injection H as <- <-. exists t. split_and!; [done|done|]. eapply remembers_weaken; [done|done|tauto].
  - apply Forall_cons in Hf as [Hc Hf]. apply StronglySorted_inv in Hs as [Hs Hall]. destruct (nonce_call r c) as [r1 ans] eqn:E.
    destruct (nonce_run r1 cs) as [r2 g2] eqn:E2. injection H as <- <-.
    pose proof (nonce_call_remembers _ _ _ _ _ _ _ _ Hr Ht1 Hc E) as Hr1.
    destruct (IH (call_time c) _ r1 g2 Hr1) as (t' & Ht' & Hmax & Hrem); [lia|done|done|done|]. exists t'. split_and!; [lia| |].
    + intros d Hd _. apply Forall_cons in Hd as [Hd0 Hd]. by apply Hmax.
    + eapply remembers_weaken; [exact Hrem|done|]. intros [[?|[Hi Ha]]|(d & Hd & Hi)]; [by left| |].
      * right. exists c. rewrite Ha. split; [left|done].
      * right. exists d. split; [|done]. destruct (is_ok ans); [by right|done].
Qed.

Lemma nonce_run_open r t cs r' granted :
  open_before r t → Forall (λ c, t <= call_time c) cs → clock_monotone cs → nonce_run r cs = (r', granted) →
  ∀ c, Forall (λ d, call_time d <= call_time c) cs → t <= call_time c → open_before r' (call_time c).
Proof.
  revert t r granted. induction cs as [|d cs IH]; intros t r granted Hr Hf Hs H c Hc Ht; cbn [nonce_run] in H.
  - injection H as <- _. intros n u Hu. apply Hr in Hu. lia.
  - apply Forall_cons in Hf as [Hd Hf], Hc as [Hdc Hc]. apply StronglySorted_inv in Hs as [Hs Hall]. pose proof (nonce_call_open r d t Hr Hd) as Hr1.
    destruct (nonce_call r d) as [r1 ans]. destruct (nonce_run r1 cs) as [r2 g2] eqn:E. injection H as <- _. by eapply IH.
Qed.

(** A nonce taken is remembered as taken. *)
Lemma taken_remembers n r c r' : open_before r (call_time c) → takes n c → nonce_call r c = (r', Ok tt) → remembers n (call_time c) (call_time c) False r'.
Proof.
  intros Hr Hn H. destruct c as [m now|m now|m at_ now]; cbn in *; [done|subst m..].
  - unfold consume in H. case_bool_decide; [done|]. destruct (nr_open r !! n); [|done]. destruct (_ <? _); [done|]. injection H as <-.
    apply remembers_taken; [done|]. intros u. by rewrite lookup_delete_eq.
  - unfold witness in H. case_bool_decide; [done|]. destruct (_ <? _); [done|]. injection H as <-. apply remembers_taken; [done|].
    intros u [Hu _]%lookup_prune_open. left. by apply Hr in Hu.
Qed.

Lemma clock_app cs1 cs2 : clock_monotone (cs1 ++ cs2) → clock_monotone cs1 ∧ clock_monotone cs2 ∧ ∀ a b, a ∈ cs1 → b ∈ cs2 → call_time a <= call_time b.
Proof.
  induction cs1 as [|c cs1 IH]; cbn [app]; intros H; [split_and!; [constructor|done|]; by intros a b ?%not_elem_of_nil|].
  apply StronglySorted_inv in H as [H Hall]. rewrite Forall_app in Hall. destruct Hall as [H1 H2]. destruct (IH H) as (Ha & Hb & Hc). split_and!; [by constructor|done|].
  intros a b [->|Ha']%elem_of_cons Hb'; [by apply (proj1 (Forall_forall _ _) H2)|by apply Hc].
Qed.

(** C15. A pairing nonce is good once. Of two handshakes a registry grants on one nonce, in a run whose
    clock never goes back, the second answers the registry's own offer, issued again in between, or an
    offer that claims a time more than seven windows after the first handshake; so an offer replayed as it
    was is refused, for ever, unless it was dated that far in the future. *)
Theorem nonce_taken_once n cs1 c1 cs2 c2 r1 g1 r2 r3 granted r4 :
  clock_monotone (cs1 ++ c1 :: cs2 ++ [c2]) →
  nonce_run NonceRegistry_new cs1 = (r1, g1) →
  takes n c1 → nonce_call r1 c1 = (r2, Ok tt) →
  nonce_run r2 cs2 = (r3, granted) →
  takes n c2 → nonce_call r3 c2 = (r4, Ok tt) →
  match c2 with
  | AskWitness _ issued_at_ms _ => call_time c1 + 7 * PAIRING_WINDOW_MS < issued_at_ms
  | _ => ∃ c, c ∈ granted ∧ issues n c
  end.
Proof.
  intros Hclock H1 Hn1 Hc1 H2 Hn2 Hc2.
  apply clock_app in Hclock as (Hs1 & Hs2 & Hle1). apply StronglySorted_inv in Hs2 as [Hs2 Hall]. apply Forall_app in Hall as [Hall Hc12].
  apply Forall_cons in Hc12 as [Hc12 _]. apply clock_app in Hs2 as (Hs2 & _ & Hle2).
  assert (open_before r1 (call_time c1)) as Ho.
  { eapply (nonce_run_open NonceRegistry_new 0); [by intros m u ?|apply Forall_forall; intros; lia|exact Hs1|exact H1| |lia].
    apply Forall_forall. intros d Hd. apply Hle1; [done|left]. }
  pose proof (taken_remembers _ _ _ _ Ho Hn1 Hc1) as Hr.
  destruct (nonce_run_remembers _ _ _ _ _ _ _ _ Hr (N.le_refl _) Hall Hs2 H2) as (t' & _ & Ht' & Hrem).
  assert (t' <= call_time c2) as Hle. { apply Ht'; [|done]. apply Forall_forall. intros d Hd. apply Hle2; [done|left]. }
  pose proof (taken_again _ _ _ _ _ _ _ _ Hrem Hle Hc2 Hn2 eq_refl) as Hagain. destruct c2; [|tauto|done]. by destruct Hn2.
Qed.

(** An offer dated far ahead is taken twice. *)
Example future_offer_taken_twice :
  let n := [x01] in
  nonce_run NonceRegistry_new [AskWitness n 2000000 0; AskWitness n 2000000 1; AskWitness n 2000000 960001]
  = (mkNonces ∅ {[n := 960001]}, [AskWitness n 2000000 0; AskWitness n 2000000 960001]).
Proof. vm_compute. reflexivity. Qed.

Lemma nonce_taken_once_witness :
  let n := [x01] in
  ∃ c, c ∈ [AskIssue n 1500000] ∧ issues n c.
Proof.
  intros n. set (r1 := fst (nonce_run NonceRegistry_new [AskIssue n 0])). set (r2 := fst (nonce_call r1 (AskConsume n 5))).
  set (r3 := fst (nonce_run r2 [AskIssue n 1500000])).
  apply (nonce_taken_once n [AskIssue n 0] (AskConsume n 5) [AskIssue n 1500000] (AskConsume n 1500001) r1 (snd (nonce_run NonceRegistry_new [AskIssue n 0])) r2 r3 _
           (fst (nonce_call r3 (AskConsume n 1500001)))).
  - repeat constructor; vm_compute; discriminate.
  - apply surjective_pairing.
  - reflexivity.
  - rewrite (surjective_pairing (nonce_call r1 _)). f_equal; vm_compute; reflexivity.
  - rewrite (surjective_pairing (nonce_run r2 _)). f_equal; vm_compute; reflexivity.
  - reflexivity.
  - rewrite (surjective_pairing (nonce_call r3 _)). f_equal; vm_compute; reflexivity.
Defined.

(** ** Transcripts *)

Definition party_wf (p : Party) : Prop := p_device p < 2 ^ 128 ∧ length (p_public_key p) = X25519_PUBLIC_KEY_BYTES.

Definition in_order (p q : Party) : Party * Party := if p_device p <=? p_device q then (p, q) else (q, p).

Lemma to_le_bytes_inj w a b : a < 256 ^ N.of_nat w → b < 256 ^ N.of_nat w → to_le_bytes w a = to_le_bytes w b → a = b.
Proof. intros Ha Hb H. rewrite <- (from_to_le w a), <- (from_to_le w b) by done. by rewrite H. Qed.

Lemma transcript_inj v p q g v' p' q' g' :
  v < 2 ^ 16 → v' < 2 ^ 16 → g < 2 ^ 128 → g' < 2 ^ 128 → party_wf p → party_wf q → party_wf p' → party_wf q' →
  transcript v p q g = transcript v' p' q' g' → v = v' ∧ g = g' ∧ in_order p q = in_order p' q'.
Proof.
  intros Hv Hv' Hg Hg' Hp Hq Hp' Hq'. unfold transcript. change (if p_device p <=? p_device q then (p, q) else (q, p)) with (in_order p q).
  change (if p_device p' <=? p_device q' then (p', q') else (q', p')) with (in_order p' q').
  assert (∀ a b, party_wf a → party_wf b → party_wf (fst (in_order a b)) ∧ party_wf (snd (in_order a b))) as Ho by (intros a b; unfold in_order; by destruct (_ <=? _)).
  destruct (Ho p q Hp Hq) as [[Ha1 Ha2] [Hb1 Hb2]], (Ho p' q' Hp' Hq') as [[Ha1' Ha2'] [Hb1' Hb2']]. clear Ho Hp Hq Hp' Hq'.
  destruct (in_order p q) as [[da ka] [db kb]], (in_order p' q') as [[da' ka'] [db' kb']]. cbn [fst snd p_device p_public_key] in *.
  intros H. apply app_inj_1 in H as [H0 H]; [|by rewrite !to_le_bytes_length]. apply app_inj_1 in H as [H1 H]; [|by rewrite !to_le_bytes_length].
  apply app_inj_1 in H as [-> H]; [|congruence]. apply app_inj_1 in H as [H2 H]; [|by rewrite !to_le_bytes_length].
  apply app_inj_1 in H as [-> H]; [|congruence]. apply to_le_bytes_inj in H0, H1, H2, H; try done. by subst.
Qed.

Lemma transcript_swap v p q g : p_device p ≠ p_device q → transcript v p q g = transcript v q p g.
Proof.
  intros Hne. unfold transcript. destruct (p_device p <=? p_device q) eqn:E, (p_device q <=? p_device p) eqn:E'; try done.
  - apply N.leb_le in E, E'. lia.
  - apply N.leb_gt in E, E'. lia.
Qed.

(** ** Sessions *)

(** The calls that change a session once it is made; a completion with whatever the registry then holds. *)
Inductive PairingCall :=
| CallComplete (peer_device : DeviceId) (peer_public : bytes) (now_ms : N) (registry : NonceRegistry)
| CallConfirmLocal
| CallConfirmRemote
| CallReject.

Section sessions.
Context (P : Primitives) (Q : PairingPrimitives).

Definition pairing_call (s : PairingSession) (c : PairingCall) : PairingSession * result PairingError unit :=
  match c with
  | CallComplete d k now registry => let '(_, s', r) := complete Q s d k now registry in (s', r)
  | CallConfirmLocal => confirm_local s
  | CallConfirmRemote => confirm_remote s
  | CallReject => reject s
  end.

(** The session after some calls, and those it accepted. *)
Fixpoint pairing_run (s : PairingSession) (cs : list PairingCall) : PairingSession * list PairingCall :=
  match cs with
  | [] => (s, [])
  | c :: cs' =>
      let '(s', r) := pairing_call s c in
      let '(s'', accepted) := pairing_run s' cs' in
      (s'', if is_ok r then c :: accepted else accepted)
  end.

(** A call refused leaves the session as it was. *)
Lemma pairing_call_refused s c s' e : pairing_call s c = (s', Err e) → s' = s.
Proof.
  destruct c; cbn [pairing_call]; unfold complete, confirm_local, confirm_remote, reject; repeat case_match; intros; by simplify_eq.
Qed.

(** A handshake, once made, is for good: the secret is spent. *)
Definition spent (s : PairingSession) : Prop := ps_handshake s ≠ None → ps_own_secret s = None.

Record same_link (s s' : PairingSession) : Prop := {
  sl_device : ps_own_device s' = ps_own_device s;
  sl_group : ps_group s' = ps_group s;
  sl_nonce : ps_nonce s' = ps_nonce s;
  sl_public : ps_own_public s' = ps_own_public s
}.

(** What an accepted call did. *)
Lemma pairing_call_accepted s c s' :
  pairing_call s c = (s', Ok tt) →
  ps_closed s = false ∧ same_link s s'
  ∧ match c with
    | CallComplete d k _ _ =>
        ∃ secret, ps_own_secret s = Some secret ∧ ps_own_secret s' = None ∧ ps_peer_device s' = Some d
        ∧ ps_handshake s' = Some (mkHandshake
            (transcript PROTOCOL_VERSION (mkParty (ps_own_device s) (ps_own_public s)) (mkParty d k) (ps_group s))
            (diffie_hellman Q secret k))
        ∧ ps_local_confirmed s' = ps_local_confirmed s ∧ ps_remote_confirmed s' = ps_remote_confirmed s
        ∧ ps_failed_confirmations s' = ps_failed_confirmations s ∧ ps_closed s' = false
    | _ =>
        ps_own_secret s' = ps_own_secret s ∧ ps_peer_device s' = ps_peer_device s ∧ ps_handshake s' = ps_handshake s
        ∧ match c with
          | CallReject =>
              ps_local_confirmed s' = ps_local_confirmed s ∧ ps_remote_confirmed s' = ps_remote_confirmed s
              ∧ ps_failed_confirmations s' = ps_failed_confirmations s + 1
              ∧ ps_closed s' = (MAX_FAILED_SAS_CONFIRMATIONS <=? ps_failed_confirmations s')
          | CallConfirmLocal =>
              ps_handshake s ≠ None ∧ ps_local_confirmed s' = true ∧ ps_remote_confirmed s' = ps_remote_confirmed s
              ∧ ps_failed_confirmations s' = ps_failed_confirmations s ∧ ps_closed s' = false
          | _ =>
              ps_handshake s ≠ None ∧ ps_remote_confirmed s' = true ∧ ps_local_confirmed s' = ps_local_confirmed s
              ∧ ps_failed_confirmations s' = ps_failed_confirmations s ∧ ps_closed s' = false
          end
    end.
Proof.
  destruct c; cbn; unfold complete, confirm_local, confirm_remote, reject; destruct (ps_closed s) eqn:Ec; try done.
  - destruct (consume _ _ _) as [reg [u|e]]; [|done]. destruct (ps_own_secret s) as [secret|] eqn:Es; [|done]. intros [= <-].
    split_and!; [done|by split|]. exists secret. split_and!; done.
  - destruct (ps_handshake s) eqn:Eh; [|done]. intros [= <-]. cbn. rewrite Ec. split_and!; [done|by split|done..].
  - destruct (ps_handshake s) eqn:Eh; [|done]. intros [= <-]. cbn. rewrite Ec. split_and!; [done|by split|done..].
  - intros [= <-]. cbn. split_and!; [done|by split|done..].
Qed.

(** A session as it is made. *)
Definition made (s : PairingSession) : Prop :=
  (∃ d g e t r k n r' o, offer Q d g e t r k n = (r', Ok (s, o))) ∨ (∃ d o t r k r' p, accept Q d o t r k = (r', Ok (s, p))).

Definition rejections (cs : list PairingCall) : N :=
  N.of_nat (length (List.filter (λ c, match c with CallReject => true | _ => false end) cs)).

Lemma rejections_snoc cs c : rejections (cs ++ [c]) = rejections cs + (match c with CallReject => 1 | _ => 0 end).
Proof. unfold rejections. rewrite List.filter_app, length_app. destruct c; cbn; lia. Qed.

(** How a session came to its handshake: as a joiner, or by the one completion an initiator accepts. *)
Definition shook (s0 : PairingSession) (pre : list PairingCall) (s : PairingSession) : Prop :=
  (pre = [] ∧ ps_handshake s0 ≠ None)
  ∨ ps_handshake s0 = None
    ∧ ∃ rs d k now registry, pre = rs ++ [CallComplete d k now registry] ∧ Forall (λ c, c = CallReject) rs ∧ ps_peer_device s = Some d.

(** A session against the calls it accepted. *)
Record told (s0 : PairingSession) (acc : list PairingCall) (s : PairingSession) : Prop := {
  told_link : same_link s0 s;
  told_failed : ps_failed_confirmations s = rejections acc;
  told_closed : ps_closed s = (MAX_FAILED_SAS_CONFIRMATIONS <=? rejections acc);
  told_bound : rejections acc <= MAX_FAILED_SAS_CONFIRMATIONS;
  told_handshake :
    (ps_handshake s = None ∧ ps_handshake s0 = None ∧ Forall (λ c, c = CallReject) acc ∧ ps_local_confirmed s = false ∧ ps_remote_confirmed s = false)
    ∨ (ps_handshake s ≠ None ∧ ps_own_secret s = None
       ∧ ∃ pre post, acc = pre ++ post ∧ shook s0 pre s
         ∧ (ps_local_confirmed s = true ↔ CallConfirmLocal ∈ post) ∧ (ps_remote_confirmed s = true ↔ CallConfirmRemote ∈ post))
}.

Lemma made_told s : made s → told s [] s.
Proof.
  intros [(d & g & e & t & r & k & n & r' & o & H)|(d & o & t & r & k & r' & p & H)].
  - unfold offer in H. destruct n as [n|]; [|done]. destruct (issue _ _ _) as [reg [u|e']]; [|done]. injection H as <- <- <-.
    split; try done. left. split_and!; done.
  - unfold accept in H. destruct (witness _ _ _ _) as [reg [u|e']]; [|done]. injection H as <- <- <-.
    split; try done. right. split_and!; [done|done|]. exists [], []. split_and!; [done|left; done|cbn; split; [done|by intros ?%not_elem_of_nil]..].
Qed.

Lemma same_link_trans s1 s2 s3 : same_link s1 s2 → same_link s2 s3 → same_link s1 s3.
Proof. intros [] []. split; congruence. Qed.

(** The part after the handshake grows by a call that is not a completion. *)
Lemma told_after s0 acc s c s' :
  told s0 acc s → ps_handshake s ≠ None → ps_handshake s' = ps_handshake s → ps_own_secret s' = ps_own_secret s → ps_peer_device s' = ps_peer_device s →
  (ps_local_confirmed s' = true ↔ ps_local_confirmed s = true ∨ c = CallConfirmLocal) →
  (ps_remote_confirmed s' = true ↔ ps_remote_confirmed s = true ∨ c = CallConfirmRemote) →
  ps_handshake s' ≠ None ∧ ps_own_secret s' = None
  ∧ ∃ pre post, acc ++ [c] = pre ++ post ∧ shook s0 pre s'
    ∧ (ps_local_confirmed s' = true ↔ CallConfirmLocal ∈ post) ∧ (ps_remote_confirmed s' = true ↔ CallConfirmRemote ∈ post).
Proof.
  intros Ht Hh Hh' Hs Hp Hl Hr. destruct (told_handshake _ _ _ Ht) as [[? _]|(_ & Hsec & pre & post & -> & Hshook & Hlp & Hrp)]; [done|].
  split_and!; [congruence|congruence|]. exists pre, (post ++ [c]). rewrite app_assoc. split_and!; [done| | |].
  - destruct Hshook as [?|(? & rs & d & k & now & reg & ? & ? & ?)]; [by left|right]. split; [done|]. exists rs, d, k, now, reg. split_and!; [done|done|congruence].
  - rewrite Hl, Hlp, elem_of_app, list_elem_of_singleton. split; (intros [?|?]; [by left|by right]).
  - rewrite Hr, Hrp, elem_of_app, list_elem_of_singleton. split; (intros [?|?]; [by left|by right]).
Qed.

Lemma told_call s0 acc s c s' : told s0 acc s → pairing_call s c = (s', Ok tt) → told s0 (acc ++ [c]) s'.
Proof.
  intros Ht H. pose proof (told_failed _ _ _ Ht) as Hf. pose proof (told_closed _ _ _ Ht) as Hcl. pose proof (told_link _ _ _ Ht) as Hl0.
  apply pairing_call_accepted in H as (Hc & Hl & H). rewrite Hc in Hcl. symmetry in Hcl. apply N.leb_gt in Hcl. unfold MAX_FAILED_SAS_CONFIRMATIONS in *.
  assert (ps_failed_confirmations s' = rejections (acc ++ [c]) ∧ ps_closed s' = (3 <=? rejections (acc ++ [c])) ∧ rejections (acc ++ [c]) <= 3) as (H1 & H2 & H3).
  { rewrite rejections_snoc. destruct c.
    - destruct H as (secret & _ & _ & _ & _ & _ & _ & -> & ->). rewrite N.add_0_r. split_and!; [done|symmetry; by apply N.leb_gt|lia].
    - destruct H as (_ & _ & _ & _ & _ & _ & -> & ->). rewrite N.add_0_r. split_and!; [done|symmetry; by apply N.leb_gt|lia].
    - destruct H as (_ & _ & _ & _ & _ & _ & -> & ->). rewrite N.add_0_r. split_and!; [done|symmetry; by apply N.leb_gt|lia].
    - destruct H as (_ & _ & _ & _ & _ & Hf' & ->). rewrite Hf', Hf. split_and!; [done|done|lia]. }
  split; [by eapply same_link_trans|done|done|done|].
  destruct c as [d k now reg| | |].
  - destruct H as (secret & Hsec & Hsec' & Hpeer & Hhs & Hlc & Hrc & _). right.
    destruct (told_handshake _ _ _ Ht) as [(_ & H0 & Hall & Hlf & Hrf)|(_ & Hnone & _)]; [|congruence].
    split_and!; [by rewrite Hhs|done|]. exists (acc ++ [CallComplete d k now reg]), []. rewrite app_nil_r, Hlc, Hrc, Hlf, Hrf. split_and!; [done| |split; [done|by intros ?%not_elem_of_nil]..].
    right. split; [done|]. by exists acc, d, k, now, reg.
  - destruct H as (Hsec & Hpeer & Hhs & Hne & Hlc & Hrc & _). right. eapply told_after; try done; [rewrite Hlc; tauto|rewrite Hrc; intuition congruence].
  - destruct H as (Hsec & Hpeer & Hhs & Hne & Hrc & Hlc & _). right. eapply told_after; try done; [rewrite Hlc; intuition congruence|rewrite Hrc; tauto].
  - destruct H as (Hsec & Hpeer & Hhs & Hlc & Hrc & _). destruct (told_handshake _ _ _ Ht) as [(Hn & H0 & Hall & Hlf & Hrf)|(Hn & _)].
    + left. rewrite Hhs, Hlc, Hrc. split_and!; try done. apply Forall_app. split; [done|by constructor].
    + right. eapply told_after; try done; [rewrite Hlc; intuition congruence|rewrite Hrc; intuition congruence].
Qed.

Lemma told_run s0 acc s cs s' acc' : told s0 acc s → pairing_run s cs = (s', acc') → told s0 (acc ++ acc') s'.
Proof.
  revert acc s acc'. induction cs as [|c cs IH]; intros acc s acc' Ht H; cbn [pairing_run] in H; [injection H as <- <-; by rewrite app_nil_r|].
  destruct (pairing_call s c) as [s1 r] eqn:E. destruct (pairing_run s1 cs) as [s2 acc2] eqn:E2. destruct r as [[]|e]; cbn [is_ok] in H; injection H as <- <-.
  - replace (acc ++ c :: acc2) with ((acc ++ [c]) ++ acc2) by by rewrite <- app_assoc. eapply IH; [|done]. by eapply told_call.
  - apply pairing_call_refused in E as ->. by eapply IH.
Qed.

(** C13. No key moves before both humans have confirmed. If a session, after any calls taken or refused,
    wraps or unwraps a key, then it had made its handshake and after that had accepted this device's
    confirmation and the peer's, with fewer than three rejections; and after the third rejection every
    call, words and keys included, is refused as closed. *)
Theorem key_needs_both_confirmations s0 cs s accepted :
  made s0 → pairing_run s0 cs = (s, accepted) →
  (∀ key nonce sealed, is_ok (wrap_group_key P Q s key nonce) = true ∨ is_ok (unwrap_group_key P Q s sealed) = true →
     ∃ pre post, accepted = pre ++ post ∧ shook s0 pre s ∧ CallConfirmLocal ∈ post ∧ CallConfirmRemote ∈ post ∧ rejections accepted < 3)
  ∧ rejections accepted <= 3
  ∧ (rejections accepted = 3 → ∀ c key nonce sealed, pairing_call s c = (s, Err PClosed) ∧ session_sas_words Q s = Err PClosed
     ∧ wrap_group_key P Q s key nonce = Err PClosed ∧ unwrap_group_key P Q s sealed = Err PClosed).
Proof.
  intros Hm Hrun. pose proof (told_run s0 [] s0 cs s accepted (made_told s0 Hm) Hrun) as Ht. cbn [app] in Ht.
  pose proof (told_closed _ _ _ Ht) as Hc. pose proof (told_bound _ _ _ Ht) as Hb. unfold MAX_FAILED_SAS_CONFIRMATIONS in *. split_and!; [|done|].
  - intros key nonce sealed Hok. assert (is_ready_to_send_key s = true) as Hready.
    { unfold wrap_group_key, unwrap_group_key in Hok. destruct (is_ready_to_send_key s); [done|]. destruct (ps_closed s); cbn in Hok; by destruct Hok. }
    unfold is_ready_to_send_key in Hready. apply andb_true_iff in Hready as [[Hl Hr]%andb_true_iff Hcl]. apply negb_true_iff in Hcl. rewrite Hcl in Hc.
    symmetry in Hc. apply N.leb_gt in Hc. destruct (told_handshake _ _ _ Ht) as [(_ & _ & _ & Hf & _)|(_ & _ & pre & post & -> & Hs & Hlp & Hrp)]; [congruence|].
    exists pre, post. split_and!; [done|done|by apply Hlp|by apply Hrp|done].
  - intros H3 c key nonce sealed. rewrite H3 in Hc. cbn in Hc. unfold session_sas_words, wrap_group_key, unwrap_group_key. rewrite Hc. split_and!; try done.
    destruct c; cbn; unfold complete, confirm_local, confirm_remote, reject; by rewrite Hc.
Qed.
End sessions.

(** ** An honest handshake, and one in the middle *)

Section handshake.
Context (P : Primitives) (Q : PairingPrimitives) {HP : PrimitiveLaws P} {HQ : PairingLaws P Q}.

(** A handshake stays what it was. *)
Lemma run_keeps_handshake s cs s' accepted h :
  ps_handshake s = Some h → ps_own_secret s = None → pairing_run Q s cs = (s', accepted) → ps_handshake s' = Some h.
Proof using.
  revert s accepted. induction cs as [|c cs IH]; intros s accepted Hh Hs H; cbn [pairing_run] in H; [by injection H as <- _|].
  destruct (pairing_call Q s c) as [s1 r] eqn:E. destruct (pairing_run Q s1 cs) as [s2 acc2] eqn:E2. injection H as <- _.
  destruct r as [[]|e]; [|apply pairing_call_refused in E as ->; by eapply IH].
  apply pairing_call_accepted in E as (_ & _ & H). destruct c; [destruct H as (secret & Hsec & _); congruence|destruct H as (Hs' & _ & Hh' & _); eapply (IH s1); [congruence|congruence|exact E2]..].
Qed.

Lemma offer_inv d g e t r k n r' s o :
  offer Q d g e t r k n = (r', Ok (s, o)) →
  ps_own_device s = d ∧ ps_group s = g ∧ ps_own_secret s = Some k ∧ ps_own_public s = x25519_public Q k
  ∧ po_device o = d ∧ po_group o = g ∧ po_public_key o = x25519_public Q k.
Proof using. unfold offer. destruct n as [n|]; [|done]. destruct (issue _ _ _) as [reg [u|e']]; [|done]. intros [= <- <- <-]. done. Qed.

Lemma accept_inv d o t r k r' s p :
  accept Q d o t r k = (r', Ok (s, p)) →
  p = x25519_public Q k ∧ ps_own_device s = d ∧ ps_own_secret s = None ∧ ps_own_public s = p ∧ ps_peer_device s = Some (po_device o) ∧ ps_closed s = false
  ∧ ps_handshake s = Some (mkHandshake
      (transcript PROTOCOL_VERSION (mkParty d p) (mkParty (po_device o) (po_public_key o)) (po_group o)) (diffie_hellman Q k (po_public_key o))).
Proof using. unfold accept. destruct (witness _ _ _ _) as [reg [u|e']]; [|done]. intros [= <- <- <-]. done. Qed.

Lemma complete_inv s d k t r r' s' :
  complete Q s d k t r = (r', s', Ok tt) →
  ∃ secret, ps_own_secret s = Some secret ∧ ps_own_secret s' = None ∧ ps_peer_device s' = Some d
    ∧ ps_handshake s' = Some (mkHandshake
        (transcript PROTOCOL_VERSION (mkParty (ps_own_device s) (ps_own_public s)) (mkParty d k) (ps_group s)) (diffie_hellman Q secret k)).
Proof using.
  intros H. assert (pairing_call Q s (CallComplete d k t r) = (s', Ok tt)) as Hc by (cbn; by rewrite H).
  apply pairing_call_accepted in Hc as (_ & _ & secret & ? & ? & ? & ? & _). by exists secret.
Qed.

(** Two sessions of one handshake. *)
Lemma wrap_unwrap s1 s2 h key nonce :
  ps_handshake s1 = Some h → ps_handshake s2 = Some h → is_ready_to_send_key s1 = true → is_ready_to_send_key s2 = true →
  length nonce = WRAP_NONCE_BYTES → (length key < 1024)%nat →
  ∃ sealed, wrap_group_key P Q s1 key (Some nonce) = Ok sealed ∧ unwrap_group_key P Q s2 sealed = Ok key.
Proof using HP HQ.
  intros H1 H2 R1 R2 Hn Hk. assert (∀ s, is_ready_to_send_key s = true → ps_closed s = false) as Hopen.
  { intros s [_ Hc]%andb_true_iff. by apply negb_true_iff. }
  destruct (hkdf_length (P := P) (hs_transcript h) (hs_shared_secret h) PAIR_KEY_INFO PAIR_KEY_BYTES) as (okm & Ho & Hlen); [vm_compute; lia|].
  assert (blen key <= MAX_FRAME_BYTES) as Hk' by (unfold blen, MAX_FRAME_BYTES; lia).
  destruct (encrypt_total (Q := Q) okm nonce (hs_transcript h) key Hlen Hn Hk') as (c & Hc). exists (nonce ++ c).
  unfold wrap_group_key, unwrap_group_key, pair_key, expand. rewrite !Hopen, R1, R2, H1, H2 by done. cbn [negb ok_or mbind result_bind]. rewrite Ho. cbn [ok_or mbind result_bind].
  rewrite Hc. cbn [ok_or mbind result_bind]. split; [done|]. rewrite length_app, Hn. destruct (_ <? _)%nat eqn:E; [apply Nat.ltb_lt in E; lia|].
  rewrite take_app_length', drop_app_length' by done. by rewrite (decrypt_encrypt _ _ _ _ _ Hc).
Qed.

Lemma wrap_unwrap_grant s1 s2 h g nonce :
  ps_handshake s1 = Some h → ps_handshake s2 = Some h → is_ready_to_send_key s1 = true → is_ready_to_send_key s2 = true →
  length nonce = WRAP_NONCE_BYTES → grant_wf g →
  ∃ sealed, wrap_grant P Q s1 g (Some nonce) = Ok sealed ∧ unwrap_grant P Q s2 sealed = Ok g.
Proof using HP HQ.
  intros H1 H2 R1 R2 Hn Hg. destruct (grant_codec (P := P) g Hg) as (b & Hb & Hlen & Hd).
  destruct (wrap_unwrap s1 s2 h b nonce H1 H2 R1 R2 Hn Hlen) as (sealed & Hw & Hu). exists sealed. unfold wrap_grant, unwrap_grant, grant_from_bytes.
  rewrite Hb. cbn [ok_or mbind result_bind]. rewrite Hw, Hu. cbn [mbind result_bind]. by rewrite Hd.
Qed.

(** An honest pairing shows both humans the same words and hands the key over. A device offers,
    another accepts, the first completes with what came back; then, whatever confirmations and rejections
    and stray completions either session is given, both show the same six words while open, and once both
    are ready either can wrap a grant that the other unwraps to just that grant. *)
Theorem pairing_hands_over_grant d1 g endpoint t1 r1 k1 nonce r1' s1 o d2 t2 r2 k2 r2' s2 p2 t3 r3 r3' s1' cs1 cs2 u1 a1 u2 a2 :
  d1 ≠ d2 →
  offer Q d1 g endpoint t1 r1 k1 nonce = (r1', Ok (s1, o)) →
  accept Q d2 o t2 r2 k2 = (r2', Ok (s2, p2)) →
  complete Q s1 d2 p2 t3 r3 = (r3', s1', Ok tt) →
  pairing_run Q s1' cs1 = (u1, a1) → pairing_run Q s2 cs2 = (u2, a2) →
  (ps_closed u1 = false → ps_closed u2 = false → ∃ words, session_sas_words Q u1 = Ok words ∧ session_sas_words Q u2 = Ok words ∧ length words = 6%nat)
  ∧ (is_ready_to_send_key u1 = true → is_ready_to_send_key u2 = true →
     ∀ grant n, grant_wf grant → length n = WRAP_NONCE_BYTES →
       (∃ sealed, wrap_grant P Q u1 grant (Some n) = Ok sealed ∧ unwrap_grant P Q u2 sealed = Ok grant)
       ∧ (∃ sealed, wrap_grant P Q u2 grant (Some n) = Ok sealed ∧ unwrap_grant P Q u1 sealed = Ok grant)).
Proof using HP HQ.
  intros Hne Hoffer Haccept Hcomplete Hrun1 Hrun2.
  apply offer_inv in Hoffer as (Hd1 & Hg1 & Hk1 & Hp1 & Hod & Hog & Hop). apply accept_inv in Haccept as (Hp2 & Hd2 & Hs2 & Hp2' & _ & _ & Hh2).
  apply complete_inv in Hcomplete as (secret & Hsec & Hs1' & _ & Hh1). rewrite Hk1 in Hsec. injection Hsec as <-.
  assert (ps_handshake s1' = ps_handshake s2) as Heq.
  { rewrite Hh1, Hh2, Hd1, Hg1, Hp1, Hod, Hog, Hop, Hp2, (dh_agree (P := P)). do 2 f_equal. by apply transcript_swap. }
  rewrite Hh2 in Heq. pose proof (run_keeps_handshake _ _ _ _ _ Heq Hs1' Hrun1) as Hu1. pose proof (run_keeps_handshake _ _ _ _ _ Hh2 Hs2 Hrun2) as Hu2.
  match type of Hu1 with _ = Some ?h => set (hs := h) in * end. split.
  - intros Hc1 Hc2. unfold session_sas_words. rewrite Hc1, Hc2, Hu1, Hu2. cbn [ok_or mbind result_bind]. unfold sas_words, expand.
    destruct (hkdf_length (P := P) (hs_transcript hs) (hs_shared_secret hs) SAS_INFO (SAS_WORD_COUNT * 4)) as (okm & -> & _); [vm_compute; lia|].
    cbn [ok_or mbind result_bind]. eexists. split_and!; [done|done|by rewrite length_map, length_seq].
  - intros R1 R2 grant n Hg Hn. split; by eapply wrap_unwrap_grant.
Qed.

(** C14. A transcript leaves no room for a third party. If the sessions of two devices, one that completed
    an offer and one that accepted some offer, hold the same transcript, then each was talking to the
    other: the device and key each took for its peer's are the other's own, in one group. *)
Theorem no_one_in_the_middle s d k t1 r1 r1' s1 d2 o t2 r2 k2 r2' s2 p2 h1 h2 :
  complete Q s d k t1 r1 = (r1', s1, Ok tt) →
  accept Q d2 o t2 r2 k2 = (r2', Ok (s2, p2)) →
  ps_own_device s ≠ d2 →
  ps_own_device s < 2 ^ 128 → d < 2 ^ 128 → d2 < 2 ^ 128 → po_device o < 2 ^ 128 → ps_group s < 2 ^ 128 → po_group o < 2 ^ 128 →
  length (ps_own_public s) = X25519_PUBLIC_KEY_BYTES → length k = X25519_PUBLIC_KEY_BYTES → length (po_public_key o) = X25519_PUBLIC_KEY_BYTES →
  ps_handshake s1 = Some h1 → ps_handshake s2 = Some h2 → hs_transcript h1 = hs_transcript h2 →
  d = d2 ∧ k = p2 ∧ po_device o = ps_own_device s ∧ po_public_key o = ps_own_public s ∧ po_group o = ps_group s.
Proof using HQ.
  intros Hc Ha Hne Hb1 Hb2 Hb3 Hb4 Hb5 Hb6 Hl1 Hl2 Hl3 Hh1 Hh2 Ht.
  apply complete_inv in Hc as (secret & _ & _ & _ & Hc). apply accept_inv in Ha as (Hp2 & _ & _ & _ & _ & _ & Ha).
  rewrite Hc in Hh1. rewrite Ha in Hh2. injection Hh1 as <-. injection Hh2 as <-. cbn [hs_transcript] in Ht.
  assert (length p2 = X25519_PUBLIC_KEY_BYTES) as Hl4 by (rewrite Hp2; apply (public_length (P := P))).
  apply transcript_inj in Ht as (_ & Hg & Ht); try done.
  unfold in_order in Ht. cbn [p_device] in Ht.
  destruct (ps_own_device s <=? d), (d2 <=? po_device o); injection Ht; intros; subst; done.
Qed.
End handshake.

(** ** A pairing small enough to compute *)

Definition sample_public (s : bytes) : bytes := to_le_bytes 32 (from_le_bytes s).

Definition sample_grant_bytes (g : PairingGrant) : bytes :=
  pg_group_key g ++ pg_static_public g ++ [if pg_own_device g then x01 else x00] ++ to_le_bytes 4 (pg_epoch g).

Definition sample_grant_of (b : bytes) : option PairingGrant :=
  if bool_decide (length b = 69%nat)
  then Some (mkGrant (slice 0 32 b) (slice 32 64 b) (bool_decide (slice 64 65 b = [x01])) (from_le_bytes (slice 65 69 b)))
  else None.

(** Secrets are added, keys are the text they are derived from cut to length, a grant is its fields. *)
Definition sample_pairing : PairingPrimitives := {|
  x25519_public := sample_public;
  diffie_hellman := λ s p, to_le_bytes 32 (from_le_bytes (sample_public s) + from_le_bytes p);
  hkdf_expand := λ salt ikm info n, Some (take n (info ++ ikm ++ salt ++ replicate n x00));
  grant_postcard := λ g, if bool_decide (length (pg_group_key g) = KEY_BYTES ∧ length (pg_static_public g) = 32%nat) then Some (sample_grant_bytes g) else None;
  grant_of_postcard := sample_grant_of;
  legacy_of_postcard := λ b, None
|}.

#[export] Instance sample_pairing_laws : PairingLaws sample_primitives sample_pairing.
Proof.
  split.
  - intros s. apply to_le_bytes_length.
  - intros s t. cbn [diffie_hellman x25519_public sample_pairing]. by rewrite N.add_comm.
  - intros salt ikm info n _. eexists. split; [reflexivity|]. rewrite length_take, !length_app, length_replicate. lia.
  - intros k n a p _ _ _. by eexists.
  - intros g (Hk & Hs & He). exists (sample_grant_bytes g). cbn [grant_postcard grant_of_postcard sample_pairing].
    destruct g as [key static own epoch]. cbn [pg_group_key pg_static_public pg_epoch] in *. rewrite bool_decide_eq_true_2 by done.
    unfold KEY_BYTES in Hk. assert (length (sample_grant_bytes (mkGrant key static own epoch)) = 69%nat) as Hl.
    { unfold sample_grant_bytes. cbn [pg_group_key pg_static_public pg_own_device pg_epoch]. rewrite !length_app, to_le_bytes_length, Hk, Hs. reflexivity. }
    split_and!; [done|lia|]. unfold sample_grant_of. rewrite bool_decide_eq_true_2 by done. unfold sample_grant_bytes. cbn [pg_group_key pg_static_public pg_own_device pg_epoch].
    do 32 (destruct key as [|? key]; [done|]). destruct key; [|done]. do 32 (destruct static as [|? static]; [done|]). destruct static; [|done].
    unfold slice. cbn [app take drop Nat.sub]. f_equal.
    assert (from_le_bytes (take 4 (drop 0 (to_le_bytes 4 epoch))) = epoch) as ->; [|by destruct own].
    rewrite drop_0, take_ge by (rewrite to_le_bytes_length; lia). by apply from_to_le.
Qed.

Definition device_a : DeviceId := 1.
Definition device_b : DeviceId := 2.
Definition nonce_a : Nonce := replicate 16 x07.
Definition public_a : bytes := sample_public [x05].
Definition public_b : bytes := sample_public [x06].

(** The ceremony on these: an offer, its acceptance, the completion. *)
Definition offered := offer sample_pairing device_a 9 (str "10.0.0.1:4242") 0 NonceRegistry_new [x05] (Some nonce_a).
Definition offer_a : PairingOffer := mkOffer device_a 9 public_a (str "10.0.0.1:4242") nonce_a 0 None None.
Definition accepted := accept sample_pairing device_b offer_a 10 NonceRegistry_new [x06].
Definition handshake_ab : Handshake :=
  mkHandshake (transcript PROTOCOL_VERSION (mkParty device_a public_a) (mkParty device_b public_b) 9) (diffie_hellman sample_pairing [x05] public_b).
Definition session_a : PairingSession := mkPairing device_a 9 nonce_a (Some [x05]) public_a None None false false 0 false.
Definition session_b : PairingSession := mkPairing device_b 9 nonce_a None public_b (Some device_a) (Some handshake_ab) false false 0 false.
Definition session_a' : PairingSession := mkPairing device_a 9 nonce_a None public_a (Some device_b) (Some handshake_ab) false false 0 false.
Definition completed := complete sample_pairing session_a device_b public_b 20 (fst offered).

Lemma offered_eq : offered = (fst offered, Ok (session_a, offer_a)).
Proof. rewrite (surjective_pairing offered). cbn [fst]. f_equal; vm_compute; reflexivity. Qed.

Lemma accepted_eq : accepted = (fst accepted, Ok (session_b, public_b)).
Proof. rewrite (surjective_pairing accepted). cbn [fst]. f_equal; vm_compute; reflexivity. Qed.

Lemma completed_eq : completed = (fst (fst completed), session_a', Ok tt).
Proof.
  rewrite (surjective_pairing completed), (surjective_pairing (fst completed)). cbn [fst]. f_equal; vm_compute; reflexivity.
Qed.

Definition both_confirm : list PairingCall := [CallReject; CallConfirmLocal; CallConfirmRemote].

Example ceremony_words :
  session_sas_words sample_pairing session_a' = session_sas_words sample_pairing session_b
  ∧ is_ok (session_sas_words sample_pairing session_a') = true
  ∧ pairing_run sample_pairing session_a' [CallReject; CallReject; CallReject; CallConfirmLocal]
    = (mkPairing device_a 9 nonce_a None public_a (Some device_b) (Some handshake_ab) false false 3 true, [CallReject; CallReject; CallReject]).
Proof. split_and!; vm_compute; reflexivity. Qed.

Lemma pairing_hands_over_grant_witness :
  let u1 := fst (pairing_run sample_pairing session_a' both_confirm) in
  let u2 := fst (pairing_run sample_pairing session_b both_confirm) in
  let grant := mkGrant (replicate 32 x0a) (replicate 32 x0b) true 4 in
  ∃ sealed, wrap_grant sample_primitives sample_pairing u1 grant (Some (replicate 24 x00)) = Ok sealed
    ∧ unwrap_grant sample_primitives sample_pairing u2 sealed = Ok grant.
Proof.
  intros u1 u2 grant.
  refine (proj1 (proj2 (pairing_hands_over_grant sample_primitives sample_pairing device_a 9 (str "10.0.0.1:4242") 0 NonceRegistry_new [x05] (Some nonce_a) _ session_a offer_a
            device_b 10 NonceRegistry_new [x06] _ session_b public_b 20 _ _ session_a' both_confirm both_confirm u1 _ u2 _ _ offered_eq accepted_eq completed_eq
            (surjective_pairing _) (surjective_pairing _)) _ _ grant (replicate 24 x00) _ _)).
  - done.
  - vm_compute. reflexivity.
  - vm_compute. reflexivity.
  - split_and!; reflexivity.
  - reflexivity.
Defined.

Lemma key_needs_both_confirmations_witness :
  rejections (snd (pairing_run sample_pairing session_a [CallConfirmLocal; CallReject; CallReject])) = 2
  ∧ rejections (snd (pairing_run sample_pairing session_a [CallConfirmLocal; CallReject; CallReject])) <= 3.
Proof.
  split; [vm_compute; reflexivity|].
  refine (proj1 (proj2 (key_needs_both_confirmations sample_primitives sample_pairing session_a _ _ _ _ (surjective_pairing _)))).
  left. do 8 eexists. exists offer_a. exact offered_eq.
Defined.

Lemma no_one_in_the_middle_witness :
  ps_handshake session_a' = ps_handshake session_b ∧ po_device offer_a = ps_own_device session_a ∧ po_public_key offer_a = ps_own_public session_a.
Proof.
  split; [reflexivity|].
  assert (po_device offer_a = ps_own_device session_a ∧ po_public_key offer_a = ps_own_public session_a ∧ po_group offer_a = ps_group session_a) as (Hd & Hk & _); [|by split].
  refine (proj2 (proj2 (no_one_in_the_middle sample_primitives sample_pairing session_a device_b public_b 20 _ _ session_a' device_b offer_a 10 NonceRegistry_new [x06] _
            session_b public_b handshake_ab handshake_ab completed_eq accepted_eq _ _ _ _ _ _ _ _ _ _ _ _ _))); try reflexivity.
  intros H. discriminate H.
Defined.
