(* ===== verification/Identity.v ===== *)
(** The device-wide identity: [devices.rs], [identity_store.rs] and [identity_store_own.rs] of
    [crates/txtodo-store/src], as what the SQL means on the rows, with the daemon's records kept in its
    [meta] table ([epoch_info.rs], [removal_why.rs]), its verdict on stale peers ([prune_stale.rs]) and the
    state all workspaces share ([device_identity.rs]).

    The key store holds the group key of each epoch; it may fail, which is an argument of the calls that
    use it. *)
From S2P Require Import Prelude.
From S2P Require Import Utf8.
From S2P Require Import Types.
From S2P Require Import Ulid.
From S2P Require Import Hlc.
From S2P Require Import OpLog.
From S2P Require Import Frame.
From S2P Require Import Message.

#[local] Open Scope N_scope.

(** ** devices.rs, identity_store.rs *)

Definition MAX_DEVICES_PER_READ : nat := Z.to_nat 1024.

Record DeviceRow := mkDeviceRow {
  dr_device : DeviceId;
  dr_name : bytes;
  dr_static_public : bytes;
  dr_paired_at_ms : N;
  dr_last_seen_ms : option N;
  dr_last_known_wall_ms : option N;
  dr_key_epoch : N;
  dr_removed_at_ms : option N;
  dr_relay_node_id : option bytes;
  dr_relay_url : option bytes
}.

Record NewDevice := mkNewDevice {
  nd_device : DeviceId;
  nd_name : bytes;
  nd_static_public : bytes;
  nd_paired_at_ms : N;
  nd_last_known_wall_ms : option N;
  nd_key_epoch : N
}.

(** The tables: [meta]; [devices], each row with its [own_device] column; [own_vouches], a voucher's list. *)
Record IdentityStore := mkIdentityStore {
  is_meta : gmap bytes bytes;
  is_devices : gmap DeviceId (DeviceRow * bool);
  is_vouches : gmap DeviceId (gset DeviceId)
}.

Definition IdentityStore_new : IdentityStore := mkIdentityStore ∅ ∅ ∅.

Definition with_devices (st : IdentityStore) (m : gmap DeviceId (DeviceRow * bool)) : IdentityStore :=
  mkIdentityStore (is_meta st) m (is_vouches st).

Definition meta_set (st : IdentityStore) (key value : bytes) : IdentityStore :=
  mkIdentityStore (<[key := value]> (is_meta st)) (is_devices st) (is_vouches st).

Definition meta_get (st : IdentityStore) (key : bytes) : option bytes := is_meta st !! key.

Definition device (st : IdentityStore) (d : DeviceId) : option DeviceRow := fst <$> is_devices st !! d.

(** [INSERT ... ON CONFLICT DO UPDATE]: the relay's columns are not among those set. *)
Definition upsert (st : IdentityStore) (new : NewDevice) (own : bool) : IdentityStore :=
  let old := device st (nd_device new) in
  with_devices st (<[nd_device new :=
    (mkDeviceRow (nd_device new) (nd_name new) (nd_static_public new) (wall_i64 (nd_paired_at_ms new)) (Some (wall_i64 (nd_paired_at_ms new)))
       (wall_i64 <$> nd_last_known_wall_ms new) (nd_key_epoch new) None (old ≫= dr_relay_node_id) (old ≫= dr_relay_url), own)]> (is_devices st)).

(** The [own_device] column keeps its value, or takes its default. *)
Definition register_device (st : IdentityStore) (new : NewDevice) : IdentityStore :=
  upsert st new (default true (snd <$> is_devices st !! nd_device new)).

Definition register_device_as (st : IdentityStore) (new : NewDevice) (own : bool) : IdentityStore := upsert st new own.

(** [ORDER BY paired_at, device]. *)
Definition row_le (a b : DeviceRow) : bool :=
  (dr_paired_at_ms a <? dr_paired_at_ms b) || ((dr_paired_at_ms a =? dr_paired_at_ms b) && (dr_device a <=? dr_device b)).

Definition list_devices (st : IdentityStore) : list DeviceRow :=
  take MAX_DEVICES_PER_READ (stable_sort row_le (map (λ kv, fst (snd kv)) (map_to_list (is_devices st)))).

Definition set_removed (r : DeviceRow) (at_ms : option N) : DeviceRow :=
  mkDeviceRow (dr_device r) (dr_name r) (dr_static_public r) (dr_paired_at_ms r) (dr_last_seen_ms r) (dr_last_known_wall_ms r)
    (dr_key_epoch r) at_ms (dr_relay_node_id r) (dr_relay_url r).

Definition set_epoch (r : DeviceRow) (epoch : N) : DeviceRow :=
  mkDeviceRow (dr_device r) (dr_name r) (dr_static_public r) (dr_paired_at_ms r) (dr_last_seen_ms r) (dr_last_known_wall_ms r)
    epoch (dr_removed_at_ms r) (dr_relay_node_id r) (dr_relay_url r).

Definition set_relay (r : DeviceRow) (node url : bytes) : DeviceRow :=
  mkDeviceRow (dr_device r) (dr_name r) (dr_static_public r) (dr_paired_at_ms r) (dr_last_seen_ms r) (dr_last_known_wall_ms r)
    (dr_key_epoch r) (dr_removed_at_ms r) (Some node) (Some url).

(** A transaction on one row; [false] when there is none. *)
Definition on_row (st : IdentityStore) (d : DeviceId) (f : DeviceRow → DeviceRow) : IdentityStore * bool :=
  match is_devices st !! d with
  | None => (st, false)
  | Some (r, own) => (with_devices st (<[d := (f r, own)]> (is_devices st)), true)
  end.

Definition remove_row (st : IdentityStore) (d : DeviceId) (at_ms : N) : IdentityStore * bool :=
  on_row st d (λ r, set_removed r (Some (wall_i64 at_ms))).

Definition set_device_key_epoch (st : IdentityStore) (d : DeviceId) (epoch : N) : IdentityStore * bool :=
  on_row st d (λ r, set_epoch r epoch).

Definition set_relay_reachability (st : IdentityStore) (d : DeviceId) (relay_node_id relay_url : bytes) : IdentityStore * bool :=
  on_row st d (λ r, set_relay r relay_node_id relay_url).

Definition active_row (st : IdentityStore) (d : DeviceId) : option DeviceRow :=
  r ← device st d; if bool_decide (dr_removed_at_ms r = None) then Some r else None.

(** ** identity_store_own.rs *)

Definition is_direct_own (st : IdentityStore) (d : DeviceId) : bool :=
  match is_devices st !! d with
  | Some (r, own) => own && bool_decide (dr_removed_at_ms r = None)
  | None => false
  end.

(** A voucher that counts and names the device. *)
Definition vouched (st : IdentityStore) (d : DeviceId) : bool :=
  existsb (λ kv : DeviceId * gset DeviceId, bool_decide (d ∈ snd kv) && is_direct_own st (fst kv)) (map_to_list (is_vouches st)).

Definition is_own_device (st : IdentityStore) (d : DeviceId) : bool :=
  match is_devices st !! d with
  | Some (_, own) => own
  | None => vouched st d
  end.

(** [ORDER BY device LIMIT]. *)
Definition device_list (s : gset DeviceId) : list DeviceId := take MAX_DEVICES_PER_READ (stable_sort N.leb (elements s)).

Definition direct_own_devices (st : IdentityStore) : list DeviceId :=
  device_list (filter (λ d, is_direct_own st d = true) (dom (is_devices st))).

Definition vouched_own_devices (st : IdentityStore) : list DeviceId :=
  device_list (filter (λ d, vouched st d = true ∧ is_devices st !! d = None) (⋃ (map snd (map_to_list (is_vouches st))))).

Definition set_own_vouches (st : IdentityStore) (voucher : DeviceId) (ds : list DeviceId) : IdentityStore :=
  mkIdentityStore (is_meta st) (is_devices st) (<[voucher := list_to_set (take MAX_DEVICES_PER_READ ds)]> (is_vouches st)).

(** ** epoch_info.rs *)

Definition MAX_OWN_DEVICES : nat := Z.to_nat 1024.
Definition MAX_LEFT_OUT : nat := MAX_OWN_DEVICES.

Record EpochInfo := mkEpochInfo { ei_minter : DeviceId; ei_left_out : list DeviceId }.

Definition epoch_key (epoch : N) : bytes := str "group_epoch_info:" ++ display_N epoch.

(** [to_be_bytes], [from_be_bytes]. *)
Definition to_be_bytes (width : nat) (v : N) : bytes := reverse (to_le_bytes width v).
Definition from_be_bytes (bs : bytes) : N := from_le_bytes (reverse bs).

Definition id_bytes (d : DeviceId) : bytes := to_be_bytes 16 d.

Definition id_of (chunk : bytes) : option DeviceId :=
  if bool_decide (length chunk = 16%nat) then Some (from_be_bytes chunk) else None.

Definition EpochInfo_encode (i : EpochInfo) : bytes :=
  id_bytes (ei_minter i) ++ concat (map id_bytes (take MAX_LEFT_OUT (ei_left_out i))).

(** The whole chunks of sixteen bytes. *)
Definition chunks16 (bs : bytes) : list bytes := reshape (replicate (length bs / 16) 16%nat) bs.

Definition EpochInfo_decode (bs : bytes) : option EpochInfo :=
  if (length bs <? 16)%nat || negb (Nat.eqb (length bs mod 16) 0) then None
  else
    let chunks := chunks16 bs in
    first ← head chunks;
    minter ← id_of first;
    Some (mkEpochInfo minter (omap id_of (drop 1 chunks))).

Definition read_epoch (st : IdentityStore) (epoch : N) : option EpochInfo := meta_get st (epoch_key epoch) ≫= EpochInfo_decode.

Definition write_epoch (st : IdentityStore) (epoch : N) (i : EpochInfo) : IdentityStore := meta_set st (epoch_key epoch) (EpochInfo_encode i).

(** ** prune_stale.rs, removal_why.rs *)

Inductive Stale := Parked | Quiet.

Inductive Why := Manual | PrunedQuiet | PrunedParked | LeftOut.

#[global] Instance Why_eq_dec : EqDecision Why.
Proof. solve_decision. Defined.

Definition Why_as_str (w : Why) : bytes :=
  match w with
  | Manual => str "manual"
  | PrunedQuiet => str "pruned_quiet"
  | PrunedParked => str "pruned_parked"
  | LeftOut => str "left_out"
  end.

Definition Why_parse (word : bytes) : option Why :=
  List.find (λ w, bool_decide (Why_as_str w = word)) [Manual; PrunedQuiet; PrunedParked; LeftOut].

Definition Why_from (s : Stale) : Why := match s with Parked => PrunedParked | Quiet => PrunedQuiet end.

Record Removal := mkRemoval { rm_why : Why; rm_by : DeviceId }.

Definition removal_key (d : DeviceId) : bytes := str "removed_why:" ++ Ulid_display (from_u128 d).

Definition write_removal (st : IdentityStore) (d : DeviceId) (r : Removal) : IdentityStore :=
  meta_set st (removal_key d) (Why_as_str (rm_why r) ++ str ":" ++ Ulid_display (from_u128 (rm_by r))).

(** [split_once(':')]. *)
Definition split_colon (s : bytes) : option (bytes * bytes) :=
  i ← position (λ c, bool_decide (c = ":"%byte)) s; Some (take i s, drop (S i) s).

Definition read_removal (st : IdentityStore) (d : DeviceId) : option Removal :=
  bs ← meta_get st (removal_key d);
  if negb (is_utf8 bs) then None
  else
    wb ← split_colon bs;
    by_ ← Ulid_parse (snd wb);
    why ← Why_parse (fst wb);
    Some (mkRemoval why (to_u128 by_)).

Definition DAY_MS : N := 86400000.
Definition DEFAULT_PARKED_AFTER_MS : N := DAY_MS.
Definition DEFAULT_QUIET_AFTER_MS : N := 7 * DAY_MS.

Record PruneConfig := mkPruneConfig { pc_parked_after_ms : N; pc_quiet_after_ms : N }.

Definition PruneConfig_default : PruneConfig := mkPruneConfig DEFAULT_PARKED_AFTER_MS DEFAULT_QUIET_AFTER_MS.

(** [after] milliseconds of silence; 0 is the rule off. *)
Definition due (after_ms silent_ms : N) : bool := (0 <? after_ms) && (after_ms <=? silent_ms).

Definition verdict (r : DeviceRow) (parked : bool) (cfg : PruneConfig) (now_ms up_since_ms : N) : option Stale :=
  if bool_decide (is_Some (dr_removed_at_ms r)) then None
  else
    let heard := N.max (N.max (default 0 (dr_last_seen_ms r)) (dr_paired_at_ms r)) up_since_ms in
    let silent := now_ms - heard in
    if parked && due (pc_parked_after_ms cfg) silent then Some Parked
    else if due (pc_quiet_after_ms cfg) silent then Some Quiet
    else None.

(** [parked]: what [peer_keys] holds. *)
Definition stale_peers (st : IdentityStore) (parked : DeviceId → bool) (cfg : PruneConfig) (now_ms up_since_ms : N) : list (DeviceId * Stale) :=
  omap (λ r, (dr_device r,.) <$> verdict r (parked (dr_device r)) cfg now_ms up_since_ms) (list_devices st).

(** ** device_identity.rs *)

Definition DEVICE_ID_KEY : bytes := str "device_id".
Definition GROUP_ID_KEY : bytes := str "group_id".
Definition GROUP_EPOCH_KEY : bytes := str "group_key_epoch".

(** The group keys of the key store, by epoch. *)
Abbreviation KeyStore := (gmap N bytes).

Record DeviceIdentity := mkIdentity {
  di_device : DeviceId;
  di_static : bytes;
  di_group : GroupId;
  di_group_epoch : N;
  di_keys : KeyStore;
  di_store : IdentityStore
}.

Definition load_or_mint_device (st : IdentityStore) (minted : DeviceId) : IdentityStore * DeviceId :=
  match meta_get st DEVICE_ID_KEY ≫= id_of with
  | Some d => (st, d)
  | None => (meta_set st DEVICE_ID_KEY (id_bytes minted), minted)
  end.

(** [raw]: sixteen random bytes, [None] when the system gave none. *)
Definition load_or_mint_group (st : IdentityStore) (raw : option bytes) : IdentityStore * GroupId :=
  match meta_get st GROUP_ID_KEY ≫= id_of with
  | Some g => (st, g)
  | None =>
      let raw := default (replicate 16 xa5) raw in
      (meta_set st GROUP_ID_KEY raw, from_be_bytes raw)
  end.

Definition load_group_epoch (st : IdentityStore) : N :=
  match meta_get st GROUP_EPOCH_KEY with
  | None => 0
  | Some bs => if bool_decide (length bs = 4%nat) then from_be_bytes bs else 0
  end.

(** A daemon's start: what the database holds, over a key store and a device key already loaded. *)
Definition finish_open (st : IdentityStore) (keys : KeyStore) (static : bytes) (minted : DeviceId) (raw : option bytes) : DeviceIdentity :=
  let '(st, d) := load_or_mint_device st minted in
  let '(st, g) := load_or_mint_group st raw in
  mkIdentity d static g (load_group_epoch st) keys st.

Definition with_store (i : DeviceIdentity) (st : IdentityStore) : DeviceIdentity :=
  mkIdentity (di_device i) (di_static i) (di_group i) (di_group_epoch i) (di_keys i) st.

Definition with_keys (i : DeviceIdentity) (keys : KeyStore) : DeviceIdentity :=
  mkIdentity (di_device i) (di_static i) (di_group i) (di_group_epoch i) keys (di_store i).

Definition set_group (i : DeviceIdentity) (g : GroupId) : DeviceIdentity :=
  mkIdentity (di_device i) (di_static i) g (di_group_epoch i) (di_keys i) (di_store i).

Definition set_group_epoch (i : DeviceIdentity) (epoch : N) : DeviceIdentity :=
  mkIdentity (di_device i) (di_static i) (di_group i) epoch (di_keys i) (di_store i).

(** ** Samples *)

Example records_sample :
  let i := mkEpochInfo 7 [1; 2] in
  EpochInfo_decode (EpochInfo_encode i) = Some i ∧ EpochInfo_decode [] = None ∧ EpochInfo_decode (replicate 17 x00) = None
  ∧ read_removal (write_removal IdentityStore_new 9 (mkRemoval PrunedQuiet 5)) 9 = Some (mkRemoval PrunedQuiet 5).
Proof. vm_compute. split_and!; reflexivity. Qed.

(** ** Records *)

Lemma id_of_bytes d : d < 2 ^ 128 → id_of (id_bytes d) = Some d.
Proof.
  intros Hd. unfold id_of, id_bytes, to_be_bytes, from_be_bytes. rewrite length_reverse, to_le_bytes_length, reverse_involutive.
  rewrite bool_decide_eq_true_2 by done. by rewrite from_to_le.
Qed.

Lemma id_bytes_length d : length (id_bytes d) = 16%nat.
Proof. unfold id_bytes, to_be_bytes. by rewrite length_reverse, to_le_bytes_length. Qed.

Lemma concat_ids_length ds : length (concat (map id_bytes ds)) = (16 * length ds)%nat.
Proof. induction ds as [|d ds IH]; [done|]. cbn [map concat length]. rewrite length_app, id_bytes_length, IH. lia. Qed.

Lemma chunks16_ids ds : chunks16 (concat (map id_bytes ds)) = map id_bytes ds.
Proof.
  unfold chunks16. rewrite concat_ids_length, Nat.mul_comm, Nat.div_mul by lia. induction ds as [|d ds IH]; [done|].
  cbn [map concat length replicate reshape]. rewrite take_app_length', drop_app_length' by (by rewrite id_bytes_length). by rewrite IH.
Qed.

Lemma EpochInfo_roundtrip i :
  ei_minter i < 2 ^ 128 → Forall (λ d, d < 2 ^ 128) (ei_left_out i) → (length (ei_left_out i) <= MAX_LEFT_OUT)%nat →
  EpochInfo_decode (EpochInfo_encode i) = Some i.
Proof.
  intros Hm Hl Hlen. destruct i as [m ds]. cbn [ei_minter ei_left_out] in *. unfold EpochInfo_encode. cbn [ei_minter ei_left_out]. rewrite take_ge by done.
  change (id_bytes m ++ concat (map id_bytes ds)) with (concat (map id_bytes (m :: ds))). unfold EpochInfo_decode.
  rewrite concat_ids_length, chunks16_ids. destruct (_ <? _)%nat eqn:E; [apply Nat.ltb_lt in E; cbn in E; lia|]. rewrite Nat.mul_comm, Nat.Div0.mod_mul. cbn [Nat.eqb negb orb map head drop mbind option_bind].
  rewrite drop_0. rewrite id_of_bytes by done. cbn [mbind option_bind]. f_equal. f_equal. clear -Hl. induction Hl as [|d ds Hd _ IH]; [done|]. cbn [map omap list_omap]. by rewrite id_of_bytes, IH.
Qed.

(** The keys of the [meta] table tell epochs and devices apart. *)
Lemma epoch_key_inj a b : epoch_key a = epoch_key b → a = b.
Proof. intros H%app_inv_head. pose proof (ascii_number_display a) as Ha. rewrite H, ascii_number_display in Ha. congruence. Qed.

Lemma epoch_key_not_group e : epoch_key e ≠ GROUP_EPOCH_KEY ∧ epoch_key e ≠ GROUP_ID_KEY ∧ epoch_key e ≠ DEVICE_ID_KEY.
Proof. unfold epoch_key. split_and!; intros H; vm_compute in H; by inversion H. Qed.

Lemma removal_key_not_epoch d e : removal_key d ≠ epoch_key e ∧ removal_key d ≠ GROUP_EPOCH_KEY ∧ removal_key d ≠ GROUP_ID_KEY.
Proof. unfold removal_key, epoch_key. split_and!; intros H; cbn in H; by inversion H. Qed.

Lemma meta_get_set st k v k' : meta_get (meta_set st k v) k' = if decide (k = k') then Some v else meta_get st k'.
Proof. unfold meta_get, meta_set. cbn. destruct (decide (k = k')) as [<-|Hne]; [apply lookup_insert_eq|by apply lookup_insert_ne]. Qed.

Lemma read_write_epoch st e i e' :
  read_epoch (write_epoch st e i) e' = if decide (e = e') then EpochInfo_decode (EpochInfo_encode i) else read_epoch st e'.
Proof.
  unfold read_epoch, write_epoch. rewrite meta_get_set. destruct (decide (e = e')) as [->|Hne]; [by rewrite decide_True|].
  rewrite decide_False; [done|]. by intros ?%epoch_key_inj.
Qed.
