(* ===== verification/Ceremony.v ===== *)
(** The pairing ceremony two daemons hold: [pairing_state.rs], [pairing_group_key.rs], [pairing_adopt.rs],
    [pairing_register.rs] and [pairing_lan.rs] of [crates/txtodo-daemon/src], with the messages of
    [pairing_relay.rs] of [crates/txtodo-sync/src].

    Each daemon holds one pairing at most. The joiner sends the same hello again and again, each time with
    whether its human has confirmed; the initiator answers pending, rejected, or with the sealed grant,
    which it keeps to answer again. The joiner's writes to its identity database and its key store may each
    fail; what was written before stays. The theorems run two daemons, their humans and a link that loses
    replies: what the joiner ends up with, and that it ends up with nothing unless both humans confirmed. *)
From S2P Require Import Prelude.
From S2P Require Import Hlc.
From S2P Require Import OpLog.
From S2P Require Import Frame.
From S2P Require Import Message.
From S2P Require Import Sealed.
From S2P Require Import Pairing.
From S2P Require Import Identity.

#[local] Open Scope N_scope.

(** ** pairing_state_error.rs, pairing_relay.rs *)

Inductive PairingStateError :=
| PsTooManyOpen
| WindowExpired
| NotActive
| WrongRole
| PsSession (e : PairingError)
| PsKeyStore
| PsStore
| CorruptGroupKey (len : nat)
| MissingGroupKey (epoch : N).

Record JoinerHello := mkHello {
  jh_device : DeviceId;
  jh_group : GroupId;
  jh_nonce : Nonce;
  jh_public_key : bytes;
  jh_static_public : bytes;
  jh_confirmed : bool;
  jh_own_device : bool
}.

Inductive InitiatorReply := Pending | Rejected | Grant (sealed : bytes).

(** ** pairing_state.rs *)

Inductive Role := Initiator | Joiner.

#[global] Instance Role_eq_dec : EqDecision Role.
Proof. solve_decision. Defined.

Record Active := mkActive {
  ac_session : PairingSession;
  ac_role : Role;
  ac_opened_at_ms : N;
  ac_own_public : option bytes;
  ac_own_answer : bool;
  ac_peer_own_answer : bool
}.

Record ActiveSnapshot := mkSnapshot {
  as_role : Role;
  as_group : GroupId;
  as_nonce : Nonce;
  as_is_handshaken : bool;
  as_peer_device : option DeviceId
}.

Record FinalizedGrant := mkFinalized { fg_device : DeviceId; fg_nonce : Nonce; fg_sealed : bytes; fg_mutual : bool }.

(** What the lock guards. *)
Record Inner := mkInner { in_nonces : NonceRegistry; in_active : option Active; in_finalized : option FinalizedGrant }.

Definition PairingRegistry_new : Inner := mkInner NonceRegistry_new None None.

Definition with_active (i : Inner) (a : option Active) : Inner := mkInner (in_nonces i) a (in_finalized i).
Definition with_nonces (i : Inner) (n : NonceRegistry) : Inner := mkInner n (in_active i) (in_finalized i).
Definition with_session (a : Active) (s : PairingSession) : Active :=
  mkActive s (ac_role a) (ac_opened_at_ms a) (ac_own_public a) (ac_own_answer a) (ac_peer_own_answer a).

Definition expired (a : Active) (now_ms : N) : bool := PAIRING_WINDOW_MS <? now_ms - ac_opened_at_ms a.

(** The live attempt, or why there is none; an expired one is let go. *)
Definition active_mut (i : Inner) (now_ms : N) : Inner * result PairingStateError Active :=
  match in_active i with
  | None => (i, Err NotActive)
  | Some a => if expired a now_ms then (with_active i None, Err WindowExpired) else (i, Ok a)
  end.

Definition ensure_capacity (i : Inner) (now_ms : N) : Inner * result PairingStateError unit :=
  match in_active i with
  | None => (i, Ok tt)
  | Some a => if expired a now_ms then (with_active i None, Ok tt) else (i, Err PsTooManyOpen)
  end.

Section ceremony.
Context (P : Primitives) (Q : PairingPrimitives).

Definition begin_offer (i : Inner) (own_device : DeviceId) (group : GroupId) (endpoint : bytes) (now_ms : N)
  (secret : bytes) (nonce : option Nonce) : Inner * result PairingStateError PairingOffer :=
  match ensure_capacity i now_ms with
  | (i, Err e) => (i, Err e)
  | (i, Ok _) =>
      match offer Q own_device group endpoint now_ms (in_nonces i) secret nonce with
      | (n, Err e) => (with_nonces i n, Err (PsSession e))
      | (n, Ok (session, o)) => (with_active (with_nonces i n) (Some (mkActive session Initiator now_ms None false false)), Ok o)
      end
  end.

Definition begin_accept (i : Inner) (own_device : DeviceId) (o : PairingOffer) (now_ms : N) (secret : bytes)
  : Inner * result PairingStateError (list bytes) :=
  match ensure_capacity i now_ms with
  | (i, Err e) => (i, Err e)
  | (i, Ok _) =>
      match accept Q own_device o now_ms (in_nonces i) secret with
      | (n, Err e) => (with_nonces i n, Err (PsSession e))
      | (n, Ok (session, own_public)) =>
          match session_sas_words Q session with
          | Err e => (with_nonces i n, Err (PsSession e))
          | Ok sas => (with_active (with_nonces i n) (Some (mkActive session Joiner now_ms (Some own_public) false false)), Ok sas)
          end
      end
  end.

Definition state_confirm_local (i : Inner) (now_ms : N) (own_device : bool) : Inner * result PairingStateError (list bytes) :=
  match active_mut i now_ms with
  | (i, Err e) => (i, Err e)
  | (i, Ok a) =>
      match confirm_local (ac_session a) with
      | (_, Err e) => (i, Err (PsSession e))
      | (s, Ok _) =>
          let a := mkActive s (ac_role a) (ac_opened_at_ms a) (ac_own_public a) own_device (ac_peer_own_answer a) in
          (with_active i (Some a), map_err PsSession (session_sas_words Q s))
      end
  end.

Definition joiner_public_key (i : Inner) (now_ms : N) : Inner * result PairingStateError bytes :=
  match active_mut i now_ms with
  | (i, Err e) => (i, Err e)
  | (i, Ok a) => (i, if bool_decide (ac_role a = Joiner) then ok_or (ac_own_public a) NotActive else Err WrongRole)
  end.

Definition complete_as_initiator (i : Inner) (peer_device : DeviceId) (peer_public : bytes) (now_ms : N) : Inner * result PairingStateError unit :=
  match active_mut i now_ms with
  | (i, Err e) => (i, Err e)
  | (i, Ok a) =>
      if negb (bool_decide (ac_role a = Initiator)) then (i, Err WrongRole)
      else
        let '(n, s, r) := complete Q (ac_session a) peer_device peer_public now_ms (in_nonces i) in
        (with_active (with_nonces i n) (Some (with_session a s)), map_err PsSession r)
  end.

Definition mark_remote_confirmed (i : Inner) (now_ms : N) (peer_own : bool) : Inner * result PairingStateError unit :=
  match active_mut i now_ms with
  | (i, Err e) => (i, Err e)
  | (i, Ok a) =>
      match confirm_remote (ac_session a) with
      | (_, Err e) => (i, Err (PsSession e))
      | (s, Ok _) => (with_active i (Some (mkActive s (ac_role a) (ac_opened_at_ms a) (ac_own_public a) (ac_own_answer a) peer_own)), Ok tt)
      end
  end.

(** ** pairing_group_key.rs *)

Definition INITIAL_GROUP_EPOCH : N := 0.

(** [ks]: the key store answers. [random]: fresh bytes, [None] when the system gave none. *)
Definition fetch_or_mint_group_key (keys : KeyStore) (ks : bool) (epoch : N) (random : option bytes) : KeyStore * result PairingStateError bytes :=
  if negb ks then (keys, Err PsKeyStore)
  else
    match keys !! epoch with
    | Some secret => (keys, if Nat.eqb (length secret) KEY_BYTES then Ok secret else Err (CorruptGroupKey (length secret)))
    | None =>
        if negb (epoch =? INITIAL_GROUP_EPOCH) then (keys, Err (MissingGroupKey epoch))
        else let bs := default (replicate KEY_BYTES xa5) random in (<[epoch := bs]> keys, Ok bs)
    end.

Definition try_finalize_initiator (i : Inner) (keys : KeyStore) (ks : bool) (own_static_public : bytes) (epoch now_ms : N)
  (random nonce : option bytes) : Inner * KeyStore * result PairingStateError (option (bytes * bool)) :=
  match active_mut i now_ms with
  | (i, Err e) => (i, keys, Err e)
  | (i, Ok a) =>
      let mutual := ac_own_answer a && ac_peer_own_answer a in
      if negb (bool_decide (ac_role a = Initiator) && is_ready_to_send_key (ac_session a)) then (i, keys, Ok None)
      else
        match fetch_or_mint_group_key keys ks epoch random with
        | (keys, Err e) => (i, keys, Err e)
        | (keys, Ok group_key) =>
            match wrap_grant P Q (ac_session a) (mkGrant group_key own_static_public (ac_own_answer a) epoch) nonce with
            | Err e => (i, keys, Err (PsSession e))
            | Ok sealed =>
                let cached := (λ d, mkFinalized d (ps_nonce (ac_session a)) sealed mutual) <$> ps_peer_device (ac_session a) in
                (mkInner (in_nonces i) None cached, keys, Ok (Some (sealed, mutual)))
            end
        end
  end.

Definition cached_grant (i : Inner) (d : DeviceId) (nonce : Nonce) : option (bytes * bool) :=
  f ← in_finalized i;
  if bool_decide (fg_device f = d) && bool_decide (fg_nonce f = nonce) then Some (fg_sealed f, fg_mutual f) else None.

Record JoinerGrant := mkJoinerGrant { jg_group_key : bytes; jg_epoch : N; jg_peer : DeviceId; jg_peer_static : bytes; jg_own : bool }.

Definition preview_group_key (i : Inner) (sealed : bytes) (now_ms : N) : Inner * result PairingStateError JoinerGrant :=
  match active_mut i now_ms with
  | (i, Err e) => (i, Err e)
  | (i, Ok a) =>
      (i,
       if negb (bool_decide (ac_role a = Joiner)) then Err WrongRole
       else if negb (is_ready_to_send_key (ac_session a)) then Err (PsSession NotConfirmed)
       else
         g ← map_err PsSession (unwrap_grant P Q (ac_session a) sealed);
         peer ← ok_or (ps_peer_device (ac_session a)) NotActive;
         Ok (mkJoinerGrant (pg_group_key g) (pg_epoch g) peer (pg_static_public g) (pg_own_device g && ac_own_answer a)))
  end.

Definition commit_group_key (i : Inner) (keys : KeyStore) (ks : bool) (group_key : bytes) (epoch now_ms : N)
  : Inner * KeyStore * result PairingStateError unit :=
  match active_mut i now_ms with
  | (i, Err e) => (i, keys, Err e)
  | (i, Ok _) => if negb ks then (i, keys, Err PsKeyStore) else (with_active i None, <[epoch := group_key]> keys, Ok tt)
  end.

Definition snapshot (i : Inner) (now_ms : N) : Inner * result PairingStateError ActiveSnapshot :=
  match active_mut i now_ms with
  | (i, Err e) => (i, Err e)
  | (i, Ok a) =>
      let s := ac_session a in
      (i, Ok (mkSnapshot (ac_role a) (ps_group s) (ps_nonce s) (is_handshaken s) (ps_peer_device s)))
  end.

Definition sas_if_ready (i : Inner) (now_ms : N) : Inner * result PairingStateError (option (list bytes)) :=
  match active_mut i now_ms with
  | (i, Err e) => (i, Err e)
  | (i, Ok a) =>
      (i,
       if negb (bool_decide (ac_role a = Initiator)) then Err WrongRole
       else if negb (is_handshaken (ac_session a)) then Ok None
       else Some <$> map_err PsSession (session_sas_words Q (ac_session a)))
  end.

Definition joiner_local_confirmed (i : Inner) (now_ms : N) : Inner * result PairingStateError (bool * bool) :=
  match active_mut i now_ms with
  | (i, Err e) => (i, Err e)
  | (i, Ok a) => (i, Ok (ps_local_confirmed (ac_session a), ac_own_answer a))
  end.

(** ** The daemon: its identity and its pairing. *)

Record Daemon := mkDaemon { dm_identity : DeviceIdentity; dm_pairing : Inner }.

Definition device_static_public (d : DeviceIdentity) : bytes := x25519_public Q (di_static d).

(** ** pairing_adopt.rs *)

(** [db]: which statements of the identity database are answered. What was written before one that is
    not stays written. *)
Definition adopt_group_key (d : Daemon) (group : GroupId) (sealed : bytes) (now_ms : N) (ks : bool) (db : nat → bool)
  : Daemon * result PairingStateError unit :=
  let me := dm_identity d in
  match preview_group_key (dm_pairing d) sealed now_ms with
  | (i, Err e) => (mkDaemon me i, Err e)
  | (i, Ok g) =>
      if negb (db 0%nat) then (mkDaemon me i, Err PsStore)
      else
      let st := meta_set (di_store me) GROUP_ID_KEY (to_be_bytes 16 group) in
      if negb (db 1%nat) then (mkDaemon (with_store me st) i, Err PsStore)
      else
      let st := meta_set st GROUP_EPOCH_KEY (to_be_bytes 4 (jg_epoch g)) in
      if negb (db 2%nat) then (mkDaemon (with_store me st) i, Err PsStore)
      else
      let st := register_device_as st (mkNewDevice (jg_peer g) [] (jg_peer_static g) now_ms None (jg_epoch g)) (jg_own g) in
      let me := with_store me st in
      match commit_group_key i (di_keys me) ks (jg_group_key g) (jg_epoch g) now_ms with
      | (i, keys, Err e) => (mkDaemon (with_keys me keys) i, Err e)
      | (i, keys, Ok _) => (mkDaemon (set_group_epoch (Identity.set_group (with_keys me keys) group) (jg_epoch g)) i, Ok tt)
      end
  end.

(** ** pairing_register.rs *)

Definition register_paired_device (me : DeviceIdentity) (d : DeviceId) (static_public : bytes) (now_ms : N) (own : bool) : DeviceIdentity :=
  with_store me (register_device_as (di_store me) (mkNewDevice d [] static_public now_ms None (di_group_epoch me)) own).

(** ** pairing_lan.rs *)

Definition finalize_or_pending (d : Daemon) (dev : DeviceId) (static_public : bytes) (now_ms : N) (ks : bool) (random nonce : option bytes)
  : Daemon * InitiatorReply :=
  let me := dm_identity d in
  match try_finalize_initiator (dm_pairing d) (di_keys me) ks (device_static_public me) (di_group_epoch me) now_ms random nonce with
  | (i, keys, Ok (Some (sealed, own))) => (mkDaemon (register_paired_device (with_keys me keys) dev static_public now_ms own) i, Grant sealed)
  | (i, keys, _) => (mkDaemon (with_keys me keys) i, Pending)
  end.

Definition process_hello (d : Daemon) (hello : JoinerHello) (now_ms : N) (ks : bool) (random nonce : option bytes) : Daemon * InitiatorReply :=
  match cached_grant (dm_pairing d) (jh_device hello) (jh_nonce hello) with
  | Some (sealed, own) =>
      (mkDaemon (register_paired_device (dm_identity d) (jh_device hello) (jh_static_public hello) now_ms own) (dm_pairing d), Grant sealed)
  | None =>
      match snapshot (dm_pairing d) now_ms with
      | (i, Err _) => (mkDaemon (dm_identity d) i, Rejected)
      | (i, Ok s) =>
          if negb (bool_decide (as_role s = Initiator)) || negb (as_group s =? jh_group hello) || negb (bool_decide (as_nonce s = jh_nonce hello))
          then (mkDaemon (dm_identity d) i, Rejected)
          else
            let '(i, refused) :=
              if as_is_handshaken s then (i, negb (bool_decide (as_peer_device s = Some (jh_device hello))))
              else match complete_as_initiator i (jh_device hello) (jh_public_key hello) now_ms with (i, Err _) => (i, true) | (i, Ok _) => (i, false) end in
            if refused then (mkDaemon (dm_identity d) i, Rejected)
            else
              let i := if jh_confirmed hello then fst (mark_remote_confirmed i now_ms (jh_own_device hello)) else i in
              finalize_or_pending (mkDaemon (dm_identity d) i) (jh_device hello) (jh_static_public hello) now_ms ks random nonce
      end
  end.

Definition build_hello (d : Daemon) (o : PairingOffer) (own_public : bytes) (now_ms : N) : Daemon * JoinerHello :=
  let '(i, r) := joiner_local_confirmed (dm_pairing d) now_ms in
  let '(confirmed, own) := match r with Ok co => co | Err _ => (false, false) end in
  (mkDaemon (dm_identity d) i,
   mkHello (di_device (dm_identity d)) (po_group o) (po_nonce o) own_public (device_static_public (dm_identity d)) confirmed own).

Definition record_offer_relay_reachability (me : DeviceIdentity) (o : PairingOffer) : DeviceIdentity :=
  match po_relay_node_id o, po_relay_url o with
  | Some node, Some url => with_store me (fst (set_relay_reachability (di_store me) (po_device o) node url))
  | _, _ => me
  end.

Definition finish_joiner (d : Daemon) (o : PairingOffer) (sealed : bytes) (now_ms : N) (ks : bool) (db : nat → bool) : Daemon :=
  let d := mkDaemon (dm_identity d) (fst (mark_remote_confirmed (dm_pairing d) now_ms false)) in
  match adopt_group_key d (po_group o) sealed now_ms ks db with
  | (d, Ok _) => mkDaemon (record_offer_relay_reachability (dm_identity d) o) (dm_pairing d)
  | (d, Err _) => d
  end.

(** [pairing_relay_dial.rs]: what a round's reply does to the joiner, and whether its loop stops. *)
Definition on_reply (d : Daemon) (o : PairingOffer) (reply : option InitiatorReply) (now_ms : N) (ks : bool) (db : nat → bool) : Daemon * bool :=
  match reply with
  | Some (Grant sealed) => (finish_joiner d o sealed now_ms ks db, true)
  | Some Rejected => (d, true)
  | Some Pending | None => (d, false)
  end.
End ceremony.

(** ** Two daemons, two humans and a link *)

(** What a move finds: both clocks, whether the key stores and the joiner's identity database answer, fresh
    bytes. *)
Record Tick := mkTick { tk_a : N; tk_b : N; tk_ks_a : bool; tk_ks_b : bool; tk_db_b : nat → bool; tk_random : option bytes; tk_nonce : option bytes }.

(** A human confirms the words, saying whether the other device is its own; the joiner sends a hello, and
    the reply arrives or is lost. *)
Inductive Move := HumanA (own : bool) | HumanB (own : bool) | Round (delivered : bool).

(** The confirmations a daemon took. *)
Inductive Said := ASaid (own : bool) | BSaid (own : bool).

Record Ceremony := mkCeremony { cy_a : Daemon; cy_b : Daemon; cy_looping : bool }.

Section system.
Context (P : Primitives) (Q : PairingPrimitives).
Context (o : PairingOffer) (own_public : bytes).

Definition ceremony_step (c : Ceremony) (tm : Tick * Move) : Ceremony * list Said :=
  let '(t, m) := tm in
  match m with
  | HumanA own =>
      let '(i, r) := state_confirm_local Q (dm_pairing (cy_a c)) (tk_a t) own in
      (mkCeremony (mkDaemon (dm_identity (cy_a c)) i) (cy_b c) (cy_looping c), if is_ok r then [ASaid own] else [])
  | HumanB own =>
      let '(i, r) := state_confirm_local Q (dm_pairing (cy_b c)) (tk_b t) own in
      (mkCeremony (cy_a c) (mkDaemon (dm_identity (cy_b c)) i) (cy_looping c), if is_ok r then [BSaid own] else [])
  | Round delivered =>
      if negb (cy_looping c) then (c, [])
      else
        let '(b, hello) := build_hello Q (cy_b c) o own_public (tk_b t) in
        let '(a, reply) := process_hello P Q (cy_a c) hello (tk_a t) (tk_ks_a t) (tk_random t) (tk_nonce t) in
        let '(b, stop) := on_reply P Q b o (if delivered then Some reply else None) (tk_b t) (tk_ks_b t) (tk_db_b t) in
        (mkCeremony a b (negb stop), [])
  end.

Fixpoint ceremony_run (c : Ceremony) (tms : list (Tick * Move)) : Ceremony * list Said :=
  match tms with
  | [] => (c, [])
  | tm :: tms' =>
      let '(c', said) := ceremony_step c tm in
      let '(c'', said') := ceremony_run c' tms' in
      (c'', said ++ said')
  end.
End system.

(** Paired: one group, one epoch, one key; each has the other's row, active, with its key; and each calls
    the other its own only if both humans did. *)
Definition paired (Q : PairingPrimitives) (a b : DeviceIdentity) (own : bool) : Prop :=
  di_group b = di_group a ∧ di_group_epoch b = di_group_epoch a
  ∧ (∃ key, di_keys a !! di_group_epoch a = Some key ∧ di_keys b !! di_group_epoch b = Some key ∧ length key = KEY_BYTES)
  ∧ (∃ r, is_devices (di_store a) !! di_device b = Some (r, own) ∧ dr_removed_at_ms r = None ∧ dr_static_public r = device_static_public Q b
       ∧ dr_key_epoch r = di_group_epoch a)
  ∧ (∃ r, is_devices (di_store b) !! di_device a = Some (r, own) ∧ dr_removed_at_ms r = None ∧ dr_static_public r = device_static_public Q a
       ∧ dr_key_epoch r = di_group_epoch a).

Section ceremony_proof.
Context (P : Primitives) (Q : PairingPrimitives) {HP : PrimitiveLaws P} {HQ : PairingLaws P Q}.
Context (a0 b0 : DeviceIdentity) (o : PairingOffer) (ka pub_b : bytes) (h : Handshake) (ta tb : N).
Context (Hne : di_device a0 ≠ di_device b0) (Hepoch : di_group_epoch a0 < 2 ^ 32).
Context (Ho_device : po_device o = di_device a0) (Ho_group : po_group o = di_group a0) (Ho_key : po_public_key o = x25519_public Q ka).

Context (Hgive : match di_keys a0 !! di_group_epoch a0 with Some k => length k = KEY_BYTES | None => di_group_epoch a0 = 0 end).

Abbreviation n := (po_nonce o).
Abbreviation g := (di_group a0).
Abbreviation epoch := (di_group_epoch a0).
Abbreviation dev_a := (di_device a0).
Abbreviation dev_b := (di_device b0).
Abbreviation pub_a := (x25519_public Q ka).

Definition initial_a : PairingSession := mkPairing dev_a g n (Some ka) pub_a None None false false 0 false.
Definition shaken_a (la ra : bool) : PairingSession := mkPairing dev_a g n None pub_a (Some dev_b) (Some h) la ra 0 false.
Definition shaken_b (lb rb : bool) : PairingSession := mkPairing dev_b g n None pub_b (Some dev_a) (Some h) lb rb 0 false.

Context (Hh : h = mkHandshake (transcript PROTOCOL_VERSION (mkParty dev_a pub_a) (mkParty dev_b pub_b) g) (diffie_hellman Q ka pub_b)).

(** The joiner's key store and database answer. *)
Definition b_answers (t : Tick) : Prop := tk_ks_b t = true ∧ ∀ i, tk_db_b t i = true.

(** Do they every time? *)
Context (steady : bool).

Definition tick_ok (t : Tick) : Prop :=
  (steady = true → b_answers t) ∧ tk_a t - ta <= PAIRING_WINDOW_MS ∧ tk_b t - tb <= PAIRING_WINDOW_MS
  ∧ (∀ r, tk_random t = Some r → length r = KEY_BYTES) ∧ (∀ r, tk_nonce t = Some r → length r = WRAP_NONCE_BYTES).

(** The initiator has, or may mint, the key of its epoch. *)
Definition can_give (keys : KeyStore) : Prop :=
  match keys !! epoch with Some k => length k = KEY_BYTES | None => epoch = 0 end.

Record same_identity (x y : DeviceIdentity) : Prop := {
  si_device : di_device y = di_device x;
  si_static : di_static y = di_static x;
  si_group : di_group y = di_group x;
  si_epoch : di_group_epoch y = di_group_epoch x
}.

Definition row_of (me : DeviceIdentity) (d : DeviceId) (static : bytes) (own : bool) : Prop :=
  ∃ r, is_devices (di_store me) !! d = Some (r, own) ∧ dr_removed_at_ms r = None ∧ dr_static_public r = static ∧ dr_key_epoch r = epoch.

(** The initiator: not yet handshaken; handshaken; or done, its grant kept. *)
Inductive a_phase (said : list Said) (d : Daemon) : option (bytes * bytes * bool * bool) → Prop :=
| phase_offered :
    dm_identity d = a0 →
    in_active (dm_pairing d) = Some (mkActive initial_a Initiator ta None false false) →
    cached_grant (dm_pairing d) dev_b n = None →
    nr_open (in_nonces (dm_pairing d)) !! n = Some ta → nr_consumed (in_nonces (dm_pairing d)) !! n = None →
    (∀ own, ASaid own ∉ said) →
    a_phase said d None
| phase_shaken la ra oa pa :
    same_identity a0 (dm_identity d) → can_give (di_keys (dm_identity d)) →
    in_active (dm_pairing d) = Some (mkActive (shaken_a la ra) Initiator ta None oa pa) →
    cached_grant (dm_pairing d) dev_b n = None →
    (if la then ASaid oa ∈ said else ∀ own, ASaid own ∉ said) → (ra = true → BSaid pa ∈ said) →
    (dm_identity d = a0 ∨ la = true ∧ ra = true) →
    a_phase said d None
| phase_done sealed key oa pa :
    same_identity a0 (dm_identity d) → di_keys (dm_identity d) !! epoch = Some key → length key = KEY_BYTES →
    in_active (dm_pairing d) = None →
    in_finalized (dm_pairing d) = Some (mkFinalized dev_b n sealed (oa && pa)) →
    unwrap_grant P Q (shaken_b true true) sealed = Ok (mkGrant key (x25519_public Q (di_static a0)) oa epoch) →
    row_of (dm_identity d) dev_b (x25519_public Q (di_static b0)) (oa && pa) →
    ASaid oa ∈ said → BSaid pa ∈ said →
    a_phase said d (Some (sealed, key, oa, pa)).

(** The joiner: confirming; or done, with what the initiator gave; or stopped by its key store or its
    database, with the group it was given perhaps on record and not in use. *)
Inductive b_phase (said : list Said) (given : option (bytes * bytes * bool * bool)) (d : Daemon) : bool → Prop :=
| phase_joining lb rb ob :
    dm_identity d = b0 →
    in_active (dm_pairing d) = Some (mkActive (shaken_b lb rb) Joiner tb (Some pub_b) ob false) →
    (if lb then BSaid ob ∈ said else ∀ own, BSaid own ∉ said) →
    b_phase said given d true
| phase_joined sealed key oa pa ob :
    given = Some (sealed, key, oa, pa) →
    in_active (dm_pairing d) = None →
    di_device (dm_identity d) = dev_b → di_static (dm_identity d) = di_static b0 →
    di_group (dm_identity d) = g → di_group_epoch (dm_identity d) = epoch → di_keys (dm_identity d) !! epoch = Some key →
    row_of (dm_identity d) dev_a (x25519_public Q (di_static a0)) (oa && ob) → BSaid ob ∈ said →
    b_phase said given d false
| phase_stopped x lb rb ob :
    given = Some x → steady = false →
    same_identity b0 (dm_identity d) → di_keys (dm_identity d) = di_keys b0 →
    in_active (dm_pairing d) = Some (mkActive (shaken_b lb rb) Joiner tb (Some pub_b) ob false) →
    b_phase said given d false.

Lemma not_expired a now : now - ac_opened_at_ms a <= PAIRING_WINDOW_MS → expired a now = false.
Proof. intros H. unfold expired. apply N.ltb_ge. done. Qed.

Lemma active_mut_live i a now : in_active i = Some a → now - ac_opened_at_ms a <= PAIRING_WINDOW_MS → active_mut i now = (i, Ok a).
Proof. intros Ha Hw. unfold active_mut. by rewrite Ha, not_expired. Qed.

Lemma sas_ok s x : ps_closed s = false → ps_handshake s = Some x → is_ok (map_err PsSession (session_sas_words Q s)) = true.
Proof.
  intros Hc Hs. unfold session_sas_words, sas_words, expand. rewrite Hc, Hs. cbn [ok_or mbind result_bind].
  destruct (hkdf_length (P := P) (hs_transcript x) (hs_shared_secret x) SAS_INFO (SAS_WORD_COUNT * 4)) as (okm & -> & _); [vm_compute; lia|done].
Qed.

Lemma said_snoc_a (said : list Said) own own' : ASaid own ∈ said ++ [BSaid own'] ↔ ASaid own ∈ said.
Proof. rewrite elem_of_app, list_elem_of_singleton. split; [by intros [?|?]|by left]. Qed.

Lemma said_snoc_b (said : list Said) own own' : BSaid own ∈ said ++ [ASaid own'] ↔ BSaid own ∈ said.
Proof. rewrite elem_of_app, list_elem_of_singleton. split; [by intros [?|?]|by left]. Qed.

(** ** A human speaks *)

Lemma a_speaks said d given now own i r :
  a_phase said d given → now - ta <= PAIRING_WINDOW_MS → state_confirm_local Q (dm_pairing d) now own = (i, r) →
  a_phase (said ++ if is_ok r then [ASaid own] else []) (mkDaemon (dm_identity d) i) given.
Proof.
  intros Ha Hw H. unfold state_confirm_local in H. destruct Ha as [Hid Hact Hc Hop Hco Hn|la ra oa pa Hid Hk Hact Hc Hl Hr Hsame|sealed key oa pa Hid Hk Hkl Hact Hf Hu Hrow Hsa Hsb].
  - rewrite (active_mut_live _ _ _ Hact) in H by done. cbn in H. injection H as <- <-. cbn [is_ok]. rewrite app_nil_r. by eapply phase_offered.
  - rewrite (active_mut_live _ _ _ Hact) in H by done. cbn [confirm_local ac_session shaken_a ps_closed ps_handshake] in H. injection H as <- <-.
    rewrite (sas_ok _ h) by done. eapply (phase_shaken _ _ true ra own pa); try done.
    + apply elem_of_app. right. left.
    + intros ->. apply said_snoc_b. by apply Hr.
    + destruct Hsame as [?|[_ ?]]; [by left|by right].
  - unfold active_mut in H. rewrite Hact in H. injection H as <- <-. cbn [is_ok]. rewrite app_nil_r. by eapply phase_done.
Qed.

Lemma b_speaks said given d looping now own i r :
  b_phase said given d looping → now - tb <= PAIRING_WINDOW_MS → state_confirm_local Q (dm_pairing d) now own = (i, r) →
  b_phase (said ++ if is_ok r then [BSaid own] else []) given (mkDaemon (dm_identity d) i) looping.
Proof.
  intros Hb Hw H. unfold state_confirm_local in H. destruct Hb as [lb rb ob Hid Hact Hl|sealed key oa pa ob Hg Hact Hd Hst Hgr Hep Hkey Hrow Hsb|x lb rb ob Hx Hst Hid Hk Hact].
  - rewrite (active_mut_live _ _ _ Hact) in H by done. cbn [confirm_local ac_session shaken_b ps_closed ps_handshake] in H. injection H as <- <-.
    rewrite (sas_ok _ h) by done. eapply (phase_joining _ _ _ true rb own); try done. apply elem_of_app. right. left.
  - unfold active_mut in H. rewrite Hact in H. injection H as <- <-. cbn [is_ok]. rewrite app_nil_r. by eapply phase_joined.
  - rewrite (active_mut_live _ _ _ Hact) in H by done. cbn [confirm_local ac_session shaken_b ps_closed ps_handshake] in H. injection H as <- <-.
    by eapply (phase_stopped _ _ _ _ true rb own).
Qed.

(** What one side's human says is nothing to the other side. *)
Lemma a_hears said d given own : a_phase said d given → a_phase (said ++ [BSaid own]) d given.
Proof.
  intros [Hid Hact Hc Hop Hco Hn|la ra oa pa Hid Hk Hact Hc Hl Hr Hsame|sealed key oa pa Hid Hk Hkl Hact Hf Hu Hrow Hsa Hsb].
  - eapply phase_offered; try done. intros own'. by rewrite said_snoc_a.
  - eapply phase_shaken; try done; [destruct la; [by apply said_snoc_a|intros own'; by rewrite said_snoc_a]|intros E; apply elem_of_app; left; by apply Hr].
  - eapply phase_done; try done; [by apply said_snoc_a|apply elem_of_app; by left].
Qed.

Lemma b_hears said given d looping own : b_phase said given d looping → b_phase (said ++ [ASaid own]) given d looping.
Proof.
  intros [lb rb ob Hid Hact Hl|sealed key oa pa ob Hg Hact Hd Hst Hgr Hep Hkey Hrow Hsb|x lb rb ob Hx Hst Hid Hk Hact].
  - eapply phase_joining; try done. destruct lb; [by apply said_snoc_b|intros own'; by rewrite said_snoc_b].
  - eapply phase_joined; try done. by apply said_snoc_b.
  - by eapply phase_stopped.
Qed.

(** ** A round *)

Lemma register_row me d static now own :
  di_group_epoch me = epoch → row_of (register_paired_device me d static now own) d static own.
Proof. intros He. eexists. split; [apply lookup_insert_eq|]. cbn. by rewrite He. Qed.

(** The key of the epoch, there or minted. *)
Lemma key_given keys random :
  can_give keys → (∀ r, random = Some r → length r = KEY_BYTES) →
  ∃ keys' key, fetch_or_mint_group_key keys true epoch random = (keys', Ok key) ∧ keys' !! epoch = Some key ∧ length key = KEY_BYTES.
Proof.
  intros Hk Hr. unfold can_give in Hk. unfold fetch_or_mint_group_key. cbn [negb]. destruct (keys !! epoch) as [key|] eqn:E.
  - exists keys, key. by rewrite Hk.
  - rewrite Hk. cbn [N.eqb INITIAL_GROUP_EPOCH negb]. do 2 eexists. split; [reflexivity|]. split; [apply lookup_insert_eq|].
    destruct random; cbn [default]; [by apply Hr|reflexivity].
Qed.

(** The initiator's own session, once both confirmed, gives the grant; else it waits. *)
Lemma finalize_shaken said d la ra oa pa now ks random nonce d' reply :
  same_identity a0 (dm_identity d) → can_give (di_keys (dm_identity d)) →
  in_active (dm_pairing d) = Some (mkActive (shaken_a la ra) Initiator ta None oa pa) →
  cached_grant (dm_pairing d) dev_b n = None →
  (if la then ASaid oa ∈ said else ∀ own, ASaid own ∉ said) → (ra = true → BSaid pa ∈ said) →
  (dm_identity d = a0 ∨ la = true ∧ ra = true) →
  now - ta <= PAIRING_WINDOW_MS → (∀ r, random = Some r → length r = KEY_BYTES) → (∀ r, nonce = Some r → length r = WRAP_NONCE_BYTES) →
  finalize_or_pending P Q d dev_b (x25519_public Q (di_static b0)) now ks random nonce = (d', reply) →
  ∃ given, a_phase said d' given ∧ reply = match given with Some (sealed, _, _, _) => Grant sealed | None => Pending end
    ∧ (la = true → ra = true → ks = true → is_Some nonce → is_Some given).
Proof.
  intros Hid Hk Hact Hc Hl Hr Hsame Hw Hrandom Hnonce H. unfold finalize_or_pending, try_finalize_initiator in H.
  rewrite (active_mut_live _ _ _ Hact) in H by done. cbn [ac_role ac_session ac_own_answer ac_peer_own_answer] in H.
  rewrite bool_decide_eq_true_2 in H by done. cbn [andb] in H.
  assert (dm_identity d = with_keys (dm_identity d) (di_keys (dm_identity d))) as Hsk by (by destruct d as [[] ?]).
  destruct (is_ready_to_send_key (shaken_a la ra)) eqn:R; cbn [negb] in H.
  2:{ injection H as <- <-. exists None. split_and!; [|done|intros -> ->; done]. rewrite <- Hsk. by eapply phase_shaken. }
  unfold is_ready_to_send_key, shaken_a in R. cbn in R. rewrite andb_true_r in R. apply andb_true_iff in R as [-> ->].
  destruct ks.
  2:{ cbn [fetch_or_mint_group_key negb] in H. injection H as <- <-. exists None. split_and!; [|done|done]. rewrite <- Hsk. by eapply phase_shaken. }
  rewrite (si_epoch _ _ Hid) in H. destruct (key_given _ _ Hk Hrandom) as (keys' & key & Hf & Hkey & Hlen). rewrite Hf in H.
  set (grant := mkGrant key (device_static_public Q (dm_identity d)) oa epoch) in H.
  assert (same_identity a0 (with_keys (dm_identity d) keys')) as Hid' by (by destruct Hid).
  destruct nonce as [nonce|].
  2:{ assert (∃ e, wrap_grant P Q (shaken_a true true) grant None = Err e) as [e Hwrap].
      { unfold wrap_grant, wrap_group_key. destruct (grant_postcard Q grant); [|by eexists]. cbn [ok_or mbind result_bind shaken_a ps_closed].
        unfold is_ready_to_send_key. cbn [shaken_a ps_local_confirmed ps_remote_confirmed ps_closed andb negb ps_handshake ok_or mbind result_bind].
        unfold pair_key, expand. destruct (hkdf_expand _ _ _ _ _); by eexists. }
      rewrite Hwrap in H. injection H as <- <-. exists None. split_and!; [|done|by intros _ _ _ [? ?]].
      eapply phase_shaken; try done; [cbn; unfold can_give; by rewrite Hkey|by right]. }
  assert (grant_wf grant) as Hg by (split_and!; [done|apply (public_length (P := P))|done]).
  destruct (wrap_unwrap_grant P Q (shaken_a true true) (shaken_b true true) h grant nonce) as (sealed & Hwrap & Hunwrap); try done; [by apply Hnonce|].
  rewrite Hwrap in H. cbn [ps_peer_device shaken_a fmap option_fmap option_map ps_nonce] in H. injection H as <- <-.
  exists (Some (sealed, key, oa, pa)). split_and!; [|done|done].
  eapply phase_done; try done; [by destruct Hid'| |apply register_row; apply (si_epoch _ _ Hid)|by apply Hr].
  rewrite Hunwrap. unfold grant, device_static_public. by rewrite (si_static _ _ Hid).
Qed.

(** The joiner's hello: that its human confirmed, with the answer. *)
Definition hello_of (confirmed own : bool) : JoinerHello := mkHello dev_b g n pub_b (x25519_public Q (di_static b0)) confirmed own.

Lemma hear_shaken said me i la ra oa pa confirmed own now ks random nonce d' reply :
  same_identity a0 me → can_give (di_keys me) →
  in_active i = Some (mkActive (shaken_a la ra) Initiator ta None oa pa) →
  cached_grant i dev_b n = None →
  (if la then ASaid oa ∈ said else ∀ own, ASaid own ∉ said) → (ra = true → BSaid pa ∈ said) →
  (me = a0 ∨ la = true ∧ ra = true) → (confirmed = true → BSaid own ∈ said) →
  now - ta <= PAIRING_WINDOW_MS → (∀ r, random = Some r → length r = KEY_BYTES) → (∀ r, nonce = Some r → length r = WRAP_NONCE_BYTES) →
  finalize_or_pending P Q (mkDaemon me (if confirmed then fst (mark_remote_confirmed i now own) else i))
    dev_b (x25519_public Q (di_static b0)) now ks random nonce = (d', reply) →
  ∃ given, a_phase said d' given ∧ reply = match given with Some (sealed, _, _, _) => Grant sealed | None => Pending end
    ∧ (confirmed = true → (∃ own, ASaid own ∈ said) → ks = true → is_Some nonce → is_Some given).
Proof.
  intros Hid Hk Hact Hc Hl Hr Hsame Hconf Hw Hrandom Hnonce H. destruct confirmed.
  - unfold mark_remote_confirmed in H. rewrite (active_mut_live _ _ _ Hact) in H by done. cbn in H.
    eapply (finalize_shaken said _ la true oa own) in H as (given & Ha & Hrep & Hlive); try done; [|destruct Hsame as [?|[? _]]; [by left|by right]].
    exists given. split_and!; [done|done|]. intros _ [own' Hs]. apply Hlive; [|done]. destruct la; [done|by destruct (Hl own')].
  - eapply (finalize_shaken said _ la ra oa pa) in H as (given & Ha & Hrep & _); try done. by exists given.
Qed.

Lemma complete_offered r now :
  nr_open r !! n = Some ta → nr_consumed r !! n = None → now - ta <= PAIRING_WINDOW_MS →
  complete Q initial_a dev_b pub_b now r = (mkNonces (delete n (nr_open r)) (<[n := now]> (nr_consumed r)), shaken_a false false, Ok tt).
Proof.
  intros Hop Hco Hw. unfold complete, consume. cbn [initial_a ps_closed ps_nonce]. rewrite Hop, Hco, bool_decide_eq_false_2 by (by intros [? ?]).
  assert ((PAIRING_WINDOW_MS <? now - ta) = false) as -> by (by apply N.ltb_ge). unfold shaken_a. by rewrite Hh.
Qed.

Lemma a_answers said d given confirmed own now ks random nonce d' reply :
  a_phase said d given → (confirmed = true → BSaid own ∈ said) →
  now - ta <= PAIRING_WINDOW_MS → (∀ r, random = Some r → length r = KEY_BYTES) → (∀ r, nonce = Some r → length r = WRAP_NONCE_BYTES) →
  process_hello P Q d (hello_of confirmed own) now ks random nonce = (d', reply) →
  ∃ given', a_phase said d' given' ∧ (is_Some given → given' = given)
    ∧ reply = match given' with Some (sealed, _, _, _) => Grant sealed | None => Pending end
    ∧ (confirmed = true → (∃ own, ASaid own ∈ said) → ks = true → is_Some nonce → is_Some given').
Proof.
  intros Ha Hconf Hw Hrandom Hnonce H. unfold process_hello in H. cbn [hello_of jh_device jh_nonce jh_group jh_public_key jh_static_public jh_confirmed jh_own_device] in H.
  destruct Ha as [Hid Hact Hc Hop Hco Hn|la ra oa pa Hid Hk Hact Hc Hl Hr Hsame|sealed key oa pa Hid Hk Hkl Hact Hf Hu Hrow Hsa Hsb].
  - rewrite Hc in H. unfold snapshot in H. rewrite (active_mut_live _ _ _ Hact) in H by done.
    cbn [as_role as_group as_nonce ac_role ac_session initial_a ps_group ps_nonce as_is_handshaken is_handshaken ps_handshake as_peer_device ps_peer_device] in H.
    rewrite N.eqb_refl, (bool_decide_eq_true_2 (Initiator = Initiator)), (bool_decide_eq_true_2 (n = n)) in H by done. cbn [negb orb] in H.
    change (is_handshaken initial_a) with false in H.
    unfold complete_as_initiator in H. rewrite (active_mut_live _ _ _ Hact) in H by done.
    cbn [ac_role ac_session] in H. rewrite bool_decide_eq_true_2 in H by done. cbn [negb] in H.
    rewrite (complete_offered _ _ Hop Hco Hw) in H. cbn [map_err] in H.
    eapply (hear_shaken said _ _ false false false false) in H as (given & Ha & Hrep & Hlive); try done; [exists given; split_and!; [done|by intros [? ?]|done|by intros ? [? ?%Hn]]|by rewrite Hid..|by left].
  - rewrite Hc in H. unfold snapshot in H. rewrite (active_mut_live _ _ _ Hact) in H by done.
    cbn [as_role as_group as_nonce ac_role ac_session shaken_a ps_group ps_nonce as_is_handshaken as_peer_device ps_peer_device] in H.
    rewrite N.eqb_refl, (bool_decide_eq_true_2 (Initiator = Initiator)), (bool_decide_eq_true_2 (n = n)) in H by done. cbn [negb orb] in H.
    change (is_handshaken (shaken_a la ra)) with true in H. cbn match in H. rewrite bool_decide_eq_true_2 in H by done. cbn [negb] in H.
    eapply hear_shaken in H as (given & Ha & Hrep & Hlive); try done. by exists given.
  - unfold cached_grant in H. rewrite Hf in H. cbn [mbind option_bind fg_device fg_nonce fg_sealed fg_mutual] in H.
    rewrite !bool_decide_eq_true_2 in H by done. cbn [andb] in H. injection H as <- <-.
    exists (Some (sealed, key, oa, pa)). split_and!; [|done|done|done]. eapply phase_done; try done; [by destruct Hid|].
    apply register_row. apply (si_epoch _ _ Hid).
Qed.

Lemma b_asks said given d now d' hello :
  b_phase said given d true → now - tb <= PAIRING_WINDOW_MS → build_hello Q d o pub_b now = (d', hello) →
  ∃ confirmed own, d' = d ∧ hello = hello_of confirmed own ∧ (confirmed = true → BSaid own ∈ said) ∧ ((∃ own, BSaid own ∈ said) → confirmed = true).
Proof.
  intros Hb Hw H. inversion Hb as [lb rb ob Hid Hact Hl| |]. unfold build_hello, joiner_local_confirmed in H. rewrite (active_mut_live _ _ _ Hact) in H by done.
  cbn [ac_session ac_own_answer shaken_b ps_local_confirmed] in H. injection H as <- <-. exists lb, ob. split_and!.
  - by destruct d.
  - unfold hello_of, device_static_public. by rewrite Hid, Ho_group.
  - by intros ->.
  - intros [own Hs]. destruct lb; [done|by destruct (Hl own)].
Qed.

Lemma record_row me dv static own : row_of me dv static own → row_of (record_offer_relay_reachability me o) dv static own.
Proof.
  intros (r & Hr & Hrem & Hs & He). unfold record_offer_relay_reachability. destruct (po_relay_node_id o) as [node|], (po_relay_url o) as [url|]; try by exists r.
  unfold row_of, with_store, set_relay_reachability, on_row. cbn [di_store]. destruct (is_devices (di_store me) !! po_device o) as [[r' own']|] eqn:E; cbn; [|by exists r].
  destruct (decide (po_device o = dv)) as [<-|Hne'].
  - rewrite lookup_insert_eq. rewrite E in Hr. injection Hr as -> ->. by eexists.
  - rewrite lookup_insert_ne by done. by exists r.
Qed.

Lemma record_identity me : same_identity me (record_offer_relay_reachability me o) ∧ di_keys (record_offer_relay_reachability me o) = di_keys me.
Proof. unfold record_offer_relay_reachability. by destruct (po_relay_node_id o), (po_relay_url o). Qed.

(** The grant arrives. *)
Lemma b_adopts said a d sealed key oa pa given now ks db :
  a_phase said a (Some (sealed, key, oa, pa)) → b_phase said given d true → now - tb <= PAIRING_WINDOW_MS →
  (steady = true → ks = true ∧ ∀ i, db i = true) →
  b_phase said (Some (sealed, key, oa, pa)) (finish_joiner P Q d o sealed now ks db) false.
Proof.
  intros Ha Hb Hw Hks. inversion Ha as [| |? ? ? ? Hida Hkey Hkl Hacta Hf Hu Hrow Hsa Hsb]; subst. inversion Hb as [lb rb ob Hid Hact Hl| |].
  destruct lb; [|by destruct (Hl pa)]. unfold finish_joiner, mark_remote_confirmed. rewrite (active_mut_live _ _ _ Hact) by done.
  cbn [confirm_remote ac_session shaken_b ps_closed ps_handshake fst]. unfold adopt_group_key, preview_group_key. cbn [dm_pairing dm_identity].
  erewrite active_mut_live; [|reflexivity|done]. cbn [ac_role ac_session ac_own_answer].
  change (set_confirmed (shaken_b true rb) (ps_local_confirmed (shaken_b true rb)) true) with (shaken_b true true).
  rewrite bool_decide_eq_true_2 by done. cbn [negb is_ready_to_send_key shaken_b ps_local_confirmed ps_remote_confirmed ps_closed andb].
  fold (shaken_b true true). rewrite Hu. cbn [map_err mbind result_bind shaken_b ps_peer_device ok_or].
  cbn [pg_group_key pg_epoch pg_static_public pg_own_device jg_epoch jg_peer jg_peer_static jg_own jg_group_key].
  assert (∀ st, (ks = true ∧ ∀ i, db i = true) ∨ steady = false ∧
    ∀ i, in_active i = Some (mkActive (shaken_b true true) Joiner tb (Some pub_b) ob false) →
      b_phase said (Some (sealed, key, oa, pa)) (mkDaemon (with_store (dm_identity d) st) i) false) as Hstop.
  { intros st. destruct steady eqn:Est; [left; by apply Hks|right]. split; [done|]. intros i Hi.
    eapply (phase_stopped said _ _ _ true true ob); cbn [dm_identity dm_pairing]; try done; by rewrite <- Hid. }
  destruct (db 0%nat) eqn:E0; cbn [negb].
  2: { destruct (Hstop (di_store (dm_identity d))) as [[_ Hdb]|[_ Hs]]; [by rewrite Hdb in E0|]. assert (dm_identity d = with_store (dm_identity d) (di_store (dm_identity d))) as Hself by (by destruct (dm_identity d)). rewrite Hself. by apply Hs. }
  destruct (db 1%nat) eqn:E1; cbn [negb].
  2: { destruct (Hstop (meta_set (di_store (dm_identity d)) GROUP_ID_KEY (to_be_bytes 16 (po_group o)))) as [[_ Hdb]|[_ Hs]]; [by rewrite Hdb in E1|]. by apply Hs. }
  destruct (db 2%nat) eqn:E2; cbn [negb].
  2: { match goal with |- b_phase _ _ (mkDaemon (with_store _ ?st) _) _ => destruct (Hstop st) as [[_ Hdb]|[_ Hs]] end; [by rewrite Hdb in E2|]. by apply Hs. }
  unfold commit_group_key. erewrite active_mut_live; [|reflexivity|done]. destruct ks; cbn [negb].
  - cbn [dm_identity dm_pairing]. set (me := set_group_epoch _ _). destruct (record_identity me) as [[Hr1 Hr2 Hr3 Hr4] Hr5].
    eapply (phase_joined said _ _ sealed key oa pa ob); cbn [dm_identity dm_pairing]; try done.
    + by rewrite Hr1, <- Hid.
    + by rewrite Hr2, <- Hid.
    + rewrite Hr3. exact Ho_group.
    + rewrite Hr5. apply lookup_insert_eq.
    + apply record_row. eexists. split; [apply lookup_insert_eq|done].
  - eapply (phase_stopped said _ _ _ true true ob); cbn [dm_identity dm_pairing]; try done.
    + destruct steady; [by destruct (Hks eq_refl)|done].
    + by rewrite <- Hid.
    + by rewrite <- Hid.
Qed.

(** ** A run *)

Definition ceremony_ok (said : list Said) (c : Ceremony) : Prop :=
  ∃ given, a_phase said (cy_a c) given ∧ b_phase said given (cy_b c) (cy_looping c).

Lemma ceremony_step_ok said c t m c' s :
  ceremony_ok said c → tick_ok t → ceremony_step P Q o pub_b c (t, m) = (c', s) → ceremony_ok (said ++ s) c'.
Proof.
  intros (given & Ha & Hb) (Hks & Hwa & Hwb & Hrandom & Hnonce) H. destruct m as [own|own|delivered]; cbn [ceremony_step] in H.
  - destruct (state_confirm_local _ _ _ _) as [i r] eqn:E. injection H as <- <-. exists given. cbn [cy_a cy_b cy_looping]. split; [by eapply a_speaks|].
    destruct (is_ok r); [by apply b_hears|by rewrite app_nil_r].
  - destruct (state_confirm_local _ _ _ _) as [i r] eqn:E. injection H as <- <-. exists given. cbn [cy_a cy_b cy_looping]. split; [|by eapply b_speaks].
    destruct (is_ok r); [by apply a_hears|by rewrite app_nil_r].
  - destruct (cy_looping c) eqn:L; cbn [negb] in H; [|injection H as <- <-; rewrite app_nil_r; exists given; by rewrite L].
    destruct (build_hello _ _ _ _ _) as [b hello] eqn:E. destruct (b_asks _ _ _ _ _ _ Hb Hwb E) as (conf & own & -> & -> & Hconf & _).
    destruct (process_hello _ _ _ _ _ _ _ _) as [a reply] eqn:Eh. destruct (a_answers _ _ _ _ _ _ _ _ _ _ _ Ha Hconf Hwa Hrandom Hnonce Eh) as (given' & Ha' & Hkeep & -> & _).
    destruct (on_reply _ _ _ _ _ _ _) as [b' stop] eqn:Er. injection H as <- <-. rewrite app_nil_r. exists given'. cbn [cy_a cy_b cy_looping]. split; [done|].
    assert (b_phase said given' (cy_b c) true) as Hb' by (inversion Hb; by eapply phase_joining).
    destruct delivered, given' as [[[[sealed key] oa] pa]|]; cbn [on_reply] in Er; injection Er as <- <-; cbn [negb]; try done. by eapply b_adopts.
Qed.

Lemma ceremony_run_ok said c tms c' s :
  ceremony_ok said c → Forall (λ tm, tick_ok (fst tm)) tms → ceremony_run P Q o pub_b c tms = (c', s) → ceremony_ok (said ++ s) c'.
Proof.
  revert said c s. induction tms as [|[t m] tms IH]; intros said c s Hc Ht H; cbn [ceremony_run] in H; [injection H as <- <-; by rewrite app_nil_r|].
  apply Forall_cons in Ht as [Ht Hts]. destruct (ceremony_step _ _ _ _ _ _) as [c1 s1] eqn:E1. destruct (ceremony_run _ _ _ _ _ _) as [c2 s2] eqn:E2.
  injection H as <- <-. rewrite app_assoc. eapply IH; [|done|done]. by eapply ceremony_step_ok.
Qed.

(** Unless both confirmed, nothing has changed but the pairings. *)
Lemma ok_idle said c : ceremony_ok said c → (∀ oa ob, ASaid oa ∈ said → BSaid ob ∈ said → False) →
  dm_identity (cy_a c) = a0 ∧ dm_identity (cy_b c) = b0 ∧ cy_looping c = true.
Proof.
  intros (given & Ha & Hb) Hno.
  assert (dm_identity (cy_a c) = a0 ∧ given = None) as [Hida ->].
  { destruct Ha as [Hid Hact Hc Hop Hco Hn|la ra oa pa Hid Hk Hact Hc Hl Hr Hsame|sealed key oa pa Hid Hk Hkl Hact Hf Hu Hrow Hsa Hsb]; [done| |by edestruct Hno].
    split; [|done]. destruct Hsame as [?|[-> ->]]; [done|]. destruct (Hno oa pa); [done|by apply Hr]. }
  by inversion Hb.
Qed.

(** The joiner done, with one answer from each human, both are paired. *)
Lemma ok_paired said c oa ob : ceremony_ok said c → steady = true → cy_looping c = false →
  (∀ own, ASaid own ∈ said → own = oa) → (∀ own, BSaid own ∈ said → own = ob) →
  paired Q (dm_identity (cy_a c)) (dm_identity (cy_b c)) (oa && ob).
Proof.
  intros (given & Ha & Hb) Hst Hl Hoa Hob. inversion Hb as [| sealed key xa xpa xb Hg Hact Hd Hs Hgr Hep Hkey Hrow Hsb|]; [congruence| |congruence]. subst given.
  inversion Ha as [| |? ? ? ? Hid Hka Hkl Hacta Hf Hu Hrowa Hsa Hpa]; subst. destruct Hid as [Hd' Hs' Hg' He'].
  rewrite (Hoa _ Hsa) in *. rewrite (Hob _ Hsb), (Hob _ Hpa) in *. unfold paired, device_static_public. rewrite Hd, Hd', Hs, Hs', Hgr, Hg', Hep, He'.
  split_and!; [done|done|by exists key| |]; [by destruct Hrowa as (r & ? & ? & ? & ?); exists r|by destruct Hrow as (r & ? & ? & ? & ?); exists r].
Qed.

(** Both confirmed, a round whose reply arrives ends the joiner's loop. *)
Lemma last_round said c t oa ob :
  ceremony_ok said c → tick_ok t → tk_ks_a t = true → is_Some (tk_nonce t) → ASaid oa ∈ said → BSaid ob ∈ said →
  ∃ c', ceremony_step P Q o pub_b c (t, Round true) = (c', []) ∧ cy_looping c' = false.
Proof.
  intros (given & Ha & Hb) (Hks & Hwa & Hwb & Hrandom & Hnonce) Hksa Hn Hsa Hsb. cbn [ceremony_step]. destruct (cy_looping c) eqn:L; cbn [negb]; [|by exists c].
  destruct (build_hello _ _ _ _ _) as [b hello] eqn:E. destruct (b_asks _ _ _ _ _ _ Hb Hwb E) as (conf & own & -> & -> & Hconf & Hall).
  destruct (process_hello _ _ _ _ _ _ _ _) as [a reply] eqn:Eh. destruct (a_answers _ _ _ _ _ _ _ _ _ _ _ Ha Hconf Hwa Hrandom Hnonce Eh) as (given' & Ha' & Hkeep & -> & Hlive).
  destruct Hlive as [[[[sealed key] xa] xpa] ->]; [by eauto..|]. cbn [on_reply]. by eexists.
Qed.
End ceremony_proof.

Lemma begin_offer_inv Q i d grp endpoint t k nonce i' o :
  begin_offer Q i d grp endpoint t k nonce = (i', Ok o) →
  po_device o = d ∧ po_group o = grp ∧ po_public_key o = x25519_public Q k
  ∧ in_active i' = Some (mkActive (mkPairing d grp (po_nonce o) (Some k) (x25519_public Q k) None None false false 0 false) Initiator t None false false)
  ∧ in_finalized i' = in_finalized i ∧ nr_open (in_nonces i') !! po_nonce o = Some t
  ∧ (nr_consumed (in_nonces i) !! po_nonce o = None → nr_consumed (in_nonces i') !! po_nonce o = None).
Proof.
  unfold begin_offer. assert (∀ x r, ensure_capacity i t = (x, r) → in_nonces x = in_nonces i ∧ in_finalized x = in_finalized i) as Hcap.
  { intros x r. unfold ensure_capacity. destruct (in_active i) as [a|]; [destruct (expired a t)|]; by intros [= <- <-]. }
  destruct (ensure_capacity i t) as [x [[]|e]]; [|done]. destruct (Hcap _ _ eq_refl) as [Hn Hf]. unfold offer. destruct nonce as [nonce|]; [|done].
  unfold issue. destruct (_ <=? _)%nat; [done|]. intros [= <- <-]. cbn [po_device po_group po_public_key po_nonce in_active in_finalized in_nonces with_active with_nonces nr_open nr_consumed].
  split_and!; try done; [apply lookup_insert_eq|]. intros Hc. rewrite Hn. apply eq_None_not_Some. intros [u Hu]. apply lookup_prune_consumed in Hu as [Hu _]. congruence.
Qed.

Lemma begin_accept_inv Q i d o t k i' sas :
  begin_accept Q i d o t k = (i', Ok sas) →
  in_active i' = Some (mkActive
    (mkPairing d (po_group o) (po_nonce o) None (x25519_public Q k) (Some (po_device o))
       (Some (mkHandshake (transcript PROTOCOL_VERSION (mkParty d (x25519_public Q k)) (mkParty (po_device o) (po_public_key o)) (po_group o))
                (diffie_hellman Q k (po_public_key o)))) false false 0 false) Joiner t (Some (x25519_public Q k)) false false).
Proof.
  unfold begin_accept. destruct (ensure_capacity i t) as [x [[]|e]]; [|done]. unfold accept. destruct (witness _ _ _ _) as [reg [[]|e]]; [|done].
  destruct (session_sas_words _ _); [|done]. by intros [= <- _].
Qed.

(** C3. The pairing ceremony. One daemon offers and another accepts its code; then their humans confirm, in
    any order and as often as they like, and the joiner sends hellos whose replies may be lost, all within
    the window. Unless both humans have confirmed, neither daemon's identity, group, keys or devices have
    changed. Once both have, each with one answer, and the key stores, the joiner's identity database and
    the source of nonces answer, the next reply that arrives leaves the two paired: one group, one epoch
    and its key, each other's row and static key, and each the other's own device only if both humans said
    so. *)
Theorem pairing_ceremony P Q {HP : PrimitiveLaws P} {HQ : PairingLaws P Q} a b endpoint ta ka nonce ia o0 o tb kb ib sas tms c said :
  let ida := dm_identity a in let idb := dm_identity b in
  di_device ida ≠ di_device idb → di_group_epoch ida < 2 ^ 32 → can_give ida (di_keys ida) →
  cached_grant (dm_pairing a) (di_device idb) (po_nonce o0) = None → nr_consumed (in_nonces (dm_pairing a)) !! po_nonce o0 = None →
  begin_offer Q (dm_pairing a) (di_device ida) (di_group ida) endpoint ta ka nonce = (ia, Ok o0) →
  po_device o = po_device o0 → po_group o = po_group o0 → po_public_key o = po_public_key o0 → po_nonce o = po_nonce o0 →
  begin_accept Q (dm_pairing b) (di_device idb) o tb kb = (ib, Ok sas) →
  Forall (λ tm, tick_ok ta tb false (fst tm)) tms →
  ceremony_run P Q o (x25519_public Q kb) (mkCeremony (mkDaemon ida ia) (mkDaemon idb ib) true) tms = (c, said) →
  ((∀ oa ob, ASaid oa ∈ said → BSaid ob ∈ said → False) → dm_identity (cy_a c) = ida ∧ dm_identity (cy_b c) = idb ∧ cy_looping c = true)
  ∧ (∀ oa ob t, ASaid oa ∈ said → BSaid ob ∈ said → (∀ own, ASaid own ∈ said → own = oa) → (∀ own, BSaid own ∈ said → own = ob) →
      Forall (λ tm, b_answers (fst tm)) tms → tick_ok ta tb true t → tk_ks_a t = true → is_Some (tk_nonce t) →
      ∃ c', ceremony_step P Q o (x25519_public Q kb) c (t, Round true) = (c', []) ∧ cy_looping c' = false
        ∧ paired Q (dm_identity (cy_a c')) (dm_identity (cy_b c')) (oa && ob)).
Proof.
  intros ida idb Hne Hepoch Hgive Hcached Hfresh Hoffer Hd Hg Hk Hn Haccept Hticks Hrun.
  apply begin_offer_inv in Hoffer as (Hd0 & Hg0 & Hk0 & Hact & Hfin & Hopen & Hcons). apply begin_accept_inv in Haccept.
  rewrite Hd0 in Hd. rewrite Hg0 in Hg. rewrite Hk0 in Hk. rewrite <- Hn in Hcached, Hfresh, Hact, Hopen, Hcons. rewrite Hd, Hg, Hk in Haccept.
  rewrite (dh_agree (P := P)), transcript_swap in Haccept by (by apply not_eq_sym).
  set (h := mkHandshake (transcript PROTOCOL_VERSION (mkParty (di_device ida) (x25519_public Q ka)) (mkParty (di_device idb) (x25519_public Q kb)) (di_group ida))
              (diffie_hellman Q ka (x25519_public Q kb))) in *.
  assert (∀ steady, ceremony_ok P Q ida idb o ka (x25519_public Q kb) h ta tb steady [] (mkCeremony (mkDaemon ida ia) (mkDaemon idb ib) true)) as Hinit.
  { intros steady. exists None. split; [eapply phase_offered|eapply phase_joining with (lb := false) (rb := false) (ob := false)]; cbn [cy_a cy_b dm_pairing dm_identity]; try done.
    - unfold cached_grant in *. by rewrite Hfin.
    - by apply Hcons.
    - intros own ?%not_elem_of_nil. done.
    - intros own ?%not_elem_of_nil. done. }
  assert (∀ steady, Forall (λ tm, tick_ok ta tb steady (fst tm)) tms → ceremony_ok P Q ida idb o ka (x25519_public Q kb) h ta tb steady said c) as Hok.
  { intros steady Hts. change said with ([] ++ said). by eapply ceremony_run_ok. }
  split; [eapply ok_idle, (Hok false)|]; try done.
  intros oa ob t Hsa Hsb Hoa Hob Hks Ht Hksa Hnonce.
  assert (ceremony_ok P Q ida idb o ka (x25519_public Q kb) h ta tb true said c) as Hc.
  { apply Hok. rewrite Forall_forall in *. intros tm Htm. destruct (Hticks tm Htm) as (_ & ?). by split; [auto|]. }
  eapply last_round in Hsb as (c' & Hstep & Hl); try done. exists c'. split_and!; [exact Hstep|done|].
  assert (ceremony_ok P Q ida idb o ka (x25519_public Q kb) h ta tb true said c') as Hc'.
  { rewrite <- (app_nil_r said). by eapply ceremony_step_ok. }
  by eapply ok_paired.
Qed.

(** ** A ceremony small enough to compute *)

Definition daemon_a : Daemon := mkDaemon (mkIdentity device_a [x0a] 9 0 ∅ IdentityStore_new) PairingRegistry_new.
Definition daemon_b : Daemon := mkDaemon (mkIdentity device_b [x0b] 3 0 ∅ IdentityStore_new) PairingRegistry_new.

Definition offering := begin_offer sample_pairing (dm_pairing daemon_a) device_a 9 (str "10.0.0.1:4242") 0 [x05] (Some nonce_a).
Definition accepting := begin_accept sample_pairing (dm_pairing daemon_b) device_b offer_a 10 [x06].

Definition answering (ks_b : bool) (at_ms : N) : Tick := mkTick at_ms at_ms true ks_b (λ _, true) (Some (replicate 32 x11)) (Some (replicate 24 x22)).

(** A hello too early, a human each, a reply lost. *)
Definition sample_moves : list (Tick * Move) :=
  [(answering true 20, Round true); (answering true 30, HumanA true); (answering true 40, HumanB true); (answering true 50, Round false)].

Definition sample_start : Ceremony := mkCeremony (mkDaemon (dm_identity daemon_a) (fst offering)) (mkDaemon (dm_identity daemon_b) (fst accepting)) true.

Definition sample_run (tms : list (Tick * Move)) : Ceremony * list Said :=
  ceremony_run sample_primitives sample_pairing offer_a (x25519_public sample_pairing [x06]) sample_start tms.

Lemma sample_run_eq : sample_run sample_moves = (fst (sample_run sample_moves), [ASaid true; BSaid true]).
Proof. rewrite (surjective_pairing (sample_run sample_moves)). cbn [fst]. f_equal; vm_compute; reflexivity. Qed.

Lemma offering_eq : offering = (fst offering, Ok offer_a).
Proof. rewrite (surjective_pairing offering). cbn [fst]. f_equal; vm_compute; reflexivity. Qed.

Definition accepted_words : list bytes := default [] (result_ok (snd accepting)).

Lemma accepting_eq : accepting = (fst accepting, Ok accepted_words).
Proof. rewrite (surjective_pairing accepting). cbn [fst]. f_equal; vm_compute; reflexivity. Qed.

Lemma answering_ok at_ms : at_ms <= 60 → tick_ok 0 10 true (answering true at_ms).
Proof. intros H. unfold tick_ok, answering, PAIRING_WINDOW_MS. cbn. split_and!; [done|lia|lia|by intros r [= <-]|by intros r [= <-]]. Qed.

Lemma pairing_ceremony_witness :
  ∃ c', ceremony_step sample_primitives sample_pairing offer_a (x25519_public sample_pairing [x06]) (fst (sample_run sample_moves)) (answering true 60, Round true) = (c', [])
    ∧ cy_looping c' = false ∧ paired sample_pairing (dm_identity (cy_a c')) (dm_identity (cy_b c')) (true && true).
Proof.
  refine (proj2 (pairing_ceremony sample_primitives sample_pairing daemon_a daemon_b (str "10.0.0.1:4242") 0 [x05] (Some nonce_a) (fst offering) offer_a offer_a
              10 [x06] (fst accepting) accepted_words sample_moves (fst (sample_run sample_moves)) [ASaid true; BSaid true] _ _ _ _ _ offering_eq eq_refl eq_refl eq_refl eq_refl
              accepting_eq _ sample_run_eq) true true (answering true 60) _ _ _ _ _ (answering_ok 60 _) eq_refl _).
  - discriminate.
  - reflexivity.
  - vm_compute. reflexivity.
  - reflexivity.
  - vm_compute. reflexivity.
  - repeat (constructor; [split; [discriminate|by apply answering_ok]|]). constructor.
  - left.
  - right. left.
  - intros own H. by set_solver.
  - intros own H. by set_solver.
  - repeat constructor.
  - lia.
  - by eexists.
Defined.

(** The joiner's key store fails as the grant arrives: the joiner goes on in its own group, and after a
    restart it is in the other's, at an epoch whose key it does not have. *)
Example adopted_without_key :
  let c := fst (sample_run (sample_moves ++ [(answering false 60, Round true)])) in
  let me := dm_identity (cy_b c) in
  let restarted := finish_open (di_store me) (di_keys me) (di_static me) 77 None in
  cy_looping c = false ∧ di_group me = 3 ∧ di_group restarted = 9 ∧ di_keys restarted !! di_group_epoch restarted = None.
Proof. vm_compute. split_and!; reflexivity. Qed.
