(* ===== verification/Offers.v ===== *)
(** The workspaces peers offer: [workspace_offer_registry.rs] of [crates/txtodo-daemon/src], with the
    check on names it shares with [workspace_name.rs].

    An instant of the monotonic clock is an [N], an argument. The maps are in key order, device first. *)
From S2P Require Import Prelude.
From S2P Require Import Utf8.
From S2P Require Import Ulid.
From S2P Require Import Hlc.
From S2P Require Import OpLog.
From S2P Require Import Message.

#[local] Open Scope N_scope.

(** ** workspace_name.rs *)

Definition MAX_WORKSPACE_NAME_BYTES : nat := 256.
Definition MAX_NAME_BYTES : nat := MAX_WORKSPACE_NAME_BYTES.

(** [char::is_control]. *)
Definition char_is_control (c : char) : bool := (c <=? 0x1F) || ((0x7F <=? c) && (c <=? 0x9F)).

Inductive NameError := HasControl | NameTooLong (len : nat).

Definition clean (raw : bytes) : result NameError (option bytes) :=
  let name := str_trim raw in
  if bool_decide (name = []) then Ok None
  else if existsb char_is_control (chars name) then Err HasControl
  else if (MAX_NAME_BYTES <? length name)%nat then Err (NameTooLong (length name))
  else Ok (Some name).

Definition offered_name (id : WorkspaceId) (name : bytes) : option bytes :=
  cleaned ← result_ok (clean name);
  n ← cleaned;
  if bool_decide (n = Ulid_display (from_u128 id)) then None else Some n.

(** ** workspace_offer_registry.rs *)

Definition MAX_PENDING_OFFERS : nat := 256.

Record PendingOffer := mkPending { pf_offering_device : DeviceId; pf_workspace_id : WorkspaceId; pf_name : bytes; pf_offered_at_ms : N }.

Inductive OfferRegistryError := TooManyPending.

Record Seen := mkSeen { sn_at : N; sn_name : option bytes }.

Abbreviation OfferKey := (DeviceId * WorkspaceId)%type.

Record Offers := mkOffers { of_pending : gmap OfferKey PendingOffer; of_declined : gset OfferKey; of_seen : gmap OfferKey Seen }.

Definition Offers_new : Offers := mkOffers ∅ ∅ ∅.

(** A [BTreeMap]'s order. *)
Definition key_le (a b : OfferKey) : bool := (fst a <? fst b) || ((fst a =? fst b) && (snd a <=? snd b)).
Definition in_key_order {V} (m : gmap OfferKey V) : list (OfferKey * V) := stable_sort (λ a b, key_le (fst a) (fst b)) (map_to_list m).

(** [min_by_key] keeps the first of equals, [max_by_key] the last. *)
Definition oldest_seen (m : gmap OfferKey Seen) : option OfferKey :=
  fst <$> head (stable_sort (λ a b, sn_at (snd a) <=? sn_at (snd b)) (in_key_order m)).

Definition note_seen (inner : Offers) (key : OfferKey) (name : option bytes) (now : N) : Offers :=
  let seen :=
    if bool_decide (of_seen inner !! key = None) && (MAX_PENDING_OFFERS <=? size (of_seen inner))%nat
    then match oldest_seen (of_seen inner) with Some oldest => delete oldest (of_seen inner) | None => of_seen inner end
    else of_seen inner in
  let name := match name with Some n => Some n | None => s ← seen !! key; sn_name s end in
  mkOffers (of_pending inner) (of_declined inner) (<[key := mkSeen now name]> seen).

Definition record_offer (inner : Offers) (offer : PendingOffer) (now : N) : Offers * result OfferRegistryError unit :=
  let key := (pf_offering_device offer, pf_workspace_id offer) in
  let name := offered_name (pf_workspace_id offer) (pf_name offer) in
  let inner := note_seen inner key name now in
  if bool_decide (key ∈ of_declined inner) then (inner, Ok tt)
  else if bool_decide (of_pending inner !! key = None) && (MAX_PENDING_OFFERS <=? size (of_pending inner))%nat
  then (inner, Err TooManyPending)
  else (mkOffers (<[key := offer]> (of_pending inner)) (of_declined inner) (of_seen inner), Ok tt).

Definition decline_offer (inner : Offers) (offering_device : DeviceId) (workspace_id : WorkspaceId) : Offers * bool :=
  let key := (offering_device, workspace_id) in
  match of_pending inner !! key with
  | None => (inner, false)
  | Some _ =>
      let declined := if (size (of_declined inner) <? MAX_PENDING_OFFERS)%nat then {[key]} ∪ of_declined inner else of_declined inner in
      (mkOffers (delete key (of_pending inner)) declined (of_seen inner), true)
  end.

Definition take_offer (inner : Offers) (offering_device : DeviceId) (workspace_id : WorkspaceId) : Offers * option PendingOffer :=
  let key := (offering_device, workspace_id) in
  (mkOffers (delete key (of_pending inner)) (of_declined inner) (of_seen inner), of_pending inner !! key).

Definition offered_by (inner : Offers) (workspace : WorkspaceId) (within now : N) : list DeviceId :=
  let hits := List.filter (λ kv, (snd (fst kv) =? workspace) && (now - sn_at (snd kv) <=? within)) (in_key_order (of_seen inner)) in
  map (λ kv, fst (fst kv)) (stable_sort (λ a b, sn_at (snd b) <=? sn_at (snd a)) hits).

Definition last_offered_name (inner : Offers) (workspace : WorkspaceId) : option bytes :=
  let named := List.filter (λ kv, (snd (fst kv) =? workspace) && bool_decide (is_Some (sn_name (snd kv)))) (in_key_order (of_seen inner)) in
  kv ← last (stable_sort (λ a b, sn_at (snd a) <=? sn_at (snd b)) named); sn_name (snd kv).

Definition list_offers (inner : Offers) : list PendingOffer := map snd (in_key_order (of_pending inner)).

(** ** What the caps hold to *)

Inductive OfferCall :=
| AskRecord (offer : PendingOffer) (now : N)
| AskDecline (d : DeviceId) (w : WorkspaceId)
| AskTake (d : DeviceId) (w : WorkspaceId).

Definition offer_call (i : Offers) (c : OfferCall) : Offers :=
  match c with
  | AskRecord offer now => fst (record_offer i offer now)
  | AskDecline d w => fst (decline_offer i d w)
  | AskTake d w => fst (take_offer i d w)
  end.

(** At the caps at most. *)
Definition offers_bounded (i : Offers) : Prop :=
  (size (of_pending i) <= MAX_PENDING_OFFERS)%nat ∧ (size (of_declined i) <= MAX_PENDING_OFFERS)%nat ∧ (size (of_seen i) <= MAX_PENDING_OFFERS)%nat.

Lemma size_insert_le {V} (m : gmap OfferKey V) k v : (size (<[k := v]> m) <= S (size m))%nat.
Proof. destruct (m !! k) eqn:E; [rewrite map_size_insert_Some; [lia|by eexists]|rewrite map_size_insert_None by done; lia]. Qed.

Lemma in_offer_order {V} (m : gmap OfferKey V) k v : (k, v) ∈ in_key_order m ↔ m !! k = Some v.
Proof. unfold in_key_order. rewrite stable_sort_perm. apply elem_of_map_to_list. Qed.

Lemma oldest_seen_in m k : oldest_seen m = Some k → is_Some (m !! k).
Proof.
  unfold oldest_seen. destruct (stable_sort _ _) as [|[k' v] l] eqn:E; [done|]. intros [= <-].
  assert ((k', v) ∈ in_key_order m) as H by (rewrite <- (stable_sort_perm (λ a b, sn_at (snd a) <=? sn_at (snd b))), E; left).
  apply in_offer_order in H. by eexists.
Qed.

Lemma oldest_seen_some m : m ≠ ∅ → is_Some (oldest_seen m).
Proof.
  intros Hm. unfold oldest_seen. destruct (stable_sort _ (in_key_order m)) as [|kv l] eqn:E; [|by eexists].
  destruct Hm. apply map_eq. intros k. rewrite lookup_empty. apply eq_None_not_Some. intros [v Hv%in_offer_order].
  rewrite <- (stable_sort_perm (λ a b, sn_at (snd a) <=? sn_at (snd b))), E in Hv. by apply elem_of_nil in Hv.
Qed.

Lemma note_seen_bound i key name now :
  (size (of_seen i) <= MAX_PENDING_OFFERS)%nat → (size (of_seen (note_seen i key name now)) <= MAX_PENDING_OFFERS)%nat.
Proof.
  intros Hs. unfold note_seen. cbn [of_seen]. set (name' := match name with Some _ => _ | None => _ end). clearbody name'.
  case_bool_decide as Hk; cbn [andb].
  - destruct (_ <=? _)%nat eqn:E.
    + apply Nat.leb_le in E. assert (of_seen i ≠ ∅) as Hne by (intros H; rewrite H, map_size_empty in E; unfold MAX_PENDING_OFFERS in E; lia).
      destruct (oldest_seen_some _ Hne) as [k Ho]. rewrite Ho. destruct (oldest_seen_in _ _ Ho) as [v Hv].
      assert (size (delete k (of_seen i)) = pred (size (of_seen i))) as Hd by (by rewrite map_size_delete, Hv).
      pose proof (size_insert_le (delete k (of_seen i)) key (mkSeen now name')). unfold MAX_PENDING_OFFERS in *. lia.
    + apply Nat.leb_gt in E. pose proof (size_insert_le (of_seen i) key (mkSeen now name')). lia.
  - destruct (of_seen i !! key) eqn:E; [|done]. rewrite map_size_insert_Some; [done|by eexists].
Qed.

Lemma offer_call_bounded c i : offers_bounded i → offers_bounded (offer_call i c).
Proof.
  intros (Hp & Hd & Hs).
  destruct c as [offer now|d w|d w]; cbn [offer_call].
  - unfold record_offer. set (key := (pf_offering_device offer, pf_workspace_id offer)).
    pose proof (note_seen_bound i key (offered_name (pf_workspace_id offer) (pf_name offer)) now Hs) as Hs'.
    case_bool_decide; [done|]. destruct (bool_decide _ && _) eqn:E; [done|]. cbn [fst]. split_and!; cbn [of_pending of_declined of_seen]; try done.
    apply andb_false_iff in E as [E|E].
    + apply bool_decide_eq_false in E. rewrite map_size_insert_Some; [done|]. by destruct (of_pending _ !! key) eqn:Ek; [eexists|].
    + apply Nat.leb_gt in E. etransitivity; [apply size_insert_le|]. exact E.
  - unfold decline_offer. destruct (of_pending i !! (d, w)) eqn:E; [|done]. cbn [fst]. split_and!; cbn [of_pending of_declined of_seen]; try done.
    + etransitivity; [|exact Hp]. rewrite map_size_delete, E. lia.
    + destruct (_ <? _)%nat eqn:E'; [|done]. apply Nat.ltb_lt in E'. rewrite size_union_alt, size_singleton. pose proof (subseteq_size (of_declined i ∖ {[(d, w)]}) (of_declined i)) as Hsub. specialize (Hsub ltac:(set_solver)). lia.
  - cbn. split_and!; cbn [of_pending of_declined of_seen]; try done. rewrite map_size_delete. etransitivity; [|exact Hp]. destruct (of_pending i !! (d, w)); [apply Nat.le_pred_l|done].
Qed.

(** What every call keeps, any calls keep. *)
Lemma offer_calls_keep (P : Offers → Prop) cs i : (∀ i c, P i → P (offer_call i c)) → P i → P (foldl offer_call i cs).
Proof. intros Hstep. revert i. induction cs as [|c cs IH]; intros i Hi; [done|]. cbn [foldl]. by apply IH, Hstep. Qed.

(** A declined offer is not pending, and no call undeclines one. *)
Definition declined_out (i : Offers) : Prop := ∀ k, k ∈ of_declined i → of_pending i !! k = None.

Lemma offer_call_declined c i k : k ∈ of_declined i → k ∈ of_declined (offer_call i c).
Proof.
  intros Hk. destruct c as [offer now|d w|d w]; cbn [offer_call].
  - unfold record_offer. case_bool_decide; [done|]. by destruct (bool_decide _ && _).
  - unfold decline_offer. destruct (of_pending i !! (d, w)); [|done]. cbn [fst of_declined]. destruct (_ <? _)%nat; set_solver.
  - done.
Qed.

Lemma offer_call_out c i : declined_out i → declined_out (offer_call i c).
Proof.
  intros Hi k. destruct c as [offer now|d w|d w]; cbn [offer_call].
  - unfold record_offer. set (key := (pf_offering_device offer, pf_workspace_id offer)).
    case_bool_decide as Hdec; [intros Hk; by apply Hi|]. destruct (bool_decide _ && _); [intros Hk; by apply Hi|].
    cbn [fst of_pending of_declined]. intros Hk. rewrite lookup_insert_ne by (intros ->; done). by apply Hi.
  - unfold decline_offer. destruct (of_pending i !! (d, w)); [|apply Hi]. cbn [fst of_pending of_declined].
    intros Hk. destruct (decide ((d, w) = k)) as [<-|Hne]; [apply lookup_delete_eq|]. rewrite lookup_delete_ne by done. apply Hi.
    destruct (_ <? _)%nat; set_solver.
  - cbn [of_pending of_declined take_offer fst]. intros Hk. rewrite lookup_delete_None. right. by apply Hi.
Qed.

(** Offers stay bounded and a refusal stays. After any calls on a fresh registry, each of its tables
    holds at most 256 entries; and an offer the user declined, while the table of refusals
    had room, is never listed again, however often the peer repeats it. *)
Theorem declined_offers_stay_out cs d w i' cs' :
  let i := foldl offer_call Offers_new cs in
  offers_bounded i
  ∧ (decline_offer i d w = (i', true) → (size (of_declined i) < MAX_PENDING_OFFERS)%nat →
       of_pending (foldl offer_call i' cs') !! (d, w) = None).
Proof.
  intros i. split.
  - apply (offer_calls_keep offers_bounded); [by intros; apply offer_call_bounded|]. by split_and!; vm_compute; lia.
  - intros H Hroom. assert (declined_out i) as Hout by (apply (offer_calls_keep declined_out); [by intros; apply offer_call_out|done]).
    assert (i' = offer_call i (AskDecline d w)) as -> by (cbn [offer_call]; by rewrite H).
    assert (declined_out (foldl offer_call (offer_call i (AskDecline d w)) cs')) as Hend.
    { apply (offer_calls_keep declined_out); [by intros; apply offer_call_out|]. by apply offer_call_out. }
    apply Hend. apply (offer_calls_keep (λ i, (d, w) ∈ of_declined i)); [by intros; apply offer_call_declined|].
    cbn [offer_call]. unfold decline_offer in *. destruct (of_pending i !! (d, w)); [|done]. cbn [fst of_declined].
    rewrite (proj2 (Nat.ltb_lt _ _)) by done. set_solver.
Qed.

(** Two offers, one declined and repeated. *)
Definition sample_offer (d : DeviceId) : PendingOffer := mkPending d 7 (str "garden") 5.
Definition sample_offers : list OfferCall := [AskRecord (sample_offer 1) 10; AskRecord (sample_offer 2) 20].

Lemma declined_offers_stay_out_witness :
  let i := foldl offer_call Offers_new sample_offers in
  let i' := foldl offer_call (fst (decline_offer i 1 7)) [AskRecord (sample_offer 1) 30] in
  of_pending i' !! (1, 7) = None ∧ list_offers i' = [sample_offer 2] ∧ offered_by i' 7 15 30 = [1; 2].
Proof.
  intros i i'. split; [|split; vm_compute; reflexivity].
  refine (proj2 (declined_offers_stay_out sample_offers 1 7 _ [AskRecord (sample_offer 1) 30]) _ _).
  - rewrite (surjective_pairing (decline_offer _ 1 7)). cbn [fst]. f_equal.
  - vm_compute. lia.
Defined.
