(* ===== verification/Rotation.v ===== *)
(** Rotating the group key: [rotation.rs] and [rotation_error.rs] of [crates/txtodo-sync/src], with the
    grants of the [ControlMessage] of [control.rs], and [device_remove.rs] and [group_rotation.rs] of
    [crates/txtodo-daemon/src].

    Removing a device makes a new key at the next epoch; a kept device that turns out to be behind is
    granted the keys in between, each sealed to its own long-term key. The key store fails as an argument
    says, and the identity database at any statement; what was written before stays. The theorems: a
    device's epoch always has its key, restarts included; a device that was removed is never granted anything; what a
    grant does. The session that carries grants is [Control]. *)
From S2P Require Import Prelude.
From S2P Require Import Hlc.
From S2P Require Import OpLog.
From S2P Require Import Frame.
From S2P Require Import Message.
From S2P Require Import Sealed.
From S2P Require Import Pairing.
From S2P Require Import Identity.

#[local] Open Scope N_scope.

(** ** rotation_error.rs *)

Inductive RotationError := RDerive | REntropy | RSeal | ROpen | NoRemainingDevices | REpochOverflow.

Inductive RemovalError := CannotRemoveSelf (dev : DeviceId) | CannotRemoveLastDevice.

(** ** control.rs: the messages of the control channel *)

Inductive ControlMessage :=
| Offer (sender : DeviceId) (workspace_id : N) (name : bytes) (offered_at_ms : N)
| OfferAck (sender : DeviceId) (workspace_id : N)
| Decline (sender : DeviceId) (workspace_id : N)
| OwnDevices (sender : DeviceId) (devices : list DeviceId)
| GrantKey (sender minter : DeviceId) (epoch : N) (ephemeral_public sealed : bytes) (left_out : list DeviceId)
| Epoch (sender : DeviceId) (epoch : N).

(** ** rotation.rs *)

Definition GRANT_INFO : bytes := str "txtodo-rotation-grant-v1".

Record WrappedGrant := mkWrapped { wg_epoch : N; wg_ephemeral_public : bytes; wg_sealed : bytes }.

(** A grant message made of a sealed key, and the sealed key of one. *)
Definition control_grant (sender minter : DeviceId) (wrapped : WrappedGrant) (left_out : list DeviceId) : ControlMessage :=
  GrantKey sender minter (wg_epoch wrapped) (wg_ephemeral_public wrapped) (wg_sealed wrapped) left_out.

Definition wrapped_grant (m : ControlMessage) : option WrappedGrant :=
  match m with GrantKey _ _ epoch ephemeral sealed _ => Some (mkWrapped epoch ephemeral sealed) | _ => None end.

Definition validate_removal (removing this_device : DeviceId) (devices_before : nat) : result RemovalError unit :=
  if removing =? this_device then Err (CannotRemoveSelf removing)
  else if (devices_before <=? 1)%nat then Err CannotRemoveLastDevice
  else Ok tt.

(** [u32::MAX]. *)
Definition U32_MAX : N := 2 ^ 32 - 1.

(** [checked_add(1)]. *)
Definition next_epoch (epoch : N) : option N := if epoch =? U32_MAX then None else Some (epoch + 1).

(** What the system's randomness gives a seal: a secret, and a nonce unless it fails. *)
Record Fresh := mkFresh { fr_secret : bytes; fr_nonce : option bytes }.

Section rotation.
Context (P : Primitives) (Q : PairingPrimitives).

Definition derive_wrap_key (shared ephemeral_public recipient_public : bytes) : result RotationError bytes :=
  ok_or (hkdf_expand Q (ephemeral_public ++ recipient_public) shared GRANT_INFO KEY_BYTES) RDerive.

Definition wrap_grant_for (new_key_bytes : bytes) (epoch : N) (recipient : bytes) (fresh : Fresh) : result RotationError WrappedGrant :=
  let eph_public := x25519_public Q (fr_secret fresh) in
  let shared := diffie_hellman Q (fr_secret fresh) recipient in
  key ← derive_wrap_key shared eph_public recipient;
  nonce ← ok_or (fr_nonce fresh) REntropy;
  ciphertext ← ok_or (encrypt P key nonce (to_le_bytes 4 epoch) new_key_bytes) RSeal;
  Ok (mkWrapped epoch eph_public (nonce ++ ciphertext)).

Definition open_grant (grant : WrappedGrant) (my_secret : bytes) : result RotationError bytes :=
  if (length (wg_sealed grant) <? NONCE_BYTES)%nat then Err ROpen
  else
    let shared := diffie_hellman Q my_secret (wg_ephemeral_public grant) in
    key ← derive_wrap_key shared (wg_ephemeral_public grant) (x25519_public Q my_secret);
    plaintext ← ok_or (decrypt P key (take NONCE_BYTES (wg_sealed grant)) (to_le_bytes 4 (wg_epoch grant)) (drop NONCE_BYTES (wg_sealed grant))) ROpen;
    if Nat.eqb (length plaintext) KEY_BYTES then Ok plaintext else Err ROpen.

(** The loop of [plan_rotation], in device order. *)
Fixpoint wrap_each (new_key_bytes : bytes) (epoch : N) (remaining : list (DeviceId * bytes)) (fresh : DeviceId → Fresh)
  (grants : gmap DeviceId WrappedGrant) : result RotationError (gmap DeviceId WrappedGrant) :=
  match remaining with
  | [] => Ok grants
  | (d, public) :: rest =>
      g ← wrap_grant_for new_key_bytes epoch public (fresh d);
      wrap_each new_key_bytes epoch rest fresh (<[d := g]> grants)
  end.

Definition plan_rotation (current_epoch : N) (new_key_bytes : bytes) (remaining : gmap DeviceId bytes) (fresh : DeviceId → Fresh)
  : result RotationError (gmap DeviceId WrappedGrant) :=
  if bool_decide (remaining = ∅) then Err NoRemainingDevices
  else
    new_epoch ← ok_or (next_epoch current_epoch) REpochOverflow;
    wrap_each new_key_bytes new_epoch (stable_sort (λ a b, fst a <=? fst b) (map_to_list remaining)) fresh ∅.

(** ** group_epoch.rs: the key store, and whether it answers. *)

Definition ks_get (keys : KeyStore) (ks : bool) (epoch : N) : result string (option bytes) :=
  if ks then Ok (keys !! epoch) else Err "the keystore could not read the group key"%string.

(** ** device_remove.rs *)

Record RemovalOutcome := mkOutcome { ro_removed : bool; ro_already_removed : bool; ro_rotated_to_epoch : N; ro_grants_minted : nat }.

Inductive RemoveDeviceError :=
| RmStore
| RmKeyStore
| RmRemoval (e : RemovalError)
| RmRotation (e : RotationError)
| RmEpochOverflow.

Definition no_op_outcome (removed : bool) : RemovalOutcome := mkOutcome removed removed 0 0.

Definition plan_next_epoch (current_epoch : N) (remaining : gmap DeviceId bytes) (random : option bytes) (fresh : DeviceId → Fresh)
  : result RemoveDeviceError (N * bytes * nat) :=
  new_epoch ← ok_or (next_epoch current_epoch) RmEpochOverflow;
  let new_key := default (replicate KEY_BYTES xa5) random in
  grants_minted ← (if bool_decide (remaining = ∅) then Ok 0%nat
                   else map_err RmRotation (grants ← plan_rotation current_epoch new_key remaining fresh; Ok (size grants)));
  Ok (new_epoch, new_key, grants_minted).

Definition is_active (r : DeviceRow) : bool := bool_decide (dr_removed_at_ms r = None).

Definition remaining_after (active_peers : list DeviceRow) (target : DeviceId) : gmap DeviceId bytes :=
  list_to_map (map (λ r, (dr_device r, dr_static_public r)) (List.filter (λ r, negb (dr_device r =? target)) active_peers)).

(** The four writes, in their order, as far as the identity database answers ([db]: which statements of the
    call it answers; 0 and 1 are the two reads before). What was written before a failure stays written. *)
Definition write_rotation (st : IdentityStore) (minter target : DeviceId) (now_ms : N) (why : Why) (new_epoch : N) (db : nat → bool)
  : IdentityStore * bool :=
  if negb (db 2%nat) then (st, false)
  else
    let st := meta_set st GROUP_EPOCH_KEY (to_be_bytes 4 new_epoch) in
    if negb (db 3%nat) then (st, false)
    else
      let st := write_epoch st new_epoch (mkEpochInfo minter [target]) in
      if negb (db 4%nat) then (st, false)
      else
        let st := fst (remove_row st target now_ms) in
        if negb (db 5%nat) then (st, false) else (write_removal st target (mkRemoval why minter), true).

Definition remove_device_because (me : DeviceIdentity) (target : DeviceId) (now_ms : N) (why : Why) (ks : bool) (db : nat → bool)
  (random : option bytes) (fresh : DeviceId → Fresh) : DeviceIdentity * result RemoveDeviceError RemovalOutcome :=
  let st := di_store me in
  if negb (db 0%nat) then (me, Err RmStore)
  else
  let active_peers := List.filter is_active (list_devices st) in
  match validate_removal target (di_device me) (length active_peers + 1) with
  | Err e => (me, Err (RmRemoval e))
  | Ok _ =>
      if negb (db 1%nat) then (me, Err RmStore)
      else
      match device st target with
      | None => (me, Ok (no_op_outcome false))
      | Some row =>
          if negb (is_active row) then (me, Ok (mkOutcome true true 0 0))
          else
            match plan_next_epoch (di_group_epoch me) (remaining_after active_peers target) random fresh with
            | Err e => (me, Err e)
            | Ok (new_epoch, new_key, grants_minted) =>
                if negb ks then (me, Err RmKeyStore)
                else
                  let me := with_keys me (<[new_epoch := new_key]> (di_keys me)) in
                  match write_rotation st (di_device me) target now_ms why new_epoch db with
                  | (st, true) => (set_group_epoch (with_store me st) new_epoch, Ok (mkOutcome true false new_epoch grants_minted))
                  | (st, false) => (with_store me st, Err RmStore)
                  end
            end
      end
  end.

Definition remove_device (me : DeviceIdentity) (target : DeviceId) (now_ms : N) (ks : bool) (db : nat → bool) (random : option bytes)
  (fresh : DeviceId → Fresh) :=
  remove_device_because me target now_ms Manual ks db random fresh.

(** ** group_rotation.rs, out *)

Record OutGrant := mkOutGrant { og_sealed_under : N; og_message : ControlMessage }.

(** The loop of [grants_for]. *)
Fixpoint grant_chain (me : DeviceIdentity) (ks : bool) (peer : DeviceId) (recipient : bytes) (fresh : N → Fresh) (epochs : list N) : list OutGrant :=
  match epochs with
  | [] => []
  | epoch :: rest =>
      let info := default (mkEpochInfo (di_device me) []) (read_epoch (di_store me) epoch) in
      if bool_decide (peer ∈ ei_left_out info) then []
      else
        match fetch (ks_get (di_keys me) ks) epoch with
        | Ok (Some key) =>
            match wrap_grant_for key epoch recipient (fresh epoch) with
            | Ok wrapped =>
                mkOutGrant (epoch - 1) (control_grant (di_device me) (ei_minter info) wrapped (ei_left_out info))
                :: grant_chain me ks peer recipient fresh rest
            | Err _ => []
            end
        | _ => []
        end
  end.

(** [from + 1..=upto]. *)
Definition epochs_after (from upto : N) : list N := map (λ i, from + 1 + N.of_nat i) (seq 0 (N.to_nat (upto - from))).

Definition grants_for (me : DeviceIdentity) (ks : bool) (peer : DeviceId) (peer_epoch : N) (fresh : N → Fresh) : list OutGrant :=
  let current := di_group_epoch me in
  if (current <=? peer_epoch) || (peer_epoch + 1 <? oldest_epoch current) then []
  else
    match device (di_store me) peer with
    | None => []
    | Some row =>
        if negb (is_active row) then []
        else grant_chain me ks peer (dr_static_public row) fresh (epochs_after peer_epoch current)
    end.

(** ** group_rotation.rs, in *)

Inductive Applied := Adopted (epoch : N) | Kept | Ignored (why : string).

Inductive GrantDecision := Adopt | Already | Skip (why : string).

Definition decide_grant (current epoch : N) (mine : option DeviceId) (minter : DeviceId) : GrantDecision :=
  if epoch <? current then Skip "stale"
  else if epoch =? current + 1 then Adopt
  else if current <? epoch then Skip "gap"
  else
    match mine with
    | Some held => if held =? minter then Already else if minter <? held then Adopt else Skip "mine_wins"
    | None => Skip "held_without_a_record"
    end.

(** Its own three statements; a failure of one is passed over. *)
Definition drop_followed (st : IdentityStore) (dropped minter : DeviceId) (now_ms : N) (db : nat → bool) : IdentityStore :=
  let active := db 0%nat && match device st dropped with Some row => is_active row | None => false end in
  if active && db 1%nat then
    match remove_row st dropped now_ms with
    | (st, true) => if db 2%nat then write_removal st dropped (mkRemoval LeftOut minter) else st
    | (st, false) => st
    end
  else st.

(** [db]: which statements of [apply_grant] the identity database answers; 0 and 1 are its two reads. *)
Definition adopt (me : DeviceIdentity) (sender minter : DeviceId) (epoch : N) (key : bytes) (left_out : list DeviceId) (now_ms : N) (ks : bool)
  (db : nat → bool) : DeviceIdentity * result string unit :=
  if negb ks then (me, Err "keystore"%string)
  else
    let me := with_keys me (<[epoch := key]> (di_keys me)) in
    if negb (db 2%nat) then (me, Err "store"%string)
    else
      let st := meta_set (di_store me) GROUP_EPOCH_KEY (to_be_bytes 4 epoch) in
      if negb (db 3%nat) then (with_store me st, Err "store"%string)
      else
        let st := write_epoch st epoch (mkEpochInfo minter left_out) in
        let dropped := List.filter (λ d, negb (d =? di_device me) && negb (d =? sender)) left_out in
        let st := foldl (λ st id, drop_followed st (snd id) minter now_ms (λ j, db (5 + 3 * fst id + j)%nat)) st (imap pair dropped) in
        let st := if db 4%nat then fst (set_device_key_epoch st sender epoch) else st in
        (set_group_epoch (with_store me st) epoch, Ok tt).

Definition apply_grant (me : DeviceIdentity) (msg : ControlMessage) (now_ms : N) (ks : bool) (db : nat → bool) : DeviceIdentity * Applied :=
  match msg, wrapped_grant msg with
  | GrantKey sender minter epoch _ _ left_out, Some wrapped =>
      match (if db 0%nat then device (di_store me) sender else None) with
      | Some row =>
          if negb (is_active row) then (me, Ignored "unknown_sender")
          else
            let mine := if db 1%nat then ei_minter <$> read_epoch (di_store me) epoch else None in
            match decide_grant (di_group_epoch me) epoch mine minter with
            | Already => (me, Kept)
            | Skip why => (me, Ignored why)
            | Adopt =>
                match open_grant wrapped (di_static me) with
                | Err _ => (me, Ignored "cannot_open")
                | Ok key =>
                    match adopt me sender minter epoch key left_out now_ms ks db with
                    | (me, Ok _) => (me, Adopted epoch)
                    | (me, Err why) => (me, Ignored why)
                    end
                end
            end
      | None => (me, Ignored "unknown_sender")
      end
  | _, _ => (me, Ignored "not_a_grant")
  end.

Definition note_peer_epoch (me : DeviceIdentity) (peer : DeviceId) (epoch : N) : DeviceIdentity :=
  match device (di_store me) peer with
  | Some row =>
      if is_active row && (dr_key_epoch row <? epoch) then with_store me (fst (set_device_key_epoch (di_store me) peer epoch)) else me
  | None => me
  end.

Definition believed_epoch (me : DeviceIdentity) (peer : DeviceId) : option N :=
  row ← device (di_store me) peer; if is_active row then Some (dr_key_epoch row) else None.

Definition is_removed (me : DeviceIdentity) (peer : DeviceId) : bool :=
  match device (di_store me) peer with Some row => negb (is_active row) | None => false end.
End rotation.

(** ** What moves a device's epoch, as calls *)

Inductive RotationCall :=
| CallRemove (target : DeviceId) (now_ms : N) (why : Why) (ks : bool) (db : nat → bool) (random : option bytes) (fresh : DeviceId → Fresh)
| CallGrant (msg : ControlMessage) (now_ms : N) (ks : bool) (db : nat → bool)
| CallNote (peer : DeviceId) (epoch : N)
| CallRestart (minted : DeviceId) (raw : option bytes).

Section calls.
Context (P : Primitives) (Q : PairingPrimitives).

Definition rotation_call (me : DeviceIdentity) (c : RotationCall) : DeviceIdentity :=
  match c with
  | CallRemove target now why ks db random fresh => fst (remove_device_because P Q me target now why ks db random fresh)
  | CallGrant msg now ks db => fst (apply_grant P Q me msg now ks db)
  | CallNote peer epoch => note_peer_epoch me peer epoch
  | CallRestart minted raw => finish_open (di_store me) (di_keys me) (di_static me) minted raw
  end.

Definition rotation_run (me : DeviceIdentity) (cs : list RotationCall) : DeviceIdentity := foldl rotation_call me cs.

(** An epoch is a [u32]. *)
Definition call_wf (c : RotationCall) : Prop :=
  match c with CallGrant (GrantKey _ _ epoch _ _ _) _ _ _ => epoch < 2 ^ 32 | _ => True end.

(** The identity database answers every statement of the call. *)
Definition call_answered (c : RotationCall) : Prop :=
  match c with CallRemove _ _ _ _ db _ _ | CallGrant _ _ _ db => ∀ i, db i = true | _ => True end.

(** The epoch on record, which a restart goes to, is the one in use or, after a write that failed, the next;
    the keys of both are held, but for the first epoch's before a pairing. *)
Record sound (me : DeviceIdentity) : Prop := {
  sound_bound : load_group_epoch (di_store me) < 2 ^ 32;
  sound_record : load_group_epoch (di_store me) = di_group_epoch me ∨ load_group_epoch (di_store me) = di_group_epoch me + 1;
  sound_key : ∀ e, 0 < e → e = di_group_epoch me ∨ e = load_group_epoch (di_store me) → is_Some (di_keys me !! e)
}.

(** ** Lemmas on the store *)

Lemma load_epoch_set st e : e < 2 ^ 32 → load_group_epoch (meta_set st GROUP_EPOCH_KEY (to_be_bytes 4 e)) = e.
Proof using.
  intros He. unfold load_group_epoch. rewrite meta_get_set, decide_True by done. unfold to_be_bytes, from_be_bytes.
  rewrite length_reverse, to_le_bytes_length, bool_decide_eq_true_2, reverse_involutive by done. by apply from_to_le.
Qed.

Lemma load_epoch_other st k v : k ≠ GROUP_EPOCH_KEY → load_group_epoch (meta_set st k v) = load_group_epoch st.
Proof using. intros Hk. unfold load_group_epoch. by rewrite meta_get_set, decide_False. Qed.

Lemma load_epoch_write st e i : load_group_epoch (write_epoch st e i) = load_group_epoch st.
Proof using. apply load_epoch_other, epoch_key_not_group. Qed.

Lemma load_epoch_removal st d r : load_group_epoch (write_removal st d r) = load_group_epoch st.
Proof using. apply load_epoch_other. apply (removal_key_not_epoch d 0). Qed.

(** A change of one row is a change of no record. *)
Lemma on_row_meta st d f : is_meta (fst (on_row st d f)) = is_meta st.
Proof using. unfold on_row. by destruct (is_devices st !! d) as [[r own]|]. Qed.

Lemma on_row_load st d f : load_group_epoch (fst (on_row st d f)) = load_group_epoch st.
Proof using. unfold load_group_epoch, meta_get. by rewrite on_row_meta. Qed.

Lemma on_row_device st d f d' :
  device (fst (on_row st d f)) d' = if decide (d = d') then f <$> device st d' else device st d'.
Proof using.
  unfold on_row, device. destruct (is_devices st !! d) as [[r own]|] eqn:E; cbn [fst].
  - cbn. destruct (decide (d = d')) as [<-|Hne]; [by rewrite lookup_insert_eq, E|by rewrite lookup_insert_ne].
  - destruct (decide (d = d')) as [<-|Hne]; [by rewrite E|done].
Qed.

Lemma meta_set_device st k v d : device (meta_set st k v) d = device st d.
Proof using. done. Qed.

Lemma drop_followed_load st d m t db : load_group_epoch (drop_followed st d m t db) = load_group_epoch st.
Proof using.
  unfold drop_followed. destruct (_ && db 1%nat); [|done].
  pose proof (on_row_load st d (λ r, set_removed r (Some (wall_i64 t)))) as H. fold (remove_row st d t) in H.
  destruct (remove_row st d t) as [st' [|]]; cbn [fst] in H; [|done]. destruct (db 2%nat); [by rewrite load_epoch_removal|done].
Qed.

Lemma drop_all_load st ds m t db : load_group_epoch (foldl (λ st (id : nat * DeviceId), drop_followed st (snd id) m t (db id)) st ds) = load_group_epoch st.
Proof using. revert st. induction ds as [|d ds IH]; intros st; [done|]. cbn [foldl]. by rewrite IH, drop_followed_load. Qed.

(** A device is on record as removed. *)
Definition gone (st : IdentityStore) (d : DeviceId) : Prop := ∃ r, device st d = Some r ∧ is_active r = false.

Lemma gone_on_row st d f d' : (∀ r, is_active r = false → is_active (f r) = false) → gone st d' → gone (fst (on_row st d f)) d'.
Proof using.
  intros Hf (r & Hr & Ha). unfold gone. rewrite on_row_device. destruct (decide (d = d')) as [->|Hne]; [|by exists r].
  rewrite Hr. exists (f r). by split; [|apply Hf].
Qed.

Lemma removed_gone st d t r : device st d = Some r → gone (fst (remove_row st d t)) d.
Proof using. intros Hr. unfold gone, remove_row. rewrite on_row_device, decide_True, Hr by done. by eexists. Qed.

Lemma gone_drop st d m t db d' : gone st d' → gone (drop_followed st d m t db) d'.
Proof using.
  intros Hg. unfold drop_followed. destruct (_ && db 1%nat); [|done].
  pose proof (gone_on_row st d (λ r, set_removed r (Some (wall_i64 t))) d' (λ r _, eq_refl) Hg) as H. fold (remove_row st d t) in H.
  destruct (remove_row st d t) as [st' [|]]; [|done]. by destruct (db 2%nat).
Qed.

Lemma gone_drop_all st ds m t db d' : gone st d' → gone (foldl (λ st (id : nat * DeviceId), drop_followed st (snd id) m t (db id)) st ds) d'.
Proof using. revert st. induction ds as [|d ds IH]; intros st Hg; [done|]. cbn [foldl]. by apply IH, gone_drop. Qed.

(** ** A removal, a grant *)

Lemma next_epoch_inv e e' : next_epoch e = Some e' → e' = e + 1 ∧ (e < 2 ^ 32 → e' < 2 ^ 32).
Proof using. unfold next_epoch, U32_MAX. destruct (e =? _) eqn:E; [done|]. intros [= <-]. apply N.eqb_neq in E. split; [done|lia]. Qed.

Lemma plan_next_epoch_inv e rem random fresh e' key k :
  plan_next_epoch P Q e rem random fresh = Ok (e', key, k) → next_epoch e = Some e'.
Proof using.
  unfold plan_next_epoch. destruct (next_epoch e) as [x|]; cbn; [|done]. destruct (if bool_decide (rem = ∅) then _ else _); cbn; [|done]. by intros [= -> _ _].
Qed.

(** The writes of a removal, as far as they got. *)
Lemma write_rotation_cases st minter target now why epoch db st' ok :
  epoch < 2 ^ 32 → write_rotation st minter target now why epoch db = (st', ok) →
  (load_group_epoch st' = load_group_epoch st ∨ load_group_epoch st' = epoch)
  ∧ if ok then load_group_epoch st' = epoch else ∃ i, db i = false.
Proof using.
  intros He. unfold write_rotation. set (st1 := meta_set st _ _). set (st2 := write_epoch st1 _ _). set (st3 := fst (remove_row st2 _ _)).
  assert (load_group_epoch st1 = epoch) as H1 by (by apply load_epoch_set).
  assert (load_group_epoch st2 = epoch) as H2 by (unfold st2; by rewrite load_epoch_write).
  assert (load_group_epoch st3 = epoch) as H3 by (unfold st3, remove_row; by rewrite on_row_load).
  destruct (db 2%nat) eqn:E2; cbn [negb]; [|intros [= <- <-]; split; [by left|by exists 2%nat]].
  destruct (db 3%nat) eqn:E3; cbn [negb]; [|intros [= <- <-]; split; [by right|by exists 3%nat]].
  destruct (db 4%nat) eqn:E4; cbn [negb]; [|intros [= <- <-]; split; [by right|by exists 4%nat]].
  destruct (db 5%nat) eqn:E5; cbn [negb]; intros [= <- <-]; [|split; [by right|by exists 5%nat]].
  rewrite load_epoch_removal. split; [by right|done].
Qed.

Lemma write_rotation_gone st minter target now why epoch db st' ok :
  write_rotation st minter target now why epoch db = (st', ok) →
  (∀ d, gone st d → gone st' d) ∧ (ok = true → is_Some (device st target) → gone st' target).
Proof using.
  unfold write_rotation. intros H.
  destruct (db 2%nat), (db 3%nat), (db 4%nat), (db 5%nat); cbn [negb] in H; injection H as <- <-;
    (split; [intros d Hg; first [exact Hg|by apply gone_on_row]|]); try done.
  intros _ [r Hr]. by apply (removed_gone (write_epoch (meta_set st _ _) _ _) target now r).
Qed.

(** What a removal leaves: nothing changed; or the key of the next epoch filed, and what the writes left. *)
Lemma remove_cases me target now why ks db random fresh me' r :
  remove_device_because P Q me target now why ks db random fresh = (me', r) →
  (me' = me ∧ (∀ o, r = Ok o → ro_removed o = true → gone (di_store me) target))
  ∨ (∃ epoch key ok, next_epoch (di_group_epoch me) = Some epoch ∧ di_keys me' = <[epoch := key]> (di_keys me)
     ∧ write_rotation (di_store me) (di_device me) target now why epoch db = (di_store me', ok)
     ∧ di_group_epoch me' = (if ok then epoch else di_group_epoch me) ∧ is_Some (device (di_store me) target) ∧ (ok = false → r = Err RmStore)).
Proof using.
  unfold remove_device_because. destruct (db 0%nat); cbn [negb]; [|intros [= <- <-]; left; by split].
  destruct (validate_removal _ _ _) as [u|e]; [|intros [= <- <-]; left; by split].
  destruct (db 1%nat); cbn [negb]; [|intros [= <- <-]; left; by split].
  destruct (device (di_store me) target) as [row|] eqn:Ed; [|intros [= <- <-]; left; split; [done|by intros o [= <-]]].
  destruct (is_active row) eqn:Ea; cbn [negb]; [|intros [= <- <-]; left; split; [done|]; intros o _ _; by exists row].
  destruct (plan_next_epoch _ _ _ _ _ _) as [[[epoch key] k]|e] eqn:Ep; [|intros [= <- <-]; left; by split].
  destruct ks; cbn [negb]; [|intros [= <- <-]; left; by split]. apply plan_next_epoch_inv in Ep.
  destruct (write_rotation _ _ _ _ _ _ _) as [st' ok] eqn:Ew.
  destruct ok; intros [= <- <-]; right; exists epoch, key; [exists true|exists false]; (split_and!; [done|done|exact Ew|done|by eexists|done]).
Qed.

(** A key filed from a grant, and what the writes left. *)
Lemma adopt_cases me sender minter epoch key left_out now db me' r :
  epoch < 2 ^ 32 → adopt me sender minter epoch key left_out now true db = (me', r) →
  di_keys me' = <[epoch := key]> (di_keys me)
  ∧ (load_group_epoch (di_store me') = load_group_epoch (di_store me) ∨ load_group_epoch (di_store me') = epoch)
  ∧ match r with
    | Ok _ => di_group_epoch me' = epoch ∧ load_group_epoch (di_store me') = epoch
    | Err _ => di_group_epoch me' = di_group_epoch me ∧ ∃ i, db i = false
    end.
Proof using.
  intros He. unfold adopt. cbn [negb]. set (st1 := meta_set _ _ _).
  assert (load_group_epoch st1 = epoch) as H1 by (by apply load_epoch_set).
  destruct (db 2%nat) eqn:E2; cbn [negb]; [|intros [= <- <-]; split_and!; [done|by left|done|by exists 2%nat]].
  destruct (db 3%nat) eqn:E3; cbn [negb]; [|intros [= <- <-]; split_and!; [done|by right|done|by exists 3%nat]].
  set (st2 := write_epoch st1 _ _). match goal with |- context [foldl ?f st2 ?l] => set (st3 := foldl f st2 l) end.
  assert (load_group_epoch st3 = epoch) as H3 by (unfold st3; rewrite (drop_all_load st2 _ minter now (λ id j, db (5 + 3 * fst id + j)%nat)); unfold st2; by rewrite load_epoch_write).
  intros [= <- <-]. cbn [di_keys di_store di_group_epoch set_group_epoch with_store with_keys].
  assert (load_group_epoch (if db 4%nat then fst (set_device_key_epoch st3 sender epoch) else st3) = epoch) as H4
    by (destruct (db 4%nat); [unfold set_device_key_epoch; by rewrite on_row_load|done]).
  split_and!; [done|by right|done|exact H4].
Qed.

Lemma adopt_gone me sender minter epoch key left_out now db d :
  gone (di_store me) d → gone (di_store (fst (adopt me sender minter epoch key left_out now true db))) d.
Proof using.
  intros Hg. unfold adopt. cbn [negb]. destruct (db 2%nat); cbn [negb]; [|done]. destruct (db 3%nat); cbn [negb]; [|done].
  cbn [fst di_store set_group_epoch with_store]. set (st2 := write_epoch _ _ _). assert (gone st2 d) as Hg2 by done.
  apply (gone_drop_all st2 (imap pair (List.filter (λ d, negb (d =? di_device me) && negb (d =? sender)) left_out)) minter now
           (λ id j, db (5 + 3 * fst id + j)%nat)) in Hg2. by destruct (db 4%nat); [apply gone_on_row|].
Qed.

(** The store, when the database answers throughout. *)
Lemma adopt_store me sender minter epoch key left_out now db me' r :
  (∀ i, db i = true) → adopt me sender minter epoch key left_out now true db = (me', r) →
  r = Ok tt ∧ di_group_epoch me' = epoch ∧ di_keys me' = <[epoch := key]> (di_keys me) ∧ di_static me' = di_static me ∧ di_device me' = di_device me
  ∧ di_group me' = di_group me
  ∧ di_store me' = fst (set_device_key_epoch (foldl (λ st id, drop_followed st (snd id) minter now (λ j, db (5 + 3 * fst id + j)%nat))
        (write_epoch (meta_set (di_store me) GROUP_EPOCH_KEY (to_be_bytes 4 epoch)) epoch (mkEpochInfo minter left_out))
        (imap pair (List.filter (λ d, negb (d =? di_device me) && negb (d =? sender)) left_out))) sender epoch).
Proof using. intros Hdb. unfold adopt. rewrite !Hdb. cbn [negb]. by intros [= <- <-]. Qed.

(** What a grant leaves: nothing changed; or an adoption, of the current epoch or the next. *)
Lemma grant_cases me msg now ks db me' r :
  apply_grant P Q me msg now ks db = (me', r) →
  (me' = me ∧ ∀ e, r ≠ Adopted e)
  ∨ (∃ sender minter epoch eph sealed left_out key res, msg = GrantKey sender minter epoch eph sealed left_out
     ∧ (epoch = di_group_epoch me ∨ epoch = di_group_epoch me + 1)
     ∧ open_grant P Q (mkWrapped epoch eph sealed) (di_static me) = Ok key
     ∧ adopt me sender minter epoch key left_out now true db = (me', res)
     ∧ r = match res with Ok _ => Adopted epoch | Err why => Ignored why end).
Proof using.
  unfold apply_grant. destruct msg as [| | | |sender minter epoch eph sealed left_out|]; cbn [wrapped_grant]; try (intros [= <- <-]; left; by split).
  destruct (if db 0%nat then device (di_store me) sender else None) as [row|]; [|intros [= <- <-]; left; by split].
  destruct (negb (is_active row)); [intros [= <- <-]; left; by split|].
  destruct (decide_grant _ _ _ _) eqn:Ed; try (intros [= <- <-]; left; by split).
  destruct (open_grant _ _ _ _) as [key|e] eqn:Eo; [|intros [= <- <-]; left; by split].
  assert (epoch = di_group_epoch me ∨ epoch = di_group_epoch me + 1) as He.
  { unfold decide_grant in Ed. destruct (epoch <? di_group_epoch me) eqn:E1; [done|]. apply N.ltb_ge in E1.
    destruct (epoch =? _) eqn:E2; [apply N.eqb_eq in E2; by right|]. destruct (di_group_epoch me <? epoch) eqn:E3; [done|]. apply N.ltb_ge in E3. left. lia. }
  destruct ks; [|unfold adopt; cbn [negb]; intros [= <- <-]; left; by split].
  destruct (adopt me sender minter epoch key left_out now true db) as [me1 res] eqn:Ea. intros H. right.
  exists sender, minter, epoch, eph, sealed, left_out, key, res. destruct res; injection H as <- <-; by split_and!.
Qed.

(** A restart. *)
Lemma finish_open_epoch st keys static minted raw :
  let me := finish_open st keys static minted raw in
  di_group_epoch me = load_group_epoch st ∧ di_keys me = keys ∧ load_group_epoch (di_store me) = load_group_epoch st
  ∧ ∀ d, device (di_store me) d = device st d.
Proof using.
  unfold finish_open. destruct (load_or_mint_device st minted) as [st1 d] eqn:E1. destruct (load_or_mint_group st1 raw) as [st2 g] eqn:E2.
  assert (load_group_epoch st1 = load_group_epoch st ∧ ∀ d, device st1 d = device st d) as [H1 H1'].
  { unfold load_or_mint_device in E1. destruct (meta_get st DEVICE_ID_KEY ≫= id_of); injection E1 as <- _; [done|]. split; [by apply load_epoch_other|done]. }
  assert (load_group_epoch st2 = load_group_epoch st1 ∧ ∀ d, device st2 d = device st1 d) as [H2 H2'].
  { unfold load_or_mint_group in E2. destruct (meta_get st1 GROUP_ID_KEY ≫= id_of); injection E2 as <- _; [done|]. split; [by apply load_epoch_other|done]. }
  cbn. split_and!; [congruence|done|congruence|]. intros d'. by rewrite H2'.
Qed.

(** ** Each call *)

Lemma call_keeps_sound me c :
  sound me → call_wf c →
  sound (rotation_call me c) ∧ di_group_epoch me <= di_group_epoch (rotation_call me c)
  ∧ (∀ e, e < di_group_epoch me → di_keys (rotation_call me c) !! e = di_keys me !! e).
Proof using.
  intros [Hb Hr Hk] Hwf. assert (∀ epoch key e, 0 < e → (e = di_group_epoch me ∨ e = load_group_epoch (di_store me)) ∨ e = epoch →
    is_Some (<[epoch := key]> (di_keys me) !! e)) as Hk'.
  { intros epoch key e He [Hin| ->]; [|rewrite lookup_insert_eq; by eexists]. destruct (decide (epoch = e)) as [->|]; [rewrite lookup_insert_eq; by eexists|].
    rewrite lookup_insert_ne by done. by apply Hk. }
  destruct c as [target now why ks db random fresh|msg now ks db|peer epoch|minted raw]; cbn [rotation_call].
  - destruct (remove_device_because _ _ _ _ _ _ _ _ _ _) as [me' r] eqn:E. cbn [fst].
    apply remove_cases in E as [[-> _]|(epoch & key & ok & (-> & Hb')%next_epoch_inv & Hkeys & Hst & He & _ & _)]; [by split_and!|].
    assert (di_group_epoch me + 1 < 2 ^ 32) as Hb1 by (apply Hb'; lia).
    apply write_rotation_cases in Hst as (Hl & Hok); [|done]. split_and!.
    + split; [lia|destruct ok; lia|]. rewrite Hkeys, He. intros e H0 Hin. apply Hk'; [done|]. destruct ok; destruct Hin; lia.
    + rewrite He. destruct ok; lia.
    + intros e Hlt. rewrite Hkeys. apply lookup_insert_ne. lia.
  - destruct (apply_grant _ _ _ _ _ _ _) as [me' r] eqn:E. cbn [fst].
    apply grant_cases in E as [[-> _]|(sender & minter & epoch & eph & sealed & left_out & key & res & -> & He & _ & Ha & _)]; [by split_and!|].
    cbn [call_wf] in Hwf. apply adopt_cases in Ha as (Hkeys & Hl & Hres); [|done]. split_and!.
    + split; [lia| |].
      * destruct res; [by left; destruct Hres as [-> ->]|]. destruct Hres as [-> _]. lia.
      * rewrite Hkeys. intros e H0 Hin. apply Hk'; [done|]. destruct res; destruct Hres as [Hg Hx]; rewrite ?Hg, ?Hx in Hin; [by right; destruct Hin|].
        destruct Hin as [->| ->]; [by left; left|]. destruct Hl as [-> | ->]; [by left; right|by right].
    + destruct res; destruct Hres as [-> _]; lia.
    + intros e Hlt. rewrite Hkeys. apply lookup_insert_ne. lia.
  - unfold note_peer_epoch. destruct (device _ peer) as [row|]; [|by split_and!]. destruct (is_active row && _); [|by split_and!].
    assert (load_group_epoch (fst (set_device_key_epoch (di_store me) peer epoch)) = load_group_epoch (di_store me)) as Hl by apply on_row_load.
    split_and!; [|done|done]. by split; cbn [di_store di_group_epoch di_keys with_store]; rewrite ?Hl.
  - destruct (finish_open_epoch (di_store me) (di_keys me) (di_static me) minted raw) as (He & Hkeys & Hl & _).
    set (me' := finish_open _ _ _ _ _) in *. split_and!; [|lia|by rewrite Hkeys].
    split; rewrite ?Hl, ?He, ?Hkeys; [done|by left|]. intros e H0 Hin. apply Hk; [done|]. by right; destruct Hin.
Qed.

(** A call whose statements are all answered leaves the record at the epoch in use. *)
Lemma call_answered_record me c :
  load_group_epoch (di_store me) = di_group_epoch me → di_group_epoch me < 2 ^ 32 → call_wf c → call_answered c →
  load_group_epoch (di_store (rotation_call me c)) = di_group_epoch (rotation_call me c).
Proof using.
  intros Hr Hb Hwf Hdb. destruct c as [target now why ks db random fresh|msg now ks db|peer epoch|minted raw]; cbn [rotation_call].
  - destruct (remove_device_because _ _ _ _ _ _ _ _ _ _) as [me' r] eqn:E. cbn [fst].
    apply remove_cases in E as [[-> _]|(epoch & key & ok & (-> & Hb')%next_epoch_inv & Hkeys & Hst & He & _ & _)]; [done|].
    apply write_rotation_cases in Hst as (_ & Hok); [|by apply Hb']. destruct ok; [by rewrite He|]. destruct Hok as [i Hi]. by rewrite Hdb in Hi.
  - destruct (apply_grant _ _ _ _ _ _ _) as [me' r] eqn:E. cbn [fst].
    apply grant_cases in E as [[-> _]|(sender & minter & epoch & eph & sealed & left_out & key & res & -> & He & _ & Ha & _)]; [done|].
    apply adopt_cases in Ha as (_ & _ & Hres); [|done]. destruct res; [by destruct Hres as [-> ->]|]. destruct Hres as (_ & i & Hi). by rewrite Hdb in Hi.
  - unfold note_peer_epoch. destruct (device _ peer) as [row|]; [|done]. destruct (is_active row && _); [|done].
    etrans; [apply on_row_load|done].
  - destruct (finish_open_epoch (di_store me) (di_keys me) (di_static me) minted raw) as (He & _ & Hl & _). congruence.
Qed.

Lemma call_keeps_gone me c d : gone (di_store me) d → gone (di_store (rotation_call me c)) d.
Proof using.
  intros Hg. destruct c as [target now why ks db random fresh|msg now ks db|peer epoch|minted raw]; cbn [rotation_call].
  - destruct (remove_device_because _ _ _ _ _ _ _ _ _ _) as [me' r] eqn:E. cbn [fst].
    apply remove_cases in E as [[-> _]|(epoch & key & ok & _ & _ & Hst & _)]; [done|]. by apply (proj1 (write_rotation_gone _ _ _ _ _ _ _ _ _ Hst)).
  - destruct (apply_grant _ _ _ _ _ _ _) as [me' r] eqn:E. cbn [fst].
    apply grant_cases in E as [[-> _]|(sender & minter & epoch & eph & sealed & left_out & key & res & -> & _ & _ & Ha & _)]; [done|].
    pose proof (adopt_gone me sender minter epoch key left_out now db d Hg) as H. by rewrite Ha in H.
  - unfold note_peer_epoch. destruct (device _ peer) as [row|]; [|done]. destruct (is_active row && _); [|done]. by apply gone_on_row.
  - destruct (finish_open_epoch (di_store me) (di_keys me) (di_static me) minted raw) as (_ & _ & _ & Hd).
    destruct Hg as (r & Hr & Ha). exists r. by rewrite Hd.
Qed.

(** C16. A device's epoch always has its key. Whatever removals, grants, notes and restarts, with the key
    store failing at any of them and the identity database at any statement of a removal or a grant: the
    key of the epoch in use is held, and that of the epoch on record, which a restart goes to and which is
    the same or, after a write that failed, the next (the first epoch's key excepted, which a device makes
    when it pairs); the epoch never falls, and no key of an earlier epoch is lost or changed. As long as
    the database answers, the epoch on record is the one in use. *)
Theorem epoch_keeps_its_key me cs :
  sound me → Forall call_wf cs →
  sound (rotation_run me cs) ∧ di_group_epoch me <= di_group_epoch (rotation_run me cs)
  ∧ (∀ e, e < di_group_epoch me → di_keys (rotation_run me cs) !! e = di_keys me !! e)
  ∧ (load_group_epoch (di_store me) = di_group_epoch me → Forall call_answered cs →
     load_group_epoch (di_store (rotation_run me cs)) = di_group_epoch (rotation_run me cs)).
Proof using.
  revert me. induction cs as [|c cs IH]; intros me Hs Hwf; [by split_and!|]. apply Forall_cons in Hwf as [Hc Hcs].
  destruct (call_keeps_sound me c Hs Hc) as (Hs1 & Hle1 & Hk1). destruct (IH _ Hs1 Hcs) as (Hs2 & Hle2 & Hk2 & Hr2).
  change (rotation_run me (c :: cs)) with (rotation_run (rotation_call me c) cs). split_and!; [done|lia| |].
  - intros e He. rewrite Hk2 by lia. by apply Hk1.
  - intros Hr [Ha Has]%Forall_cons. apply Hr2; [|done]. apply call_answered_record; [done| |done|done]. destruct Hs as [Hb _ _]. lia.
Qed.

(** C17. A removed device stays out. Once a removal said the device is removed, then whatever further
    removals, grants, notes and restarts, with the key store and the identity database failing at any of
    their writes, no key is ever granted to it, from any epoch, and it counts as removed, so that the
    control channel ends at its first frame. *)
Theorem removed_gets_no_key me target now why ks db random fresh me1 o cs ks' peer_epoch fresh' :
  remove_device_because P Q me target now why ks db random fresh = (me1, Ok o) → ro_removed o = true →
  grants_for P Q (rotation_run me1 cs) ks' target peer_epoch fresh' = [] ∧ is_removed (rotation_run me1 cs) target = true.
Proof using.
  intros H Ho. assert (gone (di_store me1) target) as Hg.
  { apply remove_cases in H as [[-> Hg]|(epoch & key & ok & _ & _ & Hw & _ & Hd & Herr)]; [by eapply Hg|].
    apply write_rotation_gone in Hw as [_ Hok]. destruct ok; [by apply Hok|by specialize (Herr eq_refl)]. }
  assert (gone (di_store (rotation_run me1 cs)) target) as (r & Hr & Ha).
  { clear H Ho. revert me1 Hg. induction cs as [|c cs IH]; intros me1 Hg; [done|]. cbn. by apply IH, call_keeps_gone. }
  unfold grants_for, is_removed. rewrite Hr, Ha. cbn [negb]. split; [|done]. by destruct (_ || _).
Qed.
End calls.

(** A grant opens with the key it was sealed to. *)
Lemma wrap_opens P Q {HP : PrimitiveLaws P} {HQ : PairingLaws P Q} key epoch secret fresh nonce :
  length key = KEY_BYTES → fr_nonce fresh = Some nonce → length nonce = NONCE_BYTES →
  ∃ w, wrap_grant_for P Q key epoch (x25519_public Q secret) fresh = Ok w ∧ wg_epoch w = epoch
    ∧ length (wg_sealed w) = (NONCE_BYTES + (KEY_BYTES + TAG_BYTES))%nat ∧ length (wg_ephemeral_public w) = X25519_PUBLIC_KEY_BYTES
    ∧ open_grant P Q w secret = Ok key.
Proof.
  intros Hk Hf Hn. unfold wrap_grant_for, open_grant, derive_wrap_key. rewrite Hf, (dh_agree (P := P)).
  destruct (hkdf_length (P := P) (x25519_public Q (fr_secret fresh) ++ x25519_public Q secret)
              (diffie_hellman Q secret (x25519_public Q (fr_secret fresh))) GRANT_INFO KEY_BYTES) as (okm & Ho & Hlen); [vm_compute; lia|].
  rewrite Ho. cbn [ok_or mbind result_bind].
  destruct (encrypt_total (Q := Q) okm nonce (to_le_bytes 4 epoch) key Hlen Hn) as (c & Hc).
  { unfold blen. rewrite Hk. done. }
  rewrite Hc. cbn [ok_or mbind result_bind]. eexists. split; [reflexivity|]. cbn [wg_epoch wg_sealed wg_ephemeral_public].
  pose proof (encrypt_length _ _ _ _ _ Hc) as Hcl. rewrite length_app, Hn, Hcl, Hk. split_and!; [done|done|apply (public_length (P := P))|].
  rewrite (proj2 (Nat.ltb_ge _ _)) by lia. rewrite Ho. cbn [ok_or mbind result_bind].
  rewrite take_app_length', drop_app_length' by done. rewrite (decrypt_encrypt _ _ _ _ _ Hc). cbn [ok_or mbind result_bind]. by rewrite Hk.
Qed.

(** A removal touches no other row. *)
Lemma drop_followed_other st d m t db d' : d ≠ d' → device (drop_followed st d m t db) d' = device st d'.
Proof.
  intros Hne. unfold drop_followed. destruct (_ && db 1%nat); [|done].
  pose proof (on_row_device st d (λ r, set_removed r (Some (wall_i64 t))) d') as H. fold (remove_row st d t) in H. rewrite decide_False in H by done.
  destruct (remove_row st d t) as [st' [|]]; [|done]. by destruct (db 2%nat); [unfold write_removal; rewrite meta_set_device|].
Qed.

Lemma drop_all_other st ds m t db d' :
  Forall (λ d, d ≠ d') ds → device (foldl (λ st (id : nat * DeviceId), drop_followed st (snd id) m t (db id)) st (imap pair ds)) d' = device st d'.
Proof.
  intros H. assert (Forall (λ id : nat * DeviceId, snd id ≠ d') (imap pair ds)) as Hi.
  { apply Forall_lookup. intros i x Hx. apply list_lookup_imap_Some in Hx as (d & Hd & ->). by apply (Forall_lookup_1 _ _ _ _ H Hd). }
  clear H. revert st. induction Hi as [|id ids Hd _ IH]; intros st; [done|]. cbn [foldl]. by rewrite IH, drop_followed_other.
Qed.

(** The epochs in between, first to last. *)
Lemma epochs_after_cons a b : a < b → epochs_after a b = (a + 1) :: epochs_after (a + 1) b.
Proof.
  intros H. unfold epochs_after. replace (N.to_nat (b - a)) with (S (N.to_nat (b - (a + 1)))) by lia. cbn [seq map]. f_equal; [lia|].
  rewrite <- seq_shift, map_map. apply map_ext. intros i. lia.
Qed.

Lemma epochs_after_nil a b : b <= a → epochs_after a b = [].
Proof. intros H. unfold epochs_after. by replace (N.to_nat (b - a)) with 0%nat by lia. Qed.

(** The table of a device's retained keys. *)
Lemma retain_from_total get acc es :
  (size acc + length es <= MAX_RETAINED_KEY_EPOCHS)%nat →
  ∃ t, retain_from get acc es = Some t
    ∧ ∀ x, t !! x = if decide (x ∈ es) then match fetch get x with Ok (Some k) => Some k | _ => acc !! x end else acc !! x.
Proof.
  revert acc. induction es as [|e es IH]; intros acc Hs; cbn [length] in Hs; cbn [retain_from].
  - exists acc. split; [done|]. intros x. rewrite decide_False; [done|apply not_elem_of_nil].
  - assert (∀ acc', (size acc' <= S (size acc))%nat → (∀ x, acc' !! x = if decide (x = e) then match fetch get e with Ok (Some k) => Some k | _ => acc !! x end else acc !! x) →
      ∃ t, retain_from get acc' es = Some t
        ∧ ∀ x, t !! x = if decide (x ∈ e :: es) then match fetch get x with Ok (Some k) => Some k | _ => acc !! x end else acc !! x) as Hstep.
    { intros acc' Hsz Hacc. destruct (IH acc') as (t & Ht & Hx); [lia|]. exists t. split; [done|]. intros x. rewrite Hx, Hacc.
      destruct (decide (x ∈ e :: es)) as [Hin|Hin]; rewrite elem_of_cons in Hin.
      - destruct (decide (x = e)) as [->|Hne]; [destruct (decide (e ∈ es)); [by destruct (fetch get e) as [[k|]|]|done]|].
        rewrite decide_True by (by destruct Hin). done.
      - rewrite !decide_False by tauto. done. }
    destruct (fetch get e) as [[k|]|] eqn:E; [|apply Hstep; [lia|]; intros x; destruct (decide (x = e)) as [->|]; by try rewrite E..].
    unfold GroupKeys_insert. destruct (negb _ && _) eqn:Ef.
    + apply andb_true_iff in Ef as [_ Ef]. apply Nat.leb_le in Ef. lia.
    + apply Hstep; [destruct (acc !! e) eqn:Ea; [rewrite map_size_insert_Some; [lia|by eexists]|rewrite map_size_insert_None by done; lia]|].
      intros x. destruct (decide (x = e)) as [->|Hne]; [apply lookup_insert_eq|by apply lookup_insert_ne].
Qed.

Lemma retained_holds keys cur lo (K : N → bytes) :
  cur <= lo + 15 → lo <= cur → (∀ x, lo <= x → x <= cur → keys !! x = Some (K x) ∧ length (K x) = KEY_BYTES) →
  ∃ t, retained (ks_get keys true) cur = Some t ∧ ∀ x, lo <= x → x <= cur → t !! x = Some (K x).
Proof.
  intros Hw Hlo HK. unfold retained. assert (∀ x, oldest_epoch cur <= x → x <= cur → x ∈ epochs_upto cur) as Hin.
  { intros x Hx Hx'. unfold epochs_upto. apply list_elem_of_fmap. exists (N.to_nat (x - oldest_epoch cur)). split; [lia|]. apply elem_of_seq. lia. }
  assert (oldest_epoch cur <= lo) as Hold by (unfold oldest_epoch, MAX_RETAINED_KEY_EPOCHS; lia).
  destruct (retain_from_total (ks_get keys true) ∅ (epochs_upto cur)) as (t & -> & Ht).
  { rewrite map_size_empty. unfold epochs_upto. rewrite length_map, length_seq. unfold oldest_epoch, MAX_RETAINED_KEY_EPOCHS. lia. }
  assert (∀ x, lo <= x → x <= cur → t !! x = Some (K x)) as Hx.
  { intros x Hx1 Hx2. rewrite Ht, decide_True by (apply Hin; lia). unfold fetch, ks_get. destruct (HK x Hx1 Hx2) as [-> Hl]. cbn [mbind result_bind]. by rewrite Hl. }
  cbn [mbind option_bind]. rewrite (Hx cur) by lia. by exists t.
Qed.

(** ** A group small enough to compute *)

Definition sample_key (e : N) : bytes := replicate 32 (byte_of_N e).

Definition sample_fresh (e : N) : Fresh := mkFresh [byte_of_N e; x09] (Some (replicate 24 x22)).

(** A row for a device whose secret is given, paired at epoch 0. *)
Definition sample_row (st : IdentityStore) (d : DeviceId) (secret : bytes) : IdentityStore :=
  register_device_as st (mkNewDevice d (str "peer") (sample_public secret) 5 None 0) true.

Definition rotor_store : IdentityStore := sample_row (sample_row IdentityStore_new 2 [x0b]) 3 [x0c].
Definition rotor : DeviceIdentity := mkIdentity 1 [x0a] 9 0 {[0 := sample_key 0]} rotor_store.
Definition follower : DeviceIdentity := mkIdentity 2 [x0b] 9 0 {[0 := sample_key 0]} (sample_row (sample_row IdentityStore_new 1 [x0a]) 3 [x0c]).

(** The first device removes the third. *)
Definition rotated := remove_device sample_primitives sample_pairing rotor 3 100 true (λ _, true) (Some (sample_key 1)) sample_fresh.

Lemma rotated_eq : rotated = (fst rotated, Ok (mkOutcome true false 1 1)).
Proof. rewrite (surjective_pairing rotated). cbn [fst]. f_equal; vm_compute; reflexivity. Qed.

Definition rotor' : DeviceIdentity := fst rotated.

Definition sample_grants := grants_for sample_primitives sample_pairing rotor' true 2 0 sample_fresh.

Example grant_crosses :
  match sample_grants with
  | [g] =>
      let '(me, r) := apply_grant sample_primitives sample_pairing follower (og_message g) 200 true (λ _, true) in
      og_sealed_under g = 0 ∧ r = Adopted 1 ∧ di_group_epoch me = 1 ∧ di_keys me !! 1 = Some (sample_key 1) ∧ is_removed me 3 = true
      ∧ snd (apply_grant sample_primitives sample_pairing me (og_message g) 300 true (λ _, true)) = Kept
  | _ => False
  end
  ∧ grants_for sample_primitives sample_pairing rotor' true 3 0 sample_fresh = [].
Proof. vm_compute. split_and!; reflexivity. Qed.

(** A removal whose second write fails is refused and the device keeps its epoch; after a restart it is on
    the new one, with the row of the device it was to remove active, and grants that device the new key. *)
Example removal_cut_short :
  let '(me, r) := remove_device sample_primitives sample_pairing rotor 3 100 true (λ i, negb (i =? 3)%nat) (Some (sample_key 1)) sample_fresh in
  let restarted := finish_open (di_store me) (di_keys me) (di_static me) 77 None in
  r = Err RmStore ∧ di_group_epoch me = 0 ∧ di_group_epoch restarted = 1 ∧ di_keys restarted !! 1 = Some (sample_key 1) ∧ is_removed restarted 3 = false
  ∧ length (grants_for sample_primitives sample_pairing restarted true 3 0 sample_fresh) = 1%nat.
Proof. vm_compute. split_and!; reflexivity. Qed.

(** A grant, then removals the key store and the database's second write fail, one that works, and a
    restart. *)
Definition sample_calls : list RotationCall :=
  match sample_grants with
  | [g] => [CallGrant (og_message g) 200 true (λ _, true);
            CallRemove 1 300 Manual false (λ _, true) (Some (sample_key 2)) sample_fresh;
            CallRemove 1 300 Manual true (λ i, negb (i =? 3)%nat) (Some (sample_key 2)) sample_fresh;
            CallRemove 1 300 Manual true (λ _, true) (Some (sample_key 2)) sample_fresh;
            CallNote 1 1; CallRestart 77 None]
  | _ => []
  end.

Lemma follower_sound : sound follower.
Proof. split; [done|left; vm_compute; reflexivity|]. intros e He Hin. change (load_group_epoch (di_store follower)) with 0 in Hin. cbn in Hin. lia. Qed.

Lemma sample_calls_wf : Forall call_wf sample_calls.
Proof. apply Forall_forall. intros c Hc. vm_compute in Hc. repeat (apply elem_of_cons in Hc as [->|Hc]; [vm_compute; try done|]). by apply not_elem_of_nil in Hc. Qed.

Lemma epoch_keeps_its_key_witness :
  sound (rotation_run sample_primitives sample_pairing follower sample_calls)
  ∧ di_group_epoch (rotation_run sample_primitives sample_pairing follower sample_calls) = 2.
Proof.
  split; [|vm_compute; reflexivity].
  exact (proj1 (epoch_keeps_its_key sample_primitives sample_pairing follower sample_calls follower_sound sample_calls_wf)).
Defined.

Lemma removed_gets_no_key_witness :
  let later := rotation_run sample_primitives sample_pairing rotor' [CallNote 3 0; CallRemove 2 300 Manual true (λ _, true) (Some (sample_key 2)) sample_fresh] in
  di_group_epoch later = 2 ∧ grants_for sample_primitives sample_pairing later true 3 0 sample_fresh = [].
Proof.
  intros later. split; [vm_compute; reflexivity|].
  refine (proj1 (removed_gets_no_key sample_primitives sample_pairing rotor 3 100 Manual true (λ _, true) (Some (sample_key 1)) sample_fresh rotor' _
    [CallNote 3 0; CallRemove 2 300 Manual true (λ _, true) (Some (sample_key 2)) sample_fresh] true 0 sample_fresh rotated_eq _)).
  reflexivity.
Defined.
