(* ===== verification/Control.v ===== *)
(** The control channel of two devices: [control.rs] of [crates/txtodo-sync/src], and [own_vouch.rs],
    [control_session.rs] and [control_flow.rs] of [crates/txtodo-daemon/src].

    A session carries the peers' epochs, the grants that bring one up to the other, the lists offered and
    the devices vouched for. Each handler gives the messages it sends with the epoch each is sealed under;
    the link takes every frame, and one that fails ends the session. Clocks, the key store's answers and
    random bytes come with each step. The theorem: in a session between two devices of a group, one at most
    fifteen epochs behind, every frame opens, it ends, and then both are on one epoch with the same keys. *)
From S2P Require Import Prelude.
From S2P Require Import Hlc.
From S2P Require Import OpLog.
From S2P Require Import Frame.
From S2P Require Import Message.
From S2P Require Import Sealed.
From S2P Require Import Pairing.
From S2P Require Import Identity.
From S2P Require Import Rotation.
From S2P Require Import Offers.

#[local] Open Scope N_scope.

(** ** control.rs *)

(** The zero ULID: no workspace's id. *)
Definition control_workspace : WorkspaceId := 0.
Definition MAX_GRANT_SEALED_BYTES : nat := 128.

Inductive ControlMessageError :=
| CFrame (e : FrameError)
| CNameTooLong (len max : nat)
| TooManyDevices (len max : nat)
| GrantTooLong (len max : nat)
| CCodec
| CTrailingBytes (n : nat).

Inductive ControlSealError := CsCrypto (e : CryptoError) | CsMessage (e : ControlMessageError).

Definition control_check_caps (m : ControlMessage) : result ControlMessageError unit :=
  match m with
  | Offer _ _ name _ => if (MAX_WORKSPACE_NAME_BYTES <? length name)%nat then Err (CNameTooLong (length name) MAX_WORKSPACE_NAME_BYTES) else Ok tt
  | OwnDevices _ devices => if (MAX_OWN_DEVICES <? length devices)%nat then Err (TooManyDevices (length devices) MAX_OWN_DEVICES) else Ok tt
  | GrantKey _ _ _ _ sealed left_out =>
      if (MAX_GRANT_SEALED_BYTES <? length sealed)%nat then Err (GrantTooLong (length sealed) MAX_GRANT_SEALED_BYTES)
      else if (MAX_OWN_DEVICES <? length left_out)%nat then Err (TooManyDevices (length left_out) MAX_OWN_DEVICES)
      else Ok tt
  | OfferAck _ _ | Decline _ _ | Epoch _ _ => Ok tt
  end.

(** Postcard, for control messages. *)
Record ControlCodec := mkControlCodec {
  control_postcard : ControlMessage → option bytes;
  control_take : bytes → option (ControlMessage * bytes)
}.

(** Ids of 128 bits, epochs of 32, times of 64, a key of the curve. *)
Definition control_wf (m : ControlMessage) : Prop :=
  match m with
  | Offer s w _ t => s < 2 ^ 128 ∧ w < 2 ^ 128 ∧ t < 2 ^ 64
  | OfferAck s w | Decline s w => s < 2 ^ 128 ∧ w < 2 ^ 128
  | OwnDevices s ds => s < 2 ^ 128 ∧ Forall (λ d, d < 2 ^ 128) ds
  | GrantKey s mi e eph _ ds => s < 2 ^ 128 ∧ mi < 2 ^ 128 ∧ e < 2 ^ 32 ∧ length eph = X25519_PUBLIC_KEY_BYTES ∧ Forall (λ d, d < 2 ^ 128) ds
  | Epoch s e => s < 2 ^ 128 ∧ e < 2 ^ 32
  end.

(** A message's bytes decode to it and leave the rest; one of its types within its caps has bytes that fit
    a frame. *)
Class ControlLaws (C : ControlCodec) : Prop := {
  control_take_postcard m b rest : control_postcard C m = Some b → control_take C (b ++ rest) = Some (m, rest);
  control_postcard_fits m : control_wf m → control_check_caps m = Ok tt → ∃ b, control_postcard C m = Some b ∧ blen b <= MAX_FRAME_BYTES
}.

(** A message and the epoch it is sealed under. *)
Abbreviation Word := (N * ControlMessage)%type.

Section control.
Context (P : Primitives) (Q : PairingPrimitives) (C : ControlCodec).

Definition control_encode (m : ControlMessage) : result ControlMessageError Frame :=
  _ ← control_check_caps m;
  b ← ok_or (control_postcard C m) CCodec;
  map_err CFrame (Frame_new b).

Definition control_decode (frame : Frame) : result ControlMessageError ControlMessage :=
  if negb (version frame =? PROTOCOL_VERSION) then Err (CFrame (UnknownVersion (version frame) PROTOCOL_VERSION))
  else
    '(message, rest) ← ok_or (control_take C (body frame)) CCodec;
    if negb (bool_decide (rest = [])) then Err (CTrailingBytes (length rest))
    else _ ← control_check_caps message; Ok message.

Definition seal_control (msg : ControlMessage) (group : GroupId) (epoch : N) (key : GroupKey) (nonce : option bytes) : result ControlSealError Frame :=
  frame ← map_err CsMessage (control_encode msg);
  sealed ← map_err CsCrypto (seal_inner P PROTOCOL_VERSION (mkSealFor group epoch control_workspace) key nonce (body frame));
  Ok (mkFrame PROTOCOL_VERSION sealed).

Definition open_control (frame : Frame) (group : GroupId) (group_keys : GroupKeys) : result ControlSealError ControlMessage :=
  plaintext ← map_err CsCrypto (open_inner P PROTOCOL_VERSION group control_workspace group_keys (body frame));
  map_err CsMessage (control_decode (mkFrame PROTOCOL_VERSION plaintext)).

(** ** own_vouch.rs *)

Definition own_devices_for (me : DeviceIdentity) (peer : DeviceId) : option ControlMessage :=
  if negb (is_direct_own (di_store me) peer) then None
  else Some (OwnDevices (di_device me) (take MAX_OWN_DEVICES (List.filter (λ d, negb (d =? peer)) (direct_own_devices (di_store me))))).

(** Whether the own set changed; [None] when the sender is not a direct own device. *)
Definition store_vouches (me : DeviceIdentity) (sender : DeviceId) (kept : list DeviceId) : DeviceIdentity * option bool :=
  let st := di_store me in
  if negb (is_direct_own st sender) then (me, None)
  else
    let before := vouched_own_devices st in
    let st := set_own_vouches st sender kept in
    (with_store me st, Some (negb (bool_decide (vouched_own_devices st = before)))).

Definition record_own_devices (me : DeviceIdentity) (sender : DeviceId) (devices : list DeviceId) : DeviceIdentity :=
  fst (store_vouches me sender (List.filter (λ d, negb (d =? di_device me)) devices)).

Definition sender_of (m : ControlMessage) : DeviceId :=
  match m with
  | Offer s _ _ _ | OfferAck s _ | Decline s _ | OwnDevices s _ | GrantKey s _ _ _ _ _ | Epoch s _ => s
  end.

(** ** list_workspace.rs, control_session.rs *)

Definition LIST_ID_TIMESTAMP : N := 0x019A115D0001.
Definition is_list_id (id : WorkspaceId) : bool := N.shiftr id 80 =? LIST_ID_TIMESTAMP.

(** [entries]: the registry's workspaces, each with the name this device shows. *)
Definition outbound_offers (entries : list (WorkspaceId * bytes)) : list (WorkspaceId * bytes) :=
  List.filter (λ e, is_list_id (fst e)) entries.

(** What a step finds: the clocks, the key store, the identity database as it answers a grant's statements,
    random bytes for each frame and each grant, and the
    workspaces registered. *)
Record Tick := mkTick {
  tk_now : N;
  tk_instant : N;
  tk_ks : bool;
  tk_db : nat → bool;
  tk_nonce : nat → option bytes;
  tk_fresh : N → Fresh;
  tk_entries : list (WorkspaceId * bytes)
}.

Definition handle_one_message (me : DeviceIdentity) (offers : Offers) (msg : ControlMessage) (t : Tick) : DeviceIdentity * Offers :=
  match msg with
  | Offer sender workspace_id name offered_at_ms => (me, fst (record_offer offers (mkPending sender workspace_id name offered_at_ms) (tk_instant t)))
  | OwnDevices sender devices => (record_own_devices me sender devices, offers)
  | OfferAck _ _ | Decline _ _ | GrantKey _ _ _ _ _ _ | Epoch _ _ => (me, offers)
  end.

(** ** control_flow.rs *)

Record Control := mkControl {
  ct_identity : DeviceIdentity;
  ct_offers : Offers;
  ct_group : GroupId;
  ct_keys : GroupKeys;
  ct_epoch : N;
  ct_dialed : option DeviceId;
  ct_introduced : bool
}.

Definition Control_new (me : DeviceIdentity) (offers : Offers) (keys : GroupKeys) (dialed : option DeviceId) : Control :=
  mkControl me offers (di_group me) keys (di_group_epoch me) dialed false.

Definition with_identity (c : Control) (me : DeviceIdentity) : Control :=
  mkControl me (ct_offers c) (ct_group c) (ct_keys c) (ct_epoch c) (ct_dialed c) (ct_introduced c).

Definition introduce (c : Control) : Control :=
  mkControl (ct_identity c) (ct_offers c) (ct_group c) (ct_keys c) (ct_epoch c) (ct_dialed c) true.

(** The frame a word becomes, if its epoch's key is held and it can be sealed. *)
Definition send (c : Control) (w : Word) (nonce : option bytes) : list Frame :=
  match ct_keys c !! fst w with
  | None => []
  | Some key => match seal_control (snd w) (ct_group c) (fst w) key nonce with Ok f => [f] | Err _ => [] end
  end.

(** Words sent one after another. *)
Fixpoint send_each (c : Control) (ws : list Word) (nonce : nat → option bytes) (i : nat) : list Frame :=
  match ws with
  | [] => []
  | w :: rest => send c w (nonce i) ++ send_each c rest nonce (S i)
  end.

Definition announce (c : Control) (under : N) : Word := (under, Epoch (di_device (ct_identity c)) (ct_epoch c)).

Definition start (c : Control) : list Word :=
  match ct_dialed c with
  | None => []
  | Some peer =>
      let believed := default (ct_epoch c) (believed_epoch (ct_identity c) peer) in
      let under := if bool_decide (is_Some (ct_keys c !! believed)) then N.min (ct_epoch c) believed else ct_epoch c in
      [announce c under]
  end.

(** Under the current epoch; without its key the session ends. *)
Definition send_offers_and_vouch (c : Control) (peer : DeviceId) (t : Tick) : option (list Word) :=
  _ ← ct_keys c !! ct_epoch c;
  let me := ct_identity c in
  let offers := map (λ e, Offer (di_device me) (fst e) (snd e) (tk_now t)) (outbound_offers (tk_entries t)) in
  let own := match own_devices_for me peer with Some m => [m] | None => [] end in
  Some (map (pair (ct_epoch c)) (offers ++ own)).

Definition on_epoch (c : Control) (peer : DeviceId) (peer_epoch : N) (t : Tick) : Control * list Word * bool :=
  let c := with_identity c (note_peer_epoch (ct_identity c) peer peer_epoch) in
  if ct_introduced c then (c, [], true)
  else
    let c := introduce c in
    let hello := match ct_dialed c with None => [announce c (N.min (ct_epoch c) peer_epoch)] | Some _ => [] end in
    let grants := map (λ g, (og_sealed_under g, og_message g)) (grants_for P Q (ct_identity c) (tk_ks t) peer peer_epoch (tk_fresh t)) in
    match send_offers_and_vouch c peer t with
    | Some words => (c, hello ++ grants ++ words, true)
    | None => (c, hello ++ grants, false)
    end.

(** After a grant moved the epoch. *)
Definition refresh (c : Control) (ks : bool) : Control :=
  let me := ct_identity c in
  let keys := default (ct_keys c) (retained (ks_get (di_keys me) ks) (di_group_epoch me)) in
  mkControl me (ct_offers c) (ct_group c) keys (di_group_epoch me) (ct_dialed c) (ct_introduced c).

Definition on_grant (c : Control) (msg : ControlMessage) (t : Tick) : Control * list Word * bool :=
  match apply_grant P Q (ct_identity c) msg (tk_now t) (tk_ks t) (tk_db t) with
  | (me, Adopted epoch) => let c := refresh (with_identity c me) (tk_ks t) in (c, [announce c epoch], true)
  | (me, _) => (with_identity c me, [], true)
  end.

Definition on_message (c : Control) (msg : ControlMessage) (t : Tick) : Control * list Word * bool :=
  if is_removed (ct_identity c) (sender_of msg) then (c, [], false)
  else
    match msg with
    | Epoch sender epoch => on_epoch c sender epoch t
    | GrantKey _ _ _ _ _ _ => on_grant c msg t
    | _ =>
        let '(me, offers) := handle_one_message (ct_identity c) (ct_offers c) msg t in
        (mkControl me offers (ct_group c) (ct_keys c) (ct_epoch c) (ct_dialed c) (ct_introduced c), [], true)
    end.

(** A turn of [run]: the frames sent, and whether the session goes on. *)
Definition receive (c : Control) (frame : Frame) (t : Tick) : Control * list Frame * bool :=
  match open_control frame (ct_group c) (ct_keys c) with
  | Err _ => (c, [], false)
  | Ok msg =>
      let '(c', words, on) := on_message c msg t in
      (c', send_each c' words (tk_nonce t) 0, on)
  end.

(** [drive_control_session] up to its loop: a session, and its first frames. *)
Definition open_session (me : DeviceIdentity) (offers : Offers) (dialed : option DeviceId) (t : Tick) : option (Control * list Frame) :=
  match fetch (ks_get (di_keys me) (tk_ks t)) (di_group_epoch me) with
  | Ok (Some _) =>
      keys ← retained (ks_get (di_keys me) (tk_ks t)) (di_group_epoch me);
      let c := Control_new me offers keys dialed in
      Some (c, send_each c (start c) (tk_nonce t) 0)
  | _ => None
  end.
End control.

(** ** Two sessions and their link *)

(** Each end, whether it still runs, and the frames on their way to it. *)
Record Channel := mkChannel {
  ch_x : Control; ch_y : Control;
  ch_x_on : bool; ch_y_on : bool;
  ch_to_x : list Frame; ch_to_y : list Frame
}.

Inductive Turn := TurnX | TurnY.

Section channel.
Context (P : Primitives) (Q : PairingPrimitives) (C : ControlCodec).

(** An end reads its next frame; [false] when there is none for it or it has stopped. *)
Definition channel_step (s : Channel) (tt : Tick * Turn) : Channel * bool :=
  match tt with
  | (t, TurnX) =>
      match ch_to_x s with
      | f :: rest =>
          if ch_x_on s then
            let '(c, out, on) := receive P Q C (ch_x s) f t in
            (mkChannel c (ch_y s) on (ch_y_on s) rest (ch_to_y s ++ out), true)
          else (s, false)
      | [] => (s, false)
      end
  | (t, TurnY) =>
      match ch_to_y s with
      | f :: rest =>
          if ch_y_on s then
            let '(c, out, on) := receive P Q C (ch_y s) f t in
            (mkChannel (ch_x s) c (ch_x_on s) on (ch_to_x s ++ out) rest, true)
          else (s, false)
      | [] => (s, false)
      end
  end.

(** The channel after some turns, and how many of them read a frame. *)
Fixpoint channel_run (s : Channel) (ts : list (Tick * Turn)) : Channel * nat :=
  match ts with
  | [] => (s, 0%nat)
  | t :: ts' =>
      let '(s', read) := channel_step s t in
      let '(s'', k) := channel_run s' ts' in
      (s'', (if read then 1 else 0) + k)%nat
  end.
End channel.

Section catching_up.
Context (P : Primitives) (Q : PairingPrimitives) (C : ControlCodec).
Context {HP : PrimitiveLaws P} {HQ : PairingLaws P Q} {HC : ControlLaws C}.

(** The group, its key of each epoch, and two devices of it: [dx] at epoch [n], [dy] at [m], behind or
    not; both hold the keys from [lo] on. *)
Context (grp : GroupId) (K : N → bytes) (lo n m : N) (dx dy : DeviceId) (sy : bytes) (k_x k_y : nat).
Context (Hgrp : grp < 2 ^ 128) (HK : ∀ e, length (K e) = KEY_BYTES) (Hlo : lo <= m) (Hmn : m <= n) (Hwin : n <= lo + 15) (Hn : n < 2 ^ 32).
Context (Hdx : dx < 2 ^ 128) (Hdy : dy < 2 ^ 128) (Hne : dx ≠ dy).












(** ** Sealing and opening *)









(** ** What a step leaves alone *)





(** ** Offers and vouches *)


(** ** Grants *)




(** ** What each end does with a word *)

(** The first words of an end that accepted. *)
Definition hello_of (c : Control) (under : N) : list Word := match ct_dialed c with None => [announce c under] | Some _ => [] end.












(** ** The channel as it goes *)
















(** ** A session's start *)


End catching_up.



(** ** A codec small enough to compute *)

Definition get (k : nat) (bs : bytes) : option (bytes * bytes) := if (k <=? length bs)%nat then Some (take k bs, drop k bs) else None.
Definition get_id (bs : bytes) : option (DeviceId * bytes) := '(a, r) ← get 16 bs; d ← id_of a; Some (d, r).
Definition get_le (w : nat) (bs : bytes) : option (N * bytes) := '(a, r) ← get w bs; Some (from_le_bytes a, r).
Definition put_var (b : bytes) : bytes := to_le_bytes 2 (blen b) ++ b.
Definition get_var (bs : bytes) : option (bytes * bytes) := '(l, r) ← get_le 2 bs; get (N.to_nat l) r.
Definition put_ids (ds : list DeviceId) : bytes := put_var (concat (map id_bytes ds)).
Definition get_ids (bs : bytes) : option (list DeviceId * bytes) := '(b, r) ← get_var bs; Some (omap id_of (chunks16 b), r).

Definition sample_put (m : ControlMessage) : bytes :=
  match m with
  | Offer s w name t => x00 :: id_bytes s ++ id_bytes w ++ to_le_bytes 8 t ++ put_var name
  | OfferAck s w => x01 :: id_bytes s ++ id_bytes w
  | Decline s w => x02 :: id_bytes s ++ id_bytes w
  | OwnDevices s ds => x03 :: id_bytes s ++ put_ids ds
  | GrantKey s mi e eph sealed ds => x04 :: id_bytes s ++ id_bytes mi ++ to_le_bytes 4 e ++ eph ++ put_var sealed ++ put_ids ds
  | Epoch s e => x05 :: id_bytes s ++ to_le_bytes 4 e
  end.

Definition sample_take (bs : bytes) : option (ControlMessage * bytes) :=
  match bs with
  | x00 :: r => '(s, r) ← get_id r; '(w, r) ← get_id r; '(t, r) ← get_le 8 r; '(name, r) ← get_var r; Some (Offer s w name t, r)
  | x01 :: r => '(s, r) ← get_id r; '(w, r) ← get_id r; Some (OfferAck s w, r)
  | x02 :: r => '(s, r) ← get_id r; '(w, r) ← get_id r; Some (Decline s w, r)
  | x03 :: r => '(s, r) ← get_id r; '(ds, r) ← get_ids r; Some (OwnDevices s ds, r)
  | x04 :: r => '(s, r) ← get_id r; '(mi, r) ← get_id r; '(e, r) ← get_le 4 r; '(eph, r) ← get 32 r; '(sealed, r) ← get_var r; '(ds, r) ← get_ids r;
                Some (GrantKey s mi e eph sealed ds, r)
  | x05 :: r => '(s, r) ← get_id r; '(e, r) ← get_le 4 r; Some (Epoch s e, r)
  | _ => None
  end.

#[local] Instance control_wf_dec m : Decision (control_wf m).
Proof. destruct m; apply _. Defined.

#[local] Instance control_caps_dec m : Decision (control_check_caps m = Ok tt).
Proof. destruct (control_check_caps m) as [[]|e] eqn:E; [by left|by right]. Defined.

Definition sample_codec : ControlCodec := {|
  control_postcard := λ m, if decide (control_wf m ∧ control_check_caps m = Ok tt) then Some (sample_put m) else None;
  control_take := sample_take
|}.

Lemma get_app a k r : length a = k → get k (a ++ r) = Some (a, r).
Proof. intros <-. unfold get. rewrite (proj2 (Nat.leb_le _ _)) by (rewrite length_app; lia). by rewrite take_app_length, drop_app_length. Qed.

Lemma get_id_app d r : d < 2 ^ 128 → get_id (id_bytes d ++ r) = Some (d, r).
Proof. intros Hd. unfold get_id. rewrite get_app by apply id_bytes_length. cbn [mbind option_bind]. by rewrite id_of_bytes. Qed.

Lemma get_le_app w v r : v < 256 ^ N.of_nat w → get_le w (to_le_bytes w v ++ r) = Some (v, r).
Proof. intros Hv. unfold get_le. rewrite get_app by apply to_le_bytes_length. cbn [mbind option_bind]. by rewrite from_to_le. Qed.

Lemma get_var_app b r : blen b < 2 ^ 16 → get_var (put_var b ++ r) = Some (b, r).
Proof.
  intros Hb. unfold get_var, put_var. rewrite <- app_assoc, get_le_app by done. cbn [mbind option_bind]. apply get_app. unfold blen. lia.
Qed.

Lemma ids_length ds : (length ds <= MAX_OWN_DEVICES)%nat → blen (concat (map id_bytes ds)) <= 16384.
Proof. intros H. unfold blen. rewrite concat_ids_length. unfold MAX_OWN_DEVICES in H. lia. Qed.

Lemma get_ids_app ds r : (length ds <= MAX_OWN_DEVICES)%nat → Forall (λ d, d < 2 ^ 128) ds → get_ids (put_ids ds ++ r) = Some (ds, r).
Proof.
  intros Hl Hd. unfold get_ids, put_ids. rewrite get_var_app by (apply ids_length in Hl; lia). cbn [mbind option_bind]. rewrite chunks16_ids. do 2 f_equal.
  clear Hl. induction Hd as [|d ds Hd _ IH]; [done|]. cbn [map omap list_omap]. by rewrite id_of_bytes, IH.
Qed.

Lemma caps_bounds m : control_check_caps m = Ok tt →
  match m with
  | Offer _ _ name _ => (length name <= 256)%nat
  | OwnDevices _ ds => (length ds <= MAX_OWN_DEVICES)%nat
  | GrantKey _ _ _ _ sealed ds => (length sealed <= 128)%nat ∧ (length ds <= MAX_OWN_DEVICES)%nat
  | _ => True
  end.
Proof.
  destruct m; cbn [control_check_caps]; try done.
  - destruct (_ <? _)%nat eqn:E; [done|]. intros _. by apply Nat.ltb_ge in E.
  - destruct (_ <? _)%nat eqn:E; [done|]. intros _. by apply Nat.ltb_ge in E.
  - destruct (_ <? length sealed)%nat eqn:E; [done|]. destruct (_ <? length left_out)%nat eqn:E'; [done|]. intros _. by apply Nat.ltb_ge in E, E'.
Qed.

#[export] Instance sample_codec_laws : ControlLaws sample_codec.
Proof.
  split.
  - intros m b rest. cbn [control_postcard control_take sample_codec]. destruct (decide _) as [[Hwf Hcap]|]; [|done]. intros [= <-]. apply caps_bounds in Hcap.
    destruct m; cbn [control_wf] in Hwf; cbn [sample_put app]; rewrite <- ?app_assoc; cbn [sample_take]; destruct_and?;
      repeat (rewrite ?get_id_app, ?get_le_app, ?get_ids_app, ?get_var_app, ?get_app by (done || unfold blen; lia); cbn [mbind option_bind]); done.
  - intros m Hwf Hcap. eexists. cbn [control_postcard sample_codec]. rewrite decide_True by done. split; [reflexivity|]. apply caps_bounds in Hcap.
    unfold MAX_FRAME_BYTES. destruct m; cbn [control_wf] in Hwf; destruct_and?; unfold blen, sample_put, put_ids, put_var; cbn [length];
      rewrite ?length_app, ?id_bytes_length, ?to_le_bytes_length, ?concat_ids_length; unfold MAX_OWN_DEVICES, X25519_PUBLIC_KEY_BYTES in *; lia.
Qed.

(** ** A session small enough to compute *)

Definition sample_tick : Tick := mkTick 500 500 true (λ _, true) (λ _, Some (replicate 24 x22)) sample_fresh [(N.shiftl LIST_ID_TIMESTAMP 80, str "list"); (8, str "folder")].

(** The device that rotated, and the one behind; the one behind dials. *)
Definition session_of (a b : DeviceIdentity) (P : Primitives) : option Channel :=
  x ← open_session P sample_codec a Offers_new None sample_tick;
  y ← open_session P sample_codec b Offers_new (Some (di_device a)) sample_tick;
  Some (mkChannel (fst x) (fst y) true true (snd y) (snd x)).

(** What an end of the session is left with. *)
Definition left_with (c : Control) : N * option bytes * nat :=
  (di_group_epoch (ct_identity c), di_keys (ct_identity c) !! di_group_epoch (ct_identity c), length (list_offers (ct_offers c))).

Definition both_turns (k : nat) : list (Tick * Turn) := concat (replicate k [(sample_tick, TurnX); (sample_tick, TurnY)]).

Example session_sample :
  (s ← session_of rotor' follower sample_primitives;
   let '(s, reads) := channel_run sample_primitives sample_pairing sample_codec s (both_turns 6) in
   Some (left_with (ch_x s), left_with (ch_y s), (ch_x_on s, ch_y_on s), length (ch_to_x s ++ ch_to_y s), reads))
  = Some (1, Some (sample_key 1), 1%nat, (1, Some (sample_key 1), 1%nat), (true, true), 0%nat, 8%nat).
Proof. vm_compute. reflexivity. Qed.










(** ** Two removals at once *)

(** The sample cipher with a tag that is the key's first bytes, so that a frame opens under its own key
    alone. *)
Definition keyed_primitives : Primitives := {|
  encrypt := λ k n a p, Some (p ++ take TAG_BYTES (k ++ replicate TAG_BYTES x00));
  decrypt := λ k n a c,
    if bool_decide (drop (length c - TAG_BYTES) c = take TAG_BYTES (k ++ replicate TAG_BYTES x00)) then Some (take (length c - TAG_BYTES) c) else None;
  signing_bytes := signing_bytes sample_primitives;
  ed_sign := ed_sign sample_primitives;
  verify_strict := verify_strict sample_primitives;
  public_key := public_key sample_primitives;
  derive_group_op_signing_key := derive_group_op_signing_key sample_primitives;
  to_allocvec := to_allocvec sample_primitives;
  take_from_bytes := take_from_bytes sample_primitives
|}.

#[export] Instance keyed_primitives_laws : PrimitiveLaws keyed_primitives.
Proof.
  assert (∀ k : bytes, length (take TAG_BYTES (k ++ replicate TAG_BYTES x00)) = TAG_BYTES) as Htag.
  { intros k. rewrite length_take, length_app, length_replicate. lia. }
  split.
  - intros k n a p c [= <-]. rewrite length_app, Htag. reflexivity.
  - intros k n a p c [= <-]. cbn [decrypt keyed_primitives]. rewrite length_app, Htag, Nat.add_sub.
    by rewrite drop_app_length, bool_decide_eq_true_2, take_app_length.
  - exact (verify_signed (P := sample_primitives)).
  - exact (take_allocvec (P := sample_primitives)).
Qed.

(** Both devices removed the third before they met: the rotations gave each its own key of epoch 1. *)
Definition other_rotor : DeviceIdentity :=
  fst (remove_device keyed_primitives sample_pairing follower 3 100 true (λ _, true) (Some (replicate 32 x77)) sample_fresh).

(** Neither peer reports a lower epoch, so neither sends a grant, and the answer to the first hello is
    sealed with a key the other does not have: its session ends there, each device at epoch 1 with its own
    key of it. *)
Example rotations_that_crossed :
  (s ← session_of rotor' other_rotor keyed_primitives;
   let '(s, reads) := channel_run keyed_primitives sample_pairing sample_codec s (both_turns 6) in
   Some (di_group_epoch (ct_identity (ch_x s)), di_group_epoch (ct_identity (ch_y s)), bool_decide (di_keys (ct_identity (ch_x s)) !! 1 = di_keys (ct_identity (ch_y s)) !! 1),
         (ch_x_on s, ch_y_on s)))
  = Some (1, 1, false, (true, false))
  ∧ grants_for keyed_primitives sample_pairing rotor' true 2 1 sample_fresh = []
  ∧ grants_for keyed_primitives sample_pairing other_rotor true 1 1 sample_fresh = []
  ∧ map (λ f, is_ok (open_control keyed_primitives sample_codec f 9 (di_keys other_rotor)))
        (send keyed_primitives sample_codec (Control_new rotor' Offers_new (di_keys rotor') None) (1, Epoch 1 1) (Some (replicate 24 x22))) = [false].
Proof. vm_compute. split_and!; reflexivity. Qed.
