(* ===== verification/Relay.v ===== *)
(** The relay server: [store.rs], [ratelimit.rs], [http.rs], [retention.rs] and [bounds.rs] of [relay/src].

    A table is the list of its rows, in the order they were inserted, with the counter SQLite keeps for an
    [AUTOINCREMENT] key; every statement comes with whether SQLite answers it. A handler is a state machine
    whose steps are the stretches between its locks, so that any number of them interleave; [Push::wake],
    an interface, is the trace of its calls. The theorems: the tables are bounded mailboxes that only their
    own device sees, whatever statements fail; a request answered as created has woken its device after its
    blob was stored, however the handlers interleave; and the rate a group gets is bounded. *)
From S2P Require Import Prelude.

#[local] Open Scope Z_scope.

(** ** bounds.rs *)

Definition MAX_BLOB_SIZE : nat := Z.to_nat (256 * 1024).
Definition MAX_BLOBS_PER_DEVICE : nat := 64.
Definition MAX_RETENTION_DAYS : Z := 30.
Definition MAX_WAKEUP_QUEUE : nat := 16.
Definition MAX_REQUESTS_PER_GROUP_PER_WINDOW : N := 120.
Definition REQUEST_WINDOW_MS : Z := 60000.

(** [i64]'s saturating arithmetic. *)
Definition sat_i64 (z : Z) : Z := Z.max (- 2 ^ 63) (Z.min (2 ^ 63 - 1) z).

(** ** store.rs *)

Record StoredBlob := mkStored { sb_blob : bytes; sb_stored_at_ms : Z }.

Record QueuedWake := mkQueued { qw_id : N; qw_payload : bytes }.

Inductive StoreError := BlobTooLarge (len max : nat) | Sqlite (context : string).

Record Limits := mkLimits { max_blob_bytes : nat; max_blobs_per_device : nat; max_wakeup_queue : nat }.

Definition Limits_default : Limits := mkLimits MAX_BLOB_SIZE MAX_BLOBS_PER_DEVICE MAX_WAKEUP_QUEUE.

Record Write := mkWrite { wr_group : bytes; wr_device : bytes; wr_blob : bytes; wr_now_ms : Z }.

(** The rows of [blobs] and of [wakeups]. *)
Record BlobRow := mkBlobRow { bl_id : N; bl_group : bytes; bl_device : bytes; bl_blob : bytes; bl_stored_at_ms : Z }.
Record WakeRow := mkWakeRow { wk_id : N; wk_device : bytes; wk_payload : bytes; wk_created_at_ms : Z }.

Record Store := mkStore { st_blobs : list BlobRow; st_blob_seq : N; st_wakeups : list WakeRow; st_wake_seq : N }.

Definition Store_new : Store := mkStore [] 0 [] 0.

Definition with_blobs (s : Store) (rows : list BlobRow) : Store := mkStore rows (st_blob_seq s) (st_wakeups s) (st_wake_seq s).
Definition with_wakeups (s : Store) (rows : list WakeRow) : Store := mkStore (st_blobs s) (st_blob_seq s) rows (st_wake_seq s).

(** The statement's answer, or the error of its context. *)
Definition sql (ok : bool) (context : string) : result StoreError unit := if ok then Ok tt else Err (Sqlite context).

(** [ORDER BY id ASC]. *)
Definition in_id_order {A} (id : A → N) (rows : list A) : list A := stable_sort (λ a b, (id a <=? id b)%N) rows.

(** The rows left, and the answer; [ok_count] and [ok_delete]: whether each statement is answered. *)
Definition evict_oldest {A} (id : A → N) (where_clause : A → bool) (cap : nat) (ok_count ok_delete : bool) (rows : list A)
  : list A * result StoreError unit :=
  match sql ok_count "count rows" with
  | Err e => (rows, Err e)
  | Ok _ =>
      let over := (length (List.filter where_clause rows) - cap)%nat in
      if Nat.eqb over 0 then (rows, Ok tt)
      else
        match sql ok_delete "evict oldest" with
        | Err e => (rows, Err e)
        | Ok _ =>
            let old := map id (take over (in_id_order id (List.filter where_clause rows))) in
            (List.filter (λ r, negb (bool_decide (id r ∈ old))) rows, Ok tt)
        end
  end.

Definition of_mailbox (group device : bytes) (r : BlobRow) : bool := bool_decide (bl_group r = group) && bool_decide (bl_device r = device).
Definition of_device (device : bytes) (r : WakeRow) : bool := bool_decide (wk_device r = device).

Definition insert_blob (s : Store) (w : Write) : Store :=
  let id := (st_blob_seq s + 1)%N in
  mkStore (st_blobs s ++ [mkBlobRow id (wr_group w) (wr_device w) (wr_blob w) (wr_now_ms w)]) id (st_wakeups s) (st_wake_seq s).

Definition insert_wakeup (s : Store) (w : Write) : Store :=
  let id := (st_wake_seq s + 1)%N in
  mkStore (st_blobs s) (st_blob_seq s) (st_wakeups s ++ [mkWakeRow id (wr_device w) (wr_group w) (wr_now_ms w)]) id.

(** [ok]: whether each statement is answered, in order. *)
Definition put (s : Store) (w : Write) (limits : Limits) (ok : nat → bool) : Store * result StoreError unit :=
  if (max_blob_bytes limits <? length (wr_blob w))%nat then (s, Err (BlobTooLarge (length (wr_blob w)) (max_blob_bytes limits)))
  else
    match sql (ok 0%nat) "insert blob" with
    | Err e => (s, Err e)
    | Ok _ =>
        let s := insert_blob s w in
        match evict_oldest bl_id (of_mailbox (wr_group w) (wr_device w)) (max_blobs_per_device limits) (ok 1%nat) (ok 2%nat) (st_blobs s) with
        | (rows, Err e) => (with_blobs s rows, Err e)
        | (rows, Ok _) =>
            let s := with_blobs s rows in
            match sql (ok 3%nat) "insert wakeup" with
            | Err e => (s, Err e)
            | Ok _ =>
                let s := insert_wakeup s w in
                let '(rows, r) := evict_oldest wk_id (of_device (wr_device w)) (max_wakeup_queue limits) (ok 4%nat) (ok 5%nat) (st_wakeups s) in
                (with_wakeups s rows, r)
            end
        end
    end.

Definition get (s : Store) (group device : bytes) (ok : bool) : result StoreError (list StoredBlob) :=
  _ ← sql ok "query get";
  Ok (map (λ r, mkStored (bl_blob r) (bl_stored_at_ms r)) (in_id_order bl_id (List.filter (of_mailbox group device) (st_blobs s)))).

Definition list_devices_of (s : Store) (group : bytes) (ok : bool) : result StoreError (list bytes) :=
  _ ← sql ok "query list";
  Ok (stable_sort bytes_leb (remove_dups (map bl_device (List.filter (λ r, bool_decide (bl_group r = group)) (st_blobs s))))).

Definition pending_wakeups (s : Store) (device : bytes) (ok : bool) : result StoreError (list QueuedWake) :=
  _ ← sql ok "query wakeups";
  Ok (map (λ r, mkQueued (wk_id r) (wk_payload r)) (in_id_order wk_id (List.filter (of_device device) (st_wakeups s)))).

Definition remove_wakeup (s : Store) (id : N) (ok : bool) : Store * result StoreError unit :=
  match sql ok "remove wakeup" with
  | Err e => (s, Err e)
  | Ok _ => (with_wakeups s (List.filter (λ r, negb (wk_id r =? id)%N) (st_wakeups s)), Ok tt)
  end.

Definition sweep_expired (s : Store) (now_ms retention_days : Z) (ok : bool) : Store * result StoreError nat :=
  let cutoff_ms := sat_i64 (now_ms - sat_i64 (retention_days * 86400000)) in
  match sql ok "sweep expired" with
  | Err e => (s, Err e)
  | Ok _ =>
      let kept := List.filter (λ r, negb (bl_stored_at_ms r <? cutoff_ms)) (st_blobs s) in
      (with_blobs s kept, Ok (length (st_blobs s) - length kept)%nat)
  end.

(** ** ratelimit.rs *)

Record Window := mkWindow { started_at_ms : Z; count : N }.

Abbreviation RateLimiter := (gmap bytes Window).

Definition allow (l : RateLimiter) (group : bytes) (now_ms : Z) (cap : N) (window_ms : Z) : RateLimiter * bool :=
  let window := default (mkWindow now_ms 0) (l !! group) in
  let window := if window_ms <=? sat_i64 (now_ms - started_at_ms window) then mkWindow now_ms 0 else window in
  if (cap <=? count window)%N then (<[group := window]> l, false)
  else (<[group := mkWindow (started_at_ms window) (count window + 1)]> l, true).

(** ** http.rs *)

Record AppState := mkAppState { as_store : Store; as_limiter : RateLimiter; as_limits : Limits; as_rate_cap : N; as_rate_window_ms : Z }.

Definition AppState_new (store : Store) (limits : Limits) : AppState :=
  mkAppState store ∅ limits MAX_REQUESTS_PER_GROUP_PER_WINDOW REQUEST_WINDOW_MS.

Definition with_relay_store (a : AppState) (s : Store) : AppState := mkAppState s (as_limiter a) (as_limits a) (as_rate_cap a) (as_rate_window_ms a).

Inductive Response :=
| Created | TooManyRequests | PayloadTooLarge | InternalError
| Blobs (views : list StoredBlob)
| Devices (ids : list bytes).

Definition store_error_response (e : StoreError) : Response :=
  match e with BlobTooLarge _ _ => PayloadTooLarge | Sqlite _ => InternalError end.

Definition allowed (a : AppState) (group : bytes) (now_ms : Z) : AppState * bool :=
  let '(l, yes) := allow (as_limiter a) group now_ms (as_rate_cap a) (as_rate_window_ms a) in
  (mkAppState (as_store a) l (as_limits a) (as_rate_cap a) (as_rate_window_ms a), yes).

(** A request, and a handler between two of its locks: [put_blob] reads the clock, asks the limiter, writes,
    reads the queue, and then for each wake-up rings the device and removes the row. *)
Inductive Handler :=
| PutBlob (group device body : bytes)
| PutAsking (group device body : bytes) (now_ms : Z)
| PutStoring (w : Write)
| Reading (device : bytes)
| Delivering (device : bytes) (wakes : list QueuedWake)
| Removing (device : bytes) (id : N) (wakes : list QueuedWake)
| GetBlobs (group device : bytes)
| ListDevices (group : bytes)
| Answered (r : Response).

(** What a step finds: the clock, and which statements are answered: those of a write in order, a read, a
    delete. *)
Record Tick := mkTick { tk_now_ms : Z; tk_put : nat → bool; tk_read : bool; tk_delete : bool }.

(** What the trace holds: a blob stored for a device, a call of [Push::wake]. *)
Inductive Event := Stored (handler : nat) (device : bytes) | Woke (device payload : bytes).

(** The stretch of [put_blob] under the store's lock. *)
Definition put_blob (a : AppState) (i : nat) (w : Write) (t : Tick) : AppState * Handler * list Event :=
  match put (as_store a) w (as_limits a) (tk_put t) with
  | (s, Ok _) => (with_relay_store a s, Reading (wr_device w), [Stored i (wr_device w)])
  | (s, Err e) => (with_relay_store a s, Answered (store_error_response e), [])
  end.

(** [read_pending]; a failure is logged and ends the draining. *)
Definition read_pending (a : AppState) (device : bytes) (t : Tick) : Handler :=
  match pending_wakeups (as_store a) device (tk_read t) with
  | Ok rows => Delivering device rows
  | Err _ => Answered Created
  end.

(** The loop of [drain_wakeups] and [deliver_one]'s first half: the push's answer is only logged. *)
Definition drain_wakeups (device : bytes) (wakes : list QueuedWake) : Handler * list Event :=
  match wakes with
  | [] => (Answered Created, [])
  | wake :: rest => (Removing device (qw_id wake) rest, [Woke device (qw_payload wake)])
  end.

(** Its second half. *)
Definition deliver_one (a : AppState) (device : bytes) (id : N) (wakes : list QueuedWake) (t : Tick) : AppState * Handler :=
  (with_relay_store a (fst (remove_wakeup (as_store a) id (tk_delete t))), Delivering device wakes).

Definition get_blobs (a : AppState) (group device : bytes) (t : Tick) : Response :=
  match get (as_store a) group device (tk_read t) with Ok blobs => Blobs blobs | Err e => store_error_response e end.

Definition list_devices (a : AppState) (group : bytes) (t : Tick) : Response :=
  match list_devices_of (as_store a) group (tk_read t) with Ok ids => Devices ids | Err e => store_error_response e end.

Definition handler_step (a : AppState) (i : nat) (h : Handler) (t : Tick) : AppState * Handler * list Event :=
  match h with
  | PutBlob group device body => (a, PutAsking group device body (tk_now_ms t), [])
  | PutAsking group device body now_ms =>
      let '(a, yes) := allowed a group now_ms in
      (a, if yes then PutStoring (mkWrite group device body now_ms) else Answered TooManyRequests, [])
  | PutStoring w => put_blob a i w t
  | Reading device => (a, read_pending a device t, [])
  | Delivering device wakes => let '(h, es) := drain_wakeups device wakes in (a, h, es)
  | Removing device id wakes => let '(a, h) := deliver_one a device id wakes t in (a, h, [])
  | GetBlobs group device => (a, Answered (get_blobs a group device t), [])
  | ListDevices group => (a, Answered (list_devices a group t), [])
  | Answered _ => (a, h, [])
  end.

(** ** retention.rs *)

Definition run_one_sweep (a : AppState) (retention_days : Z) (t : Tick) : AppState :=
  with_relay_store a (fst (sweep_expired (as_store a) (tk_now_ms t) retention_days (tk_delete t))).

(** ** The server: its handlers, and the sweep's task *)

Record Server := mkServer { sv_state : AppState; sv_handlers : list Handler; sv_trace : list Event }.

Inductive Move := Run (i : nat) | Sweep (retention_days : Z).

Definition server_step (s : Server) (m : Move * Tick) : Server :=
  match m with
  | (Run i, t) =>
      match sv_handlers s !! i with
      | None => s
      | Some h =>
          let '(a, h, es) := handler_step (sv_state s) i h t in
          mkServer a (<[i := h]> (sv_handlers s)) (sv_trace s ++ es)
      end
  | (Sweep days, t) => mkServer (run_one_sweep (sv_state s) days t) (sv_handlers s) (sv_trace s)
  end.

Definition server_run (s : Server) (ms : list (Move * Tick)) : Server := foldl server_step s ms.

(** ** Tables in the order of their keys *)

(** The last [cap] of a list. *)
Definition keep_last {A} (cap : nat) (l : list A) : list A := drop (length l - cap) l.

Lemma keep_last_length {A} cap (l : list A) : (length (keep_last cap l) <= cap)%nat.
Proof. unfold keep_last. rewrite length_drop. lia. Qed.

Lemma keep_last_map {A B} (f : A → B) cap l : map f (keep_last cap l) = keep_last cap (map f l).
Proof. unfold keep_last. by rewrite length_map, skipn_map. Qed.

Section rows.
Context {A : Type} (id : A → N).

Definition in_order (rows : list A) : Prop := StronglySorted N.lt (map id rows).

Lemma in_order_cons r rows : in_order (r :: rows) ↔ in_order rows ∧ ∀ x, x ∈ rows → (id r < id x)%N.
Proof.
  unfold in_order. change (map id (r :: rows)) with (id r :: map id rows). split.
  - intros [Hs Hr]%StronglySorted_inv. split; [done|]. rewrite Forall_forall in Hr. intros x Hx. by apply Hr, list_elem_of_fmap_2.
  - intros [Hs Hr]. constructor; [done|]. apply Forall_forall. intros y (x & -> & Hx)%list_elem_of_fmap. by apply Hr.
Qed.

Lemma in_filter (p : A → bool) rows x : x ∈ List.filter p rows ↔ x ∈ rows ∧ p x = true.
Proof. by rewrite !list_elem_of_In, filter_In. Qed.

Lemma in_order_filter p rows : in_order rows → in_order (List.filter p rows).
Proof.
  induction rows as [|r rows IH]; [done|]. intros [Hs Hr]%in_order_cons. cbn [List.filter]. destruct (p r); [|by apply IH].
  apply in_order_cons. split; [by apply IH|]. intros x [Hx _]%in_filter. by apply Hr.
Qed.

Lemma in_id_order_id rows : in_order rows → in_id_order id rows = rows.
Proof.
  intros H. apply stable_sort_id. induction rows as [|r rows IH]; [constructor|]. apply in_order_cons in H as [Hs Hr].
  constructor; [by apply IH|]. apply Forall_forall. intros x Hx. apply N.leb_le. specialize (Hr x Hx). lia.
Qed.

Lemma in_order_app o n : in_order (o ++ n) → in_order o ∧ in_order n ∧ ∀ x y, x ∈ o → y ∈ n → (id x < id y)%N.
Proof.
  induction o as [|r o IH]; cbn [app].
  - intros H. split_and!; [constructor|done|]. by intros x y ?%elem_of_nil.
  - intros [(Ho & Hn & Hlt)%IH Hr]%in_order_cons. split_and!; [|done|].
    + apply in_order_cons. split; [done|]. intros x Hx. apply Hr, elem_of_app. by left.
    + intros x y [->|Hx]%elem_of_cons Hy; [|by apply Hlt]. apply Hr, elem_of_app. by right.
Qed.

Lemma in_order_snoc rows r seq : in_order rows → Forall (λ x, (id x <= seq)%N) rows → id r = (seq + 1)%N → in_order (rows ++ [r]).
Proof.
  intros Hs Hq Hr. induction Hq as [|x rows Hx Hq IH]; cbn [app]; [by repeat constructor|].
  apply in_order_cons in Hs as [Hs Hlt]. apply in_order_cons. split; [by apply IH|].
  intros y [Hy|Hy]%elem_of_app; [by apply Hlt|]. apply list_elem_of_singleton in Hy as ->. lia.
Qed.

(** A key names one row. *)
Lemma in_order_inj rows r r' : in_order rows → r ∈ rows → r' ∈ rows → id r = id r' → r = r'.
Proof.
  induction rows as [|x rows IH]; intros Hs Hr Hr' He; [by apply elem_of_nil in Hr|]. apply in_order_cons in Hs as [Hs Hlt].
  apply elem_of_cons in Hr as [->|Hr], Hr' as [->|Hr']; [done|specialize (Hlt _ Hr'); lia|specialize (Hlt _ Hr); lia|by apply IH].
Qed.

Lemma filter_filter_comm (p q : A → bool) l : List.filter p (List.filter q l) = List.filter q (List.filter p l).
Proof.
  induction l as [|x l IH]; [done|]. cbn [List.filter]. destruct (q x) eqn:E1, (p x) eqn:E2; cbn [List.filter]; by rewrite ?E1, ?E2, ?IH.
Qed.

(** What an eviction leaves: the newest of the rows it is about, and every other row; nothing changes
    when a statement fails. *)
Lemma evict_cases p cap okc okd rows rows' r :
  in_order rows → evict_oldest id p cap okc okd rows = (rows', r) →
  (r = Ok tt ∧ List.filter p rows' = keep_last cap (List.filter p rows) ∧ (∃ q, rows' = List.filter q rows)
     ∧ ∀ x, x ∈ rows → p x = false → x ∈ rows')
  ∨ (∃ c, r = Err (Sqlite c) ∧ rows' = rows).
Proof.
  intros Hs. unfold evict_oldest, sql. destruct okc; [|intros [= <- <-]; right; by eexists].
  destruct (Nat.eqb _ 0) eqn:E.
  - intros [= <- <-]. left. apply Nat.eqb_eq in E. split_and!; [done|unfold keep_last; by rewrite E| |done].
    exists (λ _, true). symmetry. by apply filter_all.
  - destruct okd; [|intros [= <- <-]; right; by eexists]. intros [= <- <-]. left.
    pose proof (in_order_filter p rows Hs) as HF. rewrite (in_id_order_id _ HF). unfold keep_last. set (F := List.filter p rows) in *. set (k := (length F - cap)%nat).
    assert (in_order (take k F ++ drop k F)) as H2 by (by rewrite take_drop). apply in_order_app in H2 as (_ & _ & Hlt).
    split_and!; [done| |by eexists|].
    + rewrite filter_filter_comm. fold F. etransitivity; [apply (f_equal (List.filter _)); symmetry; exact (take_drop k F)|]. rewrite List.filter_app.
      rewrite (filter_none _ (take k F)), (filter_all _ (drop k F)); [done| |].
      * intros x Hx. apply negb_true_iff, bool_decide_eq_false. intros (y & He & Hy)%list_elem_of_fmap. specialize (Hlt y x Hy Hx). lia.
      * intros x Hx. apply negb_false_iff, bool_decide_eq_true. by apply list_elem_of_fmap_2.
    + intros x Hx Hp. apply in_filter. split; [done|]. apply negb_true_iff, bool_decide_eq_false. intros (y & Hy & Hin)%list_elem_of_fmap.
      assert (y ∈ F) as HyF by (rewrite <- (take_drop k F); apply elem_of_app; by left). apply in_filter in HyF as [HyR Hpy].
      pose proof (in_order_inj rows x y Hs Hx HyR Hy). congruence.
Qed.
End rows.

(** ** The tables as mailboxes *)

(** What a reader can see: the blobs of each mailbox and the wake-ups of each device, oldest first. *)
Record Mailboxes := mkMailboxes { mb_box : bytes → bytes → list StoredBlob; mb_wakes : bytes → list QueuedWake }.

Definition no_mail : Mailboxes := mkMailboxes (λ _ _, []) (λ _, []).

Definition blob_view (r : BlobRow) : StoredBlob := mkStored (bl_blob r) (bl_stored_at_ms r).
Definition wake_view (r : WakeRow) : QueuedWake := mkQueued (wk_id r) (wk_payload r).

Definition mail_of (s : Store) : Mailboxes :=
  mkMailboxes (λ g d, map blob_view (List.filter (of_mailbox g d) (st_blobs s))) (λ d, map wake_view (List.filter (of_device d) (st_wakeups s))).

Inductive Call :=
| CallPut (w : Write) (limits : Limits) (ok : nat → bool)
| CallRemove (id : N) (ok : bool)
| CallSweep (now_ms retention_days : Z) (ok : bool).

Definition store_call (s : Store) (c : Call) : Store * result StoreError unit :=
  match c with
  | CallPut w limits ok => put s w limits ok
  | CallRemove id ok => remove_wakeup s id ok
  | CallSweep now days ok => let '(s, r) := sweep_expired s now days ok in (s, _ ← r; Ok tt)
  end.

Definition store_calls (s : Store) (cs : list Call) : Store := foldl (λ s c, fst (store_call s c)) s cs.

(** What a call does to mailboxes. A write joins its mailbox and its device's queue, each kept to its
    newest few; one that fails may have joined one or both, kept or not; nothing else is touched. *)
Definition mail_step (m : Mailboxes) (c : Call) (r : result StoreError unit) (m' : Mailboxes) : Prop :=
  match c with
  | CallPut w limits _ =>
      let g := wr_group w in let d := wr_device w in
      let box := mb_box m g d ++ [mkStored (wr_blob w) (wr_now_ms w)] in
      (∀ g' d', (g', d') ≠ (g, d) → mb_box m' g' d' = mb_box m g' d')
      ∧ (∀ d', d' ≠ d → mb_wakes m' d' = mb_wakes m d')
      ∧ match r with
        | Ok _ =>
            (length (wr_blob w) <= max_blob_bytes limits)%nat
            ∧ mb_box m' g d = keep_last (max_blobs_per_device limits) box
            ∧ ∃ id, (∀ d' q, q ∈ mb_wakes m d' → (qw_id q < id)%N)
                ∧ mb_wakes m' d = keep_last (max_wakeup_queue limits) (mb_wakes m d ++ [mkQueued id g])
        | Err (BlobTooLarge len max) =>
            len = length (wr_blob w) ∧ max = max_blob_bytes limits ∧ (max < len)%nat ∧ mb_box m' g d = mb_box m g d ∧ mb_wakes m' d = mb_wakes m d
        | Err (Sqlite _) =>
            (mb_box m' g d = mb_box m g d ∨ mb_box m' g d = box ∨ mb_box m' g d = keep_last (max_blobs_per_device limits) box)
            ∧ (mb_wakes m' d = mb_wakes m d ∨ ∃ id, mb_wakes m' d = mb_wakes m d ++ [mkQueued id g])
        end
  | CallRemove id _ =>
      (∀ g d, mb_box m' g d = mb_box m g d)
      ∧ ∀ d, mb_wakes m' d = if is_ok r then List.filter (λ q, negb (qw_id q =? id)%N) (mb_wakes m d) else mb_wakes m d
  | CallSweep now days _ =>
      (∀ d, mb_wakes m' d = mb_wakes m d)
      ∧ ∀ g d, mb_box m' g d = if is_ok r then List.filter (λ b, negb (sb_stored_at_ms b <? sat_i64 (now - sat_i64 (days * 86400000)))) (mb_box m g d) else mb_box m g d
  end.

(** The keys rise and none is over its table's counter. *)
Record store_wf (s : Store) : Prop := {
  sw_blobs : in_order bl_id (st_blobs s);
  sw_blob_seq : Forall (λ r, (bl_id r <= st_blob_seq s)%N) (st_blobs s);
  sw_wakeups : in_order wk_id (st_wakeups s);
  sw_wake_seq : Forall (λ r, (wk_id r <= st_wake_seq s)%N) (st_wakeups s)
}.

Lemma Store_new_wf : store_wf Store_new.
Proof. split; constructor. Qed.

Lemma filter_Forall {A} (P : A → Prop) p l : Forall P l → Forall P (List.filter p l).
Proof. rewrite !Forall_forall. intros H x [Hx _]%in_filter. by apply H. Qed.

Lemma filter_snoc {A} (p : A → bool) l x : List.filter p (l ++ [x]) = List.filter p l ++ (if p x then [x] else []).
Proof. rewrite List.filter_app. cbn [List.filter]. by destruct (p x). Qed.

Lemma of_mailbox_spec g d r : of_mailbox g d r = true ↔ bl_group r = g ∧ bl_device r = d.
Proof. unfold of_mailbox. by rewrite andb_true_iff, !bool_decide_eq_true. Qed.

Lemma of_device_spec d r : of_device d r = true ↔ wk_device r = d.
Proof. apply bool_decide_eq_true. Qed.

(** A row two readers cannot both see. *)
Lemma of_mailbox_other g d g' d' r : (g', d') ≠ (g, d) → of_mailbox g' d' r = true → of_mailbox g d r = false.
Proof.
  intros Hne [Hg Hd]%of_mailbox_spec. destruct (of_mailbox g d r) eqn:E; [|done]. apply of_mailbox_spec in E as [<- <-]. by subst.
Qed.

Lemma of_device_other d d' r : d' ≠ d → of_device d' r = true → of_device d r = false.
Proof. intros Hne Hd%of_device_spec. destruct (of_device d r) eqn:E; [|done]. apply of_device_spec in E as <-. by subst. Qed.

(** Rows one reader cannot see are left alone by an eviction for it. *)
Lemma evict_other {A} (id : A → N) (p p' : A → bool) rows rows' :
  in_order id rows → (∃ q, rows' = List.filter q rows) → (∀ x, x ∈ rows → p x = false → x ∈ rows') → (∀ x, p' x = true → p x = false) →
  List.filter p' rows' = List.filter p' rows.
Proof.
  intros Hs (q & ->) Hkept Hdis. rewrite filter_filter_comm. apply filter_all. intros x [Hx Hp]%in_filter.
  specialize (Hkept x Hx (Hdis x Hp)). by apply in_filter in Hkept as [_ ?].
Qed.

Lemma insert_blob_wf s w : store_wf s → store_wf (insert_blob s w).
Proof.
  intros [Hb Hbs Hw Hws]. split; cbn; [by eapply in_order_snoc| |done|done].
  apply Forall_app. split; [eapply Forall_impl; [exact Hbs|]; cbn; lia|]. repeat constructor. cbn. lia.
Qed.

Lemma insert_wakeup_wf s w : store_wf s → store_wf (insert_wakeup s w).
Proof.
  intros [Hb Hbs Hw Hws]. split; cbn; [done|done|by eapply in_order_snoc|].
  apply Forall_app. split; [eapply Forall_impl; [exact Hws|]; cbn; lia|]. repeat constructor. cbn. lia.
Qed.

Lemma with_blobs_wf s q : store_wf s → store_wf (with_blobs s (List.filter q (st_blobs s))).
Proof. intros [Hb Hbs Hw Hws]. split; cbn; [by apply in_order_filter|by apply filter_Forall|done|done]. Qed.

Lemma with_wakeups_wf s q : store_wf s → store_wf (with_wakeups s (List.filter q (st_wakeups s))).
Proof. intros [Hb Hbs Hw Hws]. split; cbn; [done|done|by apply in_order_filter|by apply filter_Forall]. Qed.

(** The rows of [blobs] after an insert and its eviction. *)
Lemma blobs_after s w cap okc okd rows r :
  store_wf s → evict_oldest bl_id (of_mailbox (wr_group w) (wr_device w)) cap okc okd (st_blobs (insert_blob s w)) = (rows, r) →
  let s' := with_blobs (insert_blob s w) rows in let g := wr_group w in let d := wr_device w in
  let box := mb_box (mail_of s) g d ++ [mkStored (wr_blob w) (wr_now_ms w)] in
  store_wf s' ∧ (∀ g' d', (g', d') ≠ (g, d) → mb_box (mail_of s') g' d' = mb_box (mail_of s) g' d')
  ∧ mb_box (mail_of s') g d = (if is_ok r then keep_last cap box else box) ∧ (r = Ok tt ∨ ∃ c, r = Err (Sqlite c)).
Proof.
  intros Hwf He s' g d box. pose proof (insert_blob_wf s w Hwf) as Hwf1. pose proof (sw_blobs _ Hwf1) as Hs.
  assert (∀ g' d', (g', d') ≠ (g, d) → List.filter (of_mailbox g' d') (st_blobs (insert_blob s w)) = List.filter (of_mailbox g' d') (st_blobs s)) as Hins.
  { intros g' d' Hne. cbn [insert_blob st_blobs]. rewrite filter_snoc. destruct (of_mailbox g' d' _) eqn:E; [|apply app_nil_r].
    apply of_mailbox_spec in E as [<- <-]. by destruct Hne. }
  assert (map blob_view (List.filter (of_mailbox g d) (st_blobs (insert_blob s w))) = box) as Hown.
  { cbn [insert_blob st_blobs]. rewrite filter_snoc, (proj2 (of_mailbox_spec _ _ _)) by done. by rewrite map_app. }
  apply evict_cases in He as [(-> & Hf & Hq & Hk)|(c & -> & ->)]; [| |exact Hs].
  - split_and!; [by destruct Hq as (q & ->); apply with_blobs_wf| | |by left].
    + intros g' d' Hne. cbn [mb_box mail_of with_blobs st_blobs s']. f_equal. etransitivity; [|by apply Hins].
      apply (evict_other bl_id (of_mailbox g d)); try done. intros x. by apply of_mailbox_other.
    + cbn [mb_box mail_of with_blobs st_blobs s' is_ok]. fold g d in Hf. by rewrite Hf, keep_last_map, Hown.
  - split_and!; [by destruct s; destruct Hwf1| | |right; by eexists].
    + intros g' d' Hne. cbn [mb_box mail_of with_blobs st_blobs s']. f_equal. by apply Hins.
    + cbn [mb_box mail_of with_blobs st_blobs s' is_ok]. exact Hown.
Qed.

(** And those of [wakeups]. *)
Lemma wakeups_after s w cap okc okd rows r :
  store_wf s → evict_oldest wk_id (of_device (wr_device w)) cap okc okd (st_wakeups (insert_wakeup s w)) = (rows, r) →
  let s' := with_wakeups (insert_wakeup s w) rows in let d := wr_device w in
  let queue := mb_wakes (mail_of s) d ++ [mkQueued (st_wake_seq s + 1) (wr_group w)] in
  store_wf s' ∧ (∀ d', d' ≠ d → mb_wakes (mail_of s') d' = mb_wakes (mail_of s) d')
  ∧ mb_wakes (mail_of s') d = (if is_ok r then keep_last cap queue else queue) ∧ (r = Ok tt ∨ ∃ c, r = Err (Sqlite c)).
Proof.
  intros Hwf He s' d queue. pose proof (insert_wakeup_wf s w Hwf) as Hwf1. pose proof (sw_wakeups _ Hwf1) as Hs.
  assert (∀ d', d' ≠ d → List.filter (of_device d') (st_wakeups (insert_wakeup s w)) = List.filter (of_device d') (st_wakeups s)) as Hins.
  { intros d' Hne. cbn [insert_wakeup st_wakeups]. rewrite filter_snoc. destruct (of_device d' _) eqn:E; [|apply app_nil_r].
    by apply of_device_spec in E as <-. }
  assert (map wake_view (List.filter (of_device d) (st_wakeups (insert_wakeup s w))) = queue) as Hown.
  { cbn [insert_wakeup st_wakeups]. rewrite filter_snoc, (proj2 (of_device_spec _ _)) by done. by rewrite map_app. }
  apply evict_cases in He as [(-> & Hf & Hq & Hk)|(c & -> & ->)]; [| |exact Hs].
  - split_and!; [by destruct Hq as (q & ->); apply with_wakeups_wf| | |by left].
    + intros d' Hne. cbn [mb_wakes mail_of with_wakeups st_wakeups s']. f_equal. etransitivity; [|by apply Hins].
      apply (evict_other wk_id (of_device d)); try done. intros x. by apply of_device_other.
    + cbn [mb_wakes mail_of with_wakeups st_wakeups s' is_ok]. fold d in Hf. by rewrite Hf, keep_last_map, Hown.
  - split_and!; [by destruct s; destruct Hwf1| | |right; by eexists].
    + intros d' Hne. cbn [mb_wakes mail_of with_wakeups st_wakeups s']. f_equal. by apply Hins.
    + cbn [mb_wakes mail_of with_wakeups st_wakeups s' is_ok]. exact Hown.
Qed.

Lemma wake_seq_fresh s d q : store_wf s → q ∈ mb_wakes (mail_of s) d → (qw_id q < st_wake_seq s + 1)%N.
Proof.
  intros Hwf (r & -> & [Hr _]%in_filter)%list_elem_of_fmap. pose proof (sw_wake_seq _ Hwf) as H. rewrite Forall_forall in H. specialize (H r Hr). cbn. lia.
Qed.

Lemma put_steps s w limits ok s' r :
  store_wf s → put s w limits ok = (s', r) → store_wf s' ∧ mail_step (mail_of s) (CallPut w limits ok) r (mail_of s').
Proof.
  intros Hwf. unfold put. destruct (_ <? _)%nat eqn:El.
  { intros [= <- <-]. apply Nat.ltb_lt in El. by split_and!. }
  apply Nat.ltb_ge in El. unfold sql at 1. destruct (ok 0%nat); [|intros [= <- <-]; split; [done|]; cbn; split_and!; [done|done|by left|by left]].
  destruct (evict_oldest bl_id _ _ _ _ _) as [rows r1] eqn:E1. destruct (blobs_after _ _ _ _ _ _ _ Hwf E1) as (Hwf1 & Ho1 & Hb1 & Hr1).
  set (s1 := with_blobs (insert_blob s w) rows) in *.
  assert (∀ d, mb_wakes (mail_of s1) d = mb_wakes (mail_of s) d) as Hw1 by done.
  destruct Hr1 as [->|[c ->]]; [|intros [= <- <-]; split; [done|]; cbn [mail_step]; split_and!; [done|done|by right; left|by left]].
  unfold sql. destruct (ok 3%nat); [|intros [= <- <-]; split; [done|]; cbn [mail_step]; split_and!; [done|done|by right; right|by left]].
  destruct (evict_oldest wk_id _ _ _ _ _) as [rows2 r2] eqn:E2. intros [= <- <-].
  destruct (wakeups_after _ _ _ _ _ _ _ Hwf1 E2) as (Hwf2 & Ho2 & Hq2 & Hr2). split; [done|]. set (s2 := with_wakeups (insert_wakeup s1 w) rows2) in *.
  assert (∀ g d, mb_box (mail_of s2) g d = mb_box (mail_of s1) g d) as Hb2 by done.
  cbn [mail_step]. split_and!; [intros; by rewrite Hb2, Ho1|intros; by rewrite Ho2|].
  destruct Hr2 as [->|[c ->]]; cbn [is_ok] in *.
  - split_and!; [done|by rewrite Hb2|]. exists (st_wake_seq s + 1)%N. split; [intros d' q; by apply wake_seq_fresh|]. by rewrite Hq2, Hw1.
  - split; [right; right; by rewrite Hb2|]. right. exists (st_wake_seq s + 1)%N. by rewrite Hq2, Hw1.
Qed.

Lemma store_call_steps s c s' r :
  store_wf s → store_call s c = (s', r) → store_wf s' ∧ mail_step (mail_of s) c r (mail_of s').
Proof.
  intros Hwf H. destruct c as [w limits ok|id ok|now days ok]; cbn [store_call] in H; [by apply put_steps| |].
  - unfold remove_wakeup, sql in H. destruct ok; injection H as <- <-; [|by split].
    split; [by apply with_wakeups_wf|]. split; [done|]. intros d. cbn [mb_wakes mail_of with_wakeups st_wakeups is_ok].
    rewrite filter_filter_comm, <- filter_map_comm. done.
  - unfold sweep_expired, sql in H. destruct ok; injection H as <- <-; [|by split].
    split; [by apply with_blobs_wf|]. split; [done|]. intros g d. cbn [mb_box mail_of with_blobs st_blobs is_ok mbind result_bind].
    rewrite filter_filter_comm, <- filter_map_comm. done.
Qed.

(** Calls that use one set of limits and whose statements are all answered. *)
Definition call_within (limits : Limits) (c : Call) : Prop :=
  match c with CallPut _ l ok => l = limits ∧ ∀ i, ok i = true | CallRemove _ _ | CallSweep _ _ _ => True end.

Definition mail_within (limits : Limits) (m : Mailboxes) : Prop :=
  (∀ g d, (length (mb_box m g d) <= max_blobs_per_device limits)%nat) ∧ (∀ d, (length (mb_wakes m d) <= max_wakeup_queue limits)%nat).

(** With its statements answered, a write is refused for its size alone. *)
Lemma put_answered s w limits ok s' e : (∀ i, ok i = true) → put s w limits ok = (s', Err e) → ∃ len max, e = BlobTooLarge len max.
Proof.
  intros Hok. unfold put. destruct (_ <? _)%nat; [intros [= <- <-]; by do 2 eexists|]. unfold evict_oldest, sql. rewrite !Hok.
  destruct (Nat.eqb _ 0); destruct (Nat.eqb _ 0); done.
Qed.

Lemma store_call_within s c limits : store_wf s → call_within limits c → mail_within limits (mail_of s) → mail_within limits (mail_of (fst (store_call s c))).
Proof.
  intros Hwf Hc [Hb Hw]. destruct (store_call s c) as [s' r] eqn:E. destruct (store_call_steps _ _ _ _ Hwf E) as [_ H]. cbn [fst].
  destruct c as [w l ok|id ok|now days ok]; cbn [mail_step call_within] in *.
  - destruct Hc as [-> Hok]. destruct H as (Hob & How & Hr). assert (mb_box (mail_of s') (wr_group w) (wr_device w) = mb_box (mail_of s) (wr_group w) (wr_device w)
        ∧ mb_wakes (mail_of s') (wr_device w) = mb_wakes (mail_of s) (wr_device w)
      ∨ (length (mb_box (mail_of s') (wr_group w) (wr_device w)) <= max_blobs_per_device limits)%nat ∧ (length (mb_wakes (mail_of s') (wr_device w)) <= max_wakeup_queue limits)%nat) as Hown.
    { destruct r as [u|e].
      - right. destruct Hr as (_ & -> & id & _ & ->). split; apply keep_last_length.
      - cbn [store_call] in E. destruct (put_answered _ _ _ _ _ _ Hok E) as (len & max & ->). left. by destruct Hr as (_ & _ & _ & ? & ?). }
    split.
    + intros g d. destruct (decide ((g, d) = (wr_group w, wr_device w))) as [[= -> ->]|Hne]; [|by rewrite Hob].
      destruct Hown as [[-> _]|[? _]]; [apply Hb|done].
    + intros d. destruct (decide (d = wr_device w)) as [->|Hne]; [|by rewrite How]. destruct Hown as [[_ ->]|[_ ?]]; [apply Hw|done].
  - destruct H as [H1 H2]. split; [intros g d; by rewrite H1|]. intros d. rewrite H2. destruct (is_ok r); [|apply Hw]. etransitivity; [apply List.filter_length_le|apply Hw].
  - destruct H as [H1 H2]. split; [|intros d; by rewrite H1]. intros g d. rewrite H2. destruct (is_ok r); [|apply Hb]. etransitivity; [apply List.filter_length_le|apply Hb].
Qed.

Lemma store_calls_wf cs : store_wf (store_calls Store_new cs).
Proof.
  unfold store_calls. generalize Store_new_wf. generalize Store_new. induction cs as [|c cs IH]; intros s Hs; [done|]. cbn [foldl]. apply IH.
  destruct (store_call s c) as [s' r] eqn:E. by destruct (store_call_steps _ _ _ _ Hs E).
Qed.

(** C18. The relay's tables are bounded mailboxes. After any calls on a fresh store, whatever statements
    failed: a call does to the mailboxes what [mail_step] says, so a write that succeeds joins its own
    mailbox and its own device's queue, each kept to its newest few, and no call touches what another
    group or device reads; the reads give the mailboxes; and while no statement fails no mailbox or queue
    is over its cap. *)
Theorem mailboxes_refine cs limits :
  let s := store_calls Store_new cs in
  (∀ c s' r, store_call s c = (s', r) → mail_step (mail_of s) c r (mail_of s'))
  ∧ (∀ g d, get s g d true = Ok (mb_box (mail_of s) g d))
  ∧ (∀ d, pending_wakeups s d true = Ok (mb_wakes (mail_of s) d))
  ∧ (∀ g, ∃ ds, list_devices_of s g true = Ok ds ∧ NoDup ds ∧ StronglySorted (λ a b, bytes_leb a b = true) ds ∧ ∀ d, d ∈ ds ↔ mb_box (mail_of s) g d ≠ [])
  ∧ (Forall (call_within limits) cs → mail_within limits (mail_of s)).
Proof.
  intros s. pose proof (store_calls_wf cs) as Hwf. fold s in Hwf. split_and!.
  - intros c s' r Hc. by destruct (store_call_steps _ _ _ _ Hwf Hc).
  - intros g d. unfold get. cbn [sql mbind result_bind]. rewrite in_id_order_id; [done|]. apply in_order_filter, Hwf.
  - intros d. unfold pending_wakeups. cbn [sql mbind result_bind]. rewrite in_id_order_id; [done|]. apply in_order_filter, Hwf.
  - intros g. eexists. split; [reflexivity|]. split_and!.
    + rewrite stable_sort_perm. apply NoDup_remove_dups.
    + apply stable_sort_sorted; [apply bytes_leb_total|apply bytes_leb_trans].
    + intros d. rewrite stable_sort_elem, elem_of_remove_dups. cbn [mb_box mail_of]. split.
      * intros (r & -> & [Hr Hg]%in_filter)%list_elem_of_fmap Hnil. apply map_eq_nil in Hnil. apply bool_decide_eq_true in Hg.
        assert (r ∈ List.filter (of_mailbox g (bl_device r)) (st_blobs s)) as Hin by (apply in_filter; split; [done|]; by apply of_mailbox_spec).
        rewrite Hnil in Hin. by apply elem_of_nil in Hin.
      * intros Hne. destruct (List.filter (of_mailbox g d) (st_blobs s)) as [|r l] eqn:E; [done|]. assert (r ∈ List.filter (of_mailbox g d) (st_blobs s)) as Hr by (rewrite E; left).
        apply in_filter in Hr as [Hr [Hg Hd]%of_mailbox_spec]. subst d. apply list_elem_of_fmap_2, in_filter. split; [done|]. by apply bool_decide_eq_true.
  - intros Hcs. subst s. clear Hwf. unfold store_calls.
    assert (mail_within limits (mail_of Store_new)) as Hm by (split; intros; cbn; lia). revert Hm. generalize Store_new_wf. generalize Store_new.
    induction Hcs as [|c cs Hc _ IH]; intros s Hs Hm; [done|]. cbn [foldl]. apply IH.
    + destruct (store_call s c) as [s' r] eqn:E. by destruct (store_call_steps _ _ _ _ Hs E).
    + by apply store_call_within.
Qed.

(** ** A request that was stored wakes its device *)

(** Sent in, before any step. *)
Definition fresh (h : Handler) : Prop :=
  match h with PutBlob _ _ _ | GetBlobs _ _ | ListDevices _ => True | _ => False end.

(** After handler [i] stored a blob for [d], the device was woken. *)
Definition woke_since (tr : list Event) (i : nat) (d : bytes) : Prop :=
  ∃ t1 t2 t3 payload, tr = t1 ++ Stored i d :: t2 ++ Woke d payload :: t3.

(** A handler has woken for [id] and is about to remove it. *)
Definition removing (hs : list Handler) (id : N) : Prop := ∃ j d wakes, hs !! j = Some (Removing d id wakes).

(** A wake-up waits that no handler is past. *)
Definition live (s : Store) (hs : list Handler) (d : bytes) : Prop :=
  ∃ r, r ∈ st_wakeups s ∧ wk_device r = d ∧ ¬ removing hs (wk_id r).

(** Keys a handler read for [d] name no row of another device. *)
Definition ids_of (s : Store) (d : bytes) (ids : list N) : Prop :=
  ∀ id, id ∈ ids → (id <= st_wake_seq s)%N ∧ ∀ r, r ∈ st_wakeups s → wk_id r = id → wk_device r = d.

Definition asked (req : Handler) (d : bytes) : Prop := ∃ g b, req = PutBlob g d b.

Definition handler_ok (s : Store) (hs : list Handler) (tr : list Event) (i : nat) (req h : Handler) : Prop :=
  match h with
  | PutBlob _ d _ | PutAsking _ d _ _ => asked req d
  | PutStoring w => asked req (wr_device w)
  | Reading d => asked req d ∧ Stored i d ∈ tr ∧ (woke_since tr i d ∨ live s hs d)
  | Delivering d wakes => asked req d ∧ Stored i d ∈ tr ∧ (woke_since tr i d ∨ wakes ≠ []) ∧ ids_of s d (map qw_id wakes)
  | Removing d id wakes => asked req d ∧ Stored i d ∈ tr ∧ woke_since tr i d ∧ ids_of s d (id :: map qw_id wakes)
  | GetBlobs _ _ | ListDevices _ => True
  | Answered Created => ∃ d, asked req d ∧ woke_since tr i d
  | Answered _ => True
  end.

Record server_ok (reqs : list Handler) (s : Server) : Prop := {
  so_store : store_wf (as_store (sv_state s));
  so_limits : (1 <= max_wakeup_queue (as_limits (sv_state s)))%nat;
  so_handlers : ∀ i h, sv_handlers s !! i = Some h → ∃ req, reqs !! i = Some req ∧ handler_ok (as_store (sv_state s)) (sv_handlers s) (sv_trace s) i req h
}.

Lemma woke_since_app tr es i d : woke_since tr i d → woke_since (tr ++ es) i d.
Proof. intros (t1 & t2 & t3 & p & ->). exists t1, t2, (t3 ++ es), p. by rewrite <- app_assoc, <- app_comm_cons, <- app_assoc, <- app_comm_cons. Qed.

Lemma wakes_now tr i d p : Stored i d ∈ tr → woke_since (tr ++ [Woke d p]) i d.
Proof. intros (t1 & t2 & ->)%list_elem_of_split. exists t1, t2, [], p. by rewrite <- app_assoc. Qed.

(** What a step may do to the queue: rows go, and rows come with keys not used before. *)
Definition queue_step (s s' : Store) : Prop :=
  (st_wake_seq s <= st_wake_seq s')%N ∧ ∀ r, r ∈ st_wakeups s' → r ∈ st_wakeups s ∨ (st_wake_seq s < wk_id r)%N.

Lemma ids_of_step s s' d ids : queue_step s s' → ids_of s d ids → ids_of s' d ids.
Proof.
  intros [Hq Hr] H id Hid. destruct (H id Hid) as [Hle Hd]. split; [lia|]. intros r Hin Hrid. destruct (Hr r Hin) as [?|?]; [by apply Hd|lia].
Qed.

(** A row is kept, or its device has a newer one. *)
Definition row_kept (s s' : Store) (r : WakeRow) : Prop :=
  r ∈ st_wakeups s' ∨ ∃ r', r' ∈ st_wakeups s' ∧ wk_device r' = wk_device r ∧ (st_wake_seq s < wk_id r')%N.

Lemma keep_last_snoc {A} cap (l : list A) x : (1 <= cap)%nat → ∃ l', keep_last cap (l ++ [x]) = l' ++ [x].
Proof.
  intros Hc. unfold keep_last. rewrite length_app. cbn [length]. exists (drop (length l + 1 - cap) l). apply drop_app_le. lia.
Qed.

Lemma queue_step_same s s' : st_wakeups s' = st_wakeups s → st_wake_seq s' = st_wake_seq s → queue_step s s' ∧ ∀ x, x ∈ st_wakeups s → row_kept s s' x.
Proof. intros Hw Hq. unfold queue_step, row_kept. rewrite Hw, Hq. split; [split; [lia|by left]|by left]. Qed.

Lemma put_queue s w limits ok s' r :
  store_wf s → (1 <= max_wakeup_queue limits)%nat → put s w limits ok = (s', r) →
  (queue_step s s' ∧ ∀ x, x ∈ st_wakeups s → row_kept s s' x)
  ∧ (r = Ok tt → ∃ x, x ∈ st_wakeups s' ∧ wk_device x = wr_device w ∧ (st_wake_seq s < wk_id x)%N).
Proof.
  intros Hwf Hcap. unfold put. destruct (_ <? _)%nat; [intros [= <- <-]; split; [by apply queue_step_same|done]|].
  unfold sql at 1. destruct (ok 0%nat); [|intros [= <- <-]; split; [by apply queue_step_same|done]].
  destruct (evict_oldest bl_id _ _ _ _ _) as [rows r1] eqn:E1. destruct (blobs_after _ _ _ _ _ _ _ Hwf E1) as (Hwf1 & _ & _ & _).
  set (s1 := with_blobs (insert_blob s w) rows) in *. destruct r1 as [u|e]; [|intros [= <- <-]; split; [by apply queue_step_same|done]].
  unfold sql. destruct (ok 3%nat); [|intros [= <- <-]; split; [by apply queue_step_same|done]].
  destruct (evict_oldest wk_id _ _ _ _ _) as [rows2 r2] eqn:E2. intros [= <- <-].
  pose proof (insert_wakeup_wf s1 w Hwf1) as Hwf2. change (st_wakeups (insert_wakeup s1 w)) with (st_wakeups s ++ [mkWakeRow (st_wake_seq s + 1) (wr_device w) (wr_group w) (wr_now_ms w)]) in E2.
  set (new := mkWakeRow _ _ _ _) in *. assert (in_order wk_id (st_wakeups s ++ [new])) as Hs by exact (sw_wakeups _ Hwf2).
  assert (∀ x, x ∈ rows2 → x ∈ st_wakeups s ++ [new]) as Hsub.
  { intros x Hx. apply evict_cases in E2 as [(_ & _ & (q & ->) & _)|(c & _ & ->)]; [by apply in_filter in Hx as [? _]|done|done]. }
  assert (new ∈ rows2 ∧ ∀ x, x ∈ st_wakeups s → wk_device x ≠ wr_device w → x ∈ rows2) as [Hnew Hkept].
  { apply evict_cases in E2 as [(_ & Hf & _ & Hk)|(c & _ & ->)]; [| |done].
    - split.
      + rewrite filter_snoc, (proj2 (of_device_spec _ _)) in Hf by done. destruct (keep_last_snoc (max_wakeup_queue limits) (List.filter (of_device (wr_device w)) (st_wakeups s)) new Hcap) as (l' & Hl').
        rewrite Hl' in Hf. assert (new ∈ List.filter (of_device (wr_device w)) rows2) as Hin by (rewrite Hf; apply elem_of_app; right; left).
        by apply in_filter in Hin as [? _].
      + intros x Hx Hd. apply Hk; [apply elem_of_app; by left|]. destruct (of_device _ x) eqn:E; [|done]. by apply of_device_spec in E.
    - split; [apply elem_of_app; right; left|]. intros x Hx _. apply elem_of_app. by left. }
  assert (∀ x, x ∈ st_wakeups s → row_kept s (with_wakeups (insert_wakeup s1 w) rows2) x) as Hrows.
  { intros x Hx. destruct (decide (wk_device x = wr_device w)) as [Hd|Hd]; [|left; by apply Hkept].
    right. exists new. split_and!; [done|done|]. cbn. lia. }
  split; [split; [split|exact Hrows]|].
  - cbn. lia.
  - intros x Hx%Hsub. apply elem_of_app in Hx as [Hx|Hx]; [by left|]. apply list_elem_of_singleton in Hx as ->. right. cbn. lia.
  - intros _. exists new. split_and!; [done|done|]. cbn. lia.
Qed.

(** A step leaves the queue as [queue_step] says, and every row that the handler is not past is kept. *)
Lemma live_step s s' hs i h d :
  queue_step s s' → (∀ x, x ∈ st_wakeups s → ¬ removing hs (wk_id x) → row_kept s s' x) →
  (∀ id d' wakes, h = Removing d' id wakes → ∀ x, x ∈ st_wakeups s → wk_id x = id → wk_device x ≠ d) →
  (∀ id, removing hs id → (id <= st_wake_seq s)%N) → (∀ d' id wakes, h = Removing d' id wakes → (id <= st_wake_seq s)%N) →
  live s hs d → live s' (<[i := h]> hs) d.
Proof.
  intros [Hq Hr] Hk Hh Hold Hold' (x & Hx & Hd & Hno).
  assert (∀ id, removing (<[i := h]> hs) id → removing hs id ∨ ∃ d' wakes, h = Removing d' id wakes) as Hrem.
  { intros id (j & d' & wakes & Hj). destruct (decide (i = j)) as [<-|Hne].
    - apply list_lookup_insert_Some in Hj as [(_ & He & _)|[? _]]; [|done]. right. by exists d', wakes.
    - rewrite list_lookup_insert_ne in Hj by done. left. by exists j, d', wakes. }
  destruct (Hk x Hx Hno) as [Hx'|(x' & Hx' & Hd' & Hid)].
  - exists x. split_and!; [done|done|]. intros [?|(d' & wakes & ->)]%Hrem; [done|]. by eapply (Hh (wk_id x)).
  - exists x'. split_and!; [done|congruence|]. intros [H%Hold|(d' & wakes & H%Hold')]%Hrem; lia.
Qed.

Lemma handler_ok_step s s' hs hs' tr es j req h :
  queue_step s s' → (∀ d, Stored j d ∈ tr → live s hs d → woke_since (tr ++ es) j d ∨ live s' hs' d) →
  handler_ok s hs tr j req h → handler_ok s' hs' (tr ++ es) j req h.
Proof.
  intros Hq Hlive. assert (∀ d, Stored j d ∈ tr → Stored j d ∈ tr ++ es) as Hst by (intros d ?; apply elem_of_app; by left).
  destruct h as [| | |d|d wakes|d id wakes| | |[]]; cbn [handler_ok]; try done.
  - intros (Hreq & Hs & Hw). split_and!; [done|auto|]. destruct Hw as [Hw|Hw]; [left; by apply woke_since_app|auto].
  - intros (Hreq & Hs & Hw & Hids). split_and!; [done|auto| |by eapply ids_of_step]. destruct Hw as [Hw|Hw]; [left; by apply woke_since_app|by right].
  - intros (Hreq & Hs & Hw & Hids). split_and!; [done|auto|by apply woke_since_app|by eapply ids_of_step].
  - intros (d & Hreq & Hw). exists d. split; [done|by apply woke_since_app].
Qed.

(** What a handler's step gives the server's invariant. *)
Record step_ok (reqs : list Handler) (s : Server) (i : nat) (a : AppState) (h : Handler) (es : list Event) : Prop := {
  ok_store : store_wf (as_store a);
  ok_limits : as_limits a = as_limits (sv_state s);
  ok_queue : queue_step (as_store (sv_state s)) (as_store a);
  ok_live : ∀ j d, Stored j d ∈ sv_trace s → live (as_store (sv_state s)) (sv_handlers s) d →
    woke_since (sv_trace s ++ es) j d ∨ live (as_store a) (<[i := h]> (sv_handlers s)) d;
  ok_handler : ∀ req, reqs !! i = Some req → handler_ok (as_store a) (<[i := h]> (sv_handlers s)) (sv_trace s ++ es) i req h
}.

Section stepping.
Context (reqs : list Handler) (s : Server) (Hok : server_ok reqs s).
#[local] Abbreviation st := (as_store (sv_state s)).

Lemma removing_old id : removing (sv_handlers s) id → (id <= st_wake_seq st)%N.
Proof using Hok.
  intros (j & d & wakes & Hj). destruct (so_handlers _ _ Hok _ _ Hj) as (req & _ & _ & _ & _ & Hids). apply Hids. left.
Qed.

Lemma own_handler i h req : sv_handlers s !! i = Some h → reqs !! i = Some req → handler_ok st (sv_handlers s) (sv_trace s) i req h.
Proof using Hok. intros Hi Hreq. destruct (so_handlers _ _ Hok _ _ Hi) as (req' & Hr & H). congruence. Qed.

(** A step that leaves the store and rings nobody. *)
Lemma quiet_step i a h :
  as_store a = st → as_limits a = as_limits (sv_state s) → (∀ d id wakes, h ≠ Removing d id wakes) →
  (∀ req, reqs !! i = Some req → handler_ok st (<[i := h]> (sv_handlers s)) (sv_trace s) i req h) → step_ok reqs s i a h [].
Proof using Hok.
  intros Hst Hl Hh Hown. split; rewrite ?Hst; [apply Hok|done|by apply queue_step_same| |by rewrite app_nil_r].
  intros j d _ Hlive. right. eapply live_step; [by apply queue_step_same| | |apply removing_old| |exact Hlive].
  - intros x Hx _. by left.
  - intros id d' wakes E. by destruct (Hh _ _ _ E).
  - intros d' id wakes E. by destruct (Hh _ _ _ E).
Qed.

Lemma put_blob_ok i w t a h es :
  sv_handlers s !! i = Some (PutStoring w) → put_blob (sv_state s) i w t = (a, h, es) → step_ok reqs s i a h es.
Proof using Hok.
  intros Hi H. unfold put_blob in H. destruct (put _ _ _ _) as [s' r] eqn:E.
  destruct (put_steps _ _ _ _ _ _ (so_store _ _ Hok) E) as [Hwf' _].
  destruct (put_queue _ _ _ _ _ _ (so_store _ _ Hok) (so_limits _ _ Hok) E) as [[Hq Hk] Hnew].
  assert (as_store a = s' ∧ as_limits a = as_limits (sv_state s) ∧ ∀ d id wakes, h ≠ Removing d id wakes) as (Hs' & Hl & Hh) by (by destruct r; injection H as <- <- <-).
  split; rewrite ?Hs'; [done|done|done| |].
  - intros j d _ Hlive. right. eapply live_step; [exact Hq| | |apply removing_old| |exact Hlive].
    + intros x Hx _. by apply Hk.
    + intros id d' wakes He. by destruct (Hh _ _ _ He).
    + intros d' id wakes He. by destruct (Hh _ _ _ He).
  - intros req Hreq. pose proof (own_handler _ _ _ Hi Hreq) as Hown. cbn [handler_ok] in Hown. destruct r as [[]|e]; injection H as <- <- <-.
    + cbn [handler_ok]. split_and!; [done|apply elem_of_app; right; left|]. right. destruct (Hnew eq_refl) as (x & Hx & Hd & Hid).
      exists x. split_and!; [done|done|]. intros (j & d & wakes & Hj). destruct (decide (i = j)) as [<-|Hne].
      * apply list_lookup_insert_Some in Hj as [(_ & ? & _)|[? _]]; done.
      * rewrite list_lookup_insert_ne in Hj by done. assert (removing (sv_handlers s) (wk_id x)) as Hrem by (by exists j, d, wakes). apply removing_old in Hrem. lia.
    + by destruct e.
Qed.

Lemma deliver_one_ok i d id wakes t a h :
  sv_handlers s !! i = Some (Removing d id wakes) → deliver_one (sv_state s) d id wakes t = (a, h) → step_ok reqs s i a h [].
Proof using Hok.
  intros Hi [= <- <-]. destruct (remove_wakeup st id (tk_delete t)) as [s' r] eqn:E. cbn [fst]. destruct (store_call_steps st (CallRemove id (tk_delete t)) _ _ (so_store _ _ Hok) E) as [Hwf' _].
  assert (queue_step st s' ∧ ∀ x, x ∈ st_wakeups st → ¬ removing (sv_handlers s) (wk_id x) → row_kept st s' x) as [Hq Hk].
  { unfold remove_wakeup, sql in E. destruct (tk_delete t); injection E as <- <-.
    - split.
      + split; [done|]. intros x [Hx _]%in_filter. by left.
      + intros x Hx Hno. left. apply in_filter. split; [done|]. apply negb_true_iff, N.eqb_neq. intros <-. destruct Hno. by exists i, d, wakes.
    - destruct (queue_step_same st st eq_refl eq_refl) as [? Hk]. split; [done|]. intros x Hx _. by apply Hk. }
  split; cbn [with_relay_store as_store as_limits]; [done|done|exact Hq| |].
  - intros j d' _ Hlive. right. eapply live_step; [exact Hq|exact Hk|done|apply removing_old|done|exact Hlive].
  - intros req Hreq. rewrite app_nil_r. pose proof (own_handler _ _ _ Hi Hreq) as (Ha & Hs & Hw & Hids). cbn [handler_ok].
    split_and!; [done|done|by left|]. eapply ids_of_step; [exact Hq|]. intros x Hx. apply Hids. by right.
Qed.

Lemma drain_wakeups_ok i d wakes h es :
  sv_handlers s !! i = Some (Delivering d wakes) → drain_wakeups d wakes = (h, es) → step_ok reqs s i (sv_state s) h es.
Proof using Hok.
  intros Hi. destruct wakes as [|q wakes]; cbn [drain_wakeups]; intros [= <- <-].
  - apply quiet_step; [done|done|done|]. intros req Hreq. pose proof (own_handler _ _ _ Hi Hreq) as (Ha & Hs & [Hw|Hw] & _); [|done]. by exists d.
  - destruct (so_handlers _ _ Hok _ _ Hi) as (req0 & _ & _ & _ & _ & Hids0).
    split; [apply Hok|done|by apply queue_step_same| |].
    + intros j d' Hst Hlive. destruct (decide (d' = d)) as [->|Hne]; [left; by apply wakes_now|]. right.
      eapply live_step; [by apply queue_step_same| | |apply removing_old| |exact Hlive].
      * intros x Hx _. by left.
      * intros id d'' wakes' [= <- <- <-] x Hx Hid. destruct (Hids0 (qw_id q)) as [_ Hd]; [left|]. rewrite (Hd x Hx Hid). done.
      * intros d'' id wakes' [= <- <- <-]. apply Hids0. left.
    + intros req Hreq. pose proof (own_handler _ _ _ Hi Hreq) as (Ha & Hs & _ & Hids). cbn [handler_ok].
      split_and!; [done|apply elem_of_app; by left|by apply wakes_now|done].
Qed.

Lemma read_pending_ok i d t :
  tk_read t = true → sv_handlers s !! i = Some (Reading d) → step_ok reqs s i (sv_state s) (read_pending (sv_state s) d t) [].
Proof using Hok.
  intros Ht Hi. pose proof (so_store _ _ Hok) as Hwf. pose proof (sw_wakeups _ Hwf) as Hs.
  assert (read_pending (sv_state s) d t = Delivering d (map wake_view (List.filter (of_device d) (st_wakeups st)))) as ->.
  { unfold read_pending, pending_wakeups. rewrite Ht. cbn [sql mbind result_bind]. rewrite in_id_order_id; [done|by apply in_order_filter]. }
  apply quiet_step; [done|done|done|]. intros req Hreq. pose proof (own_handler _ _ _ Hi Hreq) as (Ha & Hst & Hw). cbn [handler_ok]. split_and!; [done|done| |].
  - destruct Hw as [Hw|(x & Hx & Hd & _)]; [by left|]. right. intros Hnil%map_eq_nil.
    assert (x ∈ List.filter (of_device d) (st_wakeups st)) as Hin by (apply in_filter; split; [done|by apply of_device_spec]). rewrite Hnil in Hin. by apply elem_of_nil in Hin.
  - intros id (q & -> & (x & -> & [Hx Hd%of_device_spec]%in_filter)%list_elem_of_fmap)%list_elem_of_fmap. cbn [qw_id wake_view]. split.
    + pose proof (sw_wake_seq _ Hwf) as H. rewrite Forall_forall in H. by apply H.
    + intros r Hr Hid. pose proof (in_order_inj wk_id _ _ _ Hs Hr Hx Hid). congruence.
Qed.

Lemma handler_step_ok i h t a h' es :
  tk_read t = true → sv_handlers s !! i = Some h → handler_step (sv_state s) i h t = (a, h', es) → step_ok reqs s i a h' es.
Proof using Hok.
  intros Ht Hi H. destruct h as [g d b|g d b now|w|d|d wakes|d id wakes|g d|g|r]; cbn [handler_step] in H.
  - injection H as <- <- <-. apply quiet_step; [done|done|done|]. intros req Hreq. exact (own_handler _ _ _ Hi Hreq).
  - unfold allowed in H. destruct (allow _ _ _ _ _) as [l yes]. injection H as <- <- <-.
    apply quiet_step; [done|done|by destruct yes|]. intros req Hreq. pose proof (own_handler _ _ _ Hi Hreq) as Hown. by destruct yes.
  - by eapply put_blob_ok.
  - injection H as <- <- <-. by apply read_pending_ok.
  - destruct (drain_wakeups d wakes) as [h0 es0] eqn:E. injection H as <- <- <-. by eapply drain_wakeups_ok.
  - destruct (deliver_one _ _ _ _ _) as [a0 h0] eqn:E. injection H as <- <- <-. by eapply deliver_one_ok.
  - injection H as <- <- <-. apply quiet_step; [done|done|done|]. intros req _. unfold get_blobs. destruct (get _ _ _ _) as [|[]]; done.
  - injection H as <- <- <-. apply quiet_step; [done|done|done|]. intros req _. unfold list_devices. destruct (list_devices_of _ _ _) as [|[]]; done.
  - injection H as <- <- <-. apply quiet_step; [done|done|done|]. intros req Hreq. exact (own_handler _ _ _ Hi Hreq).
Qed.
End stepping.

Lemma server_step_ok reqs s m : tk_read (snd m) = true → server_ok reqs s → server_ok reqs (server_step s m).
Proof.
  intros Ht Hok. destruct m as [[i|days] t]; cbn [snd] in Ht; cbn [server_step].
  - destruct (sv_handlers s !! i) as [h|] eqn:Hi; [|done]. destruct (handler_step _ _ _ _) as [[a h'] es] eqn:E.
    destruct (handler_step_ok reqs s Hok i h t a h' es Ht Hi E) as [Hst Hl Hq Hlive Hown].
    split; cbn [sv_state sv_handlers sv_trace]; [done|rewrite Hl; apply Hok|]. intros j hj Hj. destruct (decide (i = j)) as [<-|Hne].
    + apply list_lookup_insert_Some in Hj as [(_ & <- & _)|[? _]]; [|done]. destruct (so_handlers _ _ Hok _ _ Hi) as (req & Hreq & _). exists req. split; [done|by apply Hown].
    + rewrite list_lookup_insert_ne in Hj by done. destruct (so_handlers _ _ Hok _ _ Hj) as (req & Hreq & H). exists req. split; [done|].
      eapply handler_ok_step; [exact Hq| |exact H]. intros d. apply Hlive.
  - destruct Hok as [Hwf Hl Hh]. unfold run_one_sweep. destruct (sweep_expired _ _ _ _) as [s' r] eqn:E. cbn [fst].
    assert (store_wf s' ∧ queue_step (as_store (sv_state s)) s' ∧ st_wakeups s' = st_wakeups (as_store (sv_state s))) as (Hwf' & Hq & Hw).
    { unfold sweep_expired, sql in E. destruct (tk_delete t); injection E as <- <-; [|split_and!; [done|by apply queue_step_same|done]].
      split_and!; [by apply with_blobs_wf|by apply queue_step_same|done]. }
    split; cbn [sv_state sv_handlers sv_trace with_relay_store as_store as_limits]; [done|done|]. intros j hj Hj. destruct (Hh _ _ Hj) as (req & Hreq & H). exists req. split; [done|].
    rewrite <- (app_nil_r (sv_trace s)). eapply handler_ok_step; [exact Hq| |exact H]. intros d _ (x & Hx & ?). right. exists x. by rewrite Hw.
Qed.

Lemma server_run_ok reqs s ms : Forall (λ m, tk_read (snd m) = true) ms → server_ok reqs s → server_ok reqs (server_run s ms).
Proof. intros H. revert s. induction H as [|m ms Hm _ IH]; intros s Hok; [done|]. cbn. apply IH. by apply server_step_ok. Qed.

Lemma server_start_ok a reqs : store_wf (as_store a) → (1 <= max_wakeup_queue (as_limits a))%nat → Forall fresh reqs → server_ok reqs (mkServer a reqs []).
Proof.
  intros Hwf Hl Hf. split; [done|done|]. cbn [sv_handlers sv_state sv_trace]. intros i h Hi. exists h. split; [done|].
  rewrite Forall_lookup in Hf. specialize (Hf i h Hi). destruct h; try done. cbn. by do 2 eexists.
Qed.

(** How many steps of its own a handler has left at most, with [n] wake-ups in the queues. *)
Definition steps_left (n : nat) (h : Handler) : nat :=
  match h with
  | PutBlob _ _ _ => 7 + 2 * n
  | PutAsking _ _ _ _ => 6 + 2 * n
  | PutStoring _ => 5 + 2 * n
  | Reading _ => 2 + 2 * n
  | Delivering _ wakes => 1 + 2 * length wakes
  | Removing _ _ wakes => 2 + 2 * length wakes
  | GetBlobs _ _ | ListDevices _ => 1
  | Answered _ => 0
  end.

Lemma evict_length {A} (id : A → N) p cap okc okd rows : (length (fst (evict_oldest id p cap okc okd rows)) <= length rows)%nat.
Proof. unfold evict_oldest, sql. destruct okc; [|done]. destruct (Nat.eqb _ _); [done|]. destruct okd; [|done]. apply List.filter_length_le. Qed.

Lemma put_length s w limits ok : (length (st_wakeups (fst (put s w limits ok))) <= S (length (st_wakeups s)))%nat.
Proof.
  unfold put. destruct (_ <? _)%nat; [cbn; lia|]. unfold sql at 1. destruct (ok 0%nat); [|cbn; lia].
  destruct (evict_oldest bl_id _ _ _ _ _) as [rows []]; [|cbn; lia]. unfold sql. destruct (ok 3%nat); [|cbn; lia].
  pose proof (evict_length wk_id (of_device (wr_device w)) (max_wakeup_queue limits) (ok 4%nat) (ok 5%nat) (st_wakeups (insert_wakeup (with_blobs (insert_blob s w) rows) w))) as H.
  destruct (evict_oldest wk_id _ _ _ _ _) as [rows2 r2]. cbn in *. rewrite length_app in H. cbn in H. lia.
Qed.

Definition waiting (a : AppState) : nat := length (st_wakeups (as_store a)).

Lemma handler_progress a i h t : 
  let '(a', h', _) := handler_step a i h t in (∃ r, h' = Answered r) ∨ (steps_left (waiting a') h' < steps_left (waiting a) h)%nat.
Proof.
  destruct h as [g d b|g d b now|w|d|d wakes|d id wakes|g d|g|r]; cbn [handler_step]; try (left; by eexists).
  - right. cbn [steps_left]. lia.
  - unfold allowed. destruct (allow _ _ _ _ _) as [l [|]]; [right; cbn [steps_left waiting as_store]; unfold waiting; cbn [as_store]; lia|left; by eexists].
  - unfold put_blob. pose proof (put_length (as_store a) w (as_limits a) (tk_put t)) as H. destruct (put _ _ _ _) as [s' [u|e]]; [|left; by eexists].
    right. unfold waiting. cbn [steps_left with_relay_store as_store fst] in *. lia.
  - unfold read_pending, pending_wakeups, sql. destruct (tk_read t); cbn [mbind result_bind]; [|left; by eexists]. right. unfold waiting. cbn [steps_left]. rewrite length_map.
    unfold in_id_order. rewrite stable_sort_perm. pose proof (List.filter_length_le (of_device d) (st_wakeups (as_store a))). lia.
  - destruct wakes as [|q wakes]; cbn [drain_wakeups]; [left; by eexists|]. right. cbn [steps_left length]. lia.
  - unfold deliver_one. right. cbn [steps_left]. lia.
Qed.

(** Given turns, a handler answers. *)
Lemma handler_answers s i h ts :
  sv_handlers s !! i = Some h → (steps_left (waiting (sv_state s)) h <= length ts)%nat →
  ∃ r, sv_handlers (server_run s (map (pair (Run i)) ts)) !! i = Some (Answered r).
Proof.
  revert s h. induction ts as [|t ts IH]; intros s h Hi Hle.
  - destruct h; cbn [steps_left length] in Hle; try lia. by eexists.
  - cbn [map server_run foldl server_step]. rewrite Hi. pose proof (handler_progress (sv_state s) i h t) as Hp. destruct (handler_step (sv_state s) i h t) as [[a h'] es].
    set (s' := mkServer a (<[i := h']> (sv_handlers s)) (sv_trace s ++ es)).
    assert (sv_handlers s' !! i = Some h') as Hi' by (apply list_lookup_insert_eq; by eapply lookup_lt_Some).
    apply (IH s' h' Hi'). destruct Hp as [[r ->]|Hp]; [cbn; lia|]. cbn [sv_state s' length] in *. lia.
Qed.

(** C19. A stored blob wakes its device. Any requests, their handlers interleaved in any way with each
    other and with the sweep, over a store any calls have left, whatever writes and deletes fail, as long
    as the reads of the wake-up queue are answered and the queue may hold one at least: a put answered as
    created has had its device woken after its blob was stored, by itself or by another handler. And no
    handler waits on another: given turns, it answers. *)
Theorem created_put_wakes cs limits reqs ms :
  let s := server_run (mkServer (AppState_new (store_calls Store_new cs) limits) reqs []) ms in
  (1 <= max_wakeup_queue limits)%nat → Forall fresh reqs → Forall (λ m, tk_read (snd m) = true) ms →
  (∀ i g d b, reqs !! i = Some (PutBlob g d b) → sv_handlers s !! i = Some (Answered Created) → woke_since (sv_trace s) i d)
  ∧ (∀ i h, sv_handlers s !! i = Some h → ∃ k, ∀ ts, (k <= length ts)%nat →
       ∃ r, sv_handlers (server_run s (map (pair (Run i)) ts)) !! i = Some (Answered r)).
Proof.
  intros s Hl Hf Hms. assert (server_ok reqs s) as Hok.
  { apply server_run_ok; [done|]. apply server_start_ok; [apply store_calls_wf|done|done]. }
  split.
  - intros i g d b Hreq Hi. destruct (so_handlers _ _ Hok _ _ Hi) as (req & Hreq' & d' & (g' & b' & ->) & Hw). rewrite Hreq in Hreq'. by injection Hreq' as -> -> ->.
  - intros i h Hi. eexists. intros ts. by apply handler_answers.
Qed.

(** ** The rate *)

(** A request asked, with the answers so far: group, time and whether it was allowed. *)
Definition allow_next (cap : N) (window_ms : Z) (lh : RateLimiter * list (bytes * Z * bool)) (r : bytes * Z) : RateLimiter * list (bytes * Z * bool) :=
  let '(l, yes) := allow (fst lh) (fst r) (snd r) cap window_ms in (l, snd lh ++ [(r, yes)]).

(** How many requests of a group were allowed at the times a test takes. *)
Definition granted (g : bytes) (when : Z → bool) (answers : list (bytes * Z * bool)) : N :=
  N.of_nat (length (List.filter (λ a, bool_decide (fst (fst a) = g) && when (snd (fst a)) && snd a) answers)).

Definition since (t0 t : Z) : bool := t0 <=? t.
Definition within (t0 t1 t : Z) : bool := (t0 <=? t) && (t <? t1).
(** In the window's length before [t], [t] included. *)
Definition up_to (window_ms t t' : Z) : bool := (t - window_ms <? t') && (t' <=? t).

(** The clock never goes back, and is an [i64] after the epoch. *)
Fixpoint clock_from (t0 : Z) (rs : list (bytes * Z)) : Prop :=
  match rs with [] => True | r :: rest => t0 <= snd r < 2 ^ 63 ∧ clock_from (snd r) rest end.

Lemma granted_snoc g when answers g' t yes :
  granted g when (answers ++ [(g', t, yes)]) = (granted g when answers + (if bool_decide (g' = g) && when t && yes then 1 else 0))%N.
Proof. unfold granted. rewrite filter_snoc, length_app. cbn [fst snd]. destruct (_ && _); cbn [length]; lia. Qed.

Lemma granted_none g when answers : (∀ a, a ∈ answers → when (snd (fst a)) = false) → granted g when answers = 0%N.
Proof. intros H. unfold granted. rewrite filter_none; [done|]. intros a Ha. by rewrite (H a Ha), andb_false_r. Qed.

Lemma granted_in g p q answers :
  (∀ a, a ∈ answers → p (snd (fst a)) = true → q (snd (fst a)) = true) → (granted g p answers <= granted g q answers)%N.
Proof.
  unfold granted. induction answers as [|a answers IH]; intros H; [done|]. cbn [List.filter]. specialize (IH (λ b Hb, H b (list_elem_of_further b a _ Hb))).
  specialize (H a (list_elem_of_here a _)). destruct (bool_decide _), (p _), (q _), (snd a); cbn [andb length]; try done; lia.
Qed.

Section rate.
Context (cap : N) (window_ms : Z) (Hwindow : 0 < window_ms).

(** What a group's window says of the answers so far, at time [now]. *)
Record window_ok (now : Z) (g : bytes) (w : Window) (answers : list (bytes * Z * bool)) : Prop := {
  wo_started : 0 <= started_at_ms w <= now;
  wo_cap : (count w <= cap)%N;
  wo_counted : (count w <= granted g (since (started_at_ms w)) answers)%N;
  wo_later : ∀ t0, started_at_ms w < t0 → (granted g (since t0) answers <= count w)%N;
  wo_before : ∀ t0, started_at_ms w - window_ms < t0 → (granted g (since t0) answers <= cap + count w)%N
}.

Definition window_at (l : RateLimiter) (g : bytes) (t : Z) : Window :=
  let w := default (mkWindow t 0) (l !! g) in
  if window_ms <=? sat_i64 (t - started_at_ms w) then mkWindow t 0 else w.

Definition group_ok (now : Z) (g : bytes) (l : RateLimiter) (answers : list (bytes * Z * bool)) : Prop :=
  match l !! g with Some w => window_ok now g w answers | None => ∀ p, granted g p answers = 0%N end.

Lemma window_at_ok now l g t answers :
  group_ok now g l answers → (∀ a, a ∈ answers → snd (fst a) <= now) → 0 <= now → now <= t < 2 ^ 63 →
  window_ok t g (window_at l g t) answers ∧ t - started_at_ms (window_at l g t) < window_ms.
Proof using Hwindow.
  unfold group_ok, window_at. intros Hg Htimes Hnow Ht. assert (∀ t0, t < t0 → granted g (since t0) answers = 0%N) as Hfut.
  { intros t0 H0. apply granted_none. intros a Ha. apply Z.leb_gt. specialize (Htimes a Ha). cbn. lia. }
  destruct (l !! g) as [w|]; cbn [default from_option id].
  - destruct Hg as [Hs Hc Hcount Hl Hb]. assert (sat_i64 (t - started_at_ms w) = t - started_at_ms w) as -> by (unfold sat_i64; lia).
    destruct (window_ms <=? _) eqn:E; [apply Z.leb_le in E|apply Z.leb_gt in E; split; [split|]; [lia|done|done|done|done|lia]].
    split; [split; cbn [started_at_ms count]|cbn [started_at_ms]; lia]; [lia|lia|lia| |].
    + intros t0 H0. by rewrite Hfut.
    + intros t0 H0. rewrite N.add_0_r. etransitivity; [apply Hl|done]. lia.
  - cbn [started_at_ms]. rewrite Z.sub_diag. change (sat_i64 0) with 0.
    rewrite (proj2 (Z.leb_gt _ _)) by done. split; [split; cbn [started_at_ms count]|cbn [started_at_ms]; lia]; [lia|lia|lia|intros; by rewrite Hg|intros; rewrite Hg; lia].
Qed.

Lemma window_ok_counts now g w answers :
  window_ok now g w answers → (count w < cap)%N → window_ok now g (mkWindow (started_at_ms w) (count w + 1)) (answers ++ [(g, now, true)]).
Proof using.
  intros [Hs Hc Hcount Hl Hb] Hlt. split; cbn [started_at_ms count]; [done|lia| | |].
  - rewrite granted_snoc, bool_decide_eq_true_2 by done. unfold since at 2. rewrite (proj2 (Z.leb_le _ _)) by lia. cbn [andb]. lia.
  - intros t0 H0. rewrite granted_snoc. specialize (Hl t0 H0). destruct (_ && _); lia.
  - intros t0 H0. rewrite granted_snoc. specialize (Hb t0 H0). destruct (_ && _); lia.
Qed.

Lemma window_ok_refuses now g w g' t answers : (g' ≠ g ∨ t = false) → window_ok now g w answers → ∀ at_ms, window_ok now g w (answers ++ [(g', at_ms, t)]).
Proof using.
  intros Hno [Hs Hc Hcount Hl Hb] at_ms. assert (∀ p, granted g p (answers ++ [(g', at_ms, t)]) = granted g p answers) as He.
  { intros p. rewrite granted_snoc. destruct Hno as [Hne| ->]; [rewrite bool_decide_eq_false_2 by done|rewrite andb_false_r]; cbn [andb]; lia. }
  split; rewrite ?He; try done; intros; rewrite He; auto.
Qed.

Record limiter_ok (now : Z) (l : RateLimiter) (answers : list (bytes * Z * bool)) : Prop := {
  lo_groups : ∀ g, group_ok now g l answers;
  lo_times : ∀ a, a ∈ answers → snd (fst a) <= now;
  lo_spans : ∀ g t0, (granted g (within t0 (t0 + window_ms)) answers <= 2 * cap)%N;
  lo_refused : ∀ before after g t, answers = before ++ (g, t, false) :: after → (cap <= granted g (up_to window_ms t) before)%N
}.

Lemma allow_next_ok now l answers g t :
  0 <= now → now <= t < 2 ^ 63 → limiter_ok now l answers →
  let lh := allow_next cap window_ms (l, answers) (g, t) in limiter_ok t (fst lh) (snd lh).
Proof using Hwindow.
  intros Hnow Ht [Hg Htimes Hspans Href]. unfold allow_next. cbn [fst snd].
  destruct (window_at_ok now l g t answers (Hg g) Htimes Hnow Ht) as [Hw Hage].
  assert (∃ w' yes, allow l g t cap window_ms = (<[g := w']> l, yes) ∧ window_ok t g w' (answers ++ [(g, t, yes)])
            ∧ (yes = false → (cap <= count (window_at l g t))%N)) as (w' & yes & -> & Hw' & Hno).
  { unfold allow. fold (window_at l g t). destruct (cap <=? _)%N eqn:E.
    - do 2 eexists. split; [done|]. apply N.leb_le in E. split; [|done]. apply window_ok_refuses; [by right|done].
    - do 2 eexists. split; [done|]. apply N.leb_gt in E. split; [|done]. by apply window_ok_counts. }
  cbn [fst snd]. split.
  - intros g'. unfold group_ok. destruct (decide (g = g')) as [<-|Hne]; [by rewrite lookup_insert_eq|]. rewrite lookup_insert_ne by done.
    specialize (Hg g'). unfold group_ok in Hg. destruct (l !! g') as [w|].
    + apply window_ok_refuses; [by left|]. destruct Hg as [Hs ? ? ? ?]. split; try done. lia.
    + intros p. rewrite granted_snoc, bool_decide_eq_false_2, Hg by done. done.
  - intros a [Ha|Ha]%elem_of_app; [specialize (Htimes a Ha); lia|]. apply list_elem_of_singleton in Ha as ->. cbn. lia.
  - intros g' t0. rewrite granted_snoc. destruct (bool_decide (g = g')) eqn:Eg; cbn [andb]; [apply bool_decide_eq_true in Eg as <-|rewrite N.add_0_r; apply Hspans].
    destruct (within t0 (t0 + window_ms) t) eqn:Et; cbn [andb]; [|rewrite N.add_0_r; apply Hspans]. apply andb_true_iff in Et as [Et1%Z.leb_le Et2%Z.ltb_lt].
    destruct Hw' as [Hs' Hc' _ _ Hb']. specialize (Hb' t0 ltac:(lia)). rewrite granted_snoc, bool_decide_eq_true_2 in Hb' by done. unfold since at 2 in Hb'. rewrite (proj2 (Z.leb_le t0 t)) in Hb' by done. cbn [andb] in Hb'.
    assert (granted g (within t0 (t0 + window_ms)) answers <= granted g (since t0) answers)%N as Hle.
    { apply granted_in. intros a _. by intros [? _]%andb_true_iff. }
    lia.
  - intros before after g' t' Heq. destruct after as [|x after _] using rev_ind.
    + apply app_inj_tail in Heq as [<- [= <- <- ->]]. specialize (Hno eq_refl). destruct Hw as [Hs _ Hcount _ _].
      etransitivity; [exact Hno|]. etransitivity; [exact Hcount|]. apply granted_in. intros a Ha. specialize (Htimes a Ha).
      unfold since, up_to. intros H1%Z.leb_le. apply andb_true_iff. rewrite Z.ltb_lt, Z.leb_le. lia.
    + rewrite app_comm_cons, app_assoc in Heq. apply app_inj_tail in Heq as [-> _]. by eapply Href.
Qed.
End rate.

(** C20. The rate a group gets. For a cap and a window, and requests of any groups under a clock that never
    goes back: in no stretch of one window's length is a group allowed more than twice the cap, and a
    request is refused only when the cap was reached by its own group within the window before it. *)
Theorem rate_is_bounded cap window_ms rs :
  0 < window_ms → clock_from 0 rs →
  let answers := snd (foldl (allow_next cap window_ms) (∅, []) rs) in
  (∀ g t0, (granted g (within t0 (t0 + window_ms)) answers <= 2 * cap)%N)
  ∧ (∀ before after g t, answers = before ++ (g, t, false) :: after → (cap <= granted g (up_to window_ms t) before)%N).
Proof.
  intros Hw Hclock. assert (limiter_ok cap window_ms 0 ∅ []) as Hinit.
  { split; [intros g; unfold group_ok; by rewrite lookup_empty| | |].
    - by intros a ?%elem_of_nil.
    - intros g t0; apply N.le_0_l.
    - intros before after g t H. by destruct before. }
  assert (∀ now l answers, 0 <= now → clock_from now rs → limiter_ok cap window_ms now l answers →
    ∃ t', limiter_ok cap window_ms t' (fst (foldl (allow_next cap window_ms) (l, answers) rs)) (snd (foldl (allow_next cap window_ms) (l, answers) rs))) as Hrun.
  { clear Hclock Hinit. induction rs as [|[g t] rs IH]; intros now l answers Hnow Hclock Hok; [by exists now|]. destruct Hclock as [Ht Hclock]. cbn [snd] in *.
    cbn [foldl]. pose proof (allow_next_ok cap window_ms Hw now l answers g t Hnow Ht Hok) as Hok'. destruct (allow_next _ _ _ _) as [l' answers'].
    apply (IH t); [lia|done|done]. }
  destruct (Hrun 0 ∅ []) as (t' & [_ _ H1 H2]); [lia|done|done|]. by split.
Qed.

(** ** Samples *)

Definition all_answered : nat → bool := λ _, true.
Definition calm (now : Z) : Tick := mkTick now all_answered true true.

Definition sample_write (g d b : string) (now : Z) : Write := mkWrite (str g) (str d) (str b) now.
Definition small_limits : Limits := mkLimits 8 2 1.

(** Three writes to one mailbox, whose second's eviction fails, one to another, one too large, a sweep. *)
Definition sample_calls : list Call :=
  [CallPut (sample_write "g" "d" "one" 10) small_limits all_answered;
   CallPut (sample_write "g" "d" "two" 20) small_limits (λ i, negb (Nat.eqb i 1));
   CallPut (sample_write "h" "d" "three" 30) small_limits all_answered;
   CallPut (sample_write "g" "d" "far too large" 30) small_limits all_answered;
   CallPut (sample_write "g" "d" "four" 86400020) small_limits all_answered;
   CallSweep 86400030 1 true].

Example sample_calls_eq :
  let s := store_calls Store_new sample_calls in
  get s (str "g") (str "d") true = Ok [mkStored (str "four") 86400020]
  ∧ get s (str "h") (str "d") true = Ok [mkStored (str "three") 30]
  ∧ pending_wakeups s (str "d") true = Ok [mkQueued 3 (str "g")]
  ∧ list_devices_of s (str "g") true = Ok [str "d"].
Proof. vm_compute. split_and!; reflexivity. Qed.

Lemma mailboxes_refine_witness :
  let s := store_calls Store_new (firstn 1 sample_calls) in
  (length (mb_box (mail_of s) (str "g") (str "d")) <= 2)%nat ∧ get s (str "g") (str "d") true = Ok (mb_box (mail_of s) (str "g") (str "d")).
Proof.
  intros s. destruct (mailboxes_refine (firstn 1 sample_calls) small_limits) as (_ & Hget & _ & _ & Hbound). split; [|apply Hget].
  refine (proj1 (Hbound _) (str "g") (str "d")). constructor; [split; reflexivity|constructor].
Defined.

(** Two puts for one device, and a reader. *)
Definition sample_requests : list Handler := [PutBlob (str "g") (str "d") (str "one"); PutBlob (str "g") (str "d") (str "two"); GetBlobs (str "g") (str "d")].

Definition runs (turns : list nat) : list (Move * Tick) := map (λ i, (Run i, calm 1000)) turns.

Definition serve (turns : list nat) : Server := server_run (mkServer (AppState_new (store_calls Store_new []) Limits_default) sample_requests []) (runs turns).

(** Both store before either reads the queue, so each rings for both wake-ups: four calls for two writes. *)
Definition crossing : list nat := [0; 0; 0; 1; 1; 1; 0; 1; 0; 1; 0; 1; 0; 1; 0; 1; 0; 1; 2]%nat.

Example woken_twice :
  sv_trace (serve crossing)
  = [Stored 0 (str "d"); Stored 1 (str "d"); Woke (str "d") (str "g"); Woke (str "d") (str "g"); Woke (str "d") (str "g"); Woke (str "d") (str "g")]
  ∧ sv_handlers (serve crossing) = [Answered Created; Answered Created; Answered (Blobs [mkStored (str "one") 1000; mkStored (str "two") 1000])]
  ∧ pending_wakeups (as_store (sv_state (serve crossing))) (str "d") true = Ok [].
Proof. vm_compute. split_and!; reflexivity. Qed.

Lemma created_put_wakes_witness :
  sv_handlers (serve crossing) !! 1%nat = Some (Answered Created) ∧ woke_since (sv_trace (serve crossing)) 1 (str "d").
Proof.
  split; [vm_compute; reflexivity|].
  refine (proj1 (created_put_wakes [] Limits_default sample_requests (runs crossing) _ _ _) 1%nat (str "g") (str "d") (str "two") _ _).
  - vm_compute. lia.
  - by repeat constructor.
  - by repeat constructor.
  - reflexivity.
  - vm_compute. reflexivity.
Defined.

(** Two groups, a cap of two in a window of ten. *)
Definition sample_asks : list (bytes * Z) :=
  [(str "g", 0); (str "g", 1); (str "h", 2); (str "g", 3); (str "g", 10); (str "g", 11); (str "g", 12)].

Example sample_asks_eq : map snd (snd (foldl (allow_next 2 10) (∅, []) sample_asks)) = [true; true; true; false; true; true; false].
Proof. vm_compute. reflexivity. Qed.

Lemma rate_is_bounded_witness :
  let answers := snd (foldl (allow_next 2 10) (∅, []) sample_asks) in
  granted (str "g") (within 1 11) answers = 2%N ∧ (granted (str "g") (within 1 11) answers <= 4)%N.
Proof.
  intros answers. split; [vm_compute; reflexivity|].
  refine (proj1 (rate_is_bounded 2 10 sample_asks _ _) (str "g") 1); [reflexivity|]. cbn. lia.
Defined.
