(* ===== verification/Session.v ===== *)
(** The sync session of two devices: [crates/txtodo-sync/src/session.rs], one sub-session per workspace
    ([workspace_session.rs]) and its errors ([session_error.rs]).

    A method that takes [&mut self] is a function to the new state and its value, or to an error; every
    error is returned before the state is touched, so an error keeps the old state. The theorems: the
    state machine's invariant, that heads never go back unless a workspace is opened afresh, and that every
    accepted batch follows them without a hole; and that workspaces on one link do not touch each other. *)
From S2P Require Import Prelude.
From S2P Require Import Hlc.
From S2P Require Import Ops.
From S2P Require Import OpLog.
From S2P Require Import Frame.
From S2P Require Import Message.
From S2P Require Import Sealed.

#[local] Open Scope N_scope.

Definition MAX_OPEN_WORKSPACES : nat := Z.to_nat 256.

Inductive SessionState := Idle | Greeted | Wanting | Importing.

#[global] Instance SessionState_eq_dec : EqDecision SessionState.
Proof. solve_decision. Defined.

Inductive SessionError :=
| Unexpected (state : SessionState) (what : string)
| UnknownWorkspace (w : WorkspaceId)
| TooManyWorkspaces (len max : nat)
| WorkspaceMismatch (called message : WorkspaceId)
| GroupMismatch (ours theirs : GroupId)
| ProtocolMismatch (ours theirs : N)
| PeerAhead (peer_ms local_ms lead_ms : N)
| NotInBatch (r : OriginRange)
| SGap (g : Gap)
| SessCrypto (e : CryptoError)
| LinkNotReady
| LinkAlreadyGreeted
| NotAHello (what : string).

(** ** workspace_session.rs *)

Record WorkspaceSession := mkWs {
  ws_state : SessionState;
  ws_heads : Heads;
  ws_wanted : list OriginRange;
  ws_inflight : list OriginRange;
  ws_greeted : bool
}.

Definition WorkspaceSession_new (heads : Heads) : WorkspaceSession := mkWs Idle heads [] [] false.

Definition name_of (m : Message) : string :=
  match m with
  | MHello _ _ _ _ _ => "Hello"
  | MWant _ _ => "Want"
  | MOps _ _ _ _ => "Ops"
  | MAck _ _ => "Ack"
  | MGreet _ _ => "Greet"
  | MDigest _ _ => "Digest"
  end.

Definition check_workspace (workspace msg_ws : WorkspaceId) : result SessionError unit :=
  if msg_ws =? workspace then Ok tt else Err (WorkspaceMismatch workspace msg_ws).

Definition covered (runs : list OriginRange) (r : OriginRange) : bool :=
  existsb (λ w, (r_device w =? r_device r) && (r_first w <=? r_first r) && (r_last r <=? r_last w)) runs.

(** One committed run, taken off every wanted run of its device. The sum is a [u64]'s: it wraps in a release
    build (a build that checks overflow panics there). [advance]'s sum needs no such care: a run after the
    greatest head is refused by its other test. *)
Definition consume_run (c : OriginRange) (w : OriginRange) : OriginRange :=
  if (r_device w =? r_device c) && (r_first w <=? r_last c) then mkRange (r_device w) ((r_last c + 1) mod 2 ^ 64) (r_last w) else w.

Definition consume (wanted committed : list OriginRange) : list OriginRange :=
  List.filter (λ w, r_first w <=? r_last w) (foldl (λ ws c, map (consume_run c) ws) wanted committed).

Definition settled_state (wanted : list OriginRange) : SessionState :=
  match wanted with [] => Idle | _ => Wanting end.

Definition ws_catch_up (self : WorkspaceSession) (held : Heads) : WorkspaceSession :=
  match ws_state self with
  | Importing => self
  | _ =>
      let ahead := map (λ p, mkRange (fst p) 1 (snd p))
                     (List.filter (λ p, head_at (ws_heads self) (fst p) <? snd p) (in_key_order held)) in
      let heads := foldl (λ h r, <[r_device r := r_last r]> h) (ws_heads self) ahead in
      let wanted := consume (ws_wanted self) ahead in
      let state := match ws_state self, wanted with Wanting, [] => Idle | s, _ => s end in
      mkWs state heads wanted (ws_inflight self) (ws_greeted self)
  end.

Definition ws_hello (self : WorkspaceSession) (workspace : WorkspaceId) : result SessionError (WorkspaceSession * Message) :=
  match ws_state self with
  | Idle => Ok (mkWs Greeted (ws_heads self) (ws_wanted self) (ws_inflight self) (ws_greeted self),
                MGreet workspace (ws_heads self))
  | s => Err (Unexpected s "hello()")
  end.

Definition ws_on_hello (self : WorkspaceSession) (msg : Message) (workspace : WorkspaceId)
  : result SessionError (WorkspaceSession * Message) :=
  match ws_state self with
  | Greeted =>
      match msg with
      | MGreet msg_ws their_heads =>
          _ ← check_workspace workspace msg_ws;
          let wanted := want (ws_heads self) their_heads in
          Ok (mkWs (settled_state wanted) (ws_heads self) wanted (ws_inflight self) true, MWant workspace wanted)
      | _ => Err (Unexpected (ws_state self) (name_of msg))
      end
  | s => Err (Unexpected s "Greet")
  end.

Definition check_ranges (self : WorkspaceSession) (ranges : list OriginRange) : result SessionError unit :=
  _ ← map_err SGap (advance_all (ws_heads self) ranges); Ok tt.

Definition ws_on_ops (P : Primitives) (self : WorkspaceSession) (workspace : WorkspaceId) (msg : Message)
  (device_keys : gmap DeviceId DevicePublicKey) : result SessionError (WorkspaceSession * list Op) :=
  let accepts := match ws_state self with Wanting => true | Idle => ws_greeted self | _ => false end in
  if negb accepts then Err (Unexpected (ws_state self) "Ops")
  else
    match msg with
    | MOps msg_ws ops signatures ranges =>
        _ ← check_workspace workspace msg_ws;
        _ ← map_err SessCrypto (verify_batch P ops signatures device_keys);
        _ ← check_ranges self ranges;
        Ok (mkWs Importing (ws_heads self) (ws_wanted self) ranges (ws_greeted self), ops)
    | _ => Err (Unexpected (ws_state self) (name_of msg))
    end.

Definition ws_committed (self : WorkspaceSession) (workspace : WorkspaceId) (ranges : list OriginRange)
  : result SessionError (WorkspaceSession * Message) :=
  match ws_state self with
  | Importing =>
      match find (λ r, negb (covered (ws_inflight self) r)) ranges with
      | Some stray => Err (NotInBatch stray)
      | None =>
          heads ← map_err SGap (advance_all (ws_heads self) ranges);
          let wanted := consume (ws_wanted self) ranges in
          Ok (mkWs (settled_state wanted) heads wanted [] (ws_greeted self), MAck workspace ranges)
      end
  | s => Err (Unexpected s "committed()")
  end.

(** ** session.rs *)

Record Session := mkSession {
  s_device : DeviceId;
  s_group : GroupId;
  s_link_hello_sent : bool;
  s_peer : option DeviceId;
  s_workspaces : gmap WorkspaceId WorkspaceSession
}.

Definition Session_new (dev : DeviceId) (group : GroupId) : Session := mkSession dev group false None ∅.

Definition is_open (self : Session) (w : WorkspaceId) : bool := bool_decide (is_Some (s_workspaces self !! w)).

Definition set_workspaces (self : Session) (m : gmap WorkspaceId WorkspaceSession) : Session :=
  mkSession (s_device self) (s_group self) (s_link_hello_sent self) (s_peer self) m.

Definition open_workspace (self : Session) (w : WorkspaceId) (heads : Heads) : result SessionError Session :=
  if negb (is_open self w) && (MAX_OPEN_WORKSPACES <=? size (s_workspaces self))%nat
  then Err (TooManyWorkspaces (size (s_workspaces self) + 1) MAX_OPEN_WORKSPACES)
  else Ok (set_workspaces self (<[w := WorkspaceSession_new heads]> (s_workspaces self))).

Definition workspace (self : Session) (w : WorkspaceId) : result SessionError WorkspaceSession :=
  ok_or (s_workspaces self !! w) (UnknownWorkspace w).

(** A method of one sub-session, run in its place ([self.workspace_mut(workspace)?.method(..)]). *)
Definition on_workspace {A} (self : Session) (w : WorkspaceId)
  (f : WorkspaceSession → result SessionError (WorkspaceSession * A)) : result SessionError (Session * A) :=
  ws ← workspace self w;
  '(ws', a) ← f ws;
  Ok (set_workspaces self (<[w := ws']> (s_workspaces self)), a).

Definition state (self : Session) (w : WorkspaceId) : result SessionError SessionState := ws_state <$> workspace self w.
Definition session_heads (self : Session) (w : WorkspaceId) : result SessionError Heads := ws_heads <$> workspace self w.
Definition session_wanted (self : Session) (w : WorkspaceId) : result SessionError (list OriginRange) :=
  ws_wanted <$> workspace self w.

Definition catch_up (self : Session) (w : WorkspaceId) (held : Heads) : result SessionError Session :=
  fst <$> on_workspace self w (λ ws, Ok (ws_catch_up ws held, tt)).

Definition link_hello (self : Session) (now_ms : N) : result SessionError (Session * Message) :=
  if s_link_hello_sent self then Err LinkAlreadyGreeted
  else Ok (mkSession (s_device self) (s_group self) true (s_peer self) (s_workspaces self),
           MHello (s_device self) (s_group self) ∅ PROTOCOL_VERSION now_ms).

Definition on_link_hello (self : Session) (msg : Message) (now_ms : N) : result SessionError (Session * Skew) :=
  if negb (s_link_hello_sent self) then Err LinkNotReady
  else match s_peer self with
  | Some _ => Err LinkAlreadyGreeted
  | None =>
      match msg with
      | MHello dev theirs _ protocol wall =>
          if negb (theirs =? s_group self) then Err (GroupMismatch (s_group self) theirs)
          else if negb (protocol =? PROTOCOL_VERSION) then Err (ProtocolMismatch PROTOCOL_VERSION protocol)
          else
            match Skew_check wall now_ms with
            | SkewAhead lead_ms => Err (PeerAhead wall now_ms lead_ms)
            | skew => Ok (mkSession (s_device self) (s_group self) true (Some dev) (s_workspaces self), skew)
            end
      | _ => Err (NotAHello (name_of msg))
      end
  end.

Definition hello (self : Session) (w : WorkspaceId) : result SessionError (Session * Message) :=
  on_workspace self w (λ ws, ws_hello ws w).

Definition on_hello (self : Session) (w : WorkspaceId) (msg : Message) : result SessionError (Session * Message) :=
  if negb (is_open self w) then Err (UnknownWorkspace w)
  else match s_peer self with
  | None => Err LinkNotReady
  | Some _ => on_workspace self w (λ ws, ws_on_hello ws msg w)
  end.

Definition on_ops (P : Primitives) (self : Session) (w : WorkspaceId) (msg : Message)
  (device_keys : gmap DeviceId DevicePublicKey) : result SessionError (Session * list Op) :=
  on_workspace self w (λ ws, ws_on_ops P ws w msg device_keys).

Definition committed (self : Session) (w : WorkspaceId) (ranges : list OriginRange)
  : result SessionError (Session * Message) :=
  on_workspace self w (λ ws, ws_committed ws w ranges).

(** ** Heads and runs *)

Definition heads_le (a b : Heads) : Prop := ∀ d, head_at a d <= head_at b d.

#[global] Instance heads_le_preorder : PreOrder heads_le.
Proof. split; [intros a d; lia|intros a b c H1 H2 d; specialize (H1 d); specialize (H2 d); lia]. Qed.

Lemma head_at_insert h d n d' : head_at (<[d := n]> h) d' = if d =? d' then n else head_at h d'.
Proof.
  unfold head_at. destruct (N.eqb_spec d d') as [->|Hne]; [by rewrite lookup_insert_eq|].
  by rewrite lookup_insert_ne.
Qed.

Lemma advance_Ok heads r heads' :
  advance heads r = Ok heads' ↔
  r_first r <= head_at heads (r_device r) + 1 ∧ head_at heads (r_device r) < r_last r
  ∧ heads' = <[r_device r := r_last r]> heads.
Proof.
  unfold advance. destruct (N.ltb_spec (head_at heads (r_device r) + 1) (r_first r)),
    (N.leb_spec (r_last r) (head_at heads (r_device r))); cbn; (split; [intros [=]|intros (? & ? & ->)]); try lia; auto.
Qed.

Lemma advance_le heads r heads' : advance heads r = Ok heads' → heads_le heads heads'.
Proof.
  intros (_ & Hlt & ->)%advance_Ok d. rewrite head_at_insert. destruct (N.eqb_spec (r_device r) d) as [<-|]; lia.
Qed.

Lemma advance_all_le ranges : ∀ heads heads', advance_all heads ranges = Ok heads' → heads_le heads heads'.
Proof.
  induction ranges as [|r ranges IH]; intros heads heads' H; cbn in H; [by simplify_eq|].
  destruct (advance heads r) as [h|] eqn:E; cbn in H; [|done]. etrans; [by eapply advance_le|by apply IH].
Qed.

(** A wanted run starts right after the head held for its device; after the greatest number comes 0. *)
Definition next_after (heads : Heads) (w : OriginRange) : Prop := r_first w = (head_at heads (r_device w) + 1) mod 2 ^ 64.

Lemma consume_run_next heads c w :
  head_at heads (r_device c) < r_last c → next_after heads w →
  next_after (<[r_device c := r_last c]> heads) (consume_run c w).
Proof.
  unfold next_after, consume_run. intros Hc Hw. rewrite head_at_insert.
  destruct (N.eqb_spec (r_device w) (r_device c)) as [He|Hne]; cbn [andb].
  - rewrite He in Hw. pose proof (N.Div0.mod_le (head_at heads (r_device c) + 1) (2 ^ 64)) as Hm.
    destruct (N.leb_spec (r_first w) (r_last c)) as [|Hgt]; cbn [r_first r_device]; [|lia].
    by rewrite He, N.eqb_refl.
  - destruct (N.eqb_spec (r_device c) (r_device w)); [congruence|done].
Qed.

Lemma consume_run_device c w : r_device (consume_run c w) = r_device w.
Proof. unfold consume_run. by destruct (_ && _). Qed.

(** Taking raised runs off the wanted ones, one by one, while heads rise past them. *)
Lemma consume_next cs : ∀ wanted heads,
  Forall (next_after heads) wanted →
  (∀ pre c post, cs = pre ++ c :: post →
     head_at (foldl (λ h r, <[r_device r := r_last r]> h) heads pre) (r_device c) < r_last c) →
  Forall (next_after (foldl (λ h r, <[r_device r := r_last r]> h) heads cs))
         (foldl (λ ws c, map (consume_run c) ws) wanted cs).
Proof.
  induction cs as [|c cs IH]; intros wanted heads Hw Hc; [done|]. cbn [foldl]. apply IH.
  - apply Forall_map. eapply Forall_impl; [exact Hw|]. intros w Hn. apply consume_run_next; [|done].
    apply (Hc [] c cs). done.
  - intros pre c' post ->. exact (Hc (c :: pre) c' post eq_refl).
Qed.

Lemma consume_devices cs wanted :
  map r_device (foldl (λ ws c, map (consume_run c) ws) wanted cs) = map r_device wanted.
Proof.
  revert wanted. induction cs as [|c cs IH]; intros wanted; [done|]. cbn [foldl]. rewrite IH, map_map.
  apply map_ext. intros w. apply consume_run_device.
Qed.

Lemma advance_all_foldl cs : ∀ heads heads',
  advance_all heads cs = Ok heads' →
  heads' = foldl (λ h r, <[r_device r := r_last r]> h) heads cs
  ∧ (∀ pre c post, cs = pre ++ c :: post →
       head_at (foldl (λ h r, <[r_device r := r_last r]> h) heads pre) (r_device c) < r_last c).
Proof.
  induction cs as [|c cs IH]; intros heads heads' H; cbn in H.
  - simplify_eq. split; [done|]. by intros [|] ? ?.
  - destruct (advance heads c) as [h|] eqn:E; cbn in H; [|done].
    apply advance_Ok in E as (_ & Hlt & ->). destruct (IH _ _ H) as [-> Hc]. split; [done|].
    intros [|c0 pre] c' post [= -> ->]; [done|]. cbn [foldl]. by eapply Hc.
Qed.

(** ** The sub-session's invariant *)

Record ws_wf (ws : WorkspaceSession) : Prop := {
  wf_wanted : Forall (λ w, next_after (ws_heads ws) w ∧ r_first w <= r_last w) (ws_wanted ws);
  wf_devices : NoDup (map r_device (ws_wanted ws));
  wf_state : match ws_state ws with Idle | Greeted => ws_wanted ws = [] | Wanting => ws_wanted ws ≠ [] | Importing => True end;
  wf_inflight : match ws_state ws with
                | Importing => ∃ h, advance_all (ws_heads ws) (ws_inflight ws) = Ok h
                | _ => ws_inflight ws = []
                end;
  wf_greeted : ws_greeted ws = true ∨ ws_state ws = Idle ∨ ws_state ws = Greeted
}.

(** What is left wanted once some runs are held. *)
Lemma consume_wf heads wanted cs :
  Forall (λ w, next_after heads w ∧ r_first w <= r_last w) wanted → NoDup (map r_device wanted) →
  (∀ pre c post, cs = pre ++ c :: post →
     head_at (foldl (λ h r, <[r_device r := r_last r]> h) heads pre) (r_device c) < r_last c) →
  Forall (λ w, next_after (foldl (λ h r, <[r_device r := r_last r]> h) heads cs) w ∧ r_first w <= r_last w)
    (consume wanted cs)
  ∧ NoDup (map r_device (consume wanted cs)).
Proof.
  intros Hw Hnd Hc. split.
  - apply Forall_forall. intros w Hin. unfold consume in Hin.
    rewrite list_elem_of_In, List.filter_In, <- list_elem_of_In in Hin. destruct Hin as [Hin Hle]. apply N.leb_le in Hle.
    split; [|done]. assert (Forall (next_after heads) wanted) as Hn.
    { eapply Forall_impl; [exact Hw|]. by intros ? [? _]. }
    pose proof (consume_next cs wanted heads Hn Hc) as Hf. by apply (proj1 (Forall_forall _ _) Hf).
  - unfold consume. apply NoDup_map_filter. by rewrite consume_devices.
Qed.

Lemma settled_state_spec wanted :
  match settled_state wanted with Idle | Greeted => wanted = [] | Wanting => wanted ≠ [] | Importing => True end.
Proof. by destruct wanted. Qed.

Lemma settled_not_importing wanted : settled_state wanted ≠ Importing ∧ settled_state wanted ≠ Greeted.
Proof. by destruct wanted. Qed.

(** Raising heads to what the store holds. *)
Lemma ahead_runs heads held pre c post :
  map (λ p, mkRange (fst p) 1 (snd p)) (List.filter (λ p, head_at heads (fst p) <? snd p) (in_key_order held)) = pre ++ c :: post →
  head_at (foldl (λ h r, <[r_device r := r_last r]> h) heads pre) (r_device c) < r_last c.
Proof.
  intros Heq. pose proof (NoDup_map_filter fst (λ p, head_at heads (fst p) <? snd p) (in_key_order held)) as Hnd.
  assert (NoDup (map fst (in_key_order held))) as Hk.
  { assert (map fst (in_key_order held) ≡ₚ map fst (map_to_list held)) as ->
      by (apply fmap_Permutation, stable_sort_perm). apply NoDup_fst_map_to_list. }
  specialize (Hnd Hk). apply (f_equal (map r_device)) in Heq as Hdev. rewrite map_map in Hdev. cbn [r_device] in Hdev.
  change (λ x : N * N, x.1) with (@fst N N) in Hdev. rewrite Hdev, map_app in Hnd. cbn [map] in Hnd.
  assert (r_device c ∉ map r_device pre) as Hni.
  { apply NoDup_app in Hnd as (_ & Hdis & _). intros Hin. apply (Hdis _ Hin). by left. }
  assert (∀ l h d, d ∉ map r_device l → head_at (foldl (λ h r, <[r_device r := r_last r]> h) h l) d = head_at h d) as Hf.
  { induction l as [|x l IH]; intros h d Hd; [done|]. cbn [foldl map] in *. rewrite not_elem_of_cons in Hd.
    rewrite IH by apply Hd. rewrite head_at_insert. by rewrite (proj2 (N.eqb_neq _ _) (not_eq_sym (proj1 Hd))). }
  rewrite Hf by done.
  assert (c ∈ map (λ p, mkRange (fst p) 1 (snd p)) (List.filter (λ p, head_at heads (fst p) <? snd p) (in_key_order held))) as Hin.
  { rewrite Heq. apply elem_of_app. right. by left. }
  rewrite list_elem_of_In, in_map_iff in Hin. destruct Hin as (p & <- & Hp). apply List.filter_In in Hp as [_ Hp].
  by apply N.ltb_lt in Hp.
Qed.

Lemma ws_catch_up_wf ws held : ws_wf ws → ws_wf (ws_catch_up ws held) ∧ heads_le (ws_heads ws) (ws_heads (ws_catch_up ws held)).
Proof.
  intros [Hw Hnd Hst Hin Hg]. unfold ws_catch_up.
  set (ahead := map _ _).
  assert (∀ pre c post, ahead = pre ++ c :: post →
     head_at (foldl (λ h r, <[r_device r := r_last r]> h) (ws_heads ws) pre) (r_device c) < r_last c) as Hc
    by (intros pre c post Heq; by eapply ahead_runs).
  destruct (consume_wf _ _ _ Hw Hnd Hc) as [Hw' Hnd'].
  assert (heads_le (ws_heads ws) (foldl (λ h r, <[r_device r := r_last r]> h) (ws_heads ws) ahead)) as Hle.
  { clear -Hc. revert Hc. generalize (ws_heads ws) as h, ahead as l. intros h l. revert h.
    induction l as [|x l IH]; intros h Hc; [done|]. cbn [foldl]. etrans; [|apply IH].
    - intros d. rewrite head_at_insert. destruct (N.eqb_spec (r_device x) d) as [<-|]; [|lia].
      pose proof (Hc [] x l eq_refl). cbn in *. lia.
    - intros pre c post ->. exact (Hc (x :: pre) c post eq_refl). }
  assert (ws_wanted ws = [] → consume (ws_wanted ws) ahead = []) as Hnil.
  { intros ->. unfold consume. assert (∀ l, foldl (λ ws c, map (consume_run c) ws) [] l = []) as ->; [|done].
    intros l. by induction l. }
  destruct (ws_state ws) eqn:Es; (split; [|done || exact Hle]).
  1,2: split; cbn [ws_wanted ws_heads ws_state ws_inflight ws_greeted]; auto.
  - split; cbn [ws_wanted ws_heads ws_state ws_inflight ws_greeted]; try done.
    + destruct (consume (ws_wanted ws) ahead); done.
    + destruct (consume (ws_wanted ws) ahead); done.
    + destruct (consume (ws_wanted ws) ahead); [right; by left|]. destruct Hg as [?|[?|?]]; auto; done.
  - split; rewrite ?Es; done.
Qed.

Lemma ws_hello_wf ws w ws' m : ws_wf ws → ws_hello ws w = Ok (ws', m) → ws_wf ws' ∧ ws_heads ws' = ws_heads ws ∧ m = MGreet w (ws_heads ws).
Proof.
  intros [Hw Hnd Hst Hin Hg]. unfold ws_hello. destruct (ws_state ws) eqn:Es; intros [= <- <-].
  split; [|done]. split; cbn; auto.
Qed.

(** The heads a greeting carries are [u64]s. *)
Definition message_u64 (m : Message) : Prop :=
  match m with MGreet _ their_heads => ∀ d n, their_heads !! d = Some n → n < 2 ^ 64 | _ => True end.

Lemma ws_on_hello_wf ws w msg ws' m :
  message_u64 msg → ws_wf ws → ws_on_hello ws msg w = Ok (ws', m) → ws_wf ws' ∧ ws_heads ws' = ws_heads ws.
Proof.
  intros Hmsg [Hw Hnd Hst Hin Hg]. unfold ws_on_hello. destruct (ws_state ws) eqn:Es; try done.
  destruct msg as [| | | |w' theirs|]; try done. destruct (check_workspace w w'); cbn; [|done].
  intros [= <- <-]. split; [|done]. destruct (settled_not_importing (want (ws_heads ws) theirs)) as [Hn1 Hn2].
  split; cbn [ws_wanted ws_heads ws_state ws_inflight ws_greeted].
  - pose proof (want_from_bounds (ws_heads ws) (in_key_order theirs) MAX_WANT_RANGES) as Hb.
    pose proof (want_from_last (ws_heads ws) (in_key_order theirs) MAX_WANT_RANGES) as Ht.
    apply Forall_forall. intros r Hr. destruct (proj1 (Forall_forall _ _) Hb r Hr) as [Hf Hl]. split; [|lia].
    pose proof (proj1 (Forall_forall _ _) Ht r Hr) as Hin'. cbv beta in Hin'. apply in_key_order_elem, Hmsg in Hin'.
    unfold next_after. by rewrite N.mod_small by lia.
  - apply want_devices_nodup.
  - apply settled_state_spec.
  - by destruct (settled_state _).
  - by left.
Qed.

Lemma ws_on_ops_wf P ws w msg keys ws' ops :
  ws_wf ws → ws_on_ops P ws w msg keys = Ok (ws', ops) →
  ws_wf ws' ∧ ws_heads ws' = ws_heads ws ∧ ws_state ws' = Importing
  ∧ ∃ signatures, msg = MOps w ops signatures (ws_inflight ws') ∧ verify_batch P ops signatures keys = Ok tt.
Proof.
  intros [Hw Hnd Hst Hin Hg]. unfold ws_on_ops.
  destruct (negb _) eqn:Ea; [done|]. apply negb_false_iff in Ea.
  destruct msg as [| |w' ops' sigs ranges| | |]; try done.
  unfold check_workspace. destruct (N.eqb_spec w' w) as [->|]; cbn [mbind result_bind]; [|done].
  destruct (verify_batch P ops' sigs keys) as [[]|] eqn:Ev; cbn [map_err mbind result_bind]; [|done].
  unfold check_ranges. destruct (advance_all (ws_heads ws) ranges) as [h|] eqn:Eh; cbn [map_err mbind result_bind]; [|done].
  intros [= <- <-]. cbn. split; [|by eauto 10]. split; cbn; eauto.
  destruct (ws_state ws) eqn:Es; try done; [by left|]. destruct Hg as [?|[?|?]]; [by left|done|done].
Qed.

Lemma ws_committed_wf ws w ranges ws' m :
  ws_wf ws → ws_committed ws w ranges = Ok (ws', m) →
  ws_wf ws' ∧ advance_all (ws_heads ws) ranges = Ok (ws_heads ws') ∧ m = MAck w ranges
  ∧ ws_state ws = Importing ∧ ws_state ws' ≠ Importing.
Proof.
  intros [Hw Hnd Hst Hin Hg]. unfold ws_committed. destruct (ws_state ws) eqn:Es; try done.
  destruct (find _ ranges); [done|]. destruct (advance_all (ws_heads ws) ranges) as [h|] eqn:Eh; cbn [map_err mbind result_bind]; [|done].
  intros [= <- <-]. cbn [ws_heads ws_state]. destruct (settled_not_importing (consume (ws_wanted ws) ranges)) as [Hn1 Hn2].
  split_and!; [|done..]. destruct (advance_all_foldl _ _ _ Eh) as [-> Hc].
  destruct (consume_wf _ _ _ Hw Hnd Hc) as [Hw' Hnd'].
  split; cbn [ws_wanted ws_heads ws_state ws_inflight ws_greeted]; auto.
  - apply settled_state_spec.
  - by destruct (settled_state _).
  - destruct Hg as [?|[?|?]]; auto; congruence.
Qed.

(** ** Any sequence of calls on a session *)

Inductive SessionCall :=
| COpen (w : WorkspaceId) (heads : Heads)
| CCatchUp (w : WorkspaceId) (held : Heads)
| CLinkHello (now_ms : N)
| COnLinkHello (msg : Message) (now_ms : N)
| CHello (w : WorkspaceId)
| COnHello (w : WorkspaceId) (msg : Message)
| COnOps (w : WorkspaceId) (msg : Message) (keys : gmap DeviceId DevicePublicKey)
| CCommitted (w : WorkspaceId) (ranges : list OriginRange).

(** The state after a call; an error leaves it as it was. *)
Definition after {A} (s : Session) (r : result SessionError (Session * A)) : Session :=
  match r with Ok (s', _) => s' | Err _ => s end.

Definition session_step (P : Primitives) (s : Session) (c : SessionCall) : Session :=
  match c with
  | COpen w heads => match open_workspace s w heads with Ok s' => s' | Err _ => s end
  | CCatchUp w held => match catch_up s w held with Ok s' => s' | Err _ => s end
  | CLinkHello now => after s (link_hello s now)
  | COnLinkHello msg now => after s (on_link_hello s msg now)
  | CHello w => after s (hello s w)
  | COnHello w msg => after s (on_hello s w msg)
  | COnOps w msg keys => after s (on_ops P s w msg keys)
  | CCommitted w ranges => after s (committed s w ranges)
  end.

Definition session_run (P : Primitives) (s : Session) (cs : list SessionCall) : Session := foldl (session_step P) s cs.

Definition call_u64 (c : SessionCall) : Prop := match c with COnHello _ msg => message_u64 msg | _ => True end.

(** The workspace a call is about. *)
Definition call_workspace (c : SessionCall) : option WorkspaceId :=
  match c with
  | COpen w _ | CCatchUp w _ | CHello w | COnHello w _ | COnOps w _ _ | CCommitted w _ => Some w
  | CLinkHello _ | COnLinkHello _ _ => None
  end.

Record session_wf (s : Session) : Prop := {
  swf_each w ws : s_workspaces s !! w = Some ws → ws_wf ws ∧ (ws_greeted ws = true → is_Some (s_peer s));
  swf_size : (size (s_workspaces s) ≤ MAX_OPEN_WORKSPACES)%nat;
  swf_link : is_Some (s_peer s) → s_link_hello_sent s = true
}.

(** What a step may do to the session: the link's facts are set once, other workspaces are untouched,
    and a workspace that is not opened afresh only moves its heads up. *)
Record session_moves (s : Session) (c : SessionCall) (s' : Session) : Prop := {
  mv_link : s_device s' = s_device s ∧ s_group s' = s_group s ∧ (∀ d, s_peer s = Some d → s_peer s' = Some d);
  mv_others w : call_workspace c ≠ Some w → s_workspaces s' !! w = s_workspaces s !! w;
  mv_heads w ws : s_workspaces s !! w = Some ws → (∀ heads, c ≠ COpen w heads) →
    ∃ ws', s_workspaces s' !! w = Some ws' ∧ heads_le (ws_heads ws) (ws_heads ws')
}.

Lemma session_moves_refl s c : session_moves s c s.
Proof. split; [auto|done|]. intros w ws Hw _. by exists ws. Qed.

(** A method of one sub-session that keeps its invariant and its heads keeps the session's. *)
Lemma on_workspace_wf {A} s w (f : WorkspaceSession → result SessionError (WorkspaceSession * A)) c :
  session_wf s → call_workspace c = Some w →
  (∀ ws ws' a, ws_wf ws → f ws = Ok (ws', a) →
     ws_wf ws' ∧ heads_le (ws_heads ws) (ws_heads ws') ∧ (ws_greeted ws' = true → ws_greeted ws = true ∨ is_Some (s_peer s))) →
  session_wf (after s (on_workspace s w f)) ∧ session_moves s c (after s (on_workspace s w f)).
Proof.
  intros [He Hz Hl] Hc Hf. unfold on_workspace, workspace.
  destruct (s_workspaces s !! w) as [ws|] eqn:Ew; cbn [ok_or mbind result_bind];
    [|split; [done|apply session_moves_refl]].
  destruct (f ws) as [[ws' a]|] eqn:Ef; cbn [mbind result_bind after]; [|split; [done|apply session_moves_refl]].
  destruct (He w ws Ew) as [Hws Hgp]. destruct (Hf _ _ _ Hws Ef) as (Hws' & Hle & Hg). split.
  - split; cbn [set_workspaces s_workspaces s_peer s_link_hello_sent]; [|by rewrite map_size_insert_Some|done].
    intros w' ws0 [[<- <-]|[Hne Hlk]]%lookup_insert_Some; [|by eapply He].
    split; [done|]. intros Ht. destruct (Hg Ht); auto.
  - split; cbn [set_workspaces s_workspaces s_device s_group s_peer]; [auto| |].
    + intros w' Hne. rewrite lookup_insert_ne; [done|]. intros ->. by rewrite Hc in Hne.
    + intros w' ws0 Hlk _. destruct (decide (w = w')) as [<-|Hne].
      * rewrite lookup_insert_eq. exists ws'. split; [done|]. by simplify_eq.
      * rewrite lookup_insert_ne by done. by exists ws0.
Qed.

Lemma ws_new_wf heads : ws_wf (WorkspaceSession_new heads).
Proof. split; cbn; auto; constructor. Qed.

Lemma session_step_wf P s c : call_u64 c → session_wf s → session_wf (session_step P s c) ∧ session_moves s c (session_step P s c).
Proof.
  intros Hc Hs. destruct c as [w heads|w held|now|msg now|w|w msg|w msg keys|w ranges]; cbn [session_step].
  - destruct Hs as [He Hz Hl]. unfold open_workspace, is_open.
    destruct (negb _ && _) eqn:Efull; [split; [done|apply session_moves_refl]|]. split.
    + split; cbn [set_workspaces s_workspaces s_peer s_link_hello_sent]; [| |done].
      * intros w' ws0 [[<- <-]|[Hne Hlk]]%lookup_insert_Some; [split; [apply ws_new_wf|done]|by eapply He].
      * rewrite map_size_insert. destruct (s_workspaces s !! w) as [ws|] eqn:Ew; [done|].
        rewrite bool_decide_eq_false_2 in Efull by (by intros []). cbn [negb andb] in Efull. apply Nat.leb_gt in Efull. cbn. lia.
    + split; cbn [set_workspaces s_workspaces s_device s_group s_peer]; [auto| |].
      * intros w' Hne. rewrite lookup_insert_ne; [done|]. intros ->. by cbn in Hne.
      * intros w' ws0 Hlk Hno. rewrite lookup_insert_ne; [by exists ws0|]. intros ->. by eapply Hno.
  - unfold catch_up. 
    destruct (on_workspace_wf s w (λ ws, Ok (ws_catch_up ws held, tt)) (CCatchUp w held) Hs eq_refl) as [H1 H2].
    { intros ws ws' a Hws [= <- _]. destruct (ws_catch_up_wf ws held Hws) as [? ?]. split_and!; [done..|].
      intros Ht. left. unfold ws_catch_up in Ht. by destruct (ws_state ws). }
    destruct (on_workspace s w _) as [[s' []]|]; done.
  - unfold link_hello. pose proof Hs as [He Hz Hl]. destruct (s_link_hello_sent s); cbn [after]; [split; [done|apply session_moves_refl]|].
    split; [by split|]. split; cbn; [auto|done|]. intros w ws Hw _. by exists ws.
  - unfold on_link_hello. pose proof Hs as [He Hz Hl]. destruct (negb _) eqn:En; cbn [after]; [split; [done|apply session_moves_refl]|].
    destruct (s_peer s) as [p|] eqn:Ep; cbn [after]; [split; [done|apply session_moves_refl]|].
    destruct msg as [dev theirs h proto wall| | | | |]; cbn [after]; try (split; [done|apply session_moves_refl]).
    destruct (negb (theirs =? s_group s)); [split; [done|apply session_moves_refl]|].
    destruct (negb (proto =? PROTOCOL_VERSION)); [split; [done|apply session_moves_refl]|].
    assert (session_wf (mkSession (s_device s) (s_group s) true (Some dev) (s_workspaces s))
            ∧ session_moves s (COnLinkHello (MHello dev theirs h proto wall) now)
                (mkSession (s_device s) (s_group s) true (Some dev) (s_workspaces s))) as Hok.
    { split; [split; cbn; [|done|done]|split; cbn; [|done|]].
      - intros w ws Hw. destruct (He w ws Hw) as [? _]. split; [done|]. by eexists.
      - split_and!; [done..|]. intros d Hd. by rewrite Ep in Hd.
      - intros w ws Hw _. by exists ws. }
    destruct (Skew_check wall now); [exact Hok|exact Hok|split; [done|apply session_moves_refl]].
  - apply on_workspace_wf; [done..|]. intros ws ws' a Hws Hf.
    destruct (ws_hello_wf _ _ _ _ Hws Hf) as (? & -> & _). split_and!; [done..|].
    intros Ht. left. unfold ws_hello in Hf. destruct (ws_state ws); simplify_eq; done.
  - unfold on_hello. destruct (negb _); [split; [done|apply session_moves_refl]|].
    destruct (s_peer s) as [p|] eqn:Ep; [|split; [done|apply session_moves_refl]].
    apply on_workspace_wf; [done..|]. intros ws ws' a Hws Hf.
    destruct (ws_on_hello_wf _ _ _ _ _ Hc Hws Hf) as (? & ->). split_and!; [done..|]. intros _. right. rewrite Ep. by eexists.
  - apply on_workspace_wf; [done..|]. intros ws ws' a Hws Hf.
    destruct (ws_on_ops_wf _ _ _ _ _ _ _ Hws Hf) as (? & Heq & _ & _). split_and!; [done|by rewrite Heq|].
    intros Ht. left. unfold ws_on_ops in Hf. destruct (negb _); [done|]. destruct msg; try done.
    destruct (check_workspace _ _); cbn [mbind result_bind] in Hf; [|done].
    destruct (verify_batch _ _ _ _); cbn [map_err mbind result_bind] in Hf; [|done].
    destruct (check_ranges _ _); cbn [mbind result_bind] in Hf; [|done]. by simplify_eq.
  - apply on_workspace_wf; [done..|]. intros ws ws' a Hws Hf.
    destruct (ws_committed_wf _ _ _ _ _ Hws Hf) as (? & Ha & _). split_and!; [done|by eapply advance_all_le|].
    clear Ha. intros Ht. left. unfold ws_committed in Hf. destruct (ws_state ws); try done. destruct (find (λ r, negb (covered (ws_inflight ws) r)) ranges); [done|].
    destruct (advance_all _ _); cbn [map_err mbind result_bind] in Hf; [|done]. by simplify_eq.
Qed.

(** C10. A session keeps its word in any order of calls, right or wrong, whose greetings carry 64-bit
    heads: at every moment, each workspace's wanted runs are one a device and start right after the head
    held (after the greatest number comes 0), a batch being imported follows those heads without a hole,
    and nothing is wanted or in flight in a state that says so; no workspace takes a peer's greeting before
    the link's own checks passed; every call leaves other workspaces as they were and the peer once known
    stays; and no head goes back, unless the call opens that workspace afresh, which starts it from the
    heads the call gives. *)
Theorem session_always_in_step (P : Primitives) (dev : DeviceId) (group : GroupId) (before : list SessionCall)
  (c : SessionCall) :
  Forall call_u64 (c :: before) →
  let s := session_run P (Session_new dev group) before in
  session_wf s ∧ session_moves s c (session_step P s c).
Proof.
  intros [Hc Hb]%Forall_cons s. assert (session_wf s) as Hs.
  { unfold s, session_run. assert (session_wf (Session_new dev group)) as H0.
    { split; cbn; [by intros ? ? ?|rewrite map_size_empty; lia|by intros []]. }
    clear s Hc. revert H0. generalize (Session_new dev group). induction Hb as [|c0 cs Hc0 Hcs IH]; intros s0 H0; [done|].
    cbn [foldl]. apply IH. by apply session_step_wf. }
  split; [done|]. by apply session_step_wf.
Qed.

Lemma session_always_in_step_witness :
  let before := [COpen 1 ∅; CLinkHello 0; COnLinkHello (MHello 2 7 ∅ PROTOCOL_VERSION 0) 0; CHello 1] in
  let c := COnHello 1 (MGreet 1 {[5 := 3]}) in
  let s := session_run sample_primitives (Session_new 1 7) before in
  session_wanted (session_step sample_primitives s c) 1 = Ok [mkRange 5 1 3]
  ∧ session_wf s ∧ session_moves s c (session_step sample_primitives s c).
Proof.
  intros before c s. split; [vm_compute; reflexivity|]. apply (session_always_in_step sample_primitives 1 7 before c).
  repeat constructor. cbn. intros d n [<- <-]%lookup_singleton_Some. reflexivity.
Defined.

(** A run that ends at the greatest number leaves the run wanted starting over from 0. *)
Example consume_wraps : consume [mkRange 5 1 (2 ^ 64 - 1)] [mkRange 5 1 (2 ^ 64 - 1)] = [mkRange 5 0 (2 ^ 64 - 1)].
Proof. vm_compute. reflexivity. Qed.
