(* ===== verification/LiveSync.v ===== *)
(** A live sync session of the daemon ([crates/txtodo-daemon/src/]): what it pushes and when
    ([lan_session_live.rs]), the batch it sends ([lan_serve_merged.rs], [lan_apply.rs]), what it does
    with a peer's batch ([lan_session_ops.rs], [lan_apply.rs], [held_ops.rs], [sync_commit_gate.rs]) and
    the turn that drives both ([lan_session_shared.rs], [lan_session_dispatch.rs], [lan_session_gate.rs]).

    An [Instant] is a number of milliseconds. The link is what is sent over it: a list of messages with
    their workspace; sealing and framing are [Sealed] and [Frame], and a send that fails (a frame over
    the cap, a broken link) is the parameter [sends]. The files' own writes are the oracle [Disk]: each
    same-file run of a batch lands, is refused, or lands in the log and then fails. [Digest] messages
    (a report) and log lines are left out. *)
From S2P Require Import Prelude.
From S2P Require Import Hlc.
From S2P Require Import Ops.
From S2P Require Import OpLog.
From S2P Require Import Frame.
From S2P Require Import Message.
From S2P Require Import Sealed.
From S2P Require Import Session.

#[local] Open Scope N_scope.

Definition POLL : N := 50.
Definition HEARTBEAT : N := 5000.
Definition DEAD_AFTER : N := 20000.
Definition QUIET_CLOSE : N := 750.
Definition RESEND_AFTER : N := 10000.
Definition WINDOW_BATCHES : N := 2.
Definition READ_WINDOW : N := 128.
Definition MAX_MESSAGES_PER_SESSION : N := 100000.
Definition LINK_WORKSPACE : WorkspaceId := 0.

(** A workspace this device has open: its log, and the count of task-document commits. *)
Record Route := mkRoute { rt_log : OpLog; rt_commits : N }.

(** ** lan_serve_merged.rs *)

Record Run := mkRun { run_range : OriginRange; run_next : N; run_buf : list Op }.

Definition front (log : OpLog) (run : Run) : result StoreError (Run * option Op) :=
  match run_buf run with
  | [] =>
      if run_next run <=? r_last (run_range run) then
        let last := N.min (run_next run + READ_WINDOW - 1) (r_last (run_range run)) in
        stored ← ops_for log (r_device (run_range run)) (run_next run) last;
        let buf := map stored_op stored in
        Ok (mkRun (run_range run) (last + 1) buf, head buf)
      else Ok (run, None)
  | op :: _ => Ok (run, Some op)
  end.

(** [lowest]: the runs with their fronts read, and which has the lowest stamp. *)
Fixpoint lowest_from (log : OpLog) (i : nat) (runs : list Run) (best : option (nat * Hlc))
  : result StoreError (list Run * option (nat * Hlc)) :=
  match runs with
  | [] => Ok ([], best)
  | run :: rest =>
      '(run', op) ← front log run;
      let best' := match op with
                   | None => best
                   | Some op =>
                       match best with
                       | Some (_, hlc) => if Hlc_ltb (op_hlc op) hlc then Some (i, op_hlc op) else best
                       | None => Some (i, op_hlc op)
                       end
                   end in
      '(rest', b) ← lowest_from log (S i) rest best';
      Ok (run' :: rest', b)
  end.

Definition lowest (log : OpLog) (runs : list Run) : result StoreError (list Run * option nat) :=
  '(runs', best) ← lowest_from log 0%nat runs None;
  Ok (runs', option_map fst best).

Definition range_len (r : OriginRange) : N := r_last r - r_first r + 1.

Definition ranges_len (ranges : list OriginRange) (d : DeviceId) : N :=
  foldr (λ r n, range_len r + n) 0 (List.filter (λ r, r_device r =? d) ranges).

(** [extend]: [None] when the device would come back. The list is held last run first here. *)
Definition extend_rev (ranges : list OriginRange) (d : DeviceId) (seq : N) : option (list OriginRange) :=
  match ranges with
  | r :: rest =>
      if r_device r =? d then Some (mkRange d (r_first r) seq :: rest)
      else if existsb (λ r, r_device r =? d) ranges then None
      else Some (mkRange d seq seq :: ranges)
  | [] => Some [mkRange d seq seq]
  end.
Definition extend (ranges : list OriginRange) (d : DeviceId) (seq : N) : option (list OriginRange) :=
  reverse <$> extend_rev (reverse ranges) d seq.

(** The loop of [merge]; each pass adds one op, so the fuel is the batch's room. *)
Fixpoint merge_loop (room : nat) (log : OpLog) (runs : list Run) (ops : list Op) (ranges : list OriginRange)
  : result StoreError (list Op * list OriginRange) :=
  match room with
  | O => Ok (ops, ranges)
  | S room' =>
      '(runs', i) ← lowest log runs;
      match (i ← i; run ← runs' !! i; Some (i, run)) with
      | None => Ok (ops, ranges)
      | Some (i, run) =>
          let d := r_device (run_range run) in
          let seq := r_first (run_range run) + ranges_len ranges d in
          match extend ranges d seq with
          | None => Ok (ops, ranges)
          | Some ranges' =>
              let runs'' := <[i := mkRun (run_range run) (run_next run) (tail (run_buf run))]> runs' in
              merge_loop room' log runs'' (ops ++ take 1 (run_buf run)) ranges'
          end
      end
  end.

Definition merge (log : OpLog) (runs : list OriginRange) : result StoreError (list Op * list OriginRange) :=
  merge_loop MAX_OPS_PER_BATCH log (map (λ r, mkRun r (r_first r) []) runs) [] [].

Section with_primitives.
Context (P : Primitives).

(** [sign_ops]: no batch when an op cannot be signed. *)
Definition sign_ops (ops : list Op) (key : DeviceSigningKey) : option (list Signature) := result_ok (sign_all P ops key).

Definition serve_merged (log : OpLog) (runs : list OriginRange) (w : WorkspaceId) (key : DeviceSigningKey)
  : result StoreError (option (Message * list OriginRange)) :=
  '(ops, ranges) ← merge log runs;
  if bool_decide (ops = []) then Ok None
  else match sign_ops ops key with
       | None => Ok None
       | Some signatures => Ok (Some (MOps w ops signatures ranges, ranges))
       end.
End with_primitives.

(** ** lan_session_live.rs: the bookkeeping *)

Record Live := mkLive {
  l_held : gmap WorkspaceId Heads;
  l_sent : gmap WorkspaceId Heads;
  l_waiting_since : gmap WorkspaceId N;
  l_ready : gset WorkspaceId;
  l_asked : gmap WorkspaceId Heads;
  l_pending : gset WorkspaceId;
  l_seen_commits : gmap WorkspaceId (N * Heads);
  l_last_heard : N;
  l_last_beat : N;
  l_last_sweep : N
}.

Definition Live_new (now : N) : Live := mkLive ∅ ∅ ∅ ∅ ∅ ∅ ∅ now now now.

(** Record updates, one a field. *)
Definition set_held (l : Live) m := mkLive m (l_sent l) (l_waiting_since l) (l_ready l) (l_asked l) (l_pending l) (l_seen_commits l) (l_last_heard l) (l_last_beat l) (l_last_sweep l).
Definition set_sent (l : Live) m := mkLive (l_held l) m (l_waiting_since l) (l_ready l) (l_asked l) (l_pending l) (l_seen_commits l) (l_last_heard l) (l_last_beat l) (l_last_sweep l).
Definition set_waiting (l : Live) m := mkLive (l_held l) (l_sent l) m (l_ready l) (l_asked l) (l_pending l) (l_seen_commits l) (l_last_heard l) (l_last_beat l) (l_last_sweep l).
Definition set_ready (l : Live) m := mkLive (l_held l) (l_sent l) (l_waiting_since l) m (l_asked l) (l_pending l) (l_seen_commits l) (l_last_heard l) (l_last_beat l) (l_last_sweep l).
Definition set_asked (l : Live) m := mkLive (l_held l) (l_sent l) (l_waiting_since l) (l_ready l) m (l_pending l) (l_seen_commits l) (l_last_heard l) (l_last_beat l) (l_last_sweep l).
Definition set_pending (l : Live) m := mkLive (l_held l) (l_sent l) (l_waiting_since l) (l_ready l) (l_asked l) m (l_seen_commits l) (l_last_heard l) (l_last_beat l) (l_last_sweep l).
Definition set_seen (l : Live) m := mkLive (l_held l) (l_sent l) (l_waiting_since l) (l_ready l) (l_asked l) (l_pending l) m (l_last_heard l) (l_last_beat l) (l_last_sweep l).
Definition heard (l : Live) (now : N) := mkLive (l_held l) (l_sent l) (l_waiting_since l) (l_ready l) (l_asked l) (l_pending l) (l_seen_commits l) now (l_last_beat l) (l_last_sweep l).
Definition set_beat (l : Live) (now : N) := mkLive (l_held l) (l_sent l) (l_waiting_since l) (l_ready l) (l_asked l) (l_pending l) (l_seen_commits l) (l_last_heard l) now (l_last_sweep l).
Definition set_sweep (l : Live) (now : N) := mkLive (l_held l) (l_sent l) (l_waiting_since l) (l_ready l) (l_asked l) (l_pending l) (l_seen_commits l) (l_last_heard l) (l_last_beat l) now.

(** [get(&w).cloned().unwrap_or_default()], [entry(w).or_default()]. *)
Definition heads_of (m : gmap WorkspaceId Heads) (w : WorkspaceId) : Heads := default ∅ (m !! w).

Definition raise (heads : Heads) (ranges : list OriginRange) : Heads :=
  foldl (λ h r, <[r_device r := N.max (head_at h (r_device r)) (r_last r)]> h) heads ranges.

Definition raise_to (heads floor : Heads) : Heads :=
  foldl (λ h p, <[fst p := N.max (head_at h (fst p)) (snd p)]> h) heads (in_key_order floor).

Definition in_flight (l : Live) (w : WorkspaceId) : bool :=
  match l_sent l !! w with
  | None => false
  | Some sent => existsb (λ p, head_at (heads_of (l_held l) w) (fst p) <? snd p) (in_key_order sent)
  end.

Definition in_flight_ops (l : Live) (w : WorkspaceId) : N :=
  match l_sent l !! w with
  | None => 0
  | Some sent => foldr (λ p n, (snd p - head_at (heads_of (l_held l) w) (fst p)) + n) 0 (in_key_order sent)
  end.

Definition note_sent (l : Live) (now : N) (w : WorkspaceId) (ranges : list OriginRange) : Live :=
  if bool_decide (ranges = []) then l
  else
    let l := set_sent l (<[w := raise (heads_of (l_sent l) w) ranges]> (l_sent l)) in
    match l_waiting_since l !! w with
    | Some _ => l
    | None => set_waiting l (<[w := now]> (l_waiting_since l))
    end.

Definition note_acked (l : Live) (now : N) (w : WorkspaceId) (ranges : list OriginRange) : Live :=
  if bool_decide (ranges = []) then l
  else
    let held := raise (heads_of (l_held l) w) ranges in
    let l := set_held l (<[w := held]> (l_held l)) in
    let l := set_sent l (<[w := raise_to (heads_of (l_sent l) w) held]> (l_sent l)) in
    if in_flight l w then set_waiting l (<[w := now]> (l_waiting_since l))
    else set_waiting l (delete w (l_waiting_since l)).

Definition observe (l : Live) (now : N) (w : WorkspaceId) (msg : Message) : Live :=
  match msg with
  | MGreet _ heads =>
      let l := set_held l (<[w := heads]> (l_held l)) in
      let l := set_sent l (<[w := heads]> (l_sent l)) in
      set_waiting l (delete w (l_waiting_since l))
  | MWant _ ranges =>
      let l := set_asked l (<[w := raise (heads_of (l_sent l) w) ranges]> (l_asked l)) in
      let l := set_ready l ({[w]} ∪ l_ready l) in
      set_pending l ({[w]} ∪ l_pending l)
  | MOps _ _ _ ranges =>
      let l := set_held l (<[w := raise (heads_of (l_held l) w) ranges]> (l_held l)) in
      set_sent l (<[w := raise (heads_of (l_sent l) w) ranges]> (l_sent l))
  | MAck _ committed => note_acked l now w committed
  | MHello _ _ _ _ _ | MDigest _ _ => l
  end.

Definition quiet_for (l : Live) (now : N) : N := now - l_last_heard l.

Definition idle (l : Live) (w : WorkspaceId) : bool :=
  bool_decide (w ∈ l_ready l) && negb (in_flight l w) && negb (bool_decide (w ∈ l_pending l)).

Definition rewind_if_stalled (l : Live) (w : WorkspaceId) (now : N) : Live * bool :=
  match l_waiting_since l !! w with
  | None => (l, false)
  | Some since =>
      if now - since <? RESEND_AFTER then (l, false)
      else
        let l := set_waiting l (delete w (l_waiting_since l)) in
        if negb (in_flight l w) then (l, false)
        else (set_sent l (<[w := heads_of (l_held l) w]> (l_sent l)), true)
  end.

Definition expired (l : Live) (now : N) : bool :=
  let quiet := now - l_last_heard l in
  if bool_decide (l_ready l = ∅) then QUIET_CLOSE <=? quiet else DEAD_AFTER <=? quiet.

Definition next_runs (l : Live) (w : WorkspaceId) (local : Heads) : Live * list OriginRange :=
  let sent := heads_of (l_sent l) w in
  match want sent <$> (l_asked l !! w) with
  | Some (r :: rs) => (l, r :: rs)
  | _ => (set_asked l (delete w (l_asked l)), want sent local)
  end.

(** ** lan_session_live.rs: pushing *)

Section with_link.
Context (P : Primitives) (sends : WorkspaceId → Message → bool) (signing_key : DeviceSigningKey).

(** Messages put on the link, in order. *)
Abbreviation Sent := (list (WorkspaceId * Message)).

(** [push]: the state, what was sent, and [false] on a failed send. *)
Definition push (l : Live) (route : option Route) (id : WorkspaceId) (now : N) (sweep : bool) : Live * Sent * bool :=
  match route with
  | None => (l, [], true)
  | Some route =>
      let commits := rt_commits route in
      let '(l, rewound) := rewind_if_stalled l id now in
      let seen := l_seen_commits l !! id in
      let fresh := match seen with None => true | Some (c, _) => negb (c =? commits) end in
      if negb (sweep || rewound || fresh || bool_decide (id ∈ l_pending l)) then (l, [], true)
      else
        let local := match seen with
                     | Some (c, hs) => if (c =? commits) && negb sweep then hs else heads (rt_log route)
                     | None => heads (rt_log route)
                     end in
        let l := set_seen l (<[id := (commits, local)]> (l_seen_commits l)) in
        let '(l, runs) := next_runs l id local in
        if bool_decide (runs = []) then (set_pending l (l_pending l ∖ {[id]}), [], true)
        else
          let l := set_pending l ({[id]} ∪ l_pending l) in
          if WINDOW_BATCHES * N.of_nat MAX_OPS_PER_BATCH <=? in_flight_ops l id then (l, [], true)
          else
            match serve_merged P (rt_log route) runs id signing_key with
            | Ok (Some (message, ranges)) =>
                if sends id message then (note_sent l now id ranges, [(id, message)], true)
                else (l, [], false)
            | Ok None => (l, [], true)
            | Err _ => (l, [], true)
            end
  end.

(** [ready.iter().all(|id| self.push(..))]: stops at the first failed send. *)
Fixpoint push_all (l : Live) (routes : WorkspaceId → option Route) (ids : list WorkspaceId) (now : N) (sweep : bool)
  : Live * Sent * bool :=
  match ids with
  | [] => (l, [], true)
  | id :: rest =>
      let '(l, out, ok) := push l (routes id) id now sweep in
      if ok then let '(l, out', ok') := push_all l routes rest now sweep in (l, out ++ out', ok')
      else (l, out, false)
  end.

Definition in_order (s : gset WorkspaceId) : list WorkspaceId := stable_sort N.leb (elements s).

Definition beat (ids : list WorkspaceId) : Sent * bool :=
  match ids with
  | [] => ([], true)
  | id :: _ => if sends id (MAck id []) then ([(id, MAck id [])], true) else ([], false)
  end.

(** One turn's push, heartbeat and liveness check; [false] ends the session. [superseded]: a relay
    session whose peer now has a LAN session too. *)
Definition tick (l : Live) (routes : WorkspaceId → option Route) (now : N) (superseded : bool) : Live * Sent * bool :=
  if expired l now then (l, [], false)
  else if superseded then (l, [], false)
  else
    let sweep := HEARTBEAT <=? now - l_last_sweep l in
    let l := if sweep then set_sweep l now else l in
    let ids := in_order (l_ready l) in
    let '(l, out, ok) := push_all l routes ids now sweep in
    if negb ok then (l, out, false)
    else if now - l_last_beat l <? HEARTBEAT then (l, out, true)
    else
      let l := set_beat l now in
      let '(out', ok') := beat ids in
      (l, out ++ out', ok').

(** ** lan_apply.rs: a peer's batch into the log *)

Inductive Disk := DiskOk | DiskRefused | DiskLandedThenFailed.

(** [same_file_runs]: maximal runs of consecutive ops on one file. *)
Fixpoint same_file_runs (ops : list Op) : list (FilePath * list Op) :=
  match ops with
  | [] => []
  | op :: rest =>
      match same_file_runs rest with
      | (path, run) :: runs =>
          if bool_decide (path = op_file op) then (path, op :: run) :: runs
          else (op_file op, [op]) :: (path, run) :: runs
      | [] => [(op_file op, [op])]
      end
  end.

Definition SYNC_SOURCE : bytes := str "sync".

(** [commit_new_ops] and the landing paths it ends in: the ops the log does not hold, appended. *)
Definition commit_new_ops (log : OpLog) (run : list Op) (disk : Disk) : OpLog * bool :=
  let fresh := drop_held log run in
  if bool_decide (fresh = []) then (log, true)
  else
    match disk with
    | DiskRefused => (log, false)
    | _ =>
        match append_with_source log fresh (Some SYNC_SOURCE) with
        | Ok (log', _) => (log', match disk with DiskOk => true | _ => false end)
        | Err _ => (log, false)
        end
    end.

Record Landed := mkLanded { ld_ops : nat; ld_files : list FilePath; ld_refused : option FilePath }.

Fixpoint commit_runs (log : OpLog) (runs : list (FilePath * list Op)) (disk : nat → Disk) (i : nat) (landed : Landed)
  : OpLog * Landed :=
  match runs with
  | [] => (log, landed)
  | (path, run) :: rest =>
      match commit_new_ops log run (disk i) with
      | (log', true) =>
          commit_runs log' rest disk (S i)
            (mkLanded (ld_ops landed + length run) (ld_files landed ++ [path]) None)
      | (log', false) => (log', mkLanded (ld_ops landed) (ld_files landed) (Some path))
      end
  end.

Definition commit_incoming_ops (log : OpLog) (ops : list Op) (disk : nat → Disk) : OpLog * Landed :=
  commit_runs log (same_file_runs ops) disk 0%nat (mkLanded 0 [] None).

Fixpoint landed_ranges_from (ranges : list OriginRange) (left : N) : list OriginRange :=
  match ranges with
  | [] => []
  | r :: rest =>
      if left =? 0 then []
      else
        let take := N.min (r_last r - r_first r + 1) left in
        mkRange (r_device r) (r_first r) (r_first r + take - 1) :: landed_ranges_from rest (left - take)
  end.
Definition landed_ranges (ranges : list OriginRange) (landed : nat) : list OriginRange :=
  landed_ranges_from ranges (N.of_nat landed).

(** [sync_commit_gate.rs]. *)
Definition follows_store_heads (log : OpLog) (ranges : list OriginRange) : bool :=
  forallb (λ r, r_first r <=? head_of log (r_device r) + 1) ranges.

(** ** lan_session_ops.rs *)

Inductive Refused := OutOfStep (ack : option Message) | Fatal.

Fixpoint holding_runs (heads : Heads) (ranges : list OriginRange) (held : list OriginRange) : list OriginRange :=
  match ranges with
  | [] => held
  | r :: rest =>
      let head := head_at heads (r_device r) in
      if (r_first r <=? head) && negb (existsb (λ h, r_device h =? r_device r) held)
      then holding_runs heads rest (held ++ [mkRange (r_device r) 1 head])
      else holding_runs heads rest held
  end.

Definition holding_ack (s : Session) (w : WorkspaceId) (msg : Message) : option Message :=
  match msg, session_heads s w with
  | MOps _ _ _ ranges, Ok heads =>
      let held := holding_runs heads ranges [] in
      if bool_decide (held = []) then None else Some (MAck w held)
  | _, _ => None
  end.

(** [verify_key]: the public half of the epoch the batch was sealed under. *)
Definition ops_or_refuse (s : Session) (log : OpLog) (w : WorkspaceId) (msg : Message) (verify_key : DevicePublicKey)
  : Session * result Refused (list Op) :=
  let device_keys := match msg with MOps _ ops _ _ => device_keys_for ops verify_key | _ => ∅ end in
  let s := match catch_up s w (heads log) with Ok s' => s' | Err _ => s end in
  match on_ops P s w msg device_keys with
  | Ok (s', ops) => (s', Ok ops)
  | Err (SGap _) => (s, Err (OutOfStep (holding_ack s w msg)))
  | Err _ => (s, Err Fatal)
  end.

Definition commit_and_ack (s : Session) (log : OpLog) (w : WorkspaceId) (ops : list Op) (ranges : list OriginRange)
  (disk : nat → Disk) : Session * OpLog * option Message :=
  if negb (follows_store_heads log ranges) then (s, log, None)
  else
    let '(log', landed) := commit_incoming_ops log ops disk in
    match committed s w (landed_ranges ranges (ld_ops landed)) with
    | Ok (s', ack) => (s', log', Some ack)
    | Err _ => (s, log', None)
    end.

(** [handle_ops]: the state, the reply, and [false] when the connection ends. *)
Definition handle_ops (s : Session) (log : OpLog) (w : WorkspaceId) (msg : Message) (ranges : list OriginRange)
  (verify_key : DevicePublicKey) (disk : nat → Disk) : Session * OpLog * Sent * bool :=
  match ops_or_refuse s log w msg verify_key with
  | (s, Err (OutOfStep None)) => (s, log, [], true)
  | (s, Err (OutOfStep (Some ack))) => if sends w ack then (s, log, [(w, ack)], true) else (s, log, [], false)
  | (s, Err Fatal) => (s, log, [], false)
  | (s, Ok ops) =>
      match commit_and_ack s log w ops ranges disk with
      | (s, log, None) => (s, log, [], true)
      | (s, log, Some ack) => if sends w ack then (s, log, [(w, ack)], true) else (s, log, [], false)
      end
  end.

(** ** lan_session_shared.rs and lan_session_dispatch.rs *)

(** A device's end of one connection: the session, the push state, the workspaces the session carries,
    and the stores of every workspace open on the device. *)
Record Conn := mkConn {
  c_session : Session;
  c_live : Live;
  c_routes : gset WorkspaceId;
  c_stores : gmap WorkspaceId Route
}.

Definition conn_route (c : Conn) (w : WorkspaceId) : option Route :=
  if bool_decide (w ∈ c_routes c) then c_stores c !! w else None.

Definition handle_greet (s : Session) (w : WorkspaceId) (msg : Message) : Session * Sent * bool :=
  match on_hello s w msg with
  | Err _ => (s, [], true)
  | Ok (s', want) => if sends w want then (s', [(w, want)], true) else (s', [], false)
  end.

Definition handle_workspace_message (s : Session) (log : OpLog) (w : WorkspaceId) (msg : Message)
  (verify_key : DevicePublicKey) (disk : nat → Disk) : Session * OpLog * Sent * bool :=
  match msg with
  | MGreet _ _ => let '(s', out, ok) := handle_greet s w msg in (s', log, out, ok)
  | MOps _ _ _ ranges => handle_ops s log w msg ranges verify_key disk
  | MWant _ _ | MAck _ _ | MHello _ _ _ _ _ | MDigest _ _ => (s, log, [], true)
  end.

(** A frame of a workspace this session carries, opened to its message; one of another is skipped.
    [commits]: the route's count of commits after the batch. *)
Definition dispatch_workspace_frame (c : Conn) (now : N) (w : WorkspaceId) (msg : Message)
  (verify_key : DevicePublicKey) (disk : nat → Disk) (commits : N) : Conn * Sent * bool :=
  match conn_route c w with
  | None => (c, [], true)
  | Some route =>
      let live := observe (c_live c) now w msg in
      let '(s, log, out, ok) := handle_workspace_message (c_session c) (rt_log route) w msg verify_key disk in
      (mkConn s live (c_routes c) (<[w := mkRoute log commits]> (c_stores c)), out, ok)
  end.

(** [open_every_route], and the [Greet] of each workspace the gate lets this peer have. *)
Definition open_every_route (s : Session) (stores : gmap WorkspaceId Route) (ids : list WorkspaceId) : Session :=
  foldl (λ s id, match stores !! id with
                 | Some route => match open_workspace s id (heads (rt_log route)) with Ok s' => s' | Err _ => s end
                 | None => s
                 end) s ids.

Fixpoint send_greets (s : Session) (ids : list WorkspaceId) : Session * Sent * bool :=
  match ids with
  | [] => (s, [], true)
  | id :: rest =>
      match hello s id with
      | Err _ => send_greets s rest
      | Ok (s', greet) =>
          if sends id greet then
            let '(s'', out, ok) := send_greets s' rest in (s'', (id, greet) :: out, ok)
          else (s', [], false)
      end
  end.

(** [session_routes]: every workspace for an own device; else those that are not private. *)
Definition session_routes (all : gset WorkspaceId) (own_peer : bool) (private : WorkspaceId → bool) : gset WorkspaceId :=
  if own_peer then all else filter (λ w, private w = false) all.

Definition greet_for_peer (c : Conn) (removed own_peer : bool) (private : WorkspaceId → bool) : Conn * Sent * bool :=
  if removed then (c, [], false)
  else
    let routes := session_routes (dom (c_stores c)) own_peer private in
    let ids := in_order routes in
    let '(s, out, ok) := send_greets (open_every_route (c_session c) (c_stores c) ids) ids in
    (mkConn s (c_live c) routes (c_stores c), out, ok).

(** What the device's own tables say of the peer a [Hello] names. *)
Record PeerFacts := mkPeerFacts { pf_removed : bool; pf_own : bool; pf_private : WorkspaceId → bool }.

Definition dispatch_link_frame (c : Conn) (now : N) (msg : Message) (facts : DeviceId → PeerFacts) : Conn * Sent * bool :=
  match on_link_hello (c_session c) msg now with
  | Err _ => (c, [], false)
  | Ok (s, _) =>
      let c := mkConn s (c_live c) (c_routes c) (c_stores c) in
      match s_peer s with
      | None => (c, [], false)
      | Some peer => greet_for_peer c (pf_removed (facts peer)) (pf_own (facts peer)) (pf_private (facts peer))
      end
  end.

(** The world around a turn: the clocks, the keys, the disk, the tables. *)
Record Env := mkEnv {
  e_now : N;
  e_wall : N;
  e_superseded : bool;
  e_verify_key : DevicePublicKey;
  e_disk : nat → Disk;
  e_commits : N;
  e_facts : DeviceId → PeerFacts
}.

(** One turn: a frame if one came, then the tick. [false] ends the connection. *)
Definition turn (c : Conn) (e : Env) (frame : option (WorkspaceId * Message)) : Conn * Sent * bool :=
  let '(c, out, ok) :=
    match frame with
    | None => (c, [], true)
    | Some (w, msg) =>
        let c := mkConn (c_session c) (heard (c_live c) (e_now e)) (c_routes c) (c_stores c) in
        if w =? LINK_WORKSPACE then dispatch_link_frame c (e_wall e) msg (e_facts e)
        else dispatch_workspace_frame c (e_now e) w msg (e_verify_key e) (e_disk e) (e_commits e)
    end in
  if negb ok then (c, out, false)
  else
    let '(live, out', ok') := tick (c_live c) (conn_route c) (e_now e) (e_superseded e) in
    (mkConn (c_session c) live (c_routes c) (c_stores c), out ++ out', ok').
End with_link.
