(* ===== verification/SyncBatch.v ===== *)
(** What a batch is: the sender's side ([LiveSync.merge]) and the receiver's ([commit_incoming_ops]),
    proved once for the system of [SyncSafe] and [SyncLive]. No code of its own.

    A batch of a log is the ops its runs name, run after run: merging by stamp stops before a device
    would come back, so it never interleaves two runs. *)
From S2P Require Import Prelude.
From S2P Require Import Hlc.
From S2P Require Import Ops.
From S2P Require Import OpLog.
From S2P Require Import Message.
From S2P Require Import LiveSync.

#[local] Open Scope N_scope.

(** The ops a run names among a device's. *)
Definition range_ops (runs : DeviceId → list Op) (r : OriginRange) : list Op :=
  slice (N.to_nat (r_first r - 1)) (N.to_nat (r_last r)) (runs (r_device r)).

Definition batch_ops (runs : DeviceId → list Op) (ranges : list OriginRange) : list Op :=
  concat (map (range_ops runs) ranges).

(** ** Sending *)

(** A run being read: what is buffered is what was read and not sent; [k] of it are sent. *)
Definition run_inv (log : OpLog) (k : N) (run : Run) : Prop :=
  let r := run_range run in
  1 <= r_first r ∧ r_first r + k <= run_next run ∧ run_next run <= N.max (r_last r + 1) (r_first r)
  ∧ run_buf run = slice (N.to_nat (r_first r + k - 1)) (N.to_nat (run_next run - 1)) (run_of log (r_device r)).

(** The op a run has next to send. *)
Definition next_op (log : OpLog) (k : N) (r : OriginRange) : option Op :=
  if r_first r + k <=? r_last r then run_of log (r_device r) !! N.to_nat (r_first r + k - 1) else None.

Lemma head_slice {A} a b (l : list A) : (a < b)%nat → head (slice a b l) = l !! a.
Proof.
  intros H. unfold slice. destruct (b - a)%nat as [|n] eqn:E; [lia|].
  rewrite <- (Nat.add_0_r a), <- lookup_drop, Nat.add_0_r. by destruct (drop a l).
Qed.

Lemma slice_past {A} a b (l : list A) : (length l ≤ a)%nat → slice a b l = [].
Proof. intros H. unfold slice. rewrite drop_ge by done. apply take_nil. Qed.

Lemma slice_empty {A} a (l : list A) : slice a a l = [].
Proof. unfold slice. by rewrite Nat.sub_diag. Qed.

Lemma slice_cons {A} a b (l : list A) x : l !! a = Some x → (a < b)%nat → slice a b l = x :: slice (S a) b l.
Proof.
  intros Hx H. unfold slice. rewrite (drop_S l x a Hx). replace (b - a)%nat with (S (b - S a)) by lia. done.
Qed.

Lemma slice_grow {A} a b (l : list A) x : l !! b = Some x → (a ≤ b)%nat → slice a (S b) l = slice a b l ++ [x].
Proof.
  intros Hx H. unfold slice. replace (S b - a)%nat with (S (b - a)) by lia.
  apply take_S_r. rewrite lookup_drop. by replace (a + (b - a))%nat with b by lia.
Qed.

Lemma nil_length_inv_take_drop {A} n m (l : list A) : take n (drop m l) = [] → n = 0%nat ∨ (length l ≤ m)%nat.
Proof.
  intros H. apply (f_equal length) in H. rewrite length_take, length_drop in H. simpl in H. lia.
Qed.

(** Reading a run's front: the next op, and the run still in step. *)
Lemma front_spec log k run :
  dense log → run_inv log k run →
  ∃ run', front log run = Ok (run', next_op log k (run_range run)) ∧ run_range run' = run_range run
    ∧ run_inv log k run' ∧ (is_Some (next_op log k (run_range run)) →
        ∃ op, head (run_buf run') = Some op ∧ next_op log k (run_range run) = Some op).
Proof.
  intros Hd Hinv. pose proof Hinv as (H1 & Hk & Hn & Hb). unfold front, next_op.
  destruct run as [r n b]. cbn [run_range run_next run_buf] in *. destruct b as [|op b].
  - destruct (N.leb_spec n (r_last r)) as [Hle|Hgt].
    + set (last := N.min (n + READ_WINDOW - 1) (r_last r)). assert (n <= last) as Hnl by (unfold last, READ_WINDOW; lia).
      destruct (ops_for_slice log (r_device r) n last Hd) as (stored & -> & Hst); [lia|done| |].
      { change (N.of_nat MAX_OPS_PER_READ) with 10000. unfold last, READ_WINDOW. lia. }
      cbn [mbind result_bind]. rewrite Hst.
      assert (slice (N.to_nat (n - 1)) (N.to_nat last) (run_of log (r_device r))
        = slice (N.to_nat (r_first r + k - 1)) (N.to_nat (last + 1 - 1)) (run_of log (r_device r))) as Heq.
      { replace (last + 1 - 1) with last by lia.
        destruct (decide (r_first r + k = n)) as [->|Hne]; [done|].
        symmetry in Hb. unfold slice in Hb. apply nil_length_inv_take_drop in Hb.
        rewrite !slice_past; [done| |]; lia. }
      rewrite Heq. eexists (mkRun r (last + 1) _). split; [|split; [reflexivity|split]].
      * rewrite head_slice by lia. rewrite (proj2 (N.leb_le _ _)) by lia. reflexivity.
      * split_and!; cbn [run_range run_next run_buf]; [done|lia|lia|]. done.
      * rewrite (proj2 (N.leb_le _ _)) by lia. intros [op Hop]. exists op. cbn [run_buf].
        rewrite head_slice by lia. done.
    + exists (mkRun r n []). split; [|split; [reflexivity|split; [exact Hinv|]]].
      * do 2 f_equal. destruct (N.leb_spec (r_first r + k) (r_last r)); [|done].
        symmetry in Hb. unfold slice in Hb. apply nil_length_inv_take_drop in Hb.
        symmetry. apply lookup_ge_None_2. lia.
      * destruct (N.leb_spec (r_first r + k) (r_last r)); [|by intros []].
        symmetry in Hb. unfold slice in Hb. apply nil_length_inv_take_drop in Hb.
        rewrite lookup_ge_None_2 by lia. by intros [].
  - assert (N.to_nat (r_first r + k - 1) < N.to_nat (n - 1))%nat as Hlt.
    { destruct (decide (N.to_nat (r_first r + k - 1) < N.to_nat (n - 1))%nat); [done|].
      unfold slice in Hb. replace (N.to_nat (n - 1) - N.to_nat (r_first r + k - 1))%nat with 0%nat in Hb by lia. done. }
    assert (run_of log (r_device r) !! N.to_nat (r_first r + k - 1) = Some op) as Hop.
    { rewrite <- (head_slice _ (N.to_nat (n - 1))) by done. by rewrite <- Hb. }
    exists (mkRun r n (op :: b)). split; [|split; [reflexivity|split; [exact Hinv|]]].
    + rewrite (proj2 (N.leb_le _ _)) by lia. by rewrite Hop.
    + rewrite (proj2 (N.leb_le _ _)) by lia. intros _. exists op. split; [done|]. exact Hop.
Qed.

Lemma lowest_from_spec log (ks : OriginRange → N) runs : ∀ i best,
  dense log → Forall (λ run, run_inv log (ks (run_range run)) run) runs →
  ∃ runs' best', lowest_from log i runs best = Ok (runs', best') ∧ map run_range runs' = map run_range runs
    ∧ Forall (λ run, run_inv log (ks (run_range run)) run) runs'
    ∧ (best' = best ∨ ∃ j run op hlc, best' = Some ((i + j)%nat, hlc) ∧ runs' !! j = Some run
         ∧ head (run_buf run) = Some op ∧ next_op log (ks (run_range run)) (run_range run) = Some op)
    ∧ (best' = None → best = None ∧ Forall (λ r, next_op log (ks r) r = None) (map run_range runs)).
Proof.
  induction runs as [|run runs IH]; intros i best Hd Hr.
  - exists [], best. split; [done|]. split; [done|]. split; [constructor|]. split; [by left|]. intros ->.
    split; [done|constructor].
  - inversion Hr as [|?? Hrun Hruns]; subst.
    destruct (front_spec log _ run Hd Hrun) as (run' & Hf & Hrg & Hinv & Hop).
    cbn [lowest_from]. rewrite Hf. cbn [mbind result_bind].
    set (best1 := match next_op log (ks (run_range run)) (run_range run) with None => best | Some op => _ end).
    destruct (IH (S i) best1 Hd Hruns) as (runs' & best' & -> & Hmap & Hall & Hbest & Hnone).
    cbn [mbind result_bind]. exists (run' :: runs'), best'. split; [done|]. split; [cbn; by rewrite Hrg, Hmap|].
    split; [constructor; [by rewrite Hrg|done]|]. split.
    + destruct Hbest as [->|(j & r & op & hlc & -> & Hj & Hh & Hn)].
      * unfold best1. destruct (next_op log (ks (run_range run)) (run_range run)) as [op|] eqn:En; [|by left].
        assert (head (run_buf run') = Some op) as Hh.
        { destruct Hop as (op' & ? & ?); [by eexists|]. congruence. }
        assert (∃ j r op0 hlc, Some (i, op_hlc op) = Some ((i + j)%nat, hlc) ∧ (run' :: runs') !! j = Some r
          ∧ head (run_buf r) = Some op0 ∧ next_op log (ks (run_range r)) (run_range r) = Some op0) as Hex.
        { exists 0%nat, run', op, (op_hlc op). split_and!; [by rewrite Nat.add_0_r|done|done|]. by rewrite Hrg, En. }
        destruct best as [[ib hb]|]; [|by right]. destruct (Hlc_ltb (op_hlc op) hb); [by right|by left].
      * right. exists (S j), r, op, hlc. split_and!; [f_equal; f_equal; lia|done..].
    + intros Hb. destruct (Hnone Hb) as [H1 H2]. unfold best1 in H1.
      destruct (next_op log (ks (run_range run)) (run_range run)) as [op|] eqn:En.
      * destruct best as [[ib hb]|]; [|done]. by destruct (Hlc_ltb (op_hlc op) hb).
      * split; [done|]. cbn. by constructor.
Qed.

(** A device's op goes onto the last run when that is its own, else opens a run, unless it was left. *)
Lemma extend_spec ranges d seq :
  extend ranges d seq =
  match last ranges with
  | Some r =>
      if r_device r =? d then Some (take (length ranges - 1) ranges ++ [mkRange d (r_first r) seq])
      else if existsb (λ r, r_device r =? d) ranges then None else Some (ranges ++ [mkRange d seq seq])
  | None => Some [mkRange d seq seq]
  end.
Proof.
  unfold extend. destruct ranges as [|r0 rs0]; [done|]. generalize (r0 :: rs0) as ranges. clear.
  intros ranges. destruct ranges as [|r rs] using rev_ind; [done|]. rewrite reverse_snoc, last_snoc. cbn [extend_rev].
  assert (existsb (λ r0, r_device r0 =? d) (r :: reverse rs) = existsb (λ r0, r_device r0 =? d) (rs ++ [r])) as Hex.
  { apply Bool.eq_iff_eq_true. rewrite !existsb_exists. setoid_rewrite <- list_elem_of_In.
    rewrite <- (reverse_snoc rs r). by setoid_rewrite elem_of_reverse. }
  destruct (r_device r =? d).
  - change (Some (reverse (mkRange d (r_first r) seq :: reverse rs))
      = Some (take (length (rs ++ [r]) - 1) (rs ++ [r]) ++ [mkRange d (r_first r) seq])).
    rewrite reverse_cons, reverse_involutive. f_equal. rewrite length_app, Nat.add_sub. by rewrite take_app_length.
  - rewrite Hex. destruct (existsb _ (rs ++ [r])); [done|].
    change (Some (reverse (mkRange d seq seq :: r :: reverse rs)) = Some ((rs ++ [r]) ++ [mkRange d seq seq])).
    by rewrite !reverse_cons, reverse_involutive.
Qed.

Lemma ranges_len_app a b d : ranges_len (a ++ b) d = ranges_len a d + ranges_len b d.
Proof.
  unfold ranges_len. rewrite List.filter_app, foldr_app.
  generalize (List.filter (λ r, r_device r =? d) a) as l. intros l.
  induction l as [|x l IH]; cbn; [lia|]. rewrite IH. lia.
Qed.

Lemma ranges_len_absent ranges d : d ∉ map r_device ranges → ranges_len ranges d = 0.
Proof.
  intros H. unfold ranges_len. rewrite filter_none; [done|]. intros r Hr. apply N.eqb_neq. intros He. apply H.
  rewrite list_elem_of_In, in_map_iff. exists r. by rewrite <- list_elem_of_In.
Qed.

(** The batch so far. *)
Record batch_inv (log : OpLog) (runs : list OriginRange) (ops : list Op) (ranges : list OriginRange) : Prop := {
  bi_ops : ops = batch_ops (run_of log) ranges;
  bi_nodup : NoDup (map r_device ranges);
  bi_from r : r ∈ ranges → ∃ R, R ∈ runs ∧ r_device R = r_device r ∧ r_first R = r_first r ∧ r_first r <= r_last r
     ∧ r_last r <= r_last R ∧ r_last r <= N.of_nat (length (run_of log (r_device r)))
}.

Lemma batch_ops_app runs a b : batch_ops runs (a ++ b) = batch_ops runs a ++ batch_ops runs b.
Proof. unfold batch_ops. by rewrite map_app, concat_app. Qed.

(** One more op of a run: the batch is one op longer. *)
Lemma batch_step log runs ops ranges ranges' R op :
  NoDup (map r_device runs) → batch_inv log runs ops ranges → R ∈ runs → 1 <= r_first R →
  next_op log (ranges_len ranges (r_device R)) R = Some op →
  extend ranges (r_device R) (r_first R + ranges_len ranges (r_device R)) = Some ranges' →
  batch_inv log runs (ops ++ [op]) ranges'
  ∧ (∀ d, ranges_len ranges' d = ranges_len ranges d + (if r_device R =? d then 1 else 0)) ∧ ranges' ≠ [].
Proof.
  intros Hnd [Hops Hr Hfrom] HR H1 Hop Hex. unfold next_op in Hop.
  destruct (N.leb_spec (r_first R + ranges_len ranges (r_device R)) (r_last R)) as [Hle|]; [|done].
  pose proof (lookup_lt_Some _ _ _ Hop) as Hlt. rewrite extend_spec in Hex.
  assert (r_device R ∉ map r_device ranges → ranges' = ranges ++ [mkRange (r_device R) (r_first R) (r_first R)] →
    batch_inv log runs (ops ++ [op]) ranges'
    ∧ (∀ d, ranges_len ranges' d = ranges_len ranges d + (if r_device R =? d then 1 else 0)) ∧ ranges' ≠ []) as Hnew.
  { intros Hni ->. rewrite (ranges_len_absent _ _ Hni) in *. rewrite N.add_0_r in *.
    assert (batch_ops (run_of log) (ranges ++ [mkRange (r_device R) (r_first R) (r_first R)]) = ops ++ [op]) as Hb.
    { rewrite batch_ops_app, <- Hops. f_equal. unfold batch_ops. cbn. rewrite app_nil_r. unfold range_ops. cbn.
      replace (N.to_nat (r_first R)) with (S (N.to_nat (r_first R - 1))) by lia.
      rewrite (slice_cons _ _ _ _ Hop) by lia. by rewrite slice_empty. }
    split; [split|split].
    - by rewrite Hb.
    - rewrite map_app. cbn. apply NoDup_app. split_and!; [done| |apply NoDup_singleton].
      intros x Hx ->%list_elem_of_singleton. done.
    - intros r Hin. apply elem_of_app in Hin as [Hin|Hin]; [by apply Hfrom|]. apply list_elem_of_singleton in Hin as ->. exists R. cbn. split_and!; [done..|lia|lia|lia].
    - intros d. rewrite ranges_len_app. unfold ranges_len at 2. cbn. destruct (r_device R =? d); cbn; [unfold range_len; cbn; lia|lia].
    - by destruct ranges. }
  destruct (last ranges) as [r|] eqn:El.
  2:{ apply last_None in El as ->. apply Hnew; [by apply not_elem_of_nil|].
      injection Hex as <-. cbn. f_equal. f_equal; unfold ranges_len; cbn; lia. }
  apply last_Some in El as (pre & ->). destruct (N.eqb_spec (r_device r) (r_device R)) as [He|Hne].
  - injection Hex as <-. rewrite length_app, Nat.add_sub, take_app_length.
    assert (r_device R ∉ map r_device pre) as Hni.
    { rewrite map_app in Hr. apply NoDup_app in Hr as (_ & Hdis & _). intros Hin. apply (Hdis _ Hin). rewrite <- He. by left. }
    rewrite ranges_len_app, (ranges_len_absent _ _ Hni) in *. rewrite N.add_0_l in *.
    assert (ranges_len [r] (r_device R) = range_len r) as Hrl.
    { unfold ranges_len. cbn. rewrite He, N.eqb_refl. cbn. lia. }
    rewrite Hrl in *.
    destruct (Hfrom r) as (R' & HR' & Hd' & Hf' & Hfl & Hll & Hlen'); [apply elem_of_app; right; by left|].
    assert (R' = R) as ->.
    { rewrite He in Hd'. clear -Hnd HR HR' Hd'. revert Hnd HR HR'. induction runs as [|x runs IH]; [by intros ? ?%elem_of_nil|].
      intros Hxn Ha Hb. apply NoDup_cons in Hxn as [Hx Hnd].
      apply elem_of_cons in Ha as [->|H1]; apply elem_of_cons in Hb as [->|H2]; [done| | |by apply IH].
      - exfalso. apply Hx. rewrite <- Hd'. rewrite list_elem_of_In. apply in_map. by apply list_elem_of_In.
      - exfalso. apply Hx. rewrite Hd'. rewrite list_elem_of_In. apply in_map. by apply list_elem_of_In. }
    assert (r_first R + range_len r = r_last r + 1) as Hseq by (unfold range_len; lia).
    rewrite Hseq in *.
    assert (batch_ops (run_of log) (pre ++ [mkRange (r_device R) (r_first r) (r_last r + 1)]) = ops ++ [op]) as Hb.
    { rewrite Hops, !batch_ops_app, <- app_assoc. f_equal. unfold batch_ops. cbn. rewrite !app_nil_r. unfold range_ops. cbn.
      replace (N.to_nat (r_last r + 1)) with (S (N.to_nat (r_last r))) by lia.
      rewrite He. apply slice_grow; [|lia]. by replace (N.to_nat (r_last r)) with (N.to_nat (r_last r + 1 - 1)) by lia. }
    split; [split|split].
    + by rewrite Hb.
    + rewrite map_app in *. cbn in *. by rewrite <- He.
    + intros r' Hin. apply elem_of_app in Hin as [Hin|Hin]; [apply Hfrom; apply elem_of_app; by left|].
      apply list_elem_of_singleton in Hin as ->.
      exists R. cbn. split_and!; [done..|lia|lia|lia].
    + intros d. rewrite !ranges_len_app. unfold ranges_len at 2 4. cbn. rewrite He.
      destruct (r_device R =? d); cbn; unfold range_len; cbn; lia.
    + by destruct pre.
  - destruct (existsb _ _) eqn:Eex; [done|]. injection Hex as <-. apply Hnew.
    + intros Hin. rewrite list_elem_of_In, in_map_iff in Hin. destruct Hin as (x & Hx & Hin).
      assert (existsb (λ r0, r_device r0 =? r_device R) (pre ++ [r]) = true) as Ht; [|congruence].
      apply existsb_exists. exists x. split; [done|]. by apply N.eqb_eq.
    + assert (ranges_len (pre ++ [r]) (r_device R) = 0) as ->.
      { apply ranges_len_absent. intros Hin. rewrite list_elem_of_In, in_map_iff in Hin. destruct Hin as (x & Hx & Hin).
        assert (existsb (λ r0, r_device r0 =? r_device R) (pre ++ [r]) = true) as Ht; [|congruence].
        apply existsb_exists. exists x. split; [done|]. by apply N.eqb_eq. }
      by rewrite N.add_0_r.
Qed.

(** A run once its front was taken. *)
Lemma run_inv_tail log k run op :
  run_inv log k run → head (run_buf run) = Some op →
  run_inv log (k + 1) (mkRun (run_range run) (run_next run) (tail (run_buf run))).
Proof.
  destruct run as [r n b]. intros (H1 & Hk & Hn & Hb) Hh. cbn in *. destruct b as [|op' b]; [done|].
  assert (N.to_nat (r_first r + k - 1) < N.to_nat (n - 1))%nat as Hlt.
  { destruct (decide (N.to_nat (r_first r + k - 1) < N.to_nat (n - 1))%nat); [done|].
    unfold slice in Hb. by replace (N.to_nat (n - 1) - N.to_nat (r_first r + k - 1))%nat with 0%nat in Hb by lia. }
  split_and!; cbn; [done|lia|done|].
  assert (run_of log (r_device r) !! N.to_nat (r_first r + k - 1) = Some op') as Hop.
  { rewrite <- (head_slice _ (N.to_nat (n - 1))) by done. by rewrite <- Hb. }
  rewrite (slice_cons _ _ _ _ Hop Hlt) in Hb. injection Hb as Hb. rewrite Hb. f_equal. lia.
Qed.

Lemma merge_loop_spec log runs room : ∀ rs ops ranges,
  dense log → NoDup (map r_device runs) → (∀ R, R ∈ runs → 1 <= r_first R) →
  map run_range rs = runs → Forall (λ run, run_inv log (ranges_len ranges (r_device (run_range run))) run) rs →
  batch_inv log runs ops ranges →
  ∃ ops' ranges', merge_loop room log rs ops ranges = Ok (ops', ranges') ∧ batch_inv log runs ops' ranges'
    ∧ (length ops' ≤ length ops + room)%nat ∧ (ranges ≠ [] → ranges' ≠ [])
    ∧ (room ≠ 0%nat → ranges = [] → (∃ R, R ∈ runs ∧ is_Some (next_op log 0 R)) → ranges' ≠ []).
Proof.
  induction room as [|room IH]; intros rs ops ranges Hd Hnd H1 Hmap Hinv Hb.
  - exists ops, ranges. split_and!; [done|done|lia|done|done].
  - cbn [merge_loop]. unfold lowest.
    destruct (lowest_from_spec log (λ r, ranges_len ranges (r_device r)) rs 0%nat None Hd Hinv)
      as (rs' & best & -> & Hmap' & Hinv' & Hbest & Hnone).
    cbn [mbind result_bind option_map].
    destruct Hbest as [->|(j & run & op & hlc & -> & Hj & Hh & Hop)].
    + exists ops, ranges. cbn. split_and!; [done|done|lia|done|].
      intros _ -> (R & HR & HRn). destruct (Hnone eq_refl) as [_ Hall]. rewrite Hmap in Hall.
      pose proof (proj1 (Forall_forall _ _) Hall R HR) as Hn. cbn in Hn. unfold ranges_len in Hn. cbn in Hn.
      rewrite Hn in HRn. by destruct HRn.
    + cbn [option_map fst]. change (Some (0 + j)%nat ≫= ?f) with (f (0 + j)%nat). cbn [Nat.add]. rewrite Hj.
      cbn [mbind option_bind]. set (R := run_range run) in *.
      assert (R ∈ runs) as HR.
      { rewrite <- Hmap, <- Hmap'. rewrite list_elem_of_In. apply in_map. apply list_elem_of_In. by eapply list_elem_of_lookup_2. }
      destruct (extend ranges (r_device R) (r_first R + ranges_len ranges (r_device R))) as [ranges'|] eqn:Eex.
      2:{ exists ops, ranges. split_and!; [done|done|lia|done|]. intros _ -> _. by rewrite extend_spec in Eex. }
      destruct (batch_step _ _ _ _ _ _ _ Hnd Hb HR (H1 R HR) Hop Eex) as (Hb' & Hlen' & Hne).
      assert (take 1 (run_buf run) = [op]) as Htake.
      { destruct (run_buf run); cbn in Hh; [done|]. by injection Hh as ->. }
      rewrite Htake.
      destruct (IH (<[j := mkRun R (run_next run) (tail (run_buf run))]> rs') (ops ++ [op]) ranges' Hd Hnd H1)
        as (ops' & ranges'' & -> & Hb'' & Hl & Hk & _); [| |done|].
      * rewrite <- Hmap, <- Hmap'. change (run_range <$> <[j:=mkRun R (run_next run) (tail (run_buf run))]> rs' = run_range <$> rs').
        rewrite list_fmap_insert. apply list_insert_id. rewrite list_lookup_fmap, Hj. done.
      * apply Forall_lookup. intros i run0 Hi. rewrite Hlen'.
        destruct (decide (i = j)) as [->|Hne'].
        -- rewrite list_lookup_insert_eq in Hi by (by eapply lookup_lt_Some). injection Hi as <-. cbn [run_range].
           rewrite N.eqb_refl. apply (run_inv_tail _ _ run op); [|done].
           by apply (proj1 (Forall_lookup _ _) Hinv' j run).
        -- rewrite list_lookup_insert_ne in Hi by done. pose proof (proj1 (Forall_lookup _ _) Hinv' i run0 Hi) as Hr0. cbn in Hr0.
           destruct (N.eqb_spec (r_device R) (r_device (run_range run0))) as [He|]; [|by rewrite N.add_0_r].
           exfalso. apply Hne'. rewrite <- Hmap, <- Hmap', map_map in Hnd. eapply (NoDup_lookup _ i j); [exact Hnd| |].
           ++ change (map ?f rs') with (f <$> rs'). rewrite list_lookup_fmap, Hi. reflexivity.
           ++ change (map ?f rs') with (f <$> rs'). rewrite list_lookup_fmap, Hj. cbn. by rewrite <- He.
      * exists ops', ranges''. split_and!; [done|done| |by intros _; apply Hk|by intros _ _ _; apply Hk].
        rewrite length_app in Hl. cbn in Hl. lia.
Qed.

Lemma served_merge_spec log runs :
  dense log → NoDup (map r_device runs) → (∀ R, R ∈ runs → 1 <= r_first R) →
  ∃ ops ranges, merge log runs = Ok (ops, ranges) ∧ batch_inv log runs ops ranges
    ∧ (length ops ≤ MAX_OPS_PER_BATCH)%nat
    ∧ ((∃ R, R ∈ runs ∧ r_first R <= r_last R ∧ r_first R <= N.of_nat (length (run_of log (r_device R)))) → ranges ≠ []).
Proof.
  intros Hd Hnd H1. unfold merge.
  destruct (merge_loop_spec log runs MAX_OPS_PER_BATCH (map (λ r, mkRun r (r_first r) []) runs) [] [] Hd Hnd H1)
    as (ops & ranges & Hm & Hb & Hl & _ & Hne).
  - rewrite map_map. apply map_id.
  - apply Forall_forall. intros run Hrun. rewrite list_elem_of_In, in_map_iff in Hrun. destruct Hrun as (r & <- & Hr).
    apply list_elem_of_In in Hr. specialize (H1 r Hr). unfold run_inv, ranges_len. cbn.
    split_and!; [done|lia|lia|]. rewrite N.add_0_r. by rewrite slice_empty.
  - split; [done|constructor|by intros ? ?%elem_of_nil].
  - exists ops, ranges. split_and!; [done|done|exact Hl|]. intros (R & HR & Hf & Hh). apply Hne; [done..|].
    exists R. split; [done|]. unfold next_op. rewrite N.add_0_r, (proj2 (N.leb_le _ _) Hf).
    apply lookup_lt_is_Some. specialize (H1 R HR). lia.
Qed.

(** ** Receiving *)

(** Every device's ops, whatever each turns out to write: a log holds a prefix of each. Ids are one to an
    op, and an op is its author's. *)
Record origins_ok (G : DeviceId → list Op) : Prop := {
  og_ids d i d' i' o o' : G d !! i = Some o → G d' !! i' = Some o' → op_id o = op_id o' → d = d' ∧ i = i';
  og_device d i o : G d !! i = Some o → op_device o = d
}.

Record log_ok (G : DeviceId → list Op) (log : OpLog) : Prop := {
  lo_dense : dense log;
  lo_ids : NoDup (log_ids log);
  lo_prefix d : run_of log d `prefix_of` G d
}.

Definition log_len (log : OpLog) (d : DeviceId) : nat := length (run_of log d).

Lemma log_ok_lookup G log d i o : log_ok G log → run_of log d !! i = Some o → G d !! i = Some o.
Proof. intros [_ _ Hp] H. destruct (Hp d) as [k Hk]. rewrite Hk. by apply lookup_app_l_Some. Qed.

Lemma log_ok_held G log d i o :
  log_ok G log → G d !! i = Some o → (i < log_len log d)%nat ↔ run_of log d !! i = Some o.
Proof.
  intros [_ _ Hp] H. unfold log_len. split.
  - intros Hi. destruct (Hp d) as [k Hk]. rewrite Hk in H. by rewrite lookup_app_l in H.
  - intros Hi. by eapply lookup_lt_Some.
Qed.

Lemma run_of_elem log r : r ∈ log → ∃ i, run_of log (row_device r) !! i = Some (row_op r).
Proof.
  intros Hr. apply list_elem_of_lookup_1. unfold run_of. rewrite list_elem_of_In. apply in_map.
  by apply list_elem_of_In, device_rows_elem.
Qed.

Lemma log_ids_elem log id : id ∈ log_ids log ↔ ∃ d i o, run_of log d !! i = Some o ∧ op_id o = id.
Proof.
  unfold log_ids. rewrite list_elem_of_In, in_map_iff. split.
  - intros (r & <- & Hr). apply list_elem_of_In in Hr. destruct (run_of_elem log r Hr) as [i Hi]. eauto.
  - intros (d & i & o & Ho & <-). apply list_elem_of_lookup_2 in Ho. unfold run_of in Ho.
    rewrite list_elem_of_In, in_map_iff in Ho. destruct Ho as (r & <- & Hr). apply list_elem_of_In, device_rows_elem in Hr as [Hr _].
    exists r. split; [done|]. by apply list_elem_of_In.
Qed.

(** [op_by_id] finds exactly the ids of the log. *)
Lemma op_by_id_None log id : op_by_id log id = None ↔ id ∉ log_ids log.
Proof.
  unfold op_by_id, collect.
  assert (∀ rows : list (N * Row), head (map (λ p, mkStored (fst p) (row_op (snd p)))
      (List.filter (λ p, op_id (row_op (snd p)) =? id) rows)) = None ↔ id ∉ map (λ p, op_id (row_op (snd p))) rows) as H.
  { induction rows as [|p rows IH]; cbn; [split; [by intros _ ?%elem_of_nil|done]|].
    destruct (N.eqb_spec (op_id (row_op (snd p))) id) as [He|Hne]; cbn.
    - split; [done|]. intros Hn. exfalso. apply Hn. rewrite He. by left.
    - rewrite not_elem_of_cons. rewrite IH. split; [by intros ?; split; [intros ->|]|by intros []]. }
  rewrite H. unfold log_ids. rewrite <- (map_snd_rows log) at 2. by rewrite map_map.
Qed.

Lemma drop_held_elem log ops o : o ∈ drop_held log ops ↔ o ∈ ops ∧ op_id o ∉ log_ids log.
Proof.
  unfold drop_held. rewrite list_elem_of_In, List.filter_In, <- list_elem_of_In, <- op_by_id_None.
  destruct (op_by_id log (op_id o)); split; intros [? Hx]; split; congruence.
Qed.

(** Ops that are held, or come right after what is held and what came before them in the list. *)
Fixpoint seq_ok (G : DeviceId → list Op) (h : DeviceId → nat) (ops : list Op) : Prop :=
  match ops with
  | [] => True
  | o :: rest =>
      let d := op_device o in
      ∃ i, G d !! i = Some o ∧ (i ≤ h d)%nat
           ∧ seq_ok G (λ d', if d' =? d then Nat.max (h d) (S i) else h d') rest
  end.

(** How far the logs reach once those ops are in. *)
Definition reach (h : DeviceId → nat) (fresh : list Op) (d : DeviceId) : nat := (h d + length (ops_of d fresh))%nat.

Lemma seq_ok_ext G ops : ∀ h h', (∀ d, h d = h' d) → seq_ok G h ops → seq_ok G h' ops.
Proof.
  induction ops as [|o ops IH]; intros h h' He; [done|]. cbn. intros (i & Hi & Hle & Hs). exists i.
  split_and!; [done|by rewrite <- He|]. eapply IH; [|exact Hs]. intros d. cbn. by rewrite !He.
Qed.

Lemma seq_ok_elem G ops : ∀ h o, seq_ok G h ops → o ∈ ops → ∃ i, G (op_device o) !! i = Some o.
Proof.
  induction ops as [|x ops IH]; intros h o Hs Ho; [by apply elem_of_nil in Ho|].
  destruct Hs as (i & Hi & Hle & Hs). apply elem_of_cons in Ho as [->|Ho]; [by exists i|by eapply IH].
Qed.

Section landing.
Context (G : DeviceId → list Op) (HG : origins_ok G).

Lemma held_iff log o i :
  log_ok G log → G (op_device o) !! i = Some o → op_id o ∈ log_ids log ↔ (i < log_len log (op_device o))%nat.
Proof using HG.
  intros Hl Hi. rewrite log_ids_elem, (log_ok_held G log _ _ _ Hl Hi). split.
  - intros (d & j & o' & Hj & Hid). apply (log_ok_lookup G log d j o' Hl) in Hj as Hg.
    destruct (og_ids G HG _ _ _ _ _ _ Hg Hi Hid) as [-> ->]. rewrite Hg in Hi. by simplify_eq.
  - intros Hr. by exists (op_device o), i, o.
Qed.

(** The fresh ops of a good sequence are, device by device, the next ones of its run. *)
Lemma fresh_next log ops : ∀ (h : DeviceId → nat),
  log_ok G log → seq_ok G h ops → NoDup (map op_id ops) → (∀ d, log_len log d ≤ h d)%nat →
  (∀ o i, o ∈ ops → G (op_device o) !! i = Some o → log_len log (op_device o) ≤ i → h (op_device o) ≤ i)%nat →
  ∀ d, ops_of d (drop_held log ops) = slice (h d) (h d + length (ops_of d (drop_held log ops))) (G d)
       ∧ (h d + length (ops_of d (drop_held log ops)) ≤ Nat.max (h d) (length (G d)))%nat.
Proof using HG.
  induction ops as [|o ops IH]; intros h Hl Hs Hnd Hge Hfr d.
  - cbn. rewrite Nat.add_0_r, slice_empty. split; [done|lia].
  - destruct Hs as (i & Hi & Hle & Hs). cbn [map] in Hnd. apply NoDup_cons in Hnd as [Hno Hnd].
    assert (∀ o' j, o' ∈ ops → op_device o' = op_device o → G (op_device o) !! j = Some o' → j ≠ i) as Hdist.
    { intros o' j Ho' Hdev Hj ->. rewrite Hi in Hj. injection Hj as ->. apply Hno.
      rewrite list_elem_of_In. apply in_map. by apply list_elem_of_In. }
    pose proof (held_iff log o i Hl Hi) as Hheld. unfold drop_held. cbn [List.filter]. fold (drop_held log ops).
    destruct (op_by_id log (op_id o)) as [st|] eqn:Eh.
    + assert (op_id o ∈ log_ids log) as Hin.
      { destruct (decide (op_id o ∈ log_ids log)) as [|Hn]; [done|]. apply op_by_id_None in Hn. congruence. }
      apply Hheld in Hin. apply IH; [done| |done|done|].
      * eapply seq_ok_ext; [|exact Hs]. intros d'. cbn. destruct (N.eqb_spec d' (op_device o)) as [->|]; [|done].
        specialize (Hge (op_device o)). lia.
      * intros o' j Ho' Hj Hlj. by apply Hfr; [right| |].
    + assert (op_id o ∉ log_ids log) as Hout by (by apply op_by_id_None).
      assert (i = h (op_device o)) as Hih.
      { assert (log_len log (op_device o) ≤ i)%nat as Hli by (destruct (decide (i < log_len log (op_device o))%nat); [tauto|lia]).
        specialize (Hfr o i ltac:(by left) Hi Hli). lia. }
      set (h' := λ d', if d' =? op_device o then Nat.max (h (op_device o)) (S i) else h d').
      destruct (IH h' Hl Hs Hnd) with (d := d) as [Heq Hbound].
      * intros d'. unfold h'. destruct (N.eqb_spec d' (op_device o)) as [->|]; [specialize (Hge (op_device o)); lia|done].
      * intros o' j Ho' Hj Hlj. unfold h'. pose proof (Hfr o' j ltac:(by right) Hj Hlj) as Hx.
        destruct (N.eqb_spec (op_device o') (op_device o)) as [He|]; [|done].
        rewrite He in *. pose proof (Hdist o' j Ho' He Hj). lia.
      * rewrite ops_of_cons. unfold h' in *. destruct (N.eqb_spec (op_device o) d) as [<-|Hne].
        -- rewrite N.eqb_refl in *. rewrite Hih in *. replace (Nat.max (h (op_device o)) (S (h (op_device o)))) with (S (h (op_device o))) in * by lia.
           cbn [app length]. pose proof (lookup_lt_Some _ _ _ Hi) as Hlt. split; [|lia].
           rewrite (slice_cons _ _ _ _ Hi) by lia. f_equal. rewrite Heq at 1. f_equal. lia.
        -- destruct (N.eqb_spec d (op_device o)); [congruence|]. cbn [app]. done.
Qed.

(** Appending the fresh ops of a good sequence. *)
Lemma append_fresh_ok log ops source :
  log_ok G log → seq_ok G (log_len log) ops → NoDup (map op_id ops) →
  drop_held log ops ≠ [] → N.of_nat (length ops) <= MAX_APPEND_BATCH →
  ∃ log' range, append_with_source log (drop_held log ops) source = Ok (log', range) ∧ log_ok G log'
    ∧ ∀ d, run_of log' d = run_of log d ++ ops_of d (drop_held log ops).
Proof using HG.
  intros Hl Hs Hnd Hne Hcap.
  assert (NoDup (log_ids log ++ map op_id (drop_held log ops))) as Hids.
  { apply NoDup_app. split_and!; [apply Hl| |by apply NoDup_map_filter].
    intros id Hin Hin'. rewrite list_elem_of_In, in_map_iff in Hin'. destruct Hin' as (o & <- & Ho).
    apply list_elem_of_In, drop_held_elem in Ho as [_ Ho]. done. }
  destruct (append_fresh log (drop_held log ops) source (lo_dense _ _ Hl) Hne) as (log' & range & Ha & Hd' & Hrun & Hids' & _); [|done|].
  { pose proof (List.filter_length_le (λ op, match op_by_id log (op_id op) with None => true | Some _ => false end) ops).
    unfold drop_held. lia. }
  exists log', range. split_and!; [done| |done]. split; [done|by rewrite Hids'|].
  intros d. rewrite Hrun. destruct (fresh_next log ops (log_len log) Hl Hs Hnd (λ d, le_n _) (λ o i _ _ Hi, Hi) d) as [Heq Hb].
  destruct (lo_prefix _ _ Hl d) as [k Hk]. rewrite Heq. unfold slice, log_len.
  assert (drop (length (run_of log d)) (G d) = k) as -> by (by rewrite Hk, drop_app_length).
  eexists. rewrite Hk at 1. rewrite <- app_assoc. f_equal. symmetry. apply take_drop.
Qed.

Lemma seq_ok_mono ops : ∀ h h', (∀ d, h d ≤ h' d)%nat → seq_ok G h ops → seq_ok G h' ops.
Proof using Type.
  induction ops as [|o ops IH]; intros h h' He; [done|]. cbn. intros (i & Hi & Hle & Hs). exists i.
  split_and!; [done|specialize (He (op_device o)); lia|]. eapply IH; [|exact Hs]. intros d. cbn.
  pose proof (He d). pose proof (He (op_device o)). destruct (d =? op_device o); lia.
Qed.

(** Once the first ops are held, the rest still follow. *)
Lemma seq_ok_rest log a : ∀ h b,
  log_ok G log → seq_ok G h (a ++ b) → (∀ d, h d ≤ log_len log d)%nat → (∀ o, o ∈ a → op_id o ∈ log_ids log) →
  seq_ok G (log_len log) b.
Proof using HG.
  induction a as [|o a IH]; intros h b Hl Hs Hle Ha; [by eapply seq_ok_mono|].
  cbn in Hs. destruct Hs as (i & Hi & Hih & Hs). eapply IH; [done|exact Hs| |intros x Hx; apply Ha; by right].
  intros d. cbn. destruct (N.eqb_spec d (op_device o)) as [->|]; [|done].
  pose proof (proj1 (held_iff log o i Hl Hi) (Ha o ltac:(by left))). specialize (Hle (op_device o)). lia.
Qed.

Lemma seq_ok_first h a b : seq_ok G h (a ++ b) → seq_ok G h a.
Proof using Type.
  revert h. induction a as [|o a IH]; intros h; [done|]. cbn. intros (i & ? & ? & Hs). exists i.
  split_and!; [done..|]. by apply IH.
Qed.

Definition log_le (log log' : OpLog) : Prop := ∀ d, run_of log d `prefix_of` run_of log' d.

#[export] Instance log_le_preorder : PreOrder log_le.
Proof using Type. split; [intros l d; reflexivity|intros a b c H1 H2 d; etrans; [apply H1|apply H2]]. Qed.

Lemma log_le_ids log log' : log_le log log' → ∀ id, id ∈ log_ids log → id ∈ log_ids log'.
Proof using Type.
  intros Hle id. rewrite !log_ids_elem. intros (d & i & o & Ho & Hid). exists d, i, o. split; [|done].
  destruct (Hle d) as [k ->]. by apply lookup_app_l_Some.
Qed.

(** One same-file run: refused and nothing lands, or all of it is held. *)
Lemma commit_new_ops_spec log run disk :
  log_ok G log → seq_ok G (log_len log) run → NoDup (map op_id run) → N.of_nat (length run) <= MAX_APPEND_BATCH →
  ∃ log' ok, commit_new_ops log run disk = (log', ok) ∧ log_ok G log' ∧ log_le log log'
    ∧ (ok = true → ∀ o, o ∈ run → op_id o ∈ log_ids log') ∧ (disk = DiskOk → ok = true).
Proof using HG.
  intros Hl Hs Hnd Hcap. unfold commit_new_ops. case_bool_decide as Hf.
  - exists log, true. split_and!; [done|done|reflexivity| |done]. intros _ o Ho.
    destruct (decide (op_id o ∈ log_ids log)) as [|Hn]; [done|].
    assert (o ∈ drop_held log run) as Hin by (by apply drop_held_elem). rewrite Hf in Hin. by apply elem_of_nil in Hin.
  - destruct (append_fresh_ok log run (Some SYNC_SOURCE) Hl Hs Hnd Hf Hcap) as (log' & range & -> & Hl' & Hrun).
    assert (log_le log log') as Hle by (intros d; rewrite Hrun; by eexists).
    assert (∀ o, o ∈ run → op_id o ∈ log_ids log') as Hall.
    { intros o Ho. destruct (decide (op_id o ∈ log_ids log)) as [Hi|Hn]; [by eapply log_le_ids|].
      assert (o ∈ ops_of (op_device o) (drop_held log run)) as Hin.
      { unfold ops_of. rewrite list_elem_of_In, List.filter_In, <- list_elem_of_In. split; [by apply drop_held_elem|apply N.eqb_refl]. }
      rewrite log_ids_elem. pose proof (elem_of_app (run_of log (op_device o)) (ops_of (op_device o) (drop_held log run)) o) as He.
      rewrite <- Hrun in He. apply proj2 in He. specialize (He (or_intror Hin)).
      apply list_elem_of_lookup in He as [i Hi]. by exists (op_device o), i, o. }
    destruct disk; [exists log', true|exists log, false|exists log', false]; split_and!; first [done | reflexivity | by intros | by intros ? ].
Qed.

Lemma same_file_runs_concat ops : concat (map snd (same_file_runs ops)) = ops.
Proof using Type.
  induction ops as [|o ops IH]; [done|]. cbn. destruct (same_file_runs ops) as [|[p run] runs]; cbn in *; [by subst|].
  case_bool_decide; cbn; by rewrite IH.
Qed.

(** A batch lands as a prefix: the ops counted are held, the log stays one hole-free run per device. *)
Lemma commit_runs_spec runs : ∀ log disk i landed,
  log_ok G log → seq_ok G (log_len log) (concat (map snd runs)) → NoDup (map op_id (concat (map snd runs))) →
  N.of_nat (length (concat (map snd runs))) <= MAX_APPEND_BATCH →
  ∃ log' landed', commit_runs log runs disk i landed = (log', landed') ∧ log_ok G log' ∧ log_le log log'
    ∧ (∃ n, ld_ops landed' = (ld_ops landed + n)%nat ∧ (n ≤ length (concat (map snd runs)))%nat
            ∧ (∀ o, o ∈ take n (concat (map snd runs)) → op_id o ∈ log_ids log')
            ∧ ((∀ j, disk j = DiskOk) → n = length (concat (map snd runs)))).
Proof using HG.
  induction runs as [|[path run] runs IH]; intros log disk i landed Hl Hs Hnd Hcap.
  - exists log, landed. split_and!; [done|done|reflexivity|]. exists 0%nat. cbn. split_and!; [lia|lia|by intros ? ?%elem_of_nil|done].
  - cbn [map concat snd] in *. rewrite map_app in Hnd. apply NoDup_app in Hnd as (Hnd1 & _ & Hnd2).
    rewrite length_app in Hcap. cbn [commit_runs].
    destruct (commit_new_ops_spec log run (disk i) Hl (seq_ok_first _ _ _ Hs) Hnd1) as (log1 & ok & -> & Hl1 & Hle1 & Hall & Hok); [lia|].
    destruct ok.
    + destruct (IH log1 disk (S i) (mkLanded (ld_ops landed + length run) (ld_files landed ++ [path]) None) Hl1) as
        (log' & landed' & -> & Hl' & Hle' & n & Hn & Hnl & Hin & Hfull); [|done|lia|].
      { eapply seq_ok_rest; [done|exact Hs| |by apply Hall]. intros d. unfold log_len. by apply prefix_length. }
      exists log', landed'. split_and!; [done|done|by etrans|]. exists (length run + n)%nat. cbn [ld_ops] in Hn.
      rewrite length_app. split_and!; [lia|lia| |intros Hd; by rewrite (Hfull Hd)].
      intros o. rewrite take_app_add, elem_of_app. intros [Ho|Ho]; [|by apply Hin].
      eapply log_le_ids; [exact Hle'|]. by apply Hall.
    + exists log1. eexists. split; [reflexivity|]. split_and!; [done..|]. exists 0%nat. cbn.
      split_and!; [lia|lia|by intros ? ?%elem_of_nil|]. intros Hd. specialize (Hok (Hd i)). done.
Qed.

(** ** A batch of the origins' ops *)

(** A batch that names runs of what the origins wrote, one a device. *)
Record good_batch (ops : list Op) (ranges : list OriginRange) : Prop := {
  gb_ops : ops = batch_ops G ranges;
  gb_nodup : NoDup (map r_device ranges);
  gb_in r : r ∈ ranges → 1 <= r_first r ∧ r_first r <= r_last r ∧ r_last r <= N.of_nat (length (G (r_device r)))
}.

Lemma batch_ops_cons r ranges : batch_ops G (r :: ranges) = range_ops G r ++ batch_ops G ranges.
Proof using Type. done. Qed.

Lemma range_ops_length r : 1 <= r_first r → r_first r <= r_last r → r_last r <= N.of_nat (length (G (r_device r))) →
  length (range_ops G r) = N.to_nat (range_len r).
Proof using Type. intros. unfold range_ops, range_len. rewrite slice_length; lia. Qed.

Lemma range_ops_elem r o : 1 <= r_first r → o ∈ range_ops G r →
  ∃ i, G (r_device r) !! i = Some o ∧ (N.to_nat (r_first r - 1) ≤ i < N.to_nat (r_last r))%nat.
Proof using Type.
  intros H1 Ho. apply list_elem_of_lookup in Ho as [j Hj]. unfold range_ops, slice in Hj.
  apply lookup_take_Some in Hj as [Hj Hlt]. rewrite lookup_drop in Hj. exists (N.to_nat (r_first r - 1) + j)%nat.
  split; [done|lia].
Qed.

Lemma batch_ops_elem ranges o : (∀ r, r ∈ ranges → 1 <= r_first r) → o ∈ batch_ops G ranges →
  ∃ r i, r ∈ ranges ∧ G (r_device r) !! i = Some o.
Proof using Type.
  intros Hf. induction ranges as [|r ranges IH]; [by intros ?%elem_of_nil|]. rewrite batch_ops_cons, elem_of_app. intros [Ho|Ho].
  - apply range_ops_elem in Ho as (i & Hi & _); [|apply Hf; by left]. exists r, i. split; [by left|done].
  - destruct IH as (r' & i & Hr' & Hi); [intros r' ?; apply Hf; by right|done|]. exists r', i. split; [by right|done].
Qed.

Lemma seq_ok_slice d n : ∀ a h rest,
  (a ≤ h d)%nat → (a + n ≤ length (G d))%nat →
  (∀ h', (∀ d', d' ≠ d → h' d' = h d') → seq_ok G h' rest) →
  seq_ok G h (slice a (a + n) (G d) ++ rest).
Proof using HG.
  induction n as [|n IH]; intros a h rest Ha Hlen Hrest.
  - rewrite Nat.add_0_r, slice_empty. by apply Hrest.
  - destruct (lookup_lt_is_Some_2 (G d) a) as [o Ho]; [lia|].
    rewrite (slice_cons _ _ _ _ Ho) by lia. cbn. rewrite (og_device G HG _ _ _ Ho). exists a. split_and!; [done|done|].
    replace (a + S n)%nat with (S a + n)%nat by lia. apply IH; [rewrite N.eqb_refl; lia|lia|].
    intros h' Hh'. apply Hrest. intros d' Hne. rewrite (Hh' d' Hne). by rewrite (proj2 (N.eqb_neq _ _) Hne).
Qed.

Lemma good_batch_seq ranges : ∀ h,
  NoDup (map r_device ranges) →
  (∀ r, r ∈ ranges → 1 <= r_first r ∧ r_first r <= r_last r ∧ r_last r <= N.of_nat (length (G (r_device r)))) →
  (∀ r, r ∈ ranges → N.to_nat (r_first r - 1) ≤ h (r_device r))%nat →
  seq_ok G h (batch_ops G ranges).
Proof using HG.
  induction ranges as [|r ranges IH]; intros h Hnd Hin Hh; [done|]. rewrite batch_ops_cons. unfold range_ops.
  cbn [map] in Hnd. apply NoDup_cons in Hnd as [Hni Hnd].
  destruct (Hin r) as (H1 & H2 & H3); [by left|].
  replace (N.to_nat (r_last r)) with (N.to_nat (r_first r - 1) + N.to_nat (range_len r))%nat by (unfold range_len; lia).
  apply seq_ok_slice; [apply Hh; by left|unfold range_len; lia|]. intros h' Hh'. apply IH; [done|intros; apply Hin; by right|].
  intros r' Hr'. rewrite Hh'; [apply Hh; by right|]. intros He. apply Hni. rewrite <- He.
  rewrite list_elem_of_In. apply in_map. by apply list_elem_of_In.
Qed.

Lemma origin_ids_nodup d : NoDup (map op_id (G d)).
Proof using HG.
  apply NoDup_alt. intros i j id Hi Hj. change (map op_id (G d)) with (op_id <$> G d) in *.
  rewrite list_lookup_fmap in Hi, Hj. destruct (G d !! i) as [o|] eqn:Ei; [|done]. destruct (G d !! j) as [o'|] eqn:Ej; [|done].
  cbn in *. simplify_eq. by destruct (og_ids G HG _ _ _ _ _ _ Ei Ej).
Qed.

Lemma good_batch_ids ranges :
  NoDup (map r_device ranges) → (∀ r, r ∈ ranges → 1 <= r_first r) → NoDup (map op_id (batch_ops G ranges)).
Proof using HG.
  induction ranges as [|r ranges IH]; intros Hnd Hf; [constructor|]. rewrite batch_ops_cons, map_app.
  cbn [map] in Hnd. apply NoDup_cons in Hnd as [Hni Hnd]. apply NoDup_app. split_and!.
  - pose proof (origin_ids_nodup (r_device r)) as Hg. unfold range_ops, slice.
    rewrite <- (take_drop (N.to_nat (r_first r - 1)) (G (r_device r))), map_app in Hg. apply NoDup_app in Hg as (_ & _ & Hg).
    rewrite <- (take_drop (N.to_nat (r_last r) - N.to_nat (r_first r - 1)) (drop _ _)), map_app in Hg.
    by apply NoDup_app in Hg as (Hg & _ & _).
  - intros id Hid Hid'. rewrite list_elem_of_In, in_map_iff in Hid, Hid'.
    destruct Hid as (o & <- & Ho), Hid' as (o' & Heq & Ho'). apply list_elem_of_In in Ho, Ho'.
    apply range_ops_elem in Ho as (i & Hi & _); [|apply Hf; by left].
    apply batch_ops_elem in Ho' as (r' & i' & Hr' & Hi'); [|intros ? ?; apply Hf; by right].
    destruct (og_ids G HG _ _ _ _ _ _ Hi' Hi Heq) as [Hd _]. apply Hni. rewrite <- Hd.
    rewrite list_elem_of_In. apply in_map. by apply list_elem_of_In.
  - apply IH; [done|]. intros; apply Hf; by right.
Qed.

(** The runs acked for a landed prefix end at ops the log holds. *)
Lemma landed_ranges_held log ranges : ∀ n,
  log_ok G log →
  (∀ r, r ∈ ranges → 1 <= r_first r ∧ r_first r <= r_last r ∧ r_last r <= N.of_nat (length (G (r_device r)))) →
  (∀ o, o ∈ take n (batch_ops G ranges) → op_id o ∈ log_ids log) →
  Forall (λ r, 1 <= r_first r ∧ r_first r <= r_last r ∧ r_last r <= N.of_nat (log_len log (r_device r)))
    (landed_ranges_from ranges (N.of_nat n)).
Proof using HG.
  induction ranges as [|r ranges IH]; intros n Hl Hin Hheld; [constructor|]. cbn [landed_ranges_from].
  destruct (N.eqb_spec (N.of_nat n) 0) as [|Hn]; [constructor|].
  destruct (Hin r) as (H1 & H2 & H3); [by left|]. rewrite batch_ops_cons in Hheld.
  pose proof (range_ops_length r H1 H2 H3) as Hrl.
  set (t := N.min (r_last r - r_first r + 1) (N.of_nat n)). constructor.
  - cbn. split_and!; [done|lia|].
    destruct (lookup_lt_is_Some_2 (G (r_device r)) (N.to_nat (r_first r + t - 1 - 1))) as [o Ho]; [lia|].
    assert (op_id o ∈ log_ids log) as Hid.
    { apply Hheld. apply list_elem_of_lookup. exists (N.to_nat (t - 1)). apply lookup_take_Some. split; [|lia].
      rewrite lookup_app_l by (rewrite Hrl; unfold range_len; lia). unfold range_ops, slice. apply lookup_take_Some.
      rewrite lookup_drop. split; [|lia]. rewrite <- Ho. f_equal. lia. }
    pose proof (og_device G HG _ _ _ Ho) as Hdev. rewrite <- Hdev in Ho. apply (held_iff log o _ Hl Ho) in Hid.
    rewrite Hdev in Hid. lia.
  - replace (N.of_nat n - t) with (N.of_nat (n - N.to_nat (range_len r))) by (unfold t, range_len; lia).
    apply IH; [done|intros; apply Hin; by right|]. intros o Ho. apply Hheld. rewrite take_app, elem_of_app. right.
    by rewrite Hrl.
Qed.

(** All landed: the runs acked are the batch's own. *)
Lemma landed_ranges_all ranges :
  (∀ r, r ∈ ranges → 1 <= r_first r ∧ r_first r <= r_last r ∧ r_last r <= N.of_nat (length (G (r_device r)))) →
  landed_ranges ranges (length (batch_ops G ranges)) = ranges.
Proof using Type.
  unfold landed_ranges. induction ranges as [|r ranges IH]; intros Hin; [done|]. rewrite batch_ops_cons, length_app.
  destruct (Hin r) as (H1 & H2 & H3); [by left|]. rewrite (range_ops_length r H1 H2 H3). cbn [landed_ranges_from].
  rewrite (proj2 (N.eqb_neq _ _)) by (unfold range_len; lia).
  rewrite N.min_l by (unfold range_len; lia).
  replace (N.of_nat (N.to_nat (range_len r) + length (batch_ops G ranges)) - (r_last r - r_first r + 1))
    with (N.of_nat (length (batch_ops G ranges))) by (unfold range_len; lia).
  rewrite IH by (intros; apply Hin; by right). destruct r as [d f l]. cbn in *. do 2 f_equal. lia.
Qed.

(** What a batch does to a log it follows. *)
Lemma commit_incoming_spec log ops ranges disk :
  log_ok G log → good_batch ops ranges → (length ops ≤ MAX_OPS_PER_BATCH)%nat → follows_store_heads log ranges = true →
  ∃ log' landed, commit_incoming_ops log ops disk = (log', landed) ∧ log_ok G log' ∧ log_le log log'
    ∧ Forall (λ r, 1 <= r_first r ∧ r_first r <= r_last r ∧ r_last r <= N.of_nat (log_len log' (r_device r)))
        (landed_ranges ranges (ld_ops landed))
    ∧ ((∀ j, disk j = DiskOk) → landed_ranges ranges (ld_ops landed) = ranges).
Proof using HG.
  intros Hl [-> Hnd Hin] Hlen Hgate. unfold commit_incoming_ops.
  assert (∀ r, r ∈ ranges → N.to_nat (r_first r - 1) ≤ log_len log (r_device r))%nat as Hh.
  { intros r Hr. unfold follows_store_heads in Hgate. rewrite forallb_forall in Hgate.
    apply list_elem_of_In, Hgate, N.leb_le in Hr. rewrite head_of_dense in Hr by apply Hl. unfold log_len. lia. }
  pose proof (good_batch_seq ranges (log_len log) Hnd Hin Hh) as Hs.
  assert (NoDup (map op_id (batch_ops G ranges))) as Hids by (apply good_batch_ids; [done|intros r Hr; by apply Hin]).
  destruct (commit_runs_spec (same_file_runs (batch_ops G ranges)) log disk 0%nat (mkLanded 0 [] None) Hl)
    as (log' & landed & -> & Hl' & Hle & n & Hn & _ & Hheld & Hfull).
  { by rewrite same_file_runs_concat. }
  { by rewrite same_file_runs_concat. }
  { rewrite same_file_runs_concat. change MAX_APPEND_BATCH with 50000. change MAX_OPS_PER_BATCH with (Z.to_nat 1000) in Hlen. lia. }
  rewrite same_file_runs_concat in Hheld, Hfull. cbn [ld_ops] in Hn. rewrite Nat.add_0_l in Hn.
  exists log', landed. split_and!; [done..| |].
  - rewrite Hn. by apply landed_ranges_held.
  - intros Hd. rewrite Hn, (Hfull Hd). by apply landed_ranges_all.
Qed.
End landing.
