(* ===== verification/SyncSafe.v ===== *)
(** Two devices and the link between them, as the moves that are possible: a turn of either
    ([LiveSync.turn], its frame taken off the link or none there), a commit of either outside this
    connection, a lost connection and a new one. The theorem: whatever moves are made, in whatever order,
    every store stays the origins' runs without a hole, no op is lost, and no device counts as held by
    the other what the other has not stored.

    What each device ever writes of its own is fixed beforehand ([G], one list a device and workspace),
    so a store is good when it holds a prefix of each list; a device of its own that forks its run
    (a restored backup) is outside this. *)
From S2P Require Import Prelude.
From S2P Require Import Hlc.
From S2P Require Import Ops.
From S2P Require Import OpLog.
From S2P Require Import Frame.
From S2P Require Import Message.
From S2P Require Import Sealed.
From S2P Require Import Session.
From S2P Require Import LiveSync.
From S2P Require Import SyncBatch.

#[local] Open Scope N_scope.

(** ** The system *)

(** The state of a connection that was just made: [Session::new], its link hello sent ([send_link_hello]). *)
Definition connect (c : Conn) (wall now : N) : Conn * list (WorkspaceId * Message) :=
  match link_hello (Session_new (s_device (c_session c)) (s_group (c_session c))) wall with
  | Ok (s, m) => (mkConn s (Live_new now) ∅ (c_stores c), [(LINK_WORKSPACE, m)])
  | Err _ => (c, [])
  end.

(** One end and the other, what each sent that the other has not received, and whether the link stands. *)
Record Net := mkNet {
  n_me : Conn;
  n_you : Conn;
  n_out : list (WorkspaceId * Message);
  n_in : list (WorkspaceId * Message);
  n_up : bool
}.

Definition net_swap (n : Net) : Net := mkNet (n_you n) (n_me n) (n_in n) (n_out n) (n_up n).

Inductive Move :=
| MTurn (mine deliver : bool) (e : Env)
| MStores (mine : bool) (stores : gmap WorkspaceId Route)
| MDrop
| MConnect (my_wall your_wall now : N).

Definition on_side (mine : bool) (f : Net → Net) (n : Net) : Net := if mine then f n else net_swap (f (net_swap n)).

Section system.
Context (P : Primitives) (sends : WorkspaceId → Message → bool) (signing_key : DeviceSigningKey).

Definition my_turn (deliver : bool) (e : Env) (n : Net) : Net :=
  if negb (n_up n) then n
  else
    let '(frame, rest) := match deliver, n_in n with true, f :: rest => (Some f, rest) | _, q => (None, q) end in
    let '(c, out, ok) := turn P sends signing_key (n_me n) e frame in
    mkNet c (n_you n) (n_out n ++ out) rest ok.

Definition my_stores (stores : gmap WorkspaceId Route) (n : Net) : Net :=
  let c := n_me n in
  mkNet (mkConn (c_session c) (c_live c) (c_routes c) stores) (n_you n) (n_out n) (n_in n) (n_up n).

Definition net_move (n : Net) (m : Move) : Net :=
  match m with
  | MTurn mine deliver e => on_side mine (my_turn deliver e) n
  | MStores mine stores => on_side mine (my_stores stores) n
  | MDrop => mkNet (n_me n) (n_you n) [] [] false
  | MConnect my_wall your_wall now =>
      if n_up n then n
      else
        let '(a, ab) := connect (n_me n) my_wall now in
        let '(b, ba) := connect (n_you n) your_wall now in
        mkNet a b ab ba true
  end.

Definition net_run (n : Net) (ms : list Move) : Net := foldl net_move n ms.
End system.

(** ** What is kept *)

(** How many of a device's ops a workspace's store holds. *)
Definition store_len (stores : gmap WorkspaceId Route) (w : WorkspaceId) (d : DeviceId) : nat :=
  match stores !! w with Some r => log_len (rt_log r) d | None => 0%nat end.

Definition heads_upto (h : Heads) (len : DeviceId → nat) : Prop := ∀ d, head_at h d <= N.of_nat (len d).
Definition ranges_upto (rs : list OriginRange) (len : DeviceId → nat) : Prop :=
  Forall (λ r, r_last r <= N.of_nat (len (r_device r))) rs.

Definition stores_le (a b : gmap WorkspaceId Route) : Prop :=
  ∀ w r, a !! w = Some r → ∃ r', b !! w = Some r' ∧ log_le (rt_log r) (rt_log r').

#[global] Instance stores_le_preorder : PreOrder stores_le.
Proof.
  split; [intros a w r H; by exists r|]. intros a b c H1 H2 w r H. destruct (H1 w r H) as (r1 & Hr1 & Hl1).
  destruct (H2 w r1 Hr1) as (r2 & Hr2 & Hl2). exists r2. split; [done|]. by etrans.
Qed.

Lemma stores_le_len a b w d : stores_le a b → (store_len a w d ≤ store_len b w d)%nat.
Proof.
  intros H. unfold store_len. destruct (a !! w) as [r|] eqn:E; [|lia]. destruct (H w r E) as (r' & -> & Hl).
  by apply prefix_length.
Qed.

Lemma heads_upto_mono h len len' : (∀ d, len d ≤ len' d)%nat → heads_upto h len → heads_upto h len'.
Proof. intros Hle H d. specialize (H d). specialize (Hle d). lia. Qed.

Lemma ranges_upto_mono rs len len' : (∀ d, len d ≤ len' d)%nat → ranges_upto rs len → ranges_upto rs len'.
Proof. intros Hle H. eapply Forall_impl; [exact H|]. intros r Hr. cbn in Hr. specialize (Hle (r_device r)). lia. Qed.

Lemma heads_upto_empty len : heads_upto ∅ len.
Proof. intros d. unfold head_at. rewrite lookup_empty. cbn. lia. Qed.

(** ** Heads of a log *)

Lemma head_groups_lookup (f : DeviceId → N) (l : OpLog) d v :
  foldr (λ r m, <[row_device r := f (row_device r)]> m) (∅ : gmap DeviceId N) l !! d = Some v → v = f d.
Proof.
  induction l as [|r l IH]; cbn; [by rewrite lookup_empty|].
  intros [[<- <-]|[_ H]]%lookup_insert_Some; [done|by apply IH].
Qed.

Lemma head_groups_elem (f : DeviceId → N) (l : OpLog) r :
  r ∈ l → foldr (λ r m, <[row_device r := f (row_device r)]> m) (∅ : gmap DeviceId N) l !! row_device r = Some (f (row_device r)).
Proof.
  induction l as [|x l IH]; [by intros ?%elem_of_nil|]. intros [->|H]%elem_of_cons; cbn; [by rewrite lookup_insert_eq|].
  destruct (decide (row_device x = row_device r)) as [->|]; [by rewrite lookup_insert_eq|]. rewrite lookup_insert_ne by done.
  by apply IH.
Qed.

Lemma heads_lookup log d v : heads log !! d = Some v → head_groups log !! d = Some v.
Proof.
  unfold heads. intros H. apply elem_of_list_to_map_2 in H. apply in_key_order_elem.
  rewrite <- (take_drop MAX_DEVICES_PER_HEADS (in_key_order (head_groups log))), elem_of_app. by left.
Qed.

Lemma heads_upto_log log : dense log → heads_upto (heads log) (log_len log).
Proof.
  intros Hd d. unfold head_at. destruct (heads log !! d) as [v|] eqn:E; cbn; [|lia].
  apply heads_lookup in E. unfold head_groups in E. apply (head_groups_lookup (head_of log)) in E as ->.
  by rewrite head_of_dense.
Qed.

(** ** The bookkeeping of pushes *)

Definition top (rs : list OriginRange) (d : DeviceId) : N :=
  foldr (λ r m, if r_device r =? d then N.max (r_last r) m else m) 0 rs.

Lemma raise_at rs : ∀ h d, head_at (raise h rs) d = N.max (head_at h d) (top rs d).
Proof.
  induction rs as [|r rs IH]; intros h d; [cbn; lia|]. unfold raise in *. cbn [foldl top foldr]. rewrite IH, head_at_insert. fold (top rs d).
  destruct (N.eqb_spec (r_device r) d) as [<-|]; lia.
Qed.

Lemma top_upto rs len : ranges_upto rs len → ∀ d, top rs d <= N.of_nat (len d).
Proof.
  intros H d. induction H as [|r rs Hr H IH]; [cbn; lia|]. cbn. fold (top rs d).
  destruct (N.eqb_spec (r_device r) d) as [<-|]; lia.
Qed.

Lemma top_ge rs r : r ∈ rs → r_last r <= top rs (r_device r).
Proof.
  induction rs as [|x rs IH]; [by intros ?%elem_of_nil|]. cbn. fold (top rs (r_device r)). intros [->|H]%elem_of_cons.
  - rewrite N.eqb_refl. lia.
  - specialize (IH H). destruct (_ =? _); lia.
Qed.

Lemma raise_upto h rs len : heads_upto h len → ranges_upto rs len → heads_upto (raise h rs) len.
Proof. intros H1 H2 d. rewrite raise_at. specialize (H1 d). pose proof (top_upto _ _ H2 d). lia. Qed.

Lemma raise_to_at floor h d : head_at (raise_to h floor) d = N.max (head_at h d) (head_at floor d).
Proof.
  unfold raise_to.
  assert (∀ l h, head_at (foldl (λ (h : Heads) p, <[fst p := N.max (head_at h (fst p)) (snd p)]> h) h l) d
    = N.max (head_at h d) (foldr (λ p m, if fst p =? d then N.max (snd p) m else m) 0 l)) as H.
  { induction l as [|[k v] l IH]; intros h'; [cbn; lia|]. cbn [foldl foldr fst snd]. rewrite IH, head_at_insert.
    destruct (N.eqb_spec k d) as [->|]; lia. }
  rewrite H. f_equal.
  assert (∀ l : list (DeviceId * N), (∀ v, (d, v) ∈ l → v = head_at floor d) →
    foldr (λ p m, if fst p =? d then N.max (snd p) m else m) 0 l = if bool_decide (d ∈ map fst l) then head_at floor d else 0) as Hf.
  { induction l as [|[k v] l IH]; intros Hv; [done|]. cbn [foldr fst snd map].
    rewrite IH by (intros v' ?; apply Hv; by right). destruct (N.eqb_spec k d) as [->|Hne].
    - rewrite (bool_decide_eq_true_2 (d ∈ d :: _)) by by left. rewrite (Hv v) by by left. case_bool_decide; lia.
    - rewrite (bool_decide_ext (d ∈ k :: map fst l) (d ∈ map fst l)); [done|]. rewrite elem_of_cons. naive_solver. }
  rewrite Hf.
  - case_bool_decide as Hin; [done|]. unfold head_at. destruct (floor !! d) as [v|] eqn:E; [|done]. exfalso. apply Hin.
    apply in_key_order_elem in E. rewrite list_elem_of_In in E. rewrite list_elem_of_In. by apply (in_map fst) in E.
  - intros v Hv. apply in_key_order_elem in Hv. unfold head_at. by rewrite Hv.
Qed.

Lemma heads_of_insert m w h w' : heads_of (<[w := h]> m) w' = if w =? w' then h else heads_of m w'.
Proof.
  unfold heads_of. destruct (N.eqb_spec w w') as [->|]; [by rewrite lookup_insert_eq|by rewrite lookup_insert_ne].
Qed.

Lemma head_at_None h d : h !! d = None → head_at h d = 0.
Proof. intros H. unfold head_at. by rewrite H. Qed.

Lemma head_at_Some h d v : h !! d = Some v → head_at h d = v.
Proof. intros H. unfold head_at. by rewrite H. Qed.

Lemma in_flight_iff l w :
  in_flight l w = true ↔ ∃ d, head_at (heads_of (l_held l) w) d < head_at (heads_of (l_sent l) w) d.
Proof.
  unfold in_flight. change (heads_of (l_sent l) w) with (default ∅ (l_sent l !! w)).
  generalize (heads_of (l_held l) w) as held. intros held. destruct (l_sent l !! w) as [sent|]; cbn [default from_option id].
  - rewrite existsb_exists. split.
    + intros ([d v] & Hin & Hlt). apply list_elem_of_In, in_key_order_elem in Hin. exists d. cbn in Hlt. apply N.ltb_lt in Hlt.
      by rewrite (head_at_Some _ _ _ Hin).
    + intros [d Hlt]. destruct (sent !! d) as [v|] eqn:Ev; [|rewrite (head_at_None _ _ Ev) in Hlt; lia].
      rewrite (head_at_Some _ _ _ Ev) in Hlt. exists (d, v). split; [by apply list_elem_of_In, in_key_order_elem|]. by apply N.ltb_lt.
  - split; [done|]. intros [d Hlt]. cbn in Hlt. rewrite (head_at_None ∅ d) in Hlt by apply lookup_empty. lia.
Qed.

(** What the bookkeeping means: what is counted held the peer has; what is held was sent or came from
    the peer; and while something is in flight, since when is known. *)
Definition live_at (plen : WorkspaceId → DeviceId → nat) (l : Live) (w : WorkspaceId) : Prop :=
  heads_upto (heads_of (l_held l) w) (plen w)
  ∧ heads_le (heads_of (l_held l) w) (heads_of (l_sent l) w)
  ∧ (in_flight l w = true → is_Some (l_waiting_since l !! w)).
Definition live_inv (plen : WorkspaceId → DeviceId → nat) (l : Live) : Prop := ∀ w, live_at plen l w.

(** The part of the state the invariant reads, at one workspace. *)
Definition live_view (l : Live) (w : WorkspaceId) : option Heads * option Heads * option N :=
  (l_held l !! w, l_sent l !! w, l_waiting_since l !! w).

Lemma live_at_view plen l l' w : live_view l w = live_view l' w → live_at plen l w → live_at plen l' w.
Proof.
  unfold live_view, live_at, in_flight, heads_of. intros [= Hh Hs Hw]. by rewrite <- Hh, <- Hs, <- Hw.
Qed.

Lemma live_inv_new plen now : live_inv plen (Live_new now).
Proof.
  intros w. unfold live_at, in_flight, heads_of. cbn. rewrite !lookup_empty. cbn.
  split_and!; [apply heads_upto_empty|reflexivity|done].
Qed.

(** A state whose workspace [w] alone was touched. *)
Lemma live_inv_but plen l l' w :
  live_inv plen l → live_at plen l' w → (∀ w', w ≠ w' → live_view l w' = live_view l' w') → live_inv plen l'.
Proof.
  intros Hl Hw Ho w'. destruct (decide (w = w')) as [<-|Hne]; [done|]. eapply live_at_view; [by apply Ho|done].
Qed.

Lemma heads_le_upto a b len : heads_le a b → heads_upto b len → heads_upto a len.
Proof. intros H1 H2 d. specialize (H1 d). specialize (H2 d). lia. Qed.

Lemma note_sent_other l now w rs w' : w ≠ w' → live_view (note_sent l now w rs) w' = live_view l w'.
Proof.
  intros Hne. unfold note_sent. case_bool_decide; [done|]. cbn [set_sent l_waiting_since].
  destruct (l_waiting_since l !! w); unfold live_view; cbn; by rewrite ?lookup_insert_ne by done.
Qed.

Lemma note_acked_other l now w rs w' : w ≠ w' → live_view (note_acked l now w rs) w' = live_view l w'.
Proof.
  intros Hne. unfold note_acked. case_bool_decide; [done|]. destruct (in_flight _ w); unfold live_view; cbn;
    rewrite ?lookup_insert_ne, ?lookup_delete_ne by done; done.
Qed.

Lemma note_sent_inv plen l now w rs : live_inv plen l → live_inv plen (note_sent l now w rs).
Proof.
  intros Hl. apply (live_inv_but plen l _ w Hl); [|intros w' Hne; by rewrite note_sent_other].
  destruct (Hl w) as (Hu & Hle & Hw). unfold note_sent. case_bool_decide; [done|]. cbn [set_sent l_waiting_since].
  assert (heads_le (heads_of (l_held l) w) (raise (heads_of (l_sent l) w) rs)) as Hr.
  { intros d. rewrite raise_at. specialize (Hle d). lia. }
  destruct (l_waiting_since l !! w) as [s|] eqn:E; unfold live_at; cbn [set_sent set_waiting l_held l_sent l_waiting_since];
    (split_and!; [done|by rewrite heads_of_insert, N.eqb_refl|]); intros _; [by rewrite E|rewrite lookup_insert_eq; by eexists].
Qed.

Lemma note_acked_held l now w rs : l_held (note_acked l now w rs) =
  if bool_decide (rs = []) then l_held l else <[w := raise (heads_of (l_held l) w) rs]> (l_held l).
Proof. unfold note_acked. case_bool_decide; [done|]. by destruct (in_flight _ w). Qed.

Lemma note_acked_inv plen l now w rs : live_inv plen l → ranges_upto rs (plen w) → live_inv plen (note_acked l now w rs).
Proof.
  intros Hl Hrs. apply (live_inv_but plen l _ w Hl); [|intros w' Hne; by rewrite note_acked_other].
  destruct (Hl w) as (Hu & Hle & Hw). unfold note_acked. case_bool_decide; [done|].
  set (l2 := set_sent _ _). assert (heads_le (heads_of (l_held l2) w) (heads_of (l_sent l2) w)) as Hr.
  { unfold l2. cbn [set_sent set_held l_held l_sent]. rewrite !heads_of_insert, !N.eqb_refl. intros d. rewrite raise_to_at. lia. }
  assert (heads_upto (heads_of (l_held l2) w) (plen w)) as Hup.
  { unfold l2. cbn [set_sent set_held l_held]. rewrite heads_of_insert, N.eqb_refl. by apply raise_upto. }
  destruct (in_flight l2 w) eqn:Ei; (split_and!; [exact Hup|exact Hr|]).
  - intros _. cbn. rewrite lookup_insert_eq. by eexists.
  - intros Hf. exfalso. unfold in_flight in Ei, Hf. cbn [set_waiting l_sent l_held] in Hf. congruence.
Qed.

Definition msg_ok (G : DeviceId → list Op) (len : DeviceId → nat) (m : Message) : Prop :=
  match m with
  | MGreet _ heads => heads_upto heads len
  | MAck _ rs => ranges_upto rs len
  | MOps _ ops _ rs => good_batch G ops rs ∧ (length ops ≤ MAX_OPS_PER_BATCH)%nat ∧ ranges_upto rs len
  | _ => True
  end.

Lemma msg_ok_mono G len len' m : (∀ d, len d ≤ len' d)%nat → msg_ok G len m → msg_ok G len' m.
Proof.
  intros Hle. destruct m; cbn; try done.
  - intros (H1 & H2 & H3). split_and!; [done..|]. by eapply ranges_upto_mono.
  - by apply ranges_upto_mono.
  - by apply heads_upto_mono.
Qed.

Lemma observe_other l now w m w' : w ≠ w' → live_view (observe l now w m) w' = live_view l w'.
Proof.
  intros Hne. destruct m; cbn [observe]; try done; [|by apply note_acked_other|];
    unfold live_view; cbn; rewrite ?lookup_insert_ne, ?lookup_delete_ne by done; done.
Qed.

Lemma observe_inv G plen l now w m : live_inv plen l → msg_ok G (plen w) m → live_inv plen (observe l now w m).
Proof.
  intros Hl Hm. apply (live_inv_but plen l _ w Hl); [|intros w' Hne; by rewrite observe_other].
  destruct (Hl w) as (Hu & Hle & Hw). destruct m as [|w0 rs|w0 ops sigs rs|w0 rs|w0 hs|]; cbn [observe msg_ok] in *; try done.
  - destruct Hm as (_ & _ & Hrs). unfold live_at. cbn [set_sent set_held l_held l_sent l_waiting_since].
    rewrite !heads_of_insert, !N.eqb_refl. split_and!; [by apply raise_upto| |].
    + intros d. rewrite !raise_at. specialize (Hle d). lia.
    + intros (d & Hd)%in_flight_iff. cbn in Hd. rewrite !heads_of_insert, !N.eqb_refl, !raise_at in Hd.
      apply Hw, in_flight_iff. exists d. lia.
  - by apply note_acked_inv.
  - unfold live_at. cbn [set_sent set_held set_waiting l_held l_sent l_waiting_since].
    rewrite !heads_of_insert, !N.eqb_refl. split_and!; [done|done|].
    intros (d & Hd)%in_flight_iff. cbn in Hd. rewrite !heads_of_insert, !N.eqb_refl in Hd. lia.
Qed.

Lemma rewind_other l w now w' : w ≠ w' → live_view (fst (rewind_if_stalled l w now)) w' = live_view l w'.
Proof.
  intros Hne. unfold rewind_if_stalled. destruct (l_waiting_since l !! w) as [s|]; [|done]. destruct (_ <? _); [done|].
  destruct (negb _); unfold live_view; cbn; by rewrite ?lookup_insert_ne, ?lookup_delete_ne.
Qed.

Lemma rewind_inv plen l w now : live_inv plen l → live_inv plen (fst (rewind_if_stalled l w now)).
Proof.
  intros Hl. apply (live_inv_but plen l _ w Hl); [|intros w' Hne; by rewrite rewind_other].
  destruct (Hl w) as (Hu & Hle & Hw). unfold rewind_if_stalled. destruct (l_waiting_since l !! w) as [s|] eqn:E; [|done].
  destruct (_ <? _); [done|]. set (l2 := set_waiting _ _). destruct (in_flight l2 w) eqn:Ei; cbn [negb fst].
  - split_and!; [done| |]; unfold l2; cbn [set_sent set_waiting l_held l_sent]; rewrite ?heads_of_insert, ?N.eqb_refl; [done|].
    intros (d & Hd)%in_flight_iff. cbn in Hd. rewrite !heads_of_insert, !N.eqb_refl in Hd. lia.
  - split_and!; [done|done|]. congruence.
Qed.

(** ** What a device puts on the link *)

Lemma batch_inv_good G log runs ops ranges :
  log_ok G log → (∀ R, R ∈ runs → 1 <= r_first R) → batch_inv log runs ops ranges →
  good_batch G ops ranges ∧ ranges_upto ranges (log_len log).
Proof.
  intros [Hd Hi Hp] H1 [Hops Hnd Hfrom].
  assert (ranges_upto ranges (log_len log)) as Hu.
  { apply Forall_forall. intros r Hr. destruct (Hfrom r Hr) as (R & _ & _ & _ & _ & _ & Hl). exact Hl. }
  split; [|done]. split; [|done|].
  - rewrite Hops. unfold batch_ops. f_equal. apply map_ext_in. intros r Hr. apply list_elem_of_In in Hr.
    unfold range_ops, slice. destruct (Hfrom r Hr) as (R & _ & _ & _ & _ & _ & Hl). destruct (Hp (r_device r)) as [k ->].
    rewrite <- !skipn_firstn_comm.
    destruct (decide (N.to_nat (r_first r - 1) ≤ N.to_nat (r_last r)))%nat.
    + replace (N.to_nat (r_first r - 1) + (N.to_nat (r_last r) - N.to_nat (r_first r - 1)))%nat with (N.to_nat (r_last r)) by lia.
      by rewrite take_app_le by lia.
    + replace (N.to_nat (r_first r - 1) + (N.to_nat (r_last r) - N.to_nat (r_first r - 1)))%nat with (N.to_nat (r_first r - 1)) by lia.
      destruct (Hfrom r Hr) as (R' & _ & _ & _ & Hfl & _ & _). lia.
  - intros r Hr. destruct (Hfrom r Hr) as (R & HR & Hd' & Hf & Hfl & _ & Hl). split_and!; [rewrite <- Hf; by apply H1|done|].
    pose proof (prefix_length _ _ (Hp (r_device r))). lia.
Qed.

Lemma want_runs local remote : NoDup (map r_device (want local remote)) ∧ (∀ R, R ∈ want local remote → 1 <= r_first R).
Proof.
  split; [apply want_devices_nodup|]. intros R HR.
  pose proof (want_from_bounds local (in_key_order remote) MAX_WANT_RANGES) as Hb.
  pose proof (proj1 (Forall_forall _ _) Hb R HR) as Hr. cbn in Hr. lia.
Qed.

Lemma next_runs_want l w local : ∃ l' remote, next_runs l w local = (l', want (heads_of (l_sent l) w) remote)
  ∧ (l' = l ∨ l' = set_asked l (delete w (l_asked l))) ∧ (remote = local ∨ l_asked l !! w = Some remote)
  ∧ (remote ≠ local → want (heads_of (l_sent l) w) remote ≠ []).
Proof.
  unfold next_runs. destruct (l_asked l !! w) as [asked|]; cbn [fmap option_fmap option_map].
  - destruct (want (heads_of (l_sent l) w) asked) as [|r rs] eqn:E.
    + exists (set_asked l (delete w (l_asked l))), local. split_and!; auto.
    + exists l, asked. rewrite E. auto.
  - exists (set_asked l (delete w (l_asked l))), local. split_and!; auto.
Qed.

Section keeping.
Context (P : Primitives) (sends : WorkspaceId → Message → bool) (signing_key : DeviceSigningKey).
Context (G : WorkspaceId → DeviceId → list Op) (HG : ∀ w, origins_ok (G w)).

Lemma serve_merged_ok log runs w m ranges :
  log_ok (G w) log → NoDup (map r_device runs) → (∀ R, R ∈ runs → 1 <= r_first R) →
  serve_merged P log runs w signing_key = Ok (Some (m, ranges)) →
  msg_ok (G w) (log_len log) m ∧ ∃ ops sigs, m = MOps w ops sigs ranges ∧ batch_inv log runs ops ranges ∧ ranges ≠ [].
Proof using Type.
  intros Hl Hnd H1. destruct (served_merge_spec log runs (lo_dense _ _ Hl) Hnd H1) as (ops & rs & Hm & Hb & Hlen & _).
  unfold serve_merged. rewrite Hm. cbn [mbind result_bind]. case_bool_decide as Hn; [done|].
  destruct (sign_ops P ops signing_key) as [sigs|]; [|done]. intros [= <- <-].
  destruct (batch_inv_good _ _ _ _ _ Hl H1 Hb) as [Hg Hu]. split; [done|]. exists ops, sigs. split_and!; [done..|].
  intros ->. apply Hn. by rewrite (bi_ops _ _ _ _ Hb).
Qed.

(** What a route's push may do. *)
Lemma push_ok plen l route id now sweep l' out ok :
  live_inv plen l → (∀ r, route = Some r → log_ok (G id) (rt_log r)) →
  push P sends signing_key l route id now sweep = (l', out, ok) →
  live_inv plen l' ∧ l_ready l' = l_ready l
  ∧ (∀ w, w ≠ id → live_view l' w = live_view l w ∧ l_asked l' !! w = l_asked l !! w)
  ∧ (∀ w, l_held l' !! w = l_held l !! w)
  ∧ ∀ w m, (w, m) ∈ out → w = id ∧ ∃ r, route = Some r ∧ msg_ok (G id) (log_len (rt_log r)) m.
Proof using Type.
  intros Hl Hr. unfold push. destruct route as [r|]; [|intros [= <- <- <-]; split_and!; [done..|by intros ? ? ?%elem_of_nil]].
  specialize (Hr r eq_refl). pose proof (rewind_inv plen l id now Hl) as Hl1.
  pose proof (rewind_other l id now) as Ho1.
  assert (l_ready (fst (rewind_if_stalled l id now)) = l_ready l ∧ l_held (fst (rewind_if_stalled l id now)) = l_held l
    ∧ l_asked (fst (rewind_if_stalled l id now)) = l_asked l) as (Hr1 & Hh1 & Ha1).
  { unfold rewind_if_stalled. destruct (l_waiting_since l !! id); [|done]. destruct (_ <? _); [done|]. by destruct (negb _). }
  destruct (rewind_if_stalled l id now) as [l1 rewound] eqn:Erw. cbn [fst] in *.
  destruct (negb _); [intros [= <- <- <-]; rewrite Hh1, Ha1; split_and!; [done|done| |done|by intros ? ? ?%elem_of_nil]|].
  { intros w Hne. split; [apply Ho1; congruence|done]. }
  set (l2 := set_seen _ _). match goal with |- context [next_runs l2 id ?x] => set (local := x) end.
  destruct (next_runs_want l2 id local) as (l3 & remote & -> & Hl3 & _).
  assert (live_inv plen l3 ∧ l_ready l3 = l_ready l ∧ l_held l3 = l_held l
    ∧ ∀ w, w ≠ id → live_view l3 w = live_view l w ∧ l_asked l3 !! w = l_asked l !! w) as (Hi3 & Hr3 & Hh3 & Ho3).
  { split; [by destruct Hl3 as [->| ->]|]. split; [by destruct Hl3 as [->| ->]|]. split; [by destruct Hl3 as [->| ->]|].
    intros w Hne. destruct Hl3 as [->| ->]; unfold l2; cbn [set_asked set_seen l_asked]; rewrite ?Ha1, ?lookup_delete_ne by done;
      (split; [|done]); apply Ho1; congruence. }
  cbv zeta. case_bool_decide as Hn.
  { intros [= <- <- <-]. split_and!; [done..|by rewrite <- Hh3|by intros ? ? ?%elem_of_nil]. }
  destruct (_ <=? _).
  { intros [= <- <- <-]. split_and!; [done..|by rewrite <- Hh3|by intros ? ? ?%elem_of_nil]. }
  destruct (serve_merged P (rt_log r) _ id signing_key) as [[[m ranges]|]|e] eqn:Es.
  2,3: intros [= <- <- <-]; split_and!; [done..|by rewrite <- Hh3|by intros ? ? ?%elem_of_nil].
  destruct (want_runs (heads_of (l_sent l2) id) remote) as [Hnd H1].
  destruct (serve_merged_ok _ _ _ _ _ Hr Hnd H1 Es) as [Hm _].
  destruct (sends id m); intros [= <- <- <-].
  - split; [by apply note_sent_inv|]. split.
    { unfold note_sent. case_bool_decide; [done|]. cbn [set_sent set_pending l_waiting_since]. by destruct (l_waiting_since l3 !! id). }
    split; [|split].
    + intros w Hne. rewrite note_sent_other by done. split; [by apply Ho3|].
      transitivity (l_asked l3 !! w); [|by apply Ho3].
      unfold note_sent. case_bool_decide; [done|]. cbn [set_sent set_pending l_waiting_since]. by destruct (l_waiting_since l3 !! id).
    + intros w. rewrite <- Hh3. unfold note_sent. case_bool_decide; [done|]. cbn [set_sent set_pending l_waiting_since].
      by destruct (l_waiting_since l3 !! id).
    + intros w m' ?%list_elem_of_singleton. simplify_eq. split; [done|]. by exists r.
  - split_and!; [done..|by rewrite <- Hh3|by intros ? ? ?%elem_of_nil].
Qed.

Definition logs_ok (stores : gmap WorkspaceId Route) : Prop :=
  ∀ w r, stores !! w = Some r → log_ok (G w) (rt_log r).

Definition out_ok (len : WorkspaceId → DeviceId → nat) (out : list (WorkspaceId * Message)) : Prop :=
  ∀ w m, (w, m) ∈ out → msg_ok (G w) (len w) m.

Lemma out_ok_app len a b : out_ok len a → out_ok len b → out_ok len (a ++ b).
Proof using Type. intros Ha Hb w m [H|H]%elem_of_app; [by apply Ha|by apply Hb]. Qed.

Lemma out_ok_nil len : out_ok len [].
Proof using Type. by intros ? ? ?%elem_of_nil. Qed.

Lemma out_ok_mono len len' out : (∀ w d, len w d ≤ len' w d)%nat → out_ok len out → out_ok len' out.
Proof using Type. intros Hle H w m Hm. eapply msg_ok_mono; [by apply Hle|by apply H]. Qed.

Lemma push_all_ok plen routes stores ids : ∀ l now sweep l' out ok,
  live_inv plen l → logs_ok stores → (∀ w r, routes w = Some r → stores !! w = Some r) →
  push_all P sends signing_key l routes ids now sweep = (l', out, ok) →
  live_inv plen l' ∧ l_ready l' = l_ready l ∧ (∀ w, l_held l' !! w = l_held l !! w) ∧ out_ok (store_len stores) out.
Proof using HG.
  induction ids as [|id ids IH]; intros l now sweep l' out ok Hl Hs Hr; cbn [push_all].
  - intros [= <- <- <-]. split_and!; [done..|apply out_ok_nil].
  - destruct (push P sends signing_key l (routes id) id now sweep) as [[l1 out1] ok1] eqn:E.
    destruct (push_ok _ _ _ _ _ _ _ _ _ Hl (λ r Hrt, Hs id r (Hr id r Hrt)) E) as (Hl1 & Hr1 & _ & Hh1 & Ho1).
    assert (out_ok (store_len stores) out1) as Hout1.
    { intros w m Hm. destruct (Ho1 w m Hm) as (-> & r & Hrt & Hok). unfold store_len. by rewrite (Hr _ _ Hrt). }
    destruct ok1; [|intros [= <- <- <-]; split_and!; done].
    destruct (push_all P sends signing_key l1 routes ids now sweep) as [[l2 out2] ok2] eqn:E2.
    destruct (IH _ _ _ _ _ _ Hl1 Hs Hr E2) as (Hl2 & Hr2 & Hh2 & Ho2). intros [= <- <- <-].
    split_and!; [done|congruence|intros w; by rewrite Hh2|by apply out_ok_app].
Qed.

Lemma tick_ok plen routes stores l now superseded l' out ok :
  live_inv plen l → logs_ok stores → (∀ w r, routes w = Some r → stores !! w = Some r) →
  tick P sends signing_key l routes now superseded = (l', out, ok) →
  live_inv plen l' ∧ l_ready l' = l_ready l ∧ (∀ w, l_held l' !! w = l_held l !! w) ∧ out_ok (store_len stores) out.
Proof using HG.
  intros Hl Hs Hr. unfold tick. destruct (expired l now); [intros [= <- <- <-]; split_and!; [done..|apply out_ok_nil]|].
  destruct superseded; [intros [= <- <- <-]; split_and!; [done..|apply out_ok_nil]|].
  set (sweep := HEARTBEAT <=? now - l_last_sweep l). set (l1 := if sweep then set_sweep l now else l).
  assert (live_inv plen l1 ∧ l_ready l1 = l_ready l ∧ l_held l1 = l_held l) as (Hl1 & Hr1 & Hh1) by (unfold l1; by destruct sweep).
  cbv zeta. destruct (push_all P sends signing_key l1 routes _ now sweep) as [[l2 out2] ok2] eqn:E2.
  destruct (push_all_ok _ _ _ _ _ _ _ _ _ _ Hl1 Hs Hr E2) as (Hl2 & Hr2 & Hh2 & Ho2).
  rewrite Hr1 in Hr2. rewrite Hh1 in Hh2.
  destruct ok2; cbn [negb]; [|by intros [= <- <- <-]].
  destruct (_ <? HEARTBEAT); [by intros [= <- <- <-]|].
  destruct (beat sends (in_order (l_ready l1))) as [out3 ok3] eqn:E3. intros [= <- <- <-].
  split_and!; [done..|]. apply out_ok_app; [done|].
  unfold beat in E3. destruct (in_order _) as [|id ids]; [injection E3 as <- <-; apply out_ok_nil|].
  destruct (sends id _); injection E3 as <- <-; [|apply out_ok_nil].
  intros w m Hm%list_elem_of_singleton. injection Hm as -> ->. cbn. constructor.
Qed.

(** ** What a frame does *)

Definition sess_upto (s : Session) (len : WorkspaceId → DeviceId → nat) : Prop :=
  ∀ w ws, s_workspaces s !! w = Some ws → heads_upto (ws_heads ws) (len w).

Lemma sess_upto_mono s len len' : (∀ w d, len w d ≤ len' w d)%nat → sess_upto s len → sess_upto s len'.
Proof using Type. intros Hle H w ws Hw. eapply heads_upto_mono; [by apply Hle|by eapply H]. Qed.

Lemma on_workspace_upto {A} s w (f : WorkspaceSession → result SessionError (WorkspaceSession * A)) s' a len :
  on_workspace s w f = Ok (s', a) → sess_upto s len →
  (∀ ws ws', heads_upto (ws_heads ws) (len w) → f ws = Ok (ws', a) → heads_upto (ws_heads ws') (len w)) →
  sess_upto s' len.
Proof using Type.
  unfold on_workspace, workspace. intros H Hs Hf. destruct (s_workspaces s !! w) as [ws|] eqn:E; [|done].
  cbn [ok_or mbind result_bind] in H. destruct (f ws) as [[ws' a']|] eqn:Ef; [|done]. cbn [mbind result_bind] in H. simplify_eq.
  intros w0 ws0. cbn [set_workspaces s_workspaces]. intros [[<- <-]|[_ Hw0]]%lookup_insert_Some; [|by eapply Hs].
  eapply Hf; [by eapply Hs|done].
Qed.

Lemma foldl_raise_upto (rs : list OriginRange) : ∀ (h : Heads) len, heads_upto h len → ranges_upto rs len →
  heads_upto (foldl (λ h r, <[r_device r := r_last r]> h) h rs) len.
Proof using Type.
  induction rs as [|r rs IH]; intros h len Hh Hrs; [done|]. apply Forall_cons in Hrs as [Hr Hrs]. cbn [foldl]. apply IH; [|done].
  intros d. rewrite head_at_insert. destruct (N.eqb_spec (r_device r) d) as [<-|]; [done|apply Hh].
Qed.

Lemma ws_catch_up_upto ws held len : heads_upto (ws_heads ws) len → heads_upto held len → heads_upto (ws_heads (ws_catch_up ws held)) len.
Proof using Type.
  intros H1 H2. unfold ws_catch_up. destruct (ws_state ws); try done; cbn [ws_heads].
  all: apply foldl_raise_upto; [done|]; apply Forall_forall; intros r Hr; rewrite list_elem_of_In, in_map_iff in Hr;
    destruct Hr as ([d v] & <- & Hp); apply List.filter_In in Hp as [Hp _]; apply list_elem_of_In, in_key_order_elem in Hp;
    cbn; rewrite <- (head_at_Some _ _ _ Hp); apply H2.
Qed.

Lemma catch_up_upto s w held len s' : catch_up s w held = Ok s' → sess_upto s len → heads_upto held (len w) → sess_upto s' len.
Proof using Type.
  unfold catch_up. intros H Hs Hh. destruct (on_workspace _ _ _) as [[s1 []]|] eqn:E; [|done]. cbn in H. simplify_eq.
  eapply on_workspace_upto; [exact E|done|]. intros ws ws' Hw [= <-]. by apply ws_catch_up_upto.
Qed.

Lemma ws_on_ops_heads ws w msg keys ws' ops : ws_on_ops P ws w msg keys = Ok (ws', ops) → ws_heads ws' = ws_heads ws.
Proof using Type.
  unfold ws_on_ops. destruct (negb _); [done|]. destruct msg; try done.
  destruct (check_workspace _ _); cbn [mbind result_bind]; [|done].
  destruct (verify_batch _ _ _ _); cbn [map_err mbind result_bind]; [|done].
  destruct (check_ranges _ _); cbn [mbind result_bind]; [|done]. by intros [= <- <-].
Qed.

Lemma ws_committed_heads ws w ranges ws' m :
  ws_committed ws w ranges = Ok (ws', m) → advance_all (ws_heads ws) ranges = Ok (ws_heads ws') ∧ m = MAck w ranges.
Proof using Type.
  unfold ws_committed. destruct (ws_state ws); try done. destruct (find _ ranges); [done|].
  destruct (advance_all _ _) as [h|]; cbn [map_err mbind result_bind]; [|done]. by intros [= <- <-].
Qed.

Lemma holding_runs_upto heads len rs : ∀ held, heads_upto heads len → ranges_upto held len → ranges_upto (holding_runs heads rs held) len.
Proof using Type.
  induction rs as [|r rs IH]; intros held Hh Hu; [done|]. cbn [holding_runs]. destruct (_ && _); [|by apply IH].
  apply IH; [done|]. apply Forall_app. split; [done|]. constructor; [|constructor]. apply Hh.
Qed.

Lemma holding_ack_ok s w msg len ack :
  sess_upto s len → holding_ack s w msg = Some ack → ∃ held, ack = MAck w held ∧ ranges_upto held (len w).
Proof using Type.
  intros Hs. unfold holding_ack. destruct msg as [| |w0 ops sigs ranges| | |]; try done.
  unfold session_heads, workspace. destruct (s_workspaces s !! w) as [ws|] eqn:E; [|done].
  cbn. case_bool_decide; [done|]. intros [= <-]. eexists. split; [done|].
  apply holding_runs_upto; [by eapply Hs|constructor].
Qed.

(** Handling a batch: the store stays good and grows, the session's heads stay within it, and what is
    acked is held. *)
Lemma handle_ops_ok s stores w r ops sigs w0 ranges vk disk commits s' log' out ok :
  logs_ok stores → stores !! w = Some r → sess_upto s (store_len stores) →
  good_batch (G w) ops ranges → (length ops ≤ MAX_OPS_PER_BATCH)%nat →
  handle_ops P sends s (rt_log r) w (MOps w0 ops sigs ranges) ranges vk disk = (s', log', out, ok) →
  let stores' := <[w := mkRoute log' commits]> stores in
  log_ok (G w) log' ∧ log_le (rt_log r) log' ∧ sess_upto s' (store_len stores') ∧ out_ok (store_len stores') out.
Proof using HG.
  intros Hs Hr Hu Hgb Hlen. set (stores0 := λ log', <[w := mkRoute log' commits]> stores).
  pose proof (Hs w r Hr) as Hl.
  assert (∀ log', log_le (rt_log r) log' → ∀ w' d, (store_len stores w' d ≤ store_len (stores0 log') w' d)%nat) as Hgrow.
  { intros log1 Hle w' d. apply stores_le_len. intros w1 r1 Hr1. unfold stores0. destruct (decide (w = w1)) as [<-|Hne].
    - rewrite lookup_insert_eq. eexists. split; [done|]. rewrite Hr in Hr1. by simplify_eq.
    - rewrite lookup_insert_ne by done. by exists r1. }
  assert (∀ log1 d, store_len (stores0 log1) w d = log_len log1 d) as Hat.
  { intros log1 d. unfold store_len, stores0. by rewrite lookup_insert_eq. }
  assert (∀ s log1, sess_upto s (store_len stores) → log_le (rt_log r) log1 → sess_upto s (store_len (stores0 log1))) as Hmono.
  { intros s1 log1 H1 Hle. eapply sess_upto_mono; [by apply Hgrow|done]. }
  unfold handle_ops, ops_or_refuse.
  set (s1 := match catch_up s w (heads (rt_log r)) with Ok s' => s' | Err _ => s end).
  assert (sess_upto s1 (store_len stores)) as Hu1.
  { unfold s1. destruct (catch_up s w (heads (rt_log r))) as [s2|] eqn:Ec; [|done].
    eapply catch_up_upto; [exact Ec|done|]. intros d. unfold store_len. rewrite Hr. apply heads_upto_log, Hl. }
  destruct (on_ops P s1 w (MOps w0 ops sigs ranges) _) as [[s2 ops2]|e] eqn:Eo.
  - assert (ops2 = ops ∧ sess_upto s2 (store_len stores)) as [-> Hu2].
    { split.
      - unfold on_ops, on_workspace, workspace in Eo. destruct (s_workspaces s1 !! w) as [ws|]; [|done]. cbn [ok_or mbind result_bind] in Eo.
        destruct (ws_on_ops P ws w _ _) as [[ws' ops']|] eqn:Ew; [|done]. cbn [mbind result_bind] in Eo. injection Eo as _ <-.
        unfold ws_on_ops in Ew. destruct (negb _); [done|]. destruct (check_workspace _ _); cbn [mbind result_bind] in Ew; [|done].
        destruct (verify_batch _ _ _ _); cbn [map_err mbind result_bind] in Ew; [|done].
        destruct (check_ranges _ _); cbn [mbind result_bind] in Ew; [|done]. by injection Ew.
      - eapply on_workspace_upto; [exact Eo|done|]. intros ws ws' Hw Hf. by rewrite (ws_on_ops_heads _ _ _ _ _ _ Hf). }
    unfold commit_and_ack. destruct (follows_store_heads (rt_log r) ranges) eqn:Ef; cbn [negb].
    + destruct (commit_incoming_spec (G w) (HG w) _ ops ranges disk Hl Hgb Hlen Ef) as (log1 & landed & -> & Hl1 & Hle & Hacked & _).
      assert (ranges_upto (landed_ranges ranges (ld_ops landed)) (store_len (stores0 log1) w)) as Hru.
      { eapply Forall_impl; [exact Hacked|]. intros x (_ & _ & Hx). by rewrite Hat. }
      destruct (committed s2 w _) as [[s3 ack]|] eqn:Ecm.
      * assert (ack = MAck w (landed_ranges ranges (ld_ops landed))) as ->.
        { unfold committed, on_workspace, workspace in Ecm. destruct (s_workspaces s2 !! w) as [ws|]; [|done]. cbn [ok_or mbind result_bind] in Ecm.
          destruct (ws_committed ws w _) as [[ws' m]|] eqn:Ew; [|done]. cbn [mbind result_bind] in Ecm. injection Ecm as _ <-.
          by apply ws_committed_heads in Ew as [_ ->]. }
        assert (sess_upto s3 (store_len (stores0 log1))) as Hu3.
        { eapply on_workspace_upto; [exact Ecm|by apply Hmono|]. intros ws ws' Hw Hf.
          apply ws_committed_heads in Hf as [Ha _]. apply advance_all_foldl in Ha as [-> _]. by apply foldl_raise_upto. }
        destruct (sends w _); intros [= <- <- <- <-]; (split_and!; [done..|]); [|apply out_ok_nil].
        intros w' m Hm%list_elem_of_singleton. injection Hm as -> ->. exact Hru.
      * intros [= <- <- <- <-]. split_and!; [done|done|by apply Hmono|apply out_ok_nil].
    + intros [= <- <- <- <-]. split_and!; [done|reflexivity|by apply Hmono|apply out_ok_nil].
  - assert (log_ok (G w) (rt_log r) ∧ log_le (rt_log r) (rt_log r) ∧ sess_upto s1 (store_len (stores0 (rt_log r)))) as (A1 & A2 & A3).
    { split_and!; [done|reflexivity|by apply Hmono]. }
    destruct e; try (intros [= <- <- <- <-]; split_and!; [done..|apply out_ok_nil]).
    destruct (holding_ack s1 w _) as [ack|] eqn:Eh; [|intros [= <- <- <- <-]; split_and!; [done..|apply out_ok_nil]].
    destruct (holding_ack_ok _ _ _ _ _ A3 Eh) as (held & -> & Hheld).
    destruct (sends w _); intros [= <- <- <- <-]; (split_and!; [done..|]); [|apply out_ok_nil].
    intros w' m Hm%list_elem_of_singleton. injection Hm as -> ->. exact Hheld.
Qed.

(** ** One end of the connection *)

Record conn_ok (plen : WorkspaceId → DeviceId → nat) (c : Conn) : Prop := {
  co_logs : logs_ok (c_stores c);
  co_heads : sess_upto (c_session c) (store_len (c_stores c));
  co_live : live_inv plen (c_live c)
}.

Lemma send_greets_ok len ids : ∀ s s' out ok,
  send_greets sends s ids = (s', out, ok) → sess_upto s len → sess_upto s' len ∧ out_ok len out.
Proof using Type.
  induction ids as [|id ids IH]; intros s s' out ok H Hs; cbn [send_greets] in H.
  - simplify_eq. split; [done|apply out_ok_nil].
  - destruct (hello s id) as [[s1 greet]|] eqn:E; [|by eapply IH].
    assert (sess_upto s1 len ∧ msg_ok (G id) (len id) greet) as [Hs1 Hg].
    { split.
      - eapply on_workspace_upto; [exact E|done|]. intros ws ws' Hw. unfold ws_hello. destruct (ws_state ws); try done. by intros [= <- _].
      - unfold hello, on_workspace, workspace in E. destruct (s_workspaces s !! id) as [ws|] eqn:Ew; [|done].
        cbn [ok_or mbind result_bind] in E. unfold ws_hello in E. destruct (ws_state ws); try done. cbn in E. simplify_eq. cbn. by eapply Hs. }
    destruct (sends id greet); [|simplify_eq; split; [done|apply out_ok_nil]].
    destruct (send_greets sends s1 ids) as [[s2 out2] ok2] eqn:E2. injection H as <- <- <-.
    destruct (IH _ _ _ _ E2 Hs1) as [? ?]. split; [done|]. intros w m [Hm|Hm]%elem_of_cons; [by simplify_eq|by eauto].
Qed.

Lemma open_every_route_upto stores ids : ∀ s, logs_ok stores → sess_upto s (store_len stores) →
  sess_upto (open_every_route s stores ids) (store_len stores).
Proof using Type.
  unfold open_every_route. induction ids as [|id ids IH]; intros s Hl Hs; [done|]. cbn [foldl]. apply IH; [done|].
  destruct (stores !! id) as [r|] eqn:Er; [|done].
  destruct (open_workspace s id (heads (rt_log r))) as [s1|] eqn:E; [|done]. unfold open_workspace in E.
  destruct (_ && _); [done|]. injection E as <-. intros w ws. cbn [set_workspaces s_workspaces].
  intros [[<- <-]|[_ Hw]]%lookup_insert_Some; [|by eapply Hs]. cbn. unfold store_len. intros d. rewrite Er.
  apply heads_upto_log. by eapply Hl.
Qed.

Lemma link_frame_ok plen c now msg facts c' out ok :
  conn_ok plen c → dispatch_link_frame sends c now msg facts = (c', out, ok) →
  conn_ok plen c' ∧ stores_le (c_stores c) (c_stores c') ∧ out_ok (store_len (c_stores c')) out.
Proof using Type.
  intros [Hl Hh Hv]. unfold dispatch_link_frame.
  destruct (on_link_hello (c_session c) msg now) as [[s sk]|] eqn:E; [|intros [= <- <- <-]; split_and!; [done|reflexivity|apply out_ok_nil]].
  assert (s_workspaces s = s_workspaces (c_session c)) as Hws.
  { unfold on_link_hello in E. destruct (negb _); [done|]. destruct (s_peer _); [done|]. destruct msg; try done.
    destruct (negb _); [done|]. destruct (negb _); [done|]. destruct (Skew_check _ _); by simplify_eq. }
  assert (sess_upto s (store_len (c_stores c))) as Hs by (intros w ws Hw; rewrite Hws in Hw; by eapply Hh).
  destruct (s_peer s) as [peer|]; [|intros [= <- <- <-]; split_and!; [by split|reflexivity|apply out_ok_nil]].
  unfold greet_for_peer. destruct (pf_removed _); [intros [= <- <- <-]; split_and!; [by split|reflexivity|apply out_ok_nil]|].
  cbn [c_session c_stores c_live]. destruct (send_greets sends _ _) as [[s2 out2] ok2] eqn:E2.
  destruct (send_greets_ok _ _ _ _ _ _ E2 (open_every_route_upto _ _ _ Hl Hs)) as [Hs2 Ho].
  intros [= <- <- <-]. cbn [c_stores]. split_and!; [by split|reflexivity|done].
Qed.

Lemma workspace_frame_ok plen c now w msg vk disk commits c' out ok :
  conn_ok plen c → msg_ok (G w) (plen w) msg →
  dispatch_workspace_frame P sends c now w msg vk disk commits = (c', out, ok) →
  conn_ok plen c' ∧ stores_le (c_stores c) (c_stores c') ∧ out_ok (store_len (c_stores c')) out.
Proof using HG.
  intros Hc Hm. unfold dispatch_workspace_frame, conn_route.
  case_bool_decide; [|intros [= <- <- <-]; split_and!; [done|reflexivity|apply out_ok_nil]].
  destruct (c_stores c !! w) as [r|] eqn:Er; [|intros [= <- <- <-]; split_and!; [done|reflexivity|apply out_ok_nil]].
  destruct Hc as [Hl Hh Hv]. pose proof (observe_inv (G w) plen _ now w msg Hv Hm) as Hv'.
  destruct (handle_workspace_message P sends (c_session c) (rt_log r) w msg vk disk) as [[[s log] out1] ok1] eqn:E.
  intros [= <- <- <-]. cbn [c_stores].
  assert (log_ok (G w) log ∧ log_le (rt_log r) log ∧ sess_upto s (store_len (<[w:=mkRoute log commits]> (c_stores c)))
    ∧ out_ok (store_len (<[w:=mkRoute log commits]> (c_stores c))) out1) as (Hlog & Hle & Hs & Ho).
  { assert (∀ w' d, store_len (<[w:=mkRoute (rt_log r) commits]> (c_stores c)) w' d = store_len (c_stores c) w' d) as Hsame.
    { intros w' d. unfold store_len. destruct (decide (w = w')) as [<-|]; [by rewrite lookup_insert_eq, Er|by rewrite lookup_insert_ne]. }
    assert (∀ s, sess_upto s (store_len (c_stores c)) → sess_upto s (store_len (<[w:=mkRoute (rt_log r) commits]> (c_stores c)))) as Hkeep.
    { intros s0 Hs0. eapply sess_upto_mono; [|exact Hs0]. intros w' d. by rewrite Hsame. }
    unfold handle_workspace_message in E. destruct msg as [|w0 rs|w0 ops sigs rs|w0 rs|w0 hs|]; cbn [msg_ok] in Hm;
      try (injection E as <- <- <- <-; split_and!; [by eapply Hl|reflexivity|by apply Hkeep|apply out_ok_nil]).
    - destruct Hm as (Hg & Hlen & _). exact (handle_ops_ok _ _ _ _ _ _ _ _ _ _ commits _ _ _ _ Hl Er Hh Hg Hlen E).
    - unfold handle_greet in E. destruct (on_hello (c_session c) w (MGreet w0 hs)) as [[s1 want]|] eqn:E1;
        [|injection E as <- <- <- <-; split_and!; [by eapply Hl|reflexivity|by apply Hkeep|apply out_ok_nil]].
      unfold on_hello in E1. destruct (negb _); [done|]. destruct (s_peer _); [|done].
      assert (sess_upto s1 (store_len (c_stores c)) ∧ ∃ wr, want = MWant w wr) as [Hs1 [wr ->]].
      { split.
        - eapply on_workspace_upto; [exact E1|done|]. intros ws ws' Hw. unfold ws_on_hello. destruct (ws_state ws); try done.
          destruct (check_workspace _ _); cbn [mbind result_bind]; [|done]. by intros [= <- _].
        - unfold on_workspace, workspace in E1. destruct (s_workspaces _ !! w) as [ws|]; [|done]. cbn [ok_or mbind result_bind] in E1.
          unfold ws_on_hello in E1. destruct (ws_state ws); try done. destruct (check_workspace _ _); cbn in E1; [|done].
          simplify_eq. by eexists. }
      destruct (sends w _); injection E as <- <- <- <-; (split_and!; [by eapply Hl|reflexivity|by apply Hkeep|]); [|apply out_ok_nil].
      intros w' m Hm'%list_elem_of_singleton. by injection Hm' as -> ->. }
  split_and!; [|intros w' r'|done].
  - split; cbn [c_stores c_session c_live]; [|done|done].
    intros w' r' [[<- <-]|[_ Hr']]%lookup_insert_Some; [done|by eapply Hl].
  - intros Hr'. destruct (decide (w = w')) as [<-|Hne]; [|exists r'; by rewrite lookup_insert_ne].
    rewrite lookup_insert_eq. eexists. split; [done|]. cbn. by simplify_eq.
Qed.

Lemma conn_route_store c w r : conn_route c w = Some r → c_stores c !! w = Some r.
Proof using Type. unfold conn_route. by case_bool_decide. Qed.

(** A turn: the end stays good, its stores grow, and what it sends is true of them. *)
Lemma turn_ok plen c e frame c' out ok :
  conn_ok plen c → (∀ w m, frame = Some (w, m) → msg_ok (G w) (plen w) m) →
  turn P sends signing_key c e frame = (c', out, ok) →
  conn_ok plen c' ∧ stores_le (c_stores c) (c_stores c') ∧ out_ok (store_len (c_stores c')) out.
Proof using HG.
  intros Hc Hf. unfold turn.
  match goal with |- context [match frame with None => ?a | Some _ => _ end] => set (none := a) end.
  destruct (match frame with None => none | Some _ => _ end) as [[c1 out1] ok1] eqn:E1.
  assert (conn_ok plen c1 ∧ stores_le (c_stores c) (c_stores c1) ∧ out_ok (store_len (c_stores c1)) out1) as (Hc1 & Hle1 & Ho1).
  { destruct frame as [[w m]|].
    - assert (conn_ok plen (mkConn (c_session c) (heard (c_live c) (e_now e)) (c_routes c) (c_stores c))) as Hc0.
      { destruct Hc as [? ? Hv]. split; [done|done|exact Hv]. }
      destruct (w =? LINK_WORKSPACE); [by apply (link_frame_ok _ _ _ _ _ _ _ _ Hc0 E1)|].
      exact (workspace_frame_ok _ _ _ _ _ _ _ _ _ _ _ Hc0 (Hf w m eq_refl) E1).
    - unfold none in E1. injection E1 as <- <- <-. split_and!; [done|reflexivity|apply out_ok_nil]. }
  clear E1. destruct ok1; cbn [negb]; [|intros [= <- <- <-]; done].
  destruct (tick P sends signing_key (c_live c1) (conn_route c1) (e_now e) (e_superseded e)) as [[live out2] ok2] eqn:E2.
  intros [= <- <- <-]. cbn [c_stores]. destruct Hc1 as [Hl Hh Hv].
  destruct (tick_ok plen (conn_route c1) (c_stores c1) _ _ _ _ _ _ Hv Hl (conn_route_store c1) E2) as (Hv2 & _ & _ & Ho2).
  split_and!; [by split|done|by apply out_ok_app].
Qed.

(** ** The whole system *)

Record net_ok (n : Net) : Prop := {
  no_me : conn_ok (store_len (c_stores (n_you n))) (n_me n);
  no_you : conn_ok (store_len (c_stores (n_me n))) (n_you n);
  no_out : out_ok (store_len (c_stores (n_me n))) (n_out n);
  no_in : out_ok (store_len (c_stores (n_you n))) (n_in n)
}.

(** No end loses an op. *)
Definition net_le (n n' : Net) : Prop :=
  stores_le (c_stores (n_me n)) (c_stores (n_me n')) ∧ stores_le (c_stores (n_you n)) (c_stores (n_you n')).

#[export] Instance net_le_preorder : PreOrder net_le.
Proof using Type. split; [intros n; split; reflexivity|intros a b c [? ?] [? ?]; split; by etrans]. Qed.

(** A commit outside the connection extends stores, and leaves them good. *)
Definition move_ok (n : Net) (m : Move) : Prop :=
  match m with
  | MStores mine stores =>
      logs_ok stores ∧ stores_le (c_stores (if mine then n_me n else n_you n)) stores
  | _ => True
  end.

Lemma net_ok_swap n : net_ok n → net_ok (net_swap n).
Proof using Type. intros [? ? ? ?]. by split. Qed.

Lemma net_le_swap n n' : net_le (net_swap n) n' → net_le n (net_swap n').
Proof using Type. intros [? ?]. by split. Qed.

Lemma live_inv_mono plen plen' l : (∀ w d, plen w d ≤ plen' w d)%nat → live_inv plen l → live_inv plen' l.
Proof using Type.
  intros Hle H w. destruct (H w) as (Hu & H1 & H2). split_and!; [|done|done]. eapply heads_upto_mono; [by apply Hle|done].
Qed.

Lemma conn_ok_mono plen plen' c : (∀ w d, plen w d ≤ plen' w d)%nat → conn_ok plen c → conn_ok plen' c.
Proof using Type. intros Hle [? ? H]. split; [done..|]. by eapply live_inv_mono. Qed.

Lemma stores_le_lens a b : stores_le a b → ∀ w d, (store_len a w d ≤ store_len b w d)%nat.
Proof using Type. intros H w d. by apply stores_le_len. Qed.

Lemma my_turn_ok n deliver e : net_ok n → net_ok (my_turn P sends signing_key deliver e n) ∧ net_le n (my_turn P sends signing_key deliver e n).
Proof using HG.
  intros [Ha Hb Ho Hi]. unfold my_turn. destruct (n_up n); cbn [negb]; [|split; [by split|reflexivity]].
  destruct (match deliver, n_in n with true, f :: rest => (Some f, rest) | _, q => (None, q) end) as [frame rest] eqn:E1.
  assert ((∀ w m, frame = Some (w, m) → msg_ok (G w) (store_len (c_stores (n_you n)) w) m)
    ∧ out_ok (store_len (c_stores (n_you n))) rest) as [Hf Hrest].
  { destruct deliver; [|by simplify_eq]. destruct (n_in n) as [|f q] eqn:Ei; simplify_eq; [done|]. split.
    - intros w m [= ->]. apply Hi. by left.
    - intros w m Hm. apply Hi. by right. }
  destruct (turn P sends signing_key (n_me n) e frame) as [[c out] ok] eqn:E2.
  destruct (turn_ok _ _ _ _ _ _ _ Ha Hf E2) as (Hc & Hle & Hout). split; [|by split].
  split; cbn [n_me n_you n_out n_in]; [done| | |done].
  - eapply conn_ok_mono; [|exact Hb]. by apply stores_le_lens.
  - apply out_ok_app; [|done]. eapply out_ok_mono; [|exact Ho]. by apply stores_le_lens.
Qed.

Lemma my_stores_ok n stores : net_ok n → logs_ok stores → stores_le (c_stores (n_me n)) stores →
  net_ok (my_stores stores n) ∧ net_le n (my_stores stores n).
Proof using Type.
  intros [[Hl Hh Hv] Hb Ho Hi] Hs Hle. split; [|split; [done|reflexivity]]. pose proof (stores_le_lens _ _ Hle) as Hlen.
  split; cbn [my_stores n_me n_you n_out n_in c_stores]; [|by eapply conn_ok_mono|by eapply out_ok_mono|done].
  split; [done|by eapply sess_upto_mono|done].
Qed.

Lemma connect_ok plen c wall now c' out : conn_ok plen c → connect c wall now = (c', out) →
  conn_ok plen c' ∧ c_stores c' = c_stores c ∧ ∀ len, out_ok len out.
Proof using Type.
  intros [Hl Hh Hv]. unfold connect. cbn. intros [= <- <-]. split_and!; [|done|].
  - split; cbn; [done| |apply live_inv_new]. intros w ws. cbn. by rewrite lookup_empty.
  - intros len w m Hm%list_elem_of_singleton. by injection Hm as -> ->.
Qed.

Lemma net_move_ok n m : net_ok n → move_ok n m → net_ok (net_move P sends signing_key n m) ∧ net_le n (net_move P sends signing_key n m).
Proof using HG.
  intros Hn Hm. destruct m as [mine deliver e|mine stores| |wa wb now]; cbn [net_move].
  - destruct mine; cbn [on_side]; [by apply my_turn_ok|].
    destruct (my_turn_ok (net_swap n) deliver e (net_ok_swap _ Hn)) as [? ?].
    split; [by apply net_ok_swap|by apply net_le_swap].
  - destruct Hm as [Hs Hle]. destruct mine; cbn [on_side]; [by apply my_stores_ok|].
    destruct (my_stores_ok (net_swap n) stores (net_ok_swap _ Hn) Hs Hle) as [? ?].
    split; [by apply net_ok_swap|by apply net_le_swap].
  - destruct Hn as [? ? ? ?]. split; [|split; reflexivity]. split; [done..| |]; apply out_ok_nil.
  - destruct (n_up n); [split; [done|reflexivity]|]. destruct Hn as [Ha Hb Ho Hi].
    destruct (connect (n_me n) wa now) as [a ab] eqn:Ea. destruct (connect (n_you n) wb now) as [b ba] eqn:Eb.
    destruct (connect_ok _ _ _ _ _ _ Ha Ea) as (Ha' & Hsa & Hoa). destruct (connect_ok _ _ _ _ _ _ Hb Eb) as (Hb' & Hsb & Hob).
    split; [|by split; cbn; rewrite ?Hsa, ?Hsb].
    split; cbn [n_me n_you n_out n_in]; rewrite ?Hsa, ?Hsb; auto.
Qed.

(** Moves made one after the other, each possible where it is made. *)
Inductive moves_ok : Net → list Move → Prop :=
| moves_nil n : moves_ok n []
| moves_cons n m ms : move_ok n m → moves_ok (net_move P sends signing_key n m) ms → moves_ok n (m :: ms).

Lemma net_run_ok n ms : net_ok n → moves_ok n ms → net_ok (net_run P sends signing_key n ms) ∧ net_le n (net_run P sends signing_key n ms).
Proof using HG.
  intros Hn Hms. induction Hms as [n|n m ms Hm Hms IH]; [split; [done|reflexivity]|].
  destruct (net_move_ok n m Hn Hm) as [Hn' Hle]. destruct (IH Hn') as [? ?]. split; [done|]. by etrans.
Qed.
End keeping.

(** An end that was never connected. *)
Definition unconnected (dev : DeviceId) (group : GroupId) (stores : gmap WorkspaceId Route) : Conn :=
  mkConn (Session_new dev group) (Live_new 0) ∅ stores.

(** What one end can say of itself and of the other. *)
Record keeps (G : WorkspaceId → DeviceId → list Op) (c other : Conn) : Prop := {
  ks_stores w r d : c_stores c !! w = Some r →
    dense (rt_log r) ∧ NoDup (log_ids (rt_log r)) ∧ run_of (rt_log r) d `prefix_of` G w d;
  ks_held w d : head_at (heads_of (l_held (c_live c)) w) d <= N.of_nat (store_len (c_stores other) w d);
  ks_heads w ws d : s_workspaces (c_session c) !! w = Some ws →
    head_at (ws_heads ws) d <= N.of_nat (store_len (c_stores c) w d)
}.

Lemma conn_ok_keeps G c other : conn_ok G (store_len (c_stores other)) c → keeps G c other.
Proof.
  intros [Hl Hh Hv]. split.
  - intros w r d Hr. by destruct (Hl w r Hr).
  - intros w. apply Hv.
  - intros w ws d Hw. by eapply Hh.
Qed.

(** C2. Two devices on a link that drops, comes back and delays what it carries, each also written to by
    others: whatever moves are made, each store holds of every device a first part of what that device
    wrote, numbered without a hole, each op once; nothing stored is lost; no device counts as held by
    the other an op the other has not stored; and no session counts as its own an op its store lacks. *)
Theorem sync_keeps_stores_whole (P : Primitives) (sends : WorkspaceId → Message → bool) (key : DeviceSigningKey)
  (G : WorkspaceId → DeviceId → list Op) (dev_a dev_b : DeviceId) (group : GroupId)
  (stores_a stores_b : gmap WorkspaceId Route) (ms : list Move) :
  let n := mkNet (unconnected dev_a group stores_a) (unconnected dev_b group stores_b) [] [] false in
  let n' := net_run P sends key n ms in
  (∀ w, origins_ok (G w)) → logs_ok G stores_a → logs_ok G stores_b → moves_ok P sends key G n ms →
  net_le n n' ∧ keeps G (n_me n') (n_you n') ∧ keeps G (n_you n') (n_me n').
Proof.
  intros n n' HG Ha Hb Hms. assert (net_ok G n) as Hn.
  { split; cbn; [| |apply out_ok_nil|apply out_ok_nil];
      (split; [done|intros w ws; cbn; by rewrite lookup_empty|apply live_inv_new]). }
  destruct (net_run_ok P sends key G HG n ms Hn Hms) as [[Ha' Hb' _ _] Hle].
  split_and!; [done|by apply conn_ok_keeps..].
Qed.

(** Device 7 has written one op in workspace 9, device 8 none. *)
Definition sample_origins (w : WorkspaceId) (d : DeviceId) : list Op :=
  if (w =? 9) && (d =? 7) then [sample_op 1 7 1] else [].
Definition sample_env (t : N) : Env :=
  mkEnv t t false [x05] (λ _, DiskOk) 1 (λ _, mkPeerFacts false true (λ _, false)).
Definition sample_net : Net :=
  mkNet (unconnected 7 3 {[9 := mkRoute [mkRow (sample_op 1 7 1) 1 None] 0]})
    (unconnected 8 3 {[9 := mkRoute [] 0]}) [] [] false.
Definition sample_moves : list Move :=
  MConnect 100 100 0 :: map (λ p, MTurn (fst p) true (sample_env (snd p)))
    [(false, 1); (true, 1); (true, 2); (false, 2); (false, 3); (false, 4); (true, 4); (true, 5); (false, 5); (true, 5)].

Lemma sample_origins_lookup w d i o : sample_origins w d !! i = Some o → w = 9 ∧ d = 7 ∧ i = 0%nat ∧ o = sample_op 1 7 1.
Proof.
  unfold sample_origins. destruct (N.eqb_spec w 9), (N.eqb_spec d 7); cbn [andb]; try (by intros [=]).
  intros H. apply list_lookup_singleton_Some in H as [-> <-]. done.
Qed.

Lemma sample_origins_ok w : origins_ok (sample_origins w).
Proof.
  split.
  - intros d i d' i' o o' (_ & -> & -> & _)%sample_origins_lookup (_ & -> & -> & _)%sample_origins_lookup _. done.
  - by intros d i o (_ & -> & _ & ->)%sample_origins_lookup.
Qed.

Lemma sample_moves_ok n : moves_ok sample_primitives (λ _ _, true) [x05] sample_origins n sample_moves.
Proof. unfold sample_moves. cbn [map fst snd]. repeat (constructor; [exact I|]). constructor. Qed.

Lemma sample_log_ok w (log : OpLog) : (log = [] ∨ w = 9 ∧ log = [mkRow (sample_op 1 7 1) 1 None]) → log_ok (sample_origins w) log.
Proof.
  intros [->|[-> ->]]; (split; [intros d| |intros d]).
  - done.
  - constructor.
  - by apply prefix_nil.
  - unfold device_rows. cbn [List.filter]. change (row_device (mkRow (sample_op 1 7 1) 1 None)) with 7. by destruct (7 =? d).
  - apply NoDup_singleton.
  - unfold run_of, device_rows, sample_origins. cbn [List.filter]. change (row_device (mkRow (sample_op 1 7 1) 1 None)) with 7.
    rewrite N.eqb_sym. by destruct (d =? 7).
Qed.

Lemma sync_keeps_stores_whole_witness :
  let n' := net_run sample_primitives (λ _ _, true) [x05] sample_net sample_moves in
  keeps sample_origins (n_me n') (n_you n') ∧ store_len (c_stores (n_you n')) 9 7 = 1%nat.
Proof.
  intros n'. split; [|vm_compute; reflexivity].
  refine (proj1 (proj2 (sync_keeps_stores_whole sample_primitives (λ _ _, true) [x05] sample_origins 7 8 3
    {[9 := mkRoute [mkRow (sample_op 1 7 1) 1 None] 0]} {[9 := mkRoute [] 0]} sample_moves sample_origins_ok _ _ _))).
  - intros w r [<- <-]%lookup_singleton_Some. apply sample_log_ok. by right.
  - intros w r [<- <-]%lookup_singleton_Some. apply sample_log_ok. by left.
  - apply sample_moves_ok.
Defined.
