(* ===== verification/SyncLive.v ===== *)
(** That the link gets ops across: once both ends carry a workspace, a round of the daemon's loop (a turn
    of one end when what it sent has had its time, then turns in any order that hand the other end what
    was sent and hand its answers back) raises what the first counts held. So after as many rounds as
    there are ops, the other end stores all that the first did.

    The hypotheses are on the schedule alone: the link stays up for those rounds, the disks take what
    lands, turns are delivered, and no greeting is left to come. Which batches are sent, refused, sent
    again after [RESEND_AFTER] and acked is the code's. *)
From S2P Require Import Prelude.
From S2P Require Import Hlc.
From S2P Require Import Ops.
From S2P Require Import OpLog.
From S2P Require Import Frame.
From S2P Require Import Message.
From S2P Require Import Sealed.
From S2P Require Import Session.
From S2P Require Import LiveSync.
From S2P Require Import SyncBatch.
From S2P Require Import SyncSafe.

#[local] Open Scope N_scope.

(** ** Heads of a small log are all of them *)

Lemma list_to_map_in_key_order {A} (m : gmap N A) : list_to_map (in_key_order m) = m.
Proof.
  transitivity (list_to_map (map_to_list m) : gmap N A); [|apply list_to_map_to_list].
  apply list_to_map_proper; [|apply stable_sort_perm].
  assert (in_key_order m ≡ₚ map_to_list m) as Hp by apply stable_sort_perm.
  change (NoDup (fst <$> in_key_order m)). rewrite Hp. apply NoDup_fst_map_to_list.
Qed.

Lemma head_of_zero log d : run_of log d = [] → head_of log d = 0.
Proof. unfold run_of, head_of. intros H. by apply map_eq_nil in H as ->. Qed.

Lemma list_to_set_size (l : list DeviceId) : (size (list_to_set (C := gset N) l) ≤ length l)%nat.
Proof.
  induction l as [|x l IH]; [done|]. cbn [list_to_set length]. rewrite size_union_alt, size_singleton.
  pose proof (subseteq_size (list_to_set (C := gset N) l ∖ {[x]}) (list_to_set l)) as Hs.
  specialize (Hs ltac:(set_solver)). lia.
Qed.

(** A log of at most as many devices as are listed. *)
Definition few_devices (log : OpLog) : Prop :=
  ∃ devs : list DeviceId, (length devs ≤ MAX_DEVICES_PER_HEADS)%nat ∧ ∀ d, d ∉ devs → run_of log d = [].

Lemma heads_complete log d : dense log → few_devices log → head_at (heads log) d = N.of_nat (log_len log d).
Proof.
  intros Hd (devs & Hlen & Hout).
  assert (heads log = head_groups log) as ->.
  { unfold heads. rewrite take_ge; [apply list_to_map_in_key_order|].
    unfold in_key_order. rewrite (Permutation_length (stable_sort_perm _ _)), length_map_to_list.
    etrans; [|exact Hlen]. assert (dom (head_groups log) ⊆ list_to_set (C := gset N) devs) as Hsub.
    { intros x. rewrite elem_of_dom, elem_of_list_to_set. intros [v Hv]. destruct (decide (x ∈ devs)) as [|Hn]; [done|].
      exfalso. specialize (Hout x Hn). unfold run_of, device_rows in Hout. apply map_eq_nil in Hout.
      unfold head_groups in Hv. revert Hv Hout. generalize (head_of log) as f. clear. intros f. induction log as [|r l IH]; cbn; [by rewrite lookup_empty|].
      intros [[<- _]|[_ Hv]]%lookup_insert_Some; [by rewrite N.eqb_refl|]. destruct (row_device r =? x); [done|]. by apply IH. }
    apply subseteq_size in Hsub. rewrite size_dom in Hsub. etrans; [exact Hsub|]. apply list_to_set_size. }
  unfold head_at. destruct (head_groups log !! d) as [v|] eqn:E; cbn.
  - apply (head_groups_lookup (head_of log)) in E as ->. by apply head_of_dense.
  - destruct (run_of log d) as [|o os] eqn:Er; [unfold log_len; by rewrite Er|].
    exfalso. assert (o ∈ run_of log d) as Ho by (rewrite Er; by left). unfold run_of in Ho.
    rewrite list_elem_of_In, in_map_iff in Ho. destruct Ho as (r & _ & Hr). apply list_elem_of_In, device_rows_elem in Hr as [Hr <-].
    unfold head_groups in E. rewrite (head_groups_elem (head_of log) log r Hr) in E. done.
Qed.

(** What is wanted, whatever the number of devices. *)
Lemma want_from_sound local remote room r : r ∈ want_from local remote room →
  ∃ h, (r_device r, h) ∈ remote ∧ head_at local (r_device r) < h ∧ r_first r = head_at local (r_device r) + 1 ∧ r_last r = h.
Proof.
  revert room. induction remote as [|[d h] remote IH]; intros room; [by intros ?%elem_of_nil|].
  destruct room as [|room]; [by intros ?%elem_of_nil|]. cbn [want_from]. destruct (N.ltb_spec (head_at local d) h).
  - intros [->|Hin]%elem_of_cons; [exists h; cbn [r_device r_first r_last]; split; [by left|done]|].
    destruct (IH _ Hin) as (h' & ? & ?). exists h'. split; [by right|done].
  - intros Hin. destruct (IH _ Hin) as (h' & ? & ?). exists h'. split; [by right|done].
Qed.

Lemma want_sound local remote r : r ∈ want local remote →
  r_first r = head_at local (r_device r) + 1 ∧ r_last r = head_at remote (r_device r) ∧ r_first r <= r_last r.
Proof.
  intros Hr. apply want_from_sound in Hr as (h & Hh & Hlt & Hf & Hl). apply in_key_order_elem in Hh.
  rewrite (head_at_Some _ _ _ Hh). split_and!; [done|done|lia].
Qed.

Lemma size_heads log : (size (heads log) ≤ MAX_WANT_RANGES)%nat.
Proof.
  unfold heads. set (l := take _ _). assert (length l ≤ MAX_WANT_RANGES)%nat as Hl by (unfold l; rewrite length_take; apply Nat.le_min_l).
  etrans; [|exact Hl]. clear. induction l as [|[k v] l IH]; [done|]. cbn [list_to_map foldr length].
  change (foldr (λ p, <[p.1:=p.2]>) ∅ l) with (list_to_map l : gmap N N). rewrite map_size_insert. cbn [fst snd].
  destruct (list_to_map l !! k); cbn in *; lia.
Qed.

(** ** Pushing when due *)

Lemma in_flight_ops_none l w : in_flight l w = false → in_flight_ops l w = 0.
Proof.
  intros H. unfold in_flight, in_flight_ops in *. destruct (l_sent l !! w) as [sent|]; [|done].
  induction (in_key_order sent) as [|p ps IH]; [done|]. cbn in *. apply orb_false_iff in H as [Hp Hps].
  apply N.ltb_ge in Hp. rewrite IH by done. lia.
Qed.

Lemma in_flight_view l l' w : live_view l w = live_view l' w → in_flight l w = in_flight l' w.
Proof. unfold live_view, in_flight, heads_of. by intros [= -> -> _]. Qed.

(** What was sent has had its time to be acked, and a sweep of the store is due. *)
Definition due (l : Live) (w : WorkspaceId) (now : N) : Prop :=
  (∀ since, l_waiting_since l !! w = Some since → RESEND_AFTER <= now - since) ∧ HEARTBEAT <= now - l_last_sweep l.

Definition same_heads (a b : Heads) : Prop := ∀ d, head_at a d = head_at b d.

(** Once due, nothing counts as sent that is not held. *)
Lemma rewind_due plen l w now :
  live_at plen l w → (∀ since, l_waiting_since l !! w = Some since → RESEND_AFTER <= now - since) →
  let l' := fst (rewind_if_stalled l w now) in
  same_heads (heads_of (l_sent l') w) (heads_of (l_held l) w) ∧ l_held l' = l_held l ∧ l_asked l' = l_asked l
  ∧ in_flight l' w = false.
Proof.
  intros (_ & Hle & Hw) Hdue. cbv zeta.
  assert (∀ l0 : Live, l_held l0 = l_held l → l_sent l0 = l_sent l → in_flight l0 w = false → 
    same_heads (heads_of (l_sent l0) w) (heads_of (l_held l) w)) as Hsame.
  { intros l0 Hh Hs Hf d. specialize (Hle d). rewrite Hs. destruct (N.lt_trichotomy (head_at (heads_of (l_held l) w) d) (head_at (heads_of (l_sent l) w) d)) as [H|[H|H]]; [|done|lia].
    assert (in_flight l0 w = true) by (apply in_flight_iff; exists d; by rewrite Hh, Hs). congruence. }
  unfold rewind_if_stalled. destruct (l_waiting_since l !! w) as [since|] eqn:E.
  - rewrite (proj2 (N.ltb_ge _ _) (Hdue since eq_refl)). set (l2 := set_waiting _ _). destruct (in_flight l2 w) eqn:Ei; cbn [negb fst].
    + split_and!; [|done|done|].
      * cbn [set_sent l_sent]. rewrite heads_of_insert, N.eqb_refl. by intros d.
      * apply not_true_iff_false. intros (d & Hd)%in_flight_iff. cbn in Hd. rewrite heads_of_insert, N.eqb_refl in Hd. lia.
    + split_and!; [|done|done|done]. by apply Hsame.
  - cbn [fst]. assert (in_flight l w = false) as Hf.
    { apply not_true_iff_false. intros Ht. destruct (Hw Ht) as [? ?]. done. }
    split_and!; [|done|done|done]. by apply Hsame.
Qed.

Lemma batch_ops_nonempty log runs ops ranges : batch_inv log runs ops ranges → (∀ R, R ∈ runs → 1 <= r_first R) → ranges ≠ [] → ops ≠ [].
Proof.
  intros [-> _ Hfrom] H1 Hne. destruct ranges as [|r rs]; [done|]. destruct (Hfrom r ltac:(by left)) as (R & HR & _ & Hf & Hfl & _ & Hl).
  specialize (H1 R HR). unfold batch_ops. cbn. intros [Hn _]%app_nil. apply (f_equal length) in Hn. unfold range_ops in Hn.
  rewrite slice_length in Hn by lia. simpl in Hn. lia.
Qed.

Definition is_greet (m : Message) : bool := match m with MGreet _ _ => true | _ => false end.
Definition is_want (m : Message) : bool := match m with MWant _ _ => true | _ => false end.

Lemma observe_held w l now w' m : (w' = w → is_greet m = false) →
  heads_le (heads_of (l_held l) w) (heads_of (l_held (observe l now w' m)) w).
Proof.
  intros Hg. destruct (decide (w' = w)) as [->|Hne].
  - specialize (Hg eq_refl). destruct m; cbn [observe is_greet] in *; try done.
    + cbn. intros d. rewrite heads_of_insert, N.eqb_refl, raise_at. lia.
    + rewrite note_acked_held. case_bool_decide; [done|]. intros d. rewrite heads_of_insert, N.eqb_refl, raise_at. lia.
  - pose proof (observe_other l now w' m w Hne) as Ho. unfold live_view in Ho. injection Ho as Hh _ _. unfold heads_of. by rewrite Hh.
Qed.

Lemma observe_ready l now w' m : l_ready l ⊆ l_ready (observe l now w' m).
Proof.
  destruct m; cbn [observe]; try done; [cbn; set_solver|]. unfold note_acked. case_bool_decide; [done|]. by destruct (in_flight _ _).
Qed.

Lemma observe_asked w l now w' m : (w' = w → is_want m = false) → l_asked (observe l now w' m) !! w = l_asked l !! w.
Proof.
  intros Hm. destruct m; cbn [observe]; try done.
  - cbn. rewrite lookup_insert_ne; [done|]. intros He. by specialize (Hm He).
  - unfold note_acked. case_bool_decide; [done|]. by destruct (in_flight _ _).
Qed.

(** Catching up with the store leaves no head below it. *)
Lemma foldl_raised (held : Heads) l : ∀ (h : Heads) d,
  (∀ r, r ∈ l → r_last r = head_at held (r_device r)) →
  head_at (foldl (λ h r, <[r_device r := r_last r]> h) h l) d
  = if bool_decide (d ∈ map r_device l) then head_at held d else head_at h d.
Proof.
  induction l as [|r l IH]; intros h d Hl; [done|]. cbn [foldl map]. rewrite IH by (intros; apply Hl; by right).
  rewrite head_at_insert, (Hl r) by by left. case_bool_decide as H1.
  - rewrite bool_decide_eq_true_2; [done|by right].
  - destruct (N.eqb_spec (r_device r) d) as [<-|Hne]; [by rewrite bool_decide_eq_true_2 by by left|].
    rewrite bool_decide_eq_false_2; [done|]. rewrite elem_of_cons. naive_solver.
Qed.

Lemma ws_catch_up_reaches ws held d :
  ws_state ws ≠ Importing → head_at held d <= head_at (ws_heads (ws_catch_up ws held)) d.
Proof.
  intros Hs. unfold ws_catch_up. set (ahead := map _ _).
  assert (head_at held d <= head_at (foldl (λ h r, <[r_device r := r_last r]> h) (ws_heads ws) ahead) d) as H.
  { rewrite (foldl_raised held).
    - case_bool_decide as Hin; [done|]. destruct (N.le_gt_cases (head_at held d) (head_at (ws_heads ws) d)) as [|Hlt]; [done|].
      exfalso. apply Hin. destruct (held !! d) as [v|] eqn:Ev; [|rewrite (head_at_None _ _ Ev) in Hlt; lia].
      rewrite (head_at_Some _ _ _ Ev) in Hlt. rewrite list_elem_of_In. apply in_map_iff. exists (mkRange d 1 v). split; [done|].
      apply in_map_iff. exists (d, v). split; [done|]. apply List.filter_In. split; [by apply list_elem_of_In, in_key_order_elem|].
      cbn. by apply N.ltb_lt.
    - intros r Hr. unfold ahead in Hr. rewrite list_elem_of_In, in_map_iff in Hr. destruct Hr as ([d' v] & <- & Hp).
      apply List.filter_In in Hp as [Hp _]. apply list_elem_of_In, in_key_order_elem in Hp. cbn. by rewrite (head_at_Some _ _ _ Hp). }
  by destruct (ws_state ws).
Qed.

Lemma ws_catch_up_state ws held : ws_state (ws_catch_up ws held) = Importing ↔ ws_state ws = Importing.
Proof. unfold ws_catch_up. destruct (ws_state ws) eqn:E; cbn; [done|done| |by rewrite E]. by destruct (consume _ _). Qed.

(** Runs that all come right after the heads are accepted; so a batch that is refused names one that is
    held. *)
Lemma advance_all_next ranges : ∀ heads,
  NoDup (map r_device ranges) → (∀ r, r ∈ ranges → r_first r = head_at heads (r_device r) + 1 ∧ r_first r <= r_last r) →
  is_Some (result_ok (advance_all heads ranges)).
Proof.
  induction ranges as [|r rs IH]; intros heads Hnd Hr; [by eexists|]. cbn [advance_all map] in *. apply NoDup_cons in Hnd as [Hni Hnd].
  destruct (Hr r) as [Hf Hl]; [by left|]. assert (advance heads r = Ok (<[r_device r := r_last r]> heads)) as ->.
  { apply advance_Ok. split_and!; [lia|lia|done]. }
  cbn [mbind result_bind]. apply IH; [done|]. intros x Hx. rewrite head_at_insert.
  destruct (N.eqb_spec (r_device r) (r_device x)) as [He|]; [|apply Hr; by right].
  exfalso. apply Hni. rewrite He, list_elem_of_In. apply in_map. by apply list_elem_of_In.
Qed.

Lemma holding_runs_spec heads rs : ∀ held,
  (∀ x, x ∈ holding_runs heads rs held → x ∈ held ∨ ∃ r, r ∈ rs ∧ r_first r <= head_at heads (r_device r) ∧ x = mkRange (r_device r) 1 (head_at heads (r_device r)))
  ∧ (held ≠ [] ∨ (∃ r, r ∈ rs ∧ r_first r <= head_at heads (r_device r)) → holding_runs heads rs held ≠ []).
Proof.
  induction rs as [|r rs IH]; intros held.
  - split; [by left|]. intros [?|(r & ?%elem_of_nil & _)]; done.
  - cbn [holding_runs]. destruct (_ && _) eqn:E.
    + apply andb_prop in E as [E _]. apply N.leb_le in E. destruct (IH (held ++ [mkRange (r_device r) 1 (head_at heads (r_device r))])) as [H1 H2]. split.
      * intros x Hx. destruct (H1 x Hx) as [[?|Hx']%elem_of_app|(r' & ? & ?)]; [by left| |right; exists r'; split; [by right|done]].
        apply list_elem_of_singleton in Hx' as ->. right. exists r. split; [by left|done].
      * intros _. apply H2. left. by destruct held.
    + destruct (IH held) as [H1 H2]. split.
      * intros x Hx. destruct (H1 x Hx) as [|(r' & ? & ?)]; [by left|right]. exists r'. split; [by right|done].
      * intros [?|(r' & [->|Hr']%elem_of_cons & Hle)]; [apply H2; by left| |apply H2; right; by exists r'].
        apply andb_false_iff in E as [E|E]; [apply N.leb_gt in E; lia|]. apply H2. left. by destruct held.
Qed.

Lemma find_covered (ranges : list OriginRange) : find (λ r, negb (covered ranges r)) ranges = None.
Proof.
  destruct (find _ ranges) as [r|] eqn:E; [|done]. apply find_some in E as [Hin Hn]. exfalso. apply negb_true_iff in Hn.
  assert (covered ranges r = true) as Ht; [|congruence]. unfold covered. apply existsb_exists. exists r. split; [done|].
  by rewrite N.eqb_refl, !N.leb_refl.
Qed.

Lemma sum_list_lt (f g : DeviceId → nat) (l : list DeviceId) x : (∀ d, f d ≤ g d)%nat → x ∈ l → (f x < g x)%nat →
  (sum_list (map f l) < sum_list (map g l))%nat.
Proof.
  intros Hle Hx Hlt. induction l as [|d l IH]; [by apply elem_of_nil in Hx|]. cbn.
  assert (∀ l, sum_list (map f l) ≤ sum_list (map g l))%nat as Hs.
  { clear -Hle. induction l as [|d l IH]; [done|]. cbn. specialize (Hle d). lia. }
  specialize (Hs l). pose proof (Hle d). apply elem_of_cons in Hx as [->|Hx]; [lia|]. specialize (IH Hx). lia.
Qed.

Section progress.
Context (P : Primitives) (sends : WorkspaceId → Message → bool) (signing_key : DeviceSigningKey).
Context (G : WorkspaceId → DeviceId → list Op) (HG : ∀ w, origins_ok (G w)).
Context (signs : ∀ ops, is_Some (sign_ops P ops signing_key)).
Context (w : WorkspaceId) (Hw0 : w ≠ LINK_WORKSPACE).

(** A batch that follows what is held, run by run. *)
Definition follows (held : Heads) (m : Message) : Prop :=
  match m with
  | MOps _ _ _ rs => rs ≠ [] ∧ ∀ r, r ∈ rs → r_first r = head_at held (r_device r) + 1
  | _ => False
  end.

(** A push that is due, of a store that has more than is held. *)
Lemma push_due plen l r now l' out :
  live_inv plen l → log_ok (G w) (rt_log r) → few_devices (rt_log r) →
  (∀ since, l_waiting_since l !! w = Some since → RESEND_AFTER <= now - since) →
  (∀ asked d, l_asked l !! w = Some asked →
     head_at asked d <= N.max (head_at (heads_of (l_held l) w) d) (N.of_nat (log_len (rt_log r) d))) →
  (∃ d, head_at (heads_of (l_held l) w) d < N.of_nat (log_len (rt_log r) d)) →
  push P sends signing_key l (Some r) w now true = (l', out, true) →
  ∃ m, (w, m) ∈ out ∧ follows (heads_of (l_held l) w) m.
Proof using signs Hw0.
  intros Hl Hlog Hfew Hdue Hasked (d0 & Hlag). unfold push.
  destruct (rewind_due _ _ _ _ (Hl w) Hdue) as (Hsame & Hheld & Hask & Hnf).
  destruct (rewind_if_stalled l w now) as [l1 rewound]. cbn [fst] in *. cbn [orb negb].
  set (l2 := set_seen _ _). match goal with |- context [next_runs l2 w ?x] => set (local := x) end.
  assert (local = heads (rt_log r)) as Hlocal.
  { unfold local. destruct (l_seen_commits l1 !! w) as [[c hs]|]; [|done]. by rewrite andb_false_r. }
  destruct (next_runs_want l2 w local) as (l3 & remote & -> & Hl3 & Hrem & Hremne).
  set (runs := want (heads_of (l_sent l2) w) remote).
  assert (∃ R, R ∈ runs ∧ r_first R <= r_last R ∧ r_first R <= N.of_nat (log_len (rt_log r) (r_device R))) as (R & HR & HRl & HRf).
  { destruct (decide (remote = local)) as [->|Hne].
    - destruct runs as [|R rs] eqn:Eruns.
      + exfalso. unfold runs in Eruns. rewrite Hlocal in Eruns. apply want_nil with (d := d0) in Eruns; [|apply size_heads].
        rewrite heads_complete in Eruns by (apply Hlog || done). change (l_sent l2) with (l_sent l1) in Eruns. rewrite Hsame in Eruns. lia.
      + exists R. assert (R ∈ runs) as HR by (rewrite Eruns; by left). split; [by left|]. apply want_sound in HR as (Hf & Hla & Hle).
        rewrite Hlocal, heads_complete in Hla by (apply Hlog || done). split; [done|]. lia.
    - destruct Hrem as [|Hrem]; [done|]. specialize (Hremne Hne). fold runs in Hremne. destruct runs as [|R rs] eqn:Eruns; [done|].
      exists R. assert (R ∈ runs) as HR by (rewrite Eruns; by left). split; [by left|]. apply want_sound in HR as (Hf & Hla & Hle).
      split; [done|]. change (l_asked l2) with (l_asked l1) in Hrem. rewrite Hask in Hrem. specialize (Hasked remote (r_device R) Hrem).
      change (l_sent l2) with (l_sent l1) in Hf. rewrite Hsame in Hf. lia. }
  cbv zeta. rewrite bool_decide_eq_false_2 by (intros Hn; rewrite Hn in HR; by apply elem_of_nil in HR).
  assert (in_flight_ops (set_pending l3 ({[w]} ∪ l_pending l3)) w = 0) as ->.
  { apply in_flight_ops_none. destruct Hl3 as [->| ->]; exact Hnf. }
  change (WINDOW_BATCHES * N.of_nat MAX_OPS_PER_BATCH <=? 0) with false.
  destruct (want_runs (heads_of (l_sent l2) w) remote) as [Hnd H1].
  destruct (served_merge_spec (rt_log r) runs (lo_dense _ _ Hlog) Hnd H1) as (ops & rs & Hm & Hb & _ & Hne).
  specialize (Hne (ex_intro _ R (conj HR (conj HRl HRf)))).
  unfold serve_merged. rewrite Hm. cbn [mbind result_bind].
  rewrite bool_decide_eq_false_2 by (by eapply batch_ops_nonempty).
  destruct (signs ops) as [sigs ->]. destruct (sends w _); [|done]. intros [= <- <-].
  eexists. split; [by left|]. split; [done|]. intros x Hx. destruct (bi_from _ _ _ _ Hb x Hx) as (R' & HR' & Hdev & Hfirst & _).
  apply want_sound in HR' as (Hf & _ & _). change (l_sent l2) with (l_sent l1) in Hf. rewrite Hsame, Hdev in Hf. by rewrite <- Hfirst.
Qed.

(** ** Turns of an end that carries the workspace *)

(** The end knows its peer and carries the workspace. *)
Record carries (c : Conn) : Prop := {
  ca_peer : is_Some (s_peer (c_session c));
  ca_route : w ∈ c_routes c;
  ca_store : is_Some (c_stores c !! w)
}.

(** What a turn may not undo. *)
Record turn_keeps (c c' : Conn) (out : list (WorkspaceId * Message)) : Prop := {
  tk_carries : carries c';
  tk_held : heads_le (heads_of (l_held (c_live c)) w) (heads_of (l_held (c_live c')) w);
  tk_ready : w ∈ l_ready (c_live c) → w ∈ l_ready (c_live c');
  tk_out m : (w, m) ∈ out → is_greet m = false ∧ is_want m = false
}.

Lemma push_asked l route id now sweep l' out ok :
  push P sends signing_key l route id now sweep = (l', out, ok) →
  (∀ w', l_asked l' !! w' = None ∨ l_asked l' !! w' = l_asked l !! w') ∧ ∀ w' m, (w', m) ∈ out → is_greet m = false ∧ is_want m = false.
Proof using Type.
  unfold push. destruct route as [r|]; [|intros [= <- <- <-]; split; [by right|by intros ? ? ?%elem_of_nil]].
  assert (l_asked (fst (rewind_if_stalled l id now)) = l_asked l) as Ha1.
  { unfold rewind_if_stalled. destruct (l_waiting_since l !! id); [|done]. destruct (_ <? _); [done|]. by destruct (negb _). }
  destruct (rewind_if_stalled l id now) as [l1 rewound]. cbn [fst] in *.
  destruct (negb _); [intros [= <- <- <-]; split; [intros; right; by rewrite Ha1|by intros ? ? ?%elem_of_nil]|].
  set (l2 := set_seen _ _). match goal with |- context [next_runs l2 id ?x] => set (local := x) end.
  destruct (next_runs_want l2 id local) as (l3 & remote & -> & Hl3 & _).
  assert (∀ w', l_asked l3 !! w' = None ∨ l_asked l3 !! w' = l_asked l !! w') as Ha3.
  { intros w'. destruct Hl3 as [->| ->]; unfold l2; cbn [set_asked set_seen l_asked]; rewrite Ha1; [by right|].
    destruct (decide (id = w')) as [->|]; [left; by rewrite lookup_delete_eq|right; by rewrite lookup_delete_ne]. }
  cbv zeta. case_bool_decide; [intros [= <- <- <-]; split; [done|by intros ? ? ?%elem_of_nil]|].
  destruct (_ <=? _); [intros [= <- <- <-]; split; [done|by intros ? ? ?%elem_of_nil]|].
  destruct (serve_merged P (rt_log r) _ id signing_key) as [[[m ranges]|]|e] eqn:Es;
    [|intros [= <- <- <-]; split; [done|by intros ? ? ?%elem_of_nil]..].
  destruct (sends id m); intros [= <- <- <-]; (split; [|try by intros ? ? ?%elem_of_nil]).
  - unfold note_sent. case_bool_decide; [done|]. cbn [set_sent set_pending l_waiting_since]. by destruct (l_waiting_since l3 !! id).
  - intros w' m' Hin%list_elem_of_singleton. injection Hin as -> ->. unfold serve_merged in Es.
    destruct (merge _ _) as [[ops rs]|]; cbn [mbind result_bind] in Es; [|done]. case_bool_decide; [done|].
    destruct (sign_ops _ _ _); [|done]. by injection Es as <- <-.
  - done.
Qed.

Lemma push_all_asked routes ids : ∀ l now sweep l' out ok,
  push_all P sends signing_key l routes ids now sweep = (l', out, ok) →
  (∀ w', l_asked l' !! w' = None ∨ l_asked l' !! w' = l_asked l !! w') ∧ ∀ w' m, (w', m) ∈ out → is_greet m = false ∧ is_want m = false.
Proof using Type.
  induction ids as [|id ids IH]; intros l now sweep l' out ok; cbn [push_all].
  - intros [= <- <- <-]. split; [by right|by intros ? ? ?%elem_of_nil].
  - destruct (push P sends signing_key l (routes id) id now sweep) as [[l1 out1] ok1] eqn:E.
    destruct (push_asked _ _ _ _ _ _ _ _ E) as [Ha1 Ho1]. destruct ok1; [|intros [= <- <- <-]; done].
    destruct (push_all P sends signing_key l1 routes ids now sweep) as [[l2 out2] ok2] eqn:E2.
    destruct (IH _ _ _ _ _ _ E2) as [Ha2 Ho2]. intros [= <- <- <-]. split.
    + intros w'. destruct (Ha2 w') as [|H2]; [by left|]. rewrite H2. apply Ha1.
    + intros w' m [?|?]%elem_of_app; eauto.
Qed.

Lemma tick_asked l routes now superseded l' out ok :
  tick P sends signing_key l routes now superseded = (l', out, ok) →
  (∀ w', l_asked l' !! w' = None ∨ l_asked l' !! w' = l_asked l !! w') ∧ ∀ w' m, (w', m) ∈ out → is_greet m = false ∧ is_want m = false.
Proof using Type.
  unfold tick. destruct (expired l now); [intros [= <- <- <-]; split; [by right|by intros ? ? ?%elem_of_nil]|].
  destruct superseded; [intros [= <- <- <-]; split; [by right|by intros ? ? ?%elem_of_nil]|].
  set (l1 := if HEARTBEAT <=? now - l_last_sweep l then set_sweep l now else l).
  assert (l_asked l1 = l_asked l) as <- by (unfold l1; by destruct (_ <=? _)).
  cbv zeta. destruct (push_all P sends signing_key l1 routes _ now _) as [[l2 out2] ok2] eqn:E2.
  destruct (push_all_asked _ _ _ _ _ _ _ _ E2) as [Ha Ho]. destruct ok2; cbn [negb]; [|by intros [= <- <- <-]].
  destruct (_ <? HEARTBEAT); [by intros [= <- <- <-]|]. destruct (beat _ _) as [out3 ok3] eqn:E3. intros [= <- <- <-].
  split; [done|]. intros w' m [?|Hm]%elem_of_app; [by eauto|]. unfold beat in E3. destruct (in_order _) as [|id ids]; simplify_eq; [by apply elem_of_nil in Hm|].
  destruct (sends id _); simplify_eq; [|by apply elem_of_nil in Hm]. apply list_elem_of_singleton in Hm. by injection Hm as -> ->.
Qed.

(** The frame's part of a turn, as [turn] runs it. *)
Definition frame_part (c : Conn) (e : Env) (frame : option (WorkspaceId * Message)) : Conn * list (WorkspaceId * Message) * bool :=
  match frame with
  | None => (c, [], true)
  | Some (w', msg) =>
      let c := mkConn (c_session c) (heard (c_live c) (e_now e)) (c_routes c) (c_stores c) in
      if w' =? LINK_WORKSPACE then dispatch_link_frame sends c (e_wall e) msg (e_facts e)
      else dispatch_workspace_frame P sends c (e_now e) w' msg (e_verify_key e) (e_disk e) (e_commits e)
  end.

Lemma turn_parts c e frame c' out :
  turn P sends signing_key c e frame = (c', out, true) →
  ∃ c1 out1 live out2, frame_part c e frame = (c1, out1, true)
    ∧ tick P sends signing_key (c_live c1) (conn_route c1) (e_now e) (e_superseded e) = (live, out2, true)
    ∧ c' = mkConn (c_session c1) live (c_routes c1) (c_stores c1) ∧ out = out1 ++ out2.
Proof using Type.
  change (turn P sends signing_key c e frame) with
    (let '(c, out, ok) := frame_part c e frame in
     if negb ok then (c, out, false)
     else let '(live, out', ok') := tick P sends signing_key (c_live c) (conn_route c) (e_now e) (e_superseded e) in
          (mkConn (c_session c) live (c_routes c) (c_stores c), out ++ out', ok')).
  destruct (frame_part c e frame) as [[c1 out1] ok1]. destruct ok1; cbn [negb]; [|done].
  destruct (tick _ _ _ _ _ _ _) as [[live out2] ok2] eqn:E2. intros [= <- <- ->]. eauto 10.
Qed.

Lemma session_peer_on_workspace {A} s w' (f : WorkspaceSession → result SessionError (WorkspaceSession * A)) s' a :
  on_workspace s w' f = Ok (s', a) → s_peer s' = s_peer s.
Proof using Type.
  unfold on_workspace, workspace. destruct (s_workspaces s !! w'); [|done]. cbn [ok_or mbind result_bind].
  destruct (f _) as [[ws' a']|]; cbn [mbind result_bind]; [|done]. by intros [= <- _].
Qed.

Lemma handle_message_peer s log w' msg vk disk s' log' out ok :
  handle_workspace_message P sends s log w' msg vk disk = (s', log', out, ok) → s_peer s' = s_peer s.
Proof using Type.
  unfold handle_workspace_message. destruct msg; try (by intros [= <- _ _ _]).
  - unfold handle_ops, ops_or_refuse. set (s1 := match catch_up _ _ _ with Ok _ => _ | Err _ => _ end).
    assert (s_peer s1 = s_peer s) as Hs1.
    { unfold s1, catch_up. destruct (on_workspace _ _ _) as [[s2 u]|] eqn:E; cbn; [|done]. by apply session_peer_on_workspace in E. }
    destruct (on_ops P s1 w' _ _) as [[s2 ops2]|err] eqn:Eo.
    + apply session_peer_on_workspace in Eo. unfold commit_and_ack. destruct (negb _); [intros [= <- _ _ _]; congruence|].
      destruct (commit_incoming_ops _ _ _) as [log1 landed]. destruct (committed s2 w' _) as [[s3 ack]|] eqn:Ec.
      * apply session_peer_on_workspace in Ec. destruct (sends w' ack); intros [= <- _ _ _]; congruence.
      * intros [= <- _ _ _]; congruence.
    + destruct err; try (intros [= <- _ _ _]; done).
      destruct (holding_ack _ _ _) as [ack|]; [|by intros [= <- _ _ _]]. destruct (sends w' ack); by intros [= <- _ _ _].
  - unfold handle_greet. destruct (on_hello s w' _) as [[s1 want]|] eqn:E; [|by intros [= <- _ _ _]].
    unfold on_hello in E. destruct (negb _); [done|]. destruct (s_peer s) eqn:Ep; [|done]. apply session_peer_on_workspace in E.
    destruct (sends w' want); intros [= <- _ _ _]; congruence.
Qed.

(** A turn that the link survives, given anything but a greeting of the workspace. *)
Lemma turn_quiet plen c e frame c' out :
  conn_ok G plen c → carries c → (∀ w' m, frame = Some (w', m) → msg_ok (G w') (plen w') m) →
  (∀ m, frame = Some (w, m) → is_greet m = false) →
  turn P sends signing_key c e frame = (c', out, true) →
  turn_keeps c c' out
  ∧ ((∀ m, frame = Some (w, m) → is_want m = false) →
       l_asked (c_live c') !! w = None ∨ l_asked (c_live c') !! w = l_asked (c_live c) !! w).
Proof using HG Hw0.
  intros Hc Hca Hmsg Hgreet (c1 & out1 & live & out2 & H1 & H2 & -> & ->)%turn_parts.
  assert (carries c1 ∧ conn_ok G plen c1 ∧ heads_le (heads_of (l_held (c_live c)) w) (heads_of (l_held (c_live c1)) w)
    ∧ l_ready (c_live c) ⊆ l_ready (c_live c1) ∧ (∀ m, (w, m) ∈ out1 → is_greet m = false ∧ is_want m = false)
    ∧ ((∀ m, frame = Some (w, m) → is_want m = false) → l_asked (c_live c1) !! w = l_asked (c_live c) !! w))
    as (Hca1 & Hc1 & Hh1 & Hr1 & Ho1 & Ha1).
  { destruct frame as [[w' msg]|]; cbn [frame_part] in H1.
    2:{ injection H1 as <- <-. split_and!; [done|done|reflexivity|done|by intros ? ?%elem_of_nil|done]. }
    destruct (N.eqb_spec w' LINK_WORKSPACE) as [->|Hne0].
    { exfalso. destruct Hca as [[p Hp] _ _]. unfold dispatch_link_frame in H1. cbn [c_session] in H1.
      destruct (on_link_hello (c_session c) msg (e_wall e)) as [[s sk]|] eqn:E; [|done].
      unfold on_link_hello in E. rewrite Hp in E. by destruct (negb _). }
    assert (conn_ok G plen (mkConn (c_session c) (heard (c_live c) (e_now e)) (c_routes c) (c_stores c))) as Hc0.
    { destruct Hc as [? ? Hv]. split; [done|done|exact Hv]. }
    destruct (workspace_frame_ok P sends G HG plen _ _ _ _ _ _ _ _ _ _ Hc0 (Hmsg _ _ eq_refl) H1) as (Hc1 & Hle1 & _).
    unfold dispatch_workspace_frame, conn_route in H1. cbn [c_session c_live c_routes c_stores] in H1.
    case_bool_decide as Hroute.
    2:{ injection H1 as <- <-. split_and!; [by destruct Hca|done|reflexivity|done|by intros ? ?%elem_of_nil|done]. }
    destruct (c_stores c !! w') as [r|] eqn:Er.
    2:{ injection H1 as <- <-. split_and!; [by destruct Hca|done|reflexivity|done|by intros ? ?%elem_of_nil|done]. }
    destruct (handle_workspace_message P sends (c_session c) (rt_log r) w' msg _ _) as [[[s log] out3] ok3] eqn:E.
    injection H1 as <- <- ->. cbn [c_live]. split_and!; [|done| | | |].
    - destruct Hca as [Hp Hrt Hst]. split; cbn [c_session c_routes c_stores]; [by rewrite (handle_message_peer _ _ _ _ _ _ _ _ _ _ E)|done|].
      destruct (decide (w' = w)) as [->|]; [rewrite lookup_insert_eq; by eexists|by rewrite lookup_insert_ne].
    - apply (observe_held w (heard (c_live c) (e_now e))). intros ->. by apply Hgreet.
    - apply (observe_ready (heard (c_live c) (e_now e))).
    - intros m Hm. destruct msg; cbn [handle_workspace_message] in E; try (simplify_eq; by apply elem_of_nil in Hm).
      + assert (out_acks : ∀ x, (w, x) ∈ out3 → ∃ a b, x = MAck a b); [|by destruct (out_acks m Hm) as (? & ? & ->)].
        intros x Hx. unfold handle_ops in E. destruct (ops_or_refuse _ _ _ _ _ _) as [s1 [ops1|[[ack|]|]]] eqn:Er1; try (simplify_eq; by apply elem_of_nil in Hx).
        * destruct (commit_and_ack _ _ _ _ _ _) as [[s2 log2] [ack|]] eqn:Ec; [|simplify_eq; by apply elem_of_nil in Hx].
          destruct (sends w' ack); simplify_eq. apply list_elem_of_singleton in Hx. simplify_eq.
          unfold commit_and_ack in Ec. destruct (negb _); [done|]. destruct (commit_incoming_ops _ _ _) as [log3 landed].
          destruct (committed s1 w _) as [[s3 ack']|] eqn:Ecm; simplify_eq.
          unfold committed, on_workspace, Session.workspace in Ecm. destruct (s_workspaces s1 !! w) as [ws|]; [|done]. cbn [ok_or mbind result_bind] in Ecm.
          destruct (ws_committed ws w _) as [[ws' m']|] eqn:Ew; [|done]. cbn [mbind result_bind] in Ecm. injection Ecm as _ <-.
          apply ws_committed_heads in Ew as [_ ->]. eauto.
        * destruct (sends w' ack); simplify_eq. apply list_elem_of_singleton in Hx. simplify_eq.
          unfold ops_or_refuse in Er1. destruct (on_ops _ _ _ _ _) as [[? ?]|[]]; simplify_eq.
          unfold holding_ack in *. destruct (session_heads _ _); [|done].
          match goal with H : (if _ then None else Some _) = Some _ |- _ => revert H end.
          case_bool_decide; [done|]. intros [= <-]. eauto.
      + destruct (decide (w' = w)) as [->|Hne]; [specialize (Hgreet _ eq_refl); done|].
        unfold handle_greet in E. destruct (on_hello _ _ _) as [[s1 want]|]; [|simplify_eq; by apply elem_of_nil in Hm].
        destruct (sends w' want); simplify_eq.
        apply list_elem_of_singleton in Hm. congruence.
    - intros Hwant. apply (observe_asked w (heard (c_live c) (e_now e))). intros ->. by apply Hwant. }
  destruct Hc1 as [Hl1 Hs1 Hv1].
  destruct (tick_ok P sends signing_key G HG plen (conn_route c1) (c_stores c1) _ _ _ _ _ _ Hv1 Hl1 (conn_route_store c1) H2) as (_ & Hr2 & Hh2 & _).
  destruct (tick_asked _ _ _ _ _ _ _ H2) as [Ha2 Ho2].
  split; [split; cbn [c_live]|].
  - by destruct Hca1.
  - etrans; [exact Hh1|]. unfold heads_of. rewrite Hh2. reflexivity.
  - rewrite Hr2. apply Hr1.
  - intros m [Hm|Hm]%elem_of_app; [by apply Ho1|by eapply Ho2].
  - intros Hwant. rewrite <- (Ha1 Hwant). cbn [c_live]. apply Ha2.
Qed.

Context (devs : list DeviceId) (Hdevs : (length devs ≤ MAX_DEVICES_PER_HEADS)%nat) (Hout : ∀ d, d ∉ devs → G w d = []).

Lemma few_of_origins log : log_ok (G w) log → few_devices log.
Proof using Hdevs Hout.
  intros [_ _ Hp]. exists devs. split; [done|]. intros d Hd. specialize (Hp d). rewrite (Hout d Hd) in Hp. by apply prefix_nil_inv in Hp.
Qed.

(** What an end does with a batch that follows what it holds: it takes it, or says what it holds of one
    of its devices; either way its answer is past what was held. *)
Lemma follows_answered plen s stores r m held vk disk s' log' out :
  logs_ok G stores → sess_upto s (store_len stores) → stores !! w = Some r → msg_ok (G w) plen m → follows held m →
  heads_upto held (log_len (rt_log r)) → (∀ j, disk j = DiskOk) →
  handle_workspace_message P sends s (rt_log r) w m vk disk = (s', log', out, true) →
  ∃ w1 rs x, (w, MAck w1 rs) ∈ out ∧ x ∈ rs ∧ head_at held (r_device x) < r_last x.
Proof using HG Hw0 Hdevs Hout.
  intros Hlogs Hs Hr Hm Hf Hheld Hdisk. destruct m as [| |w0 ops sigs ranges| | |]; try done.
  destruct Hf as [Hne Hfirst]. destruct Hm as (Hg & Hlen & _). pose proof (Hlogs w r Hr) as Hl.
  cbn [handle_workspace_message]. unfold handle_ops, ops_or_refuse.
  destruct (s_workspaces s !! w) as [ws|] eqn:Ews.
  2:{ assert (catch_up s w (heads (rt_log r)) = Err (UnknownWorkspace w)) as ->.
      { unfold catch_up, on_workspace, Session.workspace. by rewrite Ews. }
      assert (∀ keys, on_ops P s w (MOps w0 ops sigs ranges) keys = Err (UnknownWorkspace w)) as ->.
      { intros keys. unfold on_ops, on_workspace, Session.workspace. by rewrite Ews. } done. }
  set (ws1 := ws_catch_up ws (heads (rt_log r))). set (s1 := set_workspaces s (<[w := ws1]> (s_workspaces s))).
  assert (catch_up s w (heads (rt_log r)) = Ok s1) as ->.
  { unfold catch_up, on_workspace, Session.workspace. by rewrite Ews. }
  assert (s_workspaces s1 !! w = Some ws1) as Ews1 by (unfold s1; cbn; by rewrite lookup_insert_eq).
  unfold on_ops, on_workspace, Session.workspace. rewrite Ews1. cbn [ok_or mbind result_bind].
  generalize (device_keys_for ops vk) as keys. intros keys. unfold ws_on_ops. destruct (negb _) eqn:Eacc; [done|].
  assert (ws_state ws ≠ Importing) as Hni.
  { intros Hi. apply (ws_catch_up_state ws (heads (rt_log r))) in Hi. fold ws1 in Hi. by rewrite Hi in Eacc. }
  unfold check_workspace. destruct (w0 =? w); cbn [mbind result_bind]; [|done].
  destruct (verify_batch P ops sigs keys); cbn [map_err mbind result_bind]; [|done]. unfold check_ranges.
  assert (Hhd : ∀ x, x ∈ ranges → r_first x <= head_at (ws_heads ws1) (r_device x) + 1).
  { intros x Hx. pose proof (ws_catch_up_reaches ws (heads (rt_log r)) (r_device x) Hni) as Hre. fold ws1 in Hre.
    rewrite heads_complete in Hre by (apply Hl || by apply few_of_origins). rewrite (Hfirst x Hx). specialize (Hheld (r_device x)). lia. }
  destruct (advance_all (ws_heads ws1) ranges) as [h|g] eqn:Eadv; cbn [map_err mbind result_bind].
  - unfold commit_and_ack. assert (follows_store_heads (rt_log r) ranges = true) as Hgate.
    { unfold follows_store_heads. apply forallb_forall. intros x Hx. apply list_elem_of_In in Hx. apply N.leb_le.
      rewrite head_of_dense by apply Hl. rewrite (Hfirst x Hx). specialize (Hheld (r_device x)). unfold log_len in Hheld. lia. }
    rewrite Hgate. cbn [negb].
    destruct (commit_incoming_spec (G w) (HG w) _ ops ranges disk Hl Hg Hlen Hgate) as (log1 & landed & -> & _ & _ & _ & Hall).
    rewrite (Hall Hdisk). unfold committed, on_workspace, Session.workspace. cbn [set_workspaces s_workspaces].
    rewrite lookup_insert_eq. cbn [ok_or mbind result_bind]. unfold ws_committed. cbn [ws_state ws_inflight ws_heads].
    rewrite find_covered, Eadv. cbn [map_err mbind result_bind].
    destruct (sends w _); [|done]. intros [= _ _ <-]. destruct ranges as [|x rs]; [done|].
    exists w, (x :: rs), x. split_and!; [by left|by left|].
    destruct (gb_in _ _ _ Hg x ltac:(by left)) as (_ & Hxl & _). rewrite (Hfirst x ltac:(by left)) in Hxl. lia.
  - destruct (holding_runs_spec (ws_heads ws1) ranges []) as [Hspec Hnonempty].
    assert (∃ x, x ∈ ranges ∧ r_first x <= head_at (ws_heads ws1) (r_device x)) as Hex.
    { destruct (decide (Exists (λ x, r_first x <= head_at (ws_heads ws1) (r_device x)) ranges)) as [Hx|Hx].
      { by apply Exists_exists in Hx. }
      exfalso. destruct (advance_all_next ranges (ws_heads ws1) (gb_nodup _ _ _ Hg)) as [h Hh]; [|by rewrite Eadv in Hh].
      intros x Hin. split; [|by apply (gb_in _ _ _ Hg)]. specialize (Hhd x Hin).
      assert (¬ r_first x <= head_at (ws_heads ws1) (r_device x)); [|lia]. intros Hle. apply Hx, Exists_exists. eauto. }
    specialize (Hnonempty (or_intror Hex)). unfold holding_ack, session_heads, Session.workspace. rewrite Ews1. cbn [ok_or fmap result_fmap].
    cbv zeta. cbn. rewrite bool_decide_eq_false_2 by done. destruct (sends w _); [|done]. intros [= _ _ <-].
    destruct (holding_runs (ws_heads ws1) ranges []) as [|x xs]; [done|]. exists w, (x :: xs), x. split_and!; [by left|by left|].
    destruct (Hspec x ltac:(by left)) as [?%elem_of_nil|(y & Hy & Hle & ->)]; [done|]. cbn [r_device r_last].
    rewrite (Hfirst y Hy) in Hle. lia.
Qed.

Lemma turn_answers plen c e m held c' out :
  conn_ok G plen c → carries c → msg_ok (G w) (plen w) m → follows held m →
  heads_upto held (store_len (c_stores c) w) → (∀ j, e_disk e j = DiskOk) →
  turn P sends signing_key c e (Some (w, m)) = (c', out, true) →
  ∃ w1 rs x, (w, MAck w1 rs) ∈ out ∧ x ∈ rs ∧ head_at held (r_device x) < r_last x.
Proof using HG Hw0 Hdevs Hout.
  intros [Hl Hs _] [_ Hrt [r Hr]] Hm Hf Hheld Hdisk (c1 & out1 & live & out2 & H1 & _ & _ & ->)%turn_parts.
  cbn [frame_part] in H1. rewrite (proj2 (N.eqb_neq _ _) Hw0) in H1. unfold dispatch_workspace_frame, conn_route in H1.
  cbn [c_session c_live c_routes c_stores] in H1. rewrite bool_decide_eq_true_2, Hr in H1 by done.
  destruct (handle_workspace_message P sends (c_session c) (rt_log r) w m _ _) as [[[s log] out3] ok3] eqn:E.
  injection H1 as _ -> ->.
  assert (heads_upto held (log_len (rt_log r))) as Hh.
  { intros d. specialize (Hheld d). unfold store_len in Hheld. by rewrite Hr in Hheld. }
  destruct (follows_answered _ _ _ _ _ _ _ _ _ _ _ Hl Hs Hr Hm Hf Hh Hdisk E) as (w1 & rs & x & Hin & Hx).
  exists w1, rs, x. split; [|done]. apply elem_of_app. by left.
Qed.

Lemma turn_hears plen c e w1 rs x c' out :
  conn_ok G plen c → carries c → ranges_upto rs (plen w) → x ∈ rs →
  turn P sends signing_key c e (Some (w, MAck w1 rs)) = (c', out, true) →
  r_last x <= head_at (heads_of (l_held (c_live c')) w) (r_device x).
Proof using HG Hw0.
  intros Hc [_ Hrt [r Hr]] Hrs Hx (c1 & out1 & live & out2 & H1 & H2 & -> & _)%turn_parts.
  cbn [frame_part] in H1. rewrite (proj2 (N.eqb_neq _ _) Hw0) in H1.
  assert (conn_ok G plen (mkConn (c_session c) (heard (c_live c) (e_now e)) (c_routes c) (c_stores c))) as Hc0.
  { destruct Hc as [? ? Hv]. split; [done|done|exact Hv]. }
  destruct (workspace_frame_ok P sends G HG plen _ _ _ _ _ _ _ _ _ _ Hc0 (Hrs : msg_ok (G w) (plen w) (MAck w1 rs)) H1) as ([Hl1 Hs1 Hv1] & _ & _).
  destruct (tick_ok P sends signing_key G HG plen (conn_route c1) (c_stores c1) _ _ _ _ _ _ Hv1 Hl1 (conn_route_store c1) H2) as (_ & _ & Hh2 & _).
  cbn [c_live]. unfold heads_of. rewrite Hh2.
  unfold dispatch_workspace_frame, conn_route in H1.
  cbn [c_session c_live c_routes c_stores] in H1. rewrite bool_decide_eq_true_2, Hr in H1 by done.
  cbn [handle_workspace_message] in H1. injection H1 as <- _. cbn [c_live observe].
  change (default ∅ (l_held ?a !! w)) with (heads_of (l_held a) w). rewrite note_acked_held.
  rewrite bool_decide_eq_false_2 by (intros ->; by apply elem_of_nil in Hx). rewrite heads_of_insert, N.eqb_refl, raise_at.
  etrans; [exact (top_ge rs x Hx)|apply N.le_max_r].
Qed.

Lemma push_all_at routes stores ids : ∀ plen l now sweep l' out,
  live_inv plen l → logs_ok G stores → (∀ w r, routes w = Some r → stores !! w = Some r) →
  NoDup ids → w ∈ ids →
  push_all P sends signing_key l routes ids now sweep = (l', out, true) →
  ∃ l1 l2 out1, live_inv plen l1 ∧ live_view l1 w = live_view l w ∧ l_asked l1 !! w = l_asked l !! w
    ∧ push P sends signing_key l1 (routes w) w now sweep = (l2, out1, true) ∧ (∀ x, x ∈ out1 → x ∈ out).
Proof using HG Hw0 Hout.
  induction ids as [|id ids IH]; intros plen l now sweep l' out Hl Hs Hr Hnd Hin; [by apply elem_of_nil in Hin|].
  cbn [push_all]. destruct (push P sends signing_key l (routes id) id now sweep) as [[l1 out1] ok1] eqn:E.
  destruct ok1; [|done]. destruct (push_all P sends signing_key l1 routes ids now sweep) as [[l2 out2] ok2] eqn:E2.
  intros [= <- <- ->]. apply NoDup_cons in Hnd as [Hni Hnd].
  destruct (push_ok P sends signing_key G _ _ _ _ _ _ _ _ _ Hl (λ r Hrt, Hs id r (Hr id r Hrt)) E) as (Hl1 & _ & Ho1 & _).
  destruct (decide (id = w)) as [->|Hne].
  - exists l, l1, out1. split_and!; [done..|]. intros x Hx. apply elem_of_app. by left.
  - apply elem_of_cons in Hin as [->|Hin]; [done|]. destruct (Ho1 w (not_eq_sym Hne)) as [Hv Ha].
    destruct (IH _ _ _ _ _ _ Hl1 Hs Hr Hnd Hin E2) as (l3 & l4 & out3 & ? & Hv3 & Ha3 & ? & Hsub).
    exists l3, l4, out3. split_and!; [done|congruence|congruence|done|]. intros x Hx. apply elem_of_app. right. by apply Hsub.
Qed.

(** What the peer asked for is this end's to send. *)
Definition asked_ours (c : Conn) : Prop := ∀ asked d, l_asked (c_live c) !! w = Some asked →
  head_at asked d <= N.max (head_at (heads_of (l_held (c_live c)) w) d) (N.of_nat (store_len (c_stores c) w d)).

Lemma turn_pushes plen c e c' out :
  conn_ok G plen c → carries c → w ∈ l_ready (c_live c) → asked_ours c → due (c_live c) w (e_now e) →
  (∃ d, head_at (heads_of (l_held (c_live c)) w) d < N.of_nat (store_len (c_stores c) w d)) →
  turn P sends signing_key c e None = (c', out, true) →
  ∃ m, (w, m) ∈ out ∧ follows (heads_of (l_held (c_live c)) w) m.
Proof using HG Hw0 signs Hdevs Hout.
  intros [Hl _ Hv] [_ Hrt [r Hr]] Hready Hasked [Hdue Hsweep] Hlag (c1 & out1 & live & out2 & H1 & H2 & _ & ->)%turn_parts.
  cbn [frame_part] in H1. injection H1 as <- <-. cbn [app]. unfold tick in H2.
  destruct (expired _ _); [done|]. destruct (e_superseded e); [done|].
  rewrite (proj2 (N.leb_le _ _) Hsweep) in H2. cbv zeta in H2.
  set (l0 := set_sweep (c_live c) (e_now e)) in *. change (l_ready l0) with (l_ready (c_live c)) in H2.
  destruct (push_all P sends signing_key l0 (conn_route c) (in_order (l_ready (c_live c))) (e_now e) true) as [[l2 out3] ok3] eqn:E3.
  destruct ok3; cbn [negb] in H2; [|done].
  assert (∀ x, x ∈ out3 → x ∈ out2) as Hsub.
  { destruct (_ <? HEARTBEAT); [by simplify_eq|]. destruct (beat _ _) as [out4 ok4]. simplify_eq. intros x Hx. apply elem_of_app. by left. }
  assert (in_order (l_ready (c_live c)) ≡ₚ elements (l_ready (c_live c))) as Hperm by apply stable_sort_perm.
  destruct (push_all_at (conn_route c) (c_stores c) (in_order (l_ready (c_live c))) plen l0 (e_now e) true l2 out3 Hv Hl (conn_route_store c))
    as (l3 & l4 & out4 & Hl3 & Hv3 & Ha3 & Hp & Hsub4); [rewrite Hperm; apply NoDup_elements|rewrite Hperm; by apply elem_of_elements|done|].
  assert (conn_route c w = Some r) as Hroute by (unfold conn_route; by rewrite bool_decide_eq_true_2).
  rewrite Hroute in Hp. unfold live_view in Hv3. injection Hv3 as Hh3 Hs3 Hw3.
  assert (heads_of (l_held l3) w = heads_of (l_held (c_live c)) w) as Hheld by (unfold heads_of; by rewrite Hh3).
  assert (store_len (c_stores c) w = log_len (rt_log r)) as Hlen by (unfold store_len; by rewrite Hr).
  destruct (push_due plen l3 r (e_now e) l4 out4 Hl3 (Hl w r Hr) (few_of_origins _ (Hl w r Hr))) as (m & Hm & Hf).
  - intros since Hsi. apply Hdue. by rewrite <- Hw3.
  - intros asked d Has. rewrite Hheld, <- Hlen. apply Hasked. transitivity (l_asked l3 !! w); [by rewrite Ha3|done].
  - destruct Hlag as [d Hlag]. exists d. by rewrite Hheld, <- Hlen.
  - exact Hp.
  - exists m. rewrite Hheld in Hf. split; [|done]. by apply Hsub, Hsub4.
Qed.

(** ** Rounds *)

Abbreviation move := (net_move P sends signing_key).
Abbreviation run := (net_run P sends signing_key).

Definition held (n : Net) : Heads := heads_of (l_held (c_live (n_me n))) w.

(** Both ends carry the workspace, this end may push it, and no greeting is left to come. *)
Record linked (n : Net) : Prop := {
  lk_me : carries (n_me n);
  lk_you : carries (n_you n);
  lk_ready : w ∈ l_ready (c_live (n_me n));
  lk_asked : asked_ours (n_me n);
  lk_out m : (w, m) ∈ n_out n → is_greet m = false;
  lk_in m : (w, m) ∈ n_in n → is_greet m = false ∧ is_want m = false
}.

(** A turn whose disk takes what lands. *)
Definition quiet (m : Move) : Prop := match m with MTurn _ _ e => ∀ j, e_disk e j = DiskOk | _ => False end.

(** How many turns of an end are handed what waits for it. *)
Definition hands (mine : bool) (m : Move) : bool :=
  match m with MTurn mine' deliver _ => Bool.eqb mine mine' && deliver | _ => false end.
Definition deliveries (mine : bool) (ms : list Move) : nat := length (List.filter (hands mine) ms).

Lemma my_turn_up n deliver e : n_up (my_turn P sends signing_key deliver e n) = true →
  n_up n = true ∧ ∃ frame rest c out,
    (deliver = true ∧ (∃ f, n_in n = f :: rest ∧ frame = Some f) ∨ (deliver = false ∨ n_in n = []) ∧ frame = None ∧ rest = n_in n)
    ∧ turn P sends signing_key (n_me n) e frame = (c, out, true)
    ∧ my_turn P sends signing_key deliver e n = mkNet c (n_you n) (n_out n ++ out) rest true.
Proof using Type.
  unfold my_turn. destruct (n_up n) eqn:Eu; cbn [negb]; [|by rewrite Eu].
  destruct deliver; [destruct (n_in n) as [|f q] eqn:Ei|].
  - destruct (turn P sends signing_key (n_me n) e None) as [[c out] ok] eqn:E. cbn. intros ->. split; [done|].
    exists None, [], c, out. split; [right; auto|done].
  - destruct (turn P sends signing_key (n_me n) e (Some f)) as [[c out] ok] eqn:E. cbn. intros ->. split; [done|].
    exists (Some f), q, c, out. split; [left; eauto|done].
  - destruct (turn P sends signing_key (n_me n) e None) as [[c out] ok] eqn:E. cbn. intros ->. split; [done|].
    exists None, (n_in n), c, out. split; [right; auto|done].
Qed.

Lemma asked_ours_grows c c' : asked_ours c →
  (l_asked (c_live c') !! w = None ∨ l_asked (c_live c') !! w = l_asked (c_live c) !! w) →
  heads_le (heads_of (l_held (c_live c)) w) (heads_of (l_held (c_live c')) w) → stores_le (c_stores c) (c_stores c') → asked_ours c'.
Proof using Hw0 Hdevs.
  intros Ha [Hn|He] Hh Hs asked d Has; [congruence|]. rewrite He in Has. specialize (Ha asked d Has). specialize (Hh d).
  pose proof (stores_le_len _ _ w d Hs). lia.
Qed.

(** The acks that come, and the batches that go. *)
Definition raised (h : Heads) (n : Net) : Prop := ∃ d, head_at h d < head_at (held n) d.
Definition acked (h : Heads) (p : WorkspaceId * Message) : Prop :=
  ∃ w1 rs x, p = (w, MAck w1 rs) ∧ x ∈ rs ∧ head_at h (r_device x) < r_last x.
Definition batched (h : Heads) (p : WorkspaceId * Message) : Prop := ∃ m, p = (w, m) ∧ follows h m.

(** The raise is done, or its ack comes within the next [k] deliveries to this end. *)
Definition answering (h : Heads) (k : nat) (n : Net) : Prop :=
  raised h n ∨ ∃ i p, n_in n !! i = Some p ∧ acked h p ∧ (i < k)%nat.
(** Or the batch reaches the other end within its next [k]. *)
Definition sending (h : Heads) (k : nat) (n : Net) : Prop :=
  raised h n ∨ (∃ p, p ∈ n_in n ∧ acked h p) ∨ ∃ i p, n_out n !! i = Some p ∧ batched h p ∧ (i < k)%nat.

(** One turn of either end. *)
Lemma move_quiet n m h k k' :
  net_ok G n → linked n → quiet m → n_up (move n m) = true → heads_upto h (store_len (c_stores (n_you n)) w) →
  n_up n = true ∧ linked (move n m) ∧ heads_le (held n) (held (move n m))
  ∧ (answering h (deliveries true [m] + k) n → answering h k (move n m))
  ∧ (sending h (deliveries false [m] + k') n → sending h k' (move n m)).
Proof using HG Hw0 Hdevs Hout.
  intros Hn Hlk Hq Hup Hh. destruct m as [mine deliver e| | |]; try done. cbn [net_move quiet] in *.
  destruct mine; cbn [on_side] in *.
  - destruct (my_turn_up _ _ _ Hup) as (Hup0 & frame & rest & c & out & Hframe & Ht & ->). split; [done|].
    destruct Hn as [Ha Hb Ho Hi]. destruct Hlk as [Lm Ly Lr La Lo Li].
    assert (∀ w' m, frame = Some (w', m) → (w', m) ∈ n_in n) as Hfin.
    { intros w' m ->. destruct Hframe as [(_ & f & -> & [= <-])|(_ & ? & _)]; [by left|done]. }
    assert (∀ p, p ∈ rest → p ∈ n_in n) as Hrest.
    { destruct Hframe as [(_ & f & -> & _)|(_ & _ & ->)]; [intros; by right|done]. }
    destruct (turn_quiet _ _ _ _ _ _ Ha Lm (λ w' m Hf, Hi w' m (Hfin w' m Hf)) (λ m Hf, proj1 (Li m (Hfin w m Hf))) Ht) as [[Kc Kh Kr Ko] Ka].
    specialize (Ka (λ m Hf, proj2 (Li m (Hfin w m Hf)))).
    destruct (turn_ok P sends signing_key G HG _ _ _ _ _ _ _ Ha (λ w' m Hf, Hi w' m (Hfin w' m Hf)) Ht) as (_ & Hst & _).
    assert (∀ n0, n_me n0 = c → raised h n → raised h n0) as Hraised.
    { intros n0 Hn0 [d Hd]. exists d. unfold held. rewrite Hn0. specialize (Kh d). unfold held in Hd. lia. }
    assert (∀ p, frame = Some p → acked h p → raised h (mkNet c (n_you n) (n_out n ++ out) rest true)) as Hack.
    { intros p -> (w1 & rs & x & -> & Hx & Hlt).
      pose proof (turn_hears _ _ _ _ _ _ _ _ Ha Lm (Hi _ _ (Hfin _ _ eq_refl)) Hx Ht) as Hge. exists (r_device x). unfold held. cbn. lia. }
    split_and!.
    + split; cbn [n_me n_you n_out n_in]; [done|done|by apply Kr|by eapply asked_ours_grows| |].
      * intros m [?|?]%elem_of_app; [by apply Lo|by apply Ko].
      * intros m Hm. apply Li. by apply Hrest.
    + exact Kh.
    + intros [?|(i & p & Hp & Hap & Hk)]; [left; by apply Hraised|].
      unfold deliveries in Hk. cbn [List.filter hands Bool.eqb andb] in Hk.
      destruct Hframe as [(-> & f & Hin & ->)|(Hd & -> & ->)].
      * rewrite Hin in Hp. destruct i as [|i]; [injection Hp as ->; left; by apply (Hack p)|].
        right. exists i, p. split_and!; [done|done|]. cbn in Hk. lia.
      * right. exists i, p. split_and!; [done|done|]. destruct Hd as [->|Hnil]; [cbn in Hk; lia|]. by rewrite Hnil in Hp.
    + intros [?|[(p & Hp & Hap)|(i & p & Hp & Hbp & Hk)]]; [left; by apply Hraised| |].
      * destruct Hframe as [(-> & f & Hin & ->)|(Hd & -> & ->)]; [|right; left; by exists p].
        rewrite Hin in Hp. apply elem_of_cons in Hp as [->|Hp]; [left; by apply (Hack f)|right; left; by exists p].
      * right. right. exists i, p. split_and!; [by apply lookup_app_l_Some|done|]. unfold deliveries in Hk. cbn in Hk. by destruct deliver.
  - change (n_up (net_swap ?x)) with (n_up x) in Hup.
    destruct (my_turn_up _ _ _ Hup) as (Hup0 & frame & rest & c & out & Hframe & Ht & ->). split; [done|].
    cbn [net_swap n_me n_you n_out n_in n_up] in *.
    destruct Hn as [Ha Hb Ho Hi]. destruct Hlk as [Lm Ly Lr La Lo Li].
    assert (∀ w' m, frame = Some (w', m) → (w', m) ∈ n_out n) as Hfin.
    { intros w' m ->. destruct Hframe as [(_ & f & -> & [= <-])|(_ & ? & _)]; [by left|done]. }
    assert (∀ p, p ∈ rest → p ∈ n_out n) as Hrest.
    { destruct Hframe as [(_ & f & -> & _)|(_ & _ & ->)]; [intros; by right|done]. }
    destruct (turn_quiet _ _ _ _ _ _ Hb Ly (λ w' m Hf, Ho w' m (Hfin w' m Hf)) (λ m Hf, Lo m (Hfin w m Hf)) Ht) as [[Kc Kh Kr Ko] _].
    split_and!.
    + split; cbn [n_me n_you n_out n_in]; [done..| |].
      * intros m Hm. apply Lo. by apply Hrest.
      * intros m [?|?]%elem_of_app; [by apply Li|by apply Ko].
    + by intros d.
    + intros [?|(i & p & Hp & Hap & Hk)]; [by left|]. right. exists i, p. cbn [n_in].
      split_and!; [by apply lookup_app_l_Some|done|]. unfold deliveries in Hk. cbn in Hk. by destruct deliver.
    + intros [?|[(p & Hp & Hap)|(i & p & Hp & Hbp & Hk)]]; [by left|right; left; exists p; split; [apply elem_of_app; by left|done]|].
      unfold deliveries in Hk. cbn [List.filter hands Bool.eqb andb] in Hk.
      destruct Hframe as [(-> & f & Hin & ->)|(Hd & -> & ->)].
      * rewrite Hin in Hp. destruct i as [|i]; [injection Hp as ->|].
        -- destruct Hbp as (m & -> & Hf). right. left.
           destruct (turn_answers _ _ _ _ _ _ _ Hb Ly (Ho _ _ (Hfin _ _ eq_refl)) Hf Hh Hq Ht) as (w1 & rs & x & Hx & Hxr & Hlt).
           exists (w, MAck w1 rs). split; [apply elem_of_app; by right|]. by exists w1, rs, x.
        -- right. right. exists i, p. split_and!; [done|done|]. cbn in Hk. lia.
      * right. right. exists i, p. split_and!; [done|done|]. destruct Hd as [->|Hnil]; [cbn in Hk; lia|]. by rewrite Hnil in Hp.
Qed.

Lemma quiet_ok n ms : Forall quiet ms → moves_ok P sends signing_key G n ms.
Proof using Type.
  intros H. revert n. induction H as [|m ms Hm H IH]; intros n; constructor; [|apply IH]. by destruct m.
Qed.

Lemma deliveries_cons mine m ms : deliveries mine (m :: ms) = (deliveries mine [m] + deliveries mine ms)%nat.
Proof using Type. unfold deliveries. cbn. by destruct (hands mine m). Qed.

Lemma run_up n ms : Forall quiet ms → n_up (run n ms) = true → n_up n = true.
Proof using Type.
  intros H. revert n. induction H as [|m ms Hm H IH]; intros n; [done|]. unfold net_run. cbn [foldl]. intros Hu.
  apply IH in Hu. destruct m as [mine deliver e| | |]; try done. cbn [net_move] in Hu.
  destruct mine; cbn [on_side] in Hu; [|change (n_up (net_swap ?x)) with (n_up x) in Hu]; by apply my_turn_up in Hu as [Hu _].
Qed.

(** Quiet turns that keep the link up: what is under way gets where it goes. *)
Lemma run_quiet ms h k k' : ∀ n,
  net_ok G n → linked n → Forall quiet ms → n_up (run n ms) = true → heads_upto h (store_len (c_stores (n_you n)) w) →
  net_ok G (run n ms) ∧ net_le n (run n ms) ∧ linked (run n ms) ∧ heads_le (held n) (held (run n ms))
  ∧ (answering h (deliveries true ms + k) n → answering h k (run n ms))
  ∧ (sending h (deliveries false ms + k') n → sending h k' (run n ms)).
Proof using HG Hw0 Hdevs Hout.
  induction ms as [|m ms IH]; intros n Hn Hlk Hq Hup Hh; [split_and!; try done; reflexivity|].
  apply Forall_cons in Hq as [Hm Hq]. change (run n (m :: ms)) with (run (move n m) ms) in *.
  pose proof (run_up _ _ Hq Hup) as Hup1.
  destruct (net_move_ok P sends signing_key G HG n m Hn) as [Hn1 Hle1]; [by destruct m|].
  destruct (move_quiet n m h (deliveries true ms + k) (deliveries false ms + k') Hn Hlk Hm Hup1 Hh) as (_ & Hlk1 & Hh1 & Ha1 & Hs1).
  assert (heads_upto h (store_len (c_stores (n_you (move n m))) w)) as Hh'.
  { eapply heads_upto_mono; [|exact Hh]. intros d. apply stores_le_len, Hle1. }
  destruct (IH _ Hn1 Hlk1 Hq Hup Hh') as (H1 & H2 & H3 & H4 & H5 & H6).
  split_and!; [done|by etrans|done|by etrans|intros Ha; apply H5, Ha1|intros Hs; apply H6, Hs1].
  - rewrite (deliveries_cons true m ms) in Ha. by rewrite Nat.add_assoc.
  - rewrite (deliveries_cons false m ms) in Hs. by rewrite Nat.add_assoc.
Qed.

(** This end turns when what it sent had its time; then turns in any order, in which first the other end
    is handed all that was sent, then this end all the answers; and the link is up after it. *)
Definition round (n n' : Net) : Prop :=
  ∃ e s1 s2,
    let n1 := move n (MTurn true false e) in
    let n2 := run n1 s1 in
    n' = run n2 s2 ∧ Forall quiet (MTurn true false e :: s1 ++ s2)
    ∧ due (c_live (n_me n)) w (e_now e)
    ∧ (length (n_out n1) ≤ deliveries false s1)%nat ∧ (length (n_in n2) ≤ deliveries true s2)%nat
    ∧ n_up n' = true.

Inductive rounds : nat → Net → Net → Prop :=
| rounds_O n : rounds 0 n n
| rounds_S k n n1 n2 : round n n1 → rounds k n1 n2 → rounds (S k) n n2.

Lemma round_progress n n' : net_ok G n → linked n → round n n' →
  net_ok G n' ∧ net_le n n' ∧ linked n' ∧ heads_le (held n) (held n')
  ∧ ((∃ d, head_at (held n) d < N.of_nat (store_len (c_stores (n_me n)) w d)) → raised (held n) n').
Proof using HG Hw0 Hdevs Hout signs.
  intros Hn Hlk (e & s1 & s2 & -> & Hq & Hdue & Hd1 & Hd2 & Hup).
  set (n1 := move n (MTurn true false e)) in *. set (n2 := run n1 s1) in *.
  apply Forall_cons in Hq as [Hqe [Hq1 Hq2]%Forall_app].
  pose proof (run_up _ _ Hq2 Hup) as Hup2. pose proof (run_up _ _ Hq1 Hup2) as Hup1.
  assert (heads_upto (held n) (store_len (c_stores (n_you n)) w)) as Hh by (apply (no_me _ _ Hn)).
  destruct (move_quiet n _ (held n) 0 0 Hn Hlk Hqe Hup1 Hh) as (_ & Hlk1 & Hh1 & _).
  destruct (net_move_ok P sends signing_key G HG n (MTurn true false e) Hn I) as [Hn1 Hle1]. fold n1 in Hn1, Hle1, Hlk1, Hh1.
  assert (heads_upto (held n) (store_len (c_stores (n_you n1)) w)) as Hu1.
  { eapply heads_upto_mono; [|exact Hh]. intros d. apply stores_le_len, Hle1. }
  destruct (run_quiet s1 (held n) 0 0 n1 Hn1 Hlk1 Hq1 Hup2 Hu1) as (Hn2 & Hle2 & Hlk2 & Hh2 & _ & Hs2). fold n2 in Hn2, Hle2, Hlk2, Hh2, Hs2.
  assert (heads_upto (held n) (store_len (c_stores (n_you n2)) w)) as Hu2.
  { eapply heads_upto_mono; [|exact Hu1]. intros d. apply stores_le_len, Hle2. }
  destruct (run_quiet s2 (held n) 0 0 n2 Hn2 Hlk2 Hq2 Hup Hu2) as (Hn3 & Hle3 & Hlk3 & Hh3 & Ha3 & _).
  split_and!; [done|etrans; [exact Hle1|etrans; [exact Hle2|exact Hle3]]|done|etrans; [exact Hh1|etrans; [exact Hh2|exact Hh3]]|]. intros Hlag.
  assert (sending (held n) (deliveries false s1 + 0) n1) as Hsending.
  { destruct Hlk as [Lm Ly Lr La Lo Li]. destruct (my_turn_up _ _ _ Hup1) as (_ & frame & rest & c & out & Hframe & Ht & Heq).
    destruct Hframe as [(? & _)|(_ & -> & ->)]; [done|].
    destruct (turn_pushes _ _ _ _ _ (no_me _ _ Hn) Lm Lr La Hdue Hlag Ht) as (m & Hm & Hf).
    assert (n_out n1 = n_out n ++ out) as Hout1 by (unfold n1; cbn [net_move on_side]; by rewrite Heq).
    right. right. apply list_elem_of_lookup in Hm as [i Hi]. exists (length (n_out n) + i)%nat, (w, m).
    assert (n_out n1 !! (length (n_out n) + i)%nat = Some (w, m)) as Hlk.
    { rewrite Hout1, lookup_app_r by lia. by rewrite Nat.add_sub_swap, Nat.sub_diag. }
    split_and!; [done|by exists m|]. apply lookup_lt_Some in Hlk. lia. }
  apply Hs2 in Hsending. assert (answering (held n) (deliveries true s2 + 0) n2) as Hans.
  { destruct Hsending as [?|[(p & Hp & Hap)|(i & p & _ & _ & ?)]]; [by left| |lia].
    right. apply list_elem_of_lookup in Hp as [i Hi]. exists i, p. split_and!; [done|done|]. apply lookup_lt_Some in Hi. lia. }
  apply Ha3 in Hans. destruct Hans as [?|(i & p & _ & _ & ?)]; [done|lia].
Qed.

(** How many ops the other end is not known to hold, of all there are. *)
Definition missing (n : Net) : nat := sum_list (map (λ d, length (G w d) - N.to_nat (head_at (held n) d))%nat devs).

Definition ops_at (stores : gmap WorkspaceId Route) (d : DeviceId) : list Op :=
  match stores !! w with Some r => run_of (rt_log r) d | None => [] end.

Lemma ops_at_length stores d : length (ops_at stores d) = store_len stores w d.
Proof using Type. unfold ops_at, store_len. by destruct (stores !! w). Qed.

Lemma ops_at_le a b d : stores_le a b → ops_at a d `prefix_of` ops_at b d.
Proof using Type.
  intros H. unfold ops_at. destruct (a !! w) as [r|] eqn:E; [|apply prefix_nil]. by destruct (H w r E) as (r' & -> & Hl).
Qed.

Lemma ops_at_prefix stores d : logs_ok G stores → ops_at stores d `prefix_of` G w d.
Proof using Type.
  intros H. unfold ops_at. destruct (stores !! w) as [r|] eqn:E; [|apply prefix_nil]. by destruct (H w r E) as [_ _ Hp].
Qed.

Lemma rounds_deliver k : ∀ n n', net_ok G n → linked n → (missing n < k)%nat → rounds k n n' →
  ∀ d, ops_at (c_stores (n_me n)) d `prefix_of` ops_at (c_stores (n_you n')) d.
Proof using HG Hw0 Hdevs Hout signs.
  induction k as [|k IH]; intros n n' Hn Hlk Hk Hr d; [lia|]. inversion Hr as [|? ? n1 ? H1 H2]; subst.
  destruct (round_progress _ _ Hn Hlk H1) as (Hn1 & Hle1 & Hlk1 & Hh1 & Hraise).
  assert (heads_upto (held n1) (store_len (c_stores (n_you n1)) w)) as Hup1 by (apply (no_me _ _ Hn1)).
  assert (net_le n1 n') as Hle2.
  { clear -H2 Hn1 Hlk1 HG Hw0 Hdevs Hout signs. induction H2 as [|k n1 n2 n3 H1 H2 IH]; [reflexivity|].
    destruct (round_progress _ _ Hn1 Hlk1 H1) as (Hn2 & Hle & Hlk2 & _). etrans; [exact Hle|]. by apply IH. }
  destruct (decide (Exists (λ d, head_at (held n) d < N.of_nat (store_len (c_stores (n_me n)) w d)) devs)) as [Hlag|Hno].
  - apply Exists_exists in Hlag as (x & _ & Hlag). destruct (Hraise (ex_intro _ x Hlag)) as [y Hy].
    etrans; [apply ops_at_le, Hle1|]. apply (IH n1 n' Hn1 Hlk1); [|done].
    assert (missing n1 < missing n)%nat; [|lia]. unfold missing.
    assert (N.to_nat (head_at (held n1) y) ≤ length (G w y))%nat as Hy1.
    { specialize (Hup1 y). pose proof (prefix_length _ _ (ops_at_prefix (c_stores (n_you n1)) y (co_logs _ _ _ (no_you _ _ Hn1)))) as Hp.
      rewrite ops_at_length in Hp. lia. }
    apply (sum_list_lt _ _ _ y).
    + intros z. specialize (Hh1 z). lia.
    + destruct (decide (y ∈ devs)) as [|Hy']; [done|]. rewrite (Hout y Hy') in Hy1. cbn in Hy1. lia.
    + lia.
  - assert (store_len (c_stores (n_me n)) w d ≤ N.to_nat (head_at (held n) d))%nat as Hheld.
    { destruct (decide (d ∈ devs)) as [Hd|Hd].
      - destruct (N.lt_ge_cases (head_at (held n) d) (N.of_nat (store_len (c_stores (n_me n)) w d))) as [Hlt|Hge]; [|lia].
        exfalso. apply Hno, Exists_exists. eauto.
      - pose proof (prefix_length _ _ (ops_at_prefix (c_stores (n_me n)) d (co_logs _ _ _ (no_me _ _ Hn)))) as Hp.
        rewrite ops_at_length, (Hout d Hd) in Hp. cbn in Hp. lia. }
    assert (heads_upto (held n) (store_len (c_stores (n_you n)) w)) as Hup by (apply (no_me _ _ Hn)). specialize (Hup d).
    etrans; [|apply ops_at_le; etrans; [apply Hle1|apply Hle2]].
    pose proof (ops_at_prefix (c_stores (n_me n)) d (co_logs _ _ _ (no_me _ _ Hn))) as Hp1.
    pose proof (ops_at_prefix (c_stores (n_you n)) d (co_logs _ _ _ (no_you _ _ Hn))) as Hp2.
    destruct (prefix_weak_total _ _ _ Hp1 Hp2) as [?|Hrev]; [done|].
    assert (length (ops_at (c_stores (n_me n)) d) ≤ length (ops_at (c_stores (n_you n)) d))%nat as Hlen by (rewrite !ops_at_length; lia).
    destruct Hrev as [k0 Hk0]. rewrite Hk0, length_app in Hlen. destruct k0; [|simpl in Hlen; lia].
    rewrite app_nil_r in Hk0. by rewrite Hk0.
Qed.
End progress.

(** C1. What a device stores gets to the other: take two devices on a link, both carrying a workspace and
    their greetings exchanged, in any state their moves can leave (a batch in flight or lost, acks on
    their way). After as many rounds as there are ops the other is not known to hold, and one, the other
    device stores every op the first one stored at the start. *)
Theorem sync_delivers (P : Primitives) (sends : WorkspaceId → Message → bool) (key : DeviceSigningKey)
  (G : WorkspaceId → DeviceId → list Op) (w : WorkspaceId) (devs : list DeviceId) (n n' : Net) (k : nat) :
  (∀ w, origins_ok (G w)) → (∀ ops, is_Some (sign_ops P ops key)) → w ≠ LINK_WORKSPACE →
  (length devs ≤ MAX_DEVICES_PER_HEADS)%nat → (∀ d, d ∉ devs → G w d = []) →
  net_ok G n → linked w n → (missing G w devs n < k)%nat → rounds P sends key w k n n' →
  ∀ d, ops_at w (c_stores (n_me n)) d `prefix_of` ops_at w (c_stores (n_you n')) d.
Proof. intros HG signs Hw Hdevs Hout Hn Hlk Hk Hr. by eapply rounds_deliver. Qed.

(** ** One op on its way: the batch was sent once and is sent again *)

Definition sample_turns (mine : bool) (t : N) (k : nat) : list Move := replicate k (MTurn mine true (sample_env t)).
Definition sample_linked_moves : list Move :=
  MConnect 100 100 0 :: map (λ p, MTurn (fst p) true (sample_env (snd p)))
    [(false, 1); (true, 1); (true, 2); (false, 2); (false, 3); (true, 3); (true, 4); (true, 5)].
Definition sample_run : Net → list Move → Net := net_run sample_primitives (λ _ _, true) [x05].
Definition sample_linked : Net := sample_run sample_net sample_linked_moves.
Definition sample_round (t : N) (n : Net) : Net :=
  sample_run (sample_run (sample_run n [MTurn true false (sample_env t)]) (sample_turns false t 5)) (sample_turns true t 5).

Lemma sample_quiet mine t k : Forall quiet (sample_turns mine t k).
Proof. apply Forall_forall. intros m Hm. apply elem_of_replicate_inv in Hm as ->. done. Qed.

Lemma sample_round_ok t n :
  (∀ since, l_waiting_since (c_live (n_me n)) !! 9 = Some since → RESEND_AFTER <= t - since) →
  HEARTBEAT <= t - l_last_sweep (c_live (n_me n)) →
  (length (n_out (sample_run n [MTurn true false (sample_env t)])) ≤ 5)%nat →
  (length (n_in (sample_run (sample_run n [MTurn true false (sample_env t)]) (sample_turns false t 5))) ≤ 5)%nat →
  n_up (sample_round t n) = true →
  round sample_primitives (λ _ _, true) [x05] 9 n (sample_round t n).
Proof.
  intros H1 H2 H3 H4 H5. exists (sample_env t), (sample_turns false t 5), (sample_turns true t 5).
  split_and!; [done| |by split|done|done|done].
  constructor; [done|]. apply Forall_app. split; apply sample_quiet.
Qed.

Lemma sample_signs ops : is_Some (sign_ops sample_primitives ops [x05]).
Proof.
  unfold sign_ops. induction ops as [|op ops [sigs IH]]; [by eexists|]. cbn [sign_all]. cbn [sign sample_primitives signing_bytes ok_or mbind result_bind].
  destruct (sign_all sample_primitives ops [x05]); [|done]. by eexists.
Qed.

Lemma sample_net_ok : net_ok sample_origins sample_linked.
Proof.
  assert (net_ok sample_origins sample_net) as H0.
  { split; [| |apply out_ok_nil|apply out_ok_nil];
      (split; [intros w r Hr; cbn in Hr; apply lookup_singleton_Some in Hr as [<- <-]; apply sample_log_ok; auto|intros w ws; cbn; by rewrite lookup_empty|apply live_inv_new]). }
  apply (net_run_ok sample_primitives (λ _ _, true) [x05] sample_origins sample_origins_ok sample_net); [exact H0|].
  unfold sample_linked_moves. cbn [map fst snd]. repeat (constructor; [exact I|]). constructor.
Qed.

Lemma sample_linked_linked : linked 9 sample_linked.
Proof.
  assert (∀ c : Conn, bool_decide (is_Some (s_peer (c_session c)) ∧ 9 ∈ c_routes c ∧ is_Some (c_stores c !! 9)) = true → carries 9 c) as Hc.
  { intros c (? & ? & ?)%bool_decide_eq_true. by split. }
  split.
  - apply Hc. vm_compute. reflexivity.
  - apply Hc. vm_compute. reflexivity.
  - apply (bool_decide_unpack _). vm_compute. exact I.
  - intros asked d H. vm_compute in H. discriminate H.
  - intros m H. assert (forallb (λ p, negb (is_greet (snd p))) (n_out sample_linked) = true) as Hb by (vm_compute; reflexivity).
    rewrite forallb_forall in Hb. apply list_elem_of_In, Hb, negb_true_iff in H. done.
  - intros m H. assert (n_in sample_linked = []) as Hn by (vm_compute; reflexivity). rewrite Hn in H. clear Hn. apply elem_of_nil in H. destruct H.
Qed.

Lemma sync_delivers_witness :
  ops_at 9 (c_stores (n_you sample_linked)) 7 = []
  ∧ [sample_op 1 7 1] `prefix_of` ops_at 9 (c_stores (n_you (sample_round 20100 (sample_round 10010 sample_linked)))) 7.
Proof.
  split; [vm_compute; reflexivity|].
  assert (ops_at 9 (c_stores (n_me sample_linked)) 7 = [sample_op 1 7 1]) as <- by (vm_compute; reflexivity).
  refine (sync_delivers sample_primitives (λ _ _, true) [x05] sample_origins 9 [7] sample_linked
    (sample_round 20100 (sample_round 10010 sample_linked)) 2 sample_origins_ok sample_signs _ _ _ sample_net_ok sample_linked_linked _ _ 7).
  - done.
  - vm_compute. lia.
  - intros d Hd. unfold sample_origins. destruct (N.eqb_spec d 7) as [->|]; [|done]. exfalso. apply Hd. by left.
  - vm_compute. lia.
  - apply (rounds_S _ _ _ _ 1 _ (sample_round 10010 sample_linked)); [|apply (rounds_S _ _ _ _ 0 _ (sample_round 20100 (sample_round 10010 sample_linked))); [|apply rounds_O]].
    all: apply sample_round_ok; [intros since H; vm_compute in H; (injection H as <-; vm_compute; discriminate) || discriminate H|vm_compute; discriminate|vm_compute; lia|vm_compute; lia|vm_compute; reflexivity].
Defined.
